(* ===== verification/_CoqProject ===== *)
-Q . S2P
Prelude.v
Text.v
Facts.v
ClientNames.v
HierarchyTypes.v
HierarchyWorkspace.v
HierarchyState.v
HierarchyValidate.v
Host.v
DiskJournal.v
DurabilityProofs.v
DurabilityTheorems.v
ClientJournal.v
ClientEdit.v
NamesProofs.v
ForestInv.v
Forest.v
HierarchyInv.v
ValidateProofs.v
TreeOps.v
EditOps.v
DeviceOps.v
HostProofs.v
Demo.v
JournalTheorems.v
EditTheorems.v
ServerTheorems.v
DeviceFrame.v
Delivery.v
F32.v
PaneLayout.v
CloseConfirmation.v
PaneTab.v
PaneTabProofs.v
PaneTheorems.v
LayoutTheorems.v
Slots.v
WorkspaceCollection.v
WorkspaceTheorems.v
TabCollection.v
TabOrder.v
TabTheorems.v
Liveness.v
Messages.v
Wire.v
WireTheorems.v
Outbox.v
OutboxProofs.v
OutboxTheorems.v
Link.v
Admission.v
ClientOrder.v
AdmissionTheorems.v
LinkProofs.v
LinkTheorems.v
LinkRequests.v
SessionTheorems.v
Runs.v
WorkspaceOrder.v
Attachments.v
Bytes.v
WorktreePaths.v
WorktreeList.v
Porcelain.v
PorcelainTheorems.v
RepositoryRead.v
RemoteUrl.v
UpdateVersions.v
UpdateHistory.v
Updater.v
UpdaterTheorems.v
Screen.v
ScreenEncoder.v
ScreenDecoder.v
ScreenLines.v
ScreenTheorems.v
Scrollback.v
ScrollbackView.v
HistoryTracker.v
Keybindings.v
