(* ===== verification/Prelude.v ===== *)
(** * SpaceTerm: shared Workspaces, layout and connections, verified

    SpaceTerm is a terminal whose Workspaces live in a server (the Core). Any
    number of clients (desktops and the command line) see the same hierarchy of
    Workspaces, Tabs and Panes and edit it with journaled operations; a desktop
    keeps its own layout of them. This library models the code that owns the
    hierarchy and carries the edits, the desktop's layout, and the protocol
    between server and client, and proves what makes them correct. Paths below
    are relative to [src/].

    ** The program's parts

    - [crates/spaceterm-core/src/hierarchy.rs] is the shared state: the
      inventory (Workspaces, Tabs, Panes), Workspace names, and per device the
      outcomes it has not acknowledged. [State::apply] runs one operation of one
      device; [State::validate] is the check a stored record must pass.
    - [src/runtime/core_host/workspaces.rs] and its neighbours are the server
      ([WorkspaceHost]): they add live facts to the inventory, call [apply], run
      worktree operations, commit every change, and recover after failed writes.
    - [workspaces/journal.rs] orders commits under the host's lock and writes
      them off it; [workspaces/publication.rs] shows clients an inventory only
      once its revision is retained.
    - [ClientJournal] (end of [hierarchy.rs]) records a client's one pending
      operation and the outcomes it has not presented. The command line
      ([crates/spaceterm-cli/src/journal.rs]) and the desktop
      ([src/terminal/workspace_client.rs]) carry out edits through it.
    - [src/domain/tab.rs], [tab_collection.rs] and [workspace_collection.rs] are
      the desktop's layout: a tree of Panes per Tab with focus, zoom and ratios,
      the Tabs of a Workspace by Worktree, the Workspaces of a window. What a
      close hides until it is confirmed keeps its place;
      [src/close_confirmation.rs] decides which closes are asked for.
    - [crates/spaceterm-core/src/protocol] and [.../connection] carry messages:
      [frame.rs] splits them into frames and joins them again, [outbox.rs] holds
      what a server connection has to write by priority and credit, [health.rs]
      judges when a peer is gone, [link.rs] is the client's half of a connection
      and [admitted.rs] the server's, which decides what reaches the service.
    - [pane/run.rs] keeps a receipt per command a client ran in a Pane, settled by
      the terminal's markers; [attachments.rs] and [workspace_order.rs] are what a
      client stores about the servers' Workspaces it shows and their order.
    - [worktree/path_template.rs] and [src/worktrees/ref_format.rs] propose a new
      Worktree's directory and check the name of its branch;
      [src/worktrees/listing.rs] reads Git's list of Worktrees and
      [src/domain/worktree.rs] gives each its handle.
    - [src/repository_status] reads what Git prints about a repository: status,
      configuration, location, unfinished operations, versions and remotes.
    - [src/updates.rs] is the desktop's updater with its history in
      [updates/policy.rs]; [crates/spaceterm-core/src/update] orders versions and
      decides which candidate a Core may install.
    - [src/runtime/core_host/screen_encoder.rs] sends a Pane's screen as frames
      against the frame its client holds, [protocol/screen.rs] and
      [pane/graphics.rs] check them, and
      [src/terminal/core_session/screen_decoder.rs] shows them.
    - [src/terminal/core_session/scrollback.rs] and its directory hold the history rows a
      client reads back, by the positions [src/terminal/emulator/history.rs] gives them.
    - [src/keybindings.rs] and its directory decide which chord runs which Command, from a
      profile of the desktop ([src/desktop_profile/default_keymap.rs],
      [src/platform/linux_default_keymap.rs] and the reserved chords beside them), the keyboard
      layout and what a person retained.

    ** The files

    Definitions of the program:
    - [Prelude]: Rust results, fixed-width integers, vector operations, tactics.
    - [Text]: UTF-8 strings, paths, trimming, control characters, [file_name].
    - [Facts]: the data other crates attach to the hierarchy ([repository.rs],
      [pane/metadata.rs], [pane/control.rs], [worktree.rs], error types).
    - [ClientNames]: [for_cli], [for_computer] and the server's [ClientNames] of
      [pane/control.rs], agent names of [protocol/admission.rs], [negotiate] of
      [protocol/version.rs]; it holds their theorems too.
    - [HierarchyTypes], [HierarchyWorkspace],
      [HierarchyState], [HierarchyValidate]: [hierarchy.rs] in order: types and
      bounds; moves inside a Workspace; [recalculate_names]; every operation of
      [State]; [State::validate] and [State::first].
    - [Host]: the transitions of [WorkspaceHost] ([mutate], [begin_worktree],
      [settle_worktree], [start_prepared], [retire_outcome], [forget],
      [synchronize], [restore_organization], [prepare_initial_organization]) and
      [reconcile_membership] of [repositories.rs].
    - [DiskJournal]: [Journal] and [Publication]. A method that releases its
      lock is split at those points ([sync_turn], [wrote], [reported]).
    - [ClientJournal]: the client's journal with the fate of every write.
    - [ClientEdit]: [dispatch], [resolve], [finish], [acknowledge],
      [settle_journal] of the command line and [finish] of the desktop.
    - [F32]: binary32 arithmetic of Corelib's [SpecFloat] with [f32::clamp].
      [PaneLayout], [PaneTab]: the layout tree and every operation of [Tab].
      [TabCollection], [WorkspaceCollection]: every operation of the collections,
      a panic being [None]. [CloseConfirmation]: the approvals of closes.
    - [Messages]: the messages of the protocol, their limits and validation.
      [Wire]: frames, [FrameReader] and [Assembler]. [Outbox]: every call on
      [Outbox], with [next_frame_within] split where it releases the lock.
      [Liveness]: [health.rs] and its theorems.
    - [Link]: every call of [CoreLink] and [ChannelHandle] under its lock, with
      [dispatch] and [check] split where they release it. [Admission]: every
      operation of [AdmittedConnection], with [Peer] and [SyncWorker::reply].
    - [Runs]: every operation of [Runs]. [WorkspaceOrder]: the order's operations
      and its store. [Attachments]: the stored choices, with the fate of a write.
    - [Bytes]: encoding and strict decoding of UTF-8, splitting, prefixes and
      numbers in text. [WorktreePaths]: templates and branch names.
      [WorktreeList]: the listing and the registry of handles.
    - [Porcelain]: [porcelain.rs] and [display_text.rs]. [RepositoryRead]:
      [discovery.rs], [operation.rs] and [tools.rs]. [RemoteUrl]: [remote_url.rs].
    - [UpdateVersions]: [ordering.rs], [check.rs] and the versions of [facts.rs].
      [UpdateHistory]: [updates/policy.rs]. [Updater]: [UpdateModel] and every call
      on [ApplicationUpdates]; the adapter's answers are arguments, what it is
      asked is a list, and one call reads the clock once.
    - [Screen]: [protocol/screen.rs] and [pane/graphics.rs]. [ScreenEncoder]: the
      whole of [screen_encoder.rs] and [graphics::encode]; a row or link that an
      [Arc] shares is the number of its allocation. [ScreenDecoder]:
      [screen_decoder.rs] without the [Presenter], and links from the wire.
    - [Scrollback]: [scrollback/cache.rs], [Viewport] of [view.rs] and [route.rs], and the
      placeholders; it holds the invariant of the cache too. [ScrollbackView]: [row.rs] and the
      [Scrollback] over the cache, with what [compose] shows without a Selection.
      [HistoryTracker]: [history.rs] with the engine's answers as arguments.
    - [Keybindings]: Commands, Shortcuts and their spelling, layouts, reserved chords,
      profiles with [resolve], [assign] and [reset], the two shipped profiles without the
      developer tools, and in [Runtime] the list of bindings the framework holds.

    Invariants and transition systems:
    - [NamesProofs]: allocation and recalculation of names.
    - [ForestInv], [Forest]: unique identities, roots and sources that exist,
      valid paths; each tree edit keeps them.
    - [HierarchyInv]: the invariant [Inv] (named forest, device records, live
      facts). [ValidateProofs]: the declarative predicate [Valid].
    - [TreeOps], [EditOps], [DeviceOps]: every operation of [State] keeps [Inv].
    - [HostProofs]: the server as the transition system [server_step].
    - [DurabilityProofs]: journal, store and publication as the transition
      system [sys_step], any number of threads inside [sync].
    - [DeviceFrame]: what each server operation does to one device's record.
    - [Delivery]: client, link, server, disk and crashes as [dl_step].
    - [PaneLayout], [PaneTabProofs]: the invariant of a Tab
      and that each operation keeps it. [Slots]: an order of members of which
      some are hidden, the abstract specification of both collections;
      [TabOrder]: how Tab calls act on it.
    - [ClientOrder]: the order of a client's messages that both ends agree on, the
      interface between [LinkProofs], the invariant of a link, and the server.
    - [OutboxProofs]: what an outbox holds; the calls of any thread
      and the steps of the I/O thread as one machine ([conn_step]).
    - [ScreenLines]: the runs of a row against the cells they stand for, and what a
      client holds of the encoder's tables.

    Properties, with concrete runs that satisfy their hypotheses ([Demo] and the
    [Run] modules):
    - [ServerTheorems]: every state and record of a running server passes
      [validate]; [validate] decides [Valid]; [apply] keeps it; names are unique,
      allocation ends; placements; recovery; worktree membership.
    - [EditTheorems]: closes remove exactly what was confirmed, moves and merges
      conserve Panes, refused operations change nothing, renames are fenced.
    - [JournalTheorems]: retries replay, reused and settled sequences are stale,
      outcomes survive until acknowledged.
    - [DurabilityTheorems]: what was answered or shown is on disk for good;
      replies follow publication; [sync] ends.
    - [ClientJournal], [ClientEdit]: the client's journal is atomic and
      bounded, and an edit that was sent is never forgotten silently.
    - [ClientNames]: names are bounded visible text and stable under a second
      bounding, agent names stay whole, the table of names is bounded and forgets
      only its oldest, negotiation agrees on the shared major.
    - [Delivery]: no submission is executed twice, retired ones are
      durable, pending ones are never refused as stale.
    - [PaneTheorems], [LayoutTheorems]: along every sequence of calls a Tab stays
      well formed; park and restore are a round trip; closes, moves, drops,
      directional focus and resizes do exactly what they say, and the one call
      that can panic is shown.
    - [TabTheorems], [WorkspaceTheorems]: the collections refine [Slots].
    - [WireTheorems]: what one peer writes the other reads, however the bytes are
      segmented; what a connection buffers is bounded against any peer.
    - [OutboxTheorems]: under every interleaving of calls with the I/O thread the
      client reads whole messages and every accepted reply once, and the queues
      stay bounded; an event a race loses is shown.
    - [LinkTheorems], [AdmissionTheorems]: a link writes in [ClientOrder] under every
      interleaving of its callers with its I/O thread; a server hands on inputs in
      order and requests with authority, whatever the client sends, and refuses no
      client that keeps the order. [SessionTheorems] composes both over the bytes.
      [LinkRequests]: every request is answered once, a paste arrives whole.
    - [Runs]: a receipt reads finished exactly when the markers of its
      Session bind a status to its command, and settles once and for good.
    - [WorkspaceOrder]: a recorded order is restored for whatever part of it is
      presented, and a partial reconnect moves nothing.
    - [Attachments]: ended attachments stay ended, releases are owed until
      they are delivered, and what a client wrote it opens again.
    - [WorktreePaths]: a proposed Worktree stays below its start, and the
      check of a branch name is Git's rule. [WorktreeList]: a listing is read back
      whole, and a handle never names a second Worktree.
    - [PorcelainTheorems], [RepositoryRead], [RemoteUrl]: what Git prints is
      what is read, wherever its output is cut; what a parser keeps is bounded; an
      owner, name and host taken from a remote are safe arguments.
    - [UpdateVersions], [UpdateHistory]: only newer releases are admitted, a deadline
      is never postponed, and the next wake-up is the first moment anything changes.
    - [UpdaterTheorems]: along every run an installation follows consent.
    - [ScreenTheorems]: along every run of captures a client shows the server's
      screen ([screens_shown], from the invariant [channel_inv]); pages of Scrollback
      are read back; any update keeps the decoder's grid; an unchanged screen sends
      nothing. [lossy] says whether links may be missing, which only a screen with more
      links than the table holds needs.
    - [ScrollbackView]: what a client reads back is the Session's history along every run;
      pages are asked for exactly; packed rows are read back; a scrolled view stays. These
      assume that replies are settled in the Session they report, which the code does not
      ensure ([stale_page_is_cached]). [HistoryTracker]: positions name one row for good,
      which is what the others assume of one Session's history.
    - [Keybindings]: a chord has one owner, an assignment takes effect at once, a reset
      restores, no change makes the settings invalid, spellings read back, the shipped
      profiles install, and the framework's list holds the current keymap in its place.
      The two that name a Command assume its defaults are no other's on the layout
      ([own_defaults]), which holds for the shipped profiles on the layout they are checked
      against.

    ** Conventions

    An [&mut self] method returns the state it leaves behind, refusals included.
    [Result] is [result]; [u64] and [u32] counters are [N] with their overflow
    written out (release builds wrap on [+]); 32-byte identities are [N]; paths
    are lists of bytes and compare by components as [Path] does ([path_eqb]).
    Random identities come from a list of draws, where [None] is a failed read;
    theorems that create identities assume [fresh_draws]: the drawn ones are
    nonzero, distinct and unused, which 256-bit random values violate only with
    negligible probability. Directories that the filesystem or Git return are
    assumed valid ([start_ok], [report_ok], [snapshot_ok]).

    The postcard encoding of a message is the class [Postcard] with the law
    [PostcardLaw] (what was encoded is decoded before any trailing bytes), the
    payloads a connection only carries are the class [Payloads], and a Pane's
    screen and semantic model are interfaces of [Outbox]. Theorems on runs of an
    outbox count fewer than 2^64 steps, so that frame numbers do not wrap.

    The one search with fuel is [allocate_name]: its fuel is one more than the
    number of occupied names, which [allocate_name_first] proves enough. The
    polls of [confirm] stand for the client's clock; [free_id] tries one id more
    than there are requests in flight, which [free_id_found] proves enough; [chunks] and [read_frames]
    recurse on lengths that bound their steps, and each round
    of [template_pieces] consumes two characters of the text whose length is its fuel.
    Each round of [push_loop] and [config_push_loop] consumes a byte of the chunk whose
    length is the fuel, and [parse_modifiers] drops a dash per round ([parse_modifiers_enough]). [receive] of the updater calls itself only to receive a refusal
    or an end, which start nothing ([receive_starts_nothing]), so depth two is enough. A
    screen's captures have the sizes a peer accepts ([capture_ok]); the order in which a
    [HashMap] lists votes for a scroll is the argument [arrange], and the files a client may
    open the argument [local_files]. In [DurabilityProofs] a
    process submits fewer than 2^64 commits and recovers fewer than 2^64 times.
    In [Delivery] a device's idle record is replaced only while no request of
    one of its settled operations is still in flight, and a link answers
    [Resolve] after the [Mutate] it sent before.

    ** What is not modelled

    JSON encoding and migrations (serde, file formats), sockets and QUIC,
    waking of threads, Git subprocesses and worker threads, process control of Terminal
    Sessions, pairing and key exchange. They appear, where the modelled code depends on
    them, as parameters, as the fates of writes and requests, or as hypotheses on
    returned directories. A client's Selection, Find and copying appear only as they ask
    for rows of Scrollback.

    The emulator drives a third-party terminal library and the interface a third-party
    framework: their behaviour is not in this repository, so only what passes between
    them is modelled ([ScreenCapture], [DecodedScreen], the layout of a window, the list of key
    bindings). Settings files, themes,
    connection records, activation and provisioning read and write the operating system's
    files and services. The command line's output and the presentation of a repository's
    status are formatting of values that are modelled. *)
From Corelib Require Export ssreflect.
From stdpp Require Export base list gmap fin_maps strings pretty.
#[global] Open Scope general_if_scope.

(** ** Rust results *)

(** [Result<A, E>]. *)
Inductive result (A E : Type) : Type :=
  | Ok (a : A)
  | Err (e : E).
Arguments Ok {A E} a.
Arguments Err {A E} e.

#[export] Instance result_eq_dec {A E} `{EqDecision A, EqDecision E} : EqDecision (result A E).
Proof. solve_decision. Defined.

Definition is_ok {A E} (r : result A E) : bool :=
  match r with Ok _ => true | Err _ => false end.

Definition result_bind {A B E} (r : result A E) (k : A → result B E) : result B E :=
  match r with Ok a => k a | Err e => Err e end.

Definition ok_or {A E} (o : option A) (e : E) : result A E :=
  match o with Some a => Ok a | None => Err e end.

Declare Scope rust_scope.
Delimit Scope rust_scope with rust.
(** [let x = e?; k] in a function that returns a [Result]. *)
Notation "'let?' x ':=' c 'in' k" := (result_bind c (fun x => k))
  (at level 10, x pattern, c at level 200, k at level 200) : rust_scope.
Open Scope rust_scope.

(** ** Fixed-width integers

    Counters of type [u64] and [u32] are [N] below the type's modulus; each
    operation writes out what Rust does at the bound. The release profile of
    the workspace leaves overflow checks off, so a bare [+] wraps. *)

Definition u64_modulus : N := 18446744073709551616.
Definition u64_max : N := 18446744073709551615.
Definition u32_max : N := 4294967295.

Definition u64_wrapping_add (a b : N) : N := ((a + b) mod u64_modulus)%N.
Definition u64_checked_add (a b : N) : option N :=
  if (a + b <=? u64_max)%N then Some (a + b)%N else None.
Definition u64_saturating_add (a b : N) : N := N.min (a + b) u64_max.

(** ** Vectors *)

(** [Iterator::find] over a vector. *)
Definition vfind {A} (p : A → bool) (l : list A) : option A := List.find p l.

(** [Iterator::any] and [Iterator::all]. *)
Definition vany {A} (p : A → bool) (l : list A) : bool := existsb p l.
Definition vall {A} (p : A → bool) (l : list A) : bool := forallb p l.

(** [Vec::retain], [Iterator::filter]. *)
Definition vfilter {A} (p : A → bool) (l : list A) : list A := List.filter p l.

(** [Iterator::find_map]. *)
Fixpoint vfind_map {A B} (f : A → option B) (l : list A) : option B :=
  match l with
  | [] => None
  | x :: l => match f x with Some y => Some y | None => vfind_map f l end
  end.

(** [Iterator::position]. *)
Fixpoint vposition {A} (p : A → bool) (l : list A) : option nat :=
  match l with
  | [] => None
  | x :: l => if p x then Some 0 else S <$> vposition p l
  end.

(** [Iterator::rposition]. *)
Definition vrposition {A} (p : A → bool) (l : list A) : option nat :=
  (λ i, length l - S i) <$> vposition p (rev l).

(** [Vec::swap_remove] of an index in range. *)
Definition swap_remove {A} (i : nat) (l : list A) : list A :=
  match last l with
  | Some x => if S i =? length l then removelast l else <[i := x]> (removelast l)
  | None => l
  end.

(** [iter_mut().find(p)] followed by a write through the reference: the first
    element that satisfies [p] is replaced, and nothing changes without one. *)
Fixpoint vupdate {A} (p : A → bool) (f : A → A) (l : list A) : list A :=
  match l with
  | [] => []
  | x :: l => if p x then f x :: l else x :: vupdate p f l
  end.

(** [Vec::remove(i)] of an index in range. *)
Definition vremove {A} (i : nat) (l : list A) : list A := take i l ++ drop (S i) l.

(** [Vec::insert(i, x)] at an index of at most the length. *)
Definition vinsert {A} (i : nat) (x : A) (l : list A) : list A := take i l ++ x :: drop i l.

(** [iter().map(f).sum::<usize>()]. *)
Definition vsum {A} (f : A → nat) (l : list A) : nat := sum_list_with f l.

(** [iter().take_while(p).count()]. *)
Fixpoint take_while_count {A} (p : A → bool) (l : list A) : nat :=
  match l with
  | [] => 0
  | x :: l => if p x then S (take_while_count p l) else 0
  end.

(** Collecting options stops at the first [None]. *)
Fixpoint vcollect {A} (l : list (option A)) : option (list A) :=
  match l with
  | [] => Some []
  | None :: _ => None
  | Some x :: l => match vcollect l with Some l' => Some (x :: l') | None => None end
  end.

(** ** Generic laws *)

Create HintDb hier discriminated.

(** Case analysis on the boolean tests and options of translated code. *)
Ltac case_bool :=
  match goal with
  | |- context [bool_decide ?P] => destruct (bool_decide_reflect P)
  | H : context [bool_decide ?P] |- _ => destruct (bool_decide_reflect P)
  end.
Ltac split_orb :=
  repeat match goal with
  | H : _ || _ = false |- _ => apply orb_false_iff in H as [? ?]
  | H : _ && _ = true |- _ => apply andb_true_iff in H as [? ?]
  | H : negb _ = false |- _ => apply negb_false_iff in H
  | H : negb _ = true |- _ => apply negb_true_iff in H
  end.

(** Takes one step of a concrete run and evaluates the state it reaches. *)
Ltac evaluate :=
  match goal with
  | |- rtc _ ?x _ =>
      let v := eval vm_compute in x in
      replace x with v by (vm_compute; reflexivity)
  end.
Ltac run_step t := eapply rtc_l; [t|]; evaluate.

Section vectors.
Context {A : Type}.
Implicit Types (p : A → bool) (l : list A).

Lemma vfind_Some p l x :
  vfind p l = Some x → p x = true ∧ x ∈ l.
Proof.
  unfold vfind. intros H. apply find_some in H as [? ?]. by rw list_elem_of_In.
Qed.

Lemma vfind_None p l : vfind p l = None → ∀ x, x ∈ l → p x = false.
Proof. unfold vfind. intros H x Hx%list_elem_of_In. by eapply find_none. Qed.

Lemma vfind_is_Some p l x : x ∈ l → p x = true → is_Some (vfind p l).
Proof.
  intros Hx Hp. destruct (vfind p l) eqn:E; [done|].
  by rw (vfind_None _ _ E x Hx) in Hp.
Qed.

Lemma vfind_split p l x :
  vfind p l = Some x →
  ∃ l1 l2, l = l1 ++ x :: l2 ∧ p x = true ∧ Forall (λ y, p y = false) l1.
Proof.
  unfold vfind. induction l as [|y l IH]; simpl; [done|].
  destruct (p y) eqn:E.
  - intros [= ->]. exists [], l. done.
  - intros (l1 & l2 & -> & ? & ?)%IH. exists (y :: l1), l2. eauto.
Qed.

Lemma vupdate_split p f l1 x l2 :
  Forall (λ y, p y = false) l1 → p x = true →
  vupdate p f (l1 ++ x :: l2) = l1 ++ f x :: l2.
Proof.
  intros H Hx. induction H as [|y l1 Hy _ IH]; simpl; [by rw Hx | by rw Hy IH].
Qed.

Lemma vupdate_none p f l : Forall (λ y, p y = false) l → vupdate p f l = l.
Proof. induction 1 as [|y l Hy _ IH]; simpl; [done|]. by rw Hy IH. Qed.

(** A write through the first match is found again. *)
Lemma vfind_vupdate p f l x :
  vfind p l = Some x → p (f x) = true → vfind p (vupdate p f l) = Some (f x).
Proof.
  intros (l1 & l2 & -> & Hx & Hl)%vfind_split Hf. rw vupdate_split //. unfold vfind.
  induction Hl as [|y l1 Hy _ IH]; simpl; [by rw Hf | by rw Hy].
Qed.

Lemma vany_true p l : vany p l = true ↔ ∃ x, x ∈ l ∧ p x = true.
Proof.
  unfold vany. rw existsb_exists. setoid_rewrite list_elem_of_In. done.
Qed.

Lemma vany_false p l : vany p l = false ↔ ∀ x, x ∈ l → p x = false.
Proof.
  rw -not_true_iff_false vany_true. split.
  - intros H x Hx. destruct (p x) eqn:E; [|done]. exfalso. eauto.
  - intros H (x & Hx & Hp). rw H in Hp; done.
Qed.

Lemma elem_of_vfilter p l x : x ∈ vfilter p l ↔ p x = true ∧ x ∈ l.
Proof. unfold vfilter. rw !list_elem_of_In filter_In. tauto. Qed.

Lemma vposition_Some p l i :
  vposition p l = Some i →
  ∃ l1 x l2, l = l1 ++ x :: l2 ∧ length l1 = i ∧ p x = true ∧ Forall (λ y, p y = false) l1.
Proof.
  revert i. induction l as [|y l IH]; simpl; intros i; [done|].
  destruct (p y) eqn:E.
  - intros [= <-]. exists [], y, l. done.
  - intros (j & Hj & ->)%fmap_Some. destruct (IH _ Hj) as (l1 & x & l2 & -> & <- & ? & ?).
    exists (y :: l1), x, l2. simpl. eauto.
Qed.

Lemma vposition_None p l : vposition p l = None → Forall (λ y, p y = false) l.
Proof.
  induction l as [|y l IH]; simpl; [done|].
  destruct (p y) eqn:E; [done|]. intros H%fmap_None. eauto.
Qed.

Lemma vremove_split l1 x l2 : vremove (length l1) (l1 ++ x :: l2) = l1 ++ l2.
Proof.
  unfold vremove. rw take_app_length. f_equal.
  replace (S (length l1)) with (length (l1 ++ [x])) by (rw length_app; simpl; lia).
  replace (l1 ++ x :: l2) with ((l1 ++ [x]) ++ l2) by by rw -app_assoc.
  by rw drop_app_length.
Qed.

Lemma lookup_split (l1 l2 : list A) x : (l1 ++ x :: l2) !! length l1 = Some x.
Proof. by rw lookup_app_r // Nat.sub_diag. Qed.

Lemma vsum_app (f : A → nat) l1 l2 : vsum f (l1 ++ l2) = vsum f l1 + vsum f l2.
Proof. apply sum_list_with_app. Qed.

Lemma vupdate_length p f l : length (vupdate p f l) = length l.
Proof. induction l as [|y l IH]; simpl; [done|]. destruct (p y); simpl; auto. Qed.

Lemma vupdate_map {B} (g : A → B) p f l :
  (∀ x, g (f x) = g x) → map g (vupdate p f l) = map g l.
Proof.
  intros Hg. induction l as [|y l IH]; simpl; [done|]. destruct (p y); simpl; f_equal; auto.
Qed.

Lemma vupdate_Forall (P : A → Prop) p f l :
  Forall P l → (∀ x, p x = true → P x → P (f x)) → Forall P (vupdate p f l).
Proof.
  intros HP Hf. induction HP as [|y l Hy HP IH]; simpl; [done|].
  destruct (p y) eqn:E; eauto.
Qed.
End vectors.
#[export] Hint Resolve vupdate_length : hier.

Lemma NoDup_submseteq_l {A} (l k : list A) : l ⊆+ k → NoDup k → NoDup l.
Proof.
  intros (r & Hp)%submseteq_Permutation Hk. rw Hp in Hk. by apply NoDup_app in Hk as (? & _).
Qed.

Lemma NoDup_vfilter {A} (p : A → bool) (l : list A) : NoDup l → NoDup (vfilter p l).
Proof.
  unfold vfilter. induction 1 as [|x l Hx Hl IH]; simpl; [constructor|]. destruct (p x); [|done].
  constructor; [|done]. contradict Hx. by apply elem_of_vfilter in Hx as [_ ?].
Qed.

Lemma vfilter_perm {A} (pr : A → bool) ks js : ks ≡ₚ js → vfilter pr ks ≡ₚ vfilter pr js.
Proof.
  unfold vfilter. induction 1 as [|x ks js _ IH|x y ks|]; simpl; [done| | |by etrans].
  - destruct (pr x); by rw IH.
  - destruct (pr x), (pr y); try done. constructor.
Qed.

Lemma swap_remove_perm {A} (a b : list A) x : swap_remove (length a) (a ++ x :: b) ≡ₚ a ++ b.
Proof.
  unfold swap_remove. destruct (decide (b = [])) as [->|Hb].
  - rw last_snoc length_app /= Nat.add_1_r Nat.eqb_refl removelast_last app_nil_r. done.
  - destruct (exists_last Hb) as (b' & y & ->). rw app_comm_cons app_assoc last_snoc removelast_last.
    destruct (Nat.eqb_spec (S (length a)) (length ((a ++ x :: b') ++ [y]))) as [E|_].
    { rw !length_app /= in E. lia. }
    rw insert_app_r_alt // Nat.sub_diag /=. by rw (Permutation_app_comm b').
Qed.

Lemma vfilter_app {A} (pr : A → bool) ks js : vfilter pr (ks ++ js) = vfilter pr ks ++ vfilter pr js.
Proof. apply List.filter_app. Qed.

Lemma vfilter_all {A} (pr : A → bool) ks : Forall (λ x, pr x = true) ks → vfilter pr ks = ks.
Proof. unfold vfilter. induction 1 as [|x ks Hx _ IH]; simpl; [done|]. by rw Hx IH. Qed.

Lemma vfilter_none {A} (pr : A → bool) ks : Forall (λ x, pr x = false) ks → vfilter pr ks = [].
Proof. unfold vfilter. induction 1 as [|x ks Hx _ IH]; simpl; [done|]. by rw Hx. Qed.

Lemma vposition_first {A} (pr : A → bool) p y q :
  Forall (λ z, pr z = false) p → pr y = true → vposition pr (p ++ y :: q) = Some (length p).
Proof. intros Hp Hy. induction Hp as [|z p Hz _ IH]; simpl; [by rw Hy|]. by rw Hz IH. Qed.

Lemma submseteq_flat_map {A B} (f g : A → list B) (l : list A) :
  (∀ x, x ∈ l → f x ⊆+ g x) → flat_map f l ⊆+ flat_map g l.
Proof.
  induction l as [|x l IH]; intros H; simpl; [done|].
  apply submseteq_app; [apply H; by left | apply IH; intros; apply H; by right].
Qed.

Lemma submseteq_flat_map_vfilter {A B} (f : A → list B) p (l : list A) :
  flat_map f (vfilter p l) ⊆+ flat_map f l.
Proof.
  unfold vfilter. induction l as [|x l IH]; simpl; [done|].
  destruct (p x); simpl; [by apply submseteq_skips_l | by apply submseteq_inserts_l].
Qed.

Lemma flat_map_map {A B C} (f : B → list C) (g : A → B) (l : list A) :
  flat_map f (map g l) = flat_map (λ x, f (g x)) l.
Proof. induction l as [|x l IH]; simpl; [done|]. by rw IH. Qed.

Lemma map_flat_map {A B C} (f : B → C) (g : A → list B) (l : list A) :
  map f (flat_map g l) = flat_map (λ x, map f (g x)) l.
Proof. induction l as [|x l IH]; simpl; [done|]. by rw map_app IH. Qed.

Lemma flat_map_ext_in {A B} (f g : A → list B) (l : list A) :
  (∀ x, x ∈ l → f x = g x) → flat_map f l = flat_map g l.
Proof.
  induction l as [|x l IH]; intros H; simpl; [done|].
  rw (H x); [by left|]. f_equal. apply IH. intros. apply H. by right.
Qed.

Lemma elem_of_flat_map {A B} (f : A → list B) (l : list A) (y : B) :
  y ∈ flat_map f l ↔ ∃ x, x ∈ l ∧ y ∈ f x.
Proof. setoid_rewrite list_elem_of_In. apply in_flat_map. Qed.

Lemma elem_of_map {A B} (f : A → B) (l : list A) (y : B) :
  y ∈ map f l ↔ ∃ x, y = f x ∧ x ∈ l.
Proof. apply list_elem_of_fmap. Qed.

Lemma Forall_vfilter {A} (P : A → Prop) p (l : list A) : Forall P l → Forall P (vfilter p l).
Proof.
  rw !Forall_forall. intros H x [_ Hx]%elem_of_vfilter. auto.
Qed.

Lemma vsum_length_flat_map {A B} (f : A → list B) (l : list A) :
  vsum (λ x, length (f x)) l = length (flat_map f l).
Proof. unfold vsum. induction l as [|x l IH]; simpl; [done|]. by rw length_app IH. Qed.
