(* ===== verification/Text.v ===== *)
(** * Text and paths

    The parts of the Rust standard library's text model that the sources use.
    A [String] is a list of Unicode scalar values, with [len] counting UTF-8
    bytes; a [PathBuf] is a list of bytes, compared, as Rust compares paths, by
    its components. *)
From Stdlib Require Import Ascii.
From S2P Require Import Prelude.

(** ** Characters and strings *)

Abbreviation char := N (only parsing).
Abbreviation ustring := (list N) (only parsing).

(** [char::len_utf8]. *)
Definition len_utf8 (c : char) : nat :=
  if (c <? 128)%N then 1
  else if (c <? 2048)%N then 2
  else if (c <? 65536)%N then 3
  else 4.

(** [String::len]. *)
Definition str_len (s : ustring) : nat := sum_list_with len_utf8 s.

(** [char::is_control]: the general category Cc. *)
Definition is_control (c : char) : bool :=
  ((c <? 32) || ((127 <=? c) && (c <=? 159)))%N.

(** [char::is_whitespace]: the property White_Space. *)
Definition is_whitespace (c : char) : bool :=
  (((9 <=? c) && (c <=? 13)) || (c =? 32) || (c =? 133) || (c =? 160) || (c =? 5760)
   || ((8192 <=? c) && (c <=? 8202)) || (c =? 8232) || (c =? 8233) || (c =? 8239)
   || (c =? 8287) || (c =? 12288))%N.

Fixpoint trim_start (s : ustring) : ustring :=
  match s with
  | [] => []
  | c :: s' => if is_whitespace c then trim_start s' else s
  end.

Definition trim_end (s : ustring) : ustring := rev (trim_start (rev s)).

(** [str::trim]. *)
Definition trim (s : ustring) : ustring := trim_end (trim_start s).

Definition is_empty {A} (l : list A) : bool :=
  match l with [] => true | _ => false end.

(** ASCII literals of the source. *)
Fixpoint lit (s : string) : ustring :=
  match s with
  | EmptyString => []
  | String a s => N_of_ascii a :: lit s
  end.

(** Decimal display of an unsigned integer. *)
Definition display_N (n : N) : ustring := lit (pretty n).

(** [while s.len() > limit { s.pop(); }]. *)
Fixpoint pop_while_longer (fuel limit : nat) (s : ustring) : ustring :=
  match fuel with
  | 0 => s
  | S fuel => if limit <? str_len s then pop_while_longer fuel limit (removelast s) else s
  end.
Definition pop_to (limit : nat) (s : ustring) : ustring := pop_while_longer (length s) limit s.

(** ** Lossy UTF-8 decoding

    [OsStr::to_string_lossy]: each maximal invalid prefix becomes U+FFFD. *)

Definition replacement : char := 65533%N.

Definition in_range (lo hi b : N) : bool := ((lo <=? b) && (b <=? hi))%N.
Definition is_continuation (b : N) : bool := in_range 128 191 b.

(** The bytes that may follow a three-byte or four-byte lead. *)
Definition second_of_three (lead b : N) : bool :=
  if (lead =? 224)%N then in_range 160 191 b
  else if (lead =? 237)%N then in_range 128 159 b
  else is_continuation b.
Definition second_of_four (lead b : N) : bool :=
  if (lead =? 240)%N then in_range 144 191 b
  else if (lead =? 244)%N then in_range 128 143 b
  else is_continuation b.

Definition payload (b : N) : N := N.land b 63.

Fixpoint from_utf8_lossy (bs : list N) : ustring :=
  match bs with
  | [] => []
  | b0 :: r0 =>
      if (b0 <? 128)%N then b0 :: from_utf8_lossy r0
      else if in_range 194 223 b0 then
        match r0 with
        | b1 :: r1 =>
            if is_continuation b1
            then (N.shiftl (N.land b0 31) 6 + payload b1)%N :: from_utf8_lossy r1
            else replacement :: from_utf8_lossy r0
        | [] => [replacement]
        end
      else if in_range 224 239 b0 then
        match r0 with
        | b1 :: r1 =>
            if second_of_three b0 b1 then
              match r1 with
              | b2 :: r2 =>
                  if is_continuation b2
                  then (N.shiftl (N.land b0 15) 12 + N.shiftl (payload b1) 6 + payload b2)%N
                         :: from_utf8_lossy r2
                  else replacement :: from_utf8_lossy r1
              | [] => [replacement]
              end
            else replacement :: from_utf8_lossy r0
        | [] => [replacement]
        end
      else if in_range 240 244 b0 then
        match r0 with
        | b1 :: r1 =>
            if second_of_four b0 b1 then
              match r1 with
              | b2 :: r2 =>
                  if is_continuation b2 then
                    match r2 with
                    | b3 :: r3 =>
                        if is_continuation b3
                        then (N.shiftl (N.land b0 7) 18 + N.shiftl (payload b1) 12
                              + N.shiftl (payload b2) 6 + payload b3)%N :: from_utf8_lossy r3
                        else replacement :: from_utf8_lossy r2
                    | [] => [replacement]
                    end
                  else replacement :: from_utf8_lossy r1
              | [] => [replacement]
              end
            else replacement :: from_utf8_lossy r0
        | [] => [replacement]
        end
      else replacement :: from_utf8_lossy r0
  end.

(** ** Paths *)

(** The bytes of a Unix path. *)
Abbreviation path := (list N) (only parsing).

Definition slash : N := 47%N.
Definition dot : N := 46%N.

(** The segments between separators, in order, empty ones included. *)
Fixpoint segments (p : path) : list (list N) :=
  match p with
  | [] => [[]]
  | b :: p' =>
      if (b =? slash)%N then [] :: segments p'
      else match segments p' with
           | [] => [[b]]
           | s :: ss => (b :: s) :: ss
           end
  end.

(** [std::path::Component] on Unix. *)
Inductive Component :=
  | RootDir
  | CurDir
  | ParentDir
  | Normal (name : list N).
#[export] Instance Component_eq_dec : EqDecision Component.
Proof. solve_decision. Defined.

(** [Path::is_absolute]. *)
Definition is_absolute (p : path) : bool :=
  match p with b :: _ => (b =? slash)%N | [] => false end.

Definition segment_component (s : list N) : list Component :=
  if bool_decide (s = []) || bool_decide (s = [dot]) then []
  else if bool_decide (s = [dot; dot]) then [ParentDir]
  else [Normal s].

(** [Path::components]: separators repeat freely and "." counts only at the
    start of a relative path. *)
Definition components (p : path) : list Component :=
  let head :=
    if is_absolute p then [RootDir]
    else match segments p with
         | s :: _ => if bool_decide (s = [dot]) then [CurDir] else []
         | [] => []
         end in
  head ++ flat_map segment_component (segments p).

(** [PartialEq] of [Path]. *)
Definition path_eqb (p q : path) : bool := bool_decide (components p = components q).

Definition opt_path_eqb (p q : option path) : bool :=
  match p, q with
  | Some p, Some q => path_eqb p q
  | None, None => true
  | _, _ => false
  end.

(** [Path::file_name]. *)
Definition file_name (p : path) : option (list N) :=
  match last (components p) with
  | Some (Normal name) => Some name
  | _ => None
  end.

(** [Path::starts_with]. *)
Fixpoint prefix_eqb (q p : list Component) : bool :=
  match q, p with
  | [], _ => true
  | c :: q, d :: p => bool_decide (c = d) && prefix_eqb q p
  | _ :: _, [] => false
  end.
Definition path_starts_with (p q : path) : bool := prefix_eqb (components q) (components p).

(** ** Laws *)

Lemma path_eqb_refl p : path_eqb p p = true.
Proof. unfold path_eqb. by apply bool_decide_eq_true. Qed.

Lemma path_eqb_sym p q : path_eqb p q = path_eqb q p.
Proof. unfold path_eqb. apply bool_decide_ext. naive_solver. Qed.

Lemma path_eqb_trans p q r : path_eqb p q = true → path_eqb q r = true → path_eqb p r = true.
Proof. unfold path_eqb. rw !bool_decide_eq_true. congruence. Qed.

Lemma opt_path_eqb_refl p : opt_path_eqb p p = true.
Proof. destruct p; simpl; auto using path_eqb_refl. Qed.

Lemma str_len_app s t : str_len (s ++ t) = str_len s + str_len t.
Proof. unfold str_len. apply sum_list_with_app. Qed.

Lemma str_len_rev s : str_len (rev s) = str_len s.
Proof.
  induction s as [|c s IH]; [done|]. simpl. rw str_len_app. simpl.
  unfold str_len in *. simpl. lia.
Qed.

Lemma trim_start_suffix s : ∃ pre, s = pre ++ trim_start s.
Proof.
  induction s as [|c s [pre IH]]; [by exists []|]. simpl.
  destruct (is_whitespace c); [exists (c :: pre); by rw {1}IH | by exists []].
Qed.

Lemma trim_infix s : ∃ pre post, s = pre ++ trim s ++ post.
Proof.
  destruct (trim_start_suffix s) as [pre Hpre].
  destruct (trim_start_suffix (rev (trim_start s))) as [suf Hsuf].
  exists pre, (rev suf). unfold trim, trim_end.
  rw -rev_app_distr -Hsuf rev_involutive. done.
Qed.

Lemma trim_len s : str_len (trim s) ≤ str_len s.
Proof. destruct (trim_infix s) as (pre & post & E). rw {2}E !str_len_app. lia. Qed.

Lemma existsb_trim p s : existsb p s = false → existsb p (trim s) = false.
Proof.
  destruct (trim_infix s) as (pre & post & E). rw {1}E !existsb_app !orb_false_iff. tauto.
Qed.

Lemma trim_start_idem s : trim_start (trim_start s) = trim_start s.
Proof.
  induction s as [|c s IH]; [done|]. simpl. destruct (is_whitespace c) eqn:E; [done|].
  simpl. by rw E.
Qed.

Lemma trim_start_head s c t : trim_start s = c :: t → is_whitespace c = false.
Proof.
  induction s as [|d s IH]; [done|]. simpl. destruct (is_whitespace d) eqn:E; [done|].
  intros [= -> ->]. done.
Qed.

Lemma trim_start_id c s : is_whitespace c = false → trim_start (c :: s) = c :: s.
Proof. simpl. by intros ->. Qed.

(** A trimmed string is its own trim. *)
Lemma trim_idem s : trim (trim s) = trim s.
Proof.
  unfold trim, trim_end. set (u := trim_start s).
  destruct (trim_start (rev u)) as [|c v] eqn:E; [done|].
  assert (trim_start (rev (c :: v)) = rev (c :: v)) as ->.
  { destruct u as [|d w] eqn:Hu; [done|].
    assert (is_whitespace d = false) as Hd by (eapply trim_start_head; exact Hu).
    destruct (trim_start_suffix (rev (d :: w))) as [pre Hpre]. rw E in Hpre.
    apply (f_equal (@rev N)) in Hpre. rw rev_involutive rev_app_distr in Hpre.
    destruct (rev (c :: v)) as [|e x] eqn:Hr.
    { apply (f_equal length) in Hr. rw length_rev in Hr. done. }
    injection Hpre as -> _. by apply trim_start_id. }
  rw rev_involutive -E trim_start_idem. done.
Qed.

Lemma removelast_len s : str_len (removelast s) ≤ str_len s.
Proof.
  unfold str_len. induction s as [|c s IH]; [done|].
  destruct s as [|d s]; [simpl; lia|]. cbn -[len_utf8] in *. lia.
Qed.

Lemma length_removelast {A} (s : list A) : length (removelast s) = length s - 1.
Proof.
  induction s as [|c s IH]; [done|]. destruct s as [|d s]; [done|].
  cbn in *. rw IH. lia.
Qed.

Lemma pop_while_longer_le fuel limit s :
  length s ≤ fuel → str_len (pop_while_longer fuel limit s) ≤ limit.
Proof.
  revert s. induction fuel as [|fuel IH]; intros s Hs; simpl.
  - destruct s; simpl in *; [unfold str_len; simpl|]; lia.
  - destruct (Nat.ltb_spec limit (str_len s)) as [H|H]; [|lia].
    apply IH. rw length_removelast. lia.
Qed.

(** The loop that drops trailing characters stops within the bound. *)
Lemma pop_to_le limit s : str_len (pop_to limit s) ≤ limit.
Proof. by apply pop_while_longer_le. Qed.

Lemma pop_while_longer_prefix fuel limit s : ∃ post, s = pop_while_longer fuel limit s ++ post.
Proof.
  revert s. induction fuel as [|fuel IH]; intros s; simpl; [exists []; by rw app_nil_r|].
  destruct (limit <? str_len s) eqn:E; [|exists []; by rw app_nil_r].
  destruct (decide (s = [])) as [->|Hs]; [destruct (IH []) as [p Hp]; by exists p|].
  destruct (IH (removelast s)) as [p Hp].
  exists (p ++ [List.last s 0%N]). rw app_assoc -Hp. by apply app_removelast_last.
Qed.

Lemma existsb_pop_to p limit s : existsb p s = false → existsb p (pop_to limit s) = false.
Proof.
  destruct (pop_while_longer_prefix (length s) limit s) as [post E]. unfold pop_to.
  rw {1}E existsb_app orb_false_iff. tauto.
Qed.

Lemma lit_inj s t : lit s = lit t → s = t.
Proof.
  revert t. induction s as [|a s IH]; intros [|b t]; simpl; try done.
  intros [= H ->%IH]. f_equal. rw -(ascii_N_embedding a) -(ascii_N_embedding b). by rw H.
Qed.

Lemma display_N_inj m n : display_N m = display_N n → m = n.
Proof. intros H%lit_inj. by apply (inj pretty) in H. Qed.
