(* ===== verification/Facts.v ===== *)
(** * Facts the hierarchy carries

    The data types of [repository.rs], [pane/metadata.rs], [pane/control.rs],
    [pane.rs], [worktree.rs], [worktree/path_template.rs] and [lib.rs] that the
    hierarchy stores or returns, with the predicates that bound them. *)
From S2P Require Import Prelude.
From S2P Require Import Text.

(** A 32-byte identity, read as one unsigned number, most significant byte first. *)
Abbreviation Id := N (only parsing).
Definition zero_id : N := 0%N.

(** ** Refusals and errors *)

(** [pane::Refusal]. *)
Inductive Refusal :=
  | Refusal_Controlled | Refusal_Missing | Refusal_Stale | Refusal_Unsupported
  | Refusal_Failed | Refusal_CleanupUnresolved | Refusal_DirectoryUnavailable
  | Refusal_StorageUnavailable | Refusal_Capacity | Refusal_ServiceBusy.
#[export] Instance Refusal_eq_dec : EqDecision Refusal.
Proof. solve_decision. Defined.

(** [protocol::version::Incompatible]. *)
Inductive Incompatible := ListenerTooOld | CallerTooOld.
#[export] Instance Incompatible_eq_dec : EqDecision Incompatible.
Proof. solve_decision. Defined.

(** [direct::DirectError]. *)
Inductive DirectError :=
  | Direct_Transport | Direct_StorageUnavailable | Direct_CredentialUnavailable
  | Direct_InteractionRequired | Direct_InvalidInvitation | Direct_Expired
  | Direct_Rejected | Direct_ChangedClaim | Direct_PolicyChanged
  | Direct_AuthenticationRefused | Direct_PinMismatch | Direct_Revoked
  | Direct_IncompatibleProtocol | Direct_Capacity | Direct_Disabled
  | Direct_InvalidRequest | Direct_InvalidAddress | Direct_AddressUnavailable
  | Direct_PortInUse | Direct_IdentityMismatch | Direct_AlreadyDecided
  | Direct_Substituted | Direct_WrongMachine.
#[export] Instance DirectError_eq_dec : EqDecision DirectError.
Proof. solve_decision. Defined.

(** [CoreError]. *)
Inductive CoreError :=
  | Error_Direct (error : DirectError)
  | Error_NotSetUp | Error_ServiceUnavailable | Error_ServiceBusy | Error_NotInstalled
  | Error_Stopped | Error_LoginItemOff | Error_Changed | Error_ActivationUnresolved
  | Error_RuntimeUnavailable | Error_CandidateMissing | Error_AuthorizationRequired
  | Error_NotRunning | Error_StorageUnavailable | Error_IncompatibleState
  | Error_DataResetRequired | Error_UnsafeStorage | Error_AuthenticationRefused
  | Error_IncompatibleProtocol (older : Incompatible)
  | Error_CandidateChanged | Error_Protocol | Error_StartupFailed | Error_Controlled
  | Error_SessionUnavailable | Error_StaleControl | Error_Unsupported
  | Error_DirectoryUnavailable | Error_CleanupUnresolved | Error_Capacity.
#[export] Instance CoreError_eq_dec : EqDecision CoreError.
Proof. solve_decision. Defined.

(** [impl From<Refusal> for CoreError]. *)
Definition core_error_of_refusal (value : Refusal) : CoreError :=
  match value with
  | Refusal_Capacity => Error_Capacity
  | Refusal_Controlled => Error_Controlled
  | Refusal_Missing => Error_SessionUnavailable
  | Refusal_Stale => Error_StaleControl
  | Refusal_Unsupported => Error_Unsupported
  | Refusal_Failed => Error_StartupFailed
  | Refusal_DirectoryUnavailable => Error_DirectoryUnavailable
  | Refusal_StorageUnavailable => Error_StorageUnavailable
  | Refusal_CleanupUnresolved => Error_CleanupUnresolved
  | Refusal_ServiceBusy => Error_ServiceBusy
  end.

(** ** Repository facts ([repository.rs]) *)

Inductive RepositoryHead :=
  | Head_Branch (name : ustring)
  | Head_Detached (commit : ustring)
  | Head_Unborn (name : ustring).
#[export] Instance RepositoryHead_eq_dec : EqDecision RepositoryHead.
Proof. solve_decision. Defined.

Record Divergence := { dv_ahead : N; dv_behind : N }.
#[export] Instance Divergence_eq_dec : EqDecision Divergence.
Proof. solve_decision. Defined.

Record Upstream := { up_name : ustring; up_divergence : option Divergence }.
#[export] Instance Upstream_eq_dec : EqDecision Upstream.
Proof. solve_decision. Defined.

Record OperationStep := { os_current : N; os_total : N }.
#[export] Instance OperationStep_eq_dec : EqDecision OperationStep.
Proof. solve_decision. Defined.

Inductive RepositoryOperation :=
  | Rebasing (step : option OperationStep)
  | Applying (step : option OperationStep)
  | Merging | Reverting | CherryPicking | Bisecting.
#[export] Instance RepositoryOperation_eq_dec : EqDecision RepositoryOperation.
Proof. solve_decision. Defined.

Inductive ChangeKind := Staged | Modified | Deleted | Renamed | Conflicted | Untracked.
#[export] Instance ChangeKind_eq_dec : EqDecision ChangeKind.
Proof. solve_decision. Defined.

Record ChangeEntry := { ce_kind : ChangeKind; ce_path : ustring }.
#[export] Instance ChangeEntry_eq_dec : EqDecision ChangeEntry.
Proof. solve_decision. Defined.

Inductive ChangeTotal := Exact (n : N) | AtLeast (n : N).
#[export] Instance ChangeTotal_eq_dec : EqDecision ChangeTotal.
Proof. solve_decision. Defined.

Record ChangeSummary := {
  cs_total : ChangeTotal; cs_staged : N; cs_modified : N; cs_deleted : N; cs_renamed : N;
  cs_conflicted : N; cs_untracked : N; cs_entries : list ChangeEntry
}.
#[export] Instance ChangeSummary_eq_dec : EqDecision ChangeSummary.
Proof. solve_decision. Defined.

Inductive RepositoryReadError :=
  | Read_ToolMissing | Read_Unavailable | Read_TimedOut | Read_Cancelled
  | Read_OutputTooLarge | Read_InvalidResponse.
#[export] Instance RepositoryReadError_eq_dec : EqDecision RepositoryReadError.
Proof. solve_decision. Defined.

Record GitHubRepository := { gh_host : ustring; gh_owner : ustring; gh_name : ustring }.
#[export] Instance GitHubRepository_eq_dec : EqDecision GitHubRepository.
Proof. solve_decision. Defined.

Record ToolVersion := { tv_major : N; tv_minor : N; tv_patch : N }.
#[export] Instance ToolVersion_eq_dec : EqDecision ToolVersion.
Proof. solve_decision. Defined.

Inductive GitToolStatus :=
  | Git_Unknown
  | Git_Ready (version : ToolVersion)
  | Git_TooOld (version : ToolVersion)
  | Git_NotFound.
#[export] Instance GitToolStatus_eq_dec : EqDecision GitToolStatus.
Proof. solve_decision. Defined.

Inductive WorktreeHead :=
  | Wt_Branch (name : ustring)
  | Wt_Detached (commit : ustring)
  | Wt_Bare.
#[export] Instance WorktreeHead_eq_dec : EqDecision WorktreeHead.
Proof. solve_decision. Defined.

Record WorktreeRecord := {
  wr_root : path; wr_head : WorktreeHead; wr_locked : bool; wr_missing : bool
}.

Record PullRequestQuery := {
  pq_repository : GitHubRepository; pq_head_branch : ustring; pq_head_owner : option ustring
}.
#[export] Instance PullRequestQuery_eq_dec : EqDecision PullRequestQuery.
Proof. solve_decision. Defined.

Inductive ChangeCounting := Counting_Pending | Counting_Counting.
#[export] Instance ChangeCounting_eq_dec : EqDecision ChangeCounting.
Proof. solve_decision. Defined.

Record Repository := {
  rp_root : path;
  rp_head : RepositoryHead;
  rp_commit : option ustring;
  rp_upstream : option Upstream;
  rp_operation : option RepositoryOperation;
  rp_changes : result ChangeSummary RepositoryReadError;
  rp_counting : option ChangeCounting;
  rp_pull_request : option PullRequestQuery
}.

Record WorktreeInventory := {
  wi_main_root : path; wi_current : option nat; wi_worktrees : list WorktreeRecord
}.

Record DirectoryFacts := {
  df_directory : path;
  df_repository : option Repository;
  df_worktrees : option WorktreeInventory;
  df_failure : option RepositoryReadError
}.

Inductive PinCheckState := Pin_Ready | Pin_Checking | Pin_Unavailable.
#[export] Instance PinCheckState_eq_dec : EqDecision PinCheckState.
Proof. solve_decision. Defined.

(** [repository::Snapshot]. *)
Record RepositorySnapshot := {
  rs_boot : Id;
  rs_revision : N;
  rs_git : GitToolStatus;
  rs_directories : list DirectoryFacts;
  rs_pinned_worktrees : list path;
  rs_pin_check : PinCheckState
}.

(** ** Client Names ([pane/control.rs]) *)

Definition MAX_CLIENT_NAME_CHARS : nat := 48.
Definition FALLBACK : ustring := lit "Another SpaceTerm".

(** Format characters that reorder or hide text. *)
Definition invisible (c : char) : bool :=
  ((c =? 173) || (c =? 1564) || (c =? 6158) || (c =? 8203))%N
  || in_range 8206 8207 c || in_range 8234 8238 c || in_range 8288 8303 c
  || (c =? 65279)%N || in_range 65529 65531 c.

(** A [ClientName] holds its bounded text. *)
Record ClientName := { cn_text : ustring }.
#[export] Instance ClientName_eq_dec : EqDecision ClientName.
Proof. solve_decision. Defined.

Definition ellipsis : char := 8230%N.
Definition space_char : char := 32%N.

(** The loop over the characters: [kept] so far and whether a space waits. *)
Fixpoint client_name_scan (s : ustring) (kept : ustring) (space : bool) : ustring :=
  match s with
  | [] => kept
  | c :: s' =>
      if MAX_CLIENT_NAME_CHARS <? length kept then kept
      else if is_whitespace c then client_name_scan s' kept (negb (is_empty kept))
      else if negb (is_control c) && negb (invisible c) then
        client_name_scan s' ((if space then kept ++ [space_char] else kept) ++ [c]) false
      else client_name_scan s' kept space
  end.

(** [while kept.last() == Some(&' ') { kept.pop(); }]. *)
Fixpoint pop_spaces (fuel : nat) (kept : ustring) : ustring :=
  match fuel with
  | 0 => kept
  | S fuel => if bool_decide (last kept = Some space_char)
              then pop_spaces fuel (removelast kept) else kept
  end.

(** [impl From<&str> for ClientName]. *)
Definition client_name_from (value : ustring) : ClientName :=
  let kept := client_name_scan value [] false in
  let kept :=
    if MAX_CLIENT_NAME_CHARS <? length kept
    then let short := take (MAX_CLIENT_NAME_CHARS - 1) kept in
         pop_spaces (length short) short ++ [ellipsis]
    else kept in
  if is_empty kept then {| cn_text := FALLBACK |} else {| cn_text := kept |}.

(** ** Terminal presentation ([pane/metadata.rs]) *)

Definition MAX_TITLE_CHARS : N := 256.
Definition MAX_COMMAND_CHARS : N := 4096.
Definition MAX_DIRECTORY_CHARS : N := 4096.
Definition MAX_MACHINE_CHARS : N := 256.

Inductive TitleProvenance := Title_Fallback | Title_WorkingDirectory | Title_TerminalControl.
#[export] Instance TitleProvenance_eq_dec : EqDecision TitleProvenance.
Proof. solve_decision. Defined.
Inductive DirectoryProvenance := Directory_Initial | Directory_Osc7.
#[export] Instance DirectoryProvenance_eq_dec : EqDecision DirectoryProvenance.
Proof. solve_decision. Defined.
Inductive Freshness := Fresh_Live | Fresh_Stale.
#[export] Instance Freshness_eq_dec : EqDecision Freshness.
Proof. solve_decision. Defined.
Inductive PromptZone := Zone_Unknown | Zone_Prompt | Zone_CommandInput | Zone_CommandOutput.
#[export] Instance PromptZone_eq_dec : EqDecision PromptZone.
Proof. solve_decision. Defined.
Inductive CommandState :=
  | Command_Running
  | Command_Finished (exit_status : option Z) (duration_ms : N).
#[export] Instance CommandState_eq_dec : EqDecision CommandState.
Proof. solve_decision. Defined.
Record Command := { cm_line : ustring; cm_state : CommandState }.
#[export] Instance Command_eq_dec : EqDecision Command.
Proof. solve_decision. Defined.
Inductive TitleGlyph := Glyph_Reported | Glyph_Retained (glyph : option ustring).
#[export] Instance TitleGlyph_eq_dec : EqDecision TitleGlyph.
Proof. solve_decision. Defined.
Inductive Progress :=
  | Progress_None | Progress_Normal (n : N) | Progress_Error (n : N)
  | Progress_Indeterminate | Progress_Paused (n : N).
#[export] Instance Progress_eq_dec : EqDecision Progress.
Proof. solve_decision. Defined.

(** [pane::metadata::Snapshot]. *)
Record Snapshot := {
  sn_revision : N;
  sn_shell_name : ustring;
  sn_title : ustring;
  sn_title_provenance : TitleProvenance;
  sn_directory : ustring;
  sn_directory_provenance : DirectoryProvenance;
  sn_user : option ustring;
  sn_host : option ustring;
  sn_home : option ustring;
  sn_freshness : Freshness;
  sn_finished_commands : N;
  sn_prompt_zone : PromptZone;
  sn_command : option Command;
  sn_title_activity : bool;
  sn_title_glyph : TitleGlyph;
  sn_progress : Progress
}.
#[export] Instance Snapshot_eq_dec : EqDecision Snapshot.
Proof. solve_decision. Defined.

Definition presentable (c : char) : bool := negb (is_control c) && negb (invisible c).

Definition sanitize (value : ustring) (limit : nat) : ustring :=
  take limit (vfilter presentable value).

Definition presentable_within (value : ustring) (limit : N) : bool :=
  (N.of_nat (length value) <=? limit)%N && vall presentable value.

Definition presentable_option (value : option ustring) (limit : N) : bool :=
  match value with None => true | Some s => presentable_within s limit end.

(** [Snapshot::validate]. *)
Definition snapshot_validate (s : Snapshot) : result unit CoreError :=
  if negb (presentable_within (sn_title s) MAX_TITLE_CHARS)
     || negb (presentable_within (sn_shell_name s) MAX_TITLE_CHARS)
     || negb (presentable_within (sn_directory s) MAX_DIRECTORY_CHARS)
     || negb (presentable_option (sn_user s) MAX_MACHINE_CHARS)
     || negb (presentable_option (sn_host s) MAX_MACHINE_CHARS)
     || negb (presentable_option (sn_home s) MAX_DIRECTORY_CHARS)
     || match sn_command s with
        | Some c => negb (presentable_within (cm_line c) MAX_COMMAND_CHARS)
        | None => false
        end
     || match sn_title_glyph s with
        | Glyph_Retained (Some g) => negb (presentable_within g MAX_TITLE_CHARS)
        | _ => false
        end
     || match sn_progress s with
        | Progress_Normal n | Progress_Error n | Progress_Paused n => (100 <? n)%N
        | _ => false
        end
  then Err Error_Protocol
  else Ok tt.

(** ** Worktree operations ([worktree.rs], [worktree/path_template.rs]) *)

Inductive WorktreePathTemplateError :=
  | Template_Empty | Template_TooLong | Template_NotAbsolute | Template_ParentSegment
  | Template_UnclosedBrace | Template_UnknownPlaceholder | Template_MissingBranch
  | Template_InvalidCharacter | Template_NotWritable.
#[export] Instance WorktreePathTemplateError_eq_dec : EqDecision WorktreePathTemplateError.
Proof. solve_decision. Defined.

(** [worktree::Error]. *)
Inductive WorktreeError :=
  | Worktree_Missing | Worktree_Main | Worktree_Locked | Worktree_Pinned | Worktree_Changed
  | Worktree_Location | Worktree_Branch | Worktree_InvalidName | Worktree_BranchExists
  | Worktree_BranchCheckedOut | Worktree_BranchMissing | Worktree_Unavailable
  | Worktree_Interrupted
  | Worktree_Template (error : WorktreePathTemplateError).
#[export] Instance WorktreeError_eq_dec : EqDecision WorktreeError.
Proof. solve_decision. Defined.

Inductive BranchName := BranchName_Local (name : ustring) | BranchName_Remote (name : ustring).
#[export] Instance BranchName_eq_dec : EqDecision BranchName.
Proof. solve_decision. Defined.

Inductive Branch :=
  | Branch_New (name : ustring) (base : BranchName)
  | Branch_Existing (name : ustring)
  | Branch_Remote (remote name : ustring).
#[export] Instance Branch_eq_dec : EqDecision Branch.
Proof. solve_decision. Defined.

Definition branch_text_valid (s : ustring) : bool :=
  negb (is_empty s) && (N.of_nat (str_len s) <=? 1024)%N && negb (vany is_control s).

(** [Branch::is_bounded]. *)
Definition branch_is_bounded (b : Branch) : bool :=
  match b with
  | Branch_New name base =>
      branch_text_valid name
      && match base with BranchName_Local s | BranchName_Remote s => branch_text_valid s end
  | Branch_Existing name => branch_text_valid name
  | Branch_Remote remote name => branch_text_valid name && branch_text_valid remote
  end.

(** [worktree::Settings]. *)
Record WorktreeSettings := { st_template : ustring; st_version : N }.
#[export] Instance WorktreeSettings_eq_dec : EqDecision WorktreeSettings.
Proof. solve_decision. Defined.

Definition DEFAULT_WORKTREE_PATH_TEMPLATE : ustring := lit "~/.worktrees/{repository}/{branch}".
Definition default_worktree_settings : WorktreeSettings :=
  {| st_template := DEFAULT_WORKTREE_PATH_TEMPLATE; st_version := 0%N |}.

(** [hierarchy::valid_path], which [worktree::Operation::is_bounded] repeats. *)
Definition valid_path (p : path) : bool :=
  is_absolute p && (N.of_nat (length p) <=? 4096)%N && negb (vany (N.eqb 0) p).
