(* ===== verification/ClientNames.v ===== *)
(** * Client Names and protocol versions

    What a server says about other clients and agrees with its own: the Client
    Names of [pane/control.rs] with the suffix a command line adds, the agent
    names of [protocol/admission.rs], and the negotiation of
    [protocol/version.rs]. The name a computer reports is a parameter. *)
From S2P Require Import Prelude.
From S2P Require Import Text.
From S2P Require Import Facts.

(** ** Agent names *)

Record AgentName := { an_text : ustring }.
Definition AGENT_MAX_LEN : nat := 32.

(** The UTF-8 encoding of a character. *)
Definition encode_char (c : char) : list N :=
  (if c <? 128 then [c]
   else if c <? 2048 then [192 + c / 64; 128 + c mod 64]
   else if c <? 65536 then [224 + c / 4096; 128 + (c / 64) mod 64; 128 + c mod 64]
   else [240 + c / 262144; 128 + (c / 4096) mod 64; 128 + (c / 64) mod 64; 128 + c mod 64])%N.
Definition as_bytes (s : ustring) : list N := flat_map encode_char s.

Definition is_ascii_lowercase (b : N) : bool := in_range 97 122 b.
Definition is_ascii_digit (b : N) : bool := in_range 48 57 b.
Definition hyphen : N := 45.

(** [TryFrom<String> for AgentName]. *)
Definition agent_name_try_from (name : ustring) : option AgentName :=
  let bytes := as_bytes name in
  let valid := negb (is_empty bytes) && (length bytes <=? AGENT_MAX_LEN)
    && match bytes with [] => false | b :: _ => is_ascii_lowercase b || is_ascii_digit b end
    && vall (λ b, is_ascii_lowercase b || is_ascii_digit b || (b =? hyphen)%N) bytes in
  if valid then Some {| an_text := name |} else None.

(** [AgentName::name_suffix]. *)
Definition name_suffix (agent : AgentName) : ustring := lit " CLI " ++ an_text agent.

(** ** Names of this computer *)

(** [ClientName::for_computer]. *)
Definition for_computer (computer development : option ustring) : ClientName :=
  client_name_from
    match computer, development with
    | Some computer, Some development => computer ++ lit " (" ++ development ++ lit ")"
    | Some computer, None => computer
    | None, Some development => development
    | None, None => []
    end.

(** The computer's part of a command line's name, shortened to [budget]. *)
Definition shorten (budget : nat) (kept : ustring) : ustring :=
  if budget <? length kept
  then let short := take (budget - 1) kept in pop_spaces (length short) short ++ [ellipsis]
  else kept.

(** The computer's name a command line starts from; the neutral fallback counts as none. *)
Definition shown_computer (computer : option ustring) : ustring :=
  match computer with
  | None => []
  | Some name => let text := cn_text (client_name_from name) in
                 if bool_decide (text = FALLBACK) then [] else text
  end.

(** [ClientName::for_cli]. *)
Definition for_cli (computer : option ustring) (agent : option AgentName) : ClientName :=
  let suffix := match agent with None => lit " CLI" | Some agent => name_suffix agent end in
  let budget := MAX_CLIENT_NAME_CHARS - length suffix in
  client_name_from (trim_start (shorten budget (shown_computer computer) ++ suffix)).

(** ** The names a server remembers *)

Definition MAX_CLIENT_NAMES : nat := 256.
Abbreviation ClientNames := (list (Id * ClientName)) (only parsing).

(** [ClientNames::admit]. *)
Definition admit_name (client : Id) (name : ClientName) (names : ClientNames) : ClientNames :=
  let names := vfilter (λ k, negb (bool_decide (k.1 = client))) names in
  let names := if length names =? MAX_CLIENT_NAMES then vremove 0 names else names in
  names ++ [(client, name)].

(** [ClientNames::name]. *)
Definition name_of (names : ClientNames) (client : Id) : ClientName :=
  match vfind (λ k, bool_decide (k.1 = client)) names with
  | Some k => k.2
  | None => client_name_from []
  end.

Inductive Controller :=
  | Nobody
  | ControllerClient (name : ClientName) (this_client : bool).

(** [ClientNames::controller]. *)
Definition controller (names : ClientNames) (controlling : option Id) (asking : Id) : Controller :=
  match controlling with
  | None => Nobody
  | Some controlling => ControllerClient (name_of names controlling) (bool_decide (controlling = asking))
  end.

(** ** Versions *)

Record ProtocolVersion := { pv_major : N; pv_minor : N }.

(** [negotiate]. *)
Definition negotiate (offered : list ProtocolVersion) (listener : ProtocolVersion)
    : result ProtocolVersion Incompatible :=
  match vfind (λ v, bool_decide (pv_major v = pv_major listener)) offered with
  | Some shared => Ok {| pv_major := pv_major listener;
                         pv_minor := N.min (pv_minor shared) (pv_minor listener) |}
  | None => if vall (λ v, (pv_major v <? pv_major listener)%N) offered
            then Err CallerTooOld else Err ListenerTooOld
  end.

(** ** Well-spaced text *)

(** A character a name shows: no space, no control, no hidden format. *)
Definition plain (c : char) : Prop :=
  is_whitespace c = false ∧ is_control c = false ∧ invisible c = false.

(** Words of plain characters, one space between two words. *)
Inductive spaced : ustring → Prop :=
  | spaced_one c : plain c → spaced [c]
  | spaced_snoc t c : spaced t → plain c → spaced (t ++ [c])
  | spaced_word t c : spaced t → plain c → spaced (t ++ [space_char; c]).

Lemma spaced_nonempty t : spaced t → t ≠ [].
Proof. destruct 1; [done|by destruct t..]. Qed.

Lemma plain_not_space c : plain c → c ≠ space_char.
Proof. intros (H & _) ->. done. Qed.

Lemma spaced_last t : spaced t → ∃ c, last t = Some c ∧ plain c.
Proof.
  destruct 1 as [c H|t c _ H|t c _ H]; exists c; (split; [|done]); [done|by rw last_snoc|].
  change [space_char; c] with ([space_char] ++ [c]). by rw app_assoc last_snoc.
Qed.

Lemma spaced_head t : spaced t → ∃ c t', t = c :: t' ∧ plain c.
Proof.
  induction 1 as [c H|t c _ (d & t' & -> & Hd) _|t c _ (d & t' & -> & Hd) _];
    [by exists c, []|by eexists _, _..].
Qed.

Lemma scan_spaced s kept space :
  kept = [] ∨ spaced kept → (space = true → spaced kept) →
  client_name_scan s kept space = [] ∨ spaced (client_name_scan s kept space).
Proof.
  revert kept space. induction s as [|c s IH]; intros kept space Hk Hs; [done|].
  cbn [client_name_scan]. destruct (_ <? _); [done|]. destruct (is_whitespace c) eqn:Ew.
  - apply IH; [done|]. intros He. by destruct kept, Hk.
  - destruct (is_control c) eqn:Ec; [by apply IH|]. destruct (invisible c) eqn:Ei; [by apply IH|].
    apply IH; [|done]. right. assert (plain c) as Hc by done. destruct space.
    + rw -app_assoc. by apply spaced_word; [apply Hs|].
    + destruct Hk as [->|Hk]; [by apply spaced_one|by apply spaced_snoc].
Qed.

(** Well-spaced text passes through unchanged. *)
Lemma scan_id t rest :
  spaced t → length t ≤ MAX_CLIENT_NAME_CHARS →
  client_name_scan (t ++ rest) [] false = client_name_scan rest t false.
Proof.
  intros Ht. revert rest. induction Ht as [c Hc|t c Ht IH Hc|t c Ht IH Hc]; intros rest Hl.
  - destruct Hc as (H1 & H2 & H3). simpl. by rw H1 H2 H3.
  - destruct Hc as (H1 & H2 & H3). rw length_app /= in Hl. rw -app_assoc IH; [lia|].
    cbn [app client_name_scan]. destruct (Nat.ltb_spec MAX_CLIENT_NAME_CHARS (length t)); [lia|].
    by rw H1 H2 H3.
  - destruct Hc as (H1 & H2 & H3). rw length_app /= in Hl. rw -app_assoc IH; [lia|].
    cbn [app client_name_scan]. destruct (Nat.ltb_spec MAX_CLIENT_NAME_CHARS (length t)); [lia|].
    change (is_whitespace space_char) with true. cbn iota. rw H1 H2 H3. cbn [negb andb].
    pose proof (spaced_nonempty _ Ht). destruct t; [done|]. simpl. by rw -app_assoc.
Qed.

Lemma name_id t : spaced t → length t ≤ MAX_CLIENT_NAME_CHARS → cn_text (client_name_from t) = t.
Proof.
  intros Ht Hl. unfold client_name_from. pose proof (scan_id t [] Ht Hl) as Hs.
  rw app_nil_r /= in Hs. rw Hs. destruct (Nat.ltb_spec MAX_CLIENT_NAME_CHARS (length t)); [lia|].
  pose proof (spaced_nonempty _ Ht). by destruct t.
Qed.

(** A prefix is well spaced, or so once its last space is dropped. *)
Lemma spaced_take t n :
  spaced t → n ≠ 0 → spaced (take n t) ∨ ∃ u, take n t = u ++ [space_char] ∧ spaced u.
Proof.
  intros Ht Hn. induction Ht as [c Hc|t c Ht IH Hc|t c Ht IH Hc].
  - left. destruct n; [done|]. rw take_ge; [simpl; lia|]. by apply spaced_one.
  - destruct (decide (n ≤ length t)); [by rw take_app_le|]. left.
    rw take_ge; [rw length_app /=; lia|]. by apply spaced_snoc.
  - destruct (decide (n ≤ length t)); [by rw take_app_le|].
    destruct (decide (n = S (length t))) as [->|].
    + right. exists t. split; [|done]. rw take_app_ge; [lia|].
      by replace (S (length t) - length t) with 1 by lia.
    + left. rw take_ge; [rw length_app /=; lia|]. by apply spaced_word.
Qed.

Lemma pop_spaces_spaced fuel t : spaced t → pop_spaces fuel t = t.
Proof.
  intros (c & Hl & Hc)%spaced_last. destruct fuel; [done|]. simpl. rw Hl bool_decide_eq_false_2 //.
  intros [= ->]. by apply plain_not_space in Hc.
Qed.

Lemma pop_last_space t u : t = u ++ [space_char] → spaced u → pop_spaces (length t) t = u.
Proof.
  intros -> Hu. rw length_app Nat.add_1_r. cbn [pop_spaces]. rw last_snoc bool_decide_eq_true_2 //.
  rw removelast_last. by apply pop_spaces_spaced.
Qed.

Lemma ellipsis_plain : plain ellipsis.
Proof. done. Qed.

(** Shortened text is well spaced and within its budget. *)
Lemma shorten_spaced t n :
  spaced t → n ≠ 0 → n < length t →
  let short := take n t in
  spaced (pop_spaces (length short) short ++ [ellipsis]) ∧
  length (pop_spaces (length short) short ++ [ellipsis]) ≤ S n.
Proof.
  intros Ht Hn Hlt. simpl. destruct (spaced_take t n Ht Hn) as [Hs|(u & Hu & Hs)].
  - rw pop_spaces_spaced //. split; [by apply spaced_snoc|]. rw length_app length_take /=. lia.
  - rw (pop_last_space _ _ Hu Hs).
    apply (f_equal length) in Hu. rw length_take length_app /= in Hu.
    split; [by apply spaced_snoc, ellipsis_plain|]. rw length_app /=. lia.
Qed.

Lemma spaced_app t l : spaced t → Forall plain l → spaced (t ++ l).
Proof.
  revert t. induction l as [|c l IH]; intros t Ht Hl; [by rw app_nil_r|].
  apply Forall_cons in Hl as [Hc Hl]. rw (app_assoc t [c] l : t ++ c :: l = (t ++ [c]) ++ l).
  apply IH; [by apply spaced_snoc|done].
Qed.

Lemma spaced_words t c l : spaced t → plain c → Forall plain l → spaced (t ++ space_char :: c :: l).
Proof.
  intros Ht Hc Hl. rw (app_assoc t [space_char; c] l : t ++ space_char :: c :: l = _).
  by apply spaced_app; [apply spaced_word|].
Qed.

Lemma FALLBACK_spaced : spaced FALLBACK.
Proof.
  change FALLBACK with (((lit "A" ++ lit "nother") ++ [space_char; 83%N]) ++ lit "paceTerm").
  apply spaced_app; [|by repeat constructor]. apply spaced_word; [|done].
  apply spaced_app; [by apply spaced_one|by repeat constructor].
Qed.

(** Every Client Name is well spaced and bounded. *)
Lemma client_name_spaced v :
  spaced (cn_text (client_name_from v)) ∧
  length (cn_text (client_name_from v)) ≤ MAX_CLIENT_NAME_CHARS.
Proof.
  unfold client_name_from. destruct (scan_spaced v [] false) as [Hn|Hs]; [by left|done| |].
  - rw Hn. split; [apply FALLBACK_spaced|vm_compute; lia].
  - set (kept := client_name_scan v [] false) in *.
    destruct (Nat.ltb_spec MAX_CLIENT_NAME_CHARS (length kept)) as [Hl|Hl].
    + destruct (shorten_spaced kept (MAX_CLIENT_NAME_CHARS - 1) Hs) as [H1 H2];
        [done|unfold MAX_CLIENT_NAME_CHARS in *; lia|].
      pose proof (spaced_nonempty _ H1). destruct (pop_spaces _ _ ++ [ellipsis]); [done|]. done.
    + pose proof (spaced_nonempty _ Hs). by destruct kept.
Qed.

(** ** Agent names are plain *)

Definition agent_char (c : char) : bool := is_ascii_lowercase c || is_ascii_digit c || (c =? hyphen)%N.

Lemma agent_char_range c : agent_char c = true → (c <= 122)%N.
Proof.
  unfold agent_char, is_ascii_lowercase, is_ascii_digit, in_range, hyphen.
  rw !orb_true_iff !andb_true_iff !N.leb_le N.eqb_eq. lia.
Qed.

Lemma agent_char_plain c : agent_char c = true → plain c.
Proof.
  intros H. pose proof (agent_char_range c H).
  assert (c ∈ map N.of_nat (seq 0 123)) as Hin.
  { apply list_elem_of_In, in_map_iff. exists (N.to_nat c). rw N2Nat.id in_seq. split; [done|lia]. }
  assert (Forall (λ c, agent_char c = true → plain c) (map N.of_nat (seq 0 123))) as Hall.
  { unfold plain. repeat constructor; by intros. }
  rw Forall_forall in Hall. by apply Hall.
Qed.

(** A character outside ASCII starts with a byte no agent name holds. *)
Lemma encode_char_agent c :
  vall agent_char (encode_char c) = true → encode_char c = [c] ∧ agent_char c = true.
Proof.
  unfold encode_char. destruct (N.ltb_spec c 128) as [_|H]; [simpl; by destruct (agent_char c)|].
  assert (∀ b, (192 <= b)%N → agent_char b = false) as Hb.
  { intros b Hb. apply not_true_is_false. intros Ha%agent_char_range. lia. }
  destruct (c <? 2048)%N; [|destruct (c <? 65536)%N]; unfold vall; cbn [forallb];
    (rw Hb; [etrans; [|apply N.le_add_r]; lia|done]).
Qed.

Lemma as_bytes_agent s :
  vall agent_char (as_bytes s) = true → as_bytes s = s ∧ Forall plain s.
Proof.
  induction s as [|c s IH]; [done|]. unfold as_bytes, vall. cbn [flat_map]. rw forallb_app andb_true_iff.
  intros [(Hc & Hp)%encode_char_agent (Hs & Hf)%IH]. rw Hc. cbn [app]. split; [by f_equal|].
  by constructor; [apply agent_char_plain|].
Qed.

Lemma agent_name_spec name agent :
  agent_name_try_from name = Some agent →
  an_text agent = name ∧ Forall plain name ∧ 1 ≤ length name ≤ AGENT_MAX_LEN.
Proof.
  unfold agent_name_try_from. case_match eqn:E; [|done]. intros [= <-].
  apply andb_true_iff in E as [[[He Hl]%andb_true_iff _]%andb_true_iff Ha].
  destruct (as_bytes_agent name Ha) as [Hb Hf]. rw Hb in He Hl.
  split; [done|split; [done|]]. apply Nat.leb_le in Hl. destruct name; [done|simpl in *; lia].
Qed.

(** ** Theorems on names *)

(** A Client Name, from whatever a client sent, is one to 48 characters of words
    without control or hidden format characters, single spaces between the words
    and none around them; the receiving peer that applies the bounds again gets the
    same name. *)
Theorem client_name_normal value :
  let name := client_name_from value in
  spaced (cn_text name) ∧ 1 ≤ length (cn_text name) ≤ MAX_CLIENT_NAME_CHARS ∧
  client_name_from (cn_text name) = name.
Proof.
  cbv zeta. destruct (client_name_spaced value) as [Hs Hl]. split; [done|]. split.
  - pose proof (spaced_nonempty _ Hs). by destruct (cn_text _); simpl in *; [|lia].
  - pose proof (name_id _ Hs Hl) as Hid. destruct (client_name_from (cn_text _)) as [t].
    destruct (client_name_from value) as [t']. simpl in *. by subst.
Qed.

Lemma shown_computer_spaced computer :
  shown_computer computer = [] ∨
  spaced (shown_computer computer) ∧ length (shown_computer computer) ≤ MAX_CLIENT_NAME_CHARS.
Proof.
  destruct computer as [v|]; [|by left]. simpl. case_bool_decide; [by left|right].
  apply client_name_spaced.
Qed.

Lemma trim_start_plain c s : plain c → trim_start (c :: s) = c :: s.
Proof. intros (H & _). simpl. by rw H. Qed.

Lemma cli_suffix_spaced t name :
  spaced t → Forall plain name → name ≠ [] → spaced (t ++ lit " CLI " ++ name).
Proof.
  intros Ht Hn Hne. destruct name as [|c name]; [done|]. apply Forall_cons in Hn as [Hc Hn].
  change (spaced (t ++ (lit " CLI" ++ [space_char; c] ++ name))). rw !app_assoc.
  apply spaced_app; [|done]. apply spaced_word; [|done].
  apply (spaced_words t 67%N (lit "LI")); [done|done|by repeat constructor].
Qed.

(** The computer's part, shortened: whole where it fits, else a prefix and an ellipsis. *)
Lemma shorten_spec budget t :
  spaced t → 2 ≤ budget →
  let p := shorten budget t in
  spaced p ∧ length p ≤ budget ∧
  (length t ≤ budget → p = t) ∧
  (budget < length t → ∃ q, q ≠ [] ∧ q `prefix_of` t ∧ p = q ++ [ellipsis]).
Proof.
  intros Ht Hb. simpl. unfold shorten. destruct (Nat.ltb_spec budget (length t)) as [H|H].
  - destruct (shorten_spaced t (budget - 1) Ht) as [H1 H2]; [lia|lia|].
    split; [done|split; [lia|split; [lia|]]]. intros _. eexists. split; [|split; [|done]];
      destruct (spaced_take t (budget - 1) Ht) as [Hs|(u & Hu & Hs)]; try lia;
      first [rw (pop_spaces_spaced _ _ Hs) | rw (pop_last_space _ _ Hu Hs)].
    + by apply spaced_nonempty.
    + by apply spaced_nonempty.
    + apply prefix_take.
    + trans (u ++ [space_char]); [by apply prefix_app_r|]. rw -Hu. apply prefix_take.
  - split; [done|split; [done|split; [done|lia]]].
Qed.

(** A command line's name keeps the whole agent name after the word CLI, within
    48 characters: the computer's name stands before it, whole where both fit and
    otherwise cut to a prefix that ends in an ellipsis, and a computer without a
    name leaves just the suffix. *)
Theorem for_cli_keeps_agent computer name agent :
  agent_name_try_from name = Some agent →
  let text := cn_text (for_cli computer (Some agent)) in
  let shown := shown_computer computer in
  length text ≤ MAX_CLIENT_NAME_CHARS ∧
  (shown = [] → text = lit "CLI " ++ name) ∧
  (shown ≠ [] → ∃ p, text = p ++ lit " CLI " ++ name ∧
     if decide (length (shown ++ lit " CLI " ++ name) ≤ MAX_CLIENT_NAME_CHARS) then p = shown
     else ∃ q, q ≠ [] ∧ q `prefix_of` shown ∧ p = q ++ [ellipsis]).
Proof.
  intros (Ha & Hf & Hl)%agent_name_spec. cbv zeta. unfold for_cli, name_suffix. rw Ha.
  unfold AGENT_MAX_LEN in Hl. assert (name ≠ []) as Hne by (intros ->; simpl in Hl; lia).
  set (b := MAX_CLIENT_NAME_CHARS - _).
  assert (length (lit " CLI " ++ name) = 5 + length name) as Hsl by by rw length_app.
  assert (b = 43 - length name) as Hb by (unfold b, MAX_CLIENT_NAME_CHARS; lia). clearbody b.
  destruct (shown_computer_spaced computer) as [Hc|[Hs Hsm]].
  - rw Hc. assert (shorten b [] = []) as -> by by unfold shorten; destruct b.
    change (trim_start ([] ++ lit " CLI " ++ name)) with (lit "CLI " ++ name).
    rw name_id.
    + destruct name as [|c name]; [done|]. apply Forall_cons in Hf as [Hc' Hf].
      apply (spaced_words (lit "CLI")); [|done|done].
      by apply (spaced_app [67%N] (lit "LI")); [apply spaced_one|repeat constructor].
    + rw length_app. unfold MAX_CLIENT_NAME_CHARS. simpl. lia.
    + split; [|done]. rw length_app. unfold MAX_CLIENT_NAME_CHARS. simpl. lia.
  - destruct (shorten_spec b (shown_computer computer) Hs) as (Hp & Hpl & Hfit & Hcut); [lia|].
    set (p := shorten b _) in *. pose proof (cli_suffix_spaced p name Hp Hf Hne) as Hsp.
    destruct (spaced_head _ Hsp) as (c & t' & Ht & Hpc). rw Ht trim_start_plain // -Ht.
    assert (length (p ++ lit " CLI " ++ name) ≤ MAX_CLIENT_NAME_CHARS) as Hle
      by (rw length_app Hsl; unfold MAX_CLIENT_NAME_CHARS; lia).
    rw name_id //. split; [done|]. split; [intros Hc; by apply spaced_nonempty in Hs|]. intros _.
    exists p. split; [done|]. rw length_app Hsl. unfold MAX_CLIENT_NAME_CHARS.
    destruct (decide _); [apply Hfit; lia|apply Hcut; lia].
Qed.

Definition for_cli_example : ustring := lit "sadiks-macbook-pro-in-the-living-room".
Lemma for_cli_keeps_agent_witness :
  ∃ q, q ≠ [] ∧ q `prefix_of` shown_computer (Some for_cli_example) ∧
    cn_text (for_cli (Some for_cli_example) (Some {| an_text := lit "reviewer-2" |})) =
      (q ++ [ellipsis]) ++ lit " CLI reviewer-2".
Proof.
  destruct (for_cli_keeps_agent (Some for_cli_example) (lit "reviewer-2") _ eq_refl)
    as (_ & _ & H). destruct H as (p & Hp & Hq); [by vm_compute|].
  destruct (decide _) as [E|_]; [vm_compute in E; lia|]. destruct Hq as (q & Hn & Hpre & ->).
  exists q. split; [done|]. split; [done|exact Hp].
Defined.

(** ** Theorems on the names a server remembers *)

Lemma vfilter_length {A} (p : A → bool) l : length (vfilter p l) ≤ length l.
Proof. unfold vfilter. induction l as [|x l IH]; simpl; [done|]. destruct (p x); simpl; lia. Qed.

Lemma NoDup_fst_vfilter {A B} (p : A * B → bool) l : NoDup l.*1 → NoDup (vfilter p l).*1.
Proof.
  unfold vfilter. induction l as [|[a b] l IH]; simpl; [done|]. intros [Ha Hl]%NoDup_cons.
  destruct (p (a, b)); [|by apply IH]. constructor; [|by apply IH].
  contradict Ha. apply list_elem_of_fmap in Ha as ([a' b'] & Ha & Hx). simpl in Ha. subst a'.
  apply elem_of_vfilter in Hx as [_ Hx]. by apply (list_elem_of_fmap_2 fst) in Hx.
Qed.

(** What a table of bounded, distinct clients is. *)
Definition names_ok (names : ClientNames) : Prop :=
  NoDup names.*1 ∧ length names ≤ MAX_CLIENT_NAMES.

Lemma name_of_elem names client name :
  NoDup names.*1 → (client, name) ∈ names → name_of names client = name.
Proof.
  intros Hn Hx. unfold name_of.
  destruct (vfind _ names) as [[c n]|] eqn:E.
  - apply vfind_Some in E as [E%bool_decide_eq_true Hy]. simpl in *. subst c.
    clear -Hn Hx Hy. induction names as [|[c' n'] names IH]; [by apply not_elem_of_nil in Hx|].
    apply NoDup_cons in Hn as [Hc Hn]. apply elem_of_cons in Hx, Hy.
    destruct Hx as [Ex|Hx], Hy as [Ey|Hy]; simplify_eq/=.
    + done.
    + destruct Hc. apply (list_elem_of_fmap_2 fst _ _ Hy).
    + destruct Hc. apply (list_elem_of_fmap_2 fst _ _ Hx).
    + by apply IH.
  - pose proof (vfind_None _ _ E _ Hx) as H. simpl in H. by rw bool_decide_eq_true_2 in H.
Qed.

(** Names admitted earlier, without the client admitted now. *)
Definition others (client : Id) (names : ClientNames) : ClientNames :=
  vfilter (λ k, negb (bool_decide (k.1 = client))) names.

Lemma name_of_cons c n names other :
  name_of ((c, n) :: names) other = if decide (c = other) then n else name_of names other.
Proof. unfold name_of, vfind. simpl. case_bool_decide; by case_decide. Qed.

Lemma name_of_absent names other : other ∉ names.*1 → name_of names other = client_name_from [].
Proof.
  induction names as [|[c n] names IH]; [done|]. cbn [fmap list_fmap fst].
  rw not_elem_of_cons name_of_cons. intros [H ?]. rw decide_False; [congruence|by apply IH].
Qed.

Lemma name_of_snoc c n names other :
  other ≠ c → name_of (names ++ [(c, n)]) other = name_of names other.
Proof.
  intros H. induction names as [|[c' n'] names IH]; cbn [app]; rw !name_of_cons ?IH //.
  by rw decide_False.
Qed.

Lemma name_of_others client names other :
  other ≠ client → name_of (others client names) other = name_of names other.
Proof.
  intros H. unfold others, vfilter. induction names as [|[c n] names IH]; [done|].
  simpl. rw name_of_cons. case_bool_decide as E; simpl in E; simpl.
  - by rw decide_False; [congruence|].
  - by rw name_of_cons IH.
Qed.

Lemma others_ok client names :
  names_ok names → names_ok (others client names) ∧ client ∉ (others client names).*1.
Proof.
  intros [Hn Hl]. split; [split; [by apply NoDup_fst_vfilter|]|].
  - pose proof (vfilter_length (λ k, negb (bool_decide (k.1 = client))) names). unfold others. lia.
  - intros ([c n] & E & H)%list_elem_of_fmap. simpl in E. subst c. apply elem_of_vfilter in H as [H _]. simpl in H.
    by rw bool_decide_eq_true_2 in H.
Qed.

(** A full table of others holds every name. *)
Lemma others_full client names :
  names_ok names → length (others client names) = MAX_CLIENT_NAMES → others client names = names.
Proof.
  intros [_ Hl] Hf. assert (length names ≤ length (others client names)) as H by lia. clear -H.
  unfold others, vfilter in *. induction names as [|k names IH]; [done|]. simpl in *.
  destruct (negb _); simpl in *; [f_equal; apply IH; lia|].
  pose proof (vfilter_length (λ k, negb (bool_decide (k.1 = client))) names). unfold vfilter in *. lia.
Qed.

Lemma names_ok_snoc names client name :
  names_ok names → client ∉ names.*1 → length names < MAX_CLIENT_NAMES →
  names_ok (names ++ [(client, name)]) ∧ name_of (names ++ [(client, name)]) client = name.
Proof.
  intros [Hn _] Hc Hl. assert (NoDup (names ++ [(client, name)]).*1) as Hn'.
  { rw fmap_app. apply NoDup_app. split; [done|]. split; [|apply NoDup_singleton].
    intros x Hx ->%list_elem_of_singleton. done. }
  split; [split; [done|]|].
  - rw length_app /=. lia.
  - apply name_of_elem; [done|]. apply elem_of_app. right. by apply list_elem_of_singleton.
Qed.

(** The table holds at most 256 distinct clients after every admission, the
    client just admitted reads its new name, and every other client keeps its name
    except the least recently admitted one when the table was full, which then
    reads the neutral fallback. *)
Theorem admit_name_correct client name names :
  names_ok names →
  let names' := admit_name client name names in
  names_ok names' ∧ name_of names' client = name ∧
  ∀ other, other ≠ client →
    name_of names' other =
      if decide (length (others client names) = MAX_CLIENT_NAMES ∧
                 head names.*1 = Some other)
      then client_name_from [] else name_of names other.
Proof.
  intros Hok. cbv zeta. unfold admit_name. fold (others client names).
  destruct (others_ok client names Hok) as [[Hn Hl] Hc].
  destruct (Nat.eqb_spec (length (others client names)) MAX_CLIENT_NAMES) as [Hf|Hf].
  - pose proof (others_full client names Hok Hf) as Hall. rw Hall in Hn Hl Hc Hf |- *.
    destruct names as [|[c n] names]; [done|].
    change (vremove 0 ((c, n) :: names)) with names. cbn [fmap list_fmap fst] in *.
    apply NoDup_cons in Hn as [Hcn Hn]. apply not_elem_of_cons in Hc as [_ Hc].
    destruct (names_ok_snoc names client name) as [H1 H2]; [split; [done|]|done|..];
      [simpl in Hl; lia..|].
    split; [done|]. split; [done|]. intros other Ho. rw name_of_snoc //. cbn [head]. case_decide as E.
    + destruct E as [_ [= ->]]. by apply name_of_absent.
    + rw name_of_cons decide_False //. intros ->. by apply E.
  - destruct (names_ok_snoc (others client names) client name) as [H1 H2]; [done|done|lia|].
    split; [done|]. split; [done|]. intros other Ho. rw name_of_snoc // name_of_others //.
    by rw decide_False; [intros []|].
Qed.

Lemma admit_name_correct_witness :
  let full := map (λ n, (N.of_nat n, for_computer (Some (lit "Mac")) None)) (seq 0 256) in
  let names := admit_name 256%N (for_cli None None) full in
  names_ok names ∧ name_of names 0%N = client_name_from [] ∧ length names = 256.
Proof.
  cbv zeta. set (full := map _ _).
  assert (names_ok full) as Hok by (split; [by apply (bool_decide_unpack _); vm_compute|by vm_compute]).
  destruct (admit_name_correct 256%N (for_cli None None) full Hok) as (H1 & _ & H3).
  split; [exact H1|]. split; [|by vm_compute].
  by rw (H3 0%N) // decide_True.
Defined.

(** Negotiation: an agreed version is the listener's major at the lower of the
    listener's minor and the first offered one; no agreement means that no offered
    major is the listener's, and the blame falls on the caller exactly when every
    offered major is below the listener's. *)
Theorem negotiate_correct offered listener :
  match negotiate offered listener with
  | Ok agreed => ∃ before shared after, offered = before ++ shared :: after ∧
      Forall (λ v, pv_major v ≠ pv_major listener) before ∧
      pv_major shared = pv_major listener ∧ pv_major agreed = pv_major listener ∧
      (pv_minor agreed <= pv_minor listener ∧ pv_minor agreed <= pv_minor shared)%N ∧
      (pv_minor agreed = pv_minor listener ∨ pv_minor agreed = pv_minor shared)
  | Err blame => Forall (λ v, pv_major v ≠ pv_major listener) offered ∧
      (blame = CallerTooOld ↔ Forall (λ v, (pv_major v < pv_major listener)%N) offered)
  end.
Proof.
  unfold negotiate. destruct (vfind _ offered) as [shared|] eqn:E.
  - apply vfind_split in E as (l1 & l2 & -> & Hx & Hl). exists l1, shared, l2.
    apply bool_decide_eq_true in Hx. split; [done|]. split.
    { eapply Forall_impl; [exact Hl|]. intros v Hv. by apply bool_decide_eq_false in Hv. }
    simpl. split; [done|]. split; [done|]. lia.
  - assert (Forall (λ v, pv_major v ≠ pv_major listener) offered) as Hno.
    { apply Forall_forall. intros v Hv. pose proof (vfind_None _ _ E v Hv) as H.
      by apply bool_decide_eq_false in H. }
    assert (vall (λ v, (pv_major v <? pv_major listener)%N) offered = true ↔
            Forall (λ v, (pv_major v < pv_major listener)%N) offered) as Hall.
    { unfold vall. rw forallb_forall Forall_forall. setoid_rewrite N.ltb_lt.
      by setoid_rewrite list_elem_of_In. }
    destruct (vall _ offered); (split; [done|]); rw -Hall; naive_solver.
Qed.
