(* ===== verification/HierarchyTypes.v ===== *)
(** * The shared hierarchy: data

    The types of [crates/spaceterm-core/src/hierarchy.rs] and
    [worktree::Operation], with their projections, record updates and the
    equalities the code compares them by. *)
From S2P Require Import Prelude.
From S2P Require Import Text.
From S2P Require Import Facts.

Definition MAX_WORKSPACES : nat := 64.
Definition MAX_TABS : nat := 128.
Definition MAX_PANES : nat := 128.
Definition MAX_OUTCOMES : nat := 32.
Definition MAX_DEVICES : nat := 64.
Definition MAX_OBSERVER_NAMES : nat := 3.

(** ** Panes, Tabs, Workspaces *)

Inductive Axis := Axis_Right | Axis_Down.
#[export] Instance Axis_eq_dec : EqDecision Axis.
Proof. solve_decision. Defined.

Inductive Side := Side_Right | Side_Down | Side_Left | Side_Up.
#[export] Instance Side_eq_dec : EqDecision Side.
Proof. solve_decision. Defined.

Definition side_axis (s : Side) : Axis :=
  match s with
  | Side_Right | Side_Left => Axis_Right
  | Side_Down | Side_Up => Axis_Down
  end.
Definition side_leads (s : Side) : bool :=
  match s with Side_Left | Side_Up => true | _ => false end.
Definition side_of_axis (a : Axis) : Side :=
  match a with Axis_Right => Side_Right | Axis_Down => Side_Down end.

Inductive WorktreeMembership := Following | Opened | Repaired.
#[export] Instance WorktreeMembership_eq_dec : EqDecision WorktreeMembership.
Proof. solve_decision. Defined.

Record PaneObservers := { ob_names : list ClientName; ob_others : N }.
#[export] Instance PaneObservers_eq_dec : EqDecision PaneObservers.
Proof. solve_decision. Defined.
Definition no_observers : PaneObservers := {| ob_names := []; ob_others := 0%N |}.

Record Pane := {
  p_id : Id;
  p_source : option Id;
  p_side : Side;
  p_starting_directory : path;
  p_current_directory : option path;
  p_repository_directory : option path;
  p_presentation : option Snapshot;
  p_observers : PaneObservers;
  p_confirmed_directory : option path;
  p_creator : option Id
}.
#[export] Instance Pane_eq_dec : EqDecision Pane.
Proof. solve_decision. Defined.

(** [Pane::repository_directory] and [Pane::presented_directory]. *)
Definition pane_repository_directory (p : Pane) : path :=
  match p_repository_directory p with
  | Some d => d
  | None => match p_confirmed_directory p with
            | Some d => d
            | None => p_starting_directory p
            end
  end.
Definition pane_presented_directory (p : Pane) : path :=
  match p_current_directory p with
  | Some d => d
  | None => match p_confirmed_directory p with
            | Some d => d
            | None => p_starting_directory p
            end
  end.

Record Tab := {
  t_worktree_membership : WorktreeMembership;
  t_worktree : option path;
  t_worktree_repository : option path;
  t_id : Id;
  t_root_pane : Id;
  t_panes : list Pane
}.
#[export] Instance Tab_eq_dec : EqDecision Tab.
Proof. solve_decision. Defined.

Record Workspace := {
  w_id : Id;
  w_name : ustring;
  w_name_version : N;
  w_pin_version : N;
  w_pinned_directory : option path;
  w_root_tab : Id;
  w_tabs : list Tab
}.
#[export] Instance Workspace_eq_dec : EqDecision Workspace.
Proof. solve_decision. Defined.

(** ** Close confirmations and live facts *)

Inductive CloseTarget :=
  | Close_Pane (workspace tab pane : Id)
  | Close_Tab (workspace tab : Id)
  | Close_KillWorkspace (workspace : Id)
  | Close_Worktree (workspace tab : Id).
#[export] Instance CloseTarget_eq_dec : EqDecision CloseTarget.
Proof. solve_decision. Defined.

Record ConfirmedPane := { cp_id : Id; cp_session : option Id }.
#[export] Instance ConfirmedPane_eq_dec : EqDecision ConfirmedPane.
Proof. solve_decision. Defined.

Record ConfirmedControl := {
  cc_pane : Id; cc_session : option Id; cc_owner : Id; cc_epoch : N
}.
#[export] Instance ConfirmedControl_eq_dec : EqDecision ConfirmedControl.
Proof. solve_decision. Defined.

Record CloseInventory := {
  ci_boot : Id; ci_sessions : list ConfirmedPane; ci_controls : list ConfirmedControl
}.
#[export] Instance CloseInventory_eq_dec : EqDecision CloseInventory.
Proof. solve_decision. Defined.

Record CloseConfirmation := {
  cf_boot : Id;
  cf_panes : list ConfirmedPane;
  cf_removes_tab : bool;
  cf_removes_workspace : bool;
  cf_own_controls : option (list ConfirmedControl)
}.
#[export] Instance CloseConfirmation_eq_dec : EqDecision CloseConfirmation.
Proof. solve_decision. Defined.

Record Placement := { pl_workspace : Id; pl_tab : Id; pl_pane : Id }.
#[export] Instance Placement_eq_dec : EqDecision Placement.
Proof. solve_decision. Defined.

Record Inventory := {
  i_repositories : option RepositorySnapshot;
  i_revision : N;
  i_workspaces : list Workspace;
  i_close : option CloseInventory
}.

(** ** Mutations and outcomes *)

Inductive PaneDestination :=
  | NewTab
  | Beside (tab pane : Id) (side : Side).
#[export] Instance PaneDestination_eq_dec : EqDecision PaneDestination.
Proof. solve_decision. Defined.

Inductive CreateControl :=
  | Control_Creator
  | Control_Unclaimed
  | Control_OriginController (pane : Id).
#[export] Instance CreateControl_eq_dec : EqDecision CreateControl.
Proof. solve_decision. Defined.

(** [worktree::Operation]. *)
Inductive WorktreeOperation :=
  | Op_Create (workspace : Id) (root op_path : path) (branch : Branch) (control : CreateControl)
  | Op_Remove (root op_path : path) (boot confirmation : Id)
  | Op_SetLocation (version : N) (template : ustring)
  | Op_OpenTab (workspace : Id) (source : option Id) (root op_path : path)
      (control : CreateControl).

(** Derived [PartialEq] of [worktree::Operation]. *)
Definition operation_eqb (a b : WorktreeOperation) : bool :=
  match a, b with
  | Op_Create w r p br c, Op_Create w' r' p' br' c' =>
      bool_decide (w = w') && path_eqb r r' && path_eqb p p' && bool_decide (br = br')
      && bool_decide (c = c')
  | Op_Remove r p bt c, Op_Remove r' p' bt' c' =>
      path_eqb r r' && path_eqb p p' && bool_decide (bt = bt') && bool_decide (c = c')
  | Op_SetLocation v t, Op_SetLocation v' t' => bool_decide (v = v') && bool_decide (t = t')
  | Op_OpenTab w s r p c, Op_OpenTab w' s' r' p' c' =>
      bool_decide (w = w') && bool_decide (s = s') && path_eqb r r' && path_eqb p p'
      && bool_decide (c = c')
  | _, _ => false
  end.

(** [worktree::Operation::is_bounded]. *)
Definition operation_is_bounded (o : WorktreeOperation) : bool :=
  match o with
  | Op_SetLocation _ template => (N.of_nat (str_len template) <=? 1024)%N
  | Op_Create _ root p branch _ => valid_path root && valid_path p && branch_is_bounded branch
  | Op_Remove root p _ _ | Op_OpenTab _ _ root p _ => valid_path root && valid_path p
  end.

Inductive Mutation :=
  | EndAllSessions (confirmation : CloseInventory)
  | MutWorktree (operation : WorktreeOperation)
  | Close (target : CloseTarget) (confirmation : CloseConfirmation)
  | CreateWorkspace (name : ustring) (directory : option path) (control : CreateControl)
  | CreateTab (workspace : Id) (source : option Id) (control : CreateControl)
  | SplitPane (workspace tab source : Id) (axis : Axis) (control : CreateControl)
  | MovePane (workspace tab pane : Id) (destination : PaneDestination)
  | MergeTab (workspace tab into beside : Id) (side : Side)
  | RenameWorkspace (workspace : Id) (version : N) (name : ustring)
  | PinWorkspace (workspace : Id) (version : N) (directory : option path).

(** Derived [PartialEq] of [Mutation]. *)
Definition mutation_eqb (a b : Mutation) : bool :=
  match a, b with
  | EndAllSessions c, EndAllSessions c' => bool_decide (c = c')
  | MutWorktree o, MutWorktree o' => operation_eqb o o'
  | Close t c, Close t' c' => bool_decide (t = t') && bool_decide (c = c')
  | CreateWorkspace n d c, CreateWorkspace n' d' c' =>
      bool_decide (n = n') && opt_path_eqb d d' && bool_decide (c = c')
  | CreateTab w s c, CreateTab w' s' c' =>
      bool_decide (w = w') && bool_decide (s = s') && bool_decide (c = c')
  | SplitPane w t s a c, SplitPane w' t' s' a' c' =>
      bool_decide (w = w') && bool_decide (t = t') && bool_decide (s = s')
      && bool_decide (a = a') && bool_decide (c = c')
  | MovePane w t p d, MovePane w' t' p' d' =>
      bool_decide (w = w') && bool_decide (t = t') && bool_decide (p = p')
      && bool_decide (d = d')
  | MergeTab w t i b s, MergeTab w' t' i' b' s' =>
      bool_decide (w = w') && bool_decide (t = t') && bool_decide (i = i')
      && bool_decide (b = b') && bool_decide (s = s')
  | RenameWorkspace w v n, RenameWorkspace w' v' n' =>
      bool_decide (w = w') && bool_decide (v = v') && bool_decide (n = n')
  | PinWorkspace w v d, PinWorkspace w' v' d' =>
      bool_decide (w = w') && bool_decide (v = v') && opt_path_eqb d d'
  | _, _ => false
  end.

Definition opt_valid_path (p : option path) : bool :=
  match p with Some p => valid_path p | None => true end.

(** [Mutation::is_bounded]. *)
Definition is_bounded (m : Mutation) : bool :=
  match m with
  | EndAllSessions c =>
      (length (ci_sessions c) <=? MAX_PANES) && (length (ci_controls c) <=? MAX_PANES)
  | MutWorktree o => operation_is_bounded o
  | Close _ c =>
      negb (is_empty (cf_panes c)) && (length (cf_panes c) <=? MAX_PANES)
      && match cf_own_controls c with Some l => length l <=? MAX_PANES | None => true end
  | CreateWorkspace name directory _ => (str_len name <=? 256) && opt_valid_path directory
  | RenameWorkspace _ _ name => str_len name <=? 256
  | PinWorkspace _ _ (Some p) => valid_path p
  | _ => true
  end.

(** [Mutation::create_control]. *)
Definition create_control (m : Mutation) : option CreateControl :=
  match m with
  | CreateWorkspace _ _ c | CreateTab _ _ c | SplitPane _ _ _ _ c
  | MutWorktree (Op_OpenTab _ _ _ _ c) | MutWorktree (Op_Create _ _ _ _ c) => Some c
  | _ => None
  end.

Inductive Outcome :=
  | Pending
  | WorktreeFailed (error : WorktreeError)
  | Accepted (target : Id)
  | Conflict | Missing | Invalid | Limit | StaleConfirmation.
#[export] Instance Outcome_eq_dec : EqDecision Outcome.
Proof. solve_decision. Defined.

(** [Outcome::needs_presentation]. *)
Definition needs_presentation (o : Outcome) : bool :=
  match o with Pending | Accepted _ => false | _ => true end.

Record RetainedOutcome := {
  ro_sequence : N; ro_mutation : Mutation; ro_outcome : Outcome
}.

Record DeviceOutcomes := {
  d_device : Id; d_retired : N; d_pending : list RetainedOutcome
}.

Record WorkspaceName := {
  n_workspace : Id; n_custom : option ustring; n_automatic_base : ustring
}.

Record State := {
  s_home_directory : option path;
  s_names : list WorkspaceName;
  s_worktree_settings : WorktreeSettings;
  s_inventory : Inventory;
  s_devices : list DeviceOutcomes;
  s_sequence_floor : N;
  s_creator_boot : option Id;
  s_session_ends : option CloseInventory
}.

(** ** Record updates *)

Definition set_p_place (source : option Id) (side : Side) (p : Pane) : Pane :=
  {| p_id := p_id p; p_source := source; p_side := side;
     p_starting_directory := p_starting_directory p;
     p_current_directory := p_current_directory p;
     p_repository_directory := p_repository_directory p;
     p_presentation := p_presentation p; p_observers := p_observers p;
     p_confirmed_directory := p_confirmed_directory p; p_creator := p_creator p |}.
Definition set_p_source (source : option Id) (p : Pane) : Pane :=
  set_p_place source (p_side p) p.
Definition set_p_confirmed_directory (d : option path) (p : Pane) : Pane :=
  {| p_id := p_id p; p_source := p_source p; p_side := p_side p;
     p_starting_directory := p_starting_directory p;
     p_current_directory := p_current_directory p;
     p_repository_directory := p_repository_directory p;
     p_presentation := p_presentation p; p_observers := p_observers p;
     p_confirmed_directory := d; p_creator := p_creator p |}.
Definition set_p_current_directory (d : option path) (p : Pane) : Pane :=
  {| p_id := p_id p; p_source := p_source p; p_side := p_side p;
     p_starting_directory := p_starting_directory p;
     p_current_directory := d;
     p_repository_directory := p_repository_directory p;
     p_presentation := p_presentation p; p_observers := p_observers p;
     p_confirmed_directory := p_confirmed_directory p; p_creator := p_creator p |}.
Definition set_p_repository_directory (d : option path) (p : Pane) : Pane :=
  {| p_id := p_id p; p_source := p_source p; p_side := p_side p;
     p_starting_directory := p_starting_directory p;
     p_current_directory := p_current_directory p;
     p_repository_directory := d;
     p_presentation := p_presentation p; p_observers := p_observers p;
     p_confirmed_directory := p_confirmed_directory p; p_creator := p_creator p |}.
Definition set_p_presentation (s : option Snapshot) (p : Pane) : Pane :=
  {| p_id := p_id p; p_source := p_source p; p_side := p_side p;
     p_starting_directory := p_starting_directory p;
     p_current_directory := p_current_directory p;
     p_repository_directory := p_repository_directory p;
     p_presentation := s; p_observers := p_observers p;
     p_confirmed_directory := p_confirmed_directory p; p_creator := p_creator p |}.
Definition set_p_observers (o : PaneObservers) (p : Pane) : Pane :=
  {| p_id := p_id p; p_source := p_source p; p_side := p_side p;
     p_starting_directory := p_starting_directory p;
     p_current_directory := p_current_directory p;
     p_repository_directory := p_repository_directory p;
     p_presentation := p_presentation p; p_observers := o;
     p_confirmed_directory := p_confirmed_directory p; p_creator := p_creator p |}.
Definition set_p_creator (c : option Id) (p : Pane) : Pane :=
  {| p_id := p_id p; p_source := p_source p; p_side := p_side p;
     p_starting_directory := p_starting_directory p;
     p_current_directory := p_current_directory p;
     p_repository_directory := p_repository_directory p;
     p_presentation := p_presentation p; p_observers := p_observers p;
     p_confirmed_directory := p_confirmed_directory p; p_creator := c |}.

Definition set_t_panes (panes : list Pane) (t : Tab) : Tab :=
  {| t_worktree_membership := t_worktree_membership t; t_worktree := t_worktree t;
     t_worktree_repository := t_worktree_repository t; t_id := t_id t;
     t_root_pane := t_root_pane t; t_panes := panes |}.
Definition set_t_root_pane (root : Id) (t : Tab) : Tab :=
  {| t_worktree_membership := t_worktree_membership t; t_worktree := t_worktree t;
     t_worktree_repository := t_worktree_repository t; t_id := t_id t;
     t_root_pane := root; t_panes := t_panes t |}.
Definition set_t_membership (m : WorktreeMembership) (t : Tab) : Tab :=
  {| t_worktree_membership := m; t_worktree := t_worktree t;
     t_worktree_repository := t_worktree_repository t; t_id := t_id t;
     t_root_pane := t_root_pane t; t_panes := t_panes t |}.

Definition set_w_tabs (tabs : list Tab) (w : Workspace) : Workspace :=
  {| w_id := w_id w; w_name := w_name w; w_name_version := w_name_version w;
     w_pin_version := w_pin_version w; w_pinned_directory := w_pinned_directory w;
     w_root_tab := w_root_tab w; w_tabs := tabs |}.
Definition set_w_root_tab (root : Id) (w : Workspace) : Workspace :=
  {| w_id := w_id w; w_name := w_name w; w_name_version := w_name_version w;
     w_pin_version := w_pin_version w; w_pinned_directory := w_pinned_directory w;
     w_root_tab := root; w_tabs := w_tabs w |}.
Definition set_w_name (name : ustring) (version : N) (w : Workspace) : Workspace :=
  {| w_id := w_id w; w_name := name; w_name_version := version;
     w_pin_version := w_pin_version w; w_pinned_directory := w_pinned_directory w;
     w_root_tab := w_root_tab w; w_tabs := w_tabs w |}.
Definition set_w_pin (d : option path) (version : N) (w : Workspace) : Workspace :=
  {| w_id := w_id w; w_name := w_name w; w_name_version := w_name_version w;
     w_pin_version := version; w_pinned_directory := d;
     w_root_tab := w_root_tab w; w_tabs := w_tabs w |}.

Definition set_i_workspaces (ws : list Workspace) (i : Inventory) : Inventory :=
  {| i_repositories := i_repositories i; i_revision := i_revision i; i_workspaces := ws;
     i_close := i_close i |}.
Definition set_i_revision (r : N) (i : Inventory) : Inventory :=
  {| i_repositories := i_repositories i; i_revision := r; i_workspaces := i_workspaces i;
     i_close := i_close i |}.
Definition set_i_close (c : option CloseInventory) (i : Inventory) : Inventory :=
  {| i_repositories := i_repositories i; i_revision := i_revision i;
     i_workspaces := i_workspaces i; i_close := c |}.
Definition set_i_repositories (r : option RepositorySnapshot) (i : Inventory) : Inventory :=
  {| i_repositories := r; i_revision := i_revision i; i_workspaces := i_workspaces i;
     i_close := i_close i |}.

Definition set_n_custom (c : option ustring) (n : WorkspaceName) : WorkspaceName :=
  {| n_workspace := n_workspace n; n_custom := c; n_automatic_base := n_automatic_base n |}.
Definition set_n_automatic_base (b : ustring) (n : WorkspaceName) : WorkspaceName :=
  {| n_workspace := n_workspace n; n_custom := n_custom n; n_automatic_base := b |}.

Definition set_d_record (retired : N) (pending : list RetainedOutcome) (d : DeviceOutcomes)
    : DeviceOutcomes :=
  {| d_device := d_device d; d_retired := retired; d_pending := pending |}.
Definition set_ro_outcome (o : Outcome) (r : RetainedOutcome) : RetainedOutcome :=
  {| ro_sequence := ro_sequence r; ro_mutation := ro_mutation r; ro_outcome := o |}.

Definition set_s_home_directory (h : option path) (s : State) : State :=
  {| s_home_directory := h; s_names := s_names s;
     s_worktree_settings := s_worktree_settings s; s_inventory := s_inventory s;
     s_devices := s_devices s; s_sequence_floor := s_sequence_floor s;
     s_creator_boot := s_creator_boot s; s_session_ends := s_session_ends s |}.
Definition set_s_names (n : list WorkspaceName) (s : State) : State :=
  {| s_home_directory := s_home_directory s; s_names := n;
     s_worktree_settings := s_worktree_settings s; s_inventory := s_inventory s;
     s_devices := s_devices s; s_sequence_floor := s_sequence_floor s;
     s_creator_boot := s_creator_boot s; s_session_ends := s_session_ends s |}.
Definition set_s_inventory (i : Inventory) (s : State) : State :=
  {| s_home_directory := s_home_directory s; s_names := s_names s;
     s_worktree_settings := s_worktree_settings s; s_inventory := i;
     s_devices := s_devices s; s_sequence_floor := s_sequence_floor s;
     s_creator_boot := s_creator_boot s; s_session_ends := s_session_ends s |}.
Definition set_s_devices (d : list DeviceOutcomes) (s : State) : State :=
  {| s_home_directory := s_home_directory s; s_names := s_names s;
     s_worktree_settings := s_worktree_settings s; s_inventory := s_inventory s;
     s_devices := d; s_sequence_floor := s_sequence_floor s;
     s_creator_boot := s_creator_boot s; s_session_ends := s_session_ends s |}.
Definition set_s_sequence_floor (f : N) (s : State) : State :=
  {| s_home_directory := s_home_directory s; s_names := s_names s;
     s_worktree_settings := s_worktree_settings s; s_inventory := s_inventory s;
     s_devices := s_devices s; s_sequence_floor := f;
     s_creator_boot := s_creator_boot s; s_session_ends := s_session_ends s |}.
Definition set_s_creator_boot (b : option Id) (s : State) : State :=
  {| s_home_directory := s_home_directory s; s_names := s_names s;
     s_worktree_settings := s_worktree_settings s; s_inventory := s_inventory s;
     s_devices := s_devices s; s_sequence_floor := s_sequence_floor s;
     s_creator_boot := b; s_session_ends := s_session_ends s |}.
Definition set_s_session_ends (e : option CloseInventory) (s : State) : State :=
  {| s_home_directory := s_home_directory s; s_names := s_names s;
     s_worktree_settings := s_worktree_settings s; s_inventory := s_inventory s;
     s_devices := s_devices s; s_sequence_floor := s_sequence_floor s;
     s_creator_boot := s_creator_boot s; s_session_ends := e |}.

(** Shorthands over a state's inventory. *)
Definition s_workspaces (s : State) : list Workspace := i_workspaces (s_inventory s).
Definition set_s_workspaces (ws : list Workspace) (s : State) : State :=
  set_s_inventory (set_i_workspaces ws (s_inventory s)) s.
Definition s_revision (s : State) : N := i_revision (s_inventory s).
Definition set_s_revision (r : N) (s : State) : State :=
  set_s_inventory (set_i_revision r (s_inventory s)) s.

(** The Panes of a Workspace list, in order. *)
Definition tab_pane_ids (t : Tab) : list Id := map p_id (t_panes t).
Definition workspace_panes (w : Workspace) : list Pane := flat_map t_panes (w_tabs w).
Definition all_panes (ws : list Workspace) : list Pane := flat_map workspace_panes ws.

(** Writes [f] to every Pane, as the nested [for] loops of the code do. *)
Definition map_panes (f : Pane → Pane) (ws : list Workspace) : list Workspace :=
  map (λ w, set_w_tabs (map (λ t, set_t_panes (map f (t_panes t)) t) (w_tabs w)) w) ws.
