(* ===== verification/HierarchyWorkspace.v ===== *)
(** * One Workspace's moves

    [impl Workspace] and [impl Inventory] of [hierarchy.rs]: taking a Pane out
    of a Tab, moving it, merging Tabs, promoting the Root Tab, and what a close
    target names. A [&mut self] method returns the Workspace it leaves behind
    beside its result. *)
From S2P Require Import Prelude.
From S2P Require Import Text.
From S2P Require Import Facts.
From S2P Require Import HierarchyTypes.

Definition has_id_w (id : Id) (w : Workspace) : bool := bool_decide (w_id w = id).
Definition has_id_t (id : Id) (t : Tab) : bool := bool_decide (t_id t = id).
Definition has_id_p (id : Id) (p : Pane) : bool := bool_decide (p_id p = id).

(** ** [impl Workspace] *)

(** [Workspace::take_pane]. *)
Definition take_pane (w : Workspace) (tab pane : Id) : Workspace * result Pane Outcome :=
  match vfind (has_id_t tab) (w_tabs w) with
  | None => (w, Err Missing)
  | Some source =>
      match vposition (has_id_p pane) (t_panes source) with
      | None => (w, Err Missing)
      | Some index =>
          if length (t_panes source) =? 1 then (w, Err Invalid)
          else match t_panes source !! index with
               | None => (w, Err Missing) (* an index found by [position] is in range *)
               | Some p =>
                   let moved := set_p_place None Side_Right p in
                   let rest := map
                     (λ q, if bool_decide (p_source q = Some pane)
                           then set_p_source None q else q)
                     (vremove index (t_panes source)) in
                   let root := if bool_decide (t_root_pane source = pane)
                               then match rest with
                                    | q :: _ => p_id q
                                    | [] => t_root_pane source (* two or more Panes remain one *)
                                    end
                               else t_root_pane source in
                   let source' := set_t_root_pane root (set_t_panes rest source) in
                   (set_w_tabs (vupdate (has_id_t tab) (λ _, source') (w_tabs w)) w, Ok moved)
               end
      end
  end.

(** [Workspace::promote_root_tab]. *)
Definition promote_root_tab (w : Workspace) : Workspace :=
  match w_tabs w with
  | [] => w
  | t :: ts =>
      if bool_decide (t_id t ≠ w_root_tab w) then
        let t' := if bool_decide (t_worktree_membership t = Opened)
                  then set_t_membership Following t else t in
        set_w_root_tab (t_id t') (set_w_tabs (t' :: ts) w)
      else w
  end.

(** [Workspace::destination]. *)
Definition destination (w : Workspace) (tab into beside : Id) : result nat Outcome :=
  if bool_decide (tab = into) then Err Invalid
  else ok_or (vposition (λ t, has_id_t into t && vany (has_id_p beside) (t_panes t)) (w_tabs w))
         Missing.

(** [Workspace::move_pane_to_new_tab]. *)
Definition move_pane_to_new_tab (w : Workspace) (tab pane id : Id)
    : Workspace * result unit Outcome :=
  match vfind (has_id_t tab) (w_tabs w) with
  | None => (w, Err Missing)
  | Some source =>
      match take_pane w tab pane with
      | (w', Err e) => (w', Err e)
      | (w', Ok moved) =>
          let new := {| t_worktree_membership := Following;
                        t_worktree := t_worktree source;
                        t_worktree_repository := t_worktree_repository source;
                        t_id := id; t_root_pane := pane; t_panes := [moved] |} in
          (set_w_tabs (w_tabs w' ++ [new]) w', Ok tt)
      end
  end.

(** [Workspace::move_pane_beside]. *)
Definition move_pane_beside (w : Workspace) (tab pane into beside : Id) (side : Side)
    : Workspace * result unit Outcome :=
  match destination w tab into beside with
  | Err e => (w, Err e)
  | Ok target =>
      match take_pane w tab pane with
      | (w', Err e) => (w', Err e)
      | (w', Ok moved) =>
          let moved' := set_p_place (Some beside) side moved in
          (set_w_tabs (alter (λ t, set_t_panes (t_panes t ++ [moved']) t) target (w_tabs w')) w',
           Ok tt)
      end
  end.

(** How one Pane of a merged Tab joins the other Tab. *)
Definition merge_pane (root beside : Id) (side : Side) (p : Pane) : Pane :=
  if bool_decide (p_id p = root) then set_p_place (Some beside) side p
  else match p_source p with
       | Some _ => p
       | None => set_p_source (Some root) p
       end.

(** [Workspace::merge_tab]. *)
Definition merge_tab (w : Workspace) (tab into beside : Id) (side : Side)
    : Workspace * result unit Outcome :=
  match destination w tab into beside with
  | Err e => (w, Err e)
  | Ok _ =>
      match vposition (has_id_t tab) (w_tabs w) with
      | None => (w, Err Missing)
      | Some index =>
          match w_tabs w !! index with
          | None => (w, Err Missing) (* an index found by [position] is in range *)
          | Some merged =>
              let tabs := vremove index (w_tabs w) in
              match vfind (has_id_t into) tabs with
              | None => (set_w_tabs tabs w, Err Missing)
              | Some _ =>
                  let panes := map (merge_pane (t_root_pane merged) beside side) (t_panes merged) in
                  let tabs' := vupdate (has_id_t into)
                                 (λ t, set_t_panes (t_panes t ++ panes) t) tabs in
                  (promote_root_tab (set_w_tabs tabs' w), Ok tt)
              end
          end
      end
  end.

(** ** [impl Inventory] *)

Definition close_workspace (target : CloseTarget) : Id :=
  match target with
  | Close_Pane w _ _ | Close_Tab w _ | Close_KillWorkspace w | Close_Worktree w _ => w
  end.

(** [Inventory::close_panes]. *)
Definition close_panes (i : Inventory) (target : CloseTarget) : option (list Id) :=
  match vfind (has_id_w (close_workspace target)) (i_workspaces i) with
  | None => None
  | Some w =>
      match target with
      | Close_Worktree _ tab =>
          match vfind (has_id_t tab) (w_tabs w) with
          | None => None
          | Some anchor =>
              match t_worktree anchor with
              | None => None
              | Some _ =>
                  Some (flat_map tab_pane_ids
                    (vfilter (λ t, opt_path_eqb (t_worktree t) (t_worktree anchor)
                                   && opt_path_eqb (t_worktree_repository t)
                                        (t_worktree_repository anchor))
                       (w_tabs w)))
              end
          end
      | Close_KillWorkspace _ => Some (map p_id (workspace_panes w))
      | Close_Tab _ tab =>
          match vfind (has_id_t tab) (w_tabs w) with
          | None => None
          | Some t => Some (tab_pane_ids t)
          end
      | Close_Pane _ tab pane =>
          match vfind (has_id_t tab) (w_tabs w) with
          | None => None
          | Some t => if vany (has_id_p pane) (t_panes t) then Some [pane] else None
          end
      end
  end.

(** [Inventory::close_confirmation]. *)
Definition close_confirmation (i : Inventory) (target : CloseTarget)
    : option CloseConfirmation :=
  match i_close i with
  | None => None
  | Some live =>
      match close_panes i target with
      | None => None
      | Some ids =>
          match vfind (has_id_w (close_workspace target)) (i_workspaces i) with
          | None => None
          | Some workspace =>
              let removes_tab :=
                match target with
                | Close_Pane _ tab _ =>
                    match vfind (has_id_t tab) (w_tabs workspace) with
                    | None => None
                    | Some t => Some (length (t_panes t) =? 1)
                    end
                | _ => Some true
                end in
              match removes_tab with
              | None => None
              | Some removes_tab =>
                  let removes_workspace :=
                    length ids =? vsum (λ t, length (t_panes t)) (w_tabs workspace) in
                  match vcollect (map (λ id, vfind (λ p, bool_decide (cp_id p = id))
                                               (ci_sessions live)) ids) with
                  | None => None
                  | Some panes =>
                      Some {| cf_boot := ci_boot live; cf_panes := panes;
                              cf_removes_tab := removes_tab;
                              cf_removes_workspace := removes_workspace;
                              cf_own_controls := None |}
                  end
              end
          end
      end
  end.

(** [CloseConfirmation::same_targets]. *)
Definition same_targets (a b : CloseConfirmation) : bool :=
  bool_decide (cf_boot a = cf_boot b) && bool_decide (cf_panes a = cf_panes b)
  && bool_decide (cf_removes_tab a = cf_removes_tab b)
  && bool_decide (cf_removes_workspace a = cf_removes_workspace b).

(** [Inventory::placement]. *)
Definition placement (i : Inventory) (id : Id) : option Placement :=
  vfind_map (λ w,
    let at_tab t pane := {| pl_workspace := w_id w; pl_tab := t_id t; pl_pane := pane |} in
    if bool_decide (w_id w = id) then
      match vfind (has_id_t (w_root_tab w)) (w_tabs w) with
      | None => None
      | Some t => Some (at_tab t (t_root_pane t))
      end
    else
      vfind_map (λ t,
        if bool_decide (t_id t = id) then Some (at_tab t (t_root_pane t))
        else if vany (has_id_p id) (t_panes t) then Some (at_tab t id) else None)
        (w_tabs w)) (i_workspaces i).

(** [CreateControl::creator]. *)
Definition creator (control : CreateControl) (device : Id) (i : Inventory) : option Id :=
  match control with
  | Control_Creator => Some device
  | Control_Unclaimed => None
  | Control_OriginController pane =>
      match i_close i with
      | None => None
      | Some live =>
          cc_owner <$> vfind (λ c, bool_decide (cc_pane c = pane)) (ci_controls live)
      end
  end.

(** ** Automatic Workspace names

    [State::recalculate_names] of [hierarchy.rs]: custom names are kept, an
    automatic name whose base did not change is reserved, and every other
    Workspace takes the first free name of the form [base], [base (2)], ... *)
(** A name a Workspace may carry: printable and within the protocol bound. *)
Definition valid_name (name : ustring) : bool :=
  negb (is_empty (trim name)) && (str_len name <=? 256) && negb (vany is_control name).

(** The Root Pane of a Workspace, when it holds one. *)
Definition root_pane_of (w : Workspace) : option Pane :=
  match vfind (has_id_t (w_root_tab w)) (w_tabs w) with
  | None => None
  | Some t => vfind (has_id_p (t_root_pane t)) (t_panes t)
  end.

(** The directory an automatic name follows. *)
Definition naming_directory (w : Workspace) : option path :=
  match w_pinned_directory w with
  | Some d => Some d
  | None => pane_presented_directory <$> root_pane_of w
  end.

(** The base name of a Workspace without a custom name. *)
Definition automatic_base (home : option path) (w : Workspace) : ustring :=
  let base :=
    match naming_directory w with
    | Some d =>
        if negb (opt_path_eqb (Some d) home)
        then match file_name d with
             | Some n => from_utf8_lossy n
             | None => lit "/"
             end
        else lit "Default"
    | None => lit "Default"
    end in
  let base := pop_to 251 (vfilter (λ c, negb (is_control c)) base) in
  if is_empty (trim base) then lit "/" else base.

(** [format!("{base} ({ordinal})")]. *)
Definition numbered (base : ustring) (ordinal : N) : ustring :=
  base ++ lit " (" ++ display_N ordinal ++ lit ")".

(** [while !occupied.insert(name.clone()) { .. }]: the name that was inserted. *)
Fixpoint allocate (fuel : nat) (occupied : gset (list N)) (base name : ustring) (ordinal : N)
    : option ustring :=
  match fuel with
  | 0 => None
  | S fuel =>
      if bool_decide (name ∈ occupied)
      then allocate fuel occupied base (numbered base ordinal) (ordinal + 1)%N
      else Some name
  end.

(** One more attempt than there are names in the way always finds a free one. *)
Definition allocate_name (occupied : gset (list N)) (base : ustring) : option ustring :=
  allocate (S (size occupied)) occupied base base 2%N.

Definition names_entry (id : Id) (n : WorkspaceName) : bool := bool_decide (n_workspace n = id).

(** The first loop: custom names are written, unchanged automatic names are
    reserved, and the other Workspaces wait, by index, with their bases. *)
Fixpoint reserve_names (home : option path) (names : list WorkspaceName) (index : nat)
    (ws : list Workspace) (occupied : gset (list N))
    : list Workspace * gset (list N) * list (nat * ustring) :=
  match ws with
  | [] => ([], occupied, [])
  | w :: ws =>
      let '(w, occupied, waits) :=
        match vfind (names_entry (w_id w)) names with
        | None => (w, occupied, [])
        | Some naming =>
            match n_custom naming with
            | Some custom =>
                ((if bool_decide (w_name w ≠ custom)
                  then set_w_name custom (w_name_version w) w else w), occupied, [])
            | None =>
                let base := automatic_base home w in
                if bool_decide (n_automatic_base naming = base)
                   && bool_decide (w_name w ∉ occupied)
                then (w, {[ w_name w ]} ∪ occupied, [])
                else (w, occupied, [(index, base)])
            end
        end in
      let '(ws, occupied, pending) := reserve_names home names (S index) ws occupied in
      (w :: ws, occupied, waits ++ pending)
  end.

(** The second loop over the waiting Workspaces. *)
Fixpoint assign_names (pending : list (nat * ustring)) (names : list WorkspaceName)
    (ws : list Workspace) (occupied : gset (list N))
    : option (list WorkspaceName * list Workspace) :=
  match pending with
  | [] => Some (names, ws)
  | (index, base) :: pending =>
      match ws !! index with
      | None => assign_names pending names ws occupied
      | Some w =>
          match vfind (names_entry (w_id w)) names with
          | None => assign_names pending names ws occupied
          | Some _ =>
              match allocate_name occupied base with
              | None => None
              | Some name =>
                  let w' := if bool_decide (w_name w ≠ name)
                            then set_w_name name (u64_wrapping_add (w_name_version w) 1) w
                            else w in
                  assign_names pending
                    (vupdate (names_entry (w_id w)) (set_n_automatic_base base) names)
                    (<[index := w']> ws) ({[ name ]} ∪ occupied)
              end
          end
      end
  end.

Definition custom_names (names : list WorkspaceName) : gset (list N) :=
  list_to_set (omap n_custom names).

(** [State::recalculate_names]. [None] would be a search that never ends. *)
Definition recalculate (home : option path) (names : list WorkspaceName) (ws : list Workspace)
    : option (list WorkspaceName * list Workspace) :=
  let '(ws, occupied, pending) := reserve_names home names 0 ws (custom_names names) in
  assign_names pending names ws occupied.

Definition recalculate_names (s : State) : State :=
  match recalculate (s_home_directory s) (s_names s) (s_workspaces s) with
  | Some (names, ws) => set_s_workspaces ws (set_s_names names s)
  | None => s
  end.
