(* ===== verification/HierarchyState.v ===== *)
(** * The shared hierarchy: operations

    [impl State] of [hierarchy.rs]. Every [&mut self] method is a function that
    returns the state it leaves behind, refusals included. Random identities
    come from a stream of draws that the caller supplies: [None] is a failed
    read of the system's random source, [ring::rand::SystemRandom]. *)
From S2P Require Import Prelude.
From S2P Require Import Text.
From S2P Require Import Facts.
From S2P Require Import HierarchyTypes.
From S2P Require Import HierarchyWorkspace.

(** ** Random identities *)

Abbreviation Draws := (list (option N)) (only parsing).

(** [protocol::random]. *)
Definition random (ds : Draws) : option Id * Draws :=
  match ds with
  | [] => (None, [])
  | d :: ds => (d, ds)
  end.

(** ** Construction, boots and retention *)

(** [State::empty]. *)
Definition empty_state : State :=
  {| s_home_directory := None; s_names := []; s_worktree_settings := default_worktree_settings;
     s_inventory := {| i_repositories := None; i_revision := 0%N; i_workspaces := [];
                       i_close := None |};
     s_devices := []; s_sequence_floor := 0%N; s_creator_boot := None; s_session_ends := None |}.

(** The Pane a creation adds: no Terminal Session and no live facts yet. *)
Definition new_pane (id : Id) (source : option Id) (side : Side) (start : path)
    (owner : option Id) : Pane :=
  {| p_id := id; p_source := source; p_side := side; p_starting_directory := start;
     p_current_directory := None; p_repository_directory := None; p_presentation := None;
     p_observers := no_observers; p_confirmed_directory := None; p_creator := owner |}.

(** Clears one Pane's live facts. *)
Definition strip_live (p : Pane) : Pane :=
  set_p_observers no_observers
    (set_p_presentation None (set_p_repository_directory None (set_p_current_directory None p))).

(** [State::begin_boot]. *)
Definition begin_boot (boot : Id) (s : State) : State :=
  if bool_decide (s_creator_boot s ≠ Some boot) then
    set_s_creator_boot (Some boot)
      (set_s_workspaces (map_panes (λ p, strip_live (set_p_creator None p)) (s_workspaces s))
         (set_s_session_ends None s))
  else s.

(** [State::envelope]: the record a server retains. *)
Definition envelope (s : State) : State :=
  let i := set_i_close None (set_i_repositories None (s_inventory s)) in
  set_s_inventory (set_i_workspaces (map_panes strip_live (i_workspaces i)) i) s.

(** ** Device records *)

Definition is_device (device : Id) (d : DeviceOutcomes) : bool := bool_decide (d_device d = device).
Definition find_device (device : Id) (s : State) : option DeviceOutcomes :=
  vfind (is_device device) (s_devices s).

(** [State::outcome]. *)
Definition outcome (s : State) (device : Id) (sequence : N) : option RetainedOutcome :=
  match find_device device s with
  | None => None
  | Some d => vfind (λ o, bool_decide (ro_sequence o = sequence)) (d_pending d)
  end.

(** [State::next_sequence]. *)
Definition next_sequence (s : State) (device : Id) : N :=
  match find_device device s with
  | None => u64_wrapping_add (s_sequence_floor s) 1
  | Some d =>
      match last (d_pending d) with
      | None => u64_wrapping_add (d_retired d) 1
      | Some o => u64_wrapping_add (ro_sequence o) 1
      end
  end.

(** [State::holds]. *)
Definition holds (s : State) (device : Id) : bool :=
  vany (λ d, is_device device d && negb (is_empty (d_pending d))) (s_devices s).

Definition is_pending (o : RetainedOutcome) : bool := bool_decide (ro_outcome o = Pending).

(** [State::forget]. *)
Definition forget (s : State) (device : Id) : State * bool :=
  if vany (λ d, is_device device d && vany is_pending (d_pending d)) (s_devices s)
  then (s, false)
  else (set_s_devices (vfilter (λ d, negb (is_device device d)) (s_devices s)) s, true).

(** [State::pending_worktrees]. *)
Definition pending_worktrees (s : State) : list (Id * RetainedOutcome) :=
  flat_map (λ d, map (λ o, (d_device d, o)) (vfilter is_pending (d_pending d))) (s_devices s).

Definition is_worktree_mutation (m : Mutation) : bool :=
  match m with MutWorktree _ => true | _ => false end.

(** [State::finish_worktree]. *)
Definition finish_worktree (s : State) (device : Id) (sequence : N) (o : Outcome)
    : State * result unit Refusal :=
  match outcome s device sequence with
  | None => (s, Err Refusal_Missing)
  | Some record =>
      if bool_decide (ro_outcome record ≠ Pending)
         || negb (is_worktree_mutation (ro_mutation record))
         || bool_decide (o = Pending)
      then (s, Err Refusal_Stale)
      else
        let write d :=
          set_d_record (d_retired d)
            (vupdate (λ r, bool_decide (ro_sequence r = sequence)) (set_ro_outcome o)
               (d_pending d)) d in
        (set_s_devices (vupdate (is_device device) write (s_devices s)) s, Ok tt)
  end.

(** [State::acknowledge]. *)
Definition acknowledge (s : State) (device : Id) (sequence : N) : State * result unit Refusal :=
  match find_device device s with
  | None => (s, Ok tt)
  | Some d =>
      let settled := take_while_count (λ o, (ro_sequence o <=? sequence)%N) (d_pending d) in
      if vany is_pending (take settled (d_pending d)) then (s, Err Refusal_Stale)
      else
        let retired := match last (take settled (d_pending d)) with
                       | Some o => N.max (d_retired d) (ro_sequence o)
                       | None => d_retired d
                       end in
        (set_s_devices (vupdate (is_device device)
           (set_d_record retired (drop settled (d_pending d))) (s_devices s)) s, Ok tt)
  end.

(** ** Counting and lookup *)

(** [State::tab_count], [State::pane_count]. *)
Definition tab_count (s : State) : nat := vsum (λ w, length (w_tabs w)) (s_workspaces s).
Definition pane_count (s : State) : nat :=
  vsum (λ t, length (t_panes t)) (flat_map w_tabs (s_workspaces s)).

(** [State::pane]. *)
Definition find_pane (s : State) (id : Id) : option (Workspace * Tab * Pane) :=
  vfind_map (λ w,
    vfind_map (λ t, match vfind (has_id_p id) (t_panes t) with
                    | Some p => Some (w, t, p)
                    | None => None
                    end) (w_tabs w)) (s_workspaces s).

(** ** Removing a Pane *)

Definition drop_lost_sources (ps : list Pane) : list Pane :=
  let ids := map p_id ps in
  map (λ p, match p_source p with
            | Some source => if negb (bool_decide (source ∈ ids)) then set_p_source None p else p
            | None => p
            end) ps.

(** The body of [remove_pane]'s inner loop. *)
Definition remove_from_tab (id : Id) (t : Tab) : Tab :=
  let panes := vfilter (λ p, negb (has_id_p id p)) (t_panes t) in
  let root := match panes with p :: _ => p_id p | [] => t_root_pane t end in
  set_t_panes (drop_lost_sources panes) (set_t_root_pane root t).

Definition remove_from_workspace (id : Id) (w : Workspace) : Workspace :=
  let tabs := map (remove_from_tab id) (w_tabs w) in
  promote_root_tab (set_w_tabs (vfilter (λ t, negb (is_empty (t_panes t))) tabs) w).

Definition remove_from_workspaces (id : Id) (ws : list Workspace) : list Workspace :=
  vfilter (λ w, negb (is_empty (w_tabs w))) (map (remove_from_workspace id) ws).

(** Names whose Workspace is gone go with it. *)
Definition retain_names (ws : list Workspace) (names : list WorkspaceName) : list WorkspaceName :=
  vfilter (λ n, vany (has_id_w (n_workspace n)) ws) names.

(** [State::remove_pane]. *)
Definition remove_pane (s : State) (id : Id) : State :=
  let ws := remove_from_workspaces id (s_workspaces s) in
  let s := set_s_workspaces ws s in
  let s := recalculate_names (set_s_names (retain_names ws (s_names s)) s) in
  set_s_revision (u64_wrapping_add (s_revision s) 1) s.

(** ** Directories and presentation *)

Definition tab_has (id : Id) (t : Tab) : bool := vany (has_id_p id) (t_panes t).
Definition workspace_has (id : Id) (w : Workspace) : bool := vany (tab_has id) (w_tabs w).

(** The nested loops that write through the first Pane [id] and its Tab. *)
Definition update_pane (id : Id) (ft : Tab → Tab) (fp : Pane → Pane) (ws : list Workspace)
    : list Workspace :=
  vupdate (workspace_has id)
    (λ w, set_w_tabs
       (vupdate (tab_has id)
          (λ t, ft (set_t_panes (vupdate (has_id_p id) fp (t_panes t)) t)) (w_tabs w)) w) ws.

(** [State::repair_directory]. *)
Definition repair_directory (s : State) (id : Id) (d : path) : State * result unit Refusal :=
  match find_pane s id with
  | None => (s, Err Refusal_Missing)
  | Some _ =>
      let ws := update_pane id (set_t_membership Repaired) (set_p_confirmed_directory (Some d))
                  (s_workspaces s) in
      let s := recalculate_names (set_s_workspaces ws s) in
      match u64_checked_add (s_revision s) 1 with
      | None => (s, Err Refusal_Capacity)
      | Some r => (set_s_revision r s, Ok tt)
      end
  end.

(** [State::confirm_directory]. *)
Definition confirm_directory (s : State) (id : Id) (d : path) : State :=
  match find_pane s id with
  | None => s
  | Some (_, _, p) =>
      if negb (opt_path_eqb (p_confirmed_directory p) (Some d)) then
        let ws := update_pane id (λ t, t) (set_p_confirmed_directory (Some d)) (s_workspaces s) in
        let s := recalculate_names (set_s_workspaces ws s) in
        set_s_revision (u64_wrapping_add (s_revision s) 1) s
      else s
  end.

(** [State::present_presentation]. *)
Definition present_presentation (s : State) (id : Id) (snapshot : option Snapshot) : State :=
  set_s_workspaces (update_pane id (λ t, t) (set_p_presentation snapshot) (s_workspaces s)) s.

(** [State::present_directory]. *)
Definition present_directory (s : State) (id : Id) (d : path) : State :=
  match find_pane s id with
  | None => s
  | Some (_, _, p) =>
      if negb (path_eqb (pane_presented_directory p) d) then
        let ws := update_pane id (λ t, t) (set_p_current_directory (Some d)) (s_workspaces s) in
        let s := recalculate_names (set_s_workspaces ws s) in
        set_s_revision (u64_wrapping_add (s_revision s) 1) s
      else s
  end.

(** [State::present_repository_directory]. *)
Definition present_repository_directory (s : State) (id : Id) (d : path) : State :=
  match find_pane s id with
  | None => s
  | Some (_, _, p) =>
      if negb (path_eqb (pane_repository_directory p) d) then
        let ws := update_pane id (λ t, t) (set_p_repository_directory (Some d))
                    (s_workspaces s) in
        let s := set_s_workspaces ws s in
        set_s_revision (u64_wrapping_add (s_revision s) 1) s
      else s
  end.

(** [State::add_worktree_tab]. *)
Definition add_worktree_tab (s : State) (ds : Draws) (owner : option Id) (workspace : Id)
    (root worktree start : path) : State * Draws * result Id Refusal :=
  if (MAX_TABS <=? tab_count s) || (MAX_PANES <=? pane_count s)
  then (s, ds, Err Refusal_Capacity)
  else if negb (vany (has_id_w workspace) (s_workspaces s)) then (s, ds, Err Refusal_Missing)
  else match random ds with
       | (None, ds) => (s, ds, Err Refusal_Failed)
       | (Some id, ds) =>
           match random ds with
           | (None, ds) => (s, ds, Err Refusal_Failed)
           | (Some pane, ds) =>
               let tab := {| t_worktree_membership := Opened; t_worktree := Some worktree;
                             t_worktree_repository := Some root; t_id := id;
                             t_root_pane := pane;
                             t_panes := [new_pane pane None Side_Right start owner] |} in
               let ws := vupdate (has_id_w workspace)
                           (λ w, set_w_tabs (w_tabs w ++ [tab]) w) (s_workspaces s) in
               let s := set_s_workspaces ws s in
               (set_s_revision (u64_saturating_add (s_revision s) 1) s, ds, Ok id)
           end
       end.

(** ** Edits

    A branch of [State::edit] either names the target that the common tail
    accepts, or returns early. *)
Inductive Flow :=
  | Target (id : Id)
  | Return (r : result Outcome Refusal).

Definition Edited : Type := State * Draws * Flow.

(** [Mutation::EndAllSessions]. *)
Definition edit_end_all_sessions (s : State) (ds : Draws) (confirmation : CloseInventory)
    : Edited :=
  match i_close (s_inventory s) with
  | None => (s, ds, Return (Ok StaleConfirmation))
  | Some live =>
      if bool_decide (ci_boot live ≠ ci_boot confirmation)
         || bool_decide (ci_sessions live ≠ ci_sessions confirmation)
      then (s, ds, Return (Ok StaleConfirmation))
      else (set_s_session_ends (Some confirmation) s, ds, Target (ci_boot confirmation))
  end.

(** Whether a reviewed list of control grants is exactly this device's current one. *)
Definition own_controls_current (s : State) (device : Id) (confirmation : CloseConfirmation)
    (reviewed : list ConfirmedControl) : bool :=
  let current := ci_controls <$> i_close (s_inventory s) in
  negb
    (negb (length reviewed =? length (cf_panes confirmation))
     || vany (λ pane,
          negb (length (vfilter (λ control,
                  bool_decide (cc_pane control = cp_id pane)
                  && bool_decide (cc_session control = cp_session pane)
                  && bool_decide (cc_owner control = device)
                  && match current with
                     | Some l => bool_decide (control ∈ l)
                     | None => false
                     end) reviewed) =? 1)) (cf_panes confirmation)).

Definition close_target_id (target : CloseTarget) : Id :=
  match target with
  | Close_Pane _ _ pane => pane
  | Close_Tab _ tab => tab
  | Close_KillWorkspace workspace | Close_Worktree workspace _ => workspace
  end.

Definition is_worktree_target (target : CloseTarget) : bool :=
  match target with Close_Worktree _ _ => true | _ => false end.

(** [Mutation::Close]. *)
Definition edit_close (s : State) (ds : Draws) (device : Id) (target : CloseTarget)
    (confirmation : CloseConfirmation) : Edited :=
  match close_panes (s_inventory s) target with
  | None => (s, ds, Return (Ok Missing))
  | Some ids =>
      if match close_confirmation (s_inventory s) target with
         | None => true
         | Some current => negb (same_targets current confirmation)
         end
      then (s, ds, Return (Ok StaleConfirmation))
      else if match cf_own_controls confirmation with
              | None => false
              | Some reviewed => negb (own_controls_current s device confirmation reviewed)
              end
      then (s, ds, Return (Ok StaleConfirmation))
      else if is_worktree_target target && cf_removes_workspace confirmation
      then (s, ds, Return (Ok Invalid))
      else (foldl remove_pane s ids, ds, Target (close_target_id target))
  end.

(** [Mutation::CreateWorkspace]. *)
Definition edit_create_workspace (s : State) (ds : Draws) (device : Id) (directory : path)
    (validate_pin : path → bool) (name : ustring) (pin : option path) (control : CreateControl)
    : Edited :=
  let owner := creator control device (s_inventory s) in
  if (negb (is_empty (trim name)) && negb (valid_name name))
     || match pin with Some p => negb (validate_pin p) | None => false end
  then (s, ds, Return (Ok Invalid))
  else if (MAX_WORKSPACES <=? length (s_workspaces s)) || (MAX_PANES <=? pane_count s)
          || (MAX_TABS <=? tab_count s)
  then (s, ds, Return (Ok Limit))
  else match random ds with
       | (None, ds) => (s, ds, Return (Err Refusal_Failed))
       | (Some id, ds) =>
       match random ds with
       | (None, ds) => (s, ds, Return (Err Refusal_Failed))
       | (Some tab, ds) =>
       match random ds with
       | (None, ds) => (s, ds, Return (Err Refusal_Failed))
       | (Some pane, ds) =>
           let naming := {| n_workspace := id;
                            n_custom := if negb (is_empty (trim name)) then Some (trim name)
                                        else None;
                            n_automatic_base := [] |} in
           let start := match pin with Some p => p | None => directory end in
           let w := {| w_id := id; w_name := trim name; w_name_version := 0%N;
                       w_pin_version := 0%N; w_pinned_directory := pin; w_root_tab := tab;
                       w_tabs := [{| t_worktree_membership := Following; t_worktree := None;
                                     t_worktree_repository := None; t_id := tab;
                                     t_root_pane := pane;
                                     t_panes := [new_pane pane None Side_Right start owner]
                                  |}] |} in
           let s := set_s_names (s_names s ++ [naming]) s in
           (set_s_workspaces (s_workspaces s ++ [w]) s, ds, Target id)
       end end end.

(** The directory a new Pane of a Workspace starts in, beside [source]. *)
Definition inherited_start (w : Workspace) (source : Pane) : path :=
  match w_pinned_directory w with
  | Some d => d
  | None => match p_confirmed_directory source with
            | Some d => d
            | None => p_starting_directory source
            end
  end.

(** [Mutation::CreateTab]. *)
Definition edit_create_tab (s : State) (ds : Draws) (device : Id) (validate_pin : path → bool)
    (workspace : Id) (source : option Id) (control : CreateControl) : Edited :=
  if (MAX_TABS <=? tab_count s) || (MAX_PANES <=? pane_count s)
  then (s, ds, Return (Ok Limit))
  else
    let owner := creator control device (s_inventory s) in
    match vfind (has_id_w workspace) (s_workspaces s) with
    | None => (s, ds, Return (Ok Missing))
    | Some w =>
        match match source with
              | Some id => vfind (has_id_p id) (workspace_panes w)
              | None => root_pane_of w
              end with
        | None => (s, ds, Return (Ok Missing))
        | Some source =>
            let start := inherited_start w source in
            if negb (validate_pin start) then (s, ds, Return (Ok Invalid))
            else match random ds with
                 | (None, ds) => (s, ds, Return (Err Refusal_Failed))
                 | (Some id, ds) =>
                 match random ds with
                 | (None, ds) => (s, ds, Return (Err Refusal_Failed))
                 | (Some pane, ds) =>
                     let tab := {| t_worktree_membership := Following; t_worktree := None;
                                   t_worktree_repository := None; t_id := id;
                                   t_root_pane := pane;
                                   t_panes := [new_pane pane None Side_Right start owner] |} in
                     (set_s_workspaces (vupdate (has_id_w workspace)
                        (λ w, set_w_tabs (w_tabs w ++ [tab]) w) (s_workspaces s)) s,
                      ds, Target id)
                 end end
        end
    end.

(** [Mutation::SplitPane]. *)
Definition edit_split_pane (s : State) (ds : Draws) (device : Id) (directory : path)
    (validate_pin : path → bool) (workspace tab source : Id) (axis : Axis)
    (control : CreateControl) : Edited :=
  if MAX_PANES <=? pane_count s then (s, ds, Return (Ok Limit))
  else
    let owner := creator control device (s_inventory s) in
    match vfind (has_id_w workspace) (s_workspaces s) with
    | None => (s, ds, Return (Ok Missing))
    | Some w =>
    match vfind (has_id_t tab) (w_tabs w) with
    | None => (s, ds, Return (Ok Missing))
    | Some t =>
    match vfind (has_id_p source) (t_panes t) with
    | None => (s, ds, Return (Ok Missing))
    | Some p =>
        let start := match t_worktree t with
                     | Some _ => directory
                     | None => inherited_start w p
                     end in
        if negb (validate_pin start) then (s, ds, Return (Ok Invalid))
        else match random ds with
             | (None, ds) => (s, ds, Return (Err Refusal_Failed))
             | (Some id, ds) =>
                 let new := new_pane id (Some source) (side_of_axis axis) start owner in
                 (set_s_workspaces (vupdate (has_id_w workspace)
                    (λ w, set_w_tabs (vupdate (has_id_t tab)
                       (λ t, set_t_panes (t_panes t ++ [new]) t) (w_tabs w)) w)
                    (s_workspaces s)) s, ds, Target id)
             end
    end end end.

(** Writes a Workspace method's result back through the [&mut Workspace]. *)
Definition write_workspace (id : Id) (w : Workspace) (s : State) : State :=
  set_s_workspaces (vupdate (has_id_w id) (λ _, w) (s_workspaces s)) s.

(** [Mutation::MovePane]. *)
Definition edit_move_pane (s : State) (ds : Draws) (workspace tab pane : Id)
    (dest : PaneDestination) : Edited :=
  if bool_decide (dest = NewTab) && (MAX_TABS <=? tab_count s)
  then (s, ds, Return (Ok Limit))
  else match vfind (has_id_w workspace) (s_workspaces s) with
       | None => (s, ds, Return (Ok Missing))
       | Some w =>
           match dest with
           | NewTab =>
               match random ds with
               | (None, ds) => (s, ds, Return (Err Refusal_Failed))
               | (Some id, ds) =>
                   match move_pane_to_new_tab w tab pane id with
                   | (w', Ok _) => (write_workspace workspace w' s, ds, Target id)
                   | (w', Err refusal) =>
                       (write_workspace workspace w' s, ds, Return (Ok refusal))
                   end
               end
           | Beside into beside side =>
               match move_pane_beside w tab pane into beside side with
               | (w', Ok _) => (write_workspace workspace w' s, ds, Target pane)
               | (w', Err refusal) => (write_workspace workspace w' s, ds, Return (Ok refusal))
               end
           end
       end.

(** [Mutation::MergeTab]. *)
Definition edit_merge_tab (s : State) (ds : Draws) (workspace tab into beside : Id) (side : Side)
    : Edited :=
  match vfind (has_id_w workspace) (s_workspaces s) with
  | None => (s, ds, Return (Ok Missing))
  | Some w =>
      match merge_tab w tab into beside side with
      | (w', Ok _) => (write_workspace workspace w' s, ds, Target into)
      | (w', Err refusal) => (write_workspace workspace w' s, ds, Return (Ok refusal))
      end
  end.

(** [Mutation::RenameWorkspace]. *)
Definition edit_rename_workspace (s : State) (ds : Draws) (workspace : Id) (version : N)
    (name : ustring) : Edited :=
  if negb (valid_name name) then (s, ds, Return (Ok Invalid))
  else match vfind (has_id_w workspace) (s_workspaces s) with
       | None => (s, ds, Return (Ok Missing))
       | Some w =>
           if bool_decide (version ≠ w_name_version w) then (s, ds, Return (Ok Conflict))
           else match vfind (names_entry workspace) (s_names s) with
                | None => (s, ds, Return (Err Refusal_Failed))
                | Some _ =>
                    let s := set_s_names (vupdate (names_entry workspace)
                               (set_n_custom (Some (trim name))) (s_names s)) s in
                    (set_s_workspaces (vupdate (has_id_w workspace)
                       (λ w, set_w_name (w_name w) (u64_wrapping_add (w_name_version w) 1) w)
                       (s_workspaces s)) s, ds, Target workspace)
                end
       end.

(** [Mutation::PinWorkspace]. *)
Definition edit_pin_workspace (s : State) (ds : Draws) (validate_pin : path → bool)
    (workspace : Id) (version : N) (directory : option path) : Edited :=
  match vfind (has_id_w workspace) (s_workspaces s) with
  | None => (s, ds, Return (Ok Missing))
  | Some w =>
      if bool_decide (version ≠ w_pin_version w) then (s, ds, Return (Ok Conflict))
      else if match directory with Some p => negb (validate_pin p) | None => false end
      then (s, ds, Return (Ok Invalid))
      else (set_s_workspaces (vupdate (has_id_w workspace)
              (λ w, set_w_pin directory (u64_wrapping_add (w_pin_version w) 1) w)
              (s_workspaces s)) s, ds, Target workspace)
  end.

(** The [match mutation] of [State::edit]. *)
Definition edit_branch (s : State) (ds : Draws) (device : Id) (m : Mutation) (directory : path)
    (validate_pin : path → bool) : Edited :=
  match m with
  | EndAllSessions confirmation => edit_end_all_sessions s ds confirmation
  | MutWorktree _ => (s, ds, Return (Ok Pending))
  | Close target confirmation => edit_close s ds device target confirmation
  | CreateWorkspace name pin control =>
      edit_create_workspace s ds device directory validate_pin name pin control
  | CreateTab workspace source control =>
      edit_create_tab s ds device validate_pin workspace source control
  | SplitPane workspace tab source axis control =>
      edit_split_pane s ds device directory validate_pin workspace tab source axis control
  | MovePane workspace tab pane dest => edit_move_pane s ds workspace tab pane dest
  | MergeTab workspace tab into beside side => edit_merge_tab s ds workspace tab into beside side
  | RenameWorkspace workspace version name => edit_rename_workspace s ds workspace version name
  | PinWorkspace workspace version directory =>
      edit_pin_workspace s ds validate_pin workspace version directory
  end.

(** [self.home_directory.get_or_insert_with(..)]. *)
Definition ensure_home (directory : path) (s : State) : State :=
  match s_home_directory s with
  | Some _ => s
  | None => set_s_home_directory (Some directory) s
  end.

(** The common tail of [State::edit]: names, then the revision. *)
Definition accept_edit (s : State) (target : Id) : State * result Outcome Refusal :=
  let s := recalculate_names s in
  match u64_checked_add (s_revision s) 1 with
  | None => (s, Err Refusal_Capacity)
  | Some r => (set_s_revision r s, Ok (Accepted target))
  end.

(** [State::edit]. *)
Definition edit (s : State) (ds : Draws) (device : Id) (m : Mutation) (directory : path)
    (validate_pin : path → bool) : State * Draws * result Outcome Refusal :=
  match edit_branch (ensure_home directory s) ds device m directory validate_pin with
  | (s, ds, Return r) => (s, ds, r)
  | (s, ds, Target target) => let '(s, r) := accept_edit s target in (s, ds, r)
  end.

(** ** Applying an operation *)

(** Whether [sequence] is one [device] may submit now. *)
Definition expected_sequence (s : State) (device : Id) (sequence : N) : bool :=
  if vany (is_device device) (s_devices s)
  then bool_decide (sequence = next_sequence s device)
  else (1 <=? sequence)%N && (sequence <=? next_sequence s device)%N.

Definition outcome_count (ds : list DeviceOutcomes) : nat := vsum (λ d, length (d_pending d)) ds.

(** Makes room for a device without a record, replacing an idle one when full. *)
Definition replace_idle (s : State) : option State :=
  if MAX_DEVICES <=? length (s_devices s) then
    match vposition (λ d, is_empty (d_pending d)) (s_devices s) with
    | None => None
    | Some idle =>
        match s_devices s !! idle with
        | None => None (* an index found by [position] is in range *)
        | Some replaced =>
            Some (set_s_sequence_floor (N.max (s_sequence_floor s) (d_retired replaced))
                    (set_s_devices (vremove idle (s_devices s)) s))
        end
    end
  else Some s.

(** The device's record, moved to the end as the most recently editing one. *)
Definition admit_device (s : State) (device : Id) (sequence : N) : option State :=
  match vposition (is_device device) (s_devices s) with
  | Some index =>
      match s_devices s !! index with
      | None => None (* an index found by [position] is in range *)
      | Some record => Some (set_s_devices (vremove index (s_devices s) ++ [record]) s)
      end
  | None =>
      match replace_idle s with
      | None => None
      | Some s =>
          let record := {| d_device := device; d_retired := (sequence - 1)%N; d_pending := [] |} in
          Some (set_s_devices (s_devices s ++ [record]) s)
      end
  end.

(** Appends an outcome to the most recently editing device's record. *)
Definition record_outcome (o : RetainedOutcome) (ds : list DeviceOutcomes)
    : option (list DeviceOutcomes) :=
  match last ds with
  | None => None
  | Some d => Some (removelast ds ++ [set_d_record (d_retired d) (d_pending d ++ [o]) d])
  end.

(** [State::apply]. *)
Definition apply (s : State) (ds : Draws) (device : Id) (sequence : N) (m : Mutation)
    (directory : path) (validate_pin : path → bool) : State * Draws * result Outcome Refusal :=
  if negb (is_bounded m) then (s, ds, Err Refusal_Unsupported)
  else match outcome s device sequence with
  | Some old =>
      (s, ds, if mutation_eqb (ro_mutation old) m then Ok (ro_outcome old)
              else Err Refusal_Stale)
  | None =>
      if negb (expected_sequence s device sequence) || bool_decide (sequence = u64_max)
      then (s, ds, Err Refusal_Stale)
      else if MAX_OUTCOMES <=? outcome_count (s_devices s) then (s, ds, Err Refusal_Capacity)
      else match admit_device s device sequence with
      | None => (s, ds, Err Refusal_Capacity)
      | Some s =>
          match edit s ds device m directory validate_pin with
          | (s, ds, Err refusal) => (s, ds, Err refusal)
          | (s, ds, Ok o) =>
              let record := {| ro_sequence := sequence; ro_mutation := m; ro_outcome := o |} in
              match record_outcome record (s_devices s) with
              | None => (s, ds, Err Refusal_Failed)
              | Some devices => (set_s_devices devices s, ds, Ok o)
              end
          end
      end
  end.

(** [State::first]: the first Workspace a server prepares. *)
Definition first_state_of (directory : path) (workspace tab pane : Id) : State :=
  {| s_home_directory := Some directory;
     s_names := [{| n_workspace := workspace; n_custom := None;
                    n_automatic_base := lit "Default" |}];
     s_worktree_settings := default_worktree_settings;
     s_inventory :=
       {| i_repositories := None; i_revision := 0%N; i_close := None;
          i_workspaces :=
            [{| w_id := workspace; w_name := lit "Default"; w_name_version := 0%N;
                w_pin_version := 0%N; w_pinned_directory := None; w_root_tab := tab;
                w_tabs := [{| t_worktree_membership := Following; t_worktree := None;
                              t_worktree_repository := None; t_id := tab; t_root_pane := pane;
                              t_panes := [new_pane pane None Side_Right directory None] |}] |}] |};
     s_devices := []; s_sequence_floor := 0%N; s_creator_boot := None; s_session_ends := None |}.
