(* ===== verification/HierarchyValidate.v ===== *)
(** * The admission check of a retained hierarchy

    [State::validate] of [hierarchy.rs]: what an [organization.json] must
    satisfy to be written or read back, with [State::first], which ends in it. *)
From S2P Require Import Prelude.
From S2P Require Import Text.
From S2P Require Import Facts.
From S2P Require Import HierarchyTypes.
From S2P Require Import HierarchyWorkspace.
From S2P Require Import HierarchyState.

(** [BTreeSet::insert]: the grown set, or [None] when the identity is known. *)
Definition insert_new (id : Id) (ids : gset N) : option (gset N) :=
  if bool_decide (id ∈ ids) then None else Some ({[ id ]} ∪ ids).

Definition opt_path_invalid (p : option path) : bool :=
  match p with Some p => negb (valid_path p) | None => false end.

(** A name a retained record may carry. *)
Definition name_invalid (name : ustring) : bool :=
  is_empty (trim name) || (256 <? str_len name) || vany is_control name.

Definition session_ends_invalid (s : State) : bool :=
  match s_session_ends s with
  | None => false
  | Some ends =>
      bool_decide (Some (ci_boot ends) ≠ s_creator_boot s)
      || (MAX_PANES <? length (ci_sessions ends))
      || (MAX_PANES <? length (ci_controls ends))
      || negb (size (list_to_set (map cp_id (ci_sessions ends)) : gset N)
               =? length (ci_sessions ends))
      || vany (λ p, bool_decide (cp_id p = zero_id) || bool_decide (cp_session p = Some zero_id))
           (ci_sessions ends)
  end.

Definition bounds_invalid (s : State) : bool :=
  negb (length (s_names s) =? length (s_workspaces s))
  || vany (λ w, negb (length (vfilter (names_entry (w_id w)) (s_names s)) =? 1)) (s_workspaces s)
  || (negb (is_empty (s_workspaces s)) && bool_decide (s_home_directory s = None))
  || vany (λ n, negb (vany (has_id_w (n_workspace n)) (s_workspaces s))
                || match n_custom n with Some c => name_invalid c | None => false end) (s_names s)
  || opt_path_invalid (s_home_directory s)
  || (MAX_WORKSPACES <? length (s_workspaces s))
  || (MAX_TABS <? tab_count s)
  || (MAX_PANES <? pane_count s)
  || (MAX_DEVICES <? length (s_devices s))
  || bool_decide (s_sequence_floor s = u64_max)
  || (MAX_OUTCOMES <? outcome_count (s_devices s)).

(** The check of one Pane, given the identities seen and the Panes before it. *)
Definition check_pane (preceding : list Id) (p : Pane) (ids : gset N) : option (gset N) :=
  if bool_decide (p_id p = zero_id) then None
  else match insert_new (p_id p) ids with
  | None => None
  | Some ids =>
      if match p_source p with Some id => negb (bool_decide (id ∈ preceding)) | None => false end
         || (MAX_OBSERVER_NAMES <? length (ob_names (p_observers p)))
         || (is_empty (ob_names (p_observers p))
             && negb (bool_decide (ob_others (p_observers p) = 0%N)))
         || match p_presentation p with
            | Some snapshot => negb (is_ok (snapshot_validate snapshot))
            | None => false
            end
         || negb (valid_path (p_starting_directory p))
         || opt_path_invalid (p_confirmed_directory p)
      then None else Some ids
  end.

Fixpoint check_panes (preceding : list Id) (ps : list Pane) (ids : gset N) : option (gset N) :=
  match ps with
  | [] => Some ids
  | p :: ps =>
      match check_pane preceding p ids with
      | None => None
      | Some ids => check_panes (preceding ++ [p_id p]) ps ids
      end
  end.

Definition check_tab (t : Tab) (ids : gset N) : option (gset N) :=
  if bool_decide (t_id t = zero_id)
     || opt_path_invalid (t_worktree t)
     || opt_path_invalid (t_worktree_repository t)
     || (bool_decide (t_worktree_repository t ≠ None) && bool_decide (t_worktree t = None))
  then None
  else match insert_new (t_id t) ids with
  | None => None
  | Some ids =>
      if negb (vany (has_id_p (t_root_pane t)) (t_panes t)) then None
      else check_panes [] (t_panes t) ids
  end.

Fixpoint check_tabs (ts : list Tab) (ids : gset N) : option (gset N) :=
  match ts with
  | [] => Some ids
  | t :: ts => match check_tab t ids with None => None | Some ids => check_tabs ts ids end
  end.

Definition check_workspace (w : Workspace) (ids : gset N) : option (gset N) :=
  if bool_decide (w_id w = zero_id) then None
  else match insert_new (w_id w) ids with
  | None => None
  | Some ids =>
      if name_invalid (w_name w)
         || negb (vany (has_id_t (w_root_tab w)) (w_tabs w))
         || opt_path_invalid (w_pinned_directory w)
      then None
      else check_tabs (w_tabs w) ids
  end.

Fixpoint check_workspaces (ws : list Workspace) (ids : gset N) : option (gset N) :=
  match ws with
  | [] => Some ids
  | w :: ws => match check_workspace w ids with
               | None => None
               | Some ids => check_workspaces ws ids
               end
  end.

(** The enumerated loop over a device's outcomes, from [index]. *)
Fixpoint check_outcomes (retired : N) (index : N) (os : list RetainedOutcome) : bool :=
  match os with
  | [] => true
  | o :: os =>
      negb ((is_pending o && negb (is_worktree_mutation (ro_mutation o)))
            || negb (is_bounded (ro_mutation o))
            || match u64_checked_add retired (index + 1) with
               | None => true
               | Some expected => negb (bool_decide (ro_sequence o = expected))
               end
            || bool_decide (ro_sequence o = u64_max))
      && check_outcomes retired (index + 1) os
  end.

Fixpoint check_devices (ds : list DeviceOutcomes) (devices : gset N) : bool :=
  match ds with
  | [] => true
  | d :: ds =>
      match insert_new (d_device d) devices with
      | None => false
      | Some devices =>
          negb (bool_decide (d_retired d = u64_max))
          && check_outcomes (d_retired d) 0 (d_pending d)
          && check_devices ds devices
      end
  end.

(** [State::validate]. *)
Definition validate (s : State) : result unit CoreError :=
  if session_ends_invalid s then Err Error_UnsafeStorage
  else if bounds_invalid s then Err Error_UnsafeStorage
  else match check_workspaces (s_workspaces s) ∅ with
       | None => Err Error_UnsafeStorage
       | Some _ => if check_devices (s_devices s) ∅ then Ok tt else Err Error_UnsafeStorage
       end.

(** [State::first]. *)
Definition first_state (directory : path) (ds : Draws) : Draws * result State CoreError :=
  match random ds with
  | (None, ds) => (ds, Err Error_StorageUnavailable)
  | (Some workspace, ds) =>
  match random ds with
  | (None, ds) => (ds, Err Error_StorageUnavailable)
  | (Some tab, ds) =>
  match random ds with
  | (None, ds) => (ds, Err Error_StorageUnavailable)
  | (Some pane, ds) =>
      let s := first_state_of directory workspace tab pane in
      (ds, let? _ := validate s in Ok s)
  end end end.

Example first_state_example :
  is_ok (first_state (lit "/home/ada") [Some 1%N; Some 2%N; Some 3%N]).2 = true.
Proof. vm_compute. reflexivity. Qed.

Example first_edit_example :
  let s := first_state_of (lit "/home/ada") 1 2 3 in
  let '(s, _, r) := apply s [Some 4%N] 9 1 (SplitPane 1 2 3 Axis_Down Control_Creator)
                      (lit "/home/ada") (λ _, true) in
  r = Ok (Accepted 4%N) ∧ validate s = Ok tt.
Proof. vm_compute. done. Qed.
