(* ===== verification/Host.v ===== *)
(** * The organization a server hosts

    The part of [WorkspaceHost] ([src/runtime/core_host/workspaces.rs] and
    [workspaces/worktrees.rs]) that owns the shared hierarchy: the inventory
    with its live facts, the commit every change goes through, and the edits,
    acknowledgements, revocations, recoveries and worktree settlements that
    reach it. The runtime of Panes, the filesystem and the journal's writes are
    parameters. *)
From S2P Require Import Prelude.
From S2P Require Import Text.
From S2P Require Import Facts.
From S2P Require Import HierarchyTypes.
From S2P Require Import HierarchyWorkspace.
From S2P Require Import HierarchyState.
From S2P Require Import HierarchyValidate.

Definition is_Some_b {A} (o : option A) : bool := match o with Some _ => true | None => false end.

(** What [self.panes] holds for one Pane identity. *)
Inductive PaneRuntime :=
  | Running (device : option Id) (control_epoch : N) (session : Id)
  | Dormant (device : option Id) (control_epoch : N)
  | NotStarted.

(** The host's runtime facts: Panes, observers by session, and Client Names. *)
Record Runtime := {
  rt_boot : Id;
  rt_pane : Id → PaneRuntime;
  rt_observers : Id → option (list Id);
  rt_name : Id → ClientName;
  rt_repositories : RepositorySnapshot
}.

Definition runtime_session (r : PaneRuntime) : option Id :=
  match r with Running _ _ session => Some session | _ => None end.

(** The observers a Pane presents. *)
Definition present_observers (rt : Runtime) (id : Id) : PaneObservers :=
  match runtime_session (rt_pane rt id) with
  | None => no_observers
  | Some session =>
      match rt_observers rt session with
      | None => no_observers
      | Some clients =>
          let shown := map (rt_name rt) (take MAX_OBSERVER_NAMES clients) in
          let others := N.of_nat (length clients - length shown) in
          {| ob_names := shown; ob_others := if (others <=? u32_max)%N then others else u32_max |}
      end
  end.

(** The control grant a close confirmation quotes for one Pane. *)
Definition present_control (rt : Runtime) (p : Pane) : option ConfirmedControl :=
  let '(owner, epoch, session) :=
    match rt_pane rt (p_id p) with
    | Running device epoch session => (device, epoch, Some session)
    | Dormant device epoch => (device, epoch, None)
    | NotStarted => (p_creator p, 0%N, None)
    end in
  match owner with
  | None => None
  | Some owner => Some {| cc_pane := p_id p; cc_session := session; cc_owner := owner;
                          cc_epoch := epoch |}
  end.

(** [WorkspaceHost::inventory]. *)
Definition host_inventory (rt : Runtime) (s : State) : Inventory :=
  let ws := map_panes (λ p, set_p_observers (present_observers rt (p_id p)) p) (s_workspaces s) in
  {| i_repositories := Some (rt_repositories rt);
     i_revision := s_revision s;
     i_workspaces := ws;
     i_close := Some
       {| ci_boot := rt_boot rt;
          ci_sessions := map (λ p, {| cp_id := p_id p;
                                      cp_session := runtime_session (rt_pane rt (p_id p)) |})
                           (all_panes ws);
          ci_controls := omap (present_control rt) (all_panes ws) |} |}.

(** [WorkspaceHost::commit]: the state the host keeps; the journal is handed
    its envelope. *)
Definition commit (next : State) : State :=
  set_s_inventory (set_i_repositories None (set_i_close None (s_inventory next))) next.
Definition submitted (next : State) : State := envelope (commit next).

(** [Answer]: the settled answer to an edit, or the worktree write it waits for. *)
Inductive Answer :=
  | Answer_Outcome (outcome : RetainedOutcome)
  | Answer_Pending.

(** [WorkspaceHost::answer]. *)
Definition answer (o : RetainedOutcome) : Answer :=
  if bool_decide (ro_outcome o = Pending) then Answer_Pending else Answer_Outcome o.

(** The settings half of [Operation::SetLocation]. *)
Definition set_location (valid_template : ustring → result unit WorktreeError) (version : N)
    (template : ustring) (current : WorktreeSettings) : result WorktreeSettings WorktreeError :=
  if bool_decide (version ≠ st_version current) then Err Worktree_Changed
  else let? _ := valid_template template in
       match u64_checked_add (st_version current) 1 with
       | None => Err Worktree_Unavailable
       | Some v => Ok {| st_template := template; st_version := v |}
       end.

Definition set_s_worktree_settings (w : WorktreeSettings) (s : State) : State :=
  {| s_home_directory := s_home_directory s; s_names := s_names s; s_worktree_settings := w;
     s_inventory := s_inventory s; s_devices := s_devices s;
     s_sequence_floor := s_sequence_floor s; s_creator_boot := s_creator_boot s;
     s_session_ends := s_session_ends s |}.

(** [WorkspaceHost::begin_worktree] up to the start of its preflight worker. *)
Definition begin_worktree (valid_template : ustring → result unit WorktreeError) (s : State)
    (ds : Draws) (device : Id) (sequence : N) (operation : WorktreeOperation) (directory : path)
    : State * Draws * result Answer Refusal :=
  if negb (is_empty (pending_worktrees s)) then (s, ds, Ok Answer_Pending)
  else match apply s ds device sequence (MutWorktree operation) directory (λ _, false) with
  | (_, ds, Err refusal) => (s, ds, Err refusal)
  | (next, ds, Ok _) =>
      match operation with
      | Op_SetLocation version template =>
          let checked := set_location valid_template version template (s_worktree_settings next) in
          let next := match checked with
                      | Ok settings => set_s_worktree_settings settings next
                      | Err _ => next
                      end in
          match finish_worktree next device sequence
                  match checked with
                  | Ok _ => Accepted device
                  | Err error => WorktreeFailed error
                  end with
          | (_, Err refusal) => (s, ds, Err refusal)
          | (next, Ok _) =>
              let s := commit next in
              (s, ds, match outcome s device sequence with
                      | None => Err Refusal_Missing
                      | Some o => Ok (Answer_Outcome o)
                      end)
          end
      | _ => (commit next, ds, Ok Answer_Pending)
      end
  end.

(** [WorkspaceHost::mutate], after [finish_worktrees]. [start] is
    [worktrees::starting_directory] of a split in a worktree Tab; [validate] is
    the filesystem's directory check. *)
Definition mutate (rt : Runtime) (valid_template : ustring → result unit WorktreeError)
    (home : path) (start : Workspace → Id → path → result path Refusal) (validate : path → bool)
    (s : State) (ds : Draws) (device : Id) (sequence : N) (m : Mutation)
    : State * Draws * result Answer Refusal :=
  match outcome s device sequence with
  | Some old =>
      (s, ds, if mutation_eqb (ro_mutation old) m then Ok (answer old) else Err Refusal_Stale)
  | None =>
      match m with
      | MutWorktree operation => begin_worktree valid_template s ds device sequence operation home
      | _ =>
          if negb (is_empty (pending_worktrees s)) then (s, ds, Ok Answer_Pending)
          else
            let next := set_s_inventory (host_inventory rt s) s in
            let directory : result path Refusal :=
              match m with
              | SplitPane workspace tab source _ _ =>
                  match vfind (λ w, bool_decide (w_id w = workspace)) (s_workspaces next) with
                  | None => Ok home
                  | Some w =>
                      match vfind (λ t, bool_decide (t_id t = tab)) (w_tabs w) with
                      | None => Ok home
                      | Some t => match t_worktree t with
                                  | None => Ok home
                                  | Some root => start w source root
                                  end
                      end
                  end
              | _ => Ok home
              end in
            match apply next ds device sequence m
                    (match directory with Ok d => d | Err _ => home end)
                    (λ p, is_ok directory && validate p) with
            | (_, ds, Err refusal) => (s, ds, Err refusal)
            | (next, ds, Ok _) =>
                match outcome next device sequence with
                | None => (s, ds, Err Refusal_Failed)
                | Some o => (commit next, ds, Ok (Answer_Outcome o))
                end
            end
      end
  end.

(** [next.finish_worktree(..)?; self.commit_retained(next)?]. *)
Definition finish_and_commit (s next : State) (ds : Draws) (device : Id) (sequence : N) (o : Outcome)
    : State * Draws * result unit Refusal :=
  match finish_worktree next device sequence o with
  | (_, Err refusal) => (s, ds, Err refusal)
  | (next, Ok _) => (commit next, ds, Ok tt)
  end.

(** [WorkspaceHost::settle_worktree]. *)
Definition settle_worktree (rt : Runtime) (s : State) (ds : Draws) (device : Id) (sequence : N)
    (result : result (option path) WorktreeError) : State * Draws * Prelude.result unit Refusal :=
  match outcome s device sequence with
  | None => (s, ds, Err Refusal_Missing)
  | Some record =>
      let '(next, ds, o) :=
        match result with
        | Err error => (s, ds, WorktreeFailed error)
        | Ok p =>
            match ro_mutation record with
            | MutWorktree (Op_Create workspace root _ _ control) =>
                let owner := creator control device (host_inventory rt s) in
                match p with
                | None => (s, ds, WorktreeFailed Worktree_Interrupted)
                | Some p =>
                    match add_worktree_tab s ds owner workspace root p p with
                    | (next, ds, Ok target) => (next, ds, Accepted target)
                    | (next, ds, Err _) => (next, ds, WorktreeFailed Worktree_Interrupted)
                    end
                end
            | _ => (s, ds, Accepted device)
            end
        end in
      finish_and_commit s next ds device sequence o
  end.

(** The [Prepared::Open] half of [WorkspaceHost::start_prepared]. *)
Definition open_prepared (rt : Runtime) (start : Workspace → option Id → path → result path Refusal)
    (s : State) (ds : Draws) (device : Id) (sequence : N) (workspace : Id) (source : option Id)
    (root p : path) (control : CreateControl) : State * Draws * result unit Refusal :=
  let owner := creator control device (host_inventory rt s) in
  let '(next, ds, o) :=
    match vfind (has_id_w workspace) (s_workspaces s) with
    | None => (s, ds, WorktreeFailed Worktree_Unavailable)
    | Some w =>
        match start w source p with
        | Err _ => (s, ds, WorktreeFailed Worktree_Unavailable)
        | Ok d =>
            match add_worktree_tab s ds owner workspace root p d with
            | (next, ds, Ok target) => (next, ds, Accepted target)
            | (next, ds, Err _) => (next, ds, WorktreeFailed Worktree_Unavailable)
            end
        end
    end in
  finish_and_commit s next ds device sequence o.

(** [WorkspaceHost::retire_outcome]. *)
Definition retire_outcome (s : State) (device : Id) (sequence : N) : State * result unit Refusal :=
  match acknowledge s device sequence with
  | (_, Err refusal) => (s, Err refusal)
  | (next, Ok _) => (commit next, Ok tt)
  end.

(** The state half of [WorkspaceHost::forget]. *)
Definition host_forget (s : State) (device : Id) : State :=
  match forget s device with
  | (_, false) => s
  | (next, true) => commit next
  end.

(** The loop of [HostCommands::revoked] that clears a client's reservations. *)
Definition release_creator (client : Id) (s : State) : State :=
  set_s_workspaces
    (map_panes (λ p, if bool_decide (p_creator p = Some client) then set_p_creator None p else p)
       (s_workspaces s)) s.

(** [WorkspaceHost::restore_organization]. *)
Definition restore_organization (boot : Id) (record : option State) : State :=
  begin_boot boot (match record with Some s => s | None => empty_state end).

(** [WorkspaceHost::prepare_initial_organization], on recovered storage. *)
Definition prepare_initial_organization (boot : Id) (directory : path) (prepared : bool) (s : State)
    (ds : Draws) : State * Draws * result unit Refusal :=
  if prepared then (s, ds, Ok tt)
  else if is_empty (s_workspaces s) then
    match first_state directory ds with
    | (ds, Err _) => (s, ds, Err Refusal_Failed)
    | (ds, Ok next) =>
        (commit (begin_boot boot (set_s_worktree_settings (s_worktree_settings s) next)), ds, Ok tt)
    end
  else (commit s, ds, Ok tt).

(** ** Worktree membership ([src/runtime/core_host/repositories.rs]) *)

Definition is_bare (h : WorktreeHead) : bool := match h with Wt_Bare => true | _ => false end.

(** [current_worktree]: the worktree and main root of a directory's listing. *)
Definition current_worktree (snapshot : RepositorySnapshot) (directory : path)
    : option (path * path) :=
  match vfind (λ f, path_eqb (df_directory f) directory && negb (is_Some_b (df_failure f)))
          (rs_directories snapshot) with
  | None => None
  | Some facts =>
      match df_worktrees facts with
      | None => None
      | Some l =>
          match wi_current l with
          | None => None
          | Some i =>
              match wi_worktrees l !! i with
              | None => None
              | Some record =>
                  if negb (wr_missing record) && negb (is_bare (wr_head record))
                  then Some (wr_root record, wi_main_root l) else None
              end
          end
      end
  end.

(** [workspace_directory]. *)
Definition workspace_directory (w : Workspace) : option path :=
  match w_pinned_directory w with
  | Some d => Some d
  | None => pane_repository_directory <$> root_pane_of w
  end.

Definition set_t_worktree (m : WorktreeMembership) (worktree repository : option path) (t : Tab)
    : Tab :=
  {| t_worktree_membership := m; t_worktree := worktree; t_worktree_repository := repository;
     t_id := t_id t; t_root_pane := t_root_pane t; t_panes := t_panes t |}.

(** The listing a following Tab joins: its Root Pane's, or the Workspace's. *)
Definition tab_current (snapshot : RepositorySnapshot) (workspace_current : option (path * path))
    (t : Tab) : option (path * path) :=
  match match vfind (has_id_p (t_root_pane t)) (t_panes t) with
        | None => None
        | Some p => current_worktree snapshot (pane_repository_directory p)
        end with
  | Some c => Some c
  | None => if is_Some_b (t_worktree t) then None else workspace_current
  end.

(** The body of [reconcile_membership]'s inner loop, with whether it changed. *)
Definition reconcile_tab (snapshot : RepositorySnapshot) (root_tab : Id) (follows_root : bool)
    (workspace_current : option (path * path)) (t : Tab) : Tab * bool :=
  let follows := follows_root && bool_decide (t_id t = root_tab) in
  let root_pane := vfind (has_id_p (t_root_pane t)) (t_panes t) in
  if follows
     && match root_pane with
        | None => false
        | Some p => vany (λ f, path_eqb (df_directory f) (pane_repository_directory p)
                               && negb (is_Some_b (df_failure f))
                               && negb (is_Some_b (df_repository f))) (rs_directories snapshot)
        end
  then (set_t_worktree Following None None t,
        is_Some_b (t_worktree t) || is_Some_b (t_worktree_repository t)
        || negb (bool_decide (t_worktree_membership t = Following)))
  else if negb (bool_decide (t_worktree_membership t = Following))
          || (is_Some_b (t_worktree t) && negb follows)
  then match vfind_map (λ f,
               match df_worktrees f with
               | None => None
               | Some l => if is_Some_b (df_failure f) then None
                           else if vany (λ r, opt_path_eqb (Some (wr_root r)) (t_worktree t))
                                     (wi_worktrees l)
                           then Some (wi_main_root l) else None
               end) (rs_directories snapshot) with
       | Some main =>
           if negb (opt_path_eqb (t_worktree_repository t) (Some main))
           then (set_t_worktree (t_worktree_membership t) (t_worktree t) (Some main) t, true)
           else (t, false)
       | None => (t, false)
       end
  else
    match tab_current snapshot workspace_current t with
    | None => (t, false)
    | Some (root, main) =>
        let new_root := negb (opt_path_eqb (t_worktree t) (Some root)) in
        let new_main := negb (opt_path_eqb (t_worktree_repository t) (Some main)) in
        (set_t_worktree (t_worktree_membership t)
           (if new_root then Some root else t_worktree t)
           (if new_main then Some main else t_worktree_repository t) t,
         new_root || new_main)
    end.

Definition reconcile_workspace (snapshot : RepositorySnapshot) (w : Workspace) : Workspace * bool :=
  let current := match workspace_directory w with
                 | None => None
                 | Some d => current_worktree snapshot d
                 end in
  let tabs := map (reconcile_tab snapshot (w_root_tab w)
                     (negb (is_Some_b (w_pinned_directory w))) current) (w_tabs w) in
  (set_w_tabs (map fst tabs) w, vany snd tabs).

(** [reconcile_membership]. *)
Definition reconcile_membership (snapshot : RepositorySnapshot) (s : State) : State * bool :=
  let ws := map (reconcile_workspace snapshot) (s_workspaces s) in
  let changed := vany snd ws in
  let s := set_s_workspaces (map fst ws) s in
  (if changed then set_s_revision (u64_saturating_add (s_revision s) 1) s else s, changed).

(** ** Synchronization *)

(** What one Pane's runtime reports to [WorkspaceHost::synchronize]. *)
Record PaneReport := {
  rp_id : Id;
  rp_metadata : option (path * path);
  rp_identity : bool;
  rp_confirmed : option path
}.

(** The body of [synchronize]'s loop over the Panes' hosts. *)
Definition report_pane (next : State) (r : PaneReport) : State :=
  let next := match rp_metadata r with
              | Some (directory, repository) =>
                  present_repository_directory (present_directory next (rp_id r) directory)
                    (rp_id r) repository
              | None => next
              end in
  if rp_identity r then
    match rp_confirmed r with
    | Some p => confirm_directory next (rp_id r) p
    | None => next
    end
  else match find_pane next (rp_id r) with
       | Some _ => remove_pane next (rp_id r)
       | None => next
       end.

(** [WorkspaceHost::synchronize]: the reports, the worktree memberships, the
    commit, then the ephemeral presentation. The code commits only a state that
    differs; committing an equal one again would change nothing. *)
Definition synchronize (s : State) (reports : list PaneReport) (snapshot : RepositorySnapshot)
    (snapshots : list (Id * option Snapshot)) : State :=
  let next := commit (reconcile_membership snapshot (foldl report_pane s reports)).1 in
  foldl (λ s '(id, snapshot), present_presentation s id snapshot) next snapshots.
