(* ===== verification/DiskJournal.v ===== *)
(** * The server's disk journal and what it lets clients see

    [src/runtime/core_host/workspaces/journal.rs]: commits are ordered under the
    host's lock and written later by whichever thread calls [Journal::sync].
    [src/runtime/core_host/workspaces/publication.rs]: an inventory is staged
    with the revision it reflects and pushed once that revision is retained.

    Each definition is what one thread does while it holds the lock concerned.
    [Journal::sync] releases its lock while it waits, writes and reports, so it
    is split at those points: [sync_turn] up to the next wait, write or return,
    [wrote] after the write, [reported] after the report. The organization [A]
    and the inventory [I] are parameters. *)
From S2P Require Import Prelude.
From S2P Require Import Facts.

(** ** Revisions *)

Record Revision := { rv_epoch : N; rv_number : N }.
#[export] Instance Revision_eq_dec : EqDecision Revision.
Proof. solve_decision. Defined.

(** [Revision::covers]. *)
Definition covers (self other : Revision) : bool :=
  bool_decide (rv_epoch self = rv_epoch other) && (rv_number other <=? rv_number self)%N.

(** [Revision::lost_by]. *)
Definition lost_by (self written : Revision) : bool := (rv_epoch self <? rv_epoch written)%N.

Definition RECOVERIES : nat := 16.

(** ** [BTreeMap<u64, u64>], in key order *)

Fixpoint btree_insert (k v : N) (m : list (N * N)) : list (N * N) :=
  match m with
  | [] => [(k, v)]
  | (k', v') :: m' =>
      if (k <? k')%N then (k, v) :: m
      else if bool_decide (k = k') then (k, v) :: m'
      else (k', v') :: btree_insert k v m'
  end.
Definition btree_get (k : N) (m : list (N * N)) : option N :=
  snd <$> vfind (λ e, bool_decide (e.1 = k)) m.

(** [while ended.len() > RECOVERIES { ended.pop_first(); }]. *)
Definition forget_verdicts (m : list (N * N)) : list (N * N) := drop (length m - RECOVERIES) m.

(** ** Progress *)

Record Progress (A : Type) := {
  pg_epoch : N;
  pg_submitted : N;
  pg_pending : option (N * A);
  pg_writing : bool;
  pg_durable : N;
  pg_reporting : bool;
  pg_failed : bool;
  pg_ended : list (N * N)
}.
Arguments pg_epoch {A} _.
Arguments pg_submitted {A} _.
Arguments pg_pending {A} _.
Arguments pg_writing {A} _.
Arguments pg_durable {A} _.
Arguments pg_reporting {A} _.
Arguments pg_failed {A} _.
Arguments pg_ended {A} _.

(** [Progress::default]. *)
Definition progress_default {A} : Progress A :=
  {| pg_epoch := 0; pg_submitted := 0; pg_pending := None; pg_writing := false; pg_durable := 0;
     pg_reporting := false; pg_failed := false; pg_ended := [] |}.

(** The outcome of one pass through the loop of [Journal::sync]. *)
Inductive Turn (A : Type) :=
  | Turn_Return (r : result unit unit)
  | Turn_Wait
  | Turn_Write (revision : Revision) (envelope : A).
Arguments Turn_Return {A} r.
Arguments Turn_Wait {A}.
Arguments Turn_Write {A} revision envelope.

Section journal.
Context {A : Type}.
Implicit Types (p : Progress A) (revision : Revision).

(** [Journal::submit]. *)
Definition submit (envelope : A) p : Progress A * Revision :=
  let submitted := u64_wrapping_add (pg_submitted p) 1 in
  ({| pg_epoch := pg_epoch p; pg_submitted := submitted; pg_pending := Some (submitted, envelope);
      pg_writing := pg_writing p; pg_durable := pg_durable p; pg_reporting := pg_reporting p;
      pg_failed := pg_failed p; pg_ended := pg_ended p |},
   {| rv_epoch := pg_epoch p; rv_number := submitted |}).

(** [Journal::latest]. *)
Definition latest p : Revision := {| rv_epoch := pg_epoch p; rv_number := pg_submitted p |}.

(** [Journal::retained]. *)
Definition retained p revision : bool :=
  if bool_decide (rv_epoch revision ≠ pg_epoch p)
  then match btree_get (rv_epoch revision) (pg_ended p) with
       | Some durable => (rv_number revision <=? durable)%N
       | None => false
       end
  else (rv_number revision <=? pg_durable p)%N.

(** One pass through the loop of [Journal::sync]. [Err tt] is [Uncertain]. *)
Definition sync_turn p revision : Progress A * Turn A :=
  if bool_decide (rv_epoch revision ≠ pg_epoch p)
  then (p, Turn_Return
             match btree_get (rv_epoch revision) (pg_ended p) with
             | Some durable => if (rv_number revision <=? durable)%N then Ok tt else Err tt
             | None => Err tt
             end)
  else if (rv_number revision <=? pg_durable p)%N && negb (pg_reporting p)
  then (p, Turn_Return (Ok tt))
  else if pg_failed p then (p, Turn_Return (Err tt))
  else if pg_writing p || pg_reporting p then (p, Turn_Wait)
  else match pg_pending p with
  | None => (p, Turn_Return (Err tt))
  | Some (number, envelope) =>
      ({| pg_epoch := pg_epoch p; pg_submitted := pg_submitted p; pg_pending := None;
          pg_writing := true; pg_durable := pg_durable p; pg_reporting := pg_reporting p;
          pg_failed := pg_failed p; pg_ended := pg_ended p |},
       Turn_Write {| rv_epoch := pg_epoch p; rv_number := number |} envelope)
  end.

(** What the writer records once [store.write] returned. *)
Definition wrote (number : N) (result : result unit CoreError) p : Progress A :=
  let ok := is_ok result in
  {| pg_epoch := pg_epoch p; pg_submitted := pg_submitted p; pg_pending := pg_pending p;
     pg_writing := false; pg_durable := if ok then number else pg_durable p;
     pg_reporting := if ok then true else pg_reporting p;
     pg_failed := if ok then pg_failed p else true; pg_ended := pg_ended p |}.

(** What the writer records once [written] returned. *)
Definition reported p : Progress A :=
  {| pg_epoch := pg_epoch p; pg_submitted := pg_submitted p; pg_pending := pg_pending p;
     pg_writing := pg_writing p; pg_durable := pg_durable p; pg_reporting := false;
     pg_failed := pg_failed p; pg_ended := pg_ended p |}.

(** [Journal::settled] and [Journal::uncertain]. *)
Definition settled p : bool :=
  negb (pg_failed p) && negb (pg_writing p) && negb (pg_reporting p)
  && match pg_pending p with None => true | Some _ => false end.
Definition uncertain p : bool := pg_failed p.

(** [Journal::recover] after a successful read. *)
Definition recover p : Progress A :=
  {| pg_epoch := u64_wrapping_add (pg_epoch p) 1; pg_submitted := 0; pg_pending := None;
     pg_writing := pg_writing p; pg_durable := 0; pg_reporting := pg_reporting p;
     pg_failed := false;
     pg_ended := forget_verdicts (btree_insert (pg_epoch p) (pg_durable p) (pg_ended p)) |}.

End journal.

(** ** Publication *)

(** [InventoryRevision], as a connection receives it. *)
Record InventoryRevision (I : Type) := { ir_inventory : I; ir_next_sequence : N }.
Arguments ir_inventory {I} _.
Arguments ir_next_sequence {I} _.

Record Staged (I : Type) := {
  sg_revision : option Revision;
  sg_inventory : I;
  sg_sequences : gmap N N
}.
Arguments sg_revision {I} _.
Arguments sg_inventory {I} _.
Arguments sg_sequences {I} _.

(** A connection; its outbox is every inventory it was handed, oldest first. *)
Record Subscriber (I : Type) := {
  sb_device : Id;
  sb_outbox : list (InventoryRevision I);
  sb_sent : option N
}.
Arguments sb_device {I} _.
Arguments sb_outbox {I} _.
Arguments sb_sent {I} _.

Record Publication (I : Type) := {
  pb_subscribers : gmap N (Subscriber I);
  pb_staged : list (Staged I);
  pb_published : option I
}.
Arguments pb_subscribers {I} _.
Arguments pb_staged {I} _.
Arguments pb_published {I} _.

Definition publication_default {I} : Publication I :=
  {| pb_subscribers := ∅; pb_staged := []; pb_published := None |}.

Section publication.
Context {A I : Type} (inventory_eqb : I → I → bool).
Implicit Types (b : Publication I) (s : Staged I).

(** [Publication::subscribe] and [Publication::unsubscribe]. *)
Definition subscribe (device connection : Id) b : Publication I :=
  {| pb_subscribers := <[connection := {| sb_device := device; sb_outbox := []; sb_sent := None |}]>
                         (pb_subscribers b);
     pb_staged := pb_staged b; pb_published := pb_published b |}.
Definition unsubscribe (connection : Id) b : Publication I :=
  {| pb_subscribers := delete connection (pb_subscribers b); pb_staged := pb_staged b;
     pb_published := pb_published b |}.

(** [State::push] to one connection. *)
Definition push_one (changed : bool) s (subscriber : Subscriber I) : Subscriber I :=
  match sg_sequences s !! sb_device subscriber with
  | None => subscriber
  | Some next_sequence =>
      if changed || bool_decide (sb_sent subscriber ≠ Some next_sequence)
      then {| sb_device := sb_device subscriber;
              sb_outbox := sb_outbox subscriber
                ++ [{| ir_inventory := sg_inventory s; ir_next_sequence := next_sequence |}];
              sb_sent := Some next_sequence |}
      else subscriber
  end.

(** [State::push]. *)
Definition push s b : Publication I :=
  let changed := match pb_published b with
                 | Some published => negb (inventory_eqb published (sg_inventory s))
                 | None => true
                 end in
  {| pb_subscribers := push_one changed s <$> pb_subscribers b; pb_staged := pb_staged b;
     pb_published := Some (sg_inventory s) |}.

(** [Publication::stage]. *)
Definition stage s (journal : option (Progress A)) b : Publication I :=
  let is_retained := match sg_revision s, journal with
                     | Some revision, Some p => retained p revision
                     | _, _ => true
                     end in
  if is_retained
  then push s {| pb_subscribers := pb_subscribers b; pb_staged := []; pb_published := pb_published b |}
  else {| pb_subscribers := pb_subscribers b; pb_staged := pb_staged b ++ [s];
          pb_published := pb_published b |}.

(** The loop of [Publication::release]: the newest covered inventory and the
    inventories that stay staged. *)
Fixpoint release_staged (written : Revision) (newest : option (Staged I)) (staged : list (Staged I))
    : option (Staged I) * list (Staged I) :=
  match staged with
  | [] => (newest, [])
  | s :: rest =>
      match sg_revision s with
      | Some revision =>
          if covers written revision then release_staged written (Some s) rest
          else if lost_by revision written then release_staged written newest rest
          else (newest, staged)
      | None => (newest, staged)
      end
  end.

(** [Publication::release]. *)
Definition release (written : Revision) b : Publication I :=
  let '(newest, staged) := release_staged written None (pb_staged b) in
  let b := {| pb_subscribers := pb_subscribers b; pb_staged := staged;
              pb_published := pb_published b |} in
  match newest with
  | Some s => push s b
  | None => b
  end.

End publication.
