(* ===== verification/DurabilityProofs.v ===== *)
(** * Nothing is answered or shown that the server could lose

    The disk journal and the publication as one transition system: commits,
    threads inside [Journal::sync], writes that succeed or fail with either
    record on disk, reports, recoveries and restarts interleave freely. *)
From stdpp Require Import sorting.
From S2P Require Import Prelude.
From S2P Require Import Facts.
From S2P Require Import DiskJournal.

(** What the one thread that writes is doing between two locks. *)
Inductive Writer (A : Type) :=
  | Idle
  | Writing (revision : Revision) (envelope : A)
  | Releasing (revision : Revision)
  | Notifying.
Arguments Idle {A}.
Arguments Writing {A} revision envelope.
Arguments Releasing {A} revision.
Arguments Notifying {A}.

(** The server's journal, store and publication. [sy_log] (the envelope of every
    revision of this process), [sy_answered] and [sy_shown] (the envelopes whose
    revisions a caller was told are retained, and whose inventories a connection
    was handed) only record what happened. *)
Record System (A I : Type) := {
  sy_progress : Progress A;
  sy_writer : Writer A;
  sy_record : option A;
  sy_current : A;
  sy_publication : Publication I;
  sy_log : list (Revision * A);
  sy_answered : list A;
  sy_shown : list A
}.
Arguments Build_System {A I}.
Arguments sy_progress {A I} _.
Arguments sy_writer {A I} _.
Arguments sy_record {A I} _.
Arguments sy_current {A I} _.
Arguments sy_publication {A I} _.
Arguments sy_log {A I} _.
Arguments sy_answered {A I} _.
Arguments sy_shown {A I} _.

(** ** The map of ended epochs *)

Lemma elem_of_btree_insert k v m x : x ∈ btree_insert k v m → x = (k, v) ∨ x ∈ m.
Proof.
  induction m as [|[k' v'] m IH]; simpl; [rw list_elem_of_singleton; auto|].
  destruct (k <? k')%N; [rw elem_of_cons; tauto|].
  case_bool; rw !elem_of_cons; [tauto|]. intros [?|?]; [auto|]. destruct IH; auto.
Qed.

Lemma elem_of_forget_verdicts m x : x ∈ forget_verdicts m → x ∈ m.
Proof. intros H. rw -(take_drop (length m - RECOVERIES) m) elem_of_app. by right. Qed.

Lemma btree_get_elem k m v : btree_get k m = Some v → (k, v) ∈ m.
Proof.
  unfold btree_get. intros ([k' v'] & [Hk%bool_decide_eq_true Hin]%vfind_Some & ->)%fmap_Some.
  simpl in *. by subst.
Qed.

Section durability.
Context {A I : Type} (inventory_eqb : I → I → bool) (empty : A).
Context (extends : A → A → Prop) `{!PreOrder extends}.
Implicit Types (y : System A I) (r : Revision) (e : A).

(** The organization a read of the record yields. *)
Definition disk y : A := default empty (sy_record y).

Definition envelopes (log : list (Revision * A)) r : list A :=
  map snd (vfilter (λ x, bool_decide (x.1 = r)) log).

(** The revisions a publication step hands to connections. *)
Definition released r (b : Publication I) : list Revision :=
  match (release_staged r None (pb_staged b)).1 with
  | Some s => match sg_revision s with Some r' => [r'] | None => [] end
  | None => []
  end.

Inductive sys_step y : System A I → Prop :=
  | sys_commit next :
      extends (sy_current y) next → (pg_submitted (sy_progress y) < u64_max)%N →
      sys_step y (Build_System (submit next (sy_progress y)).1 (sy_writer y) (sy_record y) next
        (sy_publication y) (((submit next (sy_progress y)).2, next) :: sy_log y)
        (sy_answered y) (sy_shown y))
  | sys_stage inventory sequences :
      sys_step y (Build_System (sy_progress y) (sy_writer y) (sy_record y) (sy_current y)
        (stage inventory_eqb
           {| sg_revision := Some (latest (sy_progress y)); sg_inventory := inventory;
              sg_sequences := sequences |} (Some (sy_progress y)) (sy_publication y))
        (sy_log y) (sy_answered y)
        ((if retained (sy_progress y) (latest (sy_progress y))
          then envelopes (sy_log y) (latest (sy_progress y)) else []) ++ sy_shown y))
  | sys_subscribe device connection :
      sys_step y (Build_System (sy_progress y) (sy_writer y) (sy_record y) (sy_current y)
        (subscribe device connection (sy_publication y)) (sy_log y) (sy_answered y) (sy_shown y))
  | sys_unsubscribe connection :
      sys_step y (Build_System (sy_progress y) (sy_writer y) (sy_record y) (sy_current y)
        (unsubscribe connection (sy_publication y)) (sy_log y) (sy_answered y) (sy_shown y))
  | sys_turn r :
      sys_step y (Build_System (sync_turn (sy_progress y) r).1
        (match (sync_turn (sy_progress y) r).2 with
         | Turn_Write r e => Writing r e
         | _ => sy_writer y
         end) (sy_record y) (sy_current y) (sy_publication y) (sy_log y)
        ((match (sync_turn (sy_progress y) r).2 with
          | Turn_Return (Ok _) => envelopes (sy_log y) r
          | _ => []
          end) ++ sy_answered y) (sy_shown y))
  | sys_wrote r e :
      sy_writer y = Writing r e →
      sys_step y (Build_System (wrote (rv_number r) (Ok tt) (sy_progress y)) (Releasing r) (Some e)
        (sy_current y) (sy_publication y) (sy_log y) (sy_answered y) (sy_shown y))
  | sys_failed r e error replaced :
      sy_writer y = Writing r e →
      sys_step y (Build_System (wrote (rv_number r) (Err error) (sy_progress y)) Idle
        (if replaced : bool then Some e else sy_record y) (sy_current y) (sy_publication y)
        (sy_log y) (sy_answered y) (sy_shown y))
  | sys_release r :
      sy_writer y = Releasing r →
      sys_step y (Build_System (sy_progress y) Notifying (sy_record y) (sy_current y)
        (release inventory_eqb r (sy_publication y)) (sy_log y) (sy_answered y)
        (flat_map (envelopes (sy_log y)) (released r (sy_publication y)) ++ sy_shown y))
  | sys_reported :
      sy_writer y = Notifying →
      sys_step y (Build_System (reported (sy_progress y)) Idle (sy_record y) (sy_current y)
        (sy_publication y) (sy_log y) (sy_answered y) (sy_shown y))
  | sys_recover next :
      uncertain (sy_progress y) = true → (pg_epoch (sy_progress y) < u64_max)%N →
      extends (disk y) next →
      sys_step y (Build_System (recover (sy_progress y)) (sy_writer y) (sy_record y) next
        (sy_publication y)
        ((latest (recover (sy_progress y)), disk y) :: sy_log y)
        (sy_answered y) (sy_shown y))
  | sys_restart record next :
      (record = sy_record y ∨ ∃ r e, sy_writer y = Writing r e ∧ record = Some e) →
      extends (default empty record) next →
      sys_step y (Build_System progress_default Idle record next publication_default
        [(latest (A := A) progress_default, default empty record)] (sy_answered y) (sy_shown y)).

(** The first start of a server: no record, nothing submitted. *)
Definition sys_start : System A I :=
  Build_System progress_default Idle None empty publication_default
    [(latest (A := A) progress_default, empty)] [] [].

(** ** The invariant *)

(** How the flags of [Progress] follow the writer. *)
Definition flags_ok y : Prop :=
  let p := sy_progress y in
  match sy_writer y with
  | Idle => pg_writing p = false ∧ pg_reporting p = false
  | Writing r e => pg_writing p = true ∧ pg_reporting p = false ∧ pg_failed p = false ∧
      rv_epoch r = pg_epoch p ∧ (pg_durable p < rv_number r)%N ∧ (r, e) ∈ sy_log y ∧
      match pg_pending p with
      | None => rv_number r = pg_submitted p
      | Some _ => (rv_number r < pg_submitted p)%N
      end
  | Releasing r => pg_writing p = false ∧ pg_reporting p = true ∧ pg_failed p = false ∧
      rv_epoch r = pg_epoch p ∧ rv_number r = pg_durable p
  | Notifying => pg_writing p = false ∧ pg_reporting p = true ∧ pg_failed p = false
  end.

Record Durable y : Prop := {
  du_flags : flags_ok y;
  du_durable : (pg_durable (sy_progress y) ≤ pg_submitted (sy_progress y) ≤ u64_max)%N;
  du_epochs : ∀ r e, (r, e) ∈ sy_log y → (rv_epoch r ≤ pg_epoch (sy_progress y))%N;
  du_numbers : ∀ r e, (r, e) ∈ sy_log y → rv_epoch r = pg_epoch (sy_progress y) →
    (rv_number r ≤ pg_submitted (sy_progress y))%N ∧ extends e (sy_current y);
  du_chain : ∀ r1 e1 r2 e2, (r1, e1) ∈ sy_log y → (r2, e2) ∈ sy_log y →
    rv_epoch r1 = pg_epoch (sy_progress y) → rv_epoch r2 = pg_epoch (sy_progress y) →
    (rv_number r1 ≤ rv_number r2)%N → extends e1 e2;
  du_pending : ∀ n e, pg_pending (sy_progress y) = Some (n, e) →
    n = pg_submitted (sy_progress y) ∧ (pg_durable (sy_progress y) < n)%N ∧
    (latest (sy_progress y), e) ∈ sy_log y;
  du_idle : pg_writing (sy_progress y) = false → pg_failed (sy_progress y) = false →
    pg_pending (sy_progress y) = None → pg_durable (sy_progress y) = pg_submitted (sy_progress y);
  du_ended : ∀ k d, (k, d) ∈ pg_ended (sy_progress y) → (k < pg_epoch (sy_progress y))%N ∧
    ∀ r e, (r, e) ∈ sy_log y → rv_epoch r = k → (rv_number r ≤ d)%N → extends e (disk y);
  du_retained : ∀ r e, (r, e) ∈ sy_log y → rv_epoch r = pg_epoch (sy_progress y) →
    (rv_number r ≤ pg_durable (sy_progress y))%N → extends e (disk y);
  du_ahead : pg_failed (sy_progress y) = false → extends (disk y) (sy_current y) ∧
    ∀ r e, (r, e) ∈ sy_log y → rv_epoch r = pg_epoch (sy_progress y) →
      (pg_durable (sy_progress y) < rv_number r)%N → extends (disk y) e;
  du_answered : ∀ e, e ∈ sy_answered y → extends e (disk y);
  du_shown : ∀ e, e ∈ sy_shown y → extends e (disk y)
}.

Lemma elem_of_envelopes log r e : e ∈ envelopes log r ↔ (r, e) ∈ log.
Proof.
  unfold envelopes. rw elem_of_map. setoid_rewrite elem_of_vfilter.
  setoid_rewrite bool_decide_eq_true. split.
  - intros ([r' e'] & -> & Heq & H). simpl in *. by subst.
  - intros H. by exists (r, e).
Qed.

(** A revision reported as retained is carried by the record. *)
Lemma Durable_retained y r e :
  Durable y → retained (sy_progress y) r = true → (r, e) ∈ sy_log y → extends e (disk y).
Proof.
  intros HD Hr Hin. unfold retained in Hr.
  destruct (bool_decide_reflect (rv_epoch r ≠ pg_epoch (sy_progress y))) as [_|Heq%dec_stable].
  - destruct (btree_get _ _) as [d|] eqn:Eg; [|done]. apply btree_get_elem in Eg.
    destruct (du_ended _ HD _ _ Eg) as [_ H]. apply N.leb_le in Hr. by eapply H.
  - apply N.leb_le in Hr. by eapply du_retained.
Qed.

Lemma sync_turn_answers (p : Progress A) r :
  (sync_turn p r).2 = Turn_Return (Ok tt) → retained p r = true.
Proof.
  unfold sync_turn, retained. case_bool; simpl.
  - destruct (btree_get _ _) as [d|]; [|done]. by destruct (_ <=? _)%N.
  - destruct (_ <=? _)%N; [done|]. simpl. destruct (pg_failed p); [done|].
    destruct (_ || _); [done|]. destruct (pg_pending p) as [[]|]; done.
Qed.

(** A pass through [sync] either leaves the progress alone or takes the newest
    pending envelope to write it. *)
Lemma sync_turn_cases (p : Progress A) r :
  ((sync_turn p r).1 = p ∧ ∀ r' e, (sync_turn p r).2 ≠ Turn_Write r' e) ∨
  (∃ n e, pg_pending p = Some (n, e) ∧ pg_failed p = false ∧ pg_writing p = false ∧
     pg_reporting p = false ∧
     (sync_turn p r).2 = Turn_Write {| rv_epoch := pg_epoch p; rv_number := n |} e ∧
     (sync_turn p r).1 =
       {| pg_epoch := pg_epoch p; pg_submitted := pg_submitted p; pg_pending := None;
          pg_writing := true; pg_durable := pg_durable p; pg_reporting := false;
          pg_failed := false; pg_ended := pg_ended p |}).
Proof.
  unfold sync_turn.
  destruct (bool_decide_reflect (rv_epoch r ≠ pg_epoch p)) as [Hne|Heq]; [left; by split|].
  destruct (_ && _); [left; by split|]. destruct (pg_failed p) eqn:Ef; [left; by split|].
  destruct (pg_writing p) eqn:Ew, (pg_reporting p) eqn:Er; simpl; try (left; by split).
  destruct (pg_pending p) as [[n e]|] eqn:Ep; [|left; by split]. right. by exists n, e.
Qed.

(** ** Preservation *)

Lemma submit_small (p : Progress A) next :
  (pg_submitted p < u64_max)%N →
  submit next p =
  ({| pg_epoch := pg_epoch p; pg_submitted := pg_submitted p + 1;
      pg_pending := Some ((pg_submitted p + 1)%N, next); pg_writing := pg_writing p;
      pg_durable := pg_durable p; pg_reporting := pg_reporting p; pg_failed := pg_failed p;
      pg_ended := pg_ended p |},
   {| rv_epoch := pg_epoch p; rv_number := pg_submitted p + 1 |}).
Proof.
  intros H. unfold submit, u64_wrapping_add. rw N.mod_small //. unfold u64_modulus, u64_max in *. lia.
Qed.

Lemma Durable_commit y next :
  Durable y → extends (sy_current y) next → (pg_submitted (sy_progress y) < u64_max)%N →
  Durable (Build_System (submit next (sy_progress y)).1 (sy_writer y) (sy_record y) next
    (sy_publication y) (((submit next (sy_progress y)).2, next) :: sy_log y)
    (sy_answered y) (sy_shown y)).
Proof.
  intros [D1 D2 D3 D4 D5 D6 D7 D8 D9 D10 D11 D12] He Hs. rw (submit_small _ next Hs).
  split; unfold disk in *; simpl in *; try done.
  - unfold flags_ok in *. simpl. destruct (sy_writer y); try done.
    destruct D1 as (? & ? & ? & ? & ? & ? & ?). repeat split; try done; [by right|].
    destruct (D4 revision envelope) as [? _]; [done|done|lia].
  - lia.
  - intros r e [[= -> ->]|Hin]%elem_of_cons; simpl; [lia|by eapply D3].
  - intros r e [[= -> ->]|Hin]%elem_of_cons Hr; simpl; [split; [lia|done]|].
    destruct (D4 r e Hin Hr). split; [lia|by etrans].
  - intros r1 e1 r2 e2 [[= -> ->]|H1]%elem_of_cons [[= -> ->]|H2]%elem_of_cons Hr1 Hr2 Hn;
      simpl in *; [done| |etrans; [by eapply D4|done]|by eapply D5].
    destruct (D4 r2 e2 H2 Hr2). lia.
  - intros n e [= <- <-]. split; [done|]. split; [lia|by left].
  - intros k d Hk. destruct (D8 k d Hk) as [Hlt Hall]. split; [done|].
    intros r e [[= -> ->]|Hin]%elem_of_cons Hr Hn; simpl in *; [lia|by eapply Hall].
  - intros r e [[= -> ->]|Hin]%elem_of_cons Hr Hn; simpl in *; [lia|by eapply D9].
  - intros Hf. destruct (D10 Hf) as [Hc Ha]. split; [by etrans|].
    intros r e [[= -> ->]|Hin]%elem_of_cons Hr Hn; [by etrans|by eapply Ha].
Qed.

Lemma Durable_turn y r :
  Durable y →
  Durable (Build_System (sync_turn (sy_progress y) r).1
    (match (sync_turn (sy_progress y) r).2 with
     | Turn_Write r e => Writing r e
     | _ => sy_writer y
     end) (sy_record y) (sy_current y) (sy_publication y) (sy_log y)
    ((match (sync_turn (sy_progress y) r).2 with
      | Turn_Return (Ok _) => envelopes (sy_log y) r
      | _ => []
      end) ++ sy_answered y) (sy_shown y)).
Proof.
  intros HD. pose proof HD as [D1 D2 D3 D4 D5 D6 D7 D8 D9 D10 D11 D12].
  assert (∀ e, e ∈ (match (sync_turn (sy_progress y) r).2 with
      | Turn_Return (Ok _) => envelopes (sy_log y) r
      | _ => []
      end) ++ sy_answered y → extends e (disk y)) as Hans.
  { intros e [Hin|Hin]%elem_of_app; [|auto].
    destruct (sync_turn _ r).2 as [[[]|]| |] eqn:Et; try by apply elem_of_nil in Hin.
    apply elem_of_envelopes in Hin. eapply Durable_retained; eauto using sync_turn_answers. }
  destruct (sync_turn_cases (sy_progress y) r) as [[-> Ht]|(n & e & Hp & Hf & Hw & Hr & Ht & ->)].
  - assert (match (sync_turn (sy_progress y) r).2 with
            | Turn_Write r e => Writing r e
            | _ => sy_writer y
            end = sy_writer y) as ->.
    { destruct (sync_turn _ r).2; try done. by destruct (Ht revision envelope). }
    by split.
  - rw Ht in Hans |- *. destruct (D6 n e Hp) as (-> & Hlt & Hin).
    split; unfold disk in *; simpl in *; try done.
    intros _. by apply D10.
Qed.

Lemma Durable_wrote y r e :
  Durable y → sy_writer y = Writing r e →
  Durable (Build_System (wrote (rv_number r) (Ok tt) (sy_progress y)) (Releasing r) (Some e)
    (sy_current y) (sy_publication y) (sy_log y) (sy_answered y) (sy_shown y)).
Proof.
  intros [D1 D2 D3 D4 D5 D6 D7 D8 D9 D10 D11 D12] Hw. unfold flags_ok in D1. rw Hw in D1.
  destruct D1 as (F1 & F2 & F3 & F4 & F5 & F6 & F7). destruct (D4 r e F6 F4) as [Hle Hcur].
  assert (extends (disk y) e) as Hd by by eapply D10.
  split; unfold flags_ok, disk in *; simpl in *; try done.
  - lia.
  - intros n e' Hp. destruct (D6 n e' Hp) as (-> & _ & ?). repeat split; try done.
    by rw Hp in F7.
  - intros _ _ Hp. by rw Hp in F7.
  - intros k d Hk. destruct (D8 k d Hk) as [? Hall]. split; [done|]. intros.
    etrans; [by eapply Hall|done].
  - intros r' e' Hin Hr Hn. eapply D5; [exact Hin|exact F6|done|done|done].
  - intros _. split; [done|]. intros r' e' Hin Hr Hn.
    eapply D5; [exact F6|exact Hin|done|done|lia].
  - intros. etrans; [by eapply D11|done].
  - intros. etrans; [by eapply D12|done].
Qed.

Lemma Durable_failed y r e error (replaced : bool) :
  Durable y → sy_writer y = Writing r e →
  Durable (Build_System (wrote (rv_number r) (Err error) (sy_progress y)) Idle
    (if replaced then Some e else sy_record y) (sy_current y) (sy_publication y)
    (sy_log y) (sy_answered y) (sy_shown y)).
Proof.
  intros [D1 D2 D3 D4 D5 D6 D7 D8 D9 D10 D11 D12] Hw. unfold flags_ok in D1. rw Hw in D1.
  destruct D1 as (F1 & F2 & F3 & F4 & F5 & F6 & F7).
  set (y' := Build_System _ _ _ _ _ _ _ _).
  assert (extends (disk y) (disk y')) as Hd.
  { unfold y', disk. simpl. destruct replaced; [|done]. by eapply D10. }
  split; try done.
  - intros k d Hk. destruct (D8 k d Hk) as [? Hall]. split; [done|]. intros.
    etrans; [by eapply Hall|done].
  - intros. etrans; [by eapply D9|done].
  - intros. etrans; [by eapply D11|done].
  - intros. etrans; [by eapply D12|done].
Qed.

Lemma Durable_recover y next :
  Durable y → uncertain (sy_progress y) = true → (pg_epoch (sy_progress y) < u64_max)%N →
  extends (disk y) next →
  Durable (Build_System (recover (sy_progress y)) (sy_writer y) (sy_record y) next
    (sy_publication y) ((latest (recover (sy_progress y)), disk y) :: sy_log y)
    (sy_answered y) (sy_shown y)).
Proof.
  intros [D1 D2 D3 D4 D5 D6 D7 D8 D9 D10 D11 D12] Hu Hs He. unfold uncertain in Hu.
  assert (recover (sy_progress y) =
    {| pg_epoch := pg_epoch (sy_progress y) + 1; pg_submitted := 0; pg_pending := None;
       pg_writing := pg_writing (sy_progress y); pg_durable := 0;
       pg_reporting := pg_reporting (sy_progress y); pg_failed := false;
       pg_ended := forget_verdicts (btree_insert (pg_epoch (sy_progress y))
         (pg_durable (sy_progress y)) (pg_ended (sy_progress y))) |}) as ->.
  { unfold recover, u64_wrapping_add. rw N.mod_small //. unfold u64_modulus, u64_max in *. lia. }
  assert (∀ r e, (r, e) ∈ sy_log y → rv_epoch r ≠ (pg_epoch (sy_progress y) + 1)%N) as Hold.
  { intros r e Hin. pose proof (D3 r e Hin). lia. }
  split; unfold disk in *; simpl in *; try done.
  - unfold flags_ok in *. simpl. destruct (sy_writer y); intuition congruence.
  - intros r e [[= -> ->]|Hin]%elem_of_cons; simpl; [lia|]. pose proof (D3 r e Hin). lia.
  - intros r e [[= -> ->]|Hin]%elem_of_cons Hr; simpl; [done|]. by destruct (Hold r e).
  - intros r1 e1 r2 e2 [[= -> ->]|H1]%elem_of_cons [[= -> ->]|H2]%elem_of_cons Hr1 Hr2 Hn;
      [done|by destruct (Hold r2 e2)|by destruct (Hold r1 e1)..].
  - intros k d [[= -> ->]|Hk]%elem_of_forget_verdicts%elem_of_btree_insert.
    + split; [lia|]. intros r e [[= -> ->]|Hin]%elem_of_cons Hr Hn; [done|by eapply D9].
    + destruct (D8 k d Hk) as [Hlt Hall]. split; [lia|].
      intros r e [[= -> ->]|Hin]%elem_of_cons Hr Hn; [done|by eapply Hall].
  - intros r e [[= -> ->]|Hin]%elem_of_cons Hr Hn; [done|]. by destruct (Hold r e).
  - intros _. split; [done|]. intros r e [[= -> ->]|Hin]%elem_of_cons Hr Hn; [done|].
    by destruct (Hold r e).
Qed.

Lemma Durable_fresh record next answered shown :
  extends (default empty record) next →
  (∀ e, e ∈ answered → extends e (default empty record)) →
  (∀ e, e ∈ shown → extends e (default empty record)) →
  Durable (Build_System progress_default Idle record next publication_default
    [(latest (A := A) progress_default, default empty record)] answered shown).
Proof.
  intros He Ha Hs. split; unfold disk; simpl; try done.
  - by intros r e [[= -> ->]|?%elem_of_nil]%elem_of_cons.
  - by intros r e [[= -> ->]|?%elem_of_nil]%elem_of_cons.
  - by intros r1 e1 r2 e2 [[= -> ->]|?%elem_of_nil]%elem_of_cons
      [[= -> ->]|?%elem_of_nil]%elem_of_cons.
  - by intros k d ?%elem_of_nil.
  - by intros r e [[= -> ->]|?%elem_of_nil]%elem_of_cons.
  - intros _. split; [done|]. by intros r e [[= -> ->]|?%elem_of_nil]%elem_of_cons.
Qed.

(** ** Staged inventories *)

Definition revision_le (r1 r2 : Revision) : Prop :=
  (rv_epoch r1 < rv_epoch r2)%N ∨ (rv_epoch r1 = rv_epoch r2 ∧ (rv_number r1 ≤ rv_number r2)%N).
Definition staged_le (s1 s2 : Staged I) : Prop :=
  ∀ r1 r2, sg_revision s1 = Some r1 → sg_revision s2 = Some r2 → revision_le r1 r2.

Record Staging y : Prop := {
  st_known : ∀ s, s ∈ pb_staged (sy_publication y) →
    ∃ r, sg_revision s = Some r ∧ revision_le r (latest (sy_progress y));
  st_sorted : StronglySorted staged_le (pb_staged (sy_publication y));
  st_waiting : ∀ s r, s ∈ pb_staged (sy_publication y) → sg_revision s = Some r →
    rv_epoch r = pg_epoch (sy_progress y) → (rv_number r ≤ pg_durable (sy_progress y))%N →
    ∃ w, sy_writer y = Releasing w
}.

(** The released inventory is a covered one, and no covered one stays. *)
Lemma release_newest w newest (staged : list (Staged I)) s :
  (release_staged w newest staged).1 = Some s →
  newest = Some s ∨ (∃ r, s ∈ staged ∧ sg_revision s = Some r ∧ covers w r = true).
Proof.
  revert newest. induction staged as [|x rest IH]; intros newest; simpl; [auto|].
  destruct (sg_revision x) as [r|] eqn:Er; [|auto].
  destruct (covers w r) eqn:Ec.
  - intros [[= ->]|(r' & ? & ?)]%IH; right; [exists r|exists r']; rw elem_of_cons; auto.
  - destruct (lost_by r w); [|auto].
    intros [?|(r' & ? & ?)]%IH; [auto|]. right. exists r'. rw elem_of_cons. auto.
Qed.

Lemma release_rest w newest (staged : list (Staged I)) :
  ∃ gone, staged = gone ++ (release_staged w newest staged).2.
Proof.
  revert newest. induction staged as [|x rest IH]; intros newest; simpl; [by exists []|].
  destruct (sg_revision x) as [r|]; [|by exists []].
  destruct (covers w r); [destruct (IH (Some x)) as [g Hg]; exists (x :: g); by rw /= -Hg|].
  destruct (lost_by r w); [destruct (IH newest) as [g Hg]; exists (x :: g); by rw /= -Hg|].
  by exists [].
Qed.

Lemma release_keeps_newer w newest (staged : list (Staged I)) s r :
  StronglySorted staged_le staged →
  (∀ s, s ∈ staged → ∃ r, sg_revision s = Some r ∧ (rv_epoch r ≤ rv_epoch w)%N) →
  s ∈ (release_staged w newest staged).2 → sg_revision s = Some r → covers w r = false.
Proof.
  intros Hs. revert newest. induction Hs as [|x rest Hs IH Hall]; intros newest Hk; simpl.
  { by intros ?%elem_of_nil. }
  destruct (Hk x) as (rx & Hrx & Hle); [by left|]. rw Hrx.
  assert (∀ s, s ∈ rest → ∃ r, sg_revision s = Some r ∧ (rv_epoch r ≤ rv_epoch w)%N) as Hk'.
  { intros s' ?. apply Hk. by right. }
  destruct (covers w rx) eqn:Ec; [by apply IH|]. destruct (lost_by rx w) eqn:El; [by apply IH|].
  simpl. intros [->|Hin]%elem_of_cons Hr; [congruence|].
  rw Forall_forall in Hall. pose proof (Hall s Hin rx r Hrx Hr) as Hxr.
  destruct (Hk' s Hin) as (r' & Hr' & Hle'). rw Hr in Hr'. injection Hr' as <-.
  unfold covers, lost_by, revision_le in *. apply N.ltb_ge in El.
  apply andb_false_iff. right. apply N.leb_gt.
  rw bool_decide_eq_true_2 in Ec; [lia|]. simpl in Ec. apply N.leb_gt in Ec. lia.
Qed.

Lemma push_staged s (b : Publication I) : pb_staged (push inventory_eqb s b) = pb_staged b.
Proof. done. Qed.

Lemma stage_staged s (j : option (Progress A)) (b : Publication I) :
  pb_staged (stage inventory_eqb s j b)
  = if match sg_revision s, j with Some r, Some p => retained p r | _, _ => true end
    then [] else pb_staged b ++ [s].
Proof. unfold stage. by destruct (match sg_revision s with Some _ => _ | None => _ end). Qed.

Lemma release_staged_eq w (b : Publication I) :
  pb_staged (release inventory_eqb w b) = (release_staged w None (pb_staged b)).2.
Proof. unfold release. by destruct (release_staged w None (pb_staged b)) as [[s|] rest]. Qed.

Lemma retained_latest (p : Progress A) : retained p (latest p) = (pg_submitted p <=? pg_durable p)%N.
Proof. unfold retained, latest. simpl. rw bool_decide_eq_false_2; [by intros []|done]. Qed.

Lemma revision_le_trans r1 r2 r3 : revision_le r1 r2 → revision_le r2 r3 → revision_le r1 r3.
Proof. unfold revision_le. lia. Qed.

Lemma Staging_quiet y p writer record current log answered shown :
  Staging y → pg_epoch p = pg_epoch (sy_progress y) →
  (pg_submitted (sy_progress y) ≤ pg_submitted p)%N →
  (∀ w, sy_writer y = Releasing w → writer = Releasing w) →
  (∀ r, rv_epoch r = pg_epoch p → (pg_durable (sy_progress y) < rv_number r ≤ pg_durable p)%N →
     ∃ w, writer = Releasing w) →
  Staging (Build_System p writer record current (sy_publication y) log answered shown).
Proof.
  intros [S1 S2 S3] He Hs Hw Hd. split; simpl; [|done|].
  - intros s Hin. destruct (S1 s Hin) as (r & Hr & Hle). exists r. split; [done|].
    eapply revision_le_trans; [exact Hle|]. unfold revision_le, latest. simpl. lia.
  - intros s r Hin Hr Hre Hn. destruct (N.leb_spec (rv_number r) (pg_durable (sy_progress y))) as [Hle|Hgt].
    + destruct (S3 s r Hin Hr) as [w Hwr]; [congruence|done|]. eauto.
    + by apply (Hd r).
Qed.

(** Releasing what a write retained leaves only newer inventories staged. *)
Lemma Staging_release y r log answered shown :
  Durable y → Staging y → sy_writer y = Releasing r →
  Staging (Build_System (sy_progress y) Notifying (sy_record y) (sy_current y)
    (release inventory_eqb r (sy_publication y)) log answered shown).
Proof.
  intros [D1 _ _ _ _ _ _ _ _ _ _ _] [S1 S2 S3] Hw.
  unfold flags_ok in D1. rw Hw in D1. destruct D1 as (_ & _ & _ & F4 & F5).
  destruct (release_rest r None (pb_staged (sy_publication y))) as [gone Hgone].
  split; simpl; rw release_staged_eq.
  - intros s Hin. apply S1. rw Hgone elem_of_app. by right.
  - rw Hgone in S2. by apply StronglySorted_app_1_r in S2.
  - intros s r' Hin Hr' Hre Hn. exfalso.
    assert (covers r r' = false) as Hc.
    { eapply release_keeps_newer; [exact S2| |exact Hin|done]. intros x Hx.
      destruct (S1 x Hx) as (rx & Hrx & Hle). exists rx. split; [done|].
      unfold revision_le, latest in Hle. simpl in Hle. lia. }
    unfold covers in Hc. rw bool_decide_eq_true_2 in Hc; [congruence|]. simpl in Hc.
    apply N.leb_gt in Hc. lia.
Qed.

(** Recovery starts an epoch later than every staged inventory's. *)
Lemma Staging_recover y next log answered shown :
  Staging y → (pg_epoch (sy_progress y) < u64_max)%N →
  Staging (Build_System (recover (sy_progress y)) (sy_writer y) (sy_record y) next
    (sy_publication y) log answered shown).
Proof.
  intros [S1 S2 S3] He.
  assert (pg_epoch (recover (sy_progress y)) = (pg_epoch (sy_progress y) + 1)%N) as Hep.
  { unfold recover, u64_wrapping_add. simpl. rw N.mod_small //.
    unfold u64_modulus, u64_max in *. lia. }
  split; cbn [sy_publication sy_progress sy_writer].
  - intros s Hin. destruct (S1 s Hin) as (r & Hr & Hle). exists r. split; [done|].
    unfold revision_le, latest in *. cbn [rv_epoch rv_number] in *. lia.
  - done.
  - intros s r Hin Hr Hre Hn. destruct (S1 s Hin) as (r' & Hr' & Hle). exfalso.
    unfold revision_le, latest in *. simpl in *. assert (r' = r) by congruence. subst. lia.
Qed.

Lemma Staging_step y y' : Durable y → Staging y → sys_step y y' → Staging y'.
Proof.
  intros HD HS. pose proof HD as [D1 D2 D3 D4 D5 D6 D7 D8 D9 D10 D11 D12]. pose proof HS as [S1 S2 S3].
  destruct 1 as [next He Hs|inv seqs|dev conn|conn|r|r e Hw|r e error replaced Hw|r Hw|Hw
    |next Hu Hs He|record next Hr He].
  - rw (submit_small _ next Hs). apply Staging_quiet; simpl; try done; lia.
  - split; simpl; rw stage_staged /= retained_latest.
    + destruct (N.leb_spec (pg_submitted (sy_progress y)) (pg_durable (sy_progress y))).
      { by intros s ?%elem_of_nil. }
      intros s [Hin| ->%list_elem_of_singleton]%elem_of_app; [auto|]. simpl. eexists. split; [done|].
      right. done.
    + destruct (_ <=? _)%N; [constructor|]. apply StronglySorted_app_2; [|done|].
      * intros x1 x2 Hx1 ->%list_elem_of_singleton r1 r2 Hr1 [= <-].
        destruct (S1 x1 Hx1) as (r & Hr & Hle). congruence.
      * by repeat constructor.
    + destruct (N.leb_spec (pg_submitted (sy_progress y)) (pg_durable (sy_progress y))).
      { by intros s r ?%elem_of_nil. }
      intros s r [Hin| ->%list_elem_of_singleton]%elem_of_app Hr Hre Hn; [eauto|].
      injection Hr as <-. simpl in Hn. lia.
  - by split.
  - by split.
  - destruct (sync_turn_cases (sy_progress y) r) as [[-> Ht]|(n & e & Hp & Hf & Hw & Hrep & Ht & ->)].
    + apply Staging_quiet; simpl; try done; [|lia]. intros w Hw.
      destruct (sync_turn _ r).2; try done. by destruct (Ht revision envelope).
    + apply Staging_quiet; simpl; try done; [|lia]. intros w Hwr.
      unfold flags_ok in D1. rw Hwr in D1. destruct D1 as (_ & D1 & _). congruence.
  - apply Staging_quiet; simpl; try done; [|by eauto]. intros w Hw'. congruence.
  - apply Staging_quiet; simpl; try done; [|lia]. intros w Hw'. congruence.
  - by apply Staging_release.
  - apply Staging_quiet; simpl; try done; [|lia]. intros w Hw'. congruence.
  - by apply Staging_recover.
  - split; simpl; [by intros s ?%elem_of_nil|constructor|by intros s r ?%elem_of_nil].
Qed.

Lemma Durable_step y y' : Durable y → Staging y → sys_step y y' → Durable y'.
Proof.
  intros HD HS. pose proof HD as [D1 D2 D3 D4 D5 D6 D7 D8 D9 D10 D11 D12]. pose proof HS as [S1 S2 S3].
  destruct 1 as [next He Hs|inv seqs|dev conn|conn|r|r e Hw|r e error replaced Hw|r Hw|Hw
    |next Hu Hs He|record next Hr He].
  - by apply Durable_commit.
  - split; try done. simpl. intros e [Hin|Hin]%elem_of_app; [|auto].
    destruct (retained _ _) eqn:Er; [|by apply elem_of_nil in Hin].
    apply elem_of_envelopes in Hin. by apply (Durable_retained y _ e HD Er Hin).
  - by split.
  - by split.
  - by apply Durable_turn.
  - by apply Durable_wrote.
  - by apply Durable_failed.
  - unfold flags_ok in D1. rw Hw in D1. destruct D1 as (F1 & F2 & F3 & F4 & F5).
    split; try done. simpl. intros e [Hin|Hin]%elem_of_app; [|auto].
    apply elem_of_flat_map in Hin as (r' & Hr' & Hin%elem_of_envelopes).
    unfold released in Hr'. destruct (release_staged _ _ _).1 as [s|] eqn:Es; [|by apply elem_of_nil in Hr'].
    apply release_newest in Es as [?|(r2 & Hs & Hr2 & Hc)]; [done|]. rw Hr2 in Hr'.
    apply list_elem_of_singleton in Hr' as ->.
    unfold covers in Hc. apply andb_true_iff in Hc as [Hc1%bool_decide_eq_true Hc2%N.leb_le].
    eapply D9; [exact Hin|congruence|]. lia.
  - unfold flags_ok in D1. rw Hw in D1. destruct D1 as (F1 & F2 & F3). by split.
  - by apply Durable_recover.
  - apply Durable_fresh; [done| |].
    all: assert (extends (disk y) (default empty record)) as Hd
      by (destruct Hr as [->|(r & e & Hw & ->)]; [done|]; unfold flags_ok in D1; rw Hw in D1;
          destruct D1 as (_ & _ & F3 & F4 & F5 & F6 & _); by eapply D10).
    + intros e Hin. etrans; [by apply D11|done].
    + intros e Hin. etrans; [by apply D12|done].
Qed.

Lemma sys_reachable y : rtc sys_step sys_start y → Durable y ∧ Staging y.
Proof.
  intros H. apply (rtc_ind_r (R := sys_step) (λ y, Durable y ∧ Staging y) sys_start); [| |done].
  - split; [|split; simpl; [by intros s ?%elem_of_nil|constructor|by intros s r ?%elem_of_nil]].
    by apply (Durable_fresh None empty); [|intros e ?%elem_of_nil..].
  - intros y1 y2 _ Hst [H1 H2]. split; [by eapply Durable_step|by eapply Staging_step].
Qed.
End durability.
