(* ===== verification/DurabilityTheorems.v ===== *)
(** * What the disk journal promises

    The properties of [Journal] and [Publication] over every interleaving of
    their threads, and a run that exercises them. *)
From S2P Require Import Prelude.
From S2P Require Import Facts.
From S2P Require Import DiskJournal.
From S2P Require Import DurabilityProofs.

Section theorems.
Context {A I : Type} (inventory_eqb : I → I → bool) (empty : A).
Context (extends : A → A → Prop) `{!PreOrder extends}.
Implicit Types (y : System A I).


(** When [sync] answers that a revision of the current epoch is retained, every
    inventory staged for it or for an earlier revision has left the queue, so the
    reply follows what the write published. *)
Theorem reply_follows_publication y r s r' :
  rtc (sys_step inventory_eqb empty extends) (sys_start empty) y →
  rv_epoch r = pg_epoch (sy_progress y) →
  (sync_turn (sy_progress y) r).2 = Turn_Return (Ok tt) →
  s ∈ pb_staged (sy_publication y) → sg_revision s = Some r' → covers r r' = false.
Proof.
  intros Hrun He Ht Hs Hr.
  destruct (sys_reachable inventory_eqb empty extends y Hrun) as [HD HS]. destruct (covers r r') eqn:Ec; [|done].
  unfold covers in Ec. apply andb_true_iff in Ec as [Ec1%bool_decide_eq_true Ec2%N.leb_le].
  unfold sync_turn in Ht. rw bool_decide_eq_false_2 in Ht; [tauto|].
  destruct (N.leb_spec (rv_number r) (pg_durable (sy_progress y))) as [Hle|Hgt]; simpl in Ht.
  - destruct (st_waiting _ HS s r' Hs Hr) as [w Hw]; [congruence|lia|].
    pose proof (du_flags _ _ _ HD) as HF. unfold flags_ok in HF. rw Hw in HF.
    destruct HF as (F1 & F2 & F3 & _). rw F1 F2 F3 /= in Ht. done.
  - destruct (pg_failed _); [done|]. destruct (_ || _); [done|].
    destruct (pg_pending _) as [[]|]; done.
Qed.

(** When [settled] holds, the record on disk carries every revision of the
    current epoch: the ends that a durable deletion names may be carried out. *)
Theorem settled_retains y r e :
  rtc (sys_step inventory_eqb empty extends) (sys_start empty) y →
  settled (sy_progress y) = true → (r, e) ∈ sy_log y → rv_epoch r = pg_epoch (sy_progress y) →
  retained (sy_progress y) r = true ∧ extends e (disk empty y).
Proof.
  intros Hrun Hs Hin He.
  destruct (sys_reachable inventory_eqb empty extends y Hrun) as [HD _]. unfold settled in Hs. split_orb.
  destruct (pg_pending (sy_progress y)) eqn:Ep; [done|].
  assert (pg_durable (sy_progress y) = pg_submitted (sy_progress y)) as Hd by by eapply du_idle.
  destruct (du_numbers _ _ _ HD r e Hin He) as [Hn _].
  assert (rv_number r <= pg_durable (sy_progress y))%N as Hle by lia.
  split; [|by eapply du_retained].
  unfold retained. rw bool_decide_eq_false_2; [tauto|]. by apply N.leb_le.
Qed.

(** C40. [sync] never waits for nothing: with no write in progress it either returns,
    or writes an envelope that covers its revision, and the next pass after that
    write returns what the write decided. *)
Theorem sync_completes y r e :
  rtc (sys_step inventory_eqb empty extends) (sys_start empty) y →
  sy_writer y = Idle → (r, e) ∈ sy_log y → rv_epoch r = pg_epoch (sy_progress y) →
  (∃ result, (sync_turn (sy_progress y) r).2 = Turn_Return result ∧
     (result = Ok tt ↔ retained (sy_progress y) r = true)) ∨
  (∃ w e', (sync_turn (sy_progress y) r).2 = Turn_Write w e' ∧ covers w r = true ∧ extends e e' ∧
     (sync_turn (reported (wrote (rv_number w) (Ok tt) (sync_turn (sy_progress y) r).1)) r).2
       = Turn_Return (Ok tt) ∧
     ∀ error, (sync_turn (wrote (rv_number w) (Err error) (sync_turn (sy_progress y) r).1) r).2
       = Turn_Return (Err tt)).
Proof.
  intros Hrun Hw Hin He.
  destruct (sys_reachable inventory_eqb empty extends y Hrun) as [HD _]. pose proof (du_flags _ _ _ HD) as HF.
  unfold flags_ok in HF. rw Hw in HF. destruct HF as [F1 F2].
  assert (bool_decide (rv_epoch r ≠ pg_epoch (sy_progress y)) = false) as Hb
    by (apply bool_decide_eq_false; tauto).
  destruct (du_numbers _ _ _ HD r e Hin He) as [Hn _].
  unfold sync_turn at 1 2, retained. rw Hb F1 F2.
  destruct (N.leb_spec (rv_number r) (pg_durable (sy_progress y))) as [Hle|Hgt]; simpl.
  { left. exists (Ok tt). done. }
  destruct (pg_failed (sy_progress y)) eqn:Ef; [left; by exists (Err tt)|]. simpl.
  destruct (pg_pending (sy_progress y)) as [[n e']|] eqn:Ep.
  2: { pose proof (du_idle _ _ _ HD F1 Ef Ep). lia. }
  destruct (du_pending _ _ _ HD n e' Ep) as (-> & Hlt & Hin'). right. eexists _, e'.
  split; [done|]. split.
  { unfold covers. simpl. rw bool_decide_eq_true_2; [done|]. by apply N.leb_le. }
  split; [by eapply (du_chain _ _ _ HD); [exact Hin|exact Hin'|..]|].
  assert (sync_turn (sy_progress y) r =
    ({| pg_epoch := pg_epoch (sy_progress y); pg_submitted := pg_submitted (sy_progress y);
        pg_pending := None; pg_writing := true; pg_durable := pg_durable (sy_progress y);
        pg_reporting := false; pg_failed := false; pg_ended := pg_ended (sy_progress y) |},
     Turn_Write (latest (sy_progress y)) e')) as ->.
  { unfold sync_turn. rw Hb F1 F2 Ef Ep /=. by rw (proj2 (N.leb_gt _ _) Hgt). }
  split; [|intros error]; unfold sync_turn; simpl; rw Hb.
  - by rw (proj2 (N.leb_le _ _) Hn).
  - by rw (proj2 (N.leb_gt _ _) Hgt).
Qed.
End theorems.

(** ** A run

    Two commits; the first is retained, staged inventories are shown, the second
    write fails and the server recovers. *)
Module Run.
Definition Org := list nat.
Definition step := sys_step (A := Org) (I := nat) Nat.eqb [] prefix.
Definition rev (epoch number : N) : Revision := {| rv_epoch := epoch; rv_number := number |}.

Definition write_first : list (Revision * Org) := [(rev 0 1, [7]); (rev 0 0, [])].

(** After the first commit is written, reported and answered. *)
Definition first : System Org nat :=
  Build_System
    {| pg_epoch := 0; pg_submitted := 1; pg_pending := None; pg_writing := false; pg_durable := 1;
       pg_reporting := false; pg_failed := false; pg_ended := [] |}
    Idle (Some [7]) [7]
    {| pb_subscribers := {[ 5%N := {| sb_device := 3%N;
                                     sb_outbox := [{| ir_inventory := 70; ir_next_sequence := 2 |}];
                                     sb_sent := Some 2%N |} ]};
       pb_staged := []; pb_published := Some 70 |}
    write_first [[7]] [[7]].

Lemma first_reachable : rtc step (sys_start []) first.
Proof.
  evaluate.
  run_step ltac:(apply (sys_subscribe _ _ _ _ 3 5)).
  run_step ltac:(apply (sys_commit _ _ _ _ [7]); [apply prefix_nil|done]).
  run_step ltac:(apply (sys_stage _ _ _ _ 70 {[ 3%N := 2%N ]})).
  run_step ltac:(apply (sys_turn _ _ _ _ (rev 0 1))).
  run_step ltac:(eapply sys_wrote; reflexivity).
  run_step ltac:(eapply sys_release; reflexivity).
  run_step ltac:(apply sys_reported; reflexivity).
  run_step ltac:(apply (sys_turn _ _ _ _ (rev 0 1))).
  constructor.
Qed.

(** A second commit, staged and not yet written. *)
Definition second_staged : Staged nat :=
  {| sg_revision := Some (rev 0 2); sg_inventory := 71; sg_sequences := {[ 3%N := 3%N ]} |}.
Definition second : System Org nat :=
  Build_System
    {| pg_epoch := 0; pg_submitted := 2; pg_pending := Some (2%N, [7; 8]); pg_writing := false;
       pg_durable := 1; pg_reporting := false; pg_failed := false; pg_ended := [] |}
    Idle (Some [7]) [7; 8]
    {| pb_subscribers := pb_subscribers (sy_publication first);
       pb_staged := [second_staged]; pb_published := Some 70 |}
    ((rev 0 2, [7; 8]) :: write_first) [[7]] [[7]].

Lemma second_reachable : rtc step (sys_start []) second.
Proof.
  etrans; [apply first_reachable|].
  run_step ltac:(apply (sys_commit _ _ _ _ [7; 8]); [by exists [8]|done]).
  run_step ltac:(apply (sys_stage _ _ _ _ 71 {[ 3%N := 3%N ]})).
  constructor.
Qed.

(** The second write fails, the server recovers, then restarts. *)
Definition restarted : System Org nat :=
  Build_System progress_default Idle (Some [7]) [7] publication_default [(rev 0 0, [7])] [[7]] [[7]].

Lemma restarted_reachable : rtc step (sys_start []) restarted.
Proof.
  etrans; [apply second_reachable|].
  run_step ltac:(apply (sys_turn _ _ _ _ (rev 0 2))).
  run_step ltac:(eapply (sys_failed _ _ _ _ _ _ Error_StorageUnavailable false); reflexivity).
  run_step ltac:(apply (sys_recover _ _ _ _ [7]); [done|done|by exists []]).
  run_step ltac:(apply (sys_restart _ _ _ _ (Some [7]) [7]); [by left|by exists []]).
  constructor.
Qed.
End Run.


Lemma reply_follows_publication_witness : covers (Run.rev 0 1) (Run.rev 0 2) = false.
Proof.
  apply (reply_follows_publication Nat.eqb [] prefix Run.second (Run.rev 0 1) Run.second_staged
           (Run.rev 0 2) Run.second_reachable); [reflexivity | reflexivity | | reflexivity].
  by left.
Defined.

Lemma settled_retains_witness :
  retained (sy_progress Run.first) (Run.rev 0 1) = true ∧ [7] `prefix_of` disk [] Run.first.
Proof.
  apply (settled_retains Nat.eqb [] prefix Run.first (Run.rev 0 1) [7] Run.first_reachable);
    [reflexivity | by left | reflexivity].
Defined.

Lemma sync_completes_witness :
  (∃ result, (sync_turn (sy_progress Run.second) (Run.rev 0 2)).2 = Turn_Return result ∧
     (result = Ok tt ↔ retained (sy_progress Run.second) (Run.rev 0 2) = true)) ∨
  (∃ w e', (sync_turn (sy_progress Run.second) (Run.rev 0 2)).2 = Turn_Write w e' ∧
     covers w (Run.rev 0 2) = true ∧ [7; 8] `prefix_of` e' ∧
     (sync_turn (reported (wrote (rv_number w) (Ok tt)
        (sync_turn (sy_progress Run.second) (Run.rev 0 2)).1)) (Run.rev 0 2)).2
       = Turn_Return (Ok tt) ∧
     ∀ error, (sync_turn (wrote (rv_number w) (Err error)
        (sync_turn (sy_progress Run.second) (Run.rev 0 2)).1) (Run.rev 0 2)).2
       = Turn_Return (Err tt)).
Proof.
  apply (sync_completes Nat.eqb [] prefix Run.second (Run.rev 0 2) [7; 8] Run.second_reachable);
    [reflexivity | by left | reflexivity].
Defined.
