(* ===== verification/ClientJournal.v ===== *)
(** * The client's journal of shared edits

    [ClientJournal] of [hierarchy.rs]: one pending operation, the last retired
    outcome and the outcomes nobody has presented yet, in [operations.json]. The
    directory is what the file holds. A write goes through a temporary file and
    a rename, so a failed write leaves either the old record or the new one; the
    read that follows a failed write may fail as well. JSON is [serde_json]'s:
    a read returns the record the last replacement wrote. *)
From S2P Require Import Prelude.
From S2P Require Import Text.
From S2P Require Import Facts.
From S2P Require Import HierarchyTypes.

Record ClientOperation := { co_sequence : N; co_mutation : Mutation }.

Definition UNSEEN_OUTCOMES : nat := 32.

Record JournalRecord := {
  jr_core : Id;
  jr_client : Id;
  jr_pending : option ClientOperation;
  jr_last : option RetainedOutcome;
  jr_unseen : list RetainedOutcome;
  jr_forgotten : N;
  jr_forgotten_presented : N
}.

(** The journal: what [operations.json] holds and the record in memory. *)
Record ClientJournal := { cj_directory : option JournalRecord; cj_record : JournalRecord }.

(** How one [Directory::write_json] and the read after its failure end. *)
Inductive Write :=
  | Written
  | WriteFailed (replaced : bool) (error : CoreError) (reread : option CoreError).

Definition set_pending (p : option ClientOperation) (r : JournalRecord) : JournalRecord :=
  {| jr_core := jr_core r; jr_client := jr_client r; jr_pending := p; jr_last := jr_last r;
     jr_unseen := jr_unseen r; jr_forgotten := jr_forgotten r;
     jr_forgotten_presented := jr_forgotten_presented r |}.
Definition set_last (l : option RetainedOutcome) (r : JournalRecord) : JournalRecord :=
  {| jr_core := jr_core r; jr_client := jr_client r; jr_pending := jr_pending r; jr_last := l;
     jr_unseen := jr_unseen r; jr_forgotten := jr_forgotten r;
     jr_forgotten_presented := jr_forgotten_presented r |}.
Definition set_unseen (u : list RetainedOutcome) (r : JournalRecord) : JournalRecord :=
  {| jr_core := jr_core r; jr_client := jr_client r; jr_pending := jr_pending r;
     jr_last := jr_last r; jr_unseen := u; jr_forgotten := jr_forgotten r;
     jr_forgotten_presented := jr_forgotten_presented r |}.
Definition set_forgotten (f p : N) (r : JournalRecord) : JournalRecord :=
  {| jr_core := jr_core r; jr_client := jr_client r; jr_pending := jr_pending r;
     jr_last := jr_last r; jr_unseen := jr_unseen r; jr_forgotten := f;
     jr_forgotten_presented := p |}.

(** The record of a client that has none. *)
Definition fresh_record (core client : Id) : JournalRecord :=
  {| jr_core := core; jr_client := client; jr_pending := None; jr_last := None; jr_unseen := [];
     jr_forgotten := 0; jr_forgotten_presented := 0 |}.

(** [ClientJournal::open_locked]; [read] is how the read of the file ends. *)
Definition open_locked (directory : option JournalRecord) (read : option CoreError)
    (core client : Id) : result ClientJournal CoreError :=
  match read with
  | Some error => Err error
  | None =>
      let record := default (fresh_record core client) directory in
      if bool_decide (jr_core record ≠ core) || bool_decide (jr_client record ≠ client)
      then Err Error_AuthenticationRefused
      else Ok {| cj_directory := directory; cj_record := record |}
  end.

(** [ClientJournal::held]. *)
Definition held (directory : option JournalRecord) : N :=
  match directory with
  | None => 0
  | Some r => (match jr_pending r with Some _ => 1 | None => 0 end)
              + (match jr_last r with Some _ => 1 | None => 0 end)
  end%N.

(** [ClientJournal::save]. *)
Definition save (w : Write) (j : ClientJournal) : ClientJournal * result unit CoreError :=
  match w with
  | Written => ({| cj_directory := Some (cj_record j); cj_record := cj_record j |}, Ok tt)
  | WriteFailed replaced error reread =>
      let directory := if replaced then Some (cj_record j) else cj_directory j in
      match reread with
      | Some error => ({| cj_directory := directory; cj_record := cj_record j |}, Err error)
      | None =>
          match directory with
          | None => ({| cj_directory := directory; cj_record := cj_record j |},
                     Err Error_StorageUnavailable)
          | Some record => ({| cj_directory := directory; cj_record := record |}, Err error)
          end
      end
  end.

(** Writes the changed record. *)
Definition save_record (w : Write) (r : JournalRecord) (j : ClientJournal)
    : ClientJournal * result unit CoreError :=
  save w {| cj_directory := cj_directory j; cj_record := r |}.

(** [ClientJournal::abandon]. *)
Definition abandon (w : Write) (j : ClientJournal) : ClientJournal * result unit CoreError :=
  match jr_pending (cj_record j) with
  | None => (j, Ok tt)
  | Some _ => save_record w (set_pending None (cj_record j)) j
  end.

Definition other_sequence (sequence : N) (o : RetainedOutcome) : bool :=
  negb (bool_decide (ro_sequence o = sequence)).

(** [ClientJournal::settled]. *)
Definition settled (w : Write) (sequence : N) (j : ClientJournal)
    : ClientJournal * result unit CoreError :=
  if match jr_last (cj_record j) with
     | None => true
     | Some last => bool_decide (ro_sequence last ≠ sequence)
     end
  then (j, Ok tt)
  else save_record w
         (set_unseen (vfilter (other_sequence sequence) (jr_unseen (cj_record j)))
            (set_last None (cj_record j))) j.

(** [ClientJournal::forgotten_presented]. *)
Definition forgotten_presented (w : Write) (total : N) (j : ClientJournal)
    : ClientJournal * result unit CoreError :=
  let r := cj_record j in
  let total := N.min total (jr_forgotten r) in
  if (total <=? jr_forgotten_presented r)%N then (j, Ok tt)
  else save_record w (set_forgotten (jr_forgotten r) total r) j.

(** [ClientJournal::presented]. *)
Definition presented (w : Write) (sequence : N) (j : ClientJournal)
    : ClientJournal * result unit CoreError :=
  let before := length (jr_unseen (cj_record j)) in
  let unseen := vfilter (other_sequence sequence) (jr_unseen (cj_record j)) in
  if length unseen =? before then (j, Ok tt)
  else save_record w (set_unseen unseen (cj_record j)) j.

(** [ClientJournal::submit]. *)
Definition submit (w : Write) (sequence : N) (m : Mutation) (j : ClientJournal)
    : ClientJournal * result unit CoreError :=
  match jr_pending (cj_record j) with
  | Some _ => (j, Err Error_Unsupported)
  | None =>
      save_record w
        (set_pending (Some {| co_sequence := sequence; co_mutation := m |}) (cj_record j)) j
  end.

(** The record [retire] writes: the outcome it must present joins the unseen
    ones, of which the oldest makes room and is counted. *)
Definition keep_unseen (result : RetainedOutcome) (r : JournalRecord) : JournalRecord :=
  if needs_presentation (ro_outcome result) then
    let r := if UNSEEN_OUTCOMES <=? length (jr_unseen r)
             then set_forgotten (u64_saturating_add (jr_forgotten r) 1) (jr_forgotten_presented r)
                    (set_unseen (vremove 0 (jr_unseen r)) r)
             else r in
    set_unseen (jr_unseen r ++ [result]) r
  else r.

(** Whether a result answers the pending operation. *)
Definition answers (op : ClientOperation) (result : RetainedOutcome) : bool :=
  bool_decide (co_sequence op = ro_sequence result)
  && mutation_eqb (co_mutation op) (ro_mutation result).

(** [ClientJournal::retire]. *)
Definition retire (w : Write) (result : RetainedOutcome) (j : ClientJournal)
    : ClientJournal * Prelude.result unit CoreError :=
  match jr_pending (cj_record j) with
  | None => (j, Err Error_Protocol)
  | Some pending =>
      if negb (answers pending result) then (j, Err Error_Protocol)
      else save_record w
             (set_pending None (set_last (Some result) (keep_unseen result (cj_record j)))) j
  end.

(** ** What the client's journal promises

    Each operation is atomic whatever happens to its write, the journal stays
    within its bounds, and an outcome is never dropped without being counted. *)
Inductive JournalOp :=
  | Op_submit (sequence : N) (m : Mutation)
  | Op_retire (o : RetainedOutcome)
  | Op_abandon
  | Op_settled (sequence : N)
  | Op_presented (sequence : N)
  | Op_forgotten (total : N).

Definition run_op (op : JournalOp) (w : Write) (j : ClientJournal)
    : ClientJournal * result unit CoreError :=
  match op with
  | Op_submit sequence m => submit w sequence m j
  | Op_retire o => retire w o j
  | Op_abandon => abandon w j
  | Op_settled sequence => settled w sequence j
  | Op_presented sequence => presented w sequence j
  | Op_forgotten total => forgotten_presented w total j
  end.

(** What an operation means to do to the record, without storage. *)
Definition op_record (op : JournalOp) (r : JournalRecord) : result JournalRecord CoreError :=
  match op with
  | Op_submit sequence m =>
      match jr_pending r with
      | Some _ => Err Error_Unsupported
      | None => Ok (set_pending (Some {| co_sequence := sequence; co_mutation := m |}) r)
      end
  | Op_retire o =>
      match jr_pending r with
      | None => Err Error_Protocol
      | Some op => if answers op o
                   then Ok (set_pending None (set_last (Some o) (keep_unseen o r)))
                   else Err Error_Protocol
      end
  | Op_abandon => Ok (set_pending None r)
  | Op_settled sequence =>
      match jr_last r with
      | None => Ok r
      | Some last => if bool_decide (ro_sequence last = sequence)
                     then Ok (set_unseen (vfilter (other_sequence sequence) (jr_unseen r))
                                (set_last None r))
                     else Ok r
      end
  | Op_presented sequence => Ok (set_unseen (vfilter (other_sequence sequence) (jr_unseen r)) r)
  | Op_forgotten total =>
      Ok (set_forgotten (jr_forgotten r)
            (N.max (jr_forgotten_presented r) (N.min total (jr_forgotten r))) r)
  end.

(** The journal of [core] and [client], as it is between operations. *)
Definition Synced (core client : Id) (j : ClientJournal) : Prop :=
  open_locked (cj_directory j) None core client = Ok j.

Lemma Synced_iff core client j :
  Synced core client j ↔
  cj_record j = default (fresh_record core client) (cj_directory j) ∧
  jr_core (cj_record j) = core ∧ jr_client (cj_record j) = client.
Proof.
  unfold Synced, open_locked. destruct j as [d r]; simpl. split.
  - destruct (bool_decide_reflect (jr_core (default (fresh_record core client) d) ≠ core)) as [|Hc];
      [done|].
    destruct (bool_decide_reflect (jr_client (default (fresh_record core client) d) ≠ client)) as [|Hl];
      [done|]. intros [= <-]. apply dec_stable in Hc, Hl. done.
  - intros (-> & Hc & Hl). rw !bool_decide_eq_false_2 //; tauto.
Qed.

Lemma vfilter_length_eq {A} (p : A → bool) l : length (vfilter p l) = length l → vfilter p l = l.
Proof.
  unfold vfilter. induction l as [|x l IH]; simpl; [done|]. destruct (p x); simpl.
  - intros [= H]. by rw IH.
  - intros H. pose proof (filter_length_le p l). lia.
Qed.

Lemma set_unseen_same r : set_unseen (jr_unseen r) r = r.
Proof. by destruct r. Qed.

(** Every operation refuses, changes nothing, or writes the record it means. *)
Lemma run_op_cases op w j :
  match op_record op (cj_record j) with
  | Err e => run_op op w j = (j, Err e)
  | Ok r => (r = cj_record j ∧ run_op op w j = (j, Ok tt)) ∨ run_op op w j = save_record w r j
  end.
Proof.
  destruct op as [sequence m|o| |sequence|sequence|total]; simpl;
    unfold submit, retire, abandon, settled, presented, forgotten_presented.
  - destruct (jr_pending _); auto.
  - destruct (jr_pending _) as [op|]; [|done]. destruct (answers op o); simpl; auto.
  - destruct (jr_pending _) eqn:E; [by right|left]. split; [|done].
    destruct (cj_record j); simpl in *. by subst.
  - destruct (jr_last _) as [last|] eqn:E; [|by left].
    destruct (bool_decide_reflect (ro_sequence last = sequence)) as [->|Hne].
    + right. by rw bool_decide_eq_false_2; [intros []|].
    + left. by rw bool_decide_eq_true_2.
  - destruct (Nat.eqb_spec (length (vfilter (other_sequence sequence) (jr_unseen (cj_record j))))
                (length (jr_unseen (cj_record j)))) as [H|H]; [left|by right].
    split; [|done]. by rw (vfilter_length_eq _ _ H) set_unseen_same.
  - destruct (N.leb_spec (N.min total (jr_forgotten (cj_record j)))
                (jr_forgotten_presented (cj_record j))) as [H|H]; [left|right].
    + split; [|done]. rw N.max_l //. by destruct (cj_record j).
    + by rw N.max_r; [lia|].
Qed.

(** No operation changes whose journal it is. *)
Lemma op_record_owner op r r' :
  op_record op r = Ok r' → jr_core r' = jr_core r ∧ jr_client r' = jr_client r.
Proof.
  destruct op as [sequence m|o| |sequence|sequence|total]; simpl.
  - destruct (jr_pending r); [done|]. by intros [= <-].
  - destruct (jr_pending r) as [op|]; [|done]. destruct (answers op o); [|done]. intros [= <-].
    unfold keep_unseen. destruct (needs_presentation _); [|done]. by destruct (_ <=? _).
  - by intros [= <-].
  - destruct (jr_last r); [|by intros [= <-]]. case_bool; by intros [= <-].
  - by intros [= <-].
  - by intros [= <-].
Qed.

Lemma op_atomic core client op w j j' res :
  Synced core client j → run_op op w j = (j', res) →
  match op_record op (cj_record j) with
  | Err e => j' = j ∧ res = Err e
  | Ok r =>
      (res = Ok tt → cj_record j' = r ∧ Synced core client j') ∧
      ∃ k, open_locked (cj_directory j') None core client = Ok k ∧
        (cj_record k = cj_record j ∨ cj_record k = r)
  end.
Proof.
  intros HS Hrun. pose proof (run_op_cases op w j) as Hc. rw Hrun in Hc.
  destruct (op_record op (cj_record j)) as [r|e] eqn:Er; [|by injection Hc as -> ->].
  destruct (op_record_owner _ _ _ Er) as [Ho1 Ho2].
  pose proof HS as (Hr & Hcore & Hclient)%Synced_iff.
  destruct Hc as [[-> [= -> ->]]|Hc].
  { split; [done|]. exists j. auto. }
  assert (Synced core client {| cj_directory := Some r; cj_record := r |}) as Hnew.
  { apply Synced_iff. simpl. rw Ho1 Ho2. done. }
  unfold save_record, save in Hc. destruct w as [|replaced error reread]; simpl in Hc.
  - injection Hc as -> ->. split; [done|]. eexists. split; [exact Hnew|]. by right.
  - assert (res ≠ Ok tt ∧ cj_directory j' = if replaced then Some r else cj_directory j) as [Hres Hdir].
    { destruct reread; [by injection Hc as -> ->|].
      destruct (if replaced then Some r else cj_directory j); by injection Hc as -> ->. }
    split; [done|]. rw Hdir. destruct replaced; eexists; (split; [first [exact Hnew|exact HS]|]); auto.
Qed.

(** ** Bounds *)

Record Bounded (r : JournalRecord) : Prop := {
  bd_unseen : length (jr_unseen r) ≤ UNSEEN_OUTCOMES;
  bd_present : Forall (λ o, needs_presentation (ro_outcome o) = true) (jr_unseen r);
  bd_forgotten : (jr_forgotten_presented r ≤ jr_forgotten r ≤ u64_max)%N
}.

Lemma keep_unseen_Bounded o r : Bounded r → Bounded (keep_unseen o r).
Proof.
  intros [H1 H2 H3]. unfold keep_unseen. destruct (needs_presentation _) eqn:En; [|done].
  destruct (Nat.leb_spec UNSEEN_OUTCOMES (length (jr_unseen r))) as [Hl|Hl].
  - split; simpl.
    + rw /vremove !length_app length_drop /=.
      unfold UNSEEN_OUTCOMES in *. lia.
    + apply Forall_app. split; [by apply Forall_drop|by apply Forall_singleton].
    + unfold u64_saturating_add. lia.
  - split; simpl; [rw length_app /=; lia| |done].
    apply Forall_app. split; [done|by apply Forall_singleton].
Qed.

Lemma length_vfilter {A} (p : A → bool) l : length (vfilter p l) ≤ length l.
Proof. apply filter_length_le. Qed.

Lemma op_record_Bounded op r r' : Bounded r → op_record op r = Ok r' → Bounded r'.
Proof.
  intros HB. destruct op as [sequence m|o| |sequence|sequence|total]; simpl.
  - destruct (jr_pending r); [done|]. destruct HB. by intros [= <-].
  - destruct (jr_pending r) as [op|]; [|done]. destruct (answers op o); [|done]. intros [= <-].
    by destruct (keep_unseen_Bounded o r HB).
  - destruct HB. by intros [= <-].
  - destruct HB as [H1 H2 H3]. destruct (jr_last r); [|by intros [= <-]].
    case_bool; intros [= <-]; [|done]. split; simpl; [|by apply Forall_vfilter|done].
    etrans; [apply length_vfilter|done].
  - destruct HB as [H1 H2 H3]. intros [= <-]. split; simpl; [|by apply Forall_vfilter|done].
    etrans; [apply length_vfilter|done].
  - destruct HB as [H1 H2 H3]. intros [= <-]. split; simpl; [done|done|lia].
Qed.

(** Every run of operations on a fresh journal, with any write failing anywhere
    and the journal opened again after each failure, keeps the unseen outcomes
    within their bound and the count of presented losses within the losses. *)
Inductive journal_run (core client : Id) : ClientJournal → Prop :=
  | run_open j :
      open_locked None None core client = Ok j → journal_run core client j
  | run_next op w j j' :
      journal_run core client j → run_op op w j = (j', Ok tt) → journal_run core client j'
  | run_again op w j j' k error :
      journal_run core client j → run_op op w j = (j', Err error) →
      open_locked (cj_directory j') None core client = Ok k → journal_run core client k.

(** The record a client goes on with is the one it had or the one it meant. *)
Lemma op_continues core client op w j j' res k :
  Synced core client j → run_op op w j = (j', res) →
  (res = Ok tt ∧ k = j') ∨ open_locked (cj_directory j') None core client = Ok k →
  Synced core client k ∧
  (cj_record k = cj_record j ∨ op_record op (cj_record j) = Ok (cj_record k)).
Proof.
  intros HS Hrun Hk. pose proof (op_atomic _ _ _ _ _ _ _ HS Hrun) as Ha.
  destruct (op_record op (cj_record j)) as [r|e].
  - destruct Ha as [Hok (k' & Hk' & Hr)]. destruct Hk as [[-> ->]|Hk].
    + destruct (Hok eq_refl) as [<- ?]. auto.
    + rw Hk in Hk'. injection Hk' as <-. split; [|destruct Hr as [->| ->]; auto].
      unfold Synced. unfold open_locked in Hk |- *. destruct (_ || _) eqn:E; [done|].
      injection Hk as <-. simpl. by rw E.
  - destruct Ha as [-> ->]. destruct Hk as [[? _]|Hk]; [done|]. unfold Synced in HS.
    rw HS in Hk. injection Hk as <-. auto.
Qed.


Definition demo_edit : Mutation := RenameWorkspace 1 0 (lit "api").
Definition demo_answer : RetainedOutcome :=
  {| ro_sequence := 4; ro_mutation := demo_edit; ro_outcome := Conflict |}.
Definition demo_pending : JournalRecord :=
  set_pending (Some {| co_sequence := 4; co_mutation := demo_edit |}) (fresh_record 1 2).
Definition demo_open : ClientJournal :=
  {| cj_directory := Some demo_pending; cj_record := demo_pending |}.


(** Along every run of operations on a client's journal, with any write failing
    anywhere and the journal opened again after a failure, the unseen outcomes
    stay within their bound and are ones to present, and the losses a surface
    has mentioned stay within the losses counted. *)
Theorem journal_run_bounded core client j : journal_run core client j → Bounded (cj_record j).
Proof.
  intros H. cut (Synced core client j ∧ Bounded (cj_record j)); [tauto|].
  induction H as [j Ho|op w j j' _ [IS IB] Hr|op w j j' k error _ [IS IB] Hr Ho].
  - unfold open_locked in Ho. simpl in Ho. rw !bool_decide_eq_false_2 in Ho; [by intros []..|].
    injection Ho as <-. split; [by apply Synced_iff|]. split; simpl; [lia|done|done].
  - destruct (op_continues core client op w j j' (Ok tt) j' IS Hr) as [? [->|?]]; [by left|done|].
    eauto using op_record_Bounded.
  - destruct (op_continues core client op w j j' _ k IS Hr) as [? [->|?]]; [by right|done|].
    eauto using op_record_Bounded.
Qed.

Lemma journal_run_bounded_witness :
  Bounded (set_pending (Some {| co_sequence := 4; co_mutation := demo_edit |}) (fresh_record 1 2)).
Proof.
  apply (journal_run_bounded 1 2 demo_open).
  eapply (run_next 1 2 (Op_submit 4 demo_edit) Written); [apply run_open; reflexivity|reflexivity].
Defined.

(** Retiring answers exactly the pending operation, keeps its outcome as the last
    one, and accounts for every outcome to present: the unseen ones and the
    counted losses together grow by one, and only the oldest may make room. *)
Theorem retire_accounts core client w j j' o op :
  Synced core client j → Bounded (cj_record j) → (jr_forgotten (cj_record j) < u64_max)%N →
  jr_pending (cj_record j) = Some op → retire w o j = (j', Ok tt) →
  answers op o = true ∧ jr_pending (cj_record j') = None ∧ jr_last (cj_record j') = Some o ∧
  (N.of_nat (length (jr_unseen (cj_record j'))) + jr_forgotten (cj_record j')
   = N.of_nat (length (jr_unseen (cj_record j))) + jr_forgotten (cj_record j)
     + if needs_presentation (ro_outcome o) then 1 else 0)%N ∧
  (∀ x, x ∈ tail (jr_unseen (cj_record j)) → x ∈ jr_unseen (cj_record j')) ∧
  (needs_presentation (ro_outcome o) = true → o ∈ jr_unseen (cj_record j')).
Proof.
  intros HS HB Hf Hp Hr. pose proof (op_atomic core client (Op_retire o) w j j' _ HS Hr) as Ha.
  simpl in Ha. rw Hp in Ha. destruct (answers op o) eqn:Ea; [|by destruct Ha].
  destruct Ha as [Hok _]. destruct (Hok eq_refl) as [-> _]. simpl.
  split; [done|]. split; [done|]. split; [done|]. unfold keep_unseen.
  destruct (needs_presentation _) eqn:En; [|split; [lia|split; [|done]]].
  2: { intros x Hx. destruct (jr_unseen _); [done|by right]. }
  destruct (Nat.leb_spec UNSEEN_OUTCOMES (length (jr_unseen (cj_record j)))) as [Hl|Hl];
    simpl; rw length_app /=.
  - rw /vremove /u64_saturating_add N.min_l; [lia|].
    destruct (jr_unseen (cj_record j)) as [|y l]; [simpl in Hl; unfold UNSEEN_OUTCOMES in Hl; lia|].
    simpl. rw drop_0. split; [lia|]. split; [|intros _].
    + intros x Hx. rw elem_of_app. by left.
    + rw elem_of_app. right. by left.
  - split; [lia|]. split; [|intros _].
    + intros x Hx. rw elem_of_app. left. destruct (jr_unseen _); [done|by right].
    + rw elem_of_app. right. by left.
Qed.

Lemma retire_accounts_witness :
  jr_last (cj_record (retire Written demo_answer demo_open).1) = Some demo_answer ∧
  demo_answer ∈ jr_unseen (cj_record (retire Written demo_answer demo_open).1).
Proof.
  destruct (retire_accounts 1 2 Written demo_open (retire Written demo_answer demo_open).1
    demo_answer {| co_sequence := 4; co_mutation := demo_edit |})
    as (_ & _ & Hl & _ & _ & Hu); [reflexivity | | reflexivity.. | ].
  - split; [vm_compute; lia | constructor | split; vm_compute; discriminate].
  - split; [exact Hl | apply Hu; reflexivity].
Defined.
