(* ===== verification/ClientEdit.v ===== *)
(** * How a client carries out one edit

    [crates/spaceterm-cli/src/journal.rs] ([dispatch], [resolve], [finish],
    [acknowledge], [settle_journal]) and [finish] of
    [src/terminal/workspace_client.rs], over a link that answers as it likes.
    The link is a state [L] with its request and acknowledgement; the journal's
    writes take their fates from a list, and a client's clock is how many more
    confirmations it may ask for. A [CoreError] becomes a failure through
    [from_core_error], kept here as the constructor [Failure_Core]. *)
From S2P Require Import Prelude.
From S2P Require Import Text.
From S2P Require Import Facts.
From S2P Require Import HierarchyTypes.
From S2P Require Import ClientJournal.

Inductive Request :=
  | Request_Mutate (sequence : N) (m : Mutation)
  | Request_Resolve (sequence : N).

(** [ReplyBody], of which an edit only accepts an outcome. *)
Inductive Reply :=
  | Reply_Outcome (o : RetainedOutcome)
  | Reply_Other.

Inductive Failure :=
  | Failure_OutcomeUnconfirmed
  | Failure_ProtocolError
  | Failure_Interrupted
  | Failure_Core (e : CoreError).

(** What the server recorded for a pending sequence. *)
Inductive Resolved :=
  | Resolved_Outcome (o : RetainedOutcome)
  | Resolved_Missing
  | Resolved_Unknown.

Section edit.
Context {L : Type}.
(** [request]: the reply that arrived in time, or [None]. *)
Context (request : Request → L → L * option (result Reply Refusal)).
(** [CoreLink::acknowledge]: whether it was sent. *)
Context (link_acknowledge : N → L → L * bool).

(** The error of a link that ended, through [From<LinkError> for CoreError]. *)
Context (link_error : L → CoreError).

(** The link, the fates of the writes to come, and the journal. *)
Record Client := { cl_link : L; cl_writes : list Write; cl_journal : ClientJournal }.

Definition set_link (l : L) (c : Client) : Client :=
  {| cl_link := l; cl_writes := cl_writes c; cl_journal := cl_journal c |}.

(** One journal operation, with the fate of its write. *)
Definition on_journal (op : Write → ClientJournal → ClientJournal * result unit CoreError)
    (c : Client) : Client * result unit CoreError :=
  let w := match cl_writes c with [] => Written | w :: _ => w end in
  let '(j, r) := op w (cl_journal c) in
  ({| cl_link := cl_link c; cl_writes := tail (cl_writes c); cl_journal := j |}, r).

Definition ask (r : Request) (c : Client) : Client * option (result Reply Refusal) :=
  let '(l, reply) := request r (cl_link c) in (set_link l c, reply).

Definition from_core_error {A} (r : result A CoreError) : result A Failure :=
  match r with Ok a => Ok a | Err e => Err (Failure_Core e) end.

(** The loop of [acknowledge]: asks until the server answers [Missing]. [polls]
    is how often the clock still allows another question. *)
Fixpoint confirm (polls : nat) (sequence : N) (c : Client) : Client * result unit Failure :=
  let '(c, reply) := ask (Request_Resolve sequence) c in
  match reply with
  | Some (Err Refusal_Missing) =>
      let '(c, r) := on_journal (λ w, ClientJournal.settled w sequence) c in (c, from_core_error r)
  | Some (Ok (Reply_Outcome _)) =>
      match polls with
      | S polls => confirm polls sequence c
      | 0 => (c, Ok tt)
      end
  | _ => (c, Ok tt)
  end.

(** [acknowledge]. *)
Definition acknowledge (polls : nat) (sequence : N) (c : Client) : Client * result unit Failure :=
  let '(l, sent) := link_acknowledge sequence (cl_link c) in
  let c := set_link l c in
  if sent then confirm polls sequence c else (c, Ok tt).

(** [finish]: validates an outcome, retires it, acknowledges it. *)
Definition finish (polls : nat) (o : RetainedOutcome) (c : Client)
    : Client * result RetainedOutcome Failure :=
  match jr_pending (cj_record (cl_journal c)) with
  | None => (c, Err Failure_ProtocolError)
  | Some pending =>
      if negb (answers pending o) then (c, Err Failure_ProtocolError)
      else if bool_decide (ro_outcome o = Pending) then (c, Ok o)
      else match on_journal (λ w, retire w o) c with
      | (c, Err e) => (c, Err (Failure_Core e))
      | (c, Ok _) =>
          match acknowledge polls (ro_sequence o) c with
          | (c, Err f) => (c, Err f)
          | (c, Ok _) => (c, Ok o)
          end
      end
  end.

(** [resolve]. *)
Definition resolve (polls : nat) (sequence : N) (c : Client) : Client * result Resolved Failure :=
  let '(c, reply) := ask (Request_Resolve sequence) c in
  match reply with
  | Some (Ok (Reply_Outcome o)) =>
      match finish polls o c with
      | (c, Ok o) => (c, Ok (Resolved_Outcome o))
      | (c, Err f) => (c, Err f)
      end
  | Some (Ok Reply_Other) => (c, Err Failure_ProtocolError)
  | Some (Err Refusal_Missing) =>
      match on_journal abandon c with
      | (c, Err e) => (c, Err (Failure_Core e))
      | (c, Ok _) => (c, Ok Resolved_Missing)
      end
  | Some (Err _) | None => (c, Ok Resolved_Unknown)
  end.

(** [dispatch], with the advertised sequence or the link's error, and whether an
    interrupt came before the edit was recorded. *)
Definition dispatch (polls : nat) (advertised : result N CoreError) (interrupted : bool)
    (m : Mutation) (c : Client) : Client * result RetainedOutcome Failure :=
  match jr_pending (cj_record (cl_journal c)) with
  | Some _ => (c, Err Failure_OutcomeUnconfirmed)
  | None =>
      match advertised with
      | Err e => (c, Err (Failure_Core e))
      | Ok sequence =>
          if interrupted then (c, Err Failure_Interrupted)
          else match on_journal (λ w, submit w sequence m) c with
          | (c, Err e) => (c, Err (Failure_Core e))
          | (c, Ok _) =>
              let '(c, reply) := ask (Request_Mutate sequence m) c in
              match reply with
              | Some (Ok (Reply_Outcome o)) => finish polls o c
              | Some (Ok Reply_Other) => (c, Err Failure_ProtocolError)
              | Some (Err refusal) =>
                  match resolve polls sequence c with
                  | (c, Ok (Resolved_Outcome o)) => (c, Ok o)
                  | (c, Ok Resolved_Missing) =>
                      (c, Err (Failure_Core (core_error_of_refusal refusal)))
                  | (c, Ok Resolved_Unknown) => (c, Err Failure_OutcomeUnconfirmed)
                  | (c, Err f) => (c, Err f)
                  end
              | None => (c, Err Failure_OutcomeUnconfirmed)
              end
          end
      end
  end.

(** [settle_journal]: the sequence it settled and what became of it, where
    [None] is a refused edit. *)
Definition settle_journal (polls : nat) (c : Client)
    : Client * result (option (N * Resolved)) Failure :=
  match jr_pending (cj_record (cl_journal c)) with
  | Some pending =>
      match resolve polls (co_sequence pending) c with
      | (c, Ok r) =>
          let r := match r with
                   | Resolved_Outcome o =>
                       if bool_decide (ro_outcome o = Pending) then Resolved_Unknown else r
                   | _ => r
                   end in
          (c, Ok (Some (co_sequence pending, r)))
      | (c, Err f) => (c, Err f)
      end
  | None =>
      match jr_last (cj_record (cl_journal c)) with
      | None => (c, Ok None)
      | Some last =>
          match acknowledge polls (ro_sequence last) c with
          | (c, Err f) => (c, Err f)
          | (c, Ok _) => (c, Ok (Some (ro_sequence last, Resolved_Outcome last)))
          end
      end
  end.

(** [finish] of the desktop's edit loop: the pending operation is dispatched
    (again) under its original identity. *)
Definition desktop_finish (c : Client) : Client * result (option RetainedOutcome) CoreError :=
  match jr_pending (cj_record (cl_journal c)) with
  | None => (c, Ok (jr_last (cj_record (cl_journal c))))
  | Some pending =>
      let '(c, reply) := ask (Request_Mutate (co_sequence pending) (co_mutation pending)) c in
      match reply with
      | Some (Ok (Reply_Outcome o)) =>
          if negb (answers pending o) then (c, Err Error_Protocol)
          else match on_journal (λ w, retire w o) c with
          | (c, Err e) => (c, Err e)
          | (c, Ok _) =>
              let '(l, sent) := link_acknowledge (co_sequence pending) (cl_link c) in
              let c := set_link l c in
              if sent then (c, Ok (Some o)) else (c, Err (link_error l))
          end
      | Some (Ok Reply_Other) => (c, Err Error_Protocol)
      | Some (Err refusal) => (c, Err (core_error_of_refusal refusal))
      | None => (c, Err (link_error (cl_link c)))
      end
  end.

End edit.

(** ** What carrying out an edit promises

    Over a link that records what was asked, answered and acknowledged, and that
    answers anything: a client forgets an edit it sent only with an outcome that
    answers it or on the server's word that there is none, and it acknowledges
    only what its journal has retired on disk. *)
(** ** A recording link *)

Inductive Event :=
  | Asked (r : Request) (reply : option (result Reply Refusal))
  | Acked (sequence : N).

(** The answers to come and what happened so far. *)
Record Tape := {
  tp_replies : list (option (result Reply Refusal));
  tp_sends : list bool;
  tp_log : list Event
}.

Definition tape_request (r : Request) (t : Tape) : Tape * option (result Reply Refusal) :=
  let reply := match tp_replies t with [] => None | reply :: _ => reply end in
  ({| tp_replies := tail (tp_replies t); tp_sends := tp_sends t; tp_log := tp_log t ++ [Asked r reply] |},
   reply).
Definition tape_acknowledge (sequence : N) (t : Tape) : Tape * bool :=
  let sent := match tp_sends t with [] => false | sent :: _ => sent end in
  ({| tp_replies := tp_replies t; tp_sends := tail (tp_sends t);
      tp_log := tp_log t ++ if sent then [Acked sequence] else [] |}, sent).
Definition tape_error (t : Tape) : CoreError := Error_Protocol.

Abbreviation TapeClient := (Client (L := Tape)) (only parsing).

Definition log (c : TapeClient) : list Event := tp_log (cl_link c).

(** The server said that it holds no outcome of [q]. *)
Definition missing (q : N) (l : list Event) : Prop :=
  Asked (Request_Resolve q) (Some (Err Refusal_Missing)) ∈ l.

Definition acked (l : list Event) : list N :=
  omap (λ e, match e with Acked q => Some q | _ => None end) l.

Section client.
Context (core client : Id).
Implicit Types (c : TapeClient) (k : ClientJournal).

(** What a client that opens the journal again finds. *)
Definition reopens c k : Prop := open_locked (cj_directory (cl_journal c)) None core client = Ok k.

Lemma on_journal_spec op c c' r :
  Synced core client (cl_journal c) → on_journal (run_op op) c = (c', r) →
  cl_link c' = cl_link c ∧
  (∃ k, reopens c' k ∧ (cj_record k = cj_record (cl_journal c) ∨
     op_record op (cj_record (cl_journal c)) = Ok (cj_record k))) ∧
  (r = Ok tt → Synced core client (cl_journal c') ∧
     op_record op (cj_record (cl_journal c)) = Ok (cj_record (cl_journal c'))).
Proof.
  intros HS. unfold on_journal.
  set (w := match cl_writes c with [] => Written | w :: _ => w end).
  destruct (run_op op w (cl_journal c)) as [j res] eqn:Er. intros [= <- <-]. split; [done|].
  pose proof (op_atomic core client op w (cl_journal c) j res HS Er) as Ha. unfold reopens. simpl.
  destruct (op_record op (cj_record (cl_journal c))) as [x|e].
  - destruct Ha as [Hok (k & Hk & Hx)]. split.
    + exists k. split; [done|]. destruct Hx as [->| ->]; auto.
    + intros ->. destruct (Hok eq_refl) as [<- ?]. done.
  - destruct Ha as [-> ->]. split; [|done]. exists (cl_journal c). split; [exact HS|by left].
Qed.

Lemma ask_log r c c' reply :
  ask tape_request r c = (c', reply) →
  log c' = log c ++ [Asked r reply] ∧ cl_journal c' = cl_journal c ∧ cl_writes c' = cl_writes c.
Proof. unfold ask, log. simpl. by intros [= <- <-]. Qed.

Lemma acked_app l1 l2 : acked (l1 ++ l2) = acked l1 ++ acked l2.
Proof. apply omap_app. Qed.

(** How a step of the client may end: the log grows, the acknowledgements by
    [new], and the journal found again satisfies [P]. *)
Definition ends c c' (new : list N) (P : JournalRecord → list Event → Prop) : Prop :=
  (∃ l, log c' = log c ++ l ∧ acked l = new) ∧ ∃ k, reopens c' k ∧ P (cj_record k) (log c').

(** After a question nothing else happens. *)
Lemma ask_ends r c c1 reply (P : JournalRecord → list Event → Prop) :
  Synced core client (cl_journal c) → ask tape_request r c = (c1, reply) →
  P (cj_record (cl_journal c)) (log c1) → ends c c1 [] P.
Proof.
  intros HS (Hlog & Hj & _)%ask_log HP. split; [eexists; split; [exact Hlog|done]|].
  exists (cl_journal c1). rw Hj. split; [unfold reopens; by rw Hj|done].
Qed.

(** After a question, a journal operation. *)
Lemma ask_journal_ends r c c1 reply op c2 res (P : JournalRecord → list Event → Prop) :
  Synced core client (cl_journal c) → ask tape_request r c = (c1, reply) →
  on_journal (run_op op) c1 = (c2, res) →
  (∀ j, j = cj_record (cl_journal c) ∨ op_record op (cj_record (cl_journal c)) = Ok j →
     P j (log c1)) → ends c c2 [] P.
Proof.
  intros HS Ha Hj HP. destruct (ask_log _ _ _ _ Ha) as (Hlog & Hcj & _). rw -Hcj in HS HP.
  destruct (on_journal_spec op c1 c2 res HS Hj) as (Hlink & (k & Hk & Hrec) & _).
  assert (log c2 = log c1) as Hl2 by (unfold log; by rw Hlink).
  split; [eexists; rw Hl2 Hlog; split; [done|done]|]. exists k. rw Hl2. auto.
Qed.

Lemma ask_then_ends r c c1 reply c2 new P :
  ask tape_request r c = (c1, reply) → ends c1 c2 new P → ends c c2 new P.
Proof.
  intros (Hlog & _)%ask_log [(l & Hl & Hn) Hk]. split; [|done].
  exists ([Asked r reply] ++ l). rw Hl Hlog -app_assoc. done.
Qed.

Lemma ends_impl c c' new (P Q : JournalRecord → list Event → Prop) :
  ends c c' new P → (∀ j l, P j l → Q j l) → ends c c' new Q.
Proof. intros [Hl (k & Hk & HP)] HPQ. split; [done|]. exists k. auto. Qed.

(** The pending operation stays, and the last outcome too unless the server
    confirmed that it forgot it. *)
Definition confirmed (q : N) (j0 j : JournalRecord) (l : list Event) : Prop :=
  jr_pending j = jr_pending j0 ∧ (jr_last j = jr_last j0 ∨ missing q l).

Lemma settled_record q j j' :
  op_record (Op_settled q) j = Ok j' → jr_pending j' = jr_pending j.
Proof.
  simpl. destruct (jr_last j); [|by intros [= <-]]. case_bool; by intros [= <-].
Qed.

(** One question of the confirmation, and what follows [Missing]. *)
Lemma confirm_turn q c c1 reply :
  Synced core client (cl_journal c) → ask tape_request (Request_Resolve q) c = (c1, reply) →
  ends c c1 [] (confirmed q (cj_record (cl_journal c))) ∧
  (reply = Some (Err Refusal_Missing) → ∀ c2 r, on_journal (run_op (Op_settled q)) c1 = (c2, r) →
   ends c c2 [] (confirmed q (cj_record (cl_journal c)))).
Proof.
  intros HS Ea. split; [eapply ask_ends; [done|done|split; auto]|].
  intros -> c2 r Ej. eapply ask_journal_ends; [done|done|done|]. intros j Hrec. split.
  - destruct Hrec as [->|Hrec]; [done|]. by eapply settled_record.
  - right. destruct (ask_log _ _ _ _ Ea) as (-> & _ & _). apply elem_of_app. right. by left.
Qed.

Lemma confirm_ends polls q c c' r :
  Synced core client (cl_journal c) → confirm tape_request polls q c = (c', r) →
  ends c c' [] (confirmed q (cj_record (cl_journal c))).
Proof.
  revert c. induction polls as [|polls IH]; intros c HS; cbn [confirm];
    destruct (ask tape_request (Request_Resolve q) c) as [c1 reply] eqn:Ea;
    destruct (confirm_turn q c c1 reply HS Ea) as [Hstop Hmiss];
    destruct reply as [[[o|]|[]]|]; try (intros [= <- _]; done);
    try (destruct (on_journal _ c1) as [c2 r2] eqn:Ej; intros [= <- _]; by apply (Hmiss eq_refl c2 r2)).
  intros Hc. destruct (ask_log _ _ _ _ Ea) as (_ & Hj & _). rw -Hj in HS |- *.
  eapply ask_then_ends; [exact Ea|]. by apply IH in Hc.
Qed.

Lemma acknowledge_ends polls q c c' r :
  Synced core client (cl_journal c) →
  acknowledge tape_request tape_acknowledge polls q c = (c', r) →
  ends c c' [] (confirmed q (cj_record (cl_journal c))) ∨
  ends c c' [q] (confirmed q (cj_record (cl_journal c))).
Proof.
  intros HS. unfold acknowledge. simpl.
  set (sent := match tp_sends (cl_link c) with [] => false | sent :: _ => sent end).
  set (c1 := set_link _ c). destruct sent eqn:Es.
  - intros Hc. right. destruct (confirm_ends polls q c1 c' r HS Hc) as [(l & Hl & Hn) Hk].
    split; [|done]. exists ([Acked q] ++ l). rw Hl. unfold log at 1. simpl. rw -app_assoc.
    split; [done|]. change (q :: acked l = [q]). by rw Hn.
  - intros [= <- _]. left. split.
    + exists []. unfold log. simpl. by rw !app_nil_r.
    + exists (cl_journal c). split; [exact HS|]. split; auto.
Qed.

(** What became of the edit [op]: still pending, retired with an outcome that
    answers it, or the server holds no outcome of it. *)
Definition accounted (op : ClientOperation) (j : JournalRecord) (l : list Event) : Prop :=
  jr_pending j = Some op ∨
  (jr_pending j = None ∧
   ((∃ o, jr_last j = Some o ∧ answers op o = true) ∨ missing (co_sequence op) l)).

Lemma retire_ends polls op o c c' r :
  Synced core client (cl_journal c) → jr_pending (cj_record (cl_journal c)) = Some op →
  answers op o = true →
  match on_journal (λ w, retire w o) c with
  | (c, Err e) => (c, Err (Failure_Core e))
  | (c, Ok _) =>
      match acknowledge tape_request tape_acknowledge polls (ro_sequence o) c with
      | (c, Err f) => (c, Err f)
      | (c, Ok _) => (c, Ok o)
      end
  end = (c', r) →
  ends c c' [] (accounted op) ∨
  ends c c' [ro_sequence o] (λ j l, accounted op j l ∧ jr_pending j = None).
Proof.
  intros HS Hp Ha. destruct (on_journal (λ w, retire w o) c) as [c1 res] eqn:Ej.
  destruct (on_journal_spec (Op_retire o) c c1 res HS Ej) as (Hlink & (k & Hk & Hrec) & Hok).
  simpl in Hrec, Hok. rw Hp Ha in Hrec Hok.
  assert (log c1 = log c) as Hl by (unfold log; by rw Hlink).
  destruct res as [[]|e].
  - destruct (Hok eq_refl) as [HS1 [= Hrec1]].
    assert (ro_sequence o = co_sequence op) as Hs.
    { unfold answers in Ha. apply andb_true_iff in Ha as [Hs%bool_decide_eq_true _]. done. }
    assert (∀ j l, confirmed (ro_sequence o) (cj_record (cl_journal c1)) j l →
              accounted op j l ∧ jr_pending j = None) as Hacc.
    { intros j l [Hjp Hjl]. rw -Hrec1 /= in Hjp Hjl. split; [right|done]. split; [done|].
      rw Hs in Hjl. destruct Hjl as [Hjl|?]; [left|by right]. eauto. }
    destruct (acknowledge tape_request tape_acknowledge polls (ro_sequence o) c1) as [c2 r2] eqn:Eack.
    intros Hr. assert (c' = c2) as -> by (destruct r2; by injection Hr as <- _).
    destruct (acknowledge_ends polls _ c1 c2 r2 HS1 Eack) as [He|He]; [left|right];
      destruct He as [(l & Hlog & Hn) (k2 & Hk2 & HP)]; rw Hl in Hlog;
      (split; [by exists l|]); exists k2; (split; [done|]); by apply Hacc.
  - intros [= <- _]. left. split; [exists []; by rw app_nil_r|]. exists k. split; [done|].
    destruct Hrec as [->|[= Hrec]]; [by left|]. right. rw -Hrec. simpl. split; [done|]. left. eauto.
Qed.

Lemma finish_ends polls op o c c' r :
  Synced core client (cl_journal c) → jr_pending (cj_record (cl_journal c)) = Some op →
  finish tape_request tape_acknowledge polls o c = (c', r) →
  ends c c' [] (accounted op) ∨
  ends c c' [ro_sequence o] (λ j l, accounted op j l ∧ jr_pending j = None).
Proof.
  intros HS Hp. unfold finish. rw Hp.
  assert (ends c c [] (accounted op)) as Hsame.
  { split; [exists []; by rw app_nil_r|]. exists (cl_journal c). split; [exact HS|by left]. }
  destruct (answers op o) eqn:Ea; cbn [negb]; [|by intros [= <- _]; left].
  destruct (bool_decide _); [by intros [= <- _]; left|]. by apply retire_ends.
Qed.

Lemma resolve_ends polls op c c' r :
  Synced core client (cl_journal c) → jr_pending (cj_record (cl_journal c)) = Some op →
  resolve tape_request tape_acknowledge polls (co_sequence op) c = (c', r) →
  ends c c' [] (accounted op) ∨
  ∃ q, ends c c' [q] (λ j l, accounted op j l ∧ jr_pending j = None).
Proof.
  intros HS Hp. unfold resolve.
  destruct (ask tape_request (Request_Resolve (co_sequence op)) c) as [c1 reply] eqn:Ea.
  destruct (ask_log _ _ _ _ Ea) as (Hlog & Hj & _).
  assert (ends c c1 [] (accounted op)) as Hstop by (eapply ask_ends; [done|done|by left]).
  destruct reply as [[[o|]|e]|]; try (by intros [= <- _]; left).
  - intros Hr. destruct (finish tape_request tape_acknowledge polls o c1) as [c2 r2] eqn:Ef.
    assert (c' = c2) as -> by (destruct r2; by injection Hr as <- _).
    destruct (finish_ends polls op o c1 c2 r2) as [He|He]; [by rw Hj|by rw Hj|done|left|right].
    + by eapply ask_then_ends.
    + exists (ro_sequence o). by eapply ask_then_ends.
  - destruct e; try (by intros [= <- _]; left).
    destruct (on_journal abandon c1) as [c2 r2] eqn:Ej. intros Hr.
    assert (c' = c2) as -> by (destruct r2; by injection Hr as <- _). left.
    eapply (ask_journal_ends _ _ _ _ Op_abandon); [done|exact Ea|exact Ej|].
    intros j [->|[= <-]]; [by left|right]. split; [done|right]. rw Hlog. apply elem_of_app. right. by left.
Qed.

Lemma finish_answers polls o c c' o' op :
  jr_pending (cj_record (cl_journal c)) = Some op →
  finish tape_request tape_acknowledge polls o c = (c', Ok o') → answers op o' = true.
Proof.
  intros Hp. unfold finish. rw Hp. destruct (answers op o) eqn:Ea; cbn [negb]; [|done].
  destruct (bool_decide _); [by intros [= _ <-]|]. destruct (on_journal _ _) as [c1 [[]|]]; [|done].
  destruct (acknowledge _ _ _ _ _) as [c2 [[]|]]; [|done]. by intros [= _ <-].
Qed.

Lemma resolve_answers polls q c c' o op :
  jr_pending (cj_record (cl_journal c)) = Some op →
  resolve tape_request tape_acknowledge polls q c = (c', Ok (Resolved_Outcome o)) → answers op o = true.
Proof.
  intros Hp. unfold resolve. destruct (ask _ _ c) as [c1 reply] eqn:Ea.
  destruct (ask_log _ _ _ _ Ea) as (_ & Hj & _). destruct reply as [[[x|]|e]|]; try done.
  - destruct (finish _ _ _ _ _) as [c2 [o2|]] eqn:Ef; [|done]. intros [= _ <-].
    apply (finish_answers polls x c1 c2 o2 op); [by rw Hj|exact Ef].
  - destruct e; try done. by destruct (on_journal _ _) as [c2 [[]|]].
Qed.

(** A command's edit: either nothing was sent, or the edit it sent is accounted
    for whatever the link and the disk did. It is still pending on disk, or
    retired with an outcome that answers it, or the server said that it holds no
    outcome of it. A successful command reports an outcome that answers its
    edit, and an acknowledgement goes out only once nothing is pending on disk. *)
Theorem dispatch_accounts polls advertised interrupted m c c' r :
  Synced core client (cl_journal c) → jr_pending (cj_record (cl_journal c)) = None →
  dispatch tape_request tape_acknowledge polls advertised interrupted m c = (c', r) →
  (log c' = log c ∧ ∃ f, r = Err f) ∨
  ∃ q reply l k, advertised = Ok q ∧ log c' = log c ++ Asked (Request_Mutate q m) reply :: l ∧
    reopens c' k ∧
    accounted {| co_sequence := q; co_mutation := m |} (cj_record k) (log c') ∧
    (∀ o, r = Ok o → answers {| co_sequence := q; co_mutation := m |} o = true) ∧
    (acked l ≠ [] → jr_pending (cj_record k) = None).
Proof.
  intros HS Hp. unfold dispatch. rw Hp. destruct advertised as [q|e]; [|intros [= <- <-]; eauto].
  destruct interrupted; [intros [= <- <-]; eauto|].
  set (op := {| co_sequence := q; co_mutation := m |}).
  destruct (on_journal (λ w, submit w q m) c) as [c1 res] eqn:Ej.
  destruct (on_journal_spec (Op_submit q m) c c1 res HS Ej) as (Hlink & _ & Hok).
  simpl in Hok. rw Hp in Hok. assert (log c1 = log c) as Hl by (unfold log; by rw Hlink).
  destruct res as [[]|e]; [|intros [= <- <-]; eauto].
  destruct (Hok eq_refl) as [HS1 [= Hrec]]. clear Hok.
  assert (jr_pending (cj_record (cl_journal c1)) = Some op) as Hp1 by by rw -Hrec.
  destruct (ask tape_request (Request_Mutate q m) c1) as [c2 reply] eqn:Ea.
  destruct (ask_log _ _ _ _ Ea) as (Hlog & Hj & _). intros Hr. right.
  assert (Synced core client (cl_journal c2)) as HS2 by by rw Hj.
  assert (jr_pending (cj_record (cl_journal c2)) = Some op) as Hp2 by by rw Hj.
  (* What follows the question ends accounted for. *)
  assert ((∃ new, ends c2 c' new (λ j l, accounted op j l ∧ (new ≠ [] → jr_pending j = None))) ∧
          ∀ o, r = Ok o → answers op o = true) as [(new & (l & Hl2 & Hn) & k & Hk & Hacc & Hnone) Hans].
  2: { exists q, reply, l, k. split; [done|]. split; [by rw Hl2 Hlog Hl -app_assoc|].
       split; [done|]. split; [done|]. split; [done|]. rw Hn. done. }
  assert (ends c2 c2 [] (λ j l, accounted op j l ∧ (@nil N ≠ [] → jr_pending j = None))) as Hstop.
  { split; [exists []; by rw app_nil_r|]. exists (cl_journal c2). split; [exact HS2|]. by split; [left|]. }
  assert (∀ x, ends c2 x [] (accounted op) ∨
     (∃ n, ends c2 x [n] (λ j l, accounted op j l ∧ jr_pending j = None)) →
     ∃ new, ends c2 x new (λ j l, accounted op j l ∧ (new ≠ [] → jr_pending j = None))) as Hjoin.
  { intros x [He|[n He]]; [exists []|exists [n]]; (eapply ends_impl; [exact He|]); naive_solver. }
  destruct reply as [[[o|]|refusal]|].
  - split; [apply Hjoin|intros o' ->; by eapply finish_answers].
    destruct (finish_ends polls op o c2 c' r HS2 Hp2 Hr) as [He|He];
      [by left|right; by exists (ro_sequence o)].
  - injection Hr as <- <-. split; [by exists []|done].
  - destruct (resolve tape_request tape_acknowledge polls q c2) as [c3 res] eqn:Er.
    assert (c' = c3) as -> by (destruct res as [[]|]; by injection Hr as <- _).
    split; [apply Hjoin, (resolve_ends polls op c2 c3 res HS2 Hp2 Er)|].
    intros o ->. destruct res as [[o2| |]|]; try done. injection Hr as <-. by eapply resolve_answers.
  - injection Hr as <- <-. split; [by exists []|done].
Qed.

(** Settling a pending edit of an earlier command accounts for it in the same
    way, and dispatches nothing again. *)
Theorem settle_accounts polls op c c' r :
  Synced core client (cl_journal c) → jr_pending (cj_record (cl_journal c)) = Some op →
  settle_journal tape_request tape_acknowledge polls c = (c', r) →
  ∃ l k, log c' = log c ++ l ∧ reopens c' k ∧ accounted op (cj_record k) (log c') ∧
    (acked l ≠ [] → jr_pending (cj_record k) = None).
Proof.
  intros HS Hp. unfold settle_journal. rw Hp.
  destruct (resolve tape_request tape_acknowledge polls (co_sequence op) c) as [c1 res] eqn:Er.
  intros Hr. assert (c' = c1) as -> by (destruct res; by injection Hr as <- _).
  destruct (resolve_ends polls op c c1 res HS Hp Er)
    as [[(l & Hl & Hn) (k & Hk & HP)]|[q [(l & Hl & Hn) (k & Hk & HP & Hnone)]]];
    exists l, k; rw Hn; naive_solver.
Qed.

(** One round of the desktop's edit loop accounts for the pending edit, asks for
    nothing but that edit, and acknowledges it only once it is retired on disk. *)
Theorem desktop_accounts op c c' r :
  Synced core client (cl_journal c) → jr_pending (cj_record (cl_journal c)) = Some op →
  desktop_finish tape_request tape_acknowledge tape_error c = (c', r) →
  ∃ reply l k,
    log c' = log c ++ Asked (Request_Mutate (co_sequence op) (co_mutation op)) reply :: l ∧
    (l = [] ∨ l = [Acked (co_sequence op)]) ∧ reopens c' k ∧
    (jr_pending (cj_record k) = Some op ∨
     jr_pending (cj_record k) = None ∧
       ∃ o, jr_last (cj_record k) = Some o ∧ answers op o = true ∧ reply = Some (Ok (Reply_Outcome o))) ∧
    (l ≠ [] → jr_pending (cj_record k) = None) ∧
    (∀ o, r = Ok o → ∃ x, o = Some x ∧ answers op x = true).
Proof.
  intros HS Hp. unfold desktop_finish. rw Hp.
  destruct (ask tape_request (Request_Mutate (co_sequence op) (co_mutation op)) c) as [c1 reply] eqn:Ea.
  destruct (ask_log _ _ _ _ Ea) as (Hlog & Hj & _).
  assert (Synced core client (cl_journal c1)) as HS1 by by rw Hj.
  assert (jr_pending (cj_record (cl_journal c1)) = Some op) as Hp1 by by rw Hj.
  assert (∀ e, (c1, Err e) = (c', r) → ∃ reply0 l k,
    log c' = log c ++ Asked (Request_Mutate (co_sequence op) (co_mutation op)) reply0 :: l ∧
    (l = [] ∨ l = [Acked (co_sequence op)]) ∧ reopens c' k ∧
    (jr_pending (cj_record k) = Some op ∨
     jr_pending (cj_record k) = None ∧
       ∃ o, jr_last (cj_record k) = Some o ∧ answers op o = true ∧ reply0 = Some (Ok (Reply_Outcome o))) ∧
    (l ≠ [] → jr_pending (cj_record k) = None) ∧
    (∀ o, r = Ok o → ∃ x, o = Some x ∧ answers op x = true)) as Hstop.
  { intros e [= <- <-]. exists reply, [], (cl_journal c1). naive_solver. }
  destruct reply as [[[o|]|refusal]|]; [|by apply Hstop..].
  destruct (answers op o) eqn:Eans; cbn [negb]; [|by apply Hstop].
  destruct (on_journal (λ w, retire w o) c1) as [c2 res] eqn:Er.
  destruct (on_journal_spec (Op_retire o) c1 c2 res HS1 Er) as (Hlink & (k & Hk & Hrec) & Hok).
  simpl in Hrec, Hok. rw Hp1 Eans in Hrec Hok.
  assert (log c2 = log c1) as Hl by (unfold log; by rw Hlink).
  destruct res as [[]|e].
  - destruct (Hok eq_refl) as [HS2 [= Hrec2]]. simpl.
    set (sent := match tp_sends (cl_link c2) with [] => false | sent :: _ => sent end).
    set (c3 := set_link _ c2). intros Hr. eexists _, (if sent then [Acked (co_sequence op)] else []), (cl_journal c2).
    assert (c' = c3) as -> by (destruct sent; by injection Hr as <- _).
    split; [|split; [by destruct sent; auto|split; [exact HS2|]]].
    { unfold log, c3. simpl. fold (log c2). by rw Hl Hlog -app_assoc. }
    rw -Hrec2. simpl. split; [right; split; [done|]; by exists o|]. split; [done|].
    intros x ->. destruct sent; [|done]. injection Hr as <-. eauto.
  - intros [= <- <-]. exists (Some (Ok (Reply_Outcome o))), [], k. rw Hl.
    split; [done|]. split; [by left|]. split; [done|]. split; [|done].
    destruct Hrec as [->|[= Hrec]]; [by left|]. right. rw -Hrec. simpl. split; [done|]. by exists o.
Qed.
End client.

(** ** Runs *)

Definition demo_fresh : ClientJournal := {| cj_directory := None; cj_record := fresh_record 1 2 |}.
Definition demo_tape (replies : list (option (result Reply Refusal))) : Tape :=
  {| tp_replies := replies; tp_sends := [true]; tp_log := [] |}.

(** The edit is answered, retired and acknowledged; the server confirms. *)
Definition demo_dispatch : TapeClient * result RetainedOutcome Failure :=
  dispatch tape_request tape_acknowledge 3 (Ok 4%N) false demo_edit
    {| cl_link := demo_tape [Some (Ok (Reply_Outcome demo_answer)); Some (Err Refusal_Missing)];
       cl_writes := []; cl_journal := demo_fresh |}.

Lemma dispatch_accounts_witness :
  ∃ k, reopens 1 2 demo_dispatch.1 k ∧
    accounted {| co_sequence := 4; co_mutation := demo_edit |} (cj_record k) (log demo_dispatch.1).
Proof.
  destruct (dispatch_accounts 1 2 3 (Ok 4%N) false demo_edit
    {| cl_link := demo_tape [Some (Ok (Reply_Outcome demo_answer)); Some (Err Refusal_Missing)];
       cl_writes := []; cl_journal := demo_fresh |} demo_dispatch.1 demo_dispatch.2)
    as [[H _]|(q & reply & l & k & [= <-] & _ & Hk & Ha & _)];
    [reflexivity | reflexivity | apply surjective_pairing | vm_compute in H; discriminate H | ].
  exists k. split; [exact Hk|exact Ha].
Defined.

(** The reply was lost; the next command finds no outcome, but its write fails. *)
Definition demo_settle : TapeClient * result (option (N * Resolved)) Failure :=
  settle_journal tape_request tape_acknowledge 3
    {| cl_link := demo_tape [Some (Err Refusal_Missing)];
       cl_writes := [WriteFailed false Error_StorageUnavailable None]; cl_journal := demo_open |}.

Lemma settle_accounts_witness :
  ∃ k, reopens 1 2 demo_settle.1 k ∧
    accounted {| co_sequence := 4; co_mutation := demo_edit |} (cj_record k) (log demo_settle.1).
Proof.
  destruct (settle_accounts 1 2 3 {| co_sequence := 4; co_mutation := demo_edit |}
    {| cl_link := demo_tape [Some (Err Refusal_Missing)];
       cl_writes := [WriteFailed false Error_StorageUnavailable None]; cl_journal := demo_open |}
    demo_settle.1 demo_settle.2) as (l & k & _ & Hk & Ha & _);
    [reflexivity | reflexivity | apply surjective_pairing | ].
  exists k. split; [exact Hk|exact Ha].
Defined.

(** The desktop dispatches the pending edit again and acknowledges it. *)
Definition demo_again : TapeClient * result (option RetainedOutcome) CoreError :=
  desktop_finish tape_request tape_acknowledge tape_error
    {| cl_link := demo_tape [Some (Ok (Reply_Outcome demo_answer))]; cl_writes := [];
       cl_journal := demo_open |}.

Lemma desktop_accounts_witness : ∃ k, reopens 1 2 demo_again.1 k ∧ jr_pending (cj_record k) = None.
Proof.
  destruct (desktop_accounts 1 2 {| co_sequence := 4; co_mutation := demo_edit |}
    {| cl_link := demo_tape [Some (Ok (Reply_Outcome demo_answer))]; cl_writes := [];
       cl_journal := demo_open |} demo_again.1 demo_again.2)
    as (reply & l & k & Hl & _ & Hk & _ & Hnone & _);
    [reflexivity | reflexivity | apply surjective_pairing | ].
  exists k. split; [exact Hk|]. apply Hnone. intros ->. vm_compute in Hl. discriminate Hl.
Defined.
