(* ===== verification/NamesProofs.v ===== *)
(** * Automatic Workspace names: proofs

    The allocation loop ends, its result is free, bounded and printable; after
    [recalculate] no Workspace with an automatic name shares its name with
    another, and a second run changes nothing. *)
From S2P Require Import Prelude.
From S2P Require Import Text.
From S2P Require Import Facts.
From S2P Require Import HierarchyTypes.
From S2P Require Import HierarchyWorkspace.

(** ** Allocation *)

(** The [k]-th name the loop tries. *)
Definition candidate (base : ustring) (k : nat) : ustring :=
  match k with 0 => base | S _ => numbered base (N.of_nat k + 1) end.

Lemma numbered_inj base m n : numbered base m = numbered base n → m = n.
Proof.
  unfold numbered. intros H%app_inv_head. simpl in H. injection H as H.
  apply app_inv_tail in H. by apply display_N_inj.
Qed.

Lemma numbered_ne base n : numbered base n ≠ base.
Proof.
  unfold numbered. intros H. apply (f_equal length) in H. rw length_app in H. simpl in H. lia.
Qed.

Lemma candidate_inj base i j : candidate base i = candidate base j → i = j.
Proof.
  destruct i, j; simpl; intros H; try done.
  - by apply symmetry, numbered_ne in H.
  - by apply numbered_ne in H.
  - apply numbered_inj in H. lia.
Qed.

Lemma NoDup_candidates base n : NoDup (candidate base <$> seq 0 n).
Proof. apply NoDup_fmap_2; [intros i j; apply candidate_inj | apply NoDup_seq]. Qed.

(** No more candidates than names in the way can be taken. *)
Lemma candidate_free (occupied : gset (list N)) base n :
  size occupied < n → ∃ k, k < n ∧ candidate base k ∉ occupied.
Proof.
  intros Hn. destruct (decide (Forall (λ k, candidate base k ∈ occupied) (seq 0 n))) as [H|H].
  - exfalso. assert (size (list_to_set (candidate base <$> seq 0 n) : gset (list N))
                     ≤ size occupied) as Hs.
    { apply subseteq_size. intros x. rw elem_of_list_to_set list_elem_of_fmap.
      intros (k & -> & Hk). rw Forall_forall in H. auto. }
    rw size_list_to_set in Hs; [apply NoDup_candidates|].
    rw length_fmap length_seq in Hs. lia.
  - apply not_Forall_Exists in H; [|apply _]. apply Exists_exists in H as (k & Hk & Hc).
    apply elem_of_seq in Hk. exists k. split; [lia | done].
Qed.

Lemma allocate_spec fuel occupied base k name :
  allocate fuel occupied base (candidate base k) (N.of_nat k + 2) = Some name →
  (name ∉ occupied) ∧ ∃ j, k ≤ j < k + fuel ∧ name = candidate base j.
Proof.
  revert k. induction fuel as [|fuel IH]; intros k; simpl; [done|].
  case_bool.
  - change (numbered base (N.of_nat k + 2)) with (numbered base (N.of_nat k + 2)).
    assert (numbered base (N.of_nat k + 2) = candidate base (S k)) as ->.
    { simpl. f_equal. lia. }
    replace (N.of_nat k + 2 + 1)%N with (N.of_nat (S k) + 2)%N by lia.
    intros (? & j & ? & ?)%IH. split; [done|]. exists j. split; [lia|done].
  - intros [= <-]. split; [done|]. exists k. split; [lia|done].
Qed.

Lemma allocate_total fuel occupied base k :
  (∃ j, k ≤ j < k + fuel ∧ candidate base j ∉ occupied) →
  is_Some (allocate fuel occupied base (candidate base k) (N.of_nat k + 2)).
Proof.
  revert k. induction fuel as [|fuel IH]; intros k (j & Hj & Hc); [lia|]. simpl.
  case_bool; [|done].
  assert (numbered base (N.of_nat k + 2) = candidate base (S k)) as ->.
  { simpl. f_equal. lia. }
  replace (N.of_nat k + 2 + 1)%N with (N.of_nat (S k) + 2)%N by lia.
  apply IH. exists j. split; [|done].
  destruct (decide (j = k)) as [->|]; [done|lia].
Qed.

Lemma allocate_name_total occupied base : is_Some (allocate_name occupied base).
Proof.
  destruct (candidate_free occupied base (S (size occupied))) as (k & Hk & Hc); [lia|].
  apply (allocate_total _ _ _ 0). exists k. split; [lia|done].
Qed.

Lemma allocate_name_spec occupied base name :
  allocate_name occupied base = Some name →
  (name ∉ occupied) ∧ ∃ j, j ≤ size occupied ∧ name = candidate base j.
Proof.
  intros H. apply (allocate_spec _ _ _ 0) in H as (? & j & ? & ?).
  split; [done|]. exists j. split; [lia|done].
Qed.

(** ** Bases and names are printable and bounded *)

Lemma trim_start_empty s : trim_start s = [] ↔ forallb is_whitespace s = true.
Proof.
  induction s as [|c s IH]; simpl; [done|]. destruct (is_whitespace c); simpl; [done|].
  split; done.
Qed.

Lemma trim_empty s : is_empty (trim s) = forallb is_whitespace s.
Proof.
  unfold trim, trim_end. apply eq_true_iff_eq.
  destruct (trim_start_suffix s) as [pre Hpre].
  assert (is_empty (rev (trim_start (rev (trim_start s)))) = true
          ↔ trim_start (rev (trim_start s)) = []) as ->.
  { destruct (trim_start (rev _)) eqn:E; [done|]. split; [|done]. simpl.
    destruct (rev l ++ [n]) eqn:E'; [|done]. by apply app_nil in E' as [_ ?]. }
  rw trim_start_empty. rw !forallb_forall. setoid_rewrite <- in_rev.
  split.
  - intros H c Hc. destruct (is_whitespace c) eqn:E; [done|]. rw -E. apply H. clear H.
    clear Hpre pre. induction s as [|d s IH]; [done|]. simpl.
    destruct (is_whitespace d) eqn:Ed; [|done].
    destruct Hc as [->|Hc]; [congruence | auto].
  - intros H c Hc. apply H. rw Hpre. apply in_app_iff. auto.
Qed.

(** What every base of an automatic name satisfies. *)
Definition base_ok (base : ustring) : Prop :=
  is_empty (trim base) = false ∧ str_len base ≤ 251 ∧ vany is_control base = false.

Lemma automatic_base_ok home w : base_ok (automatic_base home w).
Proof.
  unfold automatic_base. set (b := match naming_directory w with Some _ => _ | None => _ end).
  set (c := pop_to 251 _). destruct (is_empty (trim c)) eqn:E; [by repeat split; vm_compute; lia|].
  split; [done|]. split; [apply pop_to_le|]. apply existsb_pop_to.
  apply (proj2 (vany_false _ _)). intros x. rw elem_of_vfilter. intros [H _].
  by apply negb_true_iff in H.
Qed.

Lemma display_small n : (n ≤ 99)%N → str_len (display_N n) ≤ 2 ∧ vany is_control (display_N n) = false.
Proof.
  assert (forallb (λ k, (str_len (display_N (N.of_nat k)) <=? 2)
                        && negb (vany is_control (display_N (N.of_nat k)))) (seq 0 100) = true)
    as H by (vm_compute; reflexivity).
  intros Hn. rw forallb_forall in H. specialize (H (N.to_nat n)).
  rw N2Nat.id in H. rw in_seq in H. specialize (H ltac:(lia)). split_orb.
  split; [by apply Nat.leb_le | done].
Qed.

Lemma valid_name_true name :
  valid_name name = true ↔
  is_empty (trim name) = false ∧ str_len name ≤ 256 ∧ vany is_control name = false.
Proof.
  unfold valid_name. rw !andb_true_iff !negb_true_iff Nat.leb_le. tauto.
Qed.

Lemma candidate_valid base k : base_ok base → k ≤ 98 → valid_name (candidate base k) = true.
Proof.
  intros (Ht & Hl & Hc) Hk. apply valid_name_true. destruct k as [|k]; [simpl; repeat split; auto; lia|].
  unfold candidate, numbered. set (n := (N.of_nat (S k) + 1)%N).
  destruct (display_small n) as [Hd Hdc]; [unfold n; lia|].
  repeat split.
  - rw trim_empty forallb_app. rw trim_empty in Ht. by rw Ht.
  - rw !str_len_app. change (str_len (lit " (")) with 2. change (str_len (lit ")")) with 1. lia.
  - unfold vany in *. rw !existsb_app Hc Hdc. done.
Qed.

(** ** Naming records *)

(** The custom name of a Workspace: [Some None] when its name is automatic. *)
Definition custom_of (names : list WorkspaceName) (id : Id) : option (option ustring) :=
  n_custom <$> vfind (names_entry id) names.

Lemma vfind_names_update id id' f names :
  (∀ n, n_workspace (f n) = n_workspace n) →
  vfind (names_entry id) (vupdate (names_entry id') f names) =
  if decide (id = id') then f <$> vfind (names_entry id) names
  else vfind (names_entry id) names.
Proof.
  intros Hf. unfold vfind, names_entry. induction names as [|n names IH]; simpl.
  { by destruct (decide (id = id')). }
  destruct (decide (id = id')) as [->|Hne].
  - case_bool; simpl.
    + rw Hf. by case_bool.
    + case_bool; [done|]. by rw IH.
  - case_bool; simpl.
    + rw Hf. case_bool; [congruence|]. done.
    + by case_bool.
Qed.

Lemma custom_of_set_base names id id' b :
  custom_of (vupdate (names_entry id') (set_n_automatic_base b) names) id = custom_of names id.
Proof.
  unfold custom_of. rw vfind_names_update //. destruct (decide (id = id')) as [->|]; [|done].
  by destruct (vfind _ names).
Qed.

(** A Workspace whose name, and nothing else, may differ. *)
Definition renamed (w w' : Workspace) : Prop :=
  w' = set_w_name (w_name w') (w_name_version w') w.

Lemma renamed_refl w : renamed w w.
Proof. by destruct w. Qed.
Lemma renamed_set n v w : renamed w (set_w_name n v w).
Proof. done. Qed.
Lemma renamed_trans w1 w2 w3 : renamed w1 w2 → renamed w2 w3 → renamed w1 w3.
Proof. unfold renamed. intros -> ->. done. Qed.
Lemma renamed_id w w' : renamed w w' → w_id w' = w_id w.
Proof. by intros ->. Qed.
Lemma renamed_base home w w' : renamed w w' → automatic_base home w' = automatic_base home w.
Proof. by intros ->. Qed.
#[export] Hint Resolve renamed_refl renamed_set : hier.

Definition automatic (names : list WorkspaceName) (w : Workspace) : Prop :=
  custom_of names (w_id w) = Some None.

Definition automatic_b (names : list WorkspaceName) (w : Workspace) : bool :=
  bool_decide (custom_of names (w_id w) = Some None).

(** What the reserving loop leaves of one Workspace that does not wait. *)
Definition reserved (home : option path) (names : list WorkspaceName) (occ occ' : gset (list N))
    (w w' : Workspace) : Prop :=
  match vfind (names_entry (w_id w)) names with
  | None => w' = w
  | Some n =>
      match n_custom n with
      | Some c => w_name w' = c
      | None => w' = w ∧ (w_name w ∉ occ) ∧ w_name w ∈ occ'
                ∧ n_automatic_base n = automatic_base home w
      end
  end.

Record ReserveSpec (home : option path) (names : list WorkspaceName) (k : nat)
    (ws : list Workspace) (occ : gset (list N)) (ws' : list Workspace) (occ' : gset (list N))
    (pend : list (nat * ustring)) : Prop := {
  rs_frame : Forall2 renamed ws ws';
  rs_grows : occ ⊆ occ';
  rs_size : size occ' + length pend ≤ size occ + length (vfilter (automatic_b names) ws);
  rs_pending : ∀ i b, (i, b) ∈ pend → k ≤ i ∧ ∃ w, ws !! (i - k) = Some w ∧
                 ws' !! (i - k) = Some w ∧ automatic names w ∧ b = automatic_base home w;
  rs_nodup : NoDup pend.*1;
  rs_settled : ∀ i w w', ws !! i = Some w → ws' !! i = Some w' → k + i ∉ pend.*1 →
                 reserved home names occ occ' w w';
  rs_distinct : ∀ i j w1 w2, i ≠ j → ws' !! i = Some w1 → ws' !! j = Some w2 →
                  k + i ∉ pend.*1 → k + j ∉ pend.*1 →
                  automatic names w1 → automatic names w2 → w_name w1 ≠ w_name w2
}.

Lemma reserved_weaken home names occ0 occ occ' w w' :
  occ0 ⊆ occ → reserved home names occ occ' w w' → reserved home names occ0 occ' w w'.
Proof.
  unfold reserved. intros Hs. destruct (vfind _ _) as [n|]; [|done]. destruct (n_custom n); [done|].
  intros (? & ? & ? & ?). repeat split; auto.
Qed.

Lemma pending_shift (k : nat) (pend : list (nat * ustring)) i b :
  (∀ i b, (i, b) ∈ pend → S k ≤ i) → (i, b) ∈ pend → ∃ j, i = S k + j.
Proof. intros H Hi. apply H in Hi. exists (i - S k). lia. Qed.

(** A Workspace that does not wait extends the loop's facts to the list it heads. *)
Lemma ReserveSpec_cons_settled home names k w w' ws ws' occ0 occ occ' pend :
  renamed w w' → occ0 ⊆ occ →
  size occ + length (vfilter (automatic_b names) ws)
    ≤ size occ0 + length (vfilter (automatic_b names) (w :: ws)) →
  reserved home names occ0 occ w w' →
  (automatic names w' → w_name w' ∈ occ) →
  ReserveSpec home names (S k) ws occ ws' occ' pend →
  ReserveSpec home names k (w :: ws) occ0 (w' :: ws') occ' pend.
Proof.
  intros Hr Hsub Hsize Hres Hin [Hf Hg Hs Hpend Hnd Hset Hdis].
  split; [by constructor | by etrans | lia | | done | |].
  - intros i b Hib. destruct (Hpend _ _ Hib) as (Hk & v & H1 & H2 & H3).
    split; [lia|]. replace (i - k) with (S (i - S k)) by lia. simpl. eauto.
  - intros [|i] v v'; simpl; intros Hv Hv' Hn.
    + simplify_eq. unfold reserved in *. destruct (vfind _ _) as [n|]; [|done].
      destruct (n_custom n); [done|]. destruct Hres as (? & ? & ? & ?). repeat split; auto.
    + eapply reserved_weaken; [done|]. eapply Hset; eauto.
      intros Hi. apply Hn. replace (k + S i) with (S k + i) by lia. done.
  - assert (∀ j v, ws' !! j = Some v → k + S j ∉ pend.*1 → automatic names v →
                   automatic names w' → w_name v ≠ w_name w') as Hhead.
    { intros j v Hj Hn Hv Hw'. specialize (Hin Hw').
      destruct (Forall2_lookup_r _ _ _ _ _ Hf Hj) as (u & Hu & Hru).
      assert (reserved home names occ occ' u v) as Hres'.
      { eapply Hset; eauto. by replace (S k + j) with (k + S j) by lia. }
      unfold reserved in Hres'. unfold automatic, custom_of in Hv.
      rw (renamed_id _ _ Hru) in Hv. destruct (vfind _ _) as [n|]; [|done].
      simpl in Hv. injection Hv as Hv. rw Hv in Hres'. destruct Hres' as (-> & Hnot & _).
      intros E. apply Hnot. by rw E. }
    intros [|i] [|j] w1 w2; simpl; intros Hij H1 H2 Hn1 Hn2 Ha1 Ha2; simplify_eq.
    + intros E. by eapply (Hhead j).
    + by eapply (Hhead i).
    + eapply (Hdis i j); eauto; by rw /= -?Nat.add_succ_r.
Qed.

(** A Workspace that waits. *)
Lemma ReserveSpec_cons_waits home names k w ws ws' occ occ' pend :
  automatic names w →
  ReserveSpec home names (S k) ws occ ws' occ' pend →
  ReserveSpec home names k (w :: ws) occ (w :: ws') occ' ((k, automatic_base home w) :: pend).
Proof.
  intros Ha [Hf Hg Hs Hpend Hnd Hset Hdis].
  split; [constructor; [apply renamed_refl|done] | done | | | | |].
  - simpl. assert (automatic_b names w = true) as -> by (by apply bool_decide_eq_true).
    simpl. lia.
  - intros i b [[= -> ->]|Hib]%elem_of_cons.
    + split; [lia|]. rw Nat.sub_diag. simpl. eauto.
    + destruct (Hpend _ _ Hib) as (Hk & v & H1 & H2 & H3).
      split; [lia|]. replace (i - k) with (S (i - S k)) by lia. simpl. eauto.
  - simpl. constructor; [|done]. rw list_elem_of_fmap. intros ([i b] & -> & Hib).
    apply Hpend in Hib as [? _]. simpl in *. lia.
  - intros [|i] v v'; simpl; intros Hv Hv' Hn.
    + exfalso. apply Hn. rw Nat.add_0_r. by left.
    + eapply Hset; eauto. intros Hi. apply Hn. right.
      by replace (k + S i) with (S k + i) by lia.
  - intros [|i] [|j] w1 w2; simpl; intros Hij H1 H2 Hn1 Hn2; simplify_eq.
    + exfalso. apply Hn1. rw Nat.add_0_r. by left.
    + exfalso. apply Hn2. rw Nat.add_0_r. by left.
    + eapply (Hdis i j); eauto; intros Hi; [apply Hn1 | apply Hn2]; right;
        by rw /= -?Nat.add_succ_r in Hi *.
Qed.

Lemma reserve_names_spec home names ws k occ ws' occ' pend :
  reserve_names home names k ws occ = (ws', occ', pend) →
  ReserveSpec home names k ws occ ws' occ' pend.
Proof.
  revert k occ ws' occ' pend. induction ws as [|w ws IH]; intros k occ ws' occ' pend; simpl.
  { intros [= <- <- <-]. split; [constructor | done | simpl; lia | by intros ? ? ?%elem_of_nil | constructor | done | done]. }
  assert (∀ w', renamed w w' → automatic names w' ↔ automatic names w) as Hren.
  { intros w' ->. done. }
  destruct (vfind (names_entry (w_id w)) names) as [n|] eqn:En.
  2:{ destruct (reserve_names home names (S k) ws occ) as [[vs o] p] eqn:E. intros [= <- <- <-].
      apply IH in E. eapply ReserveSpec_cons_settled; eauto using renamed_refl.
      - simpl. destruct (automatic_b names w); simpl; lia.
      - unfold reserved. by rw En.
      - unfold automatic, custom_of. by rw En. }
  destruct (n_custom n) as [c|] eqn:Ec.
  - destruct (reserve_names home names (S k) ws occ) as [[vs o] p] eqn:E. intros [= <- <- <-].
    apply IH in E.
    set (w' := if bool_decide (w_name w ≠ c) then set_w_name c (w_name_version w) w else w).
    assert (renamed w w') as Hr by (unfold w'; case_bool; auto using renamed_set, renamed_refl).
    assert (w_name w' = c) as Hc.
    { unfold w'. case_bool; [done|]. by apply dec_stable. }
    eapply (ReserveSpec_cons_settled _ _ _ _ w'); eauto.
    + simpl. destruct (automatic_b names w); simpl; lia.
    + unfold reserved. by rw En Ec.
    + rw Hren //. unfold automatic, custom_of. rw En /= Ec. done.
  - assert (automatic names w) as Ha by by rw /automatic /custom_of En /= Ec.
    destruct (bool_decide (n_automatic_base n = automatic_base home w)
              && bool_decide (w_name w ∉ occ)) eqn:Et.
    + apply andb_true_iff in Et as [Eb Eo].
      apply bool_decide_eq_true in Eb. apply bool_decide_eq_true in Eo.
      destruct (reserve_names home names (S k) ws ({[w_name w]} ∪ occ)) as [[vs o] p] eqn:E.
      intros [= <- <- <-]. apply IH in E.
      eapply (ReserveSpec_cons_settled _ _ _ _ w _ _ occ ({[w_name w]} ∪ occ));
        [apply renamed_refl | apply union_subseteq_r | | | intros _; apply elem_of_union_l;
         by apply elem_of_singleton | done].
      * simpl. assert (automatic_b names w = true) as -> by (by apply bool_decide_eq_true).
        rw size_union; [by apply disjoint_singleton_l|]. rw size_singleton. simpl. lia.
      * unfold reserved. rw En Ec. repeat split; auto. apply elem_of_union_l. by apply elem_of_singleton.
    + destruct (reserve_names home names (S k) ws occ) as [[vs o] p] eqn:E.
      intros [= <- <- <-]. apply IH in E. by apply ReserveSpec_cons_waits.
Qed.

(** ** The assigning loop *)

(** A name that has been decided: in the occupied set, and free of others when automatic. *)
Definition decided (names : list WorkspaceName) (waiting : list nat) (ws : list Workspace)
    (occ : gset (list N)) : Prop :=
  (∀ i w, ws !! i = Some w → i ∉ waiting → custom_of names (w_id w) ≠ None → w_name w ∈ occ) ∧
  (∀ i j w1 w2, i ≠ j → ws !! i = Some w1 → ws !! j = Some w2 → i ∉ waiting → j ∉ waiting →
     automatic names w1 → custom_of names (w_id w2) ≠ None → w_name w1 ≠ w_name w2).

Definition waits_ok (home : option path) (names : list WorkspaceName) (ws : list Workspace)
    (pend : list (nat * ustring)) : Prop :=
  NoDup pend.*1 ∧
  ∀ i b, (i, b) ∈ pend → ∃ w, ws !! i = Some w ∧ automatic names w ∧ b = automatic_base home w.

Record AssignSpec (home : option path) (bound : nat) (names : list WorkspaceName)
    (ws : list Workspace) (pend : list (nat * ustring)) (names' : list WorkspaceName)
    (ws' : list Workspace) (occ' : gset (list N)) : Prop := {
  as_frame : Forall2 renamed ws ws';
  as_custom : ∀ id, custom_of names' id = custom_of names id;
  as_workspaces : map n_workspace names' = map n_workspace names;
  as_kept : ∀ i, i ∉ pend.*1 → ws' !! i = ws !! i;
  as_assigned : ∀ i b, (i, b) ∈ pend → ∃ w' j, ws' !! i = Some w' ∧ j < bound ∧
                  w_name w' = candidate b j;
  as_decided : decided names' [] ws' occ';
  as_base_kept : ∀ id, (∀ i b w, (i, b) ∈ pend → ws !! i = Some w → w_id w ≠ id) →
                   vfind (names_entry id) names' = vfind (names_entry id) names;
  as_base_assigned : ∀ i b w, (i, b) ∈ pend → ws !! i = Some w →
                       n_automatic_base <$> vfind (names_entry (w_id w)) names' = Some b
}.

Lemma decided_step names waiting ws occ i w w' name b :
  decided names (i :: waiting) ws occ → i ∉ waiting → ws !! i = Some w → renamed w w' →
  w_name w' = name → name ∉ occ →
  decided (vupdate (names_entry (w_id w)) (set_n_automatic_base b) names) waiting
    (<[i := w']> ws) ({[ name ]} ∪ occ).
Proof.
  intros [Hocc Hdis] Hni Hi Hr <- Hfree.
  assert (∀ j v, <[i := w']> ws !! j = Some v →
          (j = i ∧ v = w') ∨ (j ≠ i ∧ ws !! j = Some v)) as Hlook.
  { intros j v. rw list_lookup_insert_Some. intros [(-> & -> & _)|[? ?]]; auto. }
  split.
  - intros j v Hv Hj. rw custom_of_set_base. intros Hc.
    apply Hlook in Hv as [[-> ->]|[Hne Hv]]; [by apply elem_of_union_l, elem_of_singleton|].
    apply elem_of_union_r. apply (Hocc j); auto. rw not_elem_of_cons. auto.
  - intros j1 j2 v1 v2 Hne H1 H2 Hj1 Hj2. unfold automatic. rw !custom_of_set_base.
    intros Ha Hc.
    apply Hlook in H1 as [[-> ->]|[Hne1 H1]]; apply Hlook in H2 as [[-> ->]|[Hne2 H2]]; [done|..].
    + intros E. apply Hfree. rw E. apply (Hocc j2); auto. rw not_elem_of_cons. auto.
    + intros E. apply Hfree. rw -E. apply (Hocc j1); auto; [rw not_elem_of_cons; auto|].
      by rw Ha.
    + apply (Hdis j1 j2); auto; rw not_elem_of_cons; auto.
Qed.

Lemma waits_ok_step home names ws i b pend w w' b' :
  waits_ok home names ws ((i, b) :: pend) → ws !! i = Some w →
  waits_ok home (vupdate (names_entry (w_id w)) (set_n_automatic_base b') names)
    (<[i := w']> ws) pend.
Proof.
  intros [Hnd Hw] Hi. simpl in Hnd. apply NoDup_cons in Hnd as [Hni Hnd].
  split; [done|]. intros j c Hj.
  destruct (Hw j c) as (v & Hv & Ha & ->); [by right|].
  exists v. unfold automatic. rw custom_of_set_base. split; [|done].
  rw list_lookup_insert_ne; [|done].
  intros <-. apply Hni. apply list_elem_of_fmap. by exists (i, automatic_base home v).
Qed.

Lemma NoDup_ids_ne ws i j (w v : Workspace) :
  NoDup (map w_id ws) → ws !! i = Some w → ws !! j = Some v → i ≠ j → w_id w ≠ w_id v.
Proof.
  intros Hnd Hi Hj Hne E. apply Hne. eapply (NoDup_lookup (map w_id ws)); [done|..].
  - by rw list_lookup_fmap Hi.
  - rw list_lookup_fmap Hj /=. by rw E.
Qed.

Lemma renamed_insert ws ws' i (w w' : Workspace) :
  ws !! i = Some w → renamed w w' → Forall2 renamed (<[i:=w']> ws) ws' → Forall2 renamed ws ws'.
Proof.
  intros Hi Hr Hf. apply Forall2_same_length_lookup. apply Forall2_same_length_lookup in Hf as [Hl Hf].
  rw length_insert in Hl. split; [done|]. intros k x y Hx Hy.
  destruct (decide (k = i)) as [->|Hne].
  - simplify_eq. eapply renamed_trans; [exact Hr|]. apply (Hf i); [|done].
    apply list_lookup_insert_eq. by eapply lookup_lt_Some.
  - apply (Hf k); [|done]. by rw list_lookup_insert_ne.
Qed.

Lemma assign_names_spec home bound pend names ws occ :
  NoDup (map w_id ws) → waits_ok home names ws pend → decided names pend.*1 ws occ → size occ + length pend ≤ bound →
  ∃ names' ws' occ', assign_names pend names ws occ = Some (names', ws') ∧
    AssignSpec home bound names ws pend names' ws' occ'.
Proof.
  revert names ws occ. induction pend as [|[i b] pend IH]; intros names ws occ Hids Hw Hd Hb; simpl.
  { exists names, ws, occ. split; [done|]. split; auto.
    - apply Forall_Forall2_diag. apply Forall_forall. auto using renamed_refl.
    - by intros ? ? ?%elem_of_nil.
    - by intros ? ? ? ?%elem_of_nil. }
  destruct (proj2 Hw i b) as (w & Hi & Ha & Hbase); [by left|]. rw Hi.
  destruct (vfind (names_entry (w_id w)) names) as [n|] eqn:En;
    [|by rw /automatic /custom_of En in Ha].
  destruct (allocate_name_total occ b) as [name Hname]. rw Hname.
  apply allocate_name_spec in Hname as (Hfree & j & Hj & Hcand).
  set (w' := if bool_decide (w_name w ≠ name) then _ else w).
  assert (renamed w w') as Hr by (unfold w'; case_bool; auto using renamed_set, renamed_refl).
  assert (w_name w' = name) as Hw'. { unfold w'. case_bool; [done|]. by apply dec_stable. }
  simpl in Hb. pose proof Hw as [Hnd _]. apply NoDup_cons in Hnd as [Hni Hnd].
  assert (∀ c, (i, c) ∉ pend) as Hne_pend.
  { intros c Hc. apply Hni. apply list_elem_of_fmap. by exists (i, c). }
  assert (map w_id (<[i:=w']> ws) = map w_id ws) as Hids'.
  { change (w_id <$> <[i:=w']> ws = w_id <$> ws). rw list_fmap_insert. apply list_insert_id.
    by rw list_lookup_fmap Hi /= (renamed_id _ _ Hr). }
  edestruct (IH (vupdate (names_entry (w_id w)) (set_n_automatic_base b) names)
               (<[i:=w']> ws) ({[name]} ∪ occ)) as (names' & ws' & occ' & E & [Hf Hcu Hws Hk Has Hde Hbk Hba]).
  { by rw Hids'. }
  { by eapply waits_ok_step. }
  { by eapply decided_step. }
  { rw size_union; [by apply disjoint_singleton_l|]. rw size_singleton. lia. }
  exists names', ws', occ'. split; [done|]. split; auto.
  - by eapply renamed_insert.
  - intros id. by rw Hcu custom_of_set_base.
  - rw Hws. by apply vupdate_map.
  - simpl. intros k [Hne Hnk]%not_elem_of_cons. by rw Hk // list_lookup_insert_ne.
  - intros k c [[= -> ->]|Hkc]%elem_of_cons; [|by apply Has].
    exists w', j. rw Hk //. split; [apply list_lookup_insert_eq; by eapply lookup_lt_Some|].
    split; [lia | by rw Hw'].
  - intros id Hid. rw Hbk.
    + intros k c v Hkc Hv. apply (Hid k c); [by right|].
      rw list_lookup_insert_ne in Hv; [|done]. intros <-. by apply (Hne_pend c).
    + rw vfind_names_update //. destruct (decide (id = w_id w)) as [->|]; [|done].
      exfalso. by apply (Hid i b w); [left|..].
  - intros k c v [[= -> ->]|Hkc]%elem_of_cons Hv.
    + simplify_eq. rw Hbk.
      * intros k c v' Hkc Hv'. assert (i ≠ k) by (intros <-; by apply (Hne_pend c)).
        rw list_lookup_insert_ne // in Hv'. by eapply (NoDup_ids_ne ws k i).
      * rw vfind_names_update // decide_True //. by rw En.
    + assert (i ≠ k) by (intros <-; by apply (Hne_pend c)). apply (Hba k c v Hkc).
      by rw list_lookup_insert_ne.
Qed.

(** ** The whole recalculation *)

Lemma size_list_to_set_le (l : list (list N)) :
  size (list_to_set l : gset (list N)) ≤ length l.
Proof.
  induction l as [|x l IH]; [by rw list_to_set_nil size_empty|].
  rw list_to_set_cons size_union_alt size_singleton. cbn [length].
  assert (size ((list_to_set l : gset (list N)) ∖ {[x]}) ≤ size (list_to_set l : gset (list N)));
    [|lia].
  apply subseteq_size, subseteq_difference_l. done.
Qed.

(** Every Workspace has one naming record, in the same order. *)
Definition aligned (names : list WorkspaceName) (ws : list Workspace) : Prop :=
  map n_workspace names = map w_id ws ∧ NoDup (map w_id ws).

Lemma NoDup_vfind {A} (f : A → N) (l : list A) i x :
  NoDup (map f l) → l !! i = Some x → vfind (λ y, bool_decide (f y = f x)) l = Some x.
Proof.
  revert i. unfold vfind. induction l as [|y l IH]; intros i; simpl; [done|].
  intros [Hni Hnd]%NoDup_cons Hi. destruct i as [|i]; simplify_eq/=; [by case_bool|].
  destruct (bool_decide_reflect (f y = f x)) as [E|]; [|by eapply IH]. exfalso. apply Hni. rw E.
  apply list_elem_of_fmap. exists x. split; [done|]. by eapply list_elem_of_lookup_2.
Qed.

Lemma aligned_vfind names ws i n w :
  aligned names ws → names !! i = Some n → ws !! i = Some w →
  vfind (names_entry (w_id w)) names = Some n.
Proof.
  intros [Hm Hnd] Hn Hw.
  assert (n_workspace n = w_id w) as <-.
  { apply (f_equal (.!! i)) in Hm. rw !list_lookup_fmap Hn Hw in Hm. by simplify_eq/=. }
  rw -Hm in Hnd. by apply (NoDup_vfind n_workspace _ i).
Qed.

Lemma aligned_lookup names ws i w :
  aligned names ws → ws !! i = Some w → ∃ n, names !! i = Some n ∧ n_workspace n = w_id w.
Proof.
  intros [Hm _] Hw. apply (f_equal (.!! i)) in Hm. rw !list_lookup_fmap Hw in Hm.
  destruct (names !! i) as [n|] eqn:E; simplify_eq/=. eauto.
Qed.

Lemma aligned_elem names ws w :
  aligned names ws → w ∈ ws →
  ∃ n, vfind (names_entry (w_id w)) names = Some n ∧ n ∈ names ∧ n_workspace n = w_id w.
Proof.
  intros Hal [i Hi]%list_elem_of_lookup. destruct (aligned_lookup _ _ _ _ Hal Hi) as (n & Hn & ?).
  exists n. split; [by eapply aligned_vfind|]. split; [by eapply list_elem_of_lookup_2 | done].
Qed.

Lemma aligned_length names ws : aligned names ws → length names = length ws.
Proof. intros [Hm _]. apply (f_equal length) in Hm. by rw !length_map in Hm. Qed.

Lemma aligned_count names ws :
  aligned names ws →
  length (omap n_custom names) + length (vfilter (automatic_b names) ws) = length ws.
Proof.
  intros Hal.
  assert (Forall2 (λ n w, automatic_b names w = bool_decide (n_custom n = None)) names ws) as Hf.
  { apply Forall2_same_length_lookup. split; [by apply aligned_length|]. intros i n w Hn Hw.
    unfold automatic_b, custom_of. rw (aligned_vfind _ _ _ _ _ Hal Hn Hw) /=.
    apply bool_decide_ext. destruct (n_custom n); split; congruence. }
  revert Hf. generalize (automatic_b names) as g. clear Hal. intros g.
  induction 1 as [|n w ns ws' Hg _ IH]; [done|]. simpl. unfold vfilter in *. simpl. rw Hg.
  destruct (n_custom n) as [c|].
  - rw bool_decide_eq_false_2; [done|]. by rw /= IH.
  - rw bool_decide_eq_true_2; [done|]. by rw /= Nat.add_succ_r IH.
Qed.

(** What one recalculation establishes. *)
Record Recalculated (home : option path) (names : list WorkspaceName) (ws : list Workspace)
    (names' : list WorkspaceName) (ws' : list Workspace) : Prop := {
  rc_frame : Forall2 renamed ws ws';
  rc_workspaces : map n_workspace names' = map n_workspace names;
  rc_custom : ∀ id, custom_of names' id = custom_of names id;
  rc_custom_name : ∀ w' c, w' ∈ ws' → custom_of names' (w_id w') = Some (Some c) → w_name w' = c;
  rc_distinct : ∀ i j w1 w2, i ≠ j → ws' !! i = Some w1 → ws' !! j = Some w2 →
                  automatic names' w1 → w_name w1 ≠ w_name w2;
  rc_base : ∀ w' n, w' ∈ ws' → vfind (names_entry (w_id w')) names' = Some n →
              n_custom n = None → n_automatic_base n = automatic_base home w';
  rc_automatic : ∀ i w w', ws !! i = Some w → ws' !! i = Some w' → automatic names w →
      (w' = w ∧ ∃ n, vfind (names_entry (w_id w)) names = Some n ∧
                     n_automatic_base n = automatic_base home w) ∨
      (∃ k, k < length ws ∧ w_name w' = candidate (automatic_base home w) k)
}.

Lemma custom_names_elem names id c :
  custom_of names id = Some (Some c) → c ∈ custom_names names.
Proof.
  unfold custom_of, custom_names. intros (n & Hn & Hc)%fmap_Some.
  apply vfind_Some in Hn as [_ Hn]. apply elem_of_list_to_set, list_elem_of_omap. eauto.
Qed.

Lemma aligned_custom names ws i w :
  aligned names ws → ws !! i = Some w → custom_of names (w_id w) ≠ None.
Proof.
  intros Hal Hw. destruct (aligned_lookup _ _ _ _ Hal Hw) as (n & Hn & _).
  unfold custom_of. by rw (aligned_vfind _ _ _ _ _ Hal Hn Hw).
Qed.

Lemma Forall2_renamed_ids ws ws' : Forall2 renamed ws ws' → map w_id ws' = map w_id ws.
Proof. induction 1 as [|w w' ws ws' Hr _ IH]; simpl; [done|]. by rw (renamed_id _ _ Hr) IH. Qed.

(** The reserving loop hands the assigning loop what it needs. *)
Lemma reserve_decided home names ws ws' occ' pend :
  aligned names ws →
  ReserveSpec home names 0 ws (custom_names names) ws' occ' pend →
  waits_ok home names ws' pend ∧ decided names pend.*1 ws' occ' ∧
  size occ' + length pend ≤ length ws.
Proof.
  intros Hal [Hf Hg Hs Hpend Hnd Hset Hdis].
  assert (∀ i v, ws' !! i = Some v → i ∉ pend.*1 →
          (∃ c, custom_of names (w_id v) = Some (Some c) ∧ w_name v = c) ∨
          (automatic names v ∧ w_name v ∈ occ' ∧ w_name v ∉ custom_names names)) as Hclass.
  { intros i v Hv Hi. destruct (Forall2_lookup_r _ _ _ _ _ Hf Hv) as (w & Hw & Hr).
    assert (reserved home names (custom_names names) occ' w v) as Hres by (by eapply Hset).
    pose proof (aligned_custom _ _ _ _ Hal Hw) as Hc. unfold reserved in Hres.
    unfold automatic, custom_of in *. rw (renamed_id _ _ Hr).
    destruct (vfind _ _) as [n|]; [|done]. simpl in *. destruct (n_custom n) as [c|].
    - left. eauto.
    - right. destruct Hres as (-> & ? & ? & _). auto. }
  split; [|split].
  - split; [done|]. intros i b Hib. destruct (Hpend i b Hib) as (_ & w & _ & Hw & Ha & Hb).
    rw Nat.sub_0_r in Hw. eauto.
  - split.
    + intros i v Hv Hi _. destruct (Hclass i v Hv Hi) as [(c & Hc & ->)|(_ & ? & _)]; [|done].
      apply Hg. by eapply custom_names_elem.
    + intros i j v1 v2 Hij H1 H2 Hi Hj Ha Hc.
      destruct (Hclass i v1 H1 Hi) as [(c & Hc' & _)|(_ & _ & Hn1)].
      { unfold automatic in Ha. by rw Ha in Hc'. }
      destruct (Hclass j v2 H2 Hj) as [(c & Hc' & <-)|(Ha2 & _ & _)]; [|by eapply (Hdis i j)].
      intros E. apply Hn1. rw E. by eapply custom_names_elem.
  - assert (size (custom_names names) ≤ length (omap n_custom names)) as Hc.
    { apply size_list_to_set_le. }
    pose proof (aligned_count _ _ Hal). lia.
Qed.

Lemma reserved_custom home names occ occ' w w' c :
  reserved home names occ occ' w w' → custom_of names (w_id w) = Some (Some c) → w_name w' = c.
Proof.
  unfold reserved, custom_of. destruct (vfind _ _) as [n|]; [|done]. simpl.
  intros H [= Hc]. by rw Hc in H.
Qed.

Lemma reserved_automatic home names occ occ' w w' :
  reserved home names occ occ' w w' → automatic names w →
  w' = w ∧ ∃ n, vfind (names_entry (w_id w)) names = Some n ∧ n_automatic_base n = automatic_base home w.
Proof.
  unfold reserved, automatic, custom_of. destruct (vfind _ _) as [n|]; [|done]. simpl.
  intros H [= Ha]. rw Ha in H. destruct H as (-> & _ & _ & ?). eauto.
Qed.

(** A Workspace left out of the wait has another identity than those in it. *)
Lemma waiting_other ws (pend : list (nat * ustring)) k i b (v w : Workspace) :
  NoDup (map w_id ws) → (k, b) ∈ pend → ws !! k = Some v → ws !! i = Some w → i ∉ pend.*1 →
  w_id v ≠ w_id w.
Proof.
  intros Hnd Hkb Hk Hi Hn. eapply (NoDup_ids_ne ws k i); eauto. intros ->. apply Hn.
  apply list_elem_of_fmap. by exists (i, b).
Qed.

Lemma recalculate_spec home names ws :
  aligned names ws →
  ∃ names' ws', recalculate home names ws = Some (names', ws') ∧
    Recalculated home names ws names' ws'.
Proof.
  intros Hal. unfold recalculate.
  destruct (reserve_names home names 0 ws (custom_names names)) as [[vs occ] pend] eqn:E.
  apply reserve_names_spec in E.
  destruct (reserve_decided _ _ _ _ _ _ Hal E) as (Hw & Hd & Hb).
  destruct (assign_names_spec home (length ws) pend names vs occ)
    as (names' & ws' & occ' & Ea & [Af Ac Aw Ak Aa Ad Abk Aba]).
  { rw (Forall2_renamed_ids _ _ (rs_frame _ _ _ _ _ _ _ _ E)). apply Hal. }
  1-3: done.
  exists names', ws'. split; [done|]. destruct E as [Rf _ _ Rp _ Rs _].
  assert (Forall2 renamed ws ws') as Hf.
  { eapply Forall2_trans; [|exact Rf|exact Af]. apply renamed_trans. }
  assert (aligned names' ws') as Hal'.
  { destruct Hal as [Hm Hnd]. split; rw (Forall2_renamed_ids _ _ Hf) //. by rw Aw. }
  assert (∀ i w w', ws !! i = Some w → ws' !! i = Some w' → i ∉ pend.*1 →
          reserved home names (custom_names names) occ w w') as Hset.
  { intros i w w' Hi Hi' Hn. rw Ak // in Hi'. by eapply Rs. }
  assert (∀ i b w, (i, b) ∈ pend → ws !! i = Some w → automatic names w ∧ b = automatic_base home w)
    as Hpend.
  { intros i b w Hib Hi. destruct (Rp i b Hib) as (_ & v & Hv & _ & Ha & ->).
    rw Nat.sub_0_r in Hv. by simplify_eq. }
  split; auto.
  - intros w' c [i Hi]%list_elem_of_lookup. rw Ac. intros Hc.
    destruct (Forall2_lookup_r _ _ _ _ _ Hf Hi) as (w & Hw' & Hr).
    rw (renamed_id _ _ Hr) in Hc.
    destruct (decide (i ∈ pend.*1)) as [Hin|Hnin].
    + apply list_elem_of_fmap in Hin as ([? b] & -> & Hib). simpl in *.
      destruct (Hpend _ _ _ Hib Hw') as [Ha _]. unfold automatic in Ha. congruence.
    + eapply reserved_custom; [by eapply Hset|done].
  - intros i j w1 w2 Hij H1 H2 Ha. destruct Ad as [_ Ad].
    eapply (Ad i j); eauto using not_elem_of_nil. by eapply aligned_custom.
  - intros w' n [i Hi]%list_elem_of_lookup Hn Hc.
    destruct (Forall2_lookup_r _ _ _ _ _ Hf Hi) as (w & Hw' & Hr).
    rw (renamed_base _ _ _ Hr). rw (renamed_id _ _ Hr) in Hn.
    destruct (decide (i ∈ pend.*1)) as [Hin|Hnin].
    + apply list_elem_of_fmap in Hin as ([? b] & -> & Hib). simpl in *.
      destruct (Hpend _ _ _ Hib Hw') as [_ <-].
      destruct (Rp _ _ Hib) as (_ & v & Hv & Hv' & _). rw Nat.sub_0_r in Hv Hv'. simplify_eq.
      specialize (Aba _ _ _ Hib Hv'). rw Hn in Aba. by simplify_eq/=.
    + specialize (Hset _ _ _ Hw' Hi Hnin). unfold reserved in Hset. rw Abk in Hn.
      { intros k b v Hkb Hv. destruct (Rp _ _ Hkb) as (_ & u & Hu & Hu' & _).
        rw Nat.sub_0_r in Hu Hu'. simplify_eq. eapply (waiting_other ws pend k i); eauto. apply Hal. }
      rw Hn Hc in Hset. tauto.
  - intros i w w' Hi Hi' Ha. destruct (decide (i ∈ pend.*1)) as [Hin|Hnin].
    + right. apply list_elem_of_fmap in Hin as ([? b] & -> & Hib). simpl in *.
      destruct (Hpend _ _ _ Hib Hi) as [_ ->]. destruct (Aa _ _ Hib) as (u & k & Hu & Hk & Hn).
      simplify_eq. eauto.
    + left. eapply reserved_automatic; [by eapply Hset|done].
Qed.

(** Names stay printable and bounded: custom names and reserved automatic
    names were, and allocated names are built to be. *)
Lemma Recalculated_valid home names ws names' ws' :
  aligned names ws → length ws ≤ MAX_WORKSPACES →
  Recalculated home names ws names' ws' →
  (∀ n c, n ∈ names → n_custom n = Some c → valid_name c = true) →
  (∀ w n, w ∈ ws → vfind (names_entry (w_id w)) names = Some n →
          n_automatic_base n = automatic_base home w → valid_name (w_name w) = true) →
  Forall (λ w, valid_name (w_name w) = true) ws'.
Proof.
  intros Hal Hlen [Rf Rw Rc Rcn Rd Rb Ra] Hcus Hauto.
  apply Forall_forall. intros w' Hin. pose proof Hin as [i Hi]%list_elem_of_lookup.
  destruct (Forall2_lookup_r _ _ _ _ _ Rf Hi) as (w & Hw & Hr).
  destruct (aligned_elem _ _ _ Hal (list_elem_of_lookup_2 _ _ _ Hw)) as (n & Hn & Hnin & _).
  destruct (n_custom n) as [c|] eqn:Ec.
  - rw (Rcn w' c); [done| |by eapply Hcus].
    rw Rc (renamed_id _ _ Hr) /custom_of Hn /=. by rw Ec.
  - assert (automatic names w) as Ha by by rw /automatic /custom_of Hn /= Ec.
    destruct (Ra _ _ _ Hw Hi Ha) as [(-> & m & Hm & Hb)|(k & Hk & ->)].
    + eapply Hauto; [by eapply list_elem_of_lookup_2 | done | done].
    + apply candidate_valid; [apply automatic_base_ok|]. unfold MAX_WORKSPACES in Hlen. lia.
Qed.

Lemma reserve_names_fixed home names k ws occ :
  (∀ w, w ∈ ws → ∃ n, vfind (names_entry (w_id w)) names = Some n ∧
     match n_custom n with
     | Some c => w_name w = c
     | None => n_automatic_base n = automatic_base home w ∧ (w_name w ∉ occ)
     end) →
  (∀ i j w1 w2, i ≠ j → ws !! i = Some w1 → ws !! j = Some w2 →
     automatic names w1 → w_name w1 ≠ w_name w2) →
  ∃ occ', reserve_names home names k ws occ = (ws, occ', []).
Proof.
  revert k occ. induction ws as [|w ws IH]; intros k occ Hws Hdis; simpl; [eauto|].
  destruct (Hws w) as (n & Hn & Hc); [by left|]. rw Hn.
  assert (∀ i j w1 w2, i ≠ j → ws !! i = Some w1 → ws !! j = Some w2 →
            automatic names w1 → w_name w1 ≠ w_name w2) as Hdis'.
  { intros i j w1 w2 Hij H1 H2. apply (Hdis (S i) (S j)); auto. }
  destruct (n_custom n) as [c|] eqn:Ec.
  - rw bool_decide_eq_false_2; [auto|].
    destruct (IH (S k) occ) as [occ' ->]; [intros; apply Hws; by right | done | eauto].
  - destruct Hc as [Hb Ho]. rw !bool_decide_eq_true_2 //=.
    destruct (IH (S k) ({[w_name w]} ∪ occ)) as [occ' ->]; [|done|eauto].
    intros v Hv. pose proof Hv as [i Hi]%list_elem_of_lookup.
    destruct (Hws v) as (m & Hm & Hmc); [by right|]. exists m. split; [done|].
    destruct (n_custom m) as [c|]; [done|]. destruct Hmc as [? ?]. split; [done|].
    rw not_elem_of_union not_elem_of_singleton. split; [|done].
    apply not_eq_sym. apply (Hdis 0 (S i) w v); auto.
    by rw /automatic /custom_of Hn /= Ec.
Qed.

Lemma recalculate_fixed home names ws names' ws' :
  aligned names ws → Recalculated home names ws names' ws' →
  recalculate home names' ws' = Some (names', ws').
Proof.
  intros Hal [Rf Rw Rc Rcn Rd Rb Ra]. unfold recalculate.
  assert (aligned names' ws') as Hal'.
  { destruct Hal as [Hm Hnd]. split; rw (Forall2_renamed_ids _ _ Rf) //. by rw Rw. }
  destruct (reserve_names_fixed home names' 0 ws' (custom_names names')) as [occ ->]; [|done|done].
  intros w Hw. destruct (aligned_elem _ _ _ Hal' Hw) as (n & Hn & Hnin & _).
  exists n. split; [done|]. destruct (n_custom n) as [c|] eqn:Ec.
  - apply (Rcn w c Hw). by rw /custom_of Hn /= Ec.
  - split; [by eapply Rb|]. unfold custom_names.
    rw elem_of_list_to_set list_elem_of_omap. intros (m & [j Hj]%list_elem_of_lookup & Hm).
    pose proof Hw as [i Hi]%list_elem_of_lookup.
    destruct (lookup_lt_is_Some_2 ws' j) as [v Hv].
    { rw -(aligned_length _ _ Hal'). by eapply lookup_lt_Some. }
    pose proof (aligned_vfind _ _ _ _ _ Hal' Hj Hv) as Hf.
    assert (custom_of names' (w_id v) = Some (Some (w_name w))) as Hcv by by rw /custom_of Hf /= Hm.
    assert (automatic names' w) as Haw by by rw /automatic /custom_of Hn /= Ec.
    destruct (decide (i = j)) as [->|Hij].
    + by simplify_eq.
    + eapply (Rd i j w v Hij Hi Hv Haw). symmetry.
      apply (Rcn v); [by eapply list_elem_of_lookup_2 | done].
Qed.
