(* ===== verification/ForestInv.v ===== *)
(** * Well-formed forests of Workspaces

    The invariant that every operation of the hierarchy keeps on the Workspace
    tree: a Root Pane and a Root Tab that come first, placements that point
    backwards, valid directories and distinct identities, with the proofs for
    the moves inside one Workspace. *)
From S2P Require Import Prelude.
From S2P Require Import Text.
From S2P Require Import Facts.
From S2P Require Import HierarchyTypes.
From S2P Require Import HierarchyWorkspace.
From S2P Require Import HierarchyState.

(** ** The invariant *)

Definition opt_path_ok (p : option path) : Prop := ∀ d, p = Some d → valid_path d = true.

Definition observers_ok (o : PaneObservers) : Prop :=
  length (ob_names o) ≤ MAX_OBSERVER_NAMES ∧ (ob_names o = [] → ob_others o = 0%N).

Definition presentation_ok (s : option Snapshot) : Prop :=
  ∀ x, s = Some x → snapshot_validate x = Ok tt.

Definition pane_ok (p : Pane) : Prop :=
  valid_path (p_starting_directory p) = true ∧ opt_path_ok (p_confirmed_directory p) ∧
  observers_ok (p_observers p) ∧ presentation_ok (p_presentation p).

(** Every Pane is placed beside an earlier Pane of its Tab, or none. *)
Fixpoint sources_ok (preceding : list Id) (ps : list Pane) : Prop :=
  match ps with
  | [] => True
  | p :: ps => (∀ s, p_source p = Some s → s ∈ preceding) ∧
               sources_ok (preceding ++ [p_id p]) ps
  end.

Definition root_first (root : Id) (ids : list Id) : Prop := head ids = Some root.

Definition tab_ok (t : Tab) : Prop :=
  opt_path_ok (t_worktree t) ∧ opt_path_ok (t_worktree_repository t) ∧
  (t_worktree t = None → t_worktree_repository t = None) ∧
  root_first (t_root_pane t) (map p_id (t_panes t)) ∧
  sources_ok [] (t_panes t) ∧ Forall pane_ok (t_panes t).

Definition workspace_ok (w : Workspace) : Prop :=
  opt_path_ok (w_pinned_directory w) ∧
  root_first (w_root_tab w) (map t_id (w_tabs w)) ∧ Forall tab_ok (w_tabs w).

Definition tab_ids (t : Tab) : list Id := t_id t :: map p_id (t_panes t).
Definition tabs_ids (ts : list Tab) : list Id := flat_map tab_ids ts.
Definition workspace_ids (w : Workspace) : list Id := w_id w :: tabs_ids (w_tabs w).
Definition all_ids (ws : list Workspace) : list Id := flat_map workspace_ids ws.

(** A Workspace on its own, identities included. *)
Definition workspace_wf (w : Workspace) : Prop := workspace_ok w ∧ NoDup (workspace_ids w).

(** ** Placements *)

Lemma sources_ok_app pre l1 l2 :
  sources_ok pre (l1 ++ l2) ↔ sources_ok pre l1 ∧ sources_ok (pre ++ map p_id l1) l2.
Proof.
  revert pre. induction l1 as [|p l1 IH]; intros pre; simpl; [rw app_nil_r; tauto|].
  rw IH -app_assoc /=. tauto.
Qed.

Lemma sources_ok_mono pre pre' l : pre ⊆ pre' → sources_ok pre l → sources_ok pre' l.
Proof.
  revert pre pre'. induction l as [|p l IH]; intros pre pre' Hs; simpl; [done|].
  intros [H1 H2]. split; [set_solver|]. eapply IH; [|done]. set_solver.
Qed.

(** Dropping Panes keeps placements as long as nobody points at a dropped one. *)
Lemma sources_ok_restrict (removed : list Id) (keep : Pane → bool) (g : Pane → Pane) pre pre' l :
  sources_ok pre l →
  (∀ p, p_id (g p) = p_id p) →
  (∀ p s, p ∈ l → p_source (g p) = Some s → p_source p = Some s ∧ (s ∉ removed)) →
  (∀ p, p ∈ l → keep p = false → p_id p ∈ removed) →
  (∀ x, x ∈ pre → (x ∉ removed) → x ∈ pre') →
  sources_ok pre' (map g (vfilter keep l)).
Proof.
  intros Hs Hg. revert pre pre' Hs.
  induction l as [|p l IH]; intros pre pre'; simpl; [done|].
  intros [Hp Hl] Hsrc Hrem Hpre.
  assert (sources_ok (if keep p then pre' ++ [p_id p] else pre') (map g (vfilter keep l))) as Hrest.
  { eapply IH; [exact Hl|..].
    - intros q s Hq. apply Hsrc. by right.
    - intros q Hq. apply Hrem. by right.
    - intros x [Hx|Hx]%elem_of_app Hnr.
      + destruct (keep p); [apply elem_of_app|]; auto.
      + apply list_elem_of_singleton in Hx as ->. destruct (keep p) eqn:E.
        * apply elem_of_app. right. by left.
        * exfalso. apply Hnr, (Hrem p); [by left|done]. }
  unfold vfilter in *. destruct (keep p) eqn:E; simpl; [|done].
  split; [|by rw Hg]. intros s Hgs. destruct (Hsrc p s) as [? ?]; [by left|done|]. auto.
Qed.

Lemma sources_ok_merge root beside side pre pre' l :
  sources_ok pre l → pre ⊆ pre' → beside ∈ pre' → root ∈ pre' →
  sources_ok pre' (map (merge_pane root beside side) l).
Proof.
  revert pre pre'. induction l as [|p l IH]; intros pre pre'; simpl; [done|].
  intros [Hp Hl] Hsub Hb Hr.
  assert (p_id (merge_pane root beside side p) = p_id p) as ->.
  { unfold merge_pane. case_bool; [done|]. by destruct (p_source p). }
  split.
  - intros s. unfold merge_pane. case_bool; simpl; [by intros [= <-]|].
    destruct (p_source p) eqn:E; simpl; [rw E; intros [= <-]; auto | by intros [= <-]].
  - eapply IH; [exact Hl|..]; set_solver.
Qed.

Lemma merge_pane_id root beside side p : p_id (merge_pane root beside side p) = p_id p.
Proof. unfold merge_pane. case_bool; [done|]. by destruct (p_source p). Qed.

(** Merging a whole Tab after the Panes of another: its Root Pane leads it. *)
Lemma sources_ok_merge_tab root beside side ps l :
  sources_ok [] ps → sources_ok [] l → root_first root (map p_id l) →
  beside ∈ map p_id ps →
  sources_ok [] (ps ++ map (merge_pane root beside side) l).
Proof.
  intros Hps Hl Hroot Hb. apply sources_ok_app. split; [done|]. simpl.
  destruct l as [|r l]; [done|]. unfold root_first in Hroot. simpl in Hroot, Hl.
  injection Hroot as <-. destruct Hl as [_ Hl]. cbn [map]. rw /= merge_pane_id.
  split.
  - intros s. unfold merge_pane. rw bool_decide_eq_true_2 //=. by intros [= <-].
  - eapply sources_ok_merge; [exact Hl|..]; set_solver.
Qed.

Lemma pane_ok_place s d p : pane_ok p → pane_ok (set_p_place s d p).
Proof. by destruct p. Qed.
Lemma pane_ok_source s p : pane_ok p → pane_ok (set_p_source s p).
Proof. by destruct p. Qed.
Lemma pane_ok_merge root beside side p : pane_ok p → pane_ok (merge_pane root beside side p).
Proof.
  intros H. unfold merge_pane. case_bool; [by apply pane_ok_place|].
  destruct (p_source p); [done | by apply pane_ok_source].
Qed.
#[export] Hint Resolve pane_ok_place pane_ok_source pane_ok_merge : hier.

(** ** Taking a Pane out of a Tab *)

Lemma tabs_ids_app ts1 ts2 : tabs_ids (ts1 ++ ts2) = tabs_ids ts1 ++ tabs_ids ts2.
Proof. apply flat_map_app. Qed.

(** What a successful [take_pane] did. *)
Record Taken (w : Workspace) (tab pane : Id) (w' : Workspace) (moved : Pane) : Prop := {
  tk_split : ∃ l1 t l2 t' q1 q q2,
      w_tabs w = l1 ++ t :: l2 ∧ t_id t = tab ∧ Forall (λ u, has_id_t tab u = false) l1 ∧
      w' = set_w_tabs (l1 ++ t' :: l2) w ∧
      t_panes t = q1 ++ q :: q2 ∧ p_id q = pane ∧ (q1 ≠ [] ∨ q2 ≠ []) ∧
      moved = set_p_place None Side_Right q ∧
      t_panes t' = map (λ x, if bool_decide (p_source x = Some pane)
                             then set_p_source None x else x) (q1 ++ q2) ∧
      t' = set_t_root_pane (if bool_decide (t_root_pane t = pane)
                            then default (t_root_pane t) (head (map p_id (t_panes t')))
                            else t_root_pane t) (set_t_panes (t_panes t') t)
}.

Lemma take_pane_Err w tab pane w' e : take_pane w tab pane = (w', Err e) → w' = w.
Proof. unfold take_pane. intros H. repeat case_match; by simplify_eq. Qed.

Lemma take_pane_Ok w tab pane w' moved :
  take_pane w tab pane = (w', Ok moved) → Taken w tab pane w' moved.
Proof.
  unfold take_pane.
  destruct (vfind (has_id_t tab) (w_tabs w)) as [t|] eqn:Et; [|done].
  destruct (vposition (has_id_p pane) (t_panes t)) as [i|] eqn:Ei; [|done].
  destruct (length (t_panes t) =? 1) eqn:El; [done|].
  apply vfind_split in Et as (l1 & l2 & Hl & Ht & Hl1).
  apply vposition_Some in Ei as (q1 & q & q2 & Hq & <- & Hqp & Hq1).
  rw Hq lookup_split vremove_split. intros [= <- <-].
  split. exists l1, t, l2. eexists. exists q1, q, q2.
  split; [done|]. split; [by apply bool_decide_eq_true in Ht|]. split; [done|].
  split; [rw Hl vupdate_split //|]. split; [done|].
  split; [by apply bool_decide_eq_true in Hqp|].
  split.
  { apply Nat.eqb_neq in El. rw Hq length_app /= in El. destruct q1, q2; simpl in *; auto; lia. }
  split; [done|]. split; [done|]. simpl.
  do 2 f_equal. case_bool; [|done]. by destruct (map _ (q1 ++ q2)).
Qed.

Lemma clear_source_id pane x :
  p_id (if bool_decide (p_source x = Some pane) then set_p_source None x else x) = p_id x.
Proof. by case_bool. Qed.

Lemma take_tab_ok t tab pane t' q1 q q2 :
  tab_ok t → t_panes t = q1 ++ q :: q2 → p_id q = pane → (q1 ≠ [] ∨ q2 ≠ []) →
  NoDup (map p_id (t_panes t)) →
  t_panes t' = map (λ x, if bool_decide (p_source x = Some pane)
                         then set_p_source None x else x) (q1 ++ q2) →
  t' = set_t_root_pane (if bool_decide (t_root_pane t = pane)
                        then default (t_root_pane t) (head (map p_id (t_panes t')))
                        else t_root_pane t) (set_t_panes (t_panes t') t) →
  t_id t = tab → tab_ok t' ∧ t_id t' = tab.
Proof.
  intros (H1 & H2 & H3 & Hroot & Hsrc & Hok) Hq Hpane Hne Hnd Hp Ht Hid.
  assert (map p_id (t_panes t') = map p_id (q1 ++ q2)) as Hids.
  { rw Hp map_map. apply map_ext. intros x. apply clear_source_id. }
  split; [|by rw Ht]. rw Ht. repeat split; try done; simpl.
  - unfold root_first in *. rw Hids. rw Hq map_app in Hroot. rw map_app.
    destruct q1 as [|r q1]; simpl in *.
    + injection Hroot as Hr. rw bool_decide_eq_true_2; [by rw -Hr|].
      destruct q2; [by destruct Hne|done].
    + injection Hroot as Hr. rw bool_decide_eq_false_2; [|by rw Hr]. rw -Hr.
      rw Hq /= map_app /= in Hnd. apply NoDup_cons in Hnd as [Hni _].
      intros E. apply Hni. apply elem_of_app. right. rw E -Hpane. by left.
  - rw Hp. assert (vfilter (λ x, negb (has_id_p pane x)) (t_panes t) = q1 ++ q2) as <-.
    { rw Hq. unfold vfilter. rw List.filter_app /=.
      assert (has_id_p pane q = true) as -> by by apply bool_decide_eq_true. simpl.
      rw Hq map_app /= in Hnd. apply NoDup_app in Hnd as (_ & Hd & Hnd).
      apply NoDup_cons in Hnd as [Hni _]. f_equal; apply forallb_filter_id, forallb_forall;
        intros x Hx%list_elem_of_In; apply negb_true_iff, bool_decide_eq_false_2; intros E.
      - apply (Hd pane); [apply elem_of_map; eauto | rw -Hpane; by left].
      - apply Hni. rw Hpane. apply elem_of_map; eauto. }
    eapply (sources_ok_restrict [pane]); [exact Hsrc|..].
    + intros x. apply clear_source_id.
    + intros x s _. case_bool; simpl; [done|]. intros Hs. split; [done|].
      rw list_elem_of_singleton. intros ->. done.
    + intros x _ Hk%negb_false_iff%bool_decide_eq_true. rw Hk. by left.
    + done.
  - rw Hp. apply Forall_map. rw Hq in Hok. apply Forall_app in Hok as [Hok1 Hok2].
    apply Forall_cons in Hok2 as [_ Hok2].
    eapply Forall_impl; [apply Forall_app_2; [exact Hok1|exact Hok2]|].
    intros x Hx. simpl. case_bool; auto with hier.
Qed.

(** A Pane without its place in the default layout: its identity, directories,
    presentation and creator. Moves keep it. *)
Definition pane_core (p : Pane) : Pane := set_p_place None Side_Right p.
Definition cores (ps : list Pane) : list Pane := map pane_core ps.

Lemma cores_ids ps : map p_id ps = map p_id (cores ps).
Proof. unfold cores. rw map_map. by apply map_ext. Qed.

#[export] Instance cores_Permutation : Proper ((≡ₚ) ==> (≡ₚ)) cores.
Proof. intros ps qs H. by apply Permutation_map. Qed.

Lemma cores_app ps qs : cores (ps ++ qs) = cores ps ++ cores qs.
Proof. apply map_app. Qed.

Lemma cores_map g ps : (∀ p, pane_core (g p) = pane_core p) → cores (map g ps) = cores ps.
Proof. intros H. unfold cores. rw map_map. by apply map_ext. Qed.

Lemma core_clear pane x :
  pane_core (if bool_decide (p_source x = Some pane) then set_p_source None x else x) = pane_core x.
Proof. by case_bool. Qed.

Lemma core_merge root beside side p : pane_core (merge_pane root beside side p) = pane_core p.
Proof. unfold merge_pane. case_bool; [done|]. by destruct (p_source p). Qed.

Definition tabs_panes (ts : list Tab) : list Pane := flat_map t_panes ts.

Lemma tabs_panes_app ts1 ts2 : tabs_panes (ts1 ++ ts2) = tabs_panes ts1 ++ tabs_panes ts2.
Proof. apply flat_map_app. Qed.

Lemma tabs_ids_panes ts : tabs_ids ts ≡ₚ map t_id ts ++ map p_id (tabs_panes ts).
Proof.
  induction ts as [|t ts IH]; [done|].
  change (tabs_ids (t :: ts)) with (t_id t :: map p_id (t_panes t) ++ tabs_ids ts).
  change (tabs_panes (t :: ts)) with (t_panes t ++ tabs_panes ts).
  rw IH map_app /=. constructor. rw !app_assoc. apply Permutation_app_tail, Permutation_app_comm.
Qed.

Lemma workspace_ids_panes w :
  workspace_ids w ≡ₚ (w_id w :: map t_id (w_tabs w)) ++ map p_id (workspace_panes w).
Proof. unfold workspace_ids. by rw tabs_ids_panes. Qed.

Lemma NoDup_tab_panes w t :
  NoDup (workspace_ids w) → t ∈ w_tabs w → NoDup (map p_id (t_panes t)).
Proof.
  intros Hnd [l1 [l2 Hl]]%list_elem_of_split. unfold workspace_ids in Hnd.
  apply NoDup_cons in Hnd as [_ Hnd]. rw Hl tabs_ids_app in Hnd.
  apply NoDup_app in Hnd as (_ & _ & Hnd). simpl in Hnd.
  apply NoDup_cons in Hnd as [_ Hnd]. by apply NoDup_app in Hnd as (Hnd & _).
Qed.

(** What every move inside a Workspace keeps. *)
Record Rearranged (w w' : Workspace) : Prop := {
  ra_frame : w' = set_w_root_tab (w_root_tab w') (set_w_tabs (w_tabs w') w);
  ra_ok : workspace_ok w';
  ra_cores : cores (workspace_panes w') ≡ₚ cores (workspace_panes w)
}.

Lemma Taken_spec w tab pane w' moved :
  workspace_wf w → Taken w tab pane w' moved →
  workspace_ok w' ∧ pane_ok moved ∧ p_id moved = pane ∧ p_source moved = None ∧
  map t_id (w_tabs w') = map t_id (w_tabs w) ∧
  cores (workspace_panes w) ≡ₚ moved :: cores (workspace_panes w') ∧
  w' = set_w_tabs (w_tabs w') w.
Proof.
  intros [(Hpin & Hroot & Htabs) Hnd]
    [(l1 & t & l2 & t' & q1 & q & q2 & Hl & Ht & Hl1 & -> & Hq & Hqp & Hne & -> & Hp & Ht')].
  rw Hl in Htabs. pose proof Htabs as Htabs'. apply Forall_app in Htabs as [Ho1 Ho2].
  apply Forall_cons in Ho2 as [Hot Ho2].
  destruct (take_tab_ok t tab pane t' q1 q q2) as [Hok Hid]; try done.
  { eapply NoDup_tab_panes; [done|]. rw Hl. apply elem_of_app. right. by left. }
  assert (map t_id (l1 ++ t' :: l2) = map t_id (w_tabs w)) as Hids.
  { rw Hl !map_app /=. by rw Hid Ht. }
  split; [|split; [|split; [|split; [|split; [|split]]]]].
  - split; [done|]. split; [by rw /= Hids|]. apply Forall_app. split; [done|]. by constructor.
  - destruct Hot as (_ & _ & _ & _ & _ & Hot). rw Hq in Hot. apply Forall_app in Hot as [_ Hot].
    apply Forall_cons in Hot as [Hot _]. by apply pane_ok_place.
  - done.
  - done.
  - done.
  - unfold workspace_panes. rw Hl /= !flat_map_app /= Hq.
    change (flat_map t_panes l2) with (tabs_panes l2).
    rw Hp !cores_app /= cores_map; [apply core_clear|]. rw cores_app /=.
    change (pane_core q) with (set_p_place None Side_Right q). solve_Permutation.
  - done.
Qed.

(** ** Moving a Pane and merging Tabs *)

Lemma move_pane_to_new_tab_Err w tab pane id w' e :
  move_pane_to_new_tab w tab pane id = (w', Err e) → w' = w.
Proof.
  unfold move_pane_to_new_tab. destruct (vfind _ _); [|by intros [= <-]].
  destruct (take_pane w tab pane) as [v [moved|f]] eqn:E; [done|].
  intros [= <- _]. by eapply take_pane_Err.
Qed.

Lemma root_first_app root l1 l2 : root_first root l1 → root_first root (l1 ++ l2).
Proof. unfold root_first. by destruct l1. Qed.

Lemma cores_app_tabs ts t : cores (tabs_panes (ts ++ [t])) = cores (tabs_panes ts) ++ cores (t_panes t).
Proof. rw tabs_panes_app cores_app /=. by rw /= app_nil_r. Qed.

Lemma move_pane_to_new_tab_Ok w tab pane id w' :
  workspace_wf w → move_pane_to_new_tab w tab pane id = (w', Ok tt) →
  Rearranged w w' ∧ map t_id (w_tabs w') = map t_id (w_tabs w) ++ [id].
Proof.
  intros Hwf. unfold move_pane_to_new_tab.
  destruct (vfind (has_id_t tab) (w_tabs w)) as [source|] eqn:Es; [|done].
  destruct (take_pane w tab pane) as [v [moved|f]] eqn:E; [|done]. intros [= <-].
  apply take_pane_Ok in E.
  destruct (Taken_spec _ _ _ _ _ Hwf E) as ((Hpin & Hroot & Htabs) & Hmok & Hmid & Hms & Hids & Hc & Hfr).
  apply vfind_Some in Es as [_ Hin].
  destruct Hwf as [(_ & _ & Hold) _]. rw Forall_forall in Hold.
  destruct (Hold _ Hin) as (S1 & S2 & S3 & _).
  split; [split|].
  - by rw Hfr.
  - split; [done|]. split; [rw /= map_app; by apply root_first_app|].
    apply Forall_app. split; [done|]. apply Forall_singleton.
    repeat split; try done; simpl; [by rw /root_first /= Hmid | by rw Hms | by apply Forall_singleton].
  - unfold workspace_panes. rw /= (cores_app_tabs (w_tabs v)) /=. rw Hc.
    assert (pane_core moved = moved) as ->.
    { destruct E as [(?&?&?&?&?&?&?&_&_&_&_&_&_&_&->&_)]. done. }
    by rw Permutation_app_comm.
  - by rw /= map_app Hids.
Qed.

Lemma destination_Ok w tab into beside i :
  destination w tab into beside = Ok i →
  tab ≠ into ∧ ∃ t, w_tabs w !! i = Some t ∧ t_id t = into ∧ beside ∈ map p_id (t_panes t).
Proof.
  unfold destination. destruct (bool_decide_reflect (tab = into)) as [|Hne]; [done|].
  destruct (vposition _ _) as [j|] eqn:E; simpl; [|done]. intros [= <-].
  split; [done|]. apply vposition_Some in E as (l1 & t & l2 & Hl & <- & Ht & _).
  exists t. rw Hl lookup_split. split; [done|]. apply andb_true_iff in Ht as [Ht Hb].
  split; [by apply bool_decide_eq_true in Ht|].
  apply vany_true in Hb as (p & Hp & Hpb%bool_decide_eq_true). apply elem_of_map. eauto.
Qed.

Lemma move_pane_beside_Err w tab pane into beside side w' e :
  move_pane_beside w tab pane into beside side = (w', Err e) → w' = w.
Proof.
  unfold move_pane_beside. destruct (destination _ _ _ _); [|by intros [= <-]].
  destruct (take_pane w tab pane) as [v [moved|f]] eqn:E; [done|].
  intros [= <- _]. by eapply take_pane_Err.
Qed.

(** The destination Tab survives taking a Pane from another Tab. *)
Lemma Taken_lookup_other w tab pane w' moved i t :
  Taken w tab pane w' moved → w_tabs w !! i = Some t → t_id t ≠ tab →
  w_tabs w' !! i = Some t.
Proof.
  intros [(l1 & s & l2 & s' & _ & _ & _ & Hl & Hs & _ & -> & _)] Hi Hne. simpl.
  rw Hl in Hi. destruct (decide (i = length l1)) as [->|Hn].
  - rw lookup_split in Hi. by simplify_eq.
  - destruct (decide (i < length l1)) as [Hlt|Hge].
    + rw lookup_app_l // in Hi. by rw lookup_app_l.
    + rw lookup_app_r in Hi; [lia|]. rw lookup_app_r; [lia|].
      destruct (i - length l1) eqn:E; [lia|]. done.
Qed.

Lemma alter_split {A} (f : A → A) (l1 l2 : list A) x :
  alter f (length l1) (l1 ++ x :: l2) = l1 ++ f x :: l2.
Proof. rw alter_app_r_alt; [done|]. by rw Nat.sub_diag. Qed.

Lemma lookup_split_inv {A} (l : list A) i x :
  l !! i = Some x → ∃ l1 l2, l = l1 ++ x :: l2 ∧ length l1 = i.
Proof.
  intros H. exists (take i l), (drop (S i) l). split; [by rw take_drop_middle|].
  apply length_take_le. apply lookup_lt_Some in H. lia.
Qed.

Lemma push_pane_ok t p :
  tab_ok t → pane_ok p → (∀ s, p_source p = Some s → s ∈ map p_id (t_panes t)) →
  tab_ok (set_t_panes (t_panes t ++ [p]) t).
Proof.
  intros (H1 & H2 & H3 & Hr & Hs & Hok) Hp Hsrc. repeat split; try done; simpl.
  - rw map_app. by apply root_first_app.
  - apply sources_ok_app. split; [done|]. simpl. by split.
  - apply Forall_app. split; [done|]. by apply Forall_singleton.
Qed.

Lemma move_pane_beside_Ok w tab pane into beside side w' :
  workspace_wf w → move_pane_beside w tab pane into beside side = (w', Ok tt) →
  Rearranged w w' ∧ map t_id (w_tabs w') = map t_id (w_tabs w).
Proof.
  intros Hwf. unfold move_pane_beside.
  destruct (destination w tab into beside) as [i|] eqn:Ed; [|done].
  destruct (take_pane w tab pane) as [v [moved|f]] eqn:E; [|done]. intros [= <-].
  apply take_pane_Ok in E. apply destination_Ok in Ed as (Hne & t & Hi & Hti & Hb).
  destruct (Taken_spec _ _ _ _ _ Hwf E) as ((Hpin & Hroot & Htabs) & Hmok & Hmid & Hms & Hids & Hc & Hfr).
  assert (w_tabs v !! i = Some t) as Hiv by (eapply Taken_lookup_other; eauto; congruence).
  destruct (lookup_split_inv _ _ _ Hiv) as (l1 & l2 & Hl & <-).
  assert (alter (λ t, set_t_panes (t_panes t ++ [set_p_place (Some beside) side moved]) t)
            (length l1) (w_tabs v)
          = l1 ++ set_t_panes (t_panes t ++ [set_p_place (Some beside) side moved]) t :: l2) as Ha
    by (rw Hl alter_split //).
  split; [split|].
  - by rw Hfr.
  - split; [done|]. rw /= Ha. rw Hl in Hroot Htabs. split; [by rw !map_app in Hroot |- *|].
    apply Forall_app in Htabs as [? [? ?]%Forall_cons]. apply Forall_app. split; [done|].
    constructor; [|done]. apply push_pane_ok; [done|by apply pane_ok_place|].
    simpl. by intros s [= <-].
  - unfold workspace_panes in *. rw /= Ha Hc. rw Hl !flat_map_app /= !cores_app /=.
    assert (pane_core (set_p_place (Some beside) side moved) = moved) as ->.
    { destruct E as [(?&?&?&?&?&?&?&_&_&_&_&_&_&_&->&_)]. done. }
    solve_Permutation.
  - rw /= Ha -Hids Hl !map_app. done.
Qed.

(** A non-empty Workspace regains its Root Tab by promotion, which touches no
    Pane and no identity. *)
Lemma promote_spec w :
  let w' := promote_root_tab w in
  workspace_panes w' = workspace_panes w ∧ map t_id (w_tabs w') = map t_id (w_tabs w) ∧
  w' = set_w_root_tab (w_root_tab w') (set_w_tabs (w_tabs w') w).
Proof.
  unfold promote_root_tab, workspace_panes. destruct w as [????? r ts]; simpl.
  destruct ts as [|t ts]; [done|]. case_bool; simpl; [|done]. by case_bool.
Qed.

Lemma promote_ok w :
  opt_path_ok (w_pinned_directory w) → w_tabs w ≠ [] → Forall tab_ok (w_tabs w) →
  workspace_ok (promote_root_tab w).
Proof.
  intros Hp Hne Ht. unfold promote_root_tab.
  destruct (w_tabs w) as [|t ts] eqn:E; [done|]. apply Forall_cons in Ht as [Ht Hts].
  destruct (bool_decide_reflect (t_id t ≠ w_root_tab w)) as [Hr|Hr].
  - split; [done|]. split; [done|]. constructor; [|done]. by case_bool.
  - apply dec_stable in Hr. split; [done|]. split; [|by rw E; constructor].
    unfold root_first. rw E /=. by f_equal.
Qed.

Lemma merge_found w tab into beside i l1 m l2 :
  destination w tab into beside = Ok i → w_tabs w = l1 ++ m :: l2 → t_id m = tab →
  ∃ t, t ∈ l1 ++ l2 ∧ t_id t = into ∧ beside ∈ map p_id (t_panes t).
Proof.
  intros (Hne & t & Hi & Ht & Hb)%destination_Ok Hl Hm. exists t. split; [|done].
  apply list_elem_of_lookup_2 in Hi. rw Hl elem_of_app elem_of_cons in Hi.
  apply elem_of_app. destruct Hi as [?|[->|?]]; [by left| congruence |by right].
Qed.

Lemma merge_tab_Err w tab into beside side w' e :
  merge_tab w tab into beside side = (w', Err e) → w' = w.
Proof.
  unfold merge_tab. destruct (destination w tab into beside) as [i|] eqn:Ed; [|by intros [= <-]].
  destruct (vposition _ _) as [j|] eqn:Ej; [|by intros [= <-]].
  apply vposition_Some in Ej as (l1 & m & l2 & Hl & <- & Hm%bool_decide_eq_true & _).
  rw Hl lookup_split vremove_split. destruct (merge_found _ _ _ _ _ _ _ _ Ed Hl Hm) as (t & Hin & Ht & _).
  destruct (vfind_is_Some (has_id_t into) _ _ Hin) as [u ->]; [by apply bool_decide_eq_true|].
  done.
Qed.

Lemma NoDup_map_eq {A B} (f : A → B) (l : list A) x y :
  NoDup (map f l) → x ∈ l → y ∈ l → f x = f y → x = y.
Proof.
  intros Hnd [i Hi]%list_elem_of_lookup [j Hj]%list_elem_of_lookup E.
  assert (i = j) as ->.
  { eapply NoDup_lookup; [exact Hnd| |]; change (map f l) with (f <$> l);
      rw list_lookup_fmap; [by rw Hi /= E|by rw Hj]. }
  by simplify_eq.
Qed.

Lemma NoDup_tab_ids w : NoDup (workspace_ids w) → NoDup (map t_id (w_tabs w)).
Proof.
  rw workspace_ids_panes /=. intros [_ Hnd]%NoDup_cons. by apply NoDup_app in Hnd as (? & _).
Qed.

Lemma merge_tab_ok t m root beside side :
  tab_ok t → tab_ok m → t_root_pane m = root → beside ∈ map p_id (t_panes t) →
  tab_ok (set_t_panes (t_panes t ++ map (merge_pane root beside side) (t_panes m)) t).
Proof.
  intros (H1 & H2 & H3 & Hr & Hs & Hok) (_ & _ & _ & Mr & Ms & Mok) <- Hb.
  repeat split; try done; simpl.
  - rw map_app. by apply root_first_app.
  - by apply sources_ok_merge_tab.
  - apply Forall_app. split; [done|]. apply Forall_map.
    eapply Forall_impl; [exact Mok|]. intros p. apply pane_ok_merge.
Qed.

Lemma merge_tab_Ok w tab into beside side w' :
  workspace_wf w → merge_tab w tab into beside side = (w', Ok tt) →
  Rearranged w w' ∧ map t_id (w_tabs w) ≡ₚ tab :: map t_id (w_tabs w').
Proof.
  intros [(Hpin & Hroot & Htabs) Hnd]. unfold merge_tab.
  destruct (destination w tab into beside) as [i|] eqn:Ed; [|done].
  destruct (vposition _ _) as [j|] eqn:Ej; [|done].
  apply vposition_Some in Ej as (l1 & m & l2 & Hl & <- & Hm%bool_decide_eq_true & _).
  rw Hl lookup_split vremove_split.
  destruct (merge_found _ _ _ _ _ _ _ _ Ed Hl Hm) as (t & Hin & Ht & Hb).
  destruct (vfind (has_id_t into) (l1 ++ l2)) as [u|] eqn:Eu; [|done].
  apply vfind_split in Eu as (k1 & k2 & Hk & Hu & Hk1).
  rw Hk (vupdate_split _ _ _ _ _ Hk1 Hu). intros [= <-].
  apply NoDup_tab_ids in Hnd. rw Hl in Hnd Htabs.
  assert (l1 ++ m :: l2 ≡ₚ m :: k1 ++ u :: k2) as Hperm.
  { rw -Hk. by rw Permutation_middle. }
  rw Hperm in Htabs. apply Forall_cons in Htabs as [Hmok Hkok].
  rw Hperm /= in Hnd. apply NoDup_cons in Hnd as [_ Hnd].
  assert (t = u) as <-.
  { rw Hk in Hin. eapply NoDup_map_eq; [exact Hnd|done|apply elem_of_app; right; by left|].
    by apply bool_decide_eq_true in Hu as ->. }
  set (w1 := set_w_tabs _ w). destruct (promote_spec w1) as (Hpp & Hpi & Hpf).
  split; [split|].
  - by rw Hpf.
  - apply promote_ok; [done|simpl; by destruct k1|]. simpl.
    apply Forall_app in Hkok as [? [Htok ?]%Forall_cons]. apply Forall_app. split; [done|].
    constructor; [|done]. by apply merge_tab_ok.
  - rw Hpp /w1 /workspace_panes /= Hl. rw Hperm.
    rw /= !flat_map_app /= !cores_app cores_map; [apply core_merge|]. solve_Permutation.
  - rw Hpi /w1 /= Hperm /= Hm !map_app. done.
Qed.
