(* ===== verification/Forest.v ===== *)
(** * The forest of Workspaces

    The invariant on a whole Workspace list: every Workspace is well formed,
    identities are distinct and never zero, and the three counts stay within
    the protocol's limits. Each operation of [hierarchy.rs] that adds, rewrites
    or removes a node is shown to keep it. *)
From S2P Require Import Prelude.
From S2P Require Import Text.
From S2P Require Import Facts.
From S2P Require Import HierarchyTypes.
From S2P Require Import HierarchyWorkspace.
From S2P Require Import HierarchyState.
From S2P Require Import NamesProofs.
From S2P Require Import ForestInv.

Definition all_tabs (ws : list Workspace) : list Tab := flat_map w_tabs ws.

Record Forest (ws : list Workspace) : Prop := {
  fo_ok : Forall workspace_ok ws;
  fo_distinct : NoDup (all_ids ws);
  fo_nonzero : zero_id ∉ all_ids ws;
  fo_workspaces : length ws ≤ MAX_WORKSPACES;
  fo_tabs : length (all_tabs ws) ≤ MAX_TABS;
  fo_panes : length (all_panes ws) ≤ MAX_PANES
}.

(** The identities by kind. *)
Definition wids (ws : list Workspace) : list Id := map w_id ws.
Definition tids (ws : list Workspace) : list Id := map t_id (all_tabs ws).
Definition pids (ws : list Workspace) : list Id := map p_id (all_panes ws).

Lemma tids_app ws1 ws2 : tids (ws1 ++ ws2) = tids ws1 ++ tids ws2.
Proof. by rw /tids /all_tabs flat_map_app map_app. Qed.
Lemma pids_app ws1 ws2 : pids (ws1 ++ ws2) = pids ws1 ++ pids ws2.
Proof. by rw /pids /all_panes flat_map_app map_app. Qed.
Lemma wids_app ws1 ws2 : wids (ws1 ++ ws2) = wids ws1 ++ wids ws2.
Proof. apply map_app. Qed.
Lemma tids_cons w ws : tids (w :: ws) = map t_id (w_tabs w) ++ tids ws.
Proof. by rw /tids /= map_app. Qed.
Lemma pids_cons w ws : pids (w :: ws) = map p_id (workspace_panes w) ++ pids ws.
Proof. by rw /pids /= map_app. Qed.

Lemma all_ids_census ws : all_ids ws ≡ₚ wids ws ++ tids ws ++ pids ws.
Proof.
  induction ws as [|w ws IH]; [done|]. rw tids_cons pids_cons /=.
  change (flat_map workspace_ids ws) with (all_ids ws). rw IH tabs_ids_panes. simpl.
  constructor. change (tabs_panes (w_tabs w)) with (workspace_panes w). solve_Permutation.
Qed.

Lemma all_ids_app ws1 ws2 : all_ids (ws1 ++ ws2) = all_ids ws1 ++ all_ids ws2.
Proof. apply flat_map_app. Qed.

Lemma all_ids_cons w ws : all_ids (w :: ws) = workspace_ids w ++ all_ids ws.
Proof. done. Qed.

Lemma Forest_workspace_wf ws w : Forest ws → w ∈ ws → workspace_wf w.
Proof.
  intros [Hok Hnd _ _ _ _] Hin. rw Forall_forall in Hok. split; [auto|].
  apply list_elem_of_split in Hin as (l1 & l2 & ->). rw all_ids_app all_ids_cons in Hnd.
  apply NoDup_app in Hnd as (_ & _ & Hnd). by apply NoDup_app in Hnd as (? & _).
Qed.

Lemma Forest_wids ws : Forest ws → NoDup (wids ws).
Proof. intros [_ Hnd _ _ _ _]. rw all_ids_census in Hnd. by apply NoDup_app in Hnd as (? & _). Qed.

Lemma Forest_pids ws : Forest ws → NoDup (pids ws).
Proof.
  intros [_ Hnd _ _ _ _]. rw all_ids_census in Hnd.
  apply NoDup_app in Hnd as (_ & _ & Hnd). by apply NoDup_app in Hnd as (_ & _ & ?).
Qed.

(** Identities that occur nowhere yet. *)
Definition fresh_for (ids : list Id) (new : list Id) : Prop :=
  NoDup new ∧ (zero_id ∉ new) ∧ (∀ x, x ∈ new → x ∉ ids).

(** A forest whose identities are some of the old ones and some fresh ones. *)
Lemma Forest_grow ws ws' nw nt np :
  Forest ws → Forall workspace_ok ws' → fresh_for (all_ids ws) (nw ++ nt ++ np) →
  wids ws' ⊆+ nw ++ wids ws → tids ws' ⊆+ nt ++ tids ws → pids ws' ⊆+ np ++ pids ws →
  length ws' ≤ MAX_WORKSPACES → length (all_tabs ws') ≤ MAX_TABS →
  length (all_panes ws') ≤ MAX_PANES → Forest ws'.
Proof.
  intros [_ Hnd Hz _ _ _] Hok (Fn & Fz & Fd) Hw Ht Hp ???.
  assert (all_ids ws' ⊆+ (nw ++ nt ++ np) ++ all_ids ws) as Hsub.
  { rw !all_ids_census. etrans; [apply submseteq_app; [exact Hw|apply submseteq_app; [exact Ht|exact Hp]]|].
    apply Permutation_submseteq. solve_Permutation. }
  split; try done.
  - eapply NoDup_submseteq_l; [exact Hsub|]. apply NoDup_app. auto.
  - intros Hin. eapply elem_of_submseteq in Hin; [|exact Hsub]. apply elem_of_app in Hin as [?|?]; done.
Qed.

Lemma Forest_sub ws ws' :
  Forest ws → Forall workspace_ok ws' → wids ws' ⊆+ wids ws → tids ws' ⊆+ tids ws →
  pids ws' ⊆+ pids ws → Forest ws'.
Proof.
  intros HF Hok Hw Ht Hp. pose proof HF as [_ _ _ Lw Lt Lp].
  eapply (Forest_grow ws ws' [] [] []); try done.
  - split; [constructor|]. split; set_solver.
  - apply submseteq_length in Hw. unfold wids in Hw. rw !length_map in Hw. lia.
  - apply submseteq_length in Ht. unfold tids in Ht. rw !length_map in Ht. lia.
  - apply submseteq_length in Hp. unfold pids in Hp. rw !length_map in Hp. lia.
Qed.

(** Rewriting Workspaces in place without touching an identity. *)
Definition same_ids (w w' : Workspace) : Prop :=
  w_id w' = w_id w ∧ map t_id (w_tabs w') = map t_id (w_tabs w) ∧
  map p_id (workspace_panes w') = map p_id (workspace_panes w).

Lemma same_ids_refl w : same_ids w w.
Proof. done. Qed.

Lemma same_ids_all ws ws' :
  Forall2 same_ids ws ws' → wids ws' = wids ws ∧ tids ws' = tids ws ∧ pids ws' = pids ws.
Proof.
  induction 1 as [|w w' ws ws' (H1 & H2 & H3) _ (I1 & I2 & I3)]; [done|].
  rw !tids_cons !pids_cons /= H1 H2 H3 I2 I3. unfold wids in *. by rw I1.
Qed.

Lemma Forest_same ws ws' :
  Forest ws → Forall2 same_ids ws ws' → Forall workspace_ok ws' → Forest ws'.
Proof.
  intros HF (Hw & Ht & Hp)%same_ids_all Hok. eapply Forest_sub; [done|done|..]; by rw ?Hw ?Ht ?Hp.
Qed.

Lemma renamed_same_ids w w' : renamed w w' → same_ids w w'.
Proof. unfold renamed. by intros ->. Qed.
Lemma renamed_ok w w' : renamed w w' → workspace_ok w → workspace_ok w'.
Proof. unfold renamed. by intros ->. Qed.

Lemma Forest_renamed ws ws' : Forall2 renamed ws ws' → Forest ws → Forest ws'.
Proof.
  intros Hr HF. eapply Forest_same; [exact HF|..].
  - eapply Forall2_impl; [exact Hr|]. apply renamed_same_ids.
  - destruct HF as [Hok _ _ _ _ _]. induction Hr as [|w w' ws ws' Hw _ IH]; [done|].
    apply Forall_cons in Hok as [? ?]. constructor; [by eapply renamed_ok|auto].
Qed.

(** ** Rewriting one Workspace *)

Lemma tids_length ws : length (tids ws) = length (all_tabs ws).
Proof. apply length_map. Qed.
Lemma pids_length ws : length (pids ws) = length (all_panes ws).
Proof. apply length_map. Qed.

Lemma Forest_replace l1 w l2 w' nt np :
  Forest (l1 ++ w :: l2) → workspace_ok w' → w_id w' = w_id w →
  fresh_for (all_ids (l1 ++ w :: l2)) (nt ++ np) →
  map t_id (w_tabs w') ⊆+ nt ++ map t_id (w_tabs w) →
  map p_id (workspace_panes w') ⊆+ np ++ map p_id (workspace_panes w) →
  length nt + length (all_tabs (l1 ++ w :: l2)) ≤ MAX_TABS →
  length np + length (all_panes (l1 ++ w :: l2)) ≤ MAX_PANES →
  Forest (l1 ++ w' :: l2).
Proof.
  intros HF Hok Hid Hfr Ht Hp Lt Lp. pose proof HF as [Hoks _ _ Lw _ _].
  assert (tids (l1 ++ w' :: l2) ⊆+ nt ++ tids (l1 ++ w :: l2)) as Ht'.
  { rw !tids_app !tids_cons. etrans; [apply submseteq_app; [done|by apply submseteq_app]|].
    apply Permutation_submseteq. solve_Permutation. }
  assert (pids (l1 ++ w' :: l2) ⊆+ np ++ pids (l1 ++ w :: l2)) as Hp'.
  { rw !pids_app !pids_cons. etrans; [apply submseteq_app; [done|by apply submseteq_app]|].
    apply Permutation_submseteq. solve_Permutation. }
  eapply (Forest_grow _ _ [] nt np); try done.
  - apply Forall_app in Hoks as [? [? ?]%Forall_cons]. apply Forall_app. split; [done|by constructor].
  - rw !wids_app /= /wids /= Hid. done.
  - rw !length_app /= in Lw |- *. done.
  - apply submseteq_length in Ht'. rw length_app !tids_length in Ht'. lia.
  - apply submseteq_length in Hp'. rw length_app !pids_length in Hp'. lia.
Qed.

(** A move inside one Workspace: no new Pane. *)
Lemma Forest_rearranged l1 w l2 w' nt :
  Forest (l1 ++ w :: l2) → Rearranged w w' →
  fresh_for (all_ids (l1 ++ w :: l2)) nt →
  map t_id (w_tabs w') ⊆+ nt ++ map t_id (w_tabs w) →
  length nt + length (all_tabs (l1 ++ w :: l2)) ≤ MAX_TABS →
  Forest (l1 ++ w' :: l2).
Proof.
  intros HF [Hfr Hok Hc] Hn Ht Lt. pose proof HF as [_ _ _ _ _ Lp].
  eapply (Forest_replace _ w _ _ nt []); try done.
  - by rw Hfr.
  - by rw app_nil_r.
  - rw cores_ids (cores_ids (workspace_panes w)) Hc. done.
Qed.

Lemma vfind_vupdate_split {A} (p : A → bool) (l : list A) x :
  vfind p l = Some x →
  ∃ l1 l2, l = l1 ++ x :: l2 ∧ p x = true ∧ ∀ f, vupdate p f l = l1 ++ f x :: l2.
Proof.
  intros (l1 & l2 & -> & Hx & Hl)%vfind_split. exists l1, l2. split; [done|]. split; [done|].
  intros f. by apply vupdate_split.
Qed.

(** ** Removing a Pane everywhere *)

Definition keeps (id : Id) (p : Pane) : bool := negb (has_id_p id p).

Lemma cores_vfilter id ps : cores (vfilter (keeps id) ps) = vfilter (keeps id) (cores ps).
Proof.
  unfold vfilter. induction ps as [|p ps IH]; [done|]. simpl.
  change (keeps id (pane_core p)) with (keeps id p). destruct (keeps id p); simpl; [by f_equal|done].
Qed.

Lemma cores_drop_lost ps : cores (drop_lost_sources ps) = cores ps.
Proof.
  unfold drop_lost_sources. apply cores_map. intros p. destruct (p_source p); [|done]. by case_match.
Qed.

Lemma drop_lost_ids ps : map p_id (drop_lost_sources ps) = map p_id ps.
Proof. by rw cores_ids cores_drop_lost -cores_ids. Qed.

Lemma drop_lost_empty ps : is_empty (drop_lost_sources ps) = is_empty ps.
Proof. by destruct ps. Qed.

Lemma remove_from_tab_cores id t :
  cores (t_panes (remove_from_tab id t)) = vfilter (keeps id) (cores (t_panes t)).
Proof. rw /= cores_drop_lost. apply cores_vfilter. Qed.

Lemma remove_from_tab_ok id t :
  tab_ok t → t_panes (remove_from_tab id t) ≠ [] → tab_ok (remove_from_tab id t).
Proof.
  intros (H1 & H2 & H3 & Hr & Hs & Hok) Hne. repeat split; try done.
  - unfold root_first. rw /= drop_lost_ids. simpl in Hne.
    destruct (vfilter _ (t_panes t)) as [|p ps] eqn:E; [done|]. done.
  - rw /= /drop_lost_sources. eapply (sources_ok_restrict [id]); [exact Hs|..].
    + intros p. destruct (p_source p); [|done]. by case_match.
    + intros p s Hp. destruct (p_source p) as [s'|] eqn:E; [|by rw E].
      destruct (bool_decide_reflect (s' ∈ map p_id (vfilter (λ p, negb (has_id_p id p)) (t_panes t))))
        as [Hin|Hn]; simpl; [|done].
      rw E. intros [= <-]. split; [done|]. rw list_elem_of_singleton. intros ->.
      apply elem_of_map in Hin as (q & Hq & [Hk _]%elem_of_vfilter).
      apply negb_true_iff, bool_decide_eq_false in Hk. done.
    + intros p _ Hk%negb_false_iff%bool_decide_eq_true. rw Hk. by left.
    + done.
  - rw /= /drop_lost_sources. apply Forall_map. eapply Forall_impl; [by apply Forall_vfilter|].
    intros p Hp. simpl. destruct (p_source p); [|done]. case_match; auto with hier.
Qed.

Lemma flat_map_nonempty {A B} (f : A → list B) l :
  flat_map f (vfilter (λ x, negb (is_empty (f x))) l) = flat_map f l.
Proof.
  unfold vfilter. induction l as [|x l IH]; [done|]. simpl. destruct (f x) eqn:E; simpl; [done|].
  by rw E IH.
Qed.

Lemma remove_from_workspace_cores id w :
  cores (workspace_panes (remove_from_workspace id w))
  = vfilter (keeps id) (cores (workspace_panes w)).
Proof.
  unfold remove_from_workspace. destruct (promote_spec (set_w_tabs
    (vfilter (λ t, negb (is_empty (t_panes t))) (map (remove_from_tab id) (w_tabs w))) w)) as (-> & _ & _).
  unfold workspace_panes. rw /= flat_map_nonempty flat_map_map.
  induction (w_tabs w) as [|t ts IH]; [done|].
  cbn [flat_map]. rw !cores_app vfilter_app IH. f_equal. apply remove_from_tab_cores.
Qed.

Lemma remove_from_workspace_tabs id w :
  map t_id (w_tabs (remove_from_workspace id w)) ⊆+ map t_id (w_tabs w).
Proof.
  unfold remove_from_workspace. set (v := set_w_tabs _ w).
  destruct (promote_spec v) as (_ & -> & _). rw /v /=.
  induction (w_tabs w) as [|t ts IH]; [done|]. unfold vfilter in *. simpl.
  destruct (negb _); simpl; [by apply submseteq_skip | by apply submseteq_cons].
Qed.

Lemma remove_from_workspace_frame id w :
  w_id (remove_from_workspace id w) = w_id w.
Proof.
  unfold remove_from_workspace. set (v := set_w_tabs _ w).
  by destruct (promote_spec v) as (_ & _ & ->).
Qed.

Lemma promote_tabs_empty w : is_empty (w_tabs (promote_root_tab w)) = is_empty (w_tabs w).
Proof.
  destruct (promote_spec w) as (_ & H & _). by destruct (w_tabs w), (w_tabs (promote_root_tab w)).
Qed.

Lemma remove_from_workspace_ok id w :
  workspace_ok w → is_empty (w_tabs (remove_from_workspace id w)) = false →
  workspace_ok (remove_from_workspace id w).
Proof.
  intros (Hp & Hr & Ht). unfold remove_from_workspace. rw promote_tabs_empty. intros Hne.
  apply promote_ok; [done|by intros E; rw E in Hne|]. simpl.
  apply Forall_forall. intros t [Hk Hin]%elem_of_vfilter.
  apply elem_of_map in Hin as (u & -> & Hu). rw Forall_forall in Ht.
  apply remove_from_tab_ok; [auto|]. by destruct (t_panes (remove_from_tab id u)).
Qed.

Lemma remove_from_workspaces_cores id ws :
  cores (all_panes (remove_from_workspaces id ws)) = vfilter (keeps id) (cores (all_panes ws)).
Proof.
  unfold remove_from_workspaces, all_panes.
  induction ws as [|w ws IH]; [done|]. unfold vfilter in *. simpl.
  rw cores_app List.filter_app -IH.
  change (List.filter (keeps id) (cores (workspace_panes w)))
    with (vfilter (keeps id) (cores (workspace_panes w))). rw -remove_from_workspace_cores.
  destruct (is_empty (w_tabs (remove_from_workspace id w))) eqn:E; simpl; [|by rw cores_app].
  unfold workspace_panes at 2. by destruct (w_tabs (remove_from_workspace id w)).
Qed.

Lemma wids_vfilter (p : Workspace → bool) ws : wids (vfilter p ws) ⊆+ wids ws.
Proof.
  unfold vfilter, wids. induction ws as [|w ws IH]; [done|]. simpl.
  destruct (p w); simpl; [by apply submseteq_skip | by apply submseteq_cons].
Qed.

Lemma remove_from_workspaces_wids id ws :
  wids (remove_from_workspaces id ws) ⊆+ wids ws.
Proof.
  unfold remove_from_workspaces. etrans; [apply wids_vfilter|].
  unfold wids. rw map_map. erewrite map_ext; [done|]. apply remove_from_workspace_frame.
Qed.

Lemma remove_from_workspaces_tids id ws : tids (remove_from_workspaces id ws) ⊆+ tids ws.
Proof.
  unfold remove_from_workspaces, tids, all_tabs. rw !map_flat_map.
  etrans; [apply submseteq_flat_map_vfilter|]. rw flat_map_map.
  apply submseteq_flat_map. intros w _. apply remove_from_workspace_tabs.
Qed.

Lemma submseteq_vfilter {A} (p : A → bool) l : vfilter p l ⊆+ l.
Proof.
  unfold vfilter. induction l as [|x l IH]; simpl; [done|].
  destruct (p x); [by apply submseteq_skip | by apply submseteq_cons].
Qed.

Lemma pids_vfilter id ps :
  map p_id (vfilter (keeps id) ps) = vfilter (λ x, negb (bool_decide (x = id))) (map p_id ps).
Proof.
  unfold vfilter. induction ps as [|p ps IH]; [done|]. simpl. unfold keeps at 1, has_id_p.
  destruct (negb _); simpl; [by f_equal|done].
Qed.

Lemma remove_from_workspaces_pids id ws :
  pids (remove_from_workspaces id ws) = vfilter (λ x, negb (bool_decide (x = id))) (pids ws).
Proof.
  unfold pids. rw cores_ids remove_from_workspaces_cores pids_vfilter -cores_ids. done.
Qed.

Lemma Forest_remove id ws : Forest ws → Forest (remove_from_workspaces id ws).
Proof.
  intros HF. eapply Forest_sub; [exact HF|..].
  - destruct HF as [Hok _ _ _ _ _]. apply Forall_forall. intros v [Hk Hin]%elem_of_vfilter.
    apply elem_of_map in Hin as (w & -> & Hw). rw Forall_forall in Hok.
    apply remove_from_workspace_ok; [auto|]. by apply negb_true_iff in Hk.
  - apply remove_from_workspaces_wids.
  - apply remove_from_workspaces_tids.
  - rw remove_from_workspaces_pids. apply submseteq_vfilter.
Qed.

(** ** Rewriting Panes in place *)

(** A rewrite that keeps a Pane's identity, its place and its well-formedness. *)
Definition pane_like (p p' : Pane) : Prop :=
  p_id p' = p_id p ∧ p_source p' = p_source p ∧ (pane_ok p → pane_ok p').
Definition tab_like (t t' : Tab) : Prop :=
  Forall2 pane_like (t_panes t) (t_panes t') ∧
  ∃ m, t' = set_t_membership m (set_t_panes (t_panes t') t).
Definition workspace_like (w w' : Workspace) : Prop :=
  Forall2 tab_like (w_tabs w) (w_tabs w') ∧ w' = set_w_tabs (w_tabs w') w.

Lemma pane_like_refl p : pane_like p p.
Proof. done. Qed.
Lemma tab_like_refl t : tab_like t t.
Proof.
  split; [|exists (t_worktree_membership t); by destruct t].
  apply Forall_Forall2_diag, Forall_true. apply pane_like_refl.
Qed.
Lemma workspace_like_refl w : workspace_like w w.
Proof.
  split; [|by destruct w]. apply Forall_Forall2_diag, Forall_true. apply tab_like_refl.
Qed.

Lemma Forall2_vupdate {A} (R : A → A → Prop) p f l :
  (∀ x, R x x) → (∀ x, R x (f x)) → Forall2 R l (vupdate p f l).
Proof.
  intros Hr Hf. induction l as [|x l IH]; simpl; [done|].
  destruct (p x); constructor; auto. apply Forall_Forall2_diag, Forall_true, Hr.
Qed.

Lemma Forall2_map_r {A} (R : A → A → Prop) f (l : list A) :
  (∀ x, R x (f x)) → Forall2 R l (map f l).
Proof. intros Hf. induction l; simpl; constructor; auto. Qed.

Lemma map_panes_like f ws :
  (∀ p, pane_like p (f p)) → Forall2 workspace_like ws (map_panes f ws).
Proof.
  intros Hf. apply Forall2_map_r. intros w. split; [|done]. simpl.
  apply Forall2_map_r. intros t. split; [by apply Forall2_map_r|].
  exists (t_worktree_membership t). by destruct t.
Qed.

Lemma update_pane_like id ft fp ws :
  (∀ t, ∃ m, ft t = set_t_membership m t) → (∀ p, pane_like p (fp p)) →
  Forall2 workspace_like ws (update_pane id ft fp ws).
Proof.
  intros Hft Hfp. apply Forall2_vupdate; [apply workspace_like_refl|]. intros w. split; [|done].
  simpl. apply Forall2_vupdate; [apply tab_like_refl|]. intros t.
  destruct (Hft (set_t_panes (vupdate (has_id_p id) fp (t_panes t)) t)) as [m ->].
  split; [|by exists m]. simpl. apply Forall2_vupdate; [apply pane_like_refl|done].
Qed.

Lemma pane_like_ids ps ps' : Forall2 pane_like ps ps' → map p_id ps' = map p_id ps.
Proof. induction 1 as [|p p' ps ps' (H & _) _ IH]; simpl; [done|]. by rw H IH. Qed.

Lemma pane_like_sources pre ps ps' :
  Forall2 pane_like ps ps' → sources_ok pre ps → sources_ok pre ps'.
Proof.
  intros H. revert pre. induction H as [|p p' ps ps' (Hi & Hs & _) _ IH]; intros pre; simpl; [done|].
  rw Hi Hs. intros [? ?]. auto.
Qed.

Lemma Forall_like {A} (P : A → Prop) (R : A → A → Prop) l l' :
  (∀ x y, R x y → P x → P y) → Forall2 R l l' → Forall P l → Forall P l'.
Proof.
  intros HR. induction 1; [done|]. intros [? ?]%Forall_cons. constructor; eauto.
Qed.

Lemma tab_like_ok t t' : tab_like t t' → tab_ok t → tab_ok t'.
Proof.
  intros (Hp & m & Ht) (H1 & H2 & H3 & Hr & Hs & Hok). rw Ht. repeat split; try done; simpl.
  - by rw (pane_like_ids _ _ Hp).
  - by eapply pane_like_sources.
  - eapply Forall_like; [|exact Hp|exact Hok]. intros p q (_ & _ & ?). done.
Qed.

Lemma tab_like_id t t' : tab_like t t' → t_id t' = t_id t.
Proof. by intros (_ & m & ->). Qed.

Lemma tabs_like_panes ts ts' :
  Forall2 tab_like ts ts' → Forall2 pane_like (flat_map t_panes ts) (flat_map t_panes ts').
Proof. induction 1 as [|t t' ts ts' (H & _) _ IH]; simpl; [done|]. by apply Forall2_app. Qed.

Lemma Forall2_map_eq {A B} (f : A → B) (R : A → A → Prop) l l' :
  (∀ x y, R x y → f y = f x) → Forall2 R l l' → map f l' = map f l.
Proof. intros Hf. induction 1; simpl; [done|]. f_equal; auto. Qed.

Lemma workspace_like_ok w w' : workspace_like w w' → workspace_ok w → workspace_ok w'.
Proof.
  intros (Ht & Hw) (H1 & Hr & Hok). rw Hw. split; [done|]. simpl. split.
  - by rw (Forall2_map_eq t_id _ _ _ tab_like_id Ht).
  - eapply Forall_like; [apply tab_like_ok|exact Ht|exact Hok].
Qed.

Lemma workspace_like_ids w w' : workspace_like w w' → same_ids w w'.
Proof.
  intros (Ht & Hw). split; [by rw Hw|]. split.
  - by apply (Forall2_map_eq t_id _ _ _ tab_like_id).
  - by apply pane_like_ids, tabs_like_panes.
Qed.

Lemma workspace_like_wids ws ws' : Forall2 workspace_like ws ws' → map w_id ws' = map w_id ws.
Proof. apply Forall2_map_eq. by intros w w' (_ & ->). Qed.

Lemma Forest_like ws ws' : Forall2 workspace_like ws ws' → Forest ws → Forest ws'.
Proof.
  intros Hl HF. eapply Forest_same; [exact HF|..].
  - eapply Forall2_impl; [exact Hl|]. apply workspace_like_ids.
  - destruct HF as [Hok _ _ _ _ _]. eapply Forall_like; [apply workspace_like_ok|done|done].
Qed.
