(* ===== verification/HierarchyInv.v ===== *)
(** * The hierarchy's invariant

    What every state of a server satisfies, in three parts: the named forest,
    the devices' retained outcomes, and the live facts a confirmation quotes.
    [validate] accepts every state that satisfies it. *)
From S2P Require Import Prelude.
From S2P Require Import Text.
From S2P Require Import Facts.
From S2P Require Import HierarchyTypes.
From S2P Require Import HierarchyWorkspace.
From S2P Require Import HierarchyState.
From S2P Require Import HierarchyValidate.
From S2P Require Import NamesProofs.
From S2P Require Import ForestInv.
From S2P Require Import Forest.

(** ** The named forest *)

(** Between an edit and the recalculation of names, a Workspace may lack a
    valid name as long as its automatic base is about to change. *)
Record Unnamed (home : option path) (names : list WorkspaceName) (ws : list Workspace) : Prop := {
  un_forest : Forest ws;
  un_aligned : aligned names ws;
  un_customs : ∀ n c, n ∈ names → n_custom n = Some c → valid_name c = true;
  un_names : ∀ w n, w ∈ ws → vfind (names_entry (w_id w)) names = Some n →
               n_automatic_base n = automatic_base home w → valid_name (w_name w) = true;
  un_home : opt_path_ok home;
  un_homed : ws ≠ [] → home ≠ None
}.

Record Named (home : option path) (names : list WorkspaceName) (ws : list Workspace) : Prop := {
  nm_forest : Forest ws;
  nm_aligned : aligned names ws;
  nm_customs : ∀ n c, n ∈ names → n_custom n = Some c → valid_name c = true;
  nm_names : Forall (λ w, valid_name (w_name w) = true) ws;
  nm_home : opt_path_ok home;
  nm_homed : ws ≠ [] → home ≠ None
}.

Lemma Named_Unnamed home names ws : Named home names ws → Unnamed home names ws.
Proof.
  intros [H1 H2 H3 H4 H5 H6]. split; try done. intros w n Hw _ _. rw Forall_forall in H4. auto.
Qed.

Definition named (s : State) : Prop := Named (s_home_directory s) (s_names s) (s_workspaces s).
Definition unnamed (s : State) : Prop := Unnamed (s_home_directory s) (s_names s) (s_workspaces s).

Lemma custom_of_elem names n :
  NoDup (map n_workspace names) → n ∈ names →
  custom_of names (n_workspace n) = Some (n_custom n).
Proof.
  intros Hnd [i Hi]%list_elem_of_lookup. unfold custom_of.
  assert (vfind (names_entry (n_workspace n)) names = Some n) as ->; [|done].
  by apply (NoDup_vfind n_workspace _ i).
Qed.

Lemma recalculate_Named home names ws :
  Unnamed home names ws →
  ∃ names' ws', recalculate home names ws = Some (names', ws') ∧
    Recalculated home names ws names' ws' ∧ Named home names' ws'.
Proof.
  intros [HF Hal Hc Hn Hh Hhd]. destruct (recalculate_spec home names ws Hal) as (names' & ws' & He & Hr).
  exists names', ws'. split; [done|]. split; [done|]. pose proof Hr as [Rf Rw Rc _ _ _ _].
  assert (aligned names' ws') as Hal'.
  { destruct Hal as [Hm Hnd]. split; rw (Forall2_renamed_ids _ _ Rf) //. by rw Rw. }
  split; try done.
  - by eapply Forest_renamed.
  - intros n c Hin Hcus. destruct Hal as [Hm Hnd], Hal' as [Hm' Hnd'].
    assert (custom_of names (n_workspace n) = Some (Some c)) as Hcof.
    { rw -Rc custom_of_elem ?Hcus //. by rw Hm'. }
    unfold custom_of in Hcof. destruct (vfind _ names) as [m|] eqn:Em; [|done].
    apply vfind_Some in Em as [_ Hm2]. simpl in Hcof. injection Hcof as Hcof. by eapply Hc.
  - eapply Recalculated_valid; [exact Hal|apply HF|exact Hr|exact Hc|exact Hn].
  - intros Hne. apply Hhd. intros ->. by apply Forall2_nil_inv_l in Rf.
Qed.

(** What a state keeps when only names and Workspaces change. *)
Definition framed (s s' : State) : Prop :=
  s' = set_s_workspaces (s_workspaces s') (set_s_names (s_names s') s).

Lemma recalculate_names_spec s :
  unnamed s →
  named (recalculate_names s) ∧ framed s (recalculate_names s) ∧
  Forall2 renamed (s_workspaces s) (s_workspaces (recalculate_names s)) ∧
  Recalculated (s_home_directory s) (s_names s) (s_workspaces s)
    (s_names (recalculate_names s)) (s_workspaces (recalculate_names s)).
Proof.
  intros (names' & ws' & He & Hr & Hn)%recalculate_Named. unfold recalculate_names.
  rw He. split; [done|]. split; [by destruct s, s_inventory|]. split; [apply Hr|done].
Qed.

(** ** Retained outcomes *)

Definition outcome_ok (d : DeviceOutcomes) (i : nat) (o : RetainedOutcome) : Prop :=
  ro_sequence o = (d_retired d + N.of_nat i + 1)%N ∧ (ro_sequence o < u64_max)%N ∧
  is_bounded (ro_mutation o) = true ∧
  (ro_outcome o = Pending → is_worktree_mutation (ro_mutation o) = true).

(** A device's outcomes are the contiguous run after its retired sequence. *)
Definition device_ok (d : DeviceOutcomes) : Prop :=
  (d_retired d < u64_max)%N ∧ ∀ i o, d_pending d !! i = Some o → outcome_ok d i o.

Record Devices (ds : list DeviceOutcomes) (floor : N) : Prop := {
  dv_distinct : NoDup (map d_device ds);
  dv_ok : Forall device_ok ds;
  dv_count : length ds ≤ MAX_DEVICES;
  dv_outcomes : outcome_count ds ≤ MAX_OUTCOMES;
  dv_floor : (floor < u64_max)%N
}.

(** ** Live facts *)

(** The sessions a confirmation quotes: the current boot's, one per Pane. *)
Definition sessions_ok (boot : option Id) (c : CloseInventory) : Prop :=
  Some (ci_boot c) = boot ∧ length (ci_sessions c) ≤ MAX_PANES ∧
  NoDup (map cp_id (ci_sessions c)) ∧
  Forall (λ p, cp_id p ≠ zero_id ∧ cp_session p ≠ Some zero_id) (ci_sessions c).

Definition close_ok (boot : option Id) (c : option CloseInventory) : Prop :=
  ∀ live, c = Some live → sessions_ok boot live.
Definition ends_ok (boot : option Id) (c : option CloseInventory) : Prop :=
  ∀ ends, c = Some ends → sessions_ok boot ends ∧ length (ci_controls ends) ≤ MAX_PANES.

(** ** The invariant *)

Record Inv (s : State) : Prop := {
  inv_named : named s;
  inv_devices : Devices (s_devices s) (s_sequence_floor s);
  inv_close : close_ok (s_creator_boot s) (i_close (s_inventory s));
  inv_ends : ends_ok (s_creator_boot s) (s_session_ends s)
}.

(** Before the recalculation at the end of an edit. *)
Record RawInv (s : State) : Prop := {
  raw_unnamed : unnamed s;
  raw_devices : Devices (s_devices s) (s_sequence_floor s);
  raw_close : close_ok (s_creator_boot s) (i_close (s_inventory s));
  raw_ends : ends_ok (s_creator_boot s) (s_session_ends s)
}.

Lemma Inv_Raw s : Inv s → RawInv s.
Proof. intros [H1 H2 H3 H4]. split; try done. by apply Named_Unnamed. Qed.

Lemma recalculate_Inv s : RawInv s → Inv (recalculate_names s).
Proof.
  intros [Hu Hd Hc He]. destruct (recalculate_names_spec s Hu) as (Hn & Hf & _).
  split; [done|by rw Hf..].
Qed.

(** The revision is outside the invariant. *)
Lemma Inv_revision r s : Inv s → Inv (set_s_revision r s).
Proof. intros [H1 H2 H3 H4]. by split. Qed.
#[export] Hint Resolve Inv_Raw recalculate_Inv Inv_revision : hier.
