(* ===== verification/ValidateProofs.v ===== *)
(** * What the admission check decides

    [validate] is shown to decide a declarative well-formedness predicate, and
    every state that satisfies the hierarchy's invariant passes it. *)
From S2P Require Import Prelude.
From S2P Require Import Text.
From S2P Require Import Facts.
From S2P Require Import HierarchyTypes.
From S2P Require Import HierarchyWorkspace.
From S2P Require Import HierarchyState.
From S2P Require Import HierarchyValidate.
From S2P Require Import NamesProofs.
From S2P Require Import ForestInv.
From S2P Require Import Forest.
From S2P Require Import HierarchyInv.

(** ** The predicate *)

Definition tab_valid (t : Tab) : Prop :=
  opt_path_ok (t_worktree t) ∧ opt_path_ok (t_worktree_repository t) ∧
  (t_worktree t = None → t_worktree_repository t = None) ∧
  t_root_pane t ∈ map p_id (t_panes t) ∧
  sources_ok [] (t_panes t) ∧ Forall pane_ok (t_panes t).

Definition workspace_valid (w : Workspace) : Prop :=
  valid_name (w_name w) = true ∧ w_root_tab w ∈ map t_id (w_tabs w) ∧
  opt_path_ok (w_pinned_directory w) ∧ Forall tab_valid (w_tabs w).

(** Each Workspace has one naming record and each record names a Workspace. *)
Definition names_valid (names : list WorkspaceName) (ws : list Workspace) : Prop :=
  length names = length ws ∧
  (∀ w, w ∈ ws → length (vfilter (names_entry (w_id w)) names) = 1) ∧
  (∀ n, n ∈ names → n_workspace n ∈ map w_id ws) ∧
  (∀ n c, n ∈ names → n_custom n = Some c → valid_name c = true).

Record Valid (s : State) : Prop := {
  va_names : names_valid (s_names s) (s_workspaces s);
  va_home : opt_path_ok (s_home_directory s);
  va_homed : s_workspaces s ≠ [] → s_home_directory s ≠ None;
  va_workspaces : Forall workspace_valid (s_workspaces s);
  va_distinct : NoDup (all_ids (s_workspaces s));
  va_nonzero : zero_id ∉ all_ids (s_workspaces s);
  va_limits : length (s_workspaces s) ≤ MAX_WORKSPACES ∧
              length (all_tabs (s_workspaces s)) ≤ MAX_TABS ∧
              length (all_panes (s_workspaces s)) ≤ MAX_PANES;
  va_devices : Devices (s_devices s) (s_sequence_floor s);
  va_ends : ends_ok (s_creator_boot s) (s_session_ends s)
}.

(** Every [u64] the device records hold is one. *)
Definition representable (s : State) : Prop :=
  Forall (λ d, d_retired d ≤ u64_max)%N (s_devices s) ∧ (s_sequence_floor s ≤ u64_max)%N.

(** ** Identities *)

(** [l] can be inserted into [acc] one identity at a time. *)
Definition admits (l : list N) (acc : gset N) : Prop :=
  NoDup l ∧ (zero_id ∉ l) ∧ ∀ x, x ∈ l → x ∉ acc.

Lemma admits_app l1 l2 acc :
  admits (l1 ++ l2) acc ↔ admits l1 acc ∧ admits l2 (list_to_set l1 ∪ acc).
Proof.
  unfold admits. rw NoDup_app not_elem_of_app. setoid_rewrite elem_of_app.
  setoid_rewrite not_elem_of_union. setoid_rewrite elem_of_list_to_set. naive_solver.
Qed.

Lemma admits_nil acc : admits [] acc.
Proof. split; [constructor|]. split; [apply not_elem_of_nil|]. by intros x ?%elem_of_nil. Qed.

Lemma admits_single x acc : admits [x] acc ↔ x ≠ zero_id ∧ (x ∉ acc).
Proof.
  unfold admits. setoid_rewrite list_elem_of_singleton. split; [naive_solver|].
  intros [? ?]. split; [apply NoDup_singleton|]. naive_solver.
Qed.

Lemma insert_new_Some x acc acc' :
  insert_new x acc = Some acc' ↔ (x ∉ acc) ∧ acc' = {[x]} ∪ acc.
Proof. unfold insert_new. case_bool; naive_solver. Qed.

(** ** Field checks *)

Lemma name_invalid_spec n : name_invalid n = negb (valid_name n).
Proof.
  unfold name_invalid, valid_name. rw !negb_andb !negb_involutive Nat.leb_antisym negb_involutive.
  done.
Qed.

Lemma opt_path_invalid_spec p : opt_path_invalid p = false ↔ opt_path_ok p.
Proof.
  unfold opt_path_ok. destruct p as [d|]; simpl; [|naive_solver].
  rw negb_false_iff. split; [by intros ? ? [= <-]|auto].
Qed.

Lemma bool_decide_iff (P : Prop) `{Decision P} : bool_decide P = false ↔ ¬ P.
Proof. apply bool_decide_eq_false. Qed.

Lemma observers_check o :
  (MAX_OBSERVER_NAMES <? length (ob_names o)) = false ∧
  (is_empty (ob_names o) && negb (bool_decide (ob_others o = 0%N))) = false ↔ observers_ok o.
Proof.
  unfold observers_ok. rw Nat.ltb_ge andb_false_iff negb_false_iff bool_decide_eq_true.
  destruct (ob_names o); simpl; naive_solver.
Qed.

Lemma presentation_check s :
  match s with Some x => negb (is_ok (snapshot_validate x)) | None => false end = false
  ↔ presentation_ok s.
Proof.
  unfold presentation_ok. destruct s as [x|]; [|naive_solver]. rw negb_false_iff.
  destruct (snapshot_validate x) as [[]|] eqn:E; simpl.
  - split; [|done]. by intros _ y [= <-].
  - split; [done|]. intros H. specialize (H x eq_refl). by rw E in H.
Qed.

Lemma source_check s (preceding : list N) :
  match s with Some id => negb (bool_decide (id ∈ preceding)) | None => false end = false
  ↔ ∀ x, s = Some x → x ∈ preceding.
Proof. destruct s; [rw negb_false_iff bool_decide_eq_true|]; naive_solver. Qed.

Lemma check_pane_Some pre p acc acc' :
  check_pane pre p acc = Some acc' ↔
  admits [p_id p] acc ∧ (∀ x, p_source p = Some x → x ∈ pre) ∧ pane_ok p ∧
  acc' = {[p_id p]} ∪ acc.
Proof.
  unfold check_pane. rw admits_single.
  destruct (bool_decide_reflect (p_id p = zero_id)) as [E|E]; [naive_solver|].
  destruct (insert_new (p_id p) acc) as [acc1|] eqn:Ei.
  - apply insert_new_Some in Ei as [Hn ->].
    match goal with |- (if ?b then _ else _) = _ ↔ _ => assert (b = false ↔
      (∀ x, p_source p = Some x → x ∈ pre) ∧ pane_ok p) as Hb end.
    { rw !orb_false_iff source_check presentation_check negb_false_iff opt_path_invalid_spec.
      unfold pane_ok. rw -observers_check. tauto. }
    destruct (_ || _) in Hb |- *.
    + split; [done|]. intros (_ & H1 & H2 & _). destruct Hb as [_ Hb]. by specialize (Hb (conj H1 H2)).
    + destruct Hb as [Hb _]. destruct (Hb eq_refl) as [H1 H2]. split; [by intros [= <-]|].
      by intros (_ & _ & _ & ->).
  - split; [done|]. intros ((_ & Hn) & _).
    assert (insert_new (p_id p) acc = Some ({[p_id p]} ∪ acc)) by by apply insert_new_Some.
    congruence.
Qed.

Lemma check_panes_Some pre ps acc acc' :
  check_panes pre ps acc = Some acc' ↔
  admits (map p_id ps) acc ∧ sources_ok pre ps ∧ Forall pane_ok ps ∧
  acc' = list_to_set (map p_id ps) ∪ acc.
Proof.
  revert pre acc. induction ps as [|p ps IH]; intros pre acc; simpl.
  - split; [intros [= <-]; split; [apply admits_nil|]; split; [done|]; split; [done|set_solver]|].
    intros (_ & _ & _ & ->). f_equal. set_solver.
  - change (p_id p :: map p_id ps) with ([p_id p] ++ map p_id ps).
    rw admits_app Forall_cons.
    assert (list_to_set [p_id p] ∪ acc = {[p_id p]} ∪ acc) as -> by set_solver.
    assert (({[p_id p]} ∪ list_to_set (map p_id ps)) ∪ acc
            = list_to_set (map p_id ps) ∪ ({[p_id p]} ∪ acc)) as -> by set_solver.
    destruct (check_pane pre p acc) as [acc1|] eqn:E.
    + apply check_pane_Some in E as (Ha & Hs & Hp & ->). rw IH. tauto.
    + split; [done|]. intros ((Ha & _) & (Hs & _) & (Hp & _) & _).
      assert (check_pane pre p acc = Some ({[p_id p]} ∪ acc)) by (apply check_pane_Some; tauto).
      congruence.
Qed.

Lemma root_check root ps : vany (has_id_p root) ps = true ↔ root ∈ map p_id ps.
Proof.
  rw vany_true elem_of_map. unfold has_id_p. setoid_rewrite bool_decide_eq_true. naive_solver.
Qed.

Lemma worktree_check t :
  bool_decide (t_worktree_repository t ≠ None) && bool_decide (t_worktree t = None) = false
  ↔ (t_worktree t = None → t_worktree_repository t = None).
Proof.
  rw andb_false_iff !bool_decide_eq_false.
  destruct (t_worktree t), (t_worktree_repository t); naive_solver.
Qed.

Lemma check_tab_Some t acc acc' :
  check_tab t acc = Some acc' ↔
  admits (tab_ids t) acc ∧ tab_valid t ∧ acc' = list_to_set (tab_ids t) ∪ acc.
Proof.
  unfold check_tab, tab_ids. change (t_id t :: map p_id (t_panes t)) with ([t_id t] ++ map p_id (t_panes t)).
  rw admits_app admits_single list_to_set_app_L.
  assert (list_to_set [t_id t] = ({[t_id t]} : gset N)) as -> by set_solver.
  assert (({[t_id t]} ∪ list_to_set (map p_id (t_panes t))) ∪ acc
          = list_to_set (map p_id (t_panes t)) ∪ ({[t_id t]} ∪ acc)) as -> by set_solver.
  match goal with |- (if ?b then _ else _) = _ ↔ _ => assert (b = false ↔
    t_id t ≠ zero_id ∧ opt_path_ok (t_worktree t) ∧ opt_path_ok (t_worktree_repository t) ∧
    (t_worktree t = None → t_worktree_repository t = None)) as Hb end.
  { rw !orb_false_iff bool_decide_eq_false !opt_path_invalid_spec worktree_check. tauto. }
  unfold tab_valid. destruct (_ || _) in Hb |- *.
  { destruct Hb as [_ Hb]. split; [done|]. intros (((? & _) & _) & (? & ? & ? & _) & _).
    discriminate Hb. done. }
  destruct Hb as [Hb _]. destruct (Hb eq_refl) as (Hz & H1 & H2 & H3). clear Hb.
  destruct (insert_new (t_id t) acc) as [acc1|] eqn:Ei.
  - apply insert_new_Some in Ei as [Hn ->]. rw -root_check.
    destruct (vany _ _); simpl; [rw check_panes_Some; tauto|]. split; [done|].
    intros (_ & (_ & _ & _ & ? & _) & _). done.
  - split; [done|]. intros (((_ & Hn) & _) & _).
    assert (insert_new (t_id t) acc = Some ({[t_id t]} ∪ acc)) by by apply insert_new_Some.
    congruence.
Qed.

Lemma check_tabs_Some ts acc acc' :
  check_tabs ts acc = Some acc' ↔
  admits (tabs_ids ts) acc ∧ Forall tab_valid ts ∧ acc' = list_to_set (tabs_ids ts) ∪ acc.
Proof.
  revert acc. induction ts as [|t ts IH]; intros acc.
  - simpl. split; [intros [= <-]; split; [apply admits_nil|]; split; [done|set_solver]|].
    intros (_ & _ & ->). f_equal. set_solver.
  - change (tabs_ids (t :: ts)) with (tab_ids t ++ tabs_ids ts).
    rw admits_app Forall_cons list_to_set_app_L. cbn [check_tabs].
    assert ((list_to_set (tab_ids t) ∪ list_to_set (tabs_ids ts)) ∪ acc
            = list_to_set (tabs_ids ts) ∪ (list_to_set (tab_ids t) ∪ acc)) as -> by set_solver.
    destruct (check_tab t acc) as [acc1|] eqn:E.
    + apply check_tab_Some in E as (Ha & Hp & ->). rw IH. tauto.
    + split; [done|]. intros ((Ha & _) & (Hp & _) & _).
      assert (check_tab t acc = Some (list_to_set (tab_ids t) ∪ acc)) by by apply check_tab_Some.
      congruence.
Qed.

Lemma root_tab_check root ts : vany (has_id_t root) ts = true ↔ root ∈ map t_id ts.
Proof.
  rw vany_true elem_of_map. unfold has_id_t. setoid_rewrite bool_decide_eq_true. naive_solver.
Qed.

Lemma check_workspace_Some w acc acc' :
  check_workspace w acc = Some acc' ↔
  admits (workspace_ids w) acc ∧ workspace_valid w ∧
  acc' = list_to_set (workspace_ids w) ∪ acc.
Proof.
  unfold check_workspace, workspace_ids.
  change (w_id w :: tabs_ids (w_tabs w)) with ([w_id w] ++ tabs_ids (w_tabs w)).
  rw admits_app admits_single list_to_set_app_L.
  assert (list_to_set [w_id w] = ({[w_id w]} : gset N)) as -> by set_solver.
  assert (({[w_id w]} ∪ list_to_set (tabs_ids (w_tabs w))) ∪ acc
          = list_to_set (tabs_ids (w_tabs w)) ∪ ({[w_id w]} ∪ acc)) as -> by set_solver.
  destruct (bool_decide_reflect (w_id w = zero_id)) as [Hz|Hz]; [split; [done|tauto]|].
  destruct (insert_new (w_id w) acc) as [acc1|] eqn:Ei.
  - apply insert_new_Some in Ei as [Hn ->]. unfold workspace_valid.
    rw name_invalid_spec -root_tab_check -opt_path_invalid_spec.
    destruct (valid_name _), (vany _ _), (opt_path_invalid _); simpl;
      rw ?check_tabs_Some; intuition discriminate.
  - split; [done|]. intros (((_ & Hn) & _) & _).
    assert (insert_new (w_id w) acc = Some ({[w_id w]} ∪ acc)) by by apply insert_new_Some.
    congruence.
Qed.

Lemma check_workspaces_Some ws acc acc' :
  check_workspaces ws acc = Some acc' ↔
  admits (all_ids ws) acc ∧ Forall workspace_valid ws ∧ acc' = list_to_set (all_ids ws) ∪ acc.
Proof.
  revert acc. induction ws as [|w ws IH]; intros acc.
  - simpl. split; [intros [= <-]; split; [apply admits_nil|]; split; [done|set_solver]|].
    intros (_ & _ & ->). f_equal. set_solver.
  - rw all_ids_cons admits_app Forall_cons list_to_set_app_L. cbn [check_workspaces].
    assert ((list_to_set (workspace_ids w) ∪ list_to_set (all_ids ws)) ∪ acc
            = list_to_set (all_ids ws) ∪ (list_to_set (workspace_ids w) ∪ acc)) as -> by set_solver.
    destruct (check_workspace w acc) as [acc1|] eqn:E.
    + apply check_workspace_Some in E as (Ha & Hp & ->). rw IH. tauto.
    + split; [done|]. intros ((Ha & _) & (Hp & _) & _).
      assert (check_workspace w acc = Some (list_to_set (workspace_ids w) ∪ acc))
        by by apply check_workspace_Some.
      congruence.
Qed.

(** ** Devices *)

Definition outcomes_from (retired : N) (index : N) (os : list RetainedOutcome) : Prop :=
  ∀ i o, os !! i = Some o →
    ro_sequence o = (retired + index + N.of_nat i + 1)%N ∧ (ro_sequence o < u64_max)%N ∧
    is_bounded (ro_mutation o) = true ∧
    (ro_outcome o = Pending → is_worktree_mutation (ro_mutation o) = true).

Lemma outcomes_from_cons retired index o os :
  outcomes_from retired index (o :: os) ↔
  (ro_sequence o = (retired + index + 1)%N ∧ (ro_sequence o < u64_max)%N ∧
   is_bounded (ro_mutation o) = true ∧
   (ro_outcome o = Pending → is_worktree_mutation (ro_mutation o) = true)) ∧
  outcomes_from retired (index + 1) os.
Proof.
  unfold outcomes_from. split.
  - intros H. split; [destruct (H 0 o eq_refl) as (-> & ?); split; [lia|done]|].
    intros i x Hi. destruct (H (S i) x Hi) as (-> & ?). split; [lia|done].
  - intros [(H1 & H2) H] [|i] x Hi; simpl in Hi.
    + injection Hi as <-. split; [lia|done].
    + destruct (H i x Hi) as (-> & ?). split; [lia|done].
Qed.

Lemma check_outcomes_true retired index os :
  check_outcomes retired index os = true ↔ outcomes_from retired index os.
Proof.
  revert index. induction os as [|o os IH]; intros index; [done|].
  cbn [check_outcomes]. rw andb_true_iff IH outcomes_from_cons. apply and_iff_compat_r.
  rw negb_true_iff !orb_false_iff negb_false_iff andb_false_iff negb_false_iff.
  unfold is_pending. rw !bool_decide_eq_false. unfold u64_checked_add.
  rw (N.add_assoc retired index 1).
  destruct (N.leb_spec (retired + index + 1) u64_max) as [Hle|Hgt].
  - rw negb_false_iff bool_decide_eq_true.
    destruct (is_worktree_mutation _); intuition (try done; lia).
  - split; [intros (((_ & _) & ?) & _); done|]. intros (? & ? & _). lia.
Qed.

Lemma device_ok_from d :
  device_ok d ↔ (d_retired d < u64_max)%N ∧ outcomes_from (d_retired d) 0 (d_pending d).
Proof.
  unfold device_ok, outcomes_from, outcome_ok. apply and_iff_compat_l.
  split; intros H i o Hi; destruct (H i o Hi) as (-> & ?); (split; [lia|done]).
Qed.

Lemma check_devices_true ds acc :
  Forall (λ d, d_retired d ≤ u64_max)%N ds →
  check_devices ds acc = true ↔
  NoDup (map d_device ds) ∧ (∀ x, x ∈ map d_device ds → x ∉ acc) ∧ Forall device_ok ds.
Proof.
  intros Hu. revert acc. induction Hu as [|d ds Hd _ IH]; intros acc.
  { simpl. split; [|done]. intros _. split; [constructor|]. split; [|done]. by intros ? ?%elem_of_nil. }
  cbn [check_devices map]. rw NoDup_cons Forall_cons. setoid_rewrite elem_of_cons.
  destruct (insert_new (d_device d) acc) as [acc1|] eqn:Ei.
  - apply insert_new_Some in Ei as [Hn ->].
    rw !andb_true_iff negb_true_iff bool_decide_eq_false IH check_outcomes_true device_ok_from.
    setoid_rewrite elem_of_union. setoid_rewrite elem_of_singleton.
    assert (d_retired d ≠ u64_max ↔ (d_retired d < u64_max)%N) as -> by lia.
    split; [intros ((? & ?) & ? & Hx & ?)|intros ((Hx & ?) & Hy & (? & ?) & ?)].
    + split; [split; [intros Hin; apply (Hx _ Hin); by left|done]|]. split; [|done].
      intros x [->|Hin]; [done|]. intros ?. apply (Hx x Hin). by right.
    + do 2 (split; [done|]). split; [|done]. intros x Hin [->|?]; [done|]. apply (Hy x); auto.
  - split; [done|]. intros (_ & Hx & _).
    assert (insert_new (d_device d) acc = Some ({[d_device d]} ∪ acc)); [|congruence].
    apply insert_new_Some. auto.
Qed.

(** ** The whole check *)

Lemma size_list_to_set_bound (l : list N) : size (list_to_set l : gset N) ≤ length l.
Proof.
  induction l as [|y l IH]; simpl; [done|]. rw size_union_alt size_singleton.
  assert (size (list_to_set l ∖ {[y]} : gset N) ≤ size (list_to_set l : gset N)); [|lia].
  apply subseteq_size. set_solver.
Qed.

Lemma size_list_to_set_iff (l : list N) :
  size (list_to_set l : gset N) = length l ↔ NoDup l.
Proof.
  split; [|apply size_list_to_set]. induction l as [|x l IH]; [constructor|]. simpl.
  rw size_union_alt size_singleton. intros Hs. pose proof (size_list_to_set_bound l) as Hle.
  destruct (decide (x ∈ l)) as [Hin|Hin].
  - assert (size (list_to_set l ∖ {[x]} : gset N) < size (list_to_set l : gset N)); [|lia].
    apply subset_size. set_solver.
  - constructor; [done|]. apply IH.
    assert (list_to_set l ∖ {[x]} = (list_to_set l : gset N)) as Hd by set_solver.
    rw Hd in Hs. lia.
Qed.

Lemma session_ends_check s :
  session_ends_invalid s = false ↔ ends_ok (s_creator_boot s) (s_session_ends s).
Proof.
  unfold session_ends_invalid, ends_ok. destruct (s_session_ends s) as [e|]; [|naive_solver].
  rw !orb_false_iff !Nat.ltb_ge bool_decide_eq_false negb_false_iff Nat.eqb_eq vany_false.
  setoid_rewrite orb_false_iff. setoid_rewrite bool_decide_eq_false. unfold sessions_ok.
  rw -(length_map cp_id (ci_sessions e)) size_list_to_set_iff (length_map cp_id).
  setoid_rewrite Forall_forall. split.
  - intros ((((Hb & H1) & H2) & H3) & H4) ends [= <-]. apply dec_stable in Hb.
    split; [|done]. done.
  - intros H. destruct (H e eq_refl) as ((Hb & H1 & H3 & H4) & H2). rw Hb. auto 10.
Qed.

Lemma tab_count_spec s : tab_count s = length (all_tabs (s_workspaces s)).
Proof. apply vsum_length_flat_map. Qed.

Lemma pane_count_spec s : pane_count s = length (all_panes (s_workspaces s)).
Proof.
  unfold pane_count. rw vsum_length_flat_map. f_equal. unfold all_panes, workspace_panes.
  induction (s_workspaces s) as [|w ws IH]; [done|]. simpl. by rw flat_map_app IH.
Qed.

Lemma has_workspace_check id ws : vany (has_id_w id) ws = true ↔ id ∈ map w_id ws.
Proof.
  rw vany_true elem_of_map. unfold has_id_w. setoid_rewrite bool_decide_eq_true. naive_solver.
Qed.

Lemma custom_check n :
  match n_custom n with Some c => name_invalid c | None => false end = false
  ↔ ∀ c, n_custom n = Some c → valid_name c = true.
Proof. destruct (n_custom n); [rw name_invalid_spec negb_false_iff|]; naive_solver. Qed.

Lemma homed_check (ws : list Workspace) (home : option path) :
  negb (is_empty ws) && bool_decide (home = None) = false ↔ (ws ≠ [] → home ≠ None).
Proof.
  rw andb_false_iff negb_false_iff bool_decide_eq_false. destruct ws; simpl; naive_solver.
Qed.

Lemma bounds_check s :
  bounds_invalid s = false ↔
  names_valid (s_names s) (s_workspaces s) ∧ opt_path_ok (s_home_directory s) ∧
  (s_workspaces s ≠ [] → s_home_directory s ≠ None) ∧
  (length (s_workspaces s) ≤ MAX_WORKSPACES ∧ length (all_tabs (s_workspaces s)) ≤ MAX_TABS ∧
   length (all_panes (s_workspaces s)) ≤ MAX_PANES) ∧
  length (s_devices s) ≤ MAX_DEVICES ∧ s_sequence_floor s ≠ u64_max ∧
  outcome_count (s_devices s) ≤ MAX_OUTCOMES.
Proof.
  unfold bounds_invalid. rw !orb_false_iff !Nat.ltb_ge tab_count_spec pane_count_spec.
  rw negb_false_iff Nat.eqb_eq opt_path_invalid_spec bool_decide_eq_false homed_check !vany_false.
  setoid_rewrite orb_false_iff. setoid_rewrite negb_false_iff. setoid_rewrite Nat.eqb_eq.
  setoid_rewrite has_workspace_check. setoid_rewrite custom_check. unfold names_valid.
  split.
  - intros ((((((((((H1 & H2) & H3) & H4) & H5) & H6) & H7) & H8) & H9) & H10) & H11).
    repeat split; try done; [intros n Hn; by destruct (H4 n Hn)|].
    intros n c Hn. destruct (H4 n Hn) as [_ H]. apply H.
  - intros ((H1 & H2 & H4 & H4') & H5 & H3 & (H6 & H7 & H8) & H9 & H10 & H11).
    repeat split; try done; [by apply H4 | intros c; by apply H4'].
Qed.

Lemma validate_Valid s :
  representable s → validate s = Ok tt ↔ Valid s.
Proof.
  intros [Hr Hf]. unfold validate.
  assert (validate s = Ok tt ↔ session_ends_invalid s = false ∧ bounds_invalid s = false ∧
    (admits (all_ids (s_workspaces s)) ∅ ∧ Forall workspace_valid (s_workspaces s)) ∧
    check_devices (s_devices s) ∅ = true) as Hv.
  { unfold validate. destruct (session_ends_invalid s), (bounds_invalid s); try (split; [done|]; intuition done).
    destruct (check_workspaces (s_workspaces s) ∅) as [acc|] eqn:E.
    - apply check_workspaces_Some in E as (? & ? & _). destruct (check_devices _ _); intuition done.
    - split; [done|]. intros (_ & _ & (Ha & Hw) & _).
      assert (check_workspaces (s_workspaces s) ∅ = Some (list_to_set (all_ids (s_workspaces s)) ∪ ∅));
        [by apply check_workspaces_Some|congruence]. }
  fold (validate s). rw Hv session_ends_check bounds_check (check_devices_true _ _ Hr). unfold admits.
  split.
  - intros (H1 & (H2 & H3 & H4 & H5 & H6 & H7 & H8) & ((H9 & H10 & _) & H11) & H12 & _ & H13).
    split; try done. split; try done. lia.
  - intros [V1 V2 V3 V4 V5 V6 V7 [D1 D2 D3 D4 D5] V9].
    assert (s_sequence_floor s ≠ u64_max) by lia. split; [done|]. split; [tauto|].
    split; [split; [|done]|]; [split; [done|]; split; [done|]; intros x _; apply not_elem_of_empty|].
    split; [done|]. split; [|done]. intros x _. apply not_elem_of_empty.
Qed.

Lemma root_first_elem {A} (f : A → Id) root (l : list A) : root_first root (map f l) → root ∈ map f l.
Proof. unfold root_first. destruct l; [done|]. intros [= <-]. by left. Qed.

Lemma tab_ok_valid t : tab_ok t → tab_valid t.
Proof.
  intros (H1 & H2 & H3 & H4 & H5 & H6). repeat split; try done. by apply root_first_elem.
Qed.

Lemma workspace_ok_valid w : valid_name (w_name w) = true → workspace_ok w → workspace_valid w.
Proof.
  intros Hn (H1 & H2 & H3). repeat split; try done; [by apply root_first_elem|].
  eapply Forall_impl; [exact H3|]. apply tab_ok_valid.
Qed.

Lemma aligned_once names ws w :
  aligned names ws → w ∈ ws → length (vfilter (names_entry (w_id w)) names) = 1.
Proof.
  intros [Hm Hnd] Hw. rw -Hm in Hnd.
  assert (w_id w ∈ map n_workspace names) as Hin by (rw Hm; apply elem_of_map; eauto).
  apply elem_of_map in Hin as (n & Hid & (l1 & l2 & ->)%list_elem_of_split).
  rw map_app /= in Hnd. apply NoDup_app in Hnd as (_ & Hd & [Hni _]%NoDup_cons).
  rw vfilter_app. unfold vfilter. simpl. unfold names_entry at 2. rw Hid bool_decide_eq_true_2 //.
  rw length_app /=.
  assert (∀ l, (n_workspace n ∉ map n_workspace l) → List.filter (names_entry (n_workspace n)) l = []) as Hf.
  { intros l Hl. destruct (List.filter _ l) as [|m k] eqn:E; [done|]. exfalso.
    assert (m ∈ vfilter (names_entry (n_workspace n)) l) as [Hm2 Hm3]%elem_of_vfilter
      by (unfold vfilter; rw E; by left).
    apply bool_decide_eq_true in Hm2. apply Hl, elem_of_map. eauto. }
  rw !Hf //. intros Hx. by apply (Hd _ Hx), elem_of_cons; left.
Qed.

Lemma Inv_Valid s : Inv s → Valid s.
Proof.
  intros [[HF Hal Hc Hn Hh Hhd] Hd _ He]. destruct HF as [F1 F2 F3 F4 F5 F6]. split; try done.
  - split; [by apply aligned_length|]. split; [intros; by eapply aligned_once|]. split; [|done].
    intros n Hin. destruct Hal as [Hm _]. rw -Hm. apply elem_of_map. eauto.
  - apply Forall_forall. intros w Hw. rw !Forall_forall in F1 Hn. apply workspace_ok_valid; auto.
Qed.

Lemma Inv_representable s : Inv s → representable s.
Proof.
  intros [_ [_ Hok _ _ Hf] _ _]. split; [|lia]. eapply Forall_impl; [exact Hok|].
  intros d [? _]. lia.
Qed.

Lemma Inv_validate s : Inv s → validate s = Ok tt.
Proof. intros H. apply validate_Valid; [by apply Inv_representable|by apply Inv_Valid]. Qed.
