(* ===== verification/TreeOps.v ===== *)
(** * Tree operations keep the invariant

    Boots, envelopes, reported directories, removed Panes, new Tabs and the
    branches of [State::edit]. *)
From S2P Require Import Prelude.
From S2P Require Import Text.
From S2P Require Import Facts.
From S2P Require Import HierarchyTypes.
From S2P Require Import HierarchyWorkspace.
From S2P Require Import HierarchyState.
From S2P Require Import HierarchyValidate.
From S2P Require Import NamesProofs.
From S2P Require Import ForestInv.
From S2P Require Import Forest.
From S2P Require Import HierarchyInv.
From S2P Require Import ValidateProofs.

(** ** Rewriting Panes *)

Lemma workspace_like_names ws ws' :
  Forall2 workspace_like ws ws' →
  Forall (λ w, valid_name (w_name w) = true) ws → Forall (λ w, valid_name (w_name w) = true) ws'.
Proof. intros Hl. eapply Forall_like; [|exact Hl]. by intros w w' (_ & ->). Qed.

Lemma Forall2_nil_iff {A} (R : A → A → Prop) l l' : Forall2 R l l' → l' ≠ [] → l ≠ [].
Proof. intros H Hne ->. by apply Forall2_nil_inv_l in H. Qed.

Lemma Named_like home names ws ws' :
  Forall2 workspace_like ws ws' → Named home names ws → Named home names ws'.
Proof.
  intros Hl [H1 H2 H3 H4 H5 H6]. split; try done.
  - by eapply Forest_like.
  - destruct H2 as [Hm Hnd]. split; by rw (workspace_like_wids _ _ Hl).
  - by eapply workspace_like_names.
  - intros Hne. eapply H6, Forall2_nil_iff; eauto.
Qed.

Lemma Inv_like s ws' :
  Inv s → Forall2 workspace_like (s_workspaces s) ws' → Inv (set_s_workspaces ws' s).
Proof. intros [H1 H2 H3 H4] Hl. split; try done. by eapply Named_like. Qed.

Lemma pane_like_creator c p : pane_like p (set_p_creator c p).
Proof. done. Qed.
Lemma pane_like_strip p : pane_like p (strip_live p).
Proof.
  split; [done|]. split; [done|]. intros (H1 & H2 & H3 & H4). split; [done|]. split; [done|].
  split; [|done]. split; [unfold MAX_OBSERVER_NAMES; simpl; lia|done].
Qed.
Lemma pane_like_confirmed d p : valid_path d = true → pane_like p (set_p_confirmed_directory (Some d) p).
Proof.
  intros Hd. split; [done|]. split; [done|]. intros (H1 & H2 & H3 & H4).
  split; [done|]. split; [|done]. by intros x [= <-].
Qed.
Lemma pane_like_current d p : pane_like p (set_p_current_directory d p).
Proof. done. Qed.
Lemma pane_like_repository d p : pane_like p (set_p_repository_directory d p).
Proof. done. Qed.
Lemma pane_like_presentation o p : presentation_ok o → pane_like p (set_p_presentation o p).
Proof.
  intros Ho. split; [done|]. split; [done|]. intros (H1 & H2 & H3 & H4).
  split; [done|]. split; [done|]. by split.
Qed.
Lemma tab_id_membership (t : Tab) : ∃ m, t = set_t_membership m t.
Proof. exists (t_worktree_membership t). by destruct t. Qed.
#[export] Hint Resolve pane_like_creator pane_like_strip pane_like_confirmed pane_like_current
  pane_like_repository pane_like_presentation tab_id_membership : hier.

Lemma Inv_update_pane s id ft fp :
  (∀ t, ∃ m, ft t = set_t_membership m t) → (∀ p, pane_like p (fp p)) →
  Inv s → Inv (set_s_workspaces (update_pane id ft fp (s_workspaces s)) s).
Proof. intros Hft Hfp HI. apply Inv_like; [done|]. by apply update_pane_like. Qed.

Lemma begin_boot_Inv boot s :
  Inv s → i_close (s_inventory s) = None → Inv (begin_boot boot s).
Proof.
  intros HI Hc. unfold begin_boot. case_bool; [|done].
  assert (Inv (set_s_workspaces (map_panes (λ p, strip_live (set_p_creator None p))
            (s_workspaces s)) s)) as [H1 H2 H3 H4].
  { apply Inv_like; [done|]. apply map_panes_like. intros p. apply (pane_like_strip (set_p_creator None p)). }
  split; [done|done| |done]. simpl. rw Hc. done.
Qed.

Lemma envelope_Inv s : Inv s → Inv (envelope s).
Proof.
  intros HI. assert (Inv (set_s_workspaces (map_panes strip_live (s_workspaces s)) s)) as [H1 H2 H3 H4].
  { apply Inv_like; [done|]. apply map_panes_like, pane_like_strip. }
  by split.
Qed.

Lemma repair_directory_Inv s id d :
  Inv s → valid_path d = true → Inv (repair_directory s id d).1.
Proof.
  intros HI Hd. unfold repair_directory. destruct (find_pane s id); [|done].
  set (s1 := set_s_workspaces _ s).
  assert (Inv (recalculate_names s1)) as HI'.
  { apply recalculate_Inv, Inv_Raw, Inv_update_pane; eauto with hier. }
  destruct (u64_checked_add _ _); [by apply Inv_revision|done].
Qed.

Lemma confirm_directory_Inv s id d :
  Inv s → valid_path d = true → Inv (confirm_directory s id d).
Proof.
  intros HI Hd. unfold confirm_directory. destruct (find_pane s id) as [[[w t] p]|]; [|done].
  destruct (negb _); [|done].
  apply Inv_revision, recalculate_Inv, Inv_Raw, Inv_update_pane; eauto with hier.
Qed.

Lemma present_directory_Inv s id d : Inv s → Inv (present_directory s id d).
Proof.
  intros HI. unfold present_directory. destruct (find_pane s id) as [[[w t] p]|]; [|done].
  destruct (negb _); [|done].
  apply Inv_revision, recalculate_Inv, Inv_Raw, Inv_update_pane; eauto with hier.
Qed.

Lemma present_repository_directory_Inv s id d :
  Inv s → Inv (present_repository_directory s id d).
Proof.
  intros HI. unfold present_repository_directory.
  destruct (find_pane s id) as [[[w t] p]|]; [|done]. destruct (negb _); [|done].
  apply Inv_revision, Inv_update_pane; eauto with hier.
Qed.

Lemma present_presentation_Inv s id o :
  Inv s → presentation_ok o → Inv (present_presentation s id o).
Proof. intros HI Ho. apply Inv_update_pane; eauto with hier. Qed.

(** ** Removing Panes *)

Lemma vfilter_ext_in {A} (p q : A → bool) l : (∀ x, x ∈ l → p x = q x) → vfilter p l = vfilter q l.
Proof.
  unfold vfilter. induction l as [|x l IH]; intros H; [done|]. simpl. rw (H x); [by left|].
  rw IH //. intros y Hy. apply H. by right.
Qed.

Lemma map_vfilter {A B} (f : A → B) (p : B → bool) l :
  map f (vfilter (λ x, p (f x)) l) = vfilter p (map f l).
Proof.
  unfold vfilter. induction l as [|x l IH]; [done|]. simpl. destruct (p (f x)); simpl; by rw IH.
Qed.

(** Filtering by membership of the survivors' keys is filtering. *)
Lemma vfilter_survivors {A} (f : A → N) (p : A → bool) l :
  NoDup (map f l) →
  map f (vfilter p l) = vfilter (λ x, bool_decide (x ∈ map f (vfilter p l))) (map f l).
Proof.
  intros Hnd. etrans; [|apply (map_vfilter f (λ x, bool_decide (x ∈ map f (vfilter p l))))]. f_equal.
  apply vfilter_ext_in. intros x Hx. symmetry.
  destruct (p x) eqn:E.
  - apply bool_decide_eq_true, elem_of_map. exists x. split; [done|]. by apply elem_of_vfilter.
  - apply bool_decide_eq_false. intros (y & Hf & [Hy Hin]%elem_of_vfilter)%elem_of_map.
    assert (x = y) as -> by by eapply NoDup_map_eq. congruence.
Qed.

Lemma retain_names_aligned id names ws :
  aligned names ws →
  aligned (retain_names (remove_from_workspaces id ws) names) (remove_from_workspaces id ws).
Proof.
  intros [Hm Hnd].
  assert (map w_id (map (remove_from_workspace id) ws) = map w_id ws) as Hids.
  { rw map_map. apply map_ext, remove_from_workspace_frame. }
  split.
  - unfold retain_names. pose (q := λ x : N, bool_decide (x ∈ wids (remove_from_workspaces id ws))).
    rw (vfilter_ext_in _ (λ n, q (n_workspace n))).
    { intros n _. unfold q. destruct (vany _ _) eqn:E; symmetry.
      - by apply bool_decide_eq_true, has_workspace_check.
      - apply bool_decide_eq_false. unfold wids. by rw -has_workspace_check E. }
    rw map_vfilter Hm -Hids. unfold q.
    unfold remove_from_workspaces. symmetry. apply vfilter_survivors. by rw Hids.
  - eapply NoDup_submseteq_l; [apply remove_from_workspaces_wids|done].
Qed.

Lemma remove_from_workspace_name id w : w_name (remove_from_workspace id w) = w_name w.
Proof.
  unfold remove_from_workspace. set (v := set_w_tabs _ w).
  by destruct (promote_spec v) as (_ & _ & ->).
Qed.

Lemma Named_remove home names ws id :
  Named home names ws →
  Named home (retain_names (remove_from_workspaces id ws) names) (remove_from_workspaces id ws).
Proof.
  intros [H1 H2 H3 H4 H5 H6]. split; try done.
  - by apply Forest_remove.
  - by apply retain_names_aligned.
  - intros n c [_ Hn]%elem_of_vfilter. eauto.
  - rw !Forall_forall in H4 |- *. intros v [_ (w & -> & Hw)%elem_of_map]%elem_of_vfilter.
    rw remove_from_workspace_name. auto.
  - intros Hne. apply H6. by intros ->.
Qed.

Lemma remove_pane_Inv s id : Inv s → Inv (remove_pane s id).
Proof.
  intros [H1 H2 H3 H4]. unfold remove_pane. apply Inv_revision, recalculate_Inv, Inv_Raw.
  split; try done. by apply Named_remove.
Qed.

Lemma remove_panes_Inv ids s : Inv s → Inv (foldl remove_pane s ids).
Proof. revert s. induction ids as [|id ids IH]; intros s HI; simpl; [done|]. by apply IH, remove_pane_Inv. Qed.

(** What a removal leaves: every other Pane, its place aside. *)
Lemma renamed_panes ws ws' : Forall2 renamed ws ws' → all_panes ws' = all_panes ws.
Proof.
  unfold all_panes. induction 1 as [|w w' ws ws' Hr _ IH]; simpl; [done|]. rw IH. f_equal.
  unfold renamed in Hr. by rw Hr.
Qed.

Lemma remove_pane_cores s id :
  Inv s →
  cores (all_panes (s_workspaces (remove_pane s id)))
  = vfilter (keeps id) (cores (all_panes (s_workspaces s))).
Proof.
  intros [H1 H2 H3 H4]. unfold remove_pane.
  set (s1 := set_s_names _ _).
  destruct (recalculate_names_spec s1) as (_ & _ & Hr & _).
  { by apply Named_Unnamed, Named_remove. }
  change (s_workspaces (set_s_revision ?r ?x)) with (s_workspaces x).
  rw (renamed_panes _ _ Hr). apply remove_from_workspaces_cores.
Qed.

Lemma vfilter_vfilter {A} (p q : A → bool) l :
  vfilter p (vfilter q l) = vfilter (λ x, q x && p x) l.
Proof.
  unfold vfilter. induction l as [|x l IH]; [done|]. simpl. destruct (q x); simpl; by rw IH.
Qed.

Lemma remove_panes_cores ids s :
  Inv s →
  cores (all_panes (s_workspaces (foldl remove_pane s ids)))
  = vfilter (λ p, negb (bool_decide (p_id p ∈ ids))) (cores (all_panes (s_workspaces s))).
Proof.
  revert s. induction ids as [|id ids IH]; intros s HI; simpl.
  - unfold vfilter. induction (cores _) as [|x l IHl]; [done|]. simpl. f_equal. apply IHl.
  - rw (IH _ (remove_pane_Inv _ _ HI)) remove_pane_cores // vfilter_vfilter.
    apply vfilter_ext_in. intros p _. unfold keeps, has_id_p.
    rw -negb_orb -bool_decide_or. f_equal. apply bool_decide_ext. by rw elem_of_cons.
Qed.
