(* ===== verification/EditOps.v ===== *)
(** * Edits keep the invariant

    Each branch of [State::edit] either stops without touching the state or
    leaves a forest that the recalculation of names completes. *)
From S2P Require Import Prelude.
From S2P Require Import Text.
From S2P Require Import Facts.
From S2P Require Import HierarchyTypes.
From S2P Require Import HierarchyWorkspace.
From S2P Require Import HierarchyState.
From S2P Require Import HierarchyValidate.
From S2P Require Import NamesProofs.
From S2P Require Import ForestInv.
From S2P Require Import Forest.
From S2P Require Import HierarchyInv.
From S2P Require Import ValidateProofs.
From S2P Require Import TreeOps.

(** ** Fresh identities *)

(** The identities a stream of draws can hand out. *)
Definition drawn (ds : Draws) : list Id := omap (λ d, d) ds.

(** The random source's promise: 256-bit draws are not zero, do not repeat and
    do not hit an identity in use. *)
Definition fresh_draws (ws : list Workspace) (ds : Draws) : Prop := fresh_for (all_ids ws) (drawn ds).

Lemma fresh_for_sub ids l l' : l' ⊆+ l → fresh_for ids l → fresh_for ids l'.
Proof.
  intros Hs (H1 & H2 & H3). split; [by eapply NoDup_submseteq_l|]. split.
  - intros Hz. apply H2. by eapply elem_of_submseteq.
  - intros x Hx. apply H3. by eapply elem_of_submseteq.
Qed.

Lemma random_Some ds id ds' : random ds = (Some id, ds') → drawn ds = id :: drawn ds'.
Proof. destruct ds as [|[d|] ds]; simpl; [done|by intros [= -> ->]|done]. Qed.

Lemma fresh_one ws ds id ds' :
  fresh_draws ws ds → random ds = (Some id, ds') → fresh_for (all_ids ws) [id].
Proof.
  intros Hf Hr%random_Some. unfold fresh_draws in Hf. rw Hr in Hf. eapply fresh_for_sub; [|exact Hf].
  apply submseteq_skip, submseteq_nil_l.
Qed.

Lemma fresh_two ws ds a ds1 b ds2 :
  fresh_draws ws ds → random ds = (Some a, ds1) → random ds1 = (Some b, ds2) →
  fresh_for (all_ids ws) [a; b].
Proof.
  intros Hf Ha%random_Some Hb%random_Some. unfold fresh_draws in Hf. rw Ha Hb in Hf.
  eapply fresh_for_sub; [|exact Hf]. do 2 apply submseteq_skip. apply submseteq_nil_l.
Qed.

Lemma fresh_three ws ds a ds1 b ds2 c ds3 :
  fresh_draws ws ds → random ds = (Some a, ds1) → random ds1 = (Some b, ds2) →
  random ds2 = (Some c, ds3) → fresh_for (all_ids ws) [a; b; c].
Proof.
  intros Hf Ha%random_Some Hb%random_Some Hc%random_Some. unfold fresh_draws in Hf.
  rw Ha Hb Hc in Hf. eapply fresh_for_sub; [|exact Hf].
  do 3 apply submseteq_skip. apply submseteq_nil_l.
Qed.

(** ** A branch that returns early changes nothing *)

Lemma vupdate_same {A} (p : A → bool) l x : vfind p l = Some x → vupdate p (λ _, x) l = l.
Proof. intros (l1 & l2 & -> & _ & Hu)%vfind_vupdate_split. apply Hu. Qed.

Lemma write_workspace_same id w s :
  vfind (has_id_w id) (s_workspaces s) = Some w → write_workspace id w s = s.
Proof.
  intros Hw. unfold write_workspace. rw (vupdate_same _ _ _ Hw). by destruct s as [????? ? ? ?], s_inventory.
Qed.

Lemma edit_branch_Return s ds device m directory vp s' ds' r :
  edit_branch s ds device m directory vp = (s', ds', Return r) → s' = s.
Proof.
  destruct m; simpl.
  - unfold edit_end_all_sessions. intros H. repeat case_match; by simplify_eq.
  - by intros [= <-].
  - unfold edit_close. intros H. repeat case_match; by simplify_eq.
  - unfold edit_create_workspace. intros H. repeat case_match; by simplify_eq.
  - unfold edit_create_tab. intros H. repeat case_match; by simplify_eq.
  - unfold edit_split_pane. intros H. repeat case_match; by simplify_eq.
  - unfold edit_move_pane. destruct (_ && _); [by intros [= <-]|].
    destruct (vfind _ _) as [w|] eqn:Ew; [|by intros [= <-]]. destruct destination as [|into beside side].
    + destruct (random ds) as [[id|] ds1]; [|by intros [= <-]].
      destruct (move_pane_to_new_tab w tab pane id) as [w' [[]|e]] eqn:Em; [done|].
      apply move_pane_to_new_tab_Err in Em as ->. intros [= <- _ _]. by apply write_workspace_same.
    + destruct (move_pane_beside w tab pane into beside side) as [w' [[]|e]] eqn:Em; [done|].
      apply move_pane_beside_Err in Em as ->. intros [= <- _ _]. by apply write_workspace_same.
  - unfold edit_merge_tab. destruct (vfind _ _) as [w|] eqn:Ew; [|by intros [= <-]].
    destruct (merge_tab w tab into beside side) as [w' [[]|e]] eqn:Em; [done|].
    apply merge_tab_Err in Em as ->. intros [= <- _ _]. by apply write_workspace_same.
  - unfold edit_rename_workspace. intros H. repeat case_match; by simplify_eq.
  - unfold edit_pin_workspace. intros H. repeat case_match; by simplify_eq.
Qed.

(** ** Replacing one Workspace of a state *)

Lemma valid_names_replace (l1 l2 : list Workspace) w w' :
  w_name w' = w_name w →
  Forall (λ w, valid_name (w_name w) = true) (l1 ++ w :: l2) →
  Forall (λ w, valid_name (w_name w) = true) (l1 ++ w' :: l2).
Proof.
  intros Hn [H1 [H2 H3]%Forall_cons]%Forall_app. apply Forall_app. split; [done|].
  constructor; [by rw Hn|done].
Qed.

Lemma aligned_replace names (l1 l2 : list Workspace) w w' :
  w_id w' = w_id w → aligned names (l1 ++ w :: l2) → aligned names (l1 ++ w' :: l2).
Proof. intros Hi. unfold aligned. by rw !map_app /= Hi. Qed.

Lemma Inv_replace s l1 w l2 w' :
  Inv s → s_workspaces s = l1 ++ w :: l2 → Forest (l1 ++ w' :: l2) → w_id w' = w_id w →
  w_name w' = w_name w → Inv (set_s_workspaces (l1 ++ w' :: l2) s).
Proof.
  intros [[H1 H2 H3 H4 H5 H6] Hd Hc He] Hw HF Hi Hn. split; try done. rw Hw in H2 H4 H6.
  split; try done.
  - by eapply aligned_replace.
  - by eapply valid_names_replace.
  - intros _. apply H6. by destruct l1.
Qed.

Lemma new_pane_ok id source side start owner :
  valid_path start = true → pane_ok (new_pane id source side start owner).
Proof.
  intros Hs. split; [done|]. split; [done|]. split; [|done].
  split; [unfold MAX_OBSERVER_NAMES; simpl; lia|done].
Qed.

Lemma new_tab_ok m wt repo id pane side start owner :
  valid_path start = true → opt_path_ok wt → opt_path_ok repo → (wt = None → repo = None) →
  tab_ok {| t_worktree_membership := m; t_worktree := wt; t_worktree_repository := repo;
            t_id := id; t_root_pane := pane;
            t_panes := [new_pane pane None side start owner] |}.
Proof.
  intros Hs H1 H2 H3. repeat split; try done; simpl. by apply Forall_singleton, new_pane_ok.
Qed.

(** Adding a Tab at the end of a Workspace. *)
Lemma push_tab_Forest l1 w l2 t p :
  Forest (l1 ++ w :: l2) → tab_ok t → t_panes t = [p] →
  fresh_for (all_ids (l1 ++ w :: l2)) [t_id t; p_id p] →
  length (all_tabs (l1 ++ w :: l2)) < MAX_TABS →
  length (all_panes (l1 ++ w :: l2)) < MAX_PANES →
  Forest (l1 ++ set_w_tabs (w_tabs w ++ [t]) w :: l2).
Proof.
  intros HF Ht Hp Hfr Lt Lp. pose proof HF as [Hok _ _ _ _ _].
  apply Forall_app in Hok as [_ [(W1 & W2 & W3) _]%Forall_cons].
  eapply (Forest_replace _ w _ _ [t_id t] [p_id p]); try done; simpl.
  - split; [done|]. split; [rw /= map_app; by apply root_first_app|].
    apply Forall_app. split; [done|]. by apply Forall_singleton.
  - rw map_app /=. apply Permutation_submseteq. solve_Permutation.
  - unfold workspace_panes. rw /= flat_map_app map_app /= Hp app_nil_r /=.
    apply Permutation_submseteq. solve_Permutation.
Qed.

(** ** Branches that name a target *)

Lemma edit_end_all_sessions_Raw s ds c s' ds' id :
  Inv s → is_bounded (EndAllSessions c) = true →
  edit_end_all_sessions s ds c = (s', ds', Target id) → RawInv s'.
Proof.
  intros HI Hb. unfold edit_end_all_sessions.
  destruct (i_close (s_inventory s)) as [live|] eqn:El; [|done].
  destruct (_ || _) eqn:E; [done|]. intros [= <- _ _].
  apply orb_false_iff in E as [Eb%bool_decide_eq_false%dec_stable Es%bool_decide_eq_false%dec_stable].
  apply andb_true_iff in Hb as [_ Hb%Nat.leb_le].
  destruct HI as [H1 H2 H3 H4]. split; try done; [by apply Named_Unnamed|].
  intros ends [= <-]. destruct (H3 live El) as (S1 & S2 & S3 & S4).
  split; [|done]. unfold sessions_ok. simpl. repeat split; congruence.
Qed.

Lemma edit_close_Raw s ds device t c s' ds' id :
  Inv s → edit_close s ds device t c = (s', ds', Target id) → RawInv s'.
Proof.
  intros HI. unfold edit_close. intros H.
  repeat case_match; simplify_eq; by apply Inv_Raw, remove_panes_Inv.
Qed.

Lemma automatic_base_nonempty home w : automatic_base home w ≠ [].
Proof.
  destruct (automatic_base_ok home w) as (Hb & _). intros E. rw E in Hb. done.
Qed.

Lemma valid_name_trim name :
  is_empty (trim name) = false → valid_name name = true → valid_name (trim name) = true.
Proof.
  rw !valid_name_true trim_idem. intros _ (H1 & H2 & H3). split; [done|].
  split; [pose proof (trim_len name); lia|]. by apply existsb_trim.
Qed.

(** A Workspace that is about to be named for the first time. *)
Lemma Unnamed_push home names ws n w :
  Named home names ws → home ≠ None → Forest (ws ++ [w]) → n_workspace n = w_id w →
  (∀ c, n_custom n = Some c → valid_name c = true) → n_automatic_base n = [] →
  Unnamed home (names ++ [n]) (ws ++ [w]).
Proof.
  intros [H1 [Ha1 Ha2] H3 H4 H5 H6] Hh HF Hid Hc Hb.
  pose proof (Forest_wids _ HF) as Hnd.
  assert (aligned (names ++ [n]) (ws ++ [w])) as Hal.
  { split; [by rw !map_app /= Ha1 Hid|done]. }
  split; try done.
  - intros m c [Hm|Hm%list_elem_of_singleton]%elem_of_app; [eauto|]. subst. auto.
  - intros v m [Hv|Hv%list_elem_of_singleton]%elem_of_app Hm Hbase.
    + rw Forall_forall in H4. auto.
    + subst v. exfalso. apply (automatic_base_nonempty home w). rw -Hbase.
      assert (vfind (names_entry (w_id w)) (names ++ [n]) = Some n) as Hn.
      { eapply (aligned_vfind _ _ (length ws)); [exact Hal|..].
        - rw -(length_map w_id) -Ha1 length_map. apply lookup_split.
        - apply lookup_split. }
      congruence.
Qed.

Lemma push_workspace_Forest ws w t p :
  Forest ws → workspace_ok w → w_tabs w = [t] → t_panes t = [p] →
  fresh_for (all_ids ws) [w_id w; t_id t; p_id p] →
  length ws < MAX_WORKSPACES → length (all_tabs ws) < MAX_TABS →
  length (all_panes ws) < MAX_PANES → Forest (ws ++ [w]).
Proof.
  intros HF Hok Ht Hp Hfr Lw Lt Lp. pose proof HF as [Hoks _ _ _ _ _].
  assert (all_tabs (ws ++ [w]) = all_tabs ws ++ [t]) as Et.
  { unfold all_tabs. by rw flat_map_app /= Ht. }
  assert (all_panes (ws ++ [w]) = all_panes ws ++ [p]) as Ep.
  { unfold all_panes. rw flat_map_app /= app_nil_r /workspace_panes Ht /= Hp. done. }
  eapply (Forest_grow _ _ [w_id w] [t_id t] [p_id p]); try done.
  - apply Forall_app. split; [done|]. by apply Forall_singleton.
  - unfold wids. rw map_app /=. apply Permutation_submseteq. solve_Permutation.
  - unfold tids. rw Et map_app /=. apply Permutation_submseteq. solve_Permutation.
  - unfold pids. rw Ep map_app /=. apply Permutation_submseteq. solve_Permutation.
  - rw length_app /=. lia.
  - rw Et length_app /=. lia.
  - rw Ep length_app /=. lia.
Qed.

Lemma edit_create_workspace_Raw s ds device directory vp name pin control s' ds' id :
  Inv s → s_home_directory s ≠ None → fresh_draws (s_workspaces s) ds →
  valid_path directory = true → is_bounded (CreateWorkspace name pin control) = true →
  edit_create_workspace s ds device directory vp name pin control = (s', ds', Target id) →
  RawInv s'.
Proof.
  intros HI Hh Hf Hd Hb. unfold edit_create_workspace.
  destruct (_ || _) eqn:E1; [done|]. apply orb_false_iff in E1 as [En _].
  destruct (_ || _) eqn:E2; [done|].
  apply orb_false_iff in E2 as [[Lw%Nat.leb_gt Lp%Nat.leb_gt]%orb_false_iff Lt%Nat.leb_gt].
  rw pane_count_spec in Lp. rw tab_count_spec in Lt.
  destruct (random ds) as [[wid|] ds1] eqn:R1; [|done].
  destruct (random ds1) as [[tab|] ds2] eqn:R2; [|done].
  destruct (random ds2) as [[pane|] ds3] eqn:R3; [|done]. intros [= <- _ _].
  apply andb_true_iff in Hb as [_ Hpin].
  assert (opt_path_ok pin) as Hpok by (intros p ->; exact Hpin).
  set (start := match pin with Some p => p | None => directory end).
  assert (valid_path start = true) as Hs by (unfold start; destruct pin; [by apply Hpok|done]).
  destruct HI as [H1 H2 H3 H4]. split; try done.
  apply Unnamed_push; try done.
  - eapply push_workspace_Forest; [apply H1|..]; try done.
    + split; [done|]. split; [done|]. simpl. by apply Forall_singleton, new_tab_ok.
    + by eapply fresh_three.
  - simpl. intros c. destruct (is_empty (trim name)) eqn:Et; simpl; [done|]. intros [= <-].
    apply valid_name_trim; [done|]. simpl in En. by apply negb_false_iff in En.
Qed.

Lemma inherited_start_ok w p :
  workspace_ok w → pane_ok p → valid_path (inherited_start w p) = true.
Proof.
  intros (Hp & _) (H1 & H2 & _). unfold inherited_start.
  destruct (w_pinned_directory w); [by apply Hp|].
  destruct (p_confirmed_directory p); [by apply H2|done].
Qed.

Lemma workspace_pane_ok w p : workspace_ok w → p ∈ workspace_panes w → pane_ok p.
Proof.
  intros (_ & _ & Ht) (t & Htin & Hp)%elem_of_flat_map. rw Forall_forall in Ht.
  destruct (Ht t Htin) as (_ & _ & _ & _ & _ & Hok). rw Forall_forall in Hok. auto.
Qed.

Lemma root_pane_of_elem w p : root_pane_of w = Some p → p ∈ workspace_panes w.
Proof.
  unfold root_pane_of. destruct (vfind _ _) as [t|] eqn:Et; [|done].
  intros [_ Hp]%vfind_Some. apply vfind_Some in Et as [_ Ht]. apply elem_of_flat_map. eauto.
Qed.

Lemma edit_create_tab_Raw s ds device vp workspace source control s' ds' id :
  Inv s → fresh_draws (s_workspaces s) ds →
  edit_create_tab s ds device vp workspace source control = (s', ds', Target id) → RawInv s'.
Proof.
  intros HI Hf. unfold edit_create_tab.
  destruct (_ || _) eqn:E1; [done|].
  apply orb_false_iff in E1 as [Lt%Nat.leb_gt Lp%Nat.leb_gt].
  rw pane_count_spec in Lp. rw tab_count_spec in Lt.
  destruct (vfind (has_id_w workspace) (s_workspaces s)) as [w|] eqn:Ew; [|done].
  destruct (match source with Some _ => _ | None => _ end) as [src|] eqn:Es; [|done].
  assert (src ∈ workspace_panes w) as Hsrc.
  { destruct source; [by apply vfind_Some in Es as [_ ?] | by apply root_pane_of_elem]. }
  destruct (negb _); [done|].
  destruct (random ds) as [[tab|] ds1] eqn:R1; [|done].
  destruct (random ds1) as [[pane|] ds2] eqn:R2; [|done]. intros [= <- _ _].
  apply vfind_vupdate_split in Ew as (l1 & l2 & Hw & _ & Hu). rw Hu. rw Hw in Lt Lp.
  pose proof HI as [[HF _ _ _ _ _] _ _ _]. pose proof HF as [Hok _ _ _ _ _]. rw Hw in HF Hok.
  apply Forall_app in Hok as [_ [Hwok _]%Forall_cons].
  apply Inv_Raw. eapply (Inv_replace _ l1 w); try done.
  eapply push_tab_Forest; try done.
  - apply new_tab_ok; try done. eapply inherited_start_ok; [done|]. by eapply workspace_pane_ok.
  - rw -Hw. by eapply fresh_two.
Qed.

Lemma vupdate_t_ids tab f ts :
  (∀ t, t_id (f t) = t_id t) → map t_id (vupdate (has_id_t tab) f ts) = map t_id ts.
Proof. intros H. by apply vupdate_map. Qed.

(** Adding a Pane beside another Pane of a Tab. *)
Lemma push_pane_Forest l1 w l2 tab t source p :
  Forest (l1 ++ w :: l2) → vfind (has_id_t tab) (w_tabs w) = Some t →
  pane_ok p → p_source p = Some source → source ∈ map p_id (t_panes t) →
  fresh_for (all_ids (l1 ++ w :: l2)) [p_id p] →
  length (all_panes (l1 ++ w :: l2)) < MAX_PANES →
  Forest (l1 ++ set_w_tabs (vupdate (has_id_t tab)
            (λ t, set_t_panes (t_panes t ++ [p]) t) (w_tabs w)) w :: l2).
Proof.
  intros HF Ht Hp Hs Hsrc Hfr Lp. pose proof HF as [Hok _ _ _ Lt _].
  apply Forall_app in Hok as [_ [(W1 & W2 & W3) _]%Forall_cons].
  apply vfind_vupdate_split in Ht as (k1 & k2 & Hk & _ & Hu).
  eapply (Forest_replace _ w _ _ [] [p_id p]); try done; simpl.
  - split; [done|]. split; [by rw /= vupdate_t_ids|]. rw /= Hu.
    rw Hk in W3. apply Forall_app in W3 as [? [? ?]%Forall_cons]. apply Forall_app.
    split; [done|]. constructor; [|done]. apply push_pane_ok; [done|done|].
    intros x Hx. rw Hs in Hx. by injection Hx as <-.
  - by rw vupdate_t_ids.
  - unfold workspace_panes. rw /= Hu Hk !flat_map_app /= !map_app /=.
    apply Permutation_submseteq. solve_Permutation.
Qed.

Lemma edit_split_pane_Raw s ds device directory vp workspace tab source axis control s' ds' id :
  Inv s → fresh_draws (s_workspaces s) ds → valid_path directory = true →
  edit_split_pane s ds device directory vp workspace tab source axis control
  = (s', ds', Target id) → RawInv s'.
Proof.
  intros HI Hf Hd. unfold edit_split_pane.
  destruct (MAX_PANES <=? pane_count s) eqn:E1; [done|]. apply Nat.leb_gt in E1 as Lp.
  rw pane_count_spec in Lp.
  destruct (vfind (has_id_w workspace) (s_workspaces s)) as [w|] eqn:Ew; [|done].
  destruct (vfind (has_id_t tab) (w_tabs w)) as [t|] eqn:Et; [|done].
  destruct (vfind (has_id_p source) (t_panes t)) as [p|] eqn:Ep; [|done].
  destruct (negb _); [done|].
  destruct (random ds) as [[pane|] ds1] eqn:R1; [|done]. intros [= <- _ _].
  apply vfind_vupdate_split in Ew as (l1 & l2 & Hw & _ & Hu). rw Hu. rw Hw in Lp.
  pose proof HI as [[HF _ _ _ _ _] _ _ _]. pose proof HF as [Hok _ _ _ _ _]. rw Hw in HF Hok.
  apply Forall_app in Hok as [_ [Hwok _]%Forall_cons].
  apply vfind_Some in Ep as [Hpid%bool_decide_eq_true Hpin].
  apply Inv_Raw. eapply (Inv_replace _ l1 w); try done.
  eapply push_pane_Forest; try done.
  - apply new_pane_ok. destruct (t_worktree t); [done|]. eapply inherited_start_ok; [done|].
    eapply workspace_pane_ok; [done|]. apply elem_of_flat_map. exists t.
    by apply vfind_Some in Et as [_ ?].
  - apply elem_of_map. eauto.
  - rw -Hw. by eapply fresh_one.
Qed.

Lemma Rearranged_Inv s l1 w l2 w' nt :
  Inv s → s_workspaces s = l1 ++ w :: l2 → Rearranged w w' →
  fresh_for (all_ids (s_workspaces s)) nt →
  map t_id (w_tabs w') ⊆+ nt ++ map t_id (w_tabs w) →
  length nt + length (all_tabs (s_workspaces s)) ≤ MAX_TABS →
  Inv (set_s_workspaces (l1 ++ w' :: l2) s).
Proof.
  intros HI Hw Hr Hfr Ht Lt. pose proof HI as [[HF _ _ _ _ _] _ _ _].
  pose proof Hr as [Hfm _ _]. eapply Inv_replace; try done; [|by rw Hfm..].
  rw Hw in HF Hfr Lt. by eapply Forest_rearranged.
Qed.

Lemma fresh_nil ids : fresh_for ids [].
Proof.
  split; [constructor|]. split; [apply not_elem_of_nil|]. by intros x ?%elem_of_nil.
Qed.

Lemma Inv_tabs s : Inv s → length (all_tabs (s_workspaces s)) ≤ MAX_TABS.
Proof. intros [[[] _ _ _ _ _] _ _ _]. done. Qed.

Lemma Inv_workspace s l1 w l2 : Inv s → s_workspaces s = l1 ++ w :: l2 → workspace_wf w.
Proof.
  intros [[HF _ _ _ _ _] _ _ _] Hw. eapply Forest_workspace_wf; [exact HF|]. rw Hw.
  apply elem_of_app. right. by left.
Qed.

Lemma edit_move_pane_Raw s ds workspace tab pane dest s' ds' id :
  Inv s → fresh_draws (s_workspaces s) ds →
  edit_move_pane s ds workspace tab pane dest = (s', ds', Target id) → RawInv s'.
Proof.
  intros HI Hf. unfold edit_move_pane, write_workspace. destruct (_ && _) eqn:E1; [done|].
  destruct (vfind (has_id_w workspace) (s_workspaces s)) as [w|] eqn:Ew; [|done].
  apply vfind_vupdate_split in Ew as (l1 & l2 & Hw & _ & Hu).
  pose proof (Inv_workspace _ _ _ _ HI Hw) as Hwf.
  destruct dest as [|into beside side].
  - destruct (random ds) as [[new|] ds1] eqn:R1; [|done].
    destruct (move_pane_to_new_tab w tab pane new) as [w' [[]|e]] eqn:Em; [|done].
    rw Hu. intros [= <- _ _]. destruct (move_pane_to_new_tab_Ok _ _ _ _ _ Hwf Em) as [Hr Hids].
    apply Inv_Raw. eapply (Rearranged_Inv _ _ w _ _ [new]); try done.
    + by eapply fresh_one.
    + rw Hids. apply Permutation_submseteq. solve_Permutation.
    + apply Nat.leb_gt in E1. rw tab_count_spec in E1. simpl. lia.
  - destruct (move_pane_beside w tab pane into beside side) as [w' [[]|e]] eqn:Em; [|done].
    rw Hu. intros [= <- _ _]. destruct (move_pane_beside_Ok _ _ _ _ _ _ _ Hwf Em) as [Hr Hids].
    apply Inv_Raw. eapply (Rearranged_Inv _ _ w _ _ []); try done.
    + apply fresh_nil.
    + by rw Hids.
    + by apply Inv_tabs.
Qed.

Lemma edit_merge_tab_Raw s ds workspace tab into beside side s' ds' id :
  Inv s → edit_merge_tab s ds workspace tab into beside side = (s', ds', Target id) → RawInv s'.
Proof.
  intros HI. unfold edit_merge_tab, write_workspace.
  destruct (vfind (has_id_w workspace) (s_workspaces s)) as [w|] eqn:Ew; [|done].
  apply vfind_vupdate_split in Ew as (l1 & l2 & Hw & _ & Hu).
  pose proof (Inv_workspace _ _ _ _ HI Hw) as Hwf.
  destruct (merge_tab w tab into beside side) as [w' [[]|e]] eqn:Em; [|done].
  rw Hu. intros [= <- _ _]. destruct (merge_tab_Ok _ _ _ _ _ _ Hwf Em) as [Hr Hids].
  apply Inv_Raw. eapply (Rearranged_Inv _ _ w _ _ []); try done.
  - apply fresh_nil.
  - rw Hids. by apply submseteq_cons.
  - by apply Inv_tabs.
Qed.

Lemma elem_of_vupdate {A} (p : A → bool) f (l : list A) x :
  x ∈ vupdate p f l → x ∈ l ∨ ∃ y, y ∈ l ∧ p y = true ∧ x = f y.
Proof.
  induction l as [|y l IH]; simpl; [by left|]. destruct (p y) eqn:E.
  - intros [->|Hx]%elem_of_cons; [right; exists y; split; [by left|done]|left; by right].
  - intros [->|Hx]%elem_of_cons; [left; by left|].
    destruct (IH Hx) as [?|(z & ? & ?)]; [left; by right|right; exists z; split; [by right|done]].
Qed.

Lemma vupdate_renamed_names workspace v ws :
  Forall2 renamed ws (vupdate (has_id_w workspace) (λ w, set_w_name (w_name w) (v w) w) ws).
Proof. apply Forall2_vupdate; [apply renamed_refl|]. intros w. apply renamed_set. Qed.

Lemma edit_rename_workspace_Raw s ds workspace version name s' ds' id :
  Inv s → edit_rename_workspace s ds workspace version name = (s', ds', Target id) → RawInv s'.
Proof.
  intros HI. unfold edit_rename_workspace. destruct (valid_name name) eqn:Hv; simpl; [|done].
  destruct (vfind (has_id_w workspace) (s_workspaces s)) as [w|]; [|done].
  destruct (bool_decide _); [done|].
  destruct (vfind (names_entry workspace) (s_names s)); [|done]. intros [= <- _ _].
  pose proof (vupdate_renamed_names workspace (λ w, u64_wrapping_add (w_name_version w) 1)
                (s_workspaces s)) as Hr.
  destruct HI as [[H1 [Ha Hb] H3 H4 H5 H6] Hd Hc He]. split; try done.
  apply Named_Unnamed. split; try done.
  - by eapply Forest_renamed.
  - split; rw (Forall2_renamed_ids _ _ Hr) //. rw -Ha. by apply vupdate_map.
  - intros n c [Hn|(m & Hm & _ & ->)]%elem_of_vupdate; [eauto|]. simpl. intros [= <-].
    apply valid_name_trim; [|done]. apply valid_name_true in Hv. tauto.
  - apply vupdate_Forall; done.
  - intros Hne. apply H6. by eapply Forall2_nil_iff.
Qed.

Lemma edit_pin_workspace_Raw s ds vp workspace version directory s' ds' id :
  Inv s → is_bounded (PinWorkspace workspace version directory) = true →
  edit_pin_workspace s ds vp workspace version directory = (s', ds', Target id) → RawInv s'.
Proof.
  intros HI Hb. unfold edit_pin_workspace.
  destruct (vfind (has_id_w workspace) (s_workspaces s)) as [w|] eqn:Ew; [|done].
  destruct (bool_decide _); [done|]. destruct (match directory with Some _ => _ | None => _ end); [done|].
  intros [= <- _ _]. apply vfind_vupdate_split in Ew as (l1 & l2 & Hw & _ & Hu). rw Hu.
  apply Inv_Raw. eapply (Inv_replace _ l1 w); try done.
  pose proof HI as [[HF _ _ _ _ _] _ _ _]. rw Hw in HF. pose proof HF as [Hok _ _ _ Lt Lp].
  apply Forall_app in Hok as [_ [(W1 & W2 & W3) _]%Forall_cons].
  eapply (Forest_replace _ w _ _ [] []); try done; [|apply fresh_nil].
  split; [|done]. intros p Hp. simpl in Hp, Hb. by rw Hp in Hb.
Qed.

(** ** The edit as a whole *)

Lemma ensure_home_Inv directory s : Inv s → valid_path directory = true → Inv (ensure_home directory s).
Proof.
  intros HI Hd. unfold ensure_home. destruct (s_home_directory s) eqn:E; [done|].
  destruct HI as [[H1 H2 H3 H4 H5 H6] ? ? ?]. split; try done. split; try done.
  by intros d [= <-].
Qed.

Lemma ensure_home_homed directory s : s_home_directory (ensure_home directory s) ≠ None.
Proof. unfold ensure_home. by destruct (s_home_directory s) eqn:E; rw /= ?E. Qed.

Lemma ensure_home_workspaces directory s :
  s_workspaces (ensure_home directory s) = s_workspaces s.
Proof. unfold ensure_home. by destruct (s_home_directory s). Qed.

(** What an edit needs from its caller. *)
Record EditInputs (s : State) (ds : Draws) (m : Mutation) (directory : path) : Prop := {
  ei_fresh : fresh_draws (s_workspaces s) ds;
  ei_directory : valid_path directory = true;
  ei_bounded : is_bounded m = true
}.

Lemma edit_branch_Raw s ds device m directory vp s' ds' id :
  Inv s → s_home_directory s ≠ None → EditInputs s ds m directory →
  edit_branch s ds device m directory vp = (s', ds', Target id) → RawInv s'.
Proof.
  intros HI Hh [Hf Hd Hb]. destruct m; simpl.
  - by eapply edit_end_all_sessions_Raw.
  - done.
  - by eapply edit_close_Raw.
  - by eapply edit_create_workspace_Raw.
  - by eapply edit_create_tab_Raw.
  - by eapply edit_split_pane_Raw.
  - by eapply edit_move_pane_Raw.
  - by eapply edit_merge_tab_Raw.
  - by eapply edit_rename_workspace_Raw.
  - by eapply edit_pin_workspace_Raw.
Qed.

Lemma accept_edit_Inv s target s' r : RawInv s → accept_edit s target = (s', r) → Inv s'.
Proof.
  intros HR%recalculate_Inv. unfold accept_edit. destruct (u64_checked_add _ _).
  - intros [= <- _]. by apply Inv_revision.
  - by intros [= <- _].
Qed.

Lemma edit_Inv s ds device m directory vp s' ds' r :
  Inv s → EditInputs s ds m directory →
  edit s ds device m directory vp = (s', ds', r) → Inv s'.
Proof.
  intros HI [Hf Hd Hb]. unfold edit.
  pose proof (ensure_home_Inv directory s HI Hd) as HI'.
  destruct (edit_branch _ _ _ _ _ _) as [[s1 ds1] [target|r1]] eqn:E.
  - destruct (accept_edit s1 target) as [s2 r2] eqn:Ea. intros [= <- _ _].
    eapply accept_edit_Inv; [|exact Ea].
    eapply edit_branch_Raw; [exact HI'|apply ensure_home_homed| |exact E].
    split; try done. unfold fresh_draws. by rw ensure_home_workspaces.
  - intros [= <- _ _]. by apply edit_branch_Return in E as ->.
Qed.
