(* ===== verification/DeviceOps.v ===== *)
(** * Retained outcomes

    The devices' journal of outcomes: admission, retries, acknowledgement,
    worktree completion, and that [State::apply] keeps the whole invariant. *)
From S2P Require Import Prelude.
From S2P Require Import Text.
From S2P Require Import Facts.
From S2P Require Import HierarchyTypes.
From S2P Require Import HierarchyWorkspace.
From S2P Require Import HierarchyState.
From S2P Require Import HierarchyValidate.
From S2P Require Import NamesProofs.
From S2P Require Import ForestInv.
From S2P Require Import Forest.
From S2P Require Import HierarchyInv.
From S2P Require Import ValidateProofs.
From S2P Require Import TreeOps.
From S2P Require Import EditOps.

(** ** What an edit leaves alone *)

(** The parts of a state no edit writes. *)
Definition same_journal (s s' : State) : Prop :=
  s_devices s' = s_devices s ∧ s_sequence_floor s' = s_sequence_floor s ∧
  s_creator_boot s' = s_creator_boot s ∧ s_worktree_settings s' = s_worktree_settings s.

Lemma same_journal_refl s : same_journal s s.
Proof. done. Qed.
Lemma same_journal_trans s1 s2 s3 : same_journal s1 s2 → same_journal s2 s3 → same_journal s1 s3.
Proof. intros (?&?&?&?) (?&?&?&?). repeat split; congruence. Qed.
#[export] Hint Resolve same_journal_refl : hier.

Lemma recalculate_journal s : same_journal s (recalculate_names s).
Proof. unfold recalculate_names. destruct (recalculate _ _ _) as [[]|]; done. Qed.

Lemma remove_pane_journal s id : same_journal s (remove_pane s id).
Proof.
  unfold remove_pane. set (s1 := set_s_names _ _). pose proof (recalculate_journal s1) as H.
  eapply same_journal_trans; [|exact H]. done.
Qed.

Lemma remove_panes_journal ids s : same_journal s (foldl remove_pane s ids).
Proof.
  revert s. induction ids as [|id ids IH]; intros s; simpl; [done|].
  eapply same_journal_trans; [apply remove_pane_journal|apply IH].
Qed.

Lemma edit_branch_journal s ds device m directory vp s' ds' fl :
  edit_branch s ds device m directory vp = (s', ds', fl) → same_journal s s'.
Proof.
  destruct m; simpl; intros H;
    [unfold edit_end_all_sessions in H| |unfold edit_close in H|unfold edit_create_workspace in H
    |unfold edit_create_tab in H|unfold edit_split_pane in H|unfold edit_move_pane in H
    |unfold edit_merge_tab in H|unfold edit_rename_workspace in H|unfold edit_pin_workspace in H];
    repeat case_match; simplify_eq; try done; apply remove_panes_journal.
Qed.

Lemma ensure_home_journal directory s : same_journal s (ensure_home directory s).
Proof. unfold ensure_home. by destruct (s_home_directory s). Qed.

Lemma edit_journal s ds device m directory vp s' ds' r :
  edit s ds device m directory vp = (s', ds', r) → same_journal s s'.
Proof.
  unfold edit. destruct (edit_branch _ _ _ _ _ _) as [[s1 ds1] fl] eqn:E.
  apply edit_branch_journal in E.
  pose proof (same_journal_trans _ _ _ (ensure_home_journal directory s) E) as Hs.
  destruct fl as [target|r1]; [|by intros [= <- _ _]]. unfold accept_edit.
  pose proof (same_journal_trans _ _ _ Hs (recalculate_journal s1)) as Hs'.
  destruct (u64_checked_add _ _); intros [= <- _ _]; done.
Qed.

(** ** Outcomes that wait *)

Lemma take_pane_refusal w tab pane w' e :
  take_pane w tab pane = (w', Err e) → e = Missing ∨ e = Invalid.
Proof. unfold take_pane. intros H. repeat case_match; simplify_eq; auto. Qed.

Lemma destination_refusal w tab into beside e :
  destination w tab into beside = Err e → e = Missing ∨ e = Invalid.
Proof.
  unfold destination. destruct (bool_decide _); [intros [= <-]; auto|].
  destruct (vposition _ _); [done|]. intros [= <-]. auto.
Qed.

Lemma move_pane_to_new_tab_refusal w tab pane id w' e :
  move_pane_to_new_tab w tab pane id = (w', Err e) → e = Missing ∨ e = Invalid.
Proof.
  unfold move_pane_to_new_tab. destruct (vfind _ _); [|intros [= _ <-]; auto].
  destruct (take_pane w tab pane) as [v [moved|f]] eqn:E; [done|].
  intros [= _ <-]. by eapply take_pane_refusal.
Qed.

Lemma move_pane_beside_refusal w tab pane into beside side w' e :
  move_pane_beside w tab pane into beside side = (w', Err e) → e = Missing ∨ e = Invalid.
Proof.
  unfold move_pane_beside. destruct (destination w tab into beside) eqn:Ed;
    [|intros [= _ <-]; by eapply destination_refusal].
  destruct (take_pane w tab pane) as [v [moved|f]] eqn:E; [done|].
  intros [= _ <-]. by eapply take_pane_refusal.
Qed.

Lemma merge_tab_refusal w tab into beside side w' e :
  merge_tab w tab into beside side = (w', Err e) → e = Missing ∨ e = Invalid.
Proof.
  unfold merge_tab. destruct (destination w tab into beside) eqn:Ed;
    [|intros [= _ <-]; by eapply destination_refusal].
  intros H. repeat case_match; simplify_eq; auto.
Qed.

(** No branch but a worktree operation answers [Pending] or [Accepted] early. *)
Lemma edit_branch_refusal s ds device m directory vp s' ds' o :
  edit_branch s ds device m directory vp = (s', ds', Return (Ok o)) →
  match m with MutWorktree _ => o = Pending | _ => needs_presentation o = true end.
Proof.
  assert (∀ e, e = Missing ∨ e = Invalid → needs_presentation e = true) as He by (intros ? [->| ->]; done).
  destruct m; simpl.
  - unfold edit_end_all_sessions. intros H. repeat case_match; by simplify_eq.
  - by intros [= _ _ <-].
  - unfold edit_close. intros H. repeat case_match; by simplify_eq.
  - unfold edit_create_workspace. intros H. repeat case_match; by simplify_eq.
  - unfold edit_create_tab. intros H. repeat case_match; by simplify_eq.
  - unfold edit_split_pane. intros H. repeat case_match; by simplify_eq.
  - unfold edit_move_pane. destruct (_ && _); [by intros [= _ _ <-]|].
    destruct (vfind _ _) as [w|]; [|by intros [= _ _ <-]]. destruct destination as [|into beside side].
    + destruct (random ds) as [[id|] ds1]; [|done].
      destruct (move_pane_to_new_tab w tab pane id) as [w' [[]|e]] eqn:Em; [done|].
      intros [= _ _ <-]. by eapply He, move_pane_to_new_tab_refusal.
    + destruct (move_pane_beside w tab pane into beside side) as [w' [[]|e]] eqn:Em; [done|].
      intros [= _ _ <-]. by eapply He, move_pane_beside_refusal.
  - unfold edit_merge_tab. destruct (vfind _ _) as [w|]; [|by intros [= _ _ <-]].
    destruct (merge_tab w tab into beside side) as [w' [[]|e]] eqn:Em; [done|].
    intros [= _ _ <-]. by eapply He, merge_tab_refusal.
  - unfold edit_rename_workspace. intros H. repeat case_match; by simplify_eq.
  - unfold edit_pin_workspace. intros H. repeat case_match; by simplify_eq.
Qed.

Lemma edit_Pending s ds device m directory vp s' ds' :
  edit s ds device m directory vp = (s', ds', Ok Pending) → is_worktree_mutation m = true.
Proof.
  unfold edit. destruct (edit_branch _ _ _ _ _ _) as [[s1 ds1] [target|r]] eqn:E.
  - unfold accept_edit. by destruct (u64_checked_add _ _).
  - intros [= _ _ ->]. apply edit_branch_refusal in E. by destruct m.
Qed.

(** ** Device records *)

Lemma outcome_count_flat ds : outcome_count ds = length (flat_map d_pending ds).
Proof. apply vsum_length_flat_map. Qed.

Lemma outcome_count_app l1 l2 : outcome_count (l1 ++ l2) = outcome_count l1 + outcome_count l2.
Proof. apply vsum_app. Qed.
Lemma outcome_count_cons d l : outcome_count (d :: l) = length (d_pending d) + outcome_count l.
Proof. done. Qed.

Lemma Devices_perm ds ds' f : ds ≡ₚ ds' → Devices ds f → Devices ds' f.
Proof.
  intros Hp [H1 H2 H3 H4 H5]. split; try done.
  - by rw -Hp.
  - by rw -Hp.
  - by rw -Hp.
  - rw outcome_count_flat. rw outcome_count_flat in H4. by rw -Hp.
Qed.

Lemma Devices_remove l1 d l2 f f' :
  Devices (l1 ++ d :: l2) f → (f' < u64_max)%N → Devices (l1 ++ l2) f'.
Proof.
  intros HD Hf. eapply (Devices_perm _ (d :: l1 ++ l2)) in HD; [|by rw Permutation_middle].
  destruct HD as [H1 H2 H3 H4 H5]. apply NoDup_cons in H1 as [_ H1]. apply Forall_cons in H2 as [_ H2].
  rw outcome_count_cons in H4. simpl in H3. split; try done; lia.
Qed.

(** Rewriting one record. *)
Lemma Devices_replace l1 d l2 d' f :
  Devices (l1 ++ d :: l2) f → d_device d' = d_device d → device_ok d' →
  outcome_count (l1 ++ d' :: l2) ≤ MAX_OUTCOMES → Devices (l1 ++ d' :: l2) f.
Proof.
  intros [H1 H2 H3 H4 H5] Hd Hok Hc. split; try done.
  - rw map_app /= Hd. by rw map_app in H1.
  - apply Forall_app in H2 as [? [? ?]%Forall_cons]. apply Forall_app. split; [done|by constructor].
  - by rw !length_app /= in H3 |- *.
Qed.

Lemma find_device_elem device s d : find_device device s = Some d → d ∈ s_devices s ∧ d_device d = device.
Proof. by intros [Hd%bool_decide_eq_true ?]%vfind_Some. Qed.

(** The sequence after a record's run, with no wrap-around in reach. *)
Definition next_of (d : DeviceOutcomes) : N := (d_retired d + N.of_nat (length (d_pending d)) + 1)%N.

Lemma u64_wrapping_add_small a b : (a + b < u64_modulus)%N → u64_wrapping_add a b = (a + b)%N.
Proof. intros H. unfold u64_wrapping_add. by apply N.mod_small. Qed.

Lemma u64_modulus_max : u64_modulus = (u64_max + 1)%N.
Proof. done. Qed.

Lemma device_ok_run d : device_ok d → (d_retired d + N.of_nat (length (d_pending d)) < u64_max)%N.
Proof.
  intros [Hr Hp]. destruct (d_pending d) as [|o os] eqn:E; [simpl; lia|].
  destruct (lookup_lt_is_Some_2 (o :: os) (length os)) as [x Hx]; [simpl; lia|].
  destruct (Hp _ _ Hx) as (Hs & Hlt & _). simpl. lia.
Qed.

Lemma next_sequence_found s device d :
  find_device device s = Some d → device_ok d → next_sequence s device = next_of d.
Proof.
  intros Hf Hok. unfold next_sequence. rw Hf. pose proof (device_ok_run _ Hok) as Hrun.
  destruct Hok as [Hr Hp]. unfold next_of. destruct (last (d_pending d)) as [o|] eqn:El.
  - pose proof El as El'. rw last_lookup in El. destruct (Hp _ _ El) as (Hs & Hlt & _).
    rw u64_wrapping_add_small; [rw u64_modulus_max; lia|]. rw Hs.
    destruct (d_pending d); [done|]. simpl. lia.
  - apply last_None in El as ->. simpl. rw u64_wrapping_add_small; [rw u64_modulus_max; lia|]. lia.
Qed.

Lemma next_sequence_unknown s device :
  find_device device s = None → (s_sequence_floor s < u64_max)%N →
  next_sequence s device = (s_sequence_floor s + 1)%N.
Proof.
  intros Hf Hfl. unfold next_sequence. rw Hf. apply u64_wrapping_add_small. rw u64_modulus_max. lia.
Qed.

Lemma vany_find {A} (p : A → bool) l : vany p l = bool_decide (is_Some (vfind p l)).
Proof.
  destruct (vfind p l) eqn:E.
  - rw bool_decide_eq_true_2; [done|]. apply vfind_Some in E as [? ?]. apply vany_true. eauto.
  - rw bool_decide_eq_false_2; [by intros [? ?]|]. apply vany_false. by apply vfind_None.
Qed.

Lemma vposition_find {A} (p : A → bool) l :
  match vposition p l with
  | Some i => ∃ l1 x l2, l = l1 ++ x :: l2 ∧ length l1 = i ∧ vfind p l = Some x
  | None => vfind p l = None
  end.
Proof.
  destruct (vposition p l) as [i|] eqn:E.
  - apply vposition_Some in E as (l1 & x & l2 & -> & <- & Hx & Hl). exists l1, x, l2.
    do 2 (split; [done|]). unfold vfind. induction Hl as [|y l1 Hy _ IH]; simpl; [by rw Hx|by rw Hy].
  - apply vposition_None in E. unfold vfind.
    induction E as [|y l Hy _ IH]; simpl; [done|by rw Hy].
Qed.

(** What admission establishes: the device's record is last, and the submitted
    sequence is the next of its run. *)
Record Enrolled (s : State) (device : Id) (sequence : N) (s' : State) (l : list DeviceOutcomes)
    (d : DeviceOutcomes) : Prop := {
  ad_devices : s_devices s' = l ++ [d];
  ad_device : d_device d = device;
  ad_next : sequence = next_of d;
  ad_inv : Devices (l ++ [d]) (s_sequence_floor s');
  ad_count : outcome_count (l ++ [d]) = outcome_count (s_devices s);
  ad_keeps : ∀ e, e ∈ s_devices s → d_pending e ≠ [] → e ∈ l ++ [d];
  ad_frame : s' = set_s_sequence_floor (s_sequence_floor s') (set_s_devices (s_devices s') s)
}.

Lemma find_device_None device s : find_device device s = None → device ∉ map d_device (s_devices s).
Proof.
  intros Hf (d & -> & Hd)%elem_of_map. pose proof (vfind_None _ _ Hf d Hd) as H.
  by apply bool_decide_eq_false in H.
Qed.

Lemma replace_idle_spec s s' :
  Devices (s_devices s) (s_sequence_floor s) → replace_idle s = Some s' →
  Devices (s_devices s') (s_sequence_floor s') ∧ length (s_devices s') < MAX_DEVICES ∧
  s_devices s' ⊆+ s_devices s ∧ outcome_count (s_devices s') = outcome_count (s_devices s) ∧
  (s_sequence_floor s ≤ s_sequence_floor s')%N ∧
  (∀ e, e ∈ s_devices s → d_pending e ≠ [] → e ∈ s_devices s') ∧
  s' = set_s_sequence_floor (s_sequence_floor s') (set_s_devices (s_devices s') s).
Proof.
  intros HD. unfold replace_idle. destruct (Nat.leb_spec MAX_DEVICES (length (s_devices s))) as [Hle|Hlt].
  - destruct (vposition _ _) as [i|] eqn:Ei; [|done].
    apply vposition_Some in Ei as (l1 & d & l2 & Hl & <- & Hd & _). rw Hl lookup_split vremove_split.
    intros [= <-]. simpl. rw Hl in HD. pose proof HD as [_ Hok Hlen _ Hf].
    apply Forall_app in Hok as [_ [[Hr _] _]%Forall_cons].
    assert (d_pending d = []) as Hp by (by destruct (d_pending d)).
    split; [eapply Devices_remove; [exact HD|lia]|]. rw !outcome_count_app outcome_count_cons Hp.
    rw !length_app /= in Hlen. unfold MAX_DEVICES in *. rw length_app.
    split; [lia|]. split; [apply submseteq_app; [done|by apply submseteq_cons]|].
    split; [done|]. split; [lia|]. split; [|done].
    intros e He Hne. rw elem_of_app elem_of_cons in He. apply elem_of_app.
    destruct He as [?|[->|?]]; [by left|done|by right].
  - intros [= <-]. do 6 (split; [done|]). by destruct s.
Qed.

Lemma admit_device_spec s device sequence s' :
  Devices (s_devices s) (s_sequence_floor s) → expected_sequence s device sequence = true →
  sequence ≠ u64_max → admit_device s device sequence = Some s' →
  ∃ l d, Enrolled s device sequence s' l d.
Proof.
  intros HD He Hmax. unfold admit_device. unfold expected_sequence in He. rw vany_find in He.
  pose proof (vposition_find (is_device device) (s_devices s)) as Hpos.
  destruct (vposition (is_device device) (s_devices s)) as [i|].
  - destruct Hpos as (l1 & d & l2 & Hl & <- & Hf). rw Hl lookup_split vremove_split. intros [= <-].
    rw Hf in He. simpl in He. apply bool_decide_eq_true in He.
    assert (device_ok d) as Hok.
    { destruct HD as [_ Hok _ _ _]. rw Hl in Hok. by apply Forall_app in Hok as [_ [? _]%Forall_cons]. }
    exists (l1 ++ l2), d. split; try done; simpl.
    + by apply find_device_elem in Hf as [_ ?].
    + by rw He (next_sequence_found _ _ _ Hf Hok).
    + rw Hl in HD. eapply Devices_perm; [|exact HD]. solve_Permutation.
    + rw Hl !outcome_count_app !outcome_count_cons. simpl. lia.
    + intros e Hin _. rw Hl in Hin. rw !elem_of_app elem_of_cons in Hin |- *.
      rw list_elem_of_singleton. tauto.
  - rw Hpos in He. simpl in He. apply andb_true_iff in He as [H1%N.leb_le H2%N.leb_le].
    destruct (replace_idle s) as [s1|] eqn:Er; [|done]. intros [= <-].
    rw next_sequence_unknown in H2; [done|apply HD|].
    destruct (replace_idle_spec s s1 HD Er) as ([D1 D2 D3 D4 D5] & Hlen & Hsub & Hc & Hfl & Hkeep & Hfr).
    pose proof (dv_floor _ _ HD) as Hfloor.
    exists (s_devices s1), {| d_device := device; d_retired := (sequence - 1)%N; d_pending := [] |}.
    split; simpl; try done.
    + unfold next_of. simpl. lia.
    + split; try done.
      * rw map_app /=. apply NoDup_app. split; [done|]. split; [|apply NoDup_singleton].
        intros x Hx Hin%list_elem_of_singleton. subst x. apply (find_device_None device s Hpos).
        apply elem_of_map in Hx as (e & -> & He). apply elem_of_map. exists e. split; [done|].
        by eapply elem_of_submseteq.
      * apply Forall_app. split; [done|]. apply Forall_singleton. split; simpl; [lia|]. by intros i o.
      * rw length_app /=. lia.
      * rw outcome_count_app outcome_count_cons. change (outcome_count []) with 0. simpl. lia.
    + rw outcome_count_app outcome_count_cons. change (outcome_count []) with 0. simpl. lia.
    + intros e Hin Hne. apply elem_of_app. auto.
    + by rw Hfr.
Qed.

(** ** Applying an operation *)

Definition push_outcome (o : RetainedOutcome) (d : DeviceOutcomes) : DeviceOutcomes :=
  set_d_record (d_retired d) (d_pending d ++ [o]) d.

Lemma record_outcome_last o l d : record_outcome o (l ++ [d]) = Some (l ++ [push_outcome o d]).
Proof. unfold record_outcome. rw last_snoc removelast_last. done. Qed.

(** An application either stops before the edit, with nothing changed, or
    enrols the device, edits, and appends the outcome to its run. *)
Inductive Applied (s : State) (ds : Draws) (device : Id) (sequence : N) (m : Mutation)
    (directory : path) (vp : path → bool) (s' : State) (ds' : Draws) (r : result Outcome Refusal)
    : Prop :=
  | Applied_stopped :
      s' = s → ds' = ds →
      (is_bounded m = false ∧ r = Err Refusal_Unsupported) ∨
      (∃ old, outcome s device sequence = Some old ∧
         r = (if mutation_eqb (ro_mutation old) m then Ok (ro_outcome old) else Err Refusal_Stale)) ∨
      (outcome s device sequence = None ∧ (r = Err Refusal_Stale ∨ r = Err Refusal_Capacity)) →
      Applied s ds device sequence m directory vp s' ds' r
  | Applied_edited s1 l d s2 :
      is_bounded m = true → outcome s device sequence = None → sequence ≠ u64_max →
      outcome_count (s_devices s) < MAX_OUTCOMES →
      Enrolled s device sequence s1 l d →
      edit s1 ds device m directory vp = (s2, ds', r) →
      s' = match r with
           | Err _ => s2
           | Ok o => set_s_devices (l ++ [push_outcome {| ro_sequence := sequence;
                       ro_mutation := m; ro_outcome := o |} d]) s2
           end →
      Applied s ds device sequence m directory vp s' ds' r.

Lemma apply_Applied s ds device sequence m directory vp s' ds' r :
  Devices (s_devices s) (s_sequence_floor s) →
  apply s ds device sequence m directory vp = (s', ds', r) →
  Applied s ds device sequence m directory vp s' ds' r.
Proof.
  intros HD. unfold apply. destruct (is_bounded m) eqn:Hb; cbn [negb].
  2: { intros [= <- <- <-]. constructor 1; auto. }
  destruct (outcome s device sequence) as [old|] eqn:Eo.
  { intros [= <- <- <-]. constructor 1; [done|done|]. right. left. eauto. }
  destruct (_ || _) eqn:Es.
  { intros [= <- <- <-]. constructor 1; auto. }
  apply orb_false_iff in Es as [He%negb_false_iff Hm%bool_decide_eq_false].
  destruct (Nat.leb_spec MAX_OUTCOMES (outcome_count (s_devices s))) as [Hc|Hc].
  { intros [= <- <- <-]. constructor 1; auto 10. }
  destruct (admit_device s device sequence) as [s1|] eqn:Ea.
  2: { intros [= <- <- <-]. constructor 1; auto 10. }
  destruct (admit_device_spec s device sequence s1 HD He Hm Ea) as (l & d & Hen).
  destruct (edit s1 ds device m directory vp) as [[s2 ds2] [o|e]] eqn:Ed.
  - destruct (edit_journal _ _ _ _ _ _ _ _ _ Ed) as (Hd & _). rw Hd (ad_devices _ _ _ _ _ _ Hen).
    rw record_outcome_last. intros [= <- <- <-]. econstructor 2; eauto.
  - intros [= <- <- <-]. econstructor 2; eauto.
Qed.

Lemma Enrolled_Inv s device sequence s1 l d :
  Inv s → Enrolled s device sequence s1 l d → Inv s1.
Proof.
  intros [H1 H2 H3 H4] [E1 E2 E3 E4 E5 E7 E6]. split; [by rw E6|by rw E1| |]; rw E6; done.
Qed.

Lemma Enrolled_workspaces s device sequence s1 l d :
  Enrolled s device sequence s1 l d → s_workspaces s1 = s_workspaces s.
Proof. intros [_ _ _ _ _ _ ->]. done. Qed.

Lemma push_outcome_ok d o :
  device_ok d → ro_sequence o = next_of d → ro_sequence o ≠ u64_max →
  is_bounded (ro_mutation o) = true →
  (ro_outcome o = Pending → is_worktree_mutation (ro_mutation o) = true) →
  device_ok (push_outcome o d).
Proof.
  intros Hok Hs Hm Hb Hp. pose proof (device_ok_run _ Hok) as Hrun. destruct Hok as [Hr Hpd].
  split; [done|]. simpl. intros i x [Hi|[Hi Hx]]%lookup_app_Some; [by apply Hpd|].
  destruct (i - length (d_pending d)) as [|k] eqn:Ek; [|done]. injection Hx as <-.
  unfold outcome_ok, next_of in *. simpl. repeat split; try done; lia.
Qed.

Lemma apply_Inv s ds device sequence m directory vp s' ds' r :
  Inv s → fresh_draws (s_workspaces s) ds → valid_path directory = true →
  apply s ds device sequence m directory vp = (s', ds', r) → Inv s'.
Proof.
  intros HI Hf Hd Ha. apply apply_Applied in Ha; [|apply HI].
  destruct Ha as [-> _ _|s1 l d s2 Hb Ho Hm Hc Hen He ->]; [done|].
  assert (Inv s2) as HI2.
  { eapply edit_Inv; [by eapply Enrolled_Inv| |exact He]. split; try done.
    unfold fresh_draws. by rw (Enrolled_workspaces _ _ _ _ _ _ Hen). }
  destruct r as [o|e]; [|done]. pose proof (edit_journal _ _ _ _ _ _ _ _ _ He) as (Jd & Jf & _).
  destruct Hen as [E1 E2 E3 E4 E5 E7 E6]. destruct HI2 as [H1 H2 H3 H4]. split; try done. simpl.
  rw Jf. assert (device_ok d) as Hdok.
  { destruct E4 as [_ Hok _ _ _]. rw Forall_app Forall_singleton in Hok. by destruct Hok. }
  eapply Devices_replace; [exact E4|done| |].
  - apply push_outcome_ok; try done. simpl. intros ->. by eapply edit_Pending.
  - rw outcome_count_app outcome_count_cons /= length_app /=.
    rw outcome_count_app outcome_count_cons in E5. change (outcome_count []) with 0 in *. lia.
Qed.

(** ** Acknowledging, finishing and forgetting *)

Lemma take_while_count_le {A} (p : A → bool) l : take_while_count p l ≤ length l.
Proof. induction l as [|x l IH]; simpl; [done|]. destruct (p x); lia. Qed.

Lemma acknowledge_device_ok d settled :
  device_ok d → settled ≤ length (d_pending d) →
  device_ok (set_d_record
    (match last (take settled (d_pending d)) with
     | Some o => N.max (d_retired d) (ro_sequence o)
     | None => d_retired d
     end) (drop settled (d_pending d)) d) ∧
  match last (take settled (d_pending d)) with
  | Some o => N.max (d_retired d) (ro_sequence o)
  | None => d_retired d
  end = (d_retired d + N.of_nat settled)%N.
Proof.
  intros Hok Hle. pose proof (device_ok_run _ Hok) as Hrun. destruct Hok as [Hr Hp].
  assert (match last (take settled (d_pending d)) with
          | Some o => N.max (d_retired d) (ro_sequence o)
          | None => d_retired d
          end = (d_retired d + N.of_nat settled)%N) as E.
  { destruct (last (take settled (d_pending d))) as [o|] eqn:El.
    - rw last_lookup length_take_le // in El. destruct settled as [|k]; [done|].
      rw lookup_take_lt in El; [simpl; lia|]. destruct (Hp _ _ El) as (Hs & _). rw Hs. simpl. lia.
    - apply last_None in El. apply (f_equal length) in El. rw length_take_le // in El.
      simpl in El. subst. lia. }
  split; [|done]. rw E. split; simpl; [lia|].
  intros i o Hi. rw lookup_drop in Hi. destruct (Hp _ _ Hi) as (Hs & Hrest).
  split; [rw Hs /=; lia|done].
Qed.

Lemma Inv_devices_set s ds : Inv s → Devices ds (s_sequence_floor s) → Inv (set_s_devices ds s).
Proof. intros [H1 H2 H3 H4] HD. by split. Qed.

Lemma acknowledge_Inv s device sequence : Inv s → Inv (acknowledge s device sequence).1.
Proof.
  intros HI. unfold acknowledge. destruct (find_device device s) as [d|] eqn:Ef; [|done].
  destruct (vany _ _); [done|]. apply Inv_devices_set; [done|].
  apply vfind_vupdate_split in Ef as (l1 & l2 & Hl & _ & Hu). rw Hu.
  pose proof HI as [_ HD _ _]. rw Hl in HD.
  pose proof HD as [_ Hok _ Hc _]. apply Forall_app in Hok as [_ [Hd _]%Forall_cons].
  eapply Devices_replace; [exact HD|done| |].
  - by apply acknowledge_device_ok, take_while_count_le.
  - rw outcome_count_app outcome_count_cons in Hc. rw outcome_count_app outcome_count_cons /= length_drop.
    lia.
Qed.

Lemma forget_Inv s device : Inv s → Inv (forget s device).1.
Proof.
  intros HI. unfold forget. destruct (vany _ _); [done|]. apply Inv_devices_set; [done|].
  destruct HI as [_ [H1 H2 H3 H4 H5] _ _]. split; try done.
  - eapply NoDup_submseteq_l; [|exact H1]. apply (fmap_submseteq d_device), submseteq_vfilter.
  - by apply Forall_vfilter.
  - etrans; [apply submseteq_length, submseteq_vfilter|done].
  - etrans; [|exact H4]. rw !outcome_count_flat. apply submseteq_length, submseteq_flat_map_vfilter.
Qed.

Lemma finish_worktree_Inv s device sequence o : Inv s → Inv (finish_worktree s device sequence o).1.
Proof.
  intros HI. unfold finish_worktree. destruct (outcome s device sequence) as [r|] eqn:Eo; [|done].
  destruct (_ || _) eqn:E; [done|]. apply orb_false_iff in E as [_ Hne%bool_decide_eq_false].
  apply Inv_devices_set; [done|]. unfold outcome in Eo.
  destruct (find_device device s) as [d|] eqn:Ef; [|done].
  apply vfind_vupdate_split in Ef as (l1 & l2 & Hl & _ & Hu). rw Hu.
  pose proof HI as [_ HD _ _]. rw Hl in HD.
  pose proof HD as [_ Hok _ Hc _]. apply Forall_app in Hok as [_ [[Hr Hp] _]%Forall_cons].
  apply vfind_vupdate_split in Eo as (k1 & k2 & Hk & _ & Hv).
  eapply Devices_replace; [exact HD|done| |].
  - split; [done|]. simpl. rw Hv. intros i x Hx.
    destruct (decide (i = length k1)) as [->|Hi].
    + rw lookup_split in Hx. injection Hx as <-. destruct (Hp (length k1) r) as (P1 & P2 & P3 & _).
      { rw Hk. apply lookup_split. }
      split; [done|]. split; [done|]. split; [done|]. simpl. done.
    + apply Hp. rw Hk. rw -Hx. rw !lookup_app. destruct (k1 !! i) eqn:Ek; [done|].
      apply lookup_ge_None in Ek. destruct (i - length k1) eqn:Ez; [lia|done].
  - rw outcome_count_app outcome_count_cons /= vupdate_length. by rw outcome_count_app outcome_count_cons in Hc.
Qed.

(** ** Opening a worktree Tab *)

Lemma add_worktree_tab_Inv s ds owner workspace root worktree start s' ds' r :
  Inv s → fresh_draws (s_workspaces s) ds →
  valid_path root = true → valid_path worktree = true → valid_path start = true →
  add_worktree_tab s ds owner workspace root worktree start = (s', ds', r) → Inv s'.
Proof.
  intros HI Hf Hr Hw Hs. unfold add_worktree_tab.
  destruct (_ || _) eqn:E1; [by intros [= <- _ _]|].
  apply orb_false_iff in E1 as [Lt%Nat.leb_gt Lp%Nat.leb_gt].
  rw pane_count_spec in Lp. rw tab_count_spec in Lt.
  destruct (vany (has_id_w workspace) (s_workspaces s)) eqn:Ev; simpl; [|by intros [= <- _ _]].
  destruct (random ds) as [[id|] ds1] eqn:R1; [|by intros [= <- _ _]].
  destruct (random ds1) as [[pane|] ds2] eqn:R2; [|by intros [= <- _ _]]. intros [= <- _ _].
  apply Inv_revision. rw vany_find in Ev. apply bool_decide_eq_true in Ev as [w Ew].
  apply vfind_vupdate_split in Ew as (l1 & l2 & Hl & _ & Hu). rw Hu. rw Hl in Lt Lp.
  pose proof HI as [[HF _ _ _ _ _] _ _ _]. rw Hl in HF.
  eapply (Inv_replace _ l1 w); try done. eapply push_tab_Forest; try done.
  - apply new_tab_ok; try done; by intros d [= <-].
  - rw -Hl. by eapply fresh_two.
Qed.
