(* ===== verification/HostProofs.v ===== *)
(** * A server's organization stays well formed

    Every transition of the host keeps the hierarchy's invariant, so every
    record it hands to the journal passes the check that reads it back. *)
From S2P Require Import Prelude.
From S2P Require Import Text.
From S2P Require Import Facts.
From S2P Require Import HierarchyTypes.
From S2P Require Import HierarchyWorkspace.
From S2P Require Import HierarchyState.
From S2P Require Import HierarchyValidate.
From S2P Require Import Host.
From S2P Require Import NamesProofs.
From S2P Require Import ForestInv.
From S2P Require Import Forest.
From S2P Require Import HierarchyInv.
From S2P Require Import ValidateProofs.
From S2P Require Import TreeOps.
From S2P Require Import EditOps.
From S2P Require Import DeviceOps.

(** ** The inventory's live facts *)

(** What the Pane runtime promises: no session has the zero identity. *)
Definition runtime_ok (rt : Runtime) : Prop :=
  ∀ id session, runtime_session (rt_pane rt id) = Some session → session ≠ zero_id.

Lemma present_observers_ok rt id : observers_ok (present_observers rt id).
Proof.
  assert (observers_ok no_observers) by (split; [unfold MAX_OBSERVER_NAMES; simpl; lia|done]).
  unfold present_observers. destruct (runtime_session _); [|done].
  destruct (rt_observers rt n) as [cs|]; [|done]. split; simpl.
  - rw length_map length_take. lia.
  - intros Hn. destruct cs as [|c cs]; [done|]. done.
Qed.

Lemma pane_like_observers o p : observers_ok o → pane_like p (set_p_observers o p).
Proof.
  intros Ho. split; [done|]. split; [done|]. intros (H1 & H2 & H3 & H4). by split.
Qed.

Lemma map_panes_ids f ws : (∀ p, p_id (f p) = p_id p) → pids (map_panes f ws) = pids ws.
Proof.
  intros Hf. apply same_ids_all. apply Forall2_map_r. intros w. split; [done|]. simpl.
  split; [by rw map_map|]. unfold workspace_panes. simpl. rw flat_map_map /=.
  rw !map_flat_map. apply flat_map_ext_in. intros t _. rw map_map. by apply map_ext.
Qed.

Lemma inventory_Inv rt s :
  Inv s → s_creator_boot s = Some (rt_boot rt) → runtime_ok rt →
  Inv (set_s_inventory (host_inventory rt s) s).
Proof.
  intros HI Hb Hrt. set (f := λ p, set_p_observers (present_observers rt (p_id p)) p).
  assert (Inv (set_s_workspaces (map_panes f (s_workspaces s)) s)) as [H1 H2 H3 H4].
  { apply Inv_like; [done|]. apply map_panes_like. intros p.
    apply pane_like_observers, present_observers_ok. }
  split; [done|done| |done]. intros live [= <-]. simpl.
  pose proof H1 as [HF _ _ _ _ _]. change (s_workspaces _) with (map_panes f (s_workspaces s)) in HF.
  split; [done|]. simpl. split; [rw length_map; apply HF|].
  assert (map cp_id (map (λ p, {| cp_id := p_id p; cp_session := runtime_session (rt_pane rt (p_id p)) |})
            (all_panes (map_panes f (s_workspaces s)))) = pids (map_panes f (s_workspaces s))) as Hids.
  { rw map_map. done. }
  split; [rw Hids; by apply Forest_pids|].
  apply Forall_map, Forall_forall. intros p Hp. simpl. split.
  - intros Hz. destruct HF as [_ _ Hnz _ _ _]. apply Hnz. rw all_ids_census. rw !elem_of_app.
    right. right. rw -Hz. apply elem_of_map. eauto.
  - intros Hs. by eapply (Hrt _ _ Hs).
Qed.

(** ** Commits *)

(** The host's own state: nothing live, and the current boot's reservations. *)
Record Hosted (boot : Id) (s : State) : Prop := {
  ho_inv : Inv s;
  ho_boot : s_creator_boot s = Some boot;
  ho_close : i_close (s_inventory s) = None
}.

Lemma commit_Hosted boot s : Inv s → s_creator_boot s = Some boot → Hosted boot (commit s).
Proof. intros [H1 H2 H3 H4] Hb. split; [by split|done|done]. Qed.

(** A commit of what the host already holds is no change. *)
Lemma commit_same s :
  i_close (s_inventory s) = None → i_repositories (s_inventory s) = None → commit s = s.
Proof. destruct s as [??? [????] ????]; simpl. by intros -> ->. Qed.

Lemma apply_boot s ds device sequence m directory vp s' ds' r :
  Inv s → apply s ds device sequence m directory vp = (s', ds', r) →
  s_creator_boot s' = s_creator_boot s.
Proof.
  intros HI Ha. apply apply_Applied in Ha; [|apply HI].
  destruct Ha as [-> _ _|s1 l d s2 Hb Ho Hm Hc Hen He ->]; [done|].
  pose proof (edit_journal _ _ _ _ _ _ _ _ _ He) as (_ & _ & Jb & _).
  destruct Hen as [_ _ _ _ _ _ E6]. rw E6 in Jb. destruct r; done.
Qed.

Lemma Inv_settings w s : Inv s → Inv (set_s_worktree_settings w s).
Proof. intros [H1 H2 H3 H4]. by split. Qed.

Lemma finish_worktree_boot s device sequence o :
  s_creator_boot (finish_worktree s device sequence o).1 = s_creator_boot s.
Proof. unfold finish_worktree. by repeat case_match. Qed.

Lemma begin_worktree_Hosted boot vt s ds device sequence op directory :
  Hosted boot s → fresh_draws (s_workspaces s) ds → valid_path directory = true →
  Hosted boot (begin_worktree vt s ds device sequence op directory).1.1.
Proof.
  intros HH Hf Hd. pose proof HH as [HI Hb Hc]. unfold begin_worktree.
  destruct (negb _); [done|].
  destruct (apply s ds device sequence (MutWorktree op) directory (λ _, false))
    as [[next ds1] [o|e]] eqn:Ea; [|done].
  pose proof (apply_Inv _ _ _ _ _ _ _ _ _ _ HI Hf Hd Ea) as HI1.
  pose proof (apply_boot _ _ _ _ _ _ _ _ _ _ HI Ea) as Hb1. rw Hb in Hb1.
  destruct op as [| |version template|]; try (by apply commit_Hosted).
  set (checked := set_location _ _ _ _). set (next1 := match checked with Ok _ => _ | Err _ => _ end).
  assert (Inv next1 ∧ s_creator_boot next1 = Some boot) as [HI2 Hb2].
  { unfold next1. destruct checked; [split; [by apply Inv_settings|done]|done]. }
  set (o1 := match checked with Ok _ => _ | Err _ => _ end).
  pose proof (finish_worktree_Inv next1 device sequence o1 HI2) as HI3.
  pose proof (finish_worktree_boot next1 device sequence o1) as Hb3.
  destruct (finish_worktree next1 device sequence o1) as [next2 [|]]; [|done].
  apply commit_Hosted; [done|]. simpl in Hb3. congruence.
Qed.

(** What the filesystem and Git promise the host: the directories they return
    are absolute, bounded and free of NUL bytes. *)
Definition start_ok {A} (start : Workspace → A → path → result path Refusal) : Prop :=
  ∀ w a root d, start w a root = Ok d → valid_path d = true.

Lemma mutate_Hosted boot rt vt home start validate s ds device sequence m :
  Hosted boot s → rt_boot rt = boot → runtime_ok rt → fresh_draws (s_workspaces s) ds →
  valid_path home = true → start_ok start →
  Hosted boot (mutate rt vt home start validate s ds device sequence m).1.1.
Proof.
  intros HH Hrb Hrt Hf Hh Hst. pose proof HH as [HI Hb Hc]. unfold mutate.
  destruct (outcome s device sequence); [done|].
  assert (∀ directory : result path Refusal, (∀ d, directory = Ok d → valid_path d = true) →
    Hosted boot (match apply (set_s_inventory (host_inventory rt s) s) ds device sequence m
                    (match directory with Ok d => d | Err _ => home end)
                    (λ p, is_ok directory && validate p) with
            | (_, ds, Err refusal) => (s, ds, Err refusal)
            | (next, ds, Ok _) =>
                match outcome next device sequence with
                | None => (s, ds, Err Refusal_Failed)
                | Some o => (commit next, ds, Ok (Answer_Outcome o))
                end
            end).1.1) as Hedit.
  { intros directory Hdir.
    assert (valid_path (match directory with Ok d => d | Err _ => home end) = true) as Hd
      by (destruct directory; auto).
    assert (Inv (set_s_inventory (host_inventory rt s) s)) as HIn
      by (apply inventory_Inv; [done|congruence|done]).
    assert (fresh_draws (s_workspaces (set_s_inventory (host_inventory rt s) s)) ds) as Hfn.
    { unfold fresh_draws. replace (all_ids _) with (all_ids (s_workspaces s)); [done|].
      symmetry. unfold all_ids, host_inventory, s_workspaces. simpl. unfold map_panes. rw flat_map_map.
      apply flat_map_ext_in. intros w _. unfold workspace_ids, tabs_ids. simpl. f_equal.
      rw flat_map_map. apply flat_map_ext_in. intros t _. unfold tab_ids. simpl. f_equal. by rw map_map. }
    destruct (apply _ _ _ _ _ _ _) as [[next ds1] [o|e]] eqn:Ea; [|done].
    pose proof (apply_Inv _ _ _ _ _ _ _ _ _ _ HIn Hfn Hd Ea) as HI1.
    pose proof (apply_boot _ _ _ _ _ _ _ _ _ _ HIn Ea) as Hb1.
    destruct (outcome next device sequence); [|done]. apply commit_Hosted; [done|]. by rw Hb1. }
  assert (∀ d : path, Ok (E := Refusal) home = Ok d → valid_path d = true) as Hho by (by intros d [= <-]).
  destruct m; try (destruct (negb _); [done|]; by apply (Hedit (Ok home))).
  - by apply begin_worktree_Hosted.
  - destruct (negb _); [done|]. apply Hedit.
    destruct (vfind _ _) as [w|]; [|done]. destruct (vfind _ (w_tabs w)) as [t|]; [|done].
    destruct (t_worktree t); [|done]. apply Hst.
Qed.

(** ** Worktree settlements *)

Lemma add_worktree_tab_boot s ds owner workspace root worktree start :
  s_creator_boot (add_worktree_tab s ds owner workspace root worktree start).1.1
  = s_creator_boot s.
Proof. unfold add_worktree_tab. by repeat case_match. Qed.

Lemma outcome_bounded s device sequence o :
  Devices (s_devices s) (s_sequence_floor s) → outcome s device sequence = Some o →
  is_bounded (ro_mutation o) = true.
Proof.
  intros [_ Hok _ _ _]. unfold outcome. destruct (find_device device s) as [d|] eqn:Ef; [|done].
  apply find_device_elem in Ef as [Hin _]. rw Forall_forall in Hok. destruct (Hok d Hin) as [_ Hp].
  intros [_ [i Hi]%list_elem_of_lookup]%vfind_Some. by destruct (Hp _ _ Hi) as (_ & _ & ? & _).
Qed.

(** The shared tail of both settlements. *)
Lemma finish_Hosted boot s next ds device sequence o :
  Hosted boot s → Inv next → s_creator_boot next = Some boot →
  Hosted boot (finish_and_commit s next ds device sequence o).1.1.
Proof.
  intros HH HI Hb. pose proof (finish_worktree_Inv next device sequence o HI) as HI'.
  pose proof (finish_worktree_boot next device sequence o) as Hb'. unfold finish_and_commit.
  destruct (finish_worktree next device sequence o) as [n [|]]; [|done].
  apply commit_Hosted; [done|]. simpl in Hb'. congruence.
Qed.

Lemma settle_worktree_Hosted boot rt s ds device sequence result :
  Hosted boot s → fresh_draws (s_workspaces s) ds →
  (∀ p, result = Ok (Some p) → valid_path p = true) →
  Hosted boot (settle_worktree rt s ds device sequence result).1.1.
Proof.
  intros HH Hf Hp. pose proof HH as [HI Hb _]. unfold settle_worktree.
  destruct (outcome s device sequence) as [record|] eqn:Eo; [|done].
  pose proof (outcome_bounded s device sequence record (inv_devices _ HI) Eo) as Hbd.
  destruct result as [p|e]; [|by apply finish_Hosted].
  destruct (ro_mutation record) as [|op| | | | | | | |] eqn:Em; try (by apply finish_Hosted).
  destruct op as [workspace root op_path branch control| | |]; try (by apply finish_Hosted).
  destruct p as [p|]; [|by apply finish_Hosted]. simpl in Hbd.
  apply andb_true_iff in Hbd as [[Hroot _]%andb_true_iff _].
  pose proof (add_worktree_tab_boot s ds (creator control device (host_inventory rt s)) workspace root p p) as Hb1.
  destruct (add_worktree_tab s ds _ workspace root p p) as [[next ds1] r] eqn:Ea.
  assert (Inv next) as HI1 by (eapply add_worktree_tab_Inv; [exact HI|exact Hf| | | |exact Ea]; by eauto).
  simpl in Hb1. rw Hb in Hb1. destruct r; by apply finish_Hosted.
Qed.

Lemma open_prepared_Hosted boot rt start s ds device sequence workspace source root p control :
  Hosted boot s → fresh_draws (s_workspaces s) ds → start_ok start →
  valid_path root = true → valid_path p = true →
  Hosted boot (open_prepared rt start s ds device sequence workspace source root p control).1.1.
Proof.
  intros HH Hf Hst Hr Hp. pose proof HH as [HI Hb _]. unfold open_prepared.
  destruct (vfind _ _) as [w|]; [|by apply finish_Hosted].
  destruct (start w source p) as [d|] eqn:Es; [|by apply finish_Hosted].
  pose proof (add_worktree_tab_boot s ds (creator control device (host_inventory rt s)) workspace root p d) as Hb1.
  destruct (add_worktree_tab s ds _ workspace root p d) as [[next ds1] r] eqn:Ea.
  assert (Inv next) as HI1 by (eapply add_worktree_tab_Inv; [exact HI|exact Hf| | | |exact Ea]; by eauto).
  simpl in Hb1. rw Hb in Hb1. destruct r; by apply finish_Hosted.
Qed.

(** ** Acknowledgements, revocations and restarts *)

Lemma retire_outcome_Hosted boot s device sequence :
  Hosted boot s → Hosted boot (retire_outcome s device sequence).1.
Proof.
  intros HH. pose proof HH as [HI Hb _]. unfold retire_outcome.
  pose proof (acknowledge_Inv s device sequence HI) as HI1.
  assert (s_creator_boot (acknowledge s device sequence).1 = Some boot) as Hb1.
  { unfold acknowledge. by repeat case_match. }
  destruct (acknowledge s device sequence) as [next [|]]; [|done]. by apply commit_Hosted.
Qed.

Lemma host_forget_Hosted boot s device : Hosted boot s → Hosted boot (host_forget s device).
Proof.
  intros HH. pose proof HH as [HI Hb _]. unfold host_forget.
  pose proof (forget_Inv s device HI) as HI1.
  assert (s_creator_boot (forget s device).1 = Some boot) as Hb1.
  { unfold forget. by repeat case_match. }
  destruct (forget s device) as [next [|]]; [|done]. by apply commit_Hosted.
Qed.

Lemma release_creator_Hosted boot client s : Hosted boot s → Hosted boot (release_creator client s).
Proof.
  intros [HI Hb Hc]. split; [|done|done]. apply Inv_like; [done|].
  apply map_panes_like. intros p. case_bool; [apply pane_like_creator|apply pane_like_refl].
Qed.

Lemma begin_boot_boot boot s : s_creator_boot (begin_boot boot s) = Some boot.
Proof. unfold begin_boot. destruct (bool_decide_reflect (s_creator_boot s ≠ Some boot)) as [|H]; [done|]. by apply dec_stable. Qed.

Lemma begin_boot_close boot s : i_close (s_inventory (begin_boot boot s)) = i_close (s_inventory s).
Proof. unfold begin_boot. by case_bool. Qed.

Lemma empty_Inv : Inv empty_state.
Proof.
  split.
  - split; try done; [split; try done; [constructor|by intros ?%elem_of_nil|unfold MAX_WORKSPACES; simpl; lia..]
      |by split; [|constructor]|by intros n c ?%elem_of_nil].
  - split; try done; [constructor|unfold MAX_DEVICES; simpl; lia|unfold MAX_OUTCOMES; vm_compute; lia].
  - done.
  - done.
Qed.

Lemma restore_Hosted boot record :
  (∀ s, record = Some s → Inv s ∧ i_close (s_inventory s) = None) →
  Hosted boot (restore_organization boot record).
Proof.
  intros Hr. unfold restore_organization.
  set (s := match record with Some s => s | None => empty_state end).
  assert (Inv s ∧ i_close (s_inventory s) = None) as [HI Hc].
  { unfold s. destruct record; [by apply Hr|]. split; [apply empty_Inv|done]. }
  split; [by apply begin_boot_Inv|apply begin_boot_boot|by rw begin_boot_close].
Qed.

(** ** Worktree membership *)

(** What Git's listings promise: absolute, bounded roots. *)
Definition snapshot_ok (snapshot : RepositorySnapshot) : Prop :=
  ∀ facts l, facts ∈ rs_directories snapshot → df_worktrees facts = Some l →
    valid_path (wi_main_root l) = true ∧
    ∀ r, r ∈ wi_worktrees l → valid_path (wr_root r) = true.

Lemma current_worktree_ok snapshot d root main :
  snapshot_ok snapshot → current_worktree snapshot d = Some (root, main) →
  valid_path root = true ∧ valid_path main = true.
Proof.
  intros Hs. unfold current_worktree. destruct (vfind _ _) as [facts|] eqn:Ef; [|done].
  destruct (df_worktrees facts) as [l|] eqn:El; [|done].
  destruct (wi_current l) as [i|]; [|done]. destruct (wi_worktrees l !! i) as [r|] eqn:Er; [|done].
  destruct (_ && _); [|done]. intros [= <- <-]. apply vfind_Some in Ef as [_ Hin].
  destruct (Hs _ _ Hin El) as [Hm Hr]. split; [|done]. eapply Hr, list_elem_of_lookup_2, Er.
Qed.

Lemma vfind_map_Some {A B} (f : A → option B) l y :
  vfind_map f l = Some y → ∃ x, x ∈ l ∧ f x = Some y.
Proof.
  induction l as [|x l IH]; simpl; [done|]. destruct (f x) as [z|] eqn:E.
  - intros [= ->]. exists x. split; [by left|done].
  - intros (x' & Hin & Hx)%IH. exists x'. split; [by right|done].
Qed.

Lemma opt_path_ok_Some d : valid_path d = true → opt_path_ok (Some d).
Proof. by intros H x [= <-]. Qed.
#[local] Hint Resolve opt_path_ok_Some : core.

Lemma set_t_worktree_ok m worktree repository t :
  tab_ok t → opt_path_ok worktree → opt_path_ok repository →
  (worktree = None → repository = None) → tab_ok (set_t_worktree m worktree repository t).
Proof. intros (H1 & H2 & H3 & H4 & H5 & H6) ? ? ?. by repeat split. Qed.

Lemma tab_current_ok snapshot current t a b :
  snapshot_ok snapshot →
  (∀ a b, current = Some (a, b) → valid_path a = true ∧ valid_path b = true) →
  tab_current snapshot current t = Some (a, b) → valid_path a = true ∧ valid_path b = true.
Proof.
  intros Hs Hc. unfold tab_current. destruct (vfind _ _) as [p|].
  - destruct (current_worktree snapshot _) as [[x y]|] eqn:E.
    + intros [= <- <-]. by eapply current_worktree_ok.
    + destruct (is_Some_b _); [done|apply Hc].
  - destruct (is_Some_b _); [done|apply Hc].
Qed.

Lemma reconcile_tab_ok snapshot root follows current t :
  snapshot_ok snapshot →
  (∀ a b, current = Some (a, b) → valid_path a = true ∧ valid_path b = true) →
  tab_ok t → tab_ok (reconcile_tab snapshot root follows current t).1.
Proof.
  intros Hs Hc Ht. pose proof Ht as (H1 & H2 & H3 & _). unfold reconcile_tab.
  destruct (follows && _ && _); [by apply set_t_worktree_ok|].
  destruct (_ || _).
  - destruct (vfind_map _ _) as [main|] eqn:Em; [|done]. destruct (negb _); [|done].
    apply vfind_map_Some in Em as (f & Hin & Hf). destruct (df_worktrees f) as [l|] eqn:El; [|done].
    destruct (is_Some_b _); [done|]. destruct (vany _ _) eqn:Ea; [|done]. injection Hf as <-.
    destruct (Hs _ _ Hin El) as [Hm _]. apply set_t_worktree_ok; auto.
    intros Hn. rw Hn in Ea. apply vany_true in Ea as (r & _ & Hr). done.
  - destruct (tab_current snapshot current t) as [[a b]|] eqn:Ec; [|done].
    destruct (tab_current_ok _ _ _ _ _ Hs Hc Ec) as [Ha Hb]. simpl.
    apply set_t_worktree_ok; [done|destruct (negb _); auto|destruct (negb _); auto|].
    destruct (t_worktree t) as [x|] eqn:Ex; [by destruct (negb _)|done].
Qed.

Lemma reconcile_tab_frame snapshot root follows current t :
  let t' := (reconcile_tab snapshot root follows current t).1 in
  t_id t' = t_id t ∧ t_panes t' = t_panes t.
Proof. unfold reconcile_tab. by repeat case_match. Qed.

Lemma reconcile_workspace_spec snapshot w :
  let w' := (reconcile_workspace snapshot w).1 in
  same_ids w w' ∧ w_name w' = w_name w ∧
  (snapshot_ok snapshot → workspace_ok w → workspace_ok w').
Proof.
  unfold reconcile_workspace. set (cur := match workspace_directory w with Some _ => _ | None => _ end).
  set (g := reconcile_tab _ _ _ _). simpl. rw map_map.
  assert (map t_id (map (λ x, (g x).1) (w_tabs w)) = map t_id (w_tabs w)) as Hids.
  { rw map_map. apply map_ext. intros t. apply reconcile_tab_frame. }
  split; [split; [done|]; split; [done|]|split; [done|]].
  - unfold workspace_panes. rw /= flat_map_map. f_equal. apply flat_map_ext_in. intros t _.
    apply reconcile_tab_frame.
  - intros Hs (H1 & H2 & H3). split; [done|]. split; [by rw /= Hids|]. simpl.
    apply Forall_map. eapply Forall_impl; [exact H3|]. intros t Ht. apply reconcile_tab_ok; try done.
    intros a b. unfold cur. destruct (workspace_directory w); [|done]. by apply current_worktree_ok.
Qed.

Lemma reconcile_membership_Inv snapshot s :
  Inv s → snapshot_ok snapshot → Inv (reconcile_membership snapshot s).1.
Proof.
  intros [[H1 H2 H3 H4 H5 H6] Hd Hc He] Hs. unfold reconcile_membership.
  set (ws := map (reconcile_workspace snapshot) (s_workspaces s)).
  assert (map fst ws = map (λ w, (reconcile_workspace snapshot w).1) (s_workspaces s)) as Hws by by rw /ws map_map.
  assert (Forall2 (λ w w', same_ids w w') (s_workspaces s) (map fst ws)) as Hf.
  { rw Hws. apply Forall2_map_r. intros w. apply reconcile_workspace_spec. }
  assert (Inv (set_s_workspaces (map fst ws) s)) as HI.
  { split; try done. destruct (same_ids_all _ _ Hf) as (Hw & _ & _). split; try done.
    - eapply Forest_same; [exact H1|exact Hf|]. cbn. rw Hws. apply Forall_map.
      eapply Forall_impl; [apply H1|]. intros w Hw'. by apply reconcile_workspace_spec.
    - destruct H2 as [Ha Hb]. unfold wids in Hw. split; cbn; by rw Hw.
    - cbn. rw Hws. apply Forall_map. eapply Forall_impl; [exact H4|]. intros w Hn.
      by destruct (reconcile_workspace_spec snapshot w) as (_ & -> & _).
    - cbn. intros Hne. apply H6. intros E. apply Hne. by rw Hws E. }
  simpl. destruct (vany _ _); [by apply Inv_revision|done].
Qed.

(** ** Synchronization *)

Definition report_ok (r : PaneReport) : Prop := ∀ p, rp_confirmed r = Some p → valid_path p = true.

Lemma recalculate_boot s : s_creator_boot (recalculate_names s) = s_creator_boot s.
Proof. unfold recalculate_names. by destruct (recalculate _ _ _) as [[]|]. Qed.

Lemma recalculate_close s : i_close (s_inventory (recalculate_names s)) = i_close (s_inventory s).
Proof. unfold recalculate_names. by destruct (recalculate _ _ _) as [[]|]. Qed.

Lemma report_pane_boot s r : s_creator_boot (report_pane s r) = s_creator_boot s.
Proof.
  assert (∀ s, s_creator_boot (remove_pane s (rp_id r)) = s_creator_boot s) as Hrm.
  { intros x. unfold remove_pane. cbn. by rw recalculate_boot. }
  assert (∀ s p, s_creator_boot (confirm_directory s (rp_id r) p) = s_creator_boot s) as Hcd.
  { intros x p. unfold confirm_directory. repeat case_match; try done; cbn; by rw recalculate_boot. }
  assert (∀ s p, s_creator_boot (present_directory s (rp_id r) p) = s_creator_boot s) as Hpd.
  { intros x p. unfold present_directory. repeat case_match; try done; cbn; by rw recalculate_boot. }
  assert (∀ s p, s_creator_boot (present_repository_directory s (rp_id r) p) = s_creator_boot s) as Hrd.
  { intros x p. unfold present_repository_directory. by repeat case_match. }
  unfold report_pane. destruct (rp_metadata r) as [[a b]|];
    destruct (rp_identity r); try (destruct (rp_confirmed r)); repeat case_match;
    by rw ?Hrm ?Hcd ?Hrd ?Hpd.
Qed.

Lemma report_pane_Inv s r : Inv s → report_ok r → Inv (report_pane s r).
Proof.
  intros HI Hr. unfold report_pane.
  set (next := match rp_metadata r with Some _ => _ | None => _ end).
  assert (Inv next) as HI1.
  { unfold next. destruct (rp_metadata r) as [[a b]|]; [|done].
    by apply present_repository_directory_Inv, present_directory_Inv. }
  destruct (rp_identity r).
  - destruct (rp_confirmed r) eqn:E; [|done]. by apply confirm_directory_Inv; [|apply Hr].
  - destruct (find_pane _ _); [|done]. by apply remove_pane_Inv.
Qed.

Lemma reports_Inv reports s :
  Inv s → Forall report_ok reports →
  Inv (foldl report_pane s reports) ∧
  s_creator_boot (foldl report_pane s reports) = s_creator_boot s.
Proof.
  revert s. induction reports as [|r rs IH]; intros s HI Hr; [done|].
  apply Forall_cons in Hr as [Hr Hrs]. cbn [foldl].
  destruct (IH (report_pane s r)) as [H1 H2]; [by apply report_pane_Inv|done|].
  by rw H2 report_pane_boot.
Qed.

Lemma present_presentation_Hosted boot s id o :
  Hosted boot s → presentation_ok o → Hosted boot (present_presentation s id o).
Proof. intros [H1 H2 H3] Ho. split; [by apply present_presentation_Inv|done|done]. Qed.

Lemma reconcile_boot snapshot s :
  s_creator_boot (reconcile_membership snapshot s).1 = s_creator_boot s.
Proof. unfold reconcile_membership. simpl. by destruct (vany _ _). Qed.

Lemma synchronize_Hosted boot s reports snapshot snapshots :
  Hosted boot s → Forall report_ok reports → snapshot_ok snapshot →
  Forall (λ x, presentation_ok x.2) snapshots →
  Hosted boot (synchronize s reports snapshot snapshots).
Proof.
  intros [HI Hb Hc] Hr Hs Hp. unfold synchronize.
  assert (Hosted boot (commit (reconcile_membership snapshot (foldl report_pane s reports)).1)) as HH.
  { destruct (reports_Inv _ _ HI Hr) as [H1 H2].
    apply commit_Hosted; [by apply reconcile_membership_Inv|]. rw reconcile_boot. congruence. }
  revert HH. generalize (commit (reconcile_membership snapshot (foldl report_pane s reports)).1) as x.
  induction Hp as [|[id o] l Ho _ IH]; intros x HH; [done|]. cbn [foldl].
  apply IH. by apply present_presentation_Hosted.
Qed.

(** ** The first organization *)

Lemma first_state_Ok directory ds ds' s :
  first_state directory ds = (ds', Ok s) →
  ∃ w t p, s = first_state_of directory w t p ∧ validate s = Ok tt.
Proof.
  unfold first_state. destruct (random ds) as [[w|] ds1]; [|done].
  destruct (random ds1) as [[t|] ds2]; [|done]. destruct (random ds2) as [[p|] ds3]; [|done].
  intros [= <- Hs]. destruct (validate (first_state_of directory w t p)) as [[]|] eqn:Ev; [|done].
  injection Hs as <-. eauto.
Qed.

Lemma first_state_Inv directory ds ds' s :
  first_state directory ds = (ds', Ok s) → Inv s ∧ i_close (s_inventory s) = None.
Proof.
  intros (w & t & p & -> & Hv)%first_state_Ok.
  assert (Valid (first_state_of directory w t p)) as [V1 V2 V3 V4 V5 V6 V7 V8 V9].
  { apply validate_Valid; [|done]. split; [constructor|done]. }
  split; [|done]. split; [|done|done|done].
  destruct V7 as (L1 & L2 & L3). split; try done.
  - split; try done. apply Forall_singleton. split; [done|]. split; [done|].
    apply Forall_cons in V4 as [(_ & _ & _ & [(_ & _ & _ & _ & _ & Hp) _]%Forall_cons) _].
    apply Forall_singleton. by repeat split.
  - split; [done|]. apply NoDup_singleton.
  - intros n c Hn%list_elem_of_singleton. by subst n.
  - by apply Forall_singleton.
Qed.

Lemma prepare_Hosted boot directory prepared s ds :
  Hosted boot s → Hosted boot (prepare_initial_organization boot directory prepared s ds).1.1.
Proof.
  intros HH. pose proof HH as [HI Hb Hc]. unfold prepare_initial_organization. destruct prepared; [done|].
  destruct (is_empty _); [|by apply commit_Hosted].
  destruct (first_state directory ds) as [ds' [next|]] eqn:Ef; [|done].
  destruct (first_state_Inv _ _ _ _ Ef) as [HI1 Hc1].
  apply commit_Hosted; [|apply begin_boot_boot]. apply begin_boot_Inv; [by apply Inv_settings|done].
Qed.

(** ** The server as a transition system *)

(** A server: its boot, the organization it holds, and every record its journal
    may hold. *)
Record Server := { sv_boot : Id; sv_state : State; sv_records : list State }.

Definition server_start (boot : Id) : Server :=
  {| sv_boot := boot; sv_state := restore_organization boot None; sv_records := [] |}.

(** The server keeps [s] and the journal may come to hold its envelope. *)
Definition keeps_state (sv : Server) (s : State) : Server :=
  {| sv_boot := sv_boot sv; sv_state := s; sv_records := envelope s :: sv_records sv |}.

Inductive server_step (sv : Server) : Server → Prop :=
  | step_mutate rt vt home start validate ds device sequence m :
      rt_boot rt = sv_boot sv → runtime_ok rt → start_ok start → valid_path home = true →
      fresh_draws (s_workspaces (sv_state sv)) ds →
      server_step sv (keeps_state sv
        (mutate rt vt home start validate (sv_state sv) ds device sequence m).1.1)
  | step_settle rt ds device sequence result :
      fresh_draws (s_workspaces (sv_state sv)) ds →
      (∀ p, result = Ok (Some p) → valid_path p = true) →
      server_step sv (keeps_state sv (settle_worktree rt (sv_state sv) ds device sequence result).1.1)
  | step_open rt start ds device sequence workspace source root p control :
      fresh_draws (s_workspaces (sv_state sv)) ds → start_ok start →
      valid_path root = true → valid_path p = true →
      server_step sv (keeps_state sv
        (open_prepared rt start (sv_state sv) ds device sequence workspace source root p control).1.1)
  | step_retire device sequence :
      server_step sv (keeps_state sv (retire_outcome (sv_state sv) device sequence).1)
  | step_revoke client :
      server_step sv (keeps_state sv (release_creator client (host_forget (sv_state sv) client)))
  | step_repair id d next :
      valid_path d = true → repair_directory (sv_state sv) id d = (next, Ok tt) →
      server_step sv (keeps_state sv (commit next))
  | step_synchronize reports snapshot snapshots :
      Forall report_ok reports → snapshot_ok snapshot → Forall (λ x, presentation_ok x.2) snapshots →
      server_step sv (keeps_state sv (synchronize (sv_state sv) reports snapshot snapshots))
  | step_prepare directory prepared ds :
      server_step sv (keeps_state sv
        (prepare_initial_organization (sv_boot sv) directory prepared (sv_state sv) ds).1.1)
  | step_restore boot r :
      r ∈ sv_records sv →
      server_step sv {| sv_boot := boot; sv_state := restore_organization boot (Some r);
                        sv_records := sv_records sv |}.

Record Serving (sv : Server) : Prop := {
  sg_state : Hosted (sv_boot sv) (sv_state sv);
  sg_records : Forall (λ r, Inv r ∧ i_close (s_inventory r) = None) (sv_records sv)
}.

Lemma keeps_state_Serving sv s : Serving sv → Hosted (sv_boot sv) s → Serving (keeps_state sv s).
Proof.
  intros [_ Hr] HH. split; [done|]. constructor; [|done].
  split; [by apply envelope_Inv; destruct HH|done].
Qed.

Lemma server_step_Serving sv sv' : Serving sv → server_step sv sv' → Serving sv'.
Proof.
  intros HS. pose proof HS as [HH Hr]. destruct 1.
  - apply keeps_state_Serving; [done|]. by apply mutate_Hosted.
  - apply keeps_state_Serving; [done|]. by apply settle_worktree_Hosted.
  - apply keeps_state_Serving; [done|]. by apply open_prepared_Hosted.
  - apply keeps_state_Serving; [done|]. by apply retire_outcome_Hosted.
  - apply keeps_state_Serving; [done|]. by apply release_creator_Hosted, host_forget_Hosted.
  - apply keeps_state_Serving; [done|].
    assert (Inv next ∧ s_creator_boot next = Some (sv_boot sv)) as [HI Hb].
    { destruct HH as [HI Hb _]. pose proof (repair_directory_Inv _ id d HI H) as HI'.
      rw H0 in HI'. split; [done|]. unfold repair_directory in H0.
      destruct (find_pane _ _); [|done].
      destruct (u64_checked_add _ _); simplify_eq. cbn. by rw recalculate_boot. }
    by apply commit_Hosted.
  - apply keeps_state_Serving; [done|]. by apply synchronize_Hosted.
  - apply keeps_state_Serving; [done|]. by apply prepare_Hosted.
  - split; [|done]. apply restore_Hosted. intros s [= <-]. rw Forall_forall in Hr. by apply Hr.
Qed.

Lemma server_reachable_Serving boot sv : rtc server_step (server_start boot) sv → Serving sv.
Proof.
  intros H. apply (rtc_ind_r (R := server_step) Serving (server_start boot));
    [|by intros; eapply server_step_Serving|done].
  split; [|constructor]. by apply restore_Hosted.
Qed.
