(* ===== verification/Demo.v ===== *)
(** * A small organization

    Concrete states at which the theorems' hypotheses hold: the first Workspace
    of a server, the same with a second Pane, and with a second Tab. *)
From S2P Require Import Prelude.
From S2P Require Import Text.
From S2P Require Import Facts.
From S2P Require Import HierarchyTypes.
From S2P Require Import HierarchyWorkspace.
From S2P Require Import HierarchyState.
From S2P Require Import HierarchyValidate.
From S2P Require Import Host.
From S2P Require Import NamesProofs.
From S2P Require Import ForestInv.
From S2P Require Import Forest.
From S2P Require Import HierarchyInv.
From S2P Require Import ValidateProofs.
From S2P Require Import TreeOps.
From S2P Require Import EditOps.
From S2P Require Import DeviceOps.
From S2P Require Import HostProofs.

Definition demo_home : path := lit "/home/ada".
Definition demo_first : State := first_state_of demo_home 1 2 3.

Lemma demo_first_Inv : Inv demo_first ∧ i_close (s_inventory demo_first) = None.
Proof.
  apply (first_state_Inv demo_home [Some 1%N; Some 2%N; Some 3%N] []). vm_compute. reflexivity.
Qed.

(** Device 9 splits Pane 3 of Tab 2; the new Pane is 4. *)
Definition demo_split : Mutation := SplitPane 1 2 3 Axis_Down Control_Creator.
Definition demo_split_run : State * Draws * result Outcome Refusal :=
  apply demo_first [Some 4%N] 9 1 demo_split demo_home (λ _, true).
Definition demo_two_panes : State := demo_split_run.1.1.

(** Device 9 adds Tab 5 with Pane 6. *)
Definition demo_tab_run : State * Draws * result Outcome Refusal :=
  apply demo_two_panes [Some 5%N; Some 6%N] 9 2 (CreateTab 1 None Control_Unclaimed) demo_home
    (λ _, true).
Definition demo_two_tabs : State := demo_tab_run.1.1.

Lemma fresh_by_check ws ds :
  bool_decide (NoDup (drawn ds)) && negb (bool_decide (zero_id ∈ drawn ds))
  && vall (λ x, negb (bool_decide (x ∈ all_ids ws))) (drawn ds) = true → fresh_draws ws ds.
Proof.
  intros [[H1%bool_decide_eq_true H2%negb_true_iff%bool_decide_eq_false]%andb_true_iff H3]%andb_true_iff.
  split; [done|]. split; [done|]. intros x Hx.
  unfold vall in H3. rw forallb_forall in H3. apply list_elem_of_In in Hx.
  specialize (H3 x Hx). by apply negb_true_iff, bool_decide_eq_false in H3.
Qed.

Lemma demo_first_fresh : fresh_draws (s_workspaces demo_first) [Some 4%N].
Proof. apply fresh_by_check. vm_compute. reflexivity. Qed.

Lemma demo_two_panes_Inv : Inv demo_two_panes.
Proof.
  eapply (apply_Inv demo_first [Some 4%N] 9 1 demo_split demo_home (λ _, true) _ [] (Ok (Accepted 4%N)));
    [apply demo_first_Inv|apply demo_first_fresh|vm_compute; reflexivity|].
  vm_compute. reflexivity.
Qed.

Lemma demo_two_tabs_Inv : Inv demo_two_tabs.
Proof.
  eapply (apply_Inv demo_two_panes [Some 5%N; Some 6%N] 9 2 (CreateTab 1 None Control_Unclaimed)
            demo_home (λ _, true) _ [] (Ok (Accepted 5%N)));
    [apply demo_two_panes_Inv|apply fresh_by_check; vm_compute; reflexivity|vm_compute; reflexivity|].
  vm_compute. reflexivity.
Qed.
