(* ===== verification/JournalTheorems.v ===== *)
(** * Each operation takes effect once

    The guarantees of [State::apply], [State::acknowledge] and [State::forget]
    as a device sees them: a retry returns the recorded outcome, a settled or
    reused sequence is refused, and no outcome is lost before it is
    acknowledged. *)
From S2P Require Import Prelude.
From S2P Require Import Text.
From S2P Require Import Facts.
From S2P Require Import HierarchyTypes.
From S2P Require Import HierarchyWorkspace.
From S2P Require Import HierarchyState.
From S2P Require Import HierarchyValidate.
From S2P Require Import NamesProofs.
From S2P Require Import ForestInv.
From S2P Require Import Forest.
From S2P Require Import HierarchyInv.
From S2P Require Import ValidateProofs.
From S2P Require Import TreeOps.
From S2P Require Import EditOps.
From S2P Require Import DeviceOps.
From S2P Require Import HostProofs.
From S2P Require Import Demo.

(** ** Looking up outcomes *)

Definition has_sequence (sequence : N) (o : RetainedOutcome) : bool :=
  bool_decide (ro_sequence o = sequence).

Lemma vfind_app {A} (p : A → bool) l1 l2 :
  vfind p (l1 ++ l2) = match vfind p l1 with Some x => Some x | None => vfind p l2 end.
Proof. unfold vfind. induction l1 as [|x l1 IH]; simpl; [done|]. by destruct (p x). Qed.

Lemma vfind_NoDup {A} (f : A → N) (l : list A) x k :
  NoDup (map f l) → x ∈ l → f x = k → vfind (λ y, bool_decide (f y = k)) l = Some x.
Proof. intros Hnd [i Hi]%list_elem_of_lookup <-. by eapply NoDup_vfind. Qed.

(** With distinct devices, an outcome is found by membership. *)
Lemma outcome_iff s device sequence o :
  NoDup (map d_device (s_devices s)) →
  outcome s device sequence = Some o ↔
  ∃ d, d ∈ s_devices s ∧ d_device d = device ∧ vfind (has_sequence sequence) (d_pending d) = Some o.
Proof.
  intros Hnd. unfold outcome. split.
  - destruct (find_device device s) as [d|] eqn:Ef; [|done]. intros Ho.
    apply find_device_elem in Ef as [? ?]. eauto.
  - intros (d & Hin & Hd & Ho). assert (find_device device s = Some d) as ->; [|done].
    by apply vfind_NoDup.
Qed.


Lemma pending_below d o : device_ok d → o ∈ d_pending d → (d_retired d < ro_sequence o < next_of d)%N.
Proof.
  intros [_ Hp] [i Hi]%list_elem_of_lookup. destruct (Hp _ _ Hi) as (-> & _).
  apply lookup_lt_Some in Hi. unfold next_of. lia.
Qed.

Lemma next_unrecorded d : device_ok d → vfind (has_sequence (next_of d)) (d_pending d) = None.
Proof.
  intros Hok. destruct (vfind _ _) as [o|] eqn:E; [|done].
  apply vfind_Some in E as [Hs%bool_decide_eq_true Hin]. pose proof (pending_below _ _ Hok Hin). lia.
Qed.

Lemma push_outcome_found d o :
  device_ok d → ro_sequence o = next_of d →
  vfind (has_sequence (ro_sequence o)) (d_pending (push_outcome o d)) = Some o.
Proof.
  intros Hok Hs. simpl. rw vfind_app Hs next_unrecorded //. unfold vfind, has_sequence. simpl.
  by rw Hs bool_decide_eq_true_2.
Qed.

Lemma operation_eqb_refl o : operation_eqb o o = true.
Proof. destruct o; simpl; rw ?path_eqb_refl; rw ?bool_decide_eq_true_2 //. Qed.

Lemma mutation_eqb_refl m : mutation_eqb m m = true.
Proof.
  destruct m; simpl; rw ?operation_eqb_refl ?opt_path_eqb_refl; rw ?bool_decide_eq_true_2 //.
Qed.

(** The devices an application leaves behind when it records an outcome. *)
Lemma Applied_devices s s' device sequence m directory vp ds ds' o :
  Inv s → outcome s device sequence = None →
  Applied s ds device sequence m directory vp s' ds' (Ok o) →
  ∃ l d, s_devices s' = l ++ [push_outcome {| ro_sequence := sequence; ro_mutation := m;
                                               ro_outcome := o |} d] ∧
    d_device d = device ∧ sequence = next_of d ∧ Devices (l ++ [d]) (s_sequence_floor s') ∧
    (∀ e, e ∈ s_devices s → d_pending e ≠ [] → e ∈ l ++ [d]).
Proof.
  intros HI Ho Ha. destruct Ha as [_ _ [[_ ?]|[(old & Hold & _)|[_ [?|?]]]]|s1 l d s2 Hb _ Hm Hc Hen He ->];
    try done; [congruence|].
  destruct (edit_journal _ _ _ _ _ _ _ _ _ He) as (_ & Jf & _).
  destruct Hen as [E1 E2 E3 E4 E5 E7 E6]. exists l, d. simpl. by rw Jf.
Qed.

Lemma apply_recorded s ds device sequence m directory vp s' ds' o :
  Inv s → apply s ds device sequence m directory vp = (s', ds', Ok o) →
  ∃ r, outcome s' device sequence = Some r ∧ ro_outcome r = o ∧ mutation_eqb (ro_mutation r) m = true.
Proof.
  intros HI Ha. apply apply_Applied in Ha; [|apply HI].
  destruct (outcome s device sequence) as [old|] eqn:Eo.
  - destruct Ha as [-> _ [[_ ?]|[(x & Hx & Hr)|[? _]]]|]; [congruence| |congruence|congruence].
    rw Eo in Hx. injection Hx as <-. destruct (mutation_eqb _ _) eqn:Em; [|done].
    exists old. split; [done|]. by injection Hr as <-.
  - destruct (Applied_devices _ _ _ _ _ _ _ _ _ _ HI Eo Ha) as (l & d & Hl & Hd & Hn & HD & _).
    exists {| ro_sequence := sequence; ro_mutation := m; ro_outcome := o |}.
    split; [|split; [done|apply mutation_eqb_refl]].
    destruct HD as [Hnd Hok _ _ _]. apply outcome_iff.
    { rw Hl map_app. by rw map_app in Hnd. }
    exists (push_outcome {| ro_sequence := sequence; ro_mutation := m; ro_outcome := o |} d).
    split; [rw Hl; apply elem_of_app; right; by left|]. split; [done|].
    apply (push_outcome_found d {| ro_sequence := sequence; ro_mutation := m; ro_outcome := o |});
      [|done]. rw Forall_app Forall_singleton in Hok. by destruct Hok.
Qed.

(** A retried operation is answered with its recorded outcome and has no
    further effect, whatever the directory and the filesystem say by then. *)
Theorem apply_retry s ds device sequence m directory vp s' ds' o ds2 directory2 vp2 :
  Inv s → is_bounded m = true →
  apply s ds device sequence m directory vp = (s', ds', Ok o) →
  apply s' ds2 device sequence m directory2 vp2 = (s', ds2, Ok o).
Proof.
  intros HI Hb Ha. destruct (apply_recorded _ _ _ _ _ _ _ _ _ _ HI Ha) as (r & Hr & <- & Hm).
  unfold apply. by rw Hb Hr Hm.
Qed.

Lemma apply_retry_witness :
  apply demo_two_panes [] 9 1 demo_split (lit "/tmp") (λ _, false)
  = (demo_two_panes, [], Ok (Accepted 4%N)).
Proof.
  apply (apply_retry demo_first [Some 4%N] 9 1 demo_split demo_home (λ _, true) demo_two_panes []);
    [apply demo_first_Inv | vm_compute; reflexivity | vm_compute; reflexivity].
Defined.

(** A sequence that already carries another mutation is refused as stale and
    changes nothing. *)
Theorem apply_reused_sequence s ds device sequence m m2 directory vp s' ds' o ds2 directory2 vp2 :
  Inv s → is_bounded m2 = true →
  apply s ds device sequence m directory vp = (s', ds', Ok o) →
  (∀ r, outcome s' device sequence = Some r → mutation_eqb (ro_mutation r) m2 = false) →
  apply s' ds2 device sequence m2 directory2 vp2 = (s', ds2, Err Refusal_Stale).
Proof.
  intros HI Hb Ha Hne. destruct (apply_recorded _ _ _ _ _ _ _ _ _ _ HI Ha) as (r & Hr & _ & _).
  unfold apply. by rw Hb Hr (Hne r Hr).
Qed.

Lemma apply_reused_sequence_witness :
  apply demo_two_panes [] 9 1 (SplitPane 1 2 3 Axis_Right Control_Creator) demo_home (λ _, true)
  = (demo_two_panes, [], Err Refusal_Stale).
Proof.
  apply (apply_reused_sequence demo_first [Some 4%N] 9 1 demo_split
           (SplitPane 1 2 3 Axis_Right Control_Creator) demo_home (λ _, true) demo_two_panes []
           (Accepted 4%N));
    [apply demo_first_Inv | vm_compute; reflexivity | vm_compute; reflexivity | ].
  intros r. vm_compute. intros [= <-]. reflexivity.
Defined.

(** A sequence a device has already had acknowledged, or one beyond its next,
    is refused as stale and changes nothing. *)
Theorem apply_out_of_sequence s ds device sequence m directory vp d :
  Inv s → is_bounded m = true → find_device device s = Some d →
  (sequence ≤ d_retired d ∨ next_of d < sequence)%N →
  apply s ds device sequence m directory vp = (s, ds, Err Refusal_Stale).
Proof.
  intros HI Hb Hf Hs. unfold apply. rw Hb /=. pose proof (find_device_elem _ _ _ Hf) as [Hin Hdev].
  assert (device_ok d) as Hok.
  { destruct HI as [_ [_ Hok _ _ _] _ _]. rw Forall_forall in Hok. auto. }
  assert (outcome s device sequence = None) as ->.
  { unfold outcome. rw Hf. destruct (vfind _ _) as [o|] eqn:Eo; [|done].
    apply vfind_Some in Eo as [Heq%bool_decide_eq_true Ho].
    pose proof (pending_below _ _ Hok Ho). unfold next_of in *. lia. }
  assert (expected_sequence s device sequence = false) as ->; [|done].
  unfold expected_sequence. rw vany_find. unfold find_device in Hf. rw Hf /=.
  rw (next_sequence_found s device d Hf Hok). apply bool_decide_eq_false. unfold next_of in *. lia.
Qed.

Lemma apply_out_of_sequence_witness :
  apply demo_two_panes [] 9 3 demo_split demo_home (λ _, true)
  = (demo_two_panes, [], Err Refusal_Stale).
Proof.
  eapply (apply_out_of_sequence demo_two_panes [] 9 3 demo_split demo_home (λ _, true));
    [apply demo_two_panes_Inv | reflexivity | vm_compute; reflexivity | right; vm_compute; reflexivity].
Defined.

(** No application, accepted, refused or failed, loses an outcome that a
    device has not acknowledged, replacing an idle device included. *)
Theorem apply_keeps_outcomes s ds device sequence m directory vp s' ds' r device' sequence' o :
  Inv s → apply s ds device sequence m directory vp = (s', ds', r) →
  outcome s device' sequence' = Some o → outcome s' device' sequence' = Some o.
Proof.
  intros HI Ha Ho. pose proof HI as [_ [Hnd _ _ _ _] _ _].
  pose proof Ho as (e & Hin & He & Hv)%(outcome_iff _ _ _ _ Hnd).
  assert (d_pending e ≠ []) as Hne by by destruct (d_pending e).
  apply apply_Applied in Ha; [|apply HI].
  destruct Ha as [-> _ _|s1 l d s2 Hb Hnone Hm Hc Hen Hedit ->]; [done|].
  pose proof (edit_journal _ _ _ _ _ _ _ _ _ Hedit) as (Jd & _).
  destruct Hen as [E1 E2 E3 [Dn _ _ _ _] E5 E7 E6].
  specialize (E7 e Hin Hne). destruct r as [o'|err].
  - rw outcome_iff; [simpl; rw map_app; by rw map_app in Dn|].
    apply elem_of_app in E7 as [Hl| ->%list_elem_of_singleton].
    + exists e. split; [apply elem_of_app; by left|done].
    + exists (push_outcome {| ro_sequence := sequence; ro_mutation := m; ro_outcome := o' |} d).
      split; [apply elem_of_app; right; by left|]. split; [done|]. by rw /= vfind_app Hv.
  - rw outcome_iff; [by rw Jd E1|]. exists e. by rw Jd E1.
Qed.

Lemma apply_keeps_outcomes_witness :
  outcome (apply demo_two_panes [] 8 1 (RenameWorkspace 1 7 (lit "api")) demo_home (λ _, true)).1.1 9 1
  = Some {| ro_sequence := 1; ro_mutation := demo_split; ro_outcome := Accepted 4%N |}.
Proof.
  eapply (apply_keeps_outcomes demo_two_panes [] 8 1 (RenameWorkspace 1 7 (lit "api")) demo_home
            (λ _, true) _ [] (Ok Conflict));
    [apply demo_two_panes_Inv | vm_compute; reflexivity | vm_compute; reflexivity].
Defined.

Lemma find_device_last l d device s :
  s_devices s = l ++ [d] → NoDup (map d_device (l ++ [d])) → d_device d = device →
  find_device device s = Some d.
Proof.
  intros Hl Hnd Hd. unfold find_device. rw Hl. eapply vfind_NoDup; [done| |done].
  apply elem_of_app. right. by left.
Qed.

(** A recorded outcome advances its device's sequence by exactly one. *)
Theorem apply_advances s ds device sequence m directory vp s' ds' o :
  Inv s → fresh_draws (s_workspaces s) ds → valid_path directory = true →
  outcome s device sequence = None →
  apply s ds device sequence m directory vp = (s', ds', Ok o) →
  next_sequence s' device = (sequence + 1)%N ∧
  outcome s' device sequence = Some {| ro_sequence := sequence; ro_mutation := m; ro_outcome := o |}.
Proof.
  intros HI Hf Hd Hnone Ha. pose proof (apply_Inv _ _ _ _ _ _ _ _ _ _ HI Hf Hd Ha) as HI'.
  apply apply_Applied in Ha; [|apply HI].
  destruct (Applied_devices _ _ _ _ _ _ _ _ _ _ HI Hnone Ha) as (l & d & Hl & Hdev & Hn & HD & _).
  set (o' := {| ro_sequence := sequence; ro_mutation := m; ro_outcome := o |}) in *.
  destruct HI' as [_ [Dn Dok _ _ _] _ _]. rw Hl in Dn Dok.
  pose proof (find_device_last l (push_outcome o' d) device s' Hl Dn Hdev) as Hfd.
  rw Forall_app Forall_singleton in Dok. destruct Dok as [_ Dok].
  split.
  - rw (next_sequence_found _ _ _ Hfd Dok). unfold next_of in *. rw /= length_app /=. lia.
  - unfold outcome. rw Hfd. apply (push_outcome_found d o'); [|done].
    destruct HD as [_ Hok _ _ _]. rw Forall_app Forall_singleton in Hok. by destruct Hok.
Qed.

Lemma apply_advances_witness :
  next_sequence demo_two_panes 9 = 2%N ∧
  outcome demo_two_panes 9 1
  = Some {| ro_sequence := 1; ro_mutation := demo_split; ro_outcome := Accepted 4%N |}.
Proof.
  apply (apply_advances demo_first [Some 4%N] 9 1 demo_split demo_home (λ _, true) demo_two_panes []);
    [apply demo_first_Inv | apply demo_first_fresh | vm_compute; reflexivity..].
Defined.

(** ** Acknowledging *)

Lemma take_while_count_take {A} (p : A → bool) l :
  Forall (λ x, p x = true) (take (take_while_count p l) l).
Proof. induction l as [|x l IH]; simpl; [done|]. destruct (p x) eqn:E; simpl; [by constructor|done]. Qed.

Lemma take_while_count_stop {A} (p : A → bool) l x :
  l !! take_while_count p l = Some x → p x = false.
Proof.
  induction l as [|y l IH]; simpl; [done|]. destruct (p y) eqn:E; simpl; [done|]. by intros [= <-].
Qed.

(** The settled prefix of a run is exactly its outcomes up to [sequence]. *)
Lemma settled_prefix d sequence :
  device_ok d →
  let settled := take_while_count (λ o, (ro_sequence o <=? sequence)%N) (d_pending d) in
  (∀ o, o ∈ take settled (d_pending d) → (ro_sequence o ≤ sequence)%N) ∧
  (∀ o, o ∈ drop settled (d_pending d) → (sequence < ro_sequence o)%N).
Proof.
  intros [_ Hp] settled. split.
  - intros o Ho. pose proof (take_while_count_take (λ o, (ro_sequence o <=? sequence)%N) (d_pending d)) as Hf.
    rw Forall_forall in Hf. by apply N.leb_le, Hf.
  - intros o [i Hi]%list_elem_of_lookup. rw lookup_drop in Hi. destruct (Hp _ _ Hi) as (Hs & _).
    destruct (d_pending d !! settled) as [x|] eqn:Ex.
    + pose proof (take_while_count_stop _ _ _ Ex) as Hx%N.leb_gt. destruct (Hp _ _ Ex) as (Hx' & _). lia.
    + apply lookup_ge_None in Ex. apply lookup_lt_Some in Hi. lia.
Qed.

Lemma vfind_settled d sequence sequence' :
  device_ok d →
  vfind (has_sequence sequence')
    (drop (take_while_count (λ o, (ro_sequence o <=? sequence)%N) (d_pending d)) (d_pending d))
  = if (sequence' <=? sequence)%N then None else vfind (has_sequence sequence') (d_pending d).
Proof.
  intros Hok. destruct (settled_prefix d sequence Hok) as [Ht Hd].
  set (settled := take_while_count _ _) in *. destruct (N.leb_spec sequence' sequence) as [Hle|Hgt].
  - destruct (vfind _ _) as [o|] eqn:E; [|done].
    apply vfind_Some in E as [Hs%bool_decide_eq_true Hin]. specialize (Hd o Hin). lia.
  - rw -{2}(take_drop settled (d_pending d)) vfind_app.
    destruct (vfind _ (take settled _)) as [o|] eqn:E; [|done].
    apply vfind_Some in E as [Hs%bool_decide_eq_true Hin]. specialize (Ht o Hin). lia.
Qed.

Lemma outcome_replace s l1 d l2 d' device sequence :
  NoDup (map d_device (l1 ++ d :: l2)) → s_devices s = l1 ++ d :: l2 → d_device d' = d_device d →
  outcome (set_s_devices (l1 ++ d' :: l2) s) device sequence
  = if bool_decide (device = d_device d) then vfind (has_sequence sequence) (d_pending d')
    else outcome s device sequence.
Proof.
  intros Hnd Hs Hd. unfold outcome, find_device. simpl. rw Hs !vfind_app.
  destruct (bool_decide_reflect (device = d_device d)) as [->|Hne].
  - assert (vfind (is_device (d_device d)) l1 = None) as ->.
    { destruct (vfind _ l1) as [e|] eqn:E; [|done].
      apply vfind_Some in E as [He%bool_decide_eq_true Hin].
      rw map_app /= in Hnd. apply NoDup_app in Hnd as (_ & Hx & _). exfalso.
      apply (Hx (d_device e)); [apply elem_of_map; eauto|rw He; by left]. }
    unfold vfind. simpl. unfold is_device at 1. by rw Hd bool_decide_eq_true_2.
  - destruct (vfind _ l1); [done|]. unfold vfind. simpl. unfold is_device at 1 3.
    rw Hd !bool_decide_eq_false_2 //; intros E; by apply Hne.
Qed.

(** An acknowledgement retires exactly the device's outcomes up to the named
    sequence and no other outcome of any device. *)
Theorem acknowledge_exact s device sequence s' device' sequence' :
  Inv s → acknowledge s device sequence = (s', Ok tt) →
  outcome s' device' sequence'
  = if bool_decide (device' = device) && (sequence' <=? sequence)%N then None
    else outcome s device' sequence'.
Proof.
  intros HI. unfold acknowledge. destruct (find_device device s) as [d|] eqn:Ef.
  2: { intros [= <-]. destruct (bool_decide_reflect (device' = device)) as [->|]; [|done]. simpl.
       destruct (_ <=? _)%N; [|done]. unfold outcome. by rw Ef. }
  destruct (vany _ _); [done|]. intros [= <-]. pose proof Ef as Ef'.
  apply vfind_vupdate_split in Ef' as (l1 & l2 & Hl & Hd%bool_decide_eq_true & Hu). rw Hu.
  pose proof HI as [_ [Hnd Hok _ _ _] _ _]. rw Hl in Hnd Hok.
  apply Forall_app in Hok as [_ [Hok _]%Forall_cons].
  rw (outcome_replace s l1 d l2 _ device' sequence' Hnd Hl) // Hd.
  destruct (bool_decide_reflect (device' = device)) as [->|]; [|done]. cbn [andb d_pending set_d_record].
  rw vfind_settled //. unfold outcome. by rw Ef.
Qed.

Lemma acknowledge_exact_witness :
  outcome (acknowledge demo_two_tabs 9 1).1 9 1 = None ∧
  outcome (acknowledge demo_two_tabs 9 1).1 9 2 = outcome demo_two_tabs 9 2.
Proof.
  split.
  - apply (acknowledge_exact demo_two_tabs 9 1 _ 9 1);
      [apply demo_two_tabs_Inv | vm_compute; reflexivity].
  - apply (acknowledge_exact demo_two_tabs 9 1 _ 9 2);
      [apply demo_two_tabs_Inv | vm_compute; reflexivity].
Defined.

(** An acknowledgement is refused exactly when it would retire a worktree
    operation still in progress, and then changes nothing. *)
Theorem acknowledge_refusal s device sequence s' :
  Inv s → acknowledge s device sequence = (s', Err Refusal_Stale) ↔
  s' = s ∧ ∃ d o, find_device device s = Some d ∧ o ∈ d_pending d ∧
    (ro_sequence o ≤ sequence)%N ∧ ro_outcome o = Pending.
Proof.
  intros HI. unfold acknowledge. destruct (find_device device s) as [d|] eqn:Ef; [|naive_solver].
  assert (device_ok d) as Hok.
  { apply find_device_elem in Ef as [Hin _]. destruct HI as [_ [_ Hok _ _ _] _ _].
    rw Forall_forall in Hok. auto. }
  destruct (settled_prefix d sequence Hok) as [Ht Hd]. set (settled := take_while_count _ _) in *.
  destruct (vany is_pending (take settled (d_pending d))) eqn:Ev.
  - apply vany_true in Ev as (o & Ho & Hp%bool_decide_eq_true). split.
    + intros [= <-]. split; [done|]. exists d, o. split; [done|]. split; [|auto].
      rw -(take_drop settled (d_pending d)) elem_of_app. by left.
    + by intros [-> _].
  - split; [done|]. intros (_ & d' & o & [= <-] & Ho & Hs & Hp).
    rw -(take_drop settled (d_pending d)) elem_of_app in Ho. destruct Ho as [Ho|Ho].
    + rw vany_false in Ev. specialize (Ev o Ho). unfold is_pending in Ev.
      by apply bool_decide_eq_false in Ev.
    + specialize (Hd o Ho). lia.
Qed.

Lemma acknowledge_refusal_witness :
  acknowledge demo_two_panes 9 1 = (demo_two_panes, Err Refusal_Stale) ↔
  demo_two_panes = demo_two_panes ∧ ∃ d o, find_device 9 demo_two_panes = Some d ∧ o ∈ d_pending d ∧
    (ro_sequence o ≤ 1)%N ∧ ro_outcome o = Pending.
Proof. apply (acknowledge_refusal demo_two_panes 9 1 demo_two_panes), demo_two_panes_Inv. Defined.

(** ** Forgetting a revoked device *)

(** Forgetting a device waits for its worktree operation; otherwise it
    removes all of that device's outcomes and none of another device's. *)
Theorem forget_exact s device s' forgotten device' sequence' :
  Inv s → forget s device = (s', forgotten) →
  (forgotten = false ↔ ∃ d o, find_device device s = Some d ∧ o ∈ d_pending d ∧ ro_outcome o = Pending) ∧
  outcome s' device' sequence'
  = if forgotten && bool_decide (device' = device) then None else outcome s device' sequence'.
Proof.
  intros HI. unfold forget. pose proof HI as [_ [Hnd _ _ _ _] _ _].
  destruct (vany _ (s_devices s)) eqn:Ev; intros [= <- <-].
  - split; [|done]. split; [intros _|done].
    apply vany_true in Ev as (d & Hin & [Hd Hp]%andb_true_iff).
    apply vany_true in Hp as (o & Ho & Hop%bool_decide_eq_true). exists d, o. split; [|done].
    apply bool_decide_eq_true in Hd. by apply vfind_NoDup.
  - split.
    + split; [done|]. intros (d & o & [Hin Hd]%find_device_elem & Ho & Hp).
      rw vany_false in Ev. specialize (Ev d Hin). unfold is_device in Ev.
      rw bool_decide_eq_true_2 // /= in Ev. rw vany_false in Ev. specialize (Ev o Ho).
      unfold is_pending in Ev. by apply bool_decide_eq_false in Ev.
    + assert (NoDup (map d_device (vfilter (λ d, negb (is_device device d)) (s_devices s)))) as Hnd'.
      { eapply NoDup_submseteq_l; [|exact Hnd]. apply (fmap_submseteq d_device), submseteq_vfilter. }
      apply option_eq. intros o. rw outcome_iff //=.
      setoid_rewrite elem_of_vfilter. setoid_rewrite negb_true_iff. unfold is_device.
      setoid_rewrite bool_decide_eq_false. destruct (bool_decide_reflect (device' = device)) as [->|Hne].
      * split; [|done]. intros (d & [? ?] & ? & _). done.
      * rw outcome_iff //. split; [intros (d & [? ?] & ? & ?)|intros (d & ? & ? & ?)]; exists d;
          (split; [|done]); [done|]. split; [|done]. congruence.
Qed.

Lemma forget_exact_witness :
  outcome (forget demo_two_panes 9).1 9 1 = None.
Proof.
  apply (forget_exact demo_two_panes 9 _ true 9 1);
    [apply demo_two_panes_Inv | vm_compute; reflexivity].
Defined.
