(* ===== verification/EditTheorems.v ===== *)
(** * What an edit does

    The effect of each kind of mutation as [State::apply] commits it: refusals
    leave the organization alone, closing removes exactly what was confirmed,
    moving and merging conserve Panes, and renames are fenced by versions. *)
From S2P Require Import Prelude.
From S2P Require Import Text.
From S2P Require Import Facts.
From S2P Require Import HierarchyTypes.
From S2P Require Import HierarchyWorkspace.
From S2P Require Import HierarchyState.
From S2P Require Import HierarchyValidate.
From S2P Require Import Host.
From S2P Require Import NamesProofs.
From S2P Require Import ForestInv.
From S2P Require Import Forest.
From S2P Require Import HierarchyInv.
From S2P Require Import ValidateProofs.
From S2P Require Import TreeOps.
From S2P Require Import EditOps.
From S2P Require Import DeviceOps.
From S2P Require Import HostProofs.
From S2P Require Import Demo.

(** ** Reading an application as an edit *)

Lemma Enrolled_inventory s device sequence s1 l d :
  Enrolled s device sequence s1 l d →
  s_inventory s1 = s_inventory s ∧ s_names s1 = s_names s ∧ s_home_directory s1 = s_home_directory s.
Proof. intros [_ _ _ _ _ _ ->]. done. Qed.

Lemma ensure_home_frame directory s :
  s_inventory (ensure_home directory s) = s_inventory s ∧ s_names (ensure_home directory s) = s_names s.
Proof. unfold ensure_home. by destruct (s_home_directory s). Qed.

(** An accepted application ran a branch that named its target. *)
Lemma apply_accepted s ds device sequence m directory vp s' ds' target :
  Inv s → valid_path directory = true → outcome s device sequence = None →
  apply s ds device sequence m directory vp = (s', ds', Ok (Accepted target)) →
  ∃ s1 s2, Inv s1 ∧ s_home_directory s1 ≠ None ∧
    s_inventory s1 = s_inventory s ∧ s_names s1 = s_names s ∧ is_bounded m = true ∧
    edit_branch s1 ds device m directory vp = (s2, ds', Target target) ∧
    s_workspaces s' = s_workspaces (recalculate_names s2) ∧
    s_names s' = s_names (recalculate_names s2) ∧
    u64_checked_add (s_revision s2) 1 = Some (s_revision s').
Proof.
  intros HI Hd Hnone Ha. apply apply_Applied in Ha; [|apply HI].
  destruct Ha as [_ _ [[_ ?]|[(old & Hold & _)|[_ [?|?]]]]|s1 l d s2 Hb _ Hm Hc Hen He ->];
    try done; [congruence|].
  pose proof (Enrolled_Inv _ _ _ _ _ _ HI Hen) as HI1.
  destruct (Enrolled_inventory _ _ _ _ _ _ Hen) as (Ei & En & _).
  destruct (ensure_home_frame directory s1) as [Fi Fn].
  unfold edit in He. destruct (edit_branch _ _ _ _ _ _) as [[s3 ds3] [t|r]] eqn:Eb.
  - unfold accept_edit in He. destruct (u64_checked_add _ _) as [rev|] eqn:Er; simplify_eq.
    exists (ensure_home directory s1), s3.
    split; [by apply ensure_home_Inv|]. split; [apply ensure_home_homed|].
    split; [congruence|]. split; [congruence|]. split; [done|]. split; [done|].
    split; [done|]. split; [done|]. rw -Er. unfold recalculate_names.
    by destruct (recalculate _ _ _) as [[]|].
  - simplify_eq. apply edit_branch_refusal in Eb. by destruct m.
Qed.

(** ** Refusals *)

(** An operation that is answered with anything but acceptance leaves the
    inventory and the Workspace names exactly as they were. *)
Theorem apply_refused s ds device sequence m directory vp s' ds' o :
  Inv s → (∀ target, o ≠ Accepted target) →
  apply s ds device sequence m directory vp = (s', ds', Ok o) →
  s_inventory s' = s_inventory s ∧ s_names s' = s_names s.
Proof.
  intros HI Hne Ha. apply apply_Applied in Ha; [|apply HI].
  destruct Ha as [-> _ _|s1 l d s2 Hb _ Hm Hc Hen He ->]; [done|].
  destruct (Enrolled_inventory _ _ _ _ _ _ Hen) as (Ei & En & _).
  destruct (ensure_home_frame directory s1) as [Fi Fn].
  unfold edit in He. destruct (edit_branch _ _ _ _ _ _) as [[s3 ds3] [t|r]] eqn:Eb.
  - unfold accept_edit in He. destruct (u64_checked_add _ _); simplify_eq. by specialize (Hne t).
  - simplify_eq. apply edit_branch_Return in Eb as ->. simpl. split; congruence.
Qed.

Lemma apply_refused_witness :
  let s' := (apply demo_two_panes [] 9 2 (MergeTab 1 2 2 3 Side_Left) demo_home (λ _, true)).1.1 in
  s_inventory s' = s_inventory demo_two_panes ∧ s_names s' = s_names demo_two_panes.
Proof.
  eapply (apply_refused demo_two_panes [] 9 2 (MergeTab 1 2 2 3 Side_Left) demo_home (λ _, true)
            _ [] Invalid);
    [apply demo_two_panes_Inv | intros target; discriminate | vm_compute; reflexivity].
Defined.

(** ** Revisions *)

Definition is_close (m : Mutation) : bool := match m with Close _ _ => true | _ => false end.

Lemma edit_branch_revision s ds device m directory vp s' ds' fl :
  is_close m = false → edit_branch s ds device m directory vp = (s', ds', fl) →
  s_revision s' = s_revision s.
Proof.
  destruct m; simpl; intros Hc H; try done;
    [unfold edit_end_all_sessions in H| |unfold edit_create_workspace in H
    |unfold edit_create_tab in H|unfold edit_split_pane in H|unfold edit_move_pane in H
    |unfold edit_merge_tab in H|unfold edit_rename_workspace in H|unfold edit_pin_workspace in H];
    repeat case_match; by simplify_eq.
Qed.

(** Every accepted operation other than a close advances the inventory's
    revision by exactly one, and never past the end of a [u64]. *)
Theorem apply_revision s ds device sequence m directory vp s' ds' target :
  Inv s → valid_path directory = true → outcome s device sequence = None → is_close m = false →
  apply s ds device sequence m directory vp = (s', ds', Ok (Accepted target)) →
  s_revision s' = (s_revision s + 1)%N ∧ (s_revision s' ≤ u64_max)%N.
Proof.
  intros HI Hd Hn Hc Ha.
  destruct (apply_accepted _ _ _ _ _ _ _ _ _ _ HI Hd Hn Ha)
    as (s1 & s2 & _ & _ & Hi & _ & _ & Hb & _ & _ & Hr).
  apply edit_branch_revision in Hb; [|done]. rw Hb in Hr. unfold s_revision at 1 in Hr. rw Hi in Hr.
  unfold u64_checked_add in Hr. destruct (N.leb_spec (i_revision (s_inventory s) + 1) u64_max) as [Hle|];
    [|done]. injection Hr as <-. done.
Qed.

Lemma apply_revision_witness :
  s_revision demo_two_panes = (s_revision demo_first + 1)%N ∧ (s_revision demo_two_panes ≤ u64_max)%N.
Proof.
  apply (apply_revision demo_first [Some 4%N] 9 1 demo_split demo_home (λ _, true) demo_two_panes []
           4%N);
    [apply demo_first_Inv | vm_compute; reflexivity..].
Defined.

(** ** Closing *)

Lemma vcollect_sessions (live : list ConfirmedPane) ids ps :
  vcollect (map (λ id, vfind (λ p, bool_decide (cp_id p = id)) live) ids) = Some ps →
  map cp_id ps = ids.
Proof.
  revert ps. induction ids as [|id ids IH]; intros ps; simpl; [by intros [= <-]|].
  destruct (vfind _ live) as [p|] eqn:E; [|done].
  destruct (vcollect _) as [qs|]; [|done]. intros [= <-]. simpl. rw (IH qs) //.
  by apply vfind_Some in E as [->%bool_decide_eq_true _].
Qed.

Lemma close_confirmation_Some i target c :
  close_confirmation i target = Some c →
  ∃ live w, i_close i = Some live ∧ vfind (has_id_w (close_workspace target)) (i_workspaces i) = Some w ∧
    close_panes i target = Some (map cp_id (cf_panes c)) ∧
    cf_removes_workspace c = (length (cf_panes c) =? vsum (λ t, length (t_panes t)) (w_tabs w)).
Proof.
  unfold close_confirmation. destruct (i_close i) as [live|]; [|done].
  destruct (close_panes i target) as [ids|]; [|done].
  destruct (vfind _ _) as [w|]; [|done].
  destruct (match target with Close_Pane _ _ _ => _ | _ => _ end); [|done].
  destruct (vcollect _) as [ps|] eqn:Ev; [|done]. intros [= <-]. simpl. exists live, w.
  pose proof (vcollect_sessions _ _ _ Ev) as Hids.
  do 2 (split; [done|]). split; [by rw Hids|]. by rw -(length_map cp_id) Hids.
Qed.

Lemma same_targets_true a b :
  same_targets a b = true →
  cf_boot a = cf_boot b ∧ cf_panes a = cf_panes b ∧ cf_removes_tab a = cf_removes_tab b ∧
  cf_removes_workspace a = cf_removes_workspace b.
Proof. unfold same_targets. rw !andb_true_iff !bool_decide_eq_true. tauto. Qed.

(** What an accepted close checked. *)
Lemma edit_close_Target s ds device target c s' ds' t :
  edit_close s ds device target c = (s', ds', Target t) →
  ∃ current, close_confirmation (s_inventory s) target = Some current ∧
    same_targets current c = true ∧
    close_panes (s_inventory s) target = Some (map cp_id (cf_panes c)) ∧
    (is_worktree_target target = true → cf_removes_workspace c = false) ∧
    s' = foldl remove_pane s (map cp_id (cf_panes c)).
Proof.
  unfold edit_close. destruct (close_panes _ _) as [ids|] eqn:Ep; [|done].
  destruct (close_confirmation _ _) as [current|] eqn:Ec; [|done].
  destruct (same_targets current c) eqn:Es; simpl; [|done].
  destruct (match cf_own_controls c with Some _ => _ | None => _ end); [done|].
  destruct (is_worktree_target target && cf_removes_workspace c) eqn:Ew; [done|]. intros [= <- _ _].
  destruct (close_confirmation_Some _ _ _ Ec) as (live & w & _ & _ & Hp & _).
  destruct (same_targets_true _ _ Es) as (_ & <- & _ & _).
  exists current. do 2 (split; [done|]). split; [congruence|]. split; [|congruence].
  intros Hw. by rw Hw in Ew.
Qed.

(** An accepted close removes exactly the Panes the user confirmed: they are
    the current Panes of the target with their current sessions, they are gone,
    and every other Pane keeps its directories, presentation and creator. *)
Theorem close_exact s ds device sequence target c directory vp s' ds' t :
  Inv s → valid_path directory = true → outcome s device sequence = None →
  apply s ds device sequence (Close target c) directory vp = (s', ds', Ok (Accepted t)) →
  ∃ current, close_confirmation (s_inventory s) target = Some current ∧
    cf_boot current = cf_boot c ∧ cf_panes current = cf_panes c ∧
    close_panes (s_inventory s) target = Some (map cp_id (cf_panes c)) ∧
    cores (all_panes (s_workspaces s'))
    = vfilter (λ p, negb (bool_decide (p_id p ∈ map cp_id (cf_panes c))))
        (cores (all_panes (s_workspaces s))).
Proof.
  intros HI Hd Hn Ha.
  destruct (apply_accepted _ _ _ _ _ _ _ _ _ _ HI Hd Hn Ha)
    as (s1 & s2 & HI1 & _ & Hi & _ & _ & Hb & Hw & _ & _).
  simpl in Hb. apply edit_close_Target in Hb as (current & Hc & Hs & Hp & _ & ->).
  rw Hi in Hc Hp. exists current. split; [done|].
  destruct (same_targets_true _ _ Hs) as (? & ? & _). do 3 (split; [done|]).
  set (s3 := foldl remove_pane s1 _) in *.
  destruct (recalculate_names_spec s3) as (_ & _ & Hr & _).
  { by apply Inv_Raw, remove_panes_Inv. }
  rw Hw (renamed_panes _ _ Hr) (remove_panes_cores _ _ HI1). unfold s_workspaces. by rw Hi.
Qed.

(** The same organization with two Panes running, seen by its server. *)
Definition demo_runtime : Runtime :=
  {| rt_boot := 77; rt_pane := λ id, if bool_decide (id = 3)%N then Running (Some 9%N) 1 30
                                    else if bool_decide (id = 4)%N then Running (Some 9%N) 1 40
                                    else NotStarted;
     rt_observers := λ _, None; rt_name := λ _, {| cn_text := lit "Ada" |};
     rt_repositories := {| rs_boot := 77; rs_revision := 0; rs_git := Git_Unknown;
                           rs_directories := []; rs_pinned_worktrees := [];
                           rs_pin_check := Pin_Ready |} |}.
Definition demo_booted : State := begin_boot 77 demo_two_tabs.
Definition demo_live : State := set_s_inventory (host_inventory demo_runtime demo_booted) demo_booted.

Lemma demo_live_Inv : Inv demo_live.
Proof.
  apply inventory_Inv; [apply begin_boot_Inv; [apply demo_two_tabs_Inv|done]|done|].
  intros id session. simpl. case_bool; [by intros [= <-]|]. case_bool; [by intros [= <-]|done].
Qed.

Definition demo_close : CloseConfirmation :=
  {| cf_boot := 77; cf_panes := [{| cp_id := 3; cp_session := Some 30%N |}]; cf_removes_tab := false;
     cf_removes_workspace := false; cf_own_controls := None |}.

Lemma close_exact_witness :
  cores (all_panes (s_workspaces (apply demo_live [] 9 3 (Close (Close_Pane 1 2 3) demo_close)
                                    demo_home (λ _, true)).1.1))
  = vfilter (λ p, negb (bool_decide (p_id p ∈ [3%N]))) (cores (all_panes (s_workspaces demo_live))).
Proof.
  destruct (close_exact demo_live [] 9 3 (Close_Pane 1 2 3) demo_close demo_home (λ _, true)
              (apply demo_live [] 9 3 (Close (Close_Pane 1 2 3) demo_close) demo_home (λ _, true)).1.1
              [] 3%N demo_live_Inv) as (current & _ & _ & _ & _ & H);
    [vm_compute; reflexivity | vm_compute; reflexivity | vm_compute; reflexivity | exact H].
Defined.

(** ** Closing a worktree *)

(** Pane [pane] stands in Workspace [workspace]. *)
Definition stands (ws : list Workspace) (workspace pane : Id) : Prop :=
  ∃ w, w ∈ ws ∧ w_id w = workspace ∧ pane ∈ map p_id (workspace_panes w).

Lemma stands_renamed ws ws' workspace pane :
  Forall2 renamed ws ws' → stands ws workspace pane → stands ws' workspace pane.
Proof.
  intros Hr (w & [i Hi]%list_elem_of_lookup & <- & Hp).
  destruct (Forall2_lookup_l _ _ _ _ _ Hr Hi) as (w' & Hi' & Hw). exists w'.
  split; [by eapply list_elem_of_lookup_2|]. unfold renamed in Hw. by rw Hw.
Qed.

Lemma stands_remove id ws workspace pane :
  stands ws workspace pane → pane ≠ id → stands (remove_from_workspaces id ws) workspace pane.
Proof.
  intros (w & Hin & <- & Hp) Hne. exists (remove_from_workspace id w).
  assert (pane ∈ map p_id (workspace_panes (remove_from_workspace id w))) as Hp'.
  { rw cores_ids remove_from_workspace_cores pids_vfilter -cores_ids. apply elem_of_vfilter.
    split; [|done]. by apply negb_true_iff, bool_decide_eq_false. }
  split; [|split; [apply remove_from_workspace_frame|done]].
  apply elem_of_vfilter. split; [|apply elem_of_map; eauto].
  unfold workspace_panes in Hp'. destruct (w_tabs (remove_from_workspace id w)); [|done].
  by apply elem_of_nil in Hp'.
Qed.

Lemma stands_remove_panes ids s workspace pane :
  Inv s → stands (s_workspaces s) workspace pane → (pane ∉ ids) →
  stands (s_workspaces (foldl remove_pane s ids)) workspace pane.
Proof.
  revert s. induction ids as [|id ids IH]; intros s HI Hs Hn; simpl; [done|].
  apply not_elem_of_cons in Hn as [Hne Hn]. apply IH; [by apply remove_pane_Inv| |done].
  unfold remove_pane. set (s1 := set_s_names _ _).
  destruct (recalculate_names_spec s1) as (_ & _ & Hr & _).
  { apply Named_Unnamed, Named_remove. apply HI. }
  change (s_workspaces (set_s_revision ?r ?x)) with (s_workspaces x).
  eapply stands_renamed; [exact Hr|]. by apply stands_remove.
Qed.

(** Fewer identities than a list without repetition leave one out. *)
Lemma missing_element (l ids : list N) : NoDup l → length ids < length l → ∃ x, x ∈ l ∧ (x ∉ ids).
Proof.
  intros Hnd Hlen. destruct (decide (Exists (λ x, x ∉ ids) l)) as [(x & ? & ?)%Exists_exists|Hn]; [eauto|].
  apply not_Exists_Forall in Hn; [|apply _]. exfalso.
  assert (l ⊆+ ids) as Hs; [|apply submseteq_length in Hs; lia].
  apply NoDup_submseteq; [done|]. intros x Hx. rw Forall_forall in Hn. by apply dec_stable, Hn.
Qed.

(** A worktree close that does not empty its Workspace leaves one of its Panes. *)
Lemma close_worktree_leaves_pane s workspace tab c current :
  Inv s → close_confirmation (s_inventory s) (Close_Worktree workspace tab) = Some current →
  same_targets current c = true →
  close_panes (s_inventory s) (Close_Worktree workspace tab) = Some (map cp_id (cf_panes c)) →
  cf_removes_workspace c = false →
  ∃ x, stands (s_workspaces s) workspace x ∧ (x ∉ map cp_id (cf_panes c)).
Proof.
  intros HI Hc Hs Hp Hrw. destruct (close_confirmation_Some _ _ _ Hc) as (live & w & _ & Hf & _ & Hrm).
  destruct (same_targets_true _ _ Hs) as (_ & Hps & _ & Hrw'). rw Hrw' Hrw Hps vsum_length_flat_map in Hrm.
  symmetry in Hrm. apply Nat.eqb_neq in Hrm.
  pose proof Hf as [Hid%bool_decide_eq_true Hin]%vfind_Some.
  assert (length (map cp_id (cf_panes c)) < length (map p_id (workspace_panes w))) as Hlt.
  { assert (length (map cp_id (cf_panes c)) ≤ length (map p_id (workspace_panes w))) as Hle.
    { unfold close_panes in Hp. rw Hf in Hp. destruct (vfind _ (w_tabs w)); [|done].
      destruct (t_worktree _); [|done]. injection Hp as <-. unfold workspace_panes.
      rw map_flat_map. apply submseteq_length, submseteq_flat_map_vfilter. }
    rw !length_map in Hle |- *. unfold workspace_panes in *. lia. }
  pose proof HI as [[HF _ _ _ _ _] _ _ _]. destruct (Forest_workspace_wf _ _ HF Hin) as [_ Hnd].
  rw workspace_ids_panes in Hnd. apply NoDup_app in Hnd as (_ & _ & Hnd).
  destruct (missing_element _ _ Hnd Hlt) as (x & Hx & Hnx). exists x. split; [by exists w|done].
Qed.

(** Closing the Tabs of a worktree never removes the Workspace they are in. *)
Theorem close_worktree_keeps_workspace s ds device sequence workspace tab c directory vp s' ds' t :
  Inv s → valid_path directory = true → outcome s device sequence = None →
  apply s ds device sequence (Close (Close_Worktree workspace tab) c) directory vp
  = (s', ds', Ok (Accepted t)) →
  workspace ∈ wids (s_workspaces s').
Proof.
  intros HI Hd Hn Ha.
  destruct (apply_accepted _ _ _ _ _ _ _ _ _ _ HI Hd Hn Ha)
    as (s1 & s2 & HI1 & _ & Hi & _ & _ & Hb & Hw & _ & _).
  simpl in Hb. apply edit_close_Target in Hb as (current & Hc & Hs & Hp & Hwt & ->).
  destruct (close_worktree_leaves_pane s1 workspace tab c current HI1 Hc Hs Hp (Hwt eq_refl))
    as (x & Hx & Hnx).
  set (s3 := foldl remove_pane s1 _) in *.
  assert (stands (s_workspaces s3) workspace x) as Hst.
  { by apply stands_remove_panes. }
  destruct (recalculate_names_spec s3) as (_ & _ & Hr & _).
  { by apply Inv_Raw, remove_panes_Inv. }
  destruct (stands_renamed _ _ _ _ Hr Hst) as (v & Hv & <- & _).
  rw Hw. apply elem_of_map. eauto.
Qed.

(** The demonstration Workspace with a worktree Tab 5 holding Pane 6. *)
Definition demo_worktree : State :=
  (add_worktree_tab demo_two_panes [Some 5%N; Some 6%N] None 1 (lit "/repo") (lit "/wt/api")
     (lit "/wt/api")).1.1.
Definition demo_worktree_booted : State := begin_boot 77 demo_worktree.
Definition demo_worktree_live : State :=
  set_s_inventory (host_inventory demo_runtime demo_worktree_booted) demo_worktree_booted.

Lemma demo_worktree_live_Inv : Inv demo_worktree_live.
Proof.
  apply inventory_Inv; [apply begin_boot_Inv; [|done]|done|].
  - eapply (add_worktree_tab_Inv demo_two_panes [Some 5%N; Some 6%N] None 1 (lit "/repo")
              (lit "/wt/api") (lit "/wt/api") _ [] (Ok 5%N));
      [apply demo_two_panes_Inv|apply fresh_by_check|..]; vm_compute; reflexivity.
  - intros id session. simpl. case_bool; [by intros [= <-]|]. case_bool; [by intros [= <-]|done].
Qed.

Definition demo_close_worktree : CloseConfirmation :=
  {| cf_boot := 77; cf_panes := [{| cp_id := 6; cp_session := None |}]; cf_removes_tab := true;
     cf_removes_workspace := false; cf_own_controls := None |}.

Lemma close_worktree_keeps_workspace_witness :
  1%N ∈ wids (s_workspaces (apply demo_worktree_live [] 9 2 (Close (Close_Worktree 1 5) demo_close_worktree)
                              demo_home (λ _, true)).1.1).
Proof.
  eapply (close_worktree_keeps_workspace demo_worktree_live [] 9 2 1 5 demo_close_worktree demo_home
            (λ _, true) _ [] 1%N);
    [apply demo_worktree_live_Inv | vm_compute; reflexivity..].
Defined.

(** ** Moving Panes and merging Tabs *)

Definition is_rearrangement (m : Mutation) : bool :=
  match m with MovePane _ _ _ _ | MergeTab _ _ _ _ _ => true | _ => false end.

Lemma Rearranged_cores l1 w l2 w' :
  Rearranged w w' → cores (all_panes (l1 ++ w' :: l2)) ≡ₚ cores (all_panes (l1 ++ w :: l2)).
Proof.
  intros [_ _ Hc]. unfold all_panes. rw !flat_map_app /= !cores_app Hc. done.
Qed.

Lemma edit_rearrangement s ds device m directory vp s' ds' t :
  Inv s → is_rearrangement m = true →
  edit_branch s ds device m directory vp = (s', ds', Target t) →
  cores (all_panes (s_workspaces s')) ≡ₚ cores (all_panes (s_workspaces s)) ∧
  wids (s_workspaces s') = wids (s_workspaces s).
Proof.
  intros HI Hm. assert (∀ l1 w l2 w', s_workspaces s = l1 ++ w :: l2 → Rearranged w w' →
    cores (all_panes (l1 ++ w' :: l2)) ≡ₚ cores (all_panes (s_workspaces s)) ∧
    wids (l1 ++ w' :: l2) = wids (s_workspaces s)) as Hcase.
  { intros l1 w l2 w' Hw Hr. rw Hw. split; [by apply Rearranged_cores|].
    destruct Hr as [-> _ _]. by rw !wids_app. }
  destruct m; try done; simpl.
  - unfold edit_move_pane, write_workspace. destruct (_ && _); [done|].
    destruct (vfind _ _) as [w|] eqn:Ew; [|done].
    apply vfind_vupdate_split in Ew as (l1 & l2 & Hw & _ & Hu).
    pose proof (Inv_workspace _ _ _ _ HI Hw) as Hwf. destruct destination as [|into beside side].
    + destruct (random ds) as [[new|] ds1]; [|done].
      destruct (move_pane_to_new_tab w tab pane new) as [w' [[]|e]] eqn:Em; [|done].
      rw Hu. intros [= <- _ _]. eapply Hcase; [exact Hw|]. by eapply move_pane_to_new_tab_Ok.
    + destruct (move_pane_beside w tab pane into beside side) as [w' [[]|e]] eqn:Em; [|done].
      rw Hu. intros [= <- _ _]. eapply Hcase; [exact Hw|]. by eapply move_pane_beside_Ok.
  - unfold edit_merge_tab, write_workspace. destruct (vfind _ _) as [w|] eqn:Ew; [|done].
    apply vfind_vupdate_split in Ew as (l1 & l2 & Hw & _ & Hu).
    pose proof (Inv_workspace _ _ _ _ HI Hw) as Hwf.
    destruct (merge_tab w tab into beside side) as [w' [[]|e]] eqn:Em; [|done].
    rw Hu. intros [= <- _ _]. eapply Hcase; [exact Hw|]. by eapply merge_tab_Ok.
Qed.

(** Moving a Pane or merging a Tab conserves the Panes: none is created,
    lost or duplicated, each keeps its directories, presentation and creator, and
    the Workspaces stay the same in the same order. *)
Theorem rearrangement_conserves s ds device sequence m directory vp s' ds' t :
  Inv s → valid_path directory = true → outcome s device sequence = None →
  fresh_draws (s_workspaces s) ds → is_rearrangement m = true →
  apply s ds device sequence m directory vp = (s', ds', Ok (Accepted t)) →
  cores (all_panes (s_workspaces s')) ≡ₚ cores (all_panes (s_workspaces s)) ∧
  wids (s_workspaces s') = wids (s_workspaces s).
Proof.
  intros HI Hd Hn Hf Hm Ha.
  destruct (apply_accepted _ _ _ _ _ _ _ _ _ _ HI Hd Hn Ha)
    as (s1 & s2 & HI1 & Hh & Hi & _ & Hbd & Hb & Hw & _ & _).
  assert (s_workspaces s1 = s_workspaces s) as Hw1 by (unfold s_workspaces; by rw Hi).
  destruct (edit_rearrangement _ _ _ _ _ _ _ _ _ HI1 Hm Hb) as [Hc Hids].
  destruct (recalculate_names_spec s2) as (_ & _ & Hr & _).
  { eapply raw_unnamed, edit_branch_Raw; [exact HI1|done| |exact Hb]. split; try done. by rw Hw1. }
  rw Hw (renamed_panes _ _ Hr) Hc Hw1. split; [done|].
  unfold wids in *. by rw (Forall2_renamed_ids _ _ Hr) Hids Hw1.
Qed.

Lemma rearrangement_conserves_witness :
  let m := MovePane 1 2 3 (Beside 5 6 Side_Left) in
  let s' := (apply demo_two_tabs [] 9 3 m demo_home (λ _, true)).1.1 in
  cores (all_panes (s_workspaces s')) ≡ₚ cores (all_panes (s_workspaces demo_two_tabs)) ∧
  wids (s_workspaces s') = wids (s_workspaces demo_two_tabs).
Proof.
  eapply (rearrangement_conserves demo_two_tabs [] 9 3 (MovePane 1 2 3 (Beside 5 6 Side_Left)) demo_home
            (λ _, true) _ [] 3%N);
    [apply demo_two_tabs_Inv | vm_compute; reflexivity | vm_compute; reflexivity
    | apply fresh_by_check; vm_compute; reflexivity | reflexivity | vm_compute; reflexivity].
Defined.

(** ** Renames *)

Lemma reserve_names_custom_version home names ws k occ ws' occ' pend i w w' n c :
  reserve_names home names k ws occ = (ws', occ', pend) → ws !! i = Some w → ws' !! i = Some w' →
  vfind (names_entry (w_id w)) names = Some n → n_custom n = Some c →
  w_name_version w' = w_name_version w ∧ (∀ j b, (j, b) ∈ pend → j ≠ k + i).
Proof.
  revert k occ ws' occ' pend i. induction ws as [|v ws IH]; intros k occ ws' occ' pend i; simpl; [done|].
  destruct (match vfind _ names with Some _ => _ | None => _ end) as [[v' occ1] waits] eqn:Ev.
  destruct (reserve_names home names (S k) ws occ1) as [[vs occ2] pend2] eqn:Er. intros [= <- <- <-].
  assert (∀ j b, (j, b) ∈ pend2 → S k ≤ j) as Hge.
  { apply reserve_names_spec in Er. intros j b Hjb. by destruct (rs_pending _ _ _ _ _ _ _ _ Er j b Hjb) as (? & _). }
  destruct i as [|i]; simpl.
  - intros [= <-] [= <-] Hn Hc. rw Hn Hc in Ev. simplify_eq. split; [by case_bool|].
    intros j b Hj. simpl in Hj. specialize (Hge j b Hj). lia.
  - intros Hi Hi' Hn Hc. destruct (IH _ _ _ _ _ _ Er Hi Hi' Hn Hc) as [Hv Hp]. split; [done|].
    intros j b [Hj|Hj]%elem_of_app; [|specialize (Hp j b Hj); lia].
    assert (j = k) as ->; [|lia].
    destruct (vfind _ names) as [m|] in Ev; [|simplify_eq; by apply elem_of_nil in Hj].
    destruct (n_custom m); [simplify_eq; by apply elem_of_nil in Hj|].
    destruct (_ && _); simplify_eq; [by apply elem_of_nil in Hj|].
    apply list_elem_of_singleton in Hj. by simplify_eq.
Qed.

Lemma assign_names_other pend names ws occ names' ws' i :
  assign_names pend names ws occ = Some (names', ws') → (i ∉ pend.*1) → ws' !! i = ws !! i.
Proof.
  revert names ws occ. induction pend as [|[j b] pend IH]; intros names ws occ; simpl; [by intros [= _ <-]|].
  intros H [Hne Hn]%not_elem_of_cons. destruct (ws !! j) as [w|]; [|by eapply IH].
  destruct (vfind _ names); [|by eapply IH]. destruct (allocate_name occ b) as [nm|]; [|done].
  erewrite IH; [|exact H|done]. by rw list_lookup_insert_ne.
Qed.

(** A recalculation never counts as a rename of a Workspace with a custom name. *)
Lemma recalculate_custom_version home names ws names' ws' i w w' n c :
  recalculate home names ws = Some (names', ws') → ws !! i = Some w → ws' !! i = Some w' →
  vfind (names_entry (w_id w)) names = Some n → n_custom n = Some c →
  w_name_version w' = w_name_version w.
Proof.
  unfold recalculate. destruct (reserve_names _ _ _ _ _) as [[vs occ] pend] eqn:Er.
  intros Ha Hi Hi' Hn Hc. pose proof Er as Hs%reserve_names_spec.
  destruct (Forall2_lookup_l _ _ _ _ _ (rs_frame _ _ _ _ _ _ _ _ Hs) Hi) as (v & Hv & _).
  destruct (reserve_names_custom_version _ _ _ _ _ _ _ _ _ _ _ _ _ Er Hi Hv Hn Hc) as [Hver Hp].
  rw (assign_names_other _ _ _ _ _ _ i Ha) in Hi'; [|congruence].
  intros ([j b] & -> & Hj)%list_elem_of_fmap. by apply (Hp j b Hj).
Qed.

Lemma renamed_workspace s workspace (v : Workspace → N) name w :
  Inv s → vfind (has_id_w workspace) (s_workspaces s) = Some w → valid_name name = true →
  let s2 := set_s_workspaces (vupdate (has_id_w workspace)
              (λ w, set_w_name (w_name w) (v w) w) (s_workspaces s))
              (set_s_names (vupdate (names_entry workspace) (set_n_custom (Some (trim name)))
                 (s_names s)) s) in
  unnamed s2 →
  ∃ w', vfind (has_id_w workspace) (s_workspaces (recalculate_names s2)) = Some w' ∧
    w_name w' = trim name ∧ w_name_version w' = v w.
Proof.
  intros HI Hw Hv s2 Hu. destruct (recalculate_Named _ _ _ Hu) as (names' & ws' & He & Hr & Hn').
  unfold recalculate_names. rw He. pose proof HI as [[HF Hal _ _ _ _] _ _ _].
  pose proof Hw as (l1 & l2 & Hl & Hwid & Hupd)%vfind_vupdate_split.
  apply bool_decide_eq_true in Hwid.
  assert (s_workspaces s2 !! length l1 = Some (set_w_name (w_name w) (v w) w)) as Hi.
  { rw /s2 /s_workspaces /= -/(s_workspaces s) Hupd lookup_split. done. }
  destruct Hr as [Rf Rw Rc Rcn _ _ _].
  destruct (Forall2_lookup_l _ _ _ _ _ Rf Hi) as (w' & Hi' & Hren).
  assert (w_id w' = workspace) as Hid' by (rw (renamed_id _ _ Hren); done).
  assert (w ∈ s_workspaces s) as Hin by by apply vfind_Some in Hw as [_ ?].
  destruct (aligned_elem _ _ _ Hal Hin) as (n & Hn & _). rw Hwid in Hn.
  assert (vfind (names_entry workspace) (s_names s2) = Some (set_n_custom (Some (trim name)) n)) as Hn2.
  { apply vfind_vupdate; [done|]. by apply vfind_Some in Hn as [? _]. }
  exists w'. split; [|split].
  - rw -Hid'. apply (NoDup_vfind w_id _ (length l1)); [apply Hn'|done].
  - apply (Rcn w'); [by eapply list_elem_of_lookup_2|]. rw Rc Hid' /custom_of Hn2. done.
  - eapply (recalculate_custom_version _ _ _ _ _ _ _ _ _ _ He Hi Hi'); [by rw /= Hwid|done].
Qed.

(** A rename is decided by its version: an unusable name is invalid, an
    unknown Workspace missing, an outdated version a conflict, and otherwise the
    Workspace carries the trimmed name with the next version. *)
Theorem rename_fenced s ds device sequence workspace version name directory vp s' ds' o :
  Inv s → valid_path directory = true → outcome s device sequence = None →
  apply s ds device sequence (RenameWorkspace workspace version name) directory vp = (s', ds', Ok o) →
  if valid_name name then
    match vfind (has_id_w workspace) (s_workspaces s) with
    | None => o = Missing
    | Some w =>
        if bool_decide (version = w_name_version w) then
          o = Accepted workspace ∧
          ∃ w', vfind (has_id_w workspace) (s_workspaces s') = Some w' ∧
            w_name w' = trim name ∧ w_name_version w' = u64_wrapping_add version 1
        else o = Conflict
    end
  else o = Invalid.
Proof.
  intros HI Hd Hnone Ha. pose proof Ha as HA. apply apply_Applied in HA; [|apply HI].
  destruct HA as [_ _ [[_ ?]|[(old & Hold & _)|[_ [?|?]]]]|s1 l d s2 Hb _ Hm Hc Hen He ->];
    try done; [congruence|].
  pose proof (Enrolled_Inv _ _ _ _ _ _ HI Hen) as HI1.
  pose proof (ensure_home_Inv directory s1 HI1 Hd) as HI2.
  assert (s_workspaces (ensure_home directory s1) = s_workspaces s) as Hw.
  { rw ensure_home_workspaces. by apply (Enrolled_workspaces _ _ _ _ _ _ Hen). }
  revert He. unfold edit. simpl. unfold edit_rename_workspace. rw Hw.
  destruct (valid_name name) eqn:Hv; simpl; [|by intros [= _ _ <-]].
  destruct (vfind (has_id_w workspace) (s_workspaces s)) as [w|] eqn:Ew; [|by intros [= _ _ <-]].
  destruct (bool_decide_reflect (version = w_name_version w)) as [->|Hne];
    [rw bool_decide_eq_false_2; [by intros []|]|rw bool_decide_eq_true_2 //; by intros [= _ _ <-]].
  destruct (vfind (names_entry workspace) _) eqn:En; [|done].
  pose proof (edit_rename_workspace_Raw (ensure_home directory s1) ds workspace
    (w_name_version w) name) as Hraw. unfold edit_rename_workspace in Hraw.
  rw Hv Hw Ew /= bool_decide_eq_false_2 ?En in Hraw; [by intros []|].
  specialize (Hraw _ _ _ HI2 eq_refl). destruct Hraw as [Hu _ _ _].
  intros He. unfold accept_edit in He. destruct (u64_checked_add _ _); simplify_eq. split; [done|].
  rw -Hw in Ew.
  exact (renamed_workspace (ensure_home directory s1) workspace
    (λ w, u64_wrapping_add (w_name_version w) 1) name w HI2 Ew Hv Hu).
Qed.

Lemma rename_fenced_witness :
  let run := apply demo_two_panes [] 9 2 (RenameWorkspace 1 0 (lit "  api ")) demo_home (λ _, true) in
  Accepted 1 = Accepted 1 ∧
  ∃ w', vfind (has_id_w 1) (s_workspaces run.1.1) = Some w' ∧
    w_name w' = trim (lit "  api ") ∧ w_name_version w' = u64_wrapping_add 0 1.
Proof.
  apply (rename_fenced demo_two_panes [] 9 2 1 0 (lit "  api ") demo_home (λ _, true) _ []
           (Accepted 1));
    [apply demo_two_panes_Inv | vm_compute; reflexivity..].
Defined.
