(* ===== verification/ServerTheorems.v ===== *)
(** * What a server guarantees

    The invariant along every run of a server, what the admission check decides,
    names, placements and records. *)
From S2P Require Import Prelude.
From S2P Require Import Text.
From S2P Require Import Facts.
From S2P Require Import HierarchyTypes.
From S2P Require Import HierarchyWorkspace.
From S2P Require Import HierarchyState.
From S2P Require Import HierarchyValidate.
From S2P Require Import Host.
From S2P Require Import NamesProofs.
From S2P Require Import ForestInv.
From S2P Require Import Forest.
From S2P Require Import HierarchyInv.
From S2P Require Import ValidateProofs.
From S2P Require Import TreeOps.
From S2P Require Import EditOps.
From S2P Require Import DeviceOps.
From S2P Require Import HostProofs.
From S2P Require Import Demo.
From S2P Require Import EditTheorems.

(** ** Every run *)

(** C2. Along every run of a server, through edits, worktree operations,
    acknowledgements, revocations, synchronizations, restarts and recoveries, the
    organization it holds and every record its journal may hold pass the
    admission check, so it never refuses to read back what it wrote. *)
Theorem server_records_validate boot sv :
  rtc server_step (server_start boot) sv →
  validate (sv_state sv) = Ok tt ∧ Forall (λ r, validate r = Ok tt) (sv_records sv).
Proof.
  intros [[HI _ _] Hr]%server_reachable_Serving. split; [by apply Inv_validate|].
  eapply Forall_impl; [exact Hr|]. intros r [HIr _]. by apply Inv_validate.
Qed.

(** A run: the first Workspace is prepared, device 9 splits its Pane, and the
    server restarts with a new boot from the record it kept. *)
Definition demo_sv0 : Server := server_start 77.
Definition demo_sv1 : Server :=
  keeps_state demo_sv0 (prepare_initial_organization 77 demo_home false (sv_state demo_sv0)
    [Some 1%N; Some 2%N; Some 3%N]).1.1.
Definition demo_sv2 : Server :=
  keeps_state demo_sv1 (mutate demo_runtime (λ _, Ok tt) demo_home (λ _ _ _, Err Refusal_Missing)
    (λ _, true) (sv_state demo_sv1) [Some 4%N] 9 1 demo_split).1.1.
Definition demo_sv3 : Server :=
  {| sv_boot := 78; sv_state := restore_organization 78 (Some (envelope (sv_state demo_sv2)));
     sv_records := sv_records demo_sv2 |}.

Lemma server_records_validate_witness :
  validate (sv_state demo_sv3) = Ok tt ∧ Forall (λ r, validate r = Ok tt) (sv_records demo_sv3).
Proof.
  apply (server_records_validate 77).
  eapply rtc_l; [apply (step_prepare demo_sv0 demo_home false [Some 1%N; Some 2%N; Some 3%N])|].
  eapply rtc_l; [apply (step_mutate demo_sv1 demo_runtime (λ _, Ok tt) demo_home
                          (λ _ _ _, Err Refusal_Missing) (λ _, true) [Some 4%N] 9 1 demo_split)|].
  - reflexivity.
  - intros id session. simpl. case_bool; [by intros [= <-]|]. case_bool; [by intros [= <-]|done].
  - done.
  - reflexivity.
  - apply fresh_by_check. vm_compute. reflexivity.
  - apply rtc_once, (step_restore demo_sv2 78). by left.
Defined.

(** ** The admission check *)

(** C28. The admission check accepts a stored organization exactly when its forest,
    names, limits, device journals and session ends are well formed. *)
Theorem validate_decides s : representable s → validate s = Ok tt ↔ Valid s.
Proof. apply validate_Valid. Qed.

Lemma validate_decides_witness : validate demo_two_tabs = Ok tt ↔ Valid demo_two_tabs.
Proof. apply validate_decides. apply Inv_representable, demo_two_tabs_Inv. Defined.

(** C15. Whatever a client submits, and whether it is accepted, refused or fails,
    applying it to a well-formed organization leaves one that passes the
    admission check. *)
Theorem apply_keeps_valid s ds device sequence m directory vp s' ds' r :
  Inv s → fresh_draws (s_workspaces s) ds → valid_path directory = true →
  apply s ds device sequence m directory vp = (s', ds', r) →
  Inv s' ∧ validate s' = Ok tt.
Proof.
  intros HI Hf Hd Ha. pose proof (apply_Inv _ _ _ _ _ _ _ _ _ _ HI Hf Hd Ha) as HI'.
  split; [done|]. by apply Inv_validate.
Qed.

Lemma apply_keeps_valid_witness : Inv demo_two_panes ∧ validate demo_two_panes = Ok tt.
Proof.
  apply (apply_keeps_valid demo_first [Some 4%N] 9 1 demo_split demo_home (λ _, true) demo_two_panes []
           (Ok (Accepted 4%N)));
    [apply demo_first_Inv | apply demo_first_fresh | vm_compute; reflexivity..].
Defined.

(** ** The host's edit *)

Lemma finish_worktree_found s device sequence o s' :
  finish_worktree s device sequence o = (s', Ok tt) → is_Some (outcome s' device sequence).
Proof.
  unfold finish_worktree, outcome. destruct (find_device device s) as [d|] eqn:Ef; [|done].
  destruct (vfind _ (d_pending d)) as [r|] eqn:Er; [|done]. destruct (_ || _); [done|]. intros [= <-].
  unfold find_device in *. simpl. erewrite vfind_vupdate; [|exact Ef|by apply vfind_Some in Ef as [? _]].
  simpl. erewrite vfind_vupdate; [done|exact Er|by apply vfind_Some in Er as [? _]].
Qed.

(** An edit a server refuses leaves its organization exactly as it was, on
    every path: replays, worktree operations, templates and ordinary edits. *)
Theorem mutate_refused rt vt home start validate s ds device sequence m s' ds' refusal :
  mutate rt vt home start validate s ds device sequence m = (s', ds', Err refusal) → s' = s.
Proof.
  unfold mutate. destruct (outcome s device sequence) as [old|]; [by intros [= <- _ _]|].
  assert (∀ m (directory : result path Refusal),
    match apply (set_s_inventory (host_inventory rt s) s) ds device sequence m
                    (match directory with Ok d => d | Err _ => home end)
                    (λ p, is_ok directory && validate p) with
            | (_, ds, Err refusal) => (s, ds, Err refusal)
            | (next, ds, Ok _) =>
                match outcome next device sequence with
                | None => (s, ds, Err Refusal_Failed)
                | Some o => (commit next, ds, Ok (Answer_Outcome o))
                end
            end = (s', ds', Err refusal) → s' = s) as Hedit.
  { intros m' directory. destruct (apply _ _ _ _ _ _ _) as [[next ds1] [o|e]]; [|by intros [= <- _ _]].
    destruct (outcome next device sequence); [done|by intros [= <- _ _]]. }
  destruct m; try (destruct (negb _); [by intros [= <- _ _]|]; exact (Hedit _ (Ok home))).
  2: { destruct (negb _); [by intros [= <- _ _]|]. apply Hedit. }
  unfold begin_worktree. destruct (negb _); [by intros [= <- _ _]|].
  destruct (apply _ _ _ _ _ _ _) as [[next ds1] [o|e]]; [|by intros [= <- _ _]].
  destruct operation as [| |version template|]; try done.
  destruct (finish_worktree _ _ _ _) as [next2 [[]|e]] eqn:Ef; [|by intros [= <- _ _]].
  apply finish_worktree_found in Ef as [x Hx].
  assert (outcome (commit next2) device sequence = Some x) as -> by done. done.
Qed.

Lemma mutate_refused_witness :
  (mutate demo_runtime (λ _, Ok tt) demo_home (λ _ _ _, Err Refusal_Missing) (λ _, true)
     demo_booted [] 9 7 demo_split).1.1 = demo_booted.
Proof.
  eapply (mutate_refused demo_runtime (λ _, Ok tt) demo_home (λ _ _ _, Err Refusal_Missing)
            (λ _, true) demo_booted [] 9 7 demo_split _ [] Refusal_Stale).
  vm_compute. reflexivity.
Defined.

(** ** Names *)

Lemma allocate_first fuel occupied base k name :
  (∀ j, j < k → candidate base j ∈ occupied) →
  allocate fuel occupied base (candidate base k) (N.of_nat k + 2) = Some name →
  ∃ i, name = candidate base i ∧ i < k + fuel ∧ (name ∉ occupied) ∧
    ∀ j, j < i → candidate base j ∈ occupied.
Proof.
  revert k. induction fuel as [|fuel IH]; intros k Hk; simpl; [done|].
  destruct (bool_decide_reflect (candidate base k ∈ occupied)) as [Hin|Hn].
  - assert (numbered base (N.of_nat k + 2) = candidate base (S k)) as -> by (simpl; f_equal; lia).
    replace (N.of_nat k + 2 + 1)%N with (N.of_nat (S k) + 2)%N by lia.
    intros (i & ? & ? & ? & ?)%IH; [exists i; split; [done|]; split; [lia|done]|].
    intros j Hj. destruct (decide (j = k)) as [->|]; [done|]. apply Hk. lia.
  - intros [= <-]. exists k. split; [done|]. split; [lia|done].
Qed.

(** The search for a free name always ends, and finds the first of [base],
    [base (2)], [base (3)], ... that is not taken. *)
Theorem allocate_name_first occupied base :
  ∃ k, allocate_name occupied base = Some (candidate base k) ∧ k ≤ size occupied ∧
    (candidate base k ∉ occupied) ∧ ∀ j, j < k → candidate base j ∈ occupied.
Proof.
  destruct (allocate_name_total occupied base) as [name Hn]. pose proof Hn as Hn'.
  apply (allocate_first _ _ _ 0) in Hn' as (k & -> & Hk & Hf & Hj); [|lia].
  exists k. split; [done|]. split; [lia|done].
Qed.

(** Recalculating names always succeeds. It renames Workspaces and nothing
    else; a custom name is shown as it is; an automatic name differs from the
    name of every other Workspace and stays printable and within 256 bytes; and
    recalculating again changes nothing. *)
Theorem recalculate_names_correct s :
  unnamed s →
  let s' := recalculate_names s in
  Forall2 renamed (s_workspaces s) (s_workspaces s') ∧
  (∀ w c, w ∈ s_workspaces s' → custom_of (s_names s) (w_id w) = Some (Some c) → w_name w = c) ∧
  (∀ i j w1 w2, i ≠ j → s_workspaces s' !! i = Some w1 → s_workspaces s' !! j = Some w2 →
     custom_of (s_names s) (w_id w1) = Some None → w_name w1 ≠ w_name w2) ∧
  Forall (λ w, valid_name (w_name w) = true) (s_workspaces s') ∧
  recalculate_names s' = s'.
Proof.
  intros Hu s'. destruct (recalculate_names_spec s Hu) as (Hn & Hfr & Hf & Hr).
  pose proof Hr as [_ _ Rc Rcn Rd _ _]. split; [done|]. split; [|split; [|split; [apply Hn|]]].
  - intros w c Hw Hc. apply (Rcn w c Hw). by rw Rc.
  - intros i j w1 w2 Hij H1 H2 Ha. apply (Rd i j w1 w2 Hij H1 H2). unfold automatic. by rw Rc.
  - unfold recalculate_names at 1.
    assert (s_home_directory s' = s_home_directory s) as ->.
    { unfold s'. by rw Hfr. }
    rw (recalculate_fixed _ _ _ _ _ (un_aligned _ _ _ Hu) Hr). by rw /s' Hfr.
Qed.

Lemma recalculate_names_correct_witness :
  recalculate_names (recalculate_names demo_two_tabs) = recalculate_names demo_two_tabs.
Proof. apply (recalculate_names_correct demo_two_tabs), Inv_Raw, demo_two_tabs_Inv. Defined.

(** ** Placements *)

Lemma vfind_map_is_Some {A B} (f : A → option B) l x :
  x ∈ l → is_Some (f x) → is_Some (vfind_map f l).
Proof.
  intros Hx [y Hy]. induction l as [|z l IH]; [by apply elem_of_nil in Hx|]. simpl.
  destruct (f z) eqn:E; [done|]. apply elem_of_cons in Hx as [->|Hx]; [congruence|auto].
Qed.

(** A Pane of a Tab of a Workspace of the inventory. *)
Definition placed (ws : list Workspace) (pl : Placement) : Prop :=
  ∃ w t, w ∈ ws ∧ w_id w = pl_workspace pl ∧ t ∈ w_tabs w ∧ t_id t = pl_tab pl ∧
    pl_pane pl ∈ map p_id (t_panes t).

Lemma tab_root_elem w t : workspace_ok w → t ∈ w_tabs w → t_root_pane t ∈ map p_id (t_panes t).
Proof.
  intros (_ & _ & Ht) Hin. rw Forall_forall in Ht. destruct (Ht t Hin) as (_ & _ & _ & Hr & _).
  by apply root_first_elem.
Qed.

Lemma placement_sound ws close repos rev id pl :
  Forest ws →
  placement {| i_repositories := repos; i_revision := rev; i_workspaces := ws; i_close := close |} id
  = Some pl →
  placed ws pl ∧ (id = pl_workspace pl ∨ id = pl_tab pl ∨ id = pl_pane pl).
Proof.
  intros HF (w & Hw & Hf)%vfind_map_Some. simpl in Hw, Hf.
  assert (workspace_ok w) as Hok by (destruct HF as [Hok _ _ _ _ _]; rw Forall_forall in Hok; auto).
  destruct (bool_decide_reflect (w_id w = id)) as [<-|Hne].
  - destruct (vfind _ _) as [t|] eqn:Et; [|done]. injection Hf as <-.
    apply vfind_Some in Et as [_ Ht]. split; [|by left]. exists w, t. simpl.
    repeat split; try done. by eapply tab_root_elem.
  - apply vfind_map_Some in Hf as (t & Ht & Hf).
    destruct (bool_decide_reflect (t_id t = id)) as [<-|Hnt].
    + injection Hf as <-. split; [|by right; left]. exists w, t. repeat split; try done.
      by eapply tab_root_elem.
    + destruct (vany _ _) eqn:Ev; [|done]. injection Hf as <-. split; [|by right; right].
      exists w, t. repeat split; try done. by apply root_check.
Qed.

Lemma placement_complete ws close repos rev id :
  Forest ws → id ∈ all_ids ws →
  is_Some (placement {| i_repositories := repos; i_revision := rev; i_workspaces := ws;
                        i_close := close |} id).
Proof.
  intros HF (w & Hw & Hid)%elem_of_flat_map. eapply vfind_map_is_Some; [exact Hw|].
  assert (workspace_ok w) as (_ & Hr & _) by (destruct HF as [Hok _ _ _ _ _]; rw Forall_forall in Hok; auto).
  destruct (bool_decide_reflect (w_id w = id)) as [<-|Hne].
  - apply root_first_elem in Hr. apply elem_of_map in Hr as (t & Ht & Hin).
    destruct (vfind_is_Some (has_id_t (w_root_tab w)) _ _ Hin) as [u ->]; [|done].
    by apply bool_decide_eq_true.
  - apply elem_of_cons in Hid as [->|Hid]; [done|]. apply elem_of_flat_map in Hid as (t & Ht & Hid).
    eapply vfind_map_is_Some; [exact Ht|]. destruct (bool_decide_reflect (t_id t = id)) as [|Hnt]; [done|].
    apply elem_of_cons in Hid as [->|Hid]; [done|]. apply root_check in Hid. by rw Hid.
Qed.

(** Exactly the identities in use have a placement, and a placement names a
    Pane in a Tab in a Workspace that exist together, with the identity asked for
    among the three. *)
Theorem placement_correct s id :
  Inv s →
  (is_Some (placement (s_inventory s) id) ↔ id ∈ all_ids (s_workspaces s)) ∧
  ∀ pl, placement (s_inventory s) id = Some pl →
    placed (s_workspaces s) pl ∧ (id = pl_workspace pl ∨ id = pl_tab pl ∨ id = pl_pane pl).
Proof.
  intros [[HF _ _ _ _ _] _ _ _]. unfold s_workspaces in *. destruct (s_inventory s) as [repos rev ws close].
  simpl in *. assert (∀ pl, placement {| i_repositories := repos; i_revision := rev; i_workspaces := ws;
    i_close := close |} id = Some pl → placed ws pl ∧ (id = pl_workspace pl ∨ id = pl_tab pl ∨ id = pl_pane pl))
    as Hs by (intros pl; by apply placement_sound).
  split; [|done]. split; [|by apply placement_complete].
  intros [pl Hpl]. destruct (Hs pl Hpl) as [(w & t & Hw & Hwi & Ht & Hti & Hp) Hid].
  apply elem_of_flat_map. exists w. split; [done|].
  destruct Hid as [->|Hid]; [rw -Hwi; by left|]. right. apply elem_of_flat_map. exists t. split; [done|].
  destruct Hid as [->| ->]; [rw -Hti; by left|by right].
Qed.

Lemma placement_correct_witness :
  is_Some (placement (s_inventory demo_two_tabs) 6) ↔ 6%N ∈ all_ids (s_workspaces demo_two_tabs).
Proof. apply (placement_correct demo_two_tabs 6), demo_two_tabs_Inv. Defined.

(** ** Records and restarts *)

Lemma map_panes_map_panes f g ws : map_panes f (map_panes g ws) = map_panes (λ p, f (g p)) ws.
Proof.
  unfold map_panes. rw map_map. apply map_ext. intros w. simpl. unfold set_w_tabs. simpl. f_equal.
  rw map_map. apply map_ext. intros t. unfold set_t_panes. simpl. f_equal. by rw map_map.
Qed.

Lemma all_panes_map_panes f ws : all_panes (map_panes f ws) = map f (all_panes ws).
Proof.
  unfold all_panes, map_panes. rw flat_map_map map_flat_map. apply flat_map_ext_in. intros w _.
  unfold workspace_panes. simpl. rw flat_map_map map_flat_map. done.
Qed.

(** The durable part of a Pane. *)
Definition durable (p : Pane) : Pane := strip_live (set_p_creator None p).

(** A server that recovers in the same boot gets back exactly the record it
    wrote, reservations included; a server that restarts gets back every
    Workspace, Tab and Pane with its durable facts, no reservation and no pending
    end of sessions. *)
Theorem restore_reservations s boot boot' :
  s_creator_boot s = Some boot → boot' ≠ boot →
  restore_organization boot (Some (envelope s)) = envelope s ∧
  let s' := restore_organization boot' (Some (envelope s)) in
  s_workspaces s' = map_panes durable (s_workspaces s) ∧
  Forall (λ p, p_creator p = None) (all_panes (s_workspaces s')) ∧
  s_session_ends s' = None ∧ s_devices s' = s_devices s ∧ s_names s' = s_names s ∧
  s_revision s' = s_revision s.
Proof.
  intros Hb Hne. unfold restore_organization, begin_boot. simpl. rw Hb.
  rw bool_decide_eq_false_2; [by intros []|]. split; [done|].
  rw bool_decide_eq_true_2; [congruence|]. unfold s_workspaces. simpl.
  rw map_panes_map_panes. split; [done|]. split; [|done].
  rw all_panes_map_panes. apply Forall_map, Forall_true. done.
Qed.

Lemma restore_reservations_witness :
  restore_organization 77 (Some (envelope demo_booted)) = envelope demo_booted.
Proof. apply (restore_reservations demo_booted 77 78); [reflexivity | discriminate]. Defined.

(** ** Worktree membership *)

Lemma opt_path_eqb_refl_neg p : negb (opt_path_eqb p p) = false.
Proof. by rw opt_path_eqb_refl. Qed.

Lemma reconcile_tab_unchanged snapshot root follows current t t' :
  reconcile_tab snapshot root follows current t = (t', false) → t' = t.
Proof.
  unfold reconcile_tab. destruct (follows && _ && _).
  - intros [= <- H]. destruct t as [m wt wr i r ps]; simpl in *.
    apply orb_false_iff in H as [[H1 H2]%orb_false_iff H3%negb_false_iff%bool_decide_eq_true].
    destruct wt, wr; try done. by subst.
  - destruct (_ || _).
    + destruct (vfind_map _ _); [|by intros [= <-]]. by destruct (negb _); intros [= <-].
    + destruct (tab_current _ _ _) as [[a b]|]; [|by intros [= <-]].
      intros [= <- [-> ->]%orb_false_iff]. by destruct t.
Qed.

(** Reconciling worktree membership with Git's listings keeps the
    organization well formed, and reports no change only when nothing changed. *)
Theorem reconcile_membership_correct snapshot s :
  Inv s → snapshot_ok snapshot →
  let '(s', changed) := reconcile_membership snapshot s in
  Inv s' ∧ (changed = false → s' = s).
Proof.
  intros HI Hs. pose proof (reconcile_membership_Inv snapshot s HI Hs) as HI'.
  unfold reconcile_membership in *. simpl in *. set (ws := map (reconcile_workspace snapshot) (s_workspaces s)) in *.
  split; [done|]. intros Hc. rw Hc.
  assert (map fst ws = s_workspaces s) as ->; [|by destruct s as [??? [????] ????]].
  rw vany_false in Hc. unfold ws in *. rw map_map. rw -{2}(map_id (s_workspaces s)).
  apply map_ext_in. intros w Hw%list_elem_of_In.
  assert ((reconcile_workspace snapshot w).2 = false) as Hw2.
  { apply Hc. apply elem_of_map. eauto. }
  unfold reconcile_workspace in *. simpl in *. set (g := reconcile_tab _ _ _ _) in *.
  assert (map fst (map g (w_tabs w)) = w_tabs w) as ->; [|by destruct w].
  rw vany_false in Hw2. rw map_map. rw -{2}(map_id (w_tabs w)). apply map_ext_in.
  intros t Ht%list_elem_of_In. destruct (g t) as [t' b] eqn:Eg.
  assert (b = false) as ->; [|simpl; by eapply reconcile_tab_unchanged].
  apply (Hw2 (t', b)). apply elem_of_map. eauto.
Qed.

Lemma reconcile_membership_correct_witness :
  let '(s', changed) := reconcile_membership (rt_repositories demo_runtime) demo_worktree_live in
  Inv s' ∧ (changed = false → s' = demo_worktree_live).
Proof.
  apply (reconcile_membership_correct (rt_repositories demo_runtime) demo_worktree_live);
    [apply demo_worktree_live_Inv | intros facts l H; by apply elem_of_nil in H].
Defined.
