(* ===== verification/DeviceFrame.v ===== *)
(** * What a server's operations do to one device's record

    An operation either leaves the retained outcomes of a device in place, may
    replace the device's record when it is idle, executes one submission of the
    device, or retires a prefix of its outcomes. *)
From S2P Require Import Prelude.
From S2P Require Import Text.
From S2P Require Import Facts.
From S2P Require Import HierarchyTypes.
From S2P Require Import HierarchyWorkspace.
From S2P Require Import HierarchyState.
From S2P Require Import HierarchyValidate.
From S2P Require Import Host.
From S2P Require Import NamesProofs.
From S2P Require Import ForestInv.
From S2P Require Import Forest.
From S2P Require Import HierarchyInv.
From S2P Require Import ValidateProofs.
From S2P Require Import TreeOps.
From S2P Require Import EditOps.
From S2P Require Import DeviceOps.
From S2P Require Import HostProofs.
From S2P Require Import JournalTheorems.

(** ** Records up to the progress of worktree operations *)

Definition same_operation (o o' : RetainedOutcome) : Prop :=
  ro_sequence o' = ro_sequence o ∧ ro_mutation o' = ro_mutation o.

(** The same record, except that outcomes in progress may have settled. *)
Definition like (d d' : DeviceOutcomes) : Prop :=
  d_device d' = d_device d ∧ d_retired d' = d_retired d ∧
  Forall2 same_operation (d_pending d) (d_pending d').

#[export] Instance same_operation_preorder : PreOrder same_operation.
Proof. split; [done|]. intros o1 o2 o3 [? ?] [? ?]. split; congruence. Qed.
#[export] Instance like_preorder : PreOrder like.
Proof.
  split.
  - intros d. split; [done|]. split; [done|]. by induction (d_pending d); constructor.
  - intros d1 d2 d3 (H1 & H2 & H3) (H4 & H5 & H6). split; [congruence|]. split; [congruence|].
    by etrans.
Qed.

Lemma like_length d d' : like d d' → length (d_pending d') = length (d_pending d).
Proof. intros (_ & _ & H). by apply Forall2_length in H. Qed.

Lemma like_push d d' o : like d d' → like (push_outcome o d) (push_outcome o d').
Proof.
  intros (H1 & H2 & H3). split; [done|]. split; [done|]. simpl. apply Forall2_app; [done|].
  by constructor.
Qed.

Lemma like_found d d' q o :
  like d d' → vfind (has_sequence q) (d_pending d) = Some o →
  ∃ o', vfind (has_sequence q) (d_pending d') = Some o' ∧ same_operation o o'.
Proof.
  intros (_ & _ & H). unfold vfind, has_sequence. induction H as [|x x' l l' [Hs Hm] _ IH]; simpl; [done|].
  rw Hs. case_bool; [|done]. intros [= <-]. exists x'. done.
Qed.

Lemma like_not_found d d' q :
  like d d' → vfind (has_sequence q) (d_pending d) = None →
  vfind (has_sequence q) (d_pending d') = None.
Proof.
  intros (_ & _ & H). unfold vfind, has_sequence. induction H as [|x x' l l' [Hs Hm] _ IH]; simpl; [done|].
  rw Hs. by case_bool.
Qed.

Lemma find_device_iff D s d :
  NoDup (map d_device (s_devices s)) →
  find_device D s = Some d ↔ d ∈ s_devices s ∧ d_device d = D.
Proof.
  intros Hnd. split; [apply find_device_elem|]. intros [Hin Hd]. by apply vfind_NoDup.
Qed.

Lemma find_device_absent D s :
  find_device D s = None ↔ ∀ d, d ∈ s_devices s → d_device d ≠ D.
Proof.
  split.
  - intros H d Hin <-. apply (find_device_None _ _ H). apply elem_of_map. eauto.
  - intros H. destruct (find_device D s) as [d|] eqn:E; [|done].
    apply find_device_elem in E as [Hin Hd]. by destruct (H d).
Qed.

(** ** Framing *)

(** Nothing happens to the device's record except that an idle one may be
    replaced, which the floor of unknown devices then remembers. *)
Definition frame (D : Id) (s s' : State) : Prop :=
  (s_sequence_floor s ≤ s_sequence_floor s')%N ∧
  match find_device D s, find_device D s' with
  | Some d, Some d' => like d d'
  | Some d, None => d_pending d = [] ∧ (d_retired d ≤ s_sequence_floor s')%N
  | None, None => True
  | None, Some _ => False
  end.

Lemma frame_same D s s' :
  s_devices s' = s_devices s → s_sequence_floor s' = s_sequence_floor s → frame D s s'.
Proof.
  intros Hd Hf. unfold frame, find_device. rw Hd Hf. split; [done|]. by destruct (vfind _ _).
Qed.

#[export] Instance frame_preorder D : PreOrder (frame D).
Proof.
  split; [intros s; by apply frame_same|].
  intros s1 s2 s3 [F1 H1] [F2 H2]. split; [lia|].
  destruct (find_device D s1) as [d1|], (find_device D s2) as [d2|], (find_device D s3) as [d3|];
    try done.
  - by etrans.
  - pose proof (like_length _ _ H1) as Hl. destruct H1 as (_ & Hr & _), H2 as [Hp Hle].
    rw Hp in Hl. destruct (d_pending d1); [|done]. split; [done|]. by rw -Hr.
  - destruct H1. split; [done|lia].
Qed.

(** One submission of [m] takes the sequence [q] of the device. *)
Definition executes (D : Id) (q : N) (m : Mutation) (s s' : State) : Prop :=
  expected_sequence s D q = true ∧ q ≠ u64_max ∧
  ∃ d d' o, (find_device D s = Some d ∨
             find_device D s = None ∧ d = {| d_device := D; d_retired := (q - 1)%N; d_pending := [] |}) ∧
    find_device D s' = Some d' ∧ ro_sequence o = q ∧ ro_mutation o = m ∧ like (push_outcome o d) d'.

(** ** Admission *)

Lemma replace_idle_cases s s' :
  replace_idle s = Some s' →
  s' = s ∨ ∃ l1 d l2, s_devices s = l1 ++ d :: l2 ∧ d_pending d = [] ∧ s_devices s' = l1 ++ l2 ∧
    s_sequence_floor s' = N.max (s_sequence_floor s) (d_retired d).
Proof.
  unfold replace_idle. destruct (_ <=? _); [|intros [= <-]; by left].
  destruct (vposition _ _) as [i|] eqn:Ei; [|done].
  apply vposition_Some in Ei as (l1 & d & l2 & Hl & <- & Hd & _). rw Hl lookup_split vremove_split.
  intros [= <-]. right. exists l1, d, l2. simpl. split; [done|]. split; [|done].
  by destruct (d_pending d).
Qed.

(** Appending a record of another device, or one's own. *)
Lemma find_device_snoc E s s' d :
  s_devices s' = s_devices s ++ [d] → d_device d ≠ E → find_device E s' = find_device E s.
Proof.
  intros Hs Hd. unfold find_device. rw Hs vfind_app. destruct (vfind _ _); [done|].
  unfold vfind, is_device. simpl. by rw bool_decide_eq_false_2.
Qed.

Lemma frame_floor E s s' :
  find_device E s' = find_device E s → (s_sequence_floor s ≤ s_sequence_floor s')%N → frame E s s'.
Proof. intros He Hf. split; [done|]. rw He. by destruct (find_device E s). Qed.

Lemma frame_remove E s s' l1 d l2 :
  NoDup (map d_device (s_devices s)) → s_devices s = l1 ++ d :: l2 → d_pending d = [] →
  s_devices s' = l1 ++ l2 → s_sequence_floor s' = N.max (s_sequence_floor s) (d_retired d) →
  frame E s s'.
Proof.
  intros Hnd Hl Hp Hs' Hf.
  assert (NoDup (map d_device (s_devices s'))) as Hnd'.
  { eapply NoDup_submseteq_l; [|exact Hnd]. apply (fmap_submseteq d_device). rw Hl Hs'.
    apply submseteq_app; [done|by apply submseteq_cons]. }
  split; [lia|]. destruct (find_device E s) as [e|] eqn:Ee.
  - apply find_device_iff in Ee as [Hin He]; [|done]. rw Hl elem_of_app elem_of_cons in Hin.
    assert (e ∈ l1 ++ l2 ∨ e = d) as [Hk| ->] by (rw elem_of_app; tauto).
    + assert (find_device E s' = Some e) as ->; [|done]. apply find_device_iff; [done|]. by rw Hs'.
    + assert (find_device E s' = None) as ->; [|split; [done|lia]].
      apply find_device_absent. intros x Hx Hxe. rw Hl map_app /= in Hnd.
      apply NoDup_app in Hnd as (_ & H1 & [H2 _]%NoDup_cons). rw Hs' elem_of_app in Hx.
      destruct Hx as [Hx|Hx].
      * apply (H1 (d_device x)); [apply elem_of_map; eauto|]. rw Hxe -He. by left.
      * apply H2. apply elem_of_map. exists x. split; [congruence|done].
  - assert (find_device E s' = None) as ->; [|done]. rw find_device_absent in Ee.
    apply find_device_absent. intros x Hx. apply Ee. rw Hl. rw Hs' elem_of_app in Hx.
    rw elem_of_app elem_of_cons. tauto.
Qed.

Lemma admit_device_frame E s device q s' :
  NoDup (map d_device (s_devices s)) → admit_device s device q = Some s' →
  (s_sequence_floor s ≤ s_sequence_floor s')%N ∧
  (E ≠ device → frame E s s') ∧
  match find_device device s with
  | Some d => find_device device s' = Some d
  | None => find_device device s' = Some {| d_device := device; d_retired := (q - 1)%N; d_pending := [] |}
  end.
Proof.
  intros Hnd. unfold admit_device.
  pose proof (vposition_find (is_device device) (s_devices s)) as Hpos.
  destruct (vposition (is_device device) (s_devices s)) as [i|].
  - destruct Hpos as (l1 & d & l2 & Hl & <- & Hf). rw Hl lookup_split vremove_split. intros [= <-].
    unfold find_device at 1. rw Hf. split; [done|].
    assert (∀ X, find_device X (set_s_devices ((l1 ++ l2) ++ [d]) s) = find_device X s) as Hsame.
    { intros X. assert (s_devices s ≡ₚ (l1 ++ l2) ++ [d]) as Hp by (rw Hl; solve_Permutation).
      apply option_eq. intros x. rw !find_device_iff; [simpl; by rw -Hp|done|].
      simpl. by rw Hp. }
    split; [intros _; by apply frame_floor|]. by rw Hsame.
  - rw (Hpos : find_device device s = None). destruct (replace_idle s) as [s1|] eqn:Er; [|done].
    intros [= <-]. set (rec := {| d_device := device; d_retired := (q - 1)%N; d_pending := [] |}).
    assert (∀ X, frame X s s1) as Hfr.
    { intros X. apply replace_idle_cases in Er as [->|(l1 & d & l2 & H1 & H2 & H3 & H4)]; [done|].
      by eapply frame_remove. }
    split; [apply (Hfr E)|]. split.
    + intros HE. etrans; [apply Hfr|]. apply frame_floor; [|done].
      apply (find_device_snoc E s1 _ rec); [done|]. simpl. congruence.
    + destruct (Hfr device) as [_ Hd]. rw (Hpos : find_device device s = None) in Hd.
      destruct (find_device device s1) eqn:E1; [done|].
      unfold find_device in E1 |- *. simpl. rw vfind_app E1. unfold vfind, is_device. simpl.
      by rw bool_decide_eq_true_2.
Qed.

(** ** Applying an operation *)

Lemma find_device_push E s s' l d o :
  s_devices s = l ++ [d] → s_devices s' = l ++ [push_outcome o d] →
  NoDup (map d_device (s_devices s)) →
  find_device E s' = (if bool_decide (E = d_device d) then Some (push_outcome o d)
                      else find_device E s).
Proof.
  intros Hs Hs' Hnd.
  assert (NoDup (map d_device (s_devices s'))) as Hnd' by (rw Hs' map_app; by rw Hs map_app in Hnd).
  destruct (bool_decide_reflect (E = d_device d)) as [->|HE].
  - apply find_device_iff; [done|]. rw Hs' elem_of_app list_elem_of_singleton. auto.
  - apply option_eq. intros x. rw !find_device_iff // Hs Hs' !elem_of_app !list_elem_of_singleton.
    split; intros [[?| ->] ?]; try (by auto); exfalso; by apply HE.
Qed.

(** An application that answers leaves the record of every other device framed;
    unless it replays, it executes the submission. *)
Lemma apply_effect s ds device q m directory vp s' ds' o :
  Inv s → outcome s device q = None →
  apply s ds device q m directory vp = (s', ds', Ok o) →
  executes device q m s s' ∧ (∀ E, E ≠ device → frame E s s').
Proof.
  intros HI Ho. pose proof HI as [_ HD _ _]. pose proof (dv_distinct _ _ HD) as Hnd.
  unfold apply. rw Ho. destruct (is_bounded m); cbn [negb]; [|done].
  destruct (_ || _) eqn:Es; [done|].
  apply orb_false_iff in Es as [He%negb_false_iff Hm%bool_decide_eq_false].
  destruct (_ <=? _); [done|]. destruct (admit_device s device q) as [s1|] eqn:Ea; [|done].
  destruct (admit_device_spec s device q s1 HD He Hm Ea) as (l & d & [E1 E2 E3 E4 E5 E7 E6]).
  destruct (edit s1 ds device m directory vp) as [[s2 ds2] [o1|e]] eqn:Ed; [|done].
  destruct (edit_journal _ _ _ _ _ _ _ _ _ Ed) as (Jd & Jf & _).
  rw Jd E1 record_outcome_last. intros [= <- _ <-].
  set (rec := {| ro_sequence := q; ro_mutation := m; ro_outcome := o1 |}).
  set (s' := set_s_devices _ s2).
  assert (NoDup (map d_device (s_devices s1))) as Hnd1 by (rw E1; apply E4).
  assert (∀ X, find_device X s' = if bool_decide (X = device) then Some (push_outcome rec d)
                                  else find_device X s1) as Hfind.
  { intros X. rw (find_device_push X s1 s' l d rec) // E2. done. }
  split.
  - destruct (admit_device_frame device s device q s1 Hnd Ea) as (_ & _ & Hdev).
    split; [done|]. split; [done|]. exists d, (push_outcome rec d), rec.
    rw Hfind bool_decide_eq_true_2 //. split; [|done].
    assert (find_device device s1 = Some d) as Hd1.
    { apply find_device_iff; [done|]. rw E1 elem_of_app list_elem_of_singleton. auto. }
    destruct (find_device device s) as [d0|]; [left|right]; [congruence|]. split; [done|congruence].
  - intros E HE. destruct (admit_device_frame E s device q s1 Hnd Ea) as (_ & Hfr & _).
    etrans; [by apply Hfr|]. apply frame_floor; [rw Hfind; by rw bool_decide_eq_false_2|].
    simpl. by rw Jf.
Qed.

(** ** Worktree settlements, acknowledgements and revocations *)

Lemma finish_worktree_frame E s device q o :
  Inv s → frame E s (finish_worktree s device q o).1.
Proof.
  intros HI. unfold finish_worktree. destruct (outcome s device q); [|done].
  destruct (_ || _); [done|]. simpl. destruct (find_device device s) as [d|] eqn:Ef.
  2: { apply frame_same; [|done]. simpl. apply vupdate_none, Forall_forall. intros x Hx.
       by apply (vfind_None _ _ Ef). }
  apply vfind_vupdate_split in Ef as (l1 & l2 & Hl & Hd%bool_decide_eq_true & Hu).
  rw Hu. set (d' := set_d_record _ _ d).
  assert (like d d') as Hlike.
  { split; [done|]. split; [done|]. simpl. induction (d_pending d) as [|x l IH]; simpl; [done|].
    case_bool; by constructor. }
  pose proof HI as [_ [Hnd _ _ _ _] _ _]. rw Hl in Hnd. split; [done|].
  assert (NoDup (map d_device (l1 ++ d' :: l2))) as Hnd' by (rw map_app /=; by rw map_app in Hnd).
  destruct (find_device E s) as [e|] eqn:Ee.
  - apply find_device_iff in Ee as [Hin He]; [|by rw Hl]. rw Hl elem_of_app elem_of_cons in Hin.
    assert (∃ e', e' ∈ l1 ++ d' :: l2 ∧ d_device e' = E ∧ like e e') as (e' & Hin' & He' & Hlk).
    { setoid_rewrite elem_of_app. setoid_rewrite elem_of_cons.
      destruct Hin as [Hin|[->|Hin]].
      - exists e. split; [by left|done].
      - exists d'. split; [by right; left|]. by split.
      - exists e. split; [by right; right|done]. }
    assert (find_device E (set_s_devices (l1 ++ d' :: l2) s) = Some e') as ->; [|done].
    by apply find_device_iff.
  - rw find_device_absent Hl in Ee.
    assert (find_device E (set_s_devices (l1 ++ d' :: l2) s) = None) as ->; [|done].
    apply find_device_absent. simpl. intros x. rw elem_of_app elem_of_cons. intros [?|[->|?]].
    + apply Ee. rw elem_of_app. auto.
    + apply (Ee d). rw elem_of_app elem_of_cons. auto.
    + apply Ee. rw elem_of_app elem_of_cons. auto.
Qed.

(** The device retires a prefix of its outcomes, none beyond [q]. *)
Definition acknowledges (D : Id) (q : N) (s s' : State) : Prop :=
  s_sequence_floor s' = s_sequence_floor s ∧
  match find_device D s, find_device D s' with
  | Some d, Some d' => ∃ k, k ≤ length (d_pending d) ∧ d_retired d' = (d_retired d + N.of_nat k)%N ∧
      d_pending d' = drop k (d_pending d) ∧
      ∀ q', (q < q')%N →
        vfind (has_sequence q') (d_pending d') = vfind (has_sequence q') (d_pending d)
  | None, None => True
  | _, _ => False
  end.

Lemma acknowledge_effect s device q s' :
  Inv s → acknowledge s device q = (s', Ok tt) →
  acknowledges device q s s' ∧ (∀ E, E ≠ device → frame E s s').
Proof.
  intros HI. unfold acknowledge. destruct (find_device device s) as [d|] eqn:Ef.
  2: { intros [= <-]. split; [split; [done|by rw Ef]|done]. }
  destruct (vany _ _); [done|]. intros [= <-]. pose proof Ef as Ef'.
  apply vfind_vupdate_split in Ef' as (l1 & l2 & Hl & Hd%bool_decide_eq_true & Hu). rw Hu.
  set (settled := take_while_count _ _). set (d' := set_d_record _ _ d).
  pose proof HI as [_ [Hnd Hok _ _ _] _ _]. rw Hl in Hnd Hok.
  apply Forall_app in Hok as [_ [Hok _]%Forall_cons].
  assert (NoDup (map d_device (l1 ++ d' :: l2))) as Hnd' by (rw map_app /=; by rw map_app in Hnd).
  assert (settled ≤ length (d_pending d)) as Hle by apply take_while_count_le.
  destruct (acknowledge_device_ok d settled Hok Hle) as [_ Hret].
  split.
  - split; [done|]. rw Ef.
    assert (find_device device (set_s_devices (l1 ++ d' :: l2) s) = Some d') as ->.
    { apply find_device_iff; [done|]. simpl. rw elem_of_app elem_of_cons. auto. }
    exists settled. split; [done|]. split; [done|]. split; [done|]. intros q' Hq. simpl.
    rw vfind_settled //. by rw (proj2 (N.leb_gt _ _) Hq).
  - intros E HE. apply frame_floor; [|done]. apply option_eq. intros x.
    rw !find_device_iff; [first [done|by rw Hl]..|]. simpl. rw Hl !elem_of_app !elem_of_cons.
    split; intros [[?|[->|?]] ?]; try (by auto); exfalso; apply HE; by rw -Hd.
Qed.

Lemma forget_frame E s device :
  E ≠ device → Inv s → frame E s (forget s device).1.
Proof.
  intros HE HI. unfold forget. destruct (vany _ _); [done|]. simpl.
  pose proof HI as [_ [Hnd _ _ _ _] _ _]. apply frame_floor; [|done].
  assert (NoDup (map d_device (vfilter (λ d, negb (is_device device d)) (s_devices s)))) as Hnd'.
  { eapply NoDup_submseteq_l; [|exact Hnd]. apply (fmap_submseteq d_device), submseteq_vfilter. }
  apply option_eq. intros x. rw !find_device_iff //. simpl. rw elem_of_vfilter. unfold is_device.
  split; [tauto|]. intros [Hin Hx]. split; [|done]. split; [|done].
  rw bool_decide_eq_false_2 //. congruence.
Qed.

(** ** The host's operations *)

Lemma executes_frame D q m s s1 s2 : executes D q m s s1 → frame D s1 s2 → executes D q m s s2.
Proof.
  intros (He & Hq & d & d' & o & Hd & Hd' & Ho & Hm & Hl) [_ Hf]. split; [done|]. split; [done|].
  rw Hd' in Hf. pose proof (like_length _ _ Hl) as Hlen. simpl in Hlen. rw length_app /= in Hlen.
  destruct (find_device D s2) as [d2|] eqn:E2.
  - exists d, d2, o. do 4 (split; [done|]). by etrans.
  - destruct Hf as [Hp _]. rw Hp /= in Hlen. lia.
Qed.

(** What the edit of one device does: nothing to any record, or one execution. *)
Definition edits (device : Id) (q : N) (m : Mutation) (s s' : State) : Prop :=
  (s_devices s' = s_devices s ∧ s_sequence_floor s' = s_sequence_floor s) ∨
  (outcome s device q = None ∧ executes device q m s s' ∧ ∀ E, E ≠ device → frame E s s').

Lemma begin_worktree_edits vt s ds device q op directory :
  Inv s → fresh_draws (s_workspaces s) ds → valid_path directory = true →
  outcome s device q = None →
  edits device q (MutWorktree op) s (begin_worktree vt s ds device q op directory).1.1.
Proof.
  intros HI Hf Hd Ho. unfold begin_worktree. destruct (negb _); [by left|].
  destruct (apply s ds device q (MutWorktree op) directory (λ _, false))
    as [[next ds1] [o|e]] eqn:Ea; [|by left].
  pose proof (apply_Inv _ _ _ _ _ _ _ _ _ _ HI Hf Hd Ea) as HI1.
  destruct (apply_effect _ _ _ _ _ _ _ _ _ _ HI Ho Ea) as [Hex Hfr].
  destruct op as [| |version template|]; try (by right).
  set (checked := set_location _ _ _ _). set (next1 := match checked with Ok _ => _ | Err _ => _ end).
  assert (Inv next1) as HI2 by (unfold next1; destruct checked; [by apply Inv_settings|done]).
  assert (∀ X, frame X next next1) as Hn by (intros X; unfold next1; by destruct checked; apply frame_same).
  set (o1 := match checked with Ok _ => _ | Err _ => _ end).
  pose proof (λ X, finish_worktree_frame X next1 device q o1 HI2) as Hfin.
  destruct (finish_worktree next1 device q o1) as [next2 [|]]; [|by left]. right. simpl in Hfin.
  assert (∀ X, frame X next (commit next2)) as Hall.
  { intros X. etrans; [apply Hn|]. etrans; [apply Hfin|]. by apply frame_same. }
  split; [done|]. split; [by eapply executes_frame|]. intros E HE. etrans; [by apply Hfr|done].
Qed.

Lemma host_inventory_fresh rt s ds :
  fresh_draws (s_workspaces s) ds →
  fresh_draws (s_workspaces (set_s_inventory (host_inventory rt s) s)) ds.
Proof.
  intros Hf. unfold fresh_draws. replace (all_ids _) with (all_ids (s_workspaces s)); [done|].
  symmetry. unfold all_ids, host_inventory, s_workspaces. simpl. unfold map_panes. rw flat_map_map.
  apply flat_map_ext_in. intros w _. unfold workspace_ids, tabs_ids. simpl. f_equal.
  rw flat_map_map. apply flat_map_ext_in. intros t _. unfold tab_ids. simpl. f_equal. by rw map_map.
Qed.

Lemma mutate_edits boot rt vt home start validate s ds device q m :
  Hosted boot s → rt_boot rt = boot → runtime_ok rt → fresh_draws (s_workspaces s) ds →
  valid_path home = true → start_ok start →
  edits device q m s (mutate rt vt home start validate s ds device q m).1.1.
Proof.
  intros HH Hrb Hrt Hf Hh Hst. pose proof HH as [HI Hb _]. unfold mutate.
  destruct (outcome s device q) eqn:Eo; [by left|].
  assert (Inv (set_s_inventory (host_inventory rt s) s)) as HIn
    by (apply inventory_Inv; [done|congruence|done]).
  assert (∀ directory : result path Refusal,
    edits device q m s (match apply (set_s_inventory (host_inventory rt s) s) ds device q m
                    (match directory with Ok d => d | Err _ => home end)
                    (λ p, is_ok directory && validate p) with
            | (_, ds, Err refusal) => (s, ds, Err refusal)
            | (next, ds, Ok _) =>
                match outcome next device q with
                | None => (s, ds, Err Refusal_Failed)
                | Some o => (commit next, ds, Ok (Answer_Outcome o))
                end
            end).1.1) as Hedit.
  { intros directory. destruct (apply _ _ _ _ _ _ _) as [[next ds1] [o|e]] eqn:Ea; [|by left].
    destruct (apply_effect _ _ _ _ _ _ _ _ _ _ HIn Eo Ea) as [Hex Hfr].
    destruct (outcome next device q); [|by left]. by right. }
  destruct m; try (destruct (negb _); [by left|]; by apply (Hedit (Ok home))).
  - by apply begin_worktree_edits.
  - destruct (negb _); [by left|]. apply Hedit.
Qed.

Lemma edits_frame D device q m s s' : D ≠ device → edits device q m s s' → frame D s s'.
Proof. intros HD [[H1 H2]|(_ & _ & H)]; [by apply frame_same|by apply H]. Qed.

Lemma finish_and_commit_frame D s next ds device q o :
  Inv next → frame D s next → frame D s (finish_and_commit s next ds device q o).1.1.
Proof.
  intros HI Hf. pose proof (finish_worktree_frame D next device q o HI) as Hw.
  unfold finish_and_commit. destruct (finish_worktree next device q o) as [n [|]]; [|done].
  simpl in *. etrans; [done|]. etrans; [done|]. by apply frame_same.
Qed.

Lemma add_worktree_tab_frame D s ds owner workspace root worktree start :
  frame D s (add_worktree_tab s ds owner workspace root worktree start).1.1.
Proof. unfold add_worktree_tab. repeat case_match; by apply frame_same. Qed.

Lemma settle_worktree_frame D rt s ds device q result :
  Inv s → fresh_draws (s_workspaces s) ds → (∀ p, result = Ok (Some p) → valid_path p = true) →
  frame D s (settle_worktree rt s ds device q result).1.1.
Proof.
  intros HI Hf Hp. unfold settle_worktree.
  destruct (outcome s device q) as [record|] eqn:Eo; [|done].
  pose proof (outcome_bounded s device q record (inv_devices _ HI) Eo) as Hbd.
  destruct result as [p|e]; [|by apply finish_and_commit_frame].
  destruct (ro_mutation record) as [|op| | | | | | | |]; try (by apply finish_and_commit_frame).
  destruct op as [workspace root op_path branch control| | |]; try (by apply finish_and_commit_frame).
  destruct p as [p|]; [|by apply finish_and_commit_frame]. simpl in Hbd.
  apply andb_true_iff in Hbd as [[Hroot _]%andb_true_iff _].
  pose proof (add_worktree_tab_frame D s ds (creator control device (host_inventory rt s)) workspace root p p) as Hfr.
  destruct (add_worktree_tab s ds _ workspace root p p) as [[next ds1] r] eqn:Ea.
  assert (Inv next) as HI1 by (eapply add_worktree_tab_Inv; [exact HI|exact Hf| | | |exact Ea]; by eauto).
  destruct r; by apply finish_and_commit_frame.
Qed.

Lemma open_prepared_frame D rt start s ds device q workspace source root p control :
  Inv s → fresh_draws (s_workspaces s) ds → start_ok start →
  valid_path root = true → valid_path p = true →
  frame D s (open_prepared rt start s ds device q workspace source root p control).1.1.
Proof.
  intros HI Hf Hst Hr Hp. unfold open_prepared.
  destruct (vfind _ _) as [w|]; [|by apply finish_and_commit_frame].
  destruct (start w source p) as [d|] eqn:Es; [|by apply finish_and_commit_frame].
  pose proof (add_worktree_tab_frame D s ds (creator control device (host_inventory rt s)) workspace root p d) as Hfr.
  destruct (add_worktree_tab s ds _ workspace root p d) as [[next ds1] r] eqn:Ea.
  assert (Inv next) as HI1 by (eapply add_worktree_tab_Inv; [exact HI|exact Hf| | | |exact Ea]; by eauto).
  destruct r; by apply finish_and_commit_frame.
Qed.

Lemma journal_frame D s s' : same_journal s s' → frame D s s'.
Proof. intros (H1 & H2 & _). by apply frame_same. Qed.

(** Closes a goal where names follow a change that leaves the records alone. *)
Ltac journal_case := first [by apply frame_same | etrans; [|apply journal_frame, recalculate_journal]; by apply frame_same].

Lemma report_pane_frame D s r : frame D s (report_pane s r).
Proof.
  assert (∀ s p, frame D s (confirm_directory s (rp_id r) p)) as Hcd.
  { intros x p. unfold confirm_directory. repeat case_match; try done; journal_case. }
  assert (∀ s p, frame D s (present_directory s (rp_id r) p)) as Hpd.
  { intros x p. unfold present_directory. repeat case_match; try done; journal_case. }
  assert (∀ s p, frame D s (present_repository_directory s (rp_id r) p)) as Hrd.
  { intros x p. unfold present_repository_directory. repeat case_match; try done; journal_case. }
  assert (frame D s (match rp_metadata r with
    | Some (directory, repository) => present_repository_directory
        (present_directory s (rp_id r) directory) (rp_id r) repository
    | None => s end)) as Hn.
  { destruct (rp_metadata r) as [[a b]|]; [|done]. etrans; [apply Hpd|apply Hrd]. }
  unfold report_pane. etrans; [exact Hn|].
  destruct (rp_identity r); [by destruct (rp_confirmed r)|].
  destruct (find_pane _ _); [|done]. apply journal_frame, remove_pane_journal.
Qed.

Lemma reports_frame D reports s : frame D s (foldl report_pane s reports).
Proof.
  revert s. induction reports as [|r rs IH]; intros s; [done|]. cbn [foldl].
  etrans; [apply report_pane_frame|apply IH].
Qed.

Lemma synchronize_frame D s reports snapshot snapshots :
  frame D s (synchronize s reports snapshot snapshots).
Proof.
  unfold synchronize. etrans; [apply (reports_frame D reports)|].
  assert (frame D (foldl report_pane s reports)
            (commit (reconcile_membership snapshot (foldl report_pane s reports)).1)) as H1.
  { unfold reconcile_membership. simpl. destruct (vany _ _); by apply frame_same. }
  etrans; [exact H1|]. clear H1. generalize (commit (reconcile_membership snapshot (foldl report_pane s reports)).1).
  induction snapshots as [|[id o] l IH]; intros x; [done|]. cbn [foldl].
  etrans; [|apply IH]. by apply frame_same.
Qed.

Lemma repair_directory_frame D s id d next :
  repair_directory s id d = (next, Ok tt) → frame D s next.
Proof.
  unfold repair_directory. destruct (find_pane _ _); [|done].
  destruct (u64_checked_add _ _); [|done]. intros [= <-].
  match goal with |- frame D s (set_s_revision _ (recalculate_names ?x)) => set (y := x) end.
  destruct (recalculate_journal y) as (H1 & H2 & _). by apply frame_same.
Qed.

(** A step of the server that is not an edit, an acknowledgement or the
    revocation of [D]. *)
Inductive other_step (D boot : Id) (s : State) : State → Prop :=
  | other_mutate rt vt home start validate ds device q m :
      device ≠ D → rt_boot rt = boot → runtime_ok rt → start_ok start → valid_path home = true →
      fresh_draws (s_workspaces s) ds →
      other_step D boot s (mutate rt vt home start validate s ds device q m).1.1
  | other_settle rt ds device q result :
      fresh_draws (s_workspaces s) ds → (∀ p, result = Ok (Some p) → valid_path p = true) →
      other_step D boot s (settle_worktree rt s ds device q result).1.1
  | other_open rt start ds device q workspace source root p control :
      fresh_draws (s_workspaces s) ds → start_ok start →
      valid_path root = true → valid_path p = true →
      other_step D boot s
        (open_prepared rt start s ds device q workspace source root p control).1.1
  | other_retire device q :
      device ≠ D → other_step D boot s (retire_outcome s device q).1
  | other_revoke client :
      client ≠ D → other_step D boot s (release_creator client (host_forget s client))
  | other_repair id d next :
      valid_path d = true → repair_directory s id d = (next, Ok tt) →
      other_step D boot s (commit next)
  | other_synchronize reports snapshot snapshots :
      Forall report_ok reports → snapshot_ok snapshot → Forall (λ x, presentation_ok x.2) snapshots →
      other_step D boot s (synchronize s reports snapshot snapshots).

Lemma other_step_frame D boot s s' : Hosted boot s → other_step D boot s s' → frame D s s'.
Proof.
  intros HH. pose proof HH as [HI _ _].
  destruct 1 as [rt vt home start validate ds device q m|rt ds device q result
    |rt start ds device q workspace source root p control|device q|client|id d next Hd Hr|].
  - eapply edits_frame; [|by eapply mutate_edits]. congruence.
  - by apply settle_worktree_frame.
  - by apply open_prepared_frame.
  - unfold retire_outcome. destruct (acknowledge s device q) as [n [[]|]] eqn:Ea; [|done].
    destruct (acknowledge_effect _ _ _ _ HI Ea) as [_ Hfr]. etrans; [apply Hfr; congruence|].
    by apply frame_same.
  - pose proof (forget_frame D s client) as Hfr. unfold host_forget.
    destruct (forget s client) as [n []]; [|by apply frame_same].
    etrans; [apply Hfr; congruence|]. by apply frame_same.
  - etrans; [by eapply repair_directory_frame|]. by apply frame_same.
  - apply synchronize_frame.
Qed.

Lemma other_step_Hosted D boot s s' : Hosted boot s → other_step D boot s s' → Hosted boot s'.
Proof.
  intros HH Hs.
  assert (Serving {| sv_boot := boot; sv_state := s; sv_records := [] |}) as HS by (by split).
  assert (server_step {| sv_boot := boot; sv_state := s; sv_records := [] |}
            (keeps_state {| sv_boot := boot; sv_state := s; sv_records := [] |} s')) as Hst.
  { destruct Hs; [eapply step_mutate|eapply step_settle|eapply step_open|eapply step_retire
      |eapply step_revoke|eapply step_repair|eapply step_synchronize]; done. }
  apply (sg_state _ (server_step_Serving _ _ HS Hst)).
Qed.
