(* ===== verification/Delivery.v ===== *)
(** * A client, its link and its server

    One client [D] with its journal, a link that delays, repeats and loses
    requests, a server whose other clients go on working, the record on the
    server's disk, and crashes of the server. The client follows
    [src/terminal/workspace_client.rs]: an edit is journaled with the sequence
    last advertised, dispatched, dispatched again after a lost link, retired with
    the recorded outcome once that is on disk, and acknowledged afterwards. The
    command line's [Resolve] and [abandon] follow
    [crates/spaceterm-cli/src/journal.rs]. *)
From S2P Require Import Prelude.
From S2P Require Import Text.
From S2P Require Import Facts.
From S2P Require Import HierarchyTypes.
From S2P Require Import HierarchyWorkspace.
From S2P Require Import HierarchyState.
From S2P Require Import HierarchyValidate.
From S2P Require Import Host.
From S2P Require Import NamesProofs.
From S2P Require Import ForestInv.
From S2P Require Import Forest.
From S2P Require Import HierarchyInv.
From S2P Require Import ValidateProofs.
From S2P Require Import TreeOps.
From S2P Require Import EditOps.
From S2P Require Import DeviceOps.
From S2P Require Import HostProofs.
From S2P Require Import JournalTheorems.
From S2P Require Import DeviceFrame.
From S2P Require Import ClientJournal.
From S2P Require Import Demo.
From S2P Require Import EditTheorems.
From S2P Require Import ServerTheorems.

(** Submissions are numbered; [dl_executed] and [dl_kept] record which of them
    the server's state and the record on disk have executed, [dl_retired] which
    the client retired. *)
Record Delivery := {
  dl_boot : Id;
  dl_server : State;
  dl_executed : list nat;
  dl_disk : State;
  dl_kept : list nat;
  dl_journal : JournalRecord;
  dl_token : nat;
  dl_wire : list (nat * ClientOperation);
  dl_advertised : N;
  dl_retired : list nat
}.

Section delivery.
Context (D : Id).
Implicit Types (x : Delivery) (s : State).

(** A client that has submitted nothing, and a server at rest. *)
Definition dl_start (boot core : Id) s : Delivery :=
  {| dl_boot := boot; dl_server := s; dl_executed := []; dl_disk := envelope s; dl_kept := [];
     dl_journal := fresh_record core D; dl_token := 0; dl_wire := [];
     dl_advertised := next_sequence s D; dl_retired := [] |}.

(** The server's side changes. *)
Definition with_server (boot : Id) s (executed : list nat) x : Delivery :=
  {| dl_boot := boot; dl_server := s; dl_executed := executed; dl_disk := dl_disk x;
     dl_kept := dl_kept x; dl_journal := dl_journal x; dl_token := dl_token x;
     dl_wire := dl_wire x; dl_advertised := dl_advertised x; dl_retired := dl_retired x |}.
(** The client's side changes. *)
Definition with_client (r : JournalRecord) (token : nat) (advertised : N) (retired : list nat) x
    : Delivery :=
  {| dl_boot := dl_boot x; dl_server := dl_server x; dl_executed := dl_executed x;
     dl_disk := dl_disk x; dl_kept := dl_kept x; dl_journal := r; dl_token := token;
     dl_wire := dl_wire x; dl_advertised := advertised; dl_retired := retired |}.
Definition with_wire (wire : list (nat * ClientOperation)) x : Delivery :=
  {| dl_boot := dl_boot x; dl_server := dl_server x; dl_executed := dl_executed x;
     dl_disk := dl_disk x; dl_kept := dl_kept x; dl_journal := dl_journal x;
     dl_token := dl_token x; dl_wire := wire; dl_advertised := dl_advertised x;
     dl_retired := dl_retired x |}.

(** The submissions executed once the server went from [s] to [s']. *)
Definition note_executed (q : N) (t : nat) s s' (executed : list nat) : list nat :=
  match outcome s D q, outcome s' D q with
  | None, Some _ => t :: executed
  | _, _ => executed
  end.

Inductive dl_step x : Delivery → Prop :=
  | dl_submit m r :
      op_record (Op_submit (dl_advertised x) m) (dl_journal x) = Ok r →
      dl_step x (with_client r (S (dl_token x)) (dl_advertised x) (dl_retired x) x)
  | dl_dispatch op :
      jr_pending (dl_journal x) = Some op →
      dl_step x (with_wire ((dl_token x, op) :: dl_wire x) x)
  | dl_lose wire :
      wire ⊆ dl_wire x → dl_step x (with_wire wire x)
  | dl_deliver t op rt vt home start validate ds :
      (t, op) ∈ dl_wire x →
      rt_boot rt = dl_boot x → runtime_ok rt → start_ok start → valid_path home = true →
      fresh_draws (s_workspaces (dl_server x)) ds →
      dl_step x (let s' := (mutate rt vt home start validate (dl_server x) ds D (co_sequence op)
                              (co_mutation op)).1.1 in
                 with_server (dl_boot x) s'
                   (note_executed (co_sequence op) t (dl_server x) s' (dl_executed x)) x)
  | dl_retire op o r :
      jr_pending (dl_journal x) = Some op →
      outcome (dl_disk x) D (co_sequence op) = Some o → ro_outcome o ≠ Pending →
      op_record (Op_retire o) (dl_journal x) = Ok r →
      dl_step x (with_client r (dl_token x) (next_sequence (dl_disk x) D)
                   (dl_token x :: dl_retired x) x)
  | dl_publish :
      jr_pending (dl_journal x) = None →
      dl_step x (with_client (dl_journal x) (dl_token x) (next_sequence (dl_disk x) D)
                   (dl_retired x) x)
  | dl_acknowledge o q :
      jr_last (dl_journal x) = Some o → (q ≤ ro_sequence o)%N →
      dl_step x (with_server (dl_boot x) (retire_outcome (dl_server x) D q).1 (dl_executed x) x)
  | dl_abandon op r :
      jr_pending (dl_journal x) = Some op → outcome (dl_server x) D (co_sequence op) = None →
      (∀ op', (dl_token x, op') ∉ dl_wire x) → op_record Op_abandon (dl_journal x) = Ok r →
      dl_step x (with_client r (dl_token x) (dl_advertised x) (dl_retired x) x)
  | dl_present op r :
      (∃ q, op = Op_settled q) ∨ (∃ q, op = Op_presented q) ∨ (∃ n, op = Op_forgotten n) →
      op_record op (dl_journal x) = Ok r →
      dl_step x (with_client r (dl_token x) (dl_advertised x) (dl_retired x) x)
  | dl_other s' :
      other_step D (dl_boot x) (dl_server x) s' →
      (** The record of [D] is replaced only once no request of a settled
          operation is still in flight. *)
      (find_device D (dl_server x) ≠ None → find_device D s' = None →
       ∀ t op, (t, op) ∈ dl_wire x → t = dl_token x ∧ jr_pending (dl_journal x) = Some op) →
      dl_step x (with_server (dl_boot x) s' (dl_executed x) x)
  | dl_persist :
      dl_step x {| dl_boot := dl_boot x; dl_server := dl_server x; dl_executed := dl_executed x;
                   dl_disk := envelope (dl_server x); dl_kept := dl_executed x;
                   dl_journal := dl_journal x; dl_token := dl_token x; dl_wire := dl_wire x;
                   dl_advertised := dl_advertised x; dl_retired := dl_retired x |}
  | dl_restart boot :
      dl_step x (with_server boot (restore_organization boot (Some (dl_disk x))) (dl_kept x) x).

(** ** How far a device's sequence has come *)

Definition reach s : N :=
  match find_device D s with
  | Some d => d_retired d + N.of_nat (length (d_pending d))
  | None => s_sequence_floor s
  end.

Lemma Inv_device s d : Inv s → find_device D s = Some d → device_ok d.
Proof.
  intros [_ [_ Hok _ _ _] _ _] [Hin _]%find_device_elem. rw Forall_forall in Hok. auto.
Qed.

Lemma expected_iff s q :
  Inv s →
  expected_sequence s D q = true ↔
  match find_device D s with
  | Some d => q = (reach s + 1)%N
  | None => (1 ≤ q ≤ reach s + 1)%N
  end.
Proof.
  intros HI. unfold expected_sequence, reach. rw vany_find. fold (find_device D s).
  destruct (find_device D s) as [d|] eqn:Ef.
  - rw bool_decide_eq_true_2 // bool_decide_eq_true (next_sequence_found _ _ _ Ef (Inv_device _ _ HI Ef)).
    unfold next_of. lia.
  - rw bool_decide_eq_false_2; [by intros [? ?]|].
    rw andb_true_iff !N.leb_le next_sequence_unknown //. apply HI.
Qed.

Lemma next_reach s : Inv s → next_sequence s D = (reach s + 1)%N.
Proof.
  intros HI. unfold reach. destruct (find_device D s) as [d|] eqn:Ef.
  - rw (next_sequence_found _ _ _ Ef (Inv_device _ _ HI Ef)). unfold next_of. lia.
  - rw next_sequence_unknown //. apply HI.
Qed.

Lemma next_expected s : Inv s → expected_sequence s D (next_sequence s D) = true.
Proof. intros HI. apply expected_iff; [done|]. rw next_reach //. destruct (find_device D s); lia. Qed.

Lemma outcome_reach s q o :
  Inv s → outcome s D q = Some o → find_device D s ≠ None ∧ (q ≤ reach s)%N.
Proof.
  intros HI. unfold outcome, reach. destruct (find_device D s) as [d|] eqn:Ef; [|done].
  intros [Hs%bool_decide_eq_true Hin]%vfind_Some. split; [done|].
  pose proof (pending_below d o (Inv_device _ _ HI Ef) Hin). unfold next_of in *. lia.
Qed.

Lemma expected_unrecorded s q : Inv s → expected_sequence s D q = true → outcome s D q = None.
Proof.
  intros HI He%expected_iff; [|done]. destruct (outcome s D q) eqn:Eo; [|done].
  destruct (outcome_reach _ _ _ HI Eo). destruct (find_device D s); [lia|done].
Qed.

Lemma frame_expected s s' q :
  Inv s → Inv s' → frame D s s' → expected_sequence s D q = true → expected_sequence s' D q = true.
Proof.
  intros HI HI' [Hfl Hf]. rw !expected_iff //. unfold reach.
  destruct (find_device D s) as [d|], (find_device D s') as [d'|]; try done.
  - pose proof (like_length _ _ Hf) as ->. destruct Hf as (_ & -> & _). done.
  - destruct Hf as [-> Hr]. simpl. lia.
  - lia.
Qed.

Lemma frame_reach s s' n : frame D s s' → (n ≤ reach s)%N → (n ≤ reach s')%N.
Proof.
  intros [Hfl Hf]. unfold reach.
  destruct (find_device D s) as [d|], (find_device D s') as [d'|]; try done; [| |lia].
  - pose proof (like_length _ _ Hf) as ->. by destruct Hf as (_ & -> & _).
  - destruct Hf as [-> Hr]. simpl. lia.
Qed.

Lemma frame_outcome s s' q o :
  frame D s s' → outcome s D q = Some o →
  ∃ o', outcome s' D q = Some o' ∧ ro_mutation o' = ro_mutation o.
Proof.
  intros [_ Hf] Ho. unfold outcome in *.
  destruct (find_device D s) as [d|], (find_device D s') as [d'|]; try done.
  - destruct (like_found _ _ _ _ Hf Ho) as (o' & Ho' & _ & Hm). eauto.
  - destruct Hf as [Hp _]. by rw Hp in Ho.
Qed.

Lemma acknowledges_reach s s' q : acknowledges D q s s' → reach s' = reach s ∧
  (find_device D s' = None ↔ find_device D s = None).
Proof.
  intros [Hfl Ha]. unfold reach. destruct (find_device D s) as [d|], (find_device D s') as [d'|]; try done.
  destruct Ha as (k & Hk & -> & -> & _). rw length_drop. split; [lia|done].
Qed.

Lemma acknowledges_expected s s' q q' :
  Inv s → Inv s' → acknowledges D q s s' →
  expected_sequence s D q' = true → expected_sequence s' D q' = true.
Proof.
  intros HI HI' Ha. destruct (acknowledges_reach _ _ _ Ha) as [Hr Hn]. rw !expected_iff // Hr.
  destruct (find_device D s), (find_device D s'); try done; destruct Hn; naive_solver.
Qed.

Lemma acknowledges_outcome s s' q q' o :
  acknowledges D q s s' → (q < q')%N → outcome s D q' = Some o → outcome s' D q' = Some o.
Proof.
  intros [_ Ha] Hq Ho. unfold outcome in *.
  destruct (find_device D s) as [d|], (find_device D s') as [d'|]; try done.
  destruct Ha as (k & _ & _ & _ & Hf). unfold has_sequence in Hf. by rw Hf.
Qed.

Lemma executes_outcome s s' q m :
  Inv s → Inv s' → executes D q m s s' →
  (∃ o, outcome s' D q = Some o ∧ ro_mutation o = m) ∧ reach s' = q ∧
  (find_device D s ≠ None → q = (reach s + 1)%N).
Proof.
  intros HI HI' (He & Hq & d & d' & o & Hd & Hd' & Ho & Hm & Hl).
  apply expected_iff in He; [|done].
  assert (q = next_of d ∧ device_ok d) as [Hn Hok].
  { unfold next_of. destruct Hd as [Hd|[Hd ->]].
    - rw Hd in He. unfold reach in He. rw Hd in He. split; [lia|exact (Inv_device _ _ HI Hd)].
    - rw Hd in He. unfold reach in He. rw Hd in He. simpl. split; [lia|].
      pose proof (dv_floor _ _ (inv_devices _ HI)). split; [simpl; lia|]. by intros i x. }
  split; [|split].
  - pose proof (push_outcome_found d o Hok) as Hf. rw Ho in Hf. specialize (Hf Hn).
    destruct (like_found _ _ _ _ Hl Hf) as (o' & Ho' & _ & Hm'). exists o'. split; [|congruence].
    unfold outcome. by rw Hd'.
  - unfold reach. rw Hd'. pose proof (like_length _ _ Hl) as ->. destruct Hl as (_ & -> & _).
    unfold next_of in Hn. simpl. rw length_app /=. lia.
  - intros Hne. destruct (find_device D s); [done|done].
Qed.

(** ** The invariant *)

(** Whether the request [(t, op)] belongs to the pending operation. *)
Definition current x (t : nat) (op : ClientOperation) : Prop :=
  t = dl_token x ∧ jr_pending (dl_journal x) = Some op.

(** What the client and one state of the server agree on; [ex] are the
    submissions that state has executed. *)
Record Agrees x s (ex : list nat) : Prop := {
  ag_inv : Inv s;
  ag_once : NoDup ex;
  ag_tokens : ∀ t, t ∈ ex → t ≤ dl_token x;
  ag_last : ∀ o, jr_last (dl_journal x) = Some o → (ro_sequence o ≤ reach s)%N;
  ag_idle : jr_pending (dl_journal x) = None →
    expected_sequence s D (dl_advertised x) = true ∧
    ∀ o, jr_last (dl_journal x) = Some o → (ro_sequence o < dl_advertised x)%N;
  ag_pending : ∀ op, jr_pending (dl_journal x) = Some op →
    (∀ o, jr_last (dl_journal x) = Some o → (ro_sequence o < co_sequence op)%N) ∧
    dl_advertised x = co_sequence op ∧
    (dl_token x ∈ ex →
       ∃ o, outcome s D (co_sequence op) = Some o ∧ ro_mutation o = co_mutation op) ∧
    (dl_token x ∉ ex → expected_sequence s D (co_sequence op) = true);
  ag_wire : ∀ t op, (t, op) ∈ dl_wire x →
    current x t op ∨ (find_device D s ≠ None ∧ (co_sequence op ≤ reach s)%N)
}.

(** Everything the state says to [D] survives a framed change of it. *)
Lemma Agrees_frame x s s' ex :
  Agrees x s ex → Inv s' → frame D s s' →
  (find_device D s ≠ None → find_device D s' = None → ∀ t op, (t, op) ∈ dl_wire x → current x t op) →
  Agrees x s' ex.
Proof.
  intros [A1 A2 A3 A4 A5 A6 A7] HI Hf Hw. split; try done.
  - intros o Ho. eapply frame_reach; [exact Hf|auto].
  - intros Hp. destruct (A5 Hp). split; [|done]. by apply (frame_expected s).
  - intros op Hop. destruct (A6 op Hop) as (P1 & P2 & P3 & P4). split; [done|]. split; [done|]. split.
    + intros Ht. destruct (P3 Ht) as (o & Ho & Hm).
      destruct (frame_outcome _ _ _ _ Hf Ho) as (o' & ? & ?). exists o'. split; [done|congruence].
    + intros Ht. eapply (frame_expected s); auto.
  - intros t op Hin. destruct (A7 t op Hin) as [|[Hd Hr]]; [by left|].
    destruct (find_device D s') eqn:E; [|left; by apply Hw]. right. split; [done|].
    by eapply frame_reach.
Qed.

Lemma Agrees_same x s s' ex :
  Agrees x s ex → Inv s' → s_devices s' = s_devices s → s_sequence_floor s' = s_sequence_floor s →
  Agrees x s' ex.
Proof.
  intros HA HI Hd Hf. eapply Agrees_frame; [exact HA|done|by apply frame_same|].
  unfold find_device. rw Hd. done.
Qed.

Lemma Agrees_acknowledge x s s' ex o q :
  Agrees x s ex → Inv s' → acknowledges D q s s' →
  jr_last (dl_journal x) = Some o → (q ≤ ro_sequence o)%N → Agrees x s' ex.
Proof.
  intros [A1 A2 A3 A4 A5 A6 A7] HI Ha Ho Hq. destruct (acknowledges_reach _ _ _ Ha) as [Hr Hn].
  pose proof (acknowledges_expected s s' q) as He.
  split; try done.
  - intros o' Ho'. rw Hr. auto.
  - intros Hp. destruct (A5 Hp). auto.
  - intros op Hop. destruct (A6 op Hop) as (P1 & P2 & P3 & P4). split; [done|]. split; [done|].
    split; [|auto]. intros Ht. destruct (P3 Ht) as (o' & Ho' & Hm). exists o'. split; [|done].
    eapply acknowledges_outcome; [exact Ha| |done]. pose proof (P1 o Ho). lia.
  - intros t op Hin. rw Hr. destruct (A7 t op Hin) as [|[? ?]]; [by left|right]. tauto.
Qed.

(** The execution of the pending operation. *)
Lemma Agrees_execute x s s' ex op :
  Agrees x s ex → Inv s' → jr_pending (dl_journal x) = Some op → dl_token x ∉ ex →
  executes D (co_sequence op) (co_mutation op) s s' → Agrees x s' (dl_token x :: ex).
Proof.
  intros [A1 A2 A3 A4 A5 A6 A7] HI Hp Ht Hex. destruct (A6 op Hp) as (P1 & P2 & P3 & P4).
  destruct (executes_outcome _ _ _ _ A1 HI Hex) as ((o & Ho & Hm) & Hr & Hq).
  split; try done.
  - by constructor.
  - intros t [->|Hin]%elem_of_cons; auto.
  - intros o' Ho'. rw Hr. pose proof (P1 o' Ho'). lia.
  - congruence.
  - intros op' Hop'. rw Hp in Hop'. injection Hop' as <-. split; [done|]. split; [done|].
    split; [eauto|]. intros Hn. destruct Hn. by left.
  - intros t op' Hin. destruct (A7 t op' Hin) as [|[Hd Hle]]; [by left|right].
    rw Hr (Hq Hd). split; [|lia]. by destruct (outcome_reach _ _ _ HI Ho).
Qed.

(** ** Preservation *)

(** What [s'] keeps admitting of what [s] admits. *)
Definition admits s s' : Prop :=
  ∀ q, expected_sequence s D q = true → expected_sequence s' D q = true.

Record Delivered x : Prop := {
  de_hosted : Hosted (dl_boot x) (dl_server x);
  de_server : Agrees x (dl_server x) (dl_executed x);
  de_disk : Agrees x (dl_disk x) (dl_kept x);
  de_record : i_close (s_inventory (dl_disk x)) = None;
  de_ahead : ∃ l, dl_executed x = l ++ dl_kept x ∧
    (∀ t, t ∈ l → jr_pending (dl_journal x) ≠ None ∧ t = dl_token x) ∧
    (l = [] → admits (dl_disk x) (dl_server x));
  de_retired : ∀ t, t ∈ dl_retired x → t ∈ dl_kept x
}.

(** A change of the server's state that executes nothing. *)
Lemma Delivered_server x s' :
  Delivered x → Hosted (dl_boot x) s' → Agrees x s' (dl_executed x) → admits (dl_server x) s' →
  Delivered (with_server (dl_boot x) s' (dl_executed x) x).
Proof.
  intros [H1 H2 H3 H4 (l & Hl & Ht & Hd) H6] HH HA Had. split; try done.
  - by destruct HA; split.
  - by destruct H3; split.
  - exists l. split; [done|]. split; [done|]. intros Hnil q Hq. by apply Had, Hd.
Qed.

Lemma Delivered_executed x op s' :
  Delivered x → Hosted (dl_boot x) s' → jr_pending (dl_journal x) = Some op →
  dl_token x ∉ dl_executed x → executes D (co_sequence op) (co_mutation op) (dl_server x) s' →
  Delivered (with_server (dl_boot x) s' (dl_token x :: dl_executed x) x).
Proof.
  intros [H1 H2 H3 H4 (l & Hl & Ht & Hd) H6] HH Hp Hn Hex. split; try done.
  - assert (Agrees x s' (dl_token x :: dl_executed x)) as HA
      by (eapply Agrees_execute; eauto; apply HH). by destruct HA; split.
  - by destruct H3; split.
  - exists (dl_token x :: l). simpl. rw Hl. split; [done|]. split; [|done].
    intros t [->|Hin]%elem_of_cons; [|auto]. by rw Hp.
Qed.

Lemma Delivered_deliver x t op s' :
  Delivered x → (t, op) ∈ dl_wire x → Hosted (dl_boot x) s' →
  edits D (co_sequence op) (co_mutation op) (dl_server x) s' →
  Delivered (with_server (dl_boot x) s'
    (note_executed (co_sequence op) t (dl_server x) s' (dl_executed x)) x).
Proof.
  intros HD Hin HH He. pose proof HD as [H1 H2 H3 H4 H5 H6]. pose proof (ho_inv _ _ HH) as HI.
  destruct He as [[Hdev Hfl]|(Hnone & Hex & _)].
  - assert (note_executed (co_sequence op) t (dl_server x) s' (dl_executed x) = dl_executed x) as ->.
    { assert (outcome s' D (co_sequence op) = outcome (dl_server x) D (co_sequence op)) as Ho
        by (unfold outcome, find_device; by rw Hdev).
      unfold note_executed. rw Ho. by destruct (outcome (dl_server x) D (co_sequence op)). }
    apply Delivered_server; [done|done|by apply (Agrees_same x (dl_server x))|].
    intros q. apply frame_expected; [apply H2|done|by apply frame_same].
  - destruct (executes_outcome _ _ _ _ (ag_inv _ _ _ H2) HI Hex) as ((o & Ho & Hm) & Hr & Hq).
    unfold note_executed. rw Hnone Ho.
    destruct (ag_wire _ _ _ H2 t op Hin) as [[-> Hp]|[Hd Hle]]; [|pose proof (Hq Hd); lia].
    apply (Delivered_executed x op); try done. intros Hex'.
    destruct (ag_pending _ _ _ H2 op Hp) as (_ & _ & P3 & _). destruct (P3 Hex') as (o' & Ho' & _).
    congruence.
Qed.

Lemma Agrees_submit x s ex m r :
  Agrees x s ex → op_record (Op_submit (dl_advertised x) m) (dl_journal x) = Ok r →
  Agrees (with_client r (S (dl_token x)) (dl_advertised x) (dl_retired x) x) s ex.
Proof.
  intros [A1 A2 A3 A4 A5 A6 A7] Hr. simpl in Hr.
  destruct (jr_pending (dl_journal x)) eqn:Ep; [done|]. injection Hr as <-.
  destruct (A5 eq_refl) as [He Hl].
  split; try done; simpl.
  - intros t Ht. specialize (A3 t Ht). lia.
  - intros op [= <-]. simpl. split; [done|]. split; [done|]. split; [|done].
    intros Ht. specialize (A3 _ Ht). lia.
  - intros t op Hin. destruct (A7 t op Hin) as [[_ Hc]|?]; [congruence|by right].
Qed.

Lemma Agrees_wire x s ex wire :
  Agrees x s ex →
  (∀ t op, (t, op) ∈ wire → (t, op) ∈ dl_wire x ∨ current x t op) →
  Agrees (with_wire wire x) s ex.
Proof.
  intros [A1 A2 A3 A4 A5 A6 A7] Hw. split; try done. simpl. intros t op Hin.
  destruct (Hw t op Hin) as [H|H]; [by apply A7|by left].
Qed.

(** The pending operation leaves the journal with its outcome [o] recorded. *)
Lemma Agrees_retire x s ex op o o' r adv retired :
  Agrees x s ex → jr_pending (dl_journal x) = Some op → dl_token x ∈ ex →
  outcome s D (co_sequence op) = Some o' → ro_sequence o = co_sequence op →
  jr_pending r = None → jr_last r = Some o →
  expected_sequence s D adv = true → (co_sequence op < adv)%N →
  Agrees (with_client r (dl_token x) adv retired x) s ex.
Proof.
  intros [A1 A2 A3 A4 A5 A6 A7] Hp Ht Ho Hs Hrp Hrl He Hadv.
  destruct (outcome_reach _ _ _ A1 Ho) as [Hd Hr].
  split; try done; simpl.
  - rw Hrl. intros ? [= <-]. by rw Hs.
  - intros _. split; [done|]. rw Hrl. intros ? [= <-]. by rw Hs.
  - by rw Hrp.
  - intros t op' Hin. right. destruct (A7 t op' Hin) as [[_ Hc]|?]; [|done].
    rw Hp in Hc. by injection Hc as <-.
Qed.

(** The journal changes, the pending operation and the last outcome do not, or
    the last outcome is forgotten. *)
Lemma Agrees_present x s ex r :
  Agrees x s ex → jr_pending r = jr_pending (dl_journal x) →
  (∀ o, jr_last r = Some o → jr_last (dl_journal x) = Some o) →
  Agrees (with_client r (dl_token x) (dl_advertised x) (dl_retired x) x) s ex.
Proof.
  intros [A1 A2 A3 A4 A5 A6 A7] Hp Hl. split; unfold current in *; simpl; rw ?Hp; try done.
  - intros o Ho. auto.
  - intros Hn. destruct (A5 Hn). auto.
  - intros op Hop. destruct (A6 op Hop) as (? & ? & ?). auto.
Qed.

Lemma op_retire_record o r r' :
  op_record (Op_retire o) r = Ok r' →
  (∃ op, jr_pending r = Some op ∧ answers op o = true) ∧ jr_pending r' = None ∧ jr_last r' = Some o.
Proof.
  simpl. destruct (jr_pending r) as [op|]; [|done]. destruct (answers op o) eqn:E; [|done].
  intros [= <-]. simpl. eauto.
Qed.

Lemma Delivered_retire x op o r :
  Delivered x → jr_pending (dl_journal x) = Some op →
  outcome (dl_disk x) D (co_sequence op) = Some o → op_record (Op_retire o) (dl_journal x) = Ok r →
  Delivered (with_client r (dl_token x) (next_sequence (dl_disk x) D) (dl_token x :: dl_retired x) x).
Proof.
  intros [H1 H2 H3 H4 (l & Hl & Ht & Hd) H6] Hp Ho Hr.
  destruct (op_retire_record _ _ _ Hr) as ((op' & Hp' & Ha) & Hrp & Hrl).
  rw Hp in Hp'. injection Hp' as <-. unfold answers in Ha.
  apply andb_true_iff in Ha as [Hs%bool_decide_eq_true _].
  pose proof (ag_inv _ _ _ H3) as HI. pose proof (next_expected _ HI) as Hne.
  assert (dl_token x ∈ dl_kept x) as Hk.
  { destruct (decide (dl_token x ∈ dl_kept x)) as [|Hn]; [done|].
    destruct (ag_pending _ _ _ H3 op Hp) as (_ & _ & _ & P4).
    rw (expected_unrecorded _ _ HI (P4 Hn)) in Ho. done. }
  assert (l = []) as ->.
  { destruct l as [|t l]; [done|]. destruct (Ht t) as [_ ->]; [by left|].
    pose proof (ag_once _ _ _ H2) as Hnd. rw Hl in Hnd. apply NoDup_app in Hnd as (_ & Hnd & _).
    destruct (Hnd (dl_token x)); [by left|done]. }
  assert (dl_token x ∈ dl_executed x) as Hx by (rw Hl; done).
  assert (co_sequence op < next_sequence (dl_disk x) D)%N as Hlt.
  { rw next_reach //. destruct (outcome_reach _ _ _ HI Ho). lia. }
  destruct (ag_pending _ _ _ H2 op Hp) as (_ & _ & P3 & _). destruct (P3 Hx) as (o2 & Ho2 & _).
  split; try done.
  - eapply Agrees_retire; eauto. by apply (Hd eq_refl).
  - eapply Agrees_retire; eauto.
  - exists []. split; [done|]. split; [by intros t ?%elem_of_nil|done].
  - simpl. intros t [->|Hin]%elem_of_cons; auto.
Qed.

Lemma Delivered_idle x r adv :
  Delivered x → jr_pending r = None → jr_last r = jr_last (dl_journal x) →
  dl_token x ∉ dl_executed x ∨ jr_pending (dl_journal x) = None →
  expected_sequence (dl_disk x) D adv = true → expected_sequence (dl_server x) D adv = true →
  (∀ o, jr_last r = Some o → (ro_sequence o < adv)%N) →
  (∀ t op, (t, op) ∈ dl_wire x → ¬ current x t op) →
  Delivered (with_client r (dl_token x) adv (dl_retired x) x).
Proof.
  intros [H1 H2 H3 H4 (l & Hl & Ht & Hd) H6] Hp Hlast Hn E1 E2 Hlt Hw.
  assert (∀ s ex, Agrees x s ex → expected_sequence s D adv = true →
    Agrees (with_client r (dl_token x) adv (dl_retired x) x) s ex) as Hall.
  { intros s ex [A1 A2 A3 A4 A5 A6 A7] He. split; simpl; rw ?Hp ?Hlast in Hlt |- *; try done.
    intros t op Hin. right. destruct (A7 t op Hin) as [Hc|?]; [by destruct (Hw t op Hin)|done]. }
  split; try (by auto).
  exists l. split; [done|]. split; [|done]. intros t Hin. exfalso. destruct (Ht t Hin) as [Hpn ->].
  destruct Hn as [Hn|Hn]; [|done]. apply Hn. rw Hl elem_of_app. by left.
Qed.

Lemma Delivered_persist x :
  Delivered x →
  Delivered {| dl_boot := dl_boot x; dl_server := dl_server x; dl_executed := dl_executed x;
               dl_disk := envelope (dl_server x); dl_kept := dl_executed x;
               dl_journal := dl_journal x; dl_token := dl_token x; dl_wire := dl_wire x;
               dl_advertised := dl_advertised x; dl_retired := dl_retired x |}.
Proof.
  intros [H1 H2 H3 H4 (l & Hl & Ht & Hd) H6].
  assert (Inv (envelope (dl_server x))) as HI by apply envelope_Inv, H1.
  split; simpl; try done.
  - by destruct H2; split.
  - assert (Agrees x (envelope (dl_server x)) (dl_executed x)) as HA
      by (by apply (Agrees_same x (dl_server x))). by destruct HA; split.
  - exists []. split; [done|]. split; [by intros t ?%elem_of_nil|].
    intros _ q. apply (frame_expected (envelope (dl_server x))); [done|apply H1|by apply frame_same].
  - intros t Hin. rw Hl elem_of_app. right. auto.
Qed.

Lemma Delivered_restart x boot :
  Delivered x →
  Delivered (with_server boot (restore_organization boot (Some (dl_disk x))) (dl_kept x) x).
Proof.
  intros [H1 H2 H3 H4 (l & Hl & Ht & Hd) H6].
  assert (Hosted boot (restore_organization boot (Some (dl_disk x)))) as HH.
  { apply restore_Hosted. intros s [= <-]. split; [apply H3|done]. }
  assert (s_devices (restore_organization boot (Some (dl_disk x))) = s_devices (dl_disk x) ∧
          s_sequence_floor (restore_organization boot (Some (dl_disk x))) = s_sequence_floor (dl_disk x))
    as [Ed Ef] by (unfold restore_organization, begin_boot; by case_bool).
  split; simpl; try done.
  - assert (Agrees x (restore_organization boot (Some (dl_disk x))) (dl_kept x)) as HA
      by (apply (Agrees_same x (dl_disk x)); [done|apply HH|done|done]). by destruct HA; split.
  - by destruct H3; split.
  - exists []. split; [done|]. split; [by intros t ?%elem_of_nil|].
    intros _ q. apply (frame_expected (dl_disk x)); [apply H3|apply HH|by apply frame_same].
Qed.

(** Presenting outcomes leaves the pending operation and invents no outcome. *)
Lemma present_record op j r :
  (∃ q, op = Op_settled q) ∨ (∃ q, op = Op_presented q) ∨ (∃ n, op = Op_forgotten n) →
  op_record op j = Ok r →
  jr_pending r = jr_pending j ∧ ∀ o, jr_last r = Some o → jr_last j = Some o.
Proof.
  intros [[q ->]|[[q ->]|[n ->]]] Hr; simpl in Hr; [|by injection Hr as <-..].
  destruct (jr_last j) eqn:E; [|injection Hr as <-; by rw E].
  revert Hr. case_bool; intros [= <-]; simpl; [done|by rw E].
Qed.

Lemma Delivered_acknowledge x o q :
  Delivered x → jr_last (dl_journal x) = Some o → (q ≤ ro_sequence o)%N →
  Delivered (with_server (dl_boot x) (retire_outcome (dl_server x) D q).1 (dl_executed x) x).
Proof.
  intros HD Ho Hq. pose proof HD as [H1 H2 _ _ _ _].
  pose proof (retire_outcome_Hosted _ _ D q H1) as HH. unfold retire_outcome in HH |- *.
  destruct (acknowledge (dl_server x) D q) as [next [[]|]] eqn:Ea.
  2: { apply Delivered_server; try done. by intros q' ?. }
  destruct (acknowledge_effect _ _ _ _ (ho_inv _ _ H1) Ea) as [Hack _].
  assert (acknowledges D q (dl_server x) (commit next)) as Hack' by done.
  assert (Agrees x (commit next) (dl_executed x)) as HA
    by (eapply Agrees_acknowledge; [done|apply HH|exact Hack'|done|done]).
  apply Delivered_server; try done. intros q'.
  apply (acknowledges_expected _ _ q); [apply H1|apply HH|done].
Qed.

Lemma Delivered_step x x' : Delivered x → dl_step x x' → Delivered x'.
Proof.
  intros HD. pose proof HD as [H1 H2 H3 H4 (l & Hl & Ht & Hd) H6].
  destruct 1 as [m r Hr|op Hp|wire Hw|t op rt vt home start validate ds Hin Hb Hrt Hst Hh Hf
    |op o r Hp Ho Hno Hr|Hp|o q Ho Hq|op r Hp Ho Hw Hr|op r Hop Hr|s' Hs Hw| |boot].
  - simpl in Hr. destruct (jr_pending (dl_journal x)) eqn:Ep; [done|]. split; try done.
    + apply (Agrees_submit _ _ _ m); [done|]. simpl. by rw Ep.
    + apply (Agrees_submit _ _ _ m); [done|]. simpl. by rw Ep.
    + exists l. split; [done|]. split; [|done]. intros t Hin. by destruct (Ht t Hin).
  - split; try done; try (apply Agrees_wire; [done|];
      intros t op' [[= -> ->]|?]%elem_of_cons; [by right|by left]). eauto.
  - split; try done; try (apply Agrees_wire; [done|]; intros t op' ?; left; by apply Hw). eauto.
  - eapply Delivered_deliver; [done|exact Hin|by apply mutate_Hosted|by eapply mutate_edits].
  - by eapply Delivered_retire.
  - assert (l = []) as -> by (destruct l as [|t l]; [done|]; destruct (Ht t) as [? _]; [by left|done]).
    pose proof (ag_inv _ _ _ H3) as HI.
    apply Delivered_idle; try done; [by right|by apply next_expected|by apply Hd, next_expected| |].
    + intros o Ho. rw next_reach //. pose proof (ag_last _ _ _ H3 o Ho). lia.
    + intros t op _ [_ Hc]. congruence.
  - by eapply Delivered_acknowledge.
  - destruct (ag_pending _ _ _ H2 op Hp) as (P1 & P2 & P3 & P4).
    assert (dl_token x ∉ dl_executed x) as Hn by (intros Hx; destruct (P3 Hx) as (? & ? & _); congruence).
    destruct (ag_pending _ _ _ H3 op Hp) as (_ & _ & _ & P4').
    assert (dl_token x ∉ dl_kept x) as Hn' by (intros Hx; apply Hn; rw Hl elem_of_app; by right).
    injection Hr as <-. apply Delivered_idle; simpl; rw ?P2; auto.
    intros t op' Hin [-> _]. by destruct (Hw op').
  - destruct (present_record _ _ _ Hop Hr) as [Hrp Hrl].
    split; try done; try (by apply Agrees_present). exists l. simpl. by rw Hrp.
  - pose proof (other_step_Hosted _ _ _ _ H1 Hs) as HH. pose proof (other_step_frame _ _ _ _ H1 Hs) as Hf.
    apply Delivered_server; [done|done| |].
    + eapply Agrees_frame; [exact H2|apply HH|exact Hf|exact Hw].
    + intros q. apply (frame_expected (dl_server x)); [apply H1|apply HH|done].
  - by apply Delivered_persist.
  - by apply Delivered_restart.
Qed.

Lemma Delivered_start boot core s : Hosted boot s → Delivered (dl_start boot core s).
Proof.
  intros HH. assert (Inv (envelope s)) as HI by apply envelope_Inv, HH.
  assert (∀ s', Inv s' → frame D s s' → Agrees (dl_start boot core s) s' []) as HA.
  { intros s' HI' Hf. split; simpl; try done; [by constructor|by intros t ?%elem_of_nil| |by intros t op ?%elem_of_nil].
    intros _. split; [|done]. apply (frame_expected s); [apply HH|done|done|]. apply next_expected, HH. }
  split; simpl; try done.
  - apply HA; [apply HH|done].
  - apply HA; [done|by apply frame_same].
  - exists []. split; [done|]. split; [by intros t ?%elem_of_nil|].
    intros _ q. apply (frame_expected (envelope s)); [done|apply HH|by apply frame_same].
Qed.

Lemma dl_reachable boot core s x :
  Hosted boot s → rtc dl_step (dl_start boot core s) x → Delivered x.
Proof.
  intros HH Hrun. apply (rtc_ind_r (R := dl_step) Delivered (dl_start boot core s));
    [by apply Delivered_start|by intros; eapply Delivered_step|done].
Qed.
End delivery.

(** ** Every edit takes effect once

    The end-to-end properties of [Delivery]: a submission is executed at most
    once, a retired one exactly once and durably, and a pending one is never
    refused as out of sequence. *)
(** ** Refusals of an expected submission *)

Lemma edit_branch_not_stale s ds device m directory vp s' ds' :
  edit_branch s ds device m directory vp ≠ (s', ds', Return (Err Refusal_Stale)).
Proof.
  destruct m; simpl.
  - unfold edit_end_all_sessions. by repeat case_match.
  - done.
  - unfold edit_close. by repeat case_match.
  - unfold edit_create_workspace. by repeat case_match.
  - unfold edit_create_tab. by repeat case_match.
  - unfold edit_split_pane. by repeat case_match.
  - unfold edit_move_pane. by repeat case_match.
  - unfold edit_merge_tab. by repeat case_match.
  - unfold edit_rename_workspace. by repeat case_match.
  - unfold edit_pin_workspace. by repeat case_match.
Qed.

Lemma edit_not_stale s ds device m directory vp s' ds' :
  edit s ds device m directory vp ≠ (s', ds', Err Refusal_Stale).
Proof.
  unfold edit. destruct (edit_branch _ _ _ _ _ _) as [[s1 ds1] [t|r]] eqn:E.
  - unfold accept_edit. by destruct (u64_checked_add _ _).
  - intros [= -> -> ->]. by apply edit_branch_not_stale in E.
Qed.

Lemma apply_not_stale s ds device q m directory vp s' ds' :
  outcome s device q = None → expected_sequence s device q = true → q ≠ u64_max →
  apply s ds device q m directory vp ≠ (s', ds', Err Refusal_Stale).
Proof.
  intros Ho He Hq. unfold apply. rw Ho He. destruct (is_bounded m); cbn [negb orb]; [|done].
  rw bool_decide_eq_false_2 //. destruct (_ <=? _); [done|].
  destruct (admit_device _ _ _) as [s1|]; [|done].
  destruct (edit s1 ds device m directory vp) as [[s2 ds2] [o|e]] eqn:Ed.
  - by destruct (record_outcome _ _).
  - intros [= -> -> ->]. by apply edit_not_stale in Ed.
Qed.

Lemma apply_worktree_pending s ds device q op directory vp s' ds' o :
  outcome s device q = None →
  apply s ds device q (MutWorktree op) directory vp = (s', ds', Ok o) → o = Pending.
Proof.
  intros Ho. unfold apply. rw Ho. destruct (is_bounded _); cbn [negb]; [|done].
  destruct (_ || _); [done|]. destruct (_ <=? _); [done|].
  destruct (admit_device _ _ _) as [s1|]; [|done]. unfold edit. cbn [edit_branch].
  destruct (record_outcome _ _); [|done]. by intros [= _ _ <-].
Qed.

(** The worktree operation an application just recorded may be finished. *)
Lemma finish_recorded s ds device q op directory vp s' ds' o settings o' :
  Inv s → outcome s device q = None → o' ≠ Pending →
  apply s ds device q (MutWorktree op) directory vp = (s', ds', Ok o) →
  ∃ s2, finish_worktree (match settings with
                         | Some w => set_s_worktree_settings w s'
                         | None => s'
                         end) device q o' = (s2, Ok tt).
Proof.
  intros HI Ho Hne Ha. pose proof (apply_worktree_pending _ _ _ _ _ _ _ _ _ _ Ho Ha) as ->.
  destruct (apply_recorded _ _ _ _ _ _ _ _ _ _ HI Ha) as (r & Hr & Hrp & Hrm).
  assert (outcome (match settings with Some w => set_s_worktree_settings w s' | None => s' end)
            device q = Some r) as Hr' by (by destruct settings).
  unfold finish_worktree. rw Hr' Hrp. rw bool_decide_eq_false_2; [by intros []|].
  rw (bool_decide_eq_false_2 (o' = Pending)) //.
  assert (is_worktree_mutation (ro_mutation r) = true) as ->; [|eexists; done].
  destruct (ro_mutation r); try done.
Qed.

Lemma mutate_not_stale boot rt vt home start validate s ds device q m :
  Hosted boot s → rt_boot rt = boot → runtime_ok rt →
  q ≠ u64_max →
  (outcome s device q = None ∧ expected_sequence s device q = true) ∨
  (∃ o, outcome s device q = Some o ∧ ro_mutation o = m) →
  (mutate rt vt home start validate s ds device q m).2 ≠ Err Refusal_Stale.
Proof.
  intros HH Hrb Hrt Hq Hcase. unfold mutate.
  destruct Hcase as [[Ho He]|(o & Ho & Hm)]; rw Ho; [|by rw Hm mutation_eqb_refl].
  pose proof HH as [HI Hb _].
  assert (∀ directory : result path Refusal,
    (match apply (set_s_inventory (host_inventory rt s) s) ds device q m
                    (match directory with Ok d => d | Err _ => home end)
                    (λ p, is_ok directory && validate p) with
            | (_, ds, Err refusal) => (s, ds, Err refusal)
            | (next, ds, Ok _) =>
                match outcome next device q with
                | None => (s, ds, Err Refusal_Failed)
                | Some o => (commit next, ds, Ok (Answer_Outcome o))
                end
            end).2 ≠ Err Refusal_Stale) as Hedit.
  { intros directory. destruct (apply _ _ _ _ _ _ _) as [[next ds1] [o|e]] eqn:Ea.
    - by destruct (outcome next device q).
    - simpl. intros [= ->]. by apply apply_not_stale in Ea. }
  destruct m; try (destruct (negb _); [done|]; by apply (Hedit (Ok home))).
  2: { destruct (negb _); [done|]. apply Hedit. }
  unfold begin_worktree. destruct (negb _); [done|].
  destruct (apply _ _ _ _ _ _ _) as [[next ds1] [o|e]] eqn:Ea.
  2: { simpl. intros [= ->]. by apply apply_not_stale in Ea. }
  destruct operation as [| |version template|]; try done.
  set (checked := set_location _ _ _ _). set (o1 := match checked with Ok _ => Accepted _ | Err _ => _ end).
  destruct (finish_recorded s ds device q (Op_SetLocation version template) home (λ _, false) next ds1 o
    (match checked with Ok w => Some w | Err _ => None end) o1 HI Ho) as (s2 & Hfin);
    [by unfold o1; destruct checked|exact Ea|].
  replace (match checked with Ok settings => set_s_worktree_settings settings next | Err _ => next end)
    with (match (match checked with Ok w => Some w | Err _ => None end) with
          | Some w => set_s_worktree_settings w next | None => next end) by by destruct checked.
  rw Hfin. by destruct (outcome (commit s2) device q).
Qed.

Section theorems.
Context (D : Id).


(** C30. The pending operation is never refused as out of sequence, however long it
    was delayed and even if the server replaced the client's idle record
    meanwhile: its dispatch executes it, replays its outcome, waits, or meets
    another refusal that a later dispatch may not. *)
Theorem pending_never_stale boot core s x op rt vt home start validate ds :
  Hosted boot s → rtc (dl_step D) (dl_start D boot core s) x →
  jr_pending (dl_journal x) = Some op → co_sequence op ≠ u64_max →
  rt_boot rt = dl_boot x → runtime_ok rt →
  (mutate rt vt home start validate (dl_server x) ds D (co_sequence op) (co_mutation op)).2
  ≠ Err Refusal_Stale.
Proof.
  intros HH Hrun Hp Hq Hb Hrt. destruct (dl_reachable D boot core s x HH Hrun) as [H1 H2 _ _ _ _].
  apply (mutate_not_stale (dl_boot x)); try done.
  destruct (ag_pending _ _ _ _ H2 op Hp) as (_ & _ & P3 & P4).
  destruct (decide (dl_token x ∈ dl_executed x)) as [Hin|Hn]; [right; auto|left].
  split; [|auto]. apply expected_unrecorded; [apply H2|auto].
Qed.

(** A pending operation that was executed keeps its recorded outcome until the
    client retires it, and an acknowledged one never hides it. *)
Theorem pending_outcome_kept boot core s x op :
  Hosted boot s → rtc (dl_step D) (dl_start D boot core s) x →
  jr_pending (dl_journal x) = Some op → dl_token x ∈ dl_executed x →
  ∃ o, outcome (dl_server x) D (co_sequence op) = Some o ∧ ro_mutation o = co_mutation op ∧
    answers op o = true.
Proof.
  intros HH Hrun Hp Ht. destruct (dl_reachable D boot core s x HH Hrun) as [_ H2 _ _ _ _].
  destruct (ag_pending _ _ _ _ H2 op Hp) as (_ & _ & P3 & _). destruct (P3 Ht) as (o & Ho & Hm).
  exists o. split; [done|]. split; [done|]. unfold answers. rw Hm mutation_eqb_refl andb_true_r.
  apply bool_decide_eq_true. unfold outcome in Ho. destruct (find_device D (dl_server x)); [|done].
  by apply vfind_Some in Ho as [Hs%bool_decide_eq_true _].
Qed.
End theorems.

(** ** A run

    Device 5 splits a Pane. The server executes the first request and crashes
    before its write; the client dispatches again, the request is delivered
    twice, the write succeeds, and the client retires and acknowledges. *)
Module Run.
Definition base : State := commit (begin_boot 77 demo_two_tabs).

Lemma base_Hosted : Hosted 77 base.
Proof.
  apply commit_Hosted; [|apply begin_boot_boot].
  apply begin_boot_Inv; [apply demo_two_tabs_Inv|reflexivity].
Qed.

Definition runtime (boot : Id) : Runtime :=
  {| rt_boot := boot; rt_pane := λ _, NotStarted; rt_observers := λ _, None;
     rt_name := λ _, {| cn_text := lit "Ada" |};
     rt_repositories := {| rs_boot := boot; rs_revision := 0; rs_git := Git_Unknown;
                           rs_directories := []; rs_pinned_worktrees := [];
                           rs_pin_check := Pin_Ready |} |}.
Definition operation : ClientOperation := {| co_sequence := 1; co_mutation := demo_split |}.
Definition serve (boot : Id) (ds : Draws) (s : State) : State :=
  (mutate (runtime boot) (λ _, Ok tt) demo_home (λ _ _ _, Err Refusal_Missing) (λ _, true) s ds 5 1
     demo_split).1.1.

(** Delivers the request with the draws [ds] at the boot [boot]. *)
Ltac deliver boot ds :=
  eapply (dl_deliver 5 _ 1 operation (runtime boot) (λ _, Ok tt) demo_home
            (λ _ _ _, Err Refusal_Missing) (λ _, true) ds);
  [by left|reflexivity|done|done|reflexivity|apply fresh_by_check; vm_compute; reflexivity].

Ltac crash :=
  evaluate;
  run_step ltac:(apply (dl_submit 5 _ demo_split); reflexivity);
  run_step ltac:(apply (dl_dispatch 5 _ operation); reflexivity);
  run_step ltac:(deliver 77%N [Some 20%N]);
  run_step ltac:(apply (dl_restart 5 _ 78)).
Ltac again :=
  run_step ltac:(apply (dl_dispatch 5 _ operation); reflexivity);
  run_step ltac:(deliver 78%N [Some 21%N]);
  run_step ltac:(deliver 78%N (@nil (option N))).

(** The crash lost the execution; the operation is still pending. *)
Lemma crashed : ∃ x, rtc (dl_step 5) (dl_start 5 77 8 base) x ∧ dl_executed x = [] ∧
    jr_pending (dl_journal x) = Some operation ∧ dl_boot x = 78%N.
Proof. eexists. split; [crash; constructor|done]. Qed.

(** Executed once again, and replayed. *)
Lemma replayed : ∃ x, rtc (dl_step 5) (dl_start 5 77 8 base) x ∧ dl_executed x = [1] ∧
    jr_pending (dl_journal x) = Some operation ∧ dl_token x = 1.
Proof. eexists. split; [crash; again; constructor|done]. Qed.

(** Written, retired and acknowledged. *)
Lemma settled : ∃ x, rtc (dl_step 5) (dl_start 5 77 8 base) x ∧ dl_retired x = [1] ∧
    outcome (dl_server x) 5 1 = None ∧ next_sequence (dl_server x) 5 = 2%N.
Proof.
  eexists. split.
  - crash. again. run_step ltac:(apply dl_persist).
    run_step ltac:(eapply (dl_retire 5 _ operation); [reflexivity|reflexivity|done|reflexivity]).
    run_step ltac:(eapply (dl_acknowledge 5 _ _ 1); [reflexivity|done]).
    constructor.
  - done.
Qed.
End Run.


Lemma pending_never_stale_witness :
  ∃ x, dl_executed x = [] ∧
    (mutate (Run.runtime 78) (λ _, Ok tt) demo_home (λ _ _ _, Err Refusal_Missing) (λ _, true)
       (dl_server x) [] 5 (co_sequence Run.operation) (co_mutation Run.operation)).2
    ≠ Err Refusal_Stale.
Proof.
  destruct Run.crashed as (x & Hrun & He & Hp & Hb). exists x. split; [exact He|].
  assert (runtime_ok (Run.runtime 78)) as Hrt by discriminate.
  assert (co_sequence Run.operation ≠ u64_max) as Hq by discriminate.
  exact (pending_never_stale 5 77 8 Run.base x Run.operation (Run.runtime 78) (λ _, Ok tt) demo_home
           (λ _ _ _, Err Refusal_Missing) (λ _, true) [] Run.base_Hosted Hrun Hp Hq (eq_sym Hb) Hrt).
Defined.

Lemma pending_outcome_kept_witness :
  ∃ x o, outcome (dl_server x) 5 (co_sequence Run.operation) = Some o ∧ answers Run.operation o = true.
Proof.
  destruct Run.replayed as (x & Hrun & He & Hp & Ht).
  destruct (pending_outcome_kept 5 77 8 Run.base x Run.operation Run.base_Hosted Hrun Hp)
    as (o & Ho & _ & Ha); [by rw He Ht; left|]. exists x, o. split; [exact Ho|exact Ha].
Defined.
