(* ===== verification/F32.v ===== *)
(** * 32-bit floating-point numbers

    [f32] is IEEE 754 binary32 with round-to-nearest-even: 24 bits of mantissa,
    exponents below 128. The operations are those of [SpecFloat] at that format;
    the functions of [core::f32] the layout code calls are written on top. All
    NaNs are one value, since nothing the program computes reads a payload. *)
From Corelib Require Export SpecFloat.
From S2P Require Import Prelude.

Abbreviation f32 := spec_float (only parsing).
#[export] Instance spec_float_eq_dec : EqDecision spec_float.
Proof. solve_decision. Defined.

Definition f32_add : f32 → f32 → f32 := SFadd 24 128.
Definition f32_sub : f32 → f32 → f32 := SFsub 24 128.
Definition f32_mul : f32 → f32 → f32 := SFmul 24 128.
Definition f32_div : f32 → f32 → f32 := SFdiv 24 128.
Definition f32_abs : f32 → f32 := SFabs.

(** [==], [<], [<=], [>] and [>=]: false as soon as one side is a NaN. *)
Definition f32_eq (x y : f32) : bool := SFeqb x y.
Definition f32_lt (x y : f32) : bool := SFltb x y.
Definition f32_le (x y : f32) : bool := SFleb x y.
Definition f32_gt (x y : f32) : bool := SFltb y x.
Definition f32_ge (x y : f32) : bool := SFleb y x.

Definition is_nan (x : f32) : bool := match x with S754_nan => true | _ => false end.
Definition is_finite (x : f32) : bool :=
  match x with S754_zero _ | S754_finite _ _ _ => true | _ => false end.

(** Integers the source writes as literals. *)
Definition f32_of_Z (z : Z) : f32 := binary_normalize 24 128 z 0 false.
Definition f32_zero : f32 := S754_zero false.
Definition f32_one : f32 := f32_of_Z 1.
Definition f32_two : f32 := f32_of_Z 2.
(** [0.5]. *)
Definition f32_half : f32 := f32_div f32_one f32_two.
(** [0.000_001]: the quotient of two exact values, so rounded as the literal is. *)
Definition f32_millionth : f32 := f32_div f32_one (f32_of_Z 1000000).

(** [f32::max] and [f32::min]: the other operand where one is a NaN. *)
Definition f32_max (x y : f32) : f32 :=
  if is_nan x then y else if f32_lt x y then y else x.
Definition f32_min (x y : f32) : f32 :=
  if is_nan x then y else if f32_lt y x then y else x.

(** [f32::clamp], which asserts [min <= max]; [None] is the failed assertion. *)
Definition f32_clamp (x min max : f32) : option f32 :=
  if f32_le min max then
    let x := if f32_lt x min then min else x in
    Some (if f32_gt x max then max else x)
  else None.

(** [f32::to_bits]. *)
Definition f32_to_bits (x : f32) : Z :=
  let signed (s : bool) (bits : Z) := if s then (bits + 2147483648)%Z else bits in
  match x with
  | S754_zero s => signed s 0%Z
  | S754_infinity s => signed s 2139095040%Z
  | S754_nan => 2143289344%Z
  | S754_finite s m e =>
      signed s (if (Z.pos m <? 8388608)%Z then Z.pos m
                else ((e + 150) * 8388608 + (Z.pos m - 8388608))%Z)
  end.

(** [f32::total_cmp]: the bits as a signed number, the low ones flipped below zero. *)
Definition f32_total_key (x : f32) : Z :=
  let bits := f32_to_bits x in
  if (bits <? 2147483648)%Z then bits else (2147483647 - bits)%Z.
Definition f32_total_cmp (x y : f32) : comparison := Z.compare (f32_total_key x) (f32_total_key y).

Example f32_half_bits : f32_to_bits f32_half = 0x3F000000%Z.
Proof. reflexivity. Qed.
Example f32_millionth_bits : f32_to_bits f32_millionth = 0x358637BD%Z.
Proof. reflexivity. Qed.
Example f32_third_bits : f32_to_bits (f32_div f32_one (f32_of_Z 3)) = 0x3EAAAAAB%Z.
Proof. reflexivity. Qed.

(** ** The order *)

Lemma SFcompare_antisym x y : SFcompare y x = CompOpp <$> SFcompare x y.
Proof.
  destruct x as [sx|sx| |sx mx ex], y as [sy|sy| |sy my ey]; simpl; try done;
    try (by destruct sx); try (by destruct sy); try (by destruct sx, sy).
  rw (Z.compare_antisym ex ey). rw -!/(Pos.compare _ _) (Pos.compare_antisym mx my).
  destruct sx, sy; try done; destruct (ex ?= ey)%Z; simpl; try done; by rw ?CompOpp_involutive.
Qed.

Lemma SFcompare_refl x : is_nan x = false → SFcompare x x = Some Eq.
Proof.
  destruct x as [s|s| |s m e]; try done; simpl; try (by destruct s). intros _.
  rw Z.compare_refl -!/(Pos.compare _ _) Pos.compare_refl. by destruct s.
Qed.

Lemma SFcompare_nan x y : SFcompare x y = None ↔ is_nan x = true ∨ is_nan y = true.
Proof.
  destruct x as [sx|sx| |sx mx ex], y as [sy|sy| |sy my ey]; simpl; split; intros; try done; auto;
    by destruct_or?.
Qed.

Lemma f32_le_nan x y : f32_le x y = true → is_nan x = false ∧ is_nan y = false.
Proof. unfold f32_le, SFleb. intros H. by destruct x, y. Qed.

Lemma f32_not_lt x y :
  is_nan x = false → is_nan y = false → f32_lt x y = false → f32_le y x = true.
Proof.
  intros Hx Hy. unfold f32_lt, SFltb, f32_le, SFleb. rw (SFcompare_antisym x y).
  destruct (SFcompare x y) as [c|] eqn:E.
  - by destruct c.
  - apply SFcompare_nan in E as [E|E]; congruence.
Qed.

Lemma f32_lt_le x y : f32_lt x y = true → f32_le x y = true.
Proof. unfold f32_lt, SFltb, f32_le, SFleb. by destruct (SFcompare x y) as [[]|]. Qed.

Lemma f32_le_refl x : is_nan x = false → f32_le x x = true.
Proof. intros H. unfold f32_le, SFleb. by rw SFcompare_refl. Qed.

Lemma f32_eq_refl x : is_nan x = false → f32_eq x x = true.
Proof. intros H. unfold f32_eq, SFeqb. by rw SFcompare_refl. Qed.

(** A clamp that does not panic lands between its bounds, and moves nothing
    that was between them. *)
Lemma f32_clamp_Some x lo hi r :
  is_nan x = false → f32_clamp x lo hi = Some r →
  f32_le lo r = true ∧ f32_le r hi = true ∧ is_nan r = false ∧
  (f32_le lo x = true → f32_le x hi = true → r = x).
Proof.
  unfold f32_clamp. intros Hx H. destruct (f32_le lo hi) eqn:Hle; [|done]. injection H as <-.
  destruct (f32_le_nan _ _ Hle) as [Hlo Hhi]. unfold f32_gt.
  destruct (f32_lt x lo) eqn:E1.
  - assert (SFltb hi lo = false) as ->.
    { unfold f32_le, SFleb in Hle. unfold SFltb. rw (SFcompare_antisym lo hi).
      by destruct (SFcompare lo hi) as [[]|]. }
    split; [by apply f32_le_refl|]. split; [done|]. split; [done|]. intros H.
    unfold f32_lt, SFltb in E1. unfold f32_le, SFleb in H. rw (SFcompare_antisym x lo) in H.
    by destruct (SFcompare x lo) as [[]|].
  - pose proof (f32_not_lt _ _ Hx Hlo E1) as Hl. destruct (SFltb hi x) eqn:E2.
    + split; [done|]. split; [by apply f32_le_refl|]. split; [done|]. intros _ H.
      unfold SFltb in E2. unfold f32_le, SFleb in H. rw (SFcompare_antisym hi x) in H.
      by destruct (SFcompare hi x) as [[]|].
    + split; [done|]. split; [by apply f32_not_lt|done].
Qed.

Lemma f32_clamp_None x lo hi : f32_clamp x lo hi = None ↔ f32_le lo hi = false.
Proof. unfold f32_clamp. by destruct (f32_le lo hi). Qed.

Lemma f32_total_cmp_refl x : f32_total_cmp x x = Eq.
Proof. apply Z.compare_refl. Qed.
