(* ===== verification/PaneLayout.v ===== *)
(** * The Pane layout of a Tab

    [src/domain/tab.rs]: the tree of Splits a desktop lays Panes out in, and the
    [Tab] that owns it with focus, zoom and parked Panes. Ratios and sizes are
    [f32]. A [BTreeMap] of Panes is a [gmap]; identities are [u64] counters. An
    [&mut self] method returns the Tab it leaves behind; where the source can
    panic ([unreachable!], [clamp]) the result is an [option] and [None] is the
    panic. The payload [T] of a Pane is the view the caller creates. *)
From S2P Require Import Prelude.
From S2P Require Import F32.

Abbreviation TabId := N (only parsing).
Abbreviation PaneId := N (only parsing).
Abbreviation SplitId := N (only parsing).

(** ** Sizes *)

Record PaneSize := { ps_width : f32; ps_height : f32 }.
#[export] Instance PaneSize_eq_dec : EqDecision PaneSize.
Proof. solve_decision. Defined.

Inductive PaneSizeError :=
  | InvalidWidth (width : f32)
  | InvalidHeight (height : f32).

(** [PaneSize::new]. *)
Definition pane_size_new (width height : f32) : result PaneSize PaneSizeError :=
  if negb (is_finite width) || f32_le width f32_zero then Err (InvalidWidth width)
  else if negb (is_finite height) || f32_le height f32_zero then Err (InvalidHeight height)
  else Ok {| ps_width := width; ps_height := height |}.

Inductive SplitAxis := Horizontal | Vertical.
#[export] Instance SplitAxis_eq_dec : EqDecision SplitAxis.
Proof. solve_decision. Defined.

(** [PaneSize::extent]. *)
Definition ps_extent (size : PaneSize) (axis : SplitAxis) : f32 :=
  match axis with Horizontal => ps_width size | Vertical => ps_height size end.

Inductive PaneEdge := EdgeLeft | EdgeRight | EdgeTop | EdgeBottom.
#[export] Instance PaneEdge_eq_dec : EqDecision PaneEdge.
Proof. solve_decision. Defined.

(** [PaneEdge::axis] and [PaneEdge::leads]. *)
Definition edge_axis (edge : PaneEdge) : SplitAxis :=
  match edge with EdgeLeft | EdgeRight => Horizontal | EdgeTop | EdgeBottom => Vertical end.
Definition edge_leads (edge : PaneEdge) : bool :=
  match edge with EdgeLeft | EdgeTop => true | _ => false end.

Inductive PaneDrop :=
  | DropEdge (edge : PaneEdge)
  | DropSwap.
#[export] Instance PaneDrop_eq_dec : EqDecision PaneDrop.
Proof. solve_decision. Defined.

Inductive FocusDirection := FocusLeft | FocusRight | FocusUp | FocusDown.

Inductive ZoomState :=
  | Restored
  | Zoomed (pane : PaneId).
#[export] Instance ZoomState_eq_dec : EqDecision ZoomState.
Proof. solve_decision. Defined.

Inductive PaneError :=
  | PaneNotFound (pane : PaneId)
  | SplitNotFound (split : SplitId)
  | PaneIdExhausted
  | SplitIdExhausted
  | InvalidDividerSize (size : f32)
  | InvalidSplitRatio (ratio : f32)
  | InsufficientSpace (available required : PaneSize)
  | LayoutSizeOverflow
  | MissingPane (pane : PaneId).
#[export] Instance PaneError_eq_dec : EqDecision PaneError.
Proof. solve_decision. Defined.

Definition validate_divider_size (divider_size : f32) : result unit PaneError :=
  if is_finite divider_size && f32_ge divider_size f32_zero then Ok tt
  else Err (InvalidDividerSize divider_size).

Definition combined_minimum (first second : PaneSize) (axis : SplitAxis) (divider_size : f32)
    : result PaneSize PaneError :=
  let '(width, height) :=
    match axis with
    | Horizontal => (f32_add (f32_add (ps_width first) divider_size) (ps_width second),
                     f32_max (ps_height first) (ps_height second))
    | Vertical => (f32_max (ps_width first) (ps_width second),
                   f32_add (f32_add (ps_height first) divider_size) (ps_height second))
    end in
  if negb (is_finite width) || negb (is_finite height) then Err LayoutSizeOverflow
  else Ok {| ps_width := width; ps_height := height |}.

Definition ensure_space (available required : PaneSize) : result unit PaneError :=
  if f32_ge (ps_width available) (ps_width required)
     && f32_ge (ps_height available) (ps_height required)
  then Ok tt else Err (InsufficientSpace available required).

(** ** The tree *)

Inductive PaneNode :=
  | Leaf (pane : PaneId)
  | Split (id : SplitId) (axis : SplitAxis) (ratio : f32) (first second : PaneNode).

(** The derived [PartialEq], which compares ratios as [f32] does. *)
Fixpoint node_eqb (a b : PaneNode) : bool :=
  match a, b with
  | Leaf p, Leaf q => (p =? q)%N
  | Split i x r f s, Split i' x' r' f' s' =>
      (i =? i')%N && bool_decide (x = x') && f32_eq r r' && node_eqb f f' && node_eqb s s'
  | _, _ => false
  end.

Fixpoint contains_pane (node : PaneNode) (target : PaneId) : bool :=
  match node with
  | Leaf pane_id => (pane_id =? target)%N
  | Split _ _ _ first second => contains_pane first target || contains_pane second target
  end.

Fixpoint first_pane_id (node : PaneNode) : PaneId :=
  match node with Leaf pane_id => pane_id | Split _ _ _ first _ => first_pane_id first end.
Fixpoint last_pane_id (node : PaneNode) : PaneId :=
  match node with Leaf pane_id => pane_id | Split _ _ _ _ second => last_pane_id second end.

Fixpoint with_split (node : PaneNode) (target new_pane_id : PaneId) (split_id : SplitId)
    (edge : PaneEdge) : option PaneNode :=
  match node with
  | Leaf pane_id =>
      if (pane_id =? target)%N then
        let '(first, second) :=
          if edge_leads edge then (new_pane_id, pane_id) else (pane_id, new_pane_id) in
        Some (Split split_id (edge_axis edge) f32_half (Leaf first) (Leaf second))
      else None
  | Split id axis ratio first second =>
      match with_split first target new_pane_id split_id edge with
      | Some updated_first => Some (Split id axis ratio updated_first second)
      | None =>
          match with_split second target new_pane_id split_id edge with
          | Some updated_second => Some (Split id axis ratio first updated_second)
          | None => None
          end
      end
  end.

Record PaneRemoval := { pr_replacement : option PaneNode; pr_focus_fallback : PaneId }.

Fixpoint without_pane (node : PaneNode) (target : PaneId) : option PaneRemoval :=
  match node with
  | Leaf pane_id =>
      if (pane_id =? target)%N
      then Some {| pr_replacement := None; pr_focus_fallback := pane_id |} else None
  | Split id axis ratio first second =>
      match without_pane first target with
      | Some removal =>
          Some match pr_replacement removal with
               | Some updated_first =>
                   {| pr_replacement := Some (Split id axis ratio updated_first second);
                      pr_focus_fallback := pr_focus_fallback removal |}
               | None => {| pr_replacement := Some second;
                            pr_focus_fallback := first_pane_id second |}
               end
      | None =>
          match without_pane second target with
          | Some removal =>
              Some match pr_replacement removal with
                   | Some updated_second =>
                       {| pr_replacement := Some (Split id axis ratio first updated_second);
                          pr_focus_fallback := pr_focus_fallback removal |}
                   | None => {| pr_replacement := Some first;
                                pr_focus_fallback := last_pane_id first |}
                   end
          | None => None
          end
      end
  end.

Fixpoint exchange_panes (node : PaneNode) (a b : PaneId) : PaneNode :=
  match node with
  | Leaf pane_id => Leaf (if (pane_id =? a)%N then b else if (pane_id =? b)%N then a else pane_id)
  | Split id axis ratio first second =>
      Split id axis ratio (exchange_panes first a b) (exchange_panes second a b)
  end.

Fixpoint has_arrangement_of (node other : PaneNode) : bool :=
  match node, other with
  | Leaf pane_id, Leaf other_pane_id => (pane_id =? other_pane_id)%N
  | Split _ axis _ first second, Split _ other_axis _ other_first other_second =>
      bool_decide (axis = other_axis) && has_arrangement_of first other_first
      && has_arrangement_of second other_second
  | _, _ => false
  end.

Fixpoint node_minimum_size (node : PaneNode) (leaf_minimum : PaneSize) (divider_size : f32)
    : result PaneSize PaneError :=
  match node with
  | Leaf _ => Ok leaf_minimum
  | Split _ axis _ first second =>
      let? first := node_minimum_size first leaf_minimum divider_size in
      let? second := node_minimum_size second leaf_minimum divider_size in
      combined_minimum first second axis divider_size
  end.

Fixpoint minimum_size_with (node : PaneNode) (leaf_minimum : PaneSize)
    (exception : PaneId * PaneSize) (divider_size : f32) : result PaneSize PaneError :=
  match node with
  | Leaf pane_id => Ok (if (pane_id =? exception.1)%N then exception.2 else leaf_minimum)
  | Split _ axis _ first second =>
      let? first := minimum_size_with first leaf_minimum exception divider_size in
      let? second := minimum_size_with second leaf_minimum exception divider_size in
      combined_minimum first second axis divider_size
  end.

(** [PaneNode::split]: the axis and the sides of a Split. *)
Fixpoint find_split (node : PaneNode) (target : SplitId)
    : option (SplitAxis * PaneNode * PaneNode) :=
  match node with
  | Leaf _ => None
  | Split id axis _ first second =>
      if (id =? target)%N then Some (axis, first, second)
      else match find_split first target with
           | Some found => Some found
           | None => find_split second target
           end
  end.

(** A write through [PaneNode::split_mut]. *)
Fixpoint set_split_ratio (node : PaneNode) (target : SplitId) (ratio : f32) : option PaneNode :=
  match node with
  | Leaf _ => None
  | Split id axis old first second =>
      if (id =? target)%N then Some (Split id axis ratio first second)
      else match set_split_ratio first target ratio with
           | Some first => Some (Split id axis old first second)
           | None => Split id axis old first <$> set_split_ratio second target ratio
           end
  end.

(** The closure [child] of [fit_ratios]: the size of one side. *)
Definition child_size (available : PaneSize) (axis : SplitAxis) (content share : f32)
    : result PaneSize PaneSizeError :=
  let extent := f32_mul content share in
  match axis with
  | Horizontal => pane_size_new extent (ps_height available)
  | Vertical => pane_size_new (ps_width available) extent
  end.

(** The ratio [fit_ratios] leaves a Split with; its guard is the assertion of [clamp]. *)
Definition fit_ratio (ratio first_extent second_extent content : f32) : f32 :=
  let lowest := f32_div first_extent content in
  let highest := f32_sub f32_one (f32_div second_extent content) in
  if f32_le lowest highest then default ratio (f32_clamp ratio lowest highest) else ratio.

Fixpoint fit_ratios (node : PaneNode) (available minimum : PaneSize) (divider_size : f32)
    : PaneNode :=
  match node with
  | Leaf _ => node
  | Split id axis ratio first second =>
      match node_minimum_size first minimum divider_size,
            node_minimum_size second minimum divider_size with
      | Ok first_minimum, Ok second_minimum =>
          let content := f32_sub (ps_extent available axis) divider_size in
          if f32_le content f32_zero then node
          else
            let ratio := fit_ratio ratio (ps_extent first_minimum axis)
                           (ps_extent second_minimum axis) content in
            match child_size available axis content ratio,
                  child_size available axis content (f32_sub f32_one ratio) with
            | Ok first_size, Ok second_size =>
                Split id axis ratio (fit_ratios first first_size minimum divider_size)
                  (fit_ratios second second_size minimum divider_size)
            | _, _ => Split id axis ratio first second
            end
      | _, _ => node
      end
  end.

Fixpoint place_panes (root : PaneNode) (index : N) (placements : list (N * PaneEdge))
    : result PaneNode PaneError :=
  match placements with
  | [] => Ok root
  | (beside, edge) :: placements =>
      let next := (index + 1)%N in
      match with_split root beside next next edge with
      | Some root => place_panes root next placements
      | None => Err (PaneNotFound beside)
      end
  end.

Definition placed_minimum_size (minimum : PaneSize) (divider_size : f32)
    (placements : list (N * PaneEdge)) : result PaneSize PaneError :=
  let? _ := validate_divider_size divider_size in
  let? root := place_panes (Leaf 0%N) 0 placements in
  node_minimum_size root minimum divider_size.

(** ** Moving focus by direction *)

Record NormalizedBounds := { nb_left : f32; nb_top : f32; nb_right : f32; nb_bottom : f32 }.
Definition bounds_root : NormalizedBounds :=
  {| nb_left := f32_zero; nb_top := f32_zero; nb_right := f32_one; nb_bottom := f32_one |}.
Definition center_x (b : NormalizedBounds) : f32 := f32_div (f32_add (nb_left b) (nb_right b)) f32_two.
Definition center_y (b : NormalizedBounds) : f32 := f32_div (f32_add (nb_top b) (nb_bottom b)) f32_two.

Record DirectionalScore := { ds_primary : f32; ds_perpendicular : f32; ds_overlap : f32 }.

(** [Ordering::then_with]. *)
Definition then_with (a b : comparison) : comparison := match a with Eq => b | _ => a end.

(** [DirectionalScore::compare]. *)
Definition score_compare (a b : DirectionalScore) : comparison :=
  then_with (then_with (f32_total_cmp (ds_primary a) (ds_primary b))
                       (f32_total_cmp (ds_perpendicular a) (ds_perpendicular b)))
            (f32_total_cmp (ds_overlap b) (ds_overlap a)).

Fixpoint collect_pane_bounds (node : PaneNode) (bounds : NormalizedBounds)
    : list (PaneId * NormalizedBounds) :=
  match node with
  | Leaf pane_id => [(pane_id, bounds)]
  | Split _ axis ratio first second =>
      let '(first_bounds, second_bounds) :=
        match axis with
        | Horizontal =>
            let divider := f32_add (nb_left bounds)
                             (f32_mul (f32_sub (nb_right bounds) (nb_left bounds)) ratio) in
            ({| nb_left := nb_left bounds; nb_top := nb_top bounds; nb_right := divider;
                nb_bottom := nb_bottom bounds |},
             {| nb_left := divider; nb_top := nb_top bounds; nb_right := nb_right bounds;
                nb_bottom := nb_bottom bounds |})
        | Vertical =>
            let divider := f32_add (nb_top bounds)
                             (f32_mul (f32_sub (nb_bottom bounds) (nb_top bounds)) ratio) in
            ({| nb_left := nb_left bounds; nb_top := nb_top bounds; nb_right := nb_right bounds;
                nb_bottom := divider |},
             {| nb_left := nb_left bounds; nb_top := divider; nb_right := nb_right bounds;
                nb_bottom := nb_bottom bounds |})
        end in
      collect_pane_bounds first first_bounds ++ collect_pane_bounds second second_bounds
  end.

Definition EDGE_EPSILON : f32 := f32_millionth.

Definition directional_score (focused candidate : NormalizedBounds) (direction : FocusDirection)
    : option DirectionalScore :=
  let vertical_gap := f32_abs (f32_sub (center_y focused) (center_y candidate)) in
  let horizontal_gap := f32_abs (f32_sub (center_x focused) (center_x candidate)) in
  let vertical_overlap := f32_sub (f32_min (nb_bottom focused) (nb_bottom candidate))
                                  (f32_max (nb_top focused) (nb_top candidate)) in
  let horizontal_overlap := f32_sub (f32_min (nb_right focused) (nb_right candidate))
                                    (f32_max (nb_left focused) (nb_left candidate)) in
  let '(is_in_direction, primary_distance, perpendicular_distance, overlap) :=
    match direction with
    | FocusLeft =>
        (f32_le (nb_right candidate) (f32_add (nb_left focused) EDGE_EPSILON),
         f32_sub (nb_left focused) (nb_right candidate), vertical_gap, vertical_overlap)
    | FocusRight =>
        (f32_ge (nb_left candidate) (f32_sub (nb_right focused) EDGE_EPSILON),
         f32_sub (nb_left candidate) (nb_right focused), vertical_gap, vertical_overlap)
    | FocusUp =>
        (f32_le (nb_bottom candidate) (f32_add (nb_top focused) EDGE_EPSILON),
         f32_sub (nb_top focused) (nb_bottom candidate), horizontal_gap, horizontal_overlap)
    | FocusDown =>
        (f32_ge (nb_top candidate) (f32_sub (nb_bottom focused) EDGE_EPSILON),
         f32_sub (nb_top candidate) (nb_bottom focused), horizontal_gap, horizontal_overlap)
    end in
  if is_in_direction && f32_gt overlap EDGE_EPSILON
  then Some {| ds_primary := f32_max primary_distance f32_zero;
               ds_perpendicular := perpendicular_distance; ds_overlap := overlap |}
  else None.

(** [Iterator::min_by]: the first of the least elements. *)
Definition min_by {A} (compare : A → A → comparison) (l : list A) : option A :=
  match l with
  | [] => None
  | x :: l => Some (fold_left (λ x y, match compare x y with Gt => y | _ => x end) l x)
  end.

Definition candidate_compare (a b : PaneId * DirectionalScore) : comparison :=
  then_with (score_compare a.2 b.2) (a.1 ?= b.1)%N.

Definition directional_candidates (panes : list (PaneId * NormalizedBounds))
    (focused : NormalizedBounds) (direction : FocusDirection) : list (PaneId * DirectionalScore) :=
  omap (λ pane, (λ score, (pane.1, score)) <$> directional_score focused pane.2 direction) panes.

Definition pane_in_direction (node : PaneNode) (focused_pane_id : PaneId)
    (direction : FocusDirection) : option PaneId :=
  let panes := collect_pane_bounds node bounds_root in
  match vfind (λ pane, (pane.1 =? focused_pane_id)%N) panes with
  | None => None
  | Some (_, focused_bounds) =>
      fst <$> min_by candidate_compare (directional_candidates panes focused_bounds direction)
  end.

(** ** Laws of the layout tree

    The leaves, Split identities and ratios of a [PaneNode], and what each tree
    operation of [PaneLayout] does to them. *)
Fixpoint leaves (node : PaneNode) : list N :=
  match node with Leaf p => [p] | Split _ _ _ f s => leaves f ++ leaves s end.
Fixpoint splits (node : PaneNode) : list N :=
  match node with Leaf _ => [] | Split i _ _ f s => i :: splits f ++ splits s end.
Fixpoint ratios (node : PaneNode) : list f32 :=
  match node with Leaf _ => [] | Split _ _ r f s => r :: ratios f ++ ratios s end.

Definition comparable (r : f32) : Prop := is_nan r = false.

(** The Panes and axes of a layout, without Split identities and ratios. *)
Inductive Shape :=
  | ShapePane (pane : N)
  | ShapeSplit (axis : SplitAxis) (first second : Shape).
Fixpoint shape (node : PaneNode) : Shape :=
  match node with Leaf p => ShapePane p | Split _ x _ f s => ShapeSplit x (shape f) (shape s) end.

Lemma leaves_nonempty node : leaves node ≠ [].
Proof. induction node as [|i x r f IHf s IHs]; simpl; [done|]. by destruct (leaves f). Qed.

Lemma head_leaves node : head (leaves node) = Some (first_pane_id node).
Proof.
  induction node as [|i x r f IHf s IHs]; simpl; [done|]. rw -IHf.
  pose proof (leaves_nonempty f). by destruct (leaves f).
Qed.

Lemma last_leaves node : last (leaves node) = Some (last_pane_id node).
Proof. induction node as [|i x r f IHf s IHs]; simpl; [done|]. by rw last_app IHs. Qed.

Lemma first_pane_id_elem node : first_pane_id node ∈ leaves node.
Proof. apply head_Some_elem_of, head_leaves. Qed.

Lemma last_pane_id_elem node : last_pane_id node ∈ leaves node.
Proof. apply last_Some_elem_of, last_leaves. Qed.

Lemma contains_pane_spec node p : contains_pane node p = true ↔ p ∈ leaves node.
Proof.
  induction node as [q|i x r f IHf s IHs]; simpl.
  - rw list_elem_of_singleton N.eqb_eq. naive_solver.
  - by rw orb_true_iff IHf IHs elem_of_app.
Qed.

Lemma contains_pane_false node p : contains_pane node p = false ↔ p ∉ leaves node.
Proof. rw -not_true_iff_false. by rw contains_pane_spec. Qed.

Lemma has_arrangement_shape a b : has_arrangement_of a b = true ↔ shape a = shape b.
Proof.
  revert b. induction a as [p|i x r f IHf s IHs]; intros [q|j y r' g t]; simpl; try done.
  - rw N.eqb_eq. naive_solver.
  - rw !andb_true_iff bool_decide_eq_true IHf IHs.
    split; [by intros [[-> ->] ->]|by intros [= -> -> ->]].
Qed.

Lemma shape_leaves a b : shape a = shape b → leaves a = leaves b.
Proof.
  revert b. induction a as [p|i x r f IHf s IHs]; intros [q|j y r' g t]; simpl; try done.
  - by intros [= ->].
  - intros [= _ Hf Hs]. by f_equal; auto.
Qed.

Lemma node_eqb_same a b :
  node_eqb a b = true → shape a = shape b ∧ splits a = splits b.
Proof.
  revert b. induction a as [p|i x r f IHf s IHs]; intros [q|j y r' g t]; simpl; try done.
  - by intros ->%N.eqb_eq.
  - rw !andb_true_iff. intros [[[[->%N.eqb_eq ->%bool_decide_eq_true] _] [-> ->]%IHf] [-> ->]%IHs].
    done.
Qed.

Lemma node_eqb_refl a : Forall comparable (ratios a) → node_eqb a a = true.
Proof.
  induction a as [p|i x r f IHf s IHs]; simpl; [by rw N.eqb_refl|].
  rw Forall_cons Forall_app. intros (Hr & Hf & Hs).
  by rw N.eqb_refl bool_decide_eq_true_2 // f32_eq_refl // IHf // IHs.
Qed.

(** ** Splitting a leaf *)

(** What [with_split] puts in the place of its target. *)
Definition beside (target new : N) (edge : PaneEdge) : list N :=
  if edge_leads edge then [new; target] else [target; new].

Lemma beside_perm target new edge : beside target new edge ≡ₚ [new; target].
Proof. unfold beside. destruct (edge_leads edge); [done|constructor]. Qed.

Lemma half_comparable : comparable f32_half.
Proof. done. Qed.
#[export] Hint Resolve half_comparable : hier.

Lemma with_split_None node target new sid edge :
  with_split node target new sid edge = None ↔ target ∉ leaves node.
Proof.
  induction node as [p|i x r f IHf s IHs]; simpl.
  - rw list_elem_of_singleton. destruct (N.eqb_spec p target) as [->|Hne].
    + destruct (edge_leads edge); naive_solver.
    + naive_solver.
  - rw elem_of_app. destruct (with_split f _ _ _ _), (with_split s _ _ _ _); naive_solver.
Qed.

Lemma with_split_Some node target new sid edge node' :
  with_split node target new sid edge = Some node' →
  (∃ l1 l2, leaves node = l1 ++ target :: l2 ∧ (target ∉ l1) ∧
            leaves node' = l1 ++ beside target new edge ++ l2) ∧
  splits node' ≡ₚ (sid :: splits node) ∧
  (Forall comparable (ratios node) → Forall comparable (ratios node')).
Proof.
  revert node'. induction node as [p|i x r f IHf s IHs]; intros node'; simpl.
  - destruct (N.eqb_spec p target) as [->|Hne]; [|done]. unfold beside.
    destruct (edge_leads edge); intros [= <-]; simpl; (split; [|by split; eauto with hier]);
      (exists [], []; split; [done|split; [apply not_elem_of_nil|done]]).
  - destruct (with_split f target new sid edge) as [f'|] eqn:Ef.
    + intros [= <-]. destruct (IHf _ eq_refl) as ((l1 & l2 & Hl & Hn & Hl') & Hs & Hr). simpl. split.
      * exists l1, (l2 ++ leaves s). rw Hl Hl' -!app_assoc. done.
      * rw Hs. split; [apply Permutation_swap|]. rw !Forall_cons !Forall_app. naive_solver.
    + destruct (with_split s target new sid edge) as [s'|] eqn:Es; [|done].
      intros [= <-]. destruct (IHs _ eq_refl) as ((l1 & l2 & Hl & Hn & Hl') & Hs & Hr). simpl. split.
      * exists (leaves f ++ l1), l2. rw Hl Hl' -!app_assoc. split; [done|]. split; [|done].
        apply with_split_None in Ef. by rw not_elem_of_app.
      * rw Hs. split; [by rw -Permutation_middle Permutation_swap|]. rw !Forall_cons !Forall_app. naive_solver.
Qed.

Lemma with_split_leaves node target new sid edge node' :
  with_split node target new sid edge = Some node' → leaves node' ≡ₚ (new :: leaves node).
Proof.
  intros ((l1 & l2 & -> & _ & ->) & _)%with_split_Some. rw beside_perm. simpl.
  by rw -!Permutation_middle.
Qed.

(** ** Removing a leaf *)

Lemma without_pane_None node target : without_pane node target = None ↔ target ∉ leaves node.
Proof.
  induction node as [p|i x r f IHf s IHs]; simpl.
  - rw list_elem_of_singleton. destruct (N.eqb_spec p target) as [->|Hne]; naive_solver.
  - rw elem_of_app. destruct (without_pane f _), (without_pane s _); naive_solver.
Qed.

(** The Panes that stay keep their order; focus falls to a neighbour of the
    removed Pane; one Split goes with it. *)
Lemma without_pane_Some node target removal :
  without_pane node target = Some removal →
  ∃ l1 l2, leaves node = l1 ++ target :: l2 ∧ (target ∉ l1) ∧
    match pr_replacement removal with
    | None => l1 = [] ∧ l2 = [] ∧ pr_focus_fallback removal = target
    | Some node' =>
        leaves node' = l1 ++ l2 ∧
        (last l1 = Some (pr_focus_fallback removal) ∨ head l2 = Some (pr_focus_fallback removal)) ∧
        (∃ sid, splits node ≡ₚ (sid :: splits node')) ∧
        (Forall comparable (ratios node) → Forall comparable (ratios node'))
    end.
Proof.
  revert removal. induction node as [p|i x r f IHf s IHs]; intros removal; simpl.
  - destruct (N.eqb_spec p target) as [->|Hne]; [|done]. intros [= <-]. exists [], []. simpl.
    split; [done|]. split; [apply not_elem_of_nil|done].
  - destruct (without_pane f target) as [rem|] eqn:Ef.
    + destruct (IHf _ eq_refl) as (l1 & l2 & Hl & Hn & H). intros [= <-].
      exists l1, (l2 ++ leaves s). rw Hl -app_assoc. split; [done|]. split; [done|].
      destruct (pr_replacement rem) as [f'|]; simpl.
      * destruct H as (Hl' & Hf & (sid & Hs) & Hr). rw Hl' -app_assoc. split; [done|]. split.
        { destruct Hf as [?|Hh]; [by left|right]. by destruct l2. }
        split; [exists sid; rw Hs /=; constructor|]. rw !Forall_cons !Forall_app. naive_solver.
      * destruct H as (-> & -> & _). simpl. split; [done|]. split; [right; apply head_leaves|].
        split; [|rw Forall_cons Forall_app; naive_solver]. exists i.
        destruct f as [p|]; [done|]. simpl in Hl. pose proof (leaves_nonempty f1).
        pose proof (leaves_nonempty f2). apply (f_equal length) in Hl. rw length_app /= in Hl.
        destruct (leaves f1), (leaves f2); simpl in *; (done || lia).
    + destruct (without_pane s target) as [rem|] eqn:Es; [|done].
      destruct (IHs _ eq_refl) as (l1 & l2 & Hl & Hn & H). intros [= <-].
      exists (leaves f ++ l1), l2. rw Hl -app_assoc. split; [done|].
      apply without_pane_None in Ef. split; [by rw not_elem_of_app|].
      destruct (pr_replacement rem) as [s'|]; simpl.
      * destruct H as (Hl' & Hf & (sid & Hs) & Hr). rw Hl' -app_assoc. split; [done|]. split.
        { destruct Hf as [Hh|?]; [left|by right]. by rw last_app Hh. }
        split; [|rw !Forall_cons !Forall_app; naive_solver].
        exists sid. rw Hs -Permutation_middle. constructor.
      * destruct H as (-> & -> & _). simpl. rw !app_nil_r. split; [done|].
        split; [left; apply last_leaves|]. split; [|rw Forall_cons Forall_app; naive_solver].
        exists i. destruct s as [p|]; [simpl; by rw app_nil_r|]. simpl in Hl.
        pose proof (leaves_nonempty s1). pose proof (leaves_nonempty s2).
        apply (f_equal length) in Hl. rw length_app /= in Hl.
        destruct (leaves s1), (leaves s2); simpl in *; (done || lia).
Qed.

(** Removing a Pane that was just split off gives the layout back. *)
Lemma without_with_split node target new sid edge node' :
  with_split node target new sid edge = Some node' → new ∉ leaves node →
  ∃ fallback, without_pane node' new =
    Some {| pr_replacement := Some node; pr_focus_fallback := fallback |}.
Proof.
  revert node'. induction node as [p|i x r f IHf s IHs]; intros node'; simpl.
  - rw list_elem_of_singleton. destruct (N.eqb_spec p target) as [->|Hne]; [|done].
    intros H Hnew. destruct (edge_leads edge); injection H as <-; simpl.
    + rw N.eqb_refl. eauto.
    + destruct (N.eqb_spec target new); [done|]. rw N.eqb_refl. eauto.
  - rw not_elem_of_app. intros H [Hf Hs].
    destruct (with_split f target new sid edge) as [f'|] eqn:Ef.
    + injection H as <-. destruct (IHf _ eq_refl Hf) as [fb E]. simpl. rw E /=. eauto.
    + destruct (with_split s target new sid edge) as [s'|]; [|done]. injection H as <-.
      destruct (IHs _ eq_refl Hs) as [fb E]. simpl.
      assert (without_pane f new = None) as -> by by apply without_pane_None. rw E /=. eauto.
Qed.

(** ** Exchanging leaves *)

Definition swap_id (a b p : N) : N := if (p =? a)%N then b else if (p =? b)%N then a else p.

Lemma exchange_leaves node a b : leaves (exchange_panes node a b) = swap_id a b <$> leaves node.
Proof. induction node as [p|i x r f IHf s IHs]; simpl; [done|]. by rw fmap_app IHf IHs. Qed.

Lemma exchange_splits node a b :
  splits (exchange_panes node a b) = splits node ∧ ratios (exchange_panes node a b) = ratios node.
Proof.
  induction node as [p|i x r f [IHf1 IHf2] s [IHs1 IHs2]]; simpl; [done|].
  by rw IHf1 IHf2 IHs1 IHs2.
Qed.

Lemma swap_id_involutive a b p : swap_id a b (swap_id a b p) = p.
Proof.
  unfold swap_id. destruct (N.eqb_spec p a) as [->|Ha].
  - destruct (N.eqb_spec b a) as [->|]; [done|]. by rw N.eqb_refl.
  - destruct (N.eqb_spec p b) as [->|Hb]; [by rw N.eqb_refl|].
    destruct (N.eqb_spec p a); [done|]. by destruct (N.eqb_spec p b).
Qed.

#[export] Instance swap_id_inj a b : Inj (=) (=) (swap_id a b).
Proof. intros p q E. by rw -(swap_id_involutive a b p) E swap_id_involutive. Qed.

Lemma exchange_panes_involutive node a b : exchange_panes (exchange_panes node a b) a b = node.
Proof.
  induction node as [p|i x r f IHf s IHs]; simpl; [|by rw IHf IHs].
  f_equal. apply (swap_id_involutive a b).
Qed.

(** Exchanging two leaves permutes the leaves. *)
Lemma exchange_perm node a b :
  NoDup (leaves node) → a ∈ leaves node → b ∈ leaves node →
  leaves (exchange_panes node a b) ≡ₚ leaves node.
Proof.
  intros Hnd Ha Hb. rw exchange_leaves. symmetry. apply NoDup_submseteq_iff || idtac.
  apply (NoDup_Permutation _ _ Hnd).
  - by apply NoDup_fmap_2; [apply _|].
  - intros p. rw list_elem_of_fmap. split.
    + intros Hp. exists (swap_id a b p). rw swap_id_involutive. split; [done|].
      unfold swap_id. by repeat case_match.
    + intros (q & -> & Hq). unfold swap_id. by repeat case_match.
Qed.

(** ** Ratios *)

Lemma find_split_Some node target found :
  find_split node target = Some found → target ∈ splits node.
Proof.
  induction node as [|i x r f IHf s IHs]; simpl; [done|].
  destruct (N.eqb_spec i target) as [->|Hne]; [by left|]. intros H. right. apply elem_of_app.
  destruct (find_split f target); [left; auto|right; auto].
Qed.

Lemma set_split_ratio_spec node target ratio :
  is_Some (set_split_ratio node target ratio) ↔ is_Some (find_split node target).
Proof.
  induction node as [|i x r f IHf s IHs]; simpl; [done|].
  destruct (N.eqb_spec i target); [by rw !is_Some_alt|]. rw !is_Some_alt in IHf IHs |- *.
  destruct (set_split_ratio f target ratio), (find_split f target); try done; try tauto.
  by destruct (set_split_ratio s target ratio), (find_split s target).
Qed.

Lemma set_split_ratio_frame node target ratio node' :
  set_split_ratio node target ratio = Some node' →
  shape node' = shape node ∧ splits node' = splits node ∧
  (comparable ratio → Forall comparable (ratios node) → Forall comparable (ratios node')).
Proof.
  revert node'. induction node as [|i x r f IHf s IHs]; intros node'; simpl; [done|].
  destruct (N.eqb_spec i target).
  - intros [= <-]. simpl. rw !Forall_cons. naive_solver.
  - destruct (set_split_ratio f target ratio) as [f'|].
    + intros [= <-]. destruct (IHf _ eq_refl) as (H1 & H2 & H3). simpl.
      rw H1 H2 !Forall_cons !Forall_app. naive_solver.
    + intros (s' & Hs & ->)%fmap_Some. destruct (IHs _ Hs) as (H1 & H2 & H3). simpl.
      rw H1 H2 !Forall_cons !Forall_app. naive_solver.
Qed.

(** A minimum size is one of the arrangement. *)
Lemma minimum_size_shape a b minimum divider :
  shape a = shape b → node_minimum_size a minimum divider = node_minimum_size b minimum divider.
Proof.
  revert b. induction a as [p|i x r f IHf s IHs]; intros [q|j y r' g t]; simpl; try done.
  intros [= -> Hf Hs]. by rw (IHf _ Hf) (IHs _ Hs).
Qed.

Lemma fit_ratio_spec ratio a b content :
  comparable ratio →
  comparable (fit_ratio ratio a b content) ∧
  fit_ratio (fit_ratio ratio a b content) a b content = fit_ratio ratio a b content.
Proof.
  intros H. unfold fit_ratio. set (lo := f32_div a content). set (hi := f32_sub f32_one _).
  destruct (f32_le lo hi) eqn:Hle; [|done].
  destruct (f32_clamp ratio lo hi) as [c|] eqn:E; [|by apply f32_clamp_None in E; congruence].
  destruct (f32_clamp_Some _ _ _ _ H E) as (H1 & H2 & H3 & _). simpl. split; [done|].
  destruct (f32_clamp c lo hi) as [d|] eqn:E'; [|done]. simpl.
  by apply (f32_clamp_Some _ _ _ _ H3 E').
Qed.

Lemma fit_ratios_frame node available minimum divider :
  shape (fit_ratios node available minimum divider) = shape node ∧
  splits (fit_ratios node available minimum divider) = splits node ∧
  (Forall comparable (ratios node) →
   Forall comparable (ratios (fit_ratios node available minimum divider))).
Proof.
  revert available. induction node as [p|i x r f IHf s IHs]; intros available; [done|].
  cbn [fit_ratios]. destruct (node_minimum_size f minimum divider) as [fm|]; [|done].
  destruct (node_minimum_size s minimum divider) as [sm|]; [|done].
  set (content := f32_sub _ divider). cbv zeta. destruct (f32_le content f32_zero); [done|].
  set (r' := fit_ratio r _ _ content).
  assert (comparable r → comparable r') as Hr by apply fit_ratio_spec.
  destruct (child_size available x content r') as [a|],
    (child_size available x content (f32_sub f32_one r')) as [b|]; simpl;
    rw ?Forall_cons ?Forall_app; try (split; [done|split; [done|tauto]]).
  destruct (IHf a) as (-> & -> & Hf), (IHs b) as (-> & -> & Hs). split; [done|split; [done|tauto]].
Qed.

(** Fitting a layout that was fitted changes nothing. *)
Lemma fit_ratios_idem node available minimum divider :
  Forall comparable (ratios node) →
  fit_ratios (fit_ratios node available minimum divider) available minimum divider =
  fit_ratios node available minimum divider.
Proof.
  revert available. induction node as [p|i x r f IHf s IHs]; intros available; [done|].
  cbn [ratios]. rw Forall_cons Forall_app. intros (Hr & Hf & Hs).
  cbn [fit_ratios]. destruct (node_minimum_size f minimum divider) as [fm|] eqn:Ef;
    [|cbn [fit_ratios]; by rw Ef].
  destruct (node_minimum_size s minimum divider) as [sm|] eqn:Es; [|cbn [fit_ratios]; by rw Ef Es].
  set (content := f32_sub _ divider). cbv zeta.
  destruct (f32_le content f32_zero) eqn:Ec.
  { cbn [fit_ratios]. rw Ef Es. fold content. by rw Ec. }
  set (r' := fit_ratio r _ _ content).
  assert (fit_ratio r' (ps_extent fm x) (ps_extent sm x) content = r') as Hfix
    by by apply fit_ratio_spec.
  destruct (child_size available x content r') as [a|] eqn:Ea,
    (child_size available x content (f32_sub f32_one r')) as [b|] eqn:Eb; cbn [fit_ratios];
    try (rw Ef Es; fold content; cbv zeta; by rw Ec Hfix Ea ?Eb).
  rw !(minimum_size_shape _ _ _ _ (proj1 (fit_ratios_frame _ _ _ _))) Ef Es.
  fold content. cbv zeta. by rw Ec Hfix Ea Eb IHf // IHs.
Qed.
