(* ===== verification/CloseConfirmation.v ===== *)
(** * Closing what a person approved

    [src/close_confirmation.rs]: which Panes need a question before they close,
    the one question a window has open, and what closing a Pane or Tab does to
    its parent. *)
From S2P Require Import Prelude.
From S2P Require Import Text.

Inductive CloseTarget :=
  | Close_Pane (workspace_id tab_id pane_id : N)
  | Close_Tab (workspace_id tab_id : N)
  | Close_Worktree (workspace_id worktree_id : N)
  | Close_KillWorkspace (workspace_id : N).
#[export] Instance CloseTarget_eq_dec : EqDecision CloseTarget.
Proof. solve_decision. Defined.

Record PendingCloseConfirmation := { pc_generation : N; pc_target : CloseTarget }.
#[export] Instance PendingCloseConfirmation_eq_dec : EqDecision PendingCloseConfirmation.
Proof. solve_decision. Defined.

(** ** Which Panes need a question *)

(** [src/terminal/failure.rs]: what failed and whether the session survives it. The
    kind of an I/O error is the operating system's number for it. *)
Inductive FailureClass :=
  | Failure_Pty | Failure_Emulator | Failure_Presentation | Failure_Platform | Failure_Resource.
Inductive Recoverability := Recoverable | Fatal.
Inductive FailureReason :=
  | Reason_Io (kind : N)
  | Reason_OutOfMemory | Reason_InvalidValue | Reason_OutOfSpace | Reason_InvalidInput
  | Reason_InvalidUtf8 | Reason_CapacityExceeded | Reason_ChannelClosed.

Record TerminalFailure := {
  tf_class : FailureClass;
  tf_recoverability : Recoverability;
  tf_operation : ustring;
  tf_reason : option FailureReason
}.

Definition failure_new (class : FailureClass) (recoverability : Recoverability) (operation : ustring)
    : TerminalFailure :=
  {| tf_class := class; tf_recoverability := recoverability; tf_operation := operation; tf_reason := None |}.
Definition failure_pty := failure_new Failure_Pty Fatal.
Definition failure_emulator := failure_new Failure_Emulator Fatal.
Definition failure_presentation := failure_new Failure_Presentation Recoverable.
Definition failure_platform := failure_new Failure_Platform Recoverable.
Definition failure_resource := failure_new Failure_Resource Recoverable.

Definition is_fatal (failure : TerminalFailure) : bool :=
  match tf_recoverability failure with Fatal => true | Recoverable => false end.

(** [TerminalSessionExit] of [src/terminal/session.rs]. *)
Inductive TerminalSessionExit :=
  | Exit_Success
  | Exit_Code (code : N)
  | Exit_Signal (signal : ustring)
  | Exit_GracefulShutdown
  | Exit_ForcedShutdown.

Inductive PaneTerminalState :=
  | Pane_Running
  | Pane_Exited (exit : TerminalSessionExit)
  | Pane_Failed (failure : TerminalFailure) (last_valid_frame : option N).

Definition pane_failure (state : PaneTerminalState) : option TerminalFailure :=
  match state with Pane_Failed failure _ => Some failure | Pane_Running | Pane_Exited _ => None end.

(** The terminal metadata of [src/terminal/metadata.rs] that the question reads; a
    duration is in nanoseconds. *)
Inductive MetadataFreshness := Live | Stale.
Inductive PromptZone := Zone_Unknown | Zone_Prompt | Zone_CommandInput | Zone_CommandOutput.
Inductive CommandState :=
  | Command_Running
  | Command_Finished (exit_status : option Z) (duration : N).
Record CommandMetadata := { cm_line : ustring; cm_state : CommandState }.

Record PaneCloseFacts := {
  pf_live_session : bool;
  pf_state : PaneTerminalState;
  pf_disconnected : bool;
  pf_freshness : MetadataFreshness;
  pf_command : option CommandMetadata;
  pf_prompt_zone : PromptZone
}.

(** [PaneCloseFacts::requires_confirmation]. *)
Definition requires_confirmation (facts : PaneCloseFacts) : bool :=
  if negb (pf_live_session facts)
     || match pf_state facts with Pane_Exited _ => true | _ => false end
     || match pane_failure (pf_state facts) with Some failure => is_fatal failure | None => false end
     || pf_disconnected facts
  then false
  else match pf_freshness facts with
  | Stale => true
  | Live =>
      match cm_state <$> pf_command facts with
      | Some (Command_Finished _ _) => false
      | _ => match pf_prompt_zone facts with
             | Zone_Unknown | Zone_CommandOutput => true
             | _ => false
             end
      end
  end.

(** ** The open question *)

Record CloseConfirmation := { cc_generation : N; cc_pending : option PendingCloseConfirmation }.
Definition close_confirmation_default : CloseConfirmation :=
  {| cc_generation := 0; cc_pending := None |}.

(** [CloseConfirmation::begin]. *)
Definition begin_close (target : CloseTarget) (c : CloseConfirmation)
    : CloseConfirmation * option N :=
  match cc_pending c with
  | Some _ => (c, None)
  | None =>
      match u64_checked_add (cc_generation c) 1 with
      | None => (c, None)
      | Some generation =>
          ({| cc_generation := generation;
              cc_pending := Some {| pc_generation := generation; pc_target := target |} |},
           Some generation)
      end
  end.

(** [CloseConfirmation::settle_approval]. *)
Definition settle_approval (generation : N) (target : CloseTarget) (confirmed : bool)
    (c : CloseConfirmation) : CloseConfirmation * bool :=
  if negb (bool_decide (cc_pending c = Some {| pc_generation := generation; pc_target := target |}))
  then (c, false)
  else ({| cc_generation := cc_generation c; cc_pending := None |}, confirmed).

(** [CloseConfirmation::presentation_failed]. *)
Definition presentation_failed (generation : N) (c : CloseConfirmation) : CloseConfirmation :=
  match cc_pending c with
  | Some pending =>
      if (pc_generation pending =? generation)%N
      then {| cc_generation := cc_generation c; cc_pending := None |} else c
  | None => c
  end.

(** ** Parents *)

Inductive HierarchyClose := HierarchyClose_Pane | HierarchyClose_Tab.
Inductive CloseContinuation := Continue_Remove | Continue_Parent.
#[export] Instance CloseContinuation_eq_dec : EqDecision CloseContinuation.
Proof. solve_decision. Defined.

(** [HierarchyClose::resolve]. *)
Definition resolve_close (close : HierarchyClose) (siblings : nat) : CloseContinuation :=
  if 1 <? siblings then Continue_Remove
  else match close with HierarchyClose_Pane | HierarchyClose_Tab => Continue_Parent end.

Inductive ClosePaneOutcome (T : Type) :=
  | PaneClosed (closed_pane_id focused_pane_id : N) (closed_pane : T)
  | CloseTab (tab_id : N).
Arguments PaneClosed {T}.
Arguments CloseTab {T}.

Inductive CloseTabOutcome (T : Type) :=
  | TabClosed (closed_tab_id active_tab_id : N) (payload : T)
  | CloseWorkspace (final_tab_id : N).
Arguments TabClosed {T}.
Arguments CloseWorkspace {T}.

(** ** Every approved close was asked for, once *)

Inductive ConfirmationCall :=
  | Cc_begin (target : CloseTarget)
  | Cc_settle (generation : N) (target : CloseTarget) (confirmed : bool)
  | Cc_failed (generation : N).

(** The questions a run asked and the closes it approved, newest first. *)
Record ConfirmationRun := {
  cr_state : CloseConfirmation;
  cr_asked : list (N * CloseTarget);
  cr_approved : list (N * CloseTarget)
}.

Definition confirmation_step (r : ConfirmationRun) (call : ConfirmationCall) : ConfirmationRun :=
  match call with
  | Cc_begin target =>
      let '(c, answer) := begin_close target (cr_state r) in
      {| cr_state := c; cr_approved := cr_approved r;
         cr_asked := match answer with Some generation => [(generation, target)] | None => [] end
                     ++ cr_asked r |}
  | Cc_settle generation target confirmed =>
      let '(c, approved) := settle_approval generation target confirmed (cr_state r) in
      {| cr_state := c; cr_asked := cr_asked r;
         cr_approved := (if approved then [(generation, target)] else []) ++ cr_approved r |}
  | Cc_failed generation =>
      {| cr_state := presentation_failed generation (cr_state r); cr_asked := cr_asked r;
         cr_approved := cr_approved r |}
  end.

Definition confirmation_run (calls : list ConfirmationCall) : ConfirmationRun :=
  fold_left confirmation_step calls
    {| cr_state := close_confirmation_default; cr_asked := []; cr_approved := [] |}.

(** Generations grow, so a question is asked once; the open one is not yet approved. *)
Record ConfirmationOk (r : ConfirmationRun) : Prop := {
  co_bound : (cc_generation (cr_state r) <= u64_max)%N;
  co_asked : Forall (λ q, q.1 <= cc_generation (cr_state r))%N (cr_asked r);
  co_once : NoDup (map fst (cr_asked r));
  co_approved : cr_approved r ⊆+ cr_asked r;
  co_pending : ∀ p, cc_pending (cr_state r) = Some p →
    ((pc_generation p, pc_target p) :: cr_approved r) ⊆+ cr_asked r
}.

Lemma ConfirmationOk_step r call : ConfirmationOk r → ConfirmationOk (confirmation_step r call).
Proof.
  intros [H1 H2 H3 H4 H5]. destruct call as [target|generation target confirmed|generation]; simpl.
  - unfold begin_close. destruct (cc_pending (cr_state r)) as [p|] eqn:Ep.
    { split; simpl; try done. intros q Hq. apply H5. congruence. }
    destruct (u64_checked_add (cc_generation (cr_state r)) 1) as [g|] eqn:Eg.
    2: { split; simpl; try done. intros q Hq. congruence. }
    unfold u64_checked_add in Eg. destruct (N.leb_spec (cc_generation (cr_state r) + 1) u64_max) as [Hle|]; [|done].
    injection Eg as <-. split; simpl; try done.
    + constructor; [simpl; lia|]. eapply Forall_impl; [exact H2|]. simpl. lia.
    + constructor; [|done]. intros (q & Hq & Hin)%list_elem_of_fmap. rw Forall_forall in H2.
      specialize (H2 q Hin). simpl in *. lia.
    + by constructor.
    + intros p [= <-]. simpl. by constructor.
  - unfold settle_approval. case_bool_decide as Ep; simpl; [|by split; simpl].
    specialize (H5 _ Ep). simpl in H5. split; simpl; try done.
    by destruct confirmed.
  - unfold presentation_failed. destruct (cc_pending (cr_state r)) as [p|] eqn:Ep.
    + destruct (pc_generation p =? generation)%N; [by split|]. split; simpl; try done.
      intros q Hq. apply H5. congruence.
    + split; simpl; try done. intros q Hq. congruence.
Qed.

(** Whatever sequence of questions, answers and failed presentations a window
    sees, each approved close was asked for with exactly that target, and no
    question approves twice, so a late or repeated answer closes nothing. *)
Theorem approvals_were_asked_once (calls : list ConfirmationCall) :
  let r := confirmation_run calls in
  cr_approved r ⊆+ cr_asked r ∧ NoDup (map fst (cr_asked r)) ∧
  (∀ p, cc_pending (cr_state r) = Some p →
     (pc_generation p, pc_target p) ∈ cr_asked r ∧ (pc_generation p ∉ map fst (cr_approved r))).
Proof.
  cbv zeta. assert (ConfirmationOk (confirmation_run calls)) as [H1 H2 H3 H4 H5].
  { unfold confirmation_run. assert (∀ r, ConfirmationOk r → ConfirmationOk (fold_left confirmation_step calls r)) as H.
    { induction calls as [|call calls IH]; intros r Hr; simpl; [done|]. by apply IH, ConfirmationOk_step. }
    apply H. split; simpl; try done. constructor. }
  split; [done|]. split; [done|]. intros p Hp. specialize (H5 p Hp). split.
  - eapply elem_of_submseteq; [|exact H5]. by left.
  - apply (fmap_submseteq fst) in H5. intros Hin.
    assert (NoDup (map fst ((pc_generation p, pc_target p) :: cr_approved (confirmation_run calls)))) as Hnd.
    { eapply NoDup_submseteq_l; [exact H5|exact H3]. }
    simpl in Hnd. by apply NoDup_cons in Hnd as [? _].
Qed.
