(* ===== verification/PaneTab.v ===== *)
(** * A Tab and its operations

    The [Tab] of [src/domain/tab.rs]: the layout tree with the Panes' payloads,
    the focus history, zoom, and Panes parked while a close is undecided. *)
From S2P Require Import Prelude.
From S2P Require Import F32.
From S2P Require Import CloseConfirmation.
From S2P Require Import PaneLayout.

(** A geometry another presentation saved. *)
Inductive PaneArrangement :=
  | ArrangedPane (pane : PaneId)
  | ArrangedSplit (axis : SplitAxis) (ratio : f32) (first second : PaneArrangement).

Inductive FocusHistoryStep := HistoryPrevious | HistoryNext.

Record ParkedPane (T : Type) := {
  pk_id : PaneId;
  pk_payload : T;
  pk_original : PaneNode;
  pk_remaining : PaneNode;
  pk_was_root : bool
}.
Arguments pk_id {T}.
Arguments pk_payload {T}.
Arguments pk_original {T}.
Arguments pk_remaining {T}.
Arguments pk_was_root {T}.

Record Tab (T : Type) := {
  tb_id : TabId;
  tb_root : PaneNode;
  tb_panes : gmap PaneId T;
  tb_focused : PaneId;
  tb_history : list PaneId;
  tb_root_pane : PaneId;
  tb_zoom : ZoomState;
  tb_minimum : PaneSize;
  tb_next_pane : N;
  tb_next_split : N
}.
Arguments tb_id {T}.
Arguments tb_root {T}.
Arguments tb_panes {T}.
Arguments tb_focused {T}.
Arguments tb_history {T}.
Arguments tb_root_pane {T}.
Arguments tb_zoom {T}.
Arguments tb_minimum {T}.
Arguments tb_next_pane {T}.
Arguments tb_next_split {T}.
Arguments Build_Tab {T}.

(** The loop [build] of [restore_arrangement]: the Panes named so far and the
    next Split identity are threaded through both sides. *)
Fixpoint build_arrangement (value : PaneArrangement) (panes : gset PaneId) (next : N)
    : result (PaneNode * gset PaneId * N) PaneError :=
  match value with
  | ArrangedPane id =>
      if bool_decide (id ∈ panes) then Err (MissingPane id)
      else Ok (Leaf id, {[id]} ∪ panes, next)
  | ArrangedSplit axis ratio first second =>
      if negb (is_finite ratio) || f32_le ratio f32_zero || f32_ge ratio f32_one
      then Err (InvalidSplitRatio ratio)
      else
        match u64_checked_add next 1 with
        | None => Err SplitIdExhausted
        | Some next' =>
            let? (first, panes, next') := build_arrangement first panes next' in
            let? (second, panes, next') := build_arrangement second panes next' in
            Ok (Split next axis ratio first second, panes, next')
        end
  end.

Section Tab.
Context {T : Type}.
Implicit Types tab : Tab T.

Definition set_tb_root root tab : Tab T :=
  Build_Tab (tb_id tab) root (tb_panes tab) (tb_focused tab) (tb_history tab) (tb_root_pane tab)
    (tb_zoom tab) (tb_minimum tab) (tb_next_pane tab) (tb_next_split tab).
Definition set_tb_panes panes tab : Tab T :=
  Build_Tab (tb_id tab) (tb_root tab) panes (tb_focused tab) (tb_history tab) (tb_root_pane tab)
    (tb_zoom tab) (tb_minimum tab) (tb_next_pane tab) (tb_next_split tab).
Definition set_tb_history history tab : Tab T :=
  Build_Tab (tb_id tab) (tb_root tab) (tb_panes tab) (tb_focused tab) history (tb_root_pane tab)
    (tb_zoom tab) (tb_minimum tab) (tb_next_pane tab) (tb_next_split tab).
Definition set_tb_focused focused tab : Tab T :=
  Build_Tab (tb_id tab) (tb_root tab) (tb_panes tab) focused (tb_history tab) (tb_root_pane tab)
    (tb_zoom tab) (tb_minimum tab) (tb_next_pane tab) (tb_next_split tab).
Definition set_tb_root_pane root_pane tab : Tab T :=
  Build_Tab (tb_id tab) (tb_root tab) (tb_panes tab) (tb_focused tab) (tb_history tab) root_pane
    (tb_zoom tab) (tb_minimum tab) (tb_next_pane tab) (tb_next_split tab).
Definition set_tb_zoom zoom tab : Tab T :=
  Build_Tab (tb_id tab) (tb_root tab) (tb_panes tab) (tb_focused tab) (tb_history tab)
    (tb_root_pane tab) zoom (tb_minimum tab) (tb_next_pane tab) (tb_next_split tab).
Definition set_tb_next next_pane next_split tab : Tab T :=
  Build_Tab (tb_id tab) (tb_root tab) (tb_panes tab) (tb_focused tab) (tb_history tab)
    (tb_root_pane tab) (tb_zoom tab) (tb_minimum tab) next_pane next_split.

(** [Tab::new]. *)
Definition tab_new (id : TabId) (minimum_pane_size : PaneSize) (create_initial_pane : PaneId → T)
    : Tab T :=
  {| tb_id := id; tb_root := Leaf 1; tb_panes := {[1%N := create_initial_pane 1%N]};
     tb_focused := 1; tb_history := [1%N]; tb_root_pane := 1; tb_zoom := Restored;
     tb_minimum := minimum_pane_size; tb_next_pane := 2; tb_next_split := 1 |}.

Definition set_minimum_pane_size (size : PaneSize) tab : Tab T :=
  Build_Tab (tb_id tab) (tb_root tab) (tb_panes tab) (tb_focused tab) (tb_history tab)
    (tb_root_pane tab) (tb_zoom tab) size (tb_next_pane tab) (tb_next_split tab).

Definition pane_count tab : nat := size (tb_panes tab).

Definition restore_arrangement (arrangement : PaneArrangement) tab
    : Tab T * result unit PaneError :=
  match build_arrangement arrangement ∅ (tb_next_split tab) with
  | Err error => (tab, Err error)
  | Ok (root, panes, next) =>
      if negb (size panes =? size (tb_panes tab))
         || vany (λ id, negb (bool_decide (id ∈ panes))) (elements (dom (tb_panes tab)))
      then (tab, Err (MissingPane (tb_root_pane tab)))
      else (set_tb_next (tb_next_pane tab) next (set_tb_root root tab), Ok tt)
  end.

(** ** Focus and zoom *)

Definition apply_focused_pane (pane_id : PaneId) tab : Tab T :=
  let tab := set_tb_focused pane_id tab in
  match tb_zoom tab with
  | Zoomed _ => set_tb_zoom (Zoomed pane_id) tab
  | Restored => tab
  end.

Definition set_focused_pane (pane_id : PaneId) tab : Tab T :=
  let history := vfilter (λ candidate, negb (candidate =? pane_id)%N) (tb_history tab) in
  apply_focused_pane pane_id (set_tb_history (history ++ [pane_id]) tab).

Definition focus_pane (pane_id : PaneId) tab : Tab T * result unit PaneError :=
  if negb (contains_pane (tb_root tab) pane_id) then (tab, Err (PaneNotFound pane_id))
  else (set_focused_pane pane_id tab, Ok tt).

Definition focus_pane_in_direction (direction : FocusDirection) tab : Tab T * option PaneId :=
  match pane_in_direction (tb_root tab) (tb_focused tab) direction with
  | None => (tab, None)
  | Some pane_id => (set_focused_pane pane_id tab, Some pane_id)
  end.

(** The index the next Pane of the history has, from the current one. *)
Definition history_step (step : FocusHistoryStep) (current len : nat) : nat :=
  match step with
  | HistoryPrevious => match current with 0 => len - 1 | S previous => previous end
  | HistoryNext => (current + 1) mod len
  end.

Definition focus_pane_in_history (step : FocusHistoryStep) tab : option (Tab T * option PaneId) :=
  if length (tb_history tab) <=? 1 then Some (tab, None)
  else
    match vposition (λ pane_id, (pane_id =? tb_focused tab)%N) (tb_history tab) with
    | None => Some (tab, None)
    | Some current =>
        match tb_history tab !! history_step step current (length (tb_history tab)) with
        | Some pane_id => Some (apply_focused_pane pane_id tab, Some pane_id)
        | None => None
        end
    end.

Definition focus_previous_pane tab := focus_pane_in_history HistoryPrevious tab.
Definition focus_next_pane tab := focus_pane_in_history HistoryNext tab.

Definition has_pane tab (pane_id : PaneId) : bool := bool_decide (is_Some (tb_panes tab !! pane_id)).

Fixpoint restore_history tab (restored history : list PaneId) : list PaneId :=
  match history with
  | [] => restored
  | pane_id :: history =>
      restore_history tab
        (if has_pane tab pane_id && negb (bool_decide (pane_id ∈ restored))
         then restored ++ [pane_id] else restored) history
  end.

Definition restore_focus (history : list PaneId) (focused : option PaneId) (zoomed : bool) tab
    : Tab T :=
  let restored := vfilter (λ pane_id, negb (bool_decide (pane_id ∈ history))) (tb_history tab) in
  let restored := restore_history tab restored history in
  let focused := match focused with
                 | Some pane_id => if has_pane tab pane_id then Some pane_id else None
                 | None => None
                 end in
  let focused_pane_id := default (tb_root_pane tab) focused in
  let restored := if negb (bool_decide (focused_pane_id ∈ restored))
                  then restored ++ [focused_pane_id] else restored in
  let tab := set_tb_focused focused_pane_id (set_tb_history restored tab) in
  set_tb_zoom (if zoomed && bool_decide (is_Some focused) && (1 <? pane_count tab)
               then Zoomed focused_pane_id else Restored) tab.

Definition toggle_zoom tab : Tab T * option ZoomState :=
  if pane_count tab <=? 1 then (tab, None)
  else
    let zoom := match tb_zoom tab with
                | Restored => Zoomed (tb_focused tab)
                | Zoomed _ => Restored
                end in
    (set_tb_zoom zoom tab, Some zoom).

(** ** Inserting and moving Panes *)

Definition next_split_ids tab : result (PaneId * SplitId * N * N) PaneError :=
  let? next_pane_id := ok_or (u64_checked_add (tb_next_pane tab) 1) PaneIdExhausted in
  let? next_split_id := ok_or (u64_checked_add (tb_next_split tab) 1) SplitIdExhausted in
  Ok (tb_next_pane tab, tb_next_split tab, next_pane_id, next_split_id).

Definition insert_pane (source : PaneId) (edge : PaneEdge) (create_pane : PaneId → T) tab
    : Tab T * result PaneId PaneError :=
  match next_split_ids tab with
  | Err error => (tab, Err error)
  | Ok (pane_id, split_id, next_pane_id, next_split_id) =>
      match with_split (tb_root tab) source pane_id split_id edge with
      | None => (tab, Err (PaneNotFound source))
      | Some root =>
          let tab := set_tb_panes (<[pane_id := create_pane pane_id]> (tb_panes tab))
                       (set_tb_root root tab) in
          let tab := set_tb_next next_pane_id next_split_id tab in
          (set_tb_history (pane_id :: tb_history tab) tab, Ok pane_id)
      end
  end.

Definition validate_split tab (target_pane_id : PaneId) (axis : SplitAxis) (target_size : PaneSize)
    (divider_size : f32) : result unit PaneError :=
  if negb (contains_pane (tb_root tab) target_pane_id) then Err (PaneNotFound target_pane_id)
  else
    let? _ := validate_divider_size divider_size in
    let? required := combined_minimum (tb_minimum tab) (tb_minimum tab) axis divider_size in
    ensure_space target_size required.

(** [moved_root]; [None] is its [unreachable!]. *)
Definition moved_root tab (pane_id target_pane_id : PaneId) (edge : PaneEdge) : option PaneNode :=
  match without_pane (tb_root tab) pane_id with
  | Some {| pr_replacement := Some remaining |} =>
      with_split remaining target_pane_id pane_id (tb_next_split tab) edge
  | _ => None
  end.

Definition move_pane (pane_id target_pane_id : PaneId) (edge : PaneEdge) (target_size : PaneSize)
    (divider_size : f32) tab : option (Tab T * result bool PaneError) :=
  if negb (contains_pane (tb_root tab) pane_id) then Some (tab, Err (PaneNotFound pane_id))
  else match validate_split tab target_pane_id (edge_axis edge) target_size divider_size with
  | Err error => Some (tab, Err error)
  | Ok _ =>
      if (pane_id =? target_pane_id)%N then Some (tab, Ok false)
      else match u64_checked_add (tb_next_split tab) 1 with
      | None => Some (tab, Err SplitIdExhausted)
      | Some next_split_id =>
          match moved_root tab pane_id target_pane_id edge with
          | None => None
          | Some new_root =>
              if has_arrangement_of new_root (tb_root tab) then Some (tab, Ok false)
              else
                let tab := set_tb_next (tb_next_pane tab) next_split_id (set_tb_root new_root tab) in
                Some (set_focused_pane pane_id (set_tb_zoom Restored tab), Ok true)
          end
      end
  end.

Definition swap_panes (pane_id target_pane_id : PaneId) tab : Tab T * result bool PaneError :=
  if negb (contains_pane (tb_root tab) pane_id) then (tab, Err (PaneNotFound pane_id))
  else if negb (contains_pane (tb_root tab) target_pane_id)
  then (tab, Err (PaneNotFound target_pane_id))
  else if (pane_id =? target_pane_id)%N then (tab, Ok false)
  else
    let tab := set_tb_root (exchange_panes (tb_root tab) pane_id target_pane_id) tab in
    (set_focused_pane pane_id (set_tb_zoom Restored tab), Ok true).

Definition can_receive tab (target_pane_id : PaneId) (edge : PaneEdge) (incoming : PaneSize)
    (target_size : PaneSize) (divider_size : f32) : bool :=
  contains_pane (tb_root tab) target_pane_id
  && is_ok (validate_divider_size divider_size)
  && is_ok (let? required := combined_minimum (tb_minimum tab) incoming (edge_axis edge)
                               divider_size in
            ensure_space target_size required).

Definition resolve_drop tab (pane_id target_pane_id : PaneId) (drop : PaneDrop)
    (target_size : PaneSize) (divider_size : f32) : option (option PaneDrop) :=
  if (pane_id =? target_pane_id)%N || negb (contains_pane (tb_root tab) pane_id)
     || negb (contains_pane (tb_root tab) target_pane_id)
  then Some None
  else match drop with
  | DropSwap => Some (Some DropSwap)
  | DropEdge edge =>
      match moved_root tab pane_id target_pane_id edge with
      | None => None
      | Some moved =>
          Some (if has_arrangement_of moved (tb_root tab) then None
                else if has_arrangement_of moved
                          (exchange_panes (tb_root tab) pane_id target_pane_id)
                then Some DropSwap
                else if can_receive tab target_pane_id edge (tb_minimum tab) target_size divider_size
                then Some drop else None)
      end
  end.

Definition can_insert tab (beside : PaneId) (edge : PaneEdge) (incoming available : PaneSize)
    (divider_size : f32) : bool :=
  let pane_id := tb_next_pane tab in
  let split_id := tb_next_split tab in
  let incoming := {| ps_width := f32_max (ps_width incoming) (ps_width (tb_minimum tab));
                     ps_height := f32_max (ps_height incoming) (ps_height (tb_minimum tab)) |} in
  match with_split (tb_root tab) beside pane_id split_id edge with
  | None => false
  | Some root =>
      is_ok (let? required := minimum_size_with root (tb_minimum tab) (pane_id, incoming)
                                divider_size in
             ensure_space available required)
  end.

(** ** Closing and parking *)

Definition close_pane (pane_id : PaneId) tab
    : option (Tab T * result (ClosePaneOutcome T) PaneError) :=
  match without_pane (tb_root tab) pane_id with
  | None => Some (tab, Err (PaneNotFound pane_id))
  | Some removal =>
      if bool_decide (resolve_close HierarchyClose_Pane (pane_count tab) = Continue_Parent)
      then Some (tab, Ok (CloseTab (tb_id tab)))
      else match pr_replacement removal with
      | None => None
      | Some new_root =>
          match tb_panes tab !! pane_id with
          | None => Some (tab, Err (MissingPane pane_id))
          | Some pane =>
              let tab := set_tb_root new_root (set_tb_panes (delete pane_id (tb_panes tab)) tab) in
              let tab := if (tb_root_pane tab =? pane_id)%N
                         then set_tb_root_pane (first_pane_id (tb_root tab)) tab else tab in
              let tab := set_tb_history
                           (vfilter (λ candidate, negb (candidate =? pane_id)%N) (tb_history tab)) tab in
              let tab := if (tb_focused tab =? pane_id)%N
                         then set_focused_pane (pr_focus_fallback removal) tab else tab in
              let tab := if (pane_count tab =? 1) || bool_decide (tb_zoom tab = Zoomed pane_id)
                         then set_tb_zoom Restored tab else tab in
              Some (tab, Ok (PaneClosed pane_id (tb_focused tab) pane))
          end
      end
  end.

Definition park_pane (id : PaneId) tab : option (Tab T * result (option (ParkedPane T)) PaneError) :=
  match close_pane id tab with
  | None => None
  | Some (tab', Err error) => Some (tab', Err error)
  | Some (tab', Ok (PaneClosed _ _ closed_pane)) =>
      Some (tab', Ok (Some {| pk_id := id; pk_payload := closed_pane; pk_original := tb_root tab;
                              pk_remaining := tb_root tab';
                              pk_was_root := (tb_root_pane tab =? id)%N |}))
  | Some (tab', Ok (CloseTab _)) => Some (tab', Ok None)
  end.

(** The layout a restored Pane returns to. *)
Definition restored_root (parked : ParkedPane T) (source : PaneId) (edge : PaneEdge) tab
    : result (Tab T) PaneError :=
  if node_eqb (tb_root tab) (pk_remaining parked) then Ok (set_tb_root (pk_original parked) tab)
  else
    let? next := ok_or (u64_checked_add (tb_next_split tab) 1) SplitIdExhausted in
    let? root := ok_or (with_split (tb_root tab) source (pk_id parked) (tb_next_split tab) edge)
                       (PaneNotFound source) in
    Ok (set_tb_next (tb_next_pane tab) next (set_tb_root root tab)).

Definition restore_parked_pane (parked : ParkedPane T) (source : PaneId) (edge : PaneEdge) tab
    : Tab T * result PaneId PaneError :=
  match restored_root parked source edge tab with
  | Err error => (tab, Err error)
  | Ok tab =>
      let tab := if pk_was_root parked then set_tb_root_pane (pk_id parked) tab else tab in
      let tab := set_tb_panes (<[pk_id parked := pk_payload parked]> (tb_panes tab)) tab in
      (set_tb_history (pk_id parked :: tb_history tab) tab, Ok (pk_id parked))
  end.

(** ** Resizing *)

Definition fit_split_ratios (available : PaneSize) (divider_size : f32) tab : Tab T :=
  if is_ok (validate_divider_size divider_size)
  then set_tb_root (fit_ratios (tb_root tab) available (tb_minimum tab) divider_size) tab
  else tab.

Definition tab_minimum_size tab (divider_size : f32) : result PaneSize PaneError :=
  let? _ := validate_divider_size divider_size in
  node_minimum_size (tb_root tab) (tb_minimum tab) divider_size.

Definition split_ratio_range tab (split_id : SplitId) (available_size : PaneSize)
    (divider_size : f32) : result (f32 * f32) PaneError :=
  let? _ := validate_divider_size divider_size in
  let? (axis, first, second) := ok_or (find_split (tb_root tab) split_id)
                                       (SplitNotFound split_id) in
  let? first_minimum := node_minimum_size first (tb_minimum tab) divider_size in
  let? second_minimum := node_minimum_size second (tb_minimum tab) divider_size in
  let? required := combined_minimum first_minimum second_minimum axis divider_size in
  let? _ := ensure_space available_size required in
  let content_extent := f32_sub (ps_extent available_size axis) divider_size in
  let minimum_ratio := f32_div (ps_extent first_minimum axis) content_extent in
  let maximum_ratio := f32_sub f32_one (f32_div (ps_extent second_minimum axis) content_extent) in
  Ok (minimum_ratio, maximum_ratio).

(** [resize_split]; [None] is the panic of [clamp]. *)
Definition resize_split (split_id : SplitId) (available_size : PaneSize)
    (divider_size requested_ratio : f32) tab : option (Tab T * result f32 PaneError) :=
  match validate_divider_size divider_size with
  | Err error => Some (tab, Err error)
  | Ok _ =>
      if negb (is_finite requested_ratio) then Some (tab, Err (InvalidSplitRatio requested_ratio))
      else match split_ratio_range tab split_id available_size divider_size with
      | Err error => Some (tab, Err error)
      | Ok (start, stop) =>
          match f32_clamp requested_ratio start stop with
          | None => None
          | Some ratio =>
              match set_split_ratio (tb_root tab) split_id ratio with
              | None => Some (tab, Err (SplitNotFound split_id))
              | Some root => Some (set_tb_root root tab, Ok ratio)
              end
          end
      end
  end.
End Tab.
