(* ===== verification/PaneTabProofs.v ===== *)
(** * The invariant of a Tab

    [TabOk] ties the layout tree, the Panes' payloads, the focus history, zoom
    and the identity counters of a [Tab] together, [ParkedOk] ties parked Panes
    to it, and every operation of [PaneTab] keeps both. *)
From S2P Require Import Prelude.
From S2P Require Import F32.
From S2P Require Import CloseConfirmation.
From S2P Require Import PaneLayout.
From S2P Require Import PaneTab.

Definition below (bound : N) (id : N) : Prop := (1 <= id < bound)%N.

(** A layout with distinct Panes and Splits below the counters. *)
Record NodeOk (next_pane next_split : N) (node : PaneNode) : Prop := {
  no_leaves : NoDup (leaves node);
  no_splits : NoDup (splits node);
  no_pane_ids : Forall (below next_pane) (leaves node);
  no_split_ids : Forall (below next_split) (splits node);
  no_ratios : Forall comparable (ratios node)
}.

Lemma below_mono n m id : (n <= m)%N → below n id → below m id.
Proof. unfold below. lia. Qed.

Lemma NodeOk_mono p s p' s' node :
  (p <= p')%N → (s <= s')%N → NodeOk p s node → NodeOk p' s' node.
Proof.
  intros Hp Hs [H1 H2 H3 H4 H5]. split; try done.
  - eapply Forall_impl; [exact H3|]. intros ?. by apply below_mono.
  - eapply Forall_impl; [exact H4|]. intros ?. by apply below_mono.
Qed.

Lemma NodeOk_with_split p s node target new sid edge node' :
  NodeOk p s node → with_split node target new sid edge = Some node' →
  new ∉ leaves node → sid ∉ splits node → below p new → below s sid → NodeOk p s node'.
Proof.
  intros [H1 H2 H3 H4 H5] E Hn Hs Hp Hsp. pose proof (with_split_leaves _ _ _ _ _ _ E) as Hl.
  apply with_split_Some in E as (_ & Hsl & Hr). split.
  - rw Hl. by constructor.
  - rw Hsl. by constructor.
  - rw Hl. by constructor.
  - rw Hsl. by constructor.
  - auto.
Qed.

Lemma NodeOk_without p s node target removal node' :
  NodeOk p s node → without_pane node target = Some removal →
  pr_replacement removal = Some node' →
  NodeOk p s node' ∧ leaves node ≡ₚ (target :: leaves node') ∧
  pr_focus_fallback removal ∈ leaves node' ∧ (target ∉ leaves node').
Proof.
  intros [H1 H2 H3 H4 H5] (l1 & l2 & Hl & Hn & H)%without_pane_Some E. rw E in H.
  destruct H as (Hl' & Hf & (sid & Hs) & Hr).
  assert (leaves node ≡ₚ (target :: leaves node')) as Hp by (rw Hl Hl'; by rw Permutation_middle).
  rw Hp in H1 H3. rw Hs in H2 H4. apply NoDup_cons in H1 as [Hnt H1].
  apply NoDup_cons in H2 as [_ H2]. apply Forall_cons in H3 as [_ H3], H4 as [_ H4].
  split; [by split; auto|]. split; [done|]. split; [|done]. rw Hl' elem_of_app.
  destruct Hf as [Hf|Hf]; [left; by apply last_Some_elem_of|right; by apply head_Some_elem_of].
Qed.

Section TabOk.
Context {T : Type}.
Implicit Types tab : Tab T.

Record TabOk tab : Prop := {
  ok_node : NodeOk (tb_next_pane tab) (tb_next_split tab) (tb_root tab);
  ok_panes : ∀ p, p ∈ leaves (tb_root tab) ↔ is_Some (tb_panes tab !! p);
  ok_history : tb_history tab ≡ₚ leaves (tb_root tab);
  ok_focused : tb_focused tab ∈ leaves (tb_root tab);
  ok_root_pane : tb_root_pane tab ∈ leaves (tb_root tab);
  ok_zoom : ∀ p, tb_zoom tab = Zoomed p → p = tb_focused tab ∧ 1 < length (leaves (tb_root tab));
  ok_next : (1 <= tb_next_pane tab <= u64_max)%N ∧ (1 <= tb_next_split tab <= u64_max)%N
}.

(** Parked Panes: gone from the Tab, with the layout each was removed from. *)
Record ParkedOk tab (parked : list (ParkedPane T)) : Prop := {
  po_ids : NoDup (map pk_id parked);
  po_each : ∀ k, k ∈ parked →
    (pk_id k ∉ leaves (tb_root tab)) ∧ below (tb_next_pane tab) (pk_id k) ∧
    NodeOk (tb_next_pane tab) (tb_next_split tab) (pk_original k) ∧
    leaves (pk_original k) ≡ₚ (pk_id k :: leaves (pk_remaining k))
}.

Lemma ok_NoDup_history tab : TabOk tab → NoDup (tb_history tab).
Proof. intros [[H _ _ _ _] _ Hh _ _ _ _]. by rw Hh. Qed.

Lemma pane_count_leaves tab : TabOk tab → pane_count tab = length (leaves (tb_root tab)).
Proof.
  intros [[H _ _ _ _] Hp _ _ _ _ _]. unfold pane_count.
  rw -size_dom -(size_list_to_set (C := gset N) _ H). f_equal. apply set_eq. intros p. rw elem_of_dom elem_of_list_to_set. by rw Hp.
Qed.

Lemma tab_new_ok id minimum create : TabOk (tab_new (T := T) id minimum create).
Proof.
  split; simpl; try done.
  - split; simpl; [apply NoDup_singleton|constructor| |constructor|constructor].
    constructor; [|constructor]. unfold below. lia.
  - intros p. rw list_elem_of_singleton lookup_singleton. case_decide; [naive_solver|].
    rw -not_eq_None_Some. naive_solver.
  - by apply list_elem_of_singleton.
  - by apply list_elem_of_singleton.
Qed.

(** ** Focus *)

Lemma retain_perm (l : list N) p :
  NoDup l → p ∈ l → vfilter (λ c, negb (c =? p)%N) l ++ [p] ≡ₚ l.
Proof.
  intros Hnd Hp. apply NoDup_Permutation; [|done|].
  - apply NoDup_app. split; [by apply NoDup_vfilter|]. split; [|apply NoDup_singleton].
    intros q [Hq _]%elem_of_vfilter ->%list_elem_of_singleton. by rw N.eqb_refl in Hq.
  - intros q. rw elem_of_app elem_of_vfilter list_elem_of_singleton negb_true_iff N.eqb_neq.
    destruct (decide (q = p)) as [->|]; naive_solver.
Qed.

Lemma set_focused_pane_root p tab :
  tb_root (set_focused_pane p tab) = tb_root tab ∧ tb_panes (set_focused_pane p tab) = tb_panes tab ∧
  tb_next_pane (set_focused_pane p tab) = tb_next_pane tab ∧
  tb_next_split (set_focused_pane p tab) = tb_next_split tab ∧
  tb_root_pane (set_focused_pane p tab) = tb_root_pane tab ∧
  tb_focused (set_focused_pane p tab) = p.
Proof. unfold set_focused_pane, apply_focused_pane. simpl. by destruct (tb_zoom tab). Qed.

Lemma apply_focused_pane_ok p tab :
  TabOk tab → p ∈ leaves (tb_root tab) → TabOk (apply_focused_pane p tab).
Proof.
  intros [H1 H2 H3 H4 H5 H6 H7] Hp. unfold apply_focused_pane. simpl.
  destruct (tb_zoom tab) as [|z] eqn:Ez; split; simpl; try done.
  - by rw Ez.
  - intros q [= <-]. split; [done|]. by eapply H6.
Qed.

Lemma set_focused_pane_ok p tab :
  TabOk tab → p ∈ leaves (tb_root tab) → TabOk (set_focused_pane p tab).
Proof.
  intros Hok Hp. apply apply_focused_pane_ok; [|done]. pose proof (ok_NoDup_history _ Hok) as Hnd.
  destruct Hok as [H1 H2 H3 H4 H5 H6 H7]. split; simpl; try done.
  rw retain_perm //. by rw H3.
Qed.

Lemma focus_pane_ok p tab : TabOk tab → TabOk (focus_pane p tab).1.
Proof.
  intros Hok. unfold focus_pane. destruct (contains_pane _ p) eqn:E; [|done]. simpl.
  apply set_focused_pane_ok; [done|]. by apply contains_pane_spec.
Qed.

(** ** The nearest Pane in a direction *)

Lemma collect_pane_bounds_ids node bounds : (collect_pane_bounds node bounds).*1 = leaves node.
Proof.
  revert bounds. induction node as [p|i x r f IHf s IHs]; intros bounds; simpl; [done|].
  destruct x; by rw fmap_app IHf IHs.
Qed.

Lemma fold_min_elem {A} (cmp : A → A → comparison) l x :
  fold_left (λ x y, match cmp x y with Gt => y | _ => x end) l x ∈ x :: l.
Proof.
  revert x. induction l as [|y l IH]; intros x; simpl; [by left|].
  pose proof (IH x) as Hx. pose proof (IH y) as Hy. rw !elem_of_cons in Hx Hy |- *.
  destruct (cmp x y); tauto.
Qed.

Lemma min_by_elem {A} (cmp : A → A → comparison) l x : min_by cmp l = Some x → x ∈ l.
Proof. destruct l as [|y l]; simpl; [done|]. intros [= <-]. apply fold_min_elem. Qed.

Lemma directional_candidates_elem panes focused direction p score :
  (p, score) ∈ directional_candidates panes focused direction ↔
  ∃ bounds, (p, bounds) ∈ panes ∧ directional_score focused bounds direction = Some score.
Proof.
  unfold directional_candidates. rw list_elem_of_omap. split.
  - intros ([q b] & Hin & (sc & Hs & [= -> ->])%fmap_Some). eauto.
  - intros (b & Hin & Hs). exists (p, b). simpl. by rw Hs.
Qed.

Lemma pane_in_direction_elem node focused direction p :
  pane_in_direction node focused direction = Some p → p ∈ leaves node.
Proof.
  unfold pane_in_direction. destruct (vfind _ _) as [[q b]|]; [|done].
  intros ([p' sc] & Hm%min_by_elem & ->)%fmap_Some.
  apply directional_candidates_elem in Hm as (b' & Hin & _).
  rw -(collect_pane_bounds_ids node bounds_root). apply list_elem_of_fmap. by exists (p', b').
Qed.

Lemma focus_direction_ok direction tab : TabOk tab → TabOk (focus_pane_in_direction direction tab).1.
Proof.
  intros Hok. unfold focus_pane_in_direction. destruct (pane_in_direction _ _ _) eqn:E; [|done].
  simpl. apply set_focused_pane_ok; [done|]. by eapply pane_in_direction_elem.
Qed.

(** ** Focus history *)

Lemma history_step_lt step current len : 1 < len → current < len → history_step step current len < len.
Proof.
  intros H1 H2. destruct step; simpl; [destruct current; lia|]. apply Nat.mod_upper_bound. lia.
Qed.

(** Moving through the history never indexes out of range. *)
Lemma focus_history_ok step tab :
  TabOk tab → ∃ tab' r, focus_pane_in_history step tab = Some (tab', r) ∧ TabOk tab'.
Proof.
  intros Hok. unfold focus_pane_in_history. destruct (Nat.leb_spec (length (tb_history tab)) 1); [eauto|].
  destruct (vposition _ (tb_history tab)) as [current|] eqn:E; [|eauto].
  apply vposition_Some in E as (l1 & x & l2 & Hl & Hlen & _).
  destruct (lookup_lt_is_Some_2 (tb_history tab) (history_step step current (length (tb_history tab))))
    as [p Hp].
  { apply history_step_lt; [done|]. rw Hl length_app /=. lia. }
  rw Hp. eexists _, _. split; [done|]. apply apply_focused_pane_ok; [done|].
  rw -(ok_history _ Hok). by eapply list_elem_of_lookup_2.
Qed.

Lemma has_pane_spec tab p : TabOk tab → has_pane tab p = true ↔ p ∈ leaves (tb_root tab).
Proof. intros Hok. unfold has_pane. by rw bool_decide_eq_true (ok_panes _ Hok). Qed.

Lemma restore_history_spec tab (history restored : list N) :
  NoDup restored →
  NoDup (restore_history tab restored history) ∧
  ∀ p : N, p ∈ restore_history tab restored history ↔
       p ∈ restored ∨ (p ∈ history ∧ has_pane tab p = true).
Proof.
  revert restored. induction history as [|q history IH]; intros restored Hnd; simpl.
  { split; [done|]. intros p. rw elem_of_nil. tauto. }
  set (r' := if has_pane tab q && _ then _ else restored).
  assert (NoDup r' ∧ ∀ p : N, p ∈ r' ↔ p ∈ restored ∨ (p = q ∧ has_pane tab p = true)) as [Hr Hp].
  { unfold r'. destruct (has_pane tab q) eqn:Eq; simpl; [case_bool_decide as Ein; simpl|].
    - split; [done|]. intros p. split; [by left|by intros [?|[-> _]]].
    - split; [|intros p; rw elem_of_app list_elem_of_singleton; split;
        (intros [?|?]; [by left|right; by destruct_and?; simplify_eq])].
      apply NoDup_app. split; [done|]. split; [|apply NoDup_singleton].
      by intros p Hin ->%list_elem_of_singleton.
    - split; [done|]. intros p. split; [by left|by intros [?|[-> ?]]; [|congruence]]. }
  destruct (IH r' Hr) as [H1 H2]. split; [done|]. intros p. rw H2 Hp elem_of_cons. tauto.
Qed.

Lemma restore_focus_ok history focused zoomed tab :
  TabOk tab → TabOk (restore_focus history focused zoomed tab).
Proof.
  intros Hok. pose proof (has_pane_spec tab) as Hhas. pose proof (pane_count_leaves tab Hok) as Hcount.
  pose proof (ok_NoDup_history _ Hok) as Hnd. destruct Hok as [H1 H2 H3 H4 H5 H6 H7].
  unfold restore_focus. set (restored := vfilter _ (tb_history tab)).
  destruct (restore_history_spec tab history restored) as [Hr Hel]; [by apply NoDup_vfilter|].
  set (r := restore_history tab restored history) in *.
  assert (∀ p : N, p ∈ r ↔ p ∈ leaves (tb_root tab)) as Hall.
  { intros p. rw Hel. unfold restored. rw elem_of_vfilter negb_true_iff bool_decide_eq_false.
    rw H3 Hhas; [by split|]. destruct (decide (p ∈ history)); naive_solver. }
  set (foc := match focused with Some _ => _ | None => None end).
  assert (default (tb_root_pane tab) foc ∈ leaves (tb_root tab)) as Hfoc.
  { unfold foc. destruct focused as [q|]; [|done]. destruct (has_pane tab q) eqn:E; [|done].
    simpl. apply Hhas; [by split|done]. }
  rw (bool_decide_eq_true_2 _ (proj2 (Hall _) Hfoc)). cbn [negb].
  split; simpl; try done.
  - apply NoDup_Permutation; [done|apply H1|done].
  - intros p. unfold pane_count in *. simpl. rw Hcount. destruct zoomed, (Nat.ltb_spec 1 (length (leaves (tb_root tab))));
      rw ?andb_false_r ?andb_true_r //=; case_bool_decide; try done. by intros [= <-].
Qed.

Lemma toggle_zoom_ok tab : TabOk tab → TabOk (toggle_zoom tab).1.
Proof.
  intros Hok. unfold toggle_zoom. rw (pane_count_leaves tab Hok).
  destruct (Nat.leb_spec (length (leaves (tb_root tab))) 1); [done|].
  destruct Hok as [H1 H2 H3 H4 H5 H6 H7]. split; simpl; try done.
  intros p. destruct (tb_zoom tab); [by intros [= <-]|done].
Qed.
End TabOk.

(** ** Every operation keeps a Tab well formed *)
Lemma checked_add_Some n m : u64_checked_add n 1 = Some m ↔ (m = n + 1 ∧ n < u64_max)%N.
Proof.
  unfold u64_checked_add. destruct (N.leb_spec (n + 1) u64_max); split; try done.
  - intros [= <-]. lia.
  - intros [-> _]. done.
  - lia.
Qed.

(** ** Saved geometries *)

Fixpoint arrangement_shape (a : PaneArrangement) : Shape :=
  match a with
  | ArrangedPane p => ShapePane p
  | ArrangedSplit x _ f s => ShapeSplit x (arrangement_shape f) (arrangement_shape s)
  end.
Fixpoint arrangement_ratios (a : PaneArrangement) : list f32 :=
  match a with
  | ArrangedPane _ => []
  | ArrangedSplit _ r f s => r :: arrangement_ratios f ++ arrangement_ratios s
  end.
Fixpoint arrangement_panes (a : PaneArrangement) : list N :=
  match a with
  | ArrangedPane p => [p]
  | ArrangedSplit _ _ f s => arrangement_panes f ++ arrangement_panes s
  end.

(** A ratio strictly between zero and one. *)
Definition proper_ratio (r : f32) : bool :=
  is_finite r && negb (f32_le r f32_zero) && negb (f32_ge r f32_one).

Lemma proper_ratio_test r :
  negb (is_finite r) || f32_le r f32_zero || f32_ge r f32_one = negb (proper_ratio r).
Proof. unfold proper_ratio. rw !negb_andb !negb_involutive. done. Qed.

Lemma proper_ratio_comparable r : proper_ratio r = true → comparable r.
Proof. unfold proper_ratio, comparable. by destruct r. Qed.

(** What a successful [build] returns. *)
Record Built (a : PaneArrangement) (panes : gset N) (next : N) (root : PaneNode)
    (panes' : gset N) (next' : N) : Prop := {
  bt_shape : shape root = arrangement_shape a;
  bt_ratios : ratios root = arrangement_ratios a;
  bt_proper : Forall (λ r, proper_ratio r = true) (ratios root);
  bt_leaves : leaves root = arrangement_panes a;
  bt_NoDup : NoDup (leaves root);
  bt_fresh : ∀ p, p ∈ leaves root → p ∉ panes;
  bt_panes : panes' = list_to_set (leaves root) ∪ panes;
  bt_splits : NoDup (splits root);
  bt_ids : Forall (λ i, next <= i < next')%N (splits root);
  bt_next : (next <= next')%N ∧ ((next <= u64_max)%N → (next' <= u64_max)%N)
}.

Lemma build_Built a panes next root panes' next' :
  build_arrangement a panes next = Ok (root, panes', next') → Built a panes next root panes' next'.
Proof.
  revert panes next root panes' next'.
  induction a as [p|x r f IHf s IHs]; intros panes next root panes' next'; cbn [build_arrangement].
  - case_bool_decide as Hin; [done|]. intros [= <- <- <-]. split; simpl;
      [done|done|constructor|done|apply NoDup_singleton| |set_solver|constructor|constructor|done].
    by intros q ->%list_elem_of_singleton.
  - rw proper_ratio_test. destruct (proper_ratio r) eqn:Hr; [|done]. cbn [negb].
    destruct (u64_checked_add next 1) as [n1|] eqn:En; [|done]. apply checked_add_Some in En as [-> Hmax].
    destruct (build_arrangement f panes (next + 1)) as [[[f' p1] n1]|] eqn:Ef; [|done]. simpl.
    destruct (build_arrangement s p1 n1) as [[[s' p2] n2]|] eqn:Es; [|done]. simpl.
    intros [= <- <- <-]. apply IHf in Ef as [F1 F2 F3 F4 F5 F6 F7 F8 F9 [F10 F11]].
    apply IHs in Es as [S1 S2 S3 S4 S5 S6 S7 S8 S9 [S10 S11]]. rw !Forall_forall in F3 F9 S3 S9.
    split; simpl.
    + by rw F1 S1.
    + by rw F2 S2.
    + constructor; [done|]. apply Forall_app. by rw !Forall_forall.
    + by rw F4 S4.
    + apply NoDup_app. split; [done|]. split; [|done]. intros q Hq Hq'. apply (S6 q Hq').
      subst p1. set_solver.
    + intros q [Hq|Hq]%elem_of_app; [by apply F6|]. intros Hin. apply (S6 q Hq). subst p1. set_solver.
    + subst. rw list_to_set_app_L. set_solver.
    + constructor.
      * rw elem_of_app. intros [H|H]; [specialize (F9 _ H)|specialize (S9 _ H)]; lia.
      * apply NoDup_app. split; [done|]. split; [|done]. intros q Hq Hq'.
        specialize (F9 _ Hq). specialize (S9 _ Hq'). lia.
    + constructor; [lia|]. apply Forall_app. rw !Forall_forall.
      split; intros i Hi; [specialize (F9 _ Hi)|specialize (S9 _ Hi)]; lia.
    + lia.
Qed.

Section TabOps.
Context {T : Type}.
Implicit Types tab : Tab T.

(** Another arrangement of the same Panes. *)
Lemma relayout_ok tab root next_split :
  TabOk tab → leaves root ≡ₚ leaves (tb_root tab) →
  NodeOk (tb_next_pane tab) next_split root → (1 <= next_split <= u64_max)%N →
  TabOk (set_tb_next (tb_next_pane tab) next_split (set_tb_root root tab)).
Proof.
  intros [H1 H2 H3 H4 H5 H6 H7] Hl Hok Hn. split; simpl; rw ?Hl //; [by intros p; rw Hl| |].
  - intros p Hp. rw Hl. by apply H6.
  - by destruct H7.
Qed.

Lemma set_root_next tab root :
  set_tb_root root tab = set_tb_next (tb_next_pane tab) (tb_next_split tab) (set_tb_root root tab).
Proof. by destruct tab. Qed.

Lemma restore_arrangement_ok a tab : TabOk tab → TabOk (restore_arrangement a tab).1.
Proof.
  intros Hok. unfold restore_arrangement.
  destruct (build_arrangement a ∅ _) as [[[root panes] next]|] eqn:E; [|done].
  destruct (negb _ || vany _ _) eqn:Et; [done|]. simpl. apply build_Built in E as [].
  apply orb_false_iff in Et as [Hs%negb_false_iff%Nat.eqb_eq Hany].
  pose proof (pane_count_leaves _ Hok) as Hcount. unfold pane_count in Hcount.
  assert (leaves root ≡ₚ leaves (tb_root tab)) as Hl.
  { symmetry. apply Permutation_alt || idtac. apply submseteq_length_Permutation.
    - apply NoDup_submseteq; [apply Hok|]. intros p Hp. rw vany_false in Hany.
      specialize (Hany p). rw elem_of_elements elem_of_dom in Hany.
      specialize (Hany (proj1 (ok_panes _ Hok p) Hp)). apply negb_false_iff, bool_decide_eq_true in Hany.
      subst panes. set_solver.
    - rw -Hcount -Hs bt_panes0 union_empty_r_L size_list_to_set //. }
  destruct (ok_next _ Hok) as [_ Hns]. destruct Hok as [[N1 N2 N3 N4 N5] ? ? ? ? ? ?] eqn:Eok.
  apply relayout_ok; [done|done| |].
  - split; try done.
    + by rw Hl.
    + eapply Forall_impl; [exact bt_ids0|]. unfold below. intros i Hi. simpl in Hi. lia.
    + eapply Forall_impl; [exact bt_proper0|]. intros r. apply proper_ratio_comparable.
  - lia.
Qed.

Lemma next_ids_spec tab a b c d :
  next_split_ids tab = Ok (a, b, c, d) →
  a = tb_next_pane tab ∧ b = tb_next_split tab ∧
  (c = tb_next_pane tab + 1 ∧ tb_next_pane tab < u64_max)%N ∧
  (d = tb_next_split tab + 1 ∧ tb_next_split tab < u64_max)%N.
Proof.
  unfold next_split_ids. destruct (u64_checked_add (tb_next_pane tab) 1) eqn:E1; [|done].
  destruct (u64_checked_add (tb_next_split tab) 1) eqn:E2; [|done]. simpl. intros [= <- <- <- <-].
  by apply checked_add_Some in E1, E2.
Qed.

Lemma fresh_pane tab : TabOk tab → tb_next_pane tab ∉ leaves (tb_root tab).
Proof.
  intros Hok Hin. destruct (ok_node _ Hok) as [_ _ H _ _]. rw Forall_forall in H.
  specialize (H _ Hin). unfold below in H. lia.
Qed.

Lemma fresh_split tab : TabOk tab → tb_next_split tab ∉ splits (tb_root tab).
Proof.
  intros Hok Hin. destruct (ok_node _ Hok) as [_ _ _ H _]. rw Forall_forall in H.
  specialize (H _ Hin). unfold below in H. lia.
Qed.

(** A Pane that joins the layout: the new leaf, its payload, and the oldest
    place of the history. *)
Lemma join_ok tab root pane payload next_pane next_split root_pane :
  TabOk tab → NodeOk next_pane next_split root → leaves root ≡ₚ (pane :: leaves (tb_root tab)) →
  (1 <= next_pane <= u64_max)%N ∧ (1 <= next_split <= u64_max)%N →
  root_pane ∈ leaves root →
  TabOk (Build_Tab (tb_id tab) root (<[pane := payload]> (tb_panes tab)) (tb_focused tab)
    (pane :: tb_history tab) root_pane (tb_zoom tab) (tb_minimum tab) next_pane next_split).
Proof.
  intros [H1 H2 H3 H4 H5 H6 H7] Hok Hl Hn Hroot. split; simpl; try done; rw ?Hl.
  - intros p. rw Hl elem_of_cons H2. destruct (decide (p = pane)) as [->|Hne].
    + rw lookup_insert_eq. split; [by eauto|by left].
    + rw lookup_insert_ne //. naive_solver.
  - by rw H3.
  - by right.
  - intros p Hp. destruct (H6 p Hp) as [-> Hlt]. split; [done|]. rw Hl. simpl. lia.
Qed.

Lemma insert_pane_ok source edge create tab : TabOk tab → TabOk (insert_pane source edge create tab).1.
Proof.
  intros Hok. unfold insert_pane.
  destruct (next_split_ids tab) as [[[[a b] c] d]|] eqn:E; [|done].
  apply next_ids_spec in E as (-> & -> & [-> Hp] & [-> Hs]).
  destruct (with_split _ _ _ _ _) as [root|] eqn:Ew; [|done]. simpl.
  pose proof (with_split_leaves _ _ _ _ _ _ Ew) as Hl. pose proof (ok_next _ Hok) as [Hn1 Hn2].
  apply (join_ok tab root (tb_next_pane tab) (create (tb_next_pane tab)) (tb_next_pane tab + 1)%N
    (tb_next_split tab + 1)%N (tb_root_pane tab)); [done| |done|lia|rw Hl; right; apply (ok_root_pane _ Hok)].
  eapply NodeOk_with_split; [|exact Ew|by apply fresh_pane|by apply fresh_split| |].
  - eapply NodeOk_mono; [| |apply (ok_node _ Hok)]; lia.
  - unfold below. lia.
  - unfold below. lia.
Qed.

(** Moving never reaches [unreachable!]: a Pane with a distinct target leaves a
    layout that holds the target. *)
Lemma moved_root_spec tab pane target edge :
  TabOk tab → pane ∈ leaves (tb_root tab) → target ∈ leaves (tb_root tab) → pane ≠ target →
  ∃ remaining root fallback,
    without_pane (tb_root tab) pane =
      Some {| pr_replacement := Some remaining; pr_focus_fallback := fallback |} ∧
    moved_root tab pane target edge = Some root ∧
    with_split remaining target pane (tb_next_split tab) edge = Some root ∧
    leaves root ≡ₚ leaves (tb_root tab) ∧
    NodeOk (tb_next_pane tab) (tb_next_split tab + 1) root.
Proof.
  intros Hok Hp Ht Hne. destruct (without_pane (tb_root tab) pane) as [[repl fb]|] eqn:E.
  2: { apply without_pane_None in E. done. }
  destruct repl as [remaining|].
  2: { apply without_pane_Some in E as (l1 & l2 & Hl & _ & -> & -> & _). rw Hl /= in Ht.
       by apply list_elem_of_singleton in Ht as ->. }
  destruct (NodeOk_without _ _ _ _ _ _ (ok_node _ Hok) E eq_refl) as (Hr & Hl & _ & Hnp).
  destruct (with_split remaining target pane (tb_next_split tab) edge) as [root|] eqn:Ew.
  2: { apply with_split_None in Ew. rw Hl elem_of_cons in Ht. by destruct Ht as [->|]. }
  exists remaining, root, fb. unfold moved_root. rw E. split; [done|]. split; [done|].
  split; [done|]. rw (with_split_leaves _ _ _ _ _ _ Ew) Hl. split; [done|].
  eapply NodeOk_with_split; [|exact Ew|done| | |].
  - eapply NodeOk_mono; [| |exact Hr]; lia.
  - intros Hin. destruct Hr as [_ _ _ H _]. rw Forall_forall in H. specialize (H _ Hin).
    unfold below in H. lia.
  - destruct (ok_node _ Hok) as [_ _ H _ _]. rw Forall_forall in H. by apply H.
  - pose proof (ok_next _ Hok). unfold below. lia.
Qed.

Lemma restored_zoom_ok tab : TabOk tab → TabOk (set_tb_zoom Restored tab).
Proof. intros [H1 H2 H3 H4 H5 H6 H7]. by split. Qed.

Lemma move_pane_ok pane target edge size divider tab :
  TabOk tab → ∃ tab' r, move_pane pane target edge size divider tab = Some (tab', r) ∧ TabOk tab'.
Proof.
  intros Hok. unfold move_pane. destruct (contains_pane (tb_root tab) pane) eqn:Ep; [|simpl; eauto].
  apply contains_pane_spec in Ep. cbn [negb]. unfold validate_split.
  destruct (contains_pane (tb_root tab) target) eqn:Et; [|simpl; eauto].
  apply contains_pane_spec in Et. cbn [negb].
  destruct (result_bind _ _) as [[]|]; [|eauto].
  destruct (N.eqb_spec pane target) as [->|Hne]; [eauto|].
  destruct (u64_checked_add (tb_next_split tab) 1) as [ns|] eqn:En; [|eauto].
  apply checked_add_Some in En as [-> Hmax].
  destruct (moved_root_spec tab pane target edge Hok Ep Et Hne) as (rem & root & fb & _ & -> & _ & Hl & Hno).
  destruct (has_arrangement_of root _); [eauto|]. eexists _, _. split; [done|].
  apply set_focused_pane_ok; [|simpl; by rw Hl]. apply restored_zoom_ok, relayout_ok; try done. lia.
Qed.

Lemma swap_panes_ok pane target tab : TabOk tab → TabOk (swap_panes pane target tab).1.
Proof.
  intros Hok. unfold swap_panes. destruct (contains_pane (tb_root tab) pane) eqn:Ep; [|done].
  apply contains_pane_spec in Ep. cbn [negb].
  destruct (contains_pane (tb_root tab) target) eqn:Et; [|done]. apply contains_pane_spec in Et. cbn [negb].
  destruct (N.eqb_spec pane target) as [->|Hne]; [done|]. cbn [fst].
  assert (leaves (exchange_panes (tb_root tab) pane target) ≡ₚ leaves (tb_root tab)) as Hl
    by (apply exchange_perm; [apply Hok|done|done]).
  apply set_focused_pane_ok; [|simpl; by rw Hl]. apply restored_zoom_ok. rw set_root_next.
  apply relayout_ok; [done|done| |apply Hok]. destruct (ok_node _ Hok) as [N1 N2 N3 N4 N5].
  destruct (exchange_splits (tb_root tab) pane target) as [Es Er].
  split; rw ?Hl ?Es ?Er //.
Qed.

(** ** Closing *)

(** The Tab that closing [p] leaves, as one record. *)
Definition closed_tab tab (p : PaneId) (root : PaneNode) (fallback : PaneId) : Tab T :=
  let gone := (tb_focused tab =? p)%N in
  let kept := vfilter (λ c, negb (c =? p)%N) (tb_history tab) in
  let zoom := match tb_zoom tab with
              | Zoomed z => Zoomed (if gone then fallback else z)
              | Restored => Restored
              end in
  Build_Tab (tb_id tab) root (delete p (tb_panes tab)) (if gone then fallback else tb_focused tab)
    (if gone then vfilter (λ c, negb (c =? fallback)%N) kept ++ [fallback] else kept)
    (if (tb_root_pane tab =? p)%N then first_pane_id root else tb_root_pane tab)
    (if (size (delete p (tb_panes tab)) =? 1) || bool_decide (zoom = Zoomed p)
     then Restored else zoom)
    (tb_minimum tab) (tb_next_pane tab) (tb_next_split tab).

Lemma close_pane_eq p tab :
  close_pane p tab =
  match without_pane (tb_root tab) p with
  | None => Some (tab, Err (PaneNotFound p))
  | Some removal =>
      if pane_count tab <=? 1 then Some (tab, Ok (CloseTab (tb_id tab)))
      else match pr_replacement removal with
      | None => None
      | Some root =>
          match tb_panes tab !! p with
          | None => Some (tab, Err (MissingPane p))
          | Some pane =>
              let tab' := closed_tab tab p root (pr_focus_fallback removal) in
              Some (tab', Ok (PaneClosed p (tb_focused tab') pane))
          end
      end
  end.
Proof.
  unfold close_pane. destruct (without_pane (tb_root tab) p) as [[repl fb]|]; [|done].
  unfold resolve_close. rw Nat.leb_antisym. destruct (1 <? pane_count tab).
  2: { by rw bool_decide_eq_true_2. }
  rw bool_decide_eq_false_2 //. cbn [negb pr_replacement pr_focus_fallback].
  destruct repl as [root|]; [|done]. destruct (tb_panes tab !! p) as [pane|]; [|done].
  destruct tab as [id r ps foc hist rp zoom mn np ns]. unfold closed_tab, set_focused_pane, apply_focused_pane, pane_count. simpl.
  destruct (rp =? p)%N; simpl; (destruct (foc =? p)%N; simpl; destruct zoom; simpl; by destruct (_ || _)).
Qed.

Lemma vfilter_perm_cons (p : N) l l' :
  NoDup l → l ≡ₚ (p :: l') → vfilter (λ c, negb (c =? p)%N) l ≡ₚ l'.
Proof.
  intros Hnd Hl. rw Hl in Hnd. apply NoDup_cons in Hnd as [Hp Hnd]. apply NoDup_Permutation; [|done|].
  - apply NoDup_vfilter. rw Hl. by constructor.
  - intros q. rw elem_of_vfilter Hl elem_of_cons negb_true_iff N.eqb_neq.
    split; [by intros [? [?|?]]|]. intros Hq. split; [by intros ->|by right].
Qed.

Lemma closed_tab_ok tab p root fallback :
  TabOk tab → NodeOk (tb_next_pane tab) (tb_next_split tab) root →
  leaves (tb_root tab) ≡ₚ (p :: leaves root) → fallback ∈ leaves root →
  TabOk (closed_tab tab p root fallback).
Proof.
  intros Hok Hno Hl Hfb. pose proof (ok_NoDup_history _ Hok) as Hnd.
  destruct Hok as [[N1 N2 N3 N4 N5] H2 H3 H4 H5 H6 H7]. rw Hl in H3 H4 H5 N1.
  apply NoDup_cons in N1 as [Hp N1].
  pose proof (vfilter_perm_cons p _ _ Hnd H3) as Hk.
  assert (∀ q, q ∈ leaves root ↔ is_Some (delete p (tb_panes tab) !! q)) as Hpanes.
  { intros q. specialize (H2 q). rw Hl elem_of_cons in H2. destruct (decide (q = p)) as [->|Hne].
    - rw lookup_delete_eq. split; [done|]. by intros [].
    - rw lookup_delete_ne //. naive_solver. }
  unfold closed_tab. split; simpl; try done.
  - destruct (tb_focused tab =? p)%N; [|done]. rw retain_perm //.
    + apply NoDup_vfilter, Hnd.
    + by rw Hk.
  - destruct (N.eqb_spec (tb_focused tab) p); [done|]. by apply elem_of_cons in H4 as [?|?].
  - destruct (N.eqb_spec (tb_root_pane tab) p); [apply first_pane_id_elem|].
    by apply elem_of_cons in H5 as [?|?].
  - assert (size (delete p (tb_panes tab)) = length (leaves root)) as Hsize.
    { rw -size_dom -(size_list_to_set (C := gset N) _ N1). f_equal. apply set_eq. intros q.
      rw elem_of_dom elem_of_list_to_set. by rw Hpanes. }
    rw Hsize. pose proof (leaves_nonempty root).
    destruct (Nat.eqb_spec (length (leaves root)) 1); [done|]. simpl. intros q.
    destruct (bool_decide _); [done|]. destruct (tb_zoom tab) as [|z]; [done|]. intros [= <-].
    destruct (H6 z eq_refl) as [-> _]. split; [done|]. destruct (leaves root); simpl in *; [done|lia].
Qed.

(** What closing does, on every branch. *)
Lemma close_pane_cases p tab :
  TabOk tab →
  match close_pane p tab with
  | None => False
  | Some (tab', Err e) => tab' = tab ∧ e = PaneNotFound p ∧ p ∉ leaves (tb_root tab)
  | Some (tab', Ok (CloseTab id)) => tab' = tab ∧ id = tb_id tab ∧ leaves (tb_root tab) = [p]
  | Some (tab', Ok (PaneClosed c f payload)) =>
      c = p ∧ f = tb_focused tab' ∧ TabOk tab' ∧ tb_panes tab !! p = Some payload ∧
      ∃ root fallback l1 l2, tab' = closed_tab tab p root fallback ∧
        leaves (tb_root tab) = l1 ++ p :: l2 ∧ leaves root = l1 ++ l2 ∧ l1 ++ l2 ≠ [] ∧
        (last l1 = Some fallback ∨ head l2 = Some fallback)
  end.
Proof.
  intros Hok. rw close_pane_eq. destruct (without_pane (tb_root tab) p) as [[repl fb]|] eqn:E.
  2: { apply without_pane_None in E. done. }
  rw (pane_count_leaves _ Hok).
  destruct (without_pane_Some _ _ _ E) as (l1 & l2 & Hl & Hn & H). cbn [pr_replacement pr_focus_fallback] in *.
  destruct (Nat.leb_spec (length (leaves (tb_root tab))) 1) as [Hlen|Hlen].
  { rw Hl length_app /= in Hlen. destruct l1, l2; simpl in *; try lia. by rw Hl. }
  destruct repl as [root|].
  2: { destruct H as (-> & -> & _). rw Hl /= in Hlen. lia. }
  assert (p ∈ leaves (tb_root tab)) as Hin by (rw Hl; set_solver).
  destruct (proj1 (ok_panes _ Hok p) Hin) as [pane Hpane]. rw Hpane. cbv zeta.
  destruct (NodeOk_without _ _ _ _ _ _ (ok_node _ Hok) E eq_refl) as (Hr & Hperm & Hfb & _).
  cbn [pr_focus_fallback] in Hfb. split; [done|]. split; [done|].
  split; [by apply closed_tab_ok|]. split; [done|]. exists root, fb, l1, l2.
  destruct H as (H1 & H2 & _). repeat (split; [done|]). split; [|done].
  rw -H1. apply leaves_nonempty.
Qed.

(** ** Resizing *)

Lemma fit_split_ratios_ok available divider tab : TabOk tab → TabOk (fit_split_ratios available divider tab).
Proof.
  intros Hok. unfold fit_split_ratios. destruct (is_ok _); [|done]. rw set_root_next.
  destruct (fit_ratios_frame (tb_root tab) available (tb_minimum tab) divider) as (H1 & H2 & H3).
  destruct (ok_node _ Hok) as [N1 N2 N3 N4 N5]. apply shape_leaves in H1.
  apply relayout_ok; [done|by rw H1| |apply (ok_next _ Hok)]. split; rw ?H1 ?H2 //. auto.
Qed.

(** Resizing panics exactly where the range of ratios it computed is inverted. *)
Definition range_inverted tab (split_id : SplitId) (size : PaneSize) (divider : f32) : bool :=
  match split_ratio_range tab split_id size divider with
  | Ok (start, stop) => negb (f32_le start stop)
  | Err _ => false
  end.

Lemma finite_comparable r : is_finite r = true → comparable r.
Proof. by destruct r. Qed.

Lemma split_ratio_range_found tab sid size divider range :
  split_ratio_range tab sid size divider = Ok range → is_Some (find_split (tb_root tab) sid).
Proof.
  unfold split_ratio_range. destruct (validate_divider_size divider); [|done]. simpl.
  by destruct (find_split (tb_root tab) sid).
Qed.

Lemma resize_split_cases sid size divider requested tab :
  match resize_split sid size divider requested tab with
  | None => range_inverted tab sid size divider = true
  | Some (tab', Err _) => tab' = tab
  | Some (tab', Ok ratio) =>
      ∃ start stop root, split_ratio_range tab sid size divider = Ok (start, stop) ∧
        f32_le start ratio = true ∧ f32_le ratio stop = true ∧ comparable ratio ∧
        (f32_le start requested = true → f32_le requested stop = true → ratio = requested) ∧
        set_split_ratio (tb_root tab) sid ratio = Some root ∧ tab' = set_tb_root root tab
  end.
Proof.
  unfold resize_split, range_inverted. destruct (validate_divider_size divider); [|done].
  destruct (is_finite requested) eqn:Hf; [|done]. apply finite_comparable in Hf. cbn [negb].
  destruct (split_ratio_range tab sid size divider) as [[start stop]|] eqn:E; [|done].
  destruct (f32_clamp requested start stop) as [ratio|] eqn:Ec.
  - destruct (f32_clamp_Some _ _ _ _ Hf Ec) as (H1 & H2 & H3 & H4).
    destruct (set_split_ratio (tb_root tab) sid ratio) as [root|] eqn:Es; [|done].
    exists start, stop, root. done.
  - apply f32_clamp_None in Ec. by rw Ec.
Qed.

Lemma resize_split_ok sid size divider requested tab :
  TabOk tab →
  match resize_split sid size divider requested tab with
  | None => range_inverted tab sid size divider = true
  | Some (tab', _) => TabOk tab'
  end.
Proof.
  intros Hok. pose proof (resize_split_cases sid size divider requested tab) as H.
  destruct (resize_split sid size divider requested tab) as [[tab' [ratio|e]]|]; [|by subst|done].
  destruct H as (start & stop & root & _ & _ & _ & Hc & _ & Hs & ->). rw set_root_next.
  apply set_split_ratio_frame in Hs as (H1%shape_leaves & H2 & H3).
  destruct (ok_node _ Hok) as [N1 N2 N3 N4 N5].
  apply relayout_ok; [done|by rw H1| |apply (ok_next _ Hok)]. split; rw ?H1 ?H2 //. auto.
Qed.
End TabOps.
