(* ===== verification/PaneTheorems.v ===== *)
(** * Theorems on a Tab's layout

    The operations of a Tab as one machine with the Panes it has parked, and
    what each kind of operation guarantees. *)
From S2P Require Import Prelude.
From S2P Require Import F32.
From S2P Require Import CloseConfirmation.
From S2P Require Import PaneLayout.
From S2P Require Import PaneTab.
From S2P Require Import PaneTabProofs.

Section Machine.
Context {T : Type}.
Implicit Types tab : Tab T.

(** ** The operations as one machine *)

(** A call on a Tab; [Tab_restore i] hands back the [i]-th parked Pane, which
    the call consumes, and [Tab_discard i] drops it. *)
Inductive TabOp :=
  | Tab_arrange (arrangement : PaneArrangement)
  | Tab_focus (pane : PaneId)
  | Tab_direction (direction : FocusDirection)
  | Tab_history (step : FocusHistoryStep)
  | Tab_restore_focus (history : list PaneId) (focused : option PaneId) (zoomed : bool)
  | Tab_zoom
  | Tab_insert (source : PaneId) (edge : PaneEdge) (create : PaneId → T)
  | Tab_move (pane target : PaneId) (edge : PaneEdge) (size : PaneSize) (divider : f32)
  | Tab_swap (pane target : PaneId)
  | Tab_close (pane : PaneId)
  | Tab_park (pane : PaneId)
  | Tab_restore (i : nat) (source : PaneId) (edge : PaneEdge)
  | Tab_discard (i : nat)
  | Tab_minimum (size : PaneSize)
  | Tab_fit (available : PaneSize) (divider : f32)
  | Tab_resize (split : SplitId) (size : PaneSize) (divider ratio : f32).

(** The state a call leaves; [None] is a panic. *)
Definition tab_run (op : TabOp) (state : Tab T * list (ParkedPane T))
    : option (Tab T * list (ParkedPane T)) :=
  let '(tab, parked) := state in
  match op with
  | Tab_arrange a => Some ((restore_arrangement a tab).1, parked)
  | Tab_focus p => Some ((focus_pane p tab).1, parked)
  | Tab_direction d => Some ((focus_pane_in_direction d tab).1, parked)
  | Tab_history step => (λ r, (r.1, parked)) <$> focus_pane_in_history step tab
  | Tab_restore_focus h f z => Some (restore_focus h f z tab, parked)
  | Tab_zoom => Some ((toggle_zoom tab).1, parked)
  | Tab_insert source edge create => Some ((insert_pane source edge create tab).1, parked)
  | Tab_move p t e size d => (λ r, (r.1, parked)) <$> move_pane p t e size d tab
  | Tab_swap p t => Some ((swap_panes p t tab).1, parked)
  | Tab_close p => (λ r, (r.1, parked)) <$> close_pane p tab
  | Tab_park p =>
      (λ r, (r.1, match r.2 with Ok (Some k) => parked ++ [k] | _ => parked end)) <$> park_pane p tab
  | Tab_restore i source edge =>
      Some match parked !! i with
           | Some k => ((restore_parked_pane k source edge tab).1, vremove i parked)
           | None => state
           end
  | Tab_discard i => Some (tab, vremove i parked)
  | Tab_minimum size => Some (set_minimum_pane_size size tab, parked)
  | Tab_fit available d => Some (fit_split_ratios available d tab, parked)
  | Tab_resize sid size d r => (λ r, (r.1, parked)) <$> resize_split sid size d r tab
  end.

Fixpoint tab_runs (ops : list TabOp) (state : Tab T * list (ParkedPane T))
    : option (Tab T * list (ParkedPane T)) :=
  match ops with
  | [] => Some state
  | op :: ops => match tab_run op state with Some state => tab_runs ops state | None => None end
  end.

(** ** Counters only grow and identities are not reused *)

Record Advances tab tab' : Prop := {
  ad_pane : (tb_next_pane tab <= tb_next_pane tab')%N;
  ad_split : (tb_next_split tab <= tb_next_split tab')%N;
  ad_leaves : ∀ p, p ∈ leaves (tb_root tab') →
    p ∈ leaves (tb_root tab) ∨ (tb_next_pane tab <= p)%N
}.

Lemma Advances_leaves tab tab' :
  leaves (tb_root tab') ⊆ leaves (tb_root tab) →
  tb_next_pane tab' = tb_next_pane tab → (tb_next_split tab <= tb_next_split tab')%N →
  Advances tab tab'.
Proof. intros Hl Hp Hs. split; [lia|done|]. intros p Hin. left. by apply Hl. Qed.

Lemma Advances_refl tab : Advances tab tab.
Proof. by apply Advances_leaves. Qed.

Lemma Advances_focused p tab tab' : Advances tab tab' → Advances tab (set_focused_pane p tab').
Proof.
  destruct (set_focused_pane_root p tab') as (E1 & _ & E2 & E3 & _). intros [H1 H2 H3].
  split; rw ?E1 ?E2 ?E3 //.
Qed.

Lemma ParkedOk_advances tab tab' parked :
  Advances tab tab' → ParkedOk tab parked → ParkedOk tab' parked.
Proof.
  intros [A1 A2 A3] [P1 P2]. split; [done|]. intros k Hk. destruct (P2 k Hk) as (H1 & H2 & H3 & H4).
  split; [|split; [by eapply below_mono|split; [by eapply NodeOk_mono|done]]].
  intros [Hin|Hge]%A3; [done|]. unfold below in H2. lia.
Qed.

Lemma arrange_advances a tab : TabOk tab → Advances tab (restore_arrangement a tab).1.
Proof.
  intros Hok. pose proof (restore_arrangement_ok a tab Hok) as Hok'. revert Hok'.
  unfold restore_arrangement.
  destruct (build_arrangement a ∅ _) as [[[root panes] next]|] eqn:E; [|intros _; apply Advances_refl].
  destruct (negb _ || vany _ _); [intros _; apply Advances_refl|]. simpl. intros Hok'.
  apply build_Built in E as []. apply Advances_leaves; [|done|simpl; lia]. simpl. intros p Hp.
  apply (ok_panes _ Hok). by apply (ok_panes _ Hok').
Qed.

Lemma insert_advances source edge create tab : Advances tab (insert_pane source edge create tab).1.
Proof.
  unfold insert_pane. destruct (next_split_ids tab) as [[[[a b] c] d]|] eqn:E; [|apply Advances_refl].
  apply next_ids_spec in E as (-> & -> & [-> _] & [-> _]).
  destruct (with_split _ _ _ _ _) as [root|] eqn:Ew; [|apply Advances_refl]. simpl.
  pose proof (with_split_leaves _ _ _ _ _ _ Ew) as Hl. split; simpl; [lia|lia|].
  intros p. rw Hl elem_of_cons. intros [->|?]; [right; lia|by left].
Qed.

Lemma move_advances p t e size d tab tab' r :
  TabOk tab → move_pane p t e size d tab = Some (tab', r) → Advances tab tab'.
Proof.
  intros Hok. unfold move_pane. destruct (contains_pane (tb_root tab) p) eqn:Ep.
  2: { intros [= <- _]. apply Advances_refl. }
  apply contains_pane_spec in Ep. cbn [negb]. unfold validate_split.
  destruct (contains_pane (tb_root tab) t) eqn:Et.
  2: { intros [= <- _]. apply Advances_refl. }
  apply contains_pane_spec in Et. cbn [negb].
  destruct (result_bind _ _) as [[]|]; [|intros [= <- _]; apply Advances_refl].
  destruct (N.eqb_spec p t) as [->|Hne]; [intros [= <- _]; apply Advances_refl|].
  destruct (u64_checked_add (tb_next_split tab) 1) as [ns|] eqn:En; [|intros [= <- _]; apply Advances_refl].
  apply checked_add_Some in En as [-> _].
  destruct (moved_root_spec tab p t e Hok Ep Et Hne) as (rem & root & fb & _ & -> & _ & Hl & _).
  destruct (has_arrangement_of root _); intros [= <- _]; [apply Advances_refl|].
  apply Advances_focused, Advances_leaves; simpl; [|done|lia]. intros q. by rw Hl.
Qed.

Lemma swap_advances p t tab : TabOk tab → Advances tab (swap_panes p t tab).1.
Proof.
  intros Hok. unfold swap_panes. destruct (contains_pane (tb_root tab) p) eqn:Ep; [|apply Advances_refl].
  destruct (contains_pane (tb_root tab) t) eqn:Et; [|apply Advances_refl]. cbn [negb].
  destruct (p =? t)%N; [apply Advances_refl|]. apply contains_pane_spec in Ep, Et.
  apply Advances_focused, Advances_leaves; simpl; [|done|done]. intros q.
  rw exchange_perm //. apply (ok_node _ Hok).
Qed.

Lemma close_advances p tab tab' r :
  TabOk tab → close_pane p tab = Some (tab', r) → Advances tab tab' ∧
  (∀ c f payload, r = Ok (PaneClosed c f payload) → p ∉ leaves (tb_root tab')).
Proof.
  intros Hok E. pose proof (close_pane_cases p tab Hok) as H. rw E in H.
  destruct r as [[c f payload|id]|e].
  - destruct H as (-> & _ & _ & _ & root & fb & l1 & l2 & -> & Hl & Hl' & _). split.
    + apply Advances_leaves; [|done|done]. simpl. rw Hl Hl'. set_solver.
    + intros _ _ _ _. simpl. rw Hl'. destruct (ok_node _ Hok) as [Hnd _ _ _ _]. rw Hl in Hnd.
      apply NoDup_app in Hnd as (_ & Hd & Hnd). apply NoDup_cons in Hnd as [Hp _].
      rw elem_of_app. intros [Hin|?]; [|done]. apply (Hd p Hin). by left.
  - destruct H as (-> & _). split; [apply Advances_refl|done].
  - destruct H as (-> & _). split; [apply Advances_refl|done].
Qed.

Lemma fit_advances available d tab : Advances tab (fit_split_ratios available d tab).
Proof.
  unfold fit_split_ratios. destruct (is_ok _); [|apply Advances_refl]. apply Advances_leaves; simpl; try done.
  by rw (shape_leaves _ _ (proj1 (fit_ratios_frame (tb_root tab) available (tb_minimum tab) d))).
Qed.

Lemma resize_advances sid size d r tab tab' res :
  resize_split sid size d r tab = Some (tab', res) → Advances tab tab'.
Proof.
  intros E. pose proof (resize_split_cases sid size d r tab) as H. rw E in H.
  destruct res as [ratio|]; [|subst; apply Advances_refl].
  destruct H as (start & stop & root & _ & _ & _ & _ & _ & Hs & ->).
  apply set_split_ratio_frame in Hs as (H1%shape_leaves & _).
  apply Advances_leaves; simpl; [by rw H1|done|done].
Qed.

(** ** Parking *)

Lemma park_pane_cases p tab :
  TabOk tab →
  ∃ tab' r, park_pane p tab = Some (tab', r) ∧ TabOk tab' ∧ Advances tab tab' ∧
    match r with
    | Ok (Some k) =>
        (∃ f, close_pane p tab = Some (tab', Ok (PaneClosed p f (pk_payload k)))) ∧
        pk_id k = p ∧ p ∈ leaves (tb_root tab) ∧ (p ∉ leaves (tb_root tab')) ∧
        pk_original k = tb_root tab ∧ pk_remaining k = tb_root tab' ∧
        pk_was_root k = (tb_root_pane tab =? p)%N ∧
        leaves (pk_original k) ≡ₚ (p :: leaves (pk_remaining k))
    | _ => tab' = tab
    end.
Proof.
  intros Hok. unfold park_pane. pose proof (close_pane_cases p tab Hok) as H.
  destruct (close_pane p tab) as [[tab' [[c f payload|id]|e]]|] eqn:E; [| | |done].
  - destruct (close_advances _ _ _ _ Hok E) as [Ha Hn]. specialize (Hn _ _ _ eq_refl).
    destruct H as (-> & -> & Hok' & _ & root & fb & l1 & l2 & -> & Hl & Hl' & _).
    eexists _, _. split; [done|]. split; [done|]. split; [done|]. simpl in *.
    split; [by eauto|]. split; [done|]. split; [rw Hl elem_of_app; right; by left|].
    repeat (split; [done|]). rw Hl Hl'. by rw Permutation_middle.
  - destruct H as (-> & _). eexists _, _. split; [done|]. split; [done|]. split; [apply Advances_refl|done].
  - destruct H as (-> & _). eexists _, _. split; [done|]. split; [done|]. split; [apply Advances_refl|done].
Qed.

(** A restored Pane joins the layout it was removed from, or the current one. *)
Lemma restored_root_ok k source edge tab tab' :
  TabOk tab → (pk_id k ∉ leaves (tb_root tab)) → below (tb_next_pane tab) (pk_id k) →
  NodeOk (tb_next_pane tab) (tb_next_split tab) (pk_original k) →
  leaves (pk_original k) ≡ₚ (pk_id k :: leaves (pk_remaining k)) →
  restored_root k source edge tab = Ok tab' →
  ∃ root next, tab' = set_tb_next (tb_next_pane tab) next (set_tb_root root tab) ∧
    NodeOk (tb_next_pane tab) next root ∧ leaves root ≡ₚ (pk_id k :: leaves (tb_root tab)) ∧
    (tb_next_split tab <= next <= u64_max)%N.
Proof.
  intros Hok Hp Hb Hno Hl. unfold restored_root. destruct (node_eqb _ _) eqn:E.
  - intros [= <-]. apply node_eqb_same in E as [E%shape_leaves _]. rw set_root_next.
    eexists _, _. split; [done|]. split; [done|]. split; [by rw Hl E|].
    pose proof (ok_next _ Hok). lia.
  - destruct (u64_checked_add (tb_next_split tab) 1) as [ns|] eqn:En; [|done]. simpl.
    apply checked_add_Some in En as [-> Hmax].
    destruct (with_split _ _ _ _ _) as [root|] eqn:Ew; [|done]. simpl. intros [= <-].
    eexists _, _. split; [done|]. split; [|split; [by eapply with_split_leaves|lia]].
    eapply NodeOk_with_split; [|exact Ew|done|by apply fresh_split|done|].
    + eapply NodeOk_mono; [| |apply (ok_node _ Hok)]; lia.
    + pose proof (ok_next _ Hok). unfold below. lia.
Qed.

Lemma restore_parked_ok k source edge tab :
  TabOk tab → (pk_id k ∉ leaves (tb_root tab)) → below (tb_next_pane tab) (pk_id k) →
  NodeOk (tb_next_pane tab) (tb_next_split tab) (pk_original k) →
  leaves (pk_original k) ≡ₚ (pk_id k :: leaves (pk_remaining k)) →
  let tab' := (restore_parked_pane k source edge tab).1 in
  TabOk tab' ∧ tb_next_pane tab' = tb_next_pane tab ∧ (tb_next_split tab <= tb_next_split tab')%N ∧
  ∀ p, p ∈ leaves (tb_root tab') → p = pk_id k ∨ p ∈ leaves (tb_root tab).
Proof.
  intros Hok Hp Hb Hno Hl. cbv zeta. unfold restore_parked_pane.
  destruct (restored_root k source edge tab) as [tab'|] eqn:E.
  2: { split; [done|]. split; [done|]. split; [done|]. by right. }
  destruct (restored_root_ok _ _ _ _ _ Hok Hp Hb Hno Hl E) as (root & next & -> & Hr & Hlr & Hn).
  pose proof (ok_next _ Hok) as [Hn1 Hn2]. simpl. destruct (pk_was_root k); simpl.
  - split; [apply (join_ok tab root (pk_id k) (pk_payload k) (tb_next_pane tab) next (pk_id k));
      try done; [lia|rw Hlr; by left]|]. split; [done|]. split; [lia|].
    intros p. by rw Hlr elem_of_cons.
  - split; [apply (join_ok tab root (pk_id k) (pk_payload k) (tb_next_pane tab) next (tb_root_pane tab));
      try done; [lia|rw Hlr; right; apply (ok_root_pane _ Hok)]|]. split; [done|]. split; [lia|].
    intros p. by rw Hlr elem_of_cons.
Qed.

Definition MachineOk (state : Tab T * list (ParkedPane T)) : Prop :=
  TabOk state.1 ∧ ParkedOk state.1 state.2.

Lemma ParkedOk_vremove tab parked i : ParkedOk tab parked → ParkedOk tab (vremove i parked).
Proof.
  intros [P1 P2]. assert (vremove i parked ⊆+ parked) as Hs.
  { unfold vremove. destruct (parked !! i) as [k|] eqn:E.
    - rw -{3}(take_drop_middle _ _ _ E). by apply submseteq_app, submseteq_cons.
    - apply lookup_ge_None in E. rw take_ge // drop_ge; [lia|]. by rw app_nil_r. }
  split; [eapply NoDup_submseteq_l; [by apply (fmap_submseteq pk_id)|done]|].
  intros k Hk. apply P2. by eapply elem_of_submseteq.
Qed.

Lemma Machine_restore tab parked i k source edge :
  MachineOk (tab, parked) → parked !! i = Some k →
  MachineOk ((restore_parked_pane k source edge tab).1, vremove i parked).
Proof.
  intros [Hok HP] Hi. simpl in *. destruct HP as [P1 P2] eqn:EP. clear EP.
  destruct (P2 k (list_elem_of_lookup_2 _ _ _ Hi)) as (H1 & H2 & H3 & H4).
  destruct (restore_parked_ok k source edge tab Hok H1 H2 H3 H4) as (Hok' & Hp & Hs & Hl).
  split; [done|]. cbn [fst snd].
  assert (vremove i parked ++ [k] ≡ₚ parked) as Hperm.
  { rw -{2}(take_drop_middle _ _ _ Hi). unfold vremove. rw -app_assoc. f_equiv. by rw Permutation_app_comm. }
  pose proof (ParkedOk_vremove _ _ i HP) as [V1 V2]. split; [done|]. intros j Hj.
  destruct (V2 j Hj) as (J1 & J2 & J3 & J4). rw Hp.
  split; [|split; [done|split; [eapply NodeOk_mono; [| |exact J3]; lia|done]]].
  intros [Heq|?]%Hl; [|done]. pose proof P1 as Hnd.
  rw -(fmap_Permutation _ _ _ Hperm : map pk_id _ ≡ₚ map pk_id parked) in Hnd.
  change (NoDup (map pk_id (vremove i parked ++ [k]))) in Hnd. rw map_app in Hnd.
  apply NoDup_app in Hnd as (_ & Hd & _). apply (Hd (pk_id j)); [by apply list_elem_of_fmap_2|].
  rw Heq. by left.
Qed.

Lemma Machine_park tab parked p :
  MachineOk (tab, parked) →
  ∃ state, tab_run (Tab_park p) (tab, parked) = Some state ∧ MachineOk state.
Proof.
  intros [Hok HP]. simpl in *. destruct (park_pane_cases p tab Hok) as (tab' & r & -> & Hok' & Ha & H).
  eexists. split; [done|]. split; [done|]. simpl. pose proof (ParkedOk_advances _ _ _ Ha HP) as HP'.
  destruct r as [[k|]|]; [|done|done].
  destruct H as ((f & _) & <- & Hin & Hout & Ho & Hr & _ & Hl). destruct HP as [P1 P2], HP' as [Q1 Q2]. split.
  - rw map_app. apply NoDup_app. split; [done|]. split; [|apply NoDup_singleton].
    intros q (j & -> & Hj)%list_elem_of_fmap E%list_elem_of_singleton.
    destruct (P2 j Hj) as (Hj' & _). rw E in Hj'. done.
  - intros j [Hj| ->%list_elem_of_singleton]%elem_of_app; [by apply Q2|].
    split; [done|]. destruct (ok_node _ Hok) as [N1 N2 N3 N4 N5]. destruct Ha as [A1 A2 _].
    split; [|split; [rw Ho; by eapply NodeOk_mono; [| |apply (ok_node _ Hok)]|done]].
    rw Forall_forall in N3. eapply below_mono; [exact A1|]. by apply N3.
Qed.

(** One call: the invariant holds again, or [resize_split] met an inverted range. *)
Lemma tab_run_ok op state :
  MachineOk state →
  match tab_run op state with
  | Some state' => MachineOk state'
  | None => ∃ sid size d r, op = Tab_resize sid size d r ∧ range_inverted state.1 sid size d = true
  end.
Proof.
  destruct state as [tab parked]. intros HM. pose proof HM as [Hok HP]. simpl in Hok, HP.
  destruct op; cbn [tab_run].
  - split; [by apply restore_arrangement_ok|]. eapply (ParkedOk_advances tab); [by apply arrange_advances|done].
  - split; [by apply focus_pane_ok|]. eapply (ParkedOk_advances tab); [|done]. unfold focus_pane.
    destruct (negb _); [apply Advances_refl|apply Advances_focused, Advances_refl].
  - split; [by apply focus_direction_ok|]. eapply (ParkedOk_advances tab); [|done].
    unfold focus_pane_in_direction.
    destruct (pane_in_direction _ _ _); [apply Advances_focused, Advances_refl|apply Advances_refl].
  - destruct (focus_history_ok step tab Hok) as (tab' & r & E & Hok'). rw E. split; [done|].
    eapply (ParkedOk_advances tab); [|done]. revert E. unfold focus_pane_in_history, apply_focused_pane. simpl.
    destruct (_ <=? _); [intros [= <- _]; apply Advances_refl|].
    destruct (vposition _ _); [|intros [= <- _]; apply Advances_refl].
    destruct (_ !! _); [|done]. by destruct (tb_zoom tab); intros [= <- _]; apply Advances_leaves.
  - split; [by apply restore_focus_ok|]. eapply (ParkedOk_advances tab); [by apply Advances_leaves|done].
  - split; [by apply toggle_zoom_ok|]. eapply (ParkedOk_advances tab); [|done]. unfold toggle_zoom.
    by destruct (_ <=? _); apply Advances_leaves.
  - split; [by apply insert_pane_ok|]. eapply (ParkedOk_advances tab); [apply insert_advances|done].
  - destruct (move_pane_ok pane target edge size divider tab Hok) as (tab' & r & E & Hok'). rw E.
    split; [done|]. eapply (ParkedOk_advances tab); [by eapply move_advances|done].
  - split; [by apply swap_panes_ok|]. eapply (ParkedOk_advances tab); [by apply swap_advances|done].
  - pose proof (close_pane_cases pane tab Hok) as H.
    destruct (close_pane pane tab) as [[tab' r]|] eqn:E; [|done]. split.
    + destruct r as [[]|]; [by destruct H as (_ & _ & ? & _)|by destruct H as [-> _]..].
    + eapply (ParkedOk_advances tab); [by eapply close_advances|done].
  - destruct (Machine_park tab parked pane HM) as (state & E & H). cbn [tab_run] in E. by rw E.
  - destruct (parked !! i) as [k|] eqn:E; [by apply Machine_restore|done].
  - split; [done|]. by apply ParkedOk_vremove.
  - split; [by destruct Hok; split|]. eapply (ParkedOk_advances tab); [by apply Advances_leaves|done].
  - split; [by apply fit_split_ratios_ok|]. eapply (ParkedOk_advances tab); [apply fit_advances|done].
  - pose proof (resize_split_ok split size divider ratio tab Hok) as H.
    destruct (resize_split split size divider ratio tab) as [[tab' r]|] eqn:E.
    + split; [done|]. eapply (ParkedOk_advances tab); [by eapply resize_advances|done].
    + exists split, size, divider, ratio. done.
Qed.

(** C7. From a new Tab, along any sequence of calls, the layout names each of
    the Tab's Panes exactly once, the focus history is a permutation of them, the
    Focused and Root Panes belong to the Tab, zoom shows the Focused Pane of a Tab
    with several, and no identity is reused, parked Panes included. No call
    panics, with one exception: a resize whose range of ratios came out inverted. *)
Theorem tab_calls_keep_layout id minimum create ops :
  match tab_runs ops (tab_new id minimum create, []) with
  | Some state => MachineOk state
  | None => ∃ before sid size d r after state,
      ops = before ++ Tab_resize sid size d r :: after ∧
      tab_runs before (tab_new id minimum create, []) = Some state ∧
      range_inverted state.1 sid size d = true
  end.
Proof.
  assert (MachineOk (tab_new id minimum create, [])) as H.
  { split; [apply tab_new_ok|]. split; [constructor|]. by intros k ?%elem_of_nil. }
  revert H. generalize (tab_new (T := T) id minimum create, @nil (ParkedPane T)).
  induction ops as [|op ops IH]; intros state H; [done|]. cbn [tab_runs].
  pose proof (tab_run_ok op state H) as H'. destruct (tab_run op state) as [state'|] eqn:E.
  - specialize (IH state' H'). destruct (tab_runs ops state') as [|]; [done|].
    destruct IH as (before & sid & size & d & r & after & last & -> & Hb & Hi).
    exists (op :: before), sid, size, d, r, after, last. cbn [tab_runs]. by rw E.
  - destruct H' as (sid & size & d & r & -> & Hi). by exists [], sid, size, d, r, ops, state.
Qed.
End Machine.
