(* ===== verification/LayoutTheorems.v ===== *)
(** * What closing, moving, resizing and focusing guarantee *)
From S2P Require Import Prelude.
From S2P Require Import F32.
From S2P Require Import CloseConfirmation.
From S2P Require Import PaneLayout.
From S2P Require Import PaneTab.
From S2P Require Import PaneTabProofs.
From S2P Require Import PaneTheorems.

(** ** A concrete Tab: three Panes in a row *)

Definition px (z : Z) : f32 := f32_of_Z z.
Definition row_size (w h : Z) : PaneSize := {| ps_width := px w; ps_height := px h |}.
Definition row_ops : list (TabOp (T := N)) :=
  [Tab_insert 1 EdgeRight (λ id, id); Tab_insert 2 EdgeRight (λ id, id)]%N.
(** A minimum of 101 by 40 and Panes 1, 2 and 3 from left to right. *)
Definition row_tab : Tab N :=
  match tab_runs row_ops (tab_new 7 (row_size 101 40) (λ id, id), []) with
  | Some (tab, _) => tab
  | None => tab_new 7 (row_size 101 40) (λ id, id)
  end.

Lemma row_tab_ok : TabOk row_tab.
Proof.
  unfold row_tab, row_ops. cbn [tab_runs tab_run].
  apply insert_pane_ok, insert_pane_ok, tab_new_ok.
Qed.

Section Theorems.
Context {T : Type}.
Implicit Types tab : Tab T.

(** Closing a Pane that is not the last removes its payload and its leaf,
    keeps every other Pane and their order, keeps focus and history order unless
    the closed Pane was focused, where focus falls to a Pane next to it in the
    layout, and hands the Root Pane on only if it was the closed one. *)
Theorem close_pane_exact tab p tab' c f payload :
  TabOk tab → close_pane p tab = Some (tab', Ok (PaneClosed c f payload)) →
  c = p ∧ tb_panes tab !! p = Some payload ∧ tb_panes tab' = delete p (tb_panes tab) ∧
  tb_focused tab' = f ∧
  (∃ l1 l2, leaves (tb_root tab) = l1 ++ p :: l2 ∧ leaves (tb_root tab') = l1 ++ l2 ∧
     (tb_focused tab = p → last l1 = Some f ∨ head l2 = Some f)) ∧
  (tb_focused tab ≠ p → f = tb_focused tab ∧
     tb_history tab' = vfilter (λ q, negb (q =? p)%N) (tb_history tab)) ∧
  tb_root_pane tab' = (if (tb_root_pane tab =? p)%N then first_pane_id (tb_root tab')
                       else tb_root_pane tab).
Proof.
  intros Hok E. pose proof (close_pane_cases p tab Hok) as H. rw E in H.
  destruct H as (-> & -> & _ & Hp & root & fb & l1 & l2 & -> & Hl & Hl' & _ & Hfb).
  repeat (split; [done|]). unfold closed_tab. simpl. split; [|split].
  - exists l1, l2. split; [done|]. split; [done|]. intros ->. by rw N.eqb_refl.
  - intros Hne. by destruct (N.eqb_spec (tb_focused tab) p).
  - done.
Qed.

(** C31. A Pane parked for a close that is then refused returns to the exact
    layout, payloads and Root Pane it left, whatever neighbour is named, and focus
    stays where it moved meanwhile. *)
Theorem park_restore tab p tab' k source edge :
  TabOk tab → park_pane p tab = Some (tab', Ok (Some k)) →
  let restored := restore_parked_pane k source edge tab' in
  restored.2 = Ok p ∧ tb_root restored.1 = tb_root tab ∧ tb_panes restored.1 = tb_panes tab ∧
  tb_root_pane restored.1 = tb_root_pane tab ∧ tb_focused restored.1 = tb_focused tab' ∧
  tb_history restored.1 = p :: tb_history tab' ∧ TabOk restored.1.
Proof.
  intros Hok E. cbv zeta. destruct (park_pane_cases p tab Hok) as (tab'' & r & E' & Hok' & _ & H).
  rw E in E'. injection E' as <- <-. destruct H as ((f & Hc) & Hid & Hin & Hout & Ho & Hr & Hw & Hl).
  pose proof (close_pane_cases p tab Hok) as H. rw Hc in H.
  destruct H as (_ & _ & _ & Hpay & root & fb & l1 & l2 & Htab & Hl1 & Hl2 & _ & _).
  assert (tb_root (restore_parked_pane k source edge tab').1 = tb_root tab ∧
          (restore_parked_pane k source edge tab').2 = Ok p ∧
          tb_panes (restore_parked_pane k source edge tab').1 = <[p := pk_payload k]> (tb_panes tab') ∧
          tb_root_pane (restore_parked_pane k source edge tab').1 =
            (if pk_was_root k then p else tb_root_pane tab') ∧
          tb_focused (restore_parked_pane k source edge tab').1 = tb_focused tab' ∧
          tb_history (restore_parked_pane k source edge tab').1 = p :: tb_history tab')
    as (E1 & E2 & E3 & E4 & E5 & E6).
  { unfold restore_parked_pane, restored_root. rw Hr node_eqb_refl; [apply (ok_node _ Hok')|].
    rw Hid Ho. by destruct (pk_was_root k). }
  split; [done|]. split; [done|]. split; [|split; [|split; [done|split; [done|]]]].
  - rw E3 Htab. simpl. by rw insert_delete_id.
  - rw E4 Hw Htab. simpl. by destruct (N.eqb_spec (tb_root_pane tab) p) as [->|].
  - apply (restore_parked_ok k source edge tab' Hok').
    + by rw Hid.
    + rw Hid. destruct (ok_node _ Hok) as [_ _ N3 _ _]. rw Forall_forall in N3. rw Htab. by apply N3.
    + rw Ho Htab. apply (ok_node _ Hok).
    + by rw Hid.
Qed.

(** ** Resizing *)

(** Resizing a Split keeps every Pane in its place and every other ratio; the
    ratio it stores is the requested one where that fits and otherwise the bound it
    passed; a refusal changes nothing. It panics exactly when the computed range
    is inverted. *)
Theorem resize_split_exact tab sid size d requested :
  match resize_split sid size d requested tab with
  | None => range_inverted tab sid size d = true
  | Some (tab', Err _) => tab' = tab
  | Some (tab', Ok ratio) =>
      ∃ start stop, split_ratio_range tab sid size d = Ok (start, stop) ∧
        f32_le start ratio = true ∧ f32_le ratio stop = true ∧
        (f32_le start requested = true → f32_le requested stop = true → ratio = requested) ∧
        set_split_ratio (tb_root tab) sid ratio = Some (tb_root tab') ∧
        shape (tb_root tab') = shape (tb_root tab) ∧ splits (tb_root tab') = splits (tb_root tab) ∧
        tab' = set_tb_root (tb_root tab') tab
  end.
Proof.
  pose proof (resize_split_cases sid size d requested tab) as H.
  destruct (resize_split sid size d requested tab) as [[tab' [ratio|]]|]; [|done|done].
  destruct H as (start & stop & root & H1 & H2 & H3 & _ & H4 & H5 & ->). exists start, stop.
  destruct (set_split_ratio_frame _ _ _ _ H5) as (H6 & H7 & _). done.
Qed.

(** Whether every ratio [fit_ratios] reaches lies within its bounds. *)
Fixpoint ratios_fit (node : PaneNode) (available minimum : PaneSize) (d : f32) : bool :=
  match node with
  | Leaf _ => true
  | Split _ axis ratio first second =>
      match node_minimum_size first minimum d, node_minimum_size second minimum d with
      | Ok fm, Ok sm =>
          let content := f32_sub (ps_extent available axis) d in
          let lowest := f32_div (ps_extent fm axis) content in
          let highest := f32_sub f32_one (f32_div (ps_extent sm axis) content) in
          f32_le content f32_zero ||
          (if f32_le lowest highest then f32_le lowest ratio && f32_le ratio highest else true) &&
          match child_size available axis content ratio,
                child_size available axis content (f32_sub f32_one ratio) with
          | Ok first_size, Ok second_size =>
              ratios_fit first first_size minimum d && ratios_fit second second_size minimum d
          | _, _ => true
          end
      | _, _ => true
      end
  end.

Lemma fit_ratio_bounds ratio a b content :
  comparable ratio →
  let lowest := f32_div a content in
  let highest := f32_sub f32_one (f32_div b content) in
  let ratio' := fit_ratio ratio a b content in
  (if f32_le lowest highest then f32_le lowest ratio' && f32_le ratio' highest else true) = true ∧
  ((if f32_le lowest highest then f32_le lowest ratio && f32_le ratio highest else true) = true →
   ratio' = ratio).
Proof.
  intros H. cbv zeta. unfold fit_ratio. set (lo := f32_div a content). set (hi := f32_sub f32_one _).
  destruct (f32_le lo hi) eqn:Hle; [|done].
  destruct (f32_clamp ratio lo hi) as [c|] eqn:E; [|by apply f32_clamp_None in E; congruence].
  destruct (f32_clamp_Some _ _ _ _ H E) as (H1 & H2 & _ & H4). simpl. split; [by rw H1 H2|].
  intros [??]%andb_true_iff. auto.
Qed.

Lemma fit_ratios_within node available minimum d :
  Forall comparable (ratios node) →
  ratios_fit (fit_ratios node available minimum d) available minimum d = true.
Proof.
  revert available. induction node as [p|i x r f IHf s IHs]; intros available; [done|].
  cbn [ratios]. rw Forall_cons Forall_app. intros (Hr & Hf & Hs). cbn [fit_ratios].
  destruct (node_minimum_size f minimum d) as [fm|] eqn:Ef; [|cbn [ratios_fit]; by rw Ef].
  destruct (node_minimum_size s minimum d) as [sm|] eqn:Es; [|cbn [ratios_fit]; by rw Ef Es].
  set (content := f32_sub _ d). cbv zeta. destruct (f32_le content f32_zero) eqn:Ec.
  { cbn [ratios_fit]. rw Ef Es. fold content. cbv zeta. by rw Ec. }
  destruct (fit_ratio_bounds r (ps_extent fm x) (ps_extent sm x) content Hr) as [Hb _].
  set (r' := fit_ratio r _ _ content) in *.
  destruct (child_size available x content r') as [a|] eqn:Ea,
    (child_size available x content (f32_sub f32_one r')) as [b|] eqn:Eb; cbn [ratios_fit];
    try (rw Ef Es; fold content; cbv zeta; by rw Ec Hb Ea ?Eb).
  rw !(minimum_size_shape _ _ _ _ (proj1 (fit_ratios_frame _ _ _ _))) Ef Es.
  fold content. cbv zeta. by rw Ec Hb Ea Eb IHf // IHs.
Qed.

Lemma fit_ratios_stays node available minimum d :
  Forall comparable (ratios node) →
  ratios_fit node available minimum d = true → fit_ratios node available minimum d = node.
Proof.
  revert available. induction node as [p|i x r f IHf s IHs]; intros available; [done|].
  cbn [ratios]. rw Forall_cons Forall_app. intros (Hr & Hf & Hs). cbn [fit_ratios ratios_fit].
  destruct (node_minimum_size f minimum d) as [fm|] eqn:Ef; [|done].
  destruct (node_minimum_size s minimum d) as [sm|] eqn:Es; [|done].
  set (content := f32_sub _ d). cbv zeta. destruct (f32_le content f32_zero) eqn:Ec; [done|].
  destruct (fit_ratio_bounds r (ps_extent fm x) (ps_extent sm x) content Hr) as [_ Hb].
  rw orb_false_l andb_true_iff. intros [H1 H2]. rw (Hb H1).
  destruct (child_size available x content r) as [a|]; [|done].
  destruct (child_size available x content (f32_sub f32_one r)) as [b|]; [|done].
  apply andb_true_iff in H2 as [H2 H3]. by rw IHf // IHs.
Qed.

(** Fitting a layout to a size keeps its Panes, axes and Split identities,
    brings every ratio that has room within the bounds its Panes need, changes
    nothing in a layout that fits, and so changes nothing when repeated. *)
Theorem fit_ratios_fits node available minimum d :
  Forall comparable (ratios node) →
  let fitted := fit_ratios node available minimum d in
  shape fitted = shape node ∧ splits fitted = splits node ∧
  ratios_fit fitted available minimum d = true ∧
  (ratios_fit node available minimum d = true → fitted = node) ∧
  fit_ratios fitted available minimum d = fitted.
Proof.
  intros Hc. cbv zeta. destruct (fit_ratios_frame node available minimum d) as (F1 & F2 & _).
  repeat (split; [done|]). split; [by apply fit_ratios_within|].
  split; [by apply fit_ratios_stays|by apply fit_ratios_idem].
Qed.

(** ** Saved geometries *)

Fixpoint arrangement_splits (a : PaneArrangement) : N :=
  match a with
  | ArrangedPane _ => 0
  | ArrangedSplit _ _ f s => 1 + arrangement_splits f + arrangement_splits s
  end.

Lemma build_complete a panes next :
  NoDup (arrangement_panes a) → (∀ p, p ∈ arrangement_panes a → p ∉ panes) →
  Forall (λ r, proper_ratio r = true) (arrangement_ratios a) →
  (next + arrangement_splits a <= u64_max)%N →
  ∃ root panes', build_arrangement a panes next = Ok (root, panes', next + arrangement_splits a)%N.
Proof.
  revert panes next. induction a as [p|x r f IHf s IHs]; intros panes next; cbn [arrangement_panes
    arrangement_ratios arrangement_splits build_arrangement].
  - intros _ Hp _ _. rw bool_decide_eq_false_2; [apply Hp; by left|]. rw N.add_0_r. eauto.
  - rw NoDup_app Forall_cons Forall_app. intros (N1 & N2 & N3) Hp (Hr & Hf & Hs) Hn.
    rw proper_ratio_test Hr. cbn [negb].
    assert (u64_checked_add next 1 = Some (next + 1)%N) as -> by (apply checked_add_Some; lia).
    destruct (IHf panes (next + 1)%N) as (root1 & p1 & E1); [done| |done|lia|].
    { intros q Hq. apply Hp, elem_of_app. by left. }
    rw E1. cbn [result_bind]. apply build_Built in E1 as [].
    destruct (IHs p1 (next + 1 + arrangement_splits f)%N) as (root2 & p2 & E2); [done| |done|lia|].
    { intros q Hq. subst p1. rw not_elem_of_union elem_of_list_to_set bt_leaves. split.
      - intros Hq'. by apply (N2 q).
      - apply Hp, elem_of_app. by right. }
    rw E2. cbn [result_bind]. replace (next + (1 + arrangement_splits f + arrangement_splits s))%N
      with (next + 1 + arrangement_splits f + arrangement_splits s)%N by lia. eauto.
Qed.

Lemma build_splits a panes next root panes' next' :
  build_arrangement a panes next = Ok (root, panes', next') →
  (next' = next + arrangement_splits a ∧ (next <= u64_max → next' <= u64_max))%N.
Proof.
  intros E. pose proof (build_Built _ _ _ _ _ _ E) as HB. split; [|apply HB].
  revert panes next root panes' next' E HB.
  induction a as [p|x r f IHf s IHs]; intros panes next root panes' next'; cbn [build_arrangement arrangement_splits].
  - case_bool_decide; [done|]. intros [= <- <- <-] _. lia.
  - destruct (_ || _); [done|]. destruct (u64_checked_add next 1) as [n1|] eqn:En; [|done].
    apply checked_add_Some in En as [-> _].
    destruct (build_arrangement f panes (next + 1)) as [[[f' p1] n1]|] eqn:Ef; [|done]. simpl.
    destruct (build_arrangement s p1 n1) as [[[s' p2] n2]|] eqn:Es; [|done]. simpl. intros [= <- <- <-] _.
    rw (IHs _ _ _ _ _ Es (build_Built _ _ _ _ _ _ Es)).
    rw (IHf _ _ _ _ _ Ef (build_Built _ _ _ _ _ _ Ef)). lia.
Qed.

(** A saved geometry is taken exactly when it names every current Pane once,
    its ratios lie strictly between zero and one and the Split counter has room;
    the layout then has its shape and ratios and everything else stays. A refused
    geometry changes nothing. *)
Theorem restore_arrangement_exact a tab :
  TabOk tab →
  let '(tab', r) := restore_arrangement a tab in
  (r = Ok tt ↔ arrangement_panes a ≡ₚ leaves (tb_root tab) ∧
     Forall (λ r, proper_ratio r = true) (arrangement_ratios a) ∧
     (tb_next_split tab + arrangement_splits a <= u64_max)%N) ∧
  (r = Ok tt → shape (tb_root tab') = arrangement_shape a ∧
     ratios (tb_root tab') = arrangement_ratios a ∧
     tab' = set_tb_next (tb_next_pane tab) (tb_next_split tab + arrangement_splits a)
              (set_tb_root (tb_root tab') tab)) ∧
  (r ≠ Ok tt → tab' = tab).
Proof.
  intros Hok. pose proof (pane_count_leaves _ Hok) as Hcount. unfold pane_count in Hcount.
  pose proof (restore_arrangement_ok a tab Hok) as Hok'. revert Hok'. unfold restore_arrangement.
  destruct (build_arrangement a ∅ (tb_next_split tab)) as [[[root panes] next]|e] eqn:E.
  - destruct (build_splits _ _ _ _ _ _ E) as [-> Hn]. apply build_Built in E as [].
    pose proof (ok_next _ Hok) as [_ Hmax].
    destruct (negb _ || vany _ _) eqn:Et; simpl; intros Hok'.
    + split; [|done]. split; [done|]. intros (Hp & _ & _). exfalso. revert Et. apply not_true_iff_false.
      rw -bt_leaves in Hp. rw union_empty_r_L in bt_panes. subst panes. apply orb_false_iff. split.
      { apply negb_false_iff, Nat.eqb_eq. by rw size_list_to_set // Hcount Hp. }
      apply vany_false. intros p.
      rw elem_of_elements elem_of_dom -(ok_panes _ Hok) -Hp. intros Hin.
      apply negb_false_iff, bool_decide_eq_true. by apply elem_of_list_to_set.
    + split; [|split; [by rw bt_shape bt_ratios|done]]. split; [|done]. intros _.
      split; [|split; [by rw -bt_ratios|lia]]. rw -bt_leaves. rw -(ok_history _ Hok') -(ok_history _ Hok). done.
  - intros _. split; [|done]. split; [done|]. intros (Hp & Hr & Hn). exfalso.
    destruct (build_complete a ∅ (tb_next_split tab)) as (? & ? & E'); [| |done|done|congruence].
    + rw Hp. apply (ok_node _ Hok).
    + set_solver.
Qed.

(** ** Moving Panes *)

(** A move that changes the arrangement takes the Pane out, keeps the order of
    the others, and puts it on the named edge of the target; the Pane is then
    focused and nothing is zoomed. Any other answer leaves the Tab as it was. *)
Theorem move_pane_exact tab p target edge size d tab' r :
  TabOk tab → move_pane p target edge size d tab = Some (tab', r) →
  match r with
  | Ok true => ∃ l1 l2 m1 m2,
      leaves (tb_root tab) = m1 ++ p :: m2 ∧ m1 ++ m2 = l1 ++ target :: l2 ∧
      leaves (tb_root tab') = l1 ++ beside target p edge ++ l2 ∧
      shape (tb_root tab') ≠ shape (tb_root tab) ∧
      tb_panes tab' = tb_panes tab ∧ tb_focused tab' = p ∧ tb_zoom tab' = Restored ∧
      tb_root_pane tab' = tb_root_pane tab
  | _ => tab' = tab
  end.
Proof.
  intros Hok. unfold move_pane. destruct (contains_pane (tb_root tab) p) eqn:Ep; [|by intros [= <- <-]].
  apply contains_pane_spec in Ep. cbn [negb]. unfold validate_split.
  destruct (contains_pane (tb_root tab) target) eqn:Et; [|by intros [= <- <-]].
  apply contains_pane_spec in Et. cbn [negb].
  destruct (result_bind _ _) as [[]|]; [|by intros [= <- <-]].
  destruct (N.eqb_spec p target) as [->|Hne]; [by intros [= <- <-]|].
  destruct (u64_checked_add (tb_next_split tab) 1); [|by intros [= <- <-]].
  destruct (moved_root_spec tab p target edge Hok Ep Et Hne)
    as (rem & root & fb & Ew & -> & Es & _ & _).
  destruct (has_arrangement_of root (tb_root tab)) eqn:Ea; intros [= <- <-]; [done|].
  destruct (without_pane_Some _ _ _ Ew) as (m1 & m2 & Hm & _ & Hrem & _).
  destruct (with_split_Some _ _ _ _ _ _ Es) as ((l1 & l2 & Hl & _ & Hroot) & _).
  exists l1, l2, m1, m2. rw -Hrem Hl. repeat (split; [done|]).
  split; [|done]. intros Hsh. apply has_arrangement_shape in Hsh. simpl in *. congruence.
Qed.

(** What a drag offers, releasing it does: where [resolve_drop] answers with an
    edge or a swap, the matching call changes the layout, and it never panics. *)
Theorem resolve_drop_performs tab p target drop size d :
  TabOk tab → (tb_next_split tab < u64_max)%N →
  match resolve_drop tab p target drop size d with
  | None => False
  | Some None => True
  | Some (Some DropSwap) =>
      (swap_panes p target tab).2 = Ok true ∧
      leaves (tb_root (swap_panes p target tab).1) = swap_id p target <$> leaves (tb_root tab)
  | Some (Some (DropEdge edge)) =>
      drop = DropEdge edge ∧ ∃ tab', move_pane p target edge size d tab = Some (tab', Ok true)
  end.
Proof.
  intros Hok Hmax. unfold resolve_drop. destruct (N.eqb_spec p target) as [->|Hne]; [done|].
  destruct (contains_pane (tb_root tab) p) eqn:Ep; [|done].
  destruct (contains_pane (tb_root tab) target) eqn:Et; [|done]. cbn [negb orb].
  assert ((swap_panes p target tab).2 = Ok true ∧
    leaves (tb_root (swap_panes p target tab).1) = swap_id p target <$> leaves (tb_root tab)) as Hswap.
  { unfold swap_panes. rw Ep Et. cbn [negb]. destruct (N.eqb_spec p target); [done|]. cbn [fst snd].
    destruct (set_focused_pane_root p (set_tb_zoom Restored
      (set_tb_root (exchange_panes (tb_root tab) p target) tab))) as (-> & _). simpl.
    by rw exchange_leaves. }
  destruct drop as [edge|]; [|done]. pose proof Ep as Hp. pose proof Et as Ht.
  apply contains_pane_spec in Hp, Ht.
  destruct (moved_root_spec tab p target edge Hok Hp Ht Hne) as (rem & root & fb & _ & Em & _).
  rw Em. destruct (has_arrangement_of root (tb_root tab)) eqn:E1; [done|].
  destruct (has_arrangement_of root (exchange_panes _ _ _)); [done|].
  destruct (can_receive _ _ _ _ _ _) eqn:Ec; [|done]. split; [done|].
  unfold can_receive in Ec. rw Et /= in Ec. unfold move_pane, validate_split. rw Ep Et. cbn [negb].
  destruct (validate_divider_size d) as [[]|]; [|done]. cbn [result_bind]. simpl in Ec.
  destruct (result_bind (combined_minimum _ _ _ _) _) as [[]|]; [|done].
  destruct (N.eqb_spec p target); [done|].
  assert (u64_checked_add (tb_next_split tab) 1 = Some (tb_next_split tab + 1)%N) as ->
    by by apply checked_add_Some.
  rw Em E1. eauto.
Qed.
End Theorems.

(** ** Focus by direction *)

(** A comparison that orders its arguments. *)
Record Ordered {A} (c : A → A → comparison) : Prop := {
  od_antisym : ∀ x y, c y x = CompOpp (c x y);
  od_trans : ∀ x y z, c x y ≠ Gt → c y z ≠ Gt →
    c x z ≠ Gt ∧ (c x z = Eq → c x y = Eq ∧ c y z = Eq)
}.

Lemma Ordered_key {A} (key : A → Z) : Ordered (λ x y, (key x ?= key y)%Z).
Proof.
  split; [intros x y; apply Z.compare_antisym|]. intros x y z H1 H2.
  change (key x <= key y)%Z in H1. change (key y <= key z)%Z in H2. rw !Z.compare_eq_iff.
  change (key x <= key z ∧ (key x = key z → key x = key y ∧ key y = key z))%Z. lia.
Qed.

Lemma Ordered_then {A} (c d : A → A → comparison) :
  Ordered c → Ordered d → Ordered (λ x y, then_with (c x y) (d x y)).
Proof.
  intros [A1 T1] [A2 T2]. split.
  - intros x y. rw A1 A2. by destruct (c x y), (d x y).
  - intros x y z H1 H2. destruct (T1 x y z) as [T3 T4].
    { by destruct (c x y). }
    { by destruct (c y z). }
    destruct (c x z) eqn:E; simpl; [|done|done]. destruct (T4 eq_refl) as [E1 E2].
    rw E1 E2 /= in H1 H2 |- *. by apply T2.
Qed.

Lemma candidate_compare_ordered : Ordered candidate_compare.
Proof.
  assert (Ordered (λ a b : N * DirectionalScore,
    then_with (then_with (then_with (f32_total_key (ds_primary a.2) ?= f32_total_key (ds_primary b.2))%Z
      (f32_total_key (ds_perpendicular a.2) ?= f32_total_key (ds_perpendicular b.2))%Z)
      (- f32_total_key (ds_overlap a.2) ?= - f32_total_key (ds_overlap b.2))%Z)
      (Z.of_N a.1 ?= Z.of_N b.1)%Z)) as H.
  { apply (Ordered_then _ _ (Ordered_then _ _ (Ordered_then _ _
      (Ordered_key (λ a, f32_total_key (ds_primary a.2)))
      (Ordered_key (λ a, f32_total_key (ds_perpendicular a.2))))
      (Ordered_key (λ a, - f32_total_key (ds_overlap a.2))%Z))
      (Ordered_key (λ a, Z.of_N a.1))). }
  assert (∀ a b, candidate_compare a b = then_with (then_with (then_with
      (f32_total_key (ds_primary a.2) ?= f32_total_key (ds_primary b.2))%Z
      (f32_total_key (ds_perpendicular a.2) ?= f32_total_key (ds_perpendicular b.2))%Z)
      (- f32_total_key (ds_overlap a.2) ?= - f32_total_key (ds_overlap b.2))%Z)
      (Z.of_N a.1 ?= Z.of_N b.1)%Z) as Heq.
  { intros a b. unfold candidate_compare, score_compare, f32_total_cmp. by rw N2Z.inj_compare Z.compare_opp. }
  destruct H as [H1 H2]. split; [intros x y; rw !Heq; apply H1|].
  intros x y z. rw !Heq. apply H2.
Qed.

Lemma fold_min_least {A} (c : A → A → comparison) l x :
  Ordered c →
  ∀ y, y ∈ x :: l → c (fold_left (λ x y, match c x y with Gt => y | _ => x end) l x) y ≠ Gt.
Proof.
  intros [HA HT]. assert (∀ u, c u u = Eq) as Hr.
  { intros u. specialize (HA u u). by destruct (c u u). }
  revert x. induction l as [|z l IH]; intros x y Hy; simpl.
  - apply list_elem_of_singleton in Hy as ->. by rw Hr.
  - set (m := match c x z with Gt => z | _ => x end).
    assert (c m x ≠ Gt ∧ c m z ≠ Gt) as [Hx Hz].
    { unfold m. pose proof (HA x z) as Hxz. destruct (c x z) eqn:E; rw ?Hr ?E ?Hxz; done. }
    pose proof (IH m m (list_elem_of_here m l)) as Hm.
    apply elem_of_cons in Hy as [->|[->|Hy]%elem_of_cons].
    + by apply (HT _ m).
    + by apply (HT _ m).
    + apply IH. by right.
Qed.

Lemma min_by_least {A} (c : A → A → comparison) l x :
  Ordered c → min_by c l = Some x → ∀ y, y ∈ l → c x y ≠ Gt.
Proof. intros Hc. destruct l as [|z l]; simpl; [done|]. intros [= <-]. by apply fold_min_least. Qed.

(** Moving focus in a direction finds a Pane of the layout that lies that way
    and overlaps the focused one, and no Pane that does is nearer, then better
    aligned, then overlapping more, then older; it finds none only when none lies
    that way. *)
Theorem pane_in_direction_nearest node focused bounds direction :
  NoDup (leaves node) → (focused, bounds) ∈ collect_pane_bounds node bounds_root →
  match pane_in_direction node focused direction with
  | Some p => ∃ b score, (p, b) ∈ collect_pane_bounds node bounds_root ∧
      directional_score bounds b direction = Some score ∧
      ∀ q b' score', (q, b') ∈ collect_pane_bounds node bounds_root →
        directional_score bounds b' direction = Some score' →
        candidate_compare (p, score) (q, score') ≠ Gt
  | None => ∀ q b', (q, b') ∈ collect_pane_bounds node bounds_root →
      directional_score bounds b' direction = None
  end.
Proof.
  intros Hnd Hin. unfold pane_in_direction. set (panes := collect_pane_bounds node bounds_root) in *.
  assert (vfind (λ pane, (pane.1 =? focused)%N) panes = Some (focused, bounds)) as ->.
  { rw -(collect_pane_bounds_ids node bounds_root) in Hnd. fold panes in Hnd. clearbody panes.
    unfold vfind. induction panes as [|[q b] panes IH]; [by apply elem_of_nil in Hin|]. simpl.
    apply NoDup_cons in Hnd as [Hq Hnd]. apply elem_of_cons in Hin as [[= <- <-]|Hin]; [by rw N.eqb_refl|].
    destruct (N.eqb_spec q focused) as [->|]; [|by apply IH].
    destruct Hq. apply (list_elem_of_fmap_2 fst _ _ Hin). }
  destruct (min_by candidate_compare _) as [[p score]|] eqn:E; simpl.
  - pose proof (min_by_elem _ _ _ E) as (b & Hb & Hs)%directional_candidates_elem.
    exists b, score. split; [done|]. split; [done|]. intros q b' score' Hq Hs'.
    apply (min_by_least _ _ _ candidate_compare_ordered E). apply directional_candidates_elem. eauto.
  - intros q b' Hq. destruct (directional_score bounds b' direction) as [score|] eqn:Hs; [|done].
    assert ((q, score) ∈ directional_candidates panes bounds direction) as Hc
      by (apply directional_candidates_elem; eauto).
    destruct (directional_candidates panes bounds direction); [by apply elem_of_nil in Hc|done].
Qed.


(** ** The theorems at the row of three Panes *)

Lemma close_pane_exact_witness :
  ∃ tab', close_pane 3 row_tab = Some (tab', Ok (PaneClosed 3 1 3))%N ∧
    tb_panes tab' = delete 3%N (tb_panes row_tab) ∧ tb_focused tab' = 1%N.
Proof.
  eexists. split; [vm_compute; reflexivity|].
  edestruct (close_pane_exact row_tab 3) as (_ & _ & H1 & H2 & _);
    [exact row_tab_ok|vm_compute; reflexivity|]. by split.
Defined.

Lemma park_restore_witness :
  ∃ tab' k, park_pane 2 row_tab = Some (tab', Ok (Some k)) ∧
    tb_root (restore_parked_pane k 1 EdgeTop tab').1 = tb_root row_tab.
Proof.
  eexists _, _. split; [vm_compute; reflexivity|].
  edestruct (park_restore row_tab 2) as (_ & H & _);
    [exact row_tab_ok|vm_compute; reflexivity|]. exact H.
Defined.

Lemma fit_ratios_fits_witness :
  ratios_fit (tb_root row_tab) (row_size 800 80) (tb_minimum row_tab) (px 1) = true ∧
  ratios_fit (fit_ratios (tb_root row_tab) (row_size 320 80) (tb_minimum row_tab) (px 1))
    (row_size 320 80) (tb_minimum row_tab) (px 1) = true ∧
  ratios_fit (tb_root row_tab) (row_size 320 80) (tb_minimum row_tab) (px 1) = false.
Proof.
  split; [vm_compute; reflexivity|]. split; [|vm_compute; reflexivity].
  apply (fit_ratios_fits (tb_root row_tab) (row_size 320 80) (tb_minimum row_tab) (px 1)).
  by repeat constructor.
Defined.

(** The Panes of the row stacked: 3 above 1 above 2. *)
Definition stacked : PaneArrangement :=
  ArrangedSplit Vertical f32_half (ArrangedPane 3)
    (ArrangedSplit Vertical f32_half (ArrangedPane 1) (ArrangedPane 2)).

Lemma restore_arrangement_exact_witness :
  shape (tb_root (restore_arrangement stacked row_tab).1) = arrangement_shape stacked.
Proof.
  pose proof (restore_arrangement_exact stacked row_tab row_tab_ok) as H.
  destruct (restore_arrangement stacked row_tab) as [tab' r] eqn:E. destruct H as (_ & H & _).
  apply H. by vm_compute in E; injection E as _ <-.
Defined.

Lemma move_pane_exact_witness :
  ∃ tab' l1 l2, move_pane 1 3 EdgeBottom (row_size 200 200) (px 1) row_tab = Some (tab', Ok true) ∧
    leaves (tb_root tab') = l1 ++ [3; 1]%N ++ l2.
Proof.
  eexists. pose proof (move_pane_exact row_tab 1 3 EdgeBottom (row_size 200 200) (px 1) _ _
    row_tab_ok eq_refl) as H. vm_compute in H. destruct H as (l1 & l2 & _ & _ & _ & _ & H & _).
  exists l1, l2. split; [vm_compute; reflexivity|exact H].
Defined.

Lemma resolve_drop_performs_witness :
  ∃ tab', move_pane 1 3 EdgeBottom (row_size 200 200) (px 1) row_tab = Some (tab', Ok true).
Proof.
  pose proof (resolve_drop_performs row_tab 1 3 (DropEdge EdgeBottom) (row_size 200 200) (px 1)
    row_tab_ok) as H.
  replace (resolve_drop row_tab 1 3 (DropEdge EdgeBottom) (row_size 200 200) (px 1))
    with (Some (Some (DropEdge EdgeBottom))) in H by (vm_compute; reflexivity).
  by apply H.
Defined.

Lemma pane_in_direction_nearest_witness :
  pane_in_direction (tb_root row_tab) 1 FocusRight = Some 2%N ∧
  ∃ b score, (2%N, b) ∈ collect_pane_bounds (tb_root row_tab) bounds_root ∧
    directional_score
      {| nb_left := f32_zero; nb_top := f32_zero; nb_right := f32_half; nb_bottom := f32_one |}
      b FocusRight = Some score.
Proof.
  split; [vm_compute; reflexivity|].
  pose proof (pane_in_direction_nearest (tb_root row_tab) 1
    {| nb_left := f32_zero; nb_top := f32_zero; nb_right := f32_half; nb_bottom := f32_one |}
    FocusRight) as H.
  replace (pane_in_direction (tb_root row_tab) 1 FocusRight) with (Some 2%N) in H
    by (vm_compute; reflexivity).
  destruct H as (b & score & H1 & H2 & _); [apply row_tab_ok|vm_compute; left|]. by exists b, score.
Defined.
