(* ===== verification/Slots.v ===== *)
(** * An order with hidden places

    What a collection promises while some of its members are parked: one order
    of all members, of which it shows the visible ones. The collections store the
    visible members and the position each parked one has in the whole order; the
    lemmas here relate the two. *)
From S2P Require Import Prelude.

Inductive Slot (A : Type) :=
  | Visible (a : A)
  | Hidden (a : A).
Arguments Visible {A}.
Arguments Hidden {A}.

(** The element before which a predicate first holds, and its surroundings. *)
Fixpoint split_at {A} (p : A → bool) (l : list A) : option (list A * A * list A) :=
  match l with
  | [] => None
  | x :: l => if p x then Some ([], x, l)
              else match split_at p l with
                   | Some (a, y, b) => Some (x :: a, y, b)
                   | None => None
                   end
  end.

Lemma split_at_sound {A} (p : A → bool) l a x b :
  split_at p l = Some (a, x, b) → l = a ++ x :: b ∧ p x = true ∧ Forall (λ y, p y = false) a.
Proof.
  revert a. induction l as [|y l IH]; intros a; simpl; [done|]. destruct (p y) eqn:Ey.
  - intros [= <- <- <-]. split; [done|]. by split; [|constructor].
  - destruct (split_at p l) as [[[a' x'] b']|]; [|done]. intros [= <- <- <-].
    destruct (IH a' eq_refl) as (-> & Hx & Ha). split; [done|]. by split; [|constructor].
Qed.

Lemma split_at_complete {A} (p : A → bool) a x b :
  p x = true → Forall (λ y, p y = false) a → split_at p (a ++ x :: b) = Some (a, x, b).
Proof. intros Hx. induction 1 as [|y a Hy _ IH]; simpl; [by rw Hx|]. by rw Hy IH. Qed.

Lemma split_at_None {A} (p : A → bool) l : split_at p l = None ↔ Forall (λ y, p y = false) l.
Proof.
  induction l as [|y l IH]; simpl; [done|]. rw Forall_cons. destruct (p y).
  - naive_solver.
  - destruct (split_at p l) as [[[a x] b]|]; naive_solver.
Qed.

Section slots.
Context {A : Type}.
Implicit Types l a b : list (Slot A).

Fixpoint visible l : list A :=
  match l with [] => [] | Visible x :: l => x :: visible l | Hidden _ :: l => visible l end.

(** The parked members with their positions in the whole order. *)
Fixpoint parked_from (k : nat) l : list (nat * A) :=
  match l with
  | [] => []
  | Visible _ :: l => parked_from (S k) l
  | Hidden x :: l => (k, x) :: parked_from (S k) l
  end.
Definition parked_of l := parked_from 0 l.

(** The same hidden places around another sequence of visible members. *)
Fixpoint refill l (v : list A) : list (Slot A) :=
  match l with
  | [] => []
  | Hidden x :: l => Hidden x :: refill l v
  | Visible _ :: l => match v with [] => [] | x :: v => Visible x :: refill l v end
  end.

Definition member (s : Slot A) : A := match s with Visible x | Hidden x => x end.

Lemma visible_app a b : visible (a ++ b) = visible a ++ visible b.
Proof. induction a as [|[x|x] a IH]; simpl; [done|by rw IH|done]. Qed.

Lemma parked_from_app k a b : parked_from k (a ++ b) = parked_from k a ++ parked_from (k + length a) b.
Proof.
  revert k. induction a as [|[x|x] a IH]; intros k; simpl; [by rw Nat.add_0_r|..];
    rw IH; by replace (k + S (length a)) with (S k + length a) by lia.
Qed.

Lemma slots_length l k : length l = length (visible l) + length (parked_from k l).
Proof. revert k. induction l as [|[x|x] l IH]; intros k; simpl; [done|rw (IH (S k)); lia..]. Qed.

Lemma parked_from_range k l : Forall (λ q, k ≤ q.1 < k + length l) (parked_from k l).
Proof.
  revert k. induction l as [|[x|x] l IH]; intros k; simpl; [done|..].
  - eapply Forall_impl; [apply IH|]. simpl. lia.
  - constructor; [simpl; lia|]. eapply Forall_impl; [apply IH|]. simpl. lia.
Qed.

Lemma refill_spec l v : length v = length (visible l) →
  visible (refill l v) = v ∧ (∀ k, parked_from k (refill l v) = parked_from k l).
Proof.
  revert v. induction l as [|[x|x] l IH]; intros v Hv; simpl in *; [by destruct v|..].
  - destruct v as [|y v]; [done|]. simpl in *. destruct (IH v) as [H1 H2]; [lia|]. by rw H1.
  - destruct (IH v Hv) as [H1 H2]. split; [done|]. intros k. by rw H2.
Qed.

Lemma refill_visible l : refill l (visible l) = l.
Proof. induction l as [|[x|x] l IH]; simpl; [done|by rw IH..]. Qed.

(** [position_with_parked]: from a place among the visible to the place in the
    whole order. *)
Definition shift_position (parked : list nat) (position : nat) : nat :=
  fold_left (λ position other, if other <=? position then S position else position) parked position.

Lemma shift_above parked position :
  Forall (λ other, position < other) parked → shift_position parked position = position.
Proof.
  unfold shift_position. induction 1 as [|q parked Hq _ IH]; simpl; [done|].
  by destruct (Nat.leb_spec q position); [lia|].
Qed.

Lemma shift_position_spec k a x b :
  shift_position (parked_from k (a ++ Visible x :: b)).*1 (k + length (visible a)) = k + length a.
Proof.
  revert k. induction a as [|[y|y] a IH]; intros k; simpl.
  - rw Nat.add_0_r. apply shift_above, Forall_fmap. eapply Forall_impl; [apply parked_from_range|].
    simpl. lia.
  - replace (k + S (length (visible a))) with (S k + length (visible a)) by lia. rw IH. lia.
  - cbn [shift_position fold_left]. destruct (Nat.leb_spec k (k + length (visible a))); [|lia].
    change (shift_position (parked_from (S k) (a ++ Visible x :: b)).*1 (S k + length (visible a)) = k + S (length a)).
    rw IH. lia.
Qed.

(** [retire_parked_position]: a place of the whole order goes. *)
Definition retire_position (position : nat) (parked : list (nat * A)) : list (nat * A) :=
  map (λ q, (if position <? q.1 then q.1 - 1 else q.1, q.2)) parked.

Lemma retire_parked_from k a b :
  retire_position (k + length a) (parked_from k a ++ parked_from (S (k + length a)) b) =
  parked_from k (a ++ b).
Proof.
  rw parked_from_app. unfold retire_position. rw map_app. f_equal.
  - rw -{2}(map_id (parked_from k a)). apply map_ext_in. intros [q x] Hin%list_elem_of_In.
    pose proof (parked_from_range k a) as H. rw Forall_forall in H. specialize (H _ Hin). simpl in *.
    by destruct (Nat.ltb_spec (k + length a) q); [lia|].
  - generalize (k + length a). intros n. assert (∀ j, n ≤ j → map (λ q, (if n <? q.1 then q.1 - 1 else q.1, q.2))
      (parked_from (S j) b) = parked_from j b) as H; [|by apply H].
    induction b as [|[x|x] b IH]; intros j Hj; simpl; [done|apply IH; lia|].
    rw IH; [lia|]. destruct (Nat.ltb_spec n (S j)); [|lia]. by rw Nat.sub_0_r.
Qed.

(** Where a newly hidden member goes among the parked ones. *)
Lemma park_insert k a x b :
  vinsert (take_while_count (λ q, q.1 <? k + length a) (parked_from k (a ++ Visible x :: b)))
    (k + length a, x) (parked_from k (a ++ Visible x :: b)) =
  parked_from k (a ++ Hidden x :: b).
Proof.
  rw !parked_from_app. cbn [parked_from].
  assert (take_while_count (λ q, q.1 <? k + length a)
    (parked_from k a ++ parked_from (S (k + length a)) b) = length (parked_from k a)) as ->.
  { pose proof (parked_from_range k a) as H. induction H as [|q l Hq _ IH]; simpl.
    - pose proof (parked_from_range (S (k + length a)) b) as H.
      destruct (parked_from (S (k + length a)) b) as [|q l]; [done|]. simpl.
      apply Forall_cons in H as [H _]. by destruct (Nat.ltb_spec q.1 (k + length a)); [lia|].
    - destruct (Nat.ltb_spec q.1 (k + length a)); [by rw IH|lia]. }
  unfold vinsert. by rw take_app_length drop_app_length.
Qed.

Lemma members_fmap l v : length v = length (visible l) → v ≡ₚ visible l →
  map member (refill l v) ≡ₚ map member l.
Proof.
  intros Hv Hp. assert (∀ l k, map member l ≡ₚ visible l ++ (parked_from k l).*2) as H.
  { clear. induction l as [|[x|x] l IH]; intros k; simpl; [done|by rw (IH (S k))|].
    by rw (IH (S k)) Permutation_middle. }
  rw (H _ 0) (H l 0). destruct (refill_spec l v Hv) as [-> ->]. by rw Hp.
Qed.
End slots.
