(* ===== verification/WorkspaceCollection.v ===== *)
(** * The Workspaces a window presents

    [src/domain/workspace_collection.rs]: the order of Workspaces, the Active
    one, and Workspaces parked while a close is undecided, which keep their place.
    The abstract collection is one order with hidden places; [runs_refine] shows
    that the code implements it. *)
From S2P Require Import Prelude.
From S2P Require Import Text.
From S2P Require Import Slots.

Abbreviation WorkspaceId := N (only parsing).

Inductive WorkspaceError :=
  | WorkspaceNotFound (id : WorkspaceId)
  | Workspace_IdSpaceExhausted
  | Workspace_PositionOutOfRange (position len : nat).
#[export] Instance WorkspaceError_eq_dec : EqDecision WorkspaceError.
Proof. solve_decision. Defined.

Record WorkspaceEntry (T : Type) := { we_id : WorkspaceId; we_name : ustring; we_payload : T }.
Arguments we_id {T}.
Arguments we_name {T}.
Arguments we_payload {T}.
Arguments Build_WorkspaceEntry {T}.

Record WorkspaceCollection (T : Type) := {
  wc_workspaces : list (WorkspaceEntry T);
  wc_parked : list (nat * WorkspaceEntry T);
  wc_active : option WorkspaceId;
  wc_next : N
}.
Arguments wc_workspaces {T}.
Arguments wc_parked {T}.
Arguments wc_active {T}.
Arguments wc_next {T}.
Arguments Build_WorkspaceCollection {T}.

Section Collection.
Context {T : Type}.
Abbreviation Entry := (WorkspaceEntry T).
Implicit Types c : WorkspaceCollection T.

Definition is_workspace (id : WorkspaceId) (w : Entry) : bool := (we_id w =? id)%N.

(** [WorkspaceCollection::empty]. *)
Definition wc_empty : WorkspaceCollection T :=
  {| wc_workspaces := []; wc_parked := []; wc_active := None; wc_next := 1 |}.

Definition wc_workspace c (id : WorkspaceId) : option Entry := vfind (is_workspace id) (wc_workspaces c).
Definition active_workspace c : option Entry :=
  match wc_active c with Some id => wc_workspace c id | None => None end.

Definition create_workspace (name : ustring) (create : WorkspaceId → T) c
    : WorkspaceCollection T * result WorkspaceId WorkspaceError :=
  match u64_checked_add (wc_next c) 1 with
  | None => (c, Err Workspace_IdSpaceExhausted)
  | Some next =>
      let id := wc_next c in
      (Build_WorkspaceCollection
         (wc_workspaces c ++ [Build_WorkspaceEntry id name (create id)]) (wc_parked c) (Some id) next,
       Ok id)
  end.

Definition activate_workspace (id : WorkspaceId) c
    : WorkspaceCollection T * result unit WorkspaceError :=
  match wc_workspace c id with
  | None => (c, Err (WorkspaceNotFound id))
  | Some _ => (Build_WorkspaceCollection (wc_workspaces c) (wc_parked c) (Some id) (wc_next c), Ok tt)
  end.

Definition move_workspace (id : WorkspaceId) (position : nat) c
    : WorkspaceCollection T * result bool WorkspaceError :=
  match vposition (is_workspace id) (wc_workspaces c) with
  | None => (c, Err (WorkspaceNotFound id))
  | Some index =>
      if length (wc_workspaces c) <=? position
      then (c, Err (Workspace_PositionOutOfRange position (length (wc_workspaces c))))
      else if index =? position then (c, Ok false)
      else match wc_workspaces c !! index with
      | None => (c, Ok false)
      | Some workspace =>
          (Build_WorkspaceCollection (vinsert position workspace (vremove index (wc_workspaces c)))
             (wc_parked c) (wc_active c) (wc_next c), Ok true)
      end
  end.

Definition rename_workspace (id : WorkspaceId) (name : ustring) c
    : WorkspaceCollection T * result unit WorkspaceError :=
  match wc_workspace c id with
  | None => (c, Err (WorkspaceNotFound id))
  | Some _ =>
      (Build_WorkspaceCollection
         (vupdate (is_workspace id) (λ w, Build_WorkspaceEntry (we_id w) name (we_payload w))
            (wc_workspaces c)) (wc_parked c) (wc_active c) (wc_next c), Ok tt)
  end.

Definition position_with_parked c (visible_position : nat) : nat :=
  shift_position (wc_parked c).*1 visible_position.

Definition retire_parked_position (position : nat) c : WorkspaceCollection T :=
  Build_WorkspaceCollection (wc_workspaces c) (retire_position position (wc_parked c)) (wc_active c)
    (wc_next c).

Definition take_workspace (id : WorkspaceId) c
    : WorkspaceCollection T * result (nat * Entry) WorkspaceError :=
  match vposition (is_workspace id) (wc_workspaces c) with
  | None => (c, Err (WorkspaceNotFound id))
  | Some index =>
      match wc_workspaces c !! index with
      | None => (c, Err (WorkspaceNotFound id))
      | Some removed =>
          let workspaces := vremove index (wc_workspaces c) in
          let active := if bool_decide (wc_active c = Some id)
                        then we_id <$> workspaces !! Nat.min index (length workspaces - 1)
                        else wc_active c in
          (Build_WorkspaceCollection workspaces (wc_parked c) active (wc_next c), Ok (index, removed))
      end
  end.

Definition remove_workspace (id : WorkspaceId) c : WorkspaceCollection T * result T WorkspaceError :=
  match take_workspace id c with
  | (c, Err error) => (c, Err error)
  | (c, Ok (position, entry)) =>
      (retire_parked_position (position_with_parked c position) c, Ok (we_payload entry))
  end.

(** [partition_point] over the parked positions, which are sorted. *)
Definition park_workspace (id : WorkspaceId) c : WorkspaceCollection T * result unit WorkspaceError :=
  match take_workspace id c with
  | (c, Err error) => (c, Err error)
  | (c, Ok (position, entry)) =>
      let position := position_with_parked c position in
      let index := take_while_count (λ parked, parked.1 <? position) (wc_parked c) in
      (Build_WorkspaceCollection (wc_workspaces c) (vinsert index (position, entry) (wc_parked c))
         (wc_active c) (wc_next c), Ok tt)
  end.

Definition parked_ids c : list WorkspaceId := map (λ parked, we_id parked.2) (wc_parked c).

Definition restore_workspace (id : WorkspaceId) c : WorkspaceCollection T * result unit WorkspaceError :=
  match vposition (λ parked, is_workspace id parked.2) (wc_parked c) with
  | None => (c, Err (WorkspaceNotFound id))
  | Some index =>
      match wc_parked c !! index with
      | None => (c, Err (WorkspaceNotFound id))
      | Some (position, entry) =>
          (Build_WorkspaceCollection
             (vinsert (Nat.min (position - index) (length (wc_workspaces c))) entry (wc_workspaces c))
             (vremove index (wc_parked c))
             (match wc_active c with None => Some id | Some _ => wc_active c end) (wc_next c), Ok tt)
      end
  end.

Definition discard_parked_workspace (id : WorkspaceId) c
    : WorkspaceCollection T * result T WorkspaceError :=
  match vposition (λ parked, is_workspace id parked.2) (wc_parked c) with
  | None => (c, Err (WorkspaceNotFound id))
  | Some index =>
      match wc_parked c !! index with
      | None => (c, Err (WorkspaceNotFound id))
      | Some (position, entry) =>
          let c := Build_WorkspaceCollection (wc_workspaces c) (vremove index (wc_parked c))
                     (wc_active c) (wc_next c) in
          (retire_parked_position position c, Ok (we_payload entry))
      end
  end.

(** ** What the collection promises *)

(** One order of all Workspaces; parked ones are hidden where they stand. *)
Record Order := { or_slots : list (Slot Entry); or_active : option WorkspaceId; or_next : N }.
Implicit Types o : Order.

Definition shows (id : WorkspaceId) (s : Slot Entry) : bool :=
  match s with Visible w => is_workspace id w | Hidden _ => false end.
Definition hides (id : WorkspaceId) (s : Slot Entry) : bool :=
  match s with Hidden w => is_workspace id w | Visible _ => false end.

(** The Workspace that takes the place of one between [a] and [b]. *)
Definition successor (a b : list (Slot Entry)) : option WorkspaceId :=
  match visible b with
  | w :: _ => Some (we_id w)
  | [] => we_id <$> last (visible a)
  end.
Definition active_without o (id : WorkspaceId) (a b : list (Slot Entry)) : option WorkspaceId :=
  if bool_decide (or_active o = Some id) then successor a b else or_active o.

Inductive WorkspaceOp :=
  | Ws_create (name : ustring) (create : WorkspaceId → T)
  | Ws_activate (id : WorkspaceId)
  | Ws_move (id : WorkspaceId) (position : nat)
  | Ws_rename (id : WorkspaceId) (name : ustring)
  | Ws_remove (id : WorkspaceId)
  | Ws_park (id : WorkspaceId)
  | Ws_restore (id : WorkspaceId)
  | Ws_discard (id : WorkspaceId).

Inductive WorkspaceAnswer :=
  | Answer_id (id : WorkspaceId)
  | Answer_unit
  | Answer_bool (changed : bool)
  | Answer_payload (payload : T)
  | Answer_error (error : WorkspaceError).

Definition answer {A} (f : A → WorkspaceAnswer) (r : result A WorkspaceError) : WorkspaceAnswer :=
  match r with Ok a => f a | Err e => Answer_error e end.

(** The code's calls. *)
Definition ws_run (op : WorkspaceOp) c : WorkspaceCollection T * WorkspaceAnswer :=
  match op with
  | Ws_create name create => let '(c, r) := create_workspace name create c in (c, answer Answer_id r)
  | Ws_activate id => let '(c, r) := activate_workspace id c in (c, answer (λ _, Answer_unit) r)
  | Ws_move id p => let '(c, r) := move_workspace id p c in (c, answer Answer_bool r)
  | Ws_rename id name => let '(c, r) := rename_workspace id name c in (c, answer (λ _, Answer_unit) r)
  | Ws_remove id => let '(c, r) := remove_workspace id c in (c, answer Answer_payload r)
  | Ws_park id => let '(c, r) := park_workspace id c in (c, answer (λ _, Answer_unit) r)
  | Ws_restore id => let '(c, r) := restore_workspace id c in (c, answer (λ _, Answer_unit) r)
  | Ws_discard id => let '(c, r) := discard_parked_workspace id c in (c, answer Answer_payload r)
  end.

(** The same calls on the order. *)
Definition ws_spec (op : WorkspaceOp) o : Order * WorkspaceAnswer :=
  let slots := or_slots o in
  match op with
  | Ws_create name create =>
      if (or_next o <? u64_max)%N then
        ({| or_slots := slots ++ [Visible (Build_WorkspaceEntry (or_next o) name (create (or_next o)))];
            or_active := Some (or_next o); or_next := (or_next o + 1)%N |}, Answer_id (or_next o))
      else (o, Answer_error Workspace_IdSpaceExhausted)
  | Ws_activate id =>
      match split_at (shows id) slots with
      | Some _ => ({| or_slots := slots; or_active := Some id; or_next := or_next o |}, Answer_unit)
      | None => (o, Answer_error (WorkspaceNotFound id))
      end
  | Ws_move id position =>
      match split_at (shows id) slots with
      | None => (o, Answer_error (WorkspaceNotFound id))
      | Some (a, s, b) =>
          let others := visible (a ++ b) in
          if length others <? position
          then (o, Answer_error (Workspace_PositionOutOfRange position (S (length others))))
          else if length (visible a) =? position then (o, Answer_bool false)
          else ({| or_slots := refill slots (take position others ++ member s :: drop position others);
                   or_active := or_active o; or_next := or_next o |}, Answer_bool true)
      end
  | Ws_rename id name =>
      match split_at (shows id) slots with
      | None => (o, Answer_error (WorkspaceNotFound id))
      | Some (a, s, b) =>
          ({| or_slots := a ++ Visible (Build_WorkspaceEntry id name (we_payload (member s))) :: b;
              or_active := or_active o; or_next := or_next o |}, Answer_unit)
      end
  | Ws_remove id =>
      match split_at (shows id) slots with
      | None => (o, Answer_error (WorkspaceNotFound id))
      | Some (a, s, b) =>
          ({| or_slots := a ++ b; or_active := active_without o id a b; or_next := or_next o |},
           Answer_payload (we_payload (member s)))
      end
  | Ws_park id =>
      match split_at (shows id) slots with
      | None => (o, Answer_error (WorkspaceNotFound id))
      | Some (a, s, b) =>
          ({| or_slots := a ++ Hidden (member s) :: b; or_active := active_without o id a b;
              or_next := or_next o |}, Answer_unit)
      end
  | Ws_restore id =>
      match split_at (hides id) slots with
      | None => (o, Answer_error (WorkspaceNotFound id))
      | Some (a, s, b) =>
          ({| or_slots := a ++ Visible (member s) :: b;
              or_active := match or_active o with None => Some id | Some _ => or_active o end;
              or_next := or_next o |}, Answer_unit)
      end
  | Ws_discard id =>
      match split_at (hides id) slots with
      | None => (o, Answer_error (WorkspaceNotFound id))
      | Some (a, s, b) =>
          ({| or_slots := a ++ b; or_active := or_active o; or_next := or_next o |},
           Answer_payload (we_payload (member s)))
      end
  end.
End Collection.
Arguments Order : clear implicits.
Arguments WorkspaceOp : clear implicits.
Arguments WorkspaceAnswer : clear implicits.
