(* ===== verification/WorkspaceTheorems.v ===== *)
(** * A window's Workspaces implement one order with hidden places *)
From S2P Require Import Prelude.
From S2P Require Import Text.
From S2P Require Import Slots.
From S2P Require Import WorkspaceCollection.

Section Refinement.
Context {T : Type}.
Abbreviation Entry := (WorkspaceEntry T).
Implicit Types (c : WorkspaceCollection T) (o : Order T) (a b slots : list (Slot Entry)).

Record Represents c o : Prop := {
  rp_workspaces : wc_workspaces c = visible (or_slots o);
  rp_parked : wc_parked c = parked_of (or_slots o);
  rp_active : wc_active c = or_active o;
  rp_next : wc_next c = or_next o
}.

(** ** Finding a member *)

Lemma shows_split id slots a s b :
  split_at (shows id) slots = Some (a, s, b) →
  ∃ w, s = Visible w ∧ slots = a ++ Visible w :: b ∧ we_id w = id ∧
    visible slots = visible a ++ w :: visible b ∧ Forall (λ v, is_workspace id v = false) (visible a).
Proof.
  intros (-> & Hs & Ha)%split_at_sound. destruct s as [w|w]; [|done]. exists w.
  split; [done|]. split; [done|]. split; [by apply N.eqb_eq|]. rw visible_app. split; [done|].
  clear Hs. induction Ha as [|[v|v] a Hv _ IH]; simpl; [done|by constructor|done].
Qed.

Lemma vposition_split (p : Entry → bool) (l1 : list Entry) w l2 :
  p w = true → Forall (λ v, p v = false) l1 → vposition p (l1 ++ w :: l2) = Some (length l1).
Proof. intros Hw. induction 1 as [|v l1 Hv _ IH]; simpl; [by rw Hw|]. by rw Hv IH. Qed.

Lemma shows_none id slots :
  split_at (shows id) slots = None →
  vposition (is_workspace id) (visible slots) = None ∧ vfind (is_workspace id) (visible slots) = None.
Proof.
  rw split_at_None. induction 1 as [|[w|w] slots Hw _ [IH1 IH2]]; simpl; [done| |done].
  simpl in Hw. unfold vfind in *. simpl. by rw Hw IH1 IH2.
Qed.

Lemma shows_vfind id slots a s b :
  split_at (shows id) slots = Some (a, s, b) → vfind (is_workspace id) (visible slots) = Some (member s).
Proof.
  intros (w & -> & _ & Hid & -> & Ha)%shows_split. unfold vfind. simpl.
  induction Ha as [|v l Hv _ IH]; simpl; [by rw /is_workspace Hid N.eqb_refl|by rw Hv].
Qed.

Lemma hides_split id slots a s b :
  split_at (hides id) slots = Some (a, s, b) →
  ∃ w, s = Hidden w ∧ slots = a ++ Hidden w :: b ∧ we_id w = id ∧
    vposition (λ q, is_workspace id q.2) (parked_of slots) = Some (length (parked_of a)) ∧
    parked_of slots = parked_of a ++ (length a, w) :: parked_from (S (length a)) b.
Proof.
  intros (-> & Hs & Ha)%split_at_sound. destruct s as [w|w]; [done|]. exists w.
  split; [done|]. split; [done|]. split; [by apply N.eqb_eq|]. unfold parked_of.
  rw parked_from_app. cbn [parked_from]. split; [|done]. simpl in Hs.
  generalize (0 + length a). generalize 0.
  induction Ha as [|[v|v] a Hv _ IH]; intros k n; simpl; [by rw Hs|apply IH|].
  simpl in Hv. by rw Hv IH.
Qed.

Lemma hides_none id slots k :
  split_at (hides id) slots = None → vposition (λ q, is_workspace id q.2) (parked_from k slots) = None.
Proof.
  rw split_at_None. intros H. revert k. induction H as [|[w|w] slots Hw _ IH]; intros k; simpl; [done|done|].
  simpl in Hw. by rw Hw IH.
Qed.

(** ** Taking a Workspace out of the visible ones *)

Lemma take_workspace_spec id c o a s b :
  Represents c o → split_at (shows id) (or_slots o) = Some (a, s, b) →
  take_workspace id c =
    (Build_WorkspaceCollection (visible (a ++ b)) (wc_parked c) (active_without o id a b) (wc_next c),
     Ok (length (visible a), member s)).
Proof.
  intros [R1 R2 R3 R4] E. destruct (shows_split _ _ _ _ _ E) as (w & -> & Hs & Hid & Hv & Ha).
  unfold take_workspace. rw R1 Hv vposition_split //; [by rw /is_workspace Hid N.eqb_refl|].
  rw lookup_split vremove_split visible_app. cbn [member]. f_equal. f_equal. unfold active_without. rw R3.
  case_bool_decide; [|done]. unfold successor. destruct (visible b) as [|v vs]; simpl.
  - rw app_nil_r last_lookup. destruct (visible a) as [|x l]; [done|].
    cbn [length pred]. by replace (Nat.min _ _) with (length l) by lia.
  - rw length_app /=. replace (Nat.min _ _) with (length (visible a)) by lia. by rw lookup_split.
Qed.

Lemma take_workspace_none id c o :
  Represents c o → split_at (shows id) (or_slots o) = None →
  take_workspace id c = (c, Err (WorkspaceNotFound id)).
Proof. intros [R1 R2 R3 R4] [E _]%shows_none. unfold take_workspace. by rw R1 E. Qed.

(** Its place in the whole order. *)
Lemma position_spec a w b (parked : list (nat * Entry)) c :
  wc_parked c = parked_of (a ++ Visible w :: b) →
  position_with_parked c (length (visible a)) = length a.
Proof. intros E. unfold position_with_parked. rw E. apply (shift_position_spec 0). Qed.

(** ** Every call *)

Lemma refine_move id position c o :
  Represents c o →
  let '(c', x) := ws_run (Ws_move id position) c in
  let '(o', y) := ws_spec (Ws_move id position) o in Represents c' o' ∧ x = y.
Proof.
  intros HR. pose proof HR as [R1 R2 R3 R4]. cbn [ws_run ws_spec]. unfold move_workspace.
  destruct (split_at (shows id) (or_slots o)) as [[[a s] b]|] eqn:E.
  2: { apply shows_none in E as [E _]. rw R1 E. done. }
  destruct (shows_split _ _ _ _ _ E) as (w & -> & Hs & Hid & Hv & Ha).
  rw R1 Hv vposition_split //; [by rw /is_workspace Hid N.eqb_refl|].
  rw length_app /= visible_app length_app.
  destruct (Nat.leb_spec (length (visible a) + S (length (visible b))) position) as [Hp|Hp],
    (Nat.ltb_spec (length (visible a) + length (visible b)) position) as [Hp'|Hp']; try lia.
  { simpl. split; [done|]. by rw Nat.add_succ_r. }
  destruct (Nat.eqb_spec (length (visible a)) position) as [|Hne]; [done|].
  rw lookup_split vremove_split. cbn [member answer]. split; [|done].
  destruct (refill_spec (or_slots o) (vinsert position w (visible a ++ visible b))) as [F1 F2].
  { unfold vinsert. rw Hv !length_app /= length_take length_drop !length_app. lia. }
  split; cbn [wc_workspaces wc_parked wc_active wc_next or_slots or_active or_next]; try done.
  rw R2. symmetry. apply F2.
Qed.

Lemma refine_take id c o :
  Represents c o →
  (let '(c', x) := ws_run (Ws_remove id) c in
   let '(o', y) := ws_spec (Ws_remove id) o in Represents c' o' ∧ x = y) ∧
  (let '(c', x) := ws_run (Ws_park id) c in
   let '(o', y) := ws_spec (Ws_park id) o in Represents c' o' ∧ x = y).
Proof.
  intros HR. pose proof HR as [R1 R2 R3 R4]. cbn [ws_run ws_spec].
  unfold remove_workspace, park_workspace.
  destruct (split_at (shows id) (or_slots o)) as [[[a s] b]|] eqn:E.
  2: { by rw (take_workspace_none _ _ _ HR E). }
  rw (take_workspace_spec _ _ _ _ _ _ HR E).
  destruct (shows_split _ _ _ _ _ E) as (w & -> & Hs & _). rw Hs in R2.
  rw !(position_spec a w b []) //. cbn [member answer]. split; (split; [|done]); split;
    cbn [retire_parked_position wc_workspaces wc_parked wc_active wc_next or_slots or_active or_next]; try done.
  - rw R2. unfold parked_of. rw parked_from_app. cbn [parked_from].
    apply (retire_parked_from 0 a b).
  - by rw !visible_app.
  - rw R2. apply (park_insert 0 a w b).
Qed.

Lemma refine_parked id c o :
  Represents c o →
  (let '(c', x) := ws_run (Ws_restore id) c in
   let '(o', y) := ws_spec (Ws_restore id) o in Represents c' o' ∧ x = y) ∧
  (let '(c', x) := ws_run (Ws_discard id) c in
   let '(o', y) := ws_spec (Ws_discard id) o in Represents c' o' ∧ x = y).
Proof.
  intros HR. pose proof HR as [R1 R2 R3 R4]. cbn [ws_run ws_spec].
  unfold restore_workspace, discard_parked_workspace.
  destruct (split_at (hides id) (or_slots o)) as [[[a s] b]|] eqn:E.
  2: { apply (hides_none _ _ 0) in E. rw R2 E. done. }
  destruct (hides_split _ _ _ _ _ E) as (w & -> & Hs & _ & Hv & Hp).
  rw R2 Hv Hp lookup_split vremove_split. cbn [member answer].
  split; (split; [|done]); split;
    cbn [retire_parked_position wc_workspaces wc_parked wc_active wc_next or_slots or_active or_next]; try done.
  - rw R1 Hs !visible_app. cbn [visible]. pose proof (slots_length a 0) as Hl. unfold parked_of.
    replace (Nat.min _ _) with (length (visible a)) by (rw length_app; lia).
    unfold vinsert. by rw take_app_length drop_app_length.
  - unfold parked_of. rw parked_from_app. done.
  - by rw R3.
  - rw R1 Hs !visible_app. done.
  - apply (retire_parked_from 0 a b).
Qed.

Lemma ws_run_refines op c o :
  Represents c o →
  let '(c', x) := ws_run op c in let '(o', y) := ws_spec op o in Represents c' o' ∧ x = y.
Proof.
  intros HR. pose proof HR as [R1 R2 R3 R4]. destruct op.
  - cbn [ws_run ws_spec]. unfold create_workspace, u64_checked_add. rw R4.
    destruct (N.leb_spec (or_next o + 1) u64_max), (N.ltb_spec (or_next o) u64_max); try lia; [|done].
    split; [|done]. split; cbn [wc_workspaces wc_parked wc_active wc_next or_slots or_active or_next]; try done.
    + by rw R1 visible_app.
    + unfold parked_of. by rw R2 parked_from_app app_nil_r.
  - cbn [ws_run ws_spec]. unfold activate_workspace, wc_workspace.
    destruct (split_at (shows id) (or_slots o)) as [[[a s] b]|] eqn:E.
    + rw R1 (shows_vfind _ _ _ _ _ E). done.
    + apply shows_none in E as [_ E]. rw R1 E. done.
  - by apply refine_move.
  - cbn [ws_run ws_spec]. unfold rename_workspace, wc_workspace.
    destruct (split_at (shows id) (or_slots o)) as [[[a s] b]|] eqn:E.
    2: { apply shows_none in E as [_ E]. rw R1 E. done. }
    rw R1 (shows_vfind _ _ _ _ _ E). destruct (shows_split _ _ _ _ _ E) as (w & -> & Hs & Hid & Hv & Ha).
    cbn [answer]. split; [|done]. split; cbn [wc_workspaces wc_parked wc_active wc_next or_slots or_active or_next]; try done.
    + rw Hv vupdate_split //; [by rw /is_workspace Hid N.eqb_refl|]. by rw visible_app Hid.
    + rw R2 Hs. unfold parked_of. by rw !parked_from_app.
  - by apply refine_take.
  - by apply refine_take.
  - by apply refine_parked.
  - by apply refine_parked.
Qed.

Fixpoint ws_runs (ops : list (WorkspaceOp T)) c : WorkspaceCollection T * list (WorkspaceAnswer T) :=
  match ops with
  | [] => (c, [])
  | op :: ops => let '(c, x) := ws_run op c in let '(c, xs) := ws_runs ops c in (c, x :: xs)
  end.
Fixpoint ws_specs (ops : list (WorkspaceOp T)) o : Order T * list (WorkspaceAnswer T) :=
  match ops with
  | [] => (o, [])
  | op :: ops => let '(o, x) := ws_spec op o in let '(o, xs) := ws_specs ops o in (o, x :: xs)
  end.

Definition order_empty : Order T := {| or_slots := []; or_active := None; or_next := 1 |}.

Lemma runs_represent ops c o :
  Represents c o →
  Represents (ws_runs ops c).1 (ws_specs ops o).1 ∧ (ws_runs ops c).2 = (ws_specs ops o).2.
Proof.
  revert c o. induction ops as [|op ops IH]; intros c o HR; [done|]. cbn [ws_runs ws_specs].
  pose proof (ws_run_refines op c o HR) as H.
  destruct (ws_run op c) as [c' x], (ws_spec op o) as [o' y]. destruct H as [HR' ->].
  specialize (IH c' o' HR'). destruct (ws_runs ops c'), (ws_specs ops o'). simpl in *.
  by destruct IH as [? ->].
Qed.

(** C6. Refinement: along every sequence of calls on an empty window, the
    collection answers what one order of all Workspaces answers, in which a parked
    Workspace is hidden where it stands, restored there and otherwise unmoved; and
    it shows the visible ones of that order. *)
Theorem workspace_runs_refine ops :
  (ws_runs ops wc_empty).2 = (ws_specs ops order_empty).2 ∧
  wc_workspaces (ws_runs ops wc_empty).1 = visible (or_slots (ws_specs ops order_empty).1) ∧
  wc_parked (ws_runs ops wc_empty).1 = parked_of (or_slots (ws_specs ops order_empty).1) ∧
  wc_active (ws_runs ops wc_empty).1 = or_active (ws_specs ops order_empty).1.
Proof. by destruct (runs_represent ops wc_empty order_empty) as [[] ?]; [split|]. Qed.

(** ** The Active Workspace and identities *)

Definition ids_of (slots : list (Slot Entry)) : list N := map (λ s, we_id (member s)) slots.

Record OrderOk o : Prop := {
  oo_ids : NoDup (ids_of (or_slots o));
  oo_below : Forall (λ id, id < or_next o)%N (ids_of (or_slots o));
  oo_active : match or_active o with
              | None => visible (or_slots o) = []
              | Some id => id ∈ map we_id (visible (or_slots o))
              end
}.

Lemma visible_ids slots id : id ∈ map we_id (visible slots) → id ∈ ids_of slots.
Proof.
  induction slots as [|[w|w] slots IH]; simpl; [done|..]; rw !elem_of_cons; [|by right; apply IH].
  by intros [?|?]; [left|right; apply IH].
Qed.

(** Without the Active Workspace its successor is visible, if any is. *)
Lemma active_without_ok o id a s b slots :
  OrderOk o → split_at (shows id) (or_slots o) = Some (a, s, b) → visible slots = visible (a ++ b) →
  match active_without o id a b with
  | None => visible slots = []
  | Some k => k ∈ map we_id (visible slots)
  end.
Proof.
  intros [H1 H2 H3] (w & -> & Hs & Hid & Hv & _)%shows_split ->. unfold active_without.
  case_bool_decide as E.
  - unfold successor. rw visible_app. destruct (visible b) as [|v vs].
    + rw app_nil_r. destruct (last (visible a)) as [x|] eqn:El; simpl.
      * apply list_elem_of_fmap_2. by apply last_Some_elem_of.
      * by apply last_None in El.
    + rw map_app elem_of_app. right. by left.
  - destruct (or_active o) as [k|]; [|by rw Hv in H3; apply app_nil in H3 as [_ ?]].
    rw Hv map_app elem_of_app /= elem_of_cons in H3. rw visible_app map_app elem_of_app.
    destruct H3 as [?|[->|?]]; [by left| |by right]. by rw Hid in E.
Qed.

Lemma OrderOk_slots o slots active :
  OrderOk o → ids_of slots ⊆+ ids_of (or_slots o) →
  match active with None => visible slots = [] | Some k => k ∈ map we_id (visible slots) end →
  OrderOk {| or_slots := slots; or_active := active; or_next := or_next o |}.
Proof.
  intros [H1 H2 _] Hsub Ha. split; simpl; [by eapply NoDup_submseteq_l| |done].
  rw Forall_forall in H2. apply Forall_forall. intros id Hin. apply H2. by eapply elem_of_submseteq.
Qed.

Lemma ids_of_app a b : ids_of (a ++ b) = ids_of a ++ ids_of b.
Proof. apply map_app. Qed.

Lemma ws_spec_ok op o : OrderOk o → OrderOk (ws_spec op o).1.
Proof.
  intros Hok. pose proof Hok as [H1 H2 H3]. destruct op; cbn [ws_spec].
  - destruct (_ <? _)%N; [|done]. cbn [fst]. split; cbn [or_slots or_next or_active].
    + rw ids_of_app. apply NoDup_app. split; [done|]. split; [|apply NoDup_singleton].
      intros id Hin ->%list_elem_of_singleton. rw Forall_forall in H2. specialize (H2 _ Hin). simpl in H2. lia.
    + rw ids_of_app. apply Forall_app. split; [|constructor; [simpl; lia|constructor]].
      eapply Forall_impl; [exact H2|]. simpl. lia.
    + rw visible_app map_app elem_of_app. right. by left.
  - destruct (split_at (shows id) (or_slots o)) as [[[a s] b]|] eqn:E; [|done].
    destruct (shows_split _ _ _ _ _ E) as (w & -> & Hs & Hid & Hv & _).
    apply OrderOk_slots; [done|done|]. rw Hv map_app elem_of_app. right. rw -Hid. by left.
  - destruct (split_at (shows id) (or_slots o)) as [[[a s] b]|] eqn:E; [|done].
    destruct (shows_split _ _ _ _ _ E) as (w & -> & Hs & Hid & Hv & _). cbv zeta. rw visible_app.
    destruct (_ <? position); [done|]. destruct (_ =? position); [done|]. cbn [fst member].
    set (v := take position _ ++ w :: drop position _).
    assert (v ≡ₚ visible (or_slots o)) as Hp.
    { unfold v. rw -Permutation_middle take_drop Hv. by rw Permutation_middle. }
    pose proof (Permutation_length Hp) as Hlen.
    destruct (refill_spec (or_slots o) v Hlen) as [Hr _]. apply OrderOk_slots; [done| |].
    + apply Permutation_submseteq. unfold ids_of. rw -!(map_map member we_id).
      by apply (fmap_Permutation we_id), members_fmap.
    + rw Hr. destruct (or_active o) as [k|].
      * apply list_elem_of_fmap in H3 as (x & -> & Hx). apply list_elem_of_fmap_2. by rw Hp.
      * rw H3 in Hp. by apply Permutation_nil_r in Hp.
  - destruct (split_at (shows id) (or_slots o)) as [[[a s] b]|] eqn:E; [|done].
    destruct (shows_split _ _ _ _ _ E) as (w & -> & Hs & Hid & Hv & _).
    apply OrderOk_slots; [done|rw Hs !ids_of_app /=; by rw Hid|].
    rw Hv in H3. rw visible_app. destruct (or_active o) as [k|]; [|by apply app_nil in H3 as [_ ?]].
    rw map_app /= in H3. rw map_app /=. by rw -Hid.
  - destruct (split_at (shows id) (or_slots o)) as [[[a s] b]|] eqn:E; [|done].
    destruct (shows_split _ _ _ _ _ E) as (w & _ & Hs & _).
    apply OrderOk_slots; [done| |by eapply active_without_ok].
    rw Hs !ids_of_app. by apply submseteq_app, submseteq_cons.
  - destruct (split_at (shows id) (or_slots o)) as [[[a s] b]|] eqn:E; [|done].
    destruct (shows_split _ _ _ _ _ E) as (w & -> & Hs & _).
    apply OrderOk_slots; [done|by rw Hs !ids_of_app|].
    eapply active_without_ok; [done|done|]. by rw !visible_app.
  - destruct (split_at (hides id) (or_slots o)) as [[[a s] b]|] eqn:E; [|done].
    destruct (hides_split _ _ _ _ _ E) as (w & -> & Hs & Hid & _).
    apply OrderOk_slots; [done|by rw Hs !ids_of_app|]. rw Hs !visible_app in H3 |- *. cbn [visible member] in *.
    destruct (or_active o) as [k|]; rw map_app elem_of_app /= elem_of_cons.
    + rw map_app elem_of_app in H3. tauto.
    + right. by left.
  - destruct (split_at (hides id) (or_slots o)) as [[[a s] b]|] eqn:E; [|done].
    destruct (hides_split _ _ _ _ _ E) as (w & -> & Hs & Hid & _).
    apply OrderOk_slots; [done|rw Hs !ids_of_app; by apply submseteq_app, submseteq_cons|].
    rw Hs !visible_app in H3 |- *. done.
Qed.

Lemma specs_ok ops o : OrderOk o → OrderOk (ws_specs ops o).1.
Proof.
  revert o. induction ops as [|op ops IH]; intros o Hok; [done|]. cbn [ws_specs].
  pose proof (ws_spec_ok op o Hok). destruct (ws_spec op o) as [o' x]. simpl in *.
  specialize (IH o'). destruct (ws_specs ops o'). auto.
Qed.

Lemma visible_parked_ids slots k :
  map we_id (visible slots) ++ map (λ q, we_id q.2) (parked_from k slots) ≡ₚ ids_of slots.
Proof.
  revert k. induction slots as [|[w|w] slots IH]; intros k; simpl; [done|by rw IH|].
  by rw -Permutation_middle IH.
Qed.

(** Along every sequence of calls on an empty window no identity is used
    twice, parked Workspaces included, and the Active Workspace is one of those
    shown, absent only while none is. *)
Theorem workspace_runs_active ops :
  let c := (ws_runs ops wc_empty).1 in
  NoDup (map we_id (wc_workspaces c) ++ parked_ids c) ∧
  (wc_active c = None ↔ wc_workspaces c = []) ∧
  (∀ id, wc_active c = Some id → ∃ w, active_workspace c = Some w ∧ we_id w = id).
Proof.
  cbv zeta. destruct (runs_represent ops wc_empty order_empty) as [[R1 R2 R3 R4] _]; [by split|].
  destruct (specs_ok ops order_empty) as [H1 H2 H3]; [by split; [constructor|constructor|]|].
  unfold parked_ids, active_workspace, wc_workspace. rw R1 R2 R3. split; [|split].
  - unfold parked_of. by rw visible_parked_ids.
  - destruct (or_active _) as [k|]; [|done]. split; [done|]. intros E. rw E in H3. by apply elem_of_nil in H3.
  - intros id E. rw E in H3 |- *. apply list_elem_of_fmap in H3 as (w & -> & Hw).
    destruct (vfind_is_Some (is_workspace (we_id w)) _ w Hw) as [v Hv]; [by rw /is_workspace N.eqb_refl|].
    exists v. split; [done|]. apply vfind_Some in Hv as [Hv _]. by apply N.eqb_eq.
Qed.
End Refinement.
