(* ===== verification/TabCollection.v ===== *)
(** * The Tabs of a Workspace

    [src/domain/tab_collection.rs]: the order of a Workspace's Tabs, grouped by
    Worktree, with the Active and Root Tabs, the activation order, and Tabs parked
    while a close is undecided. A Tab with no Worktree has scope [None]. [None] as
    the result of a call is a panic ([expect], an index out of range). *)
From stdpp Require Import sorting.
From S2P Require Import Prelude.
From S2P Require Import CloseConfirmation.
From S2P Require Import Slots.

Abbreviation TabId := N (only parsing).
Abbreviation Scope := (option N) (only parsing).

Inductive TabError :=
  | TabNotFound (id : TabId)
  | Tab_IdSpaceExhausted
  | Tab_PositionOutOfRange (position len : nat).
#[export] Instance TabError_eq_dec : EqDecision TabError.
Proof. solve_decision. Defined.

Record TabEntry (T : Type) := { te_id : TabId; te_scope : Scope; te_payload : T }.
Arguments te_id {T}.
Arguments te_scope {T}.
Arguments te_payload {T}.
Arguments Build_TabEntry {T}.

Record ParkedTab (T : Type) := { pt_entry : TabEntry T; pt_was_root : bool }.
Arguments pt_entry {T}.
Arguments pt_was_root {T}.
Arguments Build_ParkedTab {T}.

Inductive TabStep := StepPrevious | StepNext.

Record TabCollection (T : Type) := {
  tc_tabs : list (TabEntry T);
  tc_parked : gmap TabId (Scope * nat);
  tc_active : TabId;
  tc_root : TabId;
  tc_order : list TabId;
  tc_next : N
}.
Arguments tc_tabs {T}.
Arguments tc_parked {T}.
Arguments tc_active {T}.
Arguments tc_root {T}.
Arguments tc_order {T}.
Arguments tc_next {T}.
Arguments Build_TabCollection {T}.

Section Collection.
Context {T : Type}.
Implicit Types (c : TabCollection T) (tabs : list (TabEntry T)).

Definition set_tc_tabs tabs c : TabCollection T :=
  Build_TabCollection tabs (tc_parked c) (tc_active c) (tc_root c) (tc_order c) (tc_next c).
Definition set_tc_parked parked c : TabCollection T :=
  Build_TabCollection (tc_tabs c) parked (tc_active c) (tc_root c) (tc_order c) (tc_next c).
Definition set_tc_root root c : TabCollection T :=
  Build_TabCollection (tc_tabs c) (tc_parked c) (tc_active c) root (tc_order c) (tc_next c).
Definition set_tc_order order c : TabCollection T :=
  Build_TabCollection (tc_tabs c) (tc_parked c) (tc_active c) (tc_root c) order (tc_next c).

Definition in_scope (scope : Scope) (tab : TabEntry T) : bool := bool_decide (te_scope tab = scope).
Definition is_tab (id : TabId) (tab : TabEntry T) : bool := (te_id tab =? id)%N.

(** [TabCollection::new]. *)
Definition tc_new (create : TabId → T) : TabCollection T :=
  {| tc_tabs := [Build_TabEntry 1 None (create 1)]%N; tc_parked := ∅; tc_active := 1; tc_root := 1;
     tc_order := [1%N]; tc_next := 2 |}.

Definition index_of c (id : TabId) : result nat TabError :=
  ok_or (vposition (is_tab id) (tc_tabs c)) (TabNotFound id).

(** [indices_in]: the places of a scope's Tabs, from the first place [k]. *)
Fixpoint indices_from (k : nat) (scope : Scope) tabs : list nat :=
  match tabs with
  | [] => []
  | tab :: tabs => if in_scope scope tab then k :: indices_from (S k) scope tabs
                   else indices_from (S k) scope tabs
  end.
Definition indices_in c (scope : Scope) : list nat := indices_from 0 scope (tc_tabs c).

Definition scope_of c (id : TabId) : result Scope TabError :=
  match index_of c id with
  | Ok index => ok_or (te_scope <$> tc_tabs c !! index) (TabNotFound id)
  | Err error => Err error
  end.

Definition tabs_in c (scope : Scope) : list (TabId * T) :=
  map (λ tab, (te_id tab, te_payload tab)) (vfilter (in_scope scope) (tc_tabs c)).

Definition most_recent_tab_in c (scope : Scope) : option TabId :=
  vfind (λ id, bool_decide (scope_of c id = Ok scope)) (rev (tc_order c)).

(** The scope of the Active Tab; a panic where it is not owned. *)
Definition active_scope c : option Scope :=
  match index_of c (tc_active c) with
  | Ok index => te_scope <$> tc_tabs c !! index
  | Err _ => None
  end.

Definition tc_set_active (id : TabId) c : TabCollection T :=
  Build_TabCollection (tc_tabs c) (tc_parked c) id (tc_root c)
    (vfilter (λ other, negb (other =? id)%N) (tc_order c) ++ [id]) (tc_next c).

(** After the last Tab of a scope, or at the end. *)
Definition end_of_scope (scope : Scope) tabs : nat :=
  match vrposition (in_scope scope) tabs with Some index => S index | None => length tabs end.

Definition create_tab_in (scope : Scope) (create : TabId → T) c
    : TabCollection T * result TabId TabError :=
  match u64_checked_add (tc_next c) 1 with
  | None => (c, Err Tab_IdSpaceExhausted)
  | Some next =>
      let id := tc_next c in
      let tabs := vinsert (end_of_scope scope (tc_tabs c)) (Build_TabEntry id scope (create id))
                    (tc_tabs c) in
      let c := Build_TabCollection tabs (tc_parked c) (tc_active c) (tc_root c) (tc_order c) next in
      (tc_set_active id c, Ok id)
  end.

(** ** Parked positions *)

Definition parked_positions_in c (scope : Scope) : list nat :=
  omap (λ parked, if bool_decide (parked.2.1 = scope) then Some parked.2.2 else None)
    (map_to_list (tc_parked c)).

(** [retained_position] of the Tab at [index]. *)
Definition retained_at c (index : nat) (tab : TabEntry T) : Scope * nat :=
  let scope := te_scope tab in
  let position := length (vfilter (in_scope scope) (take index (tc_tabs c))) in
  (scope, shift_position (merge_sort (≤) (parked_positions_in c scope)) position).

Definition tc_retire (scope : Scope) (position : nat) (parked : gmap TabId (Scope * nat))
    : gmap TabId (Scope * nat) :=
  (λ place, (place.1, if bool_decide (place.1 = scope) && (position <? place.2)
                      then place.2 - 1 else place.2)) <$> parked.

(** The Tab with an identity and its place, or the error every call gives. *)
Definition locate c (id : TabId) : result (nat * TabEntry T) TabError :=
  match index_of c id with
  | Ok index => ok_or ((index,.) <$> tc_tabs c !! index) (TabNotFound id)
  | Err error => Err error
  end.

Definition set_tab_scope (id : TabId) (scope : Scope) c : TabCollection T * result unit TabError :=
  match locate c id with
  | Err error => (c, Err error)
  | Ok (index, tab) =>
      if bool_decide (te_scope tab = scope) then (c, Ok tt)
      else
        let '(previous_scope, position) := retained_at c index tab in
        let c := set_tc_parked (tc_retire previous_scope position (tc_parked c)) c in
        let tabs := vremove index (tc_tabs c) in
        let tab := Build_TabEntry (te_id tab) scope (te_payload tab) in
        (set_tc_tabs (vinsert (end_of_scope scope tabs) tab tabs) c, Ok tt)
  end.

Definition activate_tab (id : TabId) c : TabCollection T * result unit TabError :=
  match index_of c id with
  | Err error => (c, Err error)
  | Ok _ => (tc_set_active id c, Ok tt)
  end.

Definition move_tab (id : TabId) (position : nat) c : TabCollection T * result bool TabError :=
  match locate c id with
  | Err error => (c, Err error)
  | Ok (index, tab) =>
      let siblings := indices_in c (te_scope tab) in
      match siblings !! position with
      | None => (c, Err (Tab_PositionOutOfRange position (length siblings)))
      | Some target =>
          if index =? target then (c, Ok false)
          else (set_tc_tabs (vinsert target tab (vremove index (tc_tabs c))) c, Ok true)
      end
  end.

Definition neighbor_of_active_tab c (step : TabStep) : option TabId :=
  match active_scope c with
  | None => None
  | Some scope =>
      let siblings := indices_in c scope in
      let len := length siblings in
      match vposition (λ index, match tc_tabs c !! index with
                                | Some tab => is_tab (tc_active c) tab
                                | None => false
                                end) siblings with
      | None => None
      | Some index =>
          let neighbor := match step with
                          | StepPrevious => (index + len - 1) mod len
                          | StepNext => (index + 1) mod len
                          end in
          match siblings !! neighbor with
          | Some index => te_id <$> tc_tabs c !! index
          | None => None
          end
      end
  end.

(** [Vec::swap]. *)
Definition vswap {A} (i j : nat) (l : list A) : list A :=
  match l !! i, l !! j with
  | Some x, Some y => <[j := x]> (<[i := y]> l)
  | _, _ => l
  end.

Definition step_index (index : nat) (tab : TabEntry T) (step : TabStep) c : TabCollection T * bool :=
  let position := match step with
                  | StepPrevious => match index with 0 => None | S index => Some index end
                  | StepNext => if S index <? length (tc_tabs c) then Some (S index) else None
                  end in
  match position with
  | None => (c, false)
  | Some position =>
      match tc_tabs c !! position with
      | Some other =>
          if in_scope (te_scope tab) other
          then (set_tc_tabs (vswap index position (tc_tabs c)) c, true) else (c, false)
      | None => (c, false)
      end
  end.

Definition step_tab (id : TabId) (step : TabStep) c : TabCollection T * result bool TabError :=
  match locate c id with
  | Err error => (c, Err error)
  | Ok (index, tab) => let '(c, moved) := step_index index tab step c in (c, Ok moved)
  end.

Definition move_active_tab (step : TabStep) c : option (TabCollection T * bool) :=
  match locate c (tc_active c) with
  | Err _ => None
  | Ok (index, tab) => Some (step_index index tab step c)
  end.

(** ** Closing and parking *)

(** The Tab that becomes active when the one at [index] of [scope] goes. *)
Definition fallback_tab c (scope : Scope) (index : nat) : option TabId :=
  let siblings := indices_in c scope in
  match vfind (λ sibling, index <=? sibling) siblings with
  | Some sibling => te_id <$> tc_tabs c !! sibling
  | None =>
      match last siblings with
      | Some sibling => te_id <$> tc_tabs c !! sibling
      | None => last (tc_order c)
      end
  end.

(** The Root Tab passes to a sibling, or to the first Tab. *)
Definition promote_root (id : TabId) (scope : Scope) c : option (TabCollection T) :=
  if (tc_root c =? id)%N
  then match vfind (in_scope scope) (tc_tabs c), tc_tabs c with
       | Some tab, _ | None, tab :: _ => Some (set_tc_root (te_id tab) c)
       | None, [] => None
       end
  else Some c.

(** Activation passes on where the Active Tab goes. *)
Definition pass_activation (id : TabId) (scope : Scope) (index : nat) c : option (TabCollection T) :=
  if (tc_active c =? id)%N
  then (λ fallback, tc_set_active fallback c) <$> fallback_tab c scope index
  else Some c.

Definition take_tab (id : TabId) c : option (TabCollection T * result (CloseTabOutcome T) TabError) :=
  match locate c id with
  | Err error => Some (c, Err error)
  | Ok (index, closed_tab) =>
      if bool_decide (resolve_close HierarchyClose_Tab (length (tc_tabs c)) = Continue_Parent)
      then Some (c, Ok (CloseWorkspace id))
      else
        let c := set_tc_tabs (vremove index (tc_tabs c)) c in
        let c := set_tc_order (vfilter (λ other, negb (other =? id)%N) (tc_order c)) c in
        let scope := te_scope closed_tab in
        match promote_root id scope c with
        | None => None
        | Some c =>
            match pass_activation id scope index c with
            | None => None
            | Some c =>
                Some (c, Ok (TabClosed (te_id closed_tab) (tc_active c) (te_payload closed_tab)))
            end
        end
  end.

Definition close_tab (id : TabId) c : option (TabCollection T * result (CloseTabOutcome T) TabError) :=
  match locate c id with
  | Err error => Some (c, Err error)
  | Ok (index, tab) =>
      let '(scope, position) := retained_at c index tab in
      match take_tab id c with
      | None => None
      | Some (c, Ok (TabClosed a b payload)) =>
          Some (set_tc_parked (tc_retire scope position (tc_parked c)) c, Ok (TabClosed a b payload))
      | Some (c, outcome) => Some (c, outcome)
      end
  end.

Definition park_tab (id : TabId) c : option (TabCollection T * result (option (ParkedTab T)) TabError) :=
  match locate c id with
  | Err error => Some (c, Err error)
  | Ok (index, tab) =>
      let scope := te_scope tab in
      let '(_, position) := retained_at c index tab in
      let was_root := (tc_root c =? id)%N in
      match take_tab id c with
      | None => None
      | Some (c, Ok (TabClosed _ _ payload)) =>
          Some (set_tc_parked (<[id := (scope, position)]> (tc_parked c)) c,
                Ok (Some (Build_ParkedTab (Build_TabEntry id scope payload) was_root)))
      | Some (c, Ok (CloseWorkspace _)) => Some (c, Ok None)
      | Some (c, Err error) => Some (c, Err error)
      end
  end.

Definition restore_parked_tab (parked : ParkedTab T) c : option (TabCollection T) :=
  let entry := pt_entry parked in
  match tc_parked c !! te_id entry with
  | None => None
  | Some (scope, retained) =>
      let c := set_tc_parked (delete (te_id entry) (tc_parked c)) c in
      let before := length (vfilter (λ position, position <? retained) (parked_positions_in c scope)) in
      let visible := retained - before in
      let siblings := indices_in c (te_scope entry) in
      let position := match siblings !! visible with
                      | Some index => index
                      | None => match last siblings with
                                | Some index => S index
                                | None => length (tc_tabs c)
                                end
                      end in
      let c := if pt_was_root parked then set_tc_root (te_id entry) c else c in
      let c := set_tc_order (te_id entry :: tc_order c) c in
      Some (set_tc_tabs (vinsert position entry (tc_tabs c)) c)
  end.

Definition discard_parked_tab (parked : ParkedTab T) c : TabCollection T * T :=
  let id := te_id (pt_entry parked) in
  (match tc_parked c !! id with
   | Some (scope, position) =>
       set_tc_parked (tc_retire scope position (delete id (tc_parked c))) c
   | None => c
   end, te_payload (pt_entry parked)).
End Collection.
