(* ===== verification/TabOrder.v ===== *)
(** * Scopes, places and parked positions of Tabs

    Each Worktree's Tabs form one order with hidden places ([Slots]). Here: the
    places a scope's Tabs have in the whole list, the adjacency of a Worktree's
    Tabs, and the parked positions as the hidden places of these orders. *)
From stdpp Require Import sorting functions.
From S2P Require Import Prelude.
From S2P Require Import Slots.
From S2P Require Import TabCollection.
From S2P Require Import CloseConfirmation.

(** ** Adjacent scopes *)

(** Equal scopes stand next to each other: one that comes again comes next. *)
Fixpoint grouped (l : list (option N)) : Prop :=
  match l with
  | [] => True
  | x :: l => (x ∈ l → head l = Some x) ∧ grouped l
  end.

Lemma grouped_delete a x b : grouped (a ++ x :: b) → grouped (a ++ b).
Proof.
  induction a as [|y a IH]; simpl; [tauto|]. intros [H1 H2]. split; [|auto]. intros Hy.
  destruct a as [|z a]; simpl in *.
  - destruct H2 as [H2 _]. assert (Some x = Some y) as [= ->] by (apply H1; by right). auto.
  - apply H1. rw !elem_of_cons !elem_of_app in Hy |- *. set_solver.
Qed.

Lemma grouped_double a x b : grouped (a ++ x :: b) → grouped (a ++ x :: x :: b).
Proof.
  induction a as [|y a IH]; simpl; [by intros [H1 H2]|]. intros [H1 H2]. split; [|auto]. intros Hy.
  destruct a as [|z a]; simpl in *; apply H1; set_solver.
Qed.

Lemma grouped_append l x : x ∉ l → grouped l → grouped (l ++ [x]).
Proof.
  induction l as [|y l IH]; simpl; [by split; [intros ?%elem_of_nil|]|].
  rw not_elem_of_cons. intros [Hy Hx] [H1 H2]. split; [|auto].
  rw elem_of_app list_elem_of_singleton. intros [Hin|?]; [|congruence]. specialize (H1 Hin). by destruct l.
Qed.

Lemma grouped_next a x b : grouped (a ++ x :: b) → x ∈ b → head b = Some x.
Proof. induction a as [|y a IH]; simpl; [tauto|]. intros [_ H]. auto. Qed.

Lemma grouped_previous a x b : grouped (a ++ x :: b) → x ∈ a → last a = Some x.
Proof.
  induction a as [|y a IH]; [by intros _ ?%elem_of_nil|]. cbn [app grouped]. intros [H1 H2] Hx.
  destruct (decide (x ∈ a)) as [Hin|Hn].
  - rw last_cons IH //.
  - apply elem_of_cons in Hx as [->|]; [|done]. destruct a as [|z a]; [done|].
    assert (Some z = Some y) as [= ->] by (apply H1; rw elem_of_app; right; by left). set_solver.
Qed.

Section Places.
Context {T : Type}.
Implicit Types (tabs : list (TabEntry T)) (s : option N).

(** The Tabs of a scope in order. *)
Definition ids_in s tabs : list N := map te_id (vfilter (in_scope s) tabs).

Lemma ids_in_app s (a b : list (TabEntry T)) : ids_in s (a ++ b) = ids_in s a ++ ids_in s b.
Proof. unfold ids_in, vfilter. by rw List.filter_app map_app. Qed.

Lemma ids_in_cons s x tabs :
  ids_in s (x :: tabs) = if decide (te_scope x = s) then te_id x :: ids_in s tabs else ids_in s tabs.
Proof. unfold ids_in, vfilter, in_scope. simpl. case_bool_decide; by case_decide. Qed.

Lemma ids_in_same x tabs : ids_in (te_scope x) (x :: tabs) = te_id x :: ids_in (te_scope x) tabs.
Proof. rw ids_in_cons. by case_decide. Qed.

Lemma ids_in_elem s tabs id : id ∈ ids_in s tabs ↔ ∃ x, x ∈ tabs ∧ te_scope x = s ∧ te_id x = id.
Proof.
  unfold ids_in. rw elem_of_map. setoid_rewrite elem_of_vfilter. unfold in_scope.
  setoid_rewrite bool_decide_eq_true. naive_solver.
Qed.

Lemma ids_in_nil s tabs : ids_in s tabs = [] ↔ s ∉ map te_scope tabs.
Proof.
  induction tabs as [|x tabs IH]; simpl; [by split; [intros _; apply not_elem_of_nil|]|].
  rw ids_in_cons not_elem_of_cons. case_decide; naive_solver.
Qed.

(** ** Places *)

Lemma indices_from_app k s (a b : list (TabEntry T)) :
  indices_from k s (a ++ b) = indices_from k s a ++ indices_from (k + length a) s b.
Proof.
  revert k. induction a as [|x a IH]; intros k; simpl; [by rw Nat.add_0_r|].
  rw IH Nat.add_succ_r. by destruct (in_scope s x).
Qed.

Lemma indices_from_length k s tabs : length (indices_from k s tabs) = length (ids_in s tabs).
Proof.
  revert k. induction tabs as [|x tabs IH]; intros k; [done|]. rw ids_in_cons. simpl. unfold in_scope.
  case_bool_decide; case_decide; try done; simpl; by rw IH.
Qed.

Lemma indices_from_lookup k s tabs v i :
  indices_from k s tabs !! v = Some i →
  ∃ a x b, tabs = a ++ x :: b ∧ i = k + length a ∧ te_scope x = s ∧ v = length (ids_in s a).
Proof.
  revert k v. induction tabs as [|x tabs IH]; intros k v; simpl; [done|]. unfold in_scope.
  case_bool_decide as Hs.
  - destruct v as [|v]; simpl.
    + intros [= <-]. exists [], x, tabs. simpl. by rw Nat.add_0_r.
    + intros (a & y & b & -> & -> & Hy & ->)%IH. exists (x :: a), y, b. rw ids_in_cons.
      case_decide; [|done]. simpl. by rw Nat.add_succ_r.
  - intros (a & y & b & -> & -> & Hy & ->)%IH. exists (x :: a), y, b. rw ids_in_cons.
    case_decide; [done|]. simpl. by rw Nat.add_succ_r.
Qed.

(** The place of a Tab among its siblings is where its index stands. *)
Lemma indices_from_split k (a b : list (TabEntry T)) x :
  indices_from k (te_scope x) (a ++ x :: b) !! length (ids_in (te_scope x) a) = Some (k + length a).
Proof.
  rw indices_from_app. simpl. unfold in_scope. rw bool_decide_eq_true_2 //.
  rw lookup_app_r; [by rw indices_from_length|]. by rw indices_from_length Nat.sub_diag.
Qed.

Lemma indices_from_range k s tabs : Forall (λ i, k ≤ i < k + length tabs) (indices_from k s tabs).
Proof.
  revert k. induction tabs as [|x tabs IH]; intros k; simpl; [done|].
  assert (Forall (λ i, k ≤ i < k + S (length tabs)) (indices_from (S k) s tabs)).
  { eapply Forall_impl; [apply IH|]. simpl. lia. }
  destruct (in_scope s x); [constructor; [lia|done]|done].
Qed.

(** ** Insertions *)

(** Where [end_of_scope] inserts: behind the last Tab of the scope, or at the end. *)
Lemma end_of_scope_spec s tabs :
  ∃ a b, tabs = a ++ b ∧ end_of_scope s tabs = length a ∧ ids_in s b = [] ∧
    ((ids_in s tabs = [] ∧ b = []) ∨ ∃ a' x, a = a' ++ [x] ∧ te_scope x = s).
Proof.
  unfold end_of_scope, vrposition. destruct (vposition (in_scope s) (rev tabs)) as [i|] eqn:E; simpl.
  - apply vposition_Some in E as (l1 & x & l2 & Hr & Hi & Hx & Hl1).
    apply (f_equal (@rev _)) in Hr. rw rev_involutive rev_app_distr /= in Hr.
    exists (rev l2 ++ [x]), (rev l1). split; [done|]. split.
    + rw Hr !length_app !length_rev /=. lia.
    + unfold in_scope in *. apply bool_decide_eq_true in Hx. split; [|eauto].
      apply ids_in_nil. rw elem_of_map. intros (y & Hy & Hin).
      rw Forall_forall in Hl1. rw list_elem_of_In in Hin. apply in_rev in Hin. apply list_elem_of_In in Hin.
      specialize (Hl1 _ Hin). by apply bool_decide_eq_false in Hl1.
  - apply vposition_None in E. exists tabs, []. rw app_nil_r. split; [done|]. split; [done|].
    split; [done|]. left. split; [|done]. apply ids_in_nil. rw elem_of_map. intros (y & Hy & Hin).
    rw Forall_forall in E. assert (y ∈ rev tabs) as Hr by by rw list_elem_of_In -in_rev -list_elem_of_In.
    specialize (E y Hr). by apply bool_decide_eq_false in E.
Qed.

Lemma vinsert_app {A} (a b : list A) x : vinsert (length a) x (a ++ b) = a ++ x :: b.
Proof. unfold vinsert. by rw take_app_length drop_app_length. Qed.

(** A Tab inserted there becomes the last of its scope, next to a sibling. *)
Lemma insert_end_of_scope x tabs :
  let tabs' := vinsert (end_of_scope (te_scope x) tabs) x tabs in
  tabs' ≡ₚ (x :: tabs) ∧
  (∀ s, ids_in s tabs' = ids_in s tabs ++ (if decide (te_scope x = s) then [te_id x] else [])) ∧
  (grouped (map te_scope tabs) → grouped (map te_scope tabs')).
Proof.
  cbv zeta. destruct (end_of_scope_spec (te_scope x) tabs) as (a & b & -> & -> & Hb & Hcase).
  rw vinsert_app. split; [by rw Permutation_middle|]. split.
  - intros s. rw !ids_in_app ids_in_cons. case_decide as E; [|by rw app_nil_r].
    rw -E Hb -!app_assoc. done.
  - rw !map_app. cbn [map]. destruct Hcase as [[Hn ->]|(a' & y & -> & Hy)].
    + rw app_nil_r. intros H. apply grouped_append; [|done]. apply ids_in_nil.
      by rw app_nil_r in Hn.
    + rw !map_app -!app_assoc /= Hy. apply grouped_double.
Qed.
End Places.

(** ** Hidden places *)

Abbreviation Orders := (option N → list (Slot N)) (only parsing).

(** The parked positions are the hidden places of the orders. *)
Definition Hides (m : gmap N (option N * nat)) (f : Orders) : Prop :=
  ∀ id s pos, m !! id = Some (s, pos) ↔ f s !! pos = Some (Hidden id).

Lemma parked_from_elem {A} k (l : list (Slot A)) pos x :
  (pos, x) ∈ parked_from k l ↔ ∃ i, pos = k + i ∧ l !! i = Some (Hidden x).
Proof.
  revert k. induction l as [|[y|y] l IH]; intros k; simpl.
  - rw elem_of_nil. split; [done|]. by intros (i & _ & ?).
  - rw IH. split; intros (i & -> & Hi).
    + exists (S i). split; [lia|done].
    + destruct i as [|i]; [done|]. exists i. split; [lia|done].
  - rw elem_of_cons IH. split.
    + intros [[= -> ->]|(i & -> & Hi)]; [exists 0; split; [lia|done]|exists (S i); split; [lia|done]].
    + intros ([|i] & -> & Hi); [left; injection Hi as ->; f_equal; lia|right; exists i; split; [lia|done]].
Qed.

Lemma parked_from_sorted {A} k (l : list (Slot A)) : StronglySorted lt (parked_from k l).*1.
Proof.
  revert k. induction l as [|[y|y] l IH]; intros k; simpl; [constructor|apply IH|].
  constructor; [apply IH|]. apply Forall_fmap. eapply Forall_impl; [apply parked_from_range|]. simpl. lia.
Qed.

Lemma StronglySorted_lt_NoDup (l : list nat) : StronglySorted lt l → NoDup l.
Proof.
  induction 1 as [|x l _ IH Hx]; [constructor|]. constructor; [|done]. intros Hin.
  rw Forall_forall in Hx. specialize (Hx x Hin). lia.
Qed.

Lemma NoDup_omap_inj {A B} (g : A → option B) (l : list A) :
  NoDup l → (∀ x y z, x ∈ l → y ∈ l → g x = Some z → g y = Some z → x = y) → NoDup (omap g l).
Proof.
  induction 1 as [|x l Hx Hl IH]; intros Hinj; simpl; [constructor|].
  assert (NoDup (omap g l)) as Hnd by (apply IH; intros; eapply Hinj; set_solver).
  destruct (g x) as [z|] eqn:E; [|done]. constructor; [|done].
  intros (y & Hy & Ey)%list_elem_of_omap. rw (Hinj x y z) // in Hx; set_solver.
Qed.

Section Hides.
Context {T : Type}.
Implicit Types (c : TabCollection T) (f : Orders) (m : gmap N (option N * nat)).

Lemma parked_positions_perm c f s :
  Hides (tc_parked c) f → parked_positions_in c s ≡ₚ (parked_of (f s)).*1.
Proof.
  intros H. apply NoDup_Permutation.
  - apply NoDup_omap_inj; [apply NoDup_map_to_list|].
    intros [i1 [s1 p1]] [i2 [s2 p2]] z H1%elem_of_map_to_list H2%elem_of_map_to_list. simpl.
    do 2 case_bool_decide; try done. intros [= ->] [= ->]. subst.
    apply H in H1, H2. congruence.
  - apply StronglySorted_lt_NoDup, parked_from_sorted.
  - intros pos. unfold parked_positions_in. rw list_elem_of_omap list_elem_of_fmap. split.
    + intros ([id [s' p]] & Hin%elem_of_map_to_list & Hp). simpl in Hp. case_bool_decide; [|done].
      injection Hp as ->. simplify_eq. apply H in Hin. exists (pos, id). split; [done|].
      apply parked_from_elem. by exists pos.
    + intros ([p id] & -> & (i & Hi & Hl)%parked_from_elem). simpl in *. subst.
      exists (id, (s, i)). split; [apply elem_of_map_to_list, H; done|]. simpl. by rw bool_decide_eq_true_2.
Qed.

Lemma parked_positions_sort c f s :
  Hides (tc_parked c) f → merge_sort (≤) (parked_positions_in c s) = (parked_of (f s)).*1.
Proof.
  intros H. apply (Sorted_unique (≤)).
  - apply Sorted_merge_sort. intros x y. lia.
  - apply StronglySorted_Sorted. pose proof (parked_from_sorted 0 (f s)) as Hs. fold (parked_of (f s)) in Hs.
    induction Hs as [|x l _ IH Hx]; constructor; [done|]. eapply Forall_impl; [exact Hx|]. simpl. lia.
  - by rw merge_sort_Permutation (parked_positions_perm c f s H).
Qed.

Lemma lookup_app_hole {A} (a b : list A) x pos :
  (a ++ x :: b) !! pos =
  if decide (pos < length a) then (a ++ b) !! pos
  else if decide (pos = length a) then Some x else (a ++ b) !! (pos - 1).
Proof.
  repeat case_decide.
  - by rw !lookup_app_l.
  - subst. apply lookup_split.
  - rw !lookup_app_r; [lia|lia|]. destruct pos as [|pos]; [lia|].
    replace (S pos - length a) with (S (pos - length a)) by lia. simpl. f_equal. lia.
Qed.

(** A visible place goes: later places move up. *)
Lemma Hides_retire m f s a id b :
  Hides m f → f s = a ++ Visible id :: b → Hides (tc_retire s (length a) m) (<[s := a ++ b]> f).
Proof.
  intros H E j s' pos. unfold tc_retire. rw lookup_fmap. destruct (decide (s' = s)) as [->|Hne].
  - rw fn_lookup_insert. pose proof (λ p, H j s p) as Hj. setoid_rewrite E in Hj.
    setoid_rewrite lookup_app_hole in Hj. destruct (m !! j) as [[s1 p1]|] eqn:Em; simpl.
    + split.
      * intros [= -> Hp]. specialize (Hj p1). rw bool_decide_eq_true_2 //= in Hp.
        pose proof (proj1 Hj eq_refl) as Hl. clear Hj. subst pos.
        destruct (Nat.ltb_spec (length a) p1); repeat case_decide; try lia; done.
      * intros Hl. destruct (decide (pos < length a)) as [Hlt|Hge].
        -- specialize (Hj pos). rw decide_True // in Hj. apply Hj in Hl as [= -> ->].
           rw bool_decide_eq_true_2 //=. by destruct (Nat.ltb_spec (length a) pos); [lia|].
        -- specialize (Hj (S pos)). rw decide_False in Hj; [lia|]. rw decide_False in Hj; [lia|].
           simpl in Hj. rw Nat.sub_0_r in Hj. apply Hj in Hl as [= -> ->].
           rw bool_decide_eq_true_2 //=. destruct (Nat.ltb_spec (length a) (S pos)); [|lia]. by rw Nat.sub_0_r.
    + split; [done|]. intros Hl. destruct (decide (pos < length a)) as [Hlt|Hge].
      * specialize (Hj pos). rw decide_True // in Hj. by apply Hj in Hl.
      * specialize (Hj (S pos)). rw decide_False in Hj; [lia|]. rw decide_False in Hj; [lia|].
        simpl in Hj. rw Nat.sub_0_r in Hj. by apply Hj in Hl.
  - rw fn_lookup_insert_ne //. rw -H. destruct (m !! j) as [[s1 p1]|]; simpl; [|done].
    destruct (decide (s1 = s)) as [->|Hs]; [by split; intros [= ?]; congruence|].
    by rw bool_decide_eq_false_2.
Qed.

(** A place changes between hidden and visible. *)
Lemma lookup_replace {A} (a b : list A) x y pos :
  pos ≠ length a → (a ++ x :: b) !! pos = (a ++ y :: b) !! pos.
Proof. intros H. rw !lookup_app_hole. by repeat case_decide. Qed.

Lemma Hides_hide m f s a id b :
  Hides m f → f s = a ++ Visible id :: b → m !! id = None →
  Hides (<[id := (s, length a)]> m) (<[s := a ++ Hidden id :: b]> f).
Proof.
  intros H E Hn j s' pos. destruct (decide (j = id)) as [->|Hj].
  - rw lookup_insert_eq. assert (∀ s'' p, f s'' !! p ≠ Some (Hidden id)) as Hno.
    { intros s'' p Hp. apply H in Hp. congruence. }
    destruct (decide (s' = s)) as [->|Hs].
    + rw fn_lookup_insert. destruct (decide (pos = length a)) as [->|Hp]; [by rw lookup_split|].
      split; [intros [= ?]; congruence|]. rw (lookup_replace _ _ _ (Visible id)) // -E. intros Hl. by apply Hno in Hl.
    + rw fn_lookup_insert_ne //. split; [congruence|]. intros Hl. by apply Hno in Hl.
  - rw lookup_insert_ne //. rw H. destruct (decide (s' = s)) as [->|Hs]; [|by rw fn_lookup_insert_ne].
    rw fn_lookup_insert E. destruct (decide (pos = length a)) as [->|Hp].
    + rw !lookup_split. split; intros [= ?]; done.
    + by rw (lookup_replace _ _ _ (Visible id)).
Qed.

Lemma Hides_show m f s a id b :
  Hides m f → f s = a ++ Hidden id :: b →
  m !! id = Some (s, length a) ∧ Hides (delete id m) (<[s := a ++ Visible id :: b]> f).
Proof.
  intros H E. assert (m !! id = Some (s, length a)) as Hm by (apply H; rw E; apply lookup_split).
  split; [done|]. intros j s' pos. destruct (decide (j = id)) as [->|Hj].
  - rw lookup_delete_eq. split; [done|]. intros Hl. exfalso.
    destruct (decide (s' = s)) as [->|Hs].
    + rw fn_lookup_insert in Hl. destruct (decide (pos = length a)) as [->|Hp]; [by rw lookup_split in Hl|].
      rw (lookup_replace _ _ _ (Hidden id)) // -E in Hl. apply H in Hl. congruence.
    + rw fn_lookup_insert_ne // in Hl. apply H in Hl. congruence.
  - rw lookup_delete_ne //. rw H. destruct (decide (s' = s)) as [->|Hs]; [|by rw fn_lookup_insert_ne].
    rw fn_lookup_insert E. destruct (decide (pos = length a)) as [->|Hp].
    + rw !lookup_split. split; intros [= ?]; done.
    + by rw (lookup_replace _ _ _ (Visible id)).
Qed.

Lemma Hides_append m f s id : Hides m f → Hides m (<[s := f s ++ [Visible id]]> f).
Proof.
  intros H j s' pos. rw H. destruct (decide (s' = s)) as [->|Hs]; [|by rw fn_lookup_insert_ne].
  rw fn_lookup_insert. destruct (decide (pos < length (f s))) as [Hp|Hp]; [by rw lookup_app_l|].
  rw lookup_app_r; [lia|]. rw lookup_ge_None_2; [lia|]. split; [done|].
  by destruct (pos - length (f s)).
Qed.

Lemma refill_lookup {A} (l : list (Slot A)) v pos x :
  length v = length (visible l) → refill l v !! pos = Some (Hidden x) ↔ l !! pos = Some (Hidden x).
Proof.
  revert v pos. induction l as [|[y|y] l IH]; intros v pos Hv; simpl in *; [done|..].
  - destruct v as [|z v]; [done|]. simpl in Hv. destruct pos as [|pos]; simpl; [by split|]. apply IH. lia.
  - destruct pos as [|pos]; simpl; [done|]. by apply IH.
Qed.

Lemma Hides_refill m f s v :
  Hides m f → length v = length (visible (f s)) → Hides m (<[s := refill (f s) v]> f).
Proof.
  intros H Hv j s' pos. rw H. destruct (decide (s' = s)) as [->|Hs]; [|by rw fn_lookup_insert_ne].
  rw fn_lookup_insert. symmetry. by apply refill_lookup.
Qed.
End Hides.

(** ** The invariant of a Workspace's Tabs *)
Lemma visible_split {A} (l : list (Slot A)) u x v :
  visible l = u ++ x :: v → ∃ a b, l = a ++ Visible x :: b ∧ visible a = u ∧ visible b = v.
Proof.
  revert u. induction l as [|[y|y] l IH]; intros u; simpl; [by destruct u|..].
  - destruct u as [|z u]; simpl.
    + intros [= -> <-]. by exists [], l.
    + intros [= -> (a & b & -> & <- & <-)%IH]. by exists (Visible z :: a), b.
  - intros (a & b & -> & <- & <-)%IH. by exists (Hidden y :: a), b.
Qed.

Lemma visible_elem {A} (l : list (Slot A)) x : x ∈ visible l ↔ Visible x ∈ l.
Proof.
  induction l as [|[y|y] l IH]; simpl; [by rw !elem_of_nil|..]; rw !elem_of_cons IH.
  - split; (intros [H|H]; [left; congruence|by right]).
  - split; [by right|]. by intros [?|?].
Qed.

Lemma vrotate_perm (l : list N) (id : N) :
  NoDup l → id ∈ l → vfilter (λ o, negb (o =? id)%N) l ++ [id] ≡ₚ l.
Proof.
  intros Hnd Hin. apply NoDup_Permutation; [|done|].
  - apply NoDup_app. split; [by apply NoDup_vfilter|]. split; [|apply NoDup_singleton].
    intros q [Hq _]%elem_of_vfilter ->%list_elem_of_singleton. by rw N.eqb_refl in Hq.
  - intros q. rw elem_of_app elem_of_vfilter list_elem_of_singleton negb_true_iff N.eqb_neq.
    destruct (decide (q = id)) as [->|]; naive_solver.
Qed.

Lemma vfilter_without (l l' : list N) (id : N) :
  NoDup l → l ≡ₚ (id :: l') → vfilter (λ o, negb (o =? id)%N) l ≡ₚ l'.
Proof.
  intros Hnd Hl. rw Hl in Hnd. apply NoDup_cons in Hnd as [Hid Hnd]. apply NoDup_Permutation; [|done|].
  - apply NoDup_vfilter. rw Hl. by constructor.
  - intros q. rw elem_of_vfilter Hl elem_of_cons negb_true_iff N.eqb_neq.
    split; [by intros [? [?|?]]|]. intros Hq. split; [by intros ->|by right].
Qed.

Section Tabs.
Context {T : Type}.
Implicit Types (c : TabCollection T) (tokens : list (ParkedTab T)) (f : Orders)
  (l : list (TabEntry T)).

Definition token_id (k : ParkedTab T) : N := te_id (pt_entry k).

(** Identities are unique, the activation order permutes them, siblings are
    adjacent, and each scope's Tabs and parked positions are those of its order. *)
Record TabsOk c tokens f : Prop := {
  tk_ids : NoDup (map te_id (tc_tabs c) ++ map token_id tokens);
  tk_below : Forall (λ id, 1 <= id < tc_next c)%N (map te_id (tc_tabs c) ++ map token_id tokens);
  tk_order : tc_order c ≡ₚ map te_id (tc_tabs c);
  tk_active : tc_active c ∈ map te_id (tc_tabs c);
  tk_root : tc_root c ∈ map te_id (tc_tabs c);
  tk_grouped : grouped (map te_scope (tc_tabs c));
  tk_next : (1 <= tc_next c <= u64_max)%N;
  tk_visible : ∀ s, ids_in s (tc_tabs c) = visible (f s);
  tk_hides : Hides (tc_parked c) f;
  tk_tokens : ∀ k, k ∈ tokens → ∃ pos, tc_parked c !! token_id k = Some (te_scope (pt_entry k), pos);
  tk_parked : ∀ id, is_Some (tc_parked c !! id) → id ∈ map token_id tokens
}.

Lemma tabs_NoDup c tokens f : TabsOk c tokens f → NoDup (map te_id (tc_tabs c)).
Proof. intros H. pose proof (tk_ids _ _ _ H) as Hn. by apply NoDup_app in Hn as (? & _). Qed.

(** ** Finding a Tab *)

Lemma locate_cases c id :
  match locate c id with
  | Ok (i, x) => ∃ l1 l2, tc_tabs c = l1 ++ x :: l2 ∧ i = length l1 ∧ te_id x = id
  | Err e => e = TabNotFound id ∧ (id ∉ map te_id (tc_tabs c))
  end.
Proof.
  unfold locate, index_of. destruct (vposition (is_tab id) (tc_tabs c)) as [i|] eqn:E; simpl.
  - apply vposition_Some in E as (l1 & x & l2 & -> & <- & Hx & _). rw lookup_split. simpl.
    exists l1, l2. split; [done|]. split; [done|]. by apply N.eqb_eq.
  - split; [done|]. apply vposition_None in E. rw Forall_forall in E.
    intros (x & -> & Hx)%elem_of_map. specialize (E x Hx). by rw /is_tab N.eqb_refl in E.
Qed.

Lemma locate_split c l1 x l2 :
  NoDup (map te_id (tc_tabs c)) → tc_tabs c = l1 ++ x :: l2 → locate c (te_id x) = Ok (length l1, x).
Proof.
  intros Hnd E. pose proof (locate_cases c (te_id x)) as H.
  destruct (locate c (te_id x)) as [[i y]|e].
  - destruct H as (m1 & m2 & Hm & -> & Hid). assert (length m1 = length l1) as Hlen.
    { apply (NoDup_lookup (map te_id (tc_tabs c)) _ _ (te_id x) Hnd).
      - rw list_lookup_fmap Hm lookup_split /=. by rw Hid.
      - by rw list_lookup_fmap E lookup_split. }
    rw Hlen. f_equal. f_equal. pose proof (lookup_split m1 m2 y) as H1. rw -Hm Hlen E lookup_split in H1.
    by injection H1 as ->.
  - destruct H as [_ Hn]. destruct Hn. rw E map_app elem_of_app. right. by left.
Qed.

(** Its slot in the order of its scope. *)
Lemma slot_of c tokens f l1 x l2 :
  TabsOk c tokens f → tc_tabs c = l1 ++ x :: l2 →
  ∃ a b, f (te_scope x) = a ++ Visible (te_id x) :: b ∧
    visible a = ids_in (te_scope x) l1 ∧ visible b = ids_in (te_scope x) l2.
Proof.
  intros Hok E. pose proof (tk_visible _ _ _ Hok (te_scope x)) as Hv.
  rw E ids_in_app ids_in_same in Hv. destruct (visible_split _ _ _ _ (eq_sym Hv)) as (a & b & ? & ? & ?).
  by exists a, b.
Qed.

Lemma retained_at_spec c tokens f l1 x l2 a b :
  TabsOk c tokens f → tc_tabs c = l1 ++ x :: l2 → f (te_scope x) = a ++ Visible (te_id x) :: b →
  visible a = ids_in (te_scope x) l1 → retained_at c (length l1) x = (te_scope x, length a).
Proof.
  intros Hok E Hf Ha. unfold retained_at. rw E take_app_length (parked_positions_sort c f _ (tk_hides _ _ _ Hok)).
  f_equal. rw Hf. pose proof (shift_position_spec 0 a (te_id x) b) as Hs. simpl in Hs.
  rw Ha /ids_in length_map in Hs. exact Hs.
Qed.

(** ** Removing a Tab from the visible ones *)

Definition fallback_id (s : option N) l1 l2 (order : list N) : option N :=
  match ids_in s l2 with
  | id :: _ => Some id
  | [] => match last (ids_in s l1) with Some id => Some id | None => last order end
  end.

Lemma last_indices k s (tabs : list (TabEntry T)) :
  last (indices_from k s tabs) = None ∧ last (ids_in s tabs) = None ∨
  ∃ a x b, tabs = a ++ x :: b ∧ last (indices_from k s tabs) = Some (k + length a) ∧
    last (ids_in s tabs) = Some (te_id x).
Proof.
  rw !last_lookup indices_from_length.
  destruct (indices_from k s tabs !! pred (length (ids_in s tabs))) as [i|] eqn:E.
  - right. destruct (indices_from_lookup _ _ _ _ _ E) as (a & x & b & -> & -> & <- & Hv).
    exists a, x, b. split; [done|]. split; [done|]. rw ids_in_app ids_in_same in Hv |- *.
    rw Hv. apply lookup_split.
  - left. split; [done|]. apply lookup_ge_None in E. rw indices_from_length in E.
    by destruct (ids_in s tabs); [|simpl in E; lia].
Qed.

Lemma fallback_tab_spec c s l1 l2 :
  tc_tabs c = l1 ++ l2 → fallback_tab c s (length l1) = fallback_id s l1 l2 (tc_order c).
Proof.
  intros E. unfold fallback_tab, fallback_id, indices_in. rw E indices_from_app.
  assert (∀ k ks, Forall (λ i, i < k) ks → ∀ js, vfind (λ i, k <=? i) (ks ++ js) = vfind (λ i, k <=? i) js)
    as Hskip.
  { unfold vfind. intros k ks. induction 1 as [|i ks Hi _ IH]; intros js; simpl; [done|].
    by destruct (Nat.leb_spec k i); [lia|]. }
  rw Hskip; [eapply Forall_impl; [apply indices_from_range|]; simpl; lia|].
  destruct (indices_from (0 + length l1) s l2) as [|i ks] eqn:Ei.
  - assert (ids_in s l2 = []) as ->.
    { apply (f_equal length) in Ei. rw indices_from_length in Ei. by destruct (ids_in s l2). }
    simpl. rw app_nil_r. destruct (last_indices 0 s l1) as [[-> ->]|(a & x & b & -> & -> & ->)]; [done|].
    rw -app_assoc /=. by rw lookup_split.
  - assert (indices_from (0 + length l1) s l2 !! 0 = Some i) as H0 by by rw Ei.
    destruct (indices_from_lookup _ _ _ _ _ H0) as (a & x & b & -> & -> & <- & Ha).
    unfold vfind. cbn [List.find]. destruct (Nat.leb_spec (length l1) (0 + length l1 + length a)); [|lia].
    rw ids_in_app ids_in_same. destruct (ids_in (te_scope x) a); [|done]. simpl.
    rw -length_app app_assoc lookup_split. done.
Qed.

(** What [take_tab] leaves. *)
Record Taken c (x : TabEntry T) l1 l2 c' : Prop := {
  tn_tabs : tc_tabs c' = l1 ++ l2;
  tn_parked : tc_parked c' = tc_parked c;
  tn_next : tc_next c' = tc_next c;
  tn_order : tc_order c' ≡ₚ map te_id (l1 ++ l2);
  tn_active_in : tc_active c' ∈ map te_id (l1 ++ l2);
  tn_root_in : tc_root c' ∈ map te_id (l1 ++ l2);
  tn_active : if (tc_active c =? te_id x)%N
              then fallback_id (te_scope x) l1 l2
                     (vfilter (λ o, negb (o =? te_id x)%N) (tc_order c)) = Some (tc_active c')
              else tc_active c' = tc_active c;
  tn_root : (tc_root c ≠ te_id x → tc_root c' = tc_root c)
}.

Lemma fallback_id_elem s l1 l2 order :
  l1 ++ l2 ≠ [] → order ≡ₚ map te_id (l1 ++ l2) →
  ∃ id, fallback_id s l1 l2 order = Some id ∧ id ∈ map te_id (l1 ++ l2).
Proof.
  intros Hne Hp. unfold fallback_id.
  assert (∀ l id, id ∈ ids_in s l → id ∈ map te_id l) as Hsub.
  { intros l id (x & Hx & _ & <-)%ids_in_elem. by apply list_elem_of_fmap_2. }
  destruct (ids_in s l2) as [|id ids] eqn:E2.
  - destruct (last (ids_in s l1)) as [id|] eqn:E1.
    + exists id. split; [done|]. rw map_app elem_of_app. left. by eapply Hsub, last_Some_elem_of.
    + destruct (last order) as [id|] eqn:El.
      * exists id. split; [done|]. rw -Hp. by apply last_Some_elem_of.
      * apply last_None in El. subst. apply Permutation_nil_l in Hp. by destruct (l1 ++ l2).
  - exists id. split; [done|]. rw map_app elem_of_app. right. apply Hsub. rw E2. by left.
Qed.

Lemma promote_root_spec c id s :
  tc_tabs c ≠ [] → (tc_root c ≠ id → tc_root c ∈ map te_id (tc_tabs c)) →
  ∃ root, promote_root id s c = Some (set_tc_root root c) ∧ root ∈ map te_id (tc_tabs c) ∧
    (tc_root c ≠ id → root = tc_root c).
Proof.
  intros Hne Hr. unfold promote_root. destruct (N.eqb_spec (tc_root c) id) as [E|Hid].
  - destruct (vfind (in_scope s) (tc_tabs c)) as [y|] eqn:Ey.
    + exists (te_id y). split; [done|]. split; [|done]. apply vfind_Some in Ey as [_ Hy].
      by apply list_elem_of_fmap_2.
    + destruct (tc_tabs c) as [|y l]; [done|]. exists (te_id y). split; [done|]. split; [by left|done].
  - exists (tc_root c). split; [by destruct c|]. split; [by apply Hr|done].
Qed.

Lemma pass_activation_spec c id s l1 l2 :
  tc_tabs c = l1 ++ l2 → l1 ++ l2 ≠ [] → tc_order c ≡ₚ map te_id (l1 ++ l2) →
  NoDup (tc_order c) → (tc_active c ≠ id → tc_active c ∈ map te_id (l1 ++ l2)) →
  ∃ c', pass_activation id s (length l1) c = Some c' ∧ tc_tabs c' = tc_tabs c ∧
    tc_parked c' = tc_parked c ∧ tc_next c' = tc_next c ∧ tc_root c' = tc_root c ∧
    tc_order c' ≡ₚ tc_order c ∧ tc_active c' ∈ map te_id (l1 ++ l2) ∧
    (if (tc_active c =? id)%N then fallback_id s l1 l2 (tc_order c) = Some (tc_active c')
     else tc_active c' = tc_active c).
Proof.
  intros E Hne Hp Hnd Ha. unfold pass_activation. destruct (N.eqb_spec (tc_active c) id) as [Eq|Hid].
  - rw (fallback_tab_spec c s l1 l2 E).
    destruct (fallback_id_elem s l1 l2 (tc_order c) Hne Hp) as (fb & -> & Hin).
    eexists. split; [done|]. simpl. repeat (split; [done|]). split; [|done].
    apply vrotate_perm; [done|]. by rw Hp.
  - exists c. repeat (split; [done|]). split; [by apply Ha|done].
Qed.

(** Removing the last Tab asks for the Workspace instead; any other goes. *)
Lemma take_tab_spec c tokens f l1 x l2 :
  TabsOk c tokens f → tc_tabs c = l1 ++ x :: l2 →
  if decide (l1 ++ l2 = [])
  then take_tab (te_id x) c = Some (c, Ok (CloseWorkspace (te_id x)))
  else ∃ c', take_tab (te_id x) c =
         Some (c', Ok (TabClosed (te_id x) (tc_active c') (te_payload x))) ∧ Taken c x l1 l2 c'.
Proof.
  intros Hok E. pose proof (tabs_NoDup _ _ _ Hok) as Hnd. unfold take_tab.
  rw (locate_split _ _ _ _ Hnd E). unfold resolve_close. case_decide as El.
  { apply app_nil in El as [-> ->]. by rw E. }
  assert ((1 <? length (tc_tabs c)) = true) as ->.
  { apply Nat.ltb_lt. rw E length_app /=. destruct l1, l2; simpl in *; try done; lia. }
  rw bool_decide_eq_false_2 // E vremove_split.
  assert (map te_id (tc_tabs c) ≡ₚ (te_id x :: map te_id (l1 ++ l2))) as Hids.
  { rw E !map_app /=. by rw Permutation_middle. }
  set (c1 := set_tc_order _ _).
  assert (tc_order c1 ≡ₚ map te_id (l1 ++ l2)) as Hord.
  { apply vfilter_without; rw (tk_order _ _ _ Hok) //. }
  destruct (promote_root_spec c1 (te_id x) (te_scope x)) as (root & -> & Hroot & Hrule); [done| |].
  { intros Hne. pose proof (tk_root _ _ _ Hok) as Hr. rw Hids elem_of_cons in Hr. by destruct Hr. }
  destruct (pass_activation_spec (set_tc_root root c1) (te_id x) (te_scope x) l1 l2)
    as (c2 & -> & P1 & P2 & P3 & P4 & P5 & P6 & P7); [done|done|done| | |].
  { apply NoDup_vfilter. by rw (tk_order _ _ _ Hok). }
  { intros Hne. pose proof (tk_active _ _ _ Hok) as Ha. rw Hids elem_of_cons in Ha. by destruct Ha. }
  exists c2. split; [done|]. split; try done.
  - by rw P5.
  - by rw P4.
  - intros Hne. rw P4. by apply Hrule.
Qed.
End Tabs.
