(* ===== verification/TabTheorems.v ===== *)
(** * A Workspace's Tabs implement one order per Worktree

    The calls on a [TabCollection] and on the Tabs it parked as one machine, the
    same calls on the orders of [Slots], and the simulation between them. *)
From stdpp Require Import sorting functions.
From S2P Require Import Prelude.
From S2P Require Import CloseConfirmation.
From S2P Require Import Slots.
From S2P Require Import TabCollection.
From S2P Require Import TabOrder.

Inductive TabCall (T : Type) :=
  | Tc_create (scope : option N) (create : N → T)
  | Tc_scope (id : N) (scope : option N)
  | Tc_activate (id : N)
  | Tc_move (id : N) (position : nat)
  | Tc_step (id : N) (step : TabStep)
  | Tc_step_active (step : TabStep)
  | Tc_close (id : N)
  | Tc_park (id : N)
  | Tc_restore (id : N)
  | Tc_discard (id : N).
Arguments Tc_create {T}.
Arguments Tc_scope {T}.
Arguments Tc_activate {T}.
Arguments Tc_move {T}.
Arguments Tc_step {T}.
Arguments Tc_step_active {T}.
Arguments Tc_close {T}.
Arguments Tc_park {T}.
Arguments Tc_restore {T}.
Arguments Tc_discard {T}.

Section Calls.
Context {T : Type}.
Implicit Types (c : TabCollection T) (tokens : list (ParkedTab T)) (f g : Orders)
  (l : list (TabEntry T)).

(** The code's calls; the caller holds the parked Tabs until it hands them back. *)
Definition tc_run (call : TabCall T) (state : TabCollection T * list (ParkedTab T))
    : option (TabCollection T * list (ParkedTab T)) :=
  let '(c, tokens) := state in
  match call with
  | Tc_create scope create => Some ((create_tab_in scope create c).1, tokens)
  | Tc_scope id scope => Some ((set_tab_scope id scope c).1, tokens)
  | Tc_activate id => Some ((activate_tab id c).1, tokens)
  | Tc_move id position => Some ((move_tab id position c).1, tokens)
  | Tc_step id step => Some ((step_tab id step c).1, tokens)
  | Tc_step_active step => (λ r, (r.1, tokens)) <$> move_active_tab step c
  | Tc_close id => (λ r, (r.1, tokens)) <$> close_tab id c
  | Tc_park id =>
      (λ r, (r.1, match r.2 with Ok (Some k) => k :: tokens | _ => tokens end)) <$> park_tab id c
  | Tc_restore id =>
      match split_at (λ k, (token_id k =? id)%N) tokens with
      | Some (before, k, after) => (λ c, (c, before ++ after)) <$> restore_parked_tab k c
      | None => Some state
      end
  | Tc_discard id =>
      match split_at (λ k, (token_id k =? id)%N) tokens with
      | Some (before, k, after) => Some ((discard_parked_tab k c).1, before ++ after)
      | None => Some state
      end
  end.

(** The visible Tab a call is about. *)
Definition call_subject (call : TabCall T) : option N :=
  match call with
  | Tc_scope id _ | Tc_move id _ | Tc_step id _ | Tc_close id | Tc_park id => Some id
  | _ => None
  end.

(** The same calls on the orders, given the Active Tab and the next identity. *)
Inductive order_call (active next : N) : TabCall T → Orders → Orders → Prop :=
  | oc_create s create f :
      (next < u64_max)%N →
      order_call active next (Tc_create s create) f (<[s := f s ++ [Visible next]]> f)
  | oc_create_full s create f :
      (u64_max <= next)%N → order_call active next (Tc_create s create) f f
  | oc_activate id f : order_call active next (Tc_activate id) f f
  | oc_unknown call id f :
      call_subject call = Some id → (∀ s, Visible id ∉ f s) → order_call active next call f f
  | oc_scope id s s' a b f :
      f s = a ++ Visible id :: b → s ≠ s' →
      order_call active next (Tc_scope id s') f
        (<[s' := f s' ++ [Visible id]]> (<[s := a ++ b]> f))
  | oc_scope_same id s f :
      Visible id ∈ f s → order_call active next (Tc_scope id s) f f
  | oc_move id position s a b f :
      f s = a ++ Visible id :: b → position ≤ length (visible (a ++ b)) →
      order_call active next (Tc_move id position) f
        (<[s := refill (f s) (vinsert position id (visible (a ++ b)))]> f)
  | oc_move_range id position s a b f :
      f s = a ++ Visible id :: b → length (visible (a ++ b)) < position →
      order_call active next (Tc_move id position) f f
  | oc_step_previous id s a b u j f :
      f s = a ++ Visible id :: b → visible a = u ++ [j] →
      order_call active next (Tc_step id StepPrevious) f
        (<[s := refill (f s) (u ++ id :: j :: visible b)]> f)
  | oc_step_next id s a b j v f :
      f s = a ++ Visible id :: b → visible b = j :: v →
      order_call active next (Tc_step id StepNext) f
        (<[s := refill (f s) (visible a ++ j :: id :: v)]> f)
  | oc_step_end id step s a b f :
      f s = a ++ Visible id :: b →
      visible (match step with StepPrevious => a | StepNext => b end) = [] →
      order_call active next (Tc_step id step) f f
  | oc_step_active step f g :
      order_call active next (Tc_step active step) f g →
      order_call active next (Tc_step_active step) f g
  | oc_close id s a b f :
      f s = a ++ Visible id :: b → (∃ s' j, Visible j ∈ f s' ∧ j ≠ id) →
      order_call active next (Tc_close id) f (<[s := a ++ b]> f)
  | oc_park id s a b f :
      f s = a ++ Visible id :: b → (∃ s' j, Visible j ∈ f s' ∧ j ≠ id) →
      order_call active next (Tc_park id) f (<[s := a ++ Hidden id :: b]> f)
  | oc_last call id f :
      call = Tc_close id ∨ call = Tc_park id → (∀ s j, Visible j ∈ f s → j = id) →
      order_call active next call f f
  | oc_restore id s a b f :
      f s = a ++ Hidden id :: b →
      order_call active next (Tc_restore id) f (<[s := a ++ Visible id :: b]> f)
  | oc_discard id s a b f :
      f s = a ++ Hidden id :: b → order_call active next (Tc_discard id) f (<[s := a ++ b]> f)
  | oc_not_parked call id f :
      call = Tc_restore id ∨ call = Tc_discard id → (∀ s, Hidden id ∉ f s) →
      order_call active next call f f.

(** A call simulates: it returns, the orders move with it, the invariant holds. *)
Definition simulates (call : TabCall T) c tokens f : Prop :=
  ∃ c' tokens' g, tc_run call (c, tokens) = Some (c', tokens') ∧
    order_call (tc_active c) (tc_next c) call f g ∧ TabsOk c' tokens' g.

(** ** Rebuilding the invariant *)

Lemma TabsOk_tabs c tokens f tabs g :
  TabsOk c tokens f → map te_id tabs ≡ₚ map te_id (tc_tabs c) → grouped (map te_scope tabs) →
  (∀ s, ids_in s tabs = visible (g s)) → Hides (tc_parked c) g →
  TabsOk (set_tc_tabs tabs c) tokens g.
Proof.
  intros [H1 H2 H3 H4 H5 H6 H7 H8 H9 H10 H11] Hp Hg Hv Hh. split; simpl; rw ?Hp; done.
Qed.

Lemma TabsOk_active c tokens f id :
  TabsOk c tokens f → id ∈ map te_id (tc_tabs c) → TabsOk (tc_set_active id c) tokens f.
Proof.
  intros Hok Hin. pose proof (tabs_NoDup _ _ _ Hok) as Hnd.
  destruct Hok as [H1 H2 H3 H4 H5 H6 H7 H8 H9 H10 H11]. split; simpl; try done.
  rw vrotate_perm //; rw H3 //.
Qed.

Lemma visible_iff c tokens f id :
  TabsOk c tokens f → id ∈ map te_id (tc_tabs c) ↔ ∃ s, Visible id ∈ f s.
Proof.
  intros Hok. setoid_rewrite <- visible_elem. setoid_rewrite <- (tk_visible _ _ _ Hok).
  setoid_rewrite ids_in_elem. rw elem_of_map. naive_solver.
Qed.

Lemma unknown_subject c tokens f id :
  TabsOk c tokens f → (id ∉ map te_id (tc_tabs c)) → ∀ s, Visible id ∉ f s.
Proof. intros Hok Hn s Hin. apply Hn. apply (visible_iff _ _ _ _ Hok). eauto. Qed.

(** ** Inserting beside a sibling *)

Lemma ids_in_insert s (x : TabEntry T) p q :
  ids_in s (p ++ x :: q) =
  if decide (te_scope x = s) then vinsert (length (ids_in s p)) (te_id x) (ids_in s (p ++ q))
  else ids_in s (p ++ q).
Proof.
  rw !ids_in_app ids_in_cons. case_decide; [|done]. by rw vinsert_app.
Qed.

(** Next to a sibling, or at the end of a list without one. *)
Definition beside_sibling (x : TabEntry T) (p q : list (TabEntry T)) : Prop :=
  (∃ p' y, p = p' ++ [y] ∧ te_scope y = te_scope x) ∨
  (∃ y q', q = y :: q' ∧ te_scope y = te_scope x) ∨
  (ids_in (te_scope x) (p ++ q) = [] ∧ q = []).

Lemma grouped_beside x p q :
  beside_sibling x p q → grouped (map te_scope (p ++ q)) → grouped (map te_scope (p ++ x :: q)).
Proof.
  rw !map_app. cbn [map]. intros [(p' & y & -> & Hy)|[(y & q' & -> & Hy)|[Hn ->]]].
  - rw !map_app -!app_assoc /= Hy. apply grouped_double.
  - rw /= Hy. apply grouped_double.
  - rw app_nil_r. apply grouped_append. apply ids_in_nil. by rw app_nil_r in Hn.
Qed.

(** ** The calls *)

Lemma sim_create s create c tokens f : TabsOk c tokens f → simulates (Tc_create s create) c tokens f.
Proof.
  intros Hok. pose proof Hok as [H1 H2 H3 H4 H5 H6 H7 H8 H9 H10 H11]. unfold simulates. cbn [tc_run].
  unfold create_tab_in, u64_checked_add. destruct (N.leb_spec (tc_next c + 1) u64_max) as [Hn|Hn].
  2: { eexists _, _, _. split; [done|]. split; [apply oc_create_full; lia|done]. }
  cbn [fst]. set (x := Build_TabEntry (tc_next c) s (create (tc_next c))).
  destruct (insert_end_of_scope x (tc_tabs c)) as (Hp & Hids & Hg). cbn [te_scope x] in Hp, Hids, Hg.
  set (tabs := vinsert _ x (tc_tabs c)) in *.
  assert (∀ id, id ∈ map te_id (tc_tabs c) ++ map token_id tokens → (id < tc_next c)%N) as Hlt.
  { intros id Hin. rw Forall_forall in H2. specialize (H2 id Hin). lia. }
  assert (map te_id tabs ≡ₚ (tc_next c :: map te_id (tc_tabs c))) as Hm
    by apply (fmap_Permutation te_id _ _ Hp).
  eexists _, _, _. split; [done|]. split; [apply oc_create; lia|].
  split; simpl; rw ?Hm; try done.
  - simpl. constructor; [|done]. intros Hin%Hlt. lia.
  - simpl. constructor; [lia|]. eapply Forall_impl; [exact H2|]. simpl. lia.
  - assert (tc_next c ∉ tc_order c) as Hno.
    { rw H3. intros Hin. specialize (Hlt (tc_next c)). rw elem_of_app in Hlt. specialize (Hlt (or_introl Hin)). lia. }
    assert (vfilter (λ o, negb (o =? tc_next c)%N) (tc_order c) = tc_order c) as ->.
    { clear -Hno. unfold vfilter. induction (tc_order c) as [|o l IH]; [done|]. simpl.
      rw not_elem_of_cons in Hno. destruct (N.eqb_spec o (tc_next c)); [naive_solver|]. simpl. f_equal. naive_solver. }
    rw H3. by rw Permutation_app_comm.
  - by left.
  - by right.
  - by apply Hg.
  - lia.
  - intros s'. rw Hids H8. case_decide as Es.
    + subst s'. by rw fn_lookup_insert visible_app.
    + by rw fn_lookup_insert_ne // app_nil_r.
  - by apply Hides_append.
Qed.

Lemma sim_activate id c tokens f : TabsOk c tokens f → simulates (Tc_activate id) c tokens f.
Proof.
  intros Hok. unfold simulates. cbn [tc_run]. unfold activate_tab, index_of.
  destruct (vposition (is_tab id) (tc_tabs c)) as [i|] eqn:E; simpl.
  - eexists _, _, _. split; [done|]. split; [constructor|]. apply TabsOk_active; [done|].
    apply vposition_Some in E as (l1 & x & l2 & -> & _ & Hx & _). apply N.eqb_eq in Hx as <-.
    rw map_app elem_of_app. right. by left.
  - eexists _, _, _. split; [done|]. split; [constructor|done].
Qed.

Lemma sim_move id position c tokens f : TabsOk c tokens f → simulates (Tc_move id position) c tokens f.
Proof.
  intros Hok. unfold simulates. cbn [tc_run]. unfold move_tab.
  pose proof (locate_cases c id) as H. destruct (locate c id) as [[i x]|e].
  2: { destruct H as [_ Hn]. eexists _, _, _. split; [done|].
       split; [|done]. eapply oc_unknown; [done|]. by eapply unknown_subject. }
  destruct H as (l1 & l2 & E & -> & <-). destruct (slot_of _ _ _ _ _ _ Hok E) as (a & b & Hf & Ha & Hb).
  assert (visible (a ++ b) = ids_in (te_scope x) (l1 ++ l2)) as Hab by by rw visible_app ids_in_app Ha Hb.
  unfold indices_in. destruct (indices_from 0 (te_scope x) (tc_tabs c) !! position) as [target|] eqn:Ei.
  2: { eexists _, _, _. split; [done|]. split; [|done]. eapply oc_move_range; [done|].
       apply lookup_ge_None in Ei. rw indices_from_length E ids_in_app ids_in_same in Ei.
       rw Hab ids_in_app length_app. rw length_app /= in Ei. lia. }
  apply indices_from_lookup in Ei as (a1 & y & b1 & E1 & -> & Hy & Hpos). simpl.
  assert (length (vinsert position (te_id x) (visible (a ++ b))) = length (visible (f (te_scope x)))
    ∧ position ≤ length (visible (a ++ b))) as [Hlen Hle].
  { pose proof (tk_visible _ _ _ Hok (te_scope x)) as Hv. rw -Hv Hab E in E1 |- *.
    assert (length (ids_in (te_scope x) (l1 ++ x :: l2)) = S (length (ids_in (te_scope x) (l1 ++ l2)))) as Hl
      by (rw !ids_in_app ids_in_same !length_app /=; lia).
    assert (position < length (ids_in (te_scope x) (l1 ++ x :: l2))) as Hlt.
    { rw E1 ids_in_app length_app -{2}Hy ids_in_same /= -Hpos. lia. }
    rw Hl. unfold vinsert. rw length_app /= length_take length_drop. lia. }
  destruct (Nat.eqb_spec (length l1) (length a1)) as [Heq|Hne].
  { eexists _, _, _. split; [done|]. split; [by eapply oc_move|].
    rw E in E1. apply app_inj_1 in E1 as [-> [= -> ->]]; [|done].
    assert (refill (f (te_scope y)) (vinsert position (te_id y) (visible (a ++ b))) = f (te_scope y)) as ->.
    { rw Hpos Hab ids_in_app vinsert_app -ids_in_same -ids_in_app -E (tk_visible _ _ _ Hok). apply refill_visible. }
    destruct Hok as [H1 H2 H3 H4 H5 H6 H7 H8 H9 H10 H11]. split; try done.
    - intros s. destruct (decide (s = te_scope y)) as [->|]; [by rw fn_lookup_insert|by rw fn_lookup_insert_ne].
    - intros j s pos. rw H9. destruct (decide (s = te_scope y)) as [->|]; [by rw fn_lookup_insert|by rw fn_lookup_insert_ne]. }
  assert (∃ p q, l1 ++ l2 = p ++ q ∧ length a1 = length p ∧ position = length (ids_in (te_scope x) p) ∧
            beside_sibling x p q) as (p & q & Hpq & Htarget & Hposp & Hbes).
  { rw E in E1. destruct (decide (length a1 < length l1)) as [Hlt|Hge].
    - destruct (app_eq_inv _ _ _ _ E1) as [(k & -> & Hk)|(k & -> & Hk)].
      + destruct k as [|z k]; [rw app_nil_r in Hlt; lia|]. injection Hk as <- ->.
        exists a1, (y :: k ++ l2). rw -app_assoc. split; [done|]. split; [done|]. split; [done|].
        right. left. eauto.
      + rw length_app in Hlt. lia.
    - destruct (app_eq_inv _ _ _ _ E1) as [(k & -> & Hk)|(k & -> & Hk)].
      + rw length_app in Hge, Hne. destruct k; [simpl in *; lia|simpl in *; lia].
      + destruct k as [|z k]; [rw app_nil_r in Hne; lia|]. injection Hk as <- ->.
        exists (l1 ++ k ++ [y]), b1. rw -!app_assoc. split; [done|]. split; [rw !length_app /=; lia|].
        split; [|left; exists (l1 ++ k), y; by rw -app_assoc].
        rw Hpos !ids_in_app ids_in_same ids_in_cons decide_True // !length_app /= . lia. }
  rw E vremove_split Hpq Htarget vinsert_app.
  eexists _, _, _. split; [done|]. split; [by eapply oc_move|]. apply (TabsOk_tabs _ _ f); [done| | | |].
  - apply (fmap_Permutation te_id). rw E -Permutation_middle -Hpq. by rw Permutation_middle.
  - apply grouped_beside; [done|]. rw -Hpq. pose proof (tk_grouped _ _ _ Hok) as Hg. rw E in Hg.
    rw !map_app /= in Hg |- *. by eapply grouped_delete.
  - intros s. rw ids_in_insert. case_decide as Es.
    + subst s. rw fn_lookup_insert. destruct (refill_spec _ _ Hlen) as [-> _]. by rw Hab Hpq -Hposp.
    + rw fn_lookup_insert_ne // -(tk_visible _ _ _ Hok) E -Hpq !ids_in_app ids_in_cons. by case_decide.
  - by apply Hides_refill; [apply Hok|].
Qed.

(** ** Changing a Tab's Worktree *)

Lemma retire_is_Some s pos m id : is_Some (tc_retire s pos m !! id) ↔ is_Some (m !! id).
Proof. unfold tc_retire. rw lookup_fmap. apply fmap_is_Some. Qed.

Lemma retire_tokens s pos m tokens :
  (∀ k, k ∈ tokens → ∃ p, m !! token_id k = Some (te_scope (pt_entry k), p)) →
  ∀ k : ParkedTab T, k ∈ tokens → ∃ p, tc_retire s pos m !! token_id k = Some (te_scope (pt_entry k), p).
Proof.
  intros H k Hk. destruct (H k Hk) as (p & Hp). unfold tc_retire. rw lookup_fmap Hp. simpl. eauto.
Qed.

Lemma sim_scope id s' c tokens f : TabsOk c tokens f → simulates (Tc_scope id s') c tokens f.
Proof.
  intros Hok. unfold simulates. cbn [tc_run]. unfold set_tab_scope.
  pose proof (locate_cases c id) as H. destruct (locate c id) as [[i x]|e].
  2: { destruct H as [_ Hn]. eexists _, _, _. split; [done|].
       split; [|done]. eapply oc_unknown; [done|]. by eapply unknown_subject. }
  destruct H as (l1 & l2 & E & -> & <-). destruct (slot_of _ _ _ _ _ _ Hok E) as (a & b & Hf & Ha & Hb).
  case_bool_decide as Es.
  { eexists _, _, _. split; [done|]. split; [|done]. apply oc_scope_same. rw -Es Hf elem_of_app. right. by left. }
  rw (retained_at_spec _ _ _ _ _ _ _ _ Hok E Hf Ha). cbn [tc_tabs set_tc_parked fst]. rw E vremove_split.
  set (x' := Build_TabEntry (te_id x) s' (te_payload x)).
  destruct (insert_end_of_scope x' (l1 ++ l2)) as (Hp & Hids & Hg). cbn [te_scope x'] in Hp, Hids, Hg.
  set (tabs := vinsert _ x' (l1 ++ l2)) in *.
  assert (map te_id tabs ≡ₚ map te_id (tc_tabs c)) as Hm.
  { etrans; [apply (fmap_Permutation te_id _ _ Hp)|]. rw E.
    exact (fmap_Permutation te_id (x :: l1 ++ l2) (l1 ++ x :: l2) (Permutation_middle _ _ _)). }
  eexists _, _, _. split; [done|]. split; [by eapply oc_scope|].
  pose proof Hok as [H1 H2 H3 H4 H5 H6 H7 H8 H9 H10 H11]. split; simpl; rw ?Hm; try done.
  - apply Hg. rw E in H6. rw !map_app /= in H6 |- *. by eapply grouped_delete.
  - intros s. rw Hids. cbn [te_id x']. destruct (decide (s' = s)) as [<-|Hs].
    + rw fn_lookup_insert visible_app -H8 E !ids_in_app ids_in_cons decide_False //.
    + rw fn_lookup_insert_ne // app_nil_r. destruct (decide (te_scope x = s)) as [<-|Hx].
      * by rw fn_lookup_insert visible_app ids_in_app Ha Hb.
      * by rw fn_lookup_insert_ne // -H8 E !ids_in_app ids_in_cons decide_False.
  - pose proof (Hides_retire _ _ _ _ _ _ H9 Hf) as Hh.
    pose proof (Hides_append _ _ s' (te_id x) Hh) as Ha2. by rw fn_lookup_insert_ne // in Ha2.
  - by apply retire_tokens.
  - intros id. rw retire_is_Some. apply H11.
Qed.

(** ** Steps *)

Lemma vswap_adjacent {A} (p q : list A) x y :
  vswap (length p) (S (length p)) (p ++ x :: y :: q) = p ++ y :: x :: q ∧
  vswap (S (length p)) (length p) (p ++ x :: y :: q) = p ++ y :: x :: q.
Proof.
  unfold vswap. rw lookup_split. replace ((p ++ x :: y :: q) !! S (length p)) with (Some y).
  2: { rw lookup_app_r; [lia|]. by replace (S (length p) - length p) with 1 by lia. }
  split; induction p as [|z p IH]; simpl; try done; by f_equal.
Qed.

Lemma TabsOk_swap c tokens f p y z q :
  TabsOk c tokens f → tc_tabs c = p ++ y :: z :: q → te_scope y = te_scope z →
  TabsOk (set_tc_tabs (p ++ z :: y :: q) c) tokens
    (<[te_scope z := refill (f (te_scope z))
         (ids_in (te_scope z) p ++ te_id z :: te_id y :: ids_in (te_scope z) q)]> f).
Proof.
  intros Hok E Hs. pose proof (tk_visible _ _ _ Hok) as Hv.
  assert (visible (f (te_scope z)) =
    ids_in (te_scope z) p ++ te_id y :: te_id z :: ids_in (te_scope z) q) as Hz.
  { by rw -Hv E ids_in_app ids_in_cons decide_True // ids_in_same. }
  assert (length (ids_in (te_scope z) p ++ te_id z :: te_id y :: ids_in (te_scope z) q) =
    length (visible (f (te_scope z)))) as Hlen by (rw Hz !length_app; done).
  apply (TabsOk_tabs _ _ f); [done| | | |by apply Hides_refill; [apply Hok|]].
  - rw E !map_app /=. f_equiv. constructor.
  - pose proof (tk_grouped _ _ _ Hok) as Hg. rw E in Hg. rw !map_app /= Hs in Hg |- *. done.
  - intros s. destruct (decide (te_scope z = s)) as [<-|Hne].
    + rw fn_lookup_insert. destruct (refill_spec _ _ Hlen) as [-> _].
      by rw ids_in_app ids_in_same ids_in_cons decide_True.
    + rw fn_lookup_insert_ne // -Hv E !ids_in_app !ids_in_cons.
      rw Hs. by case_decide.
Qed.

Lemma sim_step_index c tokens f l1 x l2 step :
  TabsOk c tokens f → tc_tabs c = l1 ++ x :: l2 →
  ∃ g, order_call (tc_active c) (tc_next c) (Tc_step (te_id x) step) f g ∧
    TabsOk (step_index (length l1) x step c).1 tokens g.
Proof.
  intros Hok E. destruct (slot_of _ _ _ _ _ _ Hok E) as (a & b & Hf & Ha & Hb).
  pose proof (tk_grouped _ _ _ Hok) as Hg. rw E map_app /= in Hg. unfold step_index. destruct step.
  - destruct (decide (l1 = [])) as [->|Hne].
    { exists f. split; [|done]. by eapply oc_step_end. }
    destruct (exists_last Hne) as (p & y & ->). rw length_app /= Nat.add_1_r.
    rw E -app_assoc /= lookup_split. unfold in_scope. case_bool_decide as Es.
    + rw (proj2 (vswap_adjacent p l2 y x)). eexists. split.
      * eapply (oc_step_previous _ _ _ _ _ _ (ids_in (te_scope x) p) (te_id y)); [done|].
        rw Ha ids_in_app ids_in_cons decide_True //.
      * rw Hb. apply TabsOk_swap; [done| |done]. by rw E -app_assoc.
    + exists f. split; [|done]. eapply oc_step_end; [done|]. rw Ha. apply ids_in_nil. intros Hin.
      apply (grouped_previous _ _ _ Hg) in Hin. rw map_app last_snoc in Hin. congruence.
  - rw E length_app /=. destruct l2 as [|y q].
    { simpl. destruct (Nat.ltb_spec (S (length l1)) (length l1 + 1)); [lia|]. exists f. split; [|done]. by eapply oc_step_end. }
    destruct (Nat.ltb_spec (S (length l1)) (length l1 + S (length (y :: q)))) as [_|?]; [|simpl in *; lia].
    replace ((l1 ++ x :: y :: q) !! S (length l1)) with (Some y).
    2: { rw lookup_app_r; [lia|]. by replace (S (length l1) - length l1) with 1 by lia. }
    unfold in_scope. case_bool_decide as Es.
    + rw (proj1 (vswap_adjacent l1 q x y)). eexists. split.
      * eapply (oc_step_next _ _ _ _ _ _ (te_id y) (ids_in (te_scope x) q)); [done|].
        by rw Hb ids_in_cons decide_True.
      * rw Ha -Es. by apply TabsOk_swap.
    + exists f. split; [|done]. eapply oc_step_end; [done|]. rw Hb. apply ids_in_nil. intros Hin.
      apply (grouped_next _ _ _ Hg) in Hin. simpl in Hin. congruence.
Qed.

Lemma sim_step id step c tokens f : TabsOk c tokens f → simulates (Tc_step id step) c tokens f.
Proof.
  intros Hok. unfold simulates. cbn [tc_run]. unfold step_tab.
  pose proof (locate_cases c id) as H. destruct (locate c id) as [[i x]|e].
  2: { destruct H as [_ Hn]. eexists _, _, _. split; [done|].
       split; [|done]. eapply oc_unknown; [done|]. by eapply unknown_subject. }
  destruct H as (l1 & l2 & E & -> & <-).
  destruct (sim_step_index _ _ _ _ _ _ step Hok E) as (g & Hcall & Hg).
  destruct (step_index _ _ _ _) as [c' moved]. by exists c', tokens, g.
Qed.

Lemma sim_step_active step c tokens f : TabsOk c tokens f → simulates (Tc_step_active step) c tokens f.
Proof.
  intros Hok. unfold simulates. cbn [tc_run]. unfold move_active_tab.
  pose proof (locate_cases c (tc_active c)) as H. destruct (locate c (tc_active c)) as [[i x]|e].
  2: { destruct H as [_ Hn]. destruct Hn. apply Hok. }
  destruct H as (l1 & l2 & E & -> & Hx).
  destruct (sim_step_index _ _ _ _ _ _ step Hok E) as (g & Hcall & Hg).
  destruct (step_index _ _ _ _) as [c' moved]. exists c', tokens, g. split; [done|]. split; [|done].
  constructor. by rw -{2}Hx.
Qed.

(** ** Closing and parking *)

Lemma split_ids l1 (x : TabEntry T) l2 tokens :
  map te_id (l1 ++ x :: l2) ++ map token_id tokens ≡ₚ
  (te_id x :: map te_id (l1 ++ l2) ++ map token_id tokens).
Proof. rw !map_app /= -!app_assoc. by rw Permutation_middle. Qed.

Lemma only_tab c tokens f x :
  TabsOk c tokens f → tc_tabs c = [x] → ∀ s j, Visible j ∈ f s → j = te_id x.
Proof.
  intros Hok E s j Hj. assert (j ∈ map te_id (tc_tabs c)) as Hin by (apply (visible_iff _ _ _ _ Hok); eauto).
  rw E in Hin. by apply list_elem_of_singleton in Hin.
Qed.

Lemma other_tab c tokens f l1 x l2 :
  TabsOk c tokens f → tc_tabs c = l1 ++ x :: l2 → l1 ++ l2 ≠ [] →
  ∃ s j, Visible j ∈ f s ∧ j ≠ te_id x.
Proof.
  intros Hok E Hne. destruct (l1 ++ l2) as [|y l] eqn:El; [done|].
  pose proof (tabs_NoDup _ _ _ Hok) as Hnd.
  assert (map te_id (tc_tabs c) ≡ₚ (te_id x :: te_id y :: map te_id l)) as Hp.
  { change (te_id y :: map te_id l) with (map te_id (y :: l)). rw E -El !map_app /=. by rw Permutation_middle. }
  rw Hp in Hnd. apply NoDup_cons in Hnd as [Hx _].
  assert (te_id y ∈ map te_id (tc_tabs c)) as Hy by (rw Hp; right; by left).
  apply (visible_iff _ _ _ _ Hok) in Hy as (s & Hs). exists s, (te_id y). split; [done|]. intros Eq.
  apply Hx. rw Eq. by left.
Qed.

(** What is left after a Tab was taken, with its place retired or hidden. *)
Lemma TabsOk_taken c tokens f l1 x l2 c' m tokens' g :
  TabsOk c tokens f → tc_tabs c = l1 ++ x :: l2 → Taken c x l1 l2 c' →
  tokens' = tokens ∨ (∃ k, token_id k = te_id x ∧ tokens' = k :: tokens) →
  (∀ s, ids_in s (l1 ++ l2) = visible (g s)) → Hides m g →
  (∀ k, k ∈ tokens' → ∃ p, m !! token_id k = Some (te_scope (pt_entry k), p)) →
  (∀ id, is_Some (m !! id) → id ∈ map token_id tokens') →
  TabsOk (set_tc_parked m c') tokens' g.
Proof.
  intros Hok E [T1 T2 T3 T4 T5 T6 T7 T8] Htok Hv Hh Hk Hm.
  destruct Hok as [H1 H2 H3 H4 H5 H6 H7 H8 H9 H10 H11]. rw E split_ids in H1, H2.
  assert (NoDup (map te_id (l1 ++ l2) ++ map token_id tokens') ∧
    Forall (λ id, 1 <= id < tc_next c)%N (map te_id (l1 ++ l2) ++ map token_id tokens')) as [Hn Hb].
  { destruct Htok as [->|(k & Hid & ->)].
    - split; [by apply NoDup_cons in H1 as [_ ?]|by apply Forall_cons in H2 as [_ ?]].
    - cbn [map]. rw -Permutation_middle Hid. done. }
  split; simpl; rw ?T1 ?T3; try done.
  rw E in H6. rw !map_app /= in H6 |- *. by eapply grouped_delete.
Qed.

Lemma ids_in_hole s0 s l1 (x : TabEntry T) l2 (f : Orders) o :
  (∀ s, ids_in s (l1 ++ x :: l2) = visible (f s)) → te_scope x = s0 → visible o = ids_in s0 (l1 ++ l2) →
  ids_in s (l1 ++ l2) = visible ((<[s0 := o]> f) s).
Proof.
  intros H Hx Ho. destruct (decide (s0 = s)) as [<-|Hne]; [by rw fn_lookup_insert|].
  rw fn_lookup_insert_ne // -H !ids_in_app ids_in_cons. by rw decide_False //; congruence.
Qed.

Lemma sim_close id c tokens f : TabsOk c tokens f → simulates (Tc_close id) c tokens f.
Proof.
  intros Hok. unfold simulates. cbn [tc_run]. unfold close_tab.
  pose proof (locate_cases c id) as H. destruct (locate c id) as [[i x]|e].
  2: { destruct H as [_ Hn]. eexists _, _, _. split; [done|].
       split; [|done]. eapply oc_unknown; [done|]. by eapply unknown_subject. }
  destruct H as (l1 & l2 & E & -> & <-). destruct (slot_of _ _ _ _ _ _ Hok E) as (a & b & Hf & Ha & Hb).
  rw (retained_at_spec _ _ _ _ _ _ _ _ Hok E Hf Ha). pose proof (take_tab_spec _ _ _ _ _ _ Hok E) as Ht.
  case_decide as El.
  - rw Ht. apply app_nil in El as [-> ->]. eexists _, _, _. split; [done|]. split; [|done].
    eapply oc_last; [by left|]. by eapply only_tab.
  - destruct Ht as (c' & -> & Htk). eexists _, _, _. split; [done|].
    split; [eapply oc_close; [done|by eapply other_tab]|].
    pose proof (tk_visible _ _ _ Hok) as Hv. rw E in Hv.
    eapply TabsOk_taken; [done|done|done|by left| | | |].
    + intros s. eapply ids_in_hole; [done|done|]. by rw visible_app ids_in_app Ha Hb.
    + rw (tn_parked _ _ _ _ _ Htk). by eapply Hides_retire; [apply Hok|].
    + rw (tn_parked _ _ _ _ _ Htk). apply retire_tokens, Hok.
    + intros id. rw retire_is_Some (tn_parked _ _ _ _ _ Htk). apply Hok.
Qed.

Lemma visible_not_parked c tokens f id :
  TabsOk c tokens f → id ∈ map te_id (tc_tabs c) → (id ∉ map token_id tokens) ∧ tc_parked c !! id = None.
Proof.
  intros Hok Hin. pose proof (tk_ids _ _ _ Hok) as Hn. apply NoDup_app in Hn as (_ & Hn & _).
  split; [by apply Hn|]. apply eq_None_not_Some. intros H%(tk_parked _ _ _ Hok). by eapply Hn.
Qed.

Lemma sim_park id c tokens f : TabsOk c tokens f → simulates (Tc_park id) c tokens f.
Proof.
  intros Hok. unfold simulates. cbn [tc_run]. unfold park_tab.
  pose proof (locate_cases c id) as H. destruct (locate c id) as [[i x]|e].
  2: { destruct H as [_ Hn]. eexists _, _, _. split; [done|].
       split; [|done]. eapply oc_unknown; [done|]. by eapply unknown_subject. }
  destruct H as (l1 & l2 & E & -> & <-). destruct (slot_of _ _ _ _ _ _ Hok E) as (a & b & Hf & Ha & Hb).
  rw (retained_at_spec _ _ _ _ _ _ _ _ Hok E Hf Ha). pose proof (take_tab_spec _ _ _ _ _ _ Hok E) as Ht.
  case_decide as El.
  - rw Ht. apply app_nil in El as [-> ->]. eexists _, _, _. split; [done|]. split; [|done].
    eapply oc_last; [by right|]. by eapply only_tab.
  - destruct Ht as (c' & -> & Htk). eexists _, _, _. split; [done|].
    split; [eapply oc_park; [done|by eapply other_tab]|].
    pose proof (tk_visible _ _ _ Hok) as Hv. rw E in Hv.
    destruct (visible_not_parked _ _ _ (te_id x) Hok) as [Hnt Hnp].
    { rw E map_app elem_of_app. right. by left. }
    cbn [fst snd]. rw (tn_parked _ _ _ _ _ Htk).
    eapply TabsOk_taken; [done|done|done|right; eexists; split; [|done]; done| | | |].
    + intros s. eapply ids_in_hole; [done|done|]. by rw visible_app ids_in_app Ha /= Hb.
    + eapply Hides_hide; [apply Hok|done|done].
    + intros k [->|Hk]%elem_of_cons; [eexists; apply lookup_insert_eq|].
      rw lookup_insert_ne; [|by apply Hok]. intros Eq. apply Hnt. rw Eq. by apply list_elem_of_fmap_2.
    + intros id. destruct (decide (id = te_id x)) as [->|Hne]; [by left|].
      rw lookup_insert_ne //. intros Hs. right. by apply Hok.
Qed.

(** ** Restoring and discarding *)

(** The caller's token stands for one hidden place. *)
Lemma token_place c tokens f before k after :
  TabsOk c tokens f → tokens = before ++ k :: after →
  ∃ a b, f (te_scope (pt_entry k)) = a ++ Hidden (token_id k) :: b.
Proof.
  intros Hok ->. destruct (tk_tokens _ _ _ Hok k) as (pos & Hp); [rw elem_of_app; right; by left|].
  apply (tk_hides _ _ _ Hok) in Hp. apply list_elem_of_split_length in Hp as (a & b & Hab & _). eauto.
Qed.

Lemma no_token c tokens f id :
  TabsOk c tokens f → Forall (λ k, (token_id k =? id)%N = false) tokens → ∀ s, Hidden id ∉ f s.
Proof.
  intros Hok Hall s (pos & Hp)%list_elem_of_lookup. apply (tk_hides _ _ _ Hok) in Hp.
  assert (id ∈ map token_id tokens) as Hin by (apply Hok; by eexists).
  apply elem_of_map in Hin as (k & -> & Hk). rw Forall_forall in Hall. specialize (Hall k Hk).
  by rw N.eqb_refl in Hall.
Qed.

Lemma token_lookups c tokens f before k after s pos :
  TabsOk c tokens f → tokens = before ++ k :: after →
  (∀ k', k' ∈ before ++ after → ∃ p, tc_retire s pos (delete (token_id k) (tc_parked c)) !! token_id k' =
     Some (te_scope (pt_entry k'), p)) ∧
  (∀ k', k' ∈ before ++ after → ∃ p, delete (token_id k) (tc_parked c) !! token_id k' =
     Some (te_scope (pt_entry k'), p)) ∧
  (∀ id, is_Some (delete (token_id k) (tc_parked c) !! id) → id ∈ map token_id (before ++ after)).
Proof.
  intros Hok ->. assert (∀ k', k' ∈ before ++ after → ∃ p, delete (token_id k) (tc_parked c) !! token_id k' =
     Some (te_scope (pt_entry k'), p)) as Hd.
  { intros k' Hk'. rw lookup_delete_ne.
    - pose proof (tk_ids _ _ _ Hok) as Hn. apply NoDup_app in Hn as (_ & _ & Hn).
      rw map_app /= -Permutation_middle -map_app in Hn. apply NoDup_cons in Hn as [Hn _].
      intros Eq. apply Hn. rw Eq. by apply list_elem_of_fmap_2.
    - apply Hok. rw elem_of_app in Hk'. rw elem_of_app elem_of_cons. tauto. }
  split; [by apply retire_tokens|]. split; [done|].
  intros id. destruct (decide (id = token_id k)) as [->|Hne]; [rw lookup_delete_eq; by intros [??]|].
  rw lookup_delete_ne //. intros Hs%Hok. rw map_app /= elem_of_app elem_of_cons in Hs.
  rw map_app elem_of_app. naive_solver.
Qed.

Lemma Hides_ext m f g : (∀ s, f s = g s) → Hides m f → Hides m g.
Proof. intros H Hh id s pos. by rw -H. Qed.

Lemma sim_discard id c tokens f : TabsOk c tokens f → simulates (Tc_discard id) c tokens f.
Proof.
  intros Hok. unfold simulates. cbn [tc_run].
  destruct (split_at _ tokens) as [[[before k] after]|] eqn:Es.
  2: { apply split_at_None in Es. eexists _, _, _. split; [done|]. split; [|done].
       eapply oc_not_parked; [by right|]. by eapply no_token. }
  apply split_at_sound in Es as (Et & Hk & _). apply N.eqb_eq in Hk as <-.
  destruct (token_place _ _ _ _ _ _ Hok Et) as (a & b & Hf).
  destruct (Hides_show _ _ _ _ _ _ (tk_hides _ _ _ Hok) Hf) as [Hm Hsh].
  destruct (token_lookups _ _ _ _ _ _ (te_scope (pt_entry k)) (length a) Hok Et) as (K1 & _ & K3).
  eexists _, _, _. split; [done|]. split; [by eapply oc_discard|].
  unfold discard_parked_tab. cbn [fst]. fold (token_id k). rw Hm.
  pose proof Hok as [H1 H2 H3 H4 H5 H6 H7 H8 H9 H10 H11].
  rw Et map_app /= -Permutation_middle in H1, H2. rw -Permutation_middle in H1, H2.
  split; simpl; rw ?map_app; try done.
  - by apply NoDup_cons in H1 as [_ ?].
  - by apply Forall_cons in H2 as [_ ?].
  - intros s. destruct (decide (te_scope (pt_entry k) = s)) as [<-|Hne].
    + by rw fn_lookup_insert H8 Hf !visible_app.
    + by rw fn_lookup_insert_ne.
  - eapply Hides_ext; [|eapply Hides_retire; [exact Hsh|by rw fn_lookup_insert]].
    intros s. destruct (decide (te_scope (pt_entry k) = s)) as [<-|Hne];
      [by rw !fn_lookup_insert|by rw !fn_lookup_insert_ne].
  - intros id. rw retire_is_Some -map_app. apply K3.
Qed.

(** The parked positions before a place count the hidden ones before it. *)
Lemma parked_before c g s a id b :
  Hides (tc_parked c) g → g s = a ++ Visible id :: b →
  length (vfilter (λ pos, pos <? length a) (parked_positions_in c s)) = length (parked_of a).
Proof.
  intros Hh Hg. rw -(length_fmap fst (parked_of a)). pose proof (parked_positions_perm c g s Hh) as Hp.
  rw Hg /parked_of parked_from_app fmap_app in Hp. cbn [parked_from] in Hp.
  apply Permutation_length. rw (vfilter_perm _ _ _ Hp) vfilter_app.
  pose proof (parked_from_range 0 a) as H1. pose proof (parked_from_range (S (0 + length a)) b) as H2.
  rw vfilter_all; [|rw vfilter_none; [|by rw app_nil_r]].
  - apply Forall_fmap. eapply Forall_impl; [exact H1|]. simpl. intros q Hq. apply Nat.ltb_lt. lia.
  - apply Forall_fmap. eapply Forall_impl; [exact H2|]. simpl. intros q Hq. apply Nat.ltb_ge. lia.
Qed.

(** Where a Tab with [v] visible siblings before it goes back. *)
Lemma restore_place (tabs : list (TabEntry T)) (x : TabEntry T) v :
  v ≤ length (ids_in (te_scope x) tabs) →
  ∃ p q, tabs = p ++ q ∧ v = length (ids_in (te_scope x) p) ∧ beside_sibling x p q ∧
    match indices_from 0 (te_scope x) tabs !! v with
    | Some index => index
    | None => match last (indices_from 0 (te_scope x) tabs) with
              | Some index => S index
              | None => length tabs
              end
    end = length p.
Proof.
  intros Hv. destruct (indices_from 0 (te_scope x) tabs !! v) as [i|] eqn:Ei.
  - apply indices_from_lookup in Ei as (p & y & q & -> & -> & Hy & ->).
    exists p, (y :: q). split; [done|]. split; [done|]. split; [|done]. right. left. eauto.
  - apply lookup_ge_None in Ei. rw indices_from_length in Ei.
    destruct (last (indices_from 0 (te_scope x) tabs)) as [i|] eqn:El.
    + rw last_lookup in El. apply indices_from_lookup in El as (p & y & q & -> & -> & Hy & Hp).
      exists (p ++ [y]), q. rw -app_assoc. split; [done|]. rw indices_from_length in Hp.
      rw ids_in_app ids_in_cons decide_True // in Hv, Ei, Hp.
      split; [|split].
      * rw ids_in_app ids_in_cons decide_True //. rw !length_app /= in Hv, Ei, Hp |- *. lia.
      * left. eauto.
      * rw length_app /=. lia.
    + apply last_None in El. exists tabs, []. rw app_nil_r. split; [done|].
      assert (length (ids_in (te_scope x) tabs) = 0) as Hl by by rw -(indices_from_length 0) El.
      split; [lia|]. split; [|done]. right. right. rw app_nil_r. split; [|done].
      by destruct (ids_in (te_scope x) tabs).
Qed.

Lemma sim_restore id c tokens f : TabsOk c tokens f → simulates (Tc_restore id) c tokens f.
Proof.
  intros Hok. unfold simulates. cbn [tc_run].
  destruct (split_at _ tokens) as [[[before k] after]|] eqn:Es.
  2: { apply split_at_None in Es. eexists _, _, _. split; [done|]. split; [|done].
       eapply oc_not_parked; [by left|]. by eapply no_token. }
  apply split_at_sound in Es as (Et & Hk & _). apply N.eqb_eq in Hk as <-.
  destruct (token_place _ _ _ _ _ _ Hok Et) as (a & b & Hf).
  destruct (Hides_show _ _ _ _ _ _ (tk_hides _ _ _ Hok) Hf) as [Hm Hsh].
  destruct (token_lookups _ _ _ _ _ _ (te_scope (pt_entry k)) (length a) Hok Et) as (_ & K2 & K3).
  unfold restore_parked_tab. fold (token_id k). rw Hm. cbn [tc_tabs set_tc_parked].
  rw (parked_before (set_tc_parked (delete (token_id k) (tc_parked c)) c) _ _ a (token_id k) b Hsh); [by rw fn_lookup_insert|].
  replace (length a - length (parked_of a)) with (length (visible a)).
  2: { rw (slots_length a 0). unfold parked_of. lia. }
  pose proof Hok as [H1 H2 H3 H4 H5 H6 H7 H8 H9 H10 H11].
  assert (ids_in (te_scope (pt_entry k)) (tc_tabs c) = visible a ++ visible b) as Hab
    by by rw H8 Hf visible_app.
  destruct (restore_place (tc_tabs c) (pt_entry k) (length (visible a))) as (p & q & E & Hv & Hb & Hpl).
  { rw Hab length_app. lia. }
  unfold indices_in. cbn [tc_tabs set_tc_parked]. rw Hpl.
  match goal with |- context [vinsert _ _ ?l] => replace l with (tc_tabs c) by by destruct (pt_was_root k) end.
  rw E vinsert_app.
  rw E ids_in_app in Hab. apply app_inj_1 in Hab as [Hia Hib]; [|done].
  rw E in H1, H2, H3, H4, H5, H6.
  rw Et !map_app /= -Permutation_middle in H1, H2. rw -Permutation_middle in H1, H2.
  assert (map te_id (p ++ pt_entry k :: q) ≡ₚ (token_id k :: map te_id (p ++ q))) as Hids.
  { rw !map_app /=. by rw -Permutation_middle. }
  eexists _, _, _. split; [done|]. split; [by eapply oc_restore|].
  destruct (pt_was_root k); (split; simpl; rw ?Hids ?map_app; try done).
  all: try (by rw -map_app in H1 |- *; rw map_app in H1 |- *).
  all: try (by rw H3 map_app).
  all: try (by right; rw -map_app).
  all: try (by left).
  all: try (by rw -map_app; apply grouped_beside).
  all: try (by intros id; rw -map_app; apply K3).
  all: intros s; destruct (decide (te_scope (pt_entry k) = s)) as [<-|Hne].
  all: try (rw fn_lookup_insert ids_in_app ids_in_same visible_app Hia Hib; done).
  all: rw fn_lookup_insert_ne // -H8 E !ids_in_app ids_in_cons decide_False //.
Qed.

(** ** Sequences of calls *)

Lemma tc_call_simulates call c tokens f : TabsOk c tokens f → simulates call c tokens f.
Proof.
  destruct call; [apply sim_create|apply sim_scope|apply sim_activate|apply sim_move|apply sim_step|
    apply sim_step_active|apply sim_close|apply sim_park|apply sim_restore|apply sim_discard].
Qed.

Fixpoint tc_runs (calls : list (TabCall T)) (state : TabCollection T * list (ParkedTab T))
    : option (TabCollection T * list (ParkedTab T)) :=
  match calls with
  | [] => Some state
  | call :: calls => match tc_run call state with Some state => tc_runs calls state | None => None end
  end.

(** A sequence of calls, each taking the collection and the orders along. *)
Inductive paired_runs : list (TabCall T) → TabCollection T * list (ParkedTab T) → Orders →
    TabCollection T * list (ParkedTab T) → Orders → Prop :=
  | pr_nil state f : paired_runs [] state f state f
  | pr_cons call calls state state' state'' f g h :
      tc_run call state = Some state' →
      order_call (tc_active state.1) (tc_next state.1) call f g →
      paired_runs calls state' g state'' h →
      paired_runs (call :: calls) state f state'' h.

(** The first Tab belongs to no Worktree. *)
Definition first_orders : Orders := λ s, if decide (s = None) then [Visible 1%N] else [].

Lemma tc_new_ok create : TabsOk (tc_new (T := T) create) [] first_orders.
Proof.
  split; simpl; try done.
  - apply NoDup_singleton.
  - constructor; [lia|constructor].
  - by left.
  - by left.
  - split; [by intros ?%elem_of_nil|done].
  - intros s. unfold first_orders, ids_in, vfilter, in_scope. simpl.
    by case_decide; case_bool_decide; subst.
  - intros id s pos. rw lookup_empty. split; [done|]. unfold first_orders.
    case_decide; [by destruct pos as [|[|]]|done].
  - by intros k ?%elem_of_nil.
  - intros id [? Hid]. by rw lookup_empty in Hid.
Qed.

Lemma paired_runs_exist calls c tokens f : TabsOk c tokens f →
  ∃ c' tokens' g, tc_runs calls (c, tokens) = Some (c', tokens') ∧
    paired_runs calls (c, tokens) f (c', tokens') g ∧ TabsOk c' tokens' g.
Proof.
  revert c tokens f. induction calls as [|call calls IH]; intros c tokens f Hok.
  - exists c, tokens, f. split; [done|]. by split; [constructor|].
  - destruct (tc_call_simulates call _ _ _ Hok) as (c1 & tokens1 & g & Hrun & Horder & Hok1).
    destruct (IH _ _ _ Hok1) as (c' & tokens' & h & Hruns & Hp & Hok').
    exists c', tokens', h. split; [cbn [tc_runs]; by rw Hrun|]. split; [|done]. by econstructor.
Qed.

Lemma tc_runs_ok create calls c tokens :
  tc_runs calls (tc_new create, []) = Some (c, tokens) → ∃ f, TabsOk c tokens f.
Proof.
  intros H. destruct (paired_runs_exist calls _ _ _ (tc_new_ok create)) as (c' & tokens' & g & Hr & _ & Hok).
  rw H in Hr. injection Hr as <- <-. eauto.
Qed.

Lemma tabs_in_ids c s : map fst (tabs_in c s) = ids_in s (tc_tabs c).
Proof. unfold tabs_in, ids_in. by rw map_map. Qed.

(** C5. Whatever sequence of calls is made on a Workspace's Tabs (create, change of
    Worktree, activate, move, step, close, park, restore, discard), no call panics,
    and the collection shows, for each Worktree, the visible members of one order
    that the same calls change as an order with hidden places: a parked Tab keeps
    its place through every other call and returns to it. Tabs of one Worktree stay
    adjacent, identities stay unique, and the Active and Root Tabs are present. *)
Theorem tab_runs_refine (create : N → T) (calls : list (TabCall T)) :
  ∃ c tokens g,
    tc_runs calls (tc_new create, []) = Some (c, tokens) ∧
    paired_runs calls (tc_new create, []) first_orders (c, tokens) g ∧
    (∀ s, map fst (tabs_in c s) = visible (g s)) ∧
    (∀ id, (∃ s, Hidden id ∈ g s) ↔ id ∈ map token_id tokens) ∧
    grouped (map te_scope (tc_tabs c)) ∧
    NoDup (map te_id (tc_tabs c) ++ map token_id tokens) ∧
    tc_active c ∈ map te_id (tc_tabs c) ∧ tc_root c ∈ map te_id (tc_tabs c) ∧
    tc_order c ≡ₚ map te_id (tc_tabs c).
Proof.
  destruct (paired_runs_exist calls _ _ _ (tc_new_ok create)) as (c & tokens & g & Hr & Hp & Hok).
  exists c, tokens, g. split; [done|]. split; [done|]. split; [intros s; rw tabs_in_ids; apply Hok|].
  split; [|by split_and!; apply Hok]. intros id. split.
  - intros (s & (pos & Hl)%list_elem_of_lookup). apply (tk_hides _ _ _ Hok) in Hl.
    apply (tk_parked _ _ _ Hok). by eexists.
  - intros (k & -> & Hk)%elem_of_map. destruct (tk_tokens _ _ _ Hok k Hk) as (pos & Hl).
    apply (tk_hides _ _ _ Hok) in Hl. eexists. by eapply list_elem_of_lookup_2.
Qed.

(** Closing one of several Tabs removes exactly that Tab. The Active Tab stays
    active unless it is the one closed; then the next Tab of its Worktree becomes
    active, else the previous one, else the Tab activated most recently. *)
Theorem close_passes_activation create calls c tokens l1 x l2 :
  tc_runs calls (tc_new create, []) = Some (c, tokens) →
  tc_tabs c = l1 ++ x :: l2 → l1 ++ l2 ≠ [] →
  ∃ c', close_tab (te_id x) c = Some (c', Ok (TabClosed (te_id x) (tc_active c') (te_payload x))) ∧
    tc_tabs c' = l1 ++ l2 ∧
    (tc_active c ≠ te_id x → tc_active c' = tc_active c) ∧
    (tc_active c = te_id x →
     match ids_in (te_scope x) l2, last (ids_in (te_scope x) l1) with
     | next :: _, _ => tc_active c' = next
     | [], Some previous => tc_active c' = previous
     | [], None => last (vfilter (λ o, negb (o =? te_id x)%N) (tc_order c)) = Some (tc_active c')
     end).
Proof.
  intros (f & Hok)%tc_runs_ok E Hne. unfold close_tab. rw (locate_split _ _ _ _ (tabs_NoDup _ _ _ Hok) E).
  destruct (retained_at c (length l1) x) as [scope position].
  pose proof (take_tab_spec _ _ _ _ _ _ Hok E) as Ht. rw decide_False // in Ht.
  destruct Ht as (c' & -> & Htk). exists (set_tc_parked (tc_retire scope position (tc_parked c')) c'). split; [done|]. simpl. split; [apply Htk|].
  pose proof (tn_active _ _ _ _ _ Htk) as Ha. destruct (N.eqb_spec (tc_active c) (te_id x)) as [Ea|Ea].
  - split; [done|]. intros _. unfold fallback_id in Ha. destruct (ids_in (te_scope x) l2); [|congruence].
    destruct (last (ids_in (te_scope x) l1)); congruence.
  - by split.
Qed.

(** The active Tab among its siblings. *)
Lemma vposition_sibling c l1 x l2 :
  NoDup (map te_id (tc_tabs c)) → tc_tabs c = l1 ++ x :: l2 →
  vposition (λ index, match tc_tabs c !! index with Some tab => is_tab (te_id x) tab | None => false end)
    (indices_in c (te_scope x)) = Some (length (ids_in (te_scope x) l1)).
Proof.
  intros Hnd E. unfold indices_in. rw E indices_from_app. simpl. unfold in_scope.
  rw bool_decide_eq_true_2 // -(indices_from_length 0). apply vposition_first.
  - apply Forall_forall. intros i Hi. pose proof (indices_from_range 0 (te_scope x) l1) as Hr.
    rw Forall_forall in Hr. specialize (Hr i Hi). simpl in Hr. destruct ((l1 ++ x :: l2) !! i) as [y|] eqn:Ey; [|done].
    apply N.eqb_neq. intros Eq. assert (i = length l1) as ->; [|lia].
    apply (NoDup_lookup (map te_id (tc_tabs c)) _ _ (te_id x) Hnd).
    + by rw list_lookup_fmap E Ey -Eq.
    + by rw list_lookup_fmap E lookup_split.
  - rw lookup_split. apply N.eqb_refl.
Qed.

(** The neighbor of the Active Tab is the next or previous Tab of its Worktree,
    around the ends; with a single one it is the Active Tab itself. The lookup never
    panics. *)
Theorem neighbor_cycles create calls c tokens :
  tc_runs calls (tc_new create, []) = Some (c, tokens) →
  ∃ s i, active_scope c = Some s ∧ ids_in s (tc_tabs c) !! i = Some (tc_active c) ∧
    let n := length (ids_in s (tc_tabs c)) in
    neighbor_of_active_tab c StepNext = ids_in s (tc_tabs c) !! ((i + 1) mod n) ∧
    neighbor_of_active_tab c StepPrevious = ids_in s (tc_tabs c) !! ((i + n - 1) mod n) ∧
    is_Some (neighbor_of_active_tab c StepNext) ∧ is_Some (neighbor_of_active_tab c StepPrevious).
Proof.
  intros (f & Hok)%tc_runs_ok. pose proof (tabs_NoDup _ _ _ Hok) as Hnd.
  pose proof (tk_active _ _ _ Hok) as (x & Hx & Hin)%elem_of_map.
  apply list_elem_of_split in Hin as (l1 & l2 & E).
  assert (active_scope c = Some (te_scope x)) as Hs.
  { pose proof (locate_split _ _ _ _ Hnd E) as Hl. unfold active_scope. unfold locate in Hl. rw Hx.
    destruct (index_of c (te_id x)) as [i|]; [|done]. destruct (tc_tabs c !! i) as [y|]; [|done].
    by injection Hl as -> ->. }
  exists (te_scope x), (length (ids_in (te_scope x) l1)). split; [done|].
  set (v := ids_in (te_scope x) (tc_tabs c)).
  assert (v !! length (ids_in (te_scope x) l1) = Some (tc_active c)) as Hi.
  { unfold v. by rw E ids_in_app ids_in_same lookup_split Hx. }
  assert (∀ j, match indices_in c (te_scope x) !! j with
               | Some index => te_id <$> tc_tabs c !! index | None => None end = v !! j) as Hj.
  { intros j. unfold v, indices_in. destruct (indices_from 0 (te_scope x) (tc_tabs c) !! j) as [k|] eqn:Ek.
    - apply indices_from_lookup in Ek as (p & y & q & -> & -> & <- & ->).
      by rw ids_in_app ids_in_same !lookup_split.
    - apply lookup_ge_None in Ek. rw indices_from_length in Ek. symmetry. by apply lookup_ge_None. }
  assert (∀ step, neighbor_of_active_tab c step =
    v !! match step with
         | StepPrevious => (length (ids_in (te_scope x) l1) + length v - 1) mod length v
         | StepNext => (length (ids_in (te_scope x) l1) + 1) mod length v end) as Hn.
  { intros step. unfold neighbor_of_active_tab. rw Hs Hx (vposition_sibling _ _ _ _ Hnd E) Hj.
    unfold indices_in. by rw indices_from_length. }
  apply lookup_lt_Some in Hi as Hlt. cbv zeta. split; [done|]. rw !Hn. split; [done|]. split; [done|].
  split; apply lookup_lt_is_Some; apply Nat.mod_upper_bound; lia.
Qed.
End Calls.

(** ** Witnesses *)

(** Three Tabs, one in Worktree 7, the first one active. *)
Definition three_tabs : list (TabCall N) :=
  [Tc_create (Some 7%N) (λ id, id); Tc_create None (λ id, id); Tc_park 2%N; Tc_restore 2%N; Tc_activate 1%N].

Definition three_state : TabCollection N * list (ParkedTab N) :=
  default (tc_new (λ id, id), []) (tc_runs three_tabs (tc_new (λ id, id), [])).

Lemma close_passes_activation_witness :
  ∃ c', close_tab 1%N (fst three_state) = Some (c', Ok (TabClosed 1%N (tc_active c') 1%N)) ∧ tc_active c' = 3%N.
Proof.
  destruct (close_passes_activation (λ id : N, id) three_tabs (fst three_state) [] []
    (Build_TabEntry 1%N None 1%N) [Build_TabEntry 3%N None 3%N; Build_TabEntry 2%N (Some 7%N) 2%N])
    as (c' & H1 & _ & _ & H2); [vm_compute; reflexivity|vm_compute; reflexivity|done|].
  exists c'. split; [exact H1|]. apply H2. vm_compute. reflexivity.
Defined.

Lemma neighbor_cycles_witness :
  ∃ s i, active_scope (fst three_state) = Some s ∧
    ids_in s (tc_tabs (fst three_state)) !! i = Some (tc_active (fst three_state)).
Proof.
  destruct (neighbor_cycles (λ id : N, id) three_tabs (fst three_state) []) as (s & i & H1 & H2 & _);
    [vm_compute; reflexivity|]. exists s, i. split; [exact H1|exact H2].
Defined.
