(* ===== verification/Liveness.v ===== *)
(** * Liveness of a connection

    [crates/spaceterm-core/src/connection/health.rs]: when a peer pings, suspects
    its path and gives a connection up. Instants and durations are nanoseconds;
    [Instant::duration_since] gives zero for a later instant, as [N] subtraction
    does. *)
From S2P Require Import Prelude.

Abbreviation Instant := N (only parsing).

(** [protocol/limits.rs]. *)
Definition PING_AFTER : N := 5000000000.
Definition DEAD_AFTER : N := 15000000000.
Definition SUSPECT_AFTER : N := 2500000000.
Definition STALL_AFTER : N := 10000000000.

Inductive Death := Silent | Death_Stalled.

Inductive Check :=
  | Check_Live (next : Instant)
  | Check_Ping (nonce : N) (next : Instant)
  | Check_Dead (death : Death).

Record Liveness := {
  lv_received : Instant;
  lv_pinged : option Instant;
  lv_blocked : option Instant;
  lv_nonce : N;
  lv_suspected : bool
}.

Definition liveness_new (now : Instant) : Liveness :=
  {| lv_received := now; lv_pinged := None; lv_blocked := None; lv_nonce := 0; lv_suspected := false |}.

Definition received (now : Instant) (l : Liveness) : Liveness :=
  {| lv_received := now; lv_pinged := None; lv_blocked := lv_blocked l; lv_nonce := lv_nonce l;
     lv_suspected := lv_suspected l |}.

Definition wrote (now : Instant) (progressed pending : bool) (l : Liveness) : Liveness :=
  {| lv_received := lv_received l; lv_pinged := lv_pinged l;
     lv_blocked := match pending, progressed, lv_blocked l with
                   | false, _, _ => None
                   | true, true, _ | true, false, None => Some now
                   | true, false, Some since => Some since
                   end;
     lv_nonce := lv_nonce l; lv_suspected := lv_suspected l |}.

(** The earlier of two instants that may be missing. *)
Definition earliest (a b : option Instant) : option Instant :=
  match a, b with
  | Some a, Some b => Some (N.min a b)
  | Some a, None | None, Some a => Some a
  | None, None => None
  end.

Definition stalled (now : Instant) (stall : option Instant) : bool :=
  match stall with Some since => (STALL_AFTER <=? now - since)%N | None => false end.

Definition check (now : Instant) (unacknowledged : option Instant) (l : Liveness) : Liveness * Check :=
  let stall := earliest (lv_blocked l) unacknowledged in
  if stalled now stall then (l, Check_Dead Death_Stalled)
  else
    let silent := (now - lv_received l)%N in
    if (DEAD_AFTER <=? silent)%N then (l, Check_Dead Silent)
    else
      let next := (lv_received l + DEAD_AFTER)%N in
      let next := match stall with Some since => N.min next (since + STALL_AFTER) | None => next end in
      let last := match lv_pinged l with Some pinged => pinged | None => lv_received l end in
      if (PING_AFTER <=? now - last)%N
      then
        let nonce := u64_wrapping_add (lv_nonce l) 1 in
        ({| lv_received := lv_received l; lv_pinged := Some now; lv_blocked := lv_blocked l;
            lv_nonce := nonce; lv_suspected := false |},
         Check_Ping nonce (N.min next (now + PING_AFTER)))
      else
        let next := match lv_pinged l with
                    | Some pinged => if negb (lv_suspected l) then N.min next (pinged + SUSPECT_AFTER) else next
                    | None => next
                    end in
        (l, Check_Live (N.min next (last + PING_AFTER))).

Definition suspect (now : Instant) (l : Liveness) : Liveness * bool :=
  let unanswered := match lv_pinged l with
                    | Some pinged => (SUSPECT_AFTER <=? now - pinged)%N
                    | None => false
                    end in
  if unanswered && negb (lv_suspected l)
  then ({| lv_received := lv_received l; lv_pinged := lv_pinged l; lv_blocked := lv_blocked l;
           lv_nonce := lv_nonce l; lv_suspected := true |}, true)
  else (l, false).

(** ** What a connection does with it *)

(** The calls of one connection; a client also asks whether its path is suspect. *)
Inductive LivenessCall :=
  | Lv_received (now : Instant)
  | Lv_wrote (now : Instant) (progressed pending : bool)
  | Lv_check (now : Instant) (unacknowledged : option Instant)
  | Lv_suspect (now : Instant).

Definition lv_step (l : Liveness) (call : LivenessCall) : Liveness :=
  match call with
  | Lv_received now => received now l
  | Lv_wrote now progressed pending => wrote now progressed pending l
  | Lv_check now unacknowledged => (check now unacknowledged l).1
  | Lv_suspect now => (suspect now l).1
  end.

(** Checks of a connection whose peer stays silent, with the writes between them. *)
Definition silent_call (call : LivenessCall) : bool :=
  match call with Lv_received _ => false | _ => true end.

Lemma silent_received calls l :
  forallb silent_call calls = true → lv_received (fold_left lv_step calls l) = lv_received l.
Proof.
  revert l. induction calls as [|call calls IH]; intros l; simpl; [done|].
  rw andb_true_iff. intros [Hc Hcs]. rw IH //. destruct call; simpl in *; try done.
  - unfold check. by repeat case_match.
  - unfold suspect. by destruct (_ && _).
Qed.

(** Silence is judged exactly: once nothing arrived for fifteen seconds a check
    ends the connection, whatever was written or suspected since; before that a
    check ends it only for a write or an acknowledgement that stalled for ten
    seconds, and otherwise it names a time to check again no later than the
    fifteen seconds, pinging when five passed since the last ping or arrival. *)
Theorem silence_judged l calls now unacknowledged :
  forallb silent_call calls = true →
  let l' := fold_left lv_step calls l in
  let stall := earliest (lv_blocked l') unacknowledged in
  match (check now unacknowledged l').2 with
  | Check_Dead Death_Stalled => ∃ since, stall = Some since ∧ (STALL_AFTER <= now - since)%N
  | Check_Dead Silent => (DEAD_AFTER <= now - lv_received l)%N ∧ stalled now stall = false
  | Check_Live next =>
      (now < lv_received l + DEAD_AFTER)%N ∧ (next <= lv_received l + DEAD_AFTER)%N ∧
      (now - default (lv_received l) (lv_pinged l') < PING_AFTER)%N
  | Check_Ping nonce next =>
      (now < next <= lv_received l + DEAD_AFTER)%N ∧
      (PING_AFTER <= now - default (lv_received l) (lv_pinged l'))%N ∧
      nonce = u64_wrapping_add (lv_nonce l') 1
  end.
Proof.
  intros Hs. cbv zeta. set (l' := fold_left lv_step calls l).
  assert (lv_received l' = lv_received l) as Hr by by apply silent_received. clearbody l'.
  unfold check. set (stall := earliest _ _). rw Hr. destruct (stalled now stall) eqn:Est.
  { destruct stall as [since|]; [|done]. simpl in *. exists since. split; [done|]. by apply N.leb_le. }
  destruct (N.leb_spec DEAD_AFTER (now - lv_received l)) as [Hd|Hd]; [done|].
  assert (∀ since, stall = Some since → (now < since + STALL_AFTER)%N) as Hst.
  { intros since ->. simpl in Est. apply N.leb_gt in Est. unfold STALL_AFTER in *. lia. }
  unfold default. destruct (lv_pinged l') as [pinged|];
    (match goal with |- context [(PING_AFTER <=? ?d)%N] => destruct (N.leb_spec PING_AFTER d) as [Hp|Hp] end; simpl); unfold DEAD_AFTER, PING_AFTER in *;
    destruct stall as [since|]; repeat case_match; try specialize (Hst _ eq_refl);
    repeat split; simpl; lia.
Qed.

(** The time a check names to look again is in the future whenever it pings, and
    otherwise once the path was suspected or the last ping is younger than the two
    and a half seconds after which it is; so a caller that asks [suspect] after a
    check waits. *)
Theorem check_waits l now unacknowledged next :
  (check now unacknowledged l).2 = Check_Live next →
  (∀ pinged, lv_pinged l = Some pinged → lv_suspected l = true ∨ (now < pinged + SUSPECT_AFTER)%N) →
  (now < next)%N.
Proof.
  unfold check. set (stall := earliest _ _). destruct (stalled now stall) eqn:Est; [done|].
  assert (∀ since, stall = Some since → (now < since + STALL_AFTER)%N) as Hst.
  { intros since ->. simpl in Est. apply N.leb_gt in Est. unfold STALL_AFTER in *. lia. }
  destruct (N.leb_spec DEAD_AFTER (now - lv_received l)) as [Hd|Hd]; [done|].
  destruct (lv_pinged l) as [pinged|];
    (match goal with |- context [(PING_AFTER <=? ?d)%N] => destruct (N.leb_spec PING_AFTER d) as [Hp|Hp] end; simpl; [done|]); intros [= <-] Hsus;
    try destruct (Hsus _ eq_refl) as [->|Hsus']; unfold DEAD_AFTER, PING_AFTER in *;
    destruct stall as [since|]; try specialize (Hst _ eq_refl); destruct (lv_suspected l); simpl; lia.
Qed.

(** A server's connection never asks [suspect]. Two and a half seconds after an
    unanswered ping its check names a time already reached and changes nothing, so
    the loop that waits for that time spins until the next ping. *)
Theorem server_check_spins (start : Instant) :
  let pinged := lv_step (liveness_new start) (Lv_check (start + PING_AFTER) None) in
  let now := (start + PING_AFTER + SUSPECT_AFTER)%N in
  (check (start + PING_AFTER) None (liveness_new start)).2 =
    Check_Ping 1 (start + PING_AFTER + PING_AFTER) ∧
  check now None pinged = (pinged, Check_Live now).
Proof.
  cbv zeta. assert (check (start + PING_AFTER) None (liveness_new start) =
    ({| lv_received := start; lv_pinged := Some (start + PING_AFTER)%N; lv_blocked := None; lv_nonce := 1;
        lv_suspected := false |}, Check_Ping 1 (start + PING_AFTER + PING_AFTER))) as Hc.
  { unfold check. simpl. replace (start + PING_AFTER - start)%N with PING_AFTER by lia. simpl.
    replace (N.min _ _) with (start + PING_AFTER + PING_AFTER)%N; [done|].
    unfold DEAD_AFTER, PING_AFTER. lia. }
  simpl. rw Hc. split; [done|]. unfold check. simpl.
  replace (start + PING_AFTER + SUSPECT_AFTER - start)%N with (PING_AFTER + SUSPECT_AFTER)%N by lia.
  replace (start + PING_AFTER + SUSPECT_AFTER - (start + PING_AFTER))%N with SUSPECT_AFTER by lia. simpl.
  do 2 f_equal. unfold DEAD_AFTER, PING_AFTER, SUSPECT_AFTER. lia.
Qed.

Lemma silence_judged_witness :
  (check 15000000000 None
     (fold_left lv_step [Lv_check 5000000000 None; Lv_wrote 6000000000 true true; Lv_suspect 8000000000]
        (liveness_new 0))).2 = Check_Dead Silent ∧ (DEAD_AFTER <= 15000000000 - 0)%N.
Proof.
  pose proof (silence_judged (liveness_new 0)
    [Lv_check 5000000000 None; Lv_wrote 6000000000 true true; Lv_suspect 8000000000]
    15000000000 None eq_refl) as H.
  vm_compute in H. split; [vm_compute; reflexivity|exact (proj1 H)].
Defined.

Lemma check_waits_witness :
  let l := (suspect 7500000000 (check 5000000000 None (liveness_new 0)).1).1 in
  ∃ next, (check 7500000000 None l).2 = Check_Live next ∧ (7500000000 < next)%N.
Proof.
  cbv zeta. eexists. split; [vm_compute; reflexivity|].
  apply (check_waits (suspect 7500000000 (check 5000000000 None (liveness_new 0)).1).1 7500000000 None);
    [vm_compute; reflexivity|]. intros pinged _. left. vm_compute. reflexivity.
Defined.
