(* ===== verification/Messages.v ===== *)
(** * Messages of the SpaceTerm Protocol

    [crates/spaceterm-core/src/protocol/message.rs], [operation.rs], [limits.rs] and
    the input types of [pane.rs]: what the two peers of a connection send, and the
    bounds the encoding cannot express. Payloads of other modules that a connection
    only carries (a screen update, a scrollback page, directory replies) are
    parameters, with the check the connection makes of them. *)
From S2P Require Import Prelude.
From S2P Require Import Text.
From S2P Require Import Facts.
From S2P Require Import HierarchyTypes.
From S2P Require Import DiskJournal.
From S2P Require Import F32.
From S2P Require Import ClientNames.

Abbreviation RequestId := N (only parsing).
Abbreviation Channel := N (only parsing).

(** [u32] arithmetic. *)
Definition u32_wrapping_add (a b : N) : N := ((a + b) mod 4294967296)%N.
Definition u32_checked_add (a b : N) : option N := if (a + b <=? u32_max)%N then Some (a + b)%N else None.

(** ** Limits *)

Section Limits.
#[local] Open Scope N_scope.
Definition HEADER_BYTES : nat := 5.
Definition MAX_FRAME_BYTES : N := 1024 * 1024.
Definition MAX_FRAME_BODY : N := MAX_FRAME_BYTES - 5.
Definition BULK_CHUNK_BYTES : N := 64 * 1024.
Definition MAX_REQUEST_BYTES : N := MAX_FRAME_BODY.
Definition MAX_INPUT_BYTES : N := 64 * 1024.
Definition MAX_INPUT_EVENTS : nat := 32.
Definition MAX_PASTE_CHUNK_BYTES : N := 60 * 1024.
Definition MAX_CONTROL_BYTES : N := 256.
Definition MAX_CLIPBOARD_BYTES : N := 1024 * 1024.
Definition MAX_EFFECT_DONE_BYTES : N := MAX_CLIPBOARD_BYTES + 1024.
Definition MAX_UPDATE_BYTES : N := 16 * 1024 * 1024.
Definition UPDATE_TARGET_BYTES : N := 32 * 1024.
Definition MAX_ACCESSIBILITY_BYTES : N := UPDATE_TARGET_BYTES.
Definition MAX_REPLY_BYTES : N := 16 * 1024 * 1024.
Definition MAX_PANE_EVENT_BYTES : N := MAX_CLIPBOARD_BYTES + 64 * 1024.
Definition MAX_PANE_METADATA_BYTES : N :=
  4 * (2 * MAX_TITLE_CHARS + MAX_TITLE_CHARS + 2 * MAX_DIRECTORY_CHARS + 2 * MAX_MACHINE_CHARS
       + MAX_COMMAND_CHARS).
Definition MAX_PATH_BYTES : N := 4096.
Definition MAX_INVENTORY_BYTES : N :=
  2 * N.of_nat MAX_PANES * (MAX_PANE_METADATA_BYTES + 4 * MAX_PATH_BYTES).
Definition MAX_DEVICE_NAME_BYTES : N := 192.
Definition MAX_STRANDED : N := 256.
Definition MAX_UPDATE_FACTS_BYTES : N := MAX_STRANDED * (32 + 2 + MAX_DEVICE_NAME_BYTES) + 4096.
Definition MAX_REQUESTS_IN_FLIGHT : nat := 64.
Definition MAX_CHANNELS : nat := 128.
Definition MAX_PAGE_ROWS : N := 500.
Definition FRAME_RATES : list N := [60; 120].
Definition MAX_L0_FRAMES : nat := 256.
Definition MAX_L0_BYTES : N := 1024 * 1024.
Definition MAX_L1_MESSAGES : N := 4096.
Definition MAX_L2_MESSAGES : nat := MAX_REQUESTS_IN_FLIGHT.
Definition MAX_L1_BYTES : N := 2 * MAX_REPLY_BYTES.
Definition MAX_L2_BYTES : N := 2 * MAX_REPLY_BYTES.
Definition MAX_KEY_TEXT_BYTES : N := 4096.
Definition MAX_RUN_COMMAND_BYTES : N := 16 * 1024.
Definition MAX_COLUMNS : N := 512.
Definition MAX_ROWS : N := 256.
End Limits.

(** [str::len] against a byte limit. *)
Definition str_within (s : ustring) (limit : N) : bool := (N.of_nat (str_len s) <=? limit)%N.

(** ** Panes *)

Record PaneSize := { ps_columns : N; ps_rows : N; ps_cell_width : N; ps_cell_height : N }.

Definition in_range (low high n : N) : bool := (low <=? n)%N && (n <=? high)%N.

Definition pane_size_validate (size : PaneSize) : result PaneSize CoreError :=
  if negb (in_range 2 MAX_COLUMNS (ps_columns size)) || negb (in_range 2 MAX_ROWS (ps_rows size))
     || negb (in_range 1 256 (ps_cell_width size)) || negb (in_range 1 256 (ps_cell_height size))
  then Err Error_Unsupported else Ok size.

Record Lease := { ls_core : N; ls_session : N; ls_control : N; ls_connection : N }.
Record LineMode := { lm_canonical : bool; lm_echo : bool; lm_signals : bool; lm_shell_foreground : bool }.
Record LineState := { ln_epoch : N; ln_mode : LineMode }.
Inductive SessionEnd := End_AllSessions | End_Exited (code : N) | End_Signaled.
Record PaneTarget := { tg_core : N; tg_session : N }.

Record Key := {
  k_physical : N;
  k_action : N;
  k_logical : ustring;
  k_text : option ustring;
  k_unshifted : option char;
  k_modifiers : N;
  k_consumed : N;
  k_option_as_alt : bool
}.

Inductive FocusTarget :=
  | Focus_Unfocused | Focus_FocusedPane | Focus_Terminal | Focus_PasteConfirmation (id : N).
Inductive PointerPhase := Pointer_Press | Pointer_Motion | Pointer_Release.
Inductive PointerButton := Button_Left | Button_Middle | Button_Right.
Inductive WheelPhase :=
  | GestureStarted | GestureChanged | GestureEnded | GestureCancelled
  | MomentumStarted | MomentumChanged | MomentumEnded | MomentumCancelled.

Record Pointer := {
  po_screen_generation : N;
  po_phase : PointerPhase;
  po_button : option PointerButton;
  po_x : f32;
  po_y : f32;
  po_modifiers : N;
  po_shift_selection : bool
}.

Record Wheel := {
  wh_screen_generation : N;
  wh_horizontal_steps : Z;
  wh_vertical_steps : Z;
  wh_phase : WheelPhase;
  wh_x : f32;
  wh_y : f32;
  wh_modifiers : N;
  wh_shift_selection : bool
}.

Record PasteConfirmation := {
  pa_id : N;
  pa_byte_len : N;
  pa_line_count : N;
  pa_multiline : bool;
  pa_control_bytes : bool;
  pa_closing_fence : bool
}.
Inductive PasteRejection :=
  | Paste_Empty | Paste_TooLarge (limit : N) | Paste_ConfirmationPending | Paste_TerminalUnfocused.
Inductive PasteOutcome :=
  | Paste_Written
  | Paste_ConfirmationRequired (confirmation : PasteConfirmation)
  | Paste_Rejected (rejection : PasteRejection)
  | Paste_Cancelled
  | Paste_Stale.

Inductive Completion := Completion_Denied | Completion_Written | Completion_Text (text : ustring).

(** ** What a connection only carries *)

Class Payloads := {
  Attachment : Type;
  AttachmentClaim : Type;
  PresentationStyle : Type;
  ImageKey : Type;
  SelectionRefs : Type;
  SemanticDemand : Type;
  DirectoryRead : Type;
  DirectoryCreation : Type;
  WorktreeRead : Type;
  Management : Type;
  DirectoryTarget : Type;
  History : Type;
  Page : Type;
  page_validate : Page → bool;
  GraphicsReply : Type;
  DirectoryReply : Type;
  WorktreeReply : Type;
  ManagementReply : Type;
  EffectRequest : Type;
  ScreenUpdate : Type;
  update_validate : ScreenUpdate → bool;
  SemanticUpdate : Type;
  has_tail : SemanticUpdate → bool;
  semantic_validate : SemanticUpdate → bool;
  UpdateFacts : Type;
  facts_validate : UpdateFacts → bool
}.

Section Messages.
Context `{P : Payloads}.

(** ** Requests and replies *)

Record RunId := { run_id : list N }.
Record HistoryPosition := { hp_epoch : N; hp_row : N }.
Inductive RunDoubt := NoExitStatus | NoCommandStart | CmdlineMismatch | IntegrationLost.
Inductive RunState :=
  | Run_Admitted
  | Run_Running
  | Run_Finished (exit_status : option Z) (duration_ms : N)
  | Run_Unconfirmed (doubt : RunDoubt)
  | Run_SessionEnded
  | Run_TakenOver.
Record RunReceipt := {
  rr_run : RunId;
  rr_session : N;
  rr_state : RunState;
  rr_end : option HistoryPosition
}.
Inductive RunRefusal :=
  | NotAtPrompt | InputPending | NoIntegration (first_prompt_pending : bool) | NoBracketedPaste
  | SessionChanged | RunPending | RunRefusal_Capacity.
Inductive RunReply :=
  | RunReply_Admitted (start : HistoryPosition)
  | RunReply_Refused (refusal : RunRefusal)
  | RunReply_Receipt (receipt : RunReceipt).

Record Claim := {
  cl_channel : Channel;
  cl_attachment : Attachment;
  cl_pane : N;
  cl_claim : AttachmentClaim;
  cl_size : option PaneSize;
  cl_style : option PresentationStyle
}.

Inductive Operation :=
  | Op_Claim (claim : Claim)
  | Op_ReleaseAttachment (attachment : Attachment)
  | Op_Release (channel : Channel)
  | Op_Close (channel : Channel)
  | Op_ClearScrollback (channel : Channel)
  | Op_Style (channel : Channel) (style : PresentationStyle)
  | Op_Mutate (sequence : N) (mutation : Mutation)
  | Op_Resolve (sequence : N)
  | Op_ScrollbackPage (channel : Channel) (epoch start rows : N)
  | Op_Graphics (channel : Channel) (image : ImageKey) (offset : N)
  | Op_AccessibilitySelection (channel : Channel) (focus_generation : N) (selection : option SelectionRefs)
  | Op_AccessibilityDemand (channel : Channel) (demand : SemanticDemand)
  | Op_DirectoryRead (read : DirectoryRead)
  | Op_DirectoryCreate (creation : DirectoryCreation)
  | Op_WorktreeRead (read : WorktreeRead)
  | Op_Direct (management : Management)
  | Op_Shutdown
  | Op_Observe (channel : Channel) (pane : N) (session : option N)
  | Op_Run (channel : Channel) (run : RunId) (command : ustring) (session : N)
  | Op_RunStatus (run : RunId)
  | Op_RunAcknowledge (run : RunId)
  | Op_Sessions (fence : bool).

Definition operation_validate (operation : Operation) : bool :=
  match operation with
  | Op_Claim claim =>
      match cl_size claim with
      | Some size => match pane_size_validate size with Ok _ => true | Err _ => false end
      | None => true
      end
  | Op_Run _ _ command _ => str_within command MAX_RUN_COMMAND_BYTES && negb (existsb is_control command)
  | Op_ScrollbackPage _ _ _ rows => in_range 1 MAX_PAGE_ROWS rows
  | _ => true
  end.

Definition cancellable (operation : Operation) : bool :=
  match operation with
  | Op_ScrollbackPage _ _ _ _ | Op_Graphics _ _ _ | Op_DirectoryRead _ | Op_DirectoryCreate _
  | Op_WorktreeRead _ => true
  | _ => false
  end.

Record Takeover := {
  tk_session_ended : option SessionEnd;
  tk_target : PaneTarget;
  tk_controller : Controller
}.
Record Restored := {
  rs_fresh : bool;
  rs_session_ended : option SessionEnd;
  rs_recovery : option DirectoryTarget;
  rs_directory_unavailable : bool;
  rs_core : N;
  rs_workspace : N;
  rs_tab : N;
  rs_pane : N
}.
Inductive ClaimReply :=
  | Claim_Attached (lease : Lease)
  | Claim_Takeover (takeover : Takeover)
  | Claim_Restored (restored : Restored).
Inductive SessionState := NotStarted | Session_Ended (ended : SessionEnd).
Inductive ObserveReply :=
  | Observing (session : N) (history : History)
  | NoSession (state : SessionState).

Inductive ReplyBody :=
  | Reply_Done
  | Reply_Claim (reply : ClaimReply)
  | Reply_Outcome (outcome : RetainedOutcome)
  | Reply_Page (page : Page)
  | Reply_Graphics (reply : GraphicsReply)
  | Reply_Directory (reply : DirectoryReply)
  | Reply_Worktree (reply : WorktreeReply)
  | Reply_Direct (reply : result ManagementReply DirectError)
  | Reply_Observe (reply : ObserveReply)
  | Reply_Run (reply : RunReply)
  | Reply_Sessions (sessions : list N).

Definition bulk (body : ReplyBody) : bool :=
  match body with Reply_Page _ | Reply_Graphics _ => true | _ => false end.

Definition body_validate (body : ReplyBody) : bool :=
  match body with Reply_Page page => page_validate page | _ => true end.

(** ** Client messages *)

Record Request := { rq_id : RequestId; rq_operation : Operation }.

Inductive InputEvent :=
  | Input_Focus (target : FocusTarget)
  | Input_Key (key : Key)
  | Input_Pointer (pointer : Pointer)
  | Input_Wheel (wheel : Wheel)
  | Input_Paste (text : ustring) (last : bool)
  | Input_ResolvePaste (id : N) (confirm : bool)
  | Input_CopyOrForward (modifiers : N)
  | Input_Resize (size : PaneSize).

Record Input := {
  in_channel : Channel;
  in_serial : N;
  in_generation : N;
  in_events : list InputEvent
}.

Record FrameAck := { fa_channel : Channel; fa_frame : N }.
Record AccessibilityAck := { aa_channel : Channel; aa_demand_generation : N; aa_revision : N }.
Record View := { vw_channel : Channel; vw_visible : bool; vw_max_hz : N }.
Record EffectDone := {
  ed_channel : Channel;
  ed_generation : N;
  ed_effect : N;
  ed_completion : Completion
}.
Record Acknowledge := { ak_sequence : N }.
Record Cancel := { ca_id : RequestId }.
Record Ping := { pi_nonce : N }.
Record Pong := { po_nonce : N }.

Inductive ClientMessage :=
  | Client_Request (request : Request)
  | Client_Input (input : Input)
  | Client_FrameAck (ack : FrameAck)
  | Client_AccessibilityAck (ack : AccessibilityAck)
  | Client_View (view : View)
  | Client_EffectDone (done : EffectDone)
  | Client_Acknowledge (acknowledge : Acknowledge)
  | Client_Cancel (cancel : Cancel)
  | Client_Ping (ping : Ping)
  | Client_Pong (pong : Pong).

Definition event_validate (index : nat) (event : InputEvent) : bool :=
  match event with
  | Input_Focus _ => index =? 0
  | Input_Key key =>
      str_within (k_logical key) MAX_KEY_TEXT_BYTES
      && match k_text key with Some text => str_within text MAX_KEY_TEXT_BYTES | None => true end
  | Input_Paste text _ => str_within text MAX_PASTE_CHUNK_BYTES
  | Input_Resize size => match pane_size_validate size with Ok _ => true | Err _ => false end
  | Input_Pointer _ | Input_Wheel _ | Input_ResolvePaste _ _ | Input_CopyOrForward _ => true
  end.

Fixpoint events_validate (index : nat) (events : list InputEvent) : bool :=
  match events with
  | [] => true
  | event :: events => event_validate index event && events_validate (S index) events
  end.

Definition input_validate (input : Input) : bool :=
  negb (in_serial input =? 0)%N && negb (is_empty (in_events input))
  && (length (in_events input) <=? MAX_INPUT_EVENTS) && events_validate 0 (in_events input).

(** [ClientMessage::validate]; the one error is a protocol violation. *)
Definition client_validate (message : ClientMessage) : bool :=
  match message with
  | Client_Request request => operation_validate (rq_operation request)
  | Client_Input input => input_validate input
  | Client_View view => existsb (N.eqb (vw_max_hz view)) FRAME_RATES
  | Client_EffectDone done =>
      match ed_completion done with
      | Completion_Text text => str_within text MAX_CLIPBOARD_BYTES
      | _ => true
      end
  | Client_FrameAck _ | Client_AccessibilityAck _ | Client_Acknowledge _ | Client_Cancel _
  | Client_Ping _ | Client_Pong _ => true
  end.

(** ** Server messages *)

Inductive Fatal :=
  | Fatal_ProtocolViolation | Fatal_Capacity | Fatal_Stalled | Fatal_Revoked | Fatal_Stopping
  | Fatal_Incompatible | Fatal_Internal.

Record Reply := { rp_id : RequestId; rp_result : result ReplyBody Refusal }.
Record Frame := {
  fr_channel : Channel;
  fr_frame : N;
  fr_base : option N;
  fr_input : N;
  fr_update : ScreenUpdate
}.
Record AccessibilityMessage := { am_channel : Channel; am_update : SemanticUpdate }.

Inductive InputOutcome := Input_Discarded (refusal : Refusal) | Input_Settled (outcome : PasteOutcome).
Inductive PaneEvent :=
  | Event_Takeover (takeover : Takeover)
  | Event_Ended
  | Event_SessionEnded
  | Event_Failed
  | Event_DirectoryUnavailable
  | Event_Effect (request : EffectRequest)
  | Event_Input (serial : N) (outcome : InputOutcome)
  | Event_Line (line : LineState)
  | Event_Progress (input output_bytes : N)
  | Event_RunFinished (receipt : RunReceipt).

(** [PaneEvent::last]. *)
Definition event_last (event : PaneEvent) : bool :=
  match event with
  | Event_Ended | Event_SessionEnded | Event_Failed | Event_DirectoryUnavailable | Event_Takeover _ => true
  | _ => false
  end.

Record PaneMessage := { pm_channel : Channel; pm_event : PaneEvent }.

Inductive CoreMessage :=
  | Core_Reply (reply : Reply)
  | Core_Frame (frame : Frame)
  | Core_Accessibility (message : AccessibilityMessage)
  | Core_Pane (message : PaneMessage)
  | Core_Inventory (revision : InventoryRevision Inventory)
  | Core_UpdateFacts (facts : UpdateFacts)
  | Core_Ping (ping : Ping)
  | Core_Pong (pong : Pong)
  | Core_Goodbye (fatal : Fatal).

Definition pane_validate (pane : Pane) : bool :=
  let observers := p_observers pane in
  (length (ob_names observers) <=? MAX_OBSERVER_NAMES)
  && (negb (is_empty (ob_names observers)) || (ob_others observers =? 0)%N)
  && match p_presentation pane with
     | Some snapshot => match snapshot_validate snapshot with Ok _ => true | Err _ => false end
     | None => true
     end.

Fixpoint panes_validate (count : nat) (panes : list Pane) : bool :=
  match panes with
  | [] => true
  | pane :: panes =>
      let count := S count in
      (count <=? MAX_PANES) && pane_validate pane && panes_validate count panes
  end.

(** [CoreMessage::validate]. *)
Definition core_validate (message : CoreMessage) : bool :=
  match message with
  | Core_Frame frame =>
      match fr_base frame with Some base => (base <? fr_frame frame)%N | None => true end
      && update_validate (fr_update frame)
  | Core_Accessibility message => semantic_validate (am_update message)
  | Core_Reply reply =>
      match rp_result reply with Ok body => body_validate body | Err _ => true end
  | Core_Inventory revision => panes_validate 0 (all_panes (i_workspaces (ir_inventory revision)))
  | Core_UpdateFacts facts => facts_validate facts
  | Core_Pane _ | Core_Ping _ | Core_Pong _ | Core_Goodbye _ => true
  end.
End Messages.
