(* ===== verification/Wire.v ===== *)
(** * Frames on the wire

    [crates/spaceterm-core/src/protocol/frame.rs]: messages as frames
    [len:u32be | kind:u8 | body], the reader that cuts a byte stream into frames and
    the assembler that joins continued frames into messages. Bytes are [N]; lengths
    of bodies are compared as [N]. The postcard encoding of a payload is the
    interface [Postcard]. *)
From S2P Require Import Prelude.
From S2P Require Import Text.
From S2P Require Import Messages.
From S2P Require Import DiskJournal.
From S2P Require Import HierarchyTypes.

Abbreviation byte := N (only parsing).

(** [postcard::to_extend] and [postcard::take_from_bytes] of one type. *)
Class Postcard (A : Type) := {
  to_bytes : A → option (list byte);
  take_from_bytes : list byte → option (A * list byte)
}.

(** What postcard documents: a value is read back, leaving the bytes behind it. *)
Class PostcardLaw (A : Type) `{Postcard A} :=
  take_to_bytes : ∀ (a : A) bytes rest,
    to_bytes a = Some bytes → take_from_bytes (bytes ++ rest) = Some (a, rest).

Definition byte_len (bytes : list byte) : N := N.of_nat (length bytes).

(** [Result::map]. *)
Definition result_map {A B E} (f : A → B) (r : result A E) : result B E :=
  match r with Ok a => Ok (f a) | Err error => Err error end.

(** ** Kinds *)

Definition MORE : N := 128.

Inductive Kind :=
  | Kind_Request | Kind_Input | Kind_FrameAck | Kind_View | Kind_EffectDone | Kind_Acknowledge
  | Kind_Cancel | Kind_ClientPing | Kind_ClientPong | Kind_AccessibilityAck
  | Kind_Reply | Kind_BulkReply | Kind_Frame | Kind_Pane | Kind_Inventory | Kind_CorePing
  | Kind_CorePong | Kind_Goodbye | Kind_Accessibility | Kind_UpdateFacts.
#[export] Instance Kind_eq_dec : EqDecision Kind.
Proof. solve_decision. Defined.

(** [kind as u8]. *)
Definition kind_byte (kind : Kind) : byte :=
  match kind with
  | Kind_Request => 1 | Kind_Input => 2 | Kind_FrameAck => 3 | Kind_View => 4 | Kind_EffectDone => 5
  | Kind_Acknowledge => 6 | Kind_Cancel => 7 | Kind_ClientPing => 8 | Kind_ClientPong => 9
  | Kind_AccessibilityAck => 10
  | Kind_Reply => 65 | Kind_BulkReply => 66 | Kind_Frame => 67 | Kind_Pane => 68 | Kind_Inventory => 69
  | Kind_CorePing => 70 | Kind_CorePong => 71 | Kind_Goodbye => 72 | Kind_Accessibility => 73
  | Kind_UpdateFacts => 74
  end.

Definition kind_from_byte (b : byte) : option Kind :=
  match N.land b (255 - MORE) with
  | 1 => Some Kind_Request | 2 => Some Kind_Input | 3 => Some Kind_FrameAck | 4 => Some Kind_View
  | 5 => Some Kind_EffectDone | 6 => Some Kind_Acknowledge | 7 => Some Kind_Cancel
  | 8 => Some Kind_ClientPing | 9 => Some Kind_ClientPong | 10 => Some Kind_AccessibilityAck
  | 65 => Some Kind_Reply | 66 => Some Kind_BulkReply | 67 => Some Kind_Frame | 68 => Some Kind_Pane
  | 69 => Some Kind_Inventory | 70 => Some Kind_CorePing | 71 => Some Kind_CorePong
  | 72 => Some Kind_Goodbye | 73 => Some Kind_Accessibility | 74 => Some Kind_UpdateFacts
  | _ => None
  end%N.

Definition from_client (kind : Kind) : bool := (kind_byte kind <? 64)%N.

Definition max_message (kind : Kind) : N :=
  match kind with
  | Kind_Request => MAX_REQUEST_BYTES
  | Kind_Input => MAX_INPUT_BYTES
  | Kind_EffectDone => MAX_EFFECT_DONE_BYTES
  | Kind_FrameAck | Kind_AccessibilityAck | Kind_View | Kind_Acknowledge | Kind_Cancel | Kind_ClientPing
  | Kind_ClientPong | Kind_CorePing | Kind_CorePong | Kind_Goodbye => MAX_CONTROL_BYTES
  | Kind_Reply | Kind_BulkReply => MAX_REPLY_BYTES
  | Kind_Frame => MAX_UPDATE_BYTES
  | Kind_Accessibility => MAX_ACCESSIBILITY_BYTES
  | Kind_Pane => MAX_PANE_EVENT_BYTES
  | Kind_Inventory => MAX_INVENTORY_BYTES
  | Kind_UpdateFacts => MAX_UPDATE_FACTS_BYTES
  end.

Definition max_frame_body (kind : Kind) : N :=
  match kind with Kind_BulkReply => BULK_CHUNK_BYTES | _ => MAX_FRAME_BODY end.

(** ** Frames *)

Inductive DecodeError := Oversized | UnknownKind | WrongDirection | Malformed | OutOfBounds.
Inductive EncodeError := TooLarge | Unencodable.

(** [From<DecodeError> for Fatal]. *)
Definition fatal_of_decode (_ : DecodeError) : Fatal := Fatal_ProtocolViolation.

Record RawFrame := { rf_kind : byte; rf_body : list byte }.

Definition u32_to_be_bytes (n : N) : list byte :=
  [n / 16777216 mod 256; n / 65536 mod 256; n / 256 mod 256; n mod 256]%N.
Definition u32_from_be_bytes (a b c d : byte) : N := (a * 16777216 + b * 65536 + c * 256 + d)%N.

(** [parse_prefix]: the frame at the front of the bytes and how many it took. *)
Definition parse_prefix (bytes : list byte) : result (option (RawFrame * nat)) DecodeError :=
  match bytes with
  | b0 :: b1 :: b2 :: b3 :: b4 :: _ =>
      let len := u32_from_be_bytes b0 b1 b2 b3 in
      if (len =? 0)%N then Err Malformed
      else match kind_from_byte b4 with
      | None => Err UnknownKind
      | Some kind =>
          if (max_frame_body kind <? len - 1)%N then Err Oversized
          else
            let end_ := 4 + N.to_nat len in
            if end_ <=? length bytes
            then Ok (Some ({| rf_kind := b4; rf_body := drop HEADER_BYTES (take end_ bytes) |}, end_))
            else Ok None
      end
  | _ => Ok None
  end.

(** [RawFrame::parse]. *)
Definition raw_parse (bytes : list byte) : result RawFrame DecodeError :=
  let? found := parse_prefix bytes in
  match found with
  | None => Err Malformed
  | Some (frame, used) => if used =? length bytes then Ok frame else Err Malformed
  end.

Definition raw_kind (frame : RawFrame) : result Kind DecodeError :=
  ok_or (kind_from_byte (rf_kind frame)) UnknownKind.
Definition continued (frame : RawFrame) : bool := negb (N.land (rf_kind frame) MORE =? 0)%N.

(** ** Encoding *)

Record WireMessage := { wm_kind : Kind; wm_frames : list (list byte) }.

(** [write_header]: the length is cut to a [u32]. *)
Definition write_header (kind : byte) (body : N) : list byte :=
  u32_to_be_bytes ((body + 1) mod 4294967296) ++ [kind].

Definition frame_of (kind : byte) (part : list byte) : list byte :=
  write_header kind (byte_len part) ++ part.

(** [slice::chunks] of a positive size. *)
Fixpoint chunks_fuel (fuel size : nat) (l : list byte) : list (list byte) :=
  match fuel, l with
  | S fuel, _ :: _ => take size l :: chunks_fuel fuel size (drop size l)
  | _, _ => []
  end.
Definition chunks (size : nat) (l : list byte) : list (list byte) := chunks_fuel (length l) size l.

(** Every part but the last is marked as continued. *)
Fixpoint encode_parts (kind : byte) (parts : list (list byte)) : list (list byte) :=
  match parts with
  | [] => []
  | part :: parts =>
      frame_of (if is_empty parts then kind else N.lor kind MORE) part :: encode_parts kind parts
  end.

Definition encode_bytes (kind : Kind) (body : list byte) : result WireMessage EncodeError :=
  if (max_message kind <? byte_len body)%N then Err TooLarge
  else if (byte_len body <=? max_frame_body kind)%N
  then Ok {| wm_kind := kind; wm_frames := [frame_of (kind_byte kind) body] |}
  else Ok {| wm_kind := kind;
             wm_frames := encode_parts (kind_byte kind) (chunks (N.to_nat (max_frame_body kind)) body) |}.

Definition encode {A} `{Postcard A} (kind : Kind) (value : A) : result WireMessage EncodeError :=
  let? body := ok_or (to_bytes value) Unencodable in encode_bytes kind body.

(** ** Reading frames *)

Record FrameReader := { fd_buffer : list byte; fd_read : nat }.
Definition reader_default : FrameReader := {| fd_buffer := []; fd_read := 0 |}.

Definition feed (bytes : list byte) (r : FrameReader) : FrameReader :=
  let r := if 0 <? fd_read r then {| fd_buffer := drop (fd_read r) (fd_buffer r); fd_read := 0 |} else r in
  {| fd_buffer := fd_buffer r ++ bytes; fd_read := fd_read r |}.

Definition next_frame (r : FrameReader) : FrameReader * result (option RawFrame) DecodeError :=
  match parse_prefix (drop (fd_read r) (fd_buffer r)) with
  | Err error => (r, Err error)
  | Ok None => (r, Ok None)
  | Ok (Some (frame, used)) =>
      ({| fd_buffer := fd_buffer r; fd_read := fd_read r + used |}, Ok (Some frame))
  end.

Definition partial (r : FrameReader) : bool := fd_read r <? length (fd_buffer r).

(** ** Joining frames *)

Abbreviation Assembler := (list (Kind * list byte)) (only parsing).

Definition join (frame : RawFrame) (client : bool) (a : Assembler)
    : Assembler * result (option (Kind * list byte)) DecodeError :=
  match raw_kind frame with
  | Err error => (a, Err error)
  | Ok kind =>
      if negb (eqb (from_client kind) client) then (a, Err WrongDirection)
      else if (max_frame_body kind <? byte_len (rf_body frame))%N then (a, Err Oversized)
      else
        let finish a body :=
          if (max_message kind <? byte_len body)%N then (a, Err Oversized) else (a, Ok (Some (kind, body))) in
        match vposition (λ open, bool_decide (open.1 = kind)) a with
        | Some index =>
            match a !! index with
            | None => (a, Ok None)
            | Some (_, open) =>
                if (max_message kind <? byte_len open + byte_len (rf_body frame))%N
                then (a, Err Oversized)
                else
                  let body := open ++ rf_body frame in
                  if continued frame then (<[index := (kind, body)]> a, Ok None)
                  else finish (swap_remove index a) body
            end
        | None =>
            if continued frame then (a ++ [(kind, rf_body frame)], Ok None)
            else finish a (rf_body frame)
        end
  end.

Definition decode {A} `{Postcard A} (body : list byte) : result A DecodeError :=
  match take_from_bytes body with Some (value, []) => Ok value | _ => Err Malformed end.

(** ** The messages of both directions *)

Section Codec.
Context `{P : Payloads}.
Context `{Postcard Request, Postcard Input, Postcard FrameAck, Postcard AccessibilityAck, Postcard View,
  Postcard EffectDone, Postcard Acknowledge, Postcard Cancel, Postcard Ping, Postcard Pong,
  Postcard Reply, Postcard Frame, Postcard AccessibilityMessage, Postcard PaneMessage,
  Postcard (InventoryRevision Inventory), Postcard UpdateFacts, Postcard Fatal}.

Definition encode_client (message : ClientMessage) : result WireMessage EncodeError :=
  match message with
  | Client_Request value => encode Kind_Request value
  | Client_Input value => encode Kind_Input value
  | Client_FrameAck value => encode Kind_FrameAck value
  | Client_AccessibilityAck value => encode Kind_AccessibilityAck value
  | Client_View value => encode Kind_View value
  | Client_EffectDone value => encode Kind_EffectDone value
  | Client_Acknowledge value => encode Kind_Acknowledge value
  | Client_Cancel value => encode Kind_Cancel value
  | Client_Ping value => encode Kind_ClientPing value
  | Client_Pong value => encode Kind_ClientPong value
  end.

Definition reply_bulk (reply : Reply) : bool :=
  match rp_result reply with Ok body => bulk body | Err _ => false end.

Definition encode_core (message : CoreMessage) : result WireMessage EncodeError :=
  match message with
  | Core_Reply value => encode (if reply_bulk value then Kind_BulkReply else Kind_Reply) value
  | Core_Frame value => encode Kind_Frame value
  | Core_Accessibility value => encode Kind_Accessibility value
  | Core_Pane value => encode Kind_Pane value
  | Core_Inventory value => encode Kind_Inventory value
  | Core_UpdateFacts value => encode Kind_UpdateFacts value
  | Core_Ping value => encode Kind_CorePing value
  | Core_Pong value => encode Kind_CorePong value
  | Core_Goodbye value => encode Kind_Goodbye value
  end.

Definition decode_client (kind : Kind) (body : list byte) : result ClientMessage DecodeError :=
  match kind with
  | Kind_Request => result_map Client_Request (decode body)
  | Kind_Input => result_map Client_Input (decode body)
  | Kind_FrameAck => result_map Client_FrameAck (decode body)
  | Kind_AccessibilityAck => result_map Client_AccessibilityAck (decode body)
  | Kind_View => result_map Client_View (decode body)
  | Kind_EffectDone => result_map Client_EffectDone (decode body)
  | Kind_Acknowledge => result_map Client_Acknowledge (decode body)
  | Kind_Cancel => result_map Client_Cancel (decode body)
  | Kind_ClientPing => result_map Client_Ping (decode body)
  | Kind_ClientPong => result_map Client_Pong (decode body)
  | _ => Err WrongDirection
  end.

Definition decode_core (kind : Kind) (body : list byte) : result CoreMessage DecodeError :=
  match kind with
  | Kind_Reply | Kind_BulkReply => result_map Core_Reply (decode body)
  | Kind_Frame => result_map Core_Frame (decode body)
  | Kind_Accessibility => result_map Core_Accessibility (decode body)
  | Kind_Pane => result_map Core_Pane (decode body)
  | Kind_Inventory => result_map Core_Inventory (decode body)
  | Kind_UpdateFacts => result_map Core_UpdateFacts (decode body)
  | Kind_CorePing => result_map Core_Ping (decode body)
  | Kind_CorePong => result_map Core_Pong (decode body)
  | Kind_Goodbye => result_map Core_Goodbye (decode body)
  | _ => Err WrongDirection
  end.

(** [Assembler::client] and [Assembler::core]. *)
Definition assemble {M} (client : bool) (decode : Kind → list byte → result M DecodeError)
    (validate : M → bool) (frame : RawFrame) (a : Assembler)
    : Assembler * result (option M) DecodeError :=
  match join frame client a with
  | (a, Err error) => (a, Err error)
  | (a, Ok None) => (a, Ok None)
  | (a, Ok (Some (kind, body))) =>
      (a, match decode kind body with
          | Err error => Err error
          | Ok message => if validate message then Ok (Some message) else Err OutOfBounds
          end)
  end.

Definition assemble_client := assemble true decode_client client_validate.
Definition assemble_core := assemble false decode_core core_validate.
End Codec.
