(* ===== verification/WireTheorems.v ===== *)
(** * What one peer writes, the other reads *)
From S2P Require Import Prelude.
From S2P Require Import Text.
From S2P Require Import DiskJournal.
From S2P Require Import HierarchyTypes.
From S2P Require Import Messages.
From S2P Require Import Wire.

(** ** Single frames *)

Lemma kind_from_kind_byte k more :
  kind_from_byte (if more : bool then N.lor (kind_byte k) MORE else kind_byte k) = Some k.
Proof. by destruct k, more. Qed.

Lemma continued_kind_byte k more part :
  continued {| rf_kind := if more : bool then N.lor (kind_byte k) MORE else kind_byte k; rf_body := part |} = more.
Proof. by destruct k, more. Qed.

Lemma max_frame_body_small k : (max_frame_body k < 4294967295)%N.
Proof. by destruct k. Qed.

Lemma max_frame_body_pos k : 0 < N.to_nat (max_frame_body k).
Proof. assert (0 < max_frame_body k)%N by (by destruct k). lia. Qed.

Lemma u32_be_round n :
  (n < 4294967296)%N →
  (n / 16777216 mod 256 * 16777216 + n / 65536 mod 256 * 65536 + n / 256 mod 256 * 256 + n mod 256 = n)%N.
Proof.
  intros Hn. replace 16777216%N with (256 * (256 * 256))%N by done. replace 65536%N with (256 * 256)%N by done.
  rw -!N.Div0.div_div.
  pose proof (N.div_mod n 256 ltac:(done)). pose proof (N.div_mod (n / 256) 256 ltac:(done)).
  pose proof (N.div_mod (n / 256 / 256) 256 ltac:(done)).
  assert (n / 256 / 256 / 256 < 256)%N as Hs.
  { rw !N.Div0.div_div. apply N.Div0.div_lt_upper_bound. simpl. lia. }
  rw (N.mod_small _ _ Hs). lia.
Qed.

(** A frame some writer builds: a known kind and a body within its limit. *)
Definition written_frame (kb : byte) (k : Kind) (part : list byte) : Prop :=
  kind_from_byte kb = Some k ∧ (byte_len part <= max_frame_body k)%N.

Lemma frame_of_length kb part : length (frame_of kb part) = 5 + length part.
Proof. done. Qed.

Lemma parse_written kb k part rest :
  written_frame kb k part →
  parse_prefix (frame_of kb part ++ rest) =
    Ok (Some ({| rf_kind := kb; rf_body := part |}, length (frame_of kb part))).
Proof.
  intros [Hk Hp]. pose proof (max_frame_body_small k) as Hs.
  unfold frame_of, write_header, u32_to_be_bytes. cbn [app parse_prefix].
  rw (N.mod_small (byte_len part + 1)); [lia|]. unfold u32_from_be_bytes. rw u32_be_round; [lia|].
  destruct (N.eqb_spec (byte_len part + 1) 0); [lia|]. rw Hk N.add_sub.
  destruct (N.ltb_spec (max_frame_body k) (byte_len part)); [lia|].
  replace (4 + N.to_nat (byte_len part + 1)) with (5 + length part) by (unfold byte_len; lia).
  cbn [length]. rw length_app. destruct (Nat.leb_spec (5 + length part) (S (S (S (S (S (length part + length rest)))))));
    [|lia].
  do 4 f_equal. cbn [Nat.add take drop HEADER_BYTES]. by rw take_app_length.
Qed.

(** A frame that has only partly arrived is waited for. *)
Lemma parse_waiting kb k part p q :
  written_frame kb k part → frame_of kb part = p ++ q → q ≠ [] → parse_prefix p = Ok None.
Proof.
  intros [Hk Hp] E Hq. pose proof (max_frame_body_small k) as Hs.
  pose proof (f_equal length E) as Hl. rw frame_of_length length_app in Hl.
  assert (0 < length q) by (destruct q; [done|simpl; lia]).
  unfold frame_of, write_header, u32_to_be_bytes in E. cbn [app] in E.
  destruct p as [|b0 [|b1 [|b2 [|b3 [|b4 p]]]]]; try done. cbn [app] in E. injection E as E0 E1 E2 E3 E4 _.
  cbn [parse_prefix]. rw -E0 -E1 -E2 -E3 -E4 (N.mod_small (byte_len part + 1)); [lia|].
  unfold u32_from_be_bytes. rw u32_be_round; [lia|].
  destruct (N.eqb_spec (byte_len part + 1) 0); [lia|]. rw Hk N.add_sub.
  destruct (N.ltb_spec (max_frame_body k) (byte_len part)); [lia|].
  match goal with |- context [?a <=? ?b] => destruct (Nat.leb_spec a b) as [Hle|]; [|done] end.
  simpl in *. unfold byte_len in *. lia.
Qed.

(** ** Streams of frames *)

Record Written := { wr_kind : Kind; wr_byte : byte; wr_part : list byte }.
Definition wr_ok (w : Written) : Prop := written_frame (wr_byte w) (wr_kind w) (wr_part w).
Definition wr_bytes (w : Written) : list byte := frame_of (wr_byte w) (wr_part w).
Definition wr_raw (w : Written) : RawFrame := {| rf_kind := wr_byte w; rf_body := wr_part w |}.

(** Every frame that has arrived, as a carrier takes them from its reader. *)
Fixpoint read_frames (fuel : nat) (r : FrameReader) : FrameReader * result (list RawFrame) DecodeError :=
  match fuel with
  | 0 => (r, Ok [])
  | S fuel =>
      match next_frame r with
      | (r, Err error) => (r, Err error)
      | (r, Ok None) => (r, Ok [])
      | (r, Ok (Some frame)) =>
          let '(r, frames) := read_frames fuel r in (r, result_map (cons frame) frames)
      end
  end.

Definition pending (r : FrameReader) : list byte := drop (fd_read r) (fd_buffer r).

Lemma pending_feed bytes r : fd_read r ≤ length (fd_buffer r) → pending (feed bytes r) = pending r ++ bytes.
Proof.
  intros Hle. unfold feed, pending. destruct (Nat.ltb_spec 0 (fd_read r)) as [Hr|Hr]; simpl; [done|].
  by replace (fd_read r) with 0 by lia.
Qed.

Lemma next_frame_written w rest r :
  wr_ok w → fd_read r ≤ length (fd_buffer r) → pending r = wr_bytes w ++ rest →
  ∃ r', next_frame r = (r', Ok (Some (wr_raw w))) ∧ pending r' = rest ∧ fd_read r' ≤ length (fd_buffer r').
Proof.
  intros Hw Hr Hp. unfold next_frame. fold (pending r). rw Hp (parse_written _ _ _ _ Hw).
  eexists. split; [done|]. unfold pending in *. simpl. split.
  - rw -drop_drop Hp. apply drop_app_length.
  - apply (f_equal length) in Hp. rw length_drop length_app in Hp. unfold wr_bytes in Hp.
    rw frame_of_length in Hp. simpl in *. lia.
Qed.

Lemma next_frame_waiting r : parse_prefix (pending r) = Ok None → next_frame r = (r, Ok None).
Proof. unfold next_frame, pending. by intros ->. Qed.

Lemma read_frames_spec ws : ∀ fuel r rest,
  Forall wr_ok ws → fd_read r ≤ length (fd_buffer r) → length (pending r) < fuel →
  pending r ++ rest = concat (map wr_bytes ws) →
  ∃ r' done ws', ws = done ++ ws' ∧ read_frames fuel r = (r', Ok (map wr_raw done)) ∧
    fd_read r' ≤ length (fd_buffer r') ∧ pending r' ++ rest = concat (map wr_bytes ws') ∧
    parse_prefix (pending r') = Ok None.
Proof.
  induction ws as [|w ws IH]; intros fuel r rest Hok Hr Hf E; destruct fuel as [|fuel]; try lia.
  - simpl in E. apply app_nil in E as [Hp ->]. exists r, [], []. split; [done|].
    assert (parse_prefix (pending r) = Ok None) as Hn by by rw Hp.
    cbn [read_frames]. rw (next_frame_waiting _ Hn). split; [done|]. split; [done|]. by rw Hp.
  - apply Forall_cons in Hok as [Hw Hok]. cbn [map concat] in E.
    destruct (decide (length (wr_bytes w) ≤ length (pending r))) as [Hle|Hgt].
    + assert (∃ p, pending r = wr_bytes w ++ p) as (p & Hp).
      { exists (drop (length (wr_bytes w)) (pending r)). rw -{1}(take_drop (length (wr_bytes w)) (pending r)).
        f_equal. apply (f_equal (take (length (wr_bytes w)))) in E. by rw take_app_le // take_app_length in E. }
      destruct (next_frame_written w p r Hw Hr Hp) as (r1 & Hn & Hp1 & Hr1).
      rw Hp -app_assoc in E. apply app_inv_head in E.
      destruct (IH fuel r1 rest Hok Hr1) as (r' & done & ws' & -> & Hread & H1 & H2 & H3).
      { rw Hp1. apply (f_equal length) in Hp. rw length_app in Hp. unfold wr_bytes in Hp.
        rw frame_of_length in Hp. lia. }
      { by rw Hp1. }
      exists r', (w :: done), ws'. split; [done|]. cbn [read_frames]. rw Hn Hread. done.
    + assert (∃ q, wr_bytes w = pending r ++ q ∧ q ≠ []) as (q & Hq & Hne).
      { exists (drop (length (pending r)) (wr_bytes w)). split.
        - rw -{1}(take_drop (length (pending r)) (wr_bytes w)). f_equal.
          apply (f_equal (take (length (pending r)))) in E. rw take_app_length take_app_le in E; [lia|done].
        - intros Hd. apply (f_equal length) in Hd. rw length_drop in Hd. change (length (@nil byte)) with 0 in Hd. lia. }
      assert (parse_prefix (pending r) = Ok None) as Hn by (eapply parse_waiting; [exact Hw|exact Hq|done]).
      exists r, [], (w :: ws). split; [done|]. cbn [read_frames]. by rw (next_frame_waiting _ Hn).
Qed.

(** ** The frames of a message *)

Fixpoint written_parts (k : Kind) (parts : list (list byte)) : list Written :=
  match parts with
  | [] => []
  | part :: parts =>
      {| wr_kind := k;
         wr_byte := if negb (is_empty parts) then N.lor (kind_byte k) MORE else kind_byte k;
         wr_part := part |} :: written_parts k parts
  end.

Lemma encode_parts_written k parts : encode_parts (kind_byte k) parts = map wr_bytes (written_parts k parts).
Proof.
  induction parts as [|part parts IH]; simpl; [done|]. rw IH. unfold wr_bytes. simpl.
  by destruct parts.
Qed.

Lemma written_parts_ok k parts :
  Forall (λ part, byte_len part <= max_frame_body k)%N parts → Forall wr_ok (written_parts k parts).
Proof.
  induction 1 as [|part parts Hp _ IH]; simpl; [done|]. constructor; [|done].
  split; [apply kind_from_kind_byte|done].
Qed.

Lemma chunks_fuel_spec size l : 0 < size → ∀ fuel, length l ≤ fuel →
  concat (chunks_fuel fuel size l) = l ∧ Forall (λ part, length part ≤ size) (chunks_fuel fuel size l) ∧
  (l ≠ [] → chunks_fuel fuel size l ≠ []).
Proof.
  intros Hs fuel. revert l. induction fuel as [|fuel IH]; intros l Hl; simpl.
  - destruct l; [done|simpl in Hl; lia].
  - destruct l as [|x l]; [done|]. destruct (IH (drop size (x :: l))) as (E & Hall & _).
    { rw length_drop. simpl in *. lia. }
    cbn [concat]. rw E take_drop. split; [done|]. split; [|done]. constructor; [|done].
    rw length_take. lia.
Qed.

(** What [encode_bytes] produces: parts within the limits that join to the body. *)
Lemma encode_bytes_spec k body wm :
  encode_bytes k body = Ok wm →
  wm_kind wm = k ∧ (byte_len body <= max_message k)%N ∧
  ∃ parts, parts ≠ [] ∧ concat parts = body ∧ Forall (λ part, byte_len part <= max_frame_body k)%N parts ∧
    wm_frames wm = map wr_bytes (written_parts k parts).
Proof.
  unfold encode_bytes. destruct (N.ltb_spec (max_message k) (byte_len body)) as [|Hm]; [done|].
  destruct (N.leb_spec (byte_len body) (max_frame_body k)) as [Hb|Hb]; intros [= <-]; simpl.
  - split; [done|]. split; [done|]. exists [body]. simpl. rw app_nil_r. split; [done|]. split; [done|].
    by split; [constructor|].
  - split; [done|]. split; [done|]. pose proof (max_frame_body_pos k) as Hpos.
    destruct (chunks_fuel_spec _ body Hpos (length body) (le_n _)) as (Hc & Hall & Hne). fold (chunks (N.to_nat (max_frame_body k)) body) in *.
    exists (chunks (N.to_nat (max_frame_body k)) body). split.
    { apply Hne. intros ->. unfold byte_len in Hb. simpl in Hb. lia. }
    split; [done|]. split; [|apply encode_parts_written].
    eapply Forall_impl; [exact Hall|]. intros part Hp. unfold byte_len. simpl in Hp. lia.
Qed.

(** ** Joining *)

Lemma open_position a (a1 a2 : list (Kind * list byte)) k pre :
  NoDup (map fst a) → a = a1 ++ (k, pre) :: a2 →
  vposition (λ open, bool_decide (open.1 = k)) a = Some (length a1).
Proof.
  intros Hnd ->. apply vposition_first; [|by apply bool_decide_eq_true].
  apply Forall_forall. intros q Hq. apply bool_decide_eq_false. intros Eq.
  rw map_app /= in Hnd. apply NoDup_app in Hnd as (_ & Hn & _). apply (Hn k); [|by left].
  rw -Eq. by apply list_elem_of_fmap_2.
Qed.

Lemma open_absent (a : list (Kind * list byte)) k :
  (k ∉ map fst a) → vposition (λ open, bool_decide (open.1 = k)) a = None.
Proof.
  induction a as [|[q pre] a IH]; [done|]. simpl. rw not_elem_of_cons. intros [Hq Hn].
  rw bool_decide_eq_false_2; [congruence|]. by rw IH.
Qed.

Section Direction.
Context {M : Type} (client : bool).
Context (encode : M → result WireMessage EncodeError).
Context (decode : Kind → list byte → result M DecodeError) (validate : M → bool).
Hypothesis encode_decodes : ∀ m wm, encode m = Ok wm →
  ∃ body, encode_bytes (wm_kind wm) body = Ok wm ∧ decode (wm_kind wm) body = Ok m ∧
    from_client (wm_kind wm) = client.

(** A message partly written: its kind, the frames still to come, and itself. *)
Record Open := { op_kind : Kind; op_rest : list (list byte); op_message : M }.

(** The writer's discipline: a message of a kind is finished before another of that
    kind starts; frames of different kinds interleave freely. [Delivers o fs ms o']:
    from the partly written messages [o], writing the frames [fs] completes the
    messages [ms] and leaves [o'] partly written. *)
Inductive Delivers : list Open → list (list byte) → list M → list Open → Prop :=
  | dv_done o : Delivers o [] [] o
  | dv_whole m wm f o fs ms o' :
      encode m = Ok wm → validate m = true → wm_frames wm = [f] → (wm_kind wm ∉ map op_kind o) →
      Delivers o fs ms o' → Delivers o (f :: fs) (m :: ms) o'
  | dv_start m wm f g rest o fs ms o' :
      encode m = Ok wm → validate m = true → wm_frames wm = f :: g :: rest →
      (wm_kind wm ∉ map op_kind o) →
      Delivers ({| op_kind := wm_kind wm; op_rest := g :: rest; op_message := m |} :: o) fs ms o' →
      Delivers o (f :: fs) ms o'
  | dv_more k m f g rest o1 o2 fs ms o' :
      Delivers (o1 ++ {| op_kind := k; op_rest := g :: rest; op_message := m |} :: o2) fs ms o' →
      Delivers (o1 ++ {| op_kind := k; op_rest := f :: g :: rest; op_message := m |} :: o2) (f :: fs) ms o'
  | dv_last k m f o1 o2 fs ms o' :
      Delivers (o1 ++ o2) fs ms o' →
      Delivers (o1 ++ {| op_kind := k; op_rest := [f]; op_message := m |} :: o2) (f :: fs) (m :: ms) o'.

Lemma Delivers_app o fs ms o' fs' ms' o'' :
  Delivers o fs ms o' → Delivers o' fs' ms' o'' → Delivers o (fs ++ fs') (ms ++ ms') o''.
Proof. induction 1; intros Hd; simpl; [done|eauto using Delivers..]. Qed.

Lemma Delivers_split o fs fs' ms o'' :
  Delivers o (fs ++ fs') ms o'' → ∃ ms1 ms2 o', ms = ms1 ++ ms2 ∧ Delivers o fs ms1 o' ∧ Delivers o' fs' ms2 o''.
Proof.
  revert o ms. induction fs as [|f fs IH]; intros o ms Hd.
  - exists [], ms, o. split; [done|]. split; [constructor|done].
  - remember ((f :: fs) ++ fs') as all eqn:E. destruct Hd as [o|m wm g o gs ms o' He Hv Hf Hk Hd
      |m wm g h rest o gs ms o' He Hv Hf Hk Hd|k m g h rest o1 o2 gs ms o' Hd|k m g o1 o2 gs ms o' Hd];
      simplify_eq/=; destruct (IH _ _ Hd) as (ms1 & ms2 & mid & -> & H1 & H2).
    + exists (m :: ms1), ms2, mid. split; [done|]. split; [by eapply dv_whole|done].
    + exists ms1, ms2, mid. split; [done|]. split; [by eapply dv_start|done].
    + exists ms1, ms2, mid. split; [done|]. split; [by eapply dv_more|done].
    + exists (m :: ms1), ms2, mid. split; [done|]. split; [by eapply dv_last|done].
Qed.

(** What the assembler holds of a partly written message. *)
Record Half (a : list (Kind * list byte)) (x : Open) : Prop := {
  hf_client : from_client (op_kind x) = client;
  hf_parts : ∃ pre parts, (op_kind x, pre) ∈ a ∧ parts ≠ [] ∧
    op_rest x = map wr_bytes (written_parts (op_kind x) parts) ∧
    Forall (λ part, byte_len part <= max_frame_body (op_kind x))%N parts ∧
    (byte_len (pre ++ concat parts) <= max_message (op_kind x))%N ∧
    decode (op_kind x) (pre ++ concat parts) = Ok (op_message x) ∧ validate (op_message x) = true
}.

Record Holds (a : list (Kind * list byte)) (o : list Open) : Prop := {
  hd_kinds : map fst a ≡ₚ map op_kind o;
  hd_once : NoDup (map fst a);
  hd_half : Forall (Half a) o
}.

Abbreviation step := (assemble client decode validate).

Fixpoint assemble_all (frames : list RawFrame) (a : list (Kind * list byte))
    : list (Kind * list byte) * result (list M) DecodeError :=
  match frames with
  | [] => (a, Ok [])
  | frame :: frames =>
      match step frame a with
      | (a, Err error) => (a, Err error)
      | (a, Ok message) =>
          let '(a, messages) := assemble_all frames a in
          (a, result_map (λ ms, match message with Some m => m :: ms | None => ms end) messages)
      end
  end.

Lemma assemble_all_app fs gs a :
  assemble_all (fs ++ gs) a =
  let '(a, first) := assemble_all fs a in
  match first with
  | Err error => (a, Err error)
  | Ok ms => let '(a, rest) := assemble_all gs a in (a, result_map (app ms) rest)
  end.
Proof.
  revert a. induction fs as [|f fs IH]; intros a; simpl.
  - destruct (assemble_all gs a) as [a' [ms|e]]; done.
  - destruct (step f a) as [a1 [m|e]]; [|done]. rw IH. destruct (assemble_all fs a1) as [a2 [ms|e]]; [|done].
    destruct (assemble_all gs a2) as [a3 [ms'|e]]; simpl; [|done]. by destruct m.
Qed.

(** One frame, by what the assembler holds of its kind. *)
Lemma join_fresh k part more a :
  (k ∉ map fst a) → from_client k = client → (byte_len part <= max_frame_body k)%N →
  (more = false → byte_len part <= max_message k)%N →
  join {| rf_kind := if more : bool then N.lor (kind_byte k) MORE else kind_byte k; rf_body := part |} client a =
  if more then (a ++ [(k, part)], Ok None) else (a, Ok (Some (k, part))).
Proof.
  intros Hn Hc Hb Hm. unfold join, raw_kind. cbn [rf_kind]. rw kind_from_kind_byte continued_kind_byte. simpl.
  rw Hc eqb_reflx open_absent //. simpl. destruct (N.ltb_spec (max_frame_body k) (byte_len part)); [lia|].
  destruct more; [done|]. specialize (Hm eq_refl).
  by destruct (N.ltb_spec (max_message k) (byte_len part)); [lia|].
Qed.

Lemma join_open k pre part more a1 a2 :
  NoDup (map fst (a1 ++ (k, pre) :: a2)) → from_client k = client → (byte_len part <= max_frame_body k)%N →
  (byte_len (pre ++ part) <= max_message k)%N →
  join {| rf_kind := if more : bool then N.lor (kind_byte k) MORE else kind_byte k; rf_body := part |} client
    (a1 ++ (k, pre) :: a2) =
  if more then (a1 ++ (k, pre ++ part) :: a2, Ok None)
  else (swap_remove (length a1) (a1 ++ (k, pre) :: a2), Ok (Some (k, pre ++ part))).
Proof.
  intros Hn Hc Hb Hm. unfold join, raw_kind. cbn [rf_kind rf_body]. rw kind_from_kind_byte continued_kind_byte. simpl.
  rw Hc eqb_reflx (open_position _ _ _ _ _ Hn eq_refl) lookup_split /=.
  destruct (N.ltb_spec (max_frame_body k) (byte_len part)); [lia|].
  assert (byte_len (pre ++ part) = byte_len pre + byte_len part)%N as Hl by (unfold byte_len; rw length_app; lia).
  destruct (N.ltb_spec (max_message k) (byte_len pre + byte_len part)); [lia|].
  destruct more.
  - by rw insert_app_r_alt // Nat.sub_diag.
  - by destruct (N.ltb_spec (max_message k) (byte_len (pre ++ part))); [lia|].
Qed.

Lemma Half_mono a a' x :
  (∀ pre, (op_kind x, pre) ∈ a → (op_kind x, pre) ∈ a') → Half a x → Half a' x.
Proof. intros H [Hc (pre & parts & Hin & Hrest)]. split; [done|]. exists pre, parts. auto. Qed.

Lemma written_parts_cons k parts f fs :
  map wr_bytes (written_parts k parts) = f :: fs →
  ∃ part parts', parts = part :: parts' ∧ fs = map wr_bytes (written_parts k parts') ∧
    f = wr_bytes {| wr_kind := k; wr_part := part;
                    wr_byte := if negb (is_empty parts') then N.lor (kind_byte k) MORE else kind_byte k |}.
Proof. destruct parts as [|part parts]; [done|]. intros [= <- <-]. eauto. Qed.

Lemma written_frame_ok k part more :
  (byte_len part <= max_frame_body k)%N →
  wr_ok {| wr_kind := k; wr_part := part;
           wr_byte := if more : bool then N.lor (kind_byte k) MORE else kind_byte k |}.
Proof. intros Hp. split; [apply kind_from_kind_byte|done]. Qed.

(** The frames of an encoded message and what they decode to. *)
Lemma encoded_parts m wm : encode m = Ok wm →
  from_client (wm_kind wm) = client ∧
  ∃ parts, parts ≠ [] ∧ wm_frames wm = map wr_bytes (written_parts (wm_kind wm) parts) ∧
    Forall (λ part, byte_len part <= max_frame_body (wm_kind wm))%N parts ∧
    (byte_len (concat parts) <= max_message (wm_kind wm))%N ∧ decode (wm_kind wm) (concat parts) = Ok m.
Proof.
  intros (body & He & Hd & Hc)%encode_decodes. apply encode_bytes_spec in He as (_ & Hm & parts & Hne & Hb & Hall & Hf).
  split; [done|]. exists parts. by subst body.
Qed.

(** Taking one open message out of the list of those held. *)
Lemma Holds_split a o1 x o2 : Holds a (o1 ++ x :: o2) →
  ∃ a1 pre a2 parts, a = a1 ++ (op_kind x, pre) :: a2 ∧ parts ≠ [] ∧
    op_rest x = map wr_bytes (written_parts (op_kind x) parts) ∧
    Forall (λ part, byte_len part <= max_frame_body (op_kind x))%N parts ∧
    (byte_len (pre ++ concat parts) <= max_message (op_kind x))%N ∧
    decode (op_kind x) (pre ++ concat parts) = Ok (op_message x) ∧ validate (op_message x) = true ∧
    from_client (op_kind x) = client ∧
    map fst (a1 ++ a2) ≡ₚ map op_kind (o1 ++ o2) ∧ (op_kind x ∉ map op_kind (o1 ++ o2)) ∧
    Forall (Half (a1 ++ a2)) (o1 ++ o2).
Proof.
  intros [Hk Hn Hh]. pose proof Hh as Hx. apply Forall_app in Hx as [H1 Hx]. apply Forall_cons in Hx as [[Hc Hp] H2].
  destruct Hp as (pre & parts & Hin & Hne & Hrest & Hall & Hm & Hd & Hv).
  apply list_elem_of_split in Hin as (a1 & a2 & ->). exists a1, pre, a2, parts.
  assert (map fst (a1 ++ a2) ≡ₚ map op_kind (o1 ++ o2)) as Hk'.
  { rw !map_app /= in Hk |- *. rw -!Permutation_middle in Hk. by apply Permutation_cons_inv in Hk. }
  assert (op_kind x ∉ map op_kind (o1 ++ o2)) as Hno.
  { rw -Hk'. rw !map_app /= -Permutation_middle in Hn. rw map_app. by apply NoDup_cons in Hn as [? _]. }
  repeat (split; [done|]). rw Forall_forall in Hh. apply Forall_forall. intros y Hy.
  eapply Half_mono; [|apply Hh; rw elem_of_app in Hy; rw elem_of_app elem_of_cons; tauto].
  intros pre'. rw !elem_of_app elem_of_cons. intros [?|[[= Eq _]|?]]; [by left| |by right].
  destruct Hno. rw -Eq. by apply list_elem_of_fmap_2.
Qed.

Lemma assemble_delivers o fs ms o' : Delivers o fs ms o' → ∀ a, Holds a o →
  ∃ ws a', fs = map wr_bytes ws ∧ Forall wr_ok ws ∧ assemble_all (map wr_raw ws) a = (a', Ok ms) ∧ Holds a' o'.
Proof.
  induction 1 as [o|m wm f o fs ms o' He Hv Hf Hk _ IH|m wm f g rest o fs ms o' He Hv Hf Hk _ IH
    |k m f g rest o1 o2 fs ms o' _ IH|k m f o1 o2 fs ms o' _ IH]; intros a Ha.
  - by exists [], a.
  - destruct (encoded_parts m wm He) as (Hc & parts & _ & Hw & Hall & Hm & Hd). rw Hf in Hw. symmetry in Hw.
    apply written_parts_cons in Hw as (part & parts' & -> & Hnil & ->). destruct parts'; [|done].
    apply Forall_cons in Hall as [Hb _]. simpl in Hm, Hd. rw app_nil_r in Hm, Hd.
    destruct (IH a Ha) as (ws & a' & -> & Hok & Hrun & Ha'). eexists (_ :: ws), a'. split; [done|].
    split; [by constructor; [apply (written_frame_ok _ _ false)|]|]. split; [|done].
    cbn [map assemble_all]. unfold assemble, wr_raw at 1. cbn [wr_byte wr_part].
    rw (join_fresh (wm_kind wm) part false a); [by rw (hd_kinds _ _ Ha)|done|done|done|].
    by rw Hd Hv Hrun.
  - destruct (encoded_parts m wm He) as (Hc & parts & _ & Hw & Hall & Hm & Hd). rw Hf in Hw. symmetry in Hw.
    apply written_parts_cons in Hw as (part & parts' & -> & Hrest & ->).
    assert (parts' ≠ []) as Hne by by destruct parts'.
    apply Forall_cons in Hall as [Hb Hall]. simpl in Hm, Hd.
    destruct (IH (a ++ [(wm_kind wm, part)])) as (ws & a' & -> & Hok & Hrun & Ha').
    { destruct Ha as [H1 H2 H3]. split; simpl.
      - rw map_app /= H1. by rw Permutation_app_comm.
      - rw map_app. apply NoDup_app. split; [done|]. split; [|apply NoDup_singleton].
        intros q Hq ->%list_elem_of_singleton. by rw H1 in Hq.
      - constructor.
        + split; [done|]. simpl. exists part, parts'. rw elem_of_app. split; [right; by left|]. done.
        + eapply Forall_impl; [exact H3|]. intros x. apply Half_mono. intros pre. rw elem_of_app. by left. }
    eexists (_ :: ws), a'. split; [done|].
    split; [by constructor; [apply (written_frame_ok _ _ (negb (is_empty parts')))|]|]. split; [|done].
    cbn [map assemble_all]. unfold assemble, wr_raw at 1. cbn [wr_byte wr_part].
    rw (join_fresh (wm_kind wm) part (negb (is_empty parts')) a);
      [by rw (hd_kinds _ _ Ha)|done|done|by destruct parts'|].
    destruct parts'; [done|]. simpl. by rw Hrun.
  - destruct (Holds_split _ _ _ _ Ha) as (a1 & pre & a2 & parts & -> & _ & Hrest & Hall & Hm & Hd & Hv & Hc & Hk & Hno & Hh).
    simpl in *. symmetry in Hrest. apply written_parts_cons in Hrest as (part & parts' & -> & Hrest & ->).
    assert (parts' ≠ []) as Hne by by destruct parts'.
    apply Forall_cons in Hall as [Hb Hall]. cbn [concat] in Hm, Hd. rw app_assoc in Hm, Hd.
    destruct (IH (a1 ++ (k, pre ++ part) :: a2)) as (ws & a' & -> & Hok & Hrun & Ha').
    { pose proof (hd_kinds _ _ Ha) as H1. pose proof (hd_once _ _ Ha) as H2. rw map_app /= in H1, H2. split.
      - by rw !map_app /= in H1 |- *.
      - by rw map_app.
      - rw Forall_app Forall_cons. rw Forall_app in Hh. destruct Hh as [Hh1 Hh2].
        assert (∀ x : Open, Half (a1 ++ a2) x → Half (a1 ++ (k, pre ++ part) :: a2) x) as Hmono.
        { intros x. apply Half_mono. intros q. rw !elem_of_app elem_of_cons. tauto. }
        split; [by eapply Forall_impl|]. split; [|by eapply Forall_impl].
        split; [done|]. simpl. exists (pre ++ part), parts'. rw elem_of_app. split; [right; by left|]. done. }
    eexists (_ :: ws), a'. split; [done|].
    split; [by constructor; [apply (written_frame_ok _ _ (negb (is_empty parts')))|]|]. split; [|done].
    cbn [map assemble_all]. unfold assemble, wr_raw at 1. cbn [wr_byte wr_part].
    rw (join_open k pre part (negb (is_empty parts')) a1 a2); [apply Ha|done|done| |].
    { unfold byte_len in *. rw !length_app in Hm |- *. lia. }
    destruct parts'; [done|]. simpl. by rw Hrun.
  - destruct (Holds_split _ _ _ _ Ha) as (a1 & pre & a2 & parts & -> & _ & Hrest & Hall & Hm & Hd & Hv & Hc & Hk & Hno & Hh).
    simpl in *. symmetry in Hrest. apply written_parts_cons in Hrest as (part & parts' & -> & Hnil & ->).
    destruct parts'; [|done]. apply Forall_cons in Hall as [Hb _]. simpl in Hm, Hd. rw app_nil_r in Hm, Hd.
    pose proof (swap_remove_perm a1 a2 (k, pre)) as Hp.
    destruct (IH (swap_remove (length a1) (a1 ++ (k, pre) :: a2))) as (ws & a' & -> & Hok & Hrun & Ha').
    { pose proof (hd_once _ _ Ha) as H2. rw map_app /= -Permutation_middle -map_app in H2.
      apply NoDup_cons in H2 as [_ H2]. 
      assert (map fst (swap_remove (length a1) (a1 ++ (k, pre) :: a2)) ≡ₚ map fst (a1 ++ a2)) as Hp1
        by apply (fmap_Permutation fst _ _ Hp). split.
      - by rw Hp1.
      - by rw Hp1.
      - eapply Forall_impl; [exact Hh|]. intros x. apply Half_mono. intros q. by rw Hp. }
    eexists (_ :: ws), a'. split; [done|].
    split; [by constructor; [apply (written_frame_ok _ _ false)|]|]. split; [|done].
    cbn [map assemble_all]. unfold assemble, wr_raw at 1. cbn [wr_byte wr_part].
    rw (join_open k pre part false a1 a2); [apply Ha|done|done|done|].
    by rw Hd Hv Hrun.
Qed.

(** ** A whole stream, read in any pieces *)

Fixpoint receive_all (segments : list (list byte)) (r : FrameReader) (a : list (Kind * list byte))
    : FrameReader * list (Kind * list byte) * result (list M) DecodeError :=
  match segments with
  | [] => (r, a, Ok [])
  | segment :: segments =>
      let r := feed segment r in
      match read_frames (S (length (fd_buffer r))) r with
      | (r, Err error) => (r, a, Err error)
      | (r, Ok frames) =>
          match assemble_all frames a with
          | (a, Err error) => (r, a, Err error)
          | (a, Ok messages) =>
              let '(r, a, rest) := receive_all segments r a in (r, a, result_map (app messages) rest)
          end
      end
  end.

Lemma receive_segments segments : ∀ r a ws a' ms,
  Forall wr_ok ws → fd_read r ≤ length (fd_buffer r) → parse_prefix (pending r) = Ok None →
  pending r ++ concat segments = concat (map wr_bytes ws) →
  assemble_all (map wr_raw ws) a = (a', Ok ms) →
  ∃ r', receive_all segments r a = (r', a', Ok ms) ∧ pending r' = [] ∧ fd_read r' ≤ length (fd_buffer r').
Proof.
  induction segments as [|segment segments IH]; intros r a ws a' ms Hok Hr Hn E Hrun.
  - simpl in E. rw app_nil_r in E. destruct ws as [|w ws].
    + simpl in *. injection Hrun as <- <-. exists r. done.
    + apply Forall_cons in Hok as [Hw _]. cbn [map concat] in E. rw E (parse_written _ _ _ _ Hw) in Hn. done.
  - cbn [concat] in E. rw app_assoc -(pending_feed segment r Hr) in E.
    assert (fd_read (feed segment r) ≤ length (fd_buffer (feed segment r))) as Hr1.
    { unfold feed. destruct (Nat.ltb_spec 0 (fd_read r)); simpl; rw length_app; lia. }
    destruct (read_frames_spec ws (S (length (fd_buffer (feed segment r)))) (feed segment r) (concat segments) Hok Hr1)
      as (r1 & got & ws' & -> & Hread & Hr2 & E' & Hn'); [unfold pending; rw length_drop; lia|done|].
    cbn [receive_all]. rw Hread. rw map_app assemble_all_app in Hrun.
    destruct (assemble_all (map wr_raw got) a) as [a1 [ms1|e]]; [|done].
    destruct (assemble_all (map wr_raw ws') a1) as [a2 [ms2|e]] eqn:E2; [|done]. injection Hrun as <- <-.
    apply Forall_app in Hok as [_ Hok]. destruct (IH r1 a1 ws' a2 ms2 Hok Hr2 Hn' E' E2) as (r' & -> & Hp).
    by exists r'.
Qed.

Lemma stream_delivered fs ms o segments :
  Delivers [] fs ms o → concat segments = concat fs →
  ∃ r a, receive_all segments reader_default [] = (r, a, Ok ms) ∧ partial r = false ∧
    map fst a ≡ₚ map op_kind o.
Proof.
  intros Hd E. destruct (assemble_delivers _ _ _ _ Hd []) as (ws & a & -> & Hok & Hrun & [Hk _ _]).
  { split; simpl; [done|constructor|done]. }
  destruct (receive_segments segments reader_default [] ws a ms Hok) as (r & Hrecv & Hp & Hr); try done.
  exists r, a. split; [done|]. split; [|done]. unfold partial, pending in *.
  apply (f_equal length) in Hp. rw length_drop in Hp. simpl in Hp. apply Nat.ltb_ge. lia.
Qed.
End Direction.

(** ** Bounds against any peer *)

Lemma parse_waiting_bound p : parse_prefix p = Ok None → (byte_len p < MAX_FRAME_BYTES)%N.
Proof.
  destruct p as [|b0 [|b1 [|b2 [|b3 [|b4 p]]]]]; [done..|].
  cbn [parse_prefix]. destruct (u32_from_be_bytes b0 b1 b2 b3 =? 0)%N eqn:Ez; [done|]. apply N.eqb_neq in Ez.
  destruct (kind_from_byte b4) as [k|]; [|done].
  destruct (N.ltb_spec (max_frame_body k) (u32_from_be_bytes b0 b1 b2 b3 - 1)) as [|Hm]; [done|].
  match goal with |- context [?a <=? ?b] => destruct (Nat.leb_spec a b) as [|Hlt]; [done|] end. intros _.
  assert (max_frame_body k <= MAX_FRAME_BODY)%N by (by destruct k).
  assert (MAX_FRAME_BODY = MAX_FRAME_BYTES - 5)%N as HB by done.
  assert (5 <= MAX_FRAME_BYTES)%N by done. unfold byte_len. lia.
Qed.

(** What the assembler may hold, whatever arrives. *)
Definition held_bounded (a : list (Kind * list byte)) : Prop :=
  NoDup (map fst a) ∧ Forall (λ q, byte_len q.2 <= N.max (max_message q.1) (max_frame_body q.1))%N a.

Lemma held_bounded_perm a a' : a ≡ₚ a' → held_bounded a → held_bounded a'.
Proof.
  intros Hp [H1 H2]. split; [|by rw -Hp].
  assert (map fst a ≡ₚ map fst a') as <- by apply (fmap_Permutation fst _ _ Hp). done.
Qed.

Lemma join_bounded frame client a : held_bounded a → held_bounded (join frame client a).1.
Proof.
  intros Ha. unfold join. destruct (raw_kind frame) as [k|]; [|done]. destruct (negb _); [done|].
  destruct (N.ltb_spec (max_frame_body k) (byte_len (rf_body frame))) as [|Hb]; [done|].
  destruct (vposition _ a) as [i|] eqn:Ep.
  - apply vposition_Some in Ep as (a1 & [k' open] & a2 & -> & <- & Hk & _). simpl in Hk.
    apply bool_decide_eq_true in Hk as ->. rw lookup_split.
    destruct (N.ltb_spec (max_message k) (byte_len open + byte_len (rf_body frame))) as [|Hm]; [done|].
    destruct Ha as [H1 H2]. destruct (continued frame); simpl.
    + rw insert_app_r_alt // Nat.sub_diag /=. split; [rw map_app; rw map_app in H1; exact H1|].
      apply Forall_app in H2 as [H2 H3]. apply Forall_cons in H3 as [_ H3]. apply Forall_app. split; [done|].
      constructor; [|done]. simpl. unfold byte_len in *. rw length_app. lia.
    + assert (held_bounded (swap_remove (length a1) (a1 ++ (k, open) :: a2))); [|by destruct (_ <? _)%N].
      apply (held_bounded_perm (a1 ++ a2)); [by rw swap_remove_perm|]. split.
      * rw map_app /= -Permutation_middle -map_app in H1. by apply NoDup_cons in H1 as [_ ?].
      * apply Forall_app in H2 as [H2 H3]. apply Forall_cons in H3 as [_ H3]. by apply Forall_app.
  - apply vposition_None in Ep. destruct (continued frame); simpl; [|by case_match].
    destruct Ha as [H1 H2]. split.
    + rw map_app. apply NoDup_app. split; [done|]. split; [|apply NoDup_singleton].
      intros q (x & -> & Hx)%elem_of_map Hq%list_elem_of_singleton. rw Forall_forall in Ep.
      specialize (Ep x Hx). by apply bool_decide_eq_false in Ep.
    + apply Forall_app. split; [done|]. constructor; [|done]. simpl. lia.
Qed.

Lemma assemble_all_bounded {M} client (decode : Kind → list byte → result M DecodeError) validate frames a :
  held_bounded a → held_bounded (assemble_all client decode validate frames a).1.
Proof.
  revert a. induction frames as [|f frames IH]; intros a Ha; simpl; [done|]. unfold assemble.
  pose proof (join_bounded f client a Ha) as Hj. destruct (join f client a) as [a1 [[[k body]|]|e]]; simpl in *; [| |done].
  - destruct (decode k body) as [m|]; [|done]. destruct (validate m); [|done].
    specialize (IH a1 Hj). by destruct (assemble_all _ _ _ frames a1).
  - specialize (IH a1 Hj). by destruct (assemble_all _ _ _ frames a1).
Qed.

Lemma next_frame_read r : fd_read r ≤ length (fd_buffer r) → fd_read (next_frame r).1 ≤ length (fd_buffer (next_frame r).1).
Proof.
  intros Hr. unfold next_frame. destruct (parse_prefix _) as [[[f used]|]|e] eqn:E; simpl; [|done|done].
  unfold parse_prefix in E. set (p := drop _ _) in *. assert (length p = length (fd_buffer r) - fd_read r) by apply length_drop.
  destruct p as [|b0 [|b1 [|b2 [|b3 [|b4 p]]]]]; try done. destruct (_ =? _)%N; [done|].
  destruct (kind_from_byte b4); [|done]. destruct (_ <? _)%N; [done|].
  match type of E with context [?a <=? ?b] => destruct (Nat.leb_spec a b); [|done] end.
  injection E as _ <-. simpl in *. lia.
Qed.

Lemma parse_consumes p f used : parse_prefix p = Ok (Some (f, used)) → 4 < used ≤ length p.
Proof.
  destruct p as [|b0 [|b1 [|b2 [|b3 [|b4 p]]]]]; try done. unfold parse_prefix.
  destruct (N.eqb_spec (u32_from_be_bytes b0 b1 b2 b3) 0) as [|Hz]; [done|].
  destruct (kind_from_byte b4); [|done]. destruct (_ <? _)%N; [done|].
  match goal with |- context [?a <=? ?b] => destruct (Nat.leb_spec a b); [|done] end.
  intros [= _ <-]. lia.
Qed.

Lemma read_frames_waiting fuel r r' frames :
  length (pending r) < fuel → fd_read r ≤ length (fd_buffer r) → read_frames fuel r = (r', Ok frames) →
  parse_prefix (pending r') = Ok None ∧ fd_read r' ≤ length (fd_buffer r').
Proof.
  revert r frames. induction fuel as [|fuel IH]; intros r frames Hf Hr; [lia|]. cbn [read_frames].
  pose proof (next_frame_read r Hr) as Hr1. unfold next_frame in *. fold (pending r) in *.
  destruct (parse_prefix (pending r)) as [[[f used]|]|e] eqn:E; simpl in *; [| |done].
  - destruct (read_frames fuel _) as [r2 [fs|]] eqn:E2; [|done]. intros [= <- _].
    eapply IH; [| |exact E2]; [|exact Hr1]. pose proof (parse_consumes _ _ _ E) as Hu.
    unfold pending in *. simpl. rw length_drop in Hf, Hu. rw length_drop. lia.
  - intros [= <- <-]. done.
Qed.

(** Whatever bytes a peer sends, in whatever pieces, what a connection keeps
    between reads is bounded: less than one largest frame in the reader, and in the
    assembler at most one unfinished message per kind within the limit of that kind
    or of one frame. *)
Theorem received_bounded {M} client (decode : Kind → list byte → result M DecodeError) validate segments :
  ∀ r a ms, receive_all client decode validate segments reader_default [] = (r, a, Ok ms) →
  (byte_len (pending r) < MAX_FRAME_BYTES)%N ∧ held_bounded a.
Proof.
  assert (∀ segments r0 a0 r a ms, parse_prefix (pending r0) = Ok None → fd_read r0 ≤ length (fd_buffer r0) →
    held_bounded a0 → receive_all client decode validate segments r0 a0 = (r, a, Ok ms) →
    (byte_len (pending r) < MAX_FRAME_BYTES)%N ∧ held_bounded a) as H.
  { clear segments. induction segments as [|s segments IH]; intros r0 a0 r a ms Hn Hr Ha; cbn [receive_all].
    - intros [= <- <- <-]. split; [by apply parse_waiting_bound|done].
    - destruct (read_frames _ (feed s r0)) as [r1 [frames|]] eqn:E1; [|done].
      pose proof (assemble_all_bounded client decode validate frames a0 Ha) as Hb.
      destruct (assemble_all client decode validate frames a0) as [a1 [ms1|]]; [|done].
      assert (fd_read (feed s r0) ≤ length (fd_buffer (feed s r0))) as Hr1.
      { unfold feed. destruct (Nat.ltb_spec 0 (fd_read r0)); simpl; rw length_app; lia. }
      assert (length (pending (feed s r0)) < S (length (fd_buffer (feed s r0)))) as Hlt
        by (unfold pending; rw length_drop; lia).
      destruct (read_frames_waiting _ _ _ _ Hlt Hr1 E1) as [Hn1 Hr2].
      destruct (receive_all client decode validate segments r1 a1) as [[r2 a2] [ms2|]] eqn:E2; [|done].
      intros [= <- <- <-]. eapply IH; [exact Hn1|exact Hr2|exact Hb|exact E2]. }
  intros r a ms. apply H; [done|simpl; lia|]. split; [constructor|constructor].
Qed.

(** ** Both directions *)

Lemma encode_spec {A} `{Postcard A, !PostcardLaw A} k (value : A) wm :
  encode k value = Ok wm →
  ∃ body, encode_bytes (wm_kind wm) body = Ok wm ∧ wm_kind wm = k ∧ decode (A := A) body = Ok value.
Proof.
  unfold encode. destruct (to_bytes value) as [body|] eqn:Eb; [|done]. simpl. intros He.
  destruct (encode_bytes_spec _ _ _ He) as [Hk _]. exists body. rw Hk. split; [done|]. split; [done|].
  unfold decode. pose proof (take_to_bytes value body [] Eb) as Ht. rw app_nil_r in Ht. by rw Ht.
Qed.

Section Directions.
Context `{P : Payloads}.
Context `{Postcard Request, Postcard Input, Postcard FrameAck, Postcard AccessibilityAck, Postcard View,
  Postcard EffectDone, Postcard Acknowledge, Postcard Cancel, Postcard Ping, Postcard Pong,
  Postcard Reply, Postcard Frame, Postcard AccessibilityMessage, Postcard PaneMessage,
  Postcard (InventoryRevision Inventory), Postcard UpdateFacts, Postcard Fatal}.
Context `{!PostcardLaw Request, !PostcardLaw Input, !PostcardLaw FrameAck, !PostcardLaw AccessibilityAck,
  !PostcardLaw View, !PostcardLaw EffectDone, !PostcardLaw Acknowledge, !PostcardLaw Cancel,
  !PostcardLaw Ping, !PostcardLaw Pong, !PostcardLaw Reply, !PostcardLaw Frame,
  !PostcardLaw AccessibilityMessage, !PostcardLaw PaneMessage,
  !PostcardLaw (InventoryRevision Inventory), !PostcardLaw UpdateFacts, !PostcardLaw Fatal}.

Lemma encode_core_decodes m wm : encode_core m = Ok wm →
  ∃ body, encode_bytes (wm_kind wm) body = Ok wm ∧ decode_core (wm_kind wm) body = Ok m ∧
    from_client (wm_kind wm) = false.
Proof.
  destruct m; simpl; intros (body & He & Hk & Hd)%encode_spec; exists body; (split; [done|]); rw Hk;
    (try destruct (reply_bulk _)); simpl; by rw Hd.
Qed.

Lemma encode_client_decodes m wm : encode_client m = Ok wm →
  ∃ body, encode_bytes (wm_kind wm) body = Ok wm ∧ decode_client (wm_kind wm) body = Ok m ∧
    from_client (wm_kind wm) = true.
Proof.
  destruct m; simpl; intros (body & He & Hk & Hd)%encode_spec; exists body; (split; [done|]); rw Hk; simpl; by rw Hd.
Qed.

(** C12. What a server writes, its client reads: if no message of a kind starts while
    another of that kind is partly written, the client's reader and assembler, fed
    the bytes in any pieces, yield exactly the messages in the order their last
    frames were written, whatever kinds interleave, and hold nothing but the
    messages still unfinished. *)
Theorem server_stream_read fs ms o segments :
  Delivers encode_core core_validate [] fs ms o → concat segments = concat fs →
  ∃ r a, receive_all false decode_core core_validate segments reader_default [] = (r, a, Ok ms) ∧
    partial r = false ∧ map fst a ≡ₚ map op_kind o.
Proof. apply stream_delivered, encode_core_decodes. Qed.

(** What a client writes, its server reads, in the same way. *)
Theorem client_stream_read fs ms o segments :
  Delivers encode_client client_validate [] fs ms o → concat segments = concat fs →
  ∃ r a, receive_all true decode_client client_validate segments reader_default [] = (r, a, Ok ms) ∧
    partial r = false ∧ map fst a ≡ₚ map op_kind o.
Proof. apply stream_delivered, encode_client_decodes. Qed.
End Directions.

(** ** Witnesses *)

Module Sample.
(** Payloads without content, and codecs for the small messages; the others have no
    wire form here. *)
#[local] Instance payloads : Payloads := {|
  Attachment := unit; AttachmentClaim := unit; PresentationStyle := unit; ImageKey := unit;
  SelectionRefs := unit; SemanticDemand := unit; DirectoryRead := unit; DirectoryCreation := unit;
  WorktreeRead := unit; Management := unit; DirectoryTarget := unit; History := unit; Page := unit;
  page_validate := λ _, true; GraphicsReply := unit; DirectoryReply := unit; WorktreeReply := unit;
  ManagementReply := unit; EffectRequest := unit; ScreenUpdate := unit; update_validate := λ _, true;
  SemanticUpdate := unit; has_tail := λ _, true; semantic_validate := λ _, true;
  UpdateFacts := list N; facts_validate := λ _, true
|}.

#[local] Instance no_codec A : Postcard A | 100 := {| to_bytes := λ _, None; take_from_bytes := λ _, None |}.
#[local] Instance no_codec_law A : @PostcardLaw A (no_codec A).
Proof. intros a bytes rest. done. Qed.

#[local] Instance ping_codec : Postcard Ping :=
  {| to_bytes := λ p, Some [pi_nonce p];
     take_from_bytes := λ bytes, match bytes with b :: rest => Some ({| pi_nonce := b |}, rest) | [] => None end |}.
#[local] Instance ping_law : PostcardLaw Ping.
Proof. intros [n] bytes rest [= <-]. done. Qed.

#[local] Instance facts_codec : Postcard UpdateFacts :=
  {| to_bytes := λ facts, Some (N.of_nat (length facts) :: facts);
     take_from_bytes := λ bytes,
       match bytes with
       | n :: rest => if N.to_nat n <=? length rest then Some (take (N.to_nat n) rest, drop (N.to_nat n) rest)
                      else None
       | [] => None
       end |}.
#[local] Instance facts_law : PostcardLaw UpdateFacts.
Proof.
  intros facts bytes rest [= <-]. simpl. rw Nat2N.id length_app.
  destruct (Nat.leb_spec (length facts) (length facts + length rest)); [|lia].
  by rw take_app_length drop_app_length.
Qed.

Definition messages : list CoreMessage :=
  [Core_UpdateFacts [3; 1; 4; 1; 5]%N; Core_Ping {| pi_nonce := 7 |}; Core_UpdateFacts []].
Definition frames : list (list byte) :=
  [[0; 0; 0; 7; 74; 5; 3; 1; 4; 1; 5]; [0; 0; 0; 2; 70; 7]; [0; 0; 0; 2; 74; 0]]%N.
(** The same bytes as they happen to arrive. *)
Definition segments : list (list byte) :=
  [[0; 0; 0]; [7; 74; 5; 3; 1; 4; 1; 5; 0; 0; 0; 2; 70]; [7; 0; 0; 0; 2; 74; 0]]%N.

Lemma server_stream_read_witness :
  concat segments = concat frames ∧
  ∃ r a, receive_all false decode_core core_validate segments reader_default [] = (r, a, Ok messages) ∧
    partial r = false.
Proof.
  split; [vm_compute; reflexivity|].
  destruct (server_stream_read frames messages [] segments) as (r & a & H1 & H2 & _).
  - eapply dv_whole; [vm_compute; reflexivity|done|reflexivity|apply not_elem_of_nil|].
    eapply dv_whole; [vm_compute; reflexivity|done|reflexivity|apply not_elem_of_nil|].
    eapply dv_whole; [vm_compute; reflexivity|done|reflexivity|apply not_elem_of_nil|constructor].
  - vm_compute. reflexivity.
  - exists r, a. split; [exact H1|exact H2].
Defined.

Lemma received_bounded_witness :
  ∃ r a, receive_all false decode_core core_validate segments reader_default [] = (r, a, Ok messages) ∧
    (byte_len (pending r) < MAX_FRAME_BYTES)%N ∧ held_bounded a.
Proof.
  eexists _, _. split; [vm_compute; reflexivity|].
  apply (received_bounded false decode_core core_validate segments _ _ messages). vm_compute. reflexivity.
Defined.
End Sample.
