(* ===== verification/Outbox.v ===== *)
(** * A server connection's outgoing messages

    [crates/spaceterm-core/src/connection/outbox.rs] and [outbox/semantics.rs]: the
    queues of one connection by priority, the latest-state slots of inventory, update
    facts and each channel's presentation, and the credit of each channel. Every
    definition is what one call does while it holds the outbox's lock; [next_frame]
    is split where it releases the lock to encode, so other calls come in between.
    Waking the I/O thread is not modelled. Frames are byte lists as [Wire] builds
    them; sizes are [N]. *)
From S2P Require Import Prelude.
From S2P Require Import Text.
From S2P Require Import Facts.
From S2P Require Import HierarchyTypes.
From S2P Require Import DiskJournal.
From S2P Require Import Messages.
From S2P Require Import Wire.

Abbreviation Frames := (list (list byte)) (only parsing).

Inductive Priority := L0 | L1 | L2.

Inductive OutboxError :=
  | Out_Stalled | Out_Capacity | Out_Violation | Out_Closed | Out_Encode (error : EncodeError) | Out_Misuse.

(** [From<OutboxError> for Fatal]. *)
Definition fatal_of_outbox (error : OutboxError) : Fatal :=
  match error with
  | Out_Stalled => Fatal_Stalled
  | Out_Capacity => Fatal_Capacity
  | Out_Violation => Fatal_ProtocolViolation
  | Out_Closed => Fatal_Stopping
  | Out_Encode _ | Out_Misuse => Fatal_Internal
  end.

Record FrameTicket := { tk_channel : Channel; tk_frame : N; tk_base : option N }.
Record SemanticTicket := { st_demand_generation : N; st_revision : N; st_base : option N }.

(** [size]. *)
Definition frames_size (frames : Frames) : N := N.of_nat (sum_list_with length frames).

(** A Pane's semantic model and the encoding of one revision of it. *)
Class SemanticModels `{P : Payloads} := {
  Model : Type;
  Encoding : Type;
  model_revision : Model → N;
  model_encode : Model → SemanticTicket → option Model → option Encoding;
  encoding_next : Encoding → SemanticUpdate * Encoding
}.

Section State.
Context `{P : Payloads}.
Context `{SM : !SemanticModels}.
(** A Pane's captured screen. *)
Context {Presentation : Type}.

(** ** The semantic slot of a channel *)

Inductive Rest := Rest_Ready (encoding : Encoding) | Rest_Encoding | Rest_Written.
Record InFlight := { fl_serial : N; fl_revision : N; fl_model : Model; fl_rest : Rest }.
Record Demand := {
  dm_generation : N;
  dm_acknowledged : option (N * Model);
  dm_pending : option Model;
  dm_in_flight : option InFlight;
  dm_sent_high : option N
}.
Record SemanticSlot := {
  sm_last_start : N;
  sm_demand : option Demand;
  sm_queued : bool;
  sm_started : N
}.
Definition semantic_default : SemanticSlot :=
  {| sm_last_start := 0; sm_demand := None; sm_queued := false; sm_started := 0 |}.

Inductive SemanticStep :=
  | Step_Begin (model : Model) (ticket : SemanticTicket) (base : option Model)
  | Step_Continue (encoding : Encoding).
Record Work := { wk_channel : Channel; wk_serial : N; wk_step : SemanticStep }.
Record Encoded := {
  en_channel : Channel;
  en_serial : N;
  en_update : SemanticUpdate;
  en_rest : option Encoding
}.

(** [Work::run]. *)
Definition work_run (work : Work) : result Encoded (Channel * N) :=
  let? encoding := match wk_step work with
                   | Step_Begin model ticket base =>
                       ok_or (model_encode model ticket base) (wk_channel work, wk_serial work)
                   | Step_Continue encoding => Ok encoding
                   end in
  let '(update, encoding) := encoding_next encoding in
  Ok {| en_channel := wk_channel work; en_serial := wk_serial work; en_update := update;
        en_rest := if has_tail update then None else Some encoding |}.

(** [Slot::has_work]. *)
Definition has_work (slot : SemanticSlot) : bool :=
  match sm_demand slot with
  | Some demand =>
      match dm_in_flight demand with
      | Some flight => match fl_rest flight with Rest_Ready _ => true | _ => false end
      | None => match dm_pending demand with Some _ => true | None => false end
      end
  | None => false
  end.

Definition set_sm_demand (demand : option Demand) (s : SemanticSlot) : SemanticSlot :=
  {| sm_last_start := sm_last_start s; sm_demand := demand; sm_queued := sm_queued s;
     sm_started := sm_started s |}.
Definition set_sm_queued (queued : bool) (s : SemanticSlot) : SemanticSlot :=
  {| sm_last_start := sm_last_start s; sm_demand := sm_demand s; sm_queued := queued;
     sm_started := sm_started s |}.
Definition set_dm_in_flight (flight : option InFlight) (d : Demand) : Demand :=
  {| dm_generation := dm_generation d; dm_acknowledged := dm_acknowledged d; dm_pending := dm_pending d;
     dm_in_flight := flight; dm_sent_high := dm_sent_high d |}.
Definition set_fl_rest (rest : Rest) (f : InFlight) : InFlight :=
  {| fl_serial := fl_serial f; fl_revision := fl_revision f; fl_model := fl_model f; fl_rest := rest |}.

(** ** The queues *)

Inductive Entry :=
  | Entry_Message (frames : Frames) (reply : option RequestId)
  | Entry_Inventory
  | Entry_UpdateFacts
  | Entry_Frame (channel : Channel)
  | Entry_Semantics (channel : Channel).

Record Slot := {
  sl_pending : option Presentation;
  sl_queued : bool;
  sl_visible : bool;
  sl_next : N;
  sl_in_flight : option (N * option N);
  sl_acknowledged : option N;
  sl_keyframe : bool;
  sl_end : option Frames;
  sl_semantics : SemanticSlot
}.

Record OutState := {
  o_l0 : list (list byte);
  o_l0_bytes : N;
  o_l1 : list Entry;
  o_l1_bytes : N;
  o_l1_rest : list (list byte);
  o_l1_rest_reply : option RequestId;
  o_l2 : list (RequestId * Frames);
  o_l2_bytes : N;
  o_l2_rest : list (list byte);
  o_l2_rest_reply : option RequestId;
  o_inventory : option Frames;
  o_inventory_queued : bool;
  o_update_facts : option Frames;
  o_update_facts_queued : bool;
  o_channels : gmap Channel Slot;
  o_closed : list Channel;
  o_requests : gmap RequestId bool;
  o_closing : bool
}.

Definition out_default : OutState :=
  {| o_l0 := []; o_l0_bytes := 0; o_l1 := []; o_l1_bytes := 0; o_l1_rest := []; o_l1_rest_reply := None;
     o_l2 := []; o_l2_bytes := 0; o_l2_rest := []; o_l2_rest_reply := None; o_inventory := None;
     o_inventory_queued := false; o_update_facts := None; o_update_facts_queued := false;
     o_channels := ∅; o_closed := []; o_requests := ∅; o_closing := false |}.

(** *** Field updates *)

Definition set_l0 (l0 : list (list byte)) (bytes : N) (closing : bool) (s : OutState) : OutState :=
  {| o_l0 := l0; o_l0_bytes := bytes; o_l1 := o_l1 s; o_l1_bytes := o_l1_bytes s; o_l1_rest := o_l1_rest s;
     o_l1_rest_reply := o_l1_rest_reply s; o_l2 := o_l2 s; o_l2_bytes := o_l2_bytes s;
     o_l2_rest := o_l2_rest s; o_l2_rest_reply := o_l2_rest_reply s; o_inventory := o_inventory s;
     o_inventory_queued := o_inventory_queued s; o_update_facts := o_update_facts s;
     o_update_facts_queued := o_update_facts_queued s; o_channels := o_channels s; o_closed := o_closed s;
     o_requests := o_requests s; o_closing := closing |}.
Definition set_l1 (l1 : list Entry) (bytes : N) (s : OutState) : OutState :=
  {| o_l0 := o_l0 s; o_l0_bytes := o_l0_bytes s; o_l1 := l1; o_l1_bytes := bytes; o_l1_rest := o_l1_rest s;
     o_l1_rest_reply := o_l1_rest_reply s; o_l2 := o_l2 s; o_l2_bytes := o_l2_bytes s;
     o_l2_rest := o_l2_rest s; o_l2_rest_reply := o_l2_rest_reply s; o_inventory := o_inventory s;
     o_inventory_queued := o_inventory_queued s; o_update_facts := o_update_facts s;
     o_update_facts_queued := o_update_facts_queued s; o_channels := o_channels s; o_closed := o_closed s;
     o_requests := o_requests s; o_closing := o_closing s |}.
Definition set_l1_rest (rest : list (list byte)) (reply : option RequestId) (s : OutState) : OutState :=
  {| o_l0 := o_l0 s; o_l0_bytes := o_l0_bytes s; o_l1 := o_l1 s; o_l1_bytes := o_l1_bytes s;
     o_l1_rest := rest; o_l1_rest_reply := reply; o_l2 := o_l2 s; o_l2_bytes := o_l2_bytes s;
     o_l2_rest := o_l2_rest s; o_l2_rest_reply := o_l2_rest_reply s; o_inventory := o_inventory s;
     o_inventory_queued := o_inventory_queued s; o_update_facts := o_update_facts s;
     o_update_facts_queued := o_update_facts_queued s; o_channels := o_channels s; o_closed := o_closed s;
     o_requests := o_requests s; o_closing := o_closing s |}.
Definition set_l2 (l2 : list (RequestId * Frames)) (bytes : N) (s : OutState) : OutState :=
  {| o_l0 := o_l0 s; o_l0_bytes := o_l0_bytes s; o_l1 := o_l1 s; o_l1_bytes := o_l1_bytes s;
     o_l1_rest := o_l1_rest s; o_l1_rest_reply := o_l1_rest_reply s; o_l2 := l2; o_l2_bytes := bytes;
     o_l2_rest := o_l2_rest s; o_l2_rest_reply := o_l2_rest_reply s; o_inventory := o_inventory s;
     o_inventory_queued := o_inventory_queued s; o_update_facts := o_update_facts s;
     o_update_facts_queued := o_update_facts_queued s; o_channels := o_channels s; o_closed := o_closed s;
     o_requests := o_requests s; o_closing := o_closing s |}.
Definition set_l2_rest (rest : list (list byte)) (reply : option RequestId) (s : OutState) : OutState :=
  {| o_l0 := o_l0 s; o_l0_bytes := o_l0_bytes s; o_l1 := o_l1 s; o_l1_bytes := o_l1_bytes s;
     o_l1_rest := o_l1_rest s; o_l1_rest_reply := o_l1_rest_reply s; o_l2 := o_l2 s;
     o_l2_bytes := o_l2_bytes s; o_l2_rest := rest; o_l2_rest_reply := reply; o_inventory := o_inventory s;
     o_inventory_queued := o_inventory_queued s; o_update_facts := o_update_facts s;
     o_update_facts_queued := o_update_facts_queued s; o_channels := o_channels s; o_closed := o_closed s;
     o_requests := o_requests s; o_closing := o_closing s |}.
Definition set_inventory (inventory : option Frames) (queued : bool) (s : OutState) : OutState :=
  {| o_l0 := o_l0 s; o_l0_bytes := o_l0_bytes s; o_l1 := o_l1 s; o_l1_bytes := o_l1_bytes s;
     o_l1_rest := o_l1_rest s; o_l1_rest_reply := o_l1_rest_reply s; o_l2 := o_l2 s;
     o_l2_bytes := o_l2_bytes s; o_l2_rest := o_l2_rest s; o_l2_rest_reply := o_l2_rest_reply s;
     o_inventory := inventory; o_inventory_queued := queued; o_update_facts := o_update_facts s;
     o_update_facts_queued := o_update_facts_queued s; o_channels := o_channels s; o_closed := o_closed s;
     o_requests := o_requests s; o_closing := o_closing s |}.
Definition set_update_facts (facts : option Frames) (queued : bool) (s : OutState) : OutState :=
  {| o_l0 := o_l0 s; o_l0_bytes := o_l0_bytes s; o_l1 := o_l1 s; o_l1_bytes := o_l1_bytes s;
     o_l1_rest := o_l1_rest s; o_l1_rest_reply := o_l1_rest_reply s; o_l2 := o_l2 s;
     o_l2_bytes := o_l2_bytes s; o_l2_rest := o_l2_rest s; o_l2_rest_reply := o_l2_rest_reply s;
     o_inventory := o_inventory s; o_inventory_queued := o_inventory_queued s; o_update_facts := facts;
     o_update_facts_queued := queued; o_channels := o_channels s; o_closed := o_closed s;
     o_requests := o_requests s; o_closing := o_closing s |}.
Definition set_channels (channels : gmap Channel Slot) (closed : list Channel) (s : OutState) : OutState :=
  {| o_l0 := o_l0 s; o_l0_bytes := o_l0_bytes s; o_l1 := o_l1 s; o_l1_bytes := o_l1_bytes s;
     o_l1_rest := o_l1_rest s; o_l1_rest_reply := o_l1_rest_reply s; o_l2 := o_l2 s;
     o_l2_bytes := o_l2_bytes s; o_l2_rest := o_l2_rest s; o_l2_rest_reply := o_l2_rest_reply s;
     o_inventory := o_inventory s; o_inventory_queued := o_inventory_queued s;
     o_update_facts := o_update_facts s; o_update_facts_queued := o_update_facts_queued s;
     o_channels := channels; o_closed := closed; o_requests := o_requests s; o_closing := o_closing s |}.
Definition set_requests (requests : gmap RequestId bool) (s : OutState) : OutState :=
  {| o_l0 := o_l0 s; o_l0_bytes := o_l0_bytes s; o_l1 := o_l1 s; o_l1_bytes := o_l1_bytes s;
     o_l1_rest := o_l1_rest s; o_l1_rest_reply := o_l1_rest_reply s; o_l2 := o_l2 s;
     o_l2_bytes := o_l2_bytes s; o_l2_rest := o_l2_rest s; o_l2_rest_reply := o_l2_rest_reply s;
     o_inventory := o_inventory s; o_inventory_queued := o_inventory_queued s;
     o_update_facts := o_update_facts s; o_update_facts_queued := o_update_facts_queued s;
     o_channels := o_channels s; o_closed := o_closed s; o_requests := requests; o_closing := o_closing s |}.

(** A slot written through [get_mut]. *)
Definition set_slot (channel : Channel) (slot : Slot) (s : OutState) : OutState :=
  set_channels (<[channel := slot]> (o_channels s)) (o_closed s) s.
(** [channels.remove] followed by [closed.push]. *)
Definition forget_channel (channel : Channel) (s : OutState) : OutState :=
  set_channels (delete channel (o_channels s)) (o_closed s ++ [channel]) s.

Definition set_sl_semantics (semantics : SemanticSlot) (slot : Slot) : Slot :=
  {| sl_pending := sl_pending slot; sl_queued := sl_queued slot; sl_visible := sl_visible slot;
     sl_next := sl_next slot; sl_in_flight := sl_in_flight slot; sl_acknowledged := sl_acknowledged slot;
     sl_keyframe := sl_keyframe slot; sl_end := sl_end slot; sl_semantics := semantics |}.
Definition set_sl_queued (queued : bool) (slot : Slot) : Slot :=
  {| sl_pending := sl_pending slot; sl_queued := queued; sl_visible := sl_visible slot;
     sl_next := sl_next slot; sl_in_flight := sl_in_flight slot; sl_acknowledged := sl_acknowledged slot;
     sl_keyframe := sl_keyframe slot; sl_end := sl_end slot; sl_semantics := sl_semantics slot |}.
Definition set_sl_pending (pending : option Presentation) (slot : Slot) : Slot :=
  {| sl_pending := pending; sl_queued := sl_queued slot; sl_visible := sl_visible slot;
     sl_next := sl_next slot; sl_in_flight := sl_in_flight slot; sl_acknowledged := sl_acknowledged slot;
     sl_keyframe := sl_keyframe slot; sl_end := sl_end slot; sl_semantics := sl_semantics slot |}.
Definition set_sl_in_flight (in_flight : option (N * option N)) (slot : Slot) : Slot :=
  {| sl_pending := sl_pending slot; sl_queued := sl_queued slot; sl_visible := sl_visible slot;
     sl_next := sl_next slot; sl_in_flight := in_flight; sl_acknowledged := sl_acknowledged slot;
     sl_keyframe := sl_keyframe slot; sl_end := sl_end slot; sl_semantics := sl_semantics slot |}.
Definition set_sl_end (end_ : option Frames) (slot : Slot) : Slot :=
  {| sl_pending := sl_pending slot; sl_queued := sl_queued slot; sl_visible := sl_visible slot;
     sl_next := sl_next slot; sl_in_flight := sl_in_flight slot; sl_acknowledged := sl_acknowledged slot;
     sl_keyframe := sl_keyframe slot; sl_end := end_; sl_semantics := sl_semantics slot |}.
Definition set_sl_visible (visible : bool) (slot : Slot) : Slot :=
  {| sl_pending := sl_pending slot; sl_queued := sl_queued slot; sl_visible := visible;
     sl_next := sl_next slot; sl_in_flight := sl_in_flight slot; sl_acknowledged := sl_acknowledged slot;
     sl_keyframe := sl_keyframe slot; sl_end := sl_end slot; sl_semantics := sl_semantics slot |}.
Definition set_sl_keyframe (keyframe : bool) (slot : Slot) : Slot :=
  {| sl_pending := sl_pending slot; sl_queued := sl_queued slot; sl_visible := sl_visible slot;
     sl_next := sl_next slot; sl_in_flight := sl_in_flight slot; sl_acknowledged := sl_acknowledged slot;
     sl_keyframe := keyframe; sl_end := sl_end slot; sl_semantics := sl_semantics slot |}.
Definition set_sl_acknowledged (acknowledged : option N) (slot : Slot) : Slot :=
  {| sl_pending := sl_pending slot; sl_queued := sl_queued slot; sl_visible := sl_visible slot;
     sl_next := sl_next slot; sl_in_flight := sl_in_flight slot; sl_acknowledged := acknowledged;
     sl_keyframe := sl_keyframe slot; sl_end := sl_end slot; sl_semantics := sl_semantics slot |}.
End State.
Arguments Slot {P SM} Presentation : assert.
Arguments OutState {P SM} Presentation : assert.

Section Operations.
Context `{P : Payloads}.
Context `{SM : !SemanticModels}.
Context {Presentation : Type}.
Context `{Postcard Reply, Postcard Frame, Postcard AccessibilityMessage, Postcard PaneMessage,
  Postcard (InventoryRevision Inventory), Postcard UpdateFacts, Postcard Ping, Postcard Pong, Postcard Fatal}.
Implicit Types s : OutState Presentation.

Definition encode_frames (message : CoreMessage) : result Frames OutboxError :=
  match encode_core message with
  | Ok wire => Ok (wm_frames wire)
  | Err error => Err (Out_Encode error)
  end.

(** ** Queues *)

(** [State::open]. *)
Definition out_open s : result unit OutboxError := if o_closing s then Err Out_Closed else Ok tt.

Definition overflow s : OutState Presentation * OutboxError :=
  (if o_closing s then s
   else
     let l0 := match encode_frames (Core_Goodbye Fatal_Stalled) with
               | Ok frames => o_l0 s ++ frames
               | Err _ => o_l0 s
               end in
     set_l0 l0 (o_l0_bytes s) true s,
   Out_Stalled).

Definition overflowed s : OutState Presentation * result unit OutboxError :=
  let '(s, error) := overflow s in (s, Err error).

Definition push_l0 (message : CoreMessage) s : OutState Presentation * result unit OutboxError :=
  if o_closing s then (s, Err Out_Closed)
  else match encode_frames message with
  | Err error => (s, Err error)
  | Ok frames =>
      let bytes := frames_size frames in
      if (MAX_L0_FRAMES <? length (o_l0 s) + length frames) || (MAX_L0_BYTES <? o_l0_bytes s + bytes)%N
      then overflowed s
      else (set_l0 (o_l0 s ++ frames) (o_l0_bytes s + bytes) (o_closing s) s, Ok tt)
  end.

Definition entry_bytes (entry : Entry) : N :=
  match entry with
  | Entry_Message frames _ => frames_size frames
  | Entry_Inventory | Entry_UpdateFacts | Entry_Frame _ | Entry_Semantics _ => 0
  end.

Definition push_l1 (entry : Entry) s : OutState Presentation * result unit OutboxError :=
  if o_closing s then (s, Err Out_Closed)
  else
    let bytes := entry_bytes entry in
    if (MAX_L1_MESSAGES <=? N.of_nat (length (o_l1 s)))%N || (MAX_L1_BYTES <? o_l1_bytes s + bytes)%N
    then overflowed s
    else (set_l1 (o_l1 s ++ [entry]) (o_l1_bytes s + bytes) s, Ok tt).

(** ** Requests and replies *)

(** [Outbox::begin]: the id is registered also when it was already in flight. *)
Definition ob_begin (id : RequestId) s : OutState Presentation * result unit OutboxError :=
  if MAX_REQUESTS_IN_FLIGHT <=? size (o_requests s) then (s, Err Out_Violation)
  else
    let s' := set_requests (<[id := false]> (o_requests s)) s in
    match o_requests s !! id with
    | Some _ => (s', Err Out_Violation)
    | None => (s', Ok tt)
    end.

Definition ob_reply (id : RequestId) (answer : result ReplyBody Refusal) s
    : OutState Presentation * result unit OutboxError :=
  let in_bulk := match answer with Ok body => bulk body | Err _ => false end in
  match encode_frames (Core_Reply {| rp_id := id; rp_result := answer |}) with
  | Err error => (s, Err error)
  | Ok frames =>
      if o_closing s then (s, Err Out_Closed)
      else match o_requests s !! id with
      | Some false =>
          if in_bulk then
            let bytes := frames_size frames in
            if (MAX_L2_MESSAGES <=? length (o_l2 s)) || (MAX_L2_BYTES <? o_l2_bytes s + bytes)%N
            then overflowed s
            else
              let s := set_l2 (o_l2 s ++ [(id, frames)]) (o_l2_bytes s + bytes) s in
              (set_requests (<[id := true]> (o_requests s)) s, Ok tt)
          else match push_l1 (Entry_Message frames (Some id)) s with
          | (s, Err error) => (s, Err error)
          | (s, Ok _) => (set_requests (<[id := true]> (o_requests s)) s, Ok tt)
          end
      | _ => (s, Err Out_Misuse)
      end
  end.

Definition reply_or_refuse (id : RequestId) (answer : result ReplyBody Refusal) s
    : OutState Presentation * result unit OutboxError :=
  match ob_reply id answer s with
  | (s, Err (Out_Encode error)) =>
      ob_reply id (Err match error with
                       | TooLarge => Refusal_Capacity
                       | Unencodable => Refusal_Failed
                       end) s
  | outcome => outcome
  end.

Definition owes_replies s : bool := negb (size (o_requests s) =? 0).

(** ** Events and latest states *)

Definition ob_pane (channel : Channel) (event : PaneEvent) s
    : OutState Presentation * result unit OutboxError :=
  match encode_frames (Core_Pane {| pm_channel := channel; pm_event := event |}) with
  | Err error => (s, Err error)
  | Ok frames => push_l1 (Entry_Message frames None) s
  end.

Definition ob_inventory (revision : InventoryRevision Inventory) s
    : OutState Presentation * result unit OutboxError :=
  match encode_frames (Core_Inventory revision) with
  | Err error => (s, Err error)
  | Ok frames =>
      if o_closing s then (s, Err Out_Closed)
      else if o_inventory_queued s then (set_inventory (Some frames) true s, Ok tt)
      else match push_l1 Entry_Inventory s with
      | (s, Err error) => (s, Err error)
      | (s, Ok _) => (set_inventory (Some frames) true s, Ok tt)
      end
  end.

Definition ob_update_facts (facts : UpdateFacts) s : OutState Presentation * result unit OutboxError :=
  match encode_frames (Core_UpdateFacts facts) with
  | Err error => (s, Err error)
  | Ok frames =>
      if o_closing s then (s, Err Out_Closed)
      else if o_update_facts_queued s then (set_update_facts (Some frames) true s, Ok tt)
      else match push_l1 Entry_UpdateFacts s with
      | (s, Err error) => (s, Err error)
      | (s, Ok _) => (set_update_facts (Some frames) true s, Ok tt)
      end
  end.

Definition ob_ping (nonce : N) s := push_l0 (Core_Ping {| pi_nonce := nonce |}) s.
Definition ob_pong (nonce : N) s := push_l0 (Core_Pong {| po_nonce := nonce |}) s.

Definition ob_goodbye (fatal : Fatal) s : OutState Presentation * result unit OutboxError :=
  match encode_frames (Core_Goodbye fatal) with
  | Err error => (s, Err error)
  | Ok frames =>
      if o_closing s then (s, Err Out_Closed)
      else (set_l0 (o_l0 s ++ frames) (o_l0_bytes s) true s, Ok tt)
  end.

(** The flag that asks the I/O thread to publish; an atomic beside the state. *)
Definition request_publication (_ : bool) : bool := true.
Definition take_publication (requested : bool) : bool * bool := (false, requested).

Definition is_closing s : bool := o_closing s.
Definition disconnected s : OutState Presentation := set_l0 (o_l0 s) (o_l0_bytes s) true s.

(** ** Channels *)

Definition slot_new : Slot Presentation :=
  {| sl_pending := None; sl_queued := false; sl_visible := true; sl_next := 1; sl_in_flight := None;
     sl_acknowledged := None; sl_keyframe := true; sl_end := None; sl_semantics := semantic_default |}.

(** [Outbox::open]. *)
Definition ob_open (channel : Channel) s : OutState Presentation * result unit OutboxError :=
  if MAX_CHANNELS <=? size (o_channels s) then (s, Err Out_Capacity)
  else match o_channels s !! channel with
  | Some _ => (s, Err Out_Misuse)
  | None => (set_slot channel slot_new s, Ok tt)
  end.

Definition ob_close (channel : Channel) s : OutState Presentation := forget_channel channel s.

Definition ob_end (channel : Channel) (event : PaneEvent) s
    : OutState Presentation * result unit OutboxError :=
  match encode_frames (Core_Pane {| pm_channel := channel; pm_event := event |}) with
  | Err error => (s, Err error)
  | Ok frames =>
      if o_closing s then (s, Err Out_Closed)
      else match o_channels s !! channel with
      | None =>
          push_l1 (Entry_Message frames None)
            (set_channels (o_channels s) (o_closed s ++ [channel]) s)
      | Some slot =>
          match sl_end slot with
          | Some _ => (s, Ok tt)
          | None =>
              let slot := set_sl_semantics (set_sm_demand None (sl_semantics slot)) slot in
              match sl_pending slot, sl_in_flight slot with
              | None, None => push_l1 (Entry_Message frames None) (forget_channel channel s)
              | _, _ => (set_slot channel (set_sl_end (Some frames) slot) s, Ok tt)
              end
          end
      end
  end.

Definition take_closed s : OutState Presentation * list Channel :=
  (set_channels (o_channels s) [] s, o_closed s).

(** [State::queue_semantics]. *)
Definition queue_semantics (channel : Channel) s : OutState Presentation * result unit OutboxError :=
  match o_channels s !! channel with
  | None => (s, Ok tt)
  | Some slot =>
      if negb (sl_visible slot) || (match sl_end slot with Some _ => true | None => false end)
         || sm_queued (sl_semantics slot) || negb (has_work (sl_semantics slot))
      then (s, Ok tt)
      else push_l1 (Entry_Semantics channel)
             (set_slot channel (set_sl_semantics (set_sm_queued true (sl_semantics slot)) slot) s)
  end.

Definition ob_view (channel : Channel) (visible : bool) s : OutState Presentation :=
  match o_channels s !! channel with
  | None => if visible then (queue_semantics channel s).1 else s
  | Some slot =>
      let slot := set_sl_visible visible slot in
      if visible then (queue_semantics channel (set_slot channel slot s)).1
      else
        let slot := set_sl_pending None slot in
        match sl_in_flight slot, sl_end slot with
        | None, Some frames =>
            (push_l1 (Entry_Message frames None) (forget_channel channel s)).1
        | _, _ => set_slot channel slot s
        end
  end.

Definition ob_present (channel : Channel) (presentation : Presentation) s
    : OutState Presentation * result unit OutboxError :=
  if o_closing s then (s, Err Out_Closed)
  else match o_channels s !! channel with
  | None => (s, Ok tt)
  | Some slot =>
      if negb (sl_visible slot) || (match sl_end slot with Some _ => true | None => false end)
      then (s, Ok tt)
      else
        let slot := set_sl_pending (Some presentation) slot in
        match sl_queued slot, sl_in_flight slot with
        | false, None => push_l1 (Entry_Frame channel) (set_slot channel (set_sl_queued true slot) s)
        | _, _ => (set_slot channel slot s, Ok tt)
        end
  end.

Definition require_keyframe (channel : Channel) s : OutState Presentation :=
  match o_channels s !! channel with
  | Some slot => set_slot channel (set_sl_keyframe true slot) s
  | None => s
  end.

Definition ob_acknowledge (channel : Channel) (frame : N) s
    : OutState Presentation * result unit OutboxError :=
  match o_channels s !! channel with
  | None => (s, Ok tt)
  | Some slot =>
      if negb (bool_decide (fst <$> sl_in_flight slot = Some frame)) then (s, Err Out_Violation)
      else
        let slot := set_sl_acknowledged (Some frame) (set_sl_in_flight None slot) in
        match sl_pending slot, sl_end slot with
        | Some _, _ =>
            if sl_queued slot then (set_slot channel slot s, Ok tt)
            else push_l1 (Entry_Frame channel) (set_slot channel (set_sl_queued true slot) s)
        | None, Some frames => push_l1 (Entry_Message frames None) (forget_channel channel s)
        | None, None => (set_slot channel slot s, Ok tt)
        end
  end.

(** ** Semantic demand *)

Definition start_semantics (channel : Channel) (generation : N) s
    : OutState Presentation * result unit OutboxError :=
  match o_channels s !! channel with
  | None => (s, Ok tt)
  | Some slot =>
      if (generation <=? sm_last_start (sl_semantics slot))%N then (s, Err Out_Violation)
      else
        let semantics :=
          {| sm_last_start := generation;
             sm_demand := Some {| dm_generation := generation; dm_acknowledged := None; dm_pending := None;
                                  dm_in_flight := None; dm_sent_high := None |};
             sm_queued := sm_queued (sl_semantics slot); sm_started := sm_started (sl_semantics slot) |} in
        (set_slot channel (set_sl_semantics semantics slot) s, Ok tt)
  end.

Definition end_semantics (channel : Channel) s : OutState Presentation :=
  match o_channels s !! channel with
  | Some slot => set_slot channel (set_sl_semantics (set_sm_demand None (sl_semantics slot)) slot) s
  | None => s
  end.

(** [Outbox::semantics] with [State::offer_semantics]. *)
Definition offer_semantics (channel : Channel) (model : Model) s
    : OutState Presentation * result unit OutboxError :=
  if o_closing s then (s, Err Out_Closed)
  else match o_channels s !! channel with
  | None => (s, Ok tt)
  | Some slot =>
      match sl_end slot, sm_demand (sl_semantics slot) with
      | None, Some demand =>
          let demand :=
            {| dm_generation := dm_generation demand; dm_acknowledged := dm_acknowledged demand;
               dm_pending := Some model; dm_in_flight := dm_in_flight demand;
               dm_sent_high := dm_sent_high demand |} in
          queue_semantics channel
            (set_slot channel (set_sl_semantics (set_sm_demand (Some demand) (sl_semantics slot)) slot) s)
      | _, _ => (s, Ok tt)
      end
  end.

Definition acknowledge_semantics (channel : Channel) (demand_generation revision : N) s
    : OutState Presentation * result unit OutboxError :=
  match o_channels s !! channel with
  | None => (s, Ok tt)
  | Some slot =>
      let semantics := sl_semantics slot in
      if (sm_last_start semantics <? demand_generation)%N then (s, Err Out_Violation)
      else match sm_demand semantics with
      | Some demand =>
          if negb (dm_generation demand =? demand_generation)%N then (s, Ok tt)
          else
            let skipped :=
              if match dm_sent_high demand with Some high => (revision <=? high)%N | None => false end
              then (s, Ok tt) else (s, Err Out_Violation) in
            match dm_in_flight demand with
            | Some flight =>
                if (fl_revision flight =? revision)%N
                   && match fl_rest flight with Rest_Written => true | _ => false end
                then
                  let demand :=
                    {| dm_generation := dm_generation demand;
                       dm_acknowledged := Some (revision, fl_model flight); dm_pending := dm_pending demand;
                       dm_in_flight := None; dm_sent_high := dm_sent_high demand |} in
                  queue_semantics channel
                    (set_slot channel (set_sl_semantics (set_sm_demand (Some demand) semantics) slot) s)
                else skipped
            | None => skipped
            end
      | None => (s, Ok tt)
      end
  end.

(** ** Writing *)

Definition written (now : N) s : OutState Presentation :=
  set_channels
    ((λ slot, match sl_in_flight slot with
              | Some (frame, None) => set_sl_in_flight (Some (frame, Some now)) slot
              | _ => slot
              end) <$> o_channels s) (o_closed s) s.

Definition unacknowledged_since s : option N :=
  foldr (λ '(_, slot) earliest,
    match sl_in_flight slot with
    | Some (_, Some since) =>
        match earliest with Some other => Some (N.min since other) | None => Some since end
    | _ => earliest
    end) None (map_to_list (o_channels s)).

Inductive Taken :=
  | Taken_Frame (frame : list byte) (priority : Priority)
  | Taken_Present (ticket : FrameTicket) (presentation : Presentation) (end_ : option Frames)
  | Taken_Semantics (work : Work)
  | Taken_Skip.

Definition answered (reply : option RequestId) s : OutState Presentation :=
  match reply with
  | Some id => set_requests (delete id (o_requests s)) s
  | None => s
  end.

(** [State::first], at L1 and at L2. *)
Definition take_first_l1 (frames : Frames) (reply : option RequestId) s : OutState Presentation * Taken :=
  match frames with
  | [] => (answered reply s, Taken_Skip)
  | first :: frames =>
      let rest := o_l1_rest s ++ frames in
      (if is_empty rest then answered reply (set_l1_rest rest (o_l1_rest_reply s) s)
       else set_l1_rest rest reply s, Taken_Frame first L1)
  end.
Definition take_first_l2 (frames : Frames) (reply : option RequestId) s : OutState Presentation * Taken :=
  match frames with
  | [] => (answered reply s, Taken_Skip)
  | first :: frames =>
      let rest := o_l2_rest s ++ frames in
      (if is_empty rest then answered reply (set_l2_rest rest (o_l2_rest_reply s) s)
       else set_l2_rest rest reply s, Taken_Frame first L2)
  end.

(** [State::present]. *)
Definition take_present (channel : Channel) s : OutState Presentation * Taken :=
  match o_channels s !! channel with
  | None => (s, Taken_Skip)
  | Some slot =>
      let slot := set_sl_queued false slot in
      if negb (sl_visible slot) || (match sl_in_flight slot with Some _ => true | None => false end)
      then (set_slot channel slot s, Taken_Skip)
      else match sl_pending slot with
      | None => (set_slot channel slot s, Taken_Skip)
      | Some presentation =>
          let ticket :=
            {| tk_channel := channel; tk_frame := sl_next slot;
               tk_base := if sl_keyframe slot then None else sl_acknowledged slot |} in
          let end_ := sl_end slot in
          let slot :=
            {| sl_pending := None; sl_queued := false; sl_visible := sl_visible slot;
               sl_next := u64_wrapping_add (sl_next slot) 1; sl_in_flight := Some (tk_frame ticket, None);
               sl_acknowledged := sl_acknowledged slot; sl_keyframe := false; sl_end := None;
               sl_semantics := sl_semantics slot |} in
          (match end_ with
           | Some _ => forget_channel channel s
           | None => set_slot channel slot s
           end, Taken_Present ticket presentation end_)
      end
  end.

Definition take_semantics (channel : Channel) s : OutState Presentation * option Work :=
  match o_channels s !! channel with
  | None => (s, None)
  | Some slot =>
      let semantics := set_sm_queued false (sl_semantics slot) in
      let write semantics := set_slot channel (set_sl_semantics semantics slot) s in
      if negb (sl_visible slot) || (match sl_end slot with Some _ => true | None => false end)
      then (write semantics, None)
      else match sm_demand semantics with
      | None => (write semantics, None)
      | Some demand =>
          match dm_in_flight demand with
          | Some flight =>
              let semantics :=
                set_sm_demand (Some (set_dm_in_flight (Some (set_fl_rest Rest_Encoding flight)) demand))
                  semantics in
              (write semantics,
               match fl_rest flight with
               | Rest_Ready encoding =>
                   Some {| wk_channel := channel; wk_serial := fl_serial flight;
                           wk_step := Step_Continue encoding |}
               | _ => None
               end)
          | None =>
              match dm_pending demand with
              | None => (write semantics, None)
              | Some model =>
                  let revision := model_revision model in
                  let emptied flight :=
                    {| dm_generation := dm_generation demand; dm_acknowledged := dm_acknowledged demand;
                       dm_pending := None; dm_in_flight := flight; dm_sent_high := dm_sent_high demand |} in
                  if match dm_acknowledged demand with
                     | Some (acknowledged, _) => (revision <=? acknowledged)%N
                     | None => false
                     end
                  then (write (set_sm_demand (Some (emptied None)) semantics), None)
                  else
                    let serial := u64_wrapping_add (sm_started semantics) 1 in
                    let flight := {| fl_serial := serial; fl_revision := revision; fl_model := model;
                                     fl_rest := Rest_Encoding |} in
                    (write {| sm_last_start := sm_last_start semantics;
                              sm_demand := Some (emptied (Some flight));
                              sm_queued := sm_queued semantics; sm_started := serial |},
                     Some {| wk_channel := channel; wk_serial := serial;
                             wk_step := Step_Begin model
                               {| st_demand_generation := dm_generation demand; st_revision := revision;
                                  st_base := fst <$> dm_acknowledged demand |}
                               (snd <$> dm_acknowledged demand) |})
              end
          end
      end
  end.

(** [State::take]. *)
Definition ob_take (lowest : Priority) s : OutState Presentation * option Taken :=
  match o_l0 s with
  | frame :: l0 =>
      (set_l0 l0 (o_l0_bytes s - byte_len frame) (o_closing s) s, Some (Taken_Frame frame L0))
  | [] =>
      if o_closing s then (s, None)
      else match o_l1_rest s with
      | frame :: rest =>
          (if is_empty rest then answered (o_l1_rest_reply s) (set_l1_rest rest None s)
           else set_l1_rest rest (o_l1_rest_reply s) s, Some (Taken_Frame frame L1))
      | [] =>
          match o_l1 s with
          | entry :: l1 =>
              let s := set_l1 l1 (o_l1_bytes s) s in
              match entry with
              | Entry_Message frames reply =>
                  let '(s, taken) :=
                    take_first_l1 frames reply (set_l1 l1 (o_l1_bytes s - frames_size frames) s) in
                  (s, Some taken)
              | Entry_Inventory =>
                  let frames := match o_inventory s with Some frames => frames | None => [] end in
                  let '(s, taken) := take_first_l1 frames None (set_inventory None false s) in
                  (s, Some taken)
              | Entry_UpdateFacts =>
                  let frames := match o_update_facts s with Some frames => frames | None => [] end in
                  let '(s, taken) := take_first_l1 frames None (set_update_facts None false s) in
                  (s, Some taken)
              | Entry_Frame channel => let '(s, taken) := take_present channel s in (s, Some taken)
              | Entry_Semantics channel =>
                  let '(s, work) := take_semantics channel s in
                  (s, Some (match work with Some work => Taken_Semantics work | None => Taken_Skip end))
              end
          | [] =>
              match lowest with
              | L0 | L1 => (s, None)
              | L2 =>
                  match o_l2_rest s with
                  | frame :: rest =>
                      (if is_empty rest then answered (o_l2_rest_reply s) (set_l2_rest rest None s)
                       else set_l2_rest rest (o_l2_rest_reply s) s, Some (Taken_Frame frame L2))
                  | [] =>
                      match o_l2 s with
                      | (id, frames) :: l2 =>
                          let '(s, taken) :=
                            take_first_l2 frames (Some id)
                              (set_l2 l2 (o_l2_bytes s - frames_size frames) s) in
                          (s, Some taken)
                      | [] => (s, None)
                      end
                  end
              end
          end
      end
  end.

(** [State::unsent]. *)
Definition unsent (ticket : FrameTicket) s : OutState Presentation :=
  match o_channels s !! tk_channel ticket with
  | Some slot =>
      if bool_decide (fst <$> sl_in_flight slot = Some (tk_frame ticket))
      then
        let slot := set_sl_in_flight None slot in
        let slot := set_sl_keyframe
                      (sl_keyframe slot || match tk_base ticket with None => true | Some _ => false end) slot in
        match sl_pending slot, sl_queued slot with
        | Some _, false =>
            (push_l1 (Entry_Frame (tk_channel ticket))
               (set_slot (tk_channel ticket) (set_sl_queued true slot) s)).1
        | _, _ => set_slot (tk_channel ticket) slot s
        end
      else s
  | None => s
  end.

(** [next_frame_within] after it encoded a presentation: [presented] is what the
    encoder returned for the ticket, the input serial and the update. *)
Definition commit_presented (ticket : FrameTicket) (end_ : option Frames)
    (presented : option (N * ScreenUpdate)) s : OutState Presentation * option (list byte) :=
  let encoded :=
    (λ p, encode_frames (Core_Frame {| fr_channel := tk_channel ticket; fr_frame := tk_frame ticket;
                                       fr_base := tk_base ticket; fr_input := p.1; fr_update := p.2 |}))
    <$> presented in
  let write frames s :=
    match frames ++ match end_ with Some frames => frames | None => [] end with
    | [] => (s, None)
    | first :: rest => (set_l1_rest (rest ++ o_l1_rest s) (o_l1_rest_reply s) s, Some first)
    end in
  match encoded, end_ with
  | Some (Ok frames), _ => write frames s
  | None, None => (unsent ticket s, None)
  | None, Some _ | Some (Err _), Some _ => write [] s
  | Some (Err _), None =>
      let s := forget_channel (tk_channel ticket) s in
      write match encode_frames (Core_Pane {| pm_channel := tk_channel ticket; pm_event := Event_Failed |}) with
            | Ok frames => frames
            | Err _ => []
            end s
  end.

(** [State::flight]. *)
Definition flight (channel : Channel) (serial : N) s
    : option (Slot Presentation * Demand * InFlight) :=
  match o_channels s !! channel with
  | Some slot =>
      match sm_demand (sl_semantics slot) with
      | Some demand =>
          match dm_in_flight demand with
          | Some f => if (fl_serial f =? serial)%N then Some (slot, demand, f) else None
          | None => None
          end
      | None => None
      end
  | None => None
  end.

Definition semantics_taken (channel : Channel) (serial : N) (rest : option Encoding) s
    : OutState Presentation * result bool OutboxError :=
  match flight channel serial s with
  | None => (s, Ok false)
  | Some (slot, demand, f) =>
      let demand :=
        match rest with
        | Some rest => set_dm_in_flight (Some (set_fl_rest (Rest_Ready rest) f)) demand
        | None =>
            {| dm_generation := dm_generation demand; dm_acknowledged := dm_acknowledged demand;
               dm_pending := dm_pending demand; dm_in_flight := Some (set_fl_rest Rest_Written f);
               dm_sent_high := Some (fl_revision f) |}
        end in
      match queue_semantics channel
              (set_slot channel (set_sl_semantics (set_sm_demand (Some demand) (sl_semantics slot)) slot) s) with
      | (s, Ok _) => (s, Ok true)
      | (s, Err error) => (s, Err error)
      end
  end.

Definition semantics_unsent (channel : Channel) (serial : N) s : OutState Presentation :=
  match flight channel serial s with
  | None => s
  | Some (slot, demand, _) =>
      (queue_semantics channel
         (set_slot channel
            (set_sl_semantics (set_sm_demand (Some (set_dm_in_flight None demand)) (sl_semantics slot)) slot)
            s)).1
  end.

(** [Outbox::semantics_frame] after [Work::run] encoded the next message. *)
Definition commit_semantics (ran : result Encoded (Channel * N)) s
    : OutState Presentation * option (list byte) :=
  match ran with
  | Err (channel, serial) => (semantics_unsent channel serial s, None)
  | Ok encoded =>
      let channel := en_channel encoded in
      let write frames s :=
        match frames with
        | [] => (s, None)
        | first :: frames => (set_l1_rest (o_l1_rest s ++ frames) (o_l1_rest_reply s) s, Some first)
        end in
      match encode_frames (Core_Accessibility {| am_channel := channel; am_update := en_update encoded |}) with
      | Ok frames =>
          match semantics_taken channel (en_serial encoded) (en_rest encoded) s with
          | (s, Ok true) => write frames s
          | (s, _) => (s, None)
          end
      | Err _ =>
          match o_channels s !! channel with
          | None => (s, None)
          | Some _ =>
              let s := forget_channel channel s in
              match encode_frames (Core_Pane {| pm_channel := channel; pm_event := Event_Failed |}) with
              | Ok frames => write frames s
              | Err _ => (s, None)
              end
          end
      end
  end.
End Operations.
Arguments Taken {P SM} Presentation : assert.
