(* ===== verification/OutboxProofs.v ===== *)
(** * What an outbox holds

    The calls on an outbox as one machine, and its invariant: every queue is within
    its bound and carries whole encoded messages of its level. *)
From stdpp Require Import fin_maps.
From S2P Require Import Prelude.
From S2P Require Import Text.
From S2P Require Import Facts.
From S2P Require Import HierarchyTypes.
From S2P Require Import DiskJournal.
From S2P Require Import Messages.
From S2P Require Import Wire.
From S2P Require Import WireTheorems.
From S2P Require Import Outbox.

Create HintDb outbox.

(** The level at which a kind travels. *)
Definition kind_level (k : Kind) : Priority :=
  match k with
  | Kind_CorePing | Kind_CorePong | Kind_Goodbye => L0
  | Kind_BulkReply => L2
  | _ => L1
  end.

Lemma size_delete_le `{Countable K} {A} (m : gmap K A) i : size (delete i m) ≤ size m.
Proof. rw map_size_delete. destruct (m !! i); simpl; lia. Qed.

Lemma encode_kind {A} `{Postcard A} k (value : A) wm : encode k value = Ok wm → wm_kind wm = k.
Proof.
  unfold encode. destruct (to_bytes value) as [body|]; [|done]. simpl. intros He.
  by destruct (encode_bytes_spec _ _ _ He).
Qed.

Section Proofs.
Context `{P : Payloads}.
Context `{SM : !SemanticModels}.
Context {Presentation : Type}.
Context `{Postcard Reply, Postcard Frame, Postcard AccessibilityMessage, Postcard PaneMessage,
  Postcard (InventoryRevision Inventory), Postcard UpdateFacts, Postcard Ping, Postcard Pong, Postcard Fatal}.
Implicit Types s : OutState Presentation.

(** Whole frames of one valid message of a level, and the request it replies to. *)
Definition reply_of (message : CoreMessage) : option RequestId :=
  match message with Core_Reply reply => Some (rp_id reply) | _ => None end.
Definition Carries (level : Priority) (reply : option RequestId) (frames : Frames) : Prop :=
  ∃ m wm, encode_core m = Ok wm ∧ wm_frames wm = frames ∧ core_validate m = true ∧
    kind_level (wm_kind wm) = level ∧ reply_of m = reply.

Lemma carries_nonempty level reply frames : Carries level reply frames → ∃ f rest, frames = f :: rest.
Proof.
  intros (m & wm & He & <- & _). assert (∃ k body, encode_bytes k body = Ok wm) as (k & body & Hb).
  { destruct m; simpl in He; unfold encode in He;
      (match type of He with context [to_bytes ?v] => destruct (to_bytes v); [|done] end); simpl in He; eexists _, _; exact He. }
  destruct (encode_bytes_spec _ _ _ Hb) as (_ & _ & parts & Hne & _ & _ & ->).
  destruct parts as [|part parts]; [done|]. simpl. by eexists _, _.
Qed.

Record SlotOk (n : N) (slot : Slot Presentation) : Prop := {
  so_next : (1 <= sl_next slot <= 1 + n)%N;
  so_acknowledged : ∀ a, sl_acknowledged slot = Some a → (a < sl_next slot)%N;
  so_in_flight : ∀ f since, sl_in_flight slot = Some (f, since) → (f < sl_next slot)%N;
  so_end : ∀ frames, sl_end slot = Some frames → Carries L1 None frames
}.

Definition entry_ok (entry : Entry) : Prop :=
  match entry with Entry_Message frames reply => Carries L1 reply frames | _ => True end.

Definition sum_entries (l1 : list Entry) : N := foldr (λ e n, entry_bytes e + n)%N 0%N l1.
Definition sum_bulk (l2 : list (RequestId * Frames)) : N := foldr (λ e n, frames_size e.2 + n)%N 0%N l2.

Record OutInv (n : N) s : Prop := {
  oi_l0 : Forall (λ f, Carries L0 None [f]) (o_l0 s);
  oi_l1 : Forall entry_ok (o_l1 s);
  oi_l2 : Forall (λ e, Carries L2 (Some e.1) e.2) (o_l2 s);
  oi_inventory : ∀ frames, o_inventory s = Some frames → Carries L1 None frames;
  oi_facts : ∀ frames, o_update_facts s = Some frames → Carries L1 None frames;
  oi_slots : map_Forall (λ _ slot, SlotOk n slot) (o_channels s);
  oi_l0_len : length (o_l0 s) ≤ MAX_L0_FRAMES + (if o_closing s then 1 else 0);
  oi_l1_len : (N.of_nat (length (o_l1 s)) <= MAX_L1_MESSAGES)%N;
  oi_l1_bytes : o_l1_bytes s = sum_entries (o_l1 s);
  oi_l1_max : (o_l1_bytes s <= MAX_L1_BYTES)%N;
  oi_l2_len : length (o_l2 s) ≤ MAX_L2_MESSAGES;
  oi_l2_bytes : o_l2_bytes s = sum_bulk (o_l2 s);
  oi_l2_max : (o_l2_bytes s <= MAX_L2_BYTES)%N;
  oi_requests : size (o_requests s) ≤ MAX_REQUESTS_IN_FLIGHT;
  oi_channels : size (o_channels s) ≤ MAX_CHANNELS
}.

(** The requests whose replies wait in a queue. *)
Definition entry_reply (entry : Entry) : option RequestId :=
  match entry with Entry_Message _ reply => reply | _ => None end.
Definition queued_ids s : list RequestId := omap entry_reply (o_l1 s) ++ map fst (o_l2 s).

(** A state after a call that queued replies to [q]: the invariant holds and partly
    written messages are left. *)
Record Good (n : N) (q : list RequestId) (s0 s : OutState Presentation) : Prop := {
  gd_inv : OutInv n s;
  gd_l1_rest : o_l1_rest s = o_l1_rest s0;
  gd_l2_rest : o_l2_rest s = o_l2_rest s0;
  gd_l1_reply : o_l1_rest_reply s = o_l1_rest_reply s0;
  gd_l2_reply : o_l2_rest_reply s = o_l2_rest_reply s0;
  gd_queued : queued_ids s ≡ₚ q ++ queued_ids s0
}.

Lemma Good_refl n s : OutInv n s → Good n [] s s.
Proof. by split. Qed.

Lemma SlotOk_mono n n' slot : (n <= n')%N → SlotOk n slot → SlotOk n' slot.
Proof. intros Hn [? ? ? ?]. split; try done. lia. Qed.

Lemma OutInv_mono n n' s : (n <= n')%N → OutInv n s → OutInv n' s.
Proof.
  intros Hn [I1 I2 I3 I4 I5 I6 I7 I8 I9 I10 I11 I12 I13 I14 I15]. split; try done.
  intros c slot Hc. eapply SlotOk_mono; [exact Hn|]. by eapply I6.
Qed.

(** ** Queue operations *)

Lemma encode_frames_carries m frames :
  encode_frames m = Ok frames → core_validate m = true →
  ∃ wm, encode_core m = Ok wm ∧ Carries (kind_level (wm_kind wm)) (reply_of m) frames.
Proof.
  unfold encode_frames. destruct (encode_core m) as [wm|] eqn:E; [|done]. intros [= <-] Hv.
  exists wm. split; [done|]. by exists m, wm.
Qed.

(** A control message is a single frame. *)
Lemma control_single k (body : list byte) wm :
  encode_bytes k body = Ok wm → (max_message k <= max_frame_body k)%N → ∃ f, wm_frames wm = [f].
Proof.
  unfold encode_bytes. destruct (N.ltb_spec (max_message k) (byte_len body)); [done|].
  destruct (N.leb_spec (byte_len body) (max_frame_body k)); [|lia]. intros [= <-] _. by eexists.
Qed.

Lemma control_carries m frames :
  encode_frames m = Ok frames →
  (match m with Core_Ping _ | Core_Pong _ | Core_Goodbye _ => True | _ => False end) →
  ∃ f, frames = [f] ∧ Carries L0 None [f].
Proof.
  intros He Hm. unfold encode_frames in He. destruct (encode_core m) as [wm|] eqn:E; [|done].
  injection He as <-. assert (∃ f, wm_frames wm = [f] ∧ kind_level (wm_kind wm) = L0 ∧ core_validate m = true ∧ reply_of m = None)
    as (f & Hf & Hl & Hv & Hr).
  { destruct m; try done; simpl in E; unfold encode in E;
      (match type of E with context [to_bytes ?v] => destruct (to_bytes v) as [body|]; [|done] end);
      simpl in E; pose proof E as E'; apply encode_bytes_spec in E' as [Hk _];
      apply control_single in E as (f & Hf); try done; exists f; by rw Hk. }
  exists f. split; [done|]. by exists m, wm.
Qed.

Lemma Good_overflow n q s0 s : Good n q s0 s → Good n q s0 (overflow s).1.
Proof.
  intros Hg. unfold overflow. simpl. destruct (o_closing s) eqn:Ec; [done|].
  destruct Hg as [[I1 I2 I3 I4 I5 I6 I7 I8 I9 I10 I11 I12 I13 I14 I15] Hr1 Hr2 Hp1 Hp2 Hq]. rw Ec in I7.
  split; [|done..]. split; simpl; try done.
  - destruct (encode_frames _) as [frames|] eqn:E; [|done].
    apply control_carries in E as (f & -> & Hf); [|done]. apply Forall_app. split; [done|]. by constructor.
  - destruct (encode_frames _) as [frames|] eqn:E; [|simpl in *; lia].
    apply control_carries in E as (f & -> & Hf); [|done]. rw length_app. simpl in *. lia.
Qed.

Lemma Good_overflowed n q s0 s : Good n q s0 s → Good n q s0 (overflowed s).1.
Proof. intros Hg. apply Good_overflow in Hg. unfold overflowed. by destruct (overflow s). Qed.

Lemma Good_push_l0 n q s0 s m :
  (match m with Core_Ping _ | Core_Pong _ | Core_Goodbye _ => True | _ => False end) →
  Good n q s0 s → Good n q s0 (push_l0 m s).1.
Proof.
  intros Hm Hg. unfold push_l0. destruct (o_closing s) eqn:Ec; [done|].
  destruct (encode_frames m) as [frames|] eqn:E; [|done].
  apply control_carries in E as (f & -> & Hf); [|done].
  destruct (Nat.ltb_spec MAX_L0_FRAMES (length (o_l0 s) + length [f])) as [|Hl]; [by apply Good_overflowed|].
  destruct (MAX_L0_BYTES <? o_l0_bytes s + frames_size [f])%N; [by apply Good_overflowed|].
  destruct Hg as [[I1 I2 I3 I4 I5 I6 I7 I8 I9 I10 I11 I12 I13 I14 I15] Hr1 Hr2 Hp1 Hp2 Hq]. simpl.
  split; [|done..]. split; simpl; try done.
  - apply Forall_app. split; [done|]. by constructor.
  - rw length_app. unfold MAX_L0_FRAMES in *. lia.
Qed.

Lemma sum_entries_snoc l1 e : sum_entries (l1 ++ [e]) = (sum_entries l1 + entry_bytes e)%N.
Proof. induction l1 as [|x l1 IH]; simpl; [lia|]. rw IH. lia. Qed.

Lemma sum_bulk_snoc l2 e : sum_bulk (l2 ++ [e]) = (sum_bulk l2 + frames_size e.2)%N.
Proof. induction l2 as [|x l2 IH]; simpl; [lia|]. rw IH. lia. Qed.

Lemma Good_pushed n q s0 s entry s' outcome :
  entry_ok entry → Good n q s0 s → push_l1 entry s = (s', outcome) →
  Good n (match outcome with Ok _ => option_list (entry_reply entry) ++ q | Err _ => q end) s0 s'.
Proof.
  intros He Hg. unfold push_l1. destruct (o_closing s) eqn:Ec; [by intros [= <- <-]|].
  pose proof (Good_overflow n q s0 s Hg) as Ho. unfold overflowed.
  destruct (N.leb_spec MAX_L1_MESSAGES (N.of_nat (length (o_l1 s)))) as [|Hl]; [by intros [= <- <-]|].
  destruct (N.ltb_spec MAX_L1_BYTES (o_l1_bytes s + entry_bytes entry)) as [|Hb]; [by intros [= <- <-]|].
  destruct Hg as [[I1 I2 I3 I4 I5 I6 I7 I8 I9 I10 I11 I12 I13 I14 I15] Hr1 Hr2 Hp1 Hp2 Hq]. intros [= <- <-].
  split; [|done..|].
  - split; simpl; try done.
    + apply Forall_app. split; [done|]. by constructor.
    + rw length_app /=. lia.
    + by rw sum_entries_snoc I9.
  - unfold queued_ids in *. simpl. rw omap_app /=. destruct (entry_reply entry) as [id|]; simpl; [|by rw app_nil_r].
    rw -app_assoc -Permutation_middle /=. by rw Hq.
Qed.

Lemma Good_push_l1 n q s0 s entry :
  entry_ok entry → entry_reply entry = None → Good n q s0 s → Good n q s0 (push_l1 entry s).1.
Proof.
  intros He Hr Hg. destruct (push_l1 entry s) as [s' outcome] eqn:E.
  pose proof (Good_pushed _ _ _ _ _ _ _ He Hg E) as Hp. rw Hr in Hp. by destruct outcome.
Qed.

Lemma Good_set_slot n q s0 s c slot :
  SlotOk n slot → is_Some (o_channels s !! c) ∨ size (o_channels s) < MAX_CHANNELS →
  Good n q s0 s → Good n q s0 (set_slot c slot s).
Proof.
  intros Hs Hc [[I1 I2 I3 I4 I5 I6 I7 I8 I9 I10 I11 I12 I13 I14 I15] Hr1 Hr2 Hp1 Hp2 Hq].
  split; [|done..]. split; simpl; try done.
  - by apply map_Forall_insert_2.
  - destruct (o_channels s !! c) as [old|] eqn:Ec.
    + rw map_size_insert_Some //.
    + rw map_size_insert_None //. destruct Hc as [[? ?]|?]; [done|]. unfold MAX_CHANNELS in *. lia.
Qed.

Lemma Good_set_closed n q s0 s closed : Good n q s0 s → Good n q s0 (set_channels (o_channels s) closed s).
Proof.
  intros [[I1 I2 I3 I4 I5 I6 I7 I8 I9 I10 I11 I12 I13 I14 I15] Hr1 Hr2 Hp1 Hp2 Hq].
  split; [|done..]. by split.
Qed.

Lemma Good_forget n q s0 s c : Good n q s0 s → Good n q s0 (forget_channel c s).
Proof.
  intros [[I1 I2 I3 I4 I5 I6 I7 I8 I9 I10 I11 I12 I13 I14 I15] Hr1 Hr2 Hp1 Hp2 Hq].
  split; [|done..]. split; simpl; try done.
  - by apply map_Forall_delete.
  - etrans; [apply size_delete_le|done].
Qed.

Lemma Good_requests n q s0 s requests :
  size requests ≤ MAX_REQUESTS_IN_FLIGHT → Good n q s0 s → Good n q s0 (set_requests requests s).
Proof.
  intros Hr [[I1 I2 I3 I4 I5 I6 I7 I8 I9 I10 I11 I12 I13 I14 I15] Hr1 Hr2 Hp1 Hp2 Hq].
  split; [|done..]. by split.
Qed.

Lemma Good_answered n q s0 s reply : Good n q s0 s → Good n q s0 (answered reply s).
Proof.
  intros Hg. unfold answered. destruct reply as [id|]; [|done]. apply Good_requests; [|done].
  etrans; [apply size_delete_le|]. apply (oi_requests _ _ (gd_inv _ _ _ _ Hg)).
Qed.

Lemma Good_inventory n q s0 s frames queued :
  (∀ f, frames = Some f → Carries L1 None f) → Good n q s0 s → Good n q s0 (set_inventory frames queued s).
Proof.
  intros Hf [[I1 I2 I3 I4 I5 I6 I7 I8 I9 I10 I11 I12 I13 I14 I15] Hr1 Hr2 Hp1 Hp2 Hq].
  split; [|done..]. by split.
Qed.

Lemma Good_update_facts n q s0 s frames queued :
  (∀ f, frames = Some f → Carries L1 None f) → Good n q s0 s → Good n q s0 (set_update_facts frames queued s).
Proof.
  intros Hf [[I1 I2 I3 I4 I5 I6 I7 I8 I9 I10 I11 I12 I13 I14 I15] Hr1 Hr2 Hp1 Hp2 Hq].
  split; [|done..]. by split.
Qed.

Lemma Good_closing n q s0 s : Good n q s0 s → Good n q s0 (disconnected s).
Proof.
  intros [[I1 I2 I3 I4 I5 I6 I7 I8 I9 I10 I11 I12 I13 I14 I15] Hr1 Hr2 Hp1 Hp2 Hq].
  split; [|done..]. split; simpl; try done. unfold MAX_L0_FRAMES in *. destruct (o_closing s); lia.
Qed.

Lemma Good_lookup n q s0 s c slot : Good n q s0 s → o_channels s !! c = Some slot → SlotOk n slot.
Proof. intros Hg Hc. by eapply (oi_slots _ _ (gd_inv _ _ _ _ Hg)). Qed.

(** A slot that changed nothing but its latest state and its flags. *)
Ltac slot_ok :=
  match goal with Hs : SlotOk _ ?slot |- SlotOk _ _ => destruct Hs; split; simpl; try done; try lia end.

Lemma Good_update n q s0 s c old slot :
  o_channels s !! c = Some old → SlotOk n slot → Good n q s0 s → Good n q s0 (set_slot c slot s).
Proof. intros Hc Hs. apply Good_set_slot; [done|]. left. by exists old. Qed.

(** The calls' case analysis: every branch is a composition of queue operations. *)
Ltac outbox_cases :=
  repeat match goal with
  | Hg : Good ?n ?q ?s0 ?s, Hc : o_channels ?s !! ?c = Some ?slot |- _ =>
      lazymatch goal with
      | _ : SlotOk n slot |- _ => fail
      | _ => pose proof (Good_lookup n q s0 s c slot Hg Hc)
      end
  | |- Good _ _ _ (push_l1 _ _).1 => apply Good_push_l1; [done|done|]
  | |- Good _ _ _ (forget_channel _ _) => apply Good_forget
  | |- Good _ _ _ (set_channels (o_channels ?s) _ ?s) => apply Good_set_closed
  | |- Good _ _ _ (answered _ _) => apply Good_answered
  | Hc : o_channels ?s !! ?c = Some _ |- Good _ _ _ (set_slot ?c _ ?s) =>
      eapply Good_update; [exact Hc|slot_ok|]
  | |- Good _ _ _ (match ?x with _ => _ end).1 => destruct x eqn:?
  | |- Good _ _ _ (match ?x with _ => _ end) => destruct x eqn:?
  | |- Good _ _ _ (_, _).1 => cbn [fst]
  end; try done.

Lemma Good_queue_semantics n q s0 s c : Good n q s0 s → Good n q s0 (queue_semantics c s).1.
Proof. intros Hg. unfold queue_semantics. outbox_cases. Qed.

Lemma Good_begin n q s0 s id : Good n q s0 s → Good n q s0 (ob_begin id s).1.
Proof.
  intros Hg. unfold ob_begin. destruct (Nat.leb_spec MAX_REQUESTS_IN_FLIGHT (size (o_requests s))); [done|].
  assert (Good n q s0 (set_requests (<[id := false]> (o_requests s)) s)); [|by case_match].
  apply Good_requests; [|done]. rw map_size_insert. case_match; unfold MAX_REQUESTS_IN_FLIGHT in *; simpl; lia.
Qed.

(** A request in flight that is marked answered stays the same request. *)
Lemma Good_mark n q s0 s id b :
  o_requests s !! id = Some b → Good n q s0 s → Good n q s0 (set_requests (<[id := true]> (o_requests s)) s).
Proof.
  intros Hid Hg. apply Good_requests; [|done]. rw map_size_insert_Some; [done|].
  apply (oi_requests _ _ (gd_inv _ _ _ _ Hg)).
Qed.

Lemma push_l1_requests entry s : o_requests (push_l1 entry s).1 = o_requests s.
Proof. unfold push_l1, overflowed, overflow. repeat case_match; by simplify_eq/=. Qed.

Lemma reply_carries id answer frames :
  encode_frames (Core_Reply {| rp_id := id; rp_result := answer |}) = Ok frames →
  core_validate (Core_Reply {| rp_id := id; rp_result := answer |}) = true →
  Carries (if match answer with Ok body => bulk body | Err _ => false end then L2 else L1) (Some id) frames.
Proof.
  intros He Hv. destruct (encode_frames_carries _ _ He Hv) as (wm & Hw & Hc).
  simpl in Hw. apply encode_kind in Hw. unfold reply_bulk in Hw. simpl in Hw. rw Hw in Hc.
  destruct answer as [body|]; [|done]. by destruct (bulk body).
Qed.

(** What a call that answers a request queued. *)
Definition replied (id : RequestId) (outcome : result unit OutboxError) : list RequestId :=
  match outcome with Ok _ => [id] | Err _ => [] end.

Lemma Good_bulk n q s0 s id frames :
  Carries L2 (Some id) frames → length (o_l2 s) < MAX_L2_MESSAGES →
  (o_l2_bytes s + frames_size frames <= MAX_L2_BYTES)%N → Good n q s0 s →
  Good n (id :: q) s0 (set_l2 (o_l2 s ++ [(id, frames)]) (o_l2_bytes s + frames_size frames) s).
Proof.
  intros Hc Hl Hb [[I1 I2 I3 I4 I5 I6 I7 I8 I9 I10 I11 I12 I13 I14 I15] Hr1 Hr2 Hp1 Hp2 Hq].
  split; [|done..|].
  - split; simpl; try done.
    + apply Forall_app. split; [done|]. by constructor.
    + rw length_app /=. unfold MAX_L2_MESSAGES, MAX_REQUESTS_IN_FLIGHT in *. lia.
    + by rw sum_bulk_snoc I12.
  - unfold queued_ids in *. simpl. rw map_app /= app_assoc -Permutation_cons_append. by rw Hq.
Qed.

Lemma Good_reply n q s0 s id answer s' outcome :
  core_validate (Core_Reply {| rp_id := id; rp_result := answer |}) = true →
  Good n q s0 s → ob_reply id answer s = (s', outcome) → Good n (replied id outcome ++ q) s0 s'.
Proof.
  intros Hv Hg. unfold ob_reply. destruct (encode_frames _) as [frames|] eqn:E; [|by intros [= <- <-]].
  pose proof (reply_carries _ _ _ E Hv) as Hc. destruct (o_closing s) eqn:Ec; [by intros [= <- <-]|].
  destruct (o_requests s !! id) as [[|]|] eqn:Eid; [by intros [= <- <-]| |by intros [= <- <-]].
  pose proof (Good_overflow n q s0 s Hg) as Ho. unfold overflowed.
  destruct (match answer with Ok body => bulk body | Err _ => false end).
  - destruct (Nat.leb_spec MAX_L2_MESSAGES (length (o_l2 s))) as [|Hl]; [by intros [= <- <-]|].
    destruct (N.ltb_spec MAX_L2_BYTES (o_l2_bytes s + frames_size frames)) as [|Hb]; [by intros [= <- <-]|].
    intros [= <- <-]. apply (Good_mark n _ s0 (set_l2 _ _ s) id false Eid). by apply Good_bulk.
  - pose proof (push_l1_requests (Entry_Message frames (Some id)) s) as Hq.
    destruct (push_l1 _ s) as [s1 outcome1] eqn:E1.
    assert (entry_ok (Entry_Message frames (Some id))) as Hk by done.
    pose proof (Good_pushed n q s0 s _ _ _ Hk Hg E1) as Hp.
    destruct outcome1 as [[]|]; intros [= <- <-]; [|done]. eapply Good_mark; [|done]. simpl in Hq. by rw Hq.
Qed.

Lemma Good_reply_or_refuse n q s0 s id answer s' outcome :
  core_validate (Core_Reply {| rp_id := id; rp_result := answer |}) = true →
  Good n q s0 s → reply_or_refuse id answer s = (s', outcome) → Good n (replied id outcome ++ q) s0 s'.
Proof.
  intros Hv Hg. unfold reply_or_refuse. destruct (ob_reply id answer s) as [s1 outcome1] eqn:E1.
  pose proof (Good_reply _ _ _ _ _ _ _ _ Hv Hg E1) as Hr.
  destruct outcome1 as [|[]]; try (by intros [= <- <-]). by apply (Good_reply n q s0 s1).
Qed.

Lemma pane_carries c event frames :
  encode_frames (Core_Pane {| pm_channel := c; pm_event := event |}) = Ok frames → Carries L1 None frames.
Proof.
  intros He. destruct (encode_frames_carries _ _ He eq_refl) as (wm & Hw & Hc).
  simpl in Hw. apply encode_kind in Hw. by rw Hw in Hc.
Qed.

Lemma Good_pane n q s0 s c event : Good n q s0 s → Good n q s0 (ob_pane c event s).1.
Proof.
  intros Hg. unfold ob_pane. destruct (encode_frames _) eqn:E; [|done]. apply pane_carries in E.
  by apply Good_push_l1.
Qed.

Lemma Good_ob_inventory n q s0 s revision :
  core_validate (Core_Inventory revision) = true → Good n q s0 s → Good n q s0 (ob_inventory revision s).1.
Proof.
  intros Hv Hg. unfold ob_inventory. destruct (encode_frames _) as [frames|] eqn:E; [|done].
  destruct (encode_frames_carries _ _ E Hv) as (wm & Hw & Hc). simpl in Hw. apply encode_kind in Hw.
  rw Hw in Hc. destruct (o_closing s); [done|].
  destruct (o_inventory_queued s). { apply Good_inventory; [|done]. by intros ? [= <-]. }
  pose proof (Good_push_l1 n q s0 s Entry_Inventory I eq_refl Hg) as Hp.
  destruct (push_l1 _ s) as [s' [[]|]]; [|done]. apply Good_inventory; [|done]. by intros ? [= <-].
Qed.

Lemma Good_ob_update_facts n q s0 s facts :
  core_validate (Core_UpdateFacts facts) = true → Good n q s0 s → Good n q s0 (ob_update_facts facts s).1.
Proof.
  intros Hv Hg. unfold ob_update_facts. destruct (encode_frames _) as [frames|] eqn:E; [|done].
  destruct (encode_frames_carries _ _ E Hv) as (wm & Hw & Hc). simpl in Hw. apply encode_kind in Hw.
  rw Hw in Hc. destruct (o_closing s); [done|].
  destruct (o_update_facts_queued s). { apply Good_update_facts; [|done]. by intros ? [= <-]. }
  pose proof (Good_push_l1 n q s0 s Entry_UpdateFacts I eq_refl Hg) as Hp.
  destruct (push_l1 _ s) as [s' [[]|]]; [|done]. apply Good_update_facts; [|done]. by intros ? [= <-].
Qed.

Lemma Good_goodbye n q s0 s fatal : Good n q s0 s → Good n q s0 (ob_goodbye fatal s).1.
Proof.
  intros Hg. unfold ob_goodbye. destruct (encode_frames _) as [frames|] eqn:E; [|done].
  destruct (o_closing s) eqn:Ec; [done|]. apply control_carries in E as (f & -> & Hf); [|done].
  destruct Hg as [[I1 I2 I3 I4 I5 I6 I7 I8 I9 I10 I11 I12 I13 I14 I15] Hr1 Hr2 Hp1 Hp2 Hq].
  split; [|done..]. split; simpl; try done.
  - apply Forall_app. split; [done|]. by constructor.
  - rw length_app /=. rw Ec in I7. unfold MAX_L0_FRAMES in *. lia.
Qed.

Lemma SlotOk_new n : SlotOk n slot_new.
Proof. split; simpl; try done. lia. Qed.

Lemma Good_open n q s0 s c : Good n q s0 s → Good n q s0 (ob_open c s).1.
Proof.
  intros Hg. unfold ob_open. destruct (Nat.leb_spec MAX_CHANNELS (size (o_channels s))); [done|].
  case_match; [done|]. apply Good_set_slot; [apply SlotOk_new|by right|done].
Qed.

Lemma Good_end n q s0 s c event : Good n q s0 s → Good n q s0 (ob_end c event s).1.
Proof.
  intros Hg. unfold ob_end. destruct (encode_frames _) as [frames|] eqn:E; [|done].
  apply pane_carries in E. destruct (o_closing s); [done|].
  destruct (o_channels s !! c) as [slot|] eqn:Ec.
  - assert (Good n q s0 (set_slot c (set_sl_end (Some frames)
      (set_sl_semantics (set_sm_demand None (sl_semantics slot)) slot)) s)) as Hset.
    { pose proof (Good_lookup _ _ _ _ _ _ Hg Ec). eapply Good_update; [exact Ec| |done].
      slot_ok. by intros ? [= <-]. }
    destruct (sl_end slot); [done|]. simpl. destruct (sl_pending slot), (sl_in_flight slot); try done.
    by apply Good_push_l1, Good_forget.
  - by apply Good_push_l1, Good_set_closed.
Qed.

Lemma Good_view n q s0 s c visible : Good n q s0 s → Good n q s0 (ob_view c visible s).
Proof.
  intros Hg. unfold ob_view. destruct (o_channels s !! c) as [slot|] eqn:Ec.
  - pose proof (Good_lookup _ _ _ _ _ _ Hg Ec) as Hs. destruct visible.
    + apply Good_queue_semantics. outbox_cases.
    + simpl. destruct (sl_in_flight slot) eqn:Ef; [outbox_cases|].
      destruct (sl_end slot) as [frames|] eqn:Ee; [|outbox_cases].
      apply Good_push_l1, Good_forget; [|done..]. by apply (so_end _ _ Hs).
  - destruct visible; [|done]. by apply Good_queue_semantics.
Qed.

Lemma Good_present n q s0 s c presentation : Good n q s0 s → Good n q s0 (ob_present c presentation s).1.
Proof. intros Hg. unfold ob_present. outbox_cases. Qed.

Lemma Good_require_keyframe n q s0 s c : Good n q s0 s → Good n q s0 (require_keyframe c s).
Proof. intros Hg. unfold require_keyframe. outbox_cases. Qed.

Lemma in_flight_is (in_flight : option (N * option N)) frame :
  bool_decide (fst <$> in_flight = Some frame) = true → ∃ since, in_flight = Some (frame, since).
Proof. intros Hf%bool_decide_eq_true. destruct in_flight as [[f since]|]; [|done]. injection Hf as <-. by eexists. Qed.

Lemma Good_acknowledge n q s0 s c frame : Good n q s0 s → Good n q s0 (ob_acknowledge c frame s).1.
Proof.
  intros Hg. unfold ob_acknowledge. destruct (o_channels s !! c) as [slot|] eqn:Ec; [|done].
  pose proof (Good_lookup _ _ _ _ _ _ Hg Ec) as Hs. destruct (bool_decide _) eqn:Ef; [|done].
  apply in_flight_is in Ef as (since & Ef). simpl.
  assert (∀ b, SlotOk n (set_sl_queued b (set_sl_acknowledged (Some frame) (set_sl_in_flight None slot)))) as Hqueued.
  { intros b. pose proof (so_in_flight _ _ Hs _ _ Ef). slot_ok. by intros ? [= <-]. }
  assert (Good n q s0 (set_slot c (set_sl_acknowledged (Some frame) (set_sl_in_flight None slot)) s)) as Hset.
  { eapply Good_update; [exact Ec| |done]. specialize (Hqueued (sl_queued slot)). by destruct slot. }
  destruct (sl_pending slot).
  - destruct (sl_queued slot); [done|]. apply Good_push_l1; [done|done|]. by eapply Good_update.
  - destruct (sl_end slot) as [frames|] eqn:Ee; [|done]. apply Good_push_l1, Good_forget; [|done..].
    by apply (so_end _ _ Hs).
Qed.

(** A semantic slot of a channel does not matter to the invariant. *)
Lemma Good_semantics n q s0 s c slot semantics :
  o_channels s !! c = Some slot → Good n q s0 s → Good n q s0 (set_slot c (set_sl_semantics semantics slot) s).
Proof. intros Hc Hg. outbox_cases. Qed.

Lemma Good_start_semantics n q s0 s c generation : Good n q s0 s → Good n q s0 (start_semantics c generation s).1.
Proof. intros Hg. unfold start_semantics. outbox_cases. Qed.

Lemma Good_end_semantics n q s0 s c : Good n q s0 s → Good n q s0 (end_semantics c s).
Proof. intros Hg. unfold end_semantics. outbox_cases. Qed.

Lemma Good_offer_semantics n q s0 s c model : Good n q s0 s → Good n q s0 (offer_semantics c model s).1.
Proof.
  intros Hg. unfold offer_semantics. destruct (o_closing s); [done|].
  destruct (o_channels s !! c) eqn:Ec; [|done]. repeat case_match; try done.
  by apply Good_queue_semantics, Good_semantics.
Qed.

Lemma Good_acknowledge_semantics n q s0 s c generation revision :
  Good n q s0 s → Good n q s0 (acknowledge_semantics c generation revision s).1.
Proof.
  intros Hg. unfold acknowledge_semantics. destruct (o_channels s !! c) eqn:Ec; [|done].
  repeat case_match; try done; by apply Good_queue_semantics, Good_semantics.
Qed.

Lemma Good_written n q s0 s now : Good n q s0 s → Good n q s0 (written now s).
Proof.
  intros [[I1 I2 I3 I4 I5 I6 I7 I8 I9 I10 I11 I12 I13 I14 I15] Hr1 Hr2 Hp1 Hp2 Hq].
  split; [|done..]. split; simpl; try done; [|by rw map_size_fmap].
  intros c slot. rw lookup_fmap. destruct (o_channels s !! c) as [old|] eqn:Ec; [|done]. intros [= <-].
  assert (SlotOk n old) as Hs by exact (I6 c old Ec). destruct (sl_in_flight old) as [[f [since|]]|] eqn:Ef; [done| |done].
  pose proof (so_in_flight _ _ Hs _ _ Ef). slot_ok. by intros ? ? [= <- _].
Qed.
End Proofs.
#[export] Hint Resolve Good_overflowed Good_push_l1 Good_push_l0 Good_set_closed Good_forget Good_answered
  Good_closing : outbox.

(** ** A connection's outbox as it runs

    The calls any thread makes on an outbox and the steps of the I/O thread that
    writes its frames, as one machine; what each I/O step writes. *)
Section Runs.
Context `{P : Payloads}.
Context `{SM : !SemanticModels}.
Context {Presentation : Type}.
Context `{Postcard Reply, Postcard Frame, Postcard AccessibilityMessage, Postcard PaneMessage,
  Postcard (InventoryRevision Inventory), Postcard UpdateFacts, Postcard Ping, Postcard Pong, Postcard Fatal}.
Implicit Types s : OutState Presentation.

(** ** What a step of the I/O thread writes *)

(** One frame written at a level: from what was left of a message, as the first frame
    of a queued message, or as the first of messages encoded just now. A level is what
    is left of its messages, the request they answer and the requests queued. *)
Inductive Emits (level : Priority) (f : list byte) :
    list (list byte) → option RequestId → list RequestId →
    list (list byte) → option RequestId → list RequestId → Prop :=
  | Emit_rest rest reply ids :
      Emits level f (f :: rest) reply ids rest (if is_empty rest then None else reply) ids
  | Emit_queued rest id reply ids ids' :
      Carries level id (f :: rest) → ids ≡ₚ option_list id ++ ids' →
      Emits level f [] reply ids rest (if is_empty rest then reply else id) ids'
  | Emit_encoded rest messages reply ids ids' :
      Forall (Carries level None) messages → concat messages = f :: rest → ids ≡ₚ ids' →
      Emits level f [] reply ids rest reply ids'.

Lemma OutInv_pop_l1 n s entry l1 :
  OutInv n s → o_l1 s = entry :: l1 →
  OutInv n (set_l1 l1 (o_l1_bytes s - entry_bytes entry) s) ∧ entry_ok entry.
Proof.
  intros [I1 I2 I3 I4 I5 I6 I7 I8 I9 I10 I11 I12 I13 I14 I15] E. rw E in I2, I8, I9.
  apply Forall_cons in I2 as [He I2]. simpl in I8, I9. split; [|done]. split; simpl; try done; lia.
Qed.

Lemma OutInv_pop_l2 n s id frames l2 :
  OutInv n s → o_l2 s = (id, frames) :: l2 →
  OutInv n (set_l2 l2 (o_l2_bytes s - frames_size frames) s) ∧ Carries L2 (Some id) frames.
Proof.
  intros [I1 I2 I3 I4 I5 I6 I7 I8 I9 I10 I11 I12 I13 I14 I15] E. rw E in I3, I11, I12.
  apply Forall_cons in I3 as [He I3]. simpl in I11, I12. split; [|done].
  unfold MAX_L2_MESSAGES, MAX_REQUESTS_IN_FLIGHT in *. split; simpl; try done; try lia.
  unfold MAX_L2_MESSAGES, MAX_REQUESTS_IN_FLIGHT. lia.
Qed.

Lemma OutInv_l1_rest n s rest reply : OutInv n s → OutInv n (set_l1_rest rest reply s).
Proof. intros []. by split. Qed.

Lemma OutInv_l2_rest n s rest reply : OutInv n s → OutInv n (set_l2_rest rest reply s).
Proof. intros []. by split. Qed.

Lemma OutInv_answered n s reply : OutInv n s → OutInv n (answered reply s).
Proof. intros Hi. exact (gd_inv _ _ _ _ (Good_answered _ _ _ _ reply (Good_refl _ _ Hi))). Qed.

(** The parts of the state that say what a level still has to write. *)
Record SameLevels (s s' : OutState Presentation) : Prop := {
  sv_l1_rest : o_l1_rest s' = o_l1_rest s;
  sv_l1_reply : o_l1_rest_reply s' = o_l1_rest_reply s;
  sv_l2_rest : o_l2_rest s' = o_l2_rest s;
  sv_l2_reply : o_l2_rest_reply s' = o_l2_rest_reply s;
  sv_queued : queued_ids s' ≡ₚ queued_ids s
}.
Definition EmitsAt (level : Priority) (f : list byte) (s s' : OutState Presentation) : Prop :=
  match level with
  | L0 => Carries L0 None [f] ∧ SameLevels s s'
  | L1 => Emits L1 f (o_l1_rest s) (o_l1_rest_reply s) (queued_ids s)
            (o_l1_rest s') (o_l1_rest_reply s') (queued_ids s') ∧
          o_l2_rest s' = o_l2_rest s ∧ o_l2_rest_reply s' = o_l2_rest_reply s
  | L2 => Emits L2 f (o_l2_rest s) (o_l2_rest_reply s) (queued_ids s)
            (o_l2_rest s') (o_l2_rest_reply s') (queued_ids s') ∧
          o_l1_rest s' = o_l1_rest s ∧ o_l1_rest_reply s' = o_l1_rest_reply s
  end.

Lemma same_levels n s0 s : Good n [] s0 s → SameLevels s0 s.
Proof. by intros [? ? ? ? ? ?]. Qed.

(** A presentation taken: the base it is encoded against is an earlier frame. *)
Definition ticket_ok (ticket : FrameTicket) (end_ : option Frames) : Prop :=
  (∀ base, tk_base ticket = Some base → (base < tk_frame ticket)%N) ∧
  (∀ frames, end_ = Some frames → Carries L1 None frames).

Lemma u64_add_small a b : (a + b <= u64_max)%N → u64_wrapping_add a b = (a + b)%N.
Proof. intros Hab. unfold u64_wrapping_add. apply N.mod_small. unfold u64_max, u64_modulus in *. lia. Qed.

Lemma Good_mono n n' q s0 s : (n <= n')%N → Good n q s0 s → Good n' q s0 s.
Proof. intros Hn [? ? ? ? ? ?]. split; try done. by eapply OutInv_mono. Qed.

Lemma take_present_spec n q s0 s c s' taken :
  (n + 2 <= u64_max)%N → Good n q s0 s → take_present c s = (s', taken) →
  Good (n + 1) q s0 s' ∧
  match taken with
  | Taken_Present ticket _ end_ => ticket_ok ticket end_
  | Taken_Skip => True
  | _ => False
  end.
Proof.
  intros Hn Hg. assert (Good (n + 1) q s0 s) as Hg1 by (eapply Good_mono; [|done]; lia).
  unfold take_present. destruct (o_channels s !! c) as [slot|] eqn:Ec; [|by intros [= <- <-]].
  pose proof (Good_lookup _ _ _ _ _ _ Hg Ec) as Hs.
  assert (Good (n + 1) q s0 (set_slot c (set_sl_queued false slot) s)) as Hskip.
  { eapply Good_update; [exact Ec| |done]. apply (SlotOk_mono n); [lia|]. by destruct Hs. }
  simpl. destruct (negb _ || _); [by intros [= <- <-]|].
  destruct (sl_pending slot) as [p|]; [|by intros [= <- <-]]. intros [= <- <-].
  pose proof (so_next _ _ Hs) as Hnext. split.
  - destruct (sl_end slot); [by apply Good_forget|]. eapply Good_update; [exact Ec| |done].
    rw u64_add_small; [lia|]. destruct Hs as [Hs1 Hs2 Hs3 Hs4]. split; simpl; try done; [lia| |].
    + intros a Ha. specialize (Hs2 a Ha). lia.
    + intros f since [= <- <-]. lia.
  - split; simpl; [|apply (so_end _ _ Hs)]. intros base. destruct (sl_keyframe slot); [done|].
    apply (so_acknowledged _ _ Hs).
Qed.

Lemma Good_take_semantics n q s0 s c : Good n q s0 s → Good n q s0 (take_semantics c s).1.
Proof.
  intros Hg. unfold take_semantics. destruct (o_channels s !! c) eqn:Ec; [|done].
  repeat case_match; by apply Good_semantics.
Qed.

(** A queued message at L1 or L2 starts. *)
Lemma take_first_l1_spec n s frames reply s' taken ids :
  OutInv n s → o_l1_rest s = [] → Carries L1 reply frames → ids ≡ₚ option_list reply ++ queued_ids s →
  take_first_l1 frames reply s = (s', taken) →
  OutInv n s' ∧ ∃ f, taken = Taken_Frame f L1 ∧
    Emits L1 f [] (o_l1_rest_reply s) ids (o_l1_rest s') (o_l1_rest_reply s') (queued_ids s') ∧
    o_l2_rest s' = o_l2_rest s ∧ o_l2_rest_reply s' = o_l2_rest_reply s.
Proof.
  intros Hi Hr Hc Hids. destruct (carries_nonempty _ _ _ Hc) as (f & rest & ->). simpl. rw Hr /=.
  intros [= <- <-]. pose proof (Emit_queued L1 f rest reply (o_l1_rest_reply s) ids (queued_ids s) Hc Hids) as He.
  destruct (is_empty rest); (split; [|exists f; split; [done|]; split; [|by destruct reply]]).
  - by apply OutInv_answered, OutInv_l1_rest.
  - by destruct reply.
  - by apply OutInv_l1_rest.
  - done.
Qed.

Lemma take_first_l2_spec n s frames reply s' taken ids :
  OutInv n s → o_l2_rest s = [] → Carries L2 reply frames → ids ≡ₚ option_list reply ++ queued_ids s →
  take_first_l2 frames reply s = (s', taken) →
  OutInv n s' ∧ ∃ f, taken = Taken_Frame f L2 ∧
    Emits L2 f [] (o_l2_rest_reply s) ids (o_l2_rest s') (o_l2_rest_reply s') (queued_ids s') ∧
    o_l1_rest s' = o_l1_rest s ∧ o_l1_rest_reply s' = o_l1_rest_reply s.
Proof.
  intros Hi Hr Hc Hids. destruct (carries_nonempty _ _ _ Hc) as (f & rest & ->). simpl. rw Hr /=.
  intros [= <- <-]. pose proof (Emit_queued L2 f rest reply (o_l2_rest_reply s) ids (queued_ids s) Hc Hids) as He.
  destruct (is_empty rest); (split; [|exists f; split; [done|]; split; [|by destruct reply]]).
  - by apply OutInv_answered, OutInv_l2_rest.
  - by destruct reply.
  - by apply OutInv_l2_rest.
  - done.
Qed.

(** What taking from the queues yields. *)
Definition TakenOk (s s' : OutState Presentation) (taken : option (Taken Presentation)) : Prop :=
  match taken with
  | None | Some Taken_Skip => SameLevels s s'
  | Some (Taken_Frame f level) => EmitsAt level f s s'
  | Some (Taken_Present ticket _ end_) => SameLevels s s' ∧ o_l1_rest s' = [] ∧ ticket_ok ticket end_
  | Some (Taken_Semantics _) => SameLevels s s' ∧ o_l1_rest s' = []
  end.

(** An L1 entry taken, by what it is; [s1] is the state it was removed from. *)
Lemma take_message_spec n s s1 frames reply s' taken :
  OutInv n s1 → o_l1_rest s1 = [] → Carries L1 reply frames →
  o_l1_rest s = [] → o_l1_rest_reply s1 = o_l1_rest_reply s →
  o_l2_rest s1 = o_l2_rest s → o_l2_rest_reply s1 = o_l2_rest_reply s →
  queued_ids s ≡ₚ option_list reply ++ queued_ids s1 →
  take_first_l1 frames reply s1 = (s', taken) → OutInv n s' ∧ TakenOk s s' (Some taken).
Proof.
  intros Hi Hr1 Hc Hr Hp H2r H2p Hids Ht.
  destruct (take_first_l1_spec _ _ _ _ _ _ _ Hi Hr1 Hc Hids Ht) as (Hi' & f & -> & He & E1 & E2).
  split; [done|]. simpl. rw Hr -H2r -H2p -Hp. done.
Qed.

Lemma take_latest_spec n s s1 frames s' taken :
  OutInv n s1 → o_l1_rest s1 = [] → (∀ fs, frames = Some fs → Carries L1 None fs) → SameLevels s s1 →
  take_first_l1 (match frames with Some fs => fs | None => [] end) None s1 = (s', taken) →
  OutInv n s' ∧ TakenOk s s' (Some taken).
Proof.
  intros Hi Hr1 Hc [S1 S2 S3 S4 S5] Ht. destruct frames as [fs|].
  - eapply take_message_spec; try done; [by apply Hc|congruence|by rw S5].
  - injection Ht as <- <-. by split.
Qed.

Lemma take_entry_spec n s entry l1 s' taken :
  (n + 2 <= u64_max)%N → OutInv n s → o_l1_rest s = [] → o_l1 s = entry :: l1 → o_l0 s = [] →
  o_closing s = false → ∀ lowest, ob_take lowest s = (s', taken) → OutInv (n + 1) s' ∧ TakenOk s s' taken.
Proof.
  intros Hn Hi Hr El El0 Ec lowest. unfold ob_take. rw El0 Ec Hr El.
  destruct (OutInv_pop_l1 _ _ _ _ Hi El) as [Hpop He].
  assert (queued_ids s = option_list (entry_reply entry) ++ queued_ids (set_l1 l1 0 s)) as Hq.
  { unfold queued_ids. rw El. simpl. by destruct (entry_reply entry). }
  assert (∀ s2, OutInv n s2 → OutInv (n + 1) s2) as Hup by (intros s2; apply OutInv_mono; lia).
  destruct entry as [frames reply| | |c|c]; simpl in Hpop, He, Hq; try rw N.sub_0_r in Hpop.
  - destruct (take_first_l1 _ _ _) as [s2 taken2] eqn:E. intros [= <- <-].
    eapply take_message_spec; try exact E; try done; [by apply Hup|by rw Hq].
  - destruct (take_first_l1 _ _ _) as [s2 taken2] eqn:E. intros [= <- <-].
    eapply take_latest_spec; try exact E; try done; [|by apply (oi_inventory _ _ Hi)|by split; try rw Hq].
    apply Hup. destruct Hpop. by split.
  - destruct (take_first_l1 _ _ _) as [s2 taken2] eqn:E. intros [= <- <-].
    eapply take_latest_spec; try exact E; try done; [|by apply (oi_facts _ _ Hi)|by split; try rw Hq].
    apply Hup. destruct Hpop. by split.
  - destruct (take_present c _) as [s2 taken2] eqn:E. intros [= <- <-].
    destruct (take_present_spec _ _ _ _ _ _ _ Hn (Good_refl _ _ Hpop) E) as [Hg Ht].
    split; [apply (gd_inv _ _ _ _ Hg)|]. apply same_levels in Hg as [S1 S2 S3 S4 S5].
    assert (SameLevels s s2) as Hsame by (split; try done; by rw S5 Hq).
    destruct taken2; try done. split; [done|]. split; [|done]. simpl in S1. by rw S1.
  - destruct (take_semantics c _) as [s2 work] eqn:E. intros [= <- <-].
    pose proof (Good_take_semantics _ _ _ _ c (Good_refl _ _ Hpop)) as Hg. rw E in Hg. simpl in Hg.
    split; [apply Hup, (gd_inv _ _ _ _ Hg)|]. apply same_levels in Hg as [S1 S2 S3 S4 S5].
    assert (SameLevels s s2) as Hsame by (split; try done; by rw S5 Hq).
    destruct work; [|done]. split; [done|]. simpl in S1. by rw S1.
Qed.

Lemma SameLevels_refl s : SameLevels s s.
Proof. by split. Qed.

Lemma queued_answered s reply : queued_ids (answered reply s) = queued_ids s.
Proof. by destruct reply. Qed.

Lemma take_l2_spec n s s' taken :
  OutInv n s → o_l0 s = [] → o_closing s = false → o_l1_rest s = [] → o_l1 s = [] →
  ob_take L2 s = (s', taken) → OutInv n s' ∧ TakenOk s s' taken.
Proof.
  intros Hi E0 Ec Er El. unfold ob_take. rw E0 Ec Er El. destruct (o_l2_rest s) as [|f rest] eqn:E2.
  - destruct (o_l2 s) as [|[id frames] l2] eqn:E3; [intros [= <- <-]; split; [done|apply SameLevels_refl]|].
    destruct (OutInv_pop_l2 _ _ _ _ _ Hi E3) as [Hpop Hc].
    destruct (take_first_l2 _ _ _) as [s2 taken2] eqn:E. intros [= <- <-].
    assert (queued_ids s ≡ₚ option_list (Some id) ++ queued_ids (set_l2 l2 (o_l2_bytes s - frames_size frames) s)) as Hq.
    { unfold queued_ids. rw E3. simpl. by rw -Permutation_middle. }
    destruct (take_first_l2_spec _ _ _ _ _ _ _ Hpop E2 Hc Hq E) as (Hi' & f & -> & He & Ea & Eb).
    split; [done|]. simpl. by rw E2.
  - destruct (is_empty rest) eqn:Ee; intros [= <- <-].
    + split; [by apply OutInv_answered, OutInv_l2_rest|]. simpl. rw E2.
      pose proof (Emit_rest L2 f rest (o_l2_rest_reply s) (queued_ids s)) as Hem. rw Ee in Hem.
      by destruct (o_l2_rest_reply s).
    + split; [by apply OutInv_l2_rest|]. simpl. rw E2.
      pose proof (Emit_rest L2 f rest (o_l2_rest_reply s) (queued_ids s)) as Hem. by rw Ee in Hem.
Qed.

Lemma ob_take_spec n s lowest s' taken :
  (n + 2 <= u64_max)%N → OutInv n s → ob_take lowest s = (s', taken) → OutInv (n + 1) s' ∧ TakenOk s s' taken.
Proof.
  intros Hn Hi Ht. assert (OutInv (n + 1) s) as Hi1 by (eapply OutInv_mono; [|done]; lia).
  destruct (o_l0 s) as [|f l0] eqn:E0.
  - destruct (o_closing s) eqn:Ec.
    { unfold ob_take in Ht. rw E0 Ec in Ht. injection Ht as <- <-. split; [done|apply SameLevels_refl]. }
    destruct (o_l1_rest s) as [|f rest] eqn:Er.
    + destruct (o_l1 s) as [|entry l1] eqn:El; [|by eapply take_entry_spec].
      destruct lowest; [| |by apply take_l2_spec];
        unfold ob_take in Ht; rw E0 Ec Er El in Ht; injection Ht as <- <-; (split; [done|apply SameLevels_refl]).
    + unfold ob_take in Ht. rw E0 Ec Er in Ht.
      pose proof (Emit_rest L1 f rest (o_l1_rest_reply s) (queued_ids s)) as Hem.
      destruct (is_empty rest) eqn:Ee; injection Ht as <- <-; simpl; rw Er.
      * split; [by apply OutInv_answered, OutInv_l1_rest|]. by destruct (o_l1_rest_reply s).
      * split; [by apply OutInv_l1_rest|]. done.
  - unfold ob_take in Ht. rw E0 in Ht. injection Ht as <- <-.
    destruct Hi1 as [I1 I2 I3 I4 I5 I6 I7 I8 I9 I10 I11 I12 I13 I14 I15]. rw E0 in I1, I7.
    apply Forall_cons in I1 as [Hf I1]. simpl in I7. split; [|by split].
    split; simpl; try done. unfold MAX_L0_FRAMES in *. lia.
Qed.

(** *** Frames encoded outside the lock *)

Definition CommitOk (s s' : OutState Presentation) (written : option (list byte)) : Prop :=
  match written with None => SameLevels s s' | Some f => EmitsAt L1 f s s' end.

Lemma Good_unsent n q s0 s ticket : Good n q s0 s → Good n q s0 (unsent ticket s).
Proof.
  intros Hg. unfold unsent. destruct (o_channels s !! tk_channel ticket) as [slot|] eqn:Ec; [|done].
  destruct (bool_decide _); [|done]. pose proof (Good_lookup _ _ _ _ _ _ Hg Ec) as Hs.
  assert (∀ b k, SlotOk n (set_sl_queued b (set_sl_keyframe k (set_sl_in_flight None slot)))) as Hb.
  { intros b k. destruct Hs. by split. }
  simpl. destruct (sl_pending slot), (sl_queued slot) eqn:Eq;
    try (eapply Good_update; [exact Ec| |done]; destruct Hs; by split).
  apply Good_push_l1; [done|done|]. by eapply Good_update.
Qed.

(** The frames of messages encoded just now: the first is written, the others wait. *)
Lemma commit_encoded n s s1 messages f rest :
  Good n [] s s1 → o_l1_rest s = [] → Forall (Carries L1 None) messages → concat messages = f :: rest →
  OutInv n (set_l1_rest rest (o_l1_rest_reply s1) s1) ∧
  CommitOk s (set_l1_rest rest (o_l1_rest_reply s1) s1) (Some f).
Proof.
  intros Hg Hr Hm Hc. split; [apply OutInv_l1_rest, (gd_inv _ _ _ _ Hg)|].
  destruct Hg as [_ S1 S2 S3 S4 S5]. simpl. rw Hr S3. split; [|done]. simpl in S5.
  eapply Emit_encoded; [exact Hm|exact Hc|exact (symmetry S5)].
Qed.

Lemma commit_presented_spec n s ticket end_ presented s' written :
  OutInv n s → o_l1_rest s = [] → ticket_ok ticket end_ →
  (∀ input update, presented = Some (input, update) → update_validate update = true) →
  commit_presented ticket end_ presented s = (s', written) → OutInv n s' ∧ CommitOk s s' written.
Proof.
  intros Hi Hr [Hbase Hend] Hv. pose proof (Good_refl _ _ Hi) as Hg.
  assert (∀ input update frames, presented = Some (input, update) →
    encode_frames (Core_Frame {| fr_channel := tk_channel ticket; fr_frame := tk_frame ticket;
      fr_base := tk_base ticket; fr_input := input; fr_update := update |}) = Ok frames →
    Carries L1 None frames) as Hframe.
  { intros input update frames Ep Ef. destruct (encode_frames_carries _ _ Ef) as (wm & Hw & Hc).
    - simpl. rw (Hv _ _ Ep) andb_true_r. destruct (tk_base ticket); [|done]. by apply N.ltb_lt, Hbase.
    - simpl in Hw. apply encode_kind in Hw. by rw Hw in Hc. }
  assert (∀ messages s1 s2 w, Good n [] s s1 → Forall (Carries L1 None) messages →
    match concat messages with
    | [] => (s1, None)
    | first :: rest => (set_l1_rest (rest ++ o_l1_rest s1) (o_l1_rest_reply s1) s1, Some first)
    end = (s2, w) → OutInv n s2 ∧ CommitOk s s2 w) as Hwrite.
  { intros messages s1 s2 w Hg1 Hm. destruct (concat messages) as [|f rest] eqn:Ec; intros [= <- <-].
    - split; [apply (gd_inv _ _ _ _ Hg1)|by eapply same_levels].
    - rw (gd_l1_rest _ _ _ _ Hg1) Hr app_nil_r. by eapply commit_encoded. }
  assert (Forall (Carries L1 None) (option_list end_)) as He.
  { destruct end_; [|done]. constructor; [by apply Hend|done]. }
  assert (concat (option_list end_) = match end_ with Some frames => frames | None => [] end) as Ee.
  { destruct end_; [apply app_nil_r|done]. }
  unfold commit_presented. destruct presented as [[input update]|]; simpl.
  - destruct (encode_frames (Core_Frame _)) as [frames|] eqn:Ef.
    + rw -Ee. apply (Hwrite (frames :: option_list end_) s s' written Hg).
      constructor; [by eapply Hframe|done].
    + destruct end_ as [fs|].
      * pose proof (Hwrite [fs] s s' written Hg He) as Hw. simpl in Hw. by rw app_nil_r in Hw.
      * pose proof (Good_forget n [] s s (tk_channel ticket) Hg) as Hf.
        destruct (encode_frames (Core_Pane _)) as [fs|] eqn:Ep; rw app_nil_r.
        -- pose proof (Hwrite [fs] _ s' written Hf ltac:(constructor; [by eapply pane_carries|done])) as Hw.
           simpl in Hw. by rw app_nil_r in Hw.
        -- by apply (Hwrite [] _ s' written Hf).
  - destruct end_ as [fs|].
    + pose proof (Hwrite [fs] s s' written Hg He) as Hw. simpl in Hw. by rw app_nil_r in Hw.
    + intros [= <- <-]. pose proof (Good_unsent _ _ _ _ ticket Hg) as Hu.
      split; [apply (gd_inv _ _ _ _ Hu)|by eapply same_levels].
Qed.

Lemma Good_semantics_taken n q s0 s c serial rest :
  Good n q s0 s → Good n q s0 (semantics_taken c serial rest s).1.
Proof.
  intros Hg. unfold semantics_taken, flight. destruct (o_channels s !! c) as [slot|] eqn:Ec; [|done].
  destruct (sm_demand _) as [d|]; [|done]. destruct (dm_in_flight d) as [f|]; [|done].
  destruct (_ =? _)%N; [|done].
  match goal with |- context [queue_semantics c ?s1] =>
    assert (Good n q s0 (queue_semantics c s1).1) as Hq by (by apply Good_queue_semantics, Good_semantics);
    destruct (queue_semantics c s1) as [s2 [|]] end; done.
Qed.

Lemma Good_semantics_unsent n q s0 s c serial : Good n q s0 s → Good n q s0 (semantics_unsent c serial s).
Proof.
  intros Hg. unfold semantics_unsent, flight. destruct (o_channels s !! c) as [slot|] eqn:Ec; [|done].
  destruct (sm_demand _) as [d|]; [|done]. destruct (dm_in_flight d) as [f|]; [|done].
  destruct (_ =? _)%N; [|done]. by apply Good_queue_semantics, Good_semantics.
Qed.

Lemma commit_semantics_spec n s ran s' written :
  OutInv n s → o_l1_rest s = [] →
  (∀ encoded, ran = Ok encoded → semantic_validate (en_update encoded) = true) →
  commit_semantics ran s = (s', written) → OutInv n s' ∧ CommitOk s s' written.
Proof.
  intros Hi Hr Hv. pose proof (Good_refl _ _ Hi) as Hg.
  assert (∀ frames s1 s2 w, Good n [] s s1 → Carries L1 None frames →
    match frames with
    | [] => (s1, None)
    | first :: frames => (set_l1_rest (o_l1_rest s1 ++ frames) (o_l1_rest_reply s1) s1, Some first)
    end = (s2, w) → OutInv n s2 ∧ CommitOk s s2 w) as Hwrite.
  { intros frames s1 s2 w Hg1 Hm. destruct (carries_nonempty _ _ _ Hm) as (f & rest & ->). intros [= <- <-].
    rw (gd_l1_rest _ _ _ _ Hg1) Hr. eapply (commit_encoded _ _ _ [f :: rest]); try done; [by constructor|].
    simpl. by rw app_nil_r. }
  assert (∀ s1, Good n [] s s1 → OutInv n s1 ∧ CommitOk s s1 None) as Hnone.
  { intros s1 Hg1. split; [apply (gd_inv _ _ _ _ Hg1)|by eapply same_levels]. }
  destruct ran as [encoded|[c serial]]; simpl.
  - destruct (encode_frames (Core_Accessibility _)) as [frames|] eqn:Ef.
    + pose proof (Good_semantics_taken _ _ _ _ (en_channel encoded) (en_serial encoded) (en_rest encoded) Hg) as Ht.
      assert (Carries L1 None frames) as Hc.
      { destruct (encode_frames_carries _ _ Ef) as (wm & Hw & Hc); [by apply Hv|].
        simpl in Hw. apply encode_kind in Hw. by rw Hw in Hc. }
      destruct (semantics_taken _ _ _ s) as [s1 [[|]|]]; [by apply Hwrite| |];
        intros [= <- <-]; by apply Hnone.
    + destruct (o_channels s !! en_channel encoded); [|intros [= <- <-]; by apply Hnone].
      pose proof (Good_forget n [] s s (en_channel encoded) Hg) as Hf.
      destruct (encode_frames (Core_Pane _)) as [fs|] eqn:Ep; [|intros [= <- <-]; by apply Hnone].
      by apply (Hwrite _ (forget_channel (en_channel encoded) s) _ _ Hf (pane_carries _ _ _ Ep)).
  - intros [= <- <-]. apply Hnone. by apply Good_semantics_unsent.
Qed.
End Runs.
