(* ===== verification/OutboxTheorems.v ===== *)
(** * What a connection's outbox delivers

    The machine of one connection: calls from any thread, interleaved with the I/O
    thread, which takes a frame or encodes a presentation or a semantic revision
    outside the lock. Whatever the interleaving, the peer reads whole messages, every
    accepted reply exactly once, and the queues stay within their bounds. *)
From stdpp Require Import fin_maps.
From S2P Require Import Prelude.
From S2P Require Import Text.
From S2P Require Import Facts.
From S2P Require Import HierarchyTypes.
From S2P Require Import DiskJournal.
From S2P Require Import Messages.
From S2P Require Import Wire.
From S2P Require Import WireTheorems.
From S2P Require Import Outbox.
From S2P Require Import OutboxProofs.

Section Machine.
Context `{P : Payloads}.
Context `{SM : !SemanticModels}.
Context {Presentation : Type}.
(** [Presentation::encode]. *)
Context (presentation_encode : Presentation → FrameTicket → option (N * ScreenUpdate)).
Context `{Postcard Reply, Postcard Frame, Postcard AccessibilityMessage, Postcard PaneMessage,
  Postcard (InventoryRevision Inventory), Postcard UpdateFacts, Postcard Ping, Postcard Pong, Postcard Fatal}.
Implicit Types s : OutState Presentation.

(** A call on an outbox. *)
Inductive OutCall :=
  | Call_Begin (id : RequestId)
  | Call_Reply (id : RequestId) (answer : result ReplyBody Refusal)
  | Call_ReplyOrRefuse (id : RequestId) (answer : result ReplyBody Refusal)
  | Call_Pane (channel : Channel) (event : PaneEvent)
  | Call_Inventory (revision : InventoryRevision Inventory)
  | Call_UpdateFacts (facts : UpdateFacts)
  | Call_Ping (nonce : N)
  | Call_Pong (nonce : N)
  | Call_Goodbye (fatal : Fatal)
  | Call_Disconnected
  | Call_Open (channel : Channel)
  | Call_Close (channel : Channel)
  | Call_End (channel : Channel) (event : PaneEvent)
  | Call_TakeClosed
  | Call_View (channel : Channel) (visible : bool)
  | Call_Present (channel : Channel) (presentation : Presentation)
  | Call_RequireKeyframe (channel : Channel)
  | Call_Acknowledge (channel : Channel) (frame : N)
  | Call_StartSemantics (channel : Channel) (generation : N)
  | Call_EndSemantics (channel : Channel)
  | Call_Semantics (channel : Channel) (model : Model)
  | Call_AcknowledgeSemantics (channel : Channel) (generation revision : N)
  | Call_Written (now : N).

Definition call_run (call : OutCall) s : OutState Presentation * result unit OutboxError :=
  match call with
  | Call_Begin id => ob_begin id s
  | Call_Reply id answer => ob_reply id answer s
  | Call_ReplyOrRefuse id answer => reply_or_refuse id answer s
  | Call_Pane channel event => ob_pane channel event s
  | Call_Inventory revision => ob_inventory revision s
  | Call_UpdateFacts facts => ob_update_facts facts s
  | Call_Ping nonce => ob_ping nonce s
  | Call_Pong nonce => ob_pong nonce s
  | Call_Goodbye fatal => ob_goodbye fatal s
  | Call_Disconnected => (disconnected s, Ok tt)
  | Call_Open channel => ob_open channel s
  | Call_Close channel => (ob_close channel s, Ok tt)
  | Call_End channel event => ob_end channel event s
  | Call_TakeClosed => ((take_closed s).1, Ok tt)
  | Call_View channel visible => (ob_view channel visible s, Ok tt)
  | Call_Present channel presentation => ob_present channel presentation s
  | Call_RequireKeyframe channel => (require_keyframe channel s, Ok tt)
  | Call_Acknowledge channel frame => ob_acknowledge channel frame s
  | Call_StartSemantics channel generation => start_semantics channel generation s
  | Call_EndSemantics channel => (end_semantics channel s, Ok tt)
  | Call_Semantics channel model => offer_semantics channel model s
  | Call_AcknowledgeSemantics channel generation revision =>
      acknowledge_semantics channel generation revision s
  | Call_Written now => (written now s, Ok tt)
  end.

(** Where the I/O thread is in [next_frame_within]. *)
Inductive IoState :=
  | Io_Idle
  | Io_Presenting (ticket : FrameTicket) (presentation : Presentation) (end_ : option Frames)
  | Io_Semantics (work : Work).

(** A connection: its outbox, its I/O thread, the frames written so far, and the
    requests whose replies the outbox accepted. *)
Record Conn := {
  cn_out : OutState Presentation;
  cn_io : IoState;
  cn_sent : list (list byte);
  cn_replied : list RequestId
}.
Definition conn_new : Conn :=
  {| cn_out := out_default; cn_io := Io_Idle; cn_sent := []; cn_replied := [] |}.

Inductive ConnStep :=
  | Do_Call (call : OutCall)
  | Do_Take (lowest : Priority)
  | Do_Encode.

Definition call_replied (call : OutCall) (outcome : result unit OutboxError) : list RequestId :=
  match call with
  | Call_Reply id _ | Call_ReplyOrRefuse id _ => replied id outcome
  | _ => []
  end.

Definition conn_step (c : Conn) (step : ConnStep) : Conn :=
  match step, cn_io c with
  | Do_Call call, io =>
      let '(s, outcome) := call_run call (cn_out c) in
      {| cn_out := s; cn_io := io; cn_sent := cn_sent c; cn_replied := call_replied call outcome ++ cn_replied c |}
  | Do_Take lowest, Io_Idle =>
      let '(s, taken) := ob_take lowest (cn_out c) in
      let '(io, sent) :=
        match taken with
        | Some (Taken_Frame frame _) => (Io_Idle, [frame])
        | Some (Taken_Present ticket presentation end_) => (Io_Presenting ticket presentation end_, [])
        | Some (Taken_Semantics work) => (Io_Semantics work, [])
        | Some Taken_Skip | None => (Io_Idle, [])
        end in
      {| cn_out := s; cn_io := io; cn_sent := cn_sent c ++ sent; cn_replied := cn_replied c |}
  | Do_Encode, Io_Presenting ticket presentation end_ =>
      let '(s, frame) :=
        commit_presented ticket end_ (presentation_encode presentation ticket) (cn_out c) in
      {| cn_out := s; cn_io := Io_Idle; cn_sent := cn_sent c ++ option_list frame; cn_replied := cn_replied c |}
  | Do_Encode, Io_Semantics work =>
      let '(s, frame) := commit_semantics (work_run work) (cn_out c) in
      {| cn_out := s; cn_io := Io_Idle; cn_sent := cn_sent c ++ option_list frame; cn_replied := cn_replied c |}
  | _, _ => c
  end.

Definition conn_run (steps : list ConnStep) : Conn := foldl conn_step conn_new steps.

(** The messages a call offers are ones the protocol allows. *)
Definition call_valid (call : OutCall) : bool :=
  match call with
  | Call_Reply id answer | Call_ReplyOrRefuse id answer =>
      core_validate (Core_Reply {| rp_id := id; rp_result := answer |})
  | Call_Inventory revision => core_validate (Core_Inventory revision)
  | Call_UpdateFacts facts => core_validate (Core_UpdateFacts facts)
  | _ => true
  end.
Definition step_valid (step : ConnStep) : bool :=
  match step with Do_Call call => call_valid call | _ => true end.

Lemma call_good n s call s' outcome :
  call_valid call = true → OutInv n s → call_run call s = (s', outcome) →
  Good n (call_replied call outcome) s s'.
Proof.
  intros Hv Hi E. pose proof (Good_refl _ _ Hi) as Hg.
  assert (∀ s1 : OutState Presentation * result unit OutboxError, Good n [] s s1.1 → s1 = (s', outcome) → Good n [] s s') as Hfst
    by (intros s1 Hs1 ->; done).
  destruct call; simpl in *;
    try (by eapply Hfst; [|exact E]; simpl;
         eauto using Good_begin, Good_pane, Good_ob_inventory, Good_ob_update_facts, Good_push_l0, Good_goodbye,
           Good_closing, Good_open, Good_forget, Good_end, Good_set_closed, Good_view, Good_present,
           Good_require_keyframe, Good_acknowledge, Good_start_semantics, Good_end_semantics,
           Good_offer_semantics, Good_acknowledge_semantics, Good_written).
  - rw -(app_nil_r (replied _ _)). by eapply Good_reply.
  - rw -(app_nil_r (replied _ _)). by eapply Good_reply_or_refuse.
Qed.

(** ** The stream *)

Abbreviation Delivered := (Delivers encode_core core_validate).

(** What is left of a level: the rest of a message partly written, then whole messages
    that answer nothing. *)
Inductive Tail (level : Priority) : list (list byte) → option RequestId → list (Open (M := CoreMessage)) → Prop :=
  | Tail_none messages : Forall (Carries level None) messages → Tail level (concat messages) None []
  | Tail_some x messages :
      op_rest x ≠ [] → kind_level (op_kind x) = level → Forall (Carries level None) messages →
      (reply_of (op_message x) ≠ None → messages = []) →
      Tail level (op_rest x ++ concat messages) (reply_of (op_message x)) [x].

Lemma carries_concat_nil level messages : Forall (Carries level None) messages → concat messages = [] → messages = [].
Proof.
  intros Hm. destruct messages as [|a messages]; [done|]. apply Forall_cons in Hm as [Ha _].
  by destruct (carries_nonempty _ _ _ Ha) as (x & xs & ->).
Qed.

Lemma Tail_nil level reply o : Tail level [] reply o → reply = None ∧ o = [].
Proof.
  intros Ht. remember [] as rest eqn:E in Ht. destruct Ht as [messages Hm|x messages Hx Hk Hm Hr]; [done|].
  by apply app_eq_nil in E as [? _].
Qed.

(** Whole messages that were not started are a tail too. *)
Definition level_apart (level : Priority) (o : list (Open (M := CoreMessage))) : Prop :=
  Forall (λ x, kind_level (op_kind x) ≠ level) o.

Lemma apart_kind level o k : level_apart level o → kind_level k = level → (k ∉ map op_kind o).
Proof.
  intros Ho Hk (x & -> & Hx)%elem_of_map. unfold level_apart in Ho. rw Forall_forall in Ho. by apply (Ho x Hx).
Qed.

(** A message starts: written whole, or open with the rest of its frames. *)
Lemma start_message level id f rest o :
  Carries level id (f :: rest) → level_apart level o →
  ∃ ms o', Delivered o [f] ms (o' ++ o) ∧
    (if is_empty rest then o' = [] ∧ omap reply_of ms = option_list id
     else ms = [] ∧ ∃ x, o' = [x] ∧ op_rest x = rest ∧ kind_level (op_kind x) = level ∧ reply_of (op_message x) = id).
Proof.
  intros (m & wm & He & Hf & Hv & Hl & Hid) Ho. pose proof (apart_kind _ _ _ Ho Hl) as Hk. destruct rest as [|g rest].
  - exists [m], []. split; [|split; [done|simpl; rw Hid; by destruct id]]. eapply dv_whole; try done. constructor.
  - exists [], [{| op_kind := wm_kind wm; op_rest := g :: rest; op_message := m |}].
    split; [eapply dv_start; try done; constructor|]. split; [done|]. by eexists.
Qed.

(** A frame of the open message of a level. *)
Lemma continue_message f rest o k m o1 o2 :
  o = o1 ++ {| op_kind := k; op_rest := f :: rest; op_message := m |} :: o2 →
  if is_empty rest then Delivered o [f] [m] (o1 ++ o2)
  else Delivered o [f] [] (o1 ++ {| op_kind := k; op_rest := rest; op_message := m |} :: o2).
Proof.
  intros ->. destruct rest as [|g rest]; simpl.
  - apply dv_last. constructor.
  - apply dv_more. constructor.
Qed.

Lemma apart_perm level o o' : o ≡ₚ o' → level_apart level o' → level_apart level o.
Proof. unfold level_apart. by intros ->. Qed.

Lemma start_tail level messages f rest o :
  Forall (Carries level None) messages → concat messages = f :: rest → level_apart level o →
  ∃ ms o', Delivered o [f] ms (o' ++ o) ∧ Tail level rest None o' ∧ omap reply_of ms = [].
Proof.
  intros Hm Hc Ho. destruct messages as [|a messages]; [done|]. apply Forall_cons in Hm as [Ha Hm].
  destruct (carries_nonempty _ _ _ Ha) as (x & xs & ->). simpl in Hc. injection Hc as -> <-.
  destruct (start_message _ _ _ _ _ Ha Ho) as (ms & o' & Hd & Hs). exists ms, o'. split; [done|].
  destruct xs as [|y ys]; simpl in Hs.
  - destruct Hs as [-> Hr]. split; [by apply (Tail_none level messages)|done].
  - destruct Hs as [-> (z & -> & Hrest & Hk & Hr)]. split; [|done]. rw -Hrest -Hr.
    apply Tail_some; [by rw Hrest|done|done|]. by rw Hr.
Qed.

Lemma emits_stream level f rest reply ids rest' reply' ids' o o1 o2 :
  Emits level f rest reply ids rest' reply' ids' → Tail level rest reply o1 → o ≡ₚ o1 ++ o2 → level_apart level o2 →
  ∃ ms o' o1', Delivered o [f] ms o' ∧ o' ≡ₚ o1' ++ o2 ∧ Tail level rest' reply' o1' ∧
    option_list reply ++ ids ≡ₚ omap reply_of ms ++ option_list reply' ++ ids'.
Proof.
  intros He Ht Ho Ha. destruct He as [rest reply ids|rest id reply ids ids' Hc Hids|rest messages reply ids ids' Hm Hc Hids].
  - remember (f :: rest) as all eqn:E in Ht. destruct Ht as [messages Hm|x messages Hx Hk Hm Hr].
    + simpl in Ho. destruct (start_tail level messages f rest o Hm E (apart_perm _ _ _ Ho Ha)) as (ms & o' & Hd & Ht & Hms).
      exists ms, (o' ++ o), o'. rw Hms. split; [done|]. split; [by rw Ho|]. by destruct (is_empty rest).
    + assert (x ∈ o) as Hin by (rw Ho; simpl; by left). apply list_elem_of_split in Hin as (oa & ob & ->).
      destruct x as [k xrest m]. simpl in *. destruct xrest as [|y ys]; [done|]. simpl in E. injection E as -> <-.
      assert (oa ++ ob ≡ₚ o2) as Hrest.
      { rw -Permutation_middle in Ho. by apply Permutation_cons_inv in Ho. }
      pose proof (continue_message f ys _ k m oa ob eq_refl) as Hcont. destruct ys as [|z zs]; simpl in Hcont.
      * eexists _, _, []. split; [exact Hcont|]. split; [by simpl|]. simpl.
        assert ((if is_empty (concat messages) then None else reply_of m) = None) as ->.
        { destruct (reply_of m); [|by destruct (is_empty _)]. rw Hr; [done|]. done. }
        split; [by apply Tail_none|]. simpl. by destruct (reply_of m).
      * set (x := {| op_kind := k; op_rest := z :: zs; op_message := m |}) in *.
        eexists _, _, [x]. split; [exact Hcont|]. simpl. rw -Permutation_middle Hrest. split; [done|].
        split; [|done]. by apply (Tail_some level x messages).
  - apply Tail_nil in Ht as [-> ->]. simpl in Ho.
    destruct (start_message _ _ _ _ _ Hc (apart_perm _ _ _ Ho Ha)) as (ms & o' & Hd & Hs).
    exists ms, (o' ++ o), o'. split; [done|]. split; [by rw Ho|]. destruct rest as [|g rest]; simpl in Hs |- *.
    + destruct Hs as [-> ->]. split; [by apply (Tail_none level [])|done].
    + destruct Hs as [-> (x & -> & Hrest & Hk & Hr)]. simpl. split; [|done]. rw -Hrest -(app_nil_r (op_rest x)) -Hr.
      apply (Tail_some level x []); [by rw Hrest|done|done|done].
  - apply Tail_nil in Ht as [-> ->]. simpl in Ho.
    destruct (start_tail level messages f rest o Hm Hc (apart_perm _ _ _ Ho Ha)) as (ms & o' & Hd & Ht & Hms).
    exists ms, (o' ++ o), o'. rw Hms. split; [done|]. split; [by rw Ho|]. done.
Qed.

(** The invariant of a run of [n] steps. *)
Definition pending_ids s : list RequestId :=
  option_list (o_l1_rest_reply s) ++ option_list (o_l2_rest_reply s) ++ queued_ids s.

Definition io_ok (c : Conn) : Prop :=
  match cn_io c with
  | Io_Idle => True
  | Io_Presenting ticket _ end_ => o_l1_rest (cn_out c) = [] ∧ ticket_ok ticket end_
  | Io_Semantics _ => o_l1_rest (cn_out c) = []
  end.

Record Stream (c : Conn) (ms : list CoreMessage) (o o1 o2 : list (Open (M := CoreMessage))) : Prop := {
  sr_delivered : Delivered [] (cn_sent c) ms o;
  sr_open : o ≡ₚ o1 ++ o2;
  sr_l1 : Tail L1 (o_l1_rest (cn_out c)) (o_l1_rest_reply (cn_out c)) o1;
  sr_l2 : Tail L2 (o_l2_rest (cn_out c)) (o_l2_rest_reply (cn_out c)) o2;
  sr_replies : cn_replied c ≡ₚ omap reply_of ms ++ pending_ids (cn_out c)
}.

Record ConnInv (n : N) (c : Conn) : Prop := {
  ci_out : OutInv n (cn_out c);
  ci_io : io_ok c;
  ci_stream : ∃ ms o o1 o2, Stream c ms o o1 o2
}.

Lemma tail_apart level level' rest reply o : level ≠ level' → Tail level rest reply o → level_apart level' o.
Proof.
  intros Hne Ht. destruct Ht as [|x messages Hx Hk Hm Hr]; [constructor|]. constructor; [congruence|constructor].
Qed.

(** Steps that write nothing, and steps that write a frame. *)
Lemma stream_call c ms o o1 o2 n q s' io :
  Stream c ms o o1 o2 → Good n q (cn_out c) s' →
  Stream {| cn_out := s'; cn_io := io; cn_sent := cn_sent c; cn_replied := q ++ cn_replied c |} ms o o1 o2.
Proof.
  intros [D1 D2 D3 D4 D5] [_ E1 E2 E3 E4 E5]. split; simpl; try done; [by rw E1 E3|by rw E2 E4|].
  unfold pending_ids in *. rw E3 E4 E5 D5. solve_Permutation.
Qed.

Lemma stream_same c ms o o1 o2 s' io :
  Stream c ms o o1 o2 → SameLevels (cn_out c) s' →
  Stream {| cn_out := s'; cn_io := io; cn_sent := cn_sent c ++ []; cn_replied := cn_replied c |} ms o o1 o2.
Proof.
  intros [D1 D2 D3 D4 D5] [E1 E2 E3 E4 E5]. rw app_nil_r. split; simpl; try done; [by rw E1 E2|by rw E3 E4|].
  unfold pending_ids in *. by rw E2 E4 E5.
Qed.

Lemma stream_emit c ms o o1 o2 level f s' io :
  Stream c ms o o1 o2 → EmitsAt level f (cn_out c) s' →
  ∃ ms' o' o1' o2',
    Stream {| cn_out := s'; cn_io := io; cn_sent := cn_sent c ++ [f]; cn_replied := cn_replied c |} ms' o' o1' o2'.
Proof.
  intros [D1 D2 D3 D4 D5] He. destruct level; simpl in He.
  - destruct He as [Hc [E1 E2 E3 E4 E5]]. assert (level_apart L0 o) as Hap.
    { apply (apart_perm _ _ _ D2), Forall_app. split; [by eapply (tail_apart L1)|by eapply (tail_apart L2)]. }
    destruct (start_message _ _ _ _ _ Hc Hap) as (ms' & o' & Hd & -> & Hms). exists (ms ++ ms'), o, o1, o2.
    split; simpl; try done; [by eapply Delivers_app|by rw E1 E2|by rw E3 E4|].
    unfold pending_ids in *. rw omap_app Hms app_nil_r. by rw E2 E4 E5.
  - destruct He as (He & E1 & E2).
    destruct (emits_stream _ _ _ _ _ _ _ _ _ _ _ He D3 D2) as (ms' & o' & o1' & Hd & Ho & Ht & Hr);
      [by eapply (tail_apart L2)|].
    exists (ms ++ ms'), o', o1', o2. split; simpl; try done; [by eapply Delivers_app|by rw E1 E2|].
    rw D5. unfold pending_ids. rw E2 omap_app -app_assoc. apply Permutation_app_head.
    revert Hr. generalize (option_list (o_l2_rest_reply (cn_out c))). intros l Hr.
    transitivity (l ++ option_list (o_l1_rest_reply (cn_out c)) ++ queued_ids (cn_out c)); [solve_Permutation|].
    rw Hr. solve_Permutation.
  - destruct He as (He & E1 & E2). assert (o ≡ₚ o2 ++ o1) as D2' by (by rw D2 Permutation_app_comm).
    destruct (emits_stream _ _ _ _ _ _ _ _ _ _ _ He D4 D2') as (ms' & o' & o2' & Hd & Ho & Ht & Hr);
      [by eapply (tail_apart L1)|].
    exists (ms ++ ms'), o', o1, o2'. split; simpl; try done;
      [by eapply Delivers_app|by rw Ho Permutation_app_comm|by rw E1 E2|].
    rw D5. unfold pending_ids. rw E2 omap_app -app_assoc. apply Permutation_app_head. rw Hr. solve_Permutation.
Qed.

(** Encoders yield updates the protocol allows. *)
Context (presentation_valid : ∀ presentation ticket input update,
  presentation_encode presentation ticket = Some (input, update) → update_validate update = true).
Context (model_valid : ∀ encoding, semantic_validate (encoding_next encoding).1 = true).

Lemma work_valid work encoded : work_run work = Ok encoded → semantic_validate (en_update encoded) = true.
Proof.
  unfold work_run. destruct (wk_step work) as [model ticket base|encoding]; simpl.
  - destruct (model_encode model ticket base) as [encoding|]; [|done]. simpl.
    pose proof (model_valid encoding). destruct (encoding_next encoding). by intros [= <-].
  - pose proof (model_valid encoding). destruct (encoding_next encoding). by intros [= <-].
Qed.

Lemma conn_inv_step n c step :
  (n + 2 <= u64_max)%N → step_valid step = true → ConnInv n c → ConnInv (n + 1) (conn_step c step).
Proof.
  intros Hn Hv Hc. assert (ConnInv (n + 1) c) as Hsame.
  { destruct Hc as [H1' H2' H3']. split; [eapply OutInv_mono; [|exact H1']; lia|done|done]. }
  destruct Hc as [Hi Hio (ms & o & o1 & o2 & Hs)]. unfold conn_step.
  assert (∀ s2, OutInv n s2 → OutInv (n + 1) s2) as Hup by (intros s2; apply OutInv_mono; lia).
  assert (∀ s' w, OutInv n s' → CommitOk (cn_out c) s' w →
    ConnInv (n + 1) {| cn_out := s'; cn_io := Io_Idle; cn_sent := cn_sent c ++ option_list w; cn_replied := cn_replied c |})
    as Hcommit.
  { intros s' w Hi' Hw. split; [by apply Hup|done|]. destruct w as [f|]; simpl.
    - by apply (stream_emit _ _ _ _ _ L1 _ _ _ Hs Hw).
    - exists ms, o, o1, o2. by apply stream_same. }
  destruct step as [call|lowest|].
  - destruct (call_run call (cn_out c)) as [s' outcome] eqn:E. pose proof (call_good _ _ _ _ _ Hv Hi E) as Hg.
    split; simpl; [apply Hup, (gd_inv _ _ _ _ Hg)| |exists ms, o, o1, o2; by eapply stream_call].
    unfold io_ok in *. simpl. by rw (gd_l1_rest _ _ _ _ Hg).
  - destruct (cn_io c) eqn:Eio; [|done|done]. destruct (ob_take lowest (cn_out c)) as [s' taken] eqn:E.
    destruct (ob_take_spec _ _ _ _ _ Hn Hi E) as [Hi' Ht].
    destruct taken as [[f level|ticket p end_|work|]|]; simpl in Ht; (split; [done| |]).
    + exact I.
    + by eapply stream_emit.
    + by destruct Ht.
    + exists ms, o, o1, o2. by apply stream_same, Ht.
    + by destruct Ht.
    + exists ms, o, o1, o2. by apply stream_same, Ht.
    + exact I.
    + exists ms, o, o1, o2. by apply stream_same.
    + exact I.
    + exists ms, o, o1, o2. by apply stream_same.
  - unfold io_ok in Hio. destruct (cn_io c) as [|ticket p end_|work]; [done| |].
    + destruct Hio as [Hr Htk]. destruct (commit_presented _ _ _ _) as [s' w] eqn:E.
      apply (commit_presented_spec n) in E as [Hi' Hw]; try done; [by apply Hcommit|]. intros ? ?. apply presentation_valid.
    + destruct (commit_semantics _ _) as [s' w] eqn:E.
      apply (commit_semantics_spec n) in E as [Hi' Hw]; try done; [by apply Hcommit|]. intros ?. apply work_valid.
Qed.

Lemma conn_inv steps :
  (N.of_nat (length steps) + 1 <= u64_max)%N → Forall (λ step, step_valid step = true) steps →
  ConnInv (N.of_nat (length steps)) (conn_run steps).
Proof.
  induction steps as [|step steps IH] using rev_ind; intros Hn Hv.
  - split; [|done|].
    + split; simpl; try done; try (rw map_size_empty); apply Nat.le_0_l.
    + exists [], [], [], []. split; [constructor|done|by apply (Tail_none L1 [])|by apply (Tail_none L2 [])|done].
  - unfold conn_run. rw foldl_app /=. apply Forall_app in Hv as [Hv Hs]. rw Forall_singleton in Hs.
    rw length_app /= Nat2N.inj_add in Hn. rw length_app /= Nat2N.inj_add. apply conn_inv_step; [lia|done|].
    apply IH; [lia|done].
Qed.


Context `{!PostcardLaw Reply, !PostcardLaw Frame, !PostcardLaw AccessibilityMessage, !PostcardLaw PaneMessage,
  !PostcardLaw (InventoryRevision Inventory), !PostcardLaw UpdateFacts, !PostcardLaw Ping, !PostcardLaw Pong,
  !PostcardLaw Fatal}.

(** C8. Whatever calls reach an outbox and however the I/O thread interleaves with
    them, the client reads what was written as whole valid messages, however the bytes
    are segmented; every reply the outbox accepted is read exactly once or still waits
    in the outbox; and nothing is left half read when no message is partly written. *)
Theorem outbox_delivers steps segments :
  (N.of_nat (length steps) + 1 <= u64_max)%N → Forall (λ step, step_valid step = true) steps →
  let c := conn_run steps in
  concat segments = concat (cn_sent c) →
  ∃ r a ms, receive_all false decode_core core_validate segments reader_default [] = (r, a, Ok ms) ∧
    partial r = false ∧
    cn_replied c ≡ₚ omap reply_of ms ++ pending_ids (cn_out c) ∧
    (o_l1_rest (cn_out c) = [] → o_l2_rest (cn_out c) = [] → a = []).
Proof.
  intros Hn Hv c Hseg. destruct (conn_inv steps Hn Hv) as [_ _ (ms & o & o1 & o2 & [D1 D2 D3 D4 D5])].
  destruct (stream_delivered false encode_core decode_core core_validate encode_core_decodes
    _ _ _ segments D1 Hseg) as (r & a & Hr & Hp & Ha).
  exists r, a, ms. split; [done|]. split; [done|]. split; [done|]. intros E1 E2. fold c in D3, D4.
  rw E1 in D3. rw E2 in D4. apply Tail_nil in D3 as [_ ->]. apply Tail_nil in D4 as [_ ->].
  apply Permutation_nil_r in D2 as ->. simpl in Ha. apply Permutation_nil_r in Ha. by destruct a.
Qed.

(** ** The last event of a channel *)

(** A channel whose state is being encoded. *)
Record Presenting (channel : Channel) (ticket : FrameTicket) (slot : Slot Presentation) s : Prop := {
  pg_slot : o_channels s !! channel = Some slot;
  pg_ticket : tk_channel ticket = channel;
  pg_in_flight : sl_in_flight slot = Some (tk_frame ticket, None);
  pg_pending : sl_pending slot = None;
  pg_end : sl_end slot = None;
  pg_open : o_closing s = false
}.

(** [end] promises that a channel's last event is written after its final state.
    When it is called while the I/O thread encodes that state, and the state equals
    its base, so that no frame is written, the call succeeds but the event never
    leaves the slot: nothing is queued and nothing is in flight, later presentations
    and ends are ignored, and the client has no frame to acknowledge. *)
Theorem last_event_lost channel ticket slot event frames s :
  Presenting channel ticket slot s →
  encode_frames (Core_Pane {| pm_channel := channel; pm_event := event |}) = Ok frames →
  let '(s1, outcome) := ob_end channel event s in
  let '(s2, written) := commit_presented ticket None None s1 in
  outcome = Ok tt ∧ written = None ∧ o_l0 s2 = o_l0 s ∧ o_l1 s2 = o_l1 s ∧ o_l1_rest s2 = o_l1_rest s ∧
  (∃ slot', o_channels s2 !! channel = Some slot' ∧ sl_end slot' = Some frames ∧
    sl_pending slot' = None ∧ sl_in_flight slot' = None ∧ sl_queued slot' = sl_queued slot) ∧
  (∀ presentation, ob_present channel presentation s2 = (s2, Ok tt)) ∧
  (∀ frame, ob_acknowledge channel frame s2 = (s2, Err Out_Violation)) ∧
  ob_end channel event s2 = (s2, Ok tt) ∧
  (take_present channel s2).2 = Taken_Skip.
Proof.
  intros [Hs Ht Hf Hp He Hc] Hev. unfold ob_end at 1. rw Hev Hc Hs He /= Hp Hf.
  unfold commit_presented. simpl. unfold unsent. rw Ht. simpl. rw lookup_insert_eq /= Hf /=.
  rw bool_decide_true; [done|]. rw Hp. simpl.
  split; [done|]. split; [done|]. split; [done|]. split; [done|]. split; [done|].
  unfold ob_present, ob_acknowledge, ob_end, take_present. simpl. rw Hev Hc lookup_insert_eq /= orb_true_r.
  split; [by eexists|]. split; [done|]. split; [done|]. split; [done|].
  rw orb_false_r. destruct (negb (sl_visible slot)); [done|]. simpl. by rw Hp.
Qed.
End Machine.

(** ** Witnesses *)

Module Sample.
#[local] Existing Instance WireTheorems.Sample.payloads.
#[local] Existing Instance WireTheorems.Sample.no_codec | 100.
#[local] Existing Instance WireTheorems.Sample.no_codec_law.
#[local] Existing Instance WireTheorems.Sample.ping_codec.
#[local] Existing Instance WireTheorems.Sample.ping_law.

#[local] Instance models : SemanticModels := {|
  Model := unit; Encoding := unit; model_revision := λ _, 1%N;
  model_encode := λ _ _ _, Some tt; encoding_next := λ _, (tt, tt)
|}.

(** Refusals, failures and frames without content. *)
#[local] Instance reply_codec : Postcard Reply :=
  {| to_bytes := λ reply,
       match rp_result reply with Err Refusal_Capacity => Some [rp_id reply] | _ => None end;
     take_from_bytes := λ bytes,
       match bytes with
       | id :: rest => Some ({| rp_id := id; rp_result := Err Refusal_Capacity |}, rest)
       | [] => None
       end |}.
#[local] Instance reply_law : PostcardLaw Reply.
Proof. intros [id [|[]]] bytes rest; try done. by intros [= <-]. Qed.

#[local] Instance pane_codec : Postcard PaneMessage :=
  {| to_bytes := λ m, match pm_event m with Event_Failed => Some [pm_channel m] | _ => None end;
     take_from_bytes := λ bytes,
       match bytes with
       | c :: rest => Some ({| pm_channel := c; pm_event := Event_Failed |}, rest)
       | [] => None
       end |}.
#[local] Instance pane_law : PostcardLaw PaneMessage.
Proof. intros [c []] bytes rest; try done. by intros [= <-]. Qed.

#[local] Instance frame_codec : Postcard Frame :=
  {| to_bytes := λ f,
       Some [fr_channel f; fr_frame f; match fr_base f with Some b => b + 1 | None => 0 end; fr_input f]%N;
     take_from_bytes := λ bytes,
       match bytes with
       | c :: n :: b :: i :: rest =>
           Some ({| fr_channel := c; fr_frame := n; fr_base := if (b =? 0)%N then None else Some (b - 1)%N;
                    fr_input := i; fr_update := tt |}, rest)
       | _ => None
       end |}.
#[local] Instance frame_law : PostcardLaw Frame.
Proof.
  intros [c n [b|] i []] bytes rest [= <-]; simpl; [|done].
  destruct (N.eqb_spec (b + 1) 0); [lia|]. by rw N.add_sub.
Qed.

(** A presentation equals every base it is encoded against. *)
Definition unchanged (presentation : N) (ticket : FrameTicket) : option (N * ScreenUpdate) :=
  match tk_base ticket with None => Some (presentation, tt) | Some _ => None end.

Definition steps : list (ConnStep (Presentation := N)) :=
  [Do_Call (Call_Open 1); Do_Call (Call_Begin 7); Do_Call (Call_Present 1 5);
   Do_Call (Call_Reply 7 (Err Refusal_Capacity)); Do_Take L2; Do_Call (Call_Ping 9); Do_Encode; Do_Take L2;
   Do_Call (Call_Begin 8); Do_Take L2; Do_Call (Call_Reply 8 (Err Refusal_Capacity));
   Do_Call (Call_Acknowledge 1 1); Do_Call (Call_Present 1 6)]%N.
Definition conn : Conn := conn_run unchanged steps.


Lemma outbox_delivers_witness :
  ∃ r a ms, receive_all false decode_core core_validate [concat (cn_sent conn)] reader_default [] = (r, a, Ok ms) ∧
    [8; 7]%N ≡ₚ omap reply_of ms ++ [8%N].
Proof.
  destruct (outbox_delivers unchanged (λ p t i u E, eq_refl) (λ e, eq_refl) steps [concat (cn_sent conn)])
    as (r & a & ms & Hr & _ & Hids & _); [vm_compute; intros [=]|repeat constructor|apply app_nil_r|].
  exists r, a, ms. split; [exact Hr|]. vm_compute in Hids. exact Hids.
Defined.

(** The second state of the channel is being encoded. *)
Definition late : Conn := conn_run unchanged (steps ++ [Do_Take L2; Do_Take L2]).

Lemma last_event_lost_witness :
  ∃ ticket, cn_io late = Io_Presenting ticket 6%N None ∧ unchanged 6 ticket = None ∧
  let s1 := (ob_end 1 Event_Failed (cn_out late)).1 in
  let s2 := (commit_presented ticket None None s1).1 in
  ∀ frame, ob_acknowledge 1 frame s2 = (s2, Err Out_Violation).
Proof.
  exists {| tk_channel := 1; tk_frame := 2; tk_base := Some 1%N |}.
  split; [vm_compute; reflexivity|]. split; [reflexivity|].
  assert (∃ slot, Presenting 1 {| tk_channel := 1; tk_frame := 2; tk_base := Some 1%N |} slot (cn_out late)) as [slot Hp].
  { eexists. split; [vm_compute; reflexivity|vm_compute; reflexivity..]. }
  assert (encode_frames (Core_Pane {| pm_channel := 1; pm_event := Event_Failed |}) = Ok [[0; 0; 0; 2; 68; 1]%N]) as He
    by (vm_compute; reflexivity).
  pose proof (last_event_lost 1 _ slot Event_Failed _ (cn_out late) Hp He) as Hl.
  destruct (ob_end 1 Event_Failed (cn_out late)) as [s1 outcome]. cbn [fst].
  destruct (commit_presented _ _ _ s1) as [s2 w]. cbn [fst].
  destruct Hl as (_ & _ & _ & _ & _ & _ & _ & Ha & _). exact Ha.
Defined.
End Sample.
