(* ===== verification/Link.v ===== *)
(** * The client's half of a connection

    [crates/spaceterm-core/src/connection/link.rs]: [CoreLink] and [ChannelHandle].
    Every definition is what one call does while it holds the link's lock; [receive]
    and [check] are split where they release it, so other calls come in between.
    Sinks and waiters are named by numbers; what they are given is an output of the
    step, in the order the source delivers it. Waking the I/O thread and waiting on
    conditions are not modelled. *)
From S2P Require Import Prelude.
From S2P Require Import Text.
From S2P Require Import Facts.
From S2P Require Import HierarchyTypes.
From S2P Require Import DiskJournal.
From S2P Require Import Liveness.
From S2P Require Import Messages.
From S2P Require Import Wire.

Definition MAX_PASTE_BYTES : N := 1024 * 1024.
Definition MAX_CLIENT_L0_BYTES : N := 2 * MAX_PASTE_BYTES.

Inductive LinkError :=
  | Link_Closed | Link_Unresponsive | Link_Stalled | Link_Goodbye (fatal : Fatal) | Link_Violation
  | Link_Busy | Link_OutOfBounds | Link_Unclaimed.

Inductive RequestError := Refused (refusal : Refusal) | Request_Link (error : LinkError).

(** [From<LinkError> for CoreError]. *)
Definition core_of_link (error : LinkError) : CoreError :=
  match error with
  | Link_Goodbye Fatal_Stopping => Error_NotRunning
  | Link_Goodbye Fatal_Revoked => Error_AuthenticationRefused
  | Link_Goodbye Fatal_Capacity => Error_Capacity
  | Link_Busy => Error_Protocol
  | Link_Unclaimed => Error_StaleControl
  | Link_OutOfBounds => Error_Unsupported
  | Link_Closed | Link_Unresponsive | Link_Stalled | Link_Violation | Link_Goodbye _ => Error_Protocol
  end.

Inductive Health := Health_Live | Health_Closed (error : LinkError).

(** Who waits for a reply: a slot, a callback, or the callback that ignores it. *)
Inductive Waiter := Waiter_Slot (slot : N) | Waiter_Callback (callback : N) | Waiter_Ignore.

Record Queued := { qd_frame : list byte; qd_counted : bool }.
Record ChannelState := { ch_sink : N; ch_serial : N; ch_ended : bool }.
(** A handle: the wire channel once assigned, and its sink. *)
Record ChannelHandle := { hd_channel : option Channel; hd_sink : N }.

(** [chunks]: [text] split at character boundaries into pieces of at most [limit]
    bytes. The fuel is the number of characters, of which every piece takes one. *)
Fixpoint split_at_most (limit : nat) (text : ustring) : ustring * ustring :=
  match text with
  | [] => ([], [])
  | c :: rest =>
      if len_utf8 c <=? limit
      then let '(piece, tail) := split_at_most (limit - len_utf8 c) rest in (c :: piece, tail)
      else ([], text)
  end.
Fixpoint paste_chunks_fuel (fuel limit : nat) (text : ustring) : list ustring :=
  if str_len text <=? limit then [text]
  else match fuel with
  | 0 => []
  | S fuel => let '(piece, tail) := split_at_most limit text in piece :: paste_chunks_fuel fuel limit tail
  end.
Definition paste_chunks (text : ustring) (limit : nat) : list ustring :=
  paste_chunks_fuel (length text) limit text.

Section State.
Context `{P : Payloads}.

Inductive LinkEvent :=
  | Link_Inventory (revision : InventoryRevision Inventory)
  | Link_Health (health : Health)
  | Link_UpdateFacts (facts : UpdateFacts).
Inductive ChannelEvent :=
  | Channel_Frame (frame : Frame)
  | Channel_Pane (event : PaneEvent)
  | Channel_Accessibility (update : SemanticUpdate)
  | Channel_Closed (error : LinkError).

(** What a step hands to a waiter or a sink. *)
Inductive LinkOutput :=
  | Completed (waiter : Waiter) (answer : result ReplyBody RequestError)
  | To_Channel (sink : N) (event : ChannelEvent)
  | To_Link (event : LinkEvent).

Record LinkState := {
  lk_next_id : N;
  lk_requests : gmap RequestId Waiter;
  lk_next_channel : N;
  lk_unbound : nat;
  lk_channels : gmap Channel ChannelState;
  lk_releases : list Channel;
  lk_l0 : list Queued;
  lk_l0_bytes : N;
  lk_l1 : list (list byte);
  lk_assembler : Assembler;
  lk_liveness : Liveness;
  lk_closed : option LinkError;
  lk_inventory : option (N * InventoryRevision Inventory);
  lk_update_facts : option UpdateFacts;
  lk_received_bytes : N
}.

Definition link_new (now : Instant) : LinkState :=
  {| lk_next_id := 0; lk_requests := ∅; lk_next_channel := 0; lk_unbound := 0; lk_channels := ∅;
     lk_releases := []; lk_l0 := []; lk_l0_bytes := 0; lk_l1 := []; lk_assembler := [];
     lk_liveness := liveness_new now; lk_closed := None; lk_inventory := None; lk_update_facts := None;
     lk_received_bytes := 0 |}.

(** ** Field updates *)

Definition set_requests_sent (next_id : N) (requests : gmap RequestId Waiter) (l0 : list Queued)
    (s : LinkState) : LinkState :=
  {| lk_next_id := next_id; lk_requests := requests; lk_next_channel := lk_next_channel s;
     lk_unbound := lk_unbound s; lk_channels := lk_channels s; lk_releases := lk_releases s; lk_l0 := l0;
     lk_l0_bytes := lk_l0_bytes s; lk_l1 := lk_l1 s; lk_assembler := lk_assembler s;
     lk_liveness := lk_liveness s; lk_closed := lk_closed s; lk_inventory := lk_inventory s;
     lk_update_facts := lk_update_facts s; lk_received_bytes := lk_received_bytes s |}.
Definition set_lk_channels (next_channel : N) (unbound : nat) (channels : gmap Channel ChannelState)
    (s : LinkState) : LinkState :=
  {| lk_next_id := lk_next_id s; lk_requests := lk_requests s; lk_next_channel := next_channel;
     lk_unbound := unbound; lk_channels := channels; lk_releases := lk_releases s; lk_l0 := lk_l0 s;
     lk_l0_bytes := lk_l0_bytes s; lk_l1 := lk_l1 s; lk_assembler := lk_assembler s;
     lk_liveness := lk_liveness s; lk_closed := lk_closed s; lk_inventory := lk_inventory s;
     lk_update_facts := lk_update_facts s; lk_received_bytes := lk_received_bytes s |}.
Definition set_lk_releases (releases : list Channel) (s : LinkState) : LinkState :=
  {| lk_next_id := lk_next_id s; lk_requests := lk_requests s; lk_next_channel := lk_next_channel s;
     lk_unbound := lk_unbound s; lk_channels := lk_channels s; lk_releases := releases; lk_l0 := lk_l0 s;
     lk_l0_bytes := lk_l0_bytes s; lk_l1 := lk_l1 s; lk_assembler := lk_assembler s;
     lk_liveness := lk_liveness s; lk_closed := lk_closed s; lk_inventory := lk_inventory s;
     lk_update_facts := lk_update_facts s; lk_received_bytes := lk_received_bytes s |}.
Definition set_lk_queues (l0 : list Queued) (l0_bytes : N) (l1 : list (list byte)) (s : LinkState)
    : LinkState :=
  {| lk_next_id := lk_next_id s; lk_requests := lk_requests s; lk_next_channel := lk_next_channel s;
     lk_unbound := lk_unbound s; lk_channels := lk_channels s; lk_releases := lk_releases s; lk_l0 := l0;
     lk_l0_bytes := l0_bytes; lk_l1 := l1; lk_assembler := lk_assembler s; lk_liveness := lk_liveness s;
     lk_closed := lk_closed s; lk_inventory := lk_inventory s; lk_update_facts := lk_update_facts s;
     lk_received_bytes := lk_received_bytes s |}.
Definition set_lk_liveness (liveness : Liveness) (s : LinkState) : LinkState :=
  {| lk_next_id := lk_next_id s; lk_requests := lk_requests s; lk_next_channel := lk_next_channel s;
     lk_unbound := lk_unbound s; lk_channels := lk_channels s; lk_releases := lk_releases s;
     lk_l0 := lk_l0 s; lk_l0_bytes := lk_l0_bytes s; lk_l1 := lk_l1 s; lk_assembler := lk_assembler s;
     lk_liveness := liveness; lk_closed := lk_closed s; lk_inventory := lk_inventory s;
     lk_update_facts := lk_update_facts s; lk_received_bytes := lk_received_bytes s |}.
Definition set_lk_news (inventory : option (N * InventoryRevision Inventory)) (facts : option UpdateFacts)
    (s : LinkState) : LinkState :=
  {| lk_next_id := lk_next_id s; lk_requests := lk_requests s; lk_next_channel := lk_next_channel s;
     lk_unbound := lk_unbound s; lk_channels := lk_channels s; lk_releases := lk_releases s;
     lk_l0 := lk_l0 s; lk_l0_bytes := lk_l0_bytes s; lk_l1 := lk_l1 s; lk_assembler := lk_assembler s;
     lk_liveness := lk_liveness s; lk_closed := lk_closed s; lk_inventory := inventory;
     lk_update_facts := facts; lk_received_bytes := lk_received_bytes s |}.
End State.

Section Operations.
Context `{P : Payloads}.
Context `{Postcard Request, Postcard Input, Postcard FrameAck, Postcard AccessibilityAck, Postcard View,
  Postcard EffectDone, Postcard Acknowledge, Postcard Cancel, Postcard Ping, Postcard Pong,
  Postcard Reply, Postcard Frame, Postcard AccessibilityMessage, Postcard PaneMessage,
  Postcard (InventoryRevision Inventory), Postcard UpdateFacts, Postcard Fatal}.
Implicit Types s : LinkState.

(** ** Queues *)

Definition usable s : result unit LinkError :=
  match lk_closed s with Some error => Err error | None => Ok tt end.

(** [validate] and [encode_client] of one message. *)
Definition client_frames (message : ClientMessage) : result (list (list byte)) LinkError :=
  if client_validate message
  then match encode_client message with Ok wire => Ok (wm_frames wire) | Err _ => Err Link_OutOfBounds end
  else Err Link_OutOfBounds.

Fixpoint all_frames (messages : list ClientMessage) : result (list (list byte)) LinkError :=
  match messages with
  | [] => Ok []
  | message :: messages =>
      let? frames := client_frames message in
      let? rest := all_frames messages in
      Ok (frames ++ rest)
  end.

Definition queue_all (messages : list ClientMessage) (urgent : bool) s : LinkState * result unit LinkError :=
  match all_frames messages with
  | Err error => (s, Err error)
  | Ok frames =>
      if negb urgent then (set_lk_queues (lk_l0 s) (lk_l0_bytes s) (lk_l1 s ++ frames) s, Ok tt)
      else
        let bytes := N.of_nat (sum_list_with length frames) in
        if (MAX_L0_FRAMES + MAX_REQUESTS_IN_FLIGHT <? length (lk_l0 s) + length frames)
           || (MAX_CLIENT_L0_BYTES <? lk_l0_bytes s + bytes)%N
        then (s, Err Link_Busy)
        else (set_lk_queues (lk_l0 s ++ map (λ frame, {| qd_frame := frame; qd_counted := true |}) frames)
                (lk_l0_bytes s + bytes) (lk_l1 s) s, Ok tt)
  end.
Definition queue (message : ClientMessage) (urgent : bool) s := queue_all [message] urgent s.

(** The loop that finds an id no request in flight uses. *)
Fixpoint free_id (fuel : nat) (requests : gmap RequestId Waiter) (next_id : N) : option N :=
  let id := u32_wrapping_add next_id 1 in
  match requests !! id with
  | None => Some id
  | Some _ => match fuel with 0 => None | S fuel => free_id fuel requests id end
  end.

(** [State::send_request]; the loop's fuel is the number of requests in flight. *)
Definition state_send_request (operation : Operation) (waiter : Waiter) s
    : LinkState * result RequestId LinkError :=
  if MAX_REQUESTS_IN_FLIGHT <=? size (lk_requests s) then (s, Err Link_Busy)
  else match free_id (size (lk_requests s)) (lk_requests s) (lk_next_id s) with
  | None => (s, Err Link_Busy)
  | Some id =>
      match client_frames (Client_Request {| rq_id := id; rq_operation := operation |}) with
      | Err error => (set_requests_sent id (lk_requests s) (lk_l0 s) s, Err error)
      | Ok frames =>
          (set_requests_sent id (<[id := waiter]> (lk_requests s))
             (lk_l0 s ++ map (λ frame, {| qd_frame := frame; qd_counted := false |}) frames) s, Ok id)
      end
  end.

Fixpoint send_releases_loop (releases : list Channel) (sent : bool) s : LinkState * bool :=
  if size (lk_requests s) <? MAX_REQUESTS_IN_FLIGHT then
    match releases with
    | [] => (s, sent)
    | channel :: releases =>
        let '(s, outcome) :=
          state_send_request (Op_Release channel) Waiter_Ignore (set_lk_releases releases s) in
        send_releases_loop releases (sent || is_ok outcome) s
    end
  else (s, sent).
(** [State::send_releases]. *)
Definition send_releases s : LinkState * bool := send_releases_loop (lk_releases s) false s.

(** ** The link *)

Definition link_health s : Health :=
  match lk_closed s with Some error => Health_Closed error | None => Health_Live end.

(** [CoreLink::send_request]. *)
Definition link_request (operation : Operation) (waiter : Waiter) s : LinkState * result RequestId LinkError :=
  match lk_closed s with
  | Some error => (s, Err error)
  | None => let '(s, _) := send_releases s in state_send_request operation waiter s
  end.

Definition open_channel (sink : N) s : LinkState * result ChannelHandle LinkError :=
  match lk_closed s with
  | Some error => (s, Err error)
  | None =>
      if MAX_CHANNELS <=? size (lk_channels s) + lk_unbound s + length (lk_releases s) then (s, Err Link_Busy)
      else (set_lk_channels (lk_next_channel s) (lk_unbound s + 1) (lk_channels s) s,
            Ok {| hd_channel := None; hd_sink := sink |})
  end.

(** [CoreLink::send]. *)
Definition link_send (message : ClientMessage) (urgent : bool) s : LinkState * result unit LinkError :=
  match lk_closed s with
  | Some error => (s, Err error)
  | None => queue message urgent s
  end.

Definition link_acknowledge (sequence : N) s :=
  link_send (Client_Acknowledge {| ak_sequence := sequence |}) false s.
(** [PendingReply::cancel]. *)
Definition link_cancel (id : RequestId) s := link_send (Client_Cancel {| ca_id := id |}) false s.

(** [CoreLink::fail]; the waiters and the sinks are told in some order. *)
Definition link_fail (error : LinkError) s : LinkState * list LinkOutput :=
  match lk_closed s with
  | Some _ => (s, [])
  | None =>
      let waiters := (map_to_list (lk_requests s)).*2 in
      let live := filter (λ entry, ch_ended entry.2 = false) (map_to_list (lk_channels s)) in
      ({| lk_next_id := lk_next_id s; lk_requests := ∅; lk_next_channel := lk_next_channel s;
          lk_unbound := lk_unbound s;
          lk_channels := (λ c, {| ch_sink := ch_sink c; ch_serial := ch_serial c; ch_ended := true |})
                         <$> lk_channels s;
          lk_releases := []; lk_l0 := []; lk_l0_bytes := lk_l0_bytes s; lk_l1 := [];
          lk_assembler := lk_assembler s; lk_liveness := lk_liveness s; lk_closed := Some error;
          lk_inventory := lk_inventory s; lk_update_facts := lk_update_facts s;
          lk_received_bytes := lk_received_bytes s |},
       map (λ waiter, Completed waiter (Err (Request_Link error))) waiters
       ++ map (λ entry, To_Channel (ch_sink entry.2) (Channel_Closed error)) live
       ++ [To_Link (Link_Health (Health_Closed error))])
  end.
Definition link_close s := link_fail Link_Closed s.

Definition link_next_frame s : LinkState * option (list byte) :=
  match lk_closed s with
  | Some _ => (s, None)
  | None =>
      match lk_l0 s with
      | queued :: l0 =>
          (set_lk_queues l0
             (if qd_counted queued then lk_l0_bytes s - byte_len (qd_frame queued) else lk_l0_bytes s)%N
             (lk_l1 s) s, Some (qd_frame queued))
      | [] =>
          match lk_l1 s with
          | frame :: l1 => (set_lk_queues [] (lk_l0_bytes s) l1 s, Some frame)
          | [] => (s, None)
          end
      end
  end.

Definition link_wrote (now : Instant) (progressed pending : bool) s : LinkState :=
  set_lk_liveness (Liveness.wrote now progressed pending (lk_liveness s)) s.
Definition link_suspect (now : Instant) s : LinkState * bool :=
  let '(liveness, suspected) := suspect now (lk_liveness s) in (set_lk_liveness liveness s, suspected).

(** ** Receiving *)

(** [CoreLink::receive] until it releases the lock. *)
Definition receive_frame (frame : RawFrame) (now : Instant) s
    : LinkState * result (result (option CoreMessage) DecodeError) LinkError :=
  match lk_closed s with
  | Some error => (s, Err error)
  | None =>
      let '(assembler, message) := assemble_core frame (lk_assembler s) in
      ({| lk_next_id := lk_next_id s; lk_requests := lk_requests s; lk_next_channel := lk_next_channel s;
          lk_unbound := lk_unbound s; lk_channels := lk_channels s; lk_releases := lk_releases s;
          lk_l0 := lk_l0 s; lk_l0_bytes := lk_l0_bytes s; lk_l1 := lk_l1 s; lk_assembler := assembler;
          lk_liveness := received now (lk_liveness s); lk_closed := lk_closed s;
          lk_inventory := lk_inventory s; lk_update_facts := lk_update_facts s;
          lk_received_bytes :=
            u64_wrapping_add (lk_received_bytes s) (N.of_nat HEADER_BYTES + byte_len (rf_body frame)) |},
       Ok message)
  end.

(** What [dispatch] does after its first lock. *)
Inductive Next := Next_Done | Next_Send (message : ClientMessage) | Next_Fail (error : LinkError).

(** [CoreLink::sink]. *)
Definition link_sink (channel : Channel) (last : bool) s : LinkState * option N :=
  match lk_channels s !! channel with
  | None => (s, None)
  | Some c =>
      (set_lk_channels (lk_next_channel s) (lk_unbound s)
         (<[channel := {| ch_sink := ch_sink c; ch_serial := ch_serial c; ch_ended := ch_ended c || last |}]>
            (lk_channels s)) s,
       Some (ch_sink c))
  end.

(** [CoreLink::dispatch] under its first lock. *)
Definition dispatch_core (message : CoreMessage) s : LinkState * list LinkOutput * Next :=
  match message with
  | Core_Reply reply =>
      let waiter := lk_requests s !! rp_id reply in
      let '(s, _) := send_releases (set_requests_sent (lk_next_id s)
                                      (delete (rp_id reply) (lk_requests s)) (lk_l0 s) s) in
      match waiter with
      | None => (s, [], Next_Fail Link_Violation)
      | Some waiter =>
          (s, [Completed waiter match rp_result reply with Ok body => Ok body | Err refusal => Err (Refused refusal) end],
           Next_Done)
      end
  | Core_Frame frame =>
      let '(s, sink) := link_sink (fr_channel frame) false s in
      match sink with
      | Some sink => (s, [To_Channel sink (Channel_Frame frame)], Next_Done)
      | None =>
          (s, [], Next_Send (Client_FrameAck {| fa_channel := fr_channel frame; fa_frame := fr_frame frame |}))
      end
  | Core_Accessibility message =>
      let '(s, sink) := link_sink (am_channel message) false s in
      (s, match sink with Some sink => [To_Channel sink (Channel_Accessibility (am_update message))] | None => [] end,
       Next_Done)
  | Core_Pane pane =>
      let '(s, sink) := link_sink (pm_channel pane) (event_last (pm_event pane)) s in
      (s, match sink with Some sink => [To_Channel sink (Channel_Pane (pm_event pane))] | None => [] end, Next_Done)
  | Core_Inventory revision =>
      let count := match lk_inventory s with Some (count, _) => count | None => 0%N end in
      (set_lk_news (Some (u64_wrapping_add count 1, revision)) (lk_update_facts s) s,
       [To_Link (Link_Inventory revision)], Next_Done)
  | Core_Ping ping => (s, [], Next_Send (Client_Pong {| po_nonce := pi_nonce ping |}))
  | Core_Pong _ => (s, [], Next_Done)
  | Core_UpdateFacts facts =>
      (set_lk_news (lk_inventory s) (Some facts) s, [To_Link (Link_UpdateFacts facts)], Next_Done)
  | Core_Goodbye fatal => (s, [], Next_Fail (Link_Goodbye fatal))
  end.

(** What follows the first lock of [dispatch]; a message that is not queued is dropped. *)
Definition link_next (next : Next) s : LinkState * list LinkOutput :=
  match next with
  | Next_Done => (s, [])
  | Next_Send message => ((link_send message true s).1, [])
  | Next_Fail error => link_fail error s
  end.

(** [CoreLink::check]: its judgement, and what it does with it. *)
Definition link_judge (now : Instant) s : LinkState * option Check :=
  match lk_closed s with
  | Some _ => (s, None)
  | None => let '(liveness, judged) := check now None (lk_liveness s) in (set_lk_liveness liveness s, Some judged)
  end.
Definition link_answer (judged : Check) s : LinkState * list LinkOutput * option Instant :=
  match judged with
  | Check_Live next => (s, [], Some next)
  | Check_Ping nonce next =>
      let '(s, outcome) := link_send (Client_Ping {| pi_nonce := nonce |}) true s in
      (s, [], match outcome with Ok _ | Err Link_Busy => Some next | Err _ => None end)
  | Check_Dead death =>
      let '(s, outputs) := link_fail match death with Silent => Link_Unresponsive | Death_Stalled => Link_Stalled end s in
      (s, outputs, None)
  end.

(** ** Channels *)

(** [CoreLink::release]. *)
Definition link_release (channel : Channel) s : LinkState :=
  match lk_channels s !! channel with
  | None => s
  | Some dropped =>
      let s := set_lk_channels (lk_next_channel s) (lk_unbound s) (delete channel (lk_channels s)) s in
      if ch_ended dropped || match lk_closed s with Some _ => true | None => false end then s
      else (send_releases (set_lk_releases (lk_releases s ++ [channel]) s)).1
  end.

(** [ChannelHandle::bind]. *)
Definition bind (operation : Channel → Operation) (waiter : Waiter) (h : ChannelHandle) s
    : LinkState * ChannelHandle * result RequestId LinkError :=
  match lk_closed s with
  | Some error => (s, h, Err error)
  | None =>
      match hd_channel h with
      | Some _ => (s, h, Err Link_Unclaimed)
      | None =>
          match u32_checked_add (lk_next_channel s) 1 with
          | None => (s, h, Err Link_Busy)
          | Some channel =>
              let '(s, _) := send_releases s in
              match state_send_request (operation channel) waiter s with
              | (s, Err error) => (s, h, Err error)
              | (s, Ok id) =>
                  (set_lk_channels channel (lk_unbound s - 1)
                     (<[channel := {| ch_sink := hd_sink h; ch_serial := 0; ch_ended := false |}]>
                        (lk_channels s)) s,
                   {| hd_channel := Some channel; hd_sink := hd_sink h |}, Ok id)
              end
          end
      end
  end.
Definition handle_claim (attachment : Attachment) (pane : N) (claim : AttachmentClaim)
    (size : option PaneSize) (style : option PresentationStyle) :=
  bind (λ channel, Op_Claim {| cl_channel := channel; cl_attachment := attachment; cl_pane := pane;
                               cl_claim := claim; cl_size := size; cl_style := style |}).
Definition handle_observe (pane : N) (session : option N) := bind (λ channel, Op_Observe channel pane session).

(** [ChannelHandle::send_channel]: [build] receives the channel and its last serial. *)
Definition send_channel (h : ChannelHandle) (urgent : bool)
    (build : Channel → N → result (list ClientMessage * N) LinkError) s : LinkState * result N LinkError :=
  match lk_closed s with
  | Some error => (s, Err error)
  | None =>
      match hd_channel h with
      | None => (s, Err Link_Unclaimed)
      | Some channel =>
          match lk_channels s !! channel with
          | None => (s, Err Link_Unclaimed)
          | Some c =>
              if ch_ended c then (s, Err Link_Unclaimed)
              else match build channel (ch_serial c) with
              | Err error => (s, Err error)
              | Ok (messages, serial) =>
                  match queue_all messages urgent s with
                  | (s, Err error) => (s, Err error)
                  | (s, Ok _) =>
                      (set_lk_channels (lk_next_channel s) (lk_unbound s)
                         (<[channel := {| ch_sink := ch_sink c; ch_serial := serial; ch_ended := ch_ended c |}]>
                            (lk_channels s)) s, Ok serial)
                  end
              end
          end
      end
  end.

Definition input_message (channel : Channel) (serial generation : N) (events : list InputEvent) : ClientMessage :=
  Client_Input {| in_channel := channel; in_serial := serial; in_generation := generation; in_events := events |}.

Definition handle_input (h : ChannelHandle) (generation : N) (events : list InputEvent) s
    : LinkState * result N LinkError :=
  match hd_channel h with
  | None => (s, Err Link_Unclaimed)
  | Some _ =>
      send_channel h true (λ channel last,
        let? serial := ok_or (u32_checked_add last 1) Link_OutOfBounds in
        Ok ([input_message channel serial generation events], serial)) s
  end.

Fixpoint paste_messages (channel : Channel) (generation : N) (pieces : list ustring) (serial : N)
    : result (list ClientMessage * N) LinkError :=
  match pieces with
  | [] => Ok ([], serial)
  | piece :: pieces =>
      let? serial := ok_or (u32_checked_add serial 1) Link_OutOfBounds in
      let? rest := paste_messages channel generation pieces serial in
      Ok (input_message channel serial generation [Input_Paste piece (is_empty pieces)] :: rest.1, rest.2)
  end.

Definition handle_paste (h : ChannelHandle) (generation : N) (text : ustring) s : LinkState * result N LinkError :=
  if (MAX_PASTE_BYTES <? N.of_nat (str_len text))%N then (s, Err Link_OutOfBounds)
  else match hd_channel h with
  | None => (s, Err Link_Unclaimed)
  | Some _ =>
      send_channel h true (λ channel serial,
        paste_messages channel generation (paste_chunks text (N.to_nat MAX_PASTE_CHUNK_BYTES)) serial) s
  end.

(** [ChannelHandle::send_simple], which needs the channel assigned. *)
Definition send_simple (h : ChannelHandle) (message : Channel → ClientMessage) (urgent : bool) s
    : LinkState * result unit LinkError :=
  match hd_channel h with
  | None => (s, Err Link_Unclaimed)
  | Some _ =>
      let '(s, sent) := send_channel h urgent (λ channel serial, Ok ([message channel], serial)) s in
      (s, match sent with Ok _ => Ok tt | Err error => Err error end)
  end.

Definition handle_acknowledge (h : ChannelHandle) (frame : N) :=
  send_simple h (λ channel, Client_FrameAck {| fa_channel := channel; fa_frame := frame |}) true.
Definition handle_view (h : ChannelHandle) (visible : bool) (max_hz : N) :=
  send_simple h (λ channel, Client_View {| vw_channel := channel; vw_visible := visible; vw_max_hz := max_hz |}) true.
Definition handle_effect_done (h : ChannelHandle) (generation effect : N) (completion : Completion) :=
  send_simple h (λ channel, Client_EffectDone {| ed_channel := channel; ed_generation := generation;
                                                  ed_effect := effect; ed_completion := completion |}) false.

(** [ChannelHandle::ended]. *)
Definition handle_ended (h : ChannelHandle) s : result bool LinkError :=
  match hd_channel h with
  | None => Err Link_Unclaimed
  | Some channel => Ok match lk_channels s !! channel with Some c => ch_ended c | None => false end
  end.
Definition acknowledge_accessibility (h : ChannelHandle) (generation revision : N) s
    : LinkState * result unit LinkError :=
  match send_simple h (λ channel, Client_AccessibilityAck {| aa_channel := channel;
                          aa_demand_generation := generation; aa_revision := revision |}) true s with
  | (s, Err Link_Unclaimed) =>
      match handle_ended h s with
      | Ok true => (s, Ok tt)
      | Ok false => (s, Err Link_Unclaimed)
      | Err error => (s, Err error)
      end
  | sent => sent
  end.

(** [Drop for ChannelHandle], and [detach], which drops the handle too. *)
Definition handle_drop (h : ChannelHandle) s : LinkState :=
  match hd_channel h with
  | Some channel => link_release channel s
  | None => set_lk_channels (lk_next_channel s) (lk_unbound s - 1) (lk_channels s) s
  end.
Definition handle_detach (h : ChannelHandle) s : LinkState :=
  handle_drop h
    match hd_channel h with
    | Some channel => set_lk_channels (lk_next_channel s) (lk_unbound s) (delete channel (lk_channels s)) s
    | None => s
    end.
End Operations.
