(* ===== verification/Admission.v ===== *)
(** * The server's half of a connection

    [crates/spaceterm-core/src/connection/admitted.rs], with [Peer] of [service.rs] and
    [SyncWorker::reply] of [sync.rs]: what a received message means before the service
    sees it. The service and the direct-network administration are the caller's: what
    they answered is an argument, and what the sync worker is to run later is a result.
    A connection's outbox is shared with other threads, so each definition takes it and
    returns it beside the connection. *)
From S2P Require Import Prelude.
From S2P Require Import Text.
From S2P Require Import Facts.
From S2P Require Import HierarchyTypes.
From S2P Require Import DiskJournal.
From S2P Require Import Liveness.
From S2P Require Import Messages.
From S2P Require Import Wire.
From S2P Require Import Outbox.

Record Pairing := { pr_pairing : N; pr_generation : N }.
Record Peer := { pe_client : N; pe_connection : N; pe_pairing : option Pairing }.
Definition paired (peer : Peer) : bool := match pe_pairing peer with Some _ => true | None => false end.

Section Connection.
Context `{P : Payloads}.
Context `{SM : !SemanticModels}.
Context {Presentation : Type}.
Context `{Postcard Request, Postcard Input, Postcard FrameAck, Postcard AccessibilityAck, Postcard View,
  Postcard EffectDone, Postcard Acknowledge, Postcard Cancel, Postcard Ping, Postcard Pong,
  Postcard Reply, Postcard Frame, Postcard AccessibilityMessage, Postcard PaneMessage,
  Postcard (InventoryRevision Inventory), Postcard UpdateFacts, Postcard Fatal}.
Implicit Types o : OutState Presentation.

Inductive Inbound :=
  | In_Request (request : Request)
  | In_Input (input : Input)
  | In_View (view : View)
  | In_EffectDone (done : EffectDone)
  | In_Acknowledge (sequence : N)
  | In_Cancel (id : RequestId).

(** What the service answers to a request; [After] work runs on the sync worker. *)
Inductive Dispatch := Dispatch_Reply (answer : result ReplyBody Refusal) | Deferred | After.

(** Work for the sync worker, by the request it answers. *)
Inductive Job := Job_Direct (id : RequestId) (management : Management) | Job_After (id : RequestId).

Record AdmittedConnection := {
  ad_peer : Peer;
  ad_direct : bool;
  ad_assembler : Assembler;
  ad_highest_channel : N;
  ad_serials : gmap Channel N;
  ad_liveness : Liveness
}.

(** [AdmittedConnection::new]; [direct] is whether the host has direct-network state. *)
Definition admitted_new (peer : Peer) (direct : bool) (now : Instant) : AdmittedConnection :=
  {| ad_peer := peer; ad_direct := direct; ad_assembler := []; ad_highest_channel := 0; ad_serials := ∅;
     ad_liveness := liveness_new now |}.

Definition set_ad_serials (highest : N) (serials : gmap Channel N) (c : AdmittedConnection) : AdmittedConnection :=
  {| ad_peer := ad_peer c; ad_direct := ad_direct c; ad_assembler := ad_assembler c;
     ad_highest_channel := highest; ad_serials := serials; ad_liveness := ad_liveness c |}.
Definition set_ad_io (assembler : Assembler) (liveness : Liveness) (c : AdmittedConnection) : AdmittedConnection :=
  {| ad_peer := ad_peer c; ad_direct := ad_direct c; ad_assembler := assembler;
     ad_highest_channel := ad_highest_channel c; ad_serials := ad_serials c; ad_liveness := liveness |}.

(** The channel a claim or an observation introduces. *)
Definition introduced (operation : Operation) : option Channel :=
  match operation with
  | Op_Claim claim => Some (cl_channel claim)
  | Op_Observe channel _ _ => Some channel
  | _ => None
  end.

Definition administration (operation : Operation) : bool :=
  match operation with
  | Op_Shutdown | Op_Sessions _ => true
  | Op_Mutate _ mutation => match mutation with EndAllSessions _ => true | _ => false end
  | _ => false
  end.

(** [AdmittedConnection::claimed]. *)
Definition claimed (channel : Channel) (c : AdmittedConnection) : bool :=
  negb ((channel =? 0)%N || (ad_highest_channel c <? channel)%N).

(** [SyncWorker::reply]; [running] is whether the worker still runs. *)
Definition sync_reply (running : bool) (job : Job) (id : RequestId) o
    : OutState Presentation * result (list Job) OutboxError :=
  if running then (o, Ok [job])
  else match ob_reply id (Err Refusal_Failed) o with
  | (o, Ok _) => (o, Ok [])
  | (o, Err error) => (o, Err error)
  end.

(** [AdmittedConnection::direct]. *)
Definition ad_manage (running : bool) (id : RequestId) (management : Management) (c : AdmittedConnection) o
    : OutState Presentation * result (list Job) OutboxError :=
  if ad_direct c then sync_reply running (Job_Direct id management) id o
  else match ob_reply id (Ok (Reply_Direct (Err Direct_StorageUnavailable))) o with
  | (o, Ok _) => (o, Ok [])
  | (o, Err error) => (o, Err error)
  end.

(** What a received message leaves: the connection, the outbox, and the message for the
    service with the jobs submitted, or the error that ends the connection. *)
Definition Received : Type := AdmittedConnection * OutState Presentation * result (option Inbound * list Job) Fatal.

(** The request's arm of [receive]: refusing it at once, admitting it, and both behind
    the rules of channels. *)
Definition refuse_request (request : Request) (refusal : Refusal) (c : AdmittedConnection) o : Received :=
  match ob_reply (rq_id request) (Err refusal) o with
  | (o, Err error) => (c, o, Err (fatal_of_outbox error))
  | (o, Ok _) => (c, o, Ok (None, []))
  end.

Definition admit_request (running : bool) (request : Request) (c : AdmittedConnection) o : Received :=
  if paired (ad_peer c) && administration (rq_operation request)
  then refuse_request request Refusal_Unsupported c o
  else match rq_operation request with
  | Op_Direct management =>
      match ad_manage running (rq_id request) management c o with
      | (o, Err error) => (c, o, Err (fatal_of_outbox error))
      | (o, Ok jobs) => (c, o, Ok (None, jobs))
      end
  | _ => (c, o, Ok (Some (In_Request request), []))
  end.

Definition receive_request (running : bool) (request : Request) (c : AdmittedConnection) o : Received :=
  match ob_begin (rq_id request) o with
  | (o, Err error) => (c, o, Err (fatal_of_outbox error))
  | (o, Ok _) =>
      match introduced (rq_operation request) with
      | None => admit_request running request c o
      | Some channel =>
          if (channel <=? ad_highest_channel c)%N then (c, o, Err Fatal_ProtocolViolation)
          else
            let c := set_ad_serials channel (ad_serials c) c in
            if MAX_CHANNELS <=? size (ad_serials c) then refuse_request request Refusal_Capacity c o
            else admit_request running request (set_ad_serials channel (<[channel := 0%N]> (ad_serials c)) c) o
      end
  end.

(** [receive] once a message is whole. *)
Definition receive_message (running : bool) (message : ClientMessage) (c : AdmittedConnection) o : Received :=
  let on_channel channel (k : unit → Received) : Received :=
    if claimed channel c then k tt else (c, o, Err Fatal_ProtocolViolation) in
  let of_outbox (r : OutState Presentation * result unit OutboxError) : Received :=
    match r with
    | (o, Ok _) => (c, o, Ok (None, []))
    | (o, Err error) => (c, o, Err (fatal_of_outbox error))
    end in
  match message with
  | Client_Request request => receive_request running request c o
  | Client_Input input =>
      on_channel (in_channel input) (λ _,
        match ad_serials c !! in_channel input with
        | Some last =>
            if bool_decide (Some (in_serial input) = u32_checked_add last 1)
            then (set_ad_serials (ad_highest_channel c) (<[in_channel input := in_serial input]> (ad_serials c)) c, o,
                  Ok (Some (In_Input input), []))
            else (c, o, Err Fatal_ProtocolViolation)
        | None => (c, o, Ok (Some (In_Input input), []))
        end)
  | Client_FrameAck ack => on_channel (fa_channel ack) (λ _, of_outbox (ob_acknowledge (fa_channel ack) (fa_frame ack) o))
  | Client_AccessibilityAck ack =>
      on_channel (aa_channel ack) (λ _,
        of_outbox (acknowledge_semantics (aa_channel ack) (aa_demand_generation ack) (aa_revision ack) o))
  | Client_View view =>
      on_channel (vw_channel view) (λ _,
        (c, ob_view (vw_channel view) (vw_visible view) o, Ok (Some (In_View view), [])))
  | Client_EffectDone effect => on_channel (ed_channel effect) (λ _, (c, o, Ok (Some (In_EffectDone effect), [])))
  | Client_Acknowledge acknowledge => (c, o, Ok (Some (In_Acknowledge (ak_sequence acknowledge)), []))
  | Client_Cancel cancel => (c, o, Ok (Some (In_Cancel (ca_id cancel)), []))
  | Client_Ping ping => of_outbox (ob_pong (pi_nonce ping) o)
  | Client_Pong _ => (c, o, Ok (None, []))
  end.

(** [AdmittedConnection::receive]. *)
Definition admitted_receive (running : bool) (frame : RawFrame) (now : Instant) (c : AdmittedConnection) o : Received :=
  let '(assembler, message) := assemble_client frame (ad_assembler c) in
  let c := set_ad_io assembler (received now (ad_liveness c)) c in
  match message with
  | Err error => (c, o, Err (fatal_of_decode error))
  | Ok None => (c, o, Ok (None, []))
  | Ok (Some message) =>
      if is_closing o then (c, o, Ok (None, []))
      else
        let '(o, closed) := take_closed o in
        let c := set_ad_serials (ad_highest_channel c) (foldl (λ m k, delete k m) (ad_serials c) closed) c in
        receive_message running message c o
  end.

(** [AdmittedConnection::dispatch], given what the service answered to a request. *)
Definition admitted_dispatch (running : bool) (inbound : Inbound) (answer : Dispatch) (c : AdmittedConnection) o
    : AdmittedConnection * OutState Presentation * result (list Job) Fatal :=
  if is_closing o then (c, o, Ok [])
  else match inbound with
  | In_Request request =>
      match answer with
      | Dispatch_Reply answer =>
          let c :=
            match introduced (rq_operation request), answer with
            | Some _, Ok (Reply_Claim (Claim_Attached _)) | Some _, Ok (Reply_Observe (Observing _ _)) => c
            | Some channel, _ => set_ad_serials (ad_highest_channel c) (delete channel (ad_serials c)) c
            | None, _ => c
            end in
          match reply_or_refuse (rq_id request) answer o with
          | (o, Ok _) => (c, o, Ok [])
          | (o, Err error) => (c, o, Err (fatal_of_outbox error))
          end
      | Deferred => (c, o, Ok [])
      | After =>
          match sync_reply running (Job_After (rq_id request)) (rq_id request) o with
          | (o, Ok jobs) => (c, o, Ok jobs)
          | (o, Err error) => (c, o, Err (fatal_of_outbox error))
          end
      end
  | _ => (c, o, Ok [])
  end.

Definition admitted_wrote (now : Instant) (progressed pending : bool) (c : AdmittedConnection) o
    : AdmittedConnection * OutState Presentation :=
  (set_ad_io (ad_assembler c) (Liveness.wrote now progressed pending (ad_liveness c)) c,
   if progressed then written now o else o).

Definition admitted_check (now : Instant) (c : AdmittedConnection) o
    : AdmittedConnection * OutState Presentation * result Instant Death :=
  let '(liveness, judged) := check now (unacknowledged_since o) (ad_liveness c) in
  let c := set_ad_io (ad_assembler c) liveness c in
  match judged with
  | Check_Live next => (c, o, Ok next)
  | Check_Ping nonce next =>
      match ob_ping nonce o with
      | (o, Ok _) | (o, Err Out_Closed) => (c, o, Ok next)
      | (o, Err _) => (c, o, Err Death_Stalled)
      end
  | Check_Dead death => (c, o, Err death)
  end.
End Connection.
