(* ===== verification/ClientOrder.v ===== *)
(** * The order of a client's messages

    What the two ends of a connection agree on about the messages a client sends: wire
    channels are introduced in order from 1, a channel's inputs carry the serials 1, 2, 3
    and so on, and every other message on a channel names one already introduced. The
    client's link keeps this order ([LinkTheorems]); the server refuses a client that
    breaks it and accepts one that does not ([AdmissionTheorems]). *)
From S2P Require Import Prelude.
From S2P Require Import Text.
From S2P Require Import Facts.
From S2P Require Import HierarchyTypes.
From S2P Require Import Messages.
From S2P Require Import Wire.
From S2P Require Import Admission.

Record Order := { or_highest : N; or_serials : gmap Channel N }.
Definition order_new : Order := {| or_highest := 0; or_serials := ∅ |}.

Section Order.
Context `{P : Payloads}.

Definition known (channel : Channel) (highest : N) : bool := (0 <? channel)%N && (channel <=? highest)%N.

(** The channel a message other than a request or an input names. *)
Definition names_channel (message : ClientMessage) : option Channel :=
  match message with
  | Client_FrameAck ack => Some (fa_channel ack)
  | Client_AccessibilityAck ack => Some (aa_channel ack)
  | Client_View view => Some (vw_channel view)
  | Client_EffectDone effect => Some (ed_channel effect)
  | _ => None
  end.

Definition order_step (message : ClientMessage) (σ : Order) : option Order :=
  match message with
  | Client_Request request =>
      match introduced (rq_operation request) with
      | None => Some σ
      | Some channel =>
          if (channel =? or_highest σ + 1)%N
          then Some {| or_highest := channel; or_serials := <[channel := 0%N]> (or_serials σ) |}
          else None
      end
  | Client_Input input =>
      match or_serials σ !! in_channel input with
      | Some last =>
          if known (in_channel input) (or_highest σ) && (in_serial input =? last + 1)%N
             && (in_serial input <=? u32_max)%N
          then Some {| or_highest := or_highest σ;
                       or_serials := <[in_channel input := in_serial input]> (or_serials σ) |}
          else None
      | None => None
      end
  | _ =>
      match names_channel message with
      | Some channel => if known channel (or_highest σ) then Some σ else None
      | None => Some σ
      end
  end.

Fixpoint order_run (messages : list ClientMessage) (σ : Order) : option Order :=
  match messages with
  | [] => Some σ
  | message :: messages =>
      match order_step message σ with Some σ => order_run messages σ | None => None end
  end.

Lemma order_run_app ms ms' σ :
  order_run (ms ++ ms') σ = match order_run ms σ with Some σ => order_run ms' σ | None => None end.
Proof. revert σ. induction ms as [|m ms IH]; intros σ; simpl; [done|]. by destruct (order_step m σ). Qed.

Lemma order_step_highest m σ σ' : order_step m σ = Some σ' → (or_highest σ <= or_highest σ')%N.
Proof.
  destruct m; simpl; repeat case_match; intros; simplify_eq/=; try lia.
  match goal with E : (_ =? _)%N = true |- _ => apply N.eqb_eq in E end. lia.
Qed.

Lemma known_mono channel highest highest' :
  (highest <= highest')%N → known channel highest = true → known channel highest' = true.
Proof. unfold known. rw !andb_true_iff !N.ltb_lt !N.leb_le. lia. Qed.

(** A message that travels behind the others: it may name a channel but does not
    introduce one, and is not input. *)
Definition relaxed (highest : N) (message : ClientMessage) : Prop :=
  match message with
  | Client_Request _ | Client_Input _ => False
  | _ => match names_channel message with Some channel => known channel highest = true | None => True end
  end.

Lemma relaxed_step σ m : relaxed (or_highest σ) m → order_step m σ = Some σ.
Proof. destruct m; simpl; try done; by intros ->. Qed.

Lemma relaxed_mono highest highest' m : (highest <= highest')%N → relaxed highest m → relaxed highest' m.
Proof. intros Hle. destruct m; simpl; try done; by apply known_mono. Qed.
End Order.
