(* ===== verification/AdmissionTheorems.v ===== *)
(** * What a server's connection admits

    The connection with the calls on its outbox as one machine, against any client: what
    it hands to the service is in order and authorized. Against a client that keeps
    [ClientOrder] no message is refused as a violation of order. *)
From stdpp Require Import fin_maps.
From S2P Require Import Prelude.
From S2P Require Import Text.
From S2P Require Import Facts.
From S2P Require Import HierarchyTypes.
From S2P Require Import DiskJournal.
From S2P Require Import Liveness.
From S2P Require Import Messages.
From S2P Require Import Wire.
From S2P Require Import WireTheorems.
From S2P Require Import Outbox.
From S2P Require Import OutboxProofs.
From S2P Require Import OutboxTheorems.
From S2P Require Import Admission.
From S2P Require Import ClientOrder.

(** The serials 1 to [n]. *)
Definition serials_to (n : N) : list N := map N.of_nat (seq 1 (N.to_nat n)).

Lemma serials_to_succ n : serials_to (n + 1) = serials_to n ++ [(n + 1)%N].
Proof.
  unfold serials_to. rw N2Nat.inj_add Nat.add_1_r seq_S map_app /=. do 2 f_equal. lia.
Qed.

Section Server.
Context `{P : Payloads}.
Context `{SM : !SemanticModels}.
Context {Presentation : Type}.
Context (presentation_encode : Presentation → FrameTicket → option (N * ScreenUpdate)).
Context `{Postcard Request, Postcard Input, Postcard FrameAck, Postcard AccessibilityAck, Postcard View,
  Postcard EffectDone, Postcard Acknowledge, Postcard Cancel, Postcard Ping, Postcard Pong,
  Postcard Reply, Postcard Frame, Postcard AccessibilityMessage, Postcard PaneMessage,
  Postcard (InventoryRevision Inventory), Postcard UpdateFacts, Postcard Fatal}.
Implicit Types o : OutState Presentation.

(** ** The machine *)

(** What happens to a server's connection: a frame arrives, the service answers a message,
    any thread calls the outbox or its I/O thread steps, a write or a health check. *)
Inductive ServerEvent :=
  | Sv_Frame (running : bool) (frame : RawFrame) (now : Instant)
  | Sv_Dispatch (running : bool) (inbound : Inbound) (answer : Dispatch)
  | Sv_Outbox (step : ConnStep (Presentation := Presentation))
  | Sv_Wrote (now : Instant) (progressed pending : bool)
  | Sv_Check (now : Instant).

(** The connection, its outbox with the I/O thread, what was handed to the service, and
    the errors that ended the connection. *)
Record Server := {
  sv_conn : AdmittedConnection;
  sv_io : Conn (Presentation := Presentation);
  sv_handed : list Inbound;
  sv_errors : list Fatal
}.
Definition server_new (peer : Peer) (direct : bool) (now : Instant) : Server :=
  {| sv_conn := admitted_new peer direct now; sv_io := conn_new; sv_handed := []; sv_errors := [] |}.

Definition set_cn_out o (c : Conn) : Conn :=
  {| cn_out := o; cn_io := cn_io c; cn_sent := cn_sent c; cn_replied := cn_replied c |}.

Definition server_step (s : Server) (event : ServerEvent) : Server :=
  match event with
  | Sv_Frame running frame now =>
      let '(c, o, outcome) := admitted_receive running frame now (sv_conn s) (cn_out (sv_io s)) in
      {| sv_conn := c; sv_io := set_cn_out o (sv_io s);
         sv_handed := sv_handed s ++ match outcome with Ok (Some inbound, _) => [inbound] | _ => [] end;
         sv_errors := sv_errors s ++ match outcome with Err error => [error] | Ok _ => [] end |}
  | Sv_Dispatch running inbound answer =>
      let '(c, o, outcome) := admitted_dispatch running inbound answer (sv_conn s) (cn_out (sv_io s)) in
      {| sv_conn := c; sv_io := set_cn_out o (sv_io s); sv_handed := sv_handed s;
         sv_errors := sv_errors s ++ match outcome with Err error => [error] | Ok _ => [] end |}
  | Sv_Outbox step =>
      {| sv_conn := sv_conn s; sv_io := conn_step presentation_encode (sv_io s) step; sv_handed := sv_handed s;
         sv_errors := sv_errors s |}
  | Sv_Wrote now progressed pending =>
      let '(c, o) := admitted_wrote now progressed pending (sv_conn s) (cn_out (sv_io s)) in
      {| sv_conn := c; sv_io := set_cn_out o (sv_io s); sv_handed := sv_handed s; sv_errors := sv_errors s |}
  | Sv_Check now =>
      let '(c, o, _) := admitted_check now (sv_conn s) (cn_out (sv_io s)) in
      {| sv_conn := c; sv_io := set_cn_out o (sv_io s); sv_handed := sv_handed s; sv_errors := sv_errors s |}
  end.

Definition server_run (peer : Peer) (direct : bool) (now : Instant) (events : list ServerEvent) : Server :=
  foldl server_step (server_new peer direct now) events.

(** ** Against any client *)

(** The serials of the inputs handed to the service on a channel. *)
Definition input_serials (channel : Channel) (handed : list Inbound) : list N :=
  omap (λ inbound, match inbound with
                   | In_Input input => if (in_channel input =? channel)%N then Some (in_serial input) else None
                   | _ => None
                   end) handed.

Definition request_allowed (peer : Peer) (inbound : Inbound) : Prop :=
  match inbound with
  | In_Request request =>
      (paired peer = true → administration (rq_operation request) = false) ∧
      (∀ management, rq_operation request ≠ Op_Direct management)
  | _ => True
  end.

Record ServerInv (peer : Peer) (c : AdmittedConnection) (handed : list Inbound) : Prop := {
  si_peer : ad_peer c = peer;
  si_size : size (ad_serials c) ≤ MAX_CHANNELS;
  si_known : ∀ channel last, ad_serials c !! channel = Some last → (channel <= ad_highest_channel c)%N;
  si_serials : ∀ channel last, ad_serials c !! channel = Some last →
    input_serials channel handed = serials_to last ∧ (last <= u32_max)%N;
  si_quiet : ∀ channel, (ad_highest_channel c < channel)%N → input_serials channel handed = [];
  si_allowed : Forall (request_allowed peer) handed
}.

Lemma input_serials_app channel handed handed' :
  input_serials channel (handed ++ handed') = input_serials channel handed ++ input_serials channel handed'.
Proof. apply omap_app. Qed.

(** What is no input changes no serials. *)
Lemma ServerInv_handed peer c handed inbound :
  match inbound with In_Input _ => False | _ => True end → request_allowed peer inbound →
  ServerInv peer c handed → ServerInv peer c (handed ++ [inbound]).
Proof.
  intros Hi Ha [I1 I2 I3 I4 I5 I6]. split; try done.
  - intros channel last Hc. rw input_serials_app. destruct inbound; try done; simpl; rw app_nil_r; by apply I4.
  - intros channel Hc. rw input_serials_app. destruct inbound; try done; simpl; rw app_nil_r; by apply I5.
  - apply Forall_app. split; [done|]. by constructor.
Qed.

Lemma ServerInv_io peer c handed assembler liveness :
  ServerInv peer c handed → ServerInv peer (set_ad_io assembler liveness c) handed.
Proof. intros [I1 I2 I3 I4 I5 I6]. by split. Qed.

Lemma ServerInv_serials peer c handed serials :
  serials ⊆ ad_serials c → ServerInv peer c handed →
  ServerInv peer (set_ad_serials (ad_highest_channel c) serials c) handed.
Proof.
  intros Hsub [I1 I2 I3 I4 I5 I6]. split; simpl; try done.
  - etrans; [by apply map_subseteq_size|done].
  - intros channel last Hc. eapply I3. by eapply lookup_weaken.
  - intros channel last Hc. eapply I4. by eapply lookup_weaken.
Qed.

Lemma delete_all_subseteq (closed : list Channel) (serials : gmap Channel N) :
  foldl (λ m k, delete k m) serials closed ⊆ serials.
Proof.
  revert serials. induction closed as [|k closed IH]; intros serials; simpl; [done|].
  etrans; [apply IH|apply delete_subseteq].
Qed.

Lemma ServerInv_introduce peer c handed channel :
  ServerInv peer c handed → (ad_highest_channel c < channel)%N →
  ServerInv peer (set_ad_serials channel (ad_serials c) c) handed ∧
  (size (ad_serials c) < MAX_CHANNELS →
   ServerInv peer (set_ad_serials channel (<[channel := 0%N]> (ad_serials c)) c) handed).
Proof.
  intros [I1 I2 I3 I4 I5 I6] Hlt. split.
  - split; simpl; try done.
    + intros k last Hk. specialize (I3 k last Hk). lia.
    + intros k Hk. apply I5. lia.
  - intros Hs. split; simpl; try done.
    + rw map_size_insert. case_match; simpl; unfold MAX_CHANNELS in *; lia.
    + intros k last [[<- <-]|[Hne Hk]]%lookup_insert_Some; [done|]. specialize (I3 k last Hk). lia.
    + intros k last [[<- <-]|[Hne Hk]]%lookup_insert_Some; [|by apply I4]. rw I5 //.
    + intros k Hk. apply I5. lia.
Qed.

(** What an outcome hands to the service. *)
Definition handed_by (outcome : result (option Inbound * list Job) Fatal) : list Inbound :=
  match outcome with Ok (Some inbound, _) => [inbound] | _ => [] end.

Lemma refuse_request_inv peer request refusal c o handed c' o' outcome :
  ServerInv peer c handed → refuse_request request refusal c o = (c', o', outcome) →
  ServerInv peer c' (handed ++ handed_by outcome).
Proof.
  intros Hi. unfold refuse_request. destruct (ob_reply _ _ o) as [o1 [[]|e]]; intros [= <- <- <-]; by rw app_nil_r.
Qed.

Lemma admit_request_inv peer running request c o handed c' o' outcome :
  ServerInv peer c handed → admit_request running request c o = (c', o', outcome) →
  ServerInv peer c' (handed ++ handed_by outcome).
Proof.
  intros Hc. unfold admit_request.
  destruct (paired (ad_peer c) && administration _) eqn:Ea; [by apply refuse_request_inv|].
  rw (si_peer _ _ _ Hc) in Ea.
  destruct (rq_operation request) eqn:Eop;
    try (intros [= <- <- <-]; apply ServerInv_handed; [done| |done]; split; [|by rw Eop];
         intros Hp; rw Hp in Ea; rw Eop; done).
  destruct (ad_manage _ _ _ c o) as [o3 [jobs|e]]; intros [= <- <- <-]; by rw app_nil_r.
Qed.

Lemma receive_request_inv peer running request c o handed c' o' outcome :
  ServerInv peer c handed → receive_request running request c o = (c', o', outcome) →
  ServerInv peer c' (handed ++ handed_by outcome).
Proof.
  intros Hi. unfold receive_request. destruct (ob_begin _ o) as [o1 [[]|e]]; [|intros [= <- <- <-]; by rw app_nil_r].
  destruct (introduced _) as [channel|]; [|by apply admit_request_inv].
  destruct (N.leb_spec channel (ad_highest_channel c)) as [|Hlt]; [intros [= <- <- <-]; by rw app_nil_r|].
  destruct (ServerInv_introduce _ _ _ _ Hi Hlt) as [Hkeep Hadd]. cbn zeta.
  destruct (Nat.leb_spec MAX_CHANNELS (size (ad_serials (set_ad_serials channel (ad_serials c) c))));
    [by apply refuse_request_inv|]. apply admit_request_inv. by apply Hadd.
Qed.

Lemma claimed_known channel c : claimed channel c = known channel (ad_highest_channel c).
Proof.
  unfold claimed, known. destruct (N.eqb_spec channel 0), (N.ltb_spec 0 channel); try lia;
    destruct (N.ltb_spec (ad_highest_channel c) channel), (N.leb_spec channel (ad_highest_channel c)); simpl; try done; lia.
Qed.

(** An input handed to the service. *)
Lemma ServerInv_input peer c handed input :
  ServerInv peer c handed → claimed (in_channel input) c = true →
  match ad_serials c !! in_channel input with
  | Some last =>
      Some (in_serial input) = u32_checked_add last 1 →
      ServerInv peer
        (set_ad_serials (ad_highest_channel c) (<[in_channel input := in_serial input]> (ad_serials c)) c)
        (handed ++ [In_Input input])
  | None => ServerInv peer c (handed ++ [In_Input input])
  end.
Proof.
  intros [I1 I2 I3 I4 I5 I6] Hc. rw claimed_known /known andb_true_iff N.ltb_lt N.leb_le in Hc.
  assert (∀ k, k ≠ in_channel input → input_serials k (handed ++ [In_Input input]) = input_serials k handed) as Hother.
  { intros k Hk. rw input_serials_app /=. destruct (N.eqb_spec (in_channel input) k); [done|]. by rw app_nil_r. }
  assert (Forall (request_allowed peer) (handed ++ [In_Input input])) as Hall.
  { apply Forall_app. split; [done|]. by constructor. }
  assert (∀ k, (ad_highest_channel c < k)%N → input_serials k (handed ++ [In_Input input]) = []) as Hquiet.
  { intros k Hk. rw Hother; [lia|]. by apply I5. }
  destruct (ad_serials c !! in_channel input) as [last|] eqn:El.
  - unfold u32_checked_add. destruct (N.leb_spec (last + 1) u32_max) as [Hle|]; [|done]. intros [= Hs].
    split; simpl; try done.
    + rw map_size_insert_Some //.
    + intros k l [[<- <-]|[Hne Hk]]%lookup_insert_Some; [lia|by eapply I3].
    + intros k l [[<- <-]|[Hne Hk]]%lookup_insert_Some.
      * destruct (I4 _ _ El) as [E _]. rw Hs. split; [|done]. rw input_serials_app E /= N.eqb_refl Hs /=.
        by rw serials_to_succ.
      * rw Hother; [congruence|]. by apply I4.
  - split; try done. intros k l Hk. rw Hother; [congruence|]. by apply I4.
Qed.

Lemma receive_message_inv peer running m c o handed c' o' outcome :
  ServerInv peer c handed → receive_message running m c o = (c', o', outcome) →
  ServerInv peer c' (handed ++ handed_by outcome).
Proof.
  intros Hi. assert (∀ r : OutState Presentation * result unit OutboxError, match r with
    | (o, Ok _) => (c, o, Ok (None, []))
    | (o, Err error) => (c, o, Err (fatal_of_outbox error))
    end = (c', o', outcome) → ServerInv peer c' (handed ++ handed_by outcome)) as Hout.
  { intros [o1 [u|e]] [= <- <- <-]; by rw app_nil_r. }
  destruct m as [request|input|ack|ack|view|effect|acknowledge|cancel|ping|pong]; simpl.
  - by apply receive_request_inv.
  - destruct (claimed _ c) eqn:Ec; [|intros [= <- <- <-]; by rw app_nil_r].
    pose proof (ServerInv_input _ _ _ _ Hi Ec) as Hin. destruct (ad_serials c !! in_channel input) as [last|].
    + destruct (bool_decide _) eqn:Ed; intros [= <- <- <-]; [|by rw app_nil_r]. apply Hin.
      by apply bool_decide_eq_true in Ed.
    + intros [= <- <- <-]. done.
  - destruct (claimed _ c); [apply (Hout (ob_acknowledge _ _ o))|intros [= <- <- <-]; by rw app_nil_r].
  - destruct (claimed _ c); [apply (Hout (acknowledge_semantics _ _ _ o))|intros [= <- <- <-]; by rw app_nil_r].
  - destruct (claimed _ c); intros [= <- <- <-]; [by apply ServerInv_handed|by rw app_nil_r].
  - destruct (claimed _ c); intros [= <- <- <-]; [by apply ServerInv_handed|by rw app_nil_r].
  - intros [= <- <- <-]. by apply ServerInv_handed.
  - intros [= <- <- <-]. by apply ServerInv_handed.
  - apply (Hout (ob_pong _ o)).
  - intros [= <- <- <-]. by rw app_nil_r.
Qed.

Lemma admitted_dispatch_inv peer running inbound answer c o handed c' o' outcome :
  ServerInv peer c handed → admitted_dispatch running inbound answer c o = (c', o', outcome) →
  ServerInv peer c' handed.
Proof.
  intros Hi. unfold admitted_dispatch. destruct (is_closing o); [by intros [= <- <- <-]|].
  assert (∀ channel, ServerInv peer (set_ad_serials (ad_highest_channel c) (delete channel (ad_serials c)) c) handed) as Hd.
  { intros channel. apply ServerInv_serials; [apply delete_subseteq|done]. }
  destruct inbound as [request| | | | |]; try (by intros [= <- <- <-]).
  destruct answer as [answer| |]; [|by intros [= <- <- <-]|].
  - destruct (reply_or_refuse _ answer o) as [o1 [[]|e]]; intros [= <- <- <-]; repeat case_match; done.
  - destruct (sync_reply _ _ _ o) as [o1 [jobs|e]]; by intros [= <- <- <-].
Qed.

Lemma server_inv peer direct now events :
  let s := server_run peer direct now events in ServerInv peer (sv_conn s) (sv_handed s).
Proof.
  induction events as [|event events IH] using rev_ind; simpl.
  - split; simpl; try done. rw map_size_empty. apply Nat.le_0_l.
  - unfold server_run in *. rw foldl_app /=. set (s := foldl _ _ events) in *.
    destruct event as [running frame t|running inbound answer|step|t progressed pending|t]; simpl.
    + unfold admitted_receive. destruct (assemble_client _ _) as [a m].
      pose proof (ServerInv_io _ _ _ a (received t (ad_liveness (sv_conn s))) IH) as Hio.
      destruct m as [[m|]|e]; simpl; [|by rw app_nil_r..].
      destruct (is_closing _); simpl; [by rw app_nil_r|].
      destruct (receive_message _ _ _ _) as [[c' o'] outcome] eqn:E.
      refine (receive_message_inv peer _ _ _ _ _ _ _ _ _ E).
      by apply (ServerInv_serials _ (set_ad_io _ _ _)), Hio; apply delete_all_subseteq.
    + destruct (admitted_dispatch _ _ _ _ _) as [[c' o'] outcome] eqn:E. by eapply admitted_dispatch_inv in E.
    + done.
    + by apply ServerInv_io.
    + unfold admitted_check. destruct (check _ _ _) as [l judged].
      pose proof (ServerInv_io _ _ _ (ad_assembler (sv_conn s)) l IH) as Hio.
      destruct judged; [done| |done]. by destruct (ob_ping _ _) as [o1 [[]|[]]].
Qed.


(** ** Against a client that keeps the order *)

(** *** A closing outbox stays closing *)

Lemma closing_push_l1 entry o : o_closing o = true → push_l1 entry o = (o, Err Out_Closed).
Proof. unfold push_l1. by intros ->. Qed.

Lemma closing_queue_semantics channel o : o_closing o = true → o_closing (queue_semantics channel o).1 = true.
Proof. intros Hc. unfold queue_semantics. repeat case_match; try done; by rw closing_push_l1. Qed.

Lemma closing_call call o : o_closing o = true → o_closing (call_run call o).1 = true.
Proof.
  intros Hc. assert (∀ id answer, o_closing (ob_reply id answer o).1 = true) as Hr.
  { intros id answer. unfold ob_reply. rw Hc. by case_match. }
  destruct call; simpl; try done.
  - unfold ob_begin. by repeat case_match.
  - unfold reply_or_refuse. destruct (ob_reply id answer o) as [o1 [|[]]] eqn:E;
      pose proof (Hr id answer) as Hr1; rw E in Hr1; try done. simpl in Hr1.
    unfold ob_reply. rw Hr1. by case_match.
  - unfold ob_pane. case_match; [|done]. by rw closing_push_l1.
  - unfold ob_inventory. rw Hc. by case_match.
  - unfold ob_update_facts. rw Hc. by case_match.
  - unfold ob_ping, push_l0. by rw Hc.
  - unfold ob_pong, push_l0. by rw Hc.
  - unfold ob_goodbye. rw Hc. by case_match.
  - unfold ob_open. by repeat case_match.
  - unfold ob_end. rw Hc. by case_match.
  - unfold ob_view. repeat case_match; try done; try (by apply closing_queue_semantics).
    by rw closing_push_l1.
  - unfold ob_present. by rw Hc.
  - unfold require_keyframe. by case_match.
  - unfold ob_acknowledge. repeat case_match; try done; by rw closing_push_l1.
  - unfold start_semantics. by repeat case_match.
  - unfold end_semantics. by case_match.
  - unfold offer_semantics. by rw Hc.
  - unfold acknowledge_semantics. repeat case_match; try done; by apply closing_queue_semantics.
Qed.

Lemma closing_answered reply o : o_closing (answered reply o) = o_closing o.
Proof. by destruct reply. Qed.

Lemma closing_take lowest o : o_closing o = true → o_closing (ob_take lowest o).1 = true.
Proof. intros Hc. unfold ob_take. rw Hc. by case_match. Qed.

Lemma closing_flight channel serial rest o :
  o_closing o = true →
  o_closing (semantics_taken channel serial rest o).1 = true ∧ o_closing (semantics_unsent channel serial o) = true.
Proof.
  intros Hc. unfold semantics_taken, semantics_unsent. destruct (flight channel serial o) as [[[slot demand] f]|]; [|done].
  split; [|by apply closing_queue_semantics].
  match goal with |- context [queue_semantics channel ?o1] =>
    pose proof (closing_queue_semantics channel o1 Hc); destruct (queue_semantics channel o1) as [o2 [|]] end; done.
Qed.

Lemma closing_unsent ticket o : o_closing o = true → o_closing (unsent ticket o) = true.
Proof. intros Hc. unfold unsent. repeat case_match; try done; by rw closing_push_l1. Qed.

Lemma closing_commit_presented ticket end_ presented o :
  o_closing o = true → o_closing (commit_presented ticket end_ presented o).1 = true.
Proof.
  intros Hc. pose proof (closing_unsent ticket _ Hc). unfold commit_presented.
  destruct presented; simpl; [destruct (encode_frames (Core_Frame _)); simpl|]; destruct end_; simpl; try done;
    by case_match.
Qed.

Lemma closing_commit_semantics ran o : o_closing o = true → o_closing (commit_semantics ran o).1 = true.
Proof.
  intros Hc. destruct ran as [encoded|[channel serial]]; simpl; [|by apply (closing_flight channel serial None o Hc)].
  destruct (encode_frames _).
  - pose proof (closing_flight (en_channel encoded) (en_serial encoded) (en_rest encoded) _ Hc) as [Hf _].
    destruct (semantics_taken _ _ _ _) as [o1 [[|]|]]; simpl in *; [|done|done]. by case_match.
  - destruct (o_channels o !! _); [|done]. destruct (encode_frames _); [|done]. by case_match.
Qed.

Lemma closing_conn_step c step :
  o_closing (cn_out c) = true → o_closing (cn_out (conn_step presentation_encode c step)) = true.
Proof.
  intros Hc. destruct step as [call|lowest|]; simpl.
  - pose proof (closing_call call _ Hc). by destruct (call_run call (cn_out c)).
  - destruct (cn_io c); try done. pose proof (closing_take lowest _ Hc).
    destruct (ob_take lowest (cn_out c)) as [o1 [[]|]]; done.
  - destruct (cn_io c) as [|ticket p end_|work]; [done| |].
    + pose proof (closing_commit_presented ticket end_ (presentation_encode p ticket) _ Hc).
      by destruct (commit_presented _ _ _ _).
    + pose proof (closing_commit_semantics (work_run work) _ Hc). by destruct (commit_semantics _ _).
Qed.

(** *** The connection follows the client's order *)

Record Follows (σ : Order) (c : AdmittedConnection) : Prop := {
  fo_highest : ad_highest_channel c = or_highest σ;
  fo_serials : ∀ channel last, ad_serials c !! channel = Some last →
    or_serials σ !! channel = Some last ∧ (channel <= or_highest σ)%N
}.

(** A client answers to what is in flight: a request's id is free, and an acknowledgement
    names the frame or the revision that waits for it. *)
Definition answers_to (message : ClientMessage) o : Prop :=
  match message with
  | Client_Request request =>
      o_requests o !! rq_id request = None ∧ size (o_requests o) < MAX_REQUESTS_IN_FLIGHT
  | Client_FrameAck ack => (ob_acknowledge (fa_channel ack) (fa_frame ack) o).2 ≠ Err Out_Violation
  | Client_AccessibilityAck ack =>
      (acknowledge_semantics (aa_channel ack) (aa_demand_generation ack) (aa_revision ack) o).2 ≠ Err Out_Violation
  | _ => True
  end.

Lemma fatal_violation error : fatal_of_outbox error = Fatal_ProtocolViolation → error = Out_Violation.
Proof. by destruct error. Qed.

Lemma reply_no_violation id answer o : (ob_reply id answer o).2 ≠ Err Out_Violation.
Proof.
  unfold ob_reply, encode_frames, push_l1, overflowed, overflow. repeat case_match; simplify_eq/=; done.
Qed.

Lemma refuse_follows σ request refusal c o c' o' outcome :
  Follows σ c → refuse_request request refusal c o = (c', o', outcome) →
  Follows σ c' ∧ outcome ≠ Err Fatal_ProtocolViolation.
Proof.
  intros Hf. unfold refuse_request. pose proof (reply_no_violation (rq_id request) (Err refusal) o) as Hn.
  destruct (ob_reply _ _ o) as [o1 [u|e]]; intros [= <- <- <-]; split; try done. simpl in Hn.
  intros [= He]. by apply Hn, f_equal, fatal_violation.
Qed.

Lemma admit_follows σ running request c o c' o' outcome :
  Follows σ c → admit_request running request c o = (c', o', outcome) →
  Follows σ c' ∧ outcome ≠ Err Fatal_ProtocolViolation.
Proof.
  intros Hf. unfold admit_request. destruct (_ && _); [by apply refuse_follows|].
  destruct (rq_operation request); try (by intros [= <- <- <-]).
  assert ((ad_manage running (rq_id request) management c o).2 ≠ Err Out_Violation) as Hn.
  { unfold ad_manage, sync_reply.
    pose proof (reply_no_violation (rq_id request) (Err Refusal_Failed) o) as H1'.
    pose proof (reply_no_violation (rq_id request) (Ok (Reply_Direct (Err Direct_StorageUnavailable))) o) as H2'.
    destruct (ad_direct c), running; try done;
      [destruct (ob_reply _ (Err _) o) as [o1 [|e]]
      |destruct (ob_reply _ (Ok _) o) as [o1 [|e]]|destruct (ob_reply _ (Ok _) o) as [o1 [|e]]]; simpl in *; congruence. }
  destruct (ad_manage _ _ _ c o) as [o1 [jobs|e]]; intros [= <- <- <-]; (split; [done|]); [done|].
  intros [= He]. simpl in Hn. by apply Hn, f_equal, fatal_violation.
Qed.

Lemma receive_follows σ σ' running m c o c' o' outcome :
  Follows σ c → order_step m σ = Some σ' → answers_to m o → receive_message running m c o = (c', o', outcome) →
  Follows σ' c' ∧ outcome ≠ Err Fatal_ProtocolViolation.
Proof.
  intros [Hh Hs] Hm Ha. assert (∀ (r : OutState Presentation * result unit OutboxError), r.2 ≠ Err Out_Violation →
    match r with
    | (o, Ok _) => (c, o, Ok (None, []))
    | (o, Err error) => (c, o, Err (fatal_of_outbox error))
    end = (c', o', outcome) → c' = c ∧ outcome ≠ Err Fatal_ProtocolViolation) as Hout.
  { intros [o1 [u|e]] Hr [= <- <- <-]; (split; [done|]); [done|]. intros [= He].
    simpl in Hr. by apply Hr, f_equal, fatal_violation. }
  destruct m as [request|input|ack|ack|view|effect|acknowledge|cancel|ping|pong]; simpl in Hm, Ha |- *;
    rw ?claimed_known ?Hh.
  - destruct Ha as [Hid Hsize]. unfold receive_request, ob_begin.
    destruct (Nat.leb_spec MAX_REQUESTS_IN_FLIGHT (size (o_requests o))); [unfold MAX_REQUESTS_IN_FLIGHT in *; lia|].
    rw Hid. destruct (introduced _) as [channel|] eqn:Ei.
    + destruct (N.eqb_spec channel (or_highest σ + 1)) as [->|]; [|done]. injection Hm as <-.
      rw Hh. destruct (N.leb_spec (or_highest σ + 1) (or_highest σ)); [lia|]. cbn zeta.
      destruct (MAX_CHANNELS <=? _).
      * apply refuse_follows. split; simpl; [done|]. intros channel last Hc.
        destruct (Hs channel last Hc). rw lookup_insert_ne; [lia|]. split; [done|lia].
      * apply admit_follows. split; simpl; [done|].
        intros channel last [[<- <-]|[Hne Hc]]%lookup_insert_Some; [by rw lookup_insert_eq|].
        destruct (Hs channel last Hc). rw lookup_insert_ne //. split; [done|lia].
    + injection Hm as <-. by apply admit_follows.
  - destruct (or_serials σ !! in_channel input) as [expected|] eqn:Ee; [|done].
    destruct (known _ _); [|done]. destruct (N.eqb_spec (in_serial input) (expected + 1)) as [Es|]; [|done].
    destruct (N.leb_spec (in_serial input) u32_max) as [Hle|]; [|done]. injection Hm as <-.
    destruct (ad_serials c !! in_channel input) as [last|] eqn:El.
    + destruct (Hs _ _ El) as [Heq Hk]. rw Ee in Heq. injection Heq as ->.
      unfold u32_checked_add. rw -Es. destruct (N.leb_spec (in_serial input) u32_max); [|lia].
      rw bool_decide_true; [done|]. intros [= <- <- <-]. split; [|done]. split; simpl; [done|].
      intros channel l [[<- <-]|[Hne Hc]]%lookup_insert_Some; [by rw lookup_insert_eq|].
      rw lookup_insert_ne //. by apply Hs.
    + intros [= <- <- <-]. split; [|done]. split; simpl; [done|]. intros channel l Hc.
      rw lookup_insert_ne; [congruence|by apply Hs].
  - destruct (known _ _); [|done]. injection Hm as <-. intros Hr.
    apply (Hout (ob_acknowledge _ _ o)) in Hr as [-> ?]; [|done]. done.
  - destruct (known _ _); [|done]. injection Hm as <-. intros Hr.
    apply (Hout (acknowledge_semantics _ _ _ o)) in Hr as [-> ?]; [|done]. done.
  - destruct (known _ _); [|done]. injection Hm as <-. by intros [= <- <- <-].
  - destruct (known _ _); [|done]. injection Hm as <-. by intros [= <- <- <-].
  - injection Hm as <-. by intros [= <- <- <-].
  - injection Hm as <-. by intros [= <- <- <-].
  - injection Hm as <-. intros Hr. apply (Hout (ob_pong _ o)) in Hr as [-> ?]; [done|].
    unfold ob_pong, push_l0, encode_frames, overflowed, overflow. repeat case_match; simplify_eq/=; done.
  - injection Hm as <-. by intros [= <- <- <-].
Qed.

Lemma follows_serials σ c serials :
  serials ⊆ ad_serials c → Follows σ c → Follows σ (set_ad_serials (ad_highest_channel c) serials c).
Proof.
  intros Hsub [Hh Hs]. split; simpl; [done|]. intros channel last Hc. apply Hs. by eapply lookup_weaken.
Qed.

Lemma dispatch_follows σ running inbound answer c o :
  Follows σ c → Follows σ (admitted_dispatch running inbound answer c o).1.1 ∧
  ad_assembler (admitted_dispatch running inbound answer c o).1.1 = ad_assembler c ∧
  (o_closing o = true → o_closing (admitted_dispatch running inbound answer c o).1.2 = true) ∧
  (admitted_dispatch running inbound answer c o).2 ≠ Err Fatal_ProtocolViolation.
Proof.
  intros Hf. unfold admitted_dispatch, is_closing. destruct (o_closing o) eqn:Eo; [done|].
  assert (∀ channel, Follows σ (set_ad_serials (ad_highest_channel c) (delete channel (ad_serials c)) c)) as Hd.
  { intros channel. apply follows_serials; [apply delete_subseteq|done]. }
  destruct inbound as [request| | | | |]; try done. destruct answer as [answer| |]; [|done|].
  - assert ((reply_or_refuse (rq_id request) answer o).2 ≠ Err Out_Violation) as Hn.
    { unfold reply_or_refuse. pose proof (reply_no_violation (rq_id request) answer o).
      destruct (ob_reply (rq_id request) answer o) as [o1 [|[]]]; try done. apply reply_no_violation. }
    destruct (reply_or_refuse _ answer o) as [o1 [u|e]]; simpl;
      (split; [by repeat case_match|]); (split; [by repeat case_match|]); (split; [done|]); [done|].
    intros [= He]. simpl in Hn. by apply Hn, f_equal, fatal_violation.
  - assert ((sync_reply running (Job_After (rq_id request)) (rq_id request) o).2 ≠ Err Out_Violation) as Hn.
    { unfold sync_reply. destruct running; [done|]. pose proof (reply_no_violation (rq_id request) (Err Refusal_Failed) o).
      destruct (ob_reply _ _ o) as [o1 [|e]]; simpl in *; congruence. }
    destruct (sync_reply _ _ _ o) as [o1 [u|e]]; simpl; (split; [done|]); (split; [done|]); (split; [done|]); [done|].
    intros [= He]. simpl in Hn. by apply Hn, f_equal, fatal_violation.
Qed.

Definition event_frames (events : list ServerEvent) : list RawFrame :=
  omap (λ event, match event with Sv_Frame _ frame _ => Some frame | _ => None end) events.

(** Every message a frame completes answers to what is in flight when it arrives. *)
Definition event_answers (s : Server) (event : ServerEvent) : Prop :=
  match event with
  | Sv_Frame _ frame _ =>
      match (assemble_client frame (ad_assembler (sv_conn s))).2 with
      | Ok (Some message) => answers_to message (take_closed (cn_out (sv_io s))).1
      | _ => True
      end
  | _ => True
  end.
Fixpoint run_answers (s : Server) (events : list ServerEvent) : Prop :=
  match events with
  | [] => True
  | event :: events => event_answers s event ∧ run_answers (server_step s event) events
  end.

(** What a run keeps: the order of the messages read so far, until the outbox closes. *)
Definition Keeps (σ : Order) (s : Server) : Prop :=
  (o_closing (cn_out (sv_io s)) = true ∨ Follows σ (sv_conn s)) ∧ (Fatal_ProtocolViolation ∉ sv_errors s).

Lemma receive_assembler running m c o : ad_assembler (receive_message running m c o).1.1 = ad_assembler c.
Proof.
  assert (∀ request c o, ad_assembler (admit_request running request c o).1.1 = ad_assembler c ∧
    ∀ refusal, ad_assembler (refuse_request request refusal c o).1.1 = ad_assembler c) as Hr.
  { intros request c1 o1. assert (∀ refusal, ad_assembler (refuse_request request refusal c1 o1).1.1 = ad_assembler c1) as H'.
    { intros refusal. unfold refuse_request. by destruct (ob_reply _ _ o1) as [? []]. }
    split; [|done]. unfold admit_request. destruct (_ && _); [done|]. destruct (rq_operation request); try done.
    by destruct (ad_manage _ _ _ c1 o1) as [? []]. }
  destruct m; simpl; try (by repeat case_match).
  - unfold receive_request. destruct (ob_begin _ o) as [o1 []]; [|done]. destruct (introduced _); [|by apply Hr].
    destruct (_ <=? _)%N; [done|]. cbn zeta. destruct (MAX_CHANNELS <=? _); [by rw (proj2 (Hr _ _ _))|].
    by rw (proj1 (Hr _ _ _)).
Qed.

(** One event keeps the order; a frame may complete the order's next message. *)
Lemma event_keeps σ s event ms :
  Keeps σ s → event_answers s event →
  match event with
  | Sv_Frame _ frame _ =>
      ∃ message, (assemble_client frame (ad_assembler (sv_conn s))).2 = Ok message ∧ ms = option_list message
  | _ => ms = []
  end →
  ∀ σ', order_run ms σ = Some σ' →
  Keeps σ' (server_step s event) ∧
  ad_assembler (sv_conn (server_step s event)) =
    match event with
    | Sv_Frame _ frame _ => (assemble_client frame (ad_assembler (sv_conn s))).1
    | _ => ad_assembler (sv_conn s)
    end.
Proof.
  intros [Hk Hv] Ha Hms σ' Hrun. destruct event as [running frame t|running inbound answer|step|t progressed pending|t].
  - destruct Hms as (message & Em & ->). simpl in Ha. unfold server_step, admitted_receive.
    destruct (assemble_client frame (ad_assembler (sv_conn s))) as [a assembled]. simpl in Em, Ha. subst assembled.
    destruct message as [m|]; simpl in *.
    + destruct (order_step m σ) as [σ1|] eqn:Es; [|done]. injection Hrun as <-. unfold is_closing.
      destruct (o_closing (cn_out (sv_io s))) eqn:Ec; simpl.
      { split; [|done]. split; [by left|simpl; by rw app_nil_r]. }
      destruct Hk as [?|Hk]; [done|]. unfold take_closed. cbn beta iota.
      set (c1 := set_ad_serials _ _ _). assert (Follows σ c1) as Hf.
      { apply (follows_serials σ (set_ad_io a (received t (ad_liveness (sv_conn s))) (sv_conn s)));
          [apply delete_all_subseteq|]. by destruct Hk. }
      pose proof (receive_assembler running m c1 (set_channels (o_channels (cn_out (sv_io s))) [] (cn_out (sv_io s)))) as Hasm.
      destruct (receive_message running m c1 _) as [[c' o'] outcome] eqn:E.
      destruct (receive_follows _ _ _ _ _ _ _ _ _ Hf Es Ha E) as [Hf' Hn]. simpl in *. split; [|done].
      split; [by right|]. simpl. destruct outcome; [by rw app_nil_r|]. rw elem_of_app list_elem_of_singleton.
      intros [?|Eq]; [done|]. apply Hn. by rw Eq.
    + injection Hrun as <-. split; [|done]. split; [|simpl; by rw app_nil_r].
      destruct Hk as [?|Hk]; [by left|right]. by destruct Hk.
  - subst ms. injection Hrun as <-. simpl. destruct Hk as [Hk|Hk].
    + unfold admitted_dispatch, is_closing. rw Hk. simpl. split; [|done]. split; [by left|simpl; by rw app_nil_r].
    + destruct (dispatch_follows σ running inbound answer (sv_conn s) (cn_out (sv_io s)) Hk) as (Hf & Has & Hc & Hn).
      destruct (admitted_dispatch _ _ _ _ _) as [[c' o'] outcome]. simpl in *. split; [|done]. split; [by right|].
      simpl. destruct outcome; [by rw app_nil_r|]. rw elem_of_app list_elem_of_singleton.
      intros [?|Eq]; [done|]. apply Hn. by rw Eq.
  - subst ms. injection Hrun as <-. simpl. split; [|done]. split; [|done].
    destruct Hk as [Hk|Hk]; [left; by apply closing_conn_step|by right].
  - subst ms. injection Hrun as <-. simpl. split; [|done]. split; [|done].
    destruct Hk as [Hk|Hk]; [left; by destruct progressed|right]. by destruct Hk.
  - subst ms. injection Hrun as <-. simpl. unfold admitted_check. destruct (check _ _ _) as [l judged].
    assert (Follows σ (sv_conn s) → Follows σ (set_ad_io (ad_assembler (sv_conn s)) l (sv_conn s))) as Hio by (by intros []).
    destruct judged as [next|nonce next|death]; simpl.
    + split; [|done]. split; [|done]. destruct Hk; [by left|right; by apply Hio].
    + pose proof (closing_call (Call_Ping nonce) (cn_out (sv_io s))) as Hc. simpl in Hc.
      destruct (ob_ping nonce (cn_out (sv_io s))) as [o1 [[]|[]]]; simpl in *;
        (split; [|done]); (split; [|done]); destruct Hk; [left; by apply Hc|right; by apply Hio|..];
        first [left; by apply Hc|right; by apply Hio].
    + split; [|done]. split; [|done]. destruct Hk; [by left|right; by apply Hio].
Qed.

Abbreviation assembled := (assemble_all true decode_client client_validate) (only parsing).

Lemma run_keeps events : ∀ σ s a ms σ',
  Keeps σ s → run_answers s events →
  assembled (event_frames events) (ad_assembler (sv_conn s)) = (a, Ok ms) → order_run ms σ = Some σ' →
  Keeps σ' (foldl server_step s events).
Proof.
  induction events as [|event events IH]; intros σ s a ms σ' Hk Ha Hasm Hrun.
  - injection Hasm as <- <-. injection Hrun as <-. done.
  - destruct Ha as [Ha Hrest]. simpl.
    assert (∃ ms1 ms2, ms = ms1 ++ ms2 ∧
      match event with
      | Sv_Frame _ frame _ =>
          ∃ message, (assemble_client frame (ad_assembler (sv_conn s))).2 = Ok message ∧ ms1 = option_list message
      | _ => ms1 = []
      end ∧
      assembled (event_frames events)
        (match event with
         | Sv_Frame _ frame _ => (assemble_client frame (ad_assembler (sv_conn s))).1
         | _ => ad_assembler (sv_conn s)
         end) = (a, Ok ms2)) as (ms1 & ms2 & -> & Hms & Hasm2).
    { destruct event; try (by exists [], ms). simpl in Hasm. fold assemble_client in Hasm.
      destruct (assemble_client frame (ad_assembler (sv_conn s))) as [a1 [message|e]]; [|done].
      simpl. destruct (assembled (event_frames events) a1) as [a2 [ms2|e]] eqn:E; [|done].
      injection Hasm as <- <-. exists (option_list message), ms2.
      split; [by destruct message|]. split; [by exists message|done]. }
    rw order_run_app in Hrun. destruct (order_run ms1 σ) as [σ1|] eqn:E1; [|done].
    destruct (event_keeps σ s event ms1 Hk Ha Hms σ1 E1) as [Hk1 Has1]. rw -Has1 in Hasm2.
    by eapply (IH σ1).
Qed.

(** A client that keeps [ClientOrder] and answers only to what is in flight is never
    refused as breaking the protocol: if the frames a server's connection receives
    assemble to messages in that order, and each request's id is free and each
    acknowledgement names what waits for it when it arrives, then along every run, with
    whatever the service answers and any calls on the outbox in between, no error is a
    protocol violation. *)
Theorem orderly_admitted peer direct now events a ms σ :
  assembled (event_frames events) [] = (a, Ok ms) → order_run ms order_new = Some σ →
  run_answers (server_new peer direct now) events →
  Fatal_ProtocolViolation ∉ sv_errors (server_run peer direct now events).
Proof.
  intros Hasm Hrun Ha. destruct (run_keeps events order_new (server_new peer direct now) a ms σ) as [_ Hv]; try done.
  split; [right; by split|]. apply not_elem_of_nil.
Qed.
End Server.
