(* ===== verification/LinkProofs.v ===== *)
(** * What a link has queued

    The link's queues hold whole messages in the order of [ClientOrder]: what was written
    and then what waits at L0 is one run of it that ends where the link's counters are. *)
From stdpp Require Import fin_maps.
From S2P Require Import Prelude.
From S2P Require Import Text.
From S2P Require Import Facts.
From S2P Require Import HierarchyTypes.
From S2P Require Import DiskJournal.
From S2P Require Import Liveness.
From S2P Require Import Messages.
From S2P Require Import Wire.
From S2P Require Import WireTheorems.
From S2P Require Import OutboxProofs.
From S2P Require Import Link.
From S2P Require Import Admission.
From S2P Require Import ClientOrder.

Section Proofs.
Context `{P : Payloads}.
Context `{Postcard Request, Postcard Input, Postcard FrameAck, Postcard AccessibilityAck, Postcard View,
  Postcard EffectDone, Postcard Acknowledge, Postcard Cancel, Postcard Ping, Postcard Pong,
  Postcard Reply, Postcard Frame, Postcard AccessibilityMessage, Postcard PaneMessage,
  Postcard (InventoryRevision Inventory), Postcard UpdateFacts, Postcard Fatal}.
Implicit Types s : LinkState.
Implicit Types o : list (Open (M := ClientMessage)).

(** Messages at L0; each is one frame. *)
Definition urgent_message (message : ClientMessage) : bool :=
  match message with
  | Client_EffectDone _ | Client_Acknowledge _ | Client_Cancel _ => false
  | _ => true
  end.
Definition urgent_kind (kind : Kind) : bool :=
  match kind with Kind_EffectDone | Kind_Acknowledge | Kind_Cancel => false | _ => true end.

Lemma client_frames_encoded m fs :
  client_frames m = Ok fs →
  ∃ wm, encode_client m = Ok wm ∧ wm_frames wm = fs ∧ client_validate m = true ∧
    urgent_kind (wm_kind wm) = urgent_message m.
Proof.
  unfold client_frames. destruct (client_validate m) eqn:Ev; [|done].
  destruct (encode_client m) as [wm|] eqn:Ee; [|done]. intros [= <-]. exists wm. do 3 (split; [done|]).
  destruct m; simpl in Ee; apply encode_kind in Ee; by rw Ee.
Qed.

Lemma client_frames_nonempty m fs : client_frames m = Ok fs → ∃ f rest, fs = f :: rest.
Proof.
  intros (wm & He & <- & _)%client_frames_encoded. assert (∃ k body, encode_bytes k body = Ok wm) as (k & body & Hb).
  { destruct m; simpl in He; unfold encode in He;
      (match type of He with context [to_bytes ?v] => destruct (to_bytes v); [|done] end); simpl in He; eexists _, _; exact He. }
  destruct (encode_bytes_spec _ _ _ Hb) as (_ & _ & parts & Hne & _ & _ & ->).
  destruct parts as [|part parts]; [done|]. simpl. by eexists _, _.
Qed.

Lemma urgent_single m fs : client_frames m = Ok fs → urgent_message m = true → ∃ f, fs = [f].
Proof.
  intros (wm & He & <- & _)%client_frames_encoded Hu.
  destruct m; try done; simpl in He; unfold encode in He;
    (match type of He with context [to_bytes ?v] => destruct (to_bytes v) as [body|]; [|done] end);
    simpl in He; by apply control_single in He.
Qed.

(** ** The queues *)

Definition queued_as (queued : Queued) (message : ClientMessage) : Prop :=
  client_frames message = Ok [qd_frame queued] ∧ urgent_message message = true.
Definition framed_as (message : ClientMessage) (frames : list (list byte)) : Prop :=
  client_frames message = Ok frames ∧ urgent_message message = false.

(** L0 takes the order from [σ] to [σ']. *)
Definition Ahead (σ σ' : Order) s : Prop :=
  ∃ messages, Forall2 queued_as (lk_l0 s) messages ∧ order_run messages σ = Some σ'.

(** [σ'] is where the link's counters are. *)
Record Counts (σ' : Order) s : Prop := {
  ct_highest : or_highest σ' = lk_next_channel s;
  ct_channels : ∀ channel c, lk_channels s !! channel = Some c →
    or_serials σ' !! channel = Some (ch_serial c) ∧ known channel (lk_next_channel s) = true
}.

(** L1 is what is left of an open message, then whole messages. *)
Definition Behind o s : Prop :=
  ∃ messages framed, lk_l1 s = concat (map op_rest o) ++ concat framed ∧ Forall2 framed_as messages framed ∧
    Forall (relaxed (lk_next_channel s)) (map op_message o ++ messages).

Record LinkInv (σ : Order) o s : Prop := {
  li_order : ∃ σ', Ahead σ σ' s ∧ Counts σ' s;
  li_behind : Behind o s
}.

(** A link that has not closed keeps its invariant. *)
Definition Open_inv (σ : Order) o s : Prop := lk_closed s = None → LinkInv σ o s.

Lemma framed_frames messages fs :
  all_frames messages = Ok fs → ∃ framed, fs = concat framed ∧ Forall2 (λ m f, client_frames m = Ok f) messages framed.
Proof.
  revert fs. induction messages as [|m messages IH]; intros fs; simpl.
  - intros [= <-]. by exists [].
  - destruct (client_frames m) as [f|] eqn:Ef; [|done]. simpl.
    destruct (all_frames messages) as [rest|]; [|done]. intros [= <-].
    destruct (IH rest eq_refl) as (framed & -> & Hf). exists (f :: framed). split; [done|]. by constructor.
Qed.

Lemma framed_singles messages framed :
  Forall2 (λ m f, client_frames m = Ok f) messages framed → Forall (λ m, urgent_message m = true) messages →
  ∃ fs, framed = map (λ f, [f]) fs ∧ Forall2 (λ m f, client_frames m = Ok [f] ∧ urgent_message m = true) messages fs.
Proof.
  induction 1 as [|m f messages framed Hf _ IH]; intros Hu; [by exists []|].
  apply Forall_cons in Hu as [Hm Hu]. destruct (IH Hu) as (fs & -> & Hfs).
  destruct (urgent_single _ _ Hf Hm) as (g & ->). exists (g :: fs). split; [done|]. by constructor.
Qed.

Lemma concat_singles {A} (l : list A) : concat (map (λ x, [x]) l) = l.
Proof. induction l as [|x l IH]; simpl; [done|]. by rw IH. Qed.

(** Queueing at L0 extends the order; at L1 it needs none. *)
Lemma queue_urgent σ σ' σ'' messages s s' outcome :
  Ahead σ σ' s → Forall (λ m, urgent_message m = true) messages → order_run messages σ' = Some σ'' →
  queue_all messages true s = (s', outcome) →
  match outcome with
  | Ok _ => Ahead σ σ'' s' ∧ s' = set_lk_queues (lk_l0 s') (lk_l0_bytes s') (lk_l1 s) s
  | Err _ => s' = s
  end.
Proof.
  intros (q & Hq & Hr) Hu Hm. unfold queue_all. destruct (all_frames messages) as [fs|] eqn:Ef; [|by intros [= <- <-]].
  simpl. destruct (_ || _); intros [= <- <-]; [done|]. split; [|done].
  destruct (framed_frames _ _ Ef) as (framed & -> & Hf). destruct (framed_singles _ _ Hf Hu) as (gs & -> & Hg).
  rw concat_singles. exists (q ++ messages). simpl. split; [|by rw order_run_app Hr].
  apply Forall2_app; [done|]. apply Forall2_fmap_l, Forall2_flip.
  eapply Forall2_impl; [exact Hg|]. by intros m g [? ?].
Qed.

Lemma queue_lazy o messages s s' outcome :
  Behind o s → Forall (λ m, urgent_message m = false) messages → Forall (relaxed (lk_next_channel s)) messages →
  queue_all messages false s = (s', outcome) →
  match outcome with
  | Ok _ => Behind o s' ∧ s' = set_lk_queues (lk_l0 s) (lk_l0_bytes s) (lk_l1 s') s
  | Err _ => s' = s
  end.
Proof.
  intros (q & framed & Hl & Hq & Hr) Hu Hm. unfold queue_all.
  destruct (all_frames messages) as [fs|] eqn:Ef; [|by intros [= <- <-]]. simpl. intros [= <- <-]. split; [|done].
  destruct (framed_frames _ _ Ef) as (framed' & -> & Hf). exists (q ++ messages), (framed ++ framed'). simpl.
  rw Hl concat_app app_assoc. split; [done|]. split.
  - apply Forall2_app; [done|]. clear -Hf Hu. induction Hf as [|m f ms fs Hmf _ IH]; [constructor|].
    apply Forall_cons in Hu as [? ?]. constructor; [done|by apply IH].
  - rw app_assoc. by apply Forall_app.
Qed.

(** ** Requests *)

Lemma send_request_ahead σ σ' operation waiter s s' outcome :
  Ahead σ σ' s → state_send_request operation waiter s = (s', outcome) →
  s' = set_requests_sent (lk_next_id s') (lk_requests s') (lk_l0 s') s ∧
  match outcome with
  | Ok id => ∀ σ'', order_step (Client_Request {| rq_id := id; rq_operation := operation |}) σ' = Some σ'' → Ahead σ σ'' s'
  | Err _ => Ahead σ σ' s'
  end.
Proof.
  intros (q & Hq & Hr). unfold state_send_request. destruct (MAX_REQUESTS_IN_FLIGHT <=? _).
  { intros [= <- <-]. split; [by destruct s|]. by exists q. }
  destruct (free_id _ _ _) as [id|]; [|intros [= <- <-]; split; [by destruct s|by exists q]].
  destruct (client_frames _) as [fs|] eqn:Ef; intros [= <- <-]; (split; [done|]); [|by exists q].
  intros σ'' Hm. destruct (urgent_single _ _ Ef eq_refl) as (f & ->).
  exists (q ++ [Client_Request {| rq_id := id; rq_operation := operation |}]). simpl. split.
  - apply Forall2_app; [done|]. by repeat constructor.
  - rw order_run_app Hr. cbn [order_run]. by rw Hm.
Qed.

(** What sending requests leaves alone. *)
Definition same_but_requests s s' : Prop :=
  lk_next_channel s' = lk_next_channel s ∧ lk_unbound s' = lk_unbound s ∧ lk_channels s' = lk_channels s ∧
  lk_l1 s' = lk_l1 s ∧ lk_closed s' = lk_closed s.

Lemma same_requests_trans s s' s'' : same_but_requests s s' → same_but_requests s' s'' → same_but_requests s s''.
Proof. unfold same_but_requests. naive_solver congruence. Qed.

Lemma send_releases_ahead σ σ' s :
  Ahead σ σ' s → Ahead σ σ' (send_releases s).1 ∧ same_but_requests s (send_releases s).1.
Proof.
  unfold send_releases. generalize (lk_releases s) as releases. generalize false as sent. intros sent releases.
  revert sent s. induction releases as [|channel releases IH]; intros sent s Ha; simpl.
  - by destruct (_ <? _).
  - destruct (_ <? _); [|done].
    destruct (state_send_request _ _ _) as [s1 outcome] eqn:E.
    destruct (send_request_ahead σ σ' _ _ (set_lk_releases releases s) s1 outcome Ha E) as [Hs1 Ho].
    assert (Ahead σ σ' s1) as Ha1.
    { destruct outcome; [|done]. by apply Ho. }
    destruct (IH (sent || is_ok outcome) s1 Ha1) as [Ha2 Hsame]. split; [done|].
    apply (same_requests_trans _ s1); [|done]. unfold same_but_requests. by rw Hs1.
Qed.

Lemma Counts_same σ' s s' : same_but_requests s s' → Counts σ' s → Counts σ' s'.
Proof. intros (E1 & E2 & E3 & E4 & E5) [Hh Hc]. split; [by rw E1|]. by rw E3 E1. Qed.

Lemma Behind_same o s s' : same_but_requests s s' → Behind o s → Behind o s'.
Proof. intros (E1 & E2 & E3 & E4 & E5) (q & framed & Hl & Hq & Hr). exists q, framed. by rw E4 E1. Qed.

Lemma LinkInv_releases σ o s : LinkInv σ o s → LinkInv σ o (send_releases s).1.
Proof.
  intros [(σ' & Ha & Hc) Hb]. destruct (send_releases_ahead σ σ' s Ha) as [Ha' Hs].
  split; [|by eapply Behind_same]. exists σ'. split; [done|]. by eapply Counts_same.
Qed.

(** ** The link's calls *)

Lemma inv_request σ o operation waiter s :
  introduced operation = None → Open_inv σ o s → Open_inv σ o (link_request operation waiter s).1.
Proof.
  intros Hop Hi. unfold link_request. destruct (lk_closed s) eqn:Ec; [done|]. intros _. specialize (Hi Ec).
  pose proof (LinkInv_releases _ _ _ Hi) as Hr. destruct (send_releases s) as [s1 b]. simpl in Hr.
  destruct Hr as [(σ' & Ha & Hc) Hb]. destruct (state_send_request operation waiter s1) as [s2 outcome] eqn:E.
  destruct (send_request_ahead _ _ _ _ _ _ _ Ha E) as [Hs Ho]. assert (same_but_requests s1 s2) as Hsame.
  { unfold same_but_requests. by rw Hs. }
  split; [|by eapply Behind_same]. exists σ'. split; [|by eapply Counts_same].
  destruct outcome; [|done]. apply Ho. simpl. by rw Hop.
Qed.

Lemma inv_channels σ o s n u channels :
  lk_next_channel s = n →
  (∀ channel c, channels !! channel = Some c →
    ∃ c', lk_channels s !! channel = Some c' ∧ ch_serial c = ch_serial c') →
  Open_inv σ o s → Open_inv σ o (set_lk_channels n u channels s).
Proof.
  intros <- Hch Hi Hc. destruct (Hi Hc) as [(σ' & Ha & [Hh Hs]) Hb]. split; [|done]. exists σ'. split; [done|].
  split; [done|]. intros channel c Hl. destruct (Hch channel c Hl) as (c' & Hl' & ->). by apply Hs.
Qed.

Lemma inv_open_channel σ o sink s : Open_inv σ o s → Open_inv σ o (open_channel sink s).1.
Proof.
  intros Hi. unfold open_channel. destruct (lk_closed s); [done|]. destruct (_ <=? _); [done|].
  apply inv_channels; [done| |done]. intros channel c Hl. by exists c.
Qed.

Lemma inv_send σ o m s :
  relaxed (lk_next_channel s) m → Open_inv σ o s → Open_inv σ o (link_send m (urgent_message m) s).1.
Proof.
  intros Hm Hi. unfold link_send. destruct (lk_closed s) eqn:Ec; [done|]. intros _. specialize (Hi Ec).
  destruct Hi as [(σ' & Ha & Hcs) Hb]. unfold queue. destruct (urgent_message m) eqn:Eu.
  - destruct (queue_all [m] true s) as [s' outcome] eqn:E.
    assert (order_run [m] σ' = Some σ') as Hr.
    { simpl. rw relaxed_step //. by rw (ct_highest _ _ Hcs). }
    assert (Forall (λ m, urgent_message m = true) [m]) as Hall by (by constructor).
    pose proof (queue_urgent _ _ _ _ _ _ _ Ha Hall Hr E) as Hq. simpl.
    destruct outcome; [|subst; by split; [exists σ'|]]. destruct Hq as [Ha' Es]. split.
    + exists σ'. split; [done|]. rw Es. by destruct Hcs.
    + rw Es. done.
  - destruct (queue_all [m] false s) as [s' outcome] eqn:E.
    assert (Forall (λ m, urgent_message m = false) [m]) as Hall by (by constructor).
    pose proof (queue_lazy _ _ _ _ _ Hb Hall ltac:(by constructor) E) as Hq. simpl.
    destruct outcome; [|subst; by split; [exists σ'|]]. destruct Hq as [Hb' Es]. split; [|done].
    exists σ'. rw Es. split; [done|]. by destruct Hcs.
Qed.

Lemma inv_fail σ o error s : Open_inv σ o (link_fail error s).1.
Proof. unfold link_fail. destruct (lk_closed s) eqn:Ec; intros Hc; simpl in Hc; congruence. Qed.

Lemma inv_sink σ o channel last s : Open_inv σ o s → Open_inv σ o (link_sink channel last s).1.
Proof.
  intros Hi. unfold link_sink. destruct (lk_channels s !! channel) as [c|] eqn:Ec; [|done].
  apply inv_channels; [done| |done]. intros k c' [[<- <-]|[Hne Hl]]%lookup_insert_Some; [by exists c|by exists c'].
Qed.

Lemma sink_same channel last s :
  lk_next_channel (link_sink channel last s).1 = lk_next_channel s ∧ lk_closed (link_sink channel last s).1 = lk_closed s.
Proof. unfold link_sink. by destruct (lk_channels s !! channel). Qed.

Lemma closed_releases s : lk_closed (send_releases s).1 = lk_closed s.
Proof.
  unfold send_releases. generalize (lk_releases s) as releases. generalize false as sent. intros sent releases.
  revert sent s. induction releases as [|channel releases IH]; intros sent s; simpl; [by destruct (_ <? _)|].
  destruct (_ <? _); [|done]. assert (∀ op w s, lk_closed (state_send_request op w s).1 = lk_closed s) as Hsr.
  { intros op w s1. unfold state_send_request. by repeat case_match. }
  pose proof (Hsr (Op_Release channel) Waiter_Ignore (set_lk_releases releases s)) as E.
  destruct (state_send_request _ _ _) as [s1 outcome]. rw IH. exact E.
Qed.

Lemma inv_releases σ o s : Open_inv σ o s → Open_inv σ o (send_releases s).1.
Proof. intros Hi Hc. rw closed_releases in Hc. by apply LinkInv_releases, Hi. Qed.

(** What the I/O thread is left to do after a message: it sends only what may be sent. *)
Definition next_ok (highest : N) (next : Next) : Prop :=
  match next with Next_Send m => relaxed highest m ∧ urgent_message m = true | _ => True end.

Lemma inv_dispatch σ o message s :
  (∀ frame, message = Core_Frame frame → known (fr_channel frame) (lk_next_channel s) = true) →
  Open_inv σ o s →
  Open_inv σ o (dispatch_core message s).1.1 ∧
  next_ok (lk_next_channel (dispatch_core message s).1.1) (dispatch_core message s).2.
Proof.
  intros Hf Hi. destruct message as [reply|frame|am|pane|revision|facts|ping|pong|fatal]; simpl.
  - set (s1 := set_requests_sent _ _ _ s). assert (Open_inv σ o s1) as Hi1.
    { intros Hc. destruct (Hi Hc) as [(σ' & Ha & [Hh Hs]) Hb]. split; [|done]. by exists σ'. }
    apply inv_releases in Hi1. destruct (send_releases s1) as [s2 b]. by destruct (lk_requests s !! _).
  - pose proof (inv_sink σ o (fr_channel frame) false s Hi) as Hk.
    destruct (sink_same (fr_channel frame) false s) as [En _].
    destruct (link_sink _ _ s) as [s1 [sink|]]; simpl in *; [done|]. split; [done|]. split; [|done].
    simpl. rw En. by apply Hf.
  - pose proof (inv_sink σ o (am_channel am) false s Hi). by destruct (link_sink _ _ s).
  - pose proof (inv_sink σ o (pm_channel pane) (event_last (pm_event pane)) s Hi). by destruct (link_sink _ _ s).
  - split; [|done]. intros Hc. destruct (Hi Hc) as [(σ' & Ha & [Hh Hs]) Hb]. split; [|done]. by exists σ'.
  - split; [|done]. intros Hc. destruct (Hi Hc) as [(σ' & Ha & [Hh Hs]) Hb]. split; [|done]. by exists σ'.
  - done.
  - done.
  - done.
Qed.

Lemma inv_next σ o next s : next_ok (lk_next_channel s) next → Open_inv σ o s → Open_inv σ o (link_next next s).1.
Proof.
  intros Hn Hi. destruct next as [|m|error]; simpl; [done| |apply inv_fail].
  destruct Hn as [Hm Hu]. pose proof (inv_send σ o m s Hm Hi) as Hs. by rw Hu in Hs.
Qed.

Lemma inv_drop_channel σ o channel u s :
  Open_inv σ o s → Open_inv σ o (set_lk_channels (lk_next_channel s) u (delete channel (lk_channels s)) s).
Proof. apply inv_channels; [done|]. intros k c [Hne Hl]%lookup_delete_Some. by exists c. Qed.

Lemma inv_release σ o channel s : Open_inv σ o s → Open_inv σ o (link_release channel s).
Proof.
  intros Hi. unfold link_release. destruct (lk_channels s !! channel) as [dropped|]; [|done].
  apply (inv_drop_channel σ o channel (lk_unbound s)) in Hi. cbn zeta. destruct (_ || _); [done|].
  apply inv_releases. intros Hc. destruct (Hi Hc) as [(σ' & Ha & [Hh Hs]) Hb]. split; [|done]. by exists σ'.
Qed.

Lemma inv_drop σ o h s : Open_inv σ o s → Open_inv σ o (handle_drop h s).
Proof.
  intros Hi. unfold handle_drop. destruct (hd_channel h); [by apply inv_release|].
  apply inv_channels; [done| |done]. intros channel c Hl. by exists c.
Qed.

Lemma inv_detach σ o h s : Open_inv σ o s → Open_inv σ o (handle_detach h s).
Proof.
  intros Hi. unfold handle_detach. apply inv_drop. destruct (hd_channel h); [by apply inv_drop_channel|done].
Qed.

(** ** Channels *)

Lemma u32_checked_add_Some a b c : u32_checked_add a b = Some c → c = (a + b)%N ∧ (c <= u32_max)%N.
Proof. unfold u32_checked_add. destruct (N.leb_spec (a + b) u32_max); [|done]. by intros [= <-]. Qed.

Lemma inv_bind σ o operation waiter h s :
  (∀ channel, introduced (operation channel) = Some channel) → Open_inv σ o s →
  Open_inv σ o (bind operation waiter h s).1.1.
Proof.
  intros Hop Hi. unfold bind. destruct (lk_closed s) eqn:Ec; [done|]. destruct (hd_channel h); [done|].
  destruct (u32_checked_add _ 1) as [channel|] eqn:Ea; [|done]. apply u32_checked_add_Some in Ea as [Ech _].
  pose proof (LinkInv_releases _ _ _ (Hi Ec)) as Hr. pose proof (closed_releases s) as Ecl.
  assert (lk_next_channel (send_releases s).1 = lk_next_channel s) as En.
  { destruct (Hi Ec) as [(σ' & Ha & _) _]. by destruct (send_releases_ahead σ σ' s Ha) as [_ (En & _)]. }
  destruct (send_releases s) as [s1 b]. simpl in *. destruct Hr as [(σ' & Ha & [Hh Hs]) Hb].
  destruct (state_send_request (operation channel) waiter s1) as [s2 outcome] eqn:E.
  destruct (send_request_ahead _ _ _ _ _ _ _ Ha E) as [Es Ho]. destruct outcome as [id|error]; simpl; intros _.
  - assert (order_step (Client_Request {| rq_id := id; rq_operation := operation channel |}) σ' =
      Some {| or_highest := channel; or_serials := <[channel := 0%N]> (or_serials σ') |}) as Hstep.
    { simpl. rw Hop Hh En. by destruct (N.eqb_spec channel (lk_next_channel s + 1)). }
    apply Ho in Hstep. assert (lk_channels s2 = lk_channels s1 ∧ lk_l1 s2 = lk_l1 s1) as [Ec2 El2] by (by rw Es).
    split.
    + eexists. split; [exact Hstep|]. split; simpl; [done|]. rw Ec2.
      intros k c [[<- <-]|[Hne Hl]]%lookup_insert_Some.
      * rw lookup_insert_eq. split; [done|]. unfold known. rw andb_true_iff N.ltb_lt N.leb_le. lia.
      * destruct (Hs k c Hl) as [Hk1 Hk2]. rw lookup_insert_ne //. split; [done|]. eapply known_mono; [|exact Hk2]. lia.
    + destruct Hb as (q & framed & Hl & Hq & Hrel). exists q, framed. simpl. rw El2. split; [done|]. split; [done|].
      eapply Forall_impl; [exact Hrel|]. intros m. apply relaxed_mono. lia.
  - assert (same_but_requests s1 s2) as Hsame. { unfold same_but_requests. by rw Es. }
    split; [|by eapply Behind_same]. exists σ'. split; [done|]. by eapply Counts_same.
Qed.

(** What a builder of channel messages must give: at L0 the inputs that follow the last
    serial or messages that only name the channel, at L1 the latter. *)
Definition builds (urgent : bool) (build : Channel → N → result (list ClientMessage * N) LinkError) : Prop :=
  ∀ channel last messages serial, build channel last = Ok (messages, serial) →
    Forall (λ m, urgent_message m = urgent) messages ∧
    if urgent then
      ∀ σ, or_serials σ !! channel = Some last → known channel (or_highest σ) = true →
        order_run messages σ =
          Some {| or_highest := or_highest σ; or_serials := <[channel := serial]> (or_serials σ) |}
    else serial = last ∧ ∀ highest, known channel highest = true → Forall (relaxed highest) messages.

Lemma inv_send_channel σ o h urgent build s :
  builds urgent build → Open_inv σ o s → Open_inv σ o (send_channel h urgent build s).1.
Proof.
  intros Hbuild Hi. unfold send_channel. destruct (lk_closed s) eqn:Ec; [done|].
  destruct (hd_channel h) as [channel|]; [|done]. destruct (lk_channels s !! channel) as [c|] eqn:El; [|done].
  destruct (ch_ended c) eqn:Ee; [done|]. destruct (build channel (ch_serial c)) as [[messages serial]|] eqn:Eb; [|done].
  destruct (Hbuild _ _ _ _ Eb) as [Hu Hm]. destruct (Hi Ec) as [(σ' & Ha & [Hh Hs]) Hb].
  destruct (Hs channel c El) as [Hser Hk]. destruct (queue_all messages urgent s) as [s' outcome] eqn:E.
  destruct urgent.
  - rw -Hh in Hk. pose proof (queue_urgent _ _ _ _ _ _ _ Ha Hu (Hm σ' Hser Hk) E) as Hq.
    destruct outcome; simpl; [|subst; exact Hi]. destruct Hq as [Ha' Es]. intros _. split.
    + eexists. split; [exact Ha'|]. rw Es. split; simpl; [done|].
      intros k c' [[<- <-]|[Hne Hl]]%lookup_insert_Some; simpl.
      * rw lookup_insert_eq. by destruct (Hs _ _ El).
      * rw lookup_insert_ne //. by apply Hs.
    + by rw Es.
  - destruct Hm as [-> Hm]. pose proof (queue_lazy _ _ _ _ _ Hb Hu (Hm _ Hk) E) as Hq.
    destruct outcome; simpl; [|subst; exact Hi]. destruct Hq as [Hb' Es]. intros _. split; [|exact Hb'].
    exists σ'. rw Es. split; [done|]. split; simpl; [done|].
    intros k c' [[<- <-]|[Hne Hl]]%lookup_insert_Some; simpl; by apply Hs.
Qed.

Lemma builds_simple message urgent :
  (∀ channel, urgent_message (message channel) = urgent ∧ names_channel (message channel) = Some channel) →
  builds urgent (λ channel serial, Ok ([message channel], serial)).
Proof.
  intros Hm channel last messages serial [= <- <-]. destruct (Hm channel) as [Hu Hn].
  assert (∀ highest, known channel highest = true → relaxed highest (message channel)) as Hr.
  { intros highest Hk. destruct (message channel); simpl in *; try done; by injection Hn as ->. }
  split; [by constructor|]. destruct urgent.
  - intros σ Hs Hk. cbn [order_run]. rw relaxed_step; [by apply Hr|]. do 2 f_equal. destruct σ as [n m]. simpl in *.
    by rw insert_id.
  - split; [done|]. intros highest Hk. constructor; [by apply Hr|done].
Qed.

Lemma input_step channel serial last generation events σ :
  u32_checked_add last 1 = Some serial → or_serials σ !! channel = Some last →
  known channel (or_highest σ) = true →
  order_step (input_message channel serial generation events) σ =
    Some {| or_highest := or_highest σ; or_serials := <[channel := serial]> (or_serials σ) |}.
Proof.
  intros (-> & Hle)%u32_checked_add_Some Hs Hk. simpl. rw Hs Hk N.eqb_refl. simpl.
  by destruct (N.leb_spec (last + 1) u32_max); [|lia].
Qed.

Lemma builds_input generation events :
  builds true (λ channel last,
    let? serial := ok_or (u32_checked_add last 1) Link_OutOfBounds in
    Ok ([input_message channel serial generation events], serial)).
Proof.
  intros channel last messages serial. destruct (u32_checked_add last 1) as [next|] eqn:E; [|done].
  intros [= <- <-]. split; [by constructor|]. intros σ Hs Hk. cbn [order_run]. by rw (input_step _ _ last).
Qed.

Lemma builds_paste generation pieces :
  builds true (λ channel serial, paste_messages channel generation pieces serial).
Proof.
  intros channel last messages serial. revert last messages.
  induction pieces as [|piece pieces IH]; intros last messages; simpl.
  - intros [= <- <-]. split; [constructor|]. intros σ Hs _. cbn [order_run]. destruct σ as [n m]. simpl in *.
    by rw insert_id.
  - destruct (u32_checked_add last 1) as [next|] eqn:E; [|done]. simpl.
    destruct (paste_messages channel generation pieces next) as [[rest final]|] eqn:Ep; [|done]. simpl.
    intros [= <- <-]. destruct (IH next rest Ep) as [Hu Hr]. split; [by constructor|]. intros σ Hs Hk.
    cbn [order_run]. rw (input_step _ _ last) // Hr; simpl; [by rw lookup_insert_eq|done|].
    by rw insert_insert_eq.
Qed.
End Proofs.
