(* ===== verification/LinkTheorems.v ===== *)
(** * What a link writes, and a whole session

    The link with the handles of its channels and its I/O thread as one machine, calls from
    any thread in between. What it writes is read as whole messages in [ClientOrder]; so a
    server's connection never refuses it as breaking the protocol's order. *)
From stdpp Require Import fin_maps.
From S2P Require Import Prelude.
From S2P Require Import Text.
From S2P Require Import Facts.
From S2P Require Import HierarchyTypes.
From S2P Require Import DiskJournal.
From S2P Require Import Liveness.
From S2P Require Import Messages.
From S2P Require Import Wire.
From S2P Require Import WireTheorems.
From S2P Require Import Outbox.
From S2P Require Import OutboxTheorems.
From S2P Require Import Link.
From S2P Require Import Admission.
From S2P Require Import ClientOrder.
From S2P Require Import AdmissionTheorems.
From S2P Require Import LinkProofs.

Section Client.
Context `{P : Payloads}.
Context `{Postcard Request, Postcard Input, Postcard FrameAck, Postcard AccessibilityAck, Postcard View,
  Postcard EffectDone, Postcard Acknowledge, Postcard Cancel, Postcard Ping, Postcard Pong,
  Postcard Reply, Postcard Frame, Postcard AccessibilityMessage, Postcard PaneMessage,
  Postcard (InventoryRevision Inventory), Postcard UpdateFacts, Postcard Fatal}.
Implicit Types s : LinkState.

(** ** The machine *)

(** What the I/O thread still has to do between two locks. *)
Inductive Todo := Todo_Message (message : CoreMessage) | Todo_Next (next : Next) | Todo_Check (judged : Check).

(** A call of any thread, on the link or on a handle, or a step of the I/O thread. *)
Inductive ClientEvent :=
  | Ct_Request (operation : Operation) (waiter : Waiter)
  | Ct_Acknowledge (sequence : N)
  | Ct_Cancel (id : RequestId)
  | Ct_Fail (error : LinkError)
  | Ct_Open (handle sink : N)
  | Ct_Claim (handle : N) (attachment : Attachment) (pane : N) (claim : AttachmentClaim)
      (size : option PaneSize) (style : option PresentationStyle) (waiter : Waiter)
  | Ct_Observe (handle pane : N) (session : option N) (waiter : Waiter)
  | Ct_Input (handle generation : N) (events : list InputEvent)
  | Ct_Paste (handle generation : N) (text : ustring)
  | Ct_FrameAck (handle frame : N)
  | Ct_View (handle : N) (visible : bool) (max_hz : N)
  | Ct_EffectDone (handle generation effect : N) (completion : Completion)
  | Ct_AccessibilityAck (handle generation revision : N)
  | Ct_Drop (handle : N)
  | Ct_Detach (handle : N)
  | Ct_Write
  | Ct_Wrote (now : Instant) (progressed pending : bool)
  | Ct_Suspect (now : Instant)
  | Ct_Receive (frame : RawFrame) (now : Instant)
  | Ct_Judge (now : Instant)
  | Ct_Continue.

(** The link, its handles, the I/O thread, what was written and what was handed out. *)
Record Client := {
  cl_link : LinkState;
  cl_handles : gmap N ChannelHandle;
  cl_todo : option Todo;
  cl_sent : list (list byte);
  cl_outputs : list LinkOutput
}.
Definition client_new (now : Instant) : Client :=
  {| cl_link := link_new now; cl_handles := ∅; cl_todo := None; cl_sent := []; cl_outputs := [] |}.

Definition set_link s (c : Client) : Client :=
  {| cl_link := s; cl_handles := cl_handles c; cl_todo := cl_todo c; cl_sent := cl_sent c; cl_outputs := cl_outputs c |}.
Definition set_io s (todo : option Todo) (outputs : list LinkOutput) (c : Client) : Client :=
  {| cl_link := s; cl_handles := cl_handles c; cl_todo := todo; cl_sent := cl_sent c;
     cl_outputs := cl_outputs c ++ outputs |}.
Definition set_handles s (handles : gmap N ChannelHandle) (c : Client) : Client :=
  {| cl_link := s; cl_handles := handles; cl_todo := cl_todo c; cl_sent := cl_sent c; cl_outputs := cl_outputs c |}.

(** A call on a handle that still exists. *)
Definition on_handle (handle : N) (call : ChannelHandle → LinkState → LinkState) (c : Client) : Client :=
  match cl_handles c !! handle with
  | Some h => set_link (call h (cl_link c)) c
  | None => c
  end.
Definition on_bind (handle : N)
    (call : ChannelHandle → LinkState → LinkState * ChannelHandle * result RequestId LinkError) (c : Client) : Client :=
  match cl_handles c !! handle with
  | Some h => let '(s, h, _) := call h (cl_link c) in set_handles s (<[handle := h]> (cl_handles c)) c
  | None => c
  end.

Definition client_step (c : Client) (event : ClientEvent) : Client :=
  let s := cl_link c in
  match event with
  | Ct_Request operation waiter => set_link (link_request operation waiter s).1 c
  | Ct_Acknowledge sequence => set_link (link_acknowledge sequence s).1 c
  | Ct_Cancel id => set_link (link_cancel id s).1 c
  | Ct_Fail error => let '(s, outputs) := link_fail error s in set_io s (cl_todo c) outputs c
  | Ct_Open handle sink =>
      match open_channel sink s with
      | (s, Ok h) => set_handles s (<[handle := h]> (cl_handles c)) c
      | (s, Err _) => set_link s c
      end
  | Ct_Claim handle attachment pane claim size style waiter =>
      on_bind handle (handle_claim attachment pane claim size style waiter) c
  | Ct_Observe handle pane session waiter => on_bind handle (handle_observe pane session waiter) c
  | Ct_Input handle generation events => on_handle handle (λ h s, (handle_input h generation events s).1) c
  | Ct_Paste handle generation text => on_handle handle (λ h s, (handle_paste h generation text s).1) c
  | Ct_FrameAck handle frame => on_handle handle (λ h s, (handle_acknowledge h frame s).1) c
  | Ct_View handle visible max_hz => on_handle handle (λ h s, (handle_view h visible max_hz s).1) c
  | Ct_EffectDone handle generation effect completion =>
      on_handle handle (λ h s, (handle_effect_done h generation effect completion s).1) c
  | Ct_AccessibilityAck handle generation revision =>
      on_handle handle (λ h s, (acknowledge_accessibility h generation revision s).1) c
  | Ct_Drop handle =>
      match cl_handles c !! handle with
      | Some h => set_handles (handle_drop h s) (delete handle (cl_handles c)) c
      | None => c
      end
  | Ct_Detach handle =>
      match cl_handles c !! handle with
      | Some h => set_handles (handle_detach h s) (delete handle (cl_handles c)) c
      | None => c
      end
  | Ct_Write =>
      let '(s, frame) := link_next_frame s in
      {| cl_link := s; cl_handles := cl_handles c; cl_todo := cl_todo c;
         cl_sent := cl_sent c ++ option_list frame; cl_outputs := cl_outputs c |}
  | Ct_Wrote now progressed pending => set_link (link_wrote now progressed pending s) c
  | Ct_Suspect now => set_link (link_suspect now s).1 c
  | Ct_Receive frame now =>
      match cl_todo c, receive_frame frame now s with
      | None, (s, Ok (Ok (Some message))) => set_io s (Some (Todo_Message message)) [] c
      | None, (s, Ok (Err _)) => set_io s (Some (Todo_Next (Next_Fail Link_Violation))) [] c
      | None, (s, _) => set_io s None [] c
      | Some _, _ => c
      end
  | Ct_Judge now =>
      match cl_todo c with
      | None => let '(s, judged) := link_judge now s in set_io s (Todo_Check <$> judged) [] c
      | Some _ => c
      end
  | Ct_Continue =>
      match cl_todo c with
      | None => c
      | Some (Todo_Message message) =>
          let '(s, outputs, next) := dispatch_core message s in set_io s (Some (Todo_Next next)) outputs c
      | Some (Todo_Next next) => let '(s, outputs) := link_next next s in set_io s None outputs c
      | Some (Todo_Check judged) => let '(s, outputs, _) := link_answer judged s in set_io s None outputs c
      end
  end.

Definition client_run (now : Instant) (events : list ClientEvent) : Client :=
  foldl client_step (client_new now) events.

(** Channels are introduced only through handles, and the server sends frames only on
    channels the link has introduced. *)
Definition event_allowed (c : Client) (event : ClientEvent) : Prop :=
  match event with
  | Ct_Request operation _ => introduced operation = None
  | Ct_Continue =>
      match cl_todo c with
      | Some (Todo_Message (Core_Frame frame)) =>
          known (fr_channel frame) (lk_next_channel (cl_link c)) = true
      | _ => True
      end
  | _ => True
  end.
Fixpoint run_allowed (c : Client) (events : list ClientEvent) : Prop :=
  match events with
  | [] => True
  | event :: events => event_allowed c event ∧ run_allowed (client_step c event) events
  end.

(** ** Writing *)

Abbreviation Sent := (Delivers encode_client client_validate).

(** At most one message is partly written, one of L1. *)
Definition open_ok (o : list (Open (M := ClientMessage))) : Prop :=
  o = [] ∨ ∃ x, o = [x] ∧ op_rest x ≠ [] ∧ urgent_kind (op_kind x) = false.

Lemma open_ok_kind o k : open_ok o → urgent_kind k = true → (k ∉ map op_kind o).
Proof.
  intros [->|(x & -> & _ & Hx)] Hk; simpl; [apply not_elem_of_nil|]. rw list_elem_of_singleton. intros ->. congruence.
Qed.

Record Written (c : list (list byte)) (ms : list ClientMessage) o (σ : Order) : Prop := {
  wt_sent : Sent [] c ms o;
  wt_order : order_run ms order_new = Some σ;
  wt_open : open_ok o
}.

Lemma write_urgent sent ms o σ σ1 m f :
  Written sent ms o σ → client_frames m = Ok [f] → urgent_message m = true → order_step m σ = Some σ1 →
  Written (sent ++ [f]) (ms ++ [m]) o σ1.
Proof.
  intros [Hd Hr Ho] Hf Hu Hm. apply client_frames_encoded in Hf as (wm & He & Hfs & Hv & Hk). split; [| |done].
  - eapply Delivers_app; [exact Hd|]. eapply dv_whole; try done; [|constructor]. apply open_ok_kind; [done|congruence].
  - rw order_run_app Hr. cbn [order_run]. by rw Hm.
Qed.

(** The next frame of L1, when L0 is empty. *)
Lemma write_lazy sent ms o σ f l1 messages framed :
  Written sent ms o σ → concat (map op_rest o) ++ concat framed = f :: l1 → Forall2 framed_as messages framed →
  Forall (relaxed (or_highest σ)) (map op_message o ++ messages) →
  ∃ ms' o' messages' framed', Written (sent ++ [f]) ms' o' σ ∧ l1 = concat (map op_rest o') ++ concat framed' ∧
    Forall2 framed_as messages' framed' ∧ Forall (relaxed (or_highest σ)) (map op_message o' ++ messages').
Proof.
  intros [Hd Hr Ho] Hl Hq Hrel. destruct Ho as [->|(x & -> & Hx & Hk)].
  - simpl in Hl, Hrel. destruct Hq as [|m fs messages framed [Hf Hu] Hq]; [done|].
    destruct (client_frames_nonempty _ _ Hf) as (g & rest & ->). simpl in Hl. injection Hl as -> <-.
    apply Forall_cons in Hrel as [Hm Hrel]. apply client_frames_encoded in Hf as (wm & He & Hfs & Hv & Hkind).
    rw Hu in Hkind. assert (wm_kind wm ∉ map op_kind ([] : list (Open (M := ClientMessage)))) as Hn by apply not_elem_of_nil.
    destruct rest as [|g rest].
    + exists (ms ++ [m]), [], messages, framed. split; [|done]. split; [| |by left].
      * eapply Delivers_app; [exact Hd|]. eapply dv_whole; try done. constructor.
      * rw order_run_app Hr. cbn [order_run]. by rw relaxed_step.
    + set (x := {| op_kind := wm_kind wm; op_rest := g :: rest; op_message := m |}).
      exists (ms ++ []), [x], messages, framed. split; [|simpl; rw app_nil_r; split; [done|]; split; [done|]; by constructor]. split.
      * eapply Delivers_app; [exact Hd|]. eapply dv_start; try done. constructor.
      * by rw app_nil_r.
      * right. by exists x.
  - simpl in Hl, Hrel. rw app_nil_r in Hl. destruct x as [k xrest m]. simpl in *.
    destruct xrest as [|g rest]; [done|]. simpl in Hl. injection Hl as -> <-. apply Forall_cons in Hrel as [Hm Hrel].
    destruct rest as [|h rest].
    + exists (ms ++ [m]), [], messages, framed. split; [|done]. split; [| |by left].
      * eapply Delivers_app; [exact Hd|]. apply (dv_last _ _ k m f [] []). constructor.
      * rw order_run_app Hr. cbn [order_run]. by rw relaxed_step.
    + set (x := {| op_kind := k; op_rest := h :: rest; op_message := m |}).
      exists (ms ++ []), [x], messages, framed. split; [|simpl; rw app_nil_r; split; [done|]; split; [done|]; by constructor]. split.
      * eapply Delivers_app; [exact Hd|]. apply (dv_more _ _ k m f h rest [] []). constructor.
      * by rw app_nil_r.
      * right. by exists x.
Qed.

Lemma link_frame_written sent ms o σ s :
  Written sent ms o σ → Open_inv σ o s →
  ∃ ms' o' σ', Written (sent ++ option_list (link_next_frame s).2) ms' o' σ' ∧ Open_inv σ' o' (link_next_frame s).1.
Proof.
  intros Hw Hi. unfold link_next_frame. destruct (lk_closed s) eqn:Ec.
  { exists ms, o, σ. simpl. rw app_nil_r. split; [done|]. intros ?. congruence. }
  destruct (Hi Ec) as [(σ' & (q & Hq & Hrun) & Hc) (messages & framed & Hl1 & Hm & Hrel)].
  destruct (lk_l0 s) as [|queued l0] eqn:E0.
  - apply Forall2_nil_inv_l in Hq as ->. injection Hrun as <-.
    destruct (lk_l1 s) as [|f l1] eqn:E1; simpl.
    { rw app_nil_r. by exists ms, o, σ. }
    rw -(ct_highest _ _ Hc) in Hrel.
    destruct (write_lazy _ _ _ _ _ _ _ _ Hw (eq_sym Hl1) Hm Hrel) as (ms' & o' & messages' & framed' & Hw' & El & Hm' & Hrel').
    exists ms', o', σ. split; [done|]. intros _. split.
    + exists σ. split; [by exists []|]. by destruct Hc.
    + exists messages', framed'. simpl. by rw -(ct_highest _ _ Hc).
  - apply Forall2_cons_inv_l in Hq as (m & q' & [Hf Hu] & Hq' & ->). cbn [order_run] in Hrun.
    destruct (order_step m σ) as [σ1|] eqn:Em; [|done]. simpl.
    exists (ms ++ [m]), o, σ1. split; [by eapply write_urgent|]. intros _. split.
    + exists σ'. split; [by exists q'|]. by destruct Hc.
    + by exists messages, framed.
Qed.

(** ** The invariant of a run *)

Lemma channel_request operation waiter s :
  lk_next_channel (state_send_request operation waiter s).1 = lk_next_channel s.
Proof. unfold state_send_request. by repeat case_match. Qed.

Lemma channel_releases s : lk_next_channel (send_releases s).1 = lk_next_channel s.
Proof.
  unfold send_releases. generalize (lk_releases s) as releases. generalize false as sent. intros sent releases.
  revert sent s. induction releases as [|channel releases IH]; intros sent s; simpl; [by destruct (_ <? _)|].
  destruct (_ <? _); [|done]. pose proof (channel_request (Op_Release channel) Waiter_Ignore (set_lk_releases releases s)) as E.
  destruct (state_send_request _ _ _) as [s1 outcome]. rw IH. exact E.
Qed.

Lemma channel_queue messages urgent s : lk_next_channel (queue_all messages urgent s).1 = lk_next_channel s.
Proof. unfold queue_all. by repeat case_match. Qed.

Lemma channel_send message urgent s : lk_next_channel (link_send message urgent s).1 = lk_next_channel s.
Proof. unfold link_send, queue. case_match; [done|]. apply channel_queue. Qed.

Lemma channel_send_channel h urgent build s : lk_next_channel (send_channel h urgent build s).1 = lk_next_channel s.
Proof.
  unfold send_channel. repeat (case_match; try done); pose proof (channel_queue l urgent s) as Hq;
    match goal with E : queue_all _ _ _ = _ |- _ => rw E in Hq end; exact Hq.
Qed.

Lemma channel_fail error s : lk_next_channel (link_fail error s).1 = lk_next_channel s.
Proof. unfold link_fail. by case_match. Qed.

Lemma channel_drop h s : lk_next_channel (handle_drop h s) = lk_next_channel s.
Proof.
  unfold handle_drop, link_release. repeat case_match; try done; by rw channel_releases.
Qed.

Lemma channel_detach h s : lk_next_channel (handle_detach h s) = lk_next_channel s.
Proof. unfold handle_detach. rw channel_drop. by destruct (hd_channel h). Qed.

Lemma channel_bind operation waiter h s :
  (lk_next_channel s <= lk_next_channel (bind operation waiter h s).1.1)%N.
Proof.
  unfold bind. destruct (lk_closed s); [done|]. destruct (hd_channel h); [done|].
  destruct (u32_checked_add _ 1) as [channel|] eqn:Ea; [|done]. apply u32_checked_add_Some in Ea as [-> _].
  pose proof (channel_releases s) as Er. destruct (send_releases s) as [s1 b]. simpl in Er.
  pose proof (channel_request (operation (lk_next_channel s + 1)%N) waiter s1) as Eq.
  destruct (state_send_request _ waiter s1) as [s2 [id|e]]; simpl in *; lia.
Qed.

Lemma channel_dispatch message s : lk_next_channel (dispatch_core message s).1.1 = lk_next_channel s.
Proof.
  assert (∀ channel last, lk_next_channel (link_sink channel last s).1 = lk_next_channel s) as Hk
    by (intros; apply sink_same).
  destruct message as [reply|frame|am|pane|revision|facts|ping|pong|fatal]; simpl; try done.
  - pose proof (channel_releases (set_requests_sent (lk_next_id s) (delete (rp_id reply) (lk_requests s)) (lk_l0 s) s)).
    destruct (send_releases _) as [s1 b]. by case_match.
  - specialize (Hk (fr_channel frame) false). destruct (link_sink _ _ s) as [s1 [|]]; done.
  - specialize (Hk (am_channel am) false). by destruct (link_sink _ _ s).
  - specialize (Hk (pm_channel pane) (event_last (pm_event pane))). by destruct (link_sink _ _ s).
Qed.

(** Calls on a handle other than those that introduce a channel. *)
Lemma channel_simple h message urgent s : lk_next_channel (send_simple h message urgent s).1 = lk_next_channel s.
Proof.
  unfold send_simple. destruct (hd_channel h); [|done].
  pose proof (channel_send_channel h urgent (λ channel serial, Ok ([message channel], serial)) s) as E.
  by destruct (send_channel _ _ _ s).
Qed.

Lemma channel_handle handle call c :
  (∀ h s, lk_next_channel (call h s) = lk_next_channel s) →
  lk_next_channel (cl_link (on_handle handle call c)) = lk_next_channel (cl_link c).
Proof. intros Hc. unfold on_handle. destruct (cl_handles c !! handle); [apply Hc|done]. Qed.

Lemma channel_acc_ack h generation revision s :
  lk_next_channel (acknowledge_accessibility h generation revision s).1 = lk_next_channel s.
Proof.
  unfold acknowledge_accessibility. match goal with |- context [send_simple ?h ?m ?u ?s] =>
    pose proof (channel_simple h m u s) as E; destruct (send_simple h m u s) as [s1 r] end. by repeat case_match.
Qed.

Lemma channel_input h generation events s : lk_next_channel (handle_input h generation events s).1 = lk_next_channel s.
Proof. unfold handle_input. destruct (hd_channel h); [apply channel_send_channel|done]. Qed.

Lemma channel_paste h generation text s : lk_next_channel (handle_paste h generation text s).1 = lk_next_channel s.
Proof. unfold handle_paste. destruct (_ <? _)%N; [done|]. destruct (hd_channel h); [apply channel_send_channel|done]. Qed.

Lemma channel_step c event : (lk_next_channel (cl_link c) <= lk_next_channel (cl_link (client_step c event)))%N.
Proof.
  destruct event as [op w|q|id|e|h k|h a p cl sz st w|h p se w|h g ev|h g tx|h f|h v m|h g e co|h g r|h|h| |t pr pe|t|f t|t|]; simpl.
  - unfold link_request. destruct (lk_closed _); [done|]. pose proof (channel_releases (cl_link c)) as Er.
    destruct (send_releases _) as [s1 b]. simpl in *. by rw channel_request Er.
  - unfold link_acknowledge. by rw channel_send.
  - unfold link_cancel. by rw channel_send.
  - pose proof (channel_fail e (cl_link c)) as Ef. destruct (link_fail _ _). simpl in *. lia.
  - unfold open_channel. destruct (lk_closed _); [done|]. by destruct (_ <=? _).
  - unfold on_bind. destruct (cl_handles c !! h) as [hd|]; [|done].
    pose proof (channel_bind _ w hd (cl_link c) : (_ <= lk_next_channel (handle_claim a p cl sz st w hd (cl_link c)).1.1)%N).
    by destruct (handle_claim _ _ _ _ _ _ _ _) as [[s1 h1] r].
  - unfold on_bind. destruct (cl_handles c !! h) as [hd|]; [|done].
    pose proof (channel_bind _ w hd (cl_link c) : (_ <= lk_next_channel (handle_observe p se w hd (cl_link c)).1.1)%N).
    by destruct (handle_observe _ _ _ _ _) as [[s1 h1] r].
  - rw channel_handle; [|done]. intros. apply channel_input.
  - rw channel_handle; [|done]. intros. apply channel_paste.
  - rw channel_handle; [|done]. intros. apply channel_simple.
  - rw channel_handle; [|done]. intros. apply channel_simple.
  - rw channel_handle; [|done]. intros. apply channel_simple.
  - rw channel_handle; [|done]. intros. apply channel_acc_ack.
  - destruct (cl_handles c !! h); [simpl; by rw channel_drop|done].
  - destruct (cl_handles c !! h); [simpl; by rw channel_detach|done].
  - unfold link_next_frame. destruct (lk_closed _); [done|]. destruct (lk_l0 _); [by destruct (lk_l1 _)|done].
  - done.
  - unfold link_suspect. by destruct (suspect _ _).
  - unfold receive_frame. destruct (cl_todo c), (lk_closed (cl_link c)); try done;
      by destruct (assemble_core _ _) as [a [[m|]|e]].
  - destruct (cl_todo c); [done|]. unfold link_judge. destruct (lk_closed _); [done|]. by destruct (check _ _ _).
  - destruct (cl_todo c) as [[m|next|judged]|]; [| | |done].
    + pose proof (channel_dispatch m (cl_link c)) as Ed. destruct (dispatch_core _ _) as [[s1 outs] nx]. simpl in *. lia.
    + destruct next as [|m|e]; simpl; [done|by rw channel_send|].
      pose proof (channel_fail e (cl_link c)) as Ef. destruct (link_fail _ _). simpl in *. lia.
    + destruct judged as [nx|nonce nx|death]; simpl; [done| |].
      * pose proof (channel_send (Client_Ping {| pi_nonce := nonce |}) true (cl_link c)) as Es.
        destruct (link_send _ _ _). simpl in *. lia.
      * match goal with |- context [link_fail ?e ?s] => pose proof (channel_fail e s) as Ef end.
        destruct (link_fail _ _). simpl in *. lia.
Qed.

(** *** Every event keeps the order *)

Definition todo_ok (c : Client) : Prop :=
  match cl_todo c with
  | Some (Todo_Next next) => next_ok (lk_next_channel (cl_link c)) next
  | _ => True
  end.

Record ClientInv (c : Client) : Prop := {
  cv_order : ∃ ms o σ, Written (cl_sent c) ms o σ ∧ Open_inv σ o (cl_link c);
  cv_todo : todo_ok c
}.

Lemma next_ok_mono highest highest' next :
  (highest <= highest')%N → next_ok highest next → next_ok highest' next.
Proof. intros Hle. destruct next; simpl; [done| |done]. intros [Hr Hu]. split; [by eapply relaxed_mono|done]. Qed.

(** An event that changes only the link, in a way that keeps its invariant. *)
Lemma inv_only_link c s :
  (lk_next_channel (cl_link c) <= lk_next_channel s)%N →
  (∀ σ o, Open_inv σ o (cl_link c) → Open_inv σ o s) →
  ClientInv c → ∀ handles outputs,
  ClientInv {| cl_link := s; cl_handles := handles; cl_todo := cl_todo c; cl_sent := cl_sent c; cl_outputs := outputs |}.
Proof.
  intros Hle Hs [(ms & o & σ & Hw & Hi) Ht] handles outputs. split; [exists ms, o, σ; by auto|].
  unfold todo_ok in *. simpl. destruct (cl_todo c) as [[]|]; try done. by eapply next_ok_mono.
Qed.

(** An event of the I/O thread that leaves something to do. *)
Lemma inv_io c s todo :
  (∀ σ o, Open_inv σ o (cl_link c) → Open_inv σ o s) →
  match todo with Some (Todo_Next next) => next_ok (lk_next_channel s) next | _ => True end →
  ClientInv c → ∀ outputs, ClientInv (set_io s todo outputs c).
Proof.
  intros Hs Htodo [(ms & o & σ & Hw & Hi) Ht] outputs. split; [exists ms, o, σ; by auto|]. exact Htodo.
Qed.

Lemma inv_simple σ o h message urgent s :
  (∀ channel, urgent_message (message channel) = urgent ∧ names_channel (message channel) = Some channel) →
  Open_inv σ o s → Open_inv σ o (send_simple h message urgent s).1.
Proof.
  intros Hm Hi. unfold send_simple. destruct (hd_channel h); [|done].
  pose proof (inv_send_channel σ o h urgent _ s (builds_simple message urgent Hm) Hi) as Hs.
  by destruct (send_channel _ _ _ s).
Qed.

Lemma inv_accessibility σ o h generation revision s :
  Open_inv σ o s → Open_inv σ o (acknowledge_accessibility h generation revision s).1.
Proof.
  intros Hi. unfold acknowledge_accessibility. match goal with |- context [send_simple ?h ?m ?u ?s] =>
    pose proof (inv_simple σ o h m u s ltac:(done) Hi) as E; destruct (send_simple h m u s) as [s1 r] end.
  by repeat case_match.
Qed.

Lemma inv_handle c handle call :
  (∀ h s, lk_next_channel (call h s) = lk_next_channel s) →
  (∀ σ o h s, Open_inv σ o s → Open_inv σ o (call h s)) →
  ClientInv c → ClientInv (on_handle handle call c).
Proof.
  intros Hn Hc Hi. unfold on_handle. destruct (cl_handles c !! handle) as [h|]; [|done].
  apply (inv_only_link c); [by rw Hn|intros σ o; apply Hc|done].
Qed.

Lemma inv_handle_bind c handle operation waiter :
  (∀ channel, introduced (operation channel) = Some channel) →
  ClientInv c → ClientInv (on_bind handle (bind operation waiter) c).
Proof.
  intros Hop Hi. unfold on_bind. destruct (cl_handles c !! handle) as [h|]; [|done].
  pose proof (channel_bind operation waiter h (cl_link c)) as Hle.
  assert (∀ σ o, Open_inv σ o (cl_link c) → Open_inv σ o (bind operation waiter h (cl_link c)).1.1) as Hb
    by (intros σ o; by apply inv_bind).
  destruct (bind operation waiter h (cl_link c)) as [[s h'] r]. by apply (inv_only_link c).
Qed.

Lemma inv_io_fields σ o s assembler liveness inventory facts bytes :
  Open_inv σ o s →
  Open_inv σ o {| lk_next_id := lk_next_id s; lk_requests := lk_requests s; lk_next_channel := lk_next_channel s;
    lk_unbound := lk_unbound s; lk_channels := lk_channels s; lk_releases := lk_releases s; lk_l0 := lk_l0 s;
    lk_l0_bytes := lk_l0_bytes s; lk_l1 := lk_l1 s; lk_assembler := assembler; lk_liveness := liveness;
    lk_closed := lk_closed s; lk_inventory := inventory; lk_update_facts := facts; lk_received_bytes := bytes |}.
Proof. intros Hi Hc. destruct (Hi Hc) as [(σ' & Ha & [Hh Hs]) Hb]. split; [|done]. by exists σ'. Qed.

Lemma inv_step c event : event_allowed c event → ClientInv c → ClientInv (client_step c event).
Proof.
  intros Hal Hi. pose proof (channel_step c event) as Hn.
  destruct event as [op w|q|id|e|h k|h a p cl sz st w|h p se w|h g ev|h g tx|h f|h v m|h g e co|h g r|h|h| |t pr pe|t|f t|t|].
  - apply (inv_only_link c); [exact Hn|intros σ o; by apply inv_request|done].
  - apply (inv_only_link c); [exact Hn|intros σ o; by apply (inv_send σ o (Client_Acknowledge _))|done].
  - apply (inv_only_link c); [exact Hn|intros σ o; by apply (inv_send σ o (Client_Cancel _))|done].
  - simpl in *. assert (∀ σ o, Open_inv σ o (link_fail e (cl_link c)).1) as Hf by (intros; apply inv_fail).
    destruct (link_fail e (cl_link c)) as [s outs]. apply (inv_only_link c); [exact Hn|intros; apply Hf|done].
  - simpl in *. assert (∀ σ o, Open_inv σ o (cl_link c) → Open_inv σ o (open_channel k (cl_link c)).1) as Hf
      by (intros σ o; apply inv_open_channel).
    destruct (open_channel k (cl_link c)) as [s [hd|]]; by apply (inv_only_link c).
  - by apply inv_handle_bind.
  - by apply inv_handle_bind.
  - apply inv_handle; [intros; apply channel_input| |done]. intros σ o hd s Hs. unfold handle_input.
    destruct (hd_channel hd); [|done]. apply inv_send_channel; [apply builds_input|done].
  - apply inv_handle; [intros; apply channel_paste| |done]. intros σ o hd s Hs. unfold handle_paste.
    destruct (_ <? _)%N; [done|]. destruct (hd_channel hd); [|done]. apply inv_send_channel; [apply builds_paste|done].
  - apply inv_handle; [intros; apply channel_simple|intros; by apply inv_simple|done].
  - apply inv_handle; [intros; apply channel_simple|intros; by apply inv_simple|done].
  - apply inv_handle; [intros; apply channel_simple|intros; by apply inv_simple|done].
  - apply inv_handle; [intros; apply channel_acc_ack|intros; by apply inv_accessibility|done].
  - simpl in *. destruct (cl_handles c !! h); [|done]. apply (inv_only_link c); [exact Hn|intros; by apply inv_drop|done].
  - simpl in *. destruct (cl_handles c !! h); [|done]. apply (inv_only_link c); [exact Hn|intros; by apply inv_detach|done].
  - destruct Hi as [(ms & o & σ & Hw & Hi) Ht]. simpl in *.
    destruct (link_frame_written _ _ _ _ _ Hw Hi) as (ms' & o' & σ' & Hw' & Hi').
    destruct (link_next_frame (cl_link c)) as [s f]. simpl in *. split; [by exists ms', o', σ'|].
    unfold todo_ok in *. simpl. destruct (cl_todo c) as [[]|]; try done. by eapply next_ok_mono.
  - apply (inv_only_link c); [exact Hn|intros σ o; apply inv_io_fields|done].
  - simpl in *. unfold link_suspect in *. destruct (suspect t _) as [l b].
    apply (inv_only_link c); [exact Hn|intros σ o; apply inv_io_fields|done].
  - simpl in *. clear Hn. unfold receive_frame. destruct (cl_todo c) eqn:Et; [done|].
    destruct (lk_closed (cl_link c)) eqn:Ec; [by apply inv_io|].
    destruct (assemble_core f _) as [a [[m|]|e]]; apply inv_io; try done; intros σ o Ho _;
      destruct (Ho Ec) as [(σ' & Ha & [Hh Hs]) Hb]; (split; [|done]); by exists σ'.
  - simpl in *. clear Hn. destruct (cl_todo c) eqn:Et; [done|]. unfold link_judge.
    destruct (lk_closed (cl_link c)); [by apply inv_io|]. destruct (check t None _) as [l judged].
    apply inv_io; [intros σ o Ho; by apply inv_io_fields|done|done].
  - simpl in *. clear Hn. pose proof (cv_todo _ Hi) as Ht. unfold todo_ok in Ht.
    destruct (cl_todo c) as [[m|next|judged]|] eqn:Et; [| | |done].
    + assert (∀ frame, m = Core_Frame frame → known (fr_channel frame) (lk_next_channel (cl_link c)) = true) as Hf
        by (intros frame ->; exact Hal).
      assert (∀ σ o, Open_inv σ o (cl_link c) → Open_inv σ o (dispatch_core m (cl_link c)).1.1) as Hd
        by (intros σ o Ho; by apply (inv_dispatch σ o m _ Hf Ho)).
      assert (next_ok (lk_next_channel (dispatch_core m (cl_link c)).1.1) (dispatch_core m (cl_link c)).2) as Hnx.
      { destruct Hi as [(ms & o & σ & Hw & Ho) _]. by apply (inv_dispatch σ o m _ Hf Ho). }
      destruct (dispatch_core m (cl_link c)) as [[s outs] nx]. by apply inv_io.
    + assert (∀ σ o, Open_inv σ o (cl_link c) → Open_inv σ o (link_next next (cl_link c)).1) as Hd
        by (intros σ o Ho; by apply inv_next).
      destruct (link_next next (cl_link c)) as [s outs]. by apply inv_io.
    + assert (∀ σ o, Open_inv σ o (cl_link c) → Open_inv σ o (link_answer judged (cl_link c)).1.1) as Hd.
      { intros σ o Ho. destruct judged as [nx|nonce nx|death]; simpl; [done| |].
        - pose proof (inv_send σ o (Client_Ping {| pi_nonce := nonce |}) _ I Ho) as Hs. simpl in Hs.
          by destruct (link_send _ true _).
        - match goal with |- context [link_fail ?e ?s] => pose proof (inv_fail σ o e s); by destruct (link_fail e s) end. }
      destruct (link_answer judged (cl_link c)) as [[s outs] nx]. by apply inv_io.
Qed.

Lemma client_inv c events : run_allowed c events → ClientInv c → ClientInv (foldl client_step c events).
Proof.
  revert c. induction events as [|event events IH]; intros c; simpl; [done|]. intros [Ha Hr] Hi.
  apply IH; [done|]. by apply inv_step.
Qed.

Lemma client_inv_run now events : run_allowed (client_new now) events → ClientInv (client_run now events).
Proof.
  intros Ha. apply client_inv; [done|]. split; [|done]. exists [], [], order_new. split.
  - split; [constructor|done|by left].
  - intros _. split.
    + exists order_new. split; [by exists []|]. split; [done|]. intros channel c. by rw lookup_empty.
    + by exists [], [].
Qed.

Context `{!PostcardLaw Request, !PostcardLaw Input, !PostcardLaw FrameAck, !PostcardLaw AccessibilityAck,
  !PostcardLaw View, !PostcardLaw EffectDone, !PostcardLaw Acknowledge, !PostcardLaw Cancel,
  !PostcardLaw Ping, !PostcardLaw Pong}.

(** C32. Whatever calls reach a client's link, in whatever order with its I/O thread, and
    however the bytes it writes are segmented, the server reads whole valid messages in
    the order [ClientOrder]: channels introduced from 1 upwards, each channel's inputs
    numbered 1, 2, 3 and so on, pastes included, and no message on a channel before the
    one that introduces it. *)
Theorem link_writes_in_order now events segments :
  run_allowed (client_new now) events →
  concat segments = concat (cl_sent (client_run now events)) →
  ∃ r a ms σ, receive_all true decode_client client_validate segments reader_default [] = (r, a, Ok ms) ∧
    partial r = false ∧ order_run ms order_new = Some σ.
Proof.
  intros Ha Hseg. destruct (client_inv_run now events Ha) as [(ms & o & σ & [Hd Hr Ho] & _) _].
  destruct (stream_delivered true encode_client decode_client client_validate encode_client_decodes
    _ _ _ segments Hd Hseg) as (r & a & Hrecv & Hp & _).
  by exists r, a, ms, σ.
Qed.
End Client.
