(* ===== verification/LinkRequests.v ===== *)
(** * A link's requests and pastes

    Every request a link accepts has an id of its own, is answered once and only once, at
    the latest when the link closes; and a paste is cut into pieces that are within the
    protocol's bound and join to the text. *)
From stdpp Require Import fin_maps fin_map_dom.
From S2P Require Import Prelude.
From S2P Require Import Text.
From S2P Require Import Facts.
From S2P Require Import HierarchyTypes.
From S2P Require Import DiskJournal.
From S2P Require Import Liveness.
From S2P Require Import Messages.
From S2P Require Import Wire.
From S2P Require Import WireTheorems.
From S2P Require Import Outbox.
From S2P Require Import Link.
From S2P Require Import Admission.
From S2P Require Import ClientOrder.
From S2P Require Import LinkProofs.
From S2P Require Import LinkTheorems.

(** ** The loop that finds an id *)

Definition nth_id (next_id : N) (k : nat) : N := ((next_id + N.of_nat k) mod 4294967296)%N.

Lemma nth_id_succ next_id k : nth_id (u32_wrapping_add next_id 1) k = nth_id next_id (S k).
Proof.
  unfold nth_id, u32_wrapping_add. rw N.Div0.add_mod_idemp_l. f_equal. lia.
Qed.

Lemma free_id_used fuel : ∀ requests next_id,
  free_id fuel requests next_id = None → ∀ k, k ≤ fuel → is_Some (requests !! nth_id next_id (S k)).
Proof.
  induction fuel as [|fuel IH]; intros requests next_id; simpl; destruct (requests !! u32_wrapping_add next_id 1) eqn:E;
    try done; intros Hf k Hk; destruct k as [|k]; try lia; try (rw -nth_id_succ; apply IH; [done|lia]).
  - exists w. exact E.
  - exists w. exact E.
Qed.

Lemma free_id_free fuel : ∀ requests next_id id, free_id fuel requests next_id = Some id → requests !! id = None.
Proof.
  induction fuel as [|fuel IH]; intros requests next_id id; simpl; case_match; try done; try by intros [= <-].
  apply IH.
Qed.

Lemma nth_id_inj next_id i j :
  (N.of_nat i < 4294967296)%N → (N.of_nat j < 4294967296)%N → nth_id next_id i = nth_id next_id j → i = j.
Proof.
  intros Hi Hj E. unfold nth_id in E.
  pose proof (N.mod_upper_bound (next_id + N.of_nat i) 4294967296 ltac:(lia)).
  pose proof (N.div_mod (next_id + N.of_nat i) 4294967296 ltac:(lia)) as E1.
  pose proof (N.div_mod (next_id + N.of_nat j) 4294967296 ltac:(lia)) as E2.
  rw E in E1. nia.
Qed.

(** The loop of [State::send_request] ends: among as many ids as there are requests in
    flight and one more, one is free. *)
Lemma free_id_found requests next_id :
  (N.of_nat (size requests) < 4294967295)%N →
  ∃ id, free_id (size requests) requests next_id = Some id ∧ requests !! id = None.
Proof.
  intros Hs. destruct (free_id (size requests) requests next_id) as [id|] eqn:E.
  { exists id. split; [done|]. by eapply free_id_free. }
  pose proof (free_id_used _ _ _ E) as Hused.
  set (ids := nth_id next_id <$> seq 1 (S (size requests))).
  assert (NoDup ids) as Hnd.
  { apply NoDup_fmap_2_strong; [|apply NoDup_seq]. intros i j Hi Hj. rw !elem_of_seq in Hi Hj.
    apply nth_id_inj; lia. }
  assert (list_to_set ids ⊆ dom requests) as Hsub.
  { intros id. rw elem_of_list_to_set list_elem_of_fmap. intros (k & -> & Hk). rw elem_of_seq in Hk.
    apply elem_of_dom. destruct k as [|k]; [lia|]. apply Hused. lia. }
  apply subseteq_size in Hsub. rw size_list_to_set // size_dom length_fmap length_seq in Hsub. lia.
Qed.

Section Requests.
Context `{P : Payloads}.
Context `{Postcard Request, Postcard Input, Postcard FrameAck, Postcard AccessibilityAck, Postcard View,
  Postcard EffectDone, Postcard Acknowledge, Postcard Cancel, Postcard Ping, Postcard Pong,
  Postcard Reply, Postcard Frame, Postcard AccessibilityMessage, Postcard PaneMessage,
  Postcard (InventoryRevision Inventory), Postcard UpdateFacts, Postcard Fatal}.
Implicit Types s : LinkState.

(** ** Who waits, and who was answered *)

#[local] Instance waiter_eq_dec : EqDecision Waiter.
Proof. solve_decision. Defined.

Definition occurrences (w : Waiter) (ws : list Waiter) : nat := length (filter (eq w) ws).
Definition waiting s : list Waiter := (map_to_list (lk_requests s)).*2.
Definition completions (outputs : list LinkOutput) : list Waiter :=
  omap (λ output, match output with Completed waiter _ => Some waiter | _ => None end) outputs.

Lemma occurrences_nil w : occurrences w [] = 0.
Proof. done. Qed.

Lemma occurrences_app w ws ws' : occurrences w (ws ++ ws') = occurrences w ws + occurrences w ws'.
Proof. unfold occurrences. by rw filter_app length_app. Qed.

Lemma occurrences_cons w v ws : occurrences w (v :: ws) = occurrences w [v] + occurrences w ws.
Proof. apply (occurrences_app w [v]). Qed.

Lemma occurrences_perm w ws ws' : ws ≡ₚ ws' → occurrences w ws = occurrences w ws'.
Proof. unfold occurrences. by intros ->. Qed.

(** What a step keeps: each waiter other than the callback of a release is accounted for,
    and a closed link neither waits for a reply nor has one to ask for. *)
Definition Kept (w : Waiter) s (accepted : nat) s' (outputs : list LinkOutput) : Prop :=
  accepted + occurrences w (waiting s) = occurrences w (waiting s') + occurrences w (completions outputs).
Definition closed_idle s : Prop := lk_closed s ≠ None → lk_requests s = ∅ ∧ lk_releases s = [].

Lemma kept_same w s s' outputs :
  lk_requests s' = lk_requests s → completions outputs = [] → Kept w s 0 s' outputs.
Proof. intros E Ho. unfold Kept, waiting. rw E Ho. unfold occurrences at 3. simpl. lia. Qed.

(** The links that differ in nothing a request depends on. *)
Definition same_requests s s' : Prop :=
  lk_requests s' = lk_requests s ∧ lk_releases s' = lk_releases s ∧ lk_closed s' = lk_closed s.

Lemma same_idle s s' : same_requests s s' → closed_idle s → closed_idle s'.
Proof. intros (E1 & E2 & E3) Hi. unfold closed_idle. by rw E1 E2 E3. Qed.

Lemma request_kept w operation waiter s :
  let '(s', outcome) := state_send_request operation waiter s in
  Kept w s (match outcome with Ok _ => occurrences w [waiter] | Err _ => 0 end) s' [] ∧
  lk_releases s' = lk_releases s ∧ lk_closed s' = lk_closed s.
Proof.
  unfold state_send_request. destruct (_ <=? _); [split; [by apply kept_same|done]|].
  destruct (free_id _ _ _) as [id|] eqn:E; [|split; [by apply kept_same|done]].
  destruct (client_frames _); [|split; [by apply kept_same|done]].
  split; [|done]. unfold Kept, waiting. simpl. apply free_id_free in E.
  rw (occurrences_perm _ _ _ (fmap_Permutation snd _ _ (map_to_list_insert _ _ _ E))).
  pose proof (occurrences_cons w waiter (map_to_list (lk_requests s)).*2) as Ec. simpl in *. unfold fmap in *.
  rw Ec. change (occurrences w []) with 0. lia.
Qed.

Lemma releases_kept w releases : w ≠ Waiter_Ignore → ∀ sent s,
  lk_releases s = releases → lk_closed s = None →
  let s' := (send_releases_loop releases sent s).1 in Kept w s 0 s' [] ∧ lk_closed s' = None.
Proof.
  intros Hw. induction releases as [|channel releases IH]; intros sent s Hr Hc; simpl.
  - destruct (_ <? _); by split; [apply kept_same|].
  - destruct (_ <? _); [|by split; [apply kept_same|]].
    pose proof (request_kept w (Op_Release channel) Waiter_Ignore (set_lk_releases releases s)) as Hk.
    destruct (state_send_request _ _ _) as [s1 outcome]. destruct Hk as (Hk & Hr1 & Hc1).
    destruct (IH (sent || is_ok outcome) s1 Hr1) as [Hk2 Hc2]; [by rw Hc1|]. split; [|done].
    assert (occurrences w [Waiter_Ignore] = 0) as E0 by by (unfold occurrences; rw filter_cons_False).
    pose proof (occurrences_nil w). unfold Kept, waiting in *. simpl in *. rw E0 in Hk. destruct outcome; lia.
Qed.

Lemma send_releases_kept w s :
  w ≠ Waiter_Ignore → lk_closed s = None →
  Kept w s 0 (send_releases s).1 [] ∧ lk_closed (send_releases s).1 = None.
Proof. intros Hw Hc. by apply releases_kept. Qed.

(** Requests that follow the releases. *)
Lemma released_kept w s n s' outputs :
  w ≠ Waiter_Ignore → lk_closed s = None → Kept w (send_releases s).1 n s' outputs → Kept w s n s' outputs.
Proof.
  intros Hw Hc Hk. destruct (send_releases_kept w s Hw Hc) as [H1' _]. unfold Kept in *.
  change (occurrences w (completions [])) with 0 in H1'. lia.
Qed.

Lemma open_idle s : lk_closed s = None → closed_idle s.
Proof. intros Hc ?. congruence. Qed.

Lemma queue_all_same messages urgent s : same_requests s (queue_all messages urgent s).1.
Proof. unfold queue_all. by repeat case_match. Qed.

Lemma send_same message urgent s : same_requests s (link_send message urgent s).1.
Proof. unfold link_send, queue. case_match; [done|]. apply queue_all_same. Qed.

Lemma send_channel_same h urgent build s : same_requests s (send_channel h urgent build s).1.
Proof.
  unfold send_channel. repeat (case_match; try done); pose proof (queue_all_same l urgent s) as Hq;
    match goal with E : queue_all _ _ _ = _ |- _ => rw E in Hq end; exact Hq.
Qed.

Lemma send_simple_same h message urgent s : same_requests s (send_simple h message urgent s).1.
Proof.
  unfold send_simple. destruct (hd_channel h); [|done].
  pose proof (send_channel_same h urgent (λ channel serial, Ok ([message channel], serial)) s) as E.
  by destruct (send_channel _ _ _ s).
Qed.

Lemma accessibility_same h generation revision s :
  same_requests s (acknowledge_accessibility h generation revision s).1.
Proof.
  unfold acknowledge_accessibility. match goal with |- context [send_simple ?h ?m ?u ?s] =>
    pose proof (send_simple_same h m u s) as E; destruct (send_simple h m u s) as [s1 r] end. by repeat case_match.
Qed.

Lemma input_same h generation events s : same_requests s (handle_input h generation events s).1.
Proof. unfold handle_input. destruct (hd_channel h); [apply send_channel_same|done]. Qed.

Lemma paste_same h generation text s : same_requests s (handle_paste h generation text s).1.
Proof. unfold handle_paste. destruct (_ <? _)%N; [done|]. destruct (hd_channel h); [apply send_channel_same|done]. Qed.

Lemma link_sink_same channel last s : same_requests s (link_sink channel last s).1.
Proof. unfold link_sink. by case_match. Qed.

(** A failing link answers everyone who waits. *)
Lemma fail_kept w error s :
  closed_idle s → Kept w s 0 (link_fail error s).1 (link_fail error s).2 ∧ closed_idle (link_fail error s).1.
Proof.
  intros Hi. unfold link_fail. destruct (lk_closed s) eqn:Ec; [split; [by apply kept_same|done]|]. split; [|done].
  unfold Kept, waiting. simpl. rw map_to_list_empty.
  assert (∀ ws rest, (∀ o, o ∈ rest → match o with Completed _ _ => False | _ => True end) →
    completions (map (λ waiter, Completed waiter (Err (Request_Link error))) ws ++ rest) = ws) as Hws.
  { intros ws rest Hrest. induction ws as [|v ws IH]; simpl; [|by rw IH].
    induction rest as [|o rest IH]; simpl; [done|].
    pose proof (Hrest o ltac:(by left)). destruct o; [done| |]; apply IH; intros; apply Hrest; by right. }
  rw Hws; [|done]. intros o. rw elem_of_app list_elem_of_singleton. intros [Ho| ->]; [|done].
  apply list_elem_of_fmap in Ho as (x & -> & _). done.
Qed.

Lemma same_kept w s s' outputs :
  same_requests s s' → completions outputs = [] → closed_idle s → Kept w s 0 s' outputs ∧ closed_idle s'.
Proof. intros Hs Ho Hi. split; [by apply kept_same; [apply Hs|]|by eapply same_idle]. Qed.

Lemma drop_kept w h s :
  w ≠ Waiter_Ignore → closed_idle s → Kept w s 0 (handle_drop h s) [] ∧ closed_idle (handle_drop h s).
Proof.
  intros Hw Hi. unfold handle_drop. destruct (hd_channel h) as [channel|]; [|by apply same_kept].
  unfold link_release. destruct (lk_channels s !! channel) as [c|]; [|by apply same_kept].
  cbn zeta. simpl. destruct (lk_closed s) as [error|] eqn:Ec; [rw orb_true_r; by apply same_kept|]. rw orb_false_r. destruct (ch_ended c); [by apply same_kept|].
  match goal with |- context [send_releases ?s1] => destruct (send_releases_kept w s1 Hw Ec) as [Hk Hc] end.
  split; [done|]. by apply open_idle.
Qed.

Lemma detach_kept w h s :
  w ≠ Waiter_Ignore → closed_idle s → Kept w s 0 (handle_detach h s) [] ∧ closed_idle (handle_detach h s).
Proof.
  intros Hw Hi. unfold handle_detach. destruct (hd_channel h); [|by apply drop_kept].
  match goal with |- context [handle_drop h ?s1] => destruct (drop_kept w h s1 Hw) as [Hk Hc] end; [done|by split].
Qed.

(** The waiter of an accepted request. *)
Definition accepted_by {A B} (waiter : Waiter) (outcome : result A B) : list Waiter :=
  match outcome with Ok _ => [waiter] | Err _ => [] end.

Lemma send_request_kept w operation waiter s :
  w ≠ Waiter_Ignore → closed_idle s →
  let '(s', outcome) := link_request operation waiter s in
  Kept w s (occurrences w (accepted_by waiter outcome)) s' [] ∧ closed_idle s'.
Proof.
  intros Hw Hi. unfold link_request. destruct (lk_closed s) eqn:Ec; [split; [by apply kept_same|done]|].
  pose proof (released_kept w s) as Hr. destruct (send_releases_kept w s Hw Ec) as [_ Hc].
  destruct (send_releases s) as [s1 b]. pose proof (request_kept w operation waiter s1) as Hk.
  destruct (state_send_request _ _ _) as [s2 outcome]. destruct Hk as (Hk & _ & Hc2).
  split; [apply Hr; try done; by destruct outcome|]. apply open_idle. by rw Hc2.
Qed.

Lemma bind_kept w operation waiter h s :
  w ≠ Waiter_Ignore → closed_idle s →
  let '(s', _, outcome) := bind operation waiter h s in
  Kept w s (occurrences w (accepted_by waiter outcome)) s' [] ∧ closed_idle s'.
Proof.
  intros Hw Hi. unfold bind. destruct (lk_closed s) eqn:Ec; [split; [by apply kept_same|done]|].
  destruct (hd_channel h); [split; [by apply kept_same|done]|].
  destruct (u32_checked_add _ 1) as [channel|]; [|split; [by apply kept_same|done]].
  pose proof (released_kept w s) as Hr. destruct (send_releases_kept w s Hw Ec) as [_ Hc].
  destruct (send_releases s) as [s1 b]. pose proof (request_kept w (operation channel) waiter s1) as Hk.
  destruct (state_send_request _ _ _) as [s2 [id|e]]; destruct Hk as (Hk & _ & Hc2); simpl in Hc.
  - split; [by apply Hr|]. apply open_idle. simpl. by rw Hc2.
  - split; [by apply Hr|]. apply open_idle. by rw Hc2.
Qed.

Lemma reply_kept w reply s :
  w ≠ Waiter_Ignore → closed_idle s →
  let '(s', outputs, _) := dispatch_core (Core_Reply reply) s in Kept w s 0 s' outputs ∧ closed_idle s'.
Proof.
  intros Hw Hi. simpl. set (s1 := set_requests_sent _ _ _ s).
  assert (Kept w s1 0 (send_releases s1).1 [] ∧ closed_idle (send_releases s1).1) as [Hk Hc].
  { destruct (lk_closed s) eqn:Ec.
    - assert (lk_requests s1 = ∅ ∧ lk_releases s1 = []) as [E1 E2].
      { destruct Hi as [Er El]; [by rw Ec|]. simpl. by rw Er delete_empty. }
      unfold send_releases. rw E2. cbn [send_releases_loop]. destruct (_ <? _); (split; [by apply kept_same|by intros _]).
    - destruct (send_releases_kept w s1 Hw Ec) as [Hk Hc]. split; [done|]. by apply open_idle. }
  destruct (send_releases s1) as [s2 b]. simpl in Hk, Hc.
  assert (∀ v, lk_requests s !! rp_id reply = Some v →
    occurrences w (waiting s) = occurrences w [v] + occurrences w (waiting s1)) as Hd.
  { intros v Hv. pose proof (map_to_list_delete (lk_requests s) (rp_id reply) v Hv) as Hp.
    apply (fmap_Permutation snd) in Hp. simpl in Hp. unfold waiting, fmap in *. rw -(occurrences_perm _ _ _ Hp).
    apply occurrences_cons. }
  destruct (lk_requests s !! rp_id reply) as [v|] eqn:Ev.
  - split; [|done]. specialize (Hd v eq_refl). unfold Kept in *. simpl in *.
    rw (occurrences_nil w) in Hk. lia.
  - split; [|done]. unfold Kept, waiting in *. simpl in *. by rw delete_id in Hk.
Qed.

Lemma dispatch_kept w message s :
  w ≠ Waiter_Ignore → closed_idle s →
  let '(s', outputs, _) := dispatch_core message s in Kept w s 0 s' outputs ∧ closed_idle s'.
Proof.
  intros Hw Hi. destruct message as [reply|frame|am|pane|revision|facts|ping|pong|fatal];
    try (by apply same_kept); [by apply reply_kept|..]; simpl.
  - pose proof (link_sink_same (fr_channel frame) false s). destruct (link_sink _ _ s) as [s1 [|]]; by apply same_kept.
  - pose proof (link_sink_same (am_channel am) false s). destruct (link_sink _ _ s) as [s1 [|]]; by apply same_kept.
  - pose proof (link_sink_same (pm_channel pane) (event_last (pm_event pane)) s).
    destruct (link_sink _ _ s) as [s1 [|]]; by apply same_kept.
Qed.

(** ** Along every run *)

(** The waiter whose request an event adds. *)
Definition accepts (c : Client) (event : ClientEvent) : list Waiter :=
  match event with
  | Ct_Request operation waiter => accepted_by waiter (link_request operation waiter (cl_link c)).2
  | Ct_Claim handle attachment pane claim size style waiter =>
      match cl_handles c !! handle with
      | Some h => accepted_by waiter (handle_claim attachment pane claim size style waiter h (cl_link c)).2
      | None => []
      end
  | Ct_Observe handle pane session waiter =>
      match cl_handles c !! handle with
      | Some h => accepted_by waiter (handle_observe pane session waiter h (cl_link c)).2
      | None => []
      end
  | _ => []
  end.
Fixpoint accepted (c : Client) (events : list ClientEvent) : list Waiter :=
  match events with
  | [] => []
  | event :: events => accepts c event ++ accepted (client_step c event) events
  end.

(** One event, with what it hands out. *)
Definition Step_kept (w : Waiter) (c : Client) (added : list Waiter) (c' : Client) : Prop :=
  ∃ outputs, cl_outputs c' = cl_outputs c ++ outputs ∧
    Kept w (cl_link c) (occurrences w added) (cl_link c') outputs ∧ closed_idle (cl_link c').

Lemma step_only_link w c s handles added :
  Kept w (cl_link c) (occurrences w added) s [] ∧ closed_idle s →
  Step_kept w c added
    {| cl_link := s; cl_handles := handles; cl_todo := cl_todo c; cl_sent := cl_sent c; cl_outputs := cl_outputs c |}.
Proof. intros [Hk Hc]. exists []. by rw app_nil_r. Qed.

Lemma step_io w c s todo outputs :
  Kept w (cl_link c) 0 s outputs ∧ closed_idle s → Step_kept w c [] (set_io s todo outputs c).
Proof. intros [Hk Hc]. by exists outputs. Qed.

Lemma step_none w c : closed_idle (cl_link c) → Step_kept w c [] c.
Proof. intros Hc. exists []. rw app_nil_r. split; [done|]. split; [by apply kept_same|done]. Qed.

Lemma step_handle w c handle call :
  (∀ h s, closed_idle s → Kept w s 0 (call h s) [] ∧ closed_idle (call h s)) → closed_idle (cl_link c) →
  Step_kept w c [] (on_handle handle call c).
Proof.
  intros Hcall Hi. unfold on_handle. destruct (cl_handles c !! handle); [|by apply step_none].
  apply step_only_link. by apply Hcall.
Qed.

Lemma step_bind w c handle operation waiter :
  w ≠ Waiter_Ignore → closed_idle (cl_link c) →
  Step_kept w c (match cl_handles c !! handle with
                 | Some h => accepted_by waiter (bind operation waiter h (cl_link c)).2
                 | None => []
                 end) (on_bind handle (bind operation waiter) c).
Proof.
  intros Hw Hi. unfold on_bind. destruct (cl_handles c !! handle) as [h|]; [|by apply step_none].
  pose proof (bind_kept w operation waiter h (cl_link c) Hw Hi) as Hb.
  destruct (bind operation waiter h (cl_link c)) as [[s h'] outcome]. by apply step_only_link.
Qed.

Lemma step_kept w c event :
  w ≠ Waiter_Ignore → closed_idle (cl_link c) → Step_kept w c (accepts c event) (client_step c event).
Proof.
  intros Hw Hi.
  destruct event as [op v|q|id|e|h k|h a p cl sz st v|h p se v|h g ev|h g tx|h f|h vi m|h g e co|h g r|h|h| |t pr pe|t|f t|t|].
  - simpl. pose proof (send_request_kept w op v (cl_link c) Hw Hi). destruct (link_request _ _ _). by apply step_only_link.
  - apply step_only_link, same_kept; [apply send_same|done|done].
  - apply step_only_link, same_kept; [apply send_same|done|done].
  - simpl. destruct (fail_kept w e (cl_link c) Hi) as [Hk Hc]. destruct (link_fail _ _) as [s outs]. by exists outs.
  - simpl. unfold open_channel. destruct (lk_closed _) eqn:Ec; [by apply step_only_link, same_kept|].
    destruct (_ <=? _); by apply step_only_link, same_kept.
  - by apply step_bind.
  - by apply step_bind.
  - apply step_handle; [|done]. intros hd s Hs. apply same_kept; [apply input_same|done|done].
  - apply step_handle; [|done]. intros hd s Hs. apply same_kept; [apply paste_same|done|done].
  - apply step_handle; [|done]. intros hd s Hs. apply same_kept; [apply send_simple_same|done|done].
  - apply step_handle; [|done]. intros hd s Hs. apply same_kept; [apply send_simple_same|done|done].
  - apply step_handle; [|done]. intros hd s Hs. apply same_kept; [apply send_simple_same|done|done].
  - apply step_handle; [|done]. intros hd s Hs. apply same_kept; [apply accessibility_same|done|done].
  - simpl. destruct (cl_handles c !! h); [|by apply step_none]. by apply step_only_link, drop_kept.
  - simpl. destruct (cl_handles c !! h); [|by apply step_none]. by apply step_only_link, detach_kept.
  - simpl. assert (same_requests (cl_link c) (link_next_frame (cl_link c)).1) as Hs
      by (unfold link_next_frame; by repeat case_match).
    destruct (link_next_frame _) as [s f]. exists []. simpl. rw app_nil_r. split; [done|]. by apply same_kept.
  - by apply step_only_link, same_kept.
  - simpl. unfold link_suspect. destruct (suspect _ _). by apply step_only_link, same_kept.
  - simpl. unfold receive_frame. destruct (cl_todo c), (lk_closed (cl_link c)) eqn:Ec; try (by apply step_none);
      [by apply step_io, same_kept|]. destruct (assemble_core _ _) as [a [[m|]|e]]; by apply step_io, same_kept.
  - simpl. destruct (cl_todo c); [by apply step_none|]. unfold link_judge. destruct (lk_closed _);
      [by apply step_io, same_kept|]. destruct (check _ _ _). by apply step_io, same_kept.
  - simpl. destruct (cl_todo c) as [[m|next|judged]|]; [| | |by apply step_none].
    + pose proof (dispatch_kept w m (cl_link c) Hw Hi). destruct (dispatch_core _ _) as [[s outs] nx]. by apply step_io.
    + destruct next as [|m|e]; simpl; [by apply step_io, same_kept| |].
      * apply step_io, same_kept; [apply send_same|done|done].
      * destruct (fail_kept w e (cl_link c) Hi). destruct (link_fail _ _). by apply step_io.
    + destruct judged as [nx|nonce nx|death]; simpl; [by apply step_io, same_kept| |].
      * pose proof (send_same (Client_Ping {| pi_nonce := nonce |}) true (cl_link c)). destruct (link_send _ _ _).
        by apply step_io, same_kept.
      * match goal with |- context [link_fail ?e ?s] => destruct (fail_kept w e s Hi); destruct (link_fail e s) end.
        by apply step_io.
Qed.

Lemma completions_app outputs outputs' : completions (outputs ++ outputs') = completions outputs ++ completions outputs'.
Proof. apply omap_app. Qed.

Lemma run_kept w events : w ≠ Waiter_Ignore → ∀ c, closed_idle (cl_link c) →
  Step_kept w c (accepted c events) (foldl client_step c events).
Proof.
  intros Hw. induction events as [|event events IH]; intros c Hi; [by apply step_none|]. simpl.
  destruct (step_kept w c event Hw Hi) as (outs & Eo & Hk & Hc).
  destruct (IH (client_step c event) Hc) as (outs' & Eo' & Hk' & Hc').
  exists (outs ++ outs'). split; [by rw Eo' Eo app_assoc|]. split; [|done].
  unfold Kept in *. rw completions_app !occurrences_app. lia.
Qed.

End Requests.

(** ** Pastes *)

Lemma split_at_most_join limit text : ∀ piece tail, split_at_most limit text = (piece, tail) → piece ++ tail = text.
Proof.
  revert limit. induction text as [|c text IH]; intros limit piece tail; simpl; [by intros [= <- <-]|].
  destruct (_ <=? _); [|by intros [= <- <-]]. destruct (split_at_most _ text) as [p t] eqn:E.
  intros [= <- <-]. simpl. f_equal. by eapply IH.
Qed.

Lemma split_at_most_len limit text : str_len (split_at_most limit text).1 ≤ limit.
Proof.
  revert limit. induction text as [|c text IH]; intros limit; simpl; [unfold str_len; simpl; lia|].
  destruct (Nat.leb_spec (len_utf8 c) limit); [|unfold str_len; simpl; lia].
  pose proof (IH (limit - len_utf8 c)). destruct (split_at_most _ text). unfold str_len in *. simpl in *. lia.
Qed.

Lemma len_utf8_bounds c : 1 ≤ len_utf8 c ≤ 4.
Proof. unfold len_utf8. repeat case_match; lia. Qed.

Lemma paste_chunks_spec fuel limit text :
  4 ≤ limit → length text ≤ fuel →
  let pieces := paste_chunks_fuel fuel limit text in
  concat pieces = text ∧ pieces ≠ [] ∧ Forall (λ piece, str_len piece ≤ limit) pieces.
Proof.
  intros Hl. revert text. induction fuel as [|fuel IH]; intros text Hf; simpl.
  - destruct text; [|simpl in Hf; lia]. simpl. split; [done|]. split; [done|]. constructor; [|constructor].
    unfold str_len. simpl. lia.
  - destruct (Nat.leb_spec (str_len text) limit); [simpl; rw app_nil_r; split; [done|]; split; [done|]; by constructor|].
    pose proof (split_at_most_len limit text) as Hlen.
    destruct (split_at_most limit text) as [piece tail] eqn:E. pose proof (split_at_most_join _ _ _ _ E) as Hj.
    assert (length tail ≤ fuel) as Ht.
    { destruct text as [|c text]; [cbn in *; lia|]. simpl in E, Hf. pose proof (len_utf8_bounds c).
      destruct (Nat.leb_spec (len_utf8 c) limit); [|lia]. destruct (split_at_most _ text) as [p t] eqn:E2.
      injection E as <- <-. apply split_at_most_join in E2. subst text. rw length_app in Hf. lia. }
    destruct (IH tail Ht) as (Hc & Hne & Hall). simpl. rw Hc. split; [done|]. split; [done|]. by constructor.
Qed.

(** The text and the flag of a pasted message. *)
Definition pasted `{P : Payloads} (message : ClientMessage) : list (ustring * bool) :=
  match message with
  | Client_Input input =>
      omap (λ event, match event with Input_Paste text last => Some (text, last) | _ => None end) (in_events input)
  | _ => []
  end.

Lemma paste_messages_pieces `{P : Payloads} channel generation pieces : ∀ serial ms last,
  paste_messages channel generation pieces serial = Ok (ms, last) →
  mjoin (map pasted ms) = imap (λ i piece, (piece, i =? length pieces - 1)) pieces ∧
  last = (serial + N.of_nat (length pieces))%N.
Proof.
  induction pieces as [|piece pieces IH]; intros serial ms last; simpl; [intros [= <- <-]; split; [done|]; lia|].
  destruct (u32_checked_add serial 1) as [next|] eqn:En; [|done]. simpl.
  destruct (paste_messages channel generation pieces next) as [[rest final]|] eqn:E; [|done].
  intros [= <- <-]. destruct (IH _ _ _ E) as [Hr Hl]. apply u32_checked_add_Some in En as [-> _].
  split; [|simpl; lia].
  change (pasted (input_message channel (serial + 1) generation [Input_Paste piece (is_empty pieces)])
          ++ mjoin (map pasted rest)
          = imap (λ i p, (p, i =? length (piece :: pieces) - 1)) (piece :: pieces)).
  rw Hr. simpl. f_equal.
  - f_equal. by destruct pieces.
  - apply imap_ext. intros i x Hx. simpl. f_equal. apply lookup_lt_Some in Hx.
    destruct (length pieces); [lia|]. simpl. by rw Nat.sub_0_r.
Qed.

(** A paste arrives whole: the messages a handle sends for it carry, under consecutive
    serials, pieces that join to the text, each within the bound the server checks, and
    the last of them and no other says that the paste is complete. *)
Theorem paste_whole `{P : Payloads} channel generation text serial ms last :
  paste_messages channel generation (paste_chunks text (N.to_nat MAX_PASTE_CHUNK_BYTES)) serial = Ok (ms, last) →
  concat (map fst (mjoin (map pasted ms))) = text ∧ mjoin (map pasted ms) ≠ [] ∧
  Forall (λ piece, (N.of_nat (str_len piece.1) <= MAX_PASTE_CHUNK_BYTES)%N) (mjoin (map pasted ms)) ∧
  (∀ i piece, mjoin (map pasted ms) !! i = Some piece → piece.2 = (i =? length (mjoin (map pasted ms)) - 1)) ∧
  last = (serial + N.of_nat (length (mjoin (map pasted ms))))%N.
Proof.
  intros Hp. destruct (paste_messages_pieces _ _ _ _ _ _ Hp) as [-> ->]. unfold paste_chunks in *.
  destruct (paste_chunks_spec (length text) (N.to_nat MAX_PASTE_CHUNK_BYTES) text) as (Hc & Hne & Hall);
    [unfold MAX_PASTE_CHUNK_BYTES; lia|done|].
  set (pieces := paste_chunks_fuel _ _ _) in *. rw length_imap. split.
  - transitivity (concat pieces); [|done]. f_equal. change (map fst ?l) with (fst <$> l). rw fmap_imap. unfold compose. simpl.
    rw -{2}(list_fmap_id pieces). by rw -imap_const.
  - split; [by destruct pieces|]. split.
    + apply Forall_lookup. intros i [piece b]. rw list_lookup_imap. destruct (pieces !! i) as [x|] eqn:E; [|done].
      intros [= <- _]. simpl. rw Forall_lookup in Hall. specialize (Hall i x E). lia.
    + split; [|done]. intros i [piece b]. rw list_lookup_imap. destruct (pieces !! i); [|done]. by intros [= <- <-].
Qed.
