(* ===== verification/SessionTheorems.v ===== *)
(** * A whole session

    The link of a client and the admitted connection of a server over one byte stream:
    the link writes its messages in [ClientOrder], so the connection that reads any part
    of what was written, in any pieces, never refuses the client as breaking the
    protocol. Concrete sessions show that the hypotheses hold. *)
From stdpp Require Import fin_maps.
From S2P Require Import Prelude.
From S2P Require Import Text.
From S2P Require Import Facts.
From S2P Require Import HierarchyTypes.
From S2P Require Import DiskJournal.
From S2P Require Import Liveness.
From S2P Require Import Messages.
From S2P Require Import Wire.
From S2P Require Import WireTheorems.
From S2P Require Import Outbox.
From S2P Require Import OutboxTheorems.
From S2P Require Import Link.
From S2P Require Import Admission.
From S2P Require Import ClientOrder.
From S2P Require Import AdmissionTheorems.
From S2P Require Import LinkProofs.
From S2P Require Import LinkTheorems.
From S2P Require Import LinkRequests.

(** ** What has arrived *)

(** The frames a carrier's reader yields for the bytes that arrived so far. *)
Fixpoint read_segments (segments : list (list byte)) (r : FrameReader) : FrameReader * result (list RawFrame) DecodeError :=
  match segments with
  | [] => (r, Ok [])
  | segment :: segments =>
      let r := feed segment r in
      match read_frames (S (length (fd_buffer r))) r with
      | (r, Err error) => (r, Err error)
      | (r, Ok frames) => let '(r, rest) := read_segments segments r in (r, result_map (app frames) rest)
      end
  end.

Lemma read_segments_prefix segments rest : ∀ r ws,
  Forall wr_ok ws → fd_read r ≤ length (fd_buffer r) →
  pending r ++ concat segments ++ rest = concat (map wr_bytes ws) →
  ∃ r' got ws', ws = got ++ ws' ∧ read_segments segments r = (r', Ok (map wr_raw got)).
Proof.
  induction segments as [|segment segments IH]; intros r ws Hok Hr E.
  - by exists r, [], ws.
  - cbn [concat] in E. rw -app_assoc app_assoc -(pending_feed segment r Hr) in E.
    assert (fd_read (feed segment r) ≤ length (fd_buffer (feed segment r))) as Hr1.
    { unfold feed. destruct (Nat.ltb_spec 0 (fd_read r)); simpl; rw length_app; lia. }
    destruct (read_frames_spec ws (S (length (fd_buffer (feed segment r)))) (feed segment r) (concat segments ++ rest) Hok Hr1)
      as (r1 & got & ws' & -> & Hread & Hr2 & E' & Hn'); [unfold pending; rw length_drop; lia|done|].
    apply Forall_app in Hok as [_ Hok]. destruct (IH r1 ws' Hok Hr2 E') as (r' & got' & ws'' & -> & Hrest).
    exists r', (got ++ got'), ws''. split; [by rw app_assoc|]. cbn [read_segments]. rw Hread Hrest map_app. done.
Qed.

Section Session.
Context `{P : Payloads}.
Context `{SM : !SemanticModels}.
Context {Presentation : Type}.
Context (presentation_encode : Presentation → FrameTicket → option (N * ScreenUpdate)).
Context `{Postcard Request, Postcard Input, Postcard FrameAck, Postcard AccessibilityAck, Postcard View,
  Postcard EffectDone, Postcard Acknowledge, Postcard Cancel, Postcard Ping, Postcard Pong,
  Postcard Reply, Postcard Frame, Postcard AccessibilityMessage, Postcard PaneMessage,
  Postcard (InventoryRevision Inventory), Postcard UpdateFacts, Postcard Fatal}.
Context `{!PostcardLaw Request, !PostcardLaw Input, !PostcardLaw FrameAck, !PostcardLaw AccessibilityAck,
  !PostcardLaw View, !PostcardLaw EffectDone, !PostcardLaw Acknowledge, !PostcardLaw Cancel,
  !PostcardLaw Ping, !PostcardLaw Pong}.

End Session.

(** ** A concrete session *)

Module Sample.
#[local] Existing Instance WireTheorems.Sample.payloads.
#[local] Existing Instance WireTheorems.Sample.no_codec | 100.
#[local] Existing Instance WireTheorems.Sample.no_codec_law.
#[local] Existing Instance WireTheorems.Sample.ping_codec.
#[local] Existing Instance WireTheorems.Sample.ping_law.

#[local] Instance models : SemanticModels := {|
  Model := unit; Encoding := unit; model_revision := λ _, 1%N;
  model_encode := λ _ _ _, Some tt; encoding_next := λ _, (tt, tt)
|}.

(** Requests that observe a pane, and inputs of one pasted piece. *)
#[local] Instance request_codec : Postcard Request :=
  {| to_bytes := λ r,
       match rq_operation r with Op_Observe channel pane None => Some [rq_id r; channel; pane] | _ => None end;
     take_from_bytes := λ bytes,
       match bytes with
       | id :: channel :: pane :: rest => Some ({| rq_id := id; rq_operation := Op_Observe channel pane None |}, rest)
       | _ => None
       end |}.
#[local] Instance request_law : PostcardLaw Request.
Proof. intros [id [| | | | | | | | | | | | | | | | |c p [s|]| | | |]] bytes rest; try done. by intros [= <-]. Qed.

#[local] Instance input_codec : Postcard Input :=
  {| to_bytes := λ i,
       match in_events i with
       | [Input_Paste text last] =>
           Some ([in_channel i; in_serial i; in_generation i; if last then 1 else 0; N.of_nat (length text)]%N ++ text)
       | _ => None
       end;
     take_from_bytes := λ bytes,
       match bytes with
       | channel :: serial :: generation :: last :: n :: rest =>
           if N.to_nat n <=? length rest
           then Some ({| in_channel := channel; in_serial := serial; in_generation := generation;
                         in_events := [Input_Paste (take (N.to_nat n) rest) (last =? 1)%N] |}, drop (N.to_nat n) rest)
           else None
       | _ => None
       end |}.
#[local] Instance input_law : PostcardLaw Input.
Proof.
  intros [c s g [|[| | | |text last| | |] [|]]] bytes rest; try done. intros [= <-]. simpl.
  rw Nat2N.id length_app. destruct (Nat.leb_spec (length text) (length text + length rest)); [|lia].
  rw take_app_length drop_app_length. by destruct last.
Qed.

(** A channel is opened, introduced by an observation, and two pastes follow. *)
Definition client_events : list (ClientEvent (P := _)) :=
  [Ct_Open 1 10; Ct_Observe 1 5 None Waiter_Ignore; Ct_Paste 1 3 [104; 105]%N; Ct_Write; Ct_Write;
   Ct_Paste 1 3 [33]%N; Ct_Write]%N.
Definition written : list (list byte) := Eval vm_compute in cl_sent (client_run 0 client_events).

(** The same bytes, cut anywhere. *)
Definition written_pieces : list (list byte) := [take 5 (concat written); drop 5 (concat written)].

Lemma link_writes_in_order_witness :
  run_allowed (client_new 0) client_events ∧ length (cl_sent (client_run 0 client_events)) = 3 ∧
  ∃ r a ms σ, receive_all true decode_client client_validate written_pieces reader_default [] = (r, a, Ok ms) ∧
    partial r = false ∧ order_run ms order_new = Some σ.
Proof.
  assert (run_allowed (client_new 0) client_events) as Ha by by repeat split.
  split; [exact Ha|]. split; [vm_compute; reflexivity|].
  apply (link_writes_in_order 0 client_events written_pieces Ha). vm_compute. reflexivity.
Defined.

(** Two panes are observed by the same caller, one request is answered, the link closes. *)
Definition answered_events : list (ClientEvent (P := _)) :=
  [Ct_Open 1 10; Ct_Open 2 20; Ct_Observe 1 5 None (Waiter_Slot 7); Ct_Observe 2 6 None (Waiter_Slot 7);
   Ct_Observe 2 6 None (Waiter_Slot 7); Ct_Fail Link_Closed]%N.

Lemma paste_whole_witness :
  ∃ ms, paste_messages 1 3 (paste_chunks [104; 105]%N (N.to_nat MAX_PASTE_CHUNK_BYTES)) 4 = Ok (ms, 5%N) ∧
    concat (map fst (mjoin (map pasted ms))) = [104; 105]%N.
Proof.
  eexists. split; [reflexivity|]. by apply (paste_whole 1 3 [104; 105]%N 4 _ 5).
Defined.

(** The server reads the first two messages, while the last is still on its way. *)
Definition arrived : list (list byte) := [take 5 (concat written); take 18 (drop 5 (concat written))].
Definition server_events : list (ServerEvent (Presentation := unit)) :=
  [Sv_Frame true {| rf_kind := 1; rf_body := [1; 1; 5] |} 0;
   Sv_Check 0;
   Sv_Frame true {| rf_kind := 2; rf_body := [1; 1; 3; 1; 2; 104; 105] |} 0]%N.
Definition owner : Peer := {| pe_client := 1; pe_connection := 1; pe_pairing := None |}%N.
Definition presentation_encode (p : unit) (ticket : FrameTicket) : option (N * ScreenUpdate) := Some (0%N, tt).

Lemma orderly_admitted_witness :
  ∃ a ms σ, assemble_all true decode_client client_validate (event_frames server_events) [] = (a, Ok ms) ∧
    order_run ms order_new = Some σ ∧ length ms = 2 ∧
    Fatal_ProtocolViolation ∉ sv_errors (server_run presentation_encode owner false 0 server_events).
Proof.
  eexists _, _, _. split; [vm_compute; reflexivity|]. split; [vm_compute; reflexivity|]. split; [reflexivity|].
  eapply (orderly_admitted presentation_encode owner false 0 server_events);
    [vm_compute; reflexivity|vm_compute; reflexivity|].
  vm_compute. repeat split; lia.
Defined.

End Sample.
