(* ===== verification/Runs.v ===== *)
(** * Run receipts of the server

    [crates/spaceterm-core/src/pane/run.rs]: a run binds one command, written at the
    prompt, to the first owner-marked command start after it and the finish that
    follows. The table is a map by run; at most one run of a Pane is pending
    (below), so that which one [find] meets first does not matter. *)
From stdpp Require Import fin_maps.
From S2P Require Import Prelude.
From S2P Require Import Text.
From S2P Require Import HierarchyTypes.
From S2P Require Import Liveness.
From S2P Require Import Messages.

Definition MAX_PER_PANE : nat := 8.
Definition MAX_TOTAL : nat := 128.

#[export] Instance run_id_eq_dec : EqDecision RunId.
Proof. solve_decision. Defined.
#[export] Program Instance run_id_countable : Countable RunId :=
  inj_countable' run_id (λ bytes, {| run_id := bytes |}) _.
Next Obligation. by intros []. Qed.

Inductive Marker :=
  | PromptStart
  | CommandInput
  | CommandStart (cmdline : option ustring)
  | CommandFinished (exit_status : option Z)
  | Unowned.

Record Observation := {
  ob_marker : Marker;
  ob_finished_commands : N;
  ob_position : HistoryPosition;
  ob_at : Instant
}.

Record RunAdmission := {
  am_pane : N;
  am_session : N;
  am_run : RunId;
  am_client : N;
  am_connection : N;
  am_wire_channel : N;
  am_command : ustring;
  am_start : HistoryPosition;
  am_finished_commands : N;
  am_at : Instant
}.

Record Settled := { se_connection : N; se_channel : N; se_receipt : RunReceipt }.

Record Entry := {
  en_admission : RunAdmission;
  en_state : RunState;
  en_end : option HistoryPosition;
  en_started : option Instant;
  en_doubt : option RunDoubt;
  en_taken_over : bool
}.

(** ** One receipt *)

Definition run_pending (e : Entry) : bool :=
  match en_state e with Run_Admitted | Run_Running => true | _ => false end.

(** [Entry::receipt]. *)
Definition entry_receipt (e : Entry) : RunReceipt :=
  {| rr_run := am_run (en_admission e);
     rr_session := am_session (en_admission e);
     rr_state := if run_pending e && en_taken_over e then Run_TakenOver else en_state e;
     rr_end := en_end e |}.

Definition set_en_settled (state : RunState) (end_ : option HistoryPosition) (e : Entry) : Entry :=
  {| en_admission := en_admission e; en_state := state; en_end := end_; en_started := en_started e;
     en_doubt := en_doubt e; en_taken_over := en_taken_over e |}.
(** [Option::get_or_insert] on the doubt. *)
Definition insert_doubt (doubt : RunDoubt) (e : Entry) : Entry :=
  {| en_admission := en_admission e; en_state := en_state e; en_end := en_end e; en_started := en_started e;
     en_doubt := match en_doubt e with Some first => Some first | None => Some doubt end;
     en_taken_over := en_taken_over e |}.
Definition set_en_running (at_ : Instant) (e : Entry) : Entry :=
  {| en_admission := en_admission e; en_state := Run_Running; en_end := en_end e; en_started := Some at_;
     en_doubt := en_doubt e; en_taken_over := en_taken_over e |}.
Definition set_en_taken_over (e : Entry) : Entry :=
  {| en_admission := en_admission e; en_state := en_state e; en_end := en_end e; en_started := en_started e;
     en_doubt := en_doubt e; en_taken_over := true |}.
Definition set_en_admission (admission : RunAdmission) (e : Entry) : Entry :=
  {| en_admission := admission; en_state := en_state e; en_end := en_end e; en_started := en_started e;
     en_doubt := en_doubt e; en_taken_over := en_taken_over e |}.

(** [Entry::settle]. *)
Definition entry_settle (state : RunState) (end_ : option HistoryPosition) (e : Entry) : Entry * Settled :=
  let e := set_en_settled
    match state, en_doubt e with
    | Run_Finished _ _, Some doubt => Run_Unconfirmed doubt
    | state, _ => state
    end end_ e in
  (e, {| se_connection := am_connection (en_admission e);
         se_channel := am_wire_channel (en_admission e);
         se_receipt := entry_receipt e |}).

(** [Entry::duration_ms]; instants are nanoseconds. *)
Definition duration_ms (at_ : Instant) (e : Entry) : N :=
  let started := match en_started e with Some at_ => at_ | None => am_at (en_admission e) end in
  N.min ((at_ - started) / 1000000) u64_max.

(** [Entry::observe]. *)
Definition entry_observe (o : Observation) (e : Entry) : Entry * option Settled :=
  if negb (run_pending e) then (e, None)
  else
    let expected := u64_saturating_add (am_finished_commands (en_admission e)) 1 in
    let settle state end_ e := let '(e, settled) := entry_settle state end_ e in (e, Some settled) in
    match ob_marker o, en_state e with
    | CommandInput, _ => (e, None)
    | Unowned, _ => (insert_doubt IntegrationLost e, None)
    | CommandStart cmdline, Run_Admitted =>
        let e := match cmdline with
                 | Some line => if negb (bool_decide (line = am_command (en_admission e)))
                                then insert_doubt CmdlineMismatch e else e
                 | None => e
                 end in
        (set_en_running (ob_at o) e, None)
    | CommandStart _, _ => (insert_doubt IntegrationLost e, None)
    | (PromptStart | CommandFinished _), Run_Admitted =>
        settle (Run_Unconfirmed NoCommandStart) (Some (ob_position o)) e
    | CommandFinished exit_status, _ =>
        let e := if negb (ob_finished_commands o =? expected)%N then insert_doubt IntegrationLost e else e in
        let state := match exit_status with
                     | Some _ => Run_Finished exit_status (duration_ms (ob_at o) e)
                     | None => Run_Unconfirmed NoExitStatus
                     end in
        settle state (Some (ob_position o)) e
    | PromptStart, _ => settle (Run_Unconfirmed NoExitStatus) (Some (ob_position o)) e
    end.

(** ** The table *)

Abbreviation RunTable := (gmap RunId Entry).
Implicit Types t : RunTable.

Definition of_pane (pane : N) (entry : RunId * Entry) : Prop := am_pane (en_admission entry.2) = pane.
Definition pending_on (pane : N) (entry : RunId * Entry) : Prop :=
  am_pane (en_admission entry.2) = pane ∧ run_pending entry.2 = true.
#[export] Instance of_pane_dec pane entry : Decision (of_pane pane entry).
Proof. unfold of_pane. apply _. Defined.
#[export] Instance pending_on_dec pane entry : Decision (pending_on pane entry).
Proof. unfold pending_on. apply _. Defined.

(** [pending_mut]: the Pane's pending run. *)
Definition pending_run (pane : N) t : option (RunId * Entry) :=
  head (filter (pending_on pane) (map_to_list t)).

(** [RunTable::check]. *)
Definition run_check (pane : N) t : result unit RunRefusal :=
  if negb (is_empty (filter (pending_on pane) (map_to_list t))) then Err RunPending
  else if (MAX_TOTAL <=? size t) || (MAX_PER_PANE <=? length (filter (of_pane pane) (map_to_list t)))
       then Err RunRefusal_Capacity
       else Ok tt.

Definition run_known (client : N) (run : RunId) t : bool :=
  match t !! run with Some e => (am_client (en_admission e) =? client)%N | None => false end.

(** [RunTable::admit]. *)
Definition run_admit (admission : RunAdmission) t : RunTable * result unit RunRefusal :=
  match run_check (am_pane admission) t with
  | Err refusal => (t, Err refusal)
  | Ok _ =>
      match t !! am_run admission with
      | Some _ => (t, Err RunPending)
      | None =>
          (<[am_run admission := {| en_admission := admission; en_state := Run_Admitted; en_end := None;
                                    en_started := None; en_doubt := None; en_taken_over := false |}]> t, Ok tt)
      end
  end.

(** [RunTable::admitted]. *)
Definition run_admitted (run : RunId) (start : HistoryPosition) (finished_commands : N) t : RunTable :=
  match t !! run with
  | Some e =>
      let a := en_admission e in
      <[run := set_en_admission
          {| am_pane := am_pane a; am_session := am_session a; am_run := am_run a; am_client := am_client a;
             am_connection := am_connection a; am_wire_channel := am_wire_channel a; am_command := am_command a;
             am_start := start; am_finished_commands := finished_commands; am_at := am_at a |} e]> t
  | None => t
  end.

(** [RunTable::refused]. *)
Definition run_refused (run : RunId) t : RunTable := delete run t.

(** A change of the Pane's pending entry, in place. *)
Definition on_pending {A} (pane : N) (change : Entry → Entry * option A) t : RunTable * option A :=
  match pending_run pane t with
  | Some (run, e) => let '(e, out) := change e in (<[run := e]> t, out)
  | None => (t, None)
  end.

Definition observe_marker (pane : N) (o : Observation) : RunTable → RunTable * option Settled :=
  on_pending pane (entry_observe o).
Definition session_ended (pane : N) : RunTable → RunTable * option Settled :=
  on_pending pane (λ e, let '(e, settled) := entry_settle Run_SessionEnded None e in (e, Some settled)).
Definition run_taken_over (pane : N) t : RunTable :=
  (on_pending pane (λ e, (set_en_taken_over e, @None Settled)) t).1.

(** [RunTable::pending] and [pending_runs]. *)
Definition run_pending_of (pane : N) t : option (RunId * N) :=
  match pending_run pane t with
  | Some (_, e) => Some (am_run (en_admission e), am_session (en_admission e))
  | None => None
  end.
Definition pending_runs t : list (N * N * N) :=
  map (λ entry, let a := en_admission entry.2 in (am_pane a, am_session a, am_client a))
    (filter (λ entry, run_pending entry.2 = true) (map_to_list t)).

(** The entry [client] may read. *)
Definition entry_of (client : N) (run : RunId) t : option Entry :=
  match t !! run with
  | Some e => if (am_client (en_admission e) =? client)%N then Some e else None
  | None => None
  end.
Definition run_receipt (client : N) (run : RunId) t : option RunReceipt := entry_receipt <$> entry_of client run t.
Definition run_start (client : N) (run : RunId) t : option HistoryPosition :=
  (λ e, am_start (en_admission e)) <$> entry_of client run t.

(** [RunTable::acknowledge]. *)
Definition run_acknowledge (client : N) (run : RunId) t : RunTable * bool :=
  match t !! run with
  | Some e =>
      if (am_client (en_admission e) =? client)%N && negb (run_pending e) then (delete run t, true) else (t, false)
  | None => (t, false)
  end.

Definition run_holds (client : N) t : bool :=
  negb (is_empty (filter (λ entry, am_client (en_admission entry.2) = client) (map_to_list t))).
(** [RunTable::forget]. *)
Definition run_forget (client : N) t : RunTable :=
  filter (λ entry, am_client (en_admission entry.2) ≠ client) t.

(** ** Runs settle once and never borrow a status

    Along every sequence of calls the table stays within its bounds with at most one
    pending run of a Pane; a receipt that settled stays as it is until its client retires
    it; and a run reads as finished exactly when the markers bind a status to its command. *)

(** ** The markers of one run *)

Definition entry_new (a : RunAdmission) : Entry :=
  {| en_admission := a; en_state := Run_Admitted; en_end := None; en_started := None; en_doubt := None;
     en_taken_over := false |}.
Definition observe_all (os : list Observation) (e : Entry) : Entry := foldl (λ e o, (entry_observe o e).1) e os.

Lemma observe_settled os e : run_pending e = false → observe_all os e = e.
Proof.
  intros Hp. induction os as [|o os IH]; [done|]. cbn [observe_all foldl]. unfold entry_observe at 2. rw Hp. exact IH.
Qed.

Definition finished (e : Entry) : Prop := ∃ status ms, en_state e = Run_Finished status ms.

Lemma doubted_observe o e d :
  run_pending e = true → en_doubt e = Some d →
  let e' := (entry_observe o e).1 in ¬ finished e' ∧ en_doubt e' = Some d.
Proof.
  intros Hp Hd. unfold entry_observe, run_pending, finished in *. rw Hp. simpl.
  destruct (ob_marker o) as [| |cmdline|status|]; destruct (en_state e) eqn:Es; try done; simpl;
    repeat match goal with
    | |- context [match ?c with Some _ => _ | None => _ end] => is_var c; destruct c
    | |- context [if negb ?b then _ else _] => destruct (negb b)
    end; simpl; rw ?Es ?Hd; (split; [intros (x & y & E); simpl in E; congruence|simpl; congruence]).
Qed.

(** A doubt is final: what may not belong to the run never finishes it. *)
Lemma doubted_never_finishes os : ∀ e d, ¬ finished e → en_doubt e = Some d → ¬ finished (observe_all os e).
Proof.
  induction os as [|o os IH]; intros e d Hf Hd; [done|]. cbn [observe_all foldl].
  destruct (run_pending e) eqn:Hp.
  - destruct (doubted_observe o e d Hp Hd) as [Hf' Hd']. by eapply IH.
  - change (¬ finished (observe_all os (entry_observe o e).1)). unfold entry_observe. rw Hp. simpl. by eapply IH.
Qed.

Definition input_only (os : list Observation) : Prop := Forall (λ o, ob_marker o = CommandInput) os.
Definition expected_count (a : RunAdmission) : N := u64_saturating_add (am_finished_commands a) 1.

(** What a status of a run stands on: after the start only input markers, then the finish
    of the next command of the Session, with a status. *)
Definition finish_binds (a : RunAdmission) (os : list Observation) (status : Z) (finish : Observation) : Prop :=
  ∃ mid post, os = mid ++ finish :: post ∧ input_only mid ∧ ob_marker finish = CommandFinished (Some status) ∧
    ob_finished_commands finish = expected_count a.

Definition elapsed_ms (start finish : Observation) : N := N.min ((ob_at finish - ob_at start) / 1000000) u64_max.

Lemma finish_binds_cons a o os status finish :
  ob_marker o = CommandInput → finish_binds a os status finish → finish_binds a (o :: os) status finish.
Proof. intros Ho (mid & post & -> & Hm & Hr). exists (o :: mid), post. split; [done|]. split; [by constructor|done]. Qed.

Lemma finish_binds_inv a o os status finish :
  finish_binds a (o :: os) status finish →
  (ob_marker o = CommandInput ∧ finish_binds a os status finish) ∨
  (o = finish ∧ ob_marker finish = CommandFinished (Some status) ∧ ob_finished_commands finish = expected_count a).
Proof.
  intros ([|x mid] & post & E & Hm & Hr); simplify_eq/=; [by right|]. left. apply Forall_cons in Hm as [Hx Hm].
  split; [done|]. by exists mid, post.
Qed.

Record Running (a : RunAdmission) (start : Observation) (e : Entry) : Prop := {
  rg_admission : en_admission e = a;
  rg_state : en_state e = Run_Running;
  rg_started : en_started e = Some (ob_at start);
  rg_doubt : en_doubt e = None
}.

Lemma not_finished_fold os e : ¬ finished e → run_pending e = false → ¬ finished (observe_all os e).
Proof. intros Hf Hp. by rw observe_settled. Qed.

Lemma running_finishes a start os : ∀ e, Running a start e →
  ∀ x ms p, (en_state (observe_all os e) = Run_Finished x ms ∧ en_end (observe_all os e) = p) ↔
    ∃ status finish, finish_binds a os status finish ∧ x = Some status ∧ ms = elapsed_ms start finish ∧
      p = Some (ob_position finish).
Proof.
  induction os as [|o os IH]; intros e Hr x ms p.
  { simpl. rw (rg_state _ _ _ Hr). split; [by intros [? _]|]. intros (? & ? & ([|] & ? & ? & _) & _); done. }
  cbn [observe_all foldl]. change (foldl _ ?e0 os) with (observe_all os e0).
  pose proof Hr as [Ha Hs Hst Hd].
  assert (run_pending e = true) as Hp by (unfold run_pending; by rw Hs).
  assert (∀ e', ¬ finished e' → run_pending e' = false ∨ (∃ d, en_doubt e' = Some d) →
    ob_marker o ≠ CommandInput → (∀ status, ob_marker o = CommandFinished (Some status) →
      ob_finished_commands o ≠ expected_count a) →
    (en_state (observe_all os e') = Run_Finished x ms ∧ en_end (observe_all os e') = p) ↔
    ∃ status finish, finish_binds a (o :: os) status finish ∧ x = Some status ∧ ms = elapsed_ms start finish ∧
      p = Some (ob_position finish)) as Hno.
  { intros e' Hf Hcase Hi Hn. split.
    - intros [E _]. exfalso. assert (finished (observe_all os e')) as Hfin by (by exists x, ms).
      destruct Hcase as [Hp'|[d Hd']]; [by apply (not_finished_fold os e')|]. by eapply doubted_never_finishes in Hd'.
    - intros (status & finish & [[Ho _]|(-> & Hm & Hc)]%finish_binds_inv & _); [done|]. by destruct (Hn status). }
  destruct (ob_marker o) as [| |cmdline|[status|]|] eqn:Hm; unfold entry_observe; rw Hp Hm ?Hs; simpl.
  - apply Hno; [by intros (? & ? & ?)|by left|done|done].
  - rw (IH e Hr). split.
    + intros (status & finish & Hb & Hrest). exists status, finish. split; [by apply finish_binds_cons|done].
    + intros (status & finish & [[_ Hb]|(-> & Hf & _)]%finish_binds_inv & Hrest); [by exists status, finish|congruence].
  - apply Hno; [|right|done|done]; simpl; rw ?Hd ?Hs; [by intros (? & ? & ?); simpl in *; congruence|eauto].
  - destruct (N.eqb_spec (ob_finished_commands o) (u64_saturating_add (am_finished_commands (en_admission e)) 1)) as [Hc|Hc];
      simpl.
    + assert (ob_finished_commands o = expected_count a) as Hc' by (unfold expected_count; by rw -Ha).
      rw Hd observe_settled; [done|]. simpl. split.
      * intros [[= <- <-] <-]. exists status, o. split; [exists [], os; by repeat split; [constructor|..]|].
        split; [done|]. split; [|done]. unfold duration_ms, elapsed_ms. by rw Hst.
      * intros (status' & finish & [[Ho _]|(-> & Hf & _)]%finish_binds_inv & -> & -> & ->); [congruence|].
        rw Hf in Hm. injection Hm as ->. split; [|done]. unfold duration_ms, elapsed_ms. by rw Hst.
    + apply Hno; simpl; rw ?Hd; [by intros (? & ? & ?)|by right; eexists|done|]. intros status' _. by rw /expected_count -Ha.
  - apply Hno; [|left|done|done]; destruct (negb _); simpl; rw ?Hd; try done; by intros (? & ? & ?).
  - apply Hno; [|right|done|done]; simpl; rw ?Hd ?Hs; [by intros (? & ? & ?); simpl in *; congruence|eauto].
Qed.

(** What a finish of a run stands on: after the admission only input markers, the start of
    a command that is not reported to be another one, and its finish. *)
Definition run_binds (a : RunAdmission) (os : list Observation) (status : Z) (start finish : Observation) : Prop :=
  ∃ pre post cmdline, os = pre ++ start :: post ∧ input_only pre ∧ ob_marker start = CommandStart cmdline ∧
    (∀ line, cmdline = Some line → line = am_command a) ∧ finish_binds a post status finish.

Lemma run_binds_inv a o os status start finish :
  run_binds a (o :: os) status start finish →
  (ob_marker o = CommandInput ∧ run_binds a os status start finish) ∨
  (o = start ∧ ∃ cmdline, ob_marker start = CommandStart cmdline ∧ (∀ line, cmdline = Some line → line = am_command a) ∧
     finish_binds a os status finish).
Proof.
  intros ([|x pre] & post & cmdline & E & Hm & Hr); simplify_eq/=; [right; split; [done|]; by exists cmdline|].
  left. apply Forall_cons in Hm as [Hx Hm]. split; [done|]. by exists pre, post, cmdline.
Qed.

Lemma run_binds_cons a o os status start finish :
  ob_marker o = CommandInput → run_binds a os status start finish → run_binds a (o :: os) status start finish.
Proof.
  intros Ho (pre & post & c & -> & Hm & Hr). exists (o :: pre), post, c. split; [done|]. split; [by constructor|done].
Qed.

(** C27. A run reads as finished exactly when the Session's markers bind a status to its
    command: after the admission the shell reports the start of one command, the same
    text if it reports any, and then its finish with a status as the very next finished
    command, with nothing but input markers in between. The receipt carries that status,
    the time from that start to that finish in milliseconds, and the place of the finish;
    whatever comes later does not change it. *)
Theorem finished_exactly a os x ms p :
  (en_state (observe_all os (entry_new a)) = Run_Finished x ms ∧ en_end (observe_all os (entry_new a)) = p) ↔
  ∃ status start finish, run_binds a os status start finish ∧ x = Some status ∧ ms = elapsed_ms start finish ∧
    p = Some (ob_position finish).
Proof.
  induction os as [|o os IH].
  { split; [by intros [? _]|]. intros (? & ? & ? & ([|] & ? & ? & ? & _) & _); done. }
  cbn [observe_all foldl]. change (foldl _ ?e0 os) with (observe_all os e0).
  assert (∀ e', ¬ finished e' → run_pending e' = false ∨ (∃ d, en_doubt e' = Some d) → ob_marker o ≠ CommandInput →
    (∀ cmdline, ob_marker o = CommandStart cmdline → ∃ line, cmdline = Some line ∧ line ≠ am_command a) →
    (en_state (observe_all os e') = Run_Finished x ms ∧ en_end (observe_all os e') = p) ↔
    ∃ status start finish, run_binds a (o :: os) status start finish ∧ x = Some status ∧
      ms = elapsed_ms start finish ∧ p = Some (ob_position finish)) as Hno.
  { intros e' Hf Hcase Hi Hn. split.
    - intros [E _]. exfalso. assert (finished (observe_all os e')) as Hfin by (by exists x, ms).
      destruct Hcase as [Hp'|[d Hd']]; [by apply (not_finished_fold os e')|]. by eapply doubted_never_finishes in Hd'.
    - intros (status & start & finish & [[Ho _]|(-> & c & Hc & Hl & _)]%run_binds_inv & _); [done|].
      destruct (Hn c Hc) as (line & -> & Hne). by destruct Hne; apply Hl. }
  destruct (ob_marker o) as [| |cmdline|status|] eqn:Hm; unfold entry_observe; rw Hm; simpl.
  - apply Hno; [by intros (? & ? & ?)|by left|done|done].
  - rw IH. split.
    + intros (status & start & finish & Hb & Hrest). exists status, start, finish. by split; [apply run_binds_cons|].
    + intros (status & start & finish & [[_ Hb]|(-> & c & Hc & _)]%run_binds_inv & Hrest); [by exists status, start, finish|congruence].
  - assert (∀ e', Running a o e' → (∀ line, cmdline = Some line → line = am_command a) →
      (en_state (observe_all os e') = Run_Finished x ms ∧ en_end (observe_all os e') = p) ↔
      ∃ status start finish, run_binds a (o :: os) status start finish ∧ x = Some status ∧
        ms = elapsed_ms start finish ∧ p = Some (ob_position finish)) as Hyes.
    { intros e' Hr Hl. rw (running_finishes a o os e' Hr). split.
      - intros (status & finish & Hb & Hrest). exists status, o, finish. split; [|done]. exists [], os, cmdline. split; [done|]. split; [constructor|done].
      - intros (status & start & finish & [[Ho _]|(-> & c & _ & _ & Hb)]%run_binds_inv & Hrest); [congruence|].
        by exists status, finish. }
    destruct cmdline as [line|]; [|apply Hyes; [by split|done]].
    destruct (bool_decide_reflect (line = am_command a)) as [->|Hne]; simpl.
    + apply Hyes; [by split|]. by intros line [= <-].
    + apply Hno; [by intros (? & ? & ?)|right; by eexists|done|]. intros c [= <-]. by exists line.
  - apply Hno; [by intros (? & ? & ?)|by left|done|done].
  - apply Hno; [by intros (? & ? & ?)|right; by eexists|done|done].
Qed.

(** ** The table *)

Lemma NoDup_keys_filter {A B} (P : A * B → Prop) `{∀ x, Decision (P x)} (l : list (A * B)) :
  NoDup l.*1 → NoDup (filter P l).*1.
Proof.
  induction l as [|[k v] l IH]; [done|]. rw fmap_cons filter_cons. intros [Hk Hl]%NoDup_cons. case_decide; [|by apply IH].
  rw fmap_cons. apply NoDup_cons. split; [|by apply IH]. contradict Hk. simpl in *.
  apply list_elem_of_fmap in Hk as ([k' v'] & -> & Hin). apply list_elem_of_fmap. exists (k', v').
  by apply list_elem_of_filter in Hin as [_ Hin].
Qed.

(** A listing with a condition is a listing of what satisfies it. *)
Lemma filtered_list (P : RunId * Entry → Prop) `{∀ x, Decision (P x)} t :
  filter P (map_to_list t) ≡ₚ map_to_list (filter P t).
Proof.
  rw map_filter_alt map_to_list_to_map; [|done]. apply NoDup_keys_filter, NoDup_fst_map_to_list.
Qed.

Lemma filtered_length (P : RunId * Entry → Prop) `{∀ x, Decision (P x)} t :
  length (filter P (map_to_list t)) = size (filter P t).
Proof. by rw (filtered_list P t) length_map_to_list. Qed.

Record TableInv t : Prop := {
  ti_total : size t ≤ MAX_TOTAL;
  ti_pane : ∀ pane, size (filter (of_pane pane) t) ≤ MAX_PER_PANE;
  ti_key : ∀ run e, t !! run = Some e → am_run (en_admission e) = run;
  ti_one : ∀ run run' e e', t !! run = Some e → t !! run' = Some e' → run_pending e = true → run_pending e' = true →
    am_pane (en_admission e) = am_pane (en_admission e') → run = run'
}.

Lemma pending_run_Some pane t run e :
  pending_run pane t = Some (run, e) → t !! run = Some e ∧ am_pane (en_admission e) = pane ∧ run_pending e = true.
Proof.
  unfold pending_run. intros Hh. assert ((run, e) ∈ filter (pending_on pane) (map_to_list t)) as Hin.
  { destruct (filter _ _); [done|]. injection Hh as ->. by left. }
  apply list_elem_of_filter in Hin as [[Hp Hr] Hin]. by apply elem_of_map_to_list in Hin.
Qed.

Lemma pending_run_None pane t run e :
  pending_run pane t = None → t !! run = Some e → am_pane (en_admission e) = pane → run_pending e = false.
Proof.
  unfold pending_run. intros Hh Hr Hp. destruct (run_pending e) eqn:Hpe; [|done].
  assert ((run, e) ∈ filter (pending_on pane) (map_to_list t)) as Hin.
  { apply list_elem_of_filter. split; [done|]. by apply elem_of_map_to_list. }
  destruct (filter _ _); [|done]. by apply not_elem_of_nil in Hin.
Qed.

(** Removing receipts keeps the table's bounds. *)
Lemma inv_subseteq t t' : t' ⊆ t → TableInv t → TableInv t'.
Proof.
  intros Hs [I1 I2 I3 I4]. pose proof (λ k e, lookup_weaken (M := gmap RunId) t' t k e) as Hw. split.
  - etrans; [by apply map_subseteq_size|done].
  - intros pane. etrans; [apply map_subseteq_size|apply (I2 pane)]. by apply map_filter_subseteq_mono.
  - intros run e He. apply I3. by eapply Hw.
  - intros run run' e e' He He'. by apply I4; eapply Hw.
Qed.

(** An entry changed in place, still of its run and Pane and not pending anew. *)
Lemma inv_update t run e e' :
  t !! run = Some e → am_run (en_admission e') = am_run (en_admission e) →
  am_pane (en_admission e') = am_pane (en_admission e) → (run_pending e' = true → run_pending e = true) →
  TableInv t → TableInv (<[run := e']> t).
Proof.
  intros Hr Hk Hp Hpe [I1 I2 I3 I4]. split.
  - by rw map_size_insert_Some.
  - intros pane. specialize (I2 pane). assert (dom (filter (of_pane pane) (<[run := e']> t)) ⊆ dom (filter (of_pane pane) t)) as Hd.
    { intros k. rw !elem_of_dom. intros [x Hx]. apply map_lookup_filter_Some in Hx as [Hx Hpx].
      apply lookup_insert_Some in Hx as [[<- <-]|[Hne Hx]]; [|exists x; by apply map_lookup_filter_Some].
      exists e. apply map_lookup_filter_Some. split; [done|]. unfold of_pane in *. simpl in *. congruence. }
    apply subseteq_size in Hd. rw !size_dom in Hd. lia.
  - intros k x [[<- <-]|[Hne Hx]]%lookup_insert_Some; [|by apply I3]. rw Hk. by apply I3.
  - intros k k' x x' [[<- <-]|[Hne Hx]]%lookup_insert_Some [[<- <-]|[Hne' Hx']]%lookup_insert_Some; try done;
      intros Hpx Hpx' Hpane.
    + eapply I4; [exact Hr|exact Hx'|by apply Hpe|done|congruence].
    + eapply I4; [exact Hx|exact Hr|done|by apply Hpe|congruence].
    + by eapply I4.
Qed.

Lemma observe_keeps o e :
  let e' := (entry_observe o e).1 in en_admission e' = en_admission e ∧ (run_pending e' = true → run_pending e = true).
Proof.
  unfold entry_observe. destruct (run_pending e) eqn:Hp; [|simpl; split; [done|congruence]]. simpl. split; [|done].
  by repeat case_match.
Qed.

Lemma inv_on_pending {A} pane (change : Entry → Entry * option A) t :
  (∀ e, en_admission (change e).1 = en_admission e ∧ (run_pending (change e).1 = true → run_pending e = true)) →
  TableInv t → TableInv (on_pending pane change t).1.
Proof.
  intros Hc Hi. unfold on_pending. destruct (pending_run pane t) as [[run e]|] eqn:Hp; [|done].
  apply pending_run_Some in Hp as (Hr & _ & _). destruct (Hc e) as [Ha Hpe].
  destruct (change e) as [e' out]. apply (inv_update t run e); simpl in *; try done; by rw Ha.
Qed.

Lemma inv_admit a t : TableInv t → TableInv (run_admit a t).1.
Proof.
  intros Hi. unfold run_admit, run_check. destruct (filter (pending_on _) _) as [|x l] eqn:Ep; [|done]. cbn [is_empty negb].
  rw filtered_length. destruct (Nat.leb_spec MAX_TOTAL (size t)); [done|].
  destruct (Nat.leb_spec MAX_PER_PANE (size (filter (of_pane (am_pane a)) t))); [done|]. cbn [orb].
  destruct (t !! am_run a) eqn:Er; [done|]. destruct Hi as [I1 I2 I3 I4].
  assert (∀ run e, t !! run = Some e → am_pane (en_admission e) = am_pane a → run_pending e = false) as Hno.
  { intros run e. apply pending_run_None. unfold pending_run. by rw Ep. }
  split; simpl.
  - rw map_size_insert_None //.
  - intros pane. destruct (decide (am_pane a = pane)) as [<-|Hne].
    + rw map_filter_insert_True //. rw map_size_insert_None; [by apply map_lookup_filter_None; left|]. lia.
    + rw map_filter_insert_False //. rw delete_id //.
  - intros run e [[<- <-]|[Hne Hr]]%lookup_insert_Some; [done|by apply I3].
  - intros run run' e e' [[<- <-]|[Hne Hr]]%lookup_insert_Some [[<- <-]|[Hne' Hr']]%lookup_insert_Some; try done; simpl;
      intros Hp Hp' Hpane.
    + by rw (Hno _ _ Hr') in Hp'.
    + by rw (Hno _ _ Hr) in Hp.
    + by eapply I4.
Qed.

(** A call of the host on the table. *)
Inductive RunCall :=
  | Rc_Admit (admission : RunAdmission)
  | Rc_Admitted (run : RunId) (start : HistoryPosition) (finished_commands : N)
  | Rc_Refused (run : RunId)
  | Rc_Observe (pane : N) (o : Observation)
  | Rc_SessionEnded (pane : N)
  | Rc_TakenOver (pane : N)
  | Rc_Acknowledge (client : N) (run : RunId)
  | Rc_Forget (client : N).

Definition table_call (call : RunCall) t : RunTable * option Settled :=
  match call with
  | Rc_Admit admission => ((run_admit admission t).1, None)
  | Rc_Admitted run start finished_commands => (run_admitted run start finished_commands t, None)
  | Rc_Refused run => (run_refused run t, None)
  | Rc_Observe pane o => observe_marker pane o t
  | Rc_SessionEnded pane => session_ended pane t
  | Rc_TakenOver pane => (run_taken_over pane t, None)
  | Rc_Acknowledge client run => ((run_acknowledge client run t).1, None)
  | Rc_Forget client => (run_forget client t, None)
  end.

Definition after_calls (calls : list RunCall) t : RunTable := foldl (λ t call, (table_call call t).1) t calls.
Fixpoint settlements (calls : list RunCall) t : list Settled :=
  match calls with
  | [] => []
  | call :: calls => option_list (table_call call t).2 ++ settlements calls (table_call call t).1
  end.

Lemma ended_keeps e :
  let change e := let '(e, settled) := entry_settle Run_SessionEnded None e in (e, Some settled) in
  en_admission (change e).1 = en_admission e ∧ (run_pending (change e).1 = true → run_pending e = true).
Proof. done. Qed.

Lemma inv_call call t : TableInv t → TableInv (table_call call t).1.
Proof.
  intros Hi. destruct call as [a|run start n|run|pane o|pane|pane|client run|client]; simpl.
  - by apply inv_admit.
  - unfold run_admitted. destruct (t !! run) as [e|] eqn:Hr; [|done]. by apply (inv_update t run e).
  - by apply (inv_subseteq t), Hi; apply delete_subseteq.
  - apply inv_on_pending; [|done]. intros e. apply observe_keeps.
  - apply inv_on_pending; [|done]. intros e. apply ended_keeps.
  - apply inv_on_pending; [|done]. done.
  - unfold run_acknowledge. destruct (t !! run); [|done]. destruct (_ && _); [|done].
    apply (inv_subseteq t), Hi; apply delete_subseteq.
  - apply (inv_subseteq t), Hi. apply map_filter_subseteq.
Qed.

Lemma inv_calls calls t : TableInv t → TableInv (after_calls calls t).
Proof. revert t. induction calls as [|call calls IH]; intros t Hi; [done|]. apply IH. by apply inv_call. Qed.

Lemma inv_no_runs : TableInv ∅.
Proof. split; [apply Nat.le_0_l|intros pane; rw map_filter_empty; apply Nat.le_0_l|done|done]. Qed.

(** Whatever the host does with its runs, the table holds at most 128 receipts and at
    most 8 of a Pane, each under its own run, and at most one run of a Pane is pending. *)
Theorem runs_bounded calls :
  let t := after_calls calls ∅ in
  size t ≤ MAX_TOTAL ∧ (∀ pane, size (filter (of_pane pane) t) ≤ MAX_PER_PANE) ∧
  (∀ run e, t !! run = Some e → am_run (en_admission e) = run) ∧
  (∀ run run' e e', t !! run = Some e → t !! run' = Some e' → run_pending e = true → run_pending e' = true →
    am_pane (en_admission e) = am_pane (en_admission e') → run = run').
Proof. by destruct (inv_calls calls ∅ inv_no_runs). Qed.

(** ** A settled receipt *)

(** The calls by which the receipt of a run leaves the table. *)
Definition retires (client : N) (run : RunId) (call : RunCall) : Prop :=
  match call with
  | Rc_Refused run' => run' = run
  | Rc_Acknowledge client' run' => client' = client ∧ run' = run
  | Rc_Forget client' => client' = client
  | _ => False
  end.

Definition Holds_settled (client : N) (run : RunId) (receipt : RunReceipt) t : Prop :=
  ∃ e, t !! run = Some e ∧ am_client (en_admission e) = client ∧ run_pending e = false ∧ entry_receipt e = receipt.

(** A change of another entry leaves a settled one alone. *)
Lemma on_pending_other pane (change : Entry → Entry * option Settled) t run e :
  t !! run = Some e → run_pending e = false → (on_pending pane change t).1 !! run = Some e.
Proof.
  intros Hr Hp. unfold on_pending. destruct (pending_run pane t) as [[run' e']|] eqn:Hh; [|done].
  apply pending_run_Some in Hh as (Hr' & _ & Hp'). destruct (change e'). simpl.
  destruct (decide (run' = run)) as [->|Hne]; [congruence|]. by rw lookup_insert_ne.
Qed.

Lemma settled_call client run receipt call t :
  ¬ retires client run call → Holds_settled client run receipt t → Holds_settled client run receipt (table_call call t).1.
Proof.
  intros Hn (e & Hr & Hc & Hp & He).
  assert (∀ pane change, Holds_settled client run receipt (on_pending (A := Settled) pane change t).1) as Hon
    by (intros; exists e; split; [by apply on_pending_other|done]).
  destruct call as [a|run' start n|run'|pane o|pane|pane|client' run'|client']; simpl in *; try apply Hon.
  - unfold run_admit. destruct (run_check _ t); [|by exists e]. destruct (t !! am_run a) eqn:Ea; [by exists e|].
    exists e. simpl. rw lookup_insert_ne; [congruence|]. done.
  - unfold run_admitted. destruct (t !! run') as [e'|] eqn:Er; [|by exists e].
    destruct (decide (run' = run)) as [->|Hne]; [|exists e; by rw lookup_insert_ne].
    rw Hr in Er. injection Er as <-. eexists. rw lookup_insert_eq. split; [done|]. done.
  - exists e. unfold run_refused. by rw lookup_delete_ne.
  - unfold run_acknowledge. destruct (t !! run') as [e'|] eqn:Er; [|by exists e].
    destruct (N.eqb_spec (am_client (en_admission e')) client') as [Hc'|]; [|by exists e].
    destruct (negb _); [|by exists e]. exists e. simpl. rw lookup_delete_ne; [|done]. intros ->. apply Hn.
    rw Hr in Er. injection Er as <-. split; congruence.
  - exists e. unfold run_forget. split; [|done]. apply map_lookup_filter_Some. split; [done|]. simpl. congruence.
Qed.

Lemma observe_settles o e e' s :
  entry_observe o e = (e', Some s) → run_pending e' = false ∧ se_receipt s = entry_receipt e'.
Proof.
  unfold entry_observe, entry_settle. destruct (run_pending e) eqn:Hp; [|done]. simpl. unfold run_pending in *.
  destruct (ob_marker o); destruct (en_state e) eqn:Es; try done; intros [= <- <-]; split; try done; simpl;
    repeat case_match; done.
Qed.

(** What a call settles it settles now, from pending, and the receipt it reports is the
    one its client then reads. *)
Lemma call_settles call t t' s :
  TableInv t → table_call call t = (t', Some s) →
  ∃ client, Holds_settled client (rr_run (se_receipt s)) (se_receipt s) t' ∧
    ∀ e, t !! rr_run (se_receipt s) = Some e → run_pending e = true.
Proof.
  intros Hi Hcall.
  assert (∀ pane (change : Entry → Entry * option Settled),
    (∀ e e' s, change e = (e', Some s) → run_pending e' = false ∧ se_receipt s = entry_receipt e' ∧
      en_admission e' = en_admission e) →
    on_pending pane change t = (t', Some s) →
    ∃ client, Holds_settled client (rr_run (se_receipt s)) (se_receipt s) t' ∧
      ∀ e, t !! rr_run (se_receipt s) = Some e → run_pending e = true) as Hon.
  { intros pane change Hch. unfold on_pending. destruct (pending_run pane t) as [[run e]|] eqn:Hh; [|done].
    apply pending_run_Some in Hh as (Hr & _ & Hpe). destruct (change e) as [e' out] eqn:Ec. intros [= <- ->].
    destruct (Hch e e' s Ec) as (Hp & Hs & Ha).
    assert (rr_run (se_receipt s) = run) as Hrun by (rw Hs; simpl; rw Ha; by apply (ti_key _ Hi)).
    rw Hrun. exists (am_client (en_admission e')). split; [|intros e0 He0; congruence].
    exists e'. rw lookup_insert_eq. by rw Hs. }
  destruct call as [a|run start n|run|pane o|pane|pane|client run|client]; try done.
  - apply (Hon pane (entry_observe o)); [|done]. intros e e' s' He. destruct (observe_settles _ _ _ _ He) as [Hp Hs].
    split; [done|]. split; [done|]. pose proof (observe_keeps o e) as [Ha _]. by rw He in Ha.
  - refine (Hon pane _ _ Hcall). by intros e e' s' [= <- <-].
Qed.

Lemma settled_calls client run receipt calls : ∀ t,
  TableInv t → Forall (λ call, ¬ retires client run call) calls → Holds_settled client run receipt t →
  Holds_settled client run receipt (after_calls calls t) ∧
  Forall (λ s, rr_run (se_receipt s) ≠ run) (settlements calls t).
Proof.
  induction calls as [|call calls IH]; intros t Hi Hn Hh; [done|]. apply Forall_cons in Hn as [Hc Hn].
  pose proof (settled_call _ _ _ _ _ Hc Hh) as Hh'. destruct (IH _ (inv_call call t Hi) Hn Hh') as [Ha Hs].
  split; [done|]. cbn [settlements]. apply Forall_app. split; [|done].
  destruct (table_call call t) as [t1 [s|]] eqn:Ec; [|constructor]. simpl. constructor; [|constructor].
  destruct (call_settles _ _ _ _ Hi Ec) as (_ & _ & Hp). destruct Hh as (e & He & _ & Hpe & _).
  intros Hrun. rw Hrun in Hp. specialize (Hp e He). congruence.
Qed.

(** A run settles at most once and for good: what a marker, or the end of its Session,
    settles is what its client reads from then on, through every later call, until the
    client acknowledges the run or is forgotten, and nothing settles the run again. *)
Theorem settled_receipt_kept calls call t' s :
  table_call call (after_calls calls ∅) = (t', Some s) →
  ∃ client, run_receipt client (rr_run (se_receipt s)) t' = Some (se_receipt s) ∧
    ∀ later, Forall (λ call, ¬ retires client (rr_run (se_receipt s)) call) later →
      run_receipt client (rr_run (se_receipt s)) (after_calls later t') = Some (se_receipt s) ∧
      Forall (λ s', rr_run (se_receipt s') ≠ rr_run (se_receipt s)) (settlements later t').
Proof.
  intros Hc. pose proof (inv_calls calls ∅ inv_no_runs) as Hi. destruct (call_settles _ _ _ _ Hi Hc) as (client & Hh & _).
  assert (∀ t, Holds_settled client (rr_run (se_receipt s)) (se_receipt s) t →
    run_receipt client (rr_run (se_receipt s)) t = Some (se_receipt s)) as Hread.
  { intros t (e & He & Hcl & _ & Hr). unfold run_receipt, entry_of. rw He Hcl N.eqb_refl. simpl. by rw Hr. }
  exists client. split; [by apply Hread|]. intros later Hn. apply (inv_call call) in Hi. rw Hc in Hi.
  destruct (settled_calls client _ _ later t' Hi Hn Hh) as [Ha Hs]. split; [by apply Hread|done].
Qed.

(** ** A concrete run *)

Module Sample.
Definition run : RunId := {| run_id := [7]%N |}.
Definition origin : HistoryPosition := {| hp_epoch := 0; hp_row := 0 |}.
Definition admission : RunAdmission :=
  {| am_pane := 1; am_session := 2; am_run := run; am_client := 3; am_connection := 4; am_wire_channel := 1;
     am_command := [108; 115]; am_start := origin; am_finished_commands := 0; am_at := 0 |}%N.
Definition marked (marker : Marker) (finished_commands at_ : N) : Observation :=
  {| ob_marker := marker; ob_finished_commands := finished_commands; ob_position := origin; ob_at := at_ |}.
Definition calls : list RunCall :=
  [Rc_Admit admission; Rc_Admitted run origin 5;
   Rc_Observe 1 (marked (CommandStart (Some [108; 115])) 5 1000000)]%N.
Definition last_marker : RunCall := Rc_Observe 1 (marked (CommandFinished (Some 0%Z)) 6 3500000).

Lemma settled_receipt_kept_witness :
  ∃ t' s, table_call last_marker (after_calls calls ∅) = (t', Some s) ∧
    rr_state (se_receipt s) = Run_Finished (Some 0%Z) 2 ∧
    ∃ client, run_receipt client (rr_run (se_receipt s)) t' = Some (se_receipt s).
Proof.
  eexists _, _. split; [vm_compute; reflexivity|]. split; [vm_compute; reflexivity|].
  destruct (settled_receipt_kept calls last_marker _ _ ltac:(vm_compute; reflexivity)) as (client & Hr & _).
  exists client. exact Hr.
Defined.
End Sample.
