(* ===== verification/WorkspaceOrder.v ===== *)
(** * The order of Workspaces across servers

    [crates/spaceterm-core/src/workspace_order.rs]: a desktop keeps one order of all
    Workspaces it has presented, with slots for those that are detached or whose server
    has not reconnected yet. Its theorems follow the definitions. *)
From stdpp Require Import fin_sets.
From S2P Require Import Prelude.
From S2P Require Import Facts.
From S2P Require Import HierarchyTypes.

Definition MAX_ENTRIES : N := 16384.

Record WorkspaceReference := { wr_owner : N; wr_workspace : N }.
#[export] Instance workspace_reference_eq_dec : EqDecision WorkspaceReference.
Proof. solve_decision. Defined.
#[export] Program Instance workspace_reference_countable : Countable WorkspaceReference :=
  inj_countable' (λ w, (wr_owner w, wr_workspace w)) (λ w, {| wr_owner := w.1; wr_workspace := w.2 |}) _.
Next Obligation. by intros []. Qed.

Implicit Types order presented : list WorkspaceReference.

(** The filters of [restore]: what is still in the set, removing it. *)
Fixpoint take_remaining order (remaining : gset WorkspaceReference) : list WorkspaceReference * gset WorkspaceReference :=
  match order with
  | [] => ([], remaining)
  | w :: order =>
      if decide (w ∈ remaining)
      then let '(taken, remaining) := take_remaining order (remaining ∖ {[w]}) in (w :: taken, remaining)
      else take_remaining order remaining
  end.

(** [WorkspaceOrder::restore]. *)
Definition order_restore order presented : list WorkspaceReference :=
  let '(ordered, remaining) := take_remaining order (list_to_set presented) in
  ordered ++ (take_remaining presented remaining).1.

(** [validate]: how many entries, no zero identity, none twice. *)
Fixpoint order_unique (seen : gset WorkspaceReference) order : bool :=
  match order with
  | [] => true
  | w :: order =>
      negb (wr_owner w =? 0)%N && negb (wr_workspace w =? 0)%N && negb (bool_decide (w ∈ seen))
      && order_unique ({[w]} ∪ seen) order
  end.
Definition order_validate order : result unit CoreError :=
  if (MAX_ENTRIES <? N.of_nat (length order))%N then Err Error_Capacity
  else if order_unique ∅ order then Ok tt else Err Error_UnsafeStorage.

(** The loop of [record]: presented Workspaces take the slots of visible ones in turn. *)
Fixpoint fill_slots (visible : gset WorkspaceReference) order (next : list WorkspaceReference)
    : list WorkspaceReference * list WorkspaceReference :=
  match order with
  | [] => ([], next)
  | w :: order =>
      match (if decide (w ∈ visible) then next else []) with
      | replacement :: next =>
          let '(filled, next) := fill_slots visible order next in (replacement :: filled, next)
      | [] => let '(filled, next) := fill_slots visible order next in (w :: filled, next)
      end
  end.

(** [WorkspaceOrder::record]. *)
Definition order_record presented order : list WorkspaceReference * result unit CoreError :=
  match order_validate order, order_validate presented with
  | Err error, _ => (order, Err error)
  | Ok _, Err error => (order, Err error)
  | Ok _, Ok _ =>
      let visible : gset WorkspaceReference := list_to_set presented in
      let previous : gset WorkspaceReference := list_to_set order in
      if (MAX_ENTRIES <? N.of_nat (length order + size (visible ∖ previous)))%N then (order, Err Error_Capacity)
      else let '(filled, next) := fill_slots visible order presented in (filled ++ next, Ok tt)
  end.

(** [WorkspaceOrder::reconcile_owner]. *)
Definition order_reconcile (owner : N) (inventory : list N) order : list WorkspaceReference :=
  vfilter (λ w, negb (wr_owner w =? owner)%N || bool_decide (wr_workspace w ∈ inventory)) order.

(** [WorkspaceOrderStore]; [written] is what became of the write. *)
Record WorkspaceOrderStore := { os_order : list WorkspaceReference; os_blocked : bool }.
Definition order_save order (written : result unit CoreError) (s : WorkspaceOrderStore)
    : WorkspaceOrderStore * result unit CoreError :=
  if os_blocked s then (s, Err Error_StorageUnavailable)
  else match order_validate order with
  | Err error => (s, Err error)
  | Ok _ =>
      if bool_decide (os_order s = order) then (s, Ok tt)
      else match written with
      | Ok _ => ({| os_order := order; os_blocked := false |}, Ok tt)
      | Err error => ({| os_order := order; os_blocked := true |}, Err error)
      end
  end.

(** ** What restoring and recording do *)

Lemma take_remaining_spec order : ∀ remaining, NoDup order →
  take_remaining order remaining = (filter (.∈ remaining) order, remaining ∖ list_to_set order).
Proof.
  induction order as [|w order IH]; intros remaining Hn; simpl.
  - by rw difference_empty_L.
  - apply NoDup_cons in Hn as [Hw Hn]. rw filter_cons. case_decide as Hin.
    + rw IH //. f_equal; [|set_solver]. f_equal. 
      clear -Hw. induction order as [|v order IH]; [done|]. apply not_elem_of_cons in Hw as [Hne Hw].
      rw !filter_cons IH //. repeat case_decide; try done; set_solver.
    + rw IH //. f_equal. set_solver.
Qed.

Lemma filter_split {A} (P : A → Prop) `{∀ x, Decision (P x)} (l : list A) :
  filter P l ++ filter (λ x, ¬ P x) l ≡ₚ l.
Proof.
  induction l as [|x l IH]; [done|]. rw !filter_cons. destruct (decide (P x)), (decide (¬ P x)); try done.
  - simpl. by rw IH.
  - rw -Permutation_middle. by rw IH.
Qed.

Lemma filter_agree {A} (P Q : A → Prop) `{∀ x, Decision (P x), ∀ x, Decision (Q x)} (l : list A) :
  (∀ x, x ∈ l → P x ↔ Q x) → filter P l = filter Q l.
Proof.
  induction l as [|x l IH]; intros Hpq; [done|]. rw !filter_cons IH; [intros; apply Hpq; by right|].
  destruct (Hpq x ltac:(by left)). repeat case_decide; tauto || done.
Qed.

Lemma restore_filters order presented :
  NoDup order → NoDup presented →
  order_restore order presented = filter (.∈ presented) order ++ filter (.∉ order) presented.
Proof.
  intros Ho Hp. unfold order_restore. rw !take_remaining_spec //. simpl. f_equal.
  - apply list_filter_iff. intros w. by rw elem_of_list_to_set.
  - apply filter_agree. intros w Hw. set_solver.
Qed.

(** Restoring shows exactly the presented Workspaces: the retained ones in retained
    order, then the new ones in the order in which they were presented. *)
Theorem restore_exact order presented :
  NoDup order → NoDup presented →
  order_restore order presented = filter (.∈ presented) order ++ filter (.∉ order) presented ∧
  order_restore order presented ≡ₚ presented.
Proof.
  intros Ho Hp. split; [by apply restore_filters|]. rw (restore_filters _ _ Ho Hp).
  etrans; [|apply (filter_split (.∈ order) presented)]. apply Permutation_app; [|done].
  apply NoDup_Permutation; [by apply NoDup_filter|by apply NoDup_filter|]. intros w. rw !list_elem_of_filter. tauto.
Qed.

(** ** Recording *)

Lemma filter_all {A} (P : A → Prop) `{∀ x, Decision (P x)} (l : list A) : Forall P l → filter P l = l.
Proof. induction 1 as [|x l Hx _ IH]; [done|]. by rw filter_cons decide_True // IH. Qed.

Lemma filter_none {A} (P : A → Prop) `{∀ x, Decision (P x)} (l : list A) : Forall (λ x, ¬ P x) l → filter P l = [].
Proof. induction 1 as [|x l Hx _ IH]; [done|]. by rw filter_cons decide_False // IH. Qed.

Lemma order_unique_spec order : ∀ seen,
  order_unique seen order = true ↔
  NoDup order ∧ Forall (λ w, wr_owner w ≠ 0%N ∧ wr_workspace w ≠ 0%N ∧ w ∉ seen) order.
Proof.
  induction order as [|w order IH]; intros seen; simpl; [split; [by split; constructor|done]|].
  rw !andb_true_iff IH !negb_true_iff !N.eqb_neq bool_decide_eq_false NoDup_cons Forall_cons.
  split.
  - intros [[[Ho Hw] Hs] [Hn Hall]]. split; [split; [|done]|split; [done|]].
    + intros Hin. rw Forall_forall in Hall. destruct (Hall w Hin) as (_ & _ & Hne). set_solver.
    + eapply Forall_impl; [exact Hall|]. intros v (? & ? & ?). set_solver.
  - intros [[Hw Hn] [(Ho & Hwk & Hs) Hall]]. split; [done|]. split; [done|].
    rw !Forall_forall in Hall |- *. intros v Hv. destruct (Hall v Hv) as (? & ? & ?). split; [done|]. split; [done|].
    assert (v ≠ w) by (intros ->; done). set_solver.
Qed.

(** What a valid order is. *)
Definition Order_valid order : Prop :=
  (N.of_nat (length order) <= MAX_ENTRIES)%N ∧ NoDup order ∧
  Forall (λ w, wr_owner w ≠ 0%N ∧ wr_workspace w ≠ 0%N) order.

Lemma order_validate_spec order : order_validate order = Ok tt ↔ Order_valid order.
Proof.
  unfold order_validate, Order_valid. destruct (N.ltb_spec MAX_ENTRIES (N.of_nat (length order))) as [Hl|Hl].
  - split; [done|]. intros [Hle _]. lia.
  - pose proof (order_unique_spec order ∅) as Hu. destruct (order_unique ∅ order).
    + split; [|done]. intros _. destruct Hu as [Hu _]. destruct (Hu eq_refl) as [Hn Hall]. split; [done|]. split; [done|].
      eapply Forall_impl; [exact Hall|]. tauto.
    + split; [done|]. intros (_ & Hn & Hall). destruct Hu as [_ Hu]. discriminate Hu. split; [done|].
      eapply Forall_impl; [exact Hall|]. set_solver.
Qed.

(** The slots of visible Workspaces take the next ones in turn; the others stay. *)
Lemma fill_slots_spec visible order : ∀ next filled rest,
  Forall (.∈ visible) next → length (filter (.∈ visible) order) ≤ length next →
  fill_slots visible order next = (filled, rest) →
  next = filter (.∈ visible) filled ++ rest ∧ filter (.∉ visible) filled = filter (.∉ visible) order ∧
  length filled = length order ∧
  (∀ i w, order !! i = Some w → w ∉ visible → filled !! i = Some w).
Proof.
  induction order as [|w order IH]; intros next filled rest Hv Hl; simpl; [by intros [= <- <-]|].
  rw filter_cons in Hl. destruct (decide (w ∈ visible)) as [Hw|Hw].
  - destruct next as [|r next]; [simpl in Hl; lia|]. destruct (fill_slots visible order next) as [f n] eqn:E.
    intros [= <- <-]. apply Forall_cons in Hv as [Hr Hv]. simpl in Hl.
    destruct (IH next f n Hv ltac:(lia) E) as (-> & Hf & Hlen & Hi).
    rw !filter_cons. repeat case_decide; try done.
    split; [done|]. split; [done|]. split; [by rw /= Hlen|]. intros [|i] v; [by intros [= <-]|]. apply Hi.
  - destruct (fill_slots visible order next) as [f n] eqn:E. intros [= <- <-].
    destruct (IH next f n Hv Hl E) as (Hn & Hf & Hlen & Hi). rw !filter_cons.
    repeat case_decide; try done. rw Hf. split; [done|]. split; [done|]. split; [by rw /= Hlen|].
    intros [|i] v; [done|]. apply Hi.
Qed.

Lemma visible_slots_le order presented :
  NoDup order → NoDup presented → length (filter (.∈ (list_to_set presented : gset _)) order) ≤ length presented.
Proof.
  intros Ho Hp. apply submseteq_length, NoDup_submseteq; [by apply NoDup_filter|].
  intros w. rw list_elem_of_filter elem_of_list_to_set. tauto.
Qed.

Lemma record_fills presented order order' :
  order_record presented order = (order', Ok tt) →
  Order_valid order ∧ Order_valid presented ∧
  filter (.∈ presented) order' = presented ∧ filter (.∉ presented) order' = filter (.∉ presented) order ∧
  (∀ i w, order !! i = Some w → w ∉ presented → order' !! i = Some w) ∧ length order ≤ length order' ∧
  (N.of_nat (length order') <= MAX_ENTRIES)%N.
Proof.
  unfold order_record. pose proof (order_validate_spec order) as Hvo. pose proof (order_validate_spec presented) as Hvp.
  destruct (order_validate order) as [[]|]; [|done]. destruct (order_validate presented) as [[]|]; [|done].
  destruct Hvo as [Hvo _], Hvp as [Hvp _]. specialize (Hvo eq_refl). specialize (Hvp eq_refl).
  pose proof Hvo as (Hlo & Ho & _). pose proof Hvp as (_ & Hp & _).
  set (visible := list_to_set presented : gset WorkspaceReference).
  destruct (N.ltb_spec MAX_ENTRIES (N.of_nat (length order + size (visible ∖ list_to_set order)))) as [|Hcap]; [done|].
  destruct (fill_slots visible order presented) as [filled next] eqn:E. intros [= <-].
  destruct (fill_slots_spec visible order presented filled next) as (Hn & Hf & Hlen & Hi);
    [|by apply visible_slots_le|done|].
  { apply Forall_forall. intros w. by rw elem_of_list_to_set. }
  assert (∀ l, filter (.∈ presented) l = filter (.∈ visible) l) as E1
    by (intros; apply list_filter_iff; intros w; by rw elem_of_list_to_set).
  assert (∀ l, filter (.∉ presented) l = filter (.∉ visible) l) as E2
    by (intros; apply list_filter_iff; intros w; by rw elem_of_list_to_set).
  assert (Forall (.∈ visible) next) as Hnv.
  { apply Forall_forall. intros w Hw. apply elem_of_list_to_set. rw Hn. apply elem_of_app. by right. }
  split; [done|]. split; [done|]. rw E1 !E2 !filter_app. split; [|split; [|split; [|split]]].
  - rw (filter_all _ next) //.
  - rw Hf (filter_none _ next); [|apply app_nil_r]. eapply Forall_impl; [exact Hnv|]. by intros w Hw Hx.
  - intros i w Hw Hx. apply lookup_app_l_Some. apply Hi; [done|]. by rw elem_of_list_to_set.
  - rw length_app Hlen. lia.
  - rw length_app Hlen. assert (length next ≤ size (visible ∖ list_to_set order)); [|lia].
    assert (NoDup next) as Hnn by (rw Hn in Hp; by apply NoDup_app in Hp as (_ & _ & Hp)).
    assert (length (filter (.∈ visible) filled) = length (filter (.∈ visible) order)) as Hcount.
    { pose proof (f_equal length Hf) as Hc.
      pose proof (Permutation_length (filter_split (.∈ visible) filled)) as C1.
      pose proof (Permutation_length (filter_split (.∈ visible) order)) as C2. rw !length_app in C1 C2. lia. }
    assert (size (visible ∖ list_to_set order) = length presented - length (filter (.∈ visible) order)) as ->.
    { replace (visible ∖ list_to_set order)
        with (visible ∖ list_to_set (filter (.∈ visible) order) : gset WorkspaceReference).
      - rw size_difference; [intros w; rw elem_of_list_to_set list_elem_of_filter; tauto|].
        rw !size_list_to_set //. by apply NoDup_filter.
      - apply set_eq. intros w. rw !elem_of_difference !elem_of_list_to_set list_elem_of_filter.
        assert (w ∈ visible ↔ w ∈ presented) by apply elem_of_list_to_set. tauto. }
    apply (f_equal length) in Hn. rw length_app in Hn. lia.
Qed.

Lemma record_valid presented order order' :
  order_record presented order = (order', Ok tt) →
  Order_valid order' ∧ order' ≡ₚ presented ++ filter (.∉ presented) order.
Proof.
  intros Hr. destruct (record_fills _ _ _ Hr) as ((_ & Ho & Hzo) & (_ & Hp & Hzp) & Hf & Hn & _ & _ & Hl).
  assert (order' ≡ₚ presented ++ filter (.∉ presented) order) as Hperm.
  { rw -{1}Hf -Hn. symmetry. apply filter_split. }
  split; [|done]. split; [done|]. rw Hperm. split.
  - apply NoDup_app. split; [done|]. split; [|by apply NoDup_filter]. intros w Hw. rw list_elem_of_filter. tauto.
  - apply Forall_app. split; [done|]. rw !Forall_forall in Hzo |- *. intros w. rw list_elem_of_filter. intros [_ Hw]. by apply Hzo.
Qed.

(** Recording an order is faithful and forgets nothing: the new order is valid, holds
    the old Workspaces and the presented ones, keeps every absent Workspace in its slot,
    and from then on restoring any part of what was presented, in whatever order its
    servers arrive, shows it in the presented order. *)
Theorem record_restores presented order order' :
  order_record presented order = (order', Ok tt) →
  Order_valid order' ∧ (∀ w, w ∈ order' ↔ w ∈ order ∨ w ∈ presented) ∧
  (∀ i w, order !! i = Some w → w ∉ presented → order' !! i = Some w) ∧
  (∀ part, NoDup part → part ⊆ presented → order_restore order' part = filter (.∈ part) presented).
Proof.
  intros Hr. destruct (record_valid _ _ _ Hr) as [Hv Hperm].
  destruct (record_fills _ _ _ Hr) as (_ & _ & Hf & Hn & Hi & _ & _). split; [done|]. split; [|split; [done|]].
  - intros w. rw Hperm elem_of_app list_elem_of_filter. destruct (decide (w ∈ presented)); tauto.
  - intros part Hp Hsub. pose proof Hv as (_ & Ho & _). rw restore_filters // (filter_none _ part).
    { apply Forall_forall. intros w Hw Hno. apply Hno. rw Hperm elem_of_app. left. by apply Hsub. }
    rw app_nil_r -{1}Hf. rw list_filter_filter. apply list_filter_iff. intros w. split; [|tauto]. intros Hw. split; [done|].
    by apply Hsub.
Qed.

Lemma fill_slots_same visible order :
  fill_slots visible order (filter (.∈ visible) order) = (order, []).
Proof.
  induction order as [|w order IH]; [done|]. simpl. rw filter_cons. destruct (decide (w ∈ visible)); by rw IH.
Qed.

(** A partial reconnect changes no position: when only some retained Workspaces are
    presented, recording what restoring shows of them leaves the order as it was. *)
Theorem partial_reconnect_keeps part order :
  Order_valid order → NoDup part → part ⊆ order →
  order_record (order_restore order part) order = (order, Ok tt).
Proof.
  intros Hv Hp Hsub. pose proof Hv as (Hl & Ho & Hz). rw (restore_filters _ _ Ho Hp) (filter_none _ part) ?app_nil_r.
  { apply Forall_forall. intros w Hw Hno. by apply Hno, Hsub. }
  set (shown := filter (.∈ part) order).
  assert (Order_valid shown) as Hs.
  { split; [|split; [by apply NoDup_filter|]].
    - assert (length shown ≤ length order); [|lia]. apply submseteq_length, sublist_submseteq, sublist_filter.
    - rw !Forall_forall in Hz |- *. intros w. unfold shown. rw list_elem_of_filter. intros [_ Hw]. by apply Hz. }
  unfold order_record. apply order_validate_spec in Hv as ->. apply order_validate_spec in Hs as ->.
  replace ((list_to_set shown : gset WorkspaceReference) ∖ list_to_set order) with (∅ : gset WorkspaceReference).
  2: { apply set_eq. intros w. unfold shown. rw elem_of_difference !elem_of_list_to_set list_elem_of_filter. set_solver. }
  rw size_empty. destruct (N.ltb_spec MAX_ENTRIES (N.of_nat (length order + 0))); [lia|].
  replace shown with (filter (.∈ (list_to_set shown : gset WorkspaceReference)) order) at 2.
  - by rw fill_slots_same app_nil_r.
  - apply filter_agree. intros w Hw. unfold shown. rw elem_of_list_to_set list_elem_of_filter. tauto.
Qed.

(** ** Concrete orders *)

Module Sample.
Definition at_ (owner workspace : N) : WorkspaceReference := {| wr_owner := owner; wr_workspace := workspace |}.
Definition kept : list WorkspaceReference := [at_ 2 2; at_ 1 1; at_ 2 1; at_ 1 2].

Lemma restore_exact_witness :
  order_restore kept [at_ 1 2; at_ 3 3; at_ 1 1] = [at_ 1 1; at_ 1 2; at_ 3 3] ∧
  order_restore kept [at_ 1 2; at_ 3 3; at_ 1 1] ≡ₚ [at_ 1 2; at_ 3 3; at_ 1 1].
Proof.
  split; [vm_compute; reflexivity|]. apply (restore_exact kept [at_ 1 2; at_ 3 3; at_ 1 1]);
    apply (bool_decide_unpack _); vm_compute; exact I.
Defined.

Lemma record_restores_witness :
  ∃ order', order_record [at_ 1 2; at_ 3 3; at_ 1 1] kept = (order', Ok tt) ∧
    order' !! 0 = Some (at_ 2 2) ∧ order_restore order' [at_ 1 1; at_ 3 3] = [at_ 3 3; at_ 1 1].
Proof.
  exists [at_ 2 2; at_ 1 2; at_ 2 1; at_ 3 3; at_ 1 1]. split; [vm_compute; reflexivity|]. split; [reflexivity|].
  apply (record_restores [at_ 1 2; at_ 3 3; at_ 1 1] kept); [vm_compute; reflexivity| |set_solver].
  apply (bool_decide_unpack _). vm_compute. exact I.
Defined.

Lemma partial_reconnect_keeps_witness :
  order_record (order_restore kept [at_ 2 1; at_ 2 2]) kept = (kept, Ok tt).
Proof.
  apply (partial_reconnect_keeps [at_ 2 1; at_ 2 2] kept); [apply order_validate_spec; vm_compute; reflexivity| |set_solver].
  apply (bool_decide_unpack _). vm_compute. exact I.
Defined.
End Sample.
