(* ===== verification/Attachments.v ===== *)
(** * A client's attachments

    [crates/spaceterm-core/src/attachments.rs]: which Workspaces of a server a client has
    chosen to attach, and the releases it still owes the server for those it detached.
    The record on disk is part of the state, with what became of each write. Watchers and
    the file lock are not modelled; the link that carries a release is the caller's, so
    its answers are arguments. *)
From stdpp Require Import fin_maps.
From S2P Require Import Prelude.
From S2P Require Import Facts.
From S2P Require Import HierarchyTypes.
From stdpp Require Import fin_maps fin_sets.

Record Attachment := { at_workspace : Id; at_generation : N }.
#[export] Instance attachment_eq_dec : EqDecision Attachment.
Proof. solve_decision. Defined.

Record Choices := {
  co_initialized : bool;
  co_next_generation : N;
  co_attached : list Attachment;
  co_pending : list Attachment
}.
#[export] Instance choices_eq_dec : EqDecision Choices.
Proof. solve_decision. Defined.
Definition choices_default : Choices :=
  {| co_initialized := false; co_next_generation := 0; co_attached := []; co_pending := [] |}.

(** [valid_choices]: what [open] and the migration accept. *)
Definition valid_choices (c : Choices) : bool :=
  let unique : gset Id := list_to_set (map at_workspace (co_attached c)) in
  let generations : gset N := list_to_set (map at_generation (co_attached c ++ co_pending c)) in
  (size unique =? length (co_attached c))
  && (size unique <=? MAX_WORKSPACES)
  && (length (co_pending c) <=? MAX_WORKSPACES)
  && (co_initialized c || bool_decide (c = choices_default))
  && (size generations =? length (co_attached c) + length (co_pending c))
  && vall (λ g, negb (g =? 0)%N && (g <=? co_next_generation c)%N) (map at_generation (co_attached c ++ co_pending c)).

(** What became of a write: an error may have replaced the file or not. *)
Inductive Fate := Fate_Written | Fate_Failed (error : CoreError) (replaced : bool).

(** [State]; [as_stored] is the record on disk, when there is one to write. *)
Record AttachState := {
  as_choices : Choices;
  as_catalog : gmap Id Id;
  as_blocked : bool;
  as_stored : option Choices
}.
Implicit Types s : AttachState.

Definition set_as_catalog (catalog : gmap Id Id) s : AttachState :=
  {| as_choices := as_choices s; as_catalog := catalog; as_blocked := as_blocked s; as_stored := as_stored s |}.

(** [Attachments::memory], and [open] of a valid record (or of none). *)
Definition attachments_memory : AttachState :=
  {| as_choices := choices_default; as_catalog := ∅; as_blocked := false; as_stored := None |}.
Definition attachments_open (record : option Choices) : result AttachState CoreError :=
  let choices := default choices_default record in
  if valid_choices choices
  then Ok {| as_choices := choices; as_catalog := ∅; as_blocked := false; as_stored := Some choices |}
  else Err Error_UnsafeStorage.

(** [State::save]. *)
Definition attach_save (next : Choices) (fate : Fate) s : AttachState * result unit CoreError :=
  if as_blocked s then (s, Err Error_StorageUnavailable)
  else if (MAX_WORKSPACES <? length (co_attached next)) || (MAX_WORKSPACES <? length (co_pending next))
  then (s, Err Error_Capacity)
  else
    let saved stored := {| as_choices := next; as_catalog := as_catalog s; as_blocked := false; as_stored := stored |} in
    match as_stored s with
    | None => (saved None, Ok tt)
    | Some stored =>
        if bool_decide (as_choices s = next) then (saved (Some stored), Ok tt)
        else match fate with
        | Fate_Written => (saved (Some next), Ok tt)
        | Fate_Failed error replaced =>
            ({| as_choices := as_choices s; as_catalog := as_catalog s; as_blocked := true;
                as_stored := Some (if replaced then next else stored) |}, Err error)
        end
    end.

(** [Choices::attach]; an error leaves a clone behind that its caller drops. *)
Definition choices_attach (workspace : Id) (c : Choices) : result Choices CoreError :=
  if vany (λ a, bool_decide (at_workspace a = workspace)) (co_attached c)
  then Ok {| co_initialized := true; co_next_generation := co_next_generation c; co_attached := co_attached c;
             co_pending := co_pending c |}
  else
    let? generation := ok_or (u64_checked_add (co_next_generation c) 1) Error_Capacity in
    Ok {| co_initialized := true; co_next_generation := generation;
          co_attached := co_attached c ++ [{| at_workspace := workspace; at_generation := generation |}];
          co_pending := co_pending c |}.

Definition has_workspace (inventory : Inventory) (workspace : Id) : bool :=
  vany (λ w, bool_decide (w_id w = workspace)) (i_workspaces inventory).

(** The Panes of an inventory with their Workspaces; a later pair replaces an earlier one. *)
Definition catalog_of (inventory : Inventory) : gmap Id Id :=
  foldl (λ m entry, <[entry.1 := entry.2]> m) ∅
    (w ← i_workspaces inventory; t ← w_tabs w; map (λ p, (p_id p, w_id w)) (t_panes t)).

(** [Attachments::reconcile]. *)
Definition attach_reconcile (inventory : Inventory) (fate : Fate) s : AttachState * result unit CoreError :=
  let c := as_choices s in
  let next := {| co_initialized := co_initialized c; co_next_generation := co_next_generation c;
                 co_attached := vfilter (λ a, has_workspace inventory (at_workspace a)) (co_attached c);
                 co_pending := co_pending c |} in
  match attach_save next fate s with
  | (s, Err error) => (s, Err error)
  | (s, Ok _) => (set_as_catalog (catalog_of inventory) s, Ok tt)
  end.

(** [Attachments::initialize]; the second write is [reconcile]'s. *)
Definition attach_initialize (inventory : Inventory) (workspace : option Id) (fate fate' : Fate) s
    : AttachState * result bool CoreError :=
  if co_initialized (as_choices s) then
    match attach_reconcile inventory fate s with
    | (s, Err error) => (s, Err error)
    | (s, Ok _) => (s, Ok false)
    end
  else
    let next :=
      match workspace with
      | None => Ok (as_choices s)
      | Some workspace =>
          if has_workspace inventory workspace then choices_attach workspace (as_choices s)
          else Err Error_SessionUnavailable
      end in
    match next with
    | Err error => (s, Err error)
    | Ok c =>
        let next := {| co_initialized := true; co_next_generation := co_next_generation c;
                       co_attached := co_attached c; co_pending := co_pending c |} in
        match attach_save next fate s with
        | (s, Err error) => (s, Err error)
        | (s, Ok _) =>
            match attach_reconcile inventory fate' s with
            | (s, Err error) => (s, Err error)
            | (s, Ok _) => (s, Ok true)
            end
        end
    end.

Definition attach_changeable s : bool := negb (as_blocked s).
Definition is_attached (workspace : Id) s : bool :=
  negb (as_blocked s) && vany (λ a, bool_decide (at_workspace a = workspace)) (co_attached (as_choices s)).

(** [Attachments::attach]. *)
Definition attach (workspace : Id) (fate : Fate) s : AttachState * result bool CoreError :=
  if negb (vany (λ entry, bool_decide (entry.2 = workspace)) (map_to_list (as_catalog s))) then (s, Ok false)
  else match choices_attach workspace (as_choices s) with
  | Err error => (s, Err error)
  | Ok next =>
      match attach_save next fate s with
      | (s, Err error) => (s, Err error)
      | (s, Ok _) => (s, Ok true)
      end
  end.

(** The choices once [workspace] is detached: a later release subsumes earlier ones. *)
Definition choices_detach (workspace : Id) (c : Choices) : Choices :=
  match vposition (λ a, bool_decide (at_workspace a = workspace)) (co_attached c) with
  | None => c
  | Some index =>
      {| co_initialized := co_initialized c; co_next_generation := co_next_generation c;
         co_attached := vremove index (co_attached c);
         co_pending := vfilter (λ a, negb (bool_decide (at_workspace a = workspace))) (co_pending c)
                       ++ option_list (co_attached c !! index) |}
  end.

(** [Attachments::detach]. *)
Definition detach (workspace : Id) (fate : Fate) s : AttachState * result unit CoreError :=
  attach_save (choices_detach workspace (as_choices s)) fate s.

(** [Attachments::permit], and [AttachmentPermit::active] of the attachment it holds. *)
Definition attach_permit (pane : Id) s : option Attachment :=
  match as_catalog s !! pane with
  | None => None
  | Some workspace =>
      match vfind (λ a, bool_decide (at_workspace a = workspace)) (co_attached (as_choices s)) with
      | None => None
      | Some attachment => if as_blocked s then None else Some attachment
      end
  end.
Definition permit_active (attachment : Attachment) s : bool :=
  negb (as_blocked s) && bool_decide (attachment ∈ co_attached (as_choices s)).

(** [Attachments::released]. *)
Definition released (attachment : Attachment) (fate : Fate) s : AttachState * result unit CoreError :=
  let c := as_choices s in
  attach_save {| co_initialized := co_initialized c; co_next_generation := co_next_generation c;
                 co_attached := co_attached c;
                 co_pending := vfilter (λ old, negb (bool_decide (old = attachment))) (co_pending c) |} fate s.

(** [Attachments::release_pending]: what the server answered to each release, whether it
    was done, and what became of each write. *)
Fixpoint release_each (pending : list Attachment) (answer : Attachment → result bool CoreError)
    (fate : Attachment → Fate) s : AttachState * result unit CoreError :=
  match pending with
  | [] => (s, Ok tt)
  | attachment :: pending =>
      match answer attachment with
      | Err error => (s, Err error)
      | Ok false => (s, Err Error_Protocol)
      | Ok true =>
          match released attachment (fate attachment) s with
          | (s, Err error) => (s, Err error)
          | (s, Ok _) => release_each pending answer fate s
          end
      end
  end.
Definition release_pending (answer : Attachment → result bool CoreError) (fate : Attachment → Fate) s :=
  release_each (co_pending (as_choices s)) answer fate s.

(** ** Attachments are fenced by their generations

    Along every run of a client, restarts after failed writes included: every record it
    leaves on disk is one it opens again, an attachment that ended never comes back, and
    the release of a detached Workspace is owed until the server has it. *)
Implicit Types (c : Choices) (a : Attachment).

(** ** Well-formed choices *)

Definition same_workspace (workspace : Id) a : bool := bool_decide (at_workspace a = workspace).

(** Everything but how many there may be, which [save] checks. *)
Record Shape c : Prop := {
  sh_workspaces : NoDup (map at_workspace (co_attached c));
  sh_releases : NoDup (map at_workspace (co_pending c));
  sh_generations : NoDup (map at_generation (co_attached c ++ co_pending c));
  sh_range : Forall (λ g, 0 < g <= co_next_generation c)%N (map at_generation (co_attached c ++ co_pending c));
  sh_fenced : ∀ a b, a ∈ co_attached c → b ∈ co_pending c → at_workspace a = at_workspace b →
    (at_generation b < at_generation a)%N;
  sh_initial : co_initialized c = true ∨ c = choices_default
}.
Definition Counted c : Prop := length (co_attached c) ≤ MAX_WORKSPACES ∧ length (co_pending c) ≤ MAX_WORKSPACES.

(** How choices change: generations only grow, and an attachment that was not there has a
    new one. *)
Record Evolves c c' : Prop := {
  ev_next : (co_next_generation c <= co_next_generation c')%N;
  ev_fresh : ∀ a, a ∈ co_attached c' → a ∈ co_attached c ∨ (co_next_generation c < at_generation a)%N
}.

Lemma evolves_refl c : Evolves c c.
Proof. split; [lia|by left]. Qed.

Lemma evolves_trans c c' c'' : Evolves c c' → Evolves c' c'' → Evolves c c''.
Proof.
  intros [H1 H2] [H3 H4]. split; [lia|]. intros a Ha. destruct (H4 a Ha) as [Ha'|]; [|right; lia]. by apply H2.
Qed.

Lemma valid_of_shape c : Shape c → Counted c → valid_choices c = true.
Proof.
  intros [Hw _ Hg Hr _ Hi] [Ha Hp]. unfold valid_choices.
  rw !size_list_to_set // !length_map length_app !andb_true_iff !Nat.eqb_eq !Nat.leb_le.
  split; [split; [split; [split|]|]|]; try done.
  - destruct Hi as [->| ->]; [done|]. by rw bool_decide_eq_true_2 // orb_true_r.
  - unfold vall. apply forallb_forall. intros g Hin%list_elem_of_In. rw Forall_forall in Hr. specialize (Hr g Hin).
    rw andb_true_iff negb_true_iff N.eqb_neq N.leb_le. lia.
Qed.

(** ** The changes of choices *)

Lemma NoDup_map_submseteq {A B} (f : A → B) (l k : list A) : l ⊆+ k → NoDup (map f k) → NoDup (map f l).
Proof. intros Hs. apply NoDup_submseteq_l. by apply (fmap_submseteq f). Qed.

Lemma Forall_fewer {A} (P : A → Prop) (l k : list A) : l ⊆+ k → Forall P k → Forall P l.
Proof. rw !Forall_forall. intros Hs Hk x Hx. apply Hk. by eapply elem_of_submseteq. Qed.

(** Fewer attachments and releases are well formed if they keep the initial choice. *)
Lemma shape_fewer c c' :
  Shape c → co_attached c' ⊆+ co_attached c → co_pending c' ⊆+ co_pending c →
  co_next_generation c' = co_next_generation c → co_initialized c' = co_initialized c → Shape c' ∧ Evolves c c'.
Proof.
  intros [Hw Hp Hg Hr Hf Hi] Ha Hpe Hn Hin.
  assert (co_attached c' ++ co_pending c' ⊆+ co_attached c ++ co_pending c) as Hall by by apply submseteq_app.
  split; [split|split].
  - by eapply NoDup_map_submseteq.
  - by eapply NoDup_map_submseteq.
  - by eapply NoDup_map_submseteq.
  - rw Hn. eapply Forall_fewer; [|exact Hr]. by apply (fmap_submseteq at_generation).
  - intros a b Ha' Hb. apply Hf; by eapply elem_of_submseteq.
  - destruct Hi as [Hi| ->]; [left; congruence|]. right. destruct c' as [i n at_ pe]. simpl in *.
    apply submseteq_nil_r in Ha as ->. apply submseteq_nil_r in Hpe as ->. by subst.
  - lia.
  - intros a Ha'. left. by eapply elem_of_submseteq.
Qed.

Lemma vfilter_submseteq {A} (p : A → bool) (l : list A) : vfilter p l ⊆+ l.
Proof.
  apply sublist_submseteq. induction l as [|x l IH]; simpl; [done|]. destruct (p x); by constructor.
Qed.

Definition has_attached (workspace : Id) c : bool := vany (same_workspace workspace) (co_attached c).

Lemma shape_attach workspace c c' :
  Shape c → choices_attach workspace c = Ok c' → Shape c' ∧ Evolves c c' ∧ co_pending c' = co_pending c.
Proof.
  intros [Hw Hp Hg Hr Hf Hi]. unfold choices_attach. destruct (vany _ _) eqn:Ev.
  { intros [= <-]. split; [split; try done; by left|]. split; [|done]. split; simpl; [lia|by left]. }
  destruct (u64_checked_add _ 1) as [g|] eqn:Eg; [|done]. intros [= <-].
  assert (g = co_next_generation c + 1)%N as ->.
  { unfold u64_checked_add in Eg. destruct (_ <=? _)%N; congruence. }
  assert (∀ x, x ∈ map at_generation (co_attached c ++ co_pending c) → (x < co_next_generation c + 1)%N) as Hlt.
  { intros x Hx. rw Forall_forall in Hr. specialize (Hr x Hx). lia. }
  split; [split|split; [split|done]]; simpl.
  - rw map_app. apply NoDup_app. split; [done|]. split; [|apply NoDup_singleton].
    intros w Hin. rw list_elem_of_singleton. intros ->. apply list_elem_of_fmap in Hin as (b & Eb & Hb).
    rw vany_false in Ev. specialize (Ev b Hb). rw bool_decide_eq_false in Ev. by destruct Ev.
  - done.
  - rw -app_assoc map_app /= -Permutation_middle -map_app NoDup_cons. split; [|done]. intros Hx%Hlt. lia.
  - rw -app_assoc map_app /= -Permutation_middle -map_app Forall_cons. split; [lia|].
    eapply Forall_impl; [exact Hr|]. intros x Hx. simpl in Hx. lia.
  - intros a b. rw elem_of_app list_elem_of_singleton. intros [Ha| ->] Hb; [by apply Hf|]. intros _. apply Hlt.
    apply list_elem_of_fmap. exists b. split; [done|]. rw elem_of_app. by right.
  - by left.
  - lia.
  - intros a. rw elem_of_app list_elem_of_singleton. intros [Ha| ->]; [by left|]. right. simpl. lia.
Qed.

(** Detaching, seen as the list around the attachment. *)
Lemma detach_cases workspace c :
  (choices_detach workspace c = c ∧ has_attached workspace c = false) ∨
  ∃ l1 a l2, co_attached c = l1 ++ a :: l2 ∧ at_workspace a = workspace ∧
    choices_detach workspace c =
      {| co_initialized := co_initialized c; co_next_generation := co_next_generation c; co_attached := l1 ++ l2;
         co_pending := vfilter (λ b, negb (same_workspace workspace b)) (co_pending c) ++ [a] |}.
Proof.
  unfold choices_detach. destruct (vposition _ _) as [i|] eqn:Ep.
  - right. apply vposition_Some in Ep as (l1 & a & l2 & E & <- & Ha & _). exists l1, a, l2.
    split; [done|]. split; [by apply bool_decide_eq_true in Ha|]. by rw E vremove_split lookup_split.
  - left. split; [done|]. apply vposition_None in Ep. unfold has_attached. apply vany_false. by apply Forall_forall.
Qed.

Lemma shape_detach workspace c : Shape c → Shape (choices_detach workspace c) ∧ Evolves c (choices_detach workspace c).
Proof.
  intros Hs. destruct (detach_cases workspace c) as [[-> _]|(l1 & a & l2 & E & Hw & ->)]; [split; [done|apply evolves_refl]|].
  destruct Hs as [Hws Hp Hg Hr Hf Hi]. rw E in Hws Hg Hr.
  set (kept := vfilter _ (co_pending c)).
  assert (kept ⊆+ co_pending c) as Hk by apply vfilter_submseteq.
  assert ((l1 ++ l2) ++ kept ++ [a] ⊆+ (l1 ++ a :: l2) ++ co_pending c) as Hall.
  { assert ((l1 ++ l2) ++ kept ++ [a] ≡ₚ a :: (l1 ++ l2) ++ kept) as -> by solve_Permutation.
    assert ((l1 ++ a :: l2) ++ co_pending c ≡ₚ a :: (l1 ++ l2) ++ co_pending c) as -> by solve_Permutation.
    apply submseteq_skip. by apply submseteq_app. }
  assert (∀ b, b ∈ kept → at_workspace b ≠ workspace) as Hne.
  { intros b. unfold kept. rw elem_of_vfilter. intros [Hb _]. by apply negb_true_iff, bool_decide_eq_false in Hb. }
  split; [split|split]; simpl.
  - eapply NoDup_map_submseteq; [|exact Hws]. apply submseteq_app; [done|]. by apply submseteq_cons.
  - rw map_app /=. apply NoDup_app. split; [by eapply NoDup_map_submseteq|]. split; [|apply NoDup_singleton].
    intros w Hin. rw list_elem_of_singleton Hw. intros ->. apply list_elem_of_fmap in Hin as (b & Eb & Hb). by destruct (Hne b).
  - by eapply NoDup_map_submseteq.
  - eapply Forall_fewer; [|exact Hr]. by apply (fmap_submseteq at_generation).
  - intros x b Hx. rw elem_of_app list_elem_of_singleton. intros [Hb| ->].
    + apply Hf; [rw E; set_solver|]. by eapply elem_of_submseteq.
    + intros Hxa. exfalso. rw -Permutation_middle /= NoDup_cons in Hws. destruct Hws as [Hno _]. apply Hno.
      rw -Hxa. by apply list_elem_of_fmap_2.
  - destruct Hi as [Hi|Hi]; [by left|]. rw Hi in E. by destruct l1.
  - lia.
  - intros x Hx. left. rw E. set_solver.
Qed.

(** ** Runs *)

(** A call of the client, with what became of its writes, or a restart of the client. *)
Inductive AttachEvent :=
  | At_Initialize (inventory : Inventory) (workspace : option Id) (fate fate' : Fate)
  | At_Reconcile (inventory : Inventory) (fate : Fate)
  | At_Attach (workspace : Id) (fate : Fate)
  | At_Detach (workspace : Id) (fate : Fate)
  | At_Released (attachment : Attachment) (fate : Fate)
  | At_Reopen.

Definition attach_step s (event : AttachEvent) : AttachState :=
  match event with
  | At_Initialize inventory workspace fate fate' => (attach_initialize inventory workspace fate fate' s).1
  | At_Reconcile inventory fate => (attach_reconcile inventory fate s).1
  | At_Attach workspace fate => (attach workspace fate s).1
  | At_Detach workspace fate => (detach workspace fate s).1
  | At_Released attachment fate => (released attachment fate s).1
  | At_Reopen =>
      match as_stored s with
      | Some stored => match attachments_open (Some stored) with Ok s => s | Err _ => s end
      | None => s
      end
  end.

(** A client that opens its directory for the first time. *)
Definition attach_first : AttachState :=
  {| as_choices := choices_default; as_catalog := ∅; as_blocked := false; as_stored := Some choices_default |}.
Definition attach_run s (events : list AttachEvent) : AttachState := foldl attach_step s events.

Lemma first_opens : attachments_open None = Ok attach_first.
Proof. by vm_compute. Qed.

(** What the client holds and what it would open again. *)
Record AttachInv s : Prop := {
  ai_shape : Shape (as_choices s);
  ai_counted : Counted (as_choices s);
  ai_stored : ∀ stored, as_stored s = Some stored →
    Shape stored ∧ Counted stored ∧ Evolves (as_choices s) stored ∧ (as_blocked s = false → stored = as_choices s)
}.

Lemma inv_first : AttachInv attach_first.
Proof.
  assert (Shape choices_default) as Hs by (split; simpl; first [apply NoDup_nil_2|constructor; done|by right|by intros ? ? ?%not_elem_of_nil]).
  assert (Counted choices_default) as Hc by (split; apply Nat.le_0_l).
  split; [done|done|]. intros stored [= <-]. split; [done|]. split; [done|]. split; [apply evolves_refl|done].
Qed.

(** What a save leaves behind: as before, or the new choices, stored like them unless the
    write failed. *)
Lemma save_cases next fate s :
  let '(s', outcome) := attach_save next fate s in
  as_catalog s' = as_catalog s ∧
  ((as_choices s' = as_choices s ∧ as_stored s' = as_stored s ∧ as_blocked s' = as_blocked s ∧ is_ok outcome = false) ∨
   (Counted next ∧ as_choices s' = next ∧ as_blocked s' = false ∧ as_blocked s = false ∧ outcome = Ok tt ∧
      (as_stored s' = as_stored s ∧ (as_stored s = None ∨ as_choices s = next) ∨
       as_stored s' = Some next)) ∨
   (Counted next ∧ as_choices s' = as_choices s ∧ as_blocked s' = true ∧ as_blocked s = false ∧ is_ok outcome = false ∧
      (as_stored s' = as_stored s ∨ as_stored s' = Some next))).
Proof.
  unfold attach_save. destruct (as_blocked s) eqn:Eb; [split; [done|]; left; by rw Eb|].
  destruct (Nat.ltb_spec MAX_WORKSPACES (length (co_attached next))) as [|Ha]; [split; [done|]; left; by rw Eb|].
  destruct (Nat.ltb_spec MAX_WORKSPACES (length (co_pending next))) as [|Hp]; [split; [done|]; left; by rw Eb|].
  cbn [orb]. assert (Counted next) as Hc by done.
  destruct (as_stored s) as [stored|] eqn:Es; [|split; [done|]; right; left; repeat split; try done; by left; split; [|left]].
  destruct (bool_decide_reflect (as_choices s = next)).
  - split; [done|]. right; left. repeat split; try done. left. by split; [|right].
  - destruct fate as [|error replaced]; (split; [done|]).
    + right; left. repeat split; try done. by right.
    + right; right. repeat split; try done. destruct replaced; [by right|by left].
Qed.

Lemma inv_save next fate s :
  AttachInv s → (as_blocked s = false → Shape next ∧ Evolves (as_choices s) next) →
  let s' := (attach_save next fate s).1 in AttachInv s' ∧ Evolves (as_choices s) (as_choices s').
Proof.
  intros [Hs Hc Hst] Hn. pose proof (save_cases next fate s) as Hcase. destruct (attach_save next fate s) as [s' outcome].
  destruct Hcase as [_ [(Ec & Es & Eb & _)|[(Hcn & Ec & Eb & Eb' & _ & Est)|(Hcn & Ec & Eb & Eb' & _ & Est)]]]; simpl.
  - rw Ec. split; [|apply evolves_refl]. split; rw ?Ec ?Es ?Eb; done.
  - destruct (Hn Eb') as [Hsn He]. rw Ec. split; [|done]. split; rw ?Ec ?Eb; [done|done|]. intros stored Hstored.
    assert (stored = next) as ->.
    { destruct Est as [[E [En|En]]|E]; [congruence| |congruence]. rw E in Hstored.
      destruct (Hst stored Hstored) as (_ & _ & _ & Hu). by rw (Hu Eb'). }
    split; [done|]. split; [done|]. split; [apply evolves_refl|done].
  - destruct (Hn Eb') as [Hsn He]. rw Ec. split; [|apply evolves_refl]. split; rw ?Ec ?Eb; [done|done|]. intros stored Hstored.
    destruct Est as [E|E]; rw E in Hstored.
    + destruct (Hst stored Hstored) as (H1 & H2 & H3 & _). split; [done|]. split; [done|]. by split.
    + injection Hstored as <-. split; [done|]. split; [done|]. by split.
Qed.

Lemma inv_catalog catalog s : AttachInv s → AttachInv (set_as_catalog catalog s).
Proof. by intros [? ? ?]. Qed.

Lemma shape_reconcile inventory c :
  let c' := {| co_initialized := co_initialized c; co_next_generation := co_next_generation c;
               co_attached := vfilter (λ a, has_workspace inventory (at_workspace a)) (co_attached c);
               co_pending := co_pending c |} in
  Shape c → Shape c' ∧ Evolves c c'.
Proof. intros c' Hs. by apply (shape_fewer c); try done; apply vfilter_submseteq. Qed.

Lemma inv_reconcile inventory fate s :
  AttachInv s → let s' := (attach_reconcile inventory fate s).1 in AttachInv s' ∧ Evolves (as_choices s) (as_choices s').
Proof.
  intros Hi. unfold attach_reconcile. match goal with |- context [attach_save ?n ?f ?s0] =>
    pose proof (inv_save n f s0 Hi (λ _, shape_reconcile inventory _ (ai_shape _ Hi))) as [H1 H2];
    destruct (attach_save n f s0) as [s1 [[]|e]] end; [|done].
  split; [by apply inv_catalog|done].
Qed.

Lemma shape_initialized c :
  Shape c → let c' := {| co_initialized := true; co_next_generation := co_next_generation c;
                         co_attached := co_attached c; co_pending := co_pending c |} in Shape c' ∧ Evolves c c'.
Proof. intros [H1 H2 H3 H4 H5 H6]. split; [split; try done; by left|]. split; simpl; [lia|by left]. Qed.

Lemma inv_initialize inventory workspace fate fate' s :
  AttachInv s → let s' := (attach_initialize inventory workspace fate fate' s).1 in
  AttachInv s' ∧ Evolves (as_choices s) (as_choices s').
Proof.
  intros Hi. unfold attach_initialize. destruct (co_initialized (as_choices s)).
  { pose proof (inv_reconcile inventory fate s Hi) as Hr. by destruct (attach_reconcile inventory fate s) as [s1 [|]]. }
  pose proof (conj Hi (evolves_refl (as_choices s))) as Hsame.
  set (next := match workspace with Some _ => _ | None => _ end).
  assert (∀ c, next = Ok c → Shape c ∧ Evolves (as_choices s) c) as Hnext.
  { intros c. unfold next. destruct workspace as [w|]; [|intros [= <-]; split; [apply Hi|apply evolves_refl]].
    destruct (has_workspace _ _); [|done]. intros Hc. destruct (shape_attach _ _ _ (ai_shape _ Hi) Hc) as (H1 & H2 & _). done. }
  destruct next as [c|e]; [|done]. destruct (Hnext c eq_refl) as [Hs He]. destruct (shape_initialized c Hs) as [Hs' He'].
  match goal with |- context [attach_save ?n ?f ?s0] =>
    pose proof (inv_save n f s0 Hi (λ _, conj Hs' (evolves_trans _ _ _ He He'))) as [H1 H2];
    destruct (attach_save n f s0) as [s1 [[]|e]] end; [|done].
  pose proof (inv_reconcile inventory fate' s1 H1) as [H3 H4].
  destruct (attach_reconcile inventory fate' s1) as [s2 [|]]; (split; [done|]); by eapply evolves_trans.
Qed.

Lemma attach_inv_step event s :
  AttachInv s → AttachInv (attach_step s event) ∧ Evolves (as_choices s) (as_choices (attach_step s event)).
Proof.
  intros Hi. pose proof (conj Hi (evolves_refl (as_choices s))) as Hsame.
  destruct event as [inventory w f f'|inventory f|w f|w f|a f|]; simpl.
  - by apply inv_initialize.
  - by apply inv_reconcile.
  - unfold attach. destruct (negb _); [done|]. destruct (choices_attach w (as_choices s)) as [c|e] eqn:Ea; [|done].
    destruct (shape_attach _ _ _ (ai_shape _ Hi) Ea) as (Hs & He & _). pose proof (inv_save c f s Hi (λ _, conj Hs He)).
    by destruct (attach_save c f s) as [s1 [|]].
  - apply inv_save; [done|]. intros _. apply shape_detach, Hi.
  - apply inv_save; [done|]. intros _. apply (shape_fewer (as_choices s)); try done; [apply Hi|apply vfilter_submseteq].
  - destruct (as_stored s) as [stored|] eqn:Es; [|done]. destruct (ai_stored _ Hi stored Es) as (H1 & H2 & H3 & _).
    unfold attachments_open. simpl. rw valid_of_shape //. split; [|done]. split; simpl; [done|done|].
    intros stored' [= <-]. split; [done|]. split; [done|]. split; [apply evolves_refl|done].
Qed.

Lemma attach_inv_run events s :
  AttachInv s → AttachInv (attach_run s events) ∧ Evolves (as_choices s) (as_choices (attach_run s events)).
Proof.
  revert s. induction events as [|event events IH]; intros s Hi; [split; [done|apply evolves_refl]|].
  destruct (attach_inv_step event s Hi) as [H1 H2]. destruct (IH _ H1) as [H3 H4]. split; [done|]. by eapply evolves_trans.
Qed.

(** *** A client with a directory keeps one *)

Lemma save_stored next fate s : is_Some (as_stored s) → is_Some (as_stored (attach_save next fate s).1).
Proof.
  intros [stored Hs]. unfold attach_save. rw Hs. repeat case_match; simpl; rw ?Hs; by eexists.
Qed.

Lemma reconcile_stored inventory fate s :
  is_Some (as_stored s) → is_Some (as_stored (attach_reconcile inventory fate s).1).
Proof.
  intros Hs. unfold attach_reconcile. match goal with |- context [attach_save ?n ?f ?s1] =>
    pose proof (save_stored n f s1 Hs); by destruct (attach_save n f s1) as [? []] end.
Qed.

Lemma step_stored event s : is_Some (as_stored s) → is_Some (as_stored (attach_step s event)).
Proof.
  intros Hs. destruct event as [inventory w f f'|inventory f|w f|w f|a f|]; simpl.
  - unfold attach_initialize. destruct (co_initialized _).
    { pose proof (reconcile_stored inventory f s Hs). by destruct (attach_reconcile _ _ _) as [? []]. }
    case_match; [|done]. match goal with |- context [attach_save ?n ?f ?s1] =>
      pose proof (save_stored n f s1 Hs); destruct (attach_save n f s1) as [s2 []] end; [|done].
    pose proof (reconcile_stored inventory f' s2 ltac:(done)). by destruct (attach_reconcile _ _ _) as [? []].
  - by apply reconcile_stored.
  - unfold attach. destruct (negb _); [done|]. destruct (choices_attach _ _) as [c|]; [|done].
    pose proof (save_stored c f s Hs). by destruct (attach_save _ _ _) as [? []].
  - by apply save_stored.
  - by apply save_stored.
  - destruct Hs as [stored Es]. rw Es. unfold attachments_open. destruct (valid_choices _); simpl; rw ?Es; by eexists.
Qed.

Lemma run_stored events s : is_Some (as_stored s) → is_Some (as_stored (attach_run s events)).
Proof. revert s. induction events as [|event events IH]; intros s Hs; [done|]. by apply IH, step_stored. Qed.

(** A client always opens what it left behind: along every run of calls, failed writes
    and restarts, the record on disk passes the check of [open], and the choices in memory
    do too. *)
Theorem attachments_reopen events :
  let s := attach_run attach_first events in
  valid_choices (as_choices s) = true ∧
  ∃ stored, as_stored s = Some stored ∧ ∃ s', attachments_open (Some stored) = Ok s' ∧ as_choices s' = stored.
Proof.
  intros s. destruct (attach_inv_run events attach_first inv_first) as [Hi _]. fold s in Hi.
  split; [by apply valid_of_shape; apply Hi|].
  destruct (run_stored events attach_first ltac:(by eexists)) as [stored Es]. fold s in Es. exists stored. split; [done|].
  destruct (ai_stored _ Hi stored Es) as (H1 & H2 & _). unfold attachments_open. simpl. rw valid_of_shape //. by eexists.
Qed.

(** An attachment that ended never comes back: once the client no longer holds it, no
    later call, restart or new attachment of the same Workspace makes a permit for it
    active again. *)
Theorem ended_attachment_stays_ended before between after a :
  a ∈ co_attached (as_choices (attach_run attach_first before)) →
  a ∉ co_attached (as_choices (attach_run attach_first (before ++ between))) →
  permit_active a (attach_run attach_first (before ++ between ++ after)) = false.
Proof.
  unfold attach_run. rw !foldl_app. intros Ha Hno.
  destruct (attach_inv_run before attach_first inv_first) as [I1 _]. unfold attach_run in I1.
  set (s1 := foldl attach_step attach_first before) in *.
  destruct (attach_inv_run between s1 I1) as [I2 [Hn2 _]]. unfold attach_run in I2, Hn2.
  set (s2 := foldl attach_step s1 between) in *.
  destruct (attach_inv_run after s2 I2) as [_ [_ Hf3]]. unfold attach_run in Hf3.
  unfold permit_active. rw bool_decide_eq_false_2 ?andb_false_r //. intros Hin.
  destruct (Hf3 a Hin) as [Hin2|Hlt]; [done|].
  pose proof (sh_range _ (ai_shape _ I1)) as Hr. rw Forall_forall in Hr.
  assert (at_generation a ∈ map at_generation (co_attached (as_choices s1) ++ co_pending (as_choices s1))) as Hin1.
  { apply list_elem_of_fmap. exists a. split; [done|]. apply elem_of_app. by left. }
  specialize (Hr _ Hin1). simpl in Hr. lia.
Qed.

(** ** Releases that are owed *)

Definition owes (workspace : Id) (generation : N) c : Prop :=
  ∃ b, b ∈ co_pending c ∧ at_workspace b = workspace ∧ (generation <= at_generation b)%N.
Definition owes_kept (workspace : Id) (generation : N) s : Prop :=
  owes workspace generation (as_choices s) ∧ ∀ stored, as_stored s = Some stored → owes workspace generation stored.

(** The server's answer that it has this release, or a later one of the Workspace. *)
Definition settles_release (workspace : Id) (generation : N) (event : AttachEvent) : Prop :=
  match event with
  | At_Released b _ => at_workspace b = workspace ∧ (generation <= at_generation b)%N
  | _ => False
  end.

Lemma owes_save workspace generation next fate s :
  owes_kept workspace generation s → (owes workspace generation next) →
  owes_kept workspace generation (attach_save next fate s).1.
Proof.
  intros [Hc Hst] Hn. pose proof (save_cases next fate s) as Hcase. destruct (attach_save next fate s) as [s' outcome].
  unfold owes_kept. simpl.
  destruct Hcase as [_ [(Ec & Es & _)|[(_ & Ec & _ & _ & _ & Est)|(_ & Ec & _ & _ & _ & Est)]]]; rw Ec.
  - by rw Es.
  - split; [done|]. intros stored. destruct Est as [[-> _]| ->]; [apply Hst|]. by intros [= <-].
  - split; [done|]. intros stored. destruct Est as [->| ->]; [apply Hst|]. by intros [= <-].
Qed.

Lemma owes_detach workspace generation workspace' c :
  Shape c → owes workspace generation c → owes workspace generation (choices_detach workspace' c).
Proof.
  intros Hs (b & Hb & Hw & Hg). destruct (detach_cases workspace' c) as [[-> _]|(l1 & a & l2 & E & Ha & ->)]; [by exists b|].
  destruct (decide (workspace' = workspace)) as [->|Hne].
  - exists a. simpl. split; [set_solver|]. split; [done|].
    pose proof (sh_fenced _ Hs a b) as Hf. rw E in Hf. specialize (Hf ltac:(set_solver) Hb ltac:(congruence)). lia.
  - exists b. simpl. split; [|done]. apply elem_of_app. left. apply elem_of_vfilter. split; [|done].
    unfold same_workspace. rw bool_decide_eq_false_2 //. congruence.
Qed.

Lemma owes_reconcile workspace generation inventory fate s :
  owes_kept workspace generation s → owes_kept workspace generation (attach_reconcile inventory fate s).1.
Proof.
  intros Ho. unfold attach_reconcile. match goal with |- context [attach_save ?n ?f ?s1] =>
    pose proof (owes_save workspace generation n f s1 Ho (proj1 Ho)); by destruct (attach_save n f s1) as [? []] end.
Qed.

Lemma owes_step workspace generation event s :
  AttachInv s → ¬ settles_release workspace generation event →
  owes_kept workspace generation s → owes_kept workspace generation (attach_step s event).
Proof.
  intros Hi Hn Ho. pose proof (proj1 Ho) as Hc. destruct event as [inventory w f f'|inventory f|w f|w f|a f|]; simpl.
  - unfold attach_initialize. destruct (co_initialized _).
    { pose proof (owes_reconcile workspace generation inventory f s Ho). by destruct (attach_reconcile _ _ _) as [? []]. }
    set (next := match w with Some _ => _ | None => _ end).
    assert (∀ c, next = Ok c → owes workspace generation c) as Hnext.
    { intros c. unfold next. destruct w as [w|]; [|by intros [= <-]]. destruct (has_workspace _ _); [|done].
      intros Hatt. destruct (shape_attach _ _ _ (ai_shape _ Hi) Hatt) as (_ & _ & Ep). unfold owes. by rw Ep. }
    destruct next as [c|e]; [|done]. match goal with |- context [attach_save ?n ?f ?s1] =>
      pose proof (owes_save workspace generation n f s1 Ho (Hnext c eq_refl)); destruct (attach_save n f s1) as [s2 []] end;
      [|done].
    pose proof (owes_reconcile workspace generation inventory f' s2 ltac:(done)). by destruct (attach_reconcile _ _ _) as [? []].
  - by apply owes_reconcile.
  - unfold attach. destruct (negb _); [done|]. destruct (choices_attach _ _) as [c|] eqn:Ea; [|done].
    destruct (shape_attach _ _ _ (ai_shape _ Hi) Ea) as (_ & _ & Ep).
    assert (owes workspace generation c) as Hoc by (unfold owes; by rw Ep).
    pose proof (owes_save workspace generation c f s Ho Hoc). by destruct (attach_save _ _ _) as [? []].
  - apply owes_save; [done|]. apply owes_detach; [apply Hi|done].
  - apply owes_save; [done|]. destruct Hc as (b & Hb & Hw & Hg). exists b. split; [|done]. simpl. apply elem_of_vfilter.
    split; [|done]. apply negb_true_iff, bool_decide_eq_false_2. intros ->. by apply Hn.
  - destruct (as_stored s) as [stored|] eqn:Es; [|done]. unfold attachments_open. simpl. destruct (valid_choices stored); [|done].
    pose proof (proj2 Ho stored Es). split; [done|]. by intros stored' [= <-].
Qed.

Lemma owes_run workspace generation events s :
  AttachInv s → Forall (λ event, ¬ settles_release workspace generation event) events →
  owes_kept workspace generation s → owes workspace generation (as_choices (attach_run s events)).
Proof.
  revert s. induction events as [|event events IH]; intros s Hi Hn Ho; [exact (proj1 Ho)|]. apply Forall_cons in Hn as [He Hn].
  apply IH; [by apply attach_inv_step|done|by apply owes_step].
Qed.


Lemma released_ok a fate s s' :
  released a fate s = (s', Ok tt) →
  co_attached (as_choices s') = co_attached (as_choices s) ∧
  co_pending (as_choices s') = vfilter (λ old, negb (bool_decide (old = a))) (co_pending (as_choices s)).
Proof.
  unfold released. match goal with |- context [attach_save ?n ?f ?s1] => pose proof (save_cases n f s1) as Hcase;
    destruct (attach_save n f s1) as [s1' outcome] end.
  intros [= -> ->]. by destruct Hcase as [_ [(_ & _ & _ & Ho)|[(_ & -> & _)|(_ & _ & _ & _ & Ho & _)]]].
Qed.

Lemma release_each_ok l answer fate : ∀ s s',
  release_each l answer fate s = (s', Ok tt) →
  co_attached (as_choices s') = co_attached (as_choices s) ∧
  ∀ b, b ∈ co_pending (as_choices s') → b ∈ co_pending (as_choices s) ∧ b ∉ l.
Proof.
  induction l as [|a l IH]; intros s s'; cbn [release_each].
  - intros [= <-]. split; [done|]. intros b Hb. split; [done|apply not_elem_of_nil].
  - destruct (answer a) as [[|]|e]; try done. destruct (released a (fate a) s) as [s1 [[]|e]] eqn:Er; [|done].
    intros Hr. destruct (released_ok _ _ _ _ Er) as [Ea Ep]. destruct (IH _ _ Hr) as [Ea' Hp]. split; [congruence|].
    intros b Hb. destruct (Hp b Hb) as [Hb1 Hnl]. rw Ep elem_of_vfilter in Hb1. destruct Hb1 as [Hne Hb1].
    apply negb_true_iff, bool_decide_eq_false in Hne. split; [done|]. by apply not_elem_of_cons.
Qed.

(** When delivering the releases succeeds none is left, and no attachment changed;
    whatever stops it, a refusal, a lost link or a failed write, keeps what was not
    confirmed. *)
Theorem release_pending_done answer fate s s' outcome :
  release_pending answer fate s = (s', outcome) →
  (outcome = Ok tt → co_pending (as_choices s') = [] ∧ co_attached (as_choices s') = co_attached (as_choices s)) ∧
  (∀ b, b ∈ co_pending (as_choices s) → answer b ≠ Ok true → b ∈ co_pending (as_choices s')).
Proof.
  unfold release_pending. intros Hr. split.
  - intros ->. destruct (release_each_ok _ _ _ _ _ Hr) as [Ea Hp]. split; [|done].
    destruct (co_pending (as_choices s')) as [|b l]; [done|]. destruct (Hp b ltac:(by left)) as [Hb Hno]. done.
  - intros b Hb Hans. revert Hr. generalize (co_pending (as_choices s)) at 1 as l. intros l. revert s Hb.
    induction l as [|a l IH]; intros s Hb; cbn [release_each]; [by intros [= <- _]|].
    destruct (answer a) as [[|]|e] eqn:Ea; [|by intros [= <- _]|by intros [= <- _]].
    destruct (released a (fate a) s) as [s1 out] eqn:Er.
    assert (b ∈ co_pending (as_choices s1)) as Hb1.
    { revert Er. unfold released. match goal with |- context [attach_save ?n ?f ?s2] =>
        pose proof (save_cases n f s2) as Hcase; destruct (attach_save n f s2) as [s2' out'] end. intros [= -> ->].
      destruct Hcase as [_ [(-> & _)|[(_ & -> & _)|(_ & -> & _)]]]; [done| |done].
      apply elem_of_vfilter. split; [|done]. apply negb_true_iff, bool_decide_eq_false_2. intros ->. congruence. }
    destruct out as [[]|e]; [by apply IH|by intros [= <- _]].
Qed.

(** ** A concrete run *)

Module Sample.
Definition pane : Pane :=
  {| p_id := 9; p_source := None; p_side := Side_Right; p_starting_directory := [47]; p_current_directory := None;
     p_repository_directory := None; p_presentation := None; p_observers := no_observers; p_confirmed_directory := None;
     p_creator := None |}%N.
Definition tab : Tab :=
  {| t_worktree_membership := Following; t_worktree := None; t_worktree_repository := None; t_id := 8; t_root_pane := 9;
     t_panes := [pane] |}%N.
Definition workspace : Workspace :=
  {| w_id := 7; w_name := []; w_name_version := 0; w_pin_version := 0; w_pinned_directory := None; w_root_tab := 8;
     w_tabs := [tab] |}%N.
Definition inventory : Inventory :=
  {| i_repositories := None; i_revision := 1; i_workspaces := [workspace]; i_close := None |}.

(** Attached at first, detached while the disk is full but the file was replaced, opened
    again, attached anew. *)
Definition before : list AttachEvent := [At_Initialize inventory (Some 7%N) Fate_Written Fate_Written].
Definition between : list AttachEvent := [At_Detach 7 (Fate_Failed Error_StorageUnavailable true); At_Reopen].
Definition after : list AttachEvent := [At_Reconcile inventory Fate_Written; At_Attach 7 Fate_Written].
Definition first : Attachment := {| at_workspace := 7; at_generation := 1 |}.

Lemma ended_attachment_stays_ended_witness :
  is_attached 7 (attach_run attach_first (before ++ between ++ after)) = true ∧
  permit_active first (attach_run attach_first (before ++ between ++ after)) = false.
Proof.
  split; [vm_compute; reflexivity|]. apply (ended_attachment_stays_ended before between after first).
  - apply (bool_decide_unpack _). vm_compute. exact I.
  - apply (bool_decide_unpack _). vm_compute. exact I.
Defined.


Lemma release_pending_done_witness :
  ∃ s', release_pending (λ _, Ok true) (λ _, Fate_Written)
      (attach_run attach_first (before ++ [At_Detach 7 Fate_Written])) = (s', Ok tt) ∧ co_pending (as_choices s') = [].
Proof.
  eexists. split; [vm_compute; reflexivity|].
  eapply (release_pending_done (λ _, Ok true) (λ _, Fate_Written)
    (attach_run attach_first (before ++ [At_Detach 7 Fate_Written])) _ (Ok tt)); [vm_compute; reflexivity|reflexivity].
Defined.
End Sample.
