(* ===== verification/Bytes.v ===== *)
(** * UTF-8

    The bytes of a [String], and [str::from_utf8]: the standard library's encoding that a
    path built from text, or text read from a subprocess, goes through. *)
From Stdlib Require Import Zify Lia.
From S2P Require Import Prelude.
From S2P Require Import Text.
From Stdlib Require Import Lia.

(** A Unicode scalar value. *)
Definition is_scalar (c : char) : bool := ((c <? 55296) || ((57344 <=? c) && (c <? 1114112)))%N.

Definition encode_char (c : char) : list N :=
  (if c <? 128 then [c]
   else if c <? 2048 then [192 + c / 64; 128 + c mod 64]
   else if c <? 65536 then [224 + c / 4096; 128 + (c / 64) mod 64; 128 + c mod 64]
   else [240 + c / 262144; 128 + (c / 4096) mod 64; 128 + (c / 64) mod 64; 128 + c mod 64])%N.
Definition encode_utf8 (s : ustring) : list N := flat_map encode_char s.

(** [str::from_utf8]: the text that has exactly these bytes. *)
Definition from_utf8 (bytes : list N) : option ustring :=
  let s := from_utf8_lossy bytes in if bool_decide (encode_utf8 s = bytes) then Some s else None.

(** ** Decoding what was encoded *)

#[local] Ltac Zify.zify_post_hook ::= Z.to_euclidean_division_equations.

Lemma payload_of x : (x < 64)%N → payload (128 + x) = x.
Proof. intros Hx. unfold payload. change 63%N with (N.ones 6). rw N.land_ones. change (2 ^ 6)%N with 64%N. lia. Qed.

Lemma lead_of n base x : (x < 2 ^ n)%N → (base mod 2 ^ n = 0)%N → N.land (base + x) (N.ones n) = x.
Proof.
  intros Hx Hb. rw N.land_ones -N.Div0.add_mod_idemp_l Hb N.add_0_l. by apply N.mod_small.
Qed.

Lemma in_range_true lo hi b : (lo <= b <= hi)%N → in_range lo hi b = true.
Proof. intros H. unfold in_range. rw andb_true_iff !N.leb_le. lia. Qed.
Lemma in_range_false lo hi b : (b < lo ∨ hi < b)%N → in_range lo hi b = false.
Proof. intros H. unfold in_range. apply andb_false_iff. rw !N.leb_gt. lia. Qed.

Lemma lossy_char c rest : is_scalar c = true → from_utf8_lossy (encode_char c ++ rest) = c :: from_utf8_lossy rest.
Proof.
  unfold is_scalar. rw orb_true_iff andb_true_iff !N.ltb_lt N.leb_le. intros Hs. unfold encode_char.
  destruct (N.ltb_spec c 128) as [H1|H1].
  { simpl. by destruct (N.ltb_spec c 128); [|lia]. }
  destruct (N.ltb_spec c 2048) as [H2|H2].
  { cbn [app from_utf8_lossy]. destruct (N.ltb_spec (192 + c / 64) 128); [lia|]. rw in_range_true; [lia|].
    unfold is_continuation. rw in_range_true; [lia|]. f_equal. rw payload_of; [lia|].
    rw (lead_of 5 192) //; [lia|]. rw N.shiftl_mul_pow2. lia. }
  destruct (N.ltb_spec c 65536) as [H3|H3].
  { cbn [app from_utf8_lossy]. destruct (N.ltb_spec (224 + c / 4096) 128); [lia|].
    rw (in_range_false 194 223); [lia|]. rw (in_range_true 224 239); [lia|].
    assert (second_of_three (224 + c / 4096) (128 + (c / 64) mod 64) = true) as ->.
    { unfold second_of_three, is_continuation. destruct (N.eqb_spec (224 + c / 4096) 224); [apply in_range_true; lia|].
      destruct (N.eqb_spec (224 + c / 4096) 237); apply in_range_true; lia. }
    unfold is_continuation. rw in_range_true; [lia|]. f_equal. rw !payload_of; [lia..|].
    rw (lead_of 4 224) //; [lia|]. rw !N.shiftl_mul_pow2. lia. }
  cbn [app from_utf8_lossy]. destruct (N.ltb_spec (240 + c / 262144) 128); [lia|].
  rw (in_range_false 194 223); [lia|]. rw (in_range_false 224 239); [lia|]. rw (in_range_true 240 244); [lia|].
  assert (second_of_four (240 + c / 262144) (128 + (c / 4096) mod 64) = true) as ->.
  { unfold second_of_four, is_continuation. destruct (N.eqb_spec (240 + c / 262144) 240); [apply in_range_true; lia|].
    destruct (N.eqb_spec (240 + c / 262144) 244); apply in_range_true; lia. }
  unfold is_continuation. rw !(in_range_true 128 191); [lia..|]. f_equal. rw !payload_of; [lia..|].
  rw (lead_of 3 240) //; [lia|]. rw !N.shiftl_mul_pow2. lia.
Qed.

Definition valid_text (s : ustring) : Prop := Forall (λ c, is_scalar c = true) s.

Lemma lossy_encode s : valid_text s → from_utf8_lossy (encode_utf8 s) = s.
Proof. induction 1 as [|c s Hc _ IH]; [done|]. unfold encode_utf8. cbn [flat_map]. by rw lossy_char // IH. Qed.

Lemma from_utf8_encode s : valid_text s → from_utf8 (encode_utf8 s) = Some s.
Proof. intros Hs. unfold from_utf8. rw lossy_encode // bool_decide_eq_true_2 //. Qed.

Lemma encode_utf8_app s t : encode_utf8 (s ++ t) = encode_utf8 s ++ encode_utf8 t.
Proof. apply flat_map_app. Qed.

(** The bytes of a character that is not ASCII are not ASCII. *)
Lemma encode_char_bytes c b : b ∈ encode_char c → b = c ∨ (128 <= b)%N.
Proof.
  unfold encode_char. repeat case_match; rw ?elem_of_cons ?elem_of_nil; intros Hb;
    repeat (destruct Hb as [->|Hb]; [first [by left|right; lia]|]); done.
Qed.
Lemma encode_char_ascii c : (c < 128)%N → encode_char c = [c].
Proof. intros H. unfold encode_char. by apply N.ltb_lt in H as ->. Qed.

(** ** Byte strings

    What the parsers of subprocess output use of [str] and [&[u8]]: searching, splitting,
    prefixes, ASCII classes and decimal numbers, with the lemmas that describe them. *)
(** ** Searching *)

(** [str::find] of a character: what is before and after it. *)
Fixpoint find_char (c : char) (s : ustring) : option (ustring * ustring) :=
  match s with
  | [] => None
  | d :: s =>
      if (d =? c)%N then Some ([], s)
      else match find_char c s with Some (before, after) => Some (d :: before, after) | None => None end
  end.
Definition has_char (c : char) (s : ustring) : bool := vany (λ d, (d =? c)%N) s.
Fixpoint starts_with (pattern s : ustring) : bool :=
  match pattern, s with
  | [], _ => true
  | p :: pattern, c :: s => (p =? c)%N && starts_with pattern s
  | _ :: _, [] => false
  end.
Fixpoint contains (pattern s : ustring) : bool :=
  starts_with pattern s || match s with [] => false | _ :: s => contains pattern s end.
Definition ends_with (pattern s : ustring) : bool := starts_with (rev pattern) (rev s).

(** [strip_prefix] and [strip_suffix]. *)
Fixpoint strip_prefix (pattern s : ustring) : option ustring :=
  match pattern, s with
  | [], _ => Some s
  | p :: pattern, c :: s => if (p =? c)%N then strip_prefix pattern s else None
  | _ :: _, [] => None
  end.
Definition strip_suffix (pattern s : ustring) : option ustring :=
  match strip_prefix (rev pattern) (rev s) with Some t => Some (rev t) | None => None end.

(** [split] by a character: one piece more than separators. *)
Fixpoint split_on (c : char) (s : ustring) : list ustring :=
  match s with
  | [] => [[]]
  | d :: s =>
      if (d =? c)%N then [] :: split_on c s
      else match split_on c s with piece :: pieces => (d :: piece) :: pieces | [] => [[d]] end
  end.

(** [splitn]: at most [n] pieces, the last one the rest. *)
Fixpoint splitn (n : nat) (c : char) (s : ustring) : list ustring :=
  match n with
  | 0 => []
  | 1 => [s]
  | S n => match find_char c s with Some (before, after) => before :: splitn n c after | None => [s] end
  end.

(** ** ASCII *)

(** [split_once] by a string. *)
Fixpoint split_once (pattern s : ustring) : option (ustring * ustring) :=
  if starts_with pattern s then Some ([], drop (length pattern) s)
  else match s with
       | [] => None
       | c :: s => match split_once pattern s with Some (before, after) => Some (c :: before, after) | None => None end
       end.
Definition is_ascii_digit (c : char) : bool := in_range 48 57 c.
Definition is_ascii_hexdigit (c : char) : bool := is_ascii_digit c || in_range 65 70 c || in_range 97 102 c.
Definition to_ascii_lowercase (c : char) : char := if in_range 65 90 c then (c + 32)%N else c.
Definition eq_ignore_ascii_case (s t : ustring) : bool :=
  bool_decide (map to_ascii_lowercase s = map to_ascii_lowercase t).

(** The number that decimal digits denote, and [parse::<u32>] of nonempty digits. *)
Definition decimal (digits : ustring) : N := foldl (λ n d, (n * 10 + (d - 48)))%N 0%N digits.
Definition parse_u32 (digits : ustring) : option N :=
  if (decimal digits <=? u32_max)%N then Some (decimal digits) else None.

Definition u32_saturating_add (a b : N) : N := N.min (a + b) u32_max.

(** ** Lemmas *)

Lemma find_char_Some c s before after : find_char c s = Some (before, after) → s = before ++ c :: after.
Proof.
  revert before. induction s as [|d s IH]; simpl; intros before; [done|].
  destruct (N.eqb_spec d c) as [->|]; [by intros [= <- <-]|].
  destruct (find_char c s) as [[b a]|]; [|done]. intros [= <- <-]. simpl. f_equal. by apply IH.
Qed.

Lemma find_char_None c s : find_char c s = None → c ∉ s.
Proof.
  induction s as [|d s IH]; simpl; [intros _; apply not_elem_of_nil|]. destruct (N.eqb_spec d c); [done|].
  destruct (find_char c s) as [[b a]|]; [done|]. intros _. apply not_elem_of_cons. split; [done|by apply IH].
Qed.

Lemma starts_with_spec pattern s : starts_with pattern s = true ↔ ∃ t, s = pattern ++ t.
Proof.
  revert s. induction pattern as [|p pattern IH]; intros s; simpl; [split; [by eexists|done]|].
  destruct s as [|c s]; [split; [done|by intros [t E]]|]. rw andb_true_iff N.eqb_eq IH. split.
  - intros [-> [t ->]]. by exists t.
  - intros [t [= <- ->]]. split; [done|]. by exists t.
Qed.

Lemma contains_spec pattern s : contains pattern s = true ↔ ∃ a b, s = a ++ pattern ++ b.
Proof.
  induction s as [|c s IH]; cbn [contains]; rw orb_true_iff starts_with_spec.
  - split; [intros [[t E]|?]; [by exists [], t|done]|]. intros (a & b & E). left. exists b. by destruct a.
  - rw IH. split.
    + intros [[t E]|(a & b & ->)]; [by exists [], t|by exists (c :: a), b].
    + intros (a & b & E). destruct a as [|d a]; [left; by exists b|]. injection E as -> ->. right. by exists a, b.
Qed.

Lemma ends_with_spec pattern s : ends_with pattern s = true ↔ ∃ a, s = a ++ pattern.
Proof.
  unfold ends_with. rw starts_with_spec. split; intros [t E].
  - exists (rev t). apply (f_equal (@rev N)) in E. by rw rev_involutive rev_app_distr rev_involutive in E.
  - exists (rev t). by rw E rev_app_distr.
Qed.


Lemma find_char_before c s before after : find_char c s = Some (before, after) → c ∉ before.
Proof.
  revert before. induction s as [|d s IH]; simpl; intros before; [done|].
  destruct (N.eqb_spec d c); [intros [= <- <-]; apply not_elem_of_nil|].
  destruct (find_char c s) as [[b a]|]; [|done]. intros [= <- <-]. apply not_elem_of_cons. split; [done|by apply IH].
Qed.

Lemma find_char_split c before after : c ∉ before → find_char c (before ++ c :: after) = Some (before, after).
Proof.
  induction before as [|d before IH]; cbn [app find_char]; intros Hc; [by rw N.eqb_refl|].
  apply not_elem_of_cons in Hc as [Hd Hc]. destruct (N.eqb_spec d c); [done|]. by rw IH.
Qed.

Lemma find_char_absent c s : c ∉ s → find_char c s = None.
Proof.
  induction s as [|d s IH]; [done|]. intros [Hd Hs]%not_elem_of_cons. cbn [find_char].
  destruct (N.eqb_spec d c); [done|]. by rw IH.
Qed.

Lemma strip_prefix_app p s : strip_prefix p (p ++ s) = Some s.
Proof. induction p as [|c p IH]; [done|]. cbn [app strip_prefix]. by rw N.eqb_refl. Qed.

Lemma split_on_piece c before after : c ∉ before → split_on c (before ++ c :: after) = before :: split_on c after.
Proof.
  induction before as [|d before IH]; cbn [app split_on]; intros Hc; [by rw N.eqb_refl|].
  apply not_elem_of_cons in Hc as [Hd Hc]. destruct (N.eqb_spec d c); [done|]. by rw IH.
Qed.

Lemma split_on_absent c s : c ∉ s → split_on c s = [s].
Proof.
  induction s as [|d s IH]; [done|]. intros [Hd Hs]%not_elem_of_cons. cbn [split_on].
  destruct (N.eqb_spec d c); [done|]. by rw IH.
Qed.

(** Fields, each followed by its terminator. *)
Definition terminated (c : char) (fields : list ustring) : ustring := flat_map (λ f, f ++ [c]) fields.

Lemma split_on_terminated c fields :
  Forall (λ f, c ∉ f) fields → split_on c (terminated c fields) = fields ++ [[]].
Proof.
  unfold terminated. induction 1 as [|f fields Hf _ IH]; [done|]. cbn [flat_map app]. rw -app_assoc. simpl.
  by rw split_on_piece // IH.
Qed.

Lemma terminated_app c fields fields' : terminated c (fields ++ fields') = terminated c fields ++ terminated c fields'.
Proof. apply flat_map_app. Qed.

Lemma strip_prefix_spec p s t : strip_prefix p s = Some t ↔ s = p ++ t.
Proof.
  split; [|intros ->; apply strip_prefix_app]. revert s. induction p as [|c p IH]; intros s; [by intros [= ->]|].
  destruct s as [|d s]; cbn [strip_prefix]; [done|]. destruct (N.eqb_spec c d) as [->|]; [|done]. intros E. simpl. f_equal. by apply IH.
Qed.
