(* ===== verification/WorktreePaths.v ===== *)
(** * Where a new Worktree goes, and what its branch may be called

    [crates/spaceterm-core/src/worktree/path_template.rs] expands the Worktree Path
    Template, [src/worktrees/ref_format.rs] checks a branch name. *)
From S2P Require Import Prelude.
From S2P Require Import Text.
From S2P Require Import Facts.
From S2P Require Import Bytes.

(** [trim_start_matches('/')]. *)
Fixpoint trim_slashes (s : ustring) : ustring :=
  match s with c :: s' => if (c =? slash)%N then trim_slashes s' else s | [] => [] end.

(** [Path::join] on Unix. *)
Definition path_join (base p : path) : path :=
  if is_absolute p then p
  else base ++ match last base with Some c => if (c =? slash)%N then [] else [slash] | None => [] end ++ p.

(** ** The template *)

Definition MAX_TEMPLATE_LENGTH : nat := 1024.

Inductive Piece := Piece_Text (text : ustring) | Piece_Repository | Piece_Branch.
#[export] Instance piece_eq_dec : EqDecision Piece.
Proof. solve_decision. Defined.

Definition placeholder (name : ustring) : option Piece :=
  if bool_decide (name = lit "repository") then Some Piece_Repository
  else if bool_decide (name = lit "branch") then Some Piece_Branch
  else None.

(** The loop of [parse]; each round consumes an opening and a closing brace, so that the
    length of the text is fuel enough. *)
Fixpoint template_pieces (fuel : nat) (remaining : ustring) : result (list Piece) WorktreePathTemplateError :=
  match find_char 123 remaining with
  | None =>
      if is_empty remaining then Ok []
      else if has_char 125 remaining then Err Template_UnknownPlaceholder
      else Ok [Piece_Text remaining]
  | Some (before, after) =>
      match fuel with
      | 0 => Ok []
      | S fuel =>
          if has_char 125 before then Err Template_UnknownPlaceholder
          else match find_char 125 after with
          | None => Err Template_UnclosedBrace
          | Some (name, rest) =>
              match placeholder name with
              | None => Err Template_UnknownPlaceholder
              | Some piece =>
                  let? pieces := template_pieces fuel rest in
                  Ok ((if is_empty before then [] else [Piece_Text before]) ++ piece :: pieces)
              end
          end
      end
  end.

(** [parse]: whether the template starts at the home folder, and its pieces. *)
Definition template_parse (template : ustring) : result (bool * list Piece) WorktreePathTemplateError :=
  if is_empty (trim template) then Err Template_Empty
  else if MAX_TEMPLATE_LENGTH <? str_len template then Err Template_TooLong
  else if vany is_control template then Err Template_InvalidCharacter
  else
    let? start :=
      match template with
      | 126%N :: rest => if is_absolute rest then Ok (true, rest) else Err Template_NotAbsolute
      | _ => if is_absolute template then Ok (false, template) else Err Template_NotAbsolute
      end in
    let '(from_home, rest) := start in
    if vany (λ segment, bool_decide (segment = [dot; dot])) (segments rest) then Err Template_ParentSegment
    else
      let? pieces := template_pieces (length rest) rest in
      if vany (λ piece, bool_decide (piece = Piece_Branch)) pieces then Ok (from_home, pieces)
      else Err Template_MissingBranch.

Definition template_validate (template : ustring) : result unit WorktreePathTemplateError :=
  let? _ := template_parse template in Ok tt.

(** [flatten]: slashes become dashes. *)
Definition flatten (value : ustring) : ustring := map (λ c, if (c =? slash)%N then 45%N else c) value.

Definition piece_text (repository branch : ustring) (piece : Piece) : ustring :=
  match piece with
  | Piece_Text text => text
  | Piece_Repository => flatten repository
  | Piece_Branch => flatten branch
  end.

(** [expand]. *)
Definition template_expand (template : ustring) (home : path) (repository branch : ustring)
    : result path WorktreePathTemplateError :=
  let? parsed := template_parse template in
  let '(from_home, pieces) := parsed in
  let text := flat_map (piece_text repository branch) pieces in
  Ok (if from_home then path_join home (encode_utf8 (trim_slashes text)) else encode_utf8 text).

(** ** Branch names *)

Inductive BranchNameError :=
  | Branch_Empty | Branch_LeadingDash | Branch_InvalidCharacter | Branch_InvalidSequence | Branch_InvalidComponent
  | Branch_InvalidEnd | Branch_Reserved.

(** [char::is_ascii_control], and the characters Git refuses. *)
Definition forbidden_char (c : char) : bool :=
  ((c <? 32) || (c =? 127))%N || vany (λ d, (c =? d)%N) (lit " ~^:?*[\").

(** [validate_branch_name]. *)
Definition validate_branch_name (name : ustring) : result unit BranchNameError :=
  if is_empty name then Err Branch_Empty
  else if starts_with (lit "-") name then Err Branch_LeadingDash
  else if bool_decide (name = lit "@") || bool_decide (name = lit "HEAD") then Err Branch_Reserved
  else if vany forbidden_char name then Err Branch_InvalidCharacter
  else if contains (lit "..") name || contains (lit "//") name || contains (lit "@{") name
  then Err Branch_InvalidSequence
  else if starts_with (lit "/") name || ends_with (lit "/") name || ends_with (lit ".") name
  then Err Branch_InvalidEnd
  else if vany (λ component, starts_with (lit ".") component || ends_with (lit ".lock") component) (segments name)
  then Err Branch_InvalidComponent
  else Ok tt.

(** ** A proposed Worktree stays where the template says

    Whatever the template, the repository and the branch are, an expanded path goes down
    from its start and never up; and the check of a branch name is Git's rule, component
    by component. *)
(** ** Segments *)

Lemma segments_cons s : ∃ seg rest, segments s = seg :: rest.
Proof.
  destruct s as [|c s]; simpl; [by eexists _, _|]. destruct (_ =? _)%N; [by eexists _, _|].
  destruct (segments s); by eexists _, _.
Qed.

Definition no_slash (s : list N) : Prop := slash ∉ s.

(** Text without a slash goes to the front of the first segment. *)
Lemma segments_prepend t s seg rest :
  no_slash t → segments s = seg :: rest → segments (t ++ s) = (t ++ seg) :: rest.
Proof.
  intros Ht Hs. induction t as [|c t IH]; [done|]. simpl. apply not_elem_of_cons in Ht as [Hc Ht].
  destruct (N.eqb_spec c slash) as [->|]; [done|]. by rw (IH Ht).
Qed.

Lemma segments_slash a b : segments (a ++ slash :: b) = segments a ++ segments b.
Proof.
  induction a as [|c a IH]; simpl; [done|]. rw IH. destruct (_ =? _)%N; [done|].
  destruct (segments_cons a) as (seg & rest & ->). done.
Qed.

Lemma segments_elem s seg : seg ∈ segments s → no_slash seg ∧ ∀ c, c ∈ seg → c ∈ s.
Proof.
  revert seg. induction s as [|c s IH]; simpl; intros seg.
  - rw list_elem_of_singleton. intros ->. split; [apply not_elem_of_nil|done].
  - destruct (N.eqb_spec c slash) as [->|Hc].
    + rw elem_of_cons. intros [->|Hin]; [split; [apply not_elem_of_nil|by intros ? ?%not_elem_of_nil]|].
      destruct (IH _ Hin). split; [done|]. intros d Hd. right. auto.
    + destruct (segments_cons s) as (s0 & rest & E). rw E in IH |- *. rw elem_of_cons. intros [->|Hin].
      * destruct (IH s0 ltac:(by left)) as [Hn Hs]. split; [by apply not_elem_of_cons|].
        intros d [->|Hd]%elem_of_cons; [by left|right; auto].
      * destruct (IH seg ltac:(by right)). split; [done|]. intros d Hd. right. auto.
Qed.

(** Slashes are bytes of their own. *)
Lemma segments_encode s : segments (encode_utf8 s) = map encode_utf8 (segments s).
Proof.
  induction s as [|c s IH]; [done|]. unfold encode_utf8 at 1. cbn [flat_map segments]. fold (encode_utf8 s).
  destruct (N.eqb_spec c slash) as [->|Hc].
  - rw encode_char_ascii //. simpl. by rw IH.
  - destruct (segments_cons s) as (seg & rest & E). rw E in IH |- *. simpl in IH.
    assert (no_slash (encode_char c)) as Hns.
    { intros Hb%encode_char_bytes. destruct Hb as [Hb|Hb]; [done|]. unfold slash in Hb. lia. }
    by rw (segments_prepend _ _ _ _ Hns IH).
Qed.

Lemma encode_dots n s : encode_utf8 s = replicate n dot → s = replicate n dot.
Proof.
  revert n. induction s as [|c s IH]; intros n E; [by destruct n|].
  unfold encode_utf8 in E. cbn [flat_map] in E. fold (encode_utf8 s) in E.
  destruct (N.ltb_spec c 128) as [Hlt|Hge].
  - rw encode_char_ascii // in E. destruct n as [|n]; [done|]. simpl in *. injection E as -> E. f_equal. by apply IH.
  - exfalso. assert (∃ b t, encode_char c = b :: t ∧ (128 <= b)%N) as (b & t & Eb & Hb).
    { unfold encode_char. apply N.ltb_ge in Hge as ->. repeat case_match; eexists _, _; (split; [done|etrans; [|apply N.le_add_r]; done]). }
    rw Eb in E. destruct n; [done|]. injection E as -> _. unfold dot in Hb. lia.
Qed.

(** ** Pieces as single characters and placeholders *)

Inductive Atom := A_Char (c : char) | A_Repository | A_Branch.
#[export] Instance atom_eq_dec : EqDecision Atom.
Proof. solve_decision. Defined.

Definition piece_atoms (piece : Piece) : list Atom :=
  match piece with
  | Piece_Text text => map A_Char text
  | Piece_Repository => [A_Repository]
  | Piece_Branch => [A_Branch]
  end.
(** What a template says, and what it expands to. *)
Definition atom_source (a : Atom) : ustring :=
  match a with A_Char c => [c] | A_Repository => lit "{repository}" | A_Branch => lit "{branch}" end.
Definition atom_text (repository branch : ustring) (a : Atom) : ustring :=
  match a with A_Char c => [c] | A_Repository => flatten repository | A_Branch => flatten branch end.

Lemma atoms_of_text text : flat_map atom_source (map A_Char text) = text.
Proof. induction text as [|c text IH]; simpl; [done|]. by rw IH. Qed.

Lemma texts_of_text repository branch text : flat_map (atom_text repository branch) (map A_Char text) = text.
Proof. induction text as [|c text IH]; simpl; [done|]. by rw IH. Qed.

(** The pieces are the template, read from left to right. *)
Lemma pieces_source fuel : ∀ remaining pieces,
  length remaining ≤ fuel → template_pieces fuel remaining = Ok pieces →
  flat_map atom_source (flat_map piece_atoms pieces) = remaining.
Proof.
  induction fuel as [|fuel IH]; intros remaining pieces Hl; simpl.
  - destruct remaining; [|simpl in Hl; lia]. simpl. by intros [= <-].
  - destruct (find_char 123 remaining) as [[before after]|] eqn:Ef.
    + destruct (has_char 125 before); [done|]. destruct (find_char 125 after) as [[name rest]|] eqn:Ec; [|done].
      apply find_char_Some in Ef as ->. apply find_char_Some in Ec as ->.
      destruct (placeholder name) as [piece|] eqn:Ep; [|done].
      destruct (template_pieces fuel rest) as [pieces'|] eqn:Er; [|done]. simpl. intros [= <-].
      apply IH in Er; [|rw length_app /= length_app /= in Hl; lia].
      change (piece :: pieces') with ([piece] ++ pieces'). rw !flat_map_app Er. f_equal; [|transitivity ((123%N :: name ++ [125%N]) ++ rest); [f_equal|by rw /= -app_assoc]].
      * destruct before; simpl; [done|]. by rw app_nil_r atoms_of_text.
      * unfold placeholder in Ep. simpl. rw app_nil_r. repeat case_bool; simplify_eq; done.
    + destruct (is_empty remaining) eqn:Ee; [by destruct remaining; intros [= <-]|].
      destruct (has_char 125 remaining); [done|]. intros [= <-]. simpl. by rw app_nil_r atoms_of_text.
Qed.

Lemma pieces_text repository branch pieces :
  flat_map (piece_text repository branch) pieces = flat_map (atom_text repository branch) (flat_map piece_atoms pieces).
Proof.
  induction pieces as [|piece pieces IH]; [done|]. simpl. rw flat_map_app IH. f_equal.
  destruct piece; simpl; [by rw texts_of_text|by rw app_nil_r..].
Qed.

(** The segments of a template and of what it expands to correspond one to one. *)
Lemma atoms_segments repository branch atoms :
  ∃ groups, segments (flat_map atom_source atoms) = map (flat_map atom_source) groups ∧
    segments (flat_map (atom_text repository branch) atoms) = map (flat_map (atom_text repository branch)) groups ∧
    (∀ a, a ≠ A_Char slash → a ∈ atoms → ∃ g, g ∈ groups ∧ a ∈ g) ∧
    Forall (λ g, A_Char slash ∉ g) groups.
Proof.
  assert (∀ v, no_slash (flatten v)) as Hf.
  { intros v. unfold no_slash, flatten. rw list_elem_of_fmap. intros (c & E & _). destruct (N.eqb_spec c slash); [done|congruence]. }
  induction atoms as [|a atoms (groups & Hs & Ht & Hin & Hall)].
  { exists [[]]. split; [done|]. split; [done|]. split; [intros a _ Ha; by apply not_elem_of_nil in Ha|].
    constructor; [apply not_elem_of_nil|constructor]. }
  destruct (decide (a = A_Char slash)) as [->|Ha].
  - exists ([] :: groups). simpl. rw Hs Ht. split; [done|]. split; [done|]. split; [|by constructor; [apply not_elem_of_nil|]].
    intros b Hb [->|Hb']%elem_of_cons; [done|]. destruct (Hin b Hb Hb') as (g & Hg & Hbg). exists g. split; [by right|done].
  - assert (∃ g gs, groups = g :: gs) as (g & gs & ->).
    { destruct groups; [|by eexists _, _]. destruct (segments_cons (flat_map atom_source atoms)) as (x & y & E). by rw E in Hs. }
    assert (no_slash (atom_source a) ∧ no_slash (atom_text repository branch a)) as [Hn Hn'].
    { destruct a; simpl; [|split; [|apply Hf]..].
      - unfold no_slash. rw !list_elem_of_singleton. split; congruence.
      - by apply (bool_decide_unpack _).
      - by apply (bool_decide_unpack _). }
    exists ((a :: g) :: gs). cbn [flat_map map].
    rw (segments_prepend _ _ _ _ Hn Hs) (segments_prepend _ _ _ _ Hn' Ht). split; [done|]. split; [done|]. split.
    + intros b Hb [->|Hb']%elem_of_cons; [exists (a :: g); split; by left|].
      destruct (Hin b Hb Hb') as (g' & [->|Hg]%elem_of_cons & Hbg); [exists (a :: g); split; [by left|by right]|].
      exists g'. split; [by right|done].
    + apply Forall_cons in Hall as [Hg Hall]. constructor; [|done]. by apply not_elem_of_cons.
Qed.

(** A name a folder may have. *)
Definition folder_name (v : ustring) : Prop := v ≠ [] ∧ v ≠ [dot] ∧ v ≠ [dot; dot].

Lemma flatten_dots v n : flatten v = replicate n dot → v = replicate n dot.
Proof.
  revert n. induction v as [|c v IH]; intros n E; [by destruct n|]. destruct n as [|n]; [done|].
  simpl in E. injection E as Ec E. destruct (c =? slash)%N; [done|]. subst c. simpl. f_equal. by apply IH.
Qed.

(** Text with a flattened folder name in it is neither empty nor one or two dots. *)
Lemma with_name_not_dots before v after n :
  folder_name v → n ≤ 2 → before ++ flatten v ++ after ≠ replicate n dot.
Proof.
  intros (H0 & H1 & H2) Hn E.
  assert (flatten v = replicate (length (flatten v)) dot) as Ev.
  { symmetry. apply replicate_as_Forall_2; [done|]. apply Forall_forall. intros c Hc.
    assert (c ∈ replicate n dot) as Hr by (rw -E !elem_of_app; by right; left). by apply elem_of_replicate in Hr as [Hr _]. }
  pose proof (flatten_dots _ _ Ev) as Hv. apply (f_equal length) in E. rw !length_app length_replicate in E.
  assert (length (flatten v) = length v) as El by apply length_map. rw El in Hv, E.
  destruct v as [|? [|? [|? v]]]; simpl in *; try done; lia.
Qed.

Lemma group_safe repository branch g :
  folder_name repository → folder_name branch →
  flat_map atom_source g ≠ [dot; dot] → flat_map (atom_text repository branch) g ≠ [dot; dot].
Proof.
  intros Hr Hb Hs. destruct (decide (A_Repository ∈ g)) as [Hin|Hno]; [|destruct (decide (A_Branch ∈ g)) as [Hin|Hno']].
  - apply list_elem_of_split in Hin as (l1 & l2 & ->). rw flat_map_app. cbn [flat_map].
    apply (with_name_not_dots _ repository _ 2); [done|lia].
  - apply list_elem_of_split in Hin as (l1 & l2 & ->). rw flat_map_app. cbn [flat_map].
    apply (with_name_not_dots _ branch _ 2); [done|lia].
  - replace (flat_map (atom_text repository branch) g) with (flat_map atom_source g); [done|]. clear -Hno Hno'.
    induction g as [|a g IH]; [done|]. apply not_elem_of_cons in Hno as [Ha Hno], Hno' as [Ha' Hno'].
    simpl. rw IH //. by destruct a.
Qed.

Lemma branch_segment repository branch g :
  folder_name branch → A_Branch ∈ g →
  flat_map (atom_text repository branch) g ≠ [] ∧ flat_map (atom_text repository branch) g ≠ [dot].
Proof.
  intros Hb Hin. apply list_elem_of_split in Hin as (l1 & l2 & ->). rw flat_map_app. cbn [flat_map]. split.
  - apply (with_name_not_dots _ branch _ 0); [done|lia].
  - apply (with_name_not_dots _ branch _ 1); [done|lia].
Qed.

(** ** The path *)

(** Segments without a parent are the names of folders, one below the other. *)
Lemma segments_names segs :
  Forall (λ s, s ≠ [dot; dot]) segs →
  ∃ below, flat_map segment_component (map encode_utf8 segs) = map Normal below ∧
    ((∃ s, s ∈ segs ∧ s ≠ [] ∧ s ≠ [dot]) → below ≠ []).
Proof.
  induction 1 as [|s segs Hs _ (below & E & Hne)]; [exists []; split; [done|]; intros (s & Hs & _); by apply not_elem_of_nil in Hs|].
  cbn [map flat_map]. rw E. assert (∀ n, encode_utf8 s = replicate n dot ↔ s = replicate n dot) as Henc.
  { intros n. split; [apply encode_dots|]. intros ->. clear. induction n as [|n IH]; [done|].
    unfold encode_utf8 in *. cbn [replicate flat_map]. by rw encode_char_ascii // IH. }
  unfold segment_component. destruct (bool_decide_reflect (encode_utf8 s = [])) as [E0|E0];
    [|destruct (bool_decide_reflect (encode_utf8 s = [dot])) as [E1|E1];
      [|destruct (bool_decide_reflect (encode_utf8 s = [dot; dot])) as [E2|E2]]]; simpl.
  - exists below. split; [done|]. intros (s' & [->|Hin]%elem_of_cons & Hn & Hd); [by apply (Henc 0) in E0|by apply Hne; exists s'].
  - exists below. split; [done|]. intros (s' & [->|Hin]%elem_of_cons & Hn & Hd); [by apply (Henc 1) in E1|by apply Hne; exists s'].
  - by apply (Henc 2) in E2.
  - by exists (encode_utf8 s :: below).
Qed.

Lemma trim_slashes_components s :
  flat_map segment_component (segments (encode_utf8 (trim_slashes s))) = flat_map segment_component (segments (encode_utf8 s)).
Proof.
  induction s as [|c s IH]; [done|]. cbn [trim_slashes]. destruct (N.eqb_spec c slash) as [->|]; [|done].
  unfold encode_utf8 at 2. cbn [flat_map]. fold (encode_utf8 s). rw encode_char_ascii //.
Qed.

Lemma trim_slashes_relative s : is_absolute (encode_utf8 (trim_slashes s)) = false.
Proof.
  induction s as [|c s IH]; [done|]. cbn [trim_slashes]. destruct (N.eqb_spec c slash) as [|Hc]; [done|].
  unfold encode_utf8. cbn [flat_map]. fold (encode_utf8 s). destruct (encode_char c) as [|b t] eqn:Eb; simpl.
  - by apply (f_equal length) in Eb; revert Eb; unfold encode_char; repeat case_match.
  - apply N.eqb_neq. intros ->. assert (slash ∈ encode_char c) as Hin by (rw Eb; by left).
    apply encode_char_bytes in Hin as [Hin|Hin]; [done|]. unfold slash in Hin. lia.
Qed.

(** Joining goes down from an absolute path. *)
Lemma join_components base rel :
  is_absolute base = true → is_absolute rel = false →
  is_absolute (path_join base rel) = true ∧
  components (path_join base rel) = components base ++ flat_map segment_component (segments rel).
Proof.
  intros Hb Hr. unfold path_join. rw Hr.
  assert (∀ sep, is_absolute (base ++ sep ++ rel) = true) as Habs by (intros sep; by destruct base).
  split; [done|]. unfold components. rw Habs Hb /=. f_equal.
  destruct (last base) as [c|] eqn:El; [|apply last_None in El; by subst].
  apply last_Some in El as (base' & ->). destruct (N.eqb_spec c slash) as [->|Hc].
  - rw -app_assoc /= !segments_slash !flat_map_app. simpl. by rw app_nil_r.
  - rw (segments_slash (base' ++ [c])) flat_map_app. done.
Qed.

Lemma parse_inv template from_home pieces :
  template_parse template = Ok (from_home, pieces) →
  ∃ rest, template = (if from_home then [126%N] else []) ++ rest ∧ is_absolute rest = true ∧
    Forall (λ s, s ≠ [dot; dot]) (segments rest) ∧ flat_map atom_source (flat_map piece_atoms pieces) = rest ∧
    Piece_Branch ∈ pieces.
Proof.
  unfold template_parse. destruct (is_empty _); [done|]. destruct (_ <? _); [done|]. destruct (vany _ _); [done|].
  set (start := match template with 126%N :: rest => _ | _ => _ end).
  assert (∀ home rest, start = Ok (home, rest) → template = (if home : bool then [126%N] else []) ++ rest ∧ is_absolute rest = true) as Hstart.
  { intros home rest. unfold start. repeat case_match; intros; simplify_eq/=; done. }
  destruct start as [[home rest]|]; [|done]. simpl. destruct (Hstart home rest eq_refl) as [Et Ha].
  destruct (vany _ _) eqn:Ed; [done|]. destruct (template_pieces _ _) as [ps|] eqn:Ep; [|done]. simpl.
  destruct (vany _ ps) eqn:Eb; [|done]. intros [= <- <-]. exists rest. split; [done|]. split; [done|]. split; [|split].
  - rw vany_false in Ed. apply Forall_forall. intros s Hs. specialize (Ed s Hs). by apply bool_decide_eq_false in Ed.
  - by eapply pieces_source.
  - apply vany_true in Eb as (x & Hx & Hb). apply bool_decide_eq_true in Hb. by subst.
Qed.

(** ** Branch names *)

(** Empty components are leading, trailing and double slashes. *)
Lemma empty_component s :
  [] ∈ segments s ↔ s = [] ∨ (∃ t, s = slash :: t) ∨ (∃ t, s = t ++ [slash]) ∨ (∃ a b, s = a ++ slash :: slash :: b).
Proof.
  split.
  - intros Hin. apply list_elem_of_split in Hin as (l1 & l2 & E). revert s E.
    induction l1 as [|x l1 IH]; intros s E.
    + destruct s as [|c s]; [by left|]. simpl in E. destruct (N.eqb_spec c slash) as [->|]; [right; left; by eexists|].
      destruct (segments s); done.
    + assert (∃ t, s = x ++ slash :: t ∧ segments t = l1 ++ [] :: l2) as (t & -> & Et).
      { clear IH. revert x E. induction s as [|c s IHs]; intros x E; [by destruct l1|]. simpl in E.
        destruct (N.eqb_spec c slash) as [->|].
        - injection E as <- E. by exists s.
        - destruct (segments_cons s) as (y & rest & Es). rw Es in E. injection E as <- E.
          destruct (IHs y ltac:(by rw Es E)) as (t & -> & Et). by exists t. }
      destruct (IH t Et) as [->|[(t' & ->)|[(t' & ->)|(a & b & ->)]]].
      * right; right; left. by exists x.
      * right; right; right. by exists x, t'.
      * right; right; left. exists (x ++ slash :: t'). by rw -app_assoc.
      * right; right; right. exists (x ++ slash :: a), b. by rw -app_assoc.
  - intros [->|[(t & ->)|[(t & ->)|(a & b & ->)]]].
    + by left.
    + simpl. by left.
    + rw (segments_slash t []) elem_of_app. right. by left.
    + rw (segments_slash a) elem_of_app. right. simpl. by left.
Qed.

(** The check of a branch name is Git's rule: the name is accepted exactly when it is no
    reserved name and starts with no dash, has no forbidden character, no two dots and no
    at-brace, does not end with a dot, and every component between slashes is nonempty,
    starts with no dot and does not end with .lock. *)
Theorem branch_name_rule name :
  validate_branch_name name = Ok tt ↔
  name ≠ lit "@" ∧ name ≠ lit "HEAD" ∧ (¬ ∃ t, name = lit "-" ++ t) ∧ Forall (λ c, forbidden_char c = false) name ∧
  (¬ ∃ a b, name = a ++ lit ".." ++ b) ∧ (¬ ∃ a b, name = a ++ lit "@{" ++ b) ∧ (¬ ∃ a, name = a ++ lit ".") ∧
  Forall (λ s, s ≠ [] ∧ (¬ ∃ t, s = lit "." ++ t) ∧ ¬ ∃ a, s = a ++ lit ".lock") (segments name).
Proof.
  rw -!contains_spec -!starts_with_spec -!ends_with_spec.
  assert (Forall (λ c, forbidden_char c = false) name ↔ vany forbidden_char name = false) as ->.
  { rw vany_false Forall_forall. done. }
  assert (Forall (λ s, s ≠ [] ∧ (¬ ∃ t, s = lit "." ++ t) ∧ ¬ ∃ a, s = a ++ lit ".lock") (segments name) ↔
    name ≠ [] ∧ contains (lit "//") name = false ∧ starts_with (lit "/") name = false ∧ ends_with (lit "/") name = false ∧
    vany (λ s, starts_with (lit ".") s || ends_with (lit ".lock") s) (segments name) = false) as ->.
  { rw -!not_true_iff_false contains_spec starts_with_spec ends_with_spec vany_true Forall_forall.
    pose proof (empty_component name) as He. split.
    - intros Hall. assert ([] ∉ segments name) as Hno by by (intros Hin; destruct (Hall [] Hin)).
      split; [intros E; by apply Hno, He; left|]. split; [intros (a & b & E); apply Hno, He; right; right; right; by exists a, b|].
      split; [intros (t & E); apply Hno, He; right; left; by exists t|].
      split; [intros (t & E); apply Hno, He; right; right; left; by exists t|].
      intros (s & Hs & Hor). apply orb_true_iff in Hor. rw starts_with_spec ends_with_spec in Hor.
      destruct (Hall s Hs) as (_ & H1 & H2). tauto.
    - intros (H0 & H1 & H2 & H3 & H4) s Hs. rw -starts_with_spec -ends_with_spec. split.
      + intros ->. apply He in Hs as [?|[(t & ?)|[(t & ?)|(a & b & ?)]]];
          [done|apply H2; by exists t|apply H3; by exists t|apply H1; by exists a, b].
      + split; intros Hx; apply H4; exists s; rw Hx; by rw ?orb_true_r. }
  unfold validate_branch_name. rw !not_true_iff_false. destruct name as [|c name]; [split; [done|]; intuition congruence|].
  cbn [is_empty]. destruct (starts_with (lit "-") _); [split; [done|]; intuition congruence|].
  destruct (bool_decide_reflect (c :: name = lit "@")); [split; [done|]; intuition congruence|].
  destruct (bool_decide_reflect (c :: name = lit "HEAD")); [split; [done|]; intuition congruence|]. cbn [orb].
  destruct (vany forbidden_char _); [split; [done|]; intuition congruence|].
  destruct (contains (lit "..") _); [split; [done|]; intuition congruence|].
  destruct (contains (lit "//") _); [split; [done|]; intuition congruence|].
  destruct (contains (lit "@{") _); [split; [done|]; intuition congruence|]. cbn [orb].
  destruct (starts_with (lit "/") _); [split; [done|]; intuition congruence|].
  destruct (ends_with (lit "/") _); [split; [done|]; intuition congruence|].
  destruct (ends_with (lit ".") _); [split; [done|]; intuition congruence|]. cbn [orb].
  destruct (vany _ (segments _)); [split; [done|]; intuition congruence|]. split; [|done]. intros _. intuition done.
Qed.

(** A branch Git accepts can be a folder's name. *)
Lemma branch_folder_name name : validate_branch_name name = Ok tt → folder_name name.
Proof.
  unfold validate_branch_name, folder_name. intros Hv.
  split; [by intros ->|]. split; by intros ->.
Qed.

(** C37. A new Worktree is proposed below its start and nowhere else: for any template, any
    repository folder and any branch Git accepts, the expanded path is absolute,
    it is the home folder or the root followed by at least one folder name, and it has no
    parent segment, whatever literal text and placeholders share a segment. *)
Theorem expand_stays_below template home repository branch p :
  is_absolute home = true → folder_name repository → validate_branch_name branch = Ok tt →
  template_expand template home repository branch = Ok p →
  is_absolute p = true ∧
  ∃ below, below ≠ [] ∧
    components p = (if starts_with [126%N] template then components home else [RootDir]) ++ map Normal below.
Proof.
  intros Hh Hr Hb%branch_folder_name. unfold template_expand. destruct (template_parse template) as [[from_home pieces]|] eqn:Ep; [|done].
  simpl. intros [= <-]. destruct (parse_inv _ _ _ Ep) as (rest & Et & Ha & Hd & Hsrc & Hin).
  rw (pieces_text repository branch). set (atoms := flat_map piece_atoms pieces) in *.
  destruct (atoms_segments repository branch atoms) as (groups & Hs & Ht & Hgroup & _).
  set (text := flat_map (atom_text repository branch) atoms) in *. rw Hsrc in Hs.
  destruct (segments_names (segments text)) as (below & Ec & Hne).
  { rw Ht. rw Hs in Hd. rw !Forall_forall in Hd |- *. intros s (g & -> & Hg)%list_elem_of_fmap.
    apply group_safe; [done|done|]. apply Hd. by apply list_elem_of_fmap_2. }
  assert (below ≠ []) as Hbelow.
  { apply Hne. destruct (Hgroup A_Branch ltac:(done)) as (g & Hg & Hbg).
    { unfold atoms. apply list_elem_of_In, in_flat_map. exists Piece_Branch. split; [by apply list_elem_of_In|by left]. }
    exists (flat_map (atom_text repository branch) g). split; [rw Ht; by apply list_elem_of_fmap_2|]. by apply branch_segment. }
  rw -segments_encode in Ec. destruct from_home.
  - destruct (join_components home (encode_utf8 (trim_slashes text)) Hh (trim_slashes_relative text)) as [Hj Hc].
    split; [done|]. exists below. split; [done|]. rw Hc trim_slashes_components Ec Et. done.
  - assert (∃ t, text = slash :: t) as (t & Etext).
    { rw -Hsrc in Ha. unfold text. clear -Ha. destruct atoms as [|[c| |] atoms]; try done. simpl in Ha.
      apply N.eqb_eq in Ha as ->. by eexists. }
    assert (is_absolute (encode_utf8 text) = true) as Habs by by rw Etext. split; [done|]. exists below. split; [done|].
    unfold components. rw Habs Ec. simpl in Et. rw Et. destruct rest as [|c rest]; [done|]. simpl in Ha.
    apply N.eqb_eq in Ha as ->. done.
Qed.

(** ** Concrete paths *)

Module Sample.
Definition home : path := Eval vm_compute in encode_utf8 (lit "/home/ada").
Definition template : ustring := Eval vm_compute in lit "~/.{repository}/wt-{branch}".
Lemma expand_stays_below_witness :
  template_expand template home (lit "space") (lit "fix/dots") = Ok (encode_utf8 (lit "/home/ada/.space/wt-fix-dots")) ∧
  ∃ below, below ≠ [] ∧
    components (encode_utf8 (lit "/home/ada/.space/wt-fix-dots")) = components home ++ map Normal below.
Proof.
  split; [vm_compute; reflexivity|].
  apply (expand_stays_below template home (lit "space") (lit "fix/dots")); [reflexivity| |vm_compute; reflexivity..].
  split; [discriminate|split; discriminate].
Defined.
End Sample.
