(* ===== verification/WorktreeList.v ===== *)
(** * The Worktrees of a repository

    [src/worktrees/listing.rs] reads what [git worktree list --porcelain] prints, and
    [WorktreeRegistry] of [src/domain/worktree.rs] gives each Worktree that a Workspace
    refers to one handle. Theorems: a listing is read back whole, with whatever fields a
    newer Git adds, and a handle never names two Worktrees. *)
From Stdlib Require Import Lia.
From S2P Require Import Prelude.
From S2P Require Import Text.
From S2P Require Import Facts.
From S2P Require Import Bytes.

(** [discovery::SHORT_COMMIT_LENGTH]. *)
Definition SHORT_COMMIT_LENGTH : nat := 7.

(** ** Reading a listing *)

Record PartialRecord := {
  pr_root : path; pr_commit : option ustring; pr_branch : option ustring;
  pr_detached : bool; pr_bare : bool; pr_locked : bool; pr_missing : bool
}.

Definition partial_new (root : ustring) : PartialRecord :=
  {| pr_root := encode_utf8 root; pr_commit := None; pr_branch := None; pr_detached := false;
     pr_bare := false; pr_locked := false; pr_missing := false |}.

(** [PartialRecord::finish]. *)
Definition partial_finish (r : PartialRecord) : result WorktreeRecord RepositoryReadError :=
  let? head :=
    if pr_bare r then Ok Wt_Bare
    else match pr_branch r with
         | Some branch => Ok (Wt_Branch branch)
         | None =>
             if pr_detached r then
               let? commit := ok_or (pr_commit r) Read_InvalidResponse in
               Ok (Wt_Detached (take SHORT_COMMIT_LENGTH commit))
             else Err Read_InvalidResponse
         end
  in
  Ok {| wr_root := pr_root r; wr_head := head; wr_locked := pr_locked r; wr_missing := pr_missing r |}.

(** [field.split_once(' ').unwrap_or((field, ""))]. *)
Definition label_value (field : ustring) : ustring * ustring :=
  match find_char 32 field with Some parts => parts | None => (field, []) end.

(** The arms of the loop for a field of the current record. *)
Definition record_field (label value : ustring) (r : PartialRecord) : PartialRecord :=
  let '{| pr_root := root; pr_commit := commit; pr_branch := branch; pr_detached := detached;
          pr_bare := bare; pr_locked := locked; pr_missing := missing |} := r in
  if bool_decide (label = lit "HEAD") then Build_PartialRecord root (Some value) branch detached bare locked missing
  else if bool_decide (label = lit "branch") then
    let name := match strip_prefix (lit "refs/heads/") value with Some name => name | None => value end in
    Build_PartialRecord root commit (Some name) detached bare locked missing
  else if bool_decide (label = lit "detached") then Build_PartialRecord root commit branch true bare locked missing
  else if bool_decide (label = lit "bare") then Build_PartialRecord root commit branch detached true locked missing
  else if bool_decide (label = lit "locked") then Build_PartialRecord root commit branch detached bare true missing
  else if bool_decide (label = lit "prunable") then Build_PartialRecord root commit branch detached bare locked true
  else r.

(** [if let Some(record) = current.take() { records.push(record.finish()?); }]. *)
Definition push_current (records : list WorktreeRecord) (current : option PartialRecord)
    : result (list WorktreeRecord) RepositoryReadError :=
  match current with
  | Some record => let? record := partial_finish record in Ok (records ++ [record])
  | None => Ok records
  end.

(** The loop over the fields. *)
Fixpoint list_fields (fields : list (list N)) (records : list WorktreeRecord) (current : option PartialRecord)
    : result (list WorktreeRecord * option PartialRecord) RepositoryReadError :=
  match fields with
  | [] => Ok (records, current)
  | field :: fields =>
      if is_empty field then
        let? records := push_current records current in
        list_fields fields records None
      else
        let? field := ok_or (from_utf8 field) Read_InvalidResponse in
        let '(label, value) := label_value field in
        if bool_decide (label = lit "worktree") then
          let? records := push_current records current in
          if is_empty value then Err Read_InvalidResponse
          else list_fields fields records (Some (partial_new value))
        else
          let? record := ok_or current Read_InvalidResponse in
          list_fields fields records (Some (record_field label value record))
  end.

(** [parse_worktree_list]. *)
Definition parse_worktree_list (output : list N) (separator : N) : result (list WorktreeRecord) RepositoryReadError :=
  let? (records, current) := list_fields (split_on separator output) [] None in
  let? records := push_current records current in
  if is_empty records then Err Read_InvalidResponse else Ok records.

(** ** The registry of handles *)

(** A key holds the repository's main root and the Worktree's root. *)
Record WorktreeKey := { wk_repository : path; wk_root : path }.

(** Keys compare as paths do. *)
Definition worktree_key_eqb (a b : WorktreeKey) : bool :=
  path_eqb (wk_repository a) (wk_repository b) && path_eqb (wk_root a) (wk_root b).

(** The order of the map [ids] is never read, so it is a list of entries. *)
Record WorktreeRegistry := { rg_ids : list (WorktreeKey * N); rg_keys : gmap N WorktreeKey; rg_next : N }.

Definition registry_default : WorktreeRegistry := {| rg_ids := []; rg_keys := ∅; rg_next := 1 |}.

(** [WorktreeRegistry::id]. *)
Definition registry_id (key : WorktreeKey) (r : WorktreeRegistry) : option N :=
  snd <$> vfind (λ e, worktree_key_eqb e.1 key) (rg_ids r).

(** [WorktreeRegistry::key]. *)
Definition registry_key (id : N) (r : WorktreeRegistry) : option WorktreeKey := rg_keys r !! id.

(** [WorktreeRegistry::id_for]; [Err] is [WorktreeIdSpaceExhausted]. *)
Definition id_for (key : WorktreeKey) (r : WorktreeRegistry) : WorktreeRegistry * result N unit :=
  match registry_id key r with
  | Some id => (r, Ok id)
  | None =>
      let id := rg_next r in
      match u64_checked_add (rg_next r) 1 with
      | None => (r, Err tt)
      | Some next => ({| rg_ids := (key, id) :: rg_ids r; rg_keys := <[id := key]> (rg_keys r); rg_next := next |}, Ok id)
      end
  end.

(** [WorktreeRegistry::forget]. *)
Definition registry_forget (id : N) (r : WorktreeRegistry) : WorktreeRegistry :=
  match rg_keys r !! id with
  | Some key =>
      {| rg_ids := vfilter (λ e, negb (worktree_key_eqb e.1 key)) (rg_ids r); rg_keys := delete id (rg_keys r);
         rg_next := rg_next r |}
  | None => r
  end.

(** ** A listing is read back whole *)

(** A Worktree as [git worktree list --porcelain] describes it, with the fields that a newer
    Git may add. *)
Record GitWorktree := {
  gw_path : ustring; gw_commit : ustring; gw_head : WorktreeHead; gw_locked : option ustring;
  gw_prunable : option ustring; gw_more : list ustring
}.

Definition with_reason (label : ustring) (reason : option ustring) : list ustring :=
  match reason with
  | None => []
  | Some [] => [label]
  | Some text => [label ++ 32%N :: text]
  end.

Definition head_fields (w : GitWorktree) : list ustring :=
  match gw_head w with
  | Wt_Bare => [lit "bare"]
  | Wt_Branch name => [lit "HEAD " ++ gw_commit w; lit "branch refs/heads/" ++ name]
  | Wt_Detached _ => [lit "HEAD " ++ gw_commit w; lit "detached"]
  end.

Definition worktree_fields (w : GitWorktree) : list ustring :=
  [lit "worktree " ++ gw_path w] ++ head_fields w ++ with_reason (lit "locked") (gw_locked w)
  ++ with_reason (lit "prunable") (gw_prunable w) ++ gw_more w.

(** The fields of every Worktree, each terminated, an empty one after each record. *)
Definition print_listing (separator : N) (ws : list GitWorktree) : list N :=
  terminated separator (flat_map (λ w, map encode_utf8 (worktree_fields w) ++ [[]]) ws).

Definition known_labels : list ustring :=
  map lit ["worktree"; "HEAD"; "branch"; "detached"; "bare"; "locked"; "prunable"]%string.

Definition well_listed (separator : N) (w : GitWorktree) : Prop :=
  gw_path w ≠ [] ∧
  Forall (λ f, valid_text f ∧ separator ∉ encode_utf8 f) (worktree_fields w) ∧
  Forall (λ f, f ≠ [] ∧ (label_value f).1 ∉ known_labels) (gw_more w).

(** What the desktop shows of it. *)
Definition listed (w : GitWorktree) : WorktreeRecord :=
  {| wr_root := encode_utf8 (gw_path w);
     wr_head := match gw_head w with Wt_Detached _ => Wt_Detached (take SHORT_COMMIT_LENGTH (gw_commit w)) | h => h end;
     wr_locked := bool_decide (is_Some (gw_locked w)); wr_missing := bool_decide (is_Some (gw_prunable w)) |}.

Lemma label_value_app label value :
  32%N ∉ label → label_value (label ++ 32%N :: value) = (label, value).
Proof. intros Hl. unfold label_value. by rw find_char_split. Qed.

(** The fields after the first, read as text. *)
Definition read_text (r : PartialRecord) (f : ustring) : PartialRecord :=
  record_field (label_value f).1 (label_value f).2 r.

Lemma encode_nonempty f : f ≠ [] → is_empty (encode_utf8 f) = false.
Proof. destruct f as [|c f]; [done|]. intros _. unfold encode_utf8, encode_char. simpl. by repeat case_match. Qed.

Lemma list_fields_text fs : ∀ rest records r,
  Forall valid_text fs → Forall (λ f, f ≠ [] ∧ (label_value f).1 ≠ lit "worktree") fs →
  list_fields (map encode_utf8 fs ++ rest) records (Some r) = list_fields rest records (Some (foldl read_text r fs)).
Proof.
  induction fs as [|f fs IH]; intros rest records r Hv Hn; [done|].
  apply Forall_cons in Hv as [Hf Hv]. apply Forall_cons in Hn as [[Hne Hl] Hn].
  cbn [map app list_fields]. rw (encode_nonempty _ Hne) (from_utf8_encode _ Hf). simpl.
  destruct (label_value f) as [label value] eqn:El. rw bool_decide_eq_false_2 //. rw IH //.
  cbn [foldl]. assert (read_text r f = record_field label value r) as ->; [|done]. unfold read_text. by rw El.
Qed.


Lemma read_text_label label value r :
  32%N ∉ label → read_text r (label ++ 32%N :: value) = record_field label value r.
Proof. intros Hl. unfold read_text. by rw label_value_app. Qed.

Lemma read_reason label reason r :
  32%N ∉ label → (∀ value, record_field label value r = record_field label [] r) →
  foldl read_text r (with_reason label reason) = match reason with Some _ => record_field label [] r | None => r end.
Proof.
  intros Hl Hsame. destruct reason as [[|c text]|]; [|simpl; by rw read_text_label // Hsame|done].
  simpl. unfold read_text, label_value. by rw find_char_absent.
Qed.

(** Fields of a newer Git change nothing. *)
Lemma read_more more r :
  Forall (λ f, f ≠ [] ∧ (label_value f).1 ∉ known_labels) more → foldl read_text r more = r.
Proof.
  induction 1 as [|f more [_ Hf] _ IH]; [done|]. cbn [foldl].
  assert (read_text r f = r) as ->; [|done]. unfold read_text, record_field. destruct r.
  repeat (rw bool_decide_eq_false_2; [intros E; apply Hf; rw E; by apply (bool_decide_unpack _); vm_compute|]).
  done.
Qed.

Lemma read_fields w :
  Forall (λ f, f ≠ [] ∧ (label_value f).1 ∉ known_labels) (gw_more w) →
  partial_finish (foldl read_text (partial_new (gw_path w))
    (head_fields w ++ with_reason (lit "locked") (gw_locked w) ++ with_reason (lit "prunable") (gw_prunable w) ++ gw_more w))
  = Ok (listed w).
Proof.
  intros Hm. rw !foldl_app (read_more _ _ Hm).
  rw (read_reason (lit "prunable")); [by apply (bool_decide_unpack _); vm_compute|by intros; destruct (foldl _ _ _)|].
  rw (read_reason (lit "locked")); [by apply (bool_decide_unpack _); vm_compute|by intros; destruct (foldl _ _ _)|].
  assert (foldl read_text (partial_new (gw_path w)) (head_fields w) =
    match gw_head w with
    | Wt_Bare => Build_PartialRecord (encode_utf8 (gw_path w)) None None false true false false
    | Wt_Branch name => Build_PartialRecord (encode_utf8 (gw_path w)) (Some (gw_commit w)) (Some name) false false false false
    | Wt_Detached _ => Build_PartialRecord (encode_utf8 (gw_path w)) (Some (gw_commit w)) None true false false false
    end) as ->.
  { unfold head_fields, partial_new. destruct (gw_head w) as [name|commit|]; cbn [foldl]; [| |done].
    - change (lit "HEAD " ++ gw_commit w) with (lit "HEAD" ++ 32%N :: gw_commit w).
      change (lit "branch refs/heads/" ++ name) with (lit "branch" ++ 32%N :: lit "refs/heads/" ++ name).
      rw !read_text_label; [by apply (bool_decide_unpack _); vm_compute..|]. unfold record_field. simpl. by destruct name.
    - change (lit "HEAD " ++ gw_commit w) with (lit "HEAD" ++ 32%N :: gw_commit w).
      rw !read_text_label; [by apply (bool_decide_unpack _); vm_compute..|]. done. }
  unfold listed. destruct (gw_head w), (gw_locked w), (gw_prunable w); done.
Qed.

Lemma reason_fields label reason :
  label ≠ [] → 32%N ∉ label → label ≠ lit "worktree" →
  Forall (λ f, f ≠ [] ∧ (label_value f).1 ≠ lit "worktree") (with_reason label reason).
Proof.
  intros Hl Hs Hw. destruct reason as [[|c text]|]; repeat constructor; try done.
  - unfold label_value. by rw find_char_absent.
  - by destruct label.
  - by rw label_value_app.
Qed.

(** One record: its fields, and the blank one that ends it. *)
Lemma list_record separator w rest records current :
  well_listed separator w →
  list_fields (map encode_utf8 (worktree_fields w) ++ [[]] ++ rest) records current =
  (let? records := push_current records current in list_fields rest (records ++ [listed w]) None).
Proof.
  intros (Hp & Hf & Hm). unfold worktree_fields in *. apply Forall_cons in Hf as [[Hv _] Hf].
  set (tail := head_fields w ++ _) in *. cbn [app map list_fields].
  change (lit "worktree " ++ gw_path w) with (lit "worktree" ++ 32%N :: gw_path w) in *.
  rw encode_nonempty // (from_utf8_encode _ Hv). cbn [ok_or result_bind].
  rw label_value_app; [by apply (bool_decide_unpack _); vm_compute|]. cbn [bool_decide].
  rw bool_decide_eq_true_2 //. destruct (push_current records current) as [records'|e]; [|done]. cbn [result_bind].
  destruct (gw_path w) as [|c p] eqn:Ep; [done|]. cbn [is_empty]. rw -Ep.
  rw (list_fields_text tail).
  - eapply Forall_impl; [exact Hf|]. by intros f [Hx _].
  - unfold tail. rw !Forall_app. split; [|split; [|split]].
    + unfold head_fields. destruct (gw_head w); repeat constructor; by apply (bool_decide_unpack _); vm_compute.
    + by apply reason_fields; apply (bool_decide_unpack _); vm_compute.
    + by apply reason_fields; apply (bool_decide_unpack _); vm_compute.
    + eapply Forall_impl; [exact Hm|]. intros f [Hne Hk]. split; [done|]. intros E. apply Hk. rw E. by left.
  - cbn [app list_fields is_empty push_current]. unfold tail. rw read_fields //.
Qed.

Lemma list_records separator ws : ∀ records,
  Forall (well_listed separator) ws →
  list_fields (flat_map (λ w, map encode_utf8 (worktree_fields w) ++ [[]]) ws ++ [[]]) records None =
  Ok (records ++ map listed ws, None).
Proof.
  induction ws as [|w ws IH]; intros records Hw; [by rw app_nil_r|]. apply Forall_cons in Hw as [Hw Hws].
  cbn [flat_map]. rw -!app_assoc (list_record separator) //. cbn [push_current result_bind map].
  by rw IH // -app_assoc.
Qed.

(** C34. A listing is read back whole: whatever Worktrees Git prints, each with its head, its
    lock and prune marks, their reasons and any field of a newer Git, in either form of the
    output, the reader returns exactly these Worktrees in their order. *)
Theorem listing_read separator ws :
  ws ≠ [] → Forall (well_listed separator) ws →
  parse_worktree_list (print_listing separator ws) separator = Ok (map listed ws).
Proof.
  intros Hne Hws. unfold parse_worktree_list, print_listing. rw split_on_terminated.
  - apply Forall_flat_map. eapply Forall_impl; [exact Hws|]. intros w (_ & Hf & _). apply Forall_app. split.
    + apply Forall_map. eapply Forall_impl; [exact Hf|]. by intros f [_ Hs].
    + repeat constructor. apply not_elem_of_nil.
  - rw (list_records separator) //. simpl. by destruct ws.
Qed.

(** ** Handles *)

Inductive RegistryCall := Rg_IdFor (key : WorktreeKey) | Rg_Forget (id : N).
Definition registry_call (r : WorktreeRegistry) (call : RegistryCall) : WorktreeRegistry :=
  match call with Rg_IdFor key => (id_for key r).1 | Rg_Forget id => registry_forget id r end.
Definition registry_run : list RegistryCall → WorktreeRegistry := foldl registry_call registry_default.

(** Both maps are one relation between handles and keys, and every handle is below the next. *)
Record RegistryInv (r : WorktreeRegistry) : Prop := {
  ri_same : ∀ key id, (key, id) ∈ rg_ids r ↔ rg_keys r !! id = Some key;
  ri_keys : ∀ e e', e ∈ rg_ids r → e' ∈ rg_ids r → worktree_key_eqb e.1 e'.1 = true → e = e';
  ri_below : ∀ e, e ∈ rg_ids r → (1 <= e.2 < rg_next r)%N;
  ri_next : (1 <= rg_next r <= u64_max)%N
}.

Lemma worktree_key_eqb_spec a b :
  worktree_key_eqb a b = true ↔
  components (wk_repository a) = components (wk_repository b) ∧ components (wk_root a) = components (wk_root b).
Proof. unfold worktree_key_eqb, path_eqb. by rw andb_true_iff !bool_decide_eq_true. Qed.

Lemma inv_id_for key r : RegistryInv r → RegistryInv (id_for key r).1.
Proof.
  intros [Hs Hk Hb Hn]. unfold id_for. destruct (registry_id key r) as [id|] eqn:Ei; [done|].
  unfold u64_checked_add. destruct (N.leb_spec (rg_next r + 1) u64_max) as [Hle|]; [|done]. simpl.
  assert (∀ e, e ∈ rg_ids r → worktree_key_eqb e.1 key = false) as Hnew.
  { unfold registry_id in Ei. destruct (vfind _ _) eqn:Ev; [done|]. by apply vfind_None. }
  split; simpl; [| | |lia].
  - intros key' id'. rw elem_of_cons lookup_insert Hs. case_decide as Hd; subst.
    + split; [intros [[=]|Hin]|]; [by subst| |by intros [= ->]; left]. apply Hs, Hb in Hin. simpl in Hin. lia.
    + split; [by intros [[= _ ->]|]|by right].
  - intros e e' [->|He]%elem_of_cons [->|He']%elem_of_cons Heq; simpl in *; [done| | |by apply Hk].
    + specialize (Hnew e' He'). apply worktree_key_eqb_spec in Heq as [E1 E2].
      assert (worktree_key_eqb e'.1 key = true) by by apply worktree_key_eqb_spec. congruence.
    + specialize (Hnew e He). congruence.
  - intros e [->|He]%elem_of_cons; simpl; [lia|]. specialize (Hb e He). lia.
Qed.

Lemma inv_forget id r : RegistryInv r → RegistryInv (registry_forget id r).
Proof.
  intros [Hs Hk Hb Hn]. unfold registry_forget. destruct (rg_keys r !! id) as [key|] eqn:E; [|done].
  assert ((key, id) ∈ rg_ids r) as Hin by by apply Hs.
  split; simpl; [| | |done].
  - intros key' id'. rw elem_of_vfilter negb_true_iff /= lookup_delete Hs. case_decide as Hd.
    + subst id'. split; [|done]. intros [Hf Hl]. rw E in Hl. injection Hl as <-.
      assert (worktree_key_eqb key key = true) by by apply worktree_key_eqb_spec. congruence.
    + split; [by intros [_ ?]|]. intros Hl. split; [|done]. apply not_true_iff_false. intros Heq.
      apply Hs in Hl. pose proof (Hk (key', id') (key, id) Hl Hin Heq). by simplify_eq.
  - intros e e'. rw !elem_of_vfilter. intros [_ He] [_ He']. by apply Hk.
  - intros e. rw elem_of_vfilter. intros [_ He]. by apply Hb.
Qed.

Lemma registry_inv calls : RegistryInv (registry_run calls).
Proof.
  unfold registry_run. assert (RegistryInv registry_default) as Hd.
  { split; simpl; [| | |done].
    - intros key id. rw lookup_empty. split; [by intros ?%not_elem_of_nil|done].
    - by intros e e' ?%not_elem_of_nil.
    - by intros e ?%not_elem_of_nil. }
  revert Hd. generalize registry_default. induction calls as [|[key|id] calls IH]; intros r Hr; [done| |]; apply IH;
    [by apply inv_id_for|by apply inv_forget].
Qed.

(** A later registry gives a handle its key, or none; new handles start at the next one. *)
Lemma registry_later calls r id key :
  RegistryInv r → (id < rg_next r)%N → registry_key id (foldl registry_call r calls) = Some key → registry_key id r = Some key.
Proof.
  revert r. induction calls as [|call calls IH]; intros r Hr Hlt; [done|]. simpl. intros Hk.
  assert (RegistryInv (registry_call r call)) as Hr'.
  { destruct call; [by apply inv_id_for|by apply inv_forget]. }
  apply IH in Hk; [|done|].
  - revert Hk. destruct call as [key'|id']; simpl; unfold registry_key.
    + unfold id_for. destruct (registry_id key' r); [done|]. destruct (u64_checked_add _ _); [|done]. simpl.
      rw lookup_insert_ne //. lia.
    + unfold registry_forget. destruct (rg_keys r !! id'); [|done]. simpl. rw lookup_delete. by case_decide.
  - destruct call as [key'|id']; simpl.
    + unfold id_for, u64_checked_add. destruct (registry_id key' r); [done|].
      destruct (N.leb_spec (rg_next r + 1) u64_max); simpl; [lia|done].
    + unfold registry_forget. by destruct (rg_keys r !! id').
Qed.

Lemma id_key key id r :
  RegistryInv r → registry_id key r = Some id → ∃ key', registry_key id r = Some key' ∧ worktree_key_eqb key' key = true.
Proof.
  intros Hr. unfold registry_id. destruct (vfind _ _) as [[key' id']|] eqn:Ev; [|done]. intros [= ->].
  apply vfind_Some in Ev as [Heq Hin]. exists key'. split; [|done]. by apply (ri_same _ Hr).
Qed.

Lemma key_id key id r : RegistryInv r → registry_key id r = Some key → registry_id key r = Some id.
Proof.
  intros Hr Hk%(ri_same _ Hr). unfold registry_id.
  assert (worktree_key_eqb key key = true) as Heq by by apply worktree_key_eqb_spec.
  destruct (vfind_is_Some (λ e, worktree_key_eqb e.1 key) _ _ Hk Heq) as [[key' id'] Ev]. rw Ev. simpl.
  apply vfind_Some in Ev as [He Hin]. pose proof (ri_keys _ Hr (key', id') (key, id) Hin Hk He). by simplify_eq.
Qed.

(** A handle names one Worktree for good: along every run of calls, asking for a
    Worktree that has a handle answers that one and changes nothing; asking for another
    gives a handle that reads back as it, and fails only when all 2^64-1 are spent; and a
    handle that was answered never names another Worktree, also after it is forgotten and
    the Worktree is listed again. *)
Theorem handles_never_reused before key r' answer :
  let r := registry_run before in
  id_for key r = (r', answer) →
  match answer with
  | Ok id =>
      (registry_id key r = None ∨ registry_id key r = Some id ∧ r' = r) ∧ registry_id key r' = Some id ∧
      ∃ key', registry_key id r' = Some key' ∧ worktree_key_eqb key' key = true ∧
        ∀ after key'', registry_key id (foldl registry_call r' after) = Some key'' → key'' = key'
  | Err _ => r' = r ∧ rg_next r = u64_max
  end.
Proof.
  intros r Hc. pose proof (registry_inv before) as Hr. fold r in Hr. pose proof (inv_id_for key r Hr) as Hr'. rw Hc in Hr'.
  simpl in Hr'. assert (∀ id, answer = Ok id → registry_id key r' = Some id ∧
      (registry_id key r = None ∨ registry_id key r = Some id ∧ r' = r)) as Hok.
  { intros id ->. revert Hc. unfold id_for. destruct (registry_id key r) as [id'|] eqn:E; [intros [= <- ->]; auto|].
    destruct (u64_checked_add _ _); [|done]. intros [= <- <-]. split; [|by left]. unfold registry_id. simpl.
    assert (worktree_key_eqb key key = true) as -> by by apply worktree_key_eqb_spec. done. }
  destruct answer as [id|e].
  - destruct (Hok id eq_refl) as [Hi Hor]. split; [done|]. split; [done|].
    destruct (id_key key id r' Hr' Hi) as (key' & Hk & He). exists key'. split; [done|]. split; [done|].
    intros after key'' Hl. apply registry_later in Hl; [congruence|done|].
    apply (ri_same _ Hr') in Hk. apply (ri_below _ Hr') in Hk as [_ Hk]. exact Hk.
  - revert Hc. unfold id_for, u64_checked_add. destruct (registry_id key r); [done|].
    destruct (N.leb_spec (rg_next r + 1) u64_max); [done|]. intros [= <- _]. split; [done|]. pose proof (ri_next _ Hr). lia.
Qed.

(** ** Concrete runs *)

Module Sample.
Definition main : GitWorktree :=
  {| gw_path := lit "/src/app"; gw_commit := lit "1bccb23a55"; gw_head := Wt_Branch (lit "main"); gw_locked := None;
     gw_prunable := None; gw_more := [] |}.
Definition moved : GitWorktree :=
  {| gw_path := lit "/wt/gone"; gw_commit := lit "1bccb23a55"; gw_head := Wt_Detached []; gw_locked := Some (lit "on a disk");
     gw_prunable := Some []; gw_more := [lit "colour blue"] |}.

Lemma listing_read_witness :
  [main; moved] ≠ [] ∧ Forall (well_listed 0) [main; moved] ∧
  parse_worktree_list (print_listing 0 [main; moved]) 0 = Ok (map listed [main; moved]) ∧
  map wr_head (map listed [main; moved]) = [Wt_Branch (lit "main"); Wt_Detached (lit "1bccb23")].
Proof.
  assert (Forall (well_listed 0) [main; moved]) as Hw.
  { repeat constructor; (done || (apply (bool_decide_unpack _); vm_compute; exact I)). }
  split; [done|]. split; [exact Hw|]. split; [apply listing_read; [done|exact Hw]|reflexivity].
Defined.

Definition app : WorktreeKey := {| wk_repository := lit "/src/app"; wk_root := lit "/src/app" |}.
Definition linked : WorktreeKey := {| wk_repository := lit "/src/app"; wk_root := lit "/wt/login" |}.
Definition relisted : list RegistryCall := [Rg_IdFor app; Rg_IdFor linked; Rg_Forget 2].

Lemma handles_never_reused_witness :
  let r' := (id_for linked (registry_run relisted)).1 in
  id_for linked (registry_run relisted) = (r', Ok 3%N) ∧ registry_id linked r' = Some 3%N ∧ registry_key 2 r' = None.
Proof.
  split; [reflexivity|].
  destruct (handles_never_reused relisted linked (id_for linked (registry_run relisted)).1 (Ok 3%N) eq_refl) as (_ & Hi & _).
  split; [exact Hi|reflexivity].
Defined.
End Sample.
