(* ===== verification/Porcelain.v ===== *)
(** * The streaming parser of git status

    [src/repository_status/porcelain.rs]: [PorcelainParser] accepts the output of
    [git status --porcelain=v2 --branch -z] in chunks cut anywhere, counts the changes and
    keeps the first twenty paths. [display_text.rs] makes a path safe to show. *)
From S2P Require Import Prelude.
From S2P Require Import Text.
From S2P Require Import Facts.
From S2P Require Import Bytes.

(** ** Text that is safe to show *)

Definition is_bidirectional_format (c : char) : bool :=
  (c =? 1564)%N || (c =? 8206)%N || (c =? 8207)%N || in_range 8234 8238 c || in_range 8294 8297 c.
Definition is_unsafe_display_character (c : char) : bool :=
  is_control c || ((c =? 8232) || (c =? 8233))%N || is_bidirectional_format c.
Definition sanitize_display_text (value : ustring) : ustring :=
  map (λ c, if is_unsafe_display_character c then replacement else c) value.
Definition display_text (bytes : list N) : ustring := sanitize_display_text (from_utf8_lossy bytes).

(** ** The facts a stream gives ([mod.rs]) *)

Record StatusHeaders := {
  sh_oid : option ustring; sh_branch : option ustring; sh_upstream : option ustring; sh_divergence : option Divergence
}.
Definition headers_default : StatusHeaders := {| sh_oid := None; sh_branch := None; sh_upstream := None; sh_divergence := None |}.
Definition changes_default : ChangeSummary :=
  {| cs_total := Exact 0; cs_staged := 0; cs_modified := 0; cs_deleted := 0; cs_renamed := 0; cs_conflicted := 0;
     cs_untracked := 0; cs_entries := [] |}.
Record PorcelainSummary := { ps_headers : StatusHeaders; ps_changes : ChangeSummary }.

Definition MAXIMUM_CHANGE_ENTRIES : nat := 20.
Definition MAXIMUM_FIELD_BYTES : N := 65536.
Definition INITIAL_OID : list N := lit "(initial)".
Definition DETACHED_HEAD : list N := lit "(detached)".

(** ** One record's status *)

Record EntryStatus := {
  es_staged : bool; es_modified : bool; es_deleted : bool; es_renamed : bool; es_conflicted : bool; es_untracked : bool
}.
Definition UNTRACKED : EntryStatus := Build_EntryStatus false false false false false true.
Definition CONFLICTED : EntryStatus := Build_EntryStatus false false false false true false.

(** [EntryStatus::tracked]; the codes are [.], [M], [T] and [D] among others. *)
Definition tracked (index worktree : N) (renamed : bool) : EntryStatus :=
  Build_EntryStatus (negb (index =? 46)%N) ((worktree =? 77)%N || (worktree =? 84)%N)
    ((index =? 68)%N || (worktree =? 68)%N) renamed false false.

(** [EntryStatus::kind]. *)
Definition status_kind (s : EntryStatus) : ChangeKind :=
  if es_conflicted s then Conflicted
  else if es_renamed s then Renamed
  else if es_staged s then Staged
  else if es_deleted s then Deleted
  else if es_untracked s then Untracked
  else Modified.

(** ** The parser *)

Record PendingRecord := { pd_status : EntryStatus; pd_path : option ustring }.

Record PorcelainParser := {
  pp_summary : PorcelainSummary; pp_field : list N; pp_pending_rename : option PendingRecord; pp_records : N;
  pp_saw_oid : bool; pp_saw_head : bool; pp_failed : bool
}.

Definition porcelain_new : PorcelainParser :=
  {| pp_summary := {| ps_headers := headers_default; ps_changes := changes_default |}; pp_field := [];
     pp_pending_rename := None; pp_records := 0; pp_saw_oid := false; pp_saw_head := false; pp_failed := false |}.

Definition set_pp_field (field : list N) (p : PorcelainParser) : PorcelainParser :=
  Build_PorcelainParser (pp_summary p) field (pp_pending_rename p) (pp_records p) (pp_saw_oid p) (pp_saw_head p) (pp_failed p).
Definition set_pp_pending (pending : option PendingRecord) (p : PorcelainParser) : PorcelainParser :=
  Build_PorcelainParser (pp_summary p) (pp_field p) pending (pp_records p) (pp_saw_oid p) (pp_saw_head p) (pp_failed p).
Definition set_pp_headers (headers : StatusHeaders) (oid head : bool) (p : PorcelainParser) : PorcelainParser :=
  Build_PorcelainParser (Build_PorcelainSummary headers (ps_changes (pp_summary p))) (pp_field p) (pp_pending_rename p)
    (pp_records p) oid head (pp_failed p).
Definition set_pp_changes (changes : ChangeSummary) (records : N) (p : PorcelainParser) : PorcelainParser :=
  Build_PorcelainParser (Build_PorcelainSummary (ps_headers (pp_summary p)) changes) (pp_field p) (pp_pending_rename p)
    records (pp_saw_oid p) (pp_saw_head p) (pp_failed p).
Definition set_pp_failed (p : PorcelainParser) : PorcelainParser :=
  Build_PorcelainParser (pp_summary p) (pp_field p) (pp_pending_rename p) (pp_records p) (pp_saw_oid p) (pp_saw_head p) true.

(** [entry_path]: a path is decoded only while the retained list has room. *)
Definition entry_path (path : list N) (p : PorcelainParser) : option ustring :=
  if length (cs_entries (ps_changes (pp_summary p))) <? MAXIMUM_CHANGE_ENTRIES then Some (display_text path) else None.

(** [if counted { *counter = counter.saturating_add(1); }]. *)
Definition count_if (counted : bool) (counter : N) : N := if counted then u32_saturating_add counter 1 else counter.

(** [PorcelainParser::count]. *)
Definition count_record (status : EntryStatus) (path : option ustring) (p : PorcelainParser) : PorcelainParser :=
  let changes := ps_changes (pp_summary p) in
  let entries :=
    match path with
    | Some path =>
        if length (cs_entries changes) <? MAXIMUM_CHANGE_ENTRIES
        then cs_entries changes ++ [{| ce_kind := status_kind status; ce_path := path |}]
        else cs_entries changes
    | None => cs_entries changes
    end in
  set_pp_changes
    {| cs_total := cs_total changes;
       cs_staged := count_if (es_staged status) (cs_staged changes);
       cs_modified := count_if (es_modified status) (cs_modified changes);
       cs_deleted := count_if (es_deleted status) (cs_deleted changes);
       cs_renamed := count_if (es_renamed status) (cs_renamed changes);
       cs_conflicted := count_if (es_conflicted status) (cs_conflicted changes);
       cs_untracked := count_if (es_untracked status) (cs_untracked changes);
       cs_entries := entries |}
    (u32_saturating_add (pp_records p) 1) p.

(** ** Fields of a record *)

(** [for _ in 2..N - 1]: each of these fields is there and not empty. *)
Fixpoint skip_metadata (n : nat) (parts : list (list N)) : option (list (list N)) :=
  match n, parts with
  | 0, _ => Some parts
  | S n, metadata :: parts => if is_empty metadata then None else skip_metadata n parts
  | S _, [] => None
  end.

(** [entry_fields::<N>]: the status and the path; the marker has one byte. *)
Definition entry_fields (n : nat) (field : list N) : result (list N * list N) RepositoryReadError :=
  match splitn n 32 field with
  | marker :: status :: parts =>
      if negb (length marker =? 1) then Err Read_InvalidResponse
      else match skip_metadata (n - 3) parts with
           | Some (path :: _) => if is_empty path then Err Read_InvalidResponse else Ok (status, path)
           | _ => Err Read_InvalidResponse
           end
  | _ => Err Read_InvalidResponse
  end.

Definition single_path (field : list N) : result (list N) RepositoryReadError :=
  match field with
  | _ :: space :: path => if negb (space =? 32)%N || is_empty path then Err Read_InvalidResponse else Ok path
  | _ => Err Read_InvalidResponse
  end.

Definition CODES : list N := lit ".MTADRCU".
Definition xy (status : list N) : result (N * N) RepositoryReadError :=
  match status with
  | [index; worktree] => if has_char index CODES && has_char worktree CODES then Ok (index, worktree) else Err Read_InvalidResponse
  | _ => Err Read_InvalidResponse
  end.

Definition tracked_status (status : list N) (renamed : bool) : result EntryStatus RepositoryReadError :=
  let? (index, worktree) := xy status in Ok (tracked index worktree renamed).

Definition object_id (value : list N) : result ustring RepositoryReadError :=
  if ((length value =? 40) || (length value =? 64)) && vall is_ascii_hexdigit value then Ok (from_utf8_lossy value)
  else Err Read_InvalidResponse.

Definition required_text (value : list N) : result ustring RepositoryReadError :=
  if is_empty value then Err Read_InvalidResponse else Ok (from_utf8_lossy value).

(** [count] of decimal digits. *)
Definition count_digits (digits : list N) : option N :=
  if is_empty digits || negb (vall is_ascii_digit digits) then None else parse_u32 digits.

Definition divergence (value : list N) : result Divergence RepositoryReadError :=
  match split_on 32 value with
  | [ahead; behind] =>
      match strip_prefix (lit "+") ahead ≫= count_digits, strip_prefix (lit "-") behind ≫= count_digits with
      | Some ahead, Some behind => Ok {| dv_ahead := ahead; dv_behind := behind |}
      | _, _ => Err Read_InvalidResponse
      end
  | _ => Err Read_InvalidResponse
  end.

(** ** Records *)

(** [PorcelainParser::header]; a refused header changes nothing. *)
Definition header (field : list N) (p : PorcelainParser) : result PorcelainParser RepositoryReadError :=
  let '{| sh_oid := oid; sh_branch := branch; sh_upstream := up; sh_divergence := div |} := ps_headers (pp_summary p) in
  let? line := ok_or (strip_prefix (lit "# ") field) Read_InvalidResponse in
  let '(name, value) := match find_char 32 line with Some parts => parts | None => (line, []) end in
  if bool_decide (name = lit "branch.oid") then
    let? oid := if bool_decide (value = INITIAL_OID) then Ok None else let? id := object_id value in Ok (Some id) in
    Ok (set_pp_headers (Build_StatusHeaders oid branch up div) true (pp_saw_head p) p)
  else if bool_decide (name = lit "branch.head") then
    let? branch := if bool_decide (value = DETACHED_HEAD) then Ok None else let? text := required_text value in Ok (Some text) in
    Ok (set_pp_headers (Build_StatusHeaders oid branch up div) (pp_saw_oid p) true p)
  else if bool_decide (name = lit "branch.upstream") then
    let? text := required_text value in
    Ok (set_pp_headers (Build_StatusHeaders oid branch (Some text) div) (pp_saw_oid p) (pp_saw_head p) p)
  else if bool_decide (name = lit "branch.ab") then
    let? d := divergence value in
    Ok (set_pp_headers (Build_StatusHeaders oid branch up (Some d)) (pp_saw_oid p) (pp_saw_head p) p)
  else Ok p.

(** [PorcelainParser::record]. The markers are [#], [1], [2], [u], [?] and [!]. *)
Definition porcelain_record (field : list N) (p : PorcelainParser) : PorcelainParser * result unit RepositoryReadError :=
  match pp_pending_rename p with
  | Some pending =>
      let p := set_pp_pending None p in
      if is_empty field then (p, Err Read_InvalidResponse)
      else (count_record (pd_status pending) (pd_path pending) p, Ok tt)
  | None =>
      match field with
      | [] => (p, Err Read_InvalidResponse)
      | marker :: _ =>
          let r :=
            if (marker =? 35)%N then header field p
            else if (marker =? 49)%N then
              let? (status, path) := entry_fields 9 field in
              let? status := tracked_status status false in
              Ok (count_record status (entry_path path p) p)
            else if (marker =? 50)%N then
              let? (status, path) := entry_fields 10 field in
              let? status := tracked_status status true in
              Ok (set_pp_pending (Some {| pd_status := status; pd_path := entry_path path p |}) p)
            else if (marker =? 117)%N then
              let? (status, path) := entry_fields 11 field in
              let? _ := xy status in
              Ok (count_record CONFLICTED (entry_path path p) p)
            else if (marker =? 63)%N then
              let? path := single_path field in
              Ok (count_record UNTRACKED (entry_path path p) p)
            else if (marker =? 33)%N then let? _ := single_path field in Ok p
            else Err Read_InvalidResponse
          in match r with Ok p => (p, Ok tt) | Err e => (p, Err e) end
      end
  end.

(** [PorcelainParser::complete]. *)
Definition complete (field : list N) (p : PorcelainParser) : PorcelainParser :=
  let '(p, r) := porcelain_record field p in if is_ok r then p else set_pp_failed p.

(** [PorcelainParser::buffer]. *)
Definition buffer (bytes : list N) (p : PorcelainParser) : PorcelainParser :=
  if (MAXIMUM_FIELD_BYTES <? N.of_nat (length (pp_field p) + length bytes))%N then set_pp_failed p
  else set_pp_field (pp_field p ++ bytes) p.

(** [PorcelainParser::push]. Each round consumes a NUL of the chunk, whose length is fuel
    enough. *)
Fixpoint push_loop (fuel : nat) (chunk : list N) (p : PorcelainParser) : PorcelainParser :=
  match fuel with
  | 0 => p
  | S fuel =>
      if pp_failed p || is_empty chunk then p
      else match find_char 0 chunk with
           | None => buffer chunk p
           | Some (head, rest) =>
               push_loop fuel rest
                 (if is_empty (pp_field p) then complete head p
                  else let p := buffer head p in
                       let field := pp_field p in
                       let p := set_pp_field [] p in
                       let p := if pp_failed p then p else complete field p in
                       set_pp_field [] p)
           end
  end.
Definition porcelain_push (chunk : list N) (p : PorcelainParser) : PorcelainParser := push_loop (length chunk) chunk p.

(** [PorcelainParser::into_summary]. *)
Definition into_summary (total : ChangeTotal) (p : PorcelainParser) : result PorcelainSummary RepositoryReadError :=
  if pp_failed p || negb (pp_saw_oid p) || negb (pp_saw_head p) then Err Read_InvalidResponse
  else
    let c := ps_changes (pp_summary p) in
    Ok {| ps_headers := ps_headers (pp_summary p);
          ps_changes := Build_ChangeSummary total (cs_staged c) (cs_modified c) (cs_deleted c) (cs_renamed c)
                          (cs_conflicted c) (cs_untracked c) (cs_entries c) |}.

(** [PorcelainParser::finish]. *)
Definition porcelain_finish (p : PorcelainParser) : result PorcelainSummary RepositoryReadError :=
  if negb (is_empty (pp_field p)) || bool_decide (is_Some (pp_pending_rename p)) then Err Read_InvalidResponse
  else into_summary (Exact (pp_records p)) p.
