(* ===== verification/PorcelainTheorems.v ===== *)
(** * The status parser reads what Git prints, however it arrives

    The chunks of a stream do not matter, only its bytes; what Git prints for a status is
    counted exactly; and whatever arrives, what the parser keeps is bounded. *)
From Stdlib Require Import Lia.
From S2P Require Import Prelude.
From S2P Require Import Text.
From S2P Require Import Facts.
From S2P Require Import Bytes.
From S2P Require Import Porcelain.

(** ** One byte at a time *)

Definition byte_step (p : PorcelainParser) (b : N) : PorcelainParser :=
  if pp_failed p then p
  else if (b =? 0)%N then complete (pp_field p) (set_pp_field [] p)
  else buffer [b] p.
Definition by_bytes : PorcelainParser → list N → PorcelainParser := foldl byte_step.

(** Two parsers answer alike: both failed, or they are the same. *)
Definition alike (p q : PorcelainParser) : Prop := pp_failed p = true ∧ pp_failed q = true ∨ p = q.
#[export] Instance alike_equivalence : Equivalence alike.
Proof.
  split; [by right|intros p q [[? ?]| ->]; [by left|by right]|].
  intros p q r [[? ?]| ->] [[? ?]| <-]; by [left|right].
Qed.

#[export] Instance finish_alike : Proper (alike ==> eq) porcelain_finish.
Proof.
  intros p q [[Hp Hq]| ->]; [|done]. unfold porcelain_finish, into_summary. rw Hp Hq. by repeat case_match.
Qed.

Lemma failed_bytes bytes p : pp_failed p = true → by_bytes p bytes = p.
Proof.
  intros Hp. induction bytes as [|b bytes IH]; [done|]. simpl. assert (byte_step p b = p) as ->; [|done].
  unfold byte_step. by rw Hp.
Qed.

Lemma failed_push fuel chunk p : pp_failed p = true → push_loop fuel chunk p = p.
Proof. intros Hp. destruct fuel; simpl; [done|]. by rw Hp. Qed.

#[export] Instance bytes_alike : Proper (alike ==> eq ==> alike) by_bytes.
Proof. intros p q [[Hp Hq]| ->] ? bytes ->; [left; by rw !failed_bytes|by right]. Qed.
#[export] Instance push_alike : Proper (eq ==> alike ==> alike) porcelain_push.
Proof. intros ? chunk -> p q [[Hp Hq]| ->]; [left; unfold porcelain_push; by rw !failed_push|by right]. Qed.

(** What a record answers keeps the buffered field. *)
Definition keeps_field (p : PorcelainParser) (r : result PorcelainParser RepositoryReadError) : Prop :=
  ∀ p', r = Ok p' → pp_field p' = pp_field p.

Lemma keeps_bind {A} p (r : result A RepositoryReadError) k :
  (∀ a, keeps_field p (k a)) → keeps_field p (let? a := r in k a).
Proof. intros Hk p'. destruct r as [a|e]; [apply Hk|done]. Qed.

Lemma header_keeps field p : keeps_field p (header field p).
Proof.
  unfold header. destruct (ps_headers (pp_summary p)). apply keeps_bind. intros line. destruct (match find_char _ _ with Some _ => _ | None => _ end).
  do 4 (destruct (bool_decide _); [apply keeps_bind; by intros ? ? [= <-]|]). by intros ? [= <-].
Qed.

Lemma record_keeps field p : pp_field (porcelain_record field p).1 = pp_field p.
Proof.
  unfold porcelain_record. destruct (pp_pending_rename p) as [pending|]; [by destruct (is_empty field)|].
  destruct field as [|marker field]; [done|].
  match goal with |- context [match ?r with Ok _ => _ | Err _ => _ end] => assert (keeps_field p r) as Hr end.
  { destruct (marker =? 35)%N; [apply header_keeps|].
    do 3 (destruct (_ =? _)%N; [apply keeps_bind; intros [status path]; apply keeps_bind; by intros ? ? [= <-]|]).
    do 2 (destruct (_ =? _)%N; [apply keeps_bind; by intros ? ? [= <-]|]). done. }
  match goal with |- context [match ?r with Ok _ => _ | Err _ => _ end] => destruct r as [p'|e] end; [by apply Hr|done].
Qed.

Lemma complete_keeps field p : pp_field (complete field p) = pp_field p.
Proof.
  unfold complete. pose proof (record_keeps field p) as Hk. destruct (porcelain_record field p) as [p' r]. simpl in *.
  by destruct (is_ok r).
Qed.

(** Buffering bytes is buffering each of them. *)
Lemma buffer_bytes bytes : ∀ p,
  pp_failed p = false → (N.of_nat (length (pp_field p)) <= MAXIMUM_FIELD_BYTES)%N → 0%N ∉ bytes →
  alike (buffer bytes p) (by_bytes p bytes).
Proof.
  induction bytes as [|b bytes IH]; intros p Hp Hf Hz.
  { unfold buffer. simpl. destruct (N.ltb_spec MAXIMUM_FIELD_BYTES (N.of_nat (length (pp_field p) + 0))); [lia|].
    rw app_nil_r. right. by destruct p. }
  apply not_elem_of_cons in Hz as [Hb Hz]. cbn [by_bytes foldl]. fold (by_bytes (byte_step p b) bytes).
  unfold byte_step. rw Hp. destruct (N.eqb_spec b 0); [by subst|]. unfold buffer at 2. cbn [length].
  destruct (N.ltb_spec MAXIMUM_FIELD_BYTES (N.of_nat (length (pp_field p) + 1))) as [Hl|Hl].
  - left. unfold buffer. simpl. destruct (N.ltb_spec MAXIMUM_FIELD_BYTES (N.of_nat (length (pp_field p) + S (length bytes)))); [|lia].
    split; [done|]. by rw failed_bytes.
  - rw -IH //; [simpl; rw length_app /=; lia|]. unfold buffer. simpl. rw length_app /=.
    replace (length (pp_field p) + 1 + length bytes) with (length (pp_field p) + S (length bytes)) by lia.
    destruct (N.ltb_spec MAXIMUM_FIELD_BYTES (N.of_nat (length (pp_field p) + S (length bytes)))); [by left|].
    right. by rw -app_assoc.
Qed.

Lemma buffer_short bytes p : (N.of_nat (length (pp_field (buffer bytes p))) <= MAXIMUM_FIELD_BYTES)%N ∨ buffer bytes p = set_pp_failed p.
Proof.
  unfold buffer. destruct (N.ltb_spec MAXIMUM_FIELD_BYTES (N.of_nat (length (pp_field p) + length bytes))); [by right|left].
  simpl. rw length_app. lia.
Qed.

Lemma complete_failed_field field p : pp_field (complete field (set_pp_field [] p)) = [].
Proof. by rw complete_keeps. Qed.

(** A round of the loop up to a NUL is its bytes. *)
Lemma round_bytes head p :
  pp_failed p = false → (N.of_nat (length (pp_field p)) <= MAXIMUM_FIELD_BYTES)%N →
  (N.of_nat (length head) <= MAXIMUM_FIELD_BYTES)%N → 0%N ∉ head →
  alike
    (if is_empty (pp_field p) then complete head p
     else let p := buffer head p in
          let field := pp_field p in
          let p := set_pp_field [] p in
          let p := if pp_failed p then p else complete field p in
          set_pp_field [] p)
    (byte_step (by_bytes p head) 0).
Proof.
  intros Hp Hf Hh Hz. assert (alike (byte_step (buffer head p) 0) (byte_step (by_bytes p head) 0)) as <-.
  { change (alike (by_bytes (buffer head p) [0%N]) (by_bytes (by_bytes p head) [0%N])). by apply bytes_alike; [apply buffer_bytes|]. }
  unfold byte_step. cbn [N.eqb]. destruct (is_empty (pp_field p)) eqn:Ee.
  - destruct (pp_field p) as [|] eqn:Ef; [|done]. unfold buffer. rw Ef. cbn [length plus app].
    destruct (N.ltb_spec MAXIMUM_FIELD_BYTES (N.of_nat (length head))); [lia|]. cbn [pp_failed set_pp_field pp_field]. rw Hp.
    right. f_equal. destruct p; simpl in *; by subst.
  - cbn zeta. cbn [pp_failed set_pp_field]. destruct (pp_failed (buffer head p)) eqn:Eb; [by left|]. right.
    pose proof (complete_failed_field (pp_field (buffer head p)) (buffer head p)) as Hk.
    destruct (complete _ _) in Hk |- *. simpl in Hk. by subst.
Qed.

Lemma push_bytes fuel : ∀ chunk p,
  length chunk ≤ fuel → (N.of_nat (length chunk) <= MAXIMUM_FIELD_BYTES)%N →
  (N.of_nat (length (pp_field p)) <= MAXIMUM_FIELD_BYTES)%N →
  alike (push_loop fuel chunk p) (by_bytes p chunk).
Proof.
  induction fuel as [|fuel IH]; intros chunk p Hl Hc Hf; [destruct chunk; [by right|simpl in Hl; lia]|].
  cbn [push_loop]. destruct (pp_failed p) eqn:Hp; [rw failed_bytes //; by right|]. cbn [orb].
  destruct chunk as [|b chunk]; [by right|]. cbn [is_empty].
  destruct (find_char 0 (b :: chunk)) as [[head rest]|] eqn:Ef.
  - pose proof (find_char_Some _ _ _ _ Ef) as E. rw E in Hl Hc |- *. rw length_app /= in Hl Hc.
    assert (0%N ∉ head) as Hz by by eapply find_char_before.
    unfold by_bytes. rw foldl_app. cbn [foldl]. fold (by_bytes p head). fold (by_bytes (byte_step (by_bytes p head) 0) rest).
    rw -(round_bytes head p) //; [lia|]. apply IH; [lia|lia|]. destruct (is_empty (pp_field p)) eqn:Ee.
    + rw complete_keeps. lia.
    + simpl. lia.
  - apply find_char_None in Ef. by apply buffer_bytes.
Qed.

Definition field_bounded (p : PorcelainParser) : Prop := (N.of_nat (length (pp_field p)) <= MAXIMUM_FIELD_BYTES)%N.

Lemma buffer_bounded bytes p : field_bounded p → field_bounded (buffer bytes p).
Proof. intros Hp. destruct (buffer_short bytes p) as [?|E]; [done|]. by rw E. Qed.

(** The state a round leaves, for any predicate on parsers that it keeps. *)
Lemma push_keeps (P : PorcelainParser → Prop) :
  (∀ field p, P p → P (complete field p)) → (∀ bytes p, P p → P (buffer bytes p)) →
  (∀ p, P p → P (set_pp_field [] p)) →
  ∀ fuel chunk p, P p → P (push_loop fuel chunk p).
Proof.
  intros Hc Hb Hs fuel. induction fuel as [|fuel IH]; intros chunk p Hp; [done|]. cbn [push_loop].
  destruct (_ || _); [done|]. destruct (find_char 0 chunk) as [[head rest]|]; [|by apply Hb]. apply IH.
  destruct (is_empty _); [by apply Hc|]. cbn zeta. apply Hs. destruct (pp_failed _); [by apply Hs, Hb|by apply Hc, Hs, Hb].
Qed.

Lemma push_bounded chunk p : field_bounded p → field_bounded (porcelain_push chunk p).
Proof.
  apply (push_keeps field_bounded); unfold field_bounded.
  - intros field q Hq. by rw complete_keeps.
  - intros bytes q. by apply buffer_bounded.
  - intros q _. simpl. lia.
Qed.

Definition pushes (chunks : list (list N)) : PorcelainParser := foldl (λ p chunk, porcelain_push chunk p) porcelain_new chunks.

(** A chunk as the process reader hands it over: at most 64 KiB. *)
Definition read_chunk (chunk : list N) : Prop := (N.of_nat (length chunk) <= MAXIMUM_FIELD_BYTES)%N.

Lemma pushes_bytes chunks : Forall read_chunk chunks → alike (pushes chunks) (by_bytes porcelain_new (concat chunks)).
Proof.
  unfold pushes. intros Hc. assert (field_bounded porcelain_new) as Hp by done. revert Hp. generalize porcelain_new.
  induction Hc as [|chunk chunks Hc _ IH]; intros p Hp; [done|]. cbn [foldl concat]. unfold by_bytes. rw foldl_app.
  fold (by_bytes p chunk). fold (by_bytes (by_bytes p chunk) (concat chunks)). rw -(push_bytes (length chunk) chunk p) //.
  apply IH. by apply push_bounded.
Qed.

(** Only the bytes of a stream matter: however git's output is cut into reads of at most
    64 KiB, in the middle of a path or between the two fields of a rename, the parser gives
    the same summary, or refuses it, as for any other cut of the same bytes. *)
Theorem cuts_irrelevant chunks chunks' :
  Forall read_chunk chunks → Forall read_chunk chunks' → concat chunks = concat chunks' →
  porcelain_finish (pushes chunks) = porcelain_finish (pushes chunks').
Proof. intros Hc Hc' E. rw (pushes_bytes _ Hc) (pushes_bytes _ Hc') E. done. Qed.

(** ** What Git prints for a status *)

(** One entry of a status: a change with its codes, the fields in between and the path; a
    rename has the original path too. *)
Inductive GitEntry :=
  | Ge_Changed (index worktree : N) (metadata : list (list N)) (path : list N)
  | Ge_Renamed (index worktree : N) (metadata : list (list N)) (path original : list N)
  | Ge_Unmerged (ours theirs : N) (metadata : list (list N)) (path : list N)
  | Ge_Untracked (path : list N)
  | Ge_Ignored (path : list N).

(** The headers: [None] is an unborn branch, a detached head, no upstream, and an upstream
    that is gone. Divergence is given by its digits. *)
Record GitStatus := {
  gs_oid : option (list N); gs_head : option (list N); gs_upstream : option (list N);
  gs_divergence : option (list N * list N); gs_more : list (list N); gs_entries : list GitEntry
}.

Definition space : N := 32.
Definition entry_text (marker : N) (x y : N) (metadata : list (list N)) (path : list N) : list N :=
  terminated space ([marker] :: [x; y] :: metadata) ++ path.

Definition entry_records (e : GitEntry) : list (list N) :=
  match e with
  | Ge_Changed x y metadata path => [entry_text 49 x y metadata path]
  | Ge_Renamed x y metadata path original => [entry_text 50 x y metadata path; original]
  | Ge_Unmerged x y metadata path => [entry_text 117 x y metadata path]
  | Ge_Untracked path => [63%N :: space :: path]
  | Ge_Ignored path => [33%N :: space :: path]
  end.

Definition header_text (name : list N) (value : list N) : list N := lit "# " ++ name ++ space :: value.

Definition header_records (s : GitStatus) : list (list N) :=
  [header_text (lit "branch.oid") (default INITIAL_OID (gs_oid s));
   header_text (lit "branch.head") (default DETACHED_HEAD (gs_head s))]
  ++ (match gs_upstream s with Some name => [header_text (lit "branch.upstream") name] | None => [] end)
  ++ (match gs_divergence s with
      | Some (ahead, behind) => [header_text (lit "branch.ab") ((43%N :: ahead) ++ space :: (45%N :: behind))]
      | None => [] end)
  ++ map (λ line, lit "# " ++ line) (gs_more s).

Definition status_records (s : GitStatus) : list (list N) := header_records s ++ flat_map entry_records (gs_entries s).
Definition print_status (s : GitStatus) : list N := terminated 0 (status_records s).

(** ** What the popover shows of it *)

(** The status and the path of an entry that is counted. *)
Definition entry_row (e : GitEntry) : option (EntryStatus * list N) :=
  match e with
  | Ge_Changed x y _ path => Some (tracked x y false, path)
  | Ge_Renamed x y _ path _ => Some (tracked x y true, path)
  | Ge_Unmerged _ _ _ path => Some (CONFLICTED, path)
  | Ge_Untracked path => Some (UNTRACKED, path)
  | Ge_Ignored _ => None
  end.
Definition rows (es : list GitEntry) : list (EntryStatus * list N) := omap entry_row es.

Definition how_many (counted : EntryStatus → bool) (rs : list (EntryStatus * list N)) : N :=
  N.min (N.of_nat (length (filter (λ r, counted r.1 = true) rs))) u32_max.

Definition shown_entry (r : EntryStatus * list N) : ChangeEntry :=
  {| ce_kind := status_kind r.1; ce_path := display_text r.2 |}.

Definition total_rows (rs : list (EntryStatus * list N)) : N := N.min (N.of_nat (length rs)) u32_max.

Definition changes_of (total : ChangeTotal) (rs : list (EntryStatus * list N)) : ChangeSummary :=
  {| cs_total := total; cs_staged := how_many es_staged rs; cs_modified := how_many es_modified rs;
     cs_deleted := how_many es_deleted rs; cs_renamed := how_many es_renamed rs;
     cs_conflicted := how_many es_conflicted rs; cs_untracked := how_many es_untracked rs;
     cs_entries := map shown_entry (take MAXIMUM_CHANGE_ENTRIES rs) |}.

Definition headers_of (s : GitStatus) : StatusHeaders :=
  {| sh_oid := from_utf8_lossy <$> gs_oid s; sh_branch := from_utf8_lossy <$> gs_head s;
     sh_upstream := from_utf8_lossy <$> gs_upstream s;
     sh_divergence := (λ d, {| dv_ahead := decimal d.1; dv_behind := decimal d.2 |}) <$> gs_divergence s |}.

Definition summary_of (s : GitStatus) : PorcelainSummary :=
  {| ps_headers := headers_of s; ps_changes := changes_of (Exact (total_rows (rows (gs_entries s)))) (rows (gs_entries s)) |}.

(** ** What Git promises of it *)

Definition metadata_ok (n : nat) (metadata : list (list N)) : Prop :=
  length metadata = n ∧ Forall (λ m, m ≠ [] ∧ space ∉ m) metadata.
Definition codes_ok (x y : N) : Prop := x ∈ CODES ∧ y ∈ CODES.

Definition entry_ok (e : GitEntry) : Prop :=
  match e with
  | Ge_Changed x y metadata path => codes_ok x y ∧ metadata_ok 6 metadata ∧ path ≠ []
  | Ge_Renamed x y metadata path original => codes_ok x y ∧ metadata_ok 7 metadata ∧ path ≠ [] ∧ original ≠ []
  | Ge_Unmerged x y metadata path => codes_ok x y ∧ metadata_ok 8 metadata ∧ path ≠ []
  | Ge_Untracked path | Ge_Ignored path => path ≠ []
  end.

Definition digits_ok (digits : list N) : Prop :=
  digits ≠ [] ∧ Forall (λ c, is_ascii_digit c = true) digits ∧ (decimal digits <= u32_max)%N.

(** The names of the headers that are read. *)
Definition branch_headers : list (list N) := map lit ["branch.oid"; "branch.head"; "branch.upstream"; "branch.ab"]%string.

Definition header_name (line : list N) : list N :=
  match find_char space line with Some parts => parts.1 | None => line end.

Record status_ok (s : GitStatus) : Prop := {
  so_records : Forall (λ f, f ≠ [] ∧ (0%N ∉ f) ∧ read_chunk f) (status_records s);
  so_oid : ∀ oid, gs_oid s = Some oid → (length oid = 40 ∨ length oid = 64) ∧ Forall (λ c, is_ascii_hexdigit c = true) oid;
  so_head : ∀ name, gs_head s = Some name → name ≠ [] ∧ name ≠ DETACHED_HEAD;
  so_upstream : ∀ name, gs_upstream s = Some name → name ≠ [];
  so_divergence : ∀ d, gs_divergence s = Some d → digits_ok d.1 ∧ digits_ok d.2;
  so_more : Forall (λ line, header_name line ∉ branch_headers) (gs_more s);
  so_entries : Forall entry_ok (gs_entries s)
}.

(** ** Fields are read as records *)

Definition step_record (p : PorcelainParser) (field : list N) : PorcelainParser :=
  if pp_failed p then p else complete field p.

Lemma bytes_records fields : ∀ p,
  pp_field p = [] → Forall (λ f, (0%N ∉ f) ∧ read_chunk f) fields →
  alike (by_bytes p (terminated 0 fields)) (foldl step_record p fields).
Proof.
  induction fields as [|f fields IH]; intros p Hf Hfs; [by right|]. apply Forall_cons in Hfs as [[Hz Hs] Hfs].
  unfold terminated. cbn [flat_map foldl]. fold (terminated 0 fields). unfold by_bytes. rw !foldl_app. cbn [foldl].
  fold (by_bytes p f). fold (by_bytes (byte_step (by_bytes p f) 0) (terminated 0 fields)).
  unfold step_record at 2. destruct (pp_failed p) eqn:Hp.
  { rw (failed_bytes f) // {1}/byte_step Hp failed_bytes //. rw -IH //. by rw failed_bytes. }
  rw -(round_bytes f p) //.
  - rw Hf. done.
  - rw Hf. cbn [is_empty]. apply IH; [by rw complete_keeps|done].
Qed.

Lemma splitn_pieces c pieces rest :
  Forall (λ f, c ∉ f) pieces → splitn (S (length pieces)) c (terminated c pieces ++ rest) = pieces ++ [rest].
Proof.
  unfold terminated. induction 1 as [|f pieces Hf _ IH]; [done|]. cbn [length flat_map]. rw -!app_assoc. cbn [app].
  change (splitn (S (S (length pieces))) c (f ++ c :: flat_map (λ f, f ++ [c]) pieces ++ rest)) with
    (match find_char c (f ++ c :: flat_map (λ f, f ++ [c]) pieces ++ rest) with
     | Some (before, after) => before :: splitn (S (length pieces)) c after
     | None => [f ++ c :: flat_map (λ f, f ++ [c]) pieces ++ rest] end).
  by rw find_char_split // IH.
Qed.

Lemma skip_metadata_all n metadata parts :
  metadata_ok n metadata → skip_metadata n (metadata ++ parts) = Some parts.
Proof.
  intros [<- Hm]. induction Hm as [|m metadata [Hne _] _ IH]; [by destruct parts|]. cbn [length app skip_metadata].
  by destruct m.
Qed.

Lemma codes_no_space x : x ∈ CODES → x ≠ space.
Proof. intros Hx ->. revert Hx. by apply (bool_decide_unpack (space ∉ CODES)). Qed.

Lemma entry_fields_read n marker x y metadata path :
  marker ≠ space → codes_ok x y → metadata_ok n metadata → path ≠ [] →
  entry_fields (S (S (S n))) (entry_text marker x y metadata path) = Ok ([x; y], path).
Proof.
  intros Hk [Hx Hy] Hm Hp. unfold entry_fields, entry_text.
  replace (S (S (S n))) with (S (length ([marker] :: [x; y] :: metadata))) at 1 by (cbn [length]; by rw (proj1 Hm)).
  rw splitn_pieces.
  - repeat constructor; [by rw list_elem_of_singleton| |eapply Forall_impl; [apply Hm|]; by intros ? []].
    rw !elem_of_cons elem_of_nil. pose proof (codes_no_space _ Hx). pose proof (codes_no_space _ Hy). by intros [?|[?|?]].
  - cbn [app length]. change (S (S (S n)) - 3) with (n - 0). rw Nat.sub_0_r (skip_metadata_all _ _ _ Hm). by destruct path.
Qed.

Lemma xy_read x y : codes_ok x y → xy [x; y] = Ok (x, y).
Proof.
  intros [Hx Hy]. unfold xy, has_char. assert (∀ c, c ∈ CODES → vany (λ d, (d =? c)%N) CODES = true) as Hc.
  { intros c Hin. apply vany_true. exists c. split; [done|]. by apply N.eqb_refl. }
  by rw !Hc.
Qed.

(** ** Entries are counted *)

Definition at_rows (headers : StatusHeaders) (rs : list (EntryStatus * list N)) : PorcelainParser :=
  {| pp_summary := {| ps_headers := headers; ps_changes := changes_of (Exact 0) rs |}; pp_field := []; pp_pending_rename := None;
     pp_records := total_rows rs; pp_saw_oid := true; pp_saw_head := true; pp_failed := false |}.

Lemma how_many_snoc counted rs r : how_many counted (rs ++ [r]) = count_if (counted r.1) (how_many counted rs).
Proof.
  unfold how_many, count_if, u32_saturating_add. rw filter_app filter_cons filter_nil length_app.
  destruct (counted r.1); case_decide; simpl; lia || done.
Qed.

Lemma count_row headers rs status path :
  count_record status (entry_path path (at_rows headers rs)) (at_rows headers rs) = at_rows headers (rs ++ [(status, path)]).
Proof.
  unfold count_record, entry_path, at_rows, set_pp_changes, changes_of. cbn [pp_summary ps_changes ps_headers cs_entries cs_total
    cs_staged cs_modified cs_deleted cs_renamed cs_conflicted cs_untracked pp_field pp_pending_rename pp_records pp_saw_oid
    pp_saw_head pp_failed]. rw !how_many_snoc length_map length_take. unfold total_rows, u32_saturating_add. rw length_app.
  f_equal; [f_equal|simpl; lia]. f_equal. rw take_app map_app.
  destruct (Nat.ltb_spec (MAXIMUM_CHANGE_ENTRIES `min` length rs) MAXIMUM_CHANGE_ENTRIES) as [Hl|Hl].
  - rw (firstn_all2 [_]) //. simpl. lia.
  - replace (MAXIMUM_CHANGE_ENTRIES - length rs) with 0 by lia. by rw app_nil_r.
Qed.

(** A record that starts with its marker and is no second half of a rename. *)
Ltac read_record :=
  unfold step_record, complete, porcelain_record; cbn [at_rows pp_failed pp_pending_rename];
  unfold entry_text in *; cbn [terminated flat_map app N.eqb] in *.

Lemma entry_read headers rs e :
  entry_ok e → foldl step_record (at_rows headers rs) (entry_records e) = at_rows headers (rs ++ option_list (entry_row e)).
Proof.
  destruct e as [x y metadata path|x y metadata path original|x y metadata path|path|path]; cbn [entry_ok entry_records foldl entry_row].
  - intros (Hc & Hm & Hp). pose proof (entry_fields_read 6 49 x y metadata path ltac:(done) Hc Hm Hp) as He.
    read_record. rw He. cbn [result_bind]. unfold tracked_status. rw xy_read //. apply count_row.
  - intros (Hc & Hm & Hp & Ho). pose proof (entry_fields_read 7 50 x y metadata path ltac:(done) Hc Hm Hp) as He.
    assert (step_record (at_rows headers rs) (entry_text 50 x y metadata path) =
      set_pp_pending (Some {| pd_status := tracked x y true; pd_path := entry_path path (at_rows headers rs) |}) (at_rows headers rs)) as ->.
    { read_record. rw He. cbn [result_bind]. unfold tracked_status. by rw xy_read. }
    unfold step_record, complete, porcelain_record. cbn [set_pp_pending at_rows pp_failed pp_pending_rename pd_status pd_path].
    destruct original; [done|]. apply count_row.
  - intros (Hc & Hm & Hp). pose proof (entry_fields_read 8 117 x y metadata path ltac:(done) Hc Hm Hp) as He.
    read_record. rw He. cbn [result_bind]. rw xy_read //. apply count_row.
  - intros Hp. read_record. unfold single_path. destruct path; [done|]. apply count_row.
  - intros Hp. read_record. unfold single_path. destruct path; [done|]. simpl. by rw app_nil_r.
Qed.

Lemma entries_read headers es : ∀ rs,
  Forall entry_ok es → foldl step_record (at_rows headers rs) (flat_map entry_records es) = at_rows headers (rs ++ rows es).
Proof.
  unfold rows. induction es as [|e es IH]; intros rs He; [by rw app_nil_r|]. apply Forall_cons in He as [He Hes].
  cbn [flat_map]. rw foldl_app (entry_read _ _ _ He) (IH _ Hes). simpl. destruct (entry_row e); simpl; by rw -app_assoc.
Qed.

(** ** Headers are read *)

Lemma header_split name value p :
  space ∉ name →
  header (header_text name value) p =
  (let '{| sh_oid := oid; sh_branch := branch; sh_upstream := up; sh_divergence := div |} := ps_headers (pp_summary p) in
   if bool_decide (name = lit "branch.oid") then
     let? oid := if bool_decide (value = INITIAL_OID) then Ok None else let? id := object_id value in Ok (Some id) in
     Ok (set_pp_headers (Build_StatusHeaders oid branch up div) true (pp_saw_head p) p)
   else if bool_decide (name = lit "branch.head") then
     let? branch := if bool_decide (value = DETACHED_HEAD) then Ok None else let? text := required_text value in Ok (Some text) in
     Ok (set_pp_headers (Build_StatusHeaders oid branch up div) (pp_saw_oid p) true p)
   else if bool_decide (name = lit "branch.upstream") then
     let? text := required_text value in
     Ok (set_pp_headers (Build_StatusHeaders oid branch (Some text) div) (pp_saw_oid p) (pp_saw_head p) p)
   else if bool_decide (name = lit "branch.ab") then
     let? d := divergence value in
     Ok (set_pp_headers (Build_StatusHeaders oid branch up (Some d)) (pp_saw_oid p) (pp_saw_head p) p)
   else Ok p).
Proof. intros Hn. unfold header, header_text. rw strip_prefix_app. cbn [ok_or result_bind]. by rw find_char_split. Qed.

(** A header that is taken changes the parser as [header] says. *)
Lemma step_header field p p' :
  pp_failed p = false → pp_pending_rename p = None → head field = Some 35%N → header field p = Ok p' → step_record p field = p'.
Proof.
  intros Hf Hp Hh Hr. unfold step_record, complete, porcelain_record. rw Hf Hp. destruct field as [|c field]; [done|].
  simpl in Hh. injection Hh as ->. cbn [N.eqb Pos.eqb]. by rw Hr.
Qed.

Lemma more_read headers rs more :
  Forall (λ line, header_name line ∉ branch_headers) more →
  foldl step_record (at_rows headers rs) (map (λ line, lit "# " ++ line) more) = at_rows headers rs.
Proof.
  induction 1 as [|line more Hl _ IH]; [done|]. cbn [map foldl]. rw (step_header _ _ (at_rows headers rs)) //.
  unfold header. destruct headers. cbn [at_rows pp_summary ps_headers]. rw strip_prefix_app. cbn [ok_or result_bind].
  unfold header_name, space in Hl. destruct (find_char 32 line) as [[name value]|]; cbn [fst] in Hl;
    repeat (rw bool_decide_eq_false_2; [intros E; apply Hl; rw E; by apply (bool_decide_unpack _); vm_compute|]); done.
Qed.

Lemma vall_Forall (f : N → bool) l : Forall (λ c, f c = true) l → vall f l = true.
Proof. induction 1 as [|c l Hc _ IH]; [done|]. simpl. by rw Hc. Qed.

Lemma object_id_read oid :
  (length oid = 40 ∨ length oid = 64) → Forall (λ c, is_ascii_hexdigit c = true) oid → object_id oid = Ok (from_utf8_lossy oid).
Proof. intros [Hl|Hl] Hh; unfold object_id; rw Hl vall_Forall //. Qed.

Lemma required_text_read value : value ≠ [] → required_text value = Ok (from_utf8_lossy value).
Proof. by destruct value. Qed.

Lemma count_digits_read digits : digits_ok digits → count_digits digits = Some (decimal digits).
Proof.
  intros (Hne & Hd & Hm). unfold count_digits, parse_u32. rw vall_Forall //. apply N.leb_le in Hm as ->. by destruct digits.
Qed.

Lemma divergence_read ahead behind :
  digits_ok ahead → digits_ok behind →
  divergence ((43%N :: ahead) ++ space :: (45%N :: behind)) = Ok {| dv_ahead := decimal ahead; dv_behind := decimal behind |}.
Proof.
  intros Ha Hb. assert (∀ digits, digits_ok digits → space ∉ digits) as Hs.
  { intros digits (_ & Hd & _) Hin. rw Forall_forall in Hd. by specialize (Hd _ Hin). }
  unfold divergence. rw split_on_piece; [apply not_elem_of_cons; split; [done|by apply Hs]|].
  rw split_on_absent; [apply not_elem_of_cons; split; [done|by apply Hs]|]. simpl.
  by rw (count_digits_read _ Ha) (count_digits_read _ Hb).
Qed.

Lemma at_rows_set headers headers' rs :
  set_pp_headers headers' true true (at_rows headers rs) = at_rows headers' rs.
Proof. done. Qed.

Lemma headers_read s : status_ok s → foldl step_record porcelain_new (header_records s) = at_rows (headers_of s) [].
Proof.
  intros Hs. unfold header_records. rw !foldl_app. cbn [foldl].
  rw (step_header _ porcelain_new (set_pp_headers (Build_StatusHeaders (from_utf8_lossy <$> gs_oid s) None None None) true false porcelain_new)) //.
  { rw header_split; [by apply (bool_decide_unpack _)|]. cbn [porcelain_new pp_summary ps_headers headers_default].
    rw bool_decide_eq_true_2 //. destruct (gs_oid s) as [oid|] eqn:E; simpl; [|done].
    destruct (so_oid _ Hs _ E) as [Hl Hh]. rw object_id_read //.
    rw bool_decide_eq_false_2 //. intros ->. by destruct Hl. }
  rw (step_header _ _ (at_rows (Build_StatusHeaders (from_utf8_lossy <$> gs_oid s) (from_utf8_lossy <$> gs_head s) None None) [])) //.
  { rw header_split; [by apply (bool_decide_unpack _)|]. cbn [set_pp_headers porcelain_new pp_summary ps_headers headers_default].
    rw bool_decide_eq_false_2 // bool_decide_eq_true_2 //. destruct (gs_head s) as [name|] eqn:E; simpl; [|done].
    destruct (so_head _ Hs _ E). rw bool_decide_eq_false_2 // required_text_read //. }
  assert (foldl step_record (at_rows (Build_StatusHeaders (from_utf8_lossy <$> gs_oid s) (from_utf8_lossy <$> gs_head s) None None) [])
    (match gs_upstream s with Some name => [header_text (lit "branch.upstream") name] | None => [] end) =
    at_rows (Build_StatusHeaders (from_utf8_lossy <$> gs_oid s) (from_utf8_lossy <$> gs_head s) (from_utf8_lossy <$> gs_upstream s) None) []) as ->.
  { destruct (gs_upstream s) as [name|] eqn:E; [|done]. cbn [foldl]. apply step_header; [done..|].
    rw header_split; [by apply (bool_decide_unpack _)|]. cbn [at_rows pp_summary ps_headers].
    rw bool_decide_eq_false_2 // bool_decide_eq_false_2 // bool_decide_eq_true_2 // required_text_read //. by apply (so_upstream _ Hs). }
  assert (foldl step_record (at_rows (Build_StatusHeaders (from_utf8_lossy <$> gs_oid s) (from_utf8_lossy <$> gs_head s) (from_utf8_lossy <$> gs_upstream s) None) [])
    (match gs_divergence s with
      | Some (ahead, behind) => [header_text (lit "branch.ab") ((43%N :: ahead) ++ space :: (45%N :: behind))]
      | None => [] end) = at_rows (headers_of s) []) as ->.
  { unfold headers_of. destruct (gs_divergence s) as [[ahead behind]|] eqn:E; [|done]. cbn [foldl]. apply step_header; [done..|].
    rw header_split; [by apply (bool_decide_unpack _)|]. cbn [at_rows pp_summary ps_headers].
    destruct (so_divergence _ Hs _ E) as [Ha Hb]. simpl in Ha, Hb.
    rw bool_decide_eq_false_2 // bool_decide_eq_false_2 // bool_decide_eq_false_2 // bool_decide_eq_true_2 // divergence_read //. }
  apply more_read, Hs.
Qed.

Lemma status_parsed s chunks :
  status_ok s → Forall read_chunk chunks → concat chunks = print_status s →
  alike (pushes chunks) (at_rows (headers_of s) (rows (gs_entries s))).
Proof.
  intros Hs Hc E. rw (pushes_bytes _ Hc) E. unfold print_status. rw bytes_records //.
  { eapply Forall_impl; [apply Hs|]. by intros f [_ ?]. }
  unfold status_records. by rw foldl_app (headers_read _ Hs) (entries_read _ _ _ (so_entries _ Hs)).
Qed.

Lemma at_rows_finish headers rs :
  porcelain_finish (at_rows headers rs) = Ok {| ps_headers := headers; ps_changes := changes_of (Exact (total_rows rs)) rs |}.
Proof.
  unfold porcelain_finish, into_summary. cbn [at_rows pp_field is_empty negb pp_pending_rename orb pp_failed pp_saw_oid pp_saw_head].
  by rw bool_decide_eq_false_2.
Qed.


(** ** What is kept is bounded *)

Definition counters (c : ChangeSummary) : list N :=
  [cs_staged c; cs_modified c; cs_deleted c; cs_renamed c; cs_conflicted c; cs_untracked c].
Definition porcelain_bounds (p : PorcelainParser) : Prop :=
  field_bounded p ∧ length (cs_entries (ps_changes (pp_summary p))) ≤ MAXIMUM_CHANGE_ENTRIES ∧
  Forall (λ n, (n <= pp_records p)%N) (counters (ps_changes (pp_summary p))) ∧ (pp_records p <= u32_max)%N.

Lemma count_bounds status path p : porcelain_bounds p → porcelain_bounds (count_record status path p).
Proof.
  intros (Hf & He & Hc & Hr). unfold porcelain_bounds, count_record, set_pp_changes in *. simpl in *. split; [done|]. split.
  { destruct path; [|done]. destruct (Nat.ltb_spec (length (cs_entries (ps_changes (pp_summary p)))) MAXIMUM_CHANGE_ENTRIES); [|done].
    rw length_app /=. lia. }
  unfold counters in *. simpl. rw !Forall_cons in Hc. destruct Hc as (H1 & H2 & H3 & H4 & H5 & H6 & _).
  unfold count_if, u32_saturating_add. split; [|lia]. repeat constructor; destruct (_ status); lia.
Qed.

(** A bound survives every answer of a header or a record. *)
Definition keeps_bounds (r : result PorcelainParser RepositoryReadError) : Prop := ∀ p', r = Ok p' → porcelain_bounds p'.

Lemma bounds_bind {A} (r : result A RepositoryReadError) k : (∀ a, keeps_bounds (k a)) → keeps_bounds (let? a := r in k a).
Proof. intros Hk p'. destruct r as [a|e]; [apply Hk|done]. Qed.

Lemma header_bounds field p : porcelain_bounds p → keeps_bounds (header field p).
Proof.
  intros Hp. unfold header. destruct (ps_headers (pp_summary p)). apply bounds_bind. intros line.
  destruct (match find_char _ _ with Some _ => _ | None => _ end).
  do 4 (destruct (bool_decide _); [apply bounds_bind; by intros ? ? [= <-]|]). by intros ? [= <-].
Qed.

Lemma complete_bounds field p : porcelain_bounds p → porcelain_bounds (complete field p).
Proof.
  intros Hp. unfold complete, porcelain_record. destruct (pp_pending_rename p) as [pending|].
  { destruct (is_empty field); cbn [is_ok]; [done|by apply count_bounds]. }
  destruct field as [|marker field]; [done|].
  match goal with |- context [match ?r with Ok _ => _ | Err _ => _ end] => assert (keeps_bounds r) as Hr end.
  { destruct (marker =? 35)%N; [by apply header_bounds|].
    do 3 (destruct (_ =? _)%N; [apply bounds_bind; intros [status path]; apply bounds_bind; intros ? ? [= <-]; by try apply count_bounds|]).
    do 2 (destruct (_ =? _)%N; [apply bounds_bind; intros ? ? [= <-]; by try apply count_bounds|]). done. }
  match goal with |- context [match ?r with Ok _ => _ | Err _ => _ end] => destruct r as [p'|e] end; [by apply Hr|done].
Qed.

(** Whatever bytes arrive, and in whatever pieces, the parser keeps less than one field
    of 64 KiB and at most twenty paths, no counter exceeds the number of records, and none
    overflows; a stream whose last record is not ended by a NUL is refused. *)
Theorem status_bounded chunks :
  porcelain_bounds (pushes chunks) ∧
  (Forall read_chunk chunks → (∃ b, last (concat chunks) = Some b ∧ b ≠ 0%N) →
   porcelain_finish (pushes chunks) = Err Read_InvalidResponse).
Proof.
  split.
  - unfold pushes. assert (porcelain_bounds porcelain_new) as Hp by (by repeat constructor).
    revert Hp. generalize porcelain_new. induction chunks as [|chunk chunks IH]; intros p Hp; [done|]. apply IH.
    apply (push_keeps porcelain_bounds); [by intros; apply complete_bounds| |by intros q (_ & ?)|done].
    intros bytes q (Hf & Hq). split; [by apply buffer_bounded|]. unfold buffer. by destruct (_ <? _)%N.
  - intros Hc (b & Hl & Hb). rw (pushes_bytes _ Hc). apply last_Some in Hl as [l ->].
    unfold by_bytes. rw foldl_app. cbn [foldl]. set (q := foldl byte_step _ l). unfold byte_step.
    assert (∀ r, pp_failed r = true → porcelain_finish r = Err Read_InvalidResponse) as Hfail.
    { intros r Hr. unfold porcelain_finish, into_summary. rw Hr. by case_match. }
    destruct (pp_failed q) eqn:Hq; [by apply Hfail|]. destruct (N.eqb_spec b 0); [done|]. unfold buffer.
    destruct (_ <? _)%N; [by apply Hfail|]. unfold porcelain_finish. simpl. by destruct (pp_field q).
Qed.

(** ** A concrete status *)

Module Sample.
Definition commit : list N := Eval vm_compute in replicate 40 97%N.
Definition modes : list (list N) := map lit ["N..."; "100644"; "100644"; "100644"; "a1"; "b2"]%string.
Definition status : GitStatus :=
  {| gs_oid := Some commit; gs_head := Some (lit "feature/a b"); gs_upstream := Some (lit "origin/feature");
     gs_divergence := Some (lit "2", lit "15"); gs_more := [lit "stash 3"];
     gs_entries := [Ge_Changed 77 46 modes (lit "a b.rs"); Ge_Renamed 82 77 (modes ++ [lit "R100"]) (lit "new.rs") (lit "old.rs");
                    Ge_Untracked (lit "notes"); Ge_Ignored (lit "target")] |}.
(** The stream cut after its first byte and in the middle of a record. *)
Definition cut : list (list N) := [take 1 (print_status status); take 99 (drop 1 (print_status status)); drop 100 (print_status status)].

Lemma status_ok_sample : status_ok status.
Proof.
  split.
  - repeat constructor; try done; by apply (bool_decide_unpack _).
  - intros oid [= <-]. split; [by left|]. by repeat constructor.
  - intros name [= <-]. done.
  - intros name [= <-]. done.
  - intros d [= <-]. split; split; try done; (split; [by repeat constructor|done]).
  - repeat constructor. by apply (bool_decide_unpack _).
  - repeat constructor; try done; by apply (bool_decide_unpack _).
Qed.

Lemma cut_ok : Forall read_chunk cut ∧ concat cut = print_status status.
Proof. split; [repeat constructor; by apply (bool_decide_unpack _)|reflexivity]. Qed.


Lemma cuts_irrelevant_witness :
  concat cut = concat [print_status status] ∧
  porcelain_finish (pushes cut) = porcelain_finish (pushes [print_status status]).
Proof.
  destruct cut_ok as [Hc E]. assert (concat cut = concat [print_status status]) as E' by reflexivity. split; [exact E'|].
  apply cuts_irrelevant; [exact Hc|repeat constructor; by apply (bool_decide_unpack _)|exact E'].
Defined.

Lemma status_bounded_witness :
  porcelain_finish (pushes [lit "# branch"; lit ".oid"]) = Err Read_InvalidResponse.
Proof.
  apply (proj2 (status_bounded [lit "# branch"; lit ".oid"])).
  - repeat constructor; by apply (bool_decide_unpack _).
  - exists 100%N. split; [reflexivity|done].
Defined.
End Sample.
