(* ===== verification/RepositoryRead.v ===== *)
(** * What a repository probe reads

    [src/repository_status/discovery.rs] classifies [git rev-parse], reads [git config] in
    chunks and names what HEAD is; [operation.rs] reads the marker files of an unfinished
    operation; [tools.rs] reads Git's version. *)
From S2P Require Import Prelude.
From S2P Require Import Text.
From S2P Require Import Facts.
From S2P Require Import Bytes.
From S2P Require Import Porcelain.
From S2P Require Import WorktreeList.
From Stdlib Require Import Lia.
From S2P Require Import PorcelainTheorems.

(** ** Discovery *)

Record DiscoveredRepository := {
  dr_toplevel : ustring; dr_git_directory : ustring; dr_common_directory : ustring; dr_prefix : ustring
}.
Inductive Discovery := Discovery_NotRepository | Discovery_Hidden | Discovery_Repository (repository : DiscoveredRepository).

Definition boolean (line : option ustring) : result bool RepositoryReadError :=
  match line with
  | Some line =>
      if bool_decide (line = lit "true") then Ok true
      else if bool_decide (line = lit "false") then Ok false
      else Err Read_InvalidResponse
  | None => Err Read_InvalidResponse
  end.

(** [trim_end_matches('/')]. *)
Fixpoint drop_slashes (s : ustring) : ustring :=
  match s with c :: s' => if (c =? slash)%N then drop_slashes s' else s | [] => [] end.
Definition trim_trailing_slashes (path : ustring) : ustring := rev (drop_slashes (rev path)).

Definition is_hidden_home (toplevel prefix physical_home : ustring) : bool :=
  negb (is_empty prefix) && bool_decide (trim_trailing_slashes toplevel = trim_trailing_slashes physical_home).

Definition join_directory (directory path : ustring) : ustring :=
  if starts_with [slash] path then path else trim_trailing_slashes directory ++ slash :: path.

(** The closure [path]: the next line, which must not be empty. *)
Definition path_line (lines : list ustring) : result (ustring * list ustring) RepositoryReadError :=
  match lines with
  | line :: lines => if is_empty line then Err Read_InvalidResponse else Ok (line, lines)
  | [] => Err Read_InvalidResponse
  end.

(** The lines after the two booleans. *)
Definition discovered_paths (lines : list ustring) (directory physical_home : ustring)
    : result Discovery RepositoryReadError :=
  let? (git_directory, lines) := path_line lines in
  let? (common_directory, lines) := path_line lines in
  let? (toplevel, lines) := path_line lines in
  match lines with
  | [prefix; []] =>
      if is_hidden_home toplevel prefix physical_home then Ok Discovery_Hidden
      else Ok (Discovery_Repository {| dr_toplevel := toplevel; dr_git_directory := git_directory;
                                       dr_common_directory := join_directory directory common_directory; dr_prefix := prefix |})
  | _ => Err Read_InvalidResponse
  end.

(** [parse_discovery]. *)
Definition parse_discovery (output : list N) (directory physical_home : ustring) : result Discovery RepositoryReadError :=
  if is_empty output then Ok Discovery_NotRepository
  else
    let? output := ok_or (from_utf8 output) Read_InvalidResponse in
    let lines := split_on 10 output in
    let? inside := boolean (head lines) in
    if inside : bool then Ok Discovery_Hidden
    else
      let? bare := boolean (head (tail lines)) in
      if bare : bool then Ok Discovery_Hidden
      else discovered_paths (tail (tail lines)) directory physical_home.

(** ** Configuration *)

Inductive FsmonitorPolicy := Fsmonitor_Disabled | Fsmonitor_Builtin.

Record RepositoryConfig := {
  cf_fsmonitor : FsmonitorPolicy; cf_remotes : list (ustring * ustring); cf_push_default : option ustring;
  cf_push_to_upstream : bool; cf_branch_remote : option ustring; cf_branch_merge : option ustring;
  cf_branch_push_remote : option ustring
}.
Definition config_default : RepositoryConfig :=
  {| cf_fsmonitor := Fsmonitor_Disabled; cf_remotes := []; cf_push_default := None; cf_push_to_upstream := false;
     cf_branch_remote := None; cf_branch_merge := None; cf_branch_push_remote := None |}.

Definition MAXIMUM_REMOTES : nat := 32.
Definition MAXIMUM_CONFIG_RECORD_BYTES : N := 65536.

(** The derived order of [ToolVersion]. *)
Definition version_leb (a b : ToolVersion) : bool :=
  ((tv_major a <? tv_major b) || (tv_major a =? tv_major b) &&
   ((tv_minor a <? tv_minor b) || (tv_minor a =? tv_minor b) && (tv_patch a <=? tv_patch b)))%N.
Definition BUILTIN_FSMONITOR_GIT_VERSION : ToolVersion := {| tv_major := 2; tv_minor := 36; tv_patch := 0 |}.
Definition MINIMUM_GIT_VERSION : ToolVersion := {| tv_major := 2; tv_minor := 15; tv_patch := 0 |}.

(** [git_tool_status]. *)
Definition git_tool_status (version : ToolVersion) : GitToolStatus :=
  if version_leb MINIMUM_GIT_VERSION version then Git_Ready version else Git_TooOld version.

Record ConfigParser := {
  cp_branch_prefix : option (list N); cp_git_version : ToolVersion; cp_config : RepositoryConfig;
  cp_fsmonitor : bool; cp_field : list N; cp_skipping : bool; cp_failed : bool
}.

(** [ConfigParser::new]. *)
Definition config_new (branch : option ustring) (git_version : ToolVersion) : ConfigParser :=
  {| cp_branch_prefix := (λ branch, encode_utf8 (lit "branch." ++ branch ++ lit ".")) <$> branch;
     cp_git_version := git_version; cp_config := config_default; cp_fsmonitor := false; cp_field := [];
     cp_skipping := false; cp_failed := false |}.

Definition set_cp_field (field : list N) (skipping : bool) (p : ConfigParser) : ConfigParser :=
  Build_ConfigParser (cp_branch_prefix p) (cp_git_version p) (cp_config p) (cp_fsmonitor p) field skipping (cp_failed p).
Definition set_cp_config (config : RepositoryConfig) (fsmonitor : bool) (p : ConfigParser) : ConfigParser :=
  Build_ConfigParser (cp_branch_prefix p) (cp_git_version p) config fsmonitor (cp_field p) (cp_skipping p) (cp_failed p).
Definition set_cp_failed (p : ConfigParser) : ConfigParser :=
  Build_ConfigParser (cp_branch_prefix p) (cp_git_version p) (cp_config p) (cp_fsmonitor p) (cp_field p) (cp_skipping p) true.

(** Git's spellings of true. *)
Definition is_git_true (value : list N) : bool :=
  vany (λ truth, eq_ignore_ascii_case value truth) (map lit ["true"; "yes"; "on"; "1"]%string).

(** The name between [remote.] and [.url]. *)
Definition remote_name (key : list N) : option (list N) := strip_prefix (lit "remote.") key ≫= strip_suffix (lit ".url").

Definition push_remote (name url : ustring) (remotes : list (ustring * ustring)) : list (ustring * ustring) :=
  if negb (is_empty name) && (length remotes <? MAXIMUM_REMOTES) && negb (vany (λ r, bool_decide (r.1 = name)) remotes)
  then remotes ++ [(name, url)] else remotes.

(** [ConfigParser::record]. *)
Definition config_record (field : list N) (p : ConfigParser) : ConfigParser :=
  let '(key, value) := match find_char 10 field with Some (key, value) => (key, Some value) | None => (field, None) end in
  let '{| cf_fsmonitor := fsmonitor; cf_remotes := remotes; cf_push_default := push_default; cf_push_to_upstream := to_upstream;
          cf_branch_remote := remote; cf_branch_merge := merge; cf_branch_push_remote := push |} := cp_config p in
  let set config := set_cp_config config (cp_fsmonitor p) p in
  if is_empty key then set_cp_failed p
  else if bool_decide (key = lit "core.fsmonitor") then
    set_cp_config (cp_config p) (match value with Some value => is_git_true value | None => true end) p
  else if bool_decide (key = lit "push.default") then
    set (Build_RepositoryConfig fsmonitor remotes push_default
           match value with
           | Some value => eq_ignore_ascii_case value (lit "upstream") || eq_ignore_ascii_case value (lit "tracking")
           | None => false
           end remote merge push)
  else if bool_decide (key = lit "remote.pushdefault") then
    match value with
    | Some value => set (Build_RepositoryConfig fsmonitor remotes (Some (from_utf8_lossy value)) to_upstream remote merge push)
    | None => p
    end
  else match remote_name key with
  | Some name =>
      match value with
      | None => p
      | Some url =>
          set (Build_RepositoryConfig fsmonitor (push_remote (from_utf8_lossy name) (from_utf8_lossy url) remotes)
                 push_default to_upstream remote merge push)
      end
  | None =>
      match cp_branch_prefix p ≫= λ prefix, strip_prefix prefix key, value with
      | Some variable, Some value =>
          let text := Some (from_utf8_lossy value) in
          if bool_decide (variable = lit "remote") then
            set (Build_RepositoryConfig fsmonitor remotes push_default to_upstream text merge push)
          else if bool_decide (variable = lit "merge") then
            set (Build_RepositoryConfig fsmonitor remotes push_default to_upstream remote text push)
          else if bool_decide (variable = lit "pushremote") then
            set (Build_RepositoryConfig fsmonitor remotes push_default to_upstream remote merge text)
          else p
      | _, _ => p
      end
  end.

(** [ConfigParser::push]: each round consumes a NUL of the chunk, whose length is fuel
    enough. *)
Fixpoint config_push_loop (fuel : nat) (chunk : list N) (p : ConfigParser) : ConfigParser :=
  match fuel with
  | 0 => p
  | S fuel =>
      if cp_failed p || is_empty chunk then p
      else
        let '(part, rest) := match find_char 0 chunk with Some (part, rest) => (part, Some rest) | None => (chunk, None) end in
        let p :=
          if cp_skipping p then p
          else if (MAXIMUM_CONFIG_RECORD_BYTES <? N.of_nat (length (cp_field p) + length part))%N then set_cp_field [] true p
          else set_cp_field (cp_field p ++ part) (cp_skipping p) p in
        match rest with
        | None => p
        | Some rest =>
            config_push_loop fuel rest
              (if cp_skipping p then set_cp_field (cp_field p) false p
               else
                 let field := cp_field p in
                 let p := set_cp_field [] false p in
                 let p := config_record field p in
                 set_cp_field [] (cp_skipping p) p)
        end
  end.
Definition config_push (chunk : list N) (p : ConfigParser) : ConfigParser := config_push_loop (length chunk) chunk p.

(** [ConfigParser::finish]. *)
Definition config_finish (p : ConfigParser) : result RepositoryConfig RepositoryReadError :=
  if cp_failed p || negb (is_empty (cp_field p)) || cp_skipping p then Err Read_InvalidResponse
  else
    let c := cp_config p in
    Ok (if cp_fsmonitor p && version_leb BUILTIN_FSMONITOR_GIT_VERSION (cp_git_version p)
        then Build_RepositoryConfig Fsmonitor_Builtin (cf_remotes c) (cf_push_default c) (cf_push_to_upstream c)
               (cf_branch_remote c) (cf_branch_merge c) (cf_branch_push_remote c)
        else c).

(** ** HEAD *)

(** [str::get(..n)]: the prefix of [n] bytes, when a character ends there. *)
Fixpoint str_get_to (s : ustring) (n : nat) : option ustring :=
  match s with
  | [] => if n =? 0 then Some [] else None
  | c :: s =>
      if n =? 0 then Some []
      else if len_utf8 c <=? n then (c ::.) <$> str_get_to s (n - len_utf8 c) else None
  end.

(** [short_commit]. *)
Definition short_commit (headers : StatusHeaders) : option ustring :=
  (λ oid, default oid (str_get_to oid SHORT_COMMIT_LENGTH)) <$> sh_oid headers.

(** [repository_head]. *)
Definition repository_head (headers : StatusHeaders) : result RepositoryHead RepositoryReadError :=
  match sh_branch headers, short_commit headers with
  | Some branch, Some _ => Ok (Head_Branch branch)
  | Some branch, None => Ok (Head_Unborn branch)
  | None, Some commit => Ok (Head_Detached commit)
  | None, None => Err Read_InvalidResponse
  end.

(** [upstream]. *)
Definition upstream (headers : StatusHeaders) : option Upstream :=
  (λ name, {| up_name := name; up_divergence := sh_divergence headers |}) <$> sh_upstream headers.

(** ** Unfinished operations ([operation.rs]) *)

Record StepMarkers := { sm_current : option (list N); sm_total : option (list N) }.
Record ApplyMarkers := { ap_step : StepMarkers; ap_rebasing : bool; ap_applying : bool }.
Record OperationMarkers := {
  om_rebase_merge : option StepMarkers; om_rebase_apply : option ApplyMarkers; om_merge_head : bool;
  om_revert_head : bool; om_cherry_pick_head : bool; om_bisect_log : bool
}.

Definition MAXIMUM_MARKER_BYTES : nat := 32.

(** [<[u8]>::trim_ascii]. *)
Definition is_ascii_whitespace (c : N) : bool := ((c =? 32) || (c =? 9) || (c =? 10) || (c =? 12) || (c =? 13))%N.
Fixpoint trim_ascii_start (s : list N) : list N :=
  match s with c :: s' => if is_ascii_whitespace c then trim_ascii_start s' else s | [] => [] end.
Definition trim_ascii (s : list N) : list N := rev (trim_ascii_start (rev (trim_ascii_start s))).

(** [step_number]. *)
Definition step_number (contents : option (list N)) : option N :=
  match contents with
  | Some contents =>
      if length contents <=? MAXIMUM_MARKER_BYTES then
        let digits := trim_ascii contents in
        if is_empty digits || negb (vall is_ascii_digit digits) then None
        else match parse_u32 digits with Some number => if (0 <? number)%N then Some number else None | None => None end
      else None
  | None => None
  end.

(** [operation_step]. *)
Definition operation_step (markers : StepMarkers) : option OperationStep :=
  match step_number (sm_current markers), step_number (sm_total markers) with
  | Some current, Some total => if (current <=? total)%N then Some {| os_current := current; os_total := total |} else None
  | _, _ => None
  end.

(** [repository_operation]. *)
Definition repository_operation (markers : OperationMarkers) : option RepositoryOperation :=
  match om_rebase_merge markers, om_rebase_apply markers with
  | Some rebase, _ => Some (Rebasing (operation_step rebase))
  | None, Some apply =>
      let step := operation_step (ap_step apply) in
      Some (if ap_applying apply && negb (ap_rebasing apply) then Applying step else Rebasing step)
  | None, None =>
      vfind_map (λ marker : bool * RepositoryOperation, if marker.1 then Some marker.2 else None)
        [(om_merge_head markers, Merging); (om_revert_head markers, Reverting);
         (om_cherry_pick_head markers, CherryPicking); (om_bisect_log markers, Bisecting)]
  end.

(** ** Git's version ([tools.rs]) *)

Fixpoint leading_digits (s : ustring) : ustring :=
  match s with c :: s => if is_ascii_digit c then c :: leading_digits s else [] | [] => [] end.

(** [leading_number]: [parse::<u16>] of the leading digits. *)
Definition leading_number (component : ustring) : option N :=
  let digits := leading_digits component in
  if is_empty digits then None else if (decimal digits <=? 65535)%N then Some (decimal digits) else None.

(** [trim_end_matches('\r')]. *)
Fixpoint drop_returns (s : ustring) : ustring :=
  match s with c :: s' => if (c =? 13)%N then drop_returns s' else s | [] => [] end.

(** [parse_version]. *)
Definition parse_version (output : list N) (prefix : ustring) : option ToolVersion :=
  first_line ← head (split_on 10 output);
  text ← from_utf8 first_line;
  line ← strip_prefix prefix (rev (drop_returns (rev text)));
  token ← head (split_on 32 line);
  match split_on 46 token with
  | [] => None
  | major :: rest =>
      major ← leading_number major;
      match rest with
      | [] => None
      | minor :: rest =>
          minor ← leading_number minor;
          patch ← match rest with component :: _ => leading_number component | [] => Some 0%N end;
          Some {| tv_major := major; tv_minor := minor; tv_patch := patch |}
      end
  end.

(** [parse_git_version]. *)
Definition parse_git_version (output : list N) : option ToolVersion := parse_version output (lit "git version ").

Example reads_apple_git : parse_git_version (lit "git version 2.39.5 (Apple Git-154)") = Some {| tv_major := 2; tv_minor := 39; tv_patch := 5 |}.
Proof. reflexivity. Qed.
Example reads_prerelease : parse_git_version (lit "git version 2.50.0-rc1") = Some {| tv_major := 2; tv_minor := 50; tv_patch := 0 |}.
Proof. reflexivity. Qed.

(** ** Configuration and discovery are read as Git means them

    The configuration parser sees the bytes of a stream and not its chunks, skips exactly the
    records that are too long, and keeps of the others what Git's own lookups answer: the
    last value of a variable, the first URL of a remote. Discovery reads back the paths that
    Git prints. *)
(** ** One byte at a time *)

Definition config_field_end (p : ConfigParser) : ConfigParser :=
  if cp_skipping p then set_cp_field (cp_field p) false p
  else let p' := config_record (cp_field p) (set_cp_field [] false p) in set_cp_field [] (cp_skipping p') p'.

Definition config_part (part : list N) (p : ConfigParser) : ConfigParser :=
  if cp_skipping p then p
  else if (MAXIMUM_CONFIG_RECORD_BYTES <? N.of_nat (length (cp_field p) + length part))%N then set_cp_field [] true p
  else set_cp_field (cp_field p ++ part) (cp_skipping p) p.

Definition config_byte (p : ConfigParser) (b : N) : ConfigParser :=
  if cp_failed p then p else if (b =? 0)%N then config_field_end p else config_part [b] p.
Definition config_bytes : ConfigParser → list N → ConfigParser := foldl config_byte.

Definition config_bounded (p : ConfigParser) : Prop :=
  (N.of_nat (length (cp_field p)) <= MAXIMUM_CONFIG_RECORD_BYTES)%N ∧ (cp_skipping p = true → cp_field p = []).

Lemma config_failed bytes p : cp_failed p = true → config_bytes p bytes = p.
Proof.
  intros Hp. induction bytes as [|b bytes IH]; [done|]. simpl. assert (config_byte p b = p) as ->; [|done].
  unfold config_byte. by rw Hp.
Qed.

Lemma config_part_bounded part p : config_bounded p → config_bounded (config_part part p).
Proof.
  intros Hb. pose proof Hb as [Hf Hs]. unfold config_part. destruct (cp_skipping p) eqn:E; [done|].
  destruct (N.ltb_spec MAXIMUM_CONFIG_RECORD_BYTES (N.of_nat (length (cp_field p) + length part))); [done|].
  split; cbn [set_cp_field cp_field cp_skipping]; [rw length_app; lia|done].
Qed.

Lemma config_end_bounded p : config_bounded p → config_bounded (config_field_end p).
Proof.
  intros [Hf Hs]. unfold config_field_end. destruct (cp_skipping p) eqn:E; split;
    cbn [set_cp_field cp_field cp_skipping length]; done || lia.
Qed.

Lemma config_part_failed part p : cp_failed (config_part part p) = cp_failed p.
Proof. unfold config_part. by repeat case_match. Qed.

(** A part without a NUL is its bytes. *)
Lemma config_part_bytes part : ∀ p,
  cp_failed p = false → config_bounded p → 0%N ∉ part → config_part part p = config_bytes p part.
Proof.
  induction part as [|b part IH]; intros p Hp Hb Hz.
  { destruct Hb as [Hf _]. unfold config_part. simpl. rw Nat.add_0_r app_nil_r.
    destruct p as [? ? ? ? field skipping ?]; simpl in *. destruct skipping; [done|].
    destruct (N.ltb_spec MAXIMUM_CONFIG_RECORD_BYTES (N.of_nat (length field))); [lia|done]. }
  apply not_elem_of_cons in Hz as [Hb0 Hz]. cbn [config_bytes foldl]. fold (config_bytes (config_byte p b) part).
  unfold config_byte. rw Hp. destruct (N.eqb_spec b 0); [by subst|].
  rw -IH //; [by rw config_part_failed|by apply config_part_bounded|].
  unfold config_part. destruct (cp_skipping p) eqn:Es; [by rw Es|]. cbn [length].
  destruct (N.ltb_spec MAXIMUM_CONFIG_RECORD_BYTES (N.of_nat (length (cp_field p) + 1))) as [Hl|Hl]; simpl.
  - by destruct (N.ltb_spec MAXIMUM_CONFIG_RECORD_BYTES (N.of_nat (length (cp_field p) + S (length part)))); [|lia].
  - rw length_app /=. replace (length (cp_field p) + 1 + length part) with (length (cp_field p) + S (length part)) by lia.
    destruct (N.ltb_spec MAXIMUM_CONFIG_RECORD_BYTES (N.of_nat (length (cp_field p) + S (length part)))); [done|].
    by rw -app_assoc.
Qed.

Lemma config_loop_bytes fuel : ∀ chunk p,
  length chunk ≤ fuel → config_bounded p → config_push_loop fuel chunk p = config_bytes p chunk.
Proof.
  induction fuel as [|fuel IH]; intros chunk p Hl Hb; [destruct chunk; [done|simpl in Hl; lia]|].
  cbn [config_push_loop]. destruct (cp_failed p) eqn:Hp; [by rw config_failed|]. cbn [orb].
  destruct chunk as [|b chunk]; [done|]. cbn [is_empty].
  destruct (find_char 0 (b :: chunk)) as [[part rest]|] eqn:Ef.
  - pose proof (find_char_before _ _ _ _ Ef) as Hz. apply find_char_Some in Ef. rw Ef in Hl |- *.
    rw length_app /= in Hl. fold (config_part part p). unfold config_bytes. rw foldl_app. cbn [foldl].
    fold (config_bytes p part). rw -config_part_bytes //. unfold config_byte. rw config_part_failed Hp. cbn [N.eqb].
    apply IH; [lia|]. by apply config_end_bounded, config_part_bounded.
  - apply find_char_None in Ef. by apply config_part_bytes.
Qed.

Lemma config_bytes_bounded bytes p : config_bounded p → config_bounded (config_bytes p bytes).
Proof.
  revert p. induction bytes as [|b bytes IH]; intros p Hb; [done|]. apply IH. unfold config_byte.
  destruct (cp_failed p); [done|]. destruct (b =? 0)%N; [by apply config_end_bounded|by apply config_part_bounded].
Qed.

Definition config_pushes (branch : option ustring) (version : ToolVersion) (chunks : list (list N)) : ConfigParser :=
  foldl (λ p chunk, config_push chunk p) (config_new branch version) chunks.

Lemma config_pushes_bytes branch version chunks :
  config_pushes branch version chunks = config_bytes (config_new branch version) (concat chunks).
Proof.
  unfold config_pushes. assert (config_bounded (config_new branch version)) as Hb by done. revert Hb.
  generalize (config_new branch version). induction chunks as [|chunk chunks IH]; intros p Hb; [done|].
  cbn [foldl concat]. unfold config_bytes. rw foldl_app. fold (config_bytes p chunk).
  unfold config_push at 2. rw config_loop_bytes //. apply IH. by apply config_bytes_bounded.
Qed.

(** ** Records *)

(** A variable of Git's configuration: its key, and its value if it has one. *)
Abbreviation ConfigRecord := (list N * option (list N))%type (only parsing).

Definition print_record (r : ConfigRecord) : list N :=
  match r.2 with Some value => r.1 ++ 10%N :: value | None => r.1 end.
Definition print_config (rs : list ConfigRecord) : list N := terminated 0 (map print_record rs).

Definition record_ok (r : ConfigRecord) : Prop := r.1 ≠ [] ∧ (10%N ∉ r.1) ∧ 0%N ∉ print_record r.

(** The records that are not too long. *)
Definition short_record (r : ConfigRecord) : Prop := (N.of_nat (length (print_record r)) <= MAXIMUM_CONFIG_RECORD_BYTES)%N.

Definition step_config (p : ConfigParser) (r : ConfigRecord) : ConfigParser :=
  if decide (short_record r) then config_record (print_record r) p else p.

(** The parser between two records. *)
Definition between (p : ConfigParser) : Prop := cp_field p = [] ∧ cp_skipping p = false ∧ cp_failed p = false.

Lemma config_reads_record r p :
  between p → record_ok r → between (step_config p r) →
  config_bytes p (print_record r ++ [0%N]) = step_config p r.
Proof.
  intros (Hf & Hs & Hp) (_ & _ & Hz) Hb'. unfold config_bytes. rw foldl_app. cbn [foldl]. fold (config_bytes p (print_record r)).
  rw -config_part_bytes //; [split; rw Hf; simpl; [lia|done]|].
  unfold config_byte. rw config_part_failed Hp. cbn [N.eqb]. unfold step_config, short_record in *.
  unfold config_part. rw Hs Hf. cbn [length plus app].
  destruct (N.ltb_spec MAXIMUM_CONFIG_RECORD_BYTES (N.of_nat (length (print_record r)))); case_decide; [lia| | |lia].
  - unfold config_field_end. simpl. destruct p; simpl in *; by subst.
  - unfold config_field_end. cbn [set_cp_field cp_skipping cp_field].
    assert (set_cp_field [] false (set_cp_field (print_record r) false p) = p) as -> by (destruct p; simpl in *; by subst).
    destruct Hb' as (Hf' & _ & _). destruct (config_record (print_record r) p); simpl in *; by subst.
Qed.

(** ** What Git's lookups answer *)

(** The last value of a variable that has one. *)
Definition last_value (key : list N) (rs : list ConfigRecord) : option ustring :=
  last (omap (λ r : ConfigRecord, if decide (r.1 = key) then from_utf8_lossy <$> r.2 else None) rs).

(** The last record of a variable, read by [f]. *)
Definition last_record {A} (key : list N) (f : option (list N) → A) (rs : list ConfigRecord) : option A :=
  last (omap (λ r : ConfigRecord, if decide (r.1 = key) then Some (f r.2) else None) rs).

(** A remote's name and URL. *)
Definition remote_of (r : ConfigRecord) : option (ustring * ustring) :=
  match remote_name r.1, r.2 with
  | Some name, Some url =>
      if is_empty (from_utf8_lossy name) then None else Some (from_utf8_lossy name, from_utf8_lossy url)
  | _, _ => None
  end.

(** The first URL of each remote, in their order. *)
Fixpoint first_of_each (remotes : list (ustring * ustring)) : list (ustring * ustring) :=
  match remotes with
  | [] => []
  | r :: remotes => r :: filter (λ r', r'.1 ≠ r.1) (first_of_each remotes)
  end.

Definition branch_value (branch : option ustring) (variable : string) (rs : list ConfigRecord) : option ustring :=
  branch ← branch; last_value (encode_utf8 (lit "branch." ++ branch ++ lit ".") ++ lit variable) rs.

Definition fsmonitor_on (value : option (list N)) : bool := match value with Some value => is_git_true value | None => true end.
Definition to_upstream (value : option (list N)) : bool :=
  match value with
  | Some value => eq_ignore_ascii_case value (lit "upstream") || eq_ignore_ascii_case value (lit "tracking")
  | None => false
  end.

Definition config_of (branch : option ustring) (builtin : bool) (rs : list ConfigRecord) : RepositoryConfig :=
  {| cf_fsmonitor := if builtin then Fsmonitor_Builtin else Fsmonitor_Disabled;
     cf_remotes := take MAXIMUM_REMOTES (first_of_each (omap remote_of rs));
     cf_push_default := last_value (lit "remote.pushdefault") rs;
     cf_push_to_upstream := default false (last_record (lit "push.default") to_upstream rs);
     cf_branch_remote := branch_value branch "remote" rs;
     cf_branch_merge := branch_value branch "merge" rs;
     cf_branch_push_remote := branch_value branch "pushremote" rs |}.

Definition fsmonitor_of (rs : list ConfigRecord) : bool := default false (last_record (lit "core.fsmonitor") fsmonitor_on rs).

Definition at_config (branch : option ustring) (version : ToolVersion) (rs : list ConfigRecord) : ConfigParser :=
  set_cp_config (config_of branch false rs) (fsmonitor_of rs) (config_new branch version).

(** ** One more record *)

Lemma last_omap_snoc {A B} (f : A → option B) l x :
  last (omap f (l ++ [x])) = match f x with Some y => Some y | None => last (omap f l) end.
Proof. rw omap_app /=. destruct (f x); simpl; [by rw last_snoc|by rw app_nil_r]. Qed.

Lemma last_value_snoc key rs r :
  last_value key (rs ++ [r]) =
  if decide (r.1 = key) then match r.2 with Some value => Some (from_utf8_lossy value) | None => last_value key rs end
  else last_value key rs.
Proof. unfold last_value. rw last_omap_snoc. case_decide; [|done]. by destruct r.2. Qed.

Lemma last_record_snoc {A} key (f : option (list N) → A) rs r :
  last_record key f (rs ++ [r]) = if decide (r.1 = key) then Some (f r.2) else last_record key f rs.
Proof. unfold last_record. rw last_omap_snoc. by case_decide. Qed.

Lemma first_of_each_snoc remotes r :
  first_of_each (remotes ++ [r]) =
  if decide (r.1 ∈ map fst (first_of_each remotes)) then first_of_each remotes else first_of_each remotes ++ [r].
Proof.
  induction remotes as [|r' remotes IH]; [done|]. cbn [app first_of_each map].
  rw IH. destruct (decide (r.1 ∈ map fst (first_of_each remotes))) as [Hin|Hin].
  - rw decide_True //. destruct (decide (r.1 = r'.1)) as [E|E]; [rw E; by left|]. right.
    apply list_elem_of_fmap in Hin as (x & Ex & Hx). apply list_elem_of_fmap. exists x. split; [done|].
    apply list_elem_of_filter. split; [congruence|done].
  - rw filter_app filter_cons filter_nil. destruct (decide (r.1 = r'.1)) as [E|E].
    + rw (decide_True (P := r.1 ∈ r'.1 :: _)); [rw E; by left|]. case_decide; [done|]. by rw app_nil_r.
    + rw (decide_False (P := r.1 ∈ r'.1 :: _)).
      { intros [?|Hx]%elem_of_cons; [done|]. apply Hin. apply list_elem_of_fmap in Hx as (x & Ex & Hx).
        apply list_elem_of_filter in Hx as [_ Hx]. apply list_elem_of_fmap. by exists x. }
      by case_decide.
Qed.

Lemma push_remote_snoc remotes name url :
  push_remote name url (take MAXIMUM_REMOTES (first_of_each remotes)) =
  take MAXIMUM_REMOTES (first_of_each (remotes ++ (if is_empty name then [] else [(name, url)]))).
Proof.
  unfold push_remote. destruct (is_empty name) eqn:En; [by rw app_nil_r|]. rw first_of_each_snoc. cbn [negb andb fst].
  set (l := first_of_each remotes). rw length_take. destruct (Nat.ltb_spec (MAXIMUM_REMOTES `min` length l) MAXIMUM_REMOTES) as [Hl|Hl].
  - rw (firstn_all2 l); [lia|]. cbn [andb].
    assert (vany (λ r, bool_decide (r.1 = name)) l = bool_decide (name ∈ map fst l)) as ->.
    { apply eq_bool_prop_intro. split; intros H.
      - apply Is_true_true, vany_true in H as (x & Hx & Ex%bool_decide_eq_true). apply bool_decide_pack. subst.
        by apply list_elem_of_fmap_2.
      - apply bool_decide_unpack, list_elem_of_fmap in H as (x & -> & Hx). apply Is_true_true, vany_true. exists x.
        split; [done|]. by apply bool_decide_eq_true. }
    destruct (decide (name ∈ map fst l)) as [Hin|Hin]; [rw bool_decide_eq_true_2 //|rw bool_decide_eq_false_2 //]; cbn [negb].
    + rw firstn_all2; [lia|done].
    + rw firstn_all2; [rw length_app /=; lia|done].
  - cbn [andb]. case_decide; [done|]. rw take_app_le; [lia|done].
Qed.

Lemma print_split (r : ConfigRecord) :
  record_ok r →
  match find_char 10 (print_record r) with Some (key, value) => (key, Some value) | None => (print_record r, None) end = r.
Proof.
  destruct r as [key [value|]]; intros (_ & Hn & _); unfold print_record in *; simpl in *; [by rw find_char_split|].
  by rw find_char_absent.
Qed.

(** The key of a branch variable, if there is a branch. *)
Definition branch_key (branch : option ustring) (variable : string) : option (list N) :=
  (λ branch, encode_utf8 (lit "branch." ++ branch ++ lit ".") ++ lit variable) <$> branch.

Definition branch_next (branch : option ustring) (variable : string) (r : ConfigRecord) (old : option ustring) : option ustring :=
  if bool_decide (branch_key branch variable = Some r.1)
  then match r.2 with Some value => Some (from_utf8_lossy value) | None => old end else old.

Lemma branch_value_snoc branch variable rs r :
  branch_value branch variable (rs ++ [r]) = branch_next branch variable r (branch_value branch variable rs).
Proof.
  unfold branch_value, branch_next, branch_key. destruct branch as [branch|]; [|done]. cbn [mbind option_bind fmap option_fmap option_map].
  rw last_value_snoc. case_decide as Hd; [rw bool_decide_eq_true_2; [by rw Hd|done]|].
  rw bool_decide_eq_false_2; [intros [= E]; by apply Hd|done].
Qed.

Lemma config_of_snoc branch rs r :
  let c := config_of branch false rs in
  config_of branch false (rs ++ [r]) =
  {| cf_fsmonitor := Fsmonitor_Disabled;
     cf_remotes := match remote_name r.1, r.2 with
                   | Some name, Some url => push_remote (from_utf8_lossy name) (from_utf8_lossy url) (cf_remotes c)
                   | _, _ => cf_remotes c
                   end;
     cf_push_default := if bool_decide (r.1 = lit "remote.pushdefault")
                        then match r.2 with Some value => Some (from_utf8_lossy value) | None => cf_push_default c end
                        else cf_push_default c;
     cf_push_to_upstream := if bool_decide (r.1 = lit "push.default") then to_upstream r.2 else cf_push_to_upstream c;
     cf_branch_remote := branch_next branch "remote" r (cf_branch_remote c);
     cf_branch_merge := branch_next branch "merge" r (cf_branch_merge c);
     cf_branch_push_remote := branch_next branch "pushremote" r (cf_branch_push_remote c) |}.
Proof.
  unfold config_of. cbn zeta. cbn [cf_remotes cf_push_default cf_push_to_upstream cf_branch_remote cf_branch_merge cf_branch_push_remote].
  rw !branch_value_snoc last_value_snoc last_record_snoc. f_equal.
  - rw omap_app. cbn [omap list_omap]. unfold remote_of at 2. destruct (remote_name r.1) as [name|]; [|by rw app_nil_r].
    destruct r.2 as [url|]; [|by rw app_nil_r]. rw push_remote_snoc. by destruct (is_empty (from_utf8_lossy name)).
  - case_decide; [rw bool_decide_eq_true_2 //|rw bool_decide_eq_false_2 //].
  - case_decide; [rw bool_decide_eq_true_2 //|rw bool_decide_eq_false_2 //].
Qed.

(** Keys that do not start with a [b] are no branch variables. *)
Lemma no_branch branch variable r old : head r.1 ≠ Some 98%N → branch_next branch variable r old = old.
Proof.
  intros Hh. unfold branch_next. rw bool_decide_eq_false_2 //. unfold branch_key. destruct branch as [branch|]; [|done].
  simpl. intros [= E]. apply Hh. by rw -E.
Qed.

Lemma branch_variable branch key variable :
  ((λ branch, encode_utf8 (lit "branch." ++ branch ++ lit ".")) <$> branch) ≫= (λ prefix, strip_prefix prefix key) = Some (lit variable) ↔
  branch_key branch variable = Some key.
Proof.
  unfold branch_key. destruct branch as [branch|]; cbn [fmap option_fmap option_map mbind option_bind]; [|done]. rw strip_prefix_spec. split; [by intros ->|by intros [= <-]].
Qed.

Lemma fsmonitor_of_snoc rs r :
  fsmonitor_of (rs ++ [r]) = if bool_decide (r.1 = lit "core.fsmonitor") then fsmonitor_on r.2 else fsmonitor_of rs.
Proof. unfold fsmonitor_of. rw last_record_snoc. case_decide; [rw bool_decide_eq_true_2 //|rw bool_decide_eq_false_2 //]. Qed.

(** One more record gives the lookups of one more record. *)
Lemma config_step branch version rs r :
  record_ok r → config_record (print_record r) (at_config branch version rs) = at_config branch version (rs ++ [r]).
Proof.
  intros Hr. unfold config_record. rw print_split //.
  assert (at_config branch version (rs ++ [r]) =
    set_cp_config (config_of branch false (rs ++ [r])) (fsmonitor_of (rs ++ [r])) (config_new branch version)) as -> by done.
  rw config_of_snoc fsmonitor_of_snoc. destruct Hr as (Hk & _ & _). destruct r as [key value]. cbn [fst snd] in *.
  unfold at_config. cbn [set_cp_config cp_config cp_fsmonitor cp_branch_prefix config_new cp_git_version cp_field cp_skipping cp_failed].
  assert (cf_fsmonitor (config_of branch false rs) = Fsmonitor_Disabled) as Hf by done.
  destruct (config_of branch false rs) as [fsmonitor remotes push_default upstream remote merge push].
  cbn [cf_fsmonitor cf_remotes cf_push_default cf_push_to_upstream cf_branch_remote cf_branch_merge cf_branch_push_remote] in *. subst fsmonitor.
  destruct key as [|k key]; [done|]. cbn [is_empty]. set (key' := k :: key).
  destruct (bool_decide_reflect (key' = lit "core.fsmonitor")) as [->|N1]; [by rw !no_branch|].
  destruct (bool_decide_reflect (key' = lit "push.default")) as [->|N2]; [by rw !no_branch|].
  destruct (bool_decide_reflect (key' = lit "remote.pushdefault")) as [->|N3]; [rw !no_branch //; by destruct value|].
  destruct (remote_name key') as [name|] eqn:Er.
  { rw !no_branch //; [unfold remote_name in Er; cbn [mbind option_bind] in Er;
      destruct (strip_prefix (lit "remote.") key') as [rest|] eqn:Es; [|done]; apply strip_prefix_spec in Es; by rw Es..|].
    by destruct value. }
  assert (∀ variable old, branch_next branch variable (key', value) old =
    if bool_decide (((λ branch, encode_utf8 (lit "branch." ++ branch ++ lit ".")) <$> branch) ≫= (λ prefix, strip_prefix prefix key') = Some (lit variable))
    then match value with Some value => Some (from_utf8_lossy value) | None => old end else old) as Hb.
  { intros variable old. unfold branch_next. cbn [fst snd]. by rw (bool_decide_ext _ _ (branch_variable branch key' variable)). }
  rw !Hb. destruct (_ ≫= _) as [variable|]; [|done]. destruct value as [value|]; [|by repeat case_match].
  assert (∀ s, bool_decide (Some variable = Some (lit s)) = bool_decide (variable = lit s)) as Hv.
  { intros s. apply bool_decide_ext. split; [by intros [= ->]|by intros ->]. }
  rw !Hv.
  destruct (bool_decide_reflect (variable = lit "remote")) as [->|]; [done|].
  destruct (bool_decide_reflect (variable = lit "merge")) as [->|]; [done|].
  by destruct (bool_decide_reflect (variable = lit "pushremote")) as [->|].
Qed.

Lemma config_new_at branch version : config_new branch version = at_config branch version [].
Proof. unfold at_config, config_of, branch_value. by destruct branch. Qed.

Lemma config_records branch version rs : ∀ seen,
  Forall record_ok rs →
  config_bytes (at_config branch version seen) (print_config rs) = at_config branch version (seen ++ filter short_record rs).
Proof.
  unfold print_config, terminated. induction rs as [|r rs IH]; intros seen Hrs; [by rw app_nil_r|].
  apply Forall_cons in Hrs as [Hr Hrs]. cbn [map flat_map]. unfold config_bytes. rw foldl_app.
  fold (config_bytes (at_config branch version seen) (print_record r ++ [0%N])).
  assert (step_config (at_config branch version seen) r = at_config branch version (seen ++ filter short_record [r])) as Hstep.
  { unfold step_config. rw filter_cons filter_nil. case_decide; [by apply config_step|by rw app_nil_r]. }
  rw config_reads_record //; [by rw Hstep|]. rw Hstep. unfold config_bytes in IH. rw IH //.
  by rw -app_assoc -filter_app.
Qed.

(** The configuration is what Git's own lookups answer: whatever records Git prints and
    however the output is cut, each record of more than 64 KiB is skipped and no other; of
    the rest the last value of [push.default], [remote.pushDefault], [core.fsmonitor] and
    the current branch's remote, merge and push remote counts, each of the first 32 remotes
    has its first URL, and the built-in monitor is used only from Git 2.36 on. *)
Theorem config_read branch version rs chunks :
  Forall record_ok rs → concat chunks = print_config rs →
  let kept := filter short_record rs in
  config_finish (config_pushes branch version chunks) =
  Ok (config_of branch (fsmonitor_of kept && version_leb BUILTIN_FSMONITOR_GIT_VERSION version) kept).
Proof.
  intros Hrs E kept. rw config_pushes_bytes E config_new_at (config_records _ _ _ [] Hrs). fold kept. cbn [app].
  unfold config_finish, at_config. cbn [set_cp_config config_new cp_failed cp_field is_empty negb orb cp_skipping cp_config cp_fsmonitor cp_git_version].
  by destruct (_ && _).
Qed.

(** ** HEAD from a status *)

Lemma str_get_ascii s : ∀ n, Forall (λ c, (c < 128)%N) s → n ≤ length s → str_get_to s n = Some (take n s).
Proof.
  induction s as [|c s IH]; intros n Hs Hn; [simpl in Hn; by replace n with 0 by lia|]. apply Forall_cons in Hs as [Hc Hs].
  destruct n as [|n]; [done|]. cbn [str_get_to Nat.eqb take]. unfold len_utf8. apply N.ltb_lt in Hc as ->.
  cbn [Nat.leb Nat.sub]. rw Nat.sub_0_r IH //. simpl in Hn. lia.
Qed.

Lemma lossy_ascii s : Forall (λ c, (c < 128)%N) s → from_utf8_lossy s = s.
Proof. induction 1 as [|c s Hc _ IH]; [done|]. cbn [from_utf8_lossy]. apply N.ltb_lt in Hc as ->. by rw IH. Qed.

Lemma hex_ascii s : Forall (λ c, is_ascii_hexdigit c = true) s → Forall (λ c, (c < 128)%N) s.
Proof.
  intros Hs. eapply Forall_impl; [exact Hs|]. intros c. unfold is_ascii_hexdigit, is_ascii_digit, in_range.
  rw !orb_true_iff !andb_true_iff !N.leb_le. lia.
Qed.

(** HEAD is read from the status stream: however the output is cut, a branch with a commit
    is that branch, a branch without one is unborn, a detached commit is shown by its first
    seven digits, and neither is refused; the upstream keeps its name when it is gone, only
    the divergence is missing. *)
Theorem head_read s chunks :
  status_ok s → Forall read_chunk chunks → concat chunks = print_status s →
  ∃ summary, porcelain_finish (pushes chunks) = Ok summary ∧
    repository_head (ps_headers summary) =
      match gs_head s, gs_oid s with
      | Some name, Some _ => Ok (Head_Branch (from_utf8_lossy name))
      | Some name, None => Ok (Head_Unborn (from_utf8_lossy name))
      | None, Some oid => Ok (Head_Detached (take 7 oid))
      | None, None => Err Read_InvalidResponse
      end ∧
    up_name <$> upstream (ps_headers summary) = from_utf8_lossy <$> gs_upstream s ∧
    (upstream (ps_headers summary) ≫= up_divergence) =
      (_ ← gs_upstream s; d ← gs_divergence s; Some {| dv_ahead := decimal d.1; dv_behind := decimal d.2 |}).
Proof.
  intros Hs Hc E. exists (summary_of s). rw (status_parsed _ _ Hs Hc E) at_rows_finish. split; [done|].
  unfold summary_of, repository_head, upstream, short_commit, headers_of. simpl. split; [|split].
  - destruct (gs_oid s) as [oid|] eqn:Eo; simpl; [|by destruct (gs_head s)]. destruct (gs_head s); [done|]. simpl.
    destruct (so_oid _ Hs _ Eo) as [Hl Hh]. apply hex_ascii in Hh. rw lossy_ascii // str_get_ascii //. unfold SHORT_COMMIT_LENGTH. lia.
  - by destruct (gs_upstream s).
  - destruct (gs_upstream s), (gs_divergence s); done.
Qed.

(** ** Discovery *)

(** The lines of [git rev-parse] in a work tree. *)
Definition print_discovery (git common toplevel prefix : ustring) : list N :=
  encode_utf8 (terminated 10 [lit "false"; lit "false"; git; common; toplevel; prefix]).

(** The work tree of a directory is found as Git prints it: any four locations without a
    newline are read back whole, a common directory that Git prints relative is taken below
    the queried directory, and a repository rooted at home shows only for home itself. *)
Theorem discovery_read git common toplevel prefix directory home :
  Forall (λ line, valid_text line ∧ 10%N ∉ line) [git; common; toplevel; prefix] →
  git ≠ [] → common ≠ [] → toplevel ≠ [] →
  parse_discovery (print_discovery git common toplevel prefix) directory home =
  Ok (if is_hidden_home toplevel prefix home then Discovery_Hidden
      else Discovery_Repository {| dr_toplevel := toplevel; dr_git_directory := git;
             dr_common_directory := join_directory directory common; dr_prefix := prefix |}).
Proof.
  intros Hl Hg Hc Ht. unfold parse_discovery, print_discovery.
  assert (valid_text (terminated 10 [lit "false"; lit "false"; git; common; toplevel; prefix])) as Hv.
  { unfold valid_text, terminated. apply Forall_flat_map.
    repeat (apply Forall_cons; split; [apply Forall_app; split; [by repeat constructor|by repeat constructor]|]).
    eapply Forall_impl; [exact Hl|]. intros line [Hv _]. apply Forall_app. split; [done|by repeat constructor]. }
  rw encode_nonempty // (from_utf8_encode _ Hv). cbn [ok_or result_bind]. rw split_on_terminated.
  { do 2 (apply Forall_cons; split; [by apply (bool_decide_unpack _)|]). eapply Forall_impl; [exact Hl|]. by intros line [_ ?]. }
  cbn [app head tail]. change (boolean (Some (lit "false"))) with (@Ok bool RepositoryReadError false). cbn [result_bind].
  unfold discovered_paths, path_line. destruct git; [done|]. destruct common; [done|]. destruct toplevel; [done|]. cbn [is_empty result_bind].
  by destruct (is_hidden_home _ _ _).
Qed.

(** ** Concrete runs *)

Module Sample.
Definition records : list ConfigRecord :=
  [(lit "push.default", Some (lit "Upstream")); (lit "remote.origin.url", Some (lit "a")); (lit "remote.origin.url", Some (lit "b"));
   (lit "branch.main.remote", Some (lit "old")); (lit "branch.main.remote", Some (lit "origin")); (lit "core.fsmonitor", None)].
Definition version : ToolVersion := {| tv_major := 2; tv_minor := 39; tv_patch := 5 |}.
(** The output, one byte at a time. *)
Definition chunks : list (list N) := map (λ b, [b]) (print_config records).

Lemma config_read_witness :
  Forall record_ok records ∧ concat chunks = print_config records ∧
  config_finish (config_pushes (Some (lit "main")) version chunks) =
    Ok {| cf_fsmonitor := Fsmonitor_Builtin; cf_remotes := [(lit "origin", lit "a")]; cf_push_default := None;
          cf_push_to_upstream := true; cf_branch_remote := Some (lit "origin"); cf_branch_merge := None; cf_branch_push_remote := None |}.
Proof.
  assert (Forall record_ok records) as Hr.
  { repeat constructor; try done; by apply (bool_decide_unpack _). }
  split; [exact Hr|]. split; [reflexivity|].
  exact (config_read (Some (lit "main")) version records chunks Hr eq_refl).
Defined.

Lemma head_read_witness :
  ∃ summary, porcelain_finish (pushes PorcelainTheorems.Sample.cut) = Ok summary ∧
    repository_head (ps_headers summary) = Ok (Head_Branch (lit "feature/a b")).
Proof.
  destruct PorcelainTheorems.Sample.cut_ok as [Hc E].
  destruct (head_read _ _ PorcelainTheorems.Sample.status_ok_sample Hc E) as (summary & Hf & Hh & _).
  exists summary. split; [exact Hf|exact Hh].
Defined.

Lemma discovery_read_witness :
  parse_discovery (print_discovery (lit "/src/app/.git") (lit "../.git") (lit "/src/app") (lit "sub/")) (lit "/src/app/sub/") (lit "/src/app") =
    Ok Discovery_Hidden.
Proof.
  apply discovery_read; [|done..].
  repeat constructor; by apply (bool_decide_unpack _).
Defined.
End Sample.
