(* ===== verification/RemoteUrl.v ===== *)
(** * GitHub repositories of remote URLs

    [src/repository_status/remote_url.rs]: remote URLs come from configuration that anyone may
    have written, so only network forms with a plain host and an [owner/name] path are taken.
    Theorems: what is taken is safe to name again, and every form of a repository's URL
    names that repository. *)
From Stdlib Require Import Lia.
From S2P Require Import Prelude.
From S2P Require Import Text.
From S2P Require Import Facts.
From S2P Require Import Bytes.
From S2P Require Import RepositoryRead.

(** ** Strings *)

(** [rsplit_once] by a character. *)
Definition rsplit_char (c : char) (s : ustring) : option (ustring * ustring) :=
  match find_char c (rev s) with Some (after, before) => Some (rev before, rev after) | None => None end.

Definition is_ascii_alphanumeric (c : char) : bool := is_ascii_digit c || in_range 65 90 c || in_range 97 122 c.

(** ** The parser *)

Definition NETWORK_SCHEMES : list ustring := map lit ["https"; "http"; "ssh"; "git"]%string.

Inductive GitHubHost := GitHub_Known | GitHub_Unverified.

(** [github_host]. *)
Definition github_host (host : ustring) : GitHubHost :=
  let enterprise_cloud := match strip_suffix (lit ".ghe.com") host with Some tenant => negb (is_empty tenant) | None => false end in
  if bool_decide (host = lit "github.com") || enterprise_cloud then GitHub_Known else GitHub_Unverified.

(** The host after userinfo, which must not be empty. *)
Definition after_userinfo (authority : ustring) : option ustring :=
  match rsplit_char 64 authority with
  | Some (user, host) => if is_empty user then None else Some host
  | None => Some authority
  end.

(** [url_host]. *)
Definition url_host (authority : ustring) : option ustring :=
  host_and_port ← after_userinfo authority;
  match find_char 58 host_and_port with
  | Some (host, port) =>
      if negb (is_empty port) && (str_len port <=? 5) && vall is_ascii_digit port then Some host else None
  | None => Some host_and_port
  end.

Definition host_label (label : ustring) : bool :=
  negb (is_empty label) && (str_len label <=? 63) && negb (starts_with (lit "-") label) && negb (ends_with (lit "-") label)
  && vall (λ byte, is_ascii_alphanumeric byte || (byte =? 45)%N) label.

(** [host_name]. *)
Definition host_name (host : ustring) : option ustring :=
  let host := map to_ascii_lowercase host in
  let valid := negb (is_empty host) && (str_len host <=? 253) && vall host_label (split_on 46 host) in
  if negb valid then None
  else Some (if bool_decide (host = lit "ssh.github.com") then lit "github.com" else host).

Definition is_path_segment (segment : ustring) : bool :=
  negb (is_empty segment) && negb (bool_decide (segment = lit ".")) && negb (bool_decide (segment = lit ".."))
  && negb (starts_with (lit "-") segment)
  && vall (λ byte, is_ascii_alphanumeric byte || (byte =? 45)%N || (byte =? 95)%N || (byte =? 46)%N) segment.

(** [owner_and_name]. *)
Definition owner_and_name (path : ustring) : option (ustring * ustring) :=
  let path := trim_trailing_slashes path in
  let path := default path (strip_suffix (lit ".git") path) in
  '(owner, name) ← find_char slash path;
  if is_path_segment owner && is_path_segment name then Some (owner, name) else None.

(** The authority and the path of either form. *)
Definition authority_path (url : ustring) : option (ustring * ustring) :=
  match split_once (lit "://") url with
  | Some (scheme, rest) =>
      if negb (vany (eq_ignore_ascii_case scheme) NETWORK_SCHEMES) then None
      else
        '(authority, path) ← find_char slash rest;
        host ← url_host authority;
        Some (host, path)
  | None =>
      if contains (lit "::") url then None
      else
        '(authority, path) ← find_char 58 url;
        if has_char slash authority then None
        else
          host ← after_userinfo authority;
          Some (host, default path (strip_prefix [slash] path))
  end.

(** [parse_remote_url]. *)
Definition parse_remote_url (url : ustring) : option GitHubRepository :=
  if vany (λ c, is_control c || is_whitespace c) url then None
  else
    '(authority, path) ← authority_path url;
    host ← host_name authority;
    '(owner, name) ← owner_and_name path;
    Some {| gh_host := host; gh_owner := owner; gh_name := name |}.

Example parses_enterprise : parse_remote_url (lit "ssh://git@git.Example.com:2222/Owner/repo.git/") =
  Some {| gh_host := lit "git.example.com"; gh_owner := lit "Owner"; gh_name := lit "repo" |}.
Proof. reflexivity. Qed.
Example refuses_helper : parse_remote_url (lit "ext::sh -c true") = None.
Proof. reflexivity. Qed.

(** ** What is taken is safe *)

(** A host of nonempty labels of letters, digits and inner dashes, in lower case. *)
Definition safe_host (host : ustring) : Prop :=
  host ≠ [] ∧ str_len host ≤ 253 ∧
  Forall (λ label, label ≠ [] ∧ str_len label ≤ 63 ∧ head label ≠ Some 45%N ∧
    Forall (λ c, in_range 48 57 c = true ∨ in_range 97 122 c = true ∨ c = 45%N) label) (split_on 46 host).

(** A name that is no option, no folder of the file system, and has no separator. *)
Definition safe_segment (segment : ustring) : Prop :=
  segment ≠ [] ∧ segment ≠ lit "." ∧ segment ≠ lit ".." ∧ head segment ≠ Some 45%N ∧
  Forall (λ c, is_ascii_alphanumeric c = true ∨ c ∈ lit "-_.") segment.

Lemma vall_true {A} (f : A → bool) l : vall f l = true ↔ Forall (λ c, f c = true) l.
Proof. unfold vall. rw forallb_forall Forall_forall. split; intros H c Hc; apply H; by apply list_elem_of_In. Qed.

Lemma starts_dash s : starts_with (lit "-") s = false → head s ≠ Some 45%N.
Proof. destruct s as [|c s]; [done|]. simpl. rw andb_true_r. intros H [= ->]. done. Qed.

Lemma split_on_elem c l piece : piece ∈ split_on c l → ∀ d, d ∈ piece → d ∈ l.
Proof.
  revert piece. induction l as [|e l IH]; intros piece; cbn [split_on].
  - intros ->%list_elem_of_singleton d Hd. done.
  - destruct (e =? c)%N.
    + intros [->|Hin]%elem_of_cons d Hd; [by apply not_elem_of_nil in Hd|right; by eapply IH].
    + destruct (split_on c l) as [|first pieces] eqn:Es.
      * intros ->%list_elem_of_singleton d ->%list_elem_of_singleton. by left.
      * intros [->|Hin]%elem_of_cons d Hd; [|right; eapply IH; [by right|done]].
        apply elem_of_cons in Hd as [->|Hd]; [by left|right; eapply IH; [by left|done]].
Qed.

(** A lower-case host that passes the checks. *)
Lemma checked_host_safe h :
  vall (λ c, negb (in_range 65 90 c)) h = true → negb (is_empty h) && (str_len h <=? 253) && vall host_label (split_on 46 h) = true →
  safe_host h.
Proof.
  intros Hlow%vall_true [[He%negb_true_iff Hl]%andb_true_iff Hall%vall_true]%andb_true_iff.
  split; [by intros E; rw E in He|]. split; [by apply Nat.leb_le|]. rw !Forall_forall in Hlow Hall |- *. intros label Hin.
  specialize (Hall label Hin). unfold host_label in Hall. rw !andb_true_iff !negb_true_iff in Hall.
  destruct Hall as [[[[Hne Hlen] Hs] _] Hc]. split; [by intros E; rw E in Hne|]. split; [by apply Nat.leb_le|].
  split; [by apply starts_dash|]. apply vall_true in Hc. rw !Forall_forall in Hc |- *. intros c Hcin. specialize (Hc c Hcin).
  simpl in Hc. specialize (Hlow c (split_on_elem _ _ _ Hin _ Hcin)). apply negb_true_iff in Hlow.
  unfold is_ascii_alphanumeric, is_ascii_digit in Hc. rw Hlow orb_false_r !orb_true_iff N.eqb_eq in Hc. tauto.
Qed.

Lemma host_name_safe host h : host_name host = Some h → safe_host h.
Proof.
  unfold host_name. destruct (negb _) eqn:E; [done|]. apply negb_false_iff in E. intros [= <-].
  case_bool_decide as Hd; [by apply checked_host_safe|]. apply checked_host_safe; [|done].
  apply vall_true, Forall_forall. intros c (d & -> & _)%list_elem_of_fmap. unfold to_ascii_lowercase.
  destruct (in_range 65 90 d) eqn:Er; [|by rw Er]. unfold in_range in *. rw andb_true_iff !N.leb_le in Er.
  apply negb_true_iff, andb_false_iff. rw !N.leb_gt. lia.
Qed.

Lemma path_segment_safe segment : is_path_segment segment = true ↔ safe_segment segment.
Proof.
  unfold is_path_segment, safe_segment. rw !andb_true_iff !negb_true_iff !bool_decide_eq_false vall_true.
  assert (Forall (λ c, is_ascii_alphanumeric c || (c =? 45)%N || (c =? 95)%N || (c =? 46)%N = true) segment ↔
    Forall (λ c, is_ascii_alphanumeric c = true ∨ c ∈ lit "-_.") segment) as ->.
  { apply Forall_iff. intros c. rw !orb_true_iff !N.eqb_eq. change (lit "-_.") with [45; 95; 46]%N.
    rw !elem_of_cons elem_of_nil. tauto. }
  assert (starts_with (lit "-") segment = false ↔ head segment ≠ Some 45%N) as ->.
  { split; [apply starts_dash|]. destruct segment as [|c segment]; [done|]. cbn [head]. intros Hc.
    change (starts_with (lit "-") (c :: segment)) with ((45 =? c)%N && true). rw andb_true_r. apply N.eqb_neq. intros <-. by apply Hc. }
  destruct segment; simpl; [|naive_solver]. split; [by intros [[[[? _] _] _] _]|by intros [? _]].
Qed.

(** C33. Whatever a repository's configuration says, what is taken from it is safe to hand to
    the GitHub command line: the host is a DNS name of at most 253 characters whose labels
    are lower-case letters, digits and inner dashes, and owner and name are one path
    segment each, no option, no folder name and free of separators, spaces and controls. *)
Theorem remote_safe url r :
  parse_remote_url url = Some r → safe_host (gh_host r) ∧ safe_segment (gh_owner r) ∧ safe_segment (gh_name r).
Proof.
  unfold parse_remote_url. destruct (vany _ url); [done|]. destruct (authority_path url) as [[authority path]|]; [|done].
  cbn [mbind option_bind]. destruct (host_name authority) as [host|] eqn:Eh; [|done]. cbn [mbind option_bind].
  unfold owner_and_name. destruct (find_char _ _) as [[owner name]|]; [|done]. cbn [mbind option_bind].
  destruct (is_path_segment owner && is_path_segment name) eqn:Es; [|done]. apply andb_true_iff in Es as [Ho Hn].
  intros [= <-]. simpl. rw -!path_segment_safe. split; [by eapply host_name_safe|done].
Qed.

(** ** Every form names the repository *)

(** A URL with its user and port, or the scp form with its user. *)
Inductive RemoteForm :=
  | Form_Url (scheme : ustring) (user : option ustring) (port : option ustring)
  | Form_Scp (user : option ustring) (rooted : bool).

Definition with_user (user : option ustring) (host : ustring) : ustring :=
  match user with Some user => user ++ 64%N :: host | None => host end.

(** Owner and name, with an optional [.git] and any number of slashes. *)
Definition path_text (owner name : ustring) (git : bool) (slashes : nat) : ustring :=
  owner ++ slash :: (name ++ if git then lit ".git" else []) ++ replicate slashes slash.

Definition print_remote (form : RemoteForm) (host path : ustring) : ustring :=
  match form with
  | Form_Url scheme user port =>
      scheme ++ lit "://" ++ with_user user (host ++ match port with Some port => 58%N :: port | None => [] end) ++ slash :: path
  | Form_Scp user rooted => with_user user host ++ 58%N :: (if rooted then [slash] else []) ++ path
  end.

Definition plain (c : char) : Prop := is_control c = false ∧ is_whitespace c = false ∧ c ≠ slash.

Definition form_ok (form : RemoteForm) : Prop :=
  match form with
  | Form_Url scheme user port =>
      vany (eq_ignore_ascii_case scheme) NETWORK_SCHEMES = true ∧
      (∀ user', user = Some user' → user' ≠ [] ∧ Forall plain user') ∧
      (∀ port', port = Some port' → port' ≠ [] ∧ str_len port' ≤ 5 ∧ Forall (λ c, is_ascii_digit c = true) port')
  | Form_Scp user _ => ∀ user', user = Some user' → user' ≠ [] ∧ Forall plain user' ∧ 58%N ∉ user'
  end.

(** Letters, digits, dashes, underscores and dots. *)
Definition word (c : char) : Prop := is_ascii_alphanumeric c = true ∨ c ∈ lit "-_.".

Lemma word_plain c : word c → plain c ∧ c ≠ 58%N ∧ c ≠ 64%N.
Proof.
  intros Hw. assert ((45 <= c <= 122)%N ∧ c ≠ 47%N ∧ c ≠ 58%N ∧ c ≠ 64%N) as (Hr & H1 & H2 & H3).
  { destruct Hw as [Hw|Hw].
    - unfold is_ascii_alphanumeric, is_ascii_digit, in_range in Hw. rw !orb_true_iff !andb_true_iff !N.leb_le in Hw. lia.
    - change (lit "-_.") with [45; 95; 46]%N in Hw. rw !elem_of_cons elem_of_nil in Hw. lia. }
  unfold plain, is_control, is_whitespace, slash. repeat split; try done.
  - rw orb_false_iff andb_false_iff !N.ltb_ge !N.leb_gt. lia.
  - repeat (rw orb_false_iff || rw andb_false_iff || rw N.leb_gt || rw N.eqb_neq). lia.
Qed.

Lemma words_no c l : Forall word l → c = slash ∨ c = 58%N ∨ c = 64%N → c ∉ l.
Proof.
  rw Forall_forall. intros Hl Hc Hin. destruct (word_plain c (Hl c Hin)) as ((_ & _ & H1) & H2 & H3). naive_solver.
Qed.

Lemma lower_word c : word (to_ascii_lowercase c) → word c.
Proof.
  unfold to_ascii_lowercase. destruct (in_range 65 90 c) eqn:E; [|done]. intros _. left.
  unfold is_ascii_alphanumeric. by rw E orb_true_r.
Qed.

Lemma scheme_words scheme : vany (eq_ignore_ascii_case scheme) NETWORK_SCHEMES = true → Forall word scheme.
Proof.
  rw vany_true. intros (accepted & Hin & Heq). unfold eq_ignore_ascii_case in Heq. apply bool_decide_eq_true in Heq.
  apply Forall_forall. intros c Hc. apply lower_word.
  assert (Forall (λ l, Forall (λ c, is_ascii_alphanumeric c = true) (map to_ascii_lowercase l)) NETWORK_SCHEMES) as Hall
    by by repeat constructor.
  rw Forall_forall in Hall. specialize (Hall _ Hin). rw -Heq Forall_forall in Hall. left. apply Hall. by apply list_elem_of_fmap_2.
Qed.

Lemma split_on_join c l d : d ∈ l → d ≠ c → ∃ piece, piece ∈ split_on c l ∧ d ∈ piece.
Proof.
  induction l as [|e l IH]; [by intros ?%not_elem_of_nil|]. intros Hd Hc. cbn [split_on].
  destruct (N.eqb_spec e c) as [->|He].
  - apply elem_of_cons in Hd as [->|Hd]; [done|]. destruct (IH Hd Hc) as (piece & Hp & Hin). exists piece. by split; [right|].
  - destruct (split_on c l) as [|first pieces] eqn:Es; apply elem_of_cons in Hd as [->|Hd].
    + exists [e]. split; by left.
    + destruct (IH Hd Hc) as (piece & Hp%not_elem_of_nil & _). done.
    + exists (e :: first). split; by left.
    + destruct (IH Hd Hc) as (piece & [->|Hp]%elem_of_cons & Hin); [exists (e :: first); split; [by left|by right]|].
      exists piece. split; [by right|done].
Qed.

Lemma host_words host h : host_name host = Some h → Forall word host.
Proof.
  unfold host_name. destruct (negb _) eqn:E; [done|]. intros _. apply negb_false_iff in E. rw !andb_true_iff in E.
  destruct E as [_ Hall%vall_true]. rw Forall_forall in Hall. apply Forall_forall. intros c Hc. apply lower_word.
  destruct (decide (to_ascii_lowercase c = 46%N)) as [->|Hd]; [right; apply (bool_decide_unpack _); vm_compute; exact I|].
  destruct (split_on_join 46 (map to_ascii_lowercase host) (to_ascii_lowercase c)) as (label & Hl & Hin); [by apply list_elem_of_fmap_2|done|].
  specialize (Hall label Hl). unfold host_label in Hall. rw !andb_true_iff in Hall. destruct Hall as [_ Hc'%vall_true].
  rw Forall_forall in Hc'. specialize (Hc' _ Hin). simpl in Hc'. apply orb_true_iff in Hc' as [?|E%N.eqb_eq]; [by left|]. rw E.
  right. apply (bool_decide_unpack _). vm_compute. exact I.
Qed.

Lemma split_once_scheme scheme rest :
  58%N ∉ scheme → split_once (lit "://") (scheme ++ lit "://" ++ rest) = Some (scheme, rest).
Proof.
  induction scheme as [|c scheme IH]; intros Hc; [done|]. apply not_elem_of_cons in Hc as [Hc Hs]. cbn [app split_once].
  change (starts_with (lit "://") (c :: scheme ++ lit "://" ++ rest)) with
    ((58 =? c)%N && starts_with (lit "//") (scheme ++ lit "://" ++ rest)).
  destruct (N.eqb_spec 58 c); [done|]. cbn [andb]. by rw IH.
Qed.

Lemma no_colon_split s : 58%N ∉ s → split_once (lit "://") s = None.
Proof.
  induction s as [|c s IH]; intros Hc; [done|]. apply not_elem_of_cons in Hc as [Hc Hs]. cbn [split_once].
  change (starts_with (lit "://") (c :: s)) with ((58 =? c)%N && starts_with (lit "//") s).
  destruct (N.eqb_spec 58 c); [done|]. cbn [andb]. by rw IH.
Qed.

Lemma one_colon_split a b : 58%N ∉ a → 58%N ∉ b → starts_with (lit "//") b = false → split_once (lit "://") (a ++ 58%N :: b) = None.
Proof.
  intros Ha Hb Hs. induction a as [|c a IH]; cbn [app split_once].
  - change (starts_with (lit "://") (58%N :: b)) with ((58 =? 58)%N && starts_with (lit "//") b). rw Hs andb_false_r no_colon_split //.
  - apply not_elem_of_cons in Ha as [Hc Ha].
    change (starts_with (lit "://") (c :: a ++ 58%N :: b)) with ((58 =? c)%N && starts_with (lit "//") (a ++ 58%N :: b)).
    destruct (N.eqb_spec 58 c); [done|]. cbn [andb]. by rw IH.
Qed.

Lemma one_colon_contains a b : 58%N ∉ a → 58%N ∉ b → contains (lit "::") (a ++ 58%N :: b) = false.
Proof.
  intros Ha Hb. apply not_true_iff_false. rw contains_spec. intros (x & y & E).
  assert (count_occ N.eq_dec (a ++ 58%N :: b) 58%N = count_occ N.eq_dec (x ++ lit "::" ++ y) 58%N) as Ec by by rw E.
  rw !count_occ_app in Ec. cbn [count_occ] in Ec. destruct (N.eq_dec 58%N 58%N); [|done].
  assert (∀ l : list N, 58%N ∉ l → count_occ N.eq_dec l 58%N = 0) as H0.
  { intros l Hl. apply count_occ_not_In. by rw -list_elem_of_In. }
  rw (H0 a Ha) (H0 b Hb) in Ec. change (count_occ N.eq_dec (lit "::") 58%N) with 2 in Ec. lia.
Qed.

(** ** Both halves *)

Lemma not_in_rev c (s : ustring) : c ∉ s → c ∉ rev s.
Proof. by rw !list_elem_of_In -in_rev. Qed.

Lemma strip_suffix_Some p s t : strip_suffix p s = Some t → s = t ++ p.
Proof.
  unfold strip_suffix. destruct (strip_prefix _ _) as [r|] eqn:E; [|done]. intros [= <-]. apply strip_prefix_spec in E.
  by rw -(rev_involutive s) E rev_app_distr rev_involutive.
Qed.

Lemma rsplit_absent c s : c ∉ s → rsplit_char c s = None.
Proof. intros Hc. unfold rsplit_char. rw find_char_absent //. by apply not_in_rev. Qed.

Lemma rsplit_last c before after : c ∉ after → rsplit_char c (before ++ c :: after) = Some (before, after).
Proof.
  intros Hc. unfold rsplit_char. rw rev_app_distr /= -app_assoc /=. rw find_char_split; [by apply not_in_rev|]. by rw !rev_involutive.
Qed.

Lemma userinfo_dropped user host :
  (∀ user', user = Some user' → user' ≠ []) → 64%N ∉ host → after_userinfo (with_user user host) = Some host.
Proof.
  intros Hu Hh. unfold after_userinfo, with_user. destruct user as [user|]; [|by rw rsplit_absent].
  rw rsplit_last //. specialize (Hu user eq_refl). by destruct user.
Qed.

Lemma trailing_slashes s n : (∀ c, last s = Some c → c ≠ slash) → trim_trailing_slashes (s ++ replicate n slash) = s.
Proof.
  intros Hs. unfold trim_trailing_slashes. rw rev_app_distr.
  assert (rev (replicate n slash) = replicate n slash) as ->.
  { induction n as [|n IH]; [done|]. simpl. by rw IH -replicate_S_end. }
  assert (∀ l, drop_slashes (replicate n slash ++ l) = drop_slashes l) as -> by by induction n.
  destruct (rev s) as [|c r] eqn:E; [apply (f_equal (@rev N)) in E; by rw rev_involutive in E|].
  cbn [drop_slashes]. destruct (N.eqb_spec c slash) as [->|]; [|by rw -E rev_involutive].
  exfalso. apply (Hs slash); [|done]. apply (f_equal (@rev N)) in E. rw rev_involutive /= in E. by rw E last_snoc.
Qed.

Lemma strip_suffix_app s p : strip_suffix p (s ++ p) = Some s.
Proof. unfold strip_suffix. rw rev_app_distr strip_prefix_app. by rw rev_involutive. Qed.

Lemma segment_words segment : safe_segment segment → Forall word segment.
Proof. by intros (_ & _ & _ & _ & ?). Qed.

Lemma last_word l c : Forall word l → last l = Some c → c ≠ slash.
Proof.
  intros Hl Hc ->. apply last_Some in Hc as [l' ->]. apply Forall_app in Hl as [_ Hl]. apply Forall_cons in Hl as [Hw _].
  by destruct (word_plain _ Hw) as ((_ & _ & ?) & _).
Qed.

Lemma path_read owner name git slashes :
  safe_segment owner → safe_segment name → strip_suffix (lit ".git") name = None →
  owner_and_name (path_text owner name git slashes) = Some (owner, name).
Proof.
  intros Ho Hn Hg. unfold owner_and_name, path_text.
  change (slash :: (name ++ if git then lit ".git" else []) ++ replicate slashes slash) with
    ((slash :: name ++ if git then lit ".git" else []) ++ replicate slashes slash). rw app_assoc.
  assert (Forall word (name ++ if git then lit ".git" else [])) as Hw.
  { apply Forall_app. split; [by apply segment_words|]. destruct git; [|done]. apply Forall_forall. intros c Hc.
    change (lit ".git") with [46; 103; 105; 116]%N in Hc. rw !elem_of_cons elem_of_nil in Hc.
    destruct Hc as [->|[->|[->|[->|[]]]]]; [right; apply (bool_decide_unpack _); vm_compute; exact I|by left..]. }
  rw trailing_slashes.
  { intros c Hl. rw last_app_cons in Hl. destruct (name ++ _) as [|d t] eqn:E; [destruct Hn as (Hne & _); by destruct name|].
    change (slash :: d :: t) with ([slash] ++ d :: t) in Hl. rw last_app_cons in Hl. by eapply last_word. }
  assert (find_char slash (owner ++ slash :: name) = Some (owner, name)) as Hf.
  { apply find_char_split, words_no; [by apply segment_words|by left]. }
  assert (default (owner ++ slash :: name ++ if git then lit ".git" else [])
    (strip_suffix (lit ".git") (owner ++ slash :: name ++ if git then lit ".git" else [])) = owner ++ slash :: name) as ->.
  { destruct git.
    - change (slash :: name ++ lit ".git") with ((slash :: name) ++ lit ".git"). by rw app_assoc strip_suffix_app.
    - rw app_nil_r. destruct (strip_suffix _ (owner ++ _)) as [s|] eqn:Es; [|done]. exfalso. apply strip_suffix_Some in Es.
      apply app_eq_inv in Es as [(k & _ & E)|(k & _ & E)].
      + assert (slash ∈ lit ".git") as Hin by (rw E; set_solver). by apply (bool_decide_unpack (slash ∉ lit ".git")) in Hin.
      + destruct k as [|d k]; [done|]. injection E as _ ->. by rw strip_suffix_app in Hg. }
  rw Hf. cbn [mbind option_bind]. apply path_segment_safe in Ho as ->. apply path_segment_safe in Hn as ->. done.
Qed.

Lemma plain_text_ok l : Forall (λ c, is_control c = false ∧ is_whitespace c = false) l → vany (λ c, is_control c || is_whitespace c) l = false.
Proof. rw Forall_forall. intros Hl. apply vany_false. intros c Hc. by destruct (Hl c Hc) as [-> ->]. Qed.

Lemma words_visible l : Forall word l → Forall (λ c, is_control c = false ∧ is_whitespace c = false) l.
Proof. intros Hl. eapply Forall_impl; [exact Hl|]. intros c Hw. by destruct (word_plain c Hw) as ((? & ? & _) & _). Qed.

Lemma digit_word c : is_ascii_digit c = true → word c.
Proof. intros Hc. left. unfold is_ascii_alphanumeric. by rw Hc. Qed.

Lemma path_visible owner name git slashes :
  Forall word owner → Forall word name → Forall (λ c, is_control c = false ∧ is_whitespace c = false) (path_text owner name git slashes).
Proof.
  intros Ho Hn. unfold path_text. rw !Forall_app !Forall_cons !Forall_app. repeat split; try by apply words_visible.
  - by destruct git; repeat constructor.
  - by apply Forall_replicate.
Qed.

Lemma path_no_colon owner name git slashes : Forall word owner → Forall word name → 58%N ∉ path_text owner name git slashes.
Proof.
  intros Ho Hn. unfold path_text. rw !not_elem_of_app not_elem_of_cons !not_elem_of_app.
  split; [apply words_no; auto|]. split; [done|]. split; [split; [apply words_no; auto|]|].
  - destruct git; by apply (bool_decide_unpack _).
  - by intros [? _]%elem_of_replicate.
Qed.

Lemma user_visible user host :
  (∀ user', user = Some user' → Forall plain user') → Forall (λ c, is_control c = false ∧ is_whitespace c = false) host →
  Forall (λ c, is_control c = false ∧ is_whitespace c = false) (with_user user host).
Proof.
  intros Hu Hh. destruct user as [user|]; [|done]. simpl. apply Forall_app. split; [|by constructor].
  eapply Forall_impl; [by apply Hu|]. by intros c (? & ? & _).
Qed.

Lemma with_user_no c user host :
  (∀ user', user = Some user' → c ∉ user') → c ≠ 64%N → c ∉ host → c ∉ with_user user host.
Proof.
  intros Hu Hc Hh. destruct user as [user|]; [|done]. simpl. rw not_elem_of_app not_elem_of_cons. by split; [apply Hu|].
Qed.

Lemma plain_no_slash l : Forall plain l → slash ∉ l.
Proof. rw Forall_forall. intros Hl Hin. by destruct (Hl _ Hin) as (_ & _ & ?). Qed.

Lemma port_no c port : (∀ port', port = Some port' → Forall (λ c, is_ascii_digit c = true) port') → c = slash ∨ c = 64%N →
  c ∉ match port with Some port => 58%N :: port | None => [] end.
Proof.
  intros Hp Hc. destruct port as [port|]; [|apply not_elem_of_nil]. apply not_elem_of_cons. split; [destruct Hc; by subst|].
  apply words_no; [eapply Forall_impl; [by apply Hp|]; apply digit_word|tauto].
Qed.

Lemma url_authority scheme user port host path :
  form_ok (Form_Url scheme user port) → Forall word host →
  authority_path (print_remote (Form_Url scheme user port) host path) = Some (host, path).
Proof.
  intros (Hs & Hu & Hp) Hw. assert (∀ port', port = Some port' → Forall (λ c, is_ascii_digit c = true) port') as Hpd.
  { intros port' E. apply (Hp _ E). }
  unfold authority_path. cbn [print_remote]. rw split_once_scheme; [apply words_no; [by apply scheme_words|auto]|]. rw Hs. cbn [negb].
  rw find_char_split.
  { apply with_user_no; [intros user' E; by apply plain_no_slash, Hu|done|]. rw not_elem_of_app.
    split; [apply words_no; auto|apply port_no; auto]. }
  cbn [mbind option_bind]. unfold url_host. rw userinfo_dropped.
  - intros user' E. exact (proj1 (Hu _ E)).
  - rw not_elem_of_app. split; [apply words_no; auto|apply port_no; auto].
  - cbn [mbind option_bind]. destruct port as [port|].
    + rw find_char_split; [apply words_no; auto|]. destruct (Hp _ eq_refl) as (Hne & Hl & Hd). apply Nat.leb_le in Hl as ->.
      apply vall_true in Hd as ->. by destruct port.
    + rw app_nil_r find_char_absent //. apply words_no; auto.
Qed.

(** A path that starts with a word character. *)
Lemma scp_authority user rooted host c path :
  form_ok (Form_Scp user rooted) → Forall word host → word c → 58%N ∉ c :: path →
  authority_path (print_remote (Form_Scp user rooted) host (c :: path)) = Some (host, c :: path).
Proof.
  cbn [form_ok print_remote]. intros Hf Hw Hcw Hnc. destruct (word_plain _ Hcw) as ((_ & _ & Hne) & _).
  assert (∀ d, d = slash ∨ d = 58%N → d ∉ with_user user host) as Hc.
  { intros d Hd. apply with_user_no; [|by destruct Hd; subst|apply words_no; tauto].
    intros user' E. destruct (Hf _ E) as (_ & Hpl & Hcol). destruct Hd; subst; [by apply plain_no_slash|done]. }
  assert (58%N ∉ (if rooted then [slash] else []) ++ c :: path) as Hc'.
  { apply not_elem_of_app. split; [by destruct rooted; apply (bool_decide_unpack _)|done]. }
  unfold authority_path. rw one_colon_split; [auto|done| |].
  { apply not_true_iff_false. rw starts_with_spec. intros [t E]. by destruct rooted; injection E. }
  rw one_colon_contains; [auto|done|]. rw find_char_split; [auto|]. cbn [mbind option_bind].
  assert (has_char slash (with_user user host) = false) as ->.
  { unfold has_char. apply vany_false. intros d Hin. apply N.eqb_neq. intros ->. revert Hin. exact (Hc slash (or_introl eq_refl)). }
  rw userinfo_dropped; [intros user' E; exact (proj1 (Hf _ E))|apply words_no; auto|]. cbn [mbind option_bind].
  destruct rooted; cbn [app]; [done|].
  change (strip_prefix [slash] (c :: path)) with (if (slash =? c)%N then Some path else None). by destruct (N.eqb_spec slash c).
Qed.

Lemma remote_visible form host path :
  form_ok form → Forall word host → Forall (λ c, is_control c = false ∧ is_whitespace c = false) path →
  Forall (λ c, is_control c = false ∧ is_whitespace c = false) (print_remote form host path).
Proof.
  intros Hf Hw Hp. destruct form as [scheme user port|user rooted]; cbn [print_remote form_ok] in *; rw !Forall_app.
  - destruct Hf as (Hs & Hu & Hp'). split; [by apply words_visible, scheme_words|]. split; [by repeat constructor|].
    split; [|by apply Forall_cons]. apply user_visible; [intros user' E; apply (Hu _ E)|].
    apply Forall_app. split; [by apply words_visible|]. destruct port as [port|]; [|done]. constructor; [done|].
    apply words_visible. destruct (Hp' _ eq_refl) as (_ & _ & Hd). eapply Forall_impl; [exact Hd|]. apply digit_word.
  - split; [apply user_visible; [intros user' E; apply (Hf _ E)|by apply words_visible]|]. apply Forall_cons. split; [done|].
    apply Forall_app. split; [by destruct rooted; repeat constructor|done].
Qed.

(** Every form of a repository's URL names that repository: any accepted scheme with or
    without user and port, or the scp form with or without a leading slash, any spelling of
    the host's case, with or without [.git] and trailing slashes, gives the same host, owner
    and name. *)
Theorem remote_forms form host h owner name git slashes :
  form_ok form → host_name host = Some h → safe_segment owner → safe_segment name → strip_suffix (lit ".git") name = None →
  parse_remote_url (print_remote form host (path_text owner name git slashes)) =
  Some {| gh_host := h; gh_owner := owner; gh_name := name |}.
Proof.
  intros Hf Hh Ho Hn Hg. pose proof (host_words _ _ Hh) as Hw. pose proof (segment_words _ Ho) as How. pose proof (segment_words _ Hn) as Hnw.
  unfold parse_remote_url. rw plain_text_ok; [by apply remote_visible; [| |apply path_visible]|].
  assert (authority_path (print_remote form host (path_text owner name git slashes)) = Some (host, path_text owner name git slashes)) as ->.
  { destruct form as [scheme user port|user rooted]; [by apply url_authority|].
    pose proof (path_no_colon owner name git slashes How Hnw) as Hc. unfold path_text in *. destruct owner as [|c owner]; [by destruct Ho|].
    apply scp_authority; [done..| |done]. by apply Forall_cons in How as [? _]. }
  cbn [mbind option_bind]. rw Hh. cbn [mbind option_bind]. by rw path_read.
Qed.

(** ** Concrete URLs *)

Module Sample.
Lemma remote_safe_witness :
  parse_remote_url (lit "git@GitHub.com:sadiksaifi/SpaceTerm.git") =
    Some {| gh_host := lit "github.com"; gh_owner := lit "sadiksaifi"; gh_name := lit "SpaceTerm" |} ∧
  safe_segment (lit "SpaceTerm").
Proof.
  split; [reflexivity|].
  exact (proj2 (proj2 (remote_safe (lit "git@GitHub.com:sadiksaifi/SpaceTerm.git") {| gh_host := lit "github.com"; gh_owner := lit "sadiksaifi"; gh_name := lit "SpaceTerm" |} eq_refl))).
Defined.

Definition form : RemoteForm := Form_Url (lit "SSH") (Some (lit "git")) (Some (lit "443")).
Lemma form_ok_sample : form_ok form.
Proof.
  split; [reflexivity|]. split; intros ? [= <-]; (split; [done|]).
  - by repeat constructor.
  - split; [by apply Nat.leb_le|by repeat constructor].
Qed.

Lemma remote_forms_witness :
  print_remote form (lit "ssh.github.com") (path_text (lit "o") (lit "n") true 1) = lit "SSH://git@ssh.github.com:443/o/n.git/" ∧
  parse_remote_url (lit "SSH://git@ssh.github.com:443/o/n.git/") =
    Some {| gh_host := lit "github.com"; gh_owner := lit "o"; gh_name := lit "n" |}.
Proof.
  split; [reflexivity|].
  apply (remote_forms form (lit "ssh.github.com") (lit "github.com") (lit "o") (lit "n") true 1 form_ok_sample eq_refl);
    [apply path_segment_safe; reflexivity|apply path_segment_safe; reflexivity|reflexivity].
Defined.
End Sample.
