(* ===== verification/UpdateVersions.v ===== *)
(** * Versions and which of them install

    [crates/spaceterm-core/src/update/facts.rs] (the text of a version),
    [.../update/ordering.rs] (floors, candidates and [admit]), [.../update/check.rs] (the state
    of the feed checks) and [stable_version] of [src/updates.rs]. Theorems: a release's text and
    numbers determine each other, so what [admit] lets through is strictly newer than all
    that is installed; the check state is what its history says. *)
From Stdlib Require Import Lia.
From S2P Require Import Prelude.
From S2P Require Import Text.
From S2P Require Import Bytes.

(** ** Versions *)

Definition MAX_VERSION_BYTES : nat := 64.

(** [\[u64; 3\]] with the derived order of arrays. *)
Abbreviation Release := (N * N * N)%type (only parsing).
Definition release_ltb (a b : Release) : bool :=
  let '(a1, a2, a3) := a in let '(b1, b2, b3) := b in
  ((a1 <? b1) || (a1 =? b1) && ((a2 <? b2) || (a2 =? b2) && (a3 <? b3)))%N.
Definition release_leb (a b : Release) : bool := negb (release_ltb b a).

(** [decimal::<u64>]: ASCII digits with no leading zero. *)
Definition decimal_u64 (text : ustring) : option N :=
  let digits := negb (is_empty text) && vall is_ascii_digit text in
  let canonical := bool_decide (text = lit "0") || negb (starts_with (lit "0") text) in
  if digits && canonical then if (decimal text <=? u64_max)%N then Some (decimal text) else None else None.

(** [release_parts]. *)
Definition release_parts (text : ustring) : option Release :=
  match split_on 46 text with
  | [major; minor; patch] =>
      match decimal_u64 major, decimal_u64 minor, decimal_u64 patch with
      | Some major, Some minor, Some patch => Some (major, minor, patch)
      | _, _, _ => None
      end
  | _ => None
  end.

(** [development]. *)
Definition development (text : ustring) : bool :=
  match strip_prefix (lit "dev.") text with
  | None => false
  | Some rest =>
      let commit := default rest (strip_suffix (lit ".dirty") rest) in
      (str_len commit =? 12) && vall (λ byte, is_ascii_digit byte || in_range 97 102 byte) commit
  end.

(** A [Version] is the text that [Version::parse] accepts. *)
Record Version := { vs_text : ustring }.
#[export] Instance Version_eq_dec : EqDecision Version.
Proof. solve_decision. Defined.

(** [Version::parse]; [Err] is [InvalidVersion]. *)
Definition version_parse (text : ustring) : result Version unit :=
  if (str_len text <=? MAX_VERSION_BYTES) && (bool_decide (is_Some (release_parts text)) || development text)
  then Ok {| vs_text := text |} else Err tt.

(** [Version::release]. *)
Definition release (v : Version) : option Release := release_parts (vs_text v).

(** [stable_version] of the desktop. *)
Definition stable_part (part : ustring) : option N :=
  if is_empty part || ((1 <? str_len part) && starts_with (lit "0") part) || negb (vall is_ascii_digit part) then None
  else if (decimal part <=? u64_max)%N then Some (decimal part) else None.
Definition stable_version (value : ustring) : option Release :=
  if 48 <? str_len value then None
  else match split_on 46 value with
       | [major; minor; patch] =>
           match stable_part major, stable_part minor, stable_part patch with
           | Some major, Some minor, Some patch => Some (major, minor, patch)
           | _, _, _ => None
           end
       | _ => None
       end.

(** ** Ordering *)

(** An Update Floor holds a release's numbers. *)
Record Floor := { fl_release : Release }.

(** [Floor::parse]. *)
Definition floor_parse (text : ustring) : result Floor unit :=
  let? version := version_parse text in
  match release version with Some release => Ok {| fl_release := release |} | None => Err tt end.

(** [Floor::admits]: a development version has no order. *)
Definition floor_admits (floor : Floor) (running : Version) : bool :=
  match release running with Some running => release_leb (fl_release floor) running | None => true end.

Record Candidate := { cd_version : Version; cd_floor : option Floor }.

(** [Candidate::new]. *)
Definition candidate_new (version : Version) (floor : option Floor) : result Candidate unit :=
  match release version, floor with
  | Some release, Some floor' =>
      if release_leb (fl_release floor') release then Ok {| cd_version := version; cd_floor := floor |} else Err tt
  | None, None => Ok {| cd_version := version; cd_floor := floor |}
  | _, _ => Err tt
  end.

(** [ordering::Refusal]. *)
Inductive UpdateRefusal := NotNewer | Skipped | BelowFloor (floor : Floor).

(** [admit]. *)
Definition admit_version (candidate : Candidate) (running : Version) (pending skipped : option Version) : result unit UpdateRefusal :=
  let version := cd_version candidate in
  if bool_decide (skipped = Some version) then Err Skipped
  else
    let installed := running :: option_list pending in
    if vany (λ have, bool_decide (have = version)) installed then Err NotNewer
    else match release version with
         | None => Ok tt
         | Some r =>
             if vany (λ have, match release have with Some have => release_ltb r have | None => false end) installed then Err NotNewer
             else match cd_floor candidate with
                  | Some floor => if negb (floor_admits floor running) then Err (BelowFloor floor) else Ok tt
                  | None => Ok tt
                  end
         end.

(** ** Feed checks ([check.rs]) *)

Inductive CheckFailure := Check_Network | Check_Proxy | Check_Verification | Check_SystemTooOld.
Inductive UpdateCheck :=
  | Check_Disabled
  | Check_Never
  | Check_Succeeded (at_ : N)
  | Check_Failing (since : N) (last_success : option N) (reason : CheckFailure).

(** [check::next]. *)
Definition check_next (previous : UpdateCheck) (at_ : N) (outcome : result unit CheckFailure) : UpdateCheck :=
  match outcome with
  | Ok _ => Check_Succeeded at_
  | Err reason =>
      let '(since, last_success) :=
        match previous with
        | Check_Failing since last_success _ => (since, last_success)
        | Check_Succeeded success => (at_, Some success)
        | Check_Never | Check_Disabled => (at_, None)
        end in
      Check_Failing since last_success reason
  end.

(** ** Text and numbers determine each other *)

Definition digits (l : ustring) : Prop := Forall (λ c, is_ascii_digit c = true) l.

Lemma decimal_snoc l d : decimal (l ++ [d]) = (decimal l * 10 + (d - 48))%N.
Proof. unfold decimal. by rw foldl_app. Qed.

Lemma digit_range d : is_ascii_digit d = true → (48 <= d <= 57)%N.
Proof. unfold is_ascii_digit, in_range. rw andb_true_iff !N.leb_le. lia. Qed.

Lemma decimal_positive l : digits l → l ≠ [] → head l ≠ Some 48%N → (0 < decimal l)%N.
Proof.
  intros Hd Hne Hh. induction l as [|d l IH] using rev_ind; [done|]. apply Forall_app in Hd as [Hl Hd].
  apply Forall_cons in Hd as [Hd%digit_range _]. rw decimal_snoc. destruct l as [|c l].
  - simpl in *. assert (d ≠ 48%N) by congruence. unfold decimal. simpl. lia.
  - specialize (IH Hl ltac:(done) Hh). lia.
Qed.

(** Digits without a leading zero are determined by their value. *)
Lemma decimal_inj l : ∀ m,
  digits l → digits m → head l ≠ Some 48%N → head m ≠ Some 48%N → decimal l = decimal m → l = m.
Proof.
  induction l as [|d l IH] using rev_ind; intros m Hl Hm H0 H1 E.
  { destruct m as [|c m]; [done|]. pose proof (decimal_positive (c :: m) Hm ltac:(done) H1). change (decimal []) with 0%N in E. lia. }
  destruct m as [|e m _] using rev_ind.
  { pose proof (decimal_positive (l ++ [d]) Hl ltac:(by destruct l) H0). change (decimal []) with 0%N in E. lia. }
  apply Forall_app in Hl as [Hl Hd]. apply Forall_app in Hm as [Hm He].
  apply Forall_cons in Hd as [Hd%digit_range _]. apply Forall_cons in He as [He%digit_range _]. rw !decimal_snoc in E.
  assert (d = e) as -> by lia. f_equal. apply IH; [done|done| | |lia]; [by destruct l|by destruct m].
Qed.

Lemma decimal_u64_inj a b n : decimal_u64 a = Some n → decimal_u64 b = Some n → a = b.
Proof.
  assert (∀ t n, decimal_u64 t = Some n → digits t ∧ t ≠ [] ∧ decimal t = n ∧ (t = lit "0" ∨ head t ≠ Some 48%N)) as Hinv.
  { intros t m. unfold decimal_u64. destruct (_ && _) eqn:E; [|done]. rw !andb_true_iff negb_true_iff orb_true_iff bool_decide_eq_true in E.
    destruct E as [[Hne Hd] Hc]. destruct (_ <=? _)%N; [|done]. intros [= <-].
    split; [unfold digits; apply Forall_forall; intros c Hin; unfold vall in Hd; rw forallb_forall in Hd; by apply Hd, list_elem_of_In|].
    split; [by intros ->|]. split; [done|]. destruct Hc as [Hc|Hc%negb_true_iff]; [by left|right].
    destruct t as [|c t]; [done|]. intros [= ->]. done. }
  intros Ha Hb. destruct (Hinv _ _ Ha) as (Da & Na & Va & Ca), (Hinv _ _ Hb) as (Db & Nb & Vb & Cb).
  destruct Ca as [->|Ca], Cb as [->|Cb]; [done| | |].
  - pose proof (decimal_positive b Db Nb Cb). change (decimal (lit "0")) with 0%N in Va. lia.
  - pose proof (decimal_positive a Da Na Ca). change (decimal (lit "0")) with 0%N in Vb. lia.
  - apply decimal_inj; congruence.
Qed.

Lemma split_on_cons c s : ∃ piece pieces, split_on c s = piece :: pieces.
Proof.
  destruct s as [|d s]; cbn [split_on]; [by eexists _, _|]. destruct (d =? c)%N; [by eexists _, _|].
  destruct (split_on c s); by eexists _, _.
Qed.

Lemma split_on_inj c s : ∀ t, split_on c s = split_on c t → s = t.
Proof.
  induction s as [|d s IH]; intros [|e t]; cbn [split_on]; [done| | |].
  - destruct (e =? c)%N; destruct (split_on_cons c t) as (p & ps & ->); intros [=].
  - destruct (d =? c)%N; destruct (split_on_cons c s) as (p & ps & ->); intros [=].
  - destruct (split_on_cons c s) as (p & ps & Es), (split_on_cons c t) as (q & qs & Et).
    destruct (N.eqb_spec d c) as [->|Hd], (N.eqb_spec e c) as [->|He].
    + intros [= E]. f_equal. by apply IH.
    + rw Et. intros [=].
    + rw Es. intros [=].
    + rw Es Et. intros [= -> -> ->]. f_equal. apply IH. congruence.
Qed.

Lemma release_inj a b r : release a = Some r → release b = Some r → a = b.
Proof.
  unfold release, release_parts. destruct a as [a], b as [b]. cbn [vs_text].
  destruct (split_on 46 a) as [|a1 [|a2 [|a3 [|]]]] eqn:Ea; try done.
  destruct (split_on 46 b) as [|b1 [|b2 [|b3 [|]]]] eqn:Eb; try done.
  destruct (decimal_u64 a1) as [n1|] eqn:A1; [|done]. destruct (decimal_u64 a2) as [n2|] eqn:A2; [|done].
  destruct (decimal_u64 a3) as [n3|] eqn:A3; [|done]. intros [= <-].
  destruct (decimal_u64 b1) as [m1|] eqn:B1; [|done]. destruct (decimal_u64 b2) as [m2|] eqn:B2; [|done].
  destruct (decimal_u64 b3) as [m3|] eqn:B3; [|done]. intros [= -> -> ->]. f_equal. apply (split_on_inj 46).
  rw Ea Eb (decimal_u64_inj _ _ _ A1 B1) (decimal_u64_inj _ _ _ A2 B2) (decimal_u64_inj _ _ _ A3 B3). done.
Qed.

(** The order of releases. *)
Definition release_lt (a b : Release) : Prop := release_ltb a b = true.
Lemma release_total a b : release_ltb a b = false → a = b ∨ release_lt b a.
Proof.
  destruct a as [[a1 a2] a3], b as [[b1 b2] b3]. unfold release_lt, release_ltb.
  rw !orb_false_iff !andb_false_iff !orb_true_iff !andb_true_iff !orb_false_iff !andb_false_iff !orb_true_iff !andb_true_iff.
  rw !N.ltb_lt !N.ltb_ge !N.eqb_neq !N.eqb_eq.
  intros [H1 H2]. destruct (decide (a1 = b1)) as [->|]; [|right; lia]. destruct (decide (a2 = b2)) as [->|]; [|right; lia].
  destruct (decide (a3 = b3)) as [->|]; [by left|right; lia].
Qed.
Lemma release_lt_spec a1 a2 a3 b1 b2 b3 :
  release_lt (a1, a2, a3) (b1, b2, b3) ↔ (a1 < b1 ∨ a1 = b1 ∧ (a2 < b2 ∨ a2 = b2 ∧ a3 < b3))%N.
Proof. unfold release_lt, release_ltb. by rw !orb_true_iff !andb_true_iff !orb_true_iff !andb_true_iff !N.ltb_lt !N.eqb_eq. Qed.
Lemma release_asym a b : release_lt a b → release_ltb b a = false.
Proof.
  intros H. apply not_true_iff_false. intros H'. change (release_lt b a) in H'. destruct a as [[a1 a2] a3], b as [[b1 b2] b3].
  rw release_lt_spec in H. rw release_lt_spec in H'. lia.
Qed.
Lemma release_lt_irrefl a : ¬ release_lt a a.
Proof.
  destruct a as [[a1 a2] a3]. unfold release_lt, release_ltb. by rw !N.ltb_irrefl !N.eqb_refl.
Qed.

(** What a Core installs is strictly newer than all it has: a candidate is let through
    exactly when it is not the skipped version, and neither the running nor the pending one;
    and, when it is a release, when its numbers are above those of every installed release
    and the running release is not below its floor. *)
Theorem admit_newer candidate running pending skipped :
  admit_version candidate running pending skipped = Ok tt ↔
  skipped ≠ Some (cd_version candidate) ∧
  (∀ have, have ∈ running :: option_list pending → have ≠ cd_version candidate) ∧
  ∀ r, release (cd_version candidate) = Some r →
    (∀ have h, have ∈ running :: option_list pending → release have = Some h → release_lt h r) ∧
    (∀ floor h, cd_floor candidate = Some floor → release running = Some h → h = fl_release floor ∨ release_lt (fl_release floor) h).
Proof.
  unfold admit_version. set (installed := running :: option_list pending).
  destruct (bool_decide_reflect (skipped = Some (cd_version candidate))) as [E|E]; [split; [done|by intros [? _]]|].
  destruct (vany (λ have, bool_decide (have = cd_version candidate)) installed) eqn:Ei.
  { split; [done|]. intros (_ & Hi & _). apply vany_true in Ei as (have & Hin & Eh%bool_decide_eq_true). by destruct (Hi have Hin). }
  rw vany_false in Ei. assert (∀ have, have ∈ installed → have ≠ cd_version candidate) as Hi.
  { intros have Hin. specialize (Ei have Hin). by apply bool_decide_eq_false in Ei. }
  destruct (release (cd_version candidate)) as [r|] eqn:Er; [|split; [by intros _|done]].
  assert (vany (λ have, match release have with Some have => release_ltb r have | None => false end) installed = false ↔
    ∀ have h, have ∈ installed → release have = Some h → release_lt h r) as Hn.
  { rw vany_false. split.
    - intros H have h Hin Eh. specialize (H have Hin). rw Eh in H. apply release_total in H as [->|]; [|done].
      destruct (Hi have Hin). by eapply release_inj.
    - intros H have Hin. destruct (release have) as [h|] eqn:Eh; [|done]. specialize (H have h Hin Eh).
      by apply release_asym. }
  destruct (vany _ installed) eqn:Ev.
  { split; [done|]. intros (_ & _ & H). specialize (H r eq_refl) as [H _]. apply Hn in H. congruence. }
  assert (∀ h, release running = Some h → ∀ floor, release_leb (fl_release floor) h = true ↔ h = fl_release floor ∨ release_lt (fl_release floor) h) as Hf.
  { intros h _ floor. unfold release_leb. rw negb_true_iff. split; [apply release_total|].
    intros [->|H]; [apply not_true_iff_false, release_lt_irrefl|by apply release_asym]. }
  split.
  - intros Ha. split; [done|]. split; [done|]. intros r' [= <-]. split; [by apply Hn|]. intros floor h Ec Eh. rw Ec in Ha.
    unfold floor_admits in Ha. rw Eh in Ha. apply (Hf h Eh). by destruct (release_leb _ _).
  - intros (_ & _ & H). specialize (H r eq_refl) as [_ H]. destruct (cd_floor candidate) as [floor|]; [|done].
    unfold floor_admits. destruct (release running) as [h|] eqn:Eh; [|done]. specialize (H floor h eq_refl eq_refl).
    by apply (Hf h eq_refl) in H as ->.
Qed.
