(* ===== verification/UpdateHistory.v ===== *)
(** * Release age and reminders

    [src/updates/policy.rs]: what the desktop remembers of a pending release, how old it is,
    and when a reminder is due. Theorems: [next_change] is the first time at which anything
    shown changes, and later releases never postpone a pending deadline. *)
From Stdlib Require Import Lia.
From S2P Require Import Prelude.
From S2P Require Import Text.
From S2P Require Import Bytes.
From S2P Require Import UpdateVersions.

Definition DAY : N := 86400.

Inductive CheckInterval := Hourly | EverySixHours | Daily.
Definition interval_seconds (i : CheckInterval) : N :=
  match i with Hourly => 3600 | EverySixHours => 21600 | Daily => DAY end.

Record UpdatePreferences := { up_automatic_downloads : bool; up_check_interval : CheckInterval }.
Definition preferences_default : UpdatePreferences := {| up_automatic_downloads := true; up_check_interval := Daily |}.

Inductive UpdateStage := Stage_Optional | Stage_Warning | Stage_Overdue.
#[export] Instance UpdateStage_eq_dec : EqDecision UpdateStage.
Proof. solve_decision. Defined.

Record RecentUpdate := { ru_text : ustring; ru_at : N }.
#[export] Instance RecentUpdate_eq_dec : EqDecision RecentUpdate.
Proof. solve_decision. Defined.

Record UpdateHistory := {
  uh_version : option ustring; uh_latest_version : option ustring; uh_published_at : N; uh_high_water : N;
  uh_last_reminder : option N; uh_reminder_stage : UpdateStage; uh_last_check : option N; uh_notes_read : option ustring;
  uh_launched : option ustring; uh_recent : list RecentUpdate
}.
#[export] Instance UpdateHistory_eq_dec : EqDecision UpdateHistory.
Proof. solve_decision. Defined.
Definition history_default : UpdateHistory :=
  {| uh_version := None; uh_latest_version := None; uh_published_at := 0; uh_high_water := 0; uh_last_reminder := None;
     uh_reminder_stage := Stage_Optional; uh_last_check := None; uh_notes_read := None; uh_launched := None; uh_recent := [] |}.

Definition RECENT_LIMIT : nat := 4.

Definition u64_saturating_sub (a b : N) : N := a - b.

Definition set_uh_pending (version latest : option ustring) (published_at : N) (h : UpdateHistory) : UpdateHistory :=
  Build_UpdateHistory version latest published_at (uh_high_water h) (uh_last_reminder h) (uh_reminder_stage h)
    (uh_last_check h) (uh_notes_read h) (uh_launched h) (uh_recent h).
Definition set_uh_high_water (mark : N) (h : UpdateHistory) : UpdateHistory :=
  Build_UpdateHistory (uh_version h) (uh_latest_version h) (uh_published_at h) mark (uh_last_reminder h) (uh_reminder_stage h)
    (uh_last_check h) (uh_notes_read h) (uh_launched h) (uh_recent h).
Definition set_uh_reminder (last : option N) (stage : UpdateStage) (h : UpdateHistory) : UpdateHistory :=
  Build_UpdateHistory (uh_version h) (uh_latest_version h) (uh_published_at h) (uh_high_water h) last stage
    (uh_last_check h) (uh_notes_read h) (uh_launched h) (uh_recent h).
Definition set_uh_notes (last_check : option N) (notes launched : option ustring) (recent : list RecentUpdate) (h : UpdateHistory) : UpdateHistory :=
  Build_UpdateHistory (uh_version h) (uh_latest_version h) (uh_published_at h) (uh_high_water h) (uh_last_reminder h)
    (uh_reminder_stage h) last_check notes launched recent.

(** [UpdateHistory::clear]. *)
Definition history_clear (h : UpdateHistory) : UpdateHistory :=
  set_uh_notes (uh_last_check h) (uh_notes_read h) (uh_launched h) (uh_recent h) history_default.

(** [UpdateHistory::observe]. *)
Definition observe_release (installed version : ustring) (published_at now : N) (h : UpdateHistory) : UpdateHistory :=
  match stable_version version with
  | None => h
  | Some version_parts =>
      let installed_parts := stable_version installed in
      let reached (parts : Release) := match installed_parts with Some installed => release_leb parts installed | None => false end in
      if reached version_parts then h
      else
        let settled := match uh_version h ≫= stable_version with Some previous => reached previous | None => false end in
        let h := if settled then history_clear h else h in
        let publication := if (published_at =? 0)%N then now else N.min published_at now in
        let published := match uh_version h with None => publication | Some _ => N.min (uh_published_at h) publication end in
        let first := match uh_version h with None => Some version | Some v => Some v end in
        set_uh_high_water (N.max (uh_high_water h) now) (set_uh_pending first (Some version) published h)
  end.

(** [UpdateHistory::pending_version]. *)
Definition pending_version (installed : ustring) (h : UpdateHistory) : option ustring :=
  version ← uh_latest_version h;
  pending ← stable_version version;
  if match stable_version installed with Some installed => release_leb pending installed | None => false end then None
  else Some version.

(** [UpdateHistory::stage]. *)
Definition history_stage (now : N) (h : UpdateHistory) : UpdateHistory * UpdateStage :=
  let h := set_uh_high_water (N.max (uh_high_water h) now) h in
  (h, match uh_version h with
      | None => Stage_Optional
      | Some _ =>
          let age := u64_saturating_sub (uh_high_water h) (uh_published_at h) in
          if (2 * DAY <=? age)%N then Stage_Overdue else if (DAY <=? age)%N then Stage_Warning else Stage_Optional
      end).

(** [UpdateHistory::reminder_due]. *)
Definition reminder_due (now : N) (h : UpdateHistory) : UpdateHistory * bool :=
  let '(h, stage) := history_stage now h in
  (h, if bool_decide (stage = Stage_Optional) then false
      else if negb (bool_decide (stage = uh_reminder_stage h)) then true
      else match uh_last_reminder h with
           | None => true
           | Some last => (DAY <=? u64_saturating_sub (uh_high_water h) last)%N
           end).

(** [\[..\].into_iter().flatten().min()]. *)
Definition least (moments : list (option N)) : option N :=
  foldr (λ m acc, match m, acc with Some m, Some a => Some (N.min m a) | Some m, None => Some m | None, acc => acc end) None moments.

(** [UpdateHistory::next_change]. *)
Definition next_change (now : N) (h : UpdateHistory) : UpdateHistory * option N :=
  let '(h, stage) := history_stage now h in
  match uh_version h with
  | None => (h, None)
  | Some _ =>
      let ahead (moment : N) := if (uh_high_water h <? moment)%N then Some moment else None in
      let reminder :=
        match uh_last_reminder h with
        | Some last =>
            if negb (bool_decide (stage = Stage_Optional)) && bool_decide (stage = uh_reminder_stage h)
            then ahead (u64_saturating_add last DAY) else None
        | None => None
        end in
      (h, least [ahead (u64_saturating_add (uh_published_at h) DAY); ahead (u64_saturating_add (uh_published_at h) (2 * DAY)); reminder])
  end.

(** [UpdateHistory::reminded]. *)
Definition reminded (now : N) (h : UpdateHistory) : UpdateHistory :=
  let '(h, stage) := history_stage now h in set_uh_reminder (Some (uh_high_water h)) stage h.

(** [newer]. *)
Definition newer (version than : ustring) : bool :=
  match stable_version version, stable_version than with
  | Some version, Some than => release_ltb than version
  | _, _ => negb (bool_decide (version = than))
  end.

(** [UpdateHistory::record]. *)
Definition record_recent (text : ustring) (at_ : N) (h : UpdateHistory) : UpdateHistory :=
  set_uh_notes (uh_last_check h) (uh_notes_read h) (uh_launched h)
    (take RECENT_LIMIT ({| ru_text := text; ru_at := at_ |} :: uh_recent h)) h.

(** [UpdateHistory::launched]. *)
Definition history_launched (installed : ustring) (now : N) (h : UpdateHistory) : UpdateHistory :=
  let h := set_uh_notes (uh_last_check h) (Some (default installed (uh_notes_read h))) (uh_launched h) (uh_recent h) h in
  let h := if match uh_launched h with Some previous => newer installed previous | None => false end
           then record_recent (lit "SpaceTerm updated to " ++ installed) now h else h in
  set_uh_notes (uh_last_check h) (uh_notes_read h) (Some installed) (uh_recent h) h.

(** [UpdateHistory::notes_unread]. *)
Definition notes_unread (installed : ustring) (h : UpdateHistory) : bool :=
  match uh_notes_read h with Some read => newer installed read | None => false end.

(** [UpdateHistory::read_notes]. *)
Definition read_notes (installed : ustring) (h : UpdateHistory) : UpdateHistory :=
  if match uh_notes_read h with Some read => newer installed read | None => true end
  then set_uh_notes (uh_last_check h) (Some installed) (uh_launched h) (uh_recent h) h else h.

(** ** When something changes *)

(** What the desktop shows at a time: the stage, and whether a reminder is due. *)
Definition shown (t : N) (h : UpdateHistory) : UpdateStage * bool := ((history_stage t h).2, (reminder_due t h).2).

(** The stage of a release of a given age. *)
Definition stage_of (age : N) : UpdateStage :=
  if (2 * DAY <=? age)%N then Stage_Overdue else if (DAY <=? age)%N then Stage_Warning else Stage_Optional.

Definition due_at (stage : UpdateStage) (mark : N) (h : UpdateHistory) : bool :=
  negb (bool_decide (stage = Stage_Optional)) &&
  (negb (bool_decide (stage = uh_reminder_stage h)) || match uh_last_reminder h with None => true | Some last => (DAY <=? mark - last)%N end).

Lemma shown_spec t h version :
  uh_version h = Some version →
  let mark := N.max (uh_high_water h) t in let stage := stage_of (mark - uh_published_at h) in
  shown t h = (stage, due_at stage mark h).
Proof.
  intros Hv mark stage. unfold shown, reminder_due, history_stage, due_at. simpl. rw Hv. fold mark.
  change (if (2 * DAY <=? u64_saturating_sub mark (uh_published_at h))%N then _ else _) with stage. f_equal.
  destruct (bool_decide (stage = Stage_Optional)); [done|]. cbn [negb andb]. by destruct (bool_decide (stage = uh_reminder_stage h)).
Qed.

Lemma stage_of_cases age :
  (age < DAY)%N ∧ stage_of age = Stage_Optional ∨ (DAY <= age < 2 * DAY)%N ∧ stage_of age = Stage_Warning ∨
  (2 * DAY <= age)%N ∧ stage_of age = Stage_Overdue.
Proof.
  unfold stage_of. destruct (N.leb_spec (2 * DAY) age); [right; right; split; [done|done]|].
  destruct (N.leb_spec DAY age); [right; left|left]; split; [lia|done|lia|done].
Qed.

(** The moments that [next_change] considers, each if it lies ahead of the mark. *)
Definition ahead (mark moment : N) : option N := if (mark <? moment)%N then Some moment else None.

Lemma least_spec l n :
  least l = Some n ↔ Some n ∈ l ∧ ∀ m, Some m ∈ l → (n <= m)%N.
Proof.
  revert n. induction l as [|o l IH]; intros n; cbn [least foldr].
  { split; [done|]. by intros [?%not_elem_of_nil _]. }
  fold (least l). destruct o as [m|].
  - destruct (least l) as [a|] eqn:E.
    + pose proof (proj1 (IH a) eq_refl) as [Ha Hm]. split.
      * intros [= <-]. split.
        { destruct (N.min_spec m a) as [[_ ->]|[_ ->]]; [by left|by right]. }
        intros m' [[= ->]|Hm']%elem_of_cons; [lia|]. specialize (Hm m' Hm'). lia.
      * intros [Hn Hle]. f_equal. pose proof (Hle m ltac:(by left)). pose proof (Hle a ltac:(by right)).
        apply elem_of_cons in Hn as [[= ->]|Hn]; [lia|]. specialize (Hm n Hn). lia.
    + assert (∀ m', Some m' ∉ l) as Hno.
      { intros m' Hin. clear IH. revert E Hin. induction l as [|o l IH]; [by intros _ ?%not_elem_of_nil|]. cbn [least foldr]. fold (least l).
        destruct o as [x|]; [by destruct (least l)|]. intros E [?|Hin]%elem_of_cons; [done|by apply IH]. }
      split; [intros [= ->]; split; [by left|]|].
      * intros m' [[= ->]|Hin]%elem_of_cons; [done|by destruct (Hno m')].
      * intros [[[= ->]|Hin]%elem_of_cons _]; [done|by destruct (Hno n)].
  - rw IH. split; intros [Hn Hle]; (split; [|intros m Hm]).
    + by right.
    + apply elem_of_cons in Hm as [?|?]; [done|auto].
    + by apply elem_of_cons in Hn as [?|?].
    + apply Hle. by right.
Qed.

Lemma least_None l m : least l = None → Some m ∉ l.
Proof.
  induction l as [|o l IH]; [by intros _ ?%not_elem_of_nil|]. cbn [least foldr]. fold (least l).
  destruct o as [x|]; [by destruct (least l)|]. intros E [?|Hin]%elem_of_cons; [done|by apply IH].
Qed.

(** Before every moment ahead nothing changes, and at each of them something does. *)
Lemma shown_between h version mark t :
  uh_version h = Some version → uh_high_water h = mark → (mark <= t)%N →
  (∀ m, ahead mark (uh_published_at h + DAY) = Some m → (t < m)%N) →
  (∀ m, ahead mark (uh_published_at h + 2 * DAY) = Some m → (t < m)%N) →
  (∀ last m, uh_last_reminder h = Some last → stage_of (mark - uh_published_at h) ≠ Stage_Optional →
     stage_of (mark - uh_published_at h) = uh_reminder_stage h → ahead mark (last + DAY) = Some m → (t < m)%N) →
  shown t h = shown mark h.
Proof.
  intros Hv Hm Ht H1 H2 H3. rw !(shown_spec _ _ _ Hv) Hm N.max_id. replace (N.max mark t) with t by lia.
  assert (stage_of (t - uh_published_at h) = stage_of (mark - uh_published_at h)) as Es.
  { unfold ahead in H1, H2. destruct (N.ltb_spec mark (uh_published_at h + DAY)); [specialize (H1 _ eq_refl)|];
      (destruct (N.ltb_spec mark (uh_published_at h + 2 * DAY)); [specialize (H2 _ eq_refl)|]); unfold DAY in *;
      destruct (stage_of_cases (t - uh_published_at h)) as [[? ->]|[[? ->]|[? ->]]],
        (stage_of_cases (mark - uh_published_at h)) as [[? ->]|[[? ->]|[? ->]]]; unfold DAY in *; done || lia. }
  rw Es. f_equal. set (stage := stage_of (mark - uh_published_at h)) in *. unfold due_at.
  destruct (bool_decide_reflect (stage = Stage_Optional)) as [|Ho]; [done|]. cbn [negb andb].
  destruct (bool_decide_reflect (stage = uh_reminder_stage h)) as [Eq|]; [|done]. cbn [negb orb].
  destruct (uh_last_reminder h) as [last|]; [|done]. specialize (H3 last (last + DAY)%N eq_refl Ho Eq).
  unfold ahead in H3. destruct (N.ltb_spec mark (last + DAY)).
  - specialize (H3 eq_refl). destruct (N.leb_spec DAY (t - last)), (N.leb_spec DAY (mark - last)); lia || done.
  - destruct (N.leb_spec DAY (t - last)), (N.leb_spec DAY (mark - last)); lia || done.
Qed.

Lemma shown_at_moment h version mark m :
  uh_version h = Some version → uh_high_water h = mark →
  ahead mark (uh_published_at h + DAY) = Some m ∨ ahead mark (uh_published_at h + 2 * DAY) = Some m ∨
  (∃ last, uh_last_reminder h = Some last ∧ stage_of (mark - uh_published_at h) ≠ Stage_Optional ∧
     stage_of (mark - uh_published_at h) = uh_reminder_stage h ∧ ahead mark (last + DAY) = Some m) →
  (mark < m)%N ∧ shown m h ≠ shown mark h.
Proof.
  intros Hv Hm Hcase. assert ((mark < m)%N ∧ (shown m h = shown mark h → False)) as [? ?]; [|by split].
  rw !(shown_spec _ _ _ Hv) Hm N.max_id. unfold ahead in Hcase. destruct Hcase as [H1|[H2|(last & Hl & Ho & Eq & H3)]].
  - destruct (N.ltb_spec mark (uh_published_at h + DAY)); [|done]. injection H1 as <-. split; [done|].
    replace (N.max mark (uh_published_at h + DAY)) with (uh_published_at h + DAY)%N by lia. intros [= Es _]. revert Es.
    destruct (stage_of_cases (uh_published_at h + DAY - uh_published_at h)) as [[? ->]|[[? ->]|[? ->]]]; [unfold DAY in *; lia| |];
      destruct (stage_of_cases (mark - uh_published_at h)) as [[? ->]|[[? ->]|[? ->]]]; unfold DAY in *; done || lia.
  - destruct (N.ltb_spec mark (uh_published_at h + 2 * DAY)); [|done]. injection H2 as <-. split; [done|].
    replace (N.max mark (uh_published_at h + 2 * DAY)) with (uh_published_at h + 2 * DAY)%N by lia. intros [= Es _]. revert Es.
    destruct (stage_of_cases (uh_published_at h + 2 * DAY - uh_published_at h)) as [[? ->]|[[? ->]|[? ->]]]; [unfold DAY in *; lia..|];
      destruct (stage_of_cases (mark - uh_published_at h)) as [[? ->]|[[? ->]|[? ->]]]; unfold DAY in *; done || lia.
  - destruct (N.ltb_spec mark (last + DAY)); [|done]. injection H3 as <-. split; [done|].
    replace (N.max mark (last + DAY)) with (last + DAY)%N by lia. intros [= Es Ed]. revert Ed. rw Es. unfold due_at. rw Hl Eq.
    rw Eq in Ho. rw (bool_decide_eq_false_2 (uh_reminder_stage h = Stage_Optional)) // (bool_decide_eq_true_2 (_ = uh_reminder_stage h)) //.
    cbn [negb andb orb]. destruct (N.leb_spec DAY (last + DAY - last)), (N.leb_spec DAY (mark - last)); unfold DAY in *; done || lia.
Qed.

Lemma next_change_spec now h version :
  uh_version h = Some version → (uh_published_at h + 2 * DAY <= u64_max)%N →
  (∀ last, uh_last_reminder h = Some last → (last + DAY <= u64_max)%N) →
  let mark := N.max (uh_high_water h) now in let stage := stage_of (mark - uh_published_at h) in
  ∃ reminder, (next_change now h).2 = least [ahead mark (uh_published_at h + DAY); ahead mark (uh_published_at h + 2 * DAY); reminder] ∧
    ∀ m, reminder = Some m ↔ ∃ last, uh_last_reminder h = Some last ∧ stage ≠ Stage_Optional ∧ stage = uh_reminder_stage h ∧
      ahead mark (last + DAY) = Some m.
Proof.
  intros Hv Hp Hl mark stage. unfold next_change, history_stage. cbn [set_uh_high_water uh_version uh_high_water uh_published_at uh_last_reminder uh_reminder_stage].
  rw Hv. fold mark. change (if (2 * DAY <=? u64_saturating_sub mark (uh_published_at h))%N then _ else _) with stage. cbn [snd].
  unfold u64_saturating_add. rw !N.min_l; [lia|unfold DAY in *; lia|]. eexists. split; [reflexivity|]. intros m.
  destruct (uh_last_reminder h) as [last|]; [|split; [done|by intros (? & ? & _)]]. specialize (Hl last eq_refl). rw N.min_l //.
  destruct (bool_decide_reflect (stage = Stage_Optional)) as [E|E]; cbn [negb andb].
  { split; [done|]. by intros (? & _ & ? & _). }
  destruct (bool_decide_reflect (stage = uh_reminder_stage h)) as [E'|E'].
  - split; [intros H; by exists last|]. by intros (? & [= <-] & _ & _ & H).
  - split; [done|]. by intros (? & _ & _ & ? & _).
Qed.

(** The desktop sleeps exactly as long as nothing changes: from a time on, stage and due
    reminder stay what they are until the time [next_change] answers, at that time one of
    them is different, and when it answers none they never change by themselves; also when
    the clock was set back. *)
Theorem next_change_first now h :
  (uh_published_at h + 2 * DAY <= u64_max)%N → (∀ last, uh_last_reminder h = Some last → (last + DAY <= u64_max)%N) →
  let h' := (next_change now h).1 in
  match (next_change now h).2 with
  | Some next => (now < next)%N ∧ (∀ t, (now <= t < next)%N → shown t h' = shown now h') ∧ shown next h' ≠ shown now h'
  | None => ∀ t, (now <= t)%N → shown t h' = shown now h'
  end.
Proof.
  intros Hp Hl h'. set (mark := N.max (uh_high_water h) now).
  assert (h' = set_uh_high_water mark h) as Eh by (unfold h', next_change, history_stage; simpl; by destruct (uh_version h)).
  destruct (uh_version h) as [version|] eqn:Hv.
  2: { assert ((next_change now h).2 = None) as -> by (unfold next_change, history_stage; simpl; by rw Hv).
       intros t _. rw Eh. unfold shown, reminder_due, history_stage. simpl. by rw Hv. }
  destruct (next_change_spec now h version Hv Hp Hl) as (reminder & -> & Hr). fold mark in Hr |- *.
  assert (uh_version h' = Some version) as Hv' by (rw Eh; exact Hv).
  assert (uh_high_water h' = mark) as Hm' by by rw Eh.
  assert (shown now h' = shown mark h') as ->.
  { rw !(shown_spec _ _ _ Hv') Hm' N.max_id. by replace (N.max mark now) with mark by lia. }
  assert (∀ t, (t <= mark)%N → shown t h' = shown mark h') as Hlow.
  { intros t Ht. rw !(shown_spec _ _ _ Hv') Hm' N.max_id. by replace (N.max mark t) with mark by lia. }
  assert (∀ t, (∀ m, Some m ∈ [ahead mark (uh_published_at h + DAY); ahead mark (uh_published_at h + 2 * DAY); reminder] → (t < m)%N) →
    shown t h' = shown mark h') as Hkeep.
  { intros t Ht. destruct (N.le_ge_cases t mark) as [|Hge]; [by apply Hlow|].
    apply (shown_between _ version); [done|done|done|..]; rw Eh; cbn [set_uh_high_water uh_published_at uh_last_reminder uh_reminder_stage].
    - intros m E. apply Ht. rw E. by left.
    - intros m E. apply Ht. rw E. right. by left.
    - intros last m E1 E2 E3 E4. assert (reminder = Some m) as Er by (apply Hr; by exists last).
      apply Ht. rw Er. right. right. by left. }
  destruct (least _) as [next|] eqn:En.
  - apply least_spec in En as [Hin Hmin]. destruct (shown_at_moment h' version mark next Hv' Hm') as [Hlt Hne].
    { rw Eh. cbn [set_uh_high_water uh_published_at uh_last_reminder uh_reminder_stage]. rw !elem_of_cons elem_of_nil in Hin.
      destruct Hin as [->|[->|[E|[]]]]; [by left|by right; left|right; right; by apply Hr]. }
    split; [lia|]. split; [|done]. intros t Ht. apply Hkeep. intros m Hm. specialize (Hmin m Hm). lia.
  - intros t _. apply Hkeep. intros m Hm. by destruct (least_None _ m En).
Qed.

(** ** Later releases do not postpone *)

Definition observe_all (installed : ustring) (seen : list (ustring * N * N)) (h : UpdateHistory) : UpdateHistory :=
  foldl (λ h '(version, published_at, now), observe_release installed version published_at now h) h seen.

(** Not yet installed, or not comparable. *)
Definition unsettled (installed : ustring) (h : UpdateHistory) : Prop :=
  ∃ version, uh_version h = Some version ∧
    match stable_version version, stable_version installed with
    | Some previous, Some installed => release_ltb installed previous = true
    | _, _ => True
    end.

Definition stage_rank (s : UpdateStage) : N := match s with Stage_Optional => 0 | Stage_Warning => 1 | Stage_Overdue => 2 end.

Lemma stage_of_mono a b : (a <= b)%N → (stage_rank (stage_of a) <= stage_rank (stage_of b))%N.
Proof.
  intros Hab. destruct (stage_of_cases a) as [[? ->]|[[? ->]|[? ->]]], (stage_of_cases b) as [[? ->]|[[? ->]|[? ->]]];
    unfold DAY in *; simpl; lia.
Qed.

Lemma observe_unsettled installed version published_at now h :
  unsettled installed h →
  let h' := observe_release installed version published_at now h in
  uh_version h' = uh_version h ∧ (uh_published_at h' <= uh_published_at h)%N ∧ (uh_high_water h <= uh_high_water h')%N.
Proof.
  intros (v & Hv & Hu). unfold observe_release. destruct (stable_version version) as [parts|]; [|cbn; auto with lia].
  destruct (match stable_version installed with Some _ => _ | None => false end); [cbn; auto with lia|]. rw Hv. cbn [mbind option_bind].
  assert (match stable_version v with Some previous => match stable_version installed with Some installed => release_leb previous installed | None => false end | None => false end = false) as ->.
  { destruct (stable_version v), (stable_version installed); try done. unfold release_leb. by rw Hu. }
  cbn. rw Hv. split; [done|]. lia.
Qed.

(** A deadline is never postponed: while the first release seen is not installed, whatever
    further releases are found, with whatever dates, at whatever times, the pending release
    stays the first one and its stage at any later time is at least what it would have been. *)
Theorem deadline_kept installed h seen :
  unsettled installed h →
  let h' := observe_all installed seen h in
  uh_version h' = uh_version h ∧
  ∀ t, (stage_rank (history_stage t h).2 <= stage_rank (history_stage t h').2)%N.
Proof.
  intros Hu. assert (let h' := observe_all installed seen h in
    uh_version h' = uh_version h ∧ (uh_published_at h' <= uh_published_at h)%N ∧ (uh_high_water h <= uh_high_water h')%N) as (Hv & Hp & Hm).
  { revert h Hu. induction seen as [|[[version published_at] now] seen IH]; intros h Hu; [cbn; auto with lia|].
    destruct (observe_unsettled installed version published_at now h Hu) as (Hv & Hp & Hm).
    destruct (IH (observe_release installed version published_at now h)) as (Hv' & Hp' & Hm').
    { destruct Hu as (v & Ev & Hu). exists v. split; [congruence|done]. }
    change (observe_all installed ((version, published_at, now) :: seen) h) with
      (observe_all installed seen (observe_release installed version published_at now h)).
    split; [congruence|lia]. }
  split; [done|]. intros t. destruct Hu as (v & Ev & _).
  pose proof (shown_spec t h v Ev) as H1. rw Ev in Hv. pose proof (shown_spec t _ v Hv) as H2.
  apply (f_equal fst) in H1, H2. cbn [shown fst] in H1, H2. rw H1 H2. apply stage_of_mono. lia.
Qed.

(** ** Concrete histories *)

Module Sample.
Definition found : UpdateHistory := Eval vm_compute in observe_release (lit "1.0.0") (lit "1.1.0") 1000 2000 history_default.

Lemma next_change_first_witness :
  let h := (next_change 2000 found).1 in
  (uh_published_at found + 2 * DAY <= u64_max)%N ∧ (next_change 2000 found).2 = Some 87400%N ∧ shown 87400 h ≠ shown 2000 h.
Proof.
  cbn zeta. assert ((uh_published_at found + 2 * DAY <= u64_max)%N) as Hp by (apply N.leb_le; reflexivity).
  assert ((next_change 2000 found).2 = Some 87400%N) as E by reflexivity. split; [exact Hp|]. split; [exact E|].
  pose proof (next_change_first 2000 found Hp ltac:(intros last [=])) as H. cbn zeta in H. rw E in H. exact (proj2 (proj2 H)).
Defined.

Lemma deadline_kept_witness :
  unsettled (lit "1.0.0") found ∧
  uh_version (observe_all (lit "1.0.0") [(lit "1.2.0", 50000, 60000)]%N found) = Some (lit "1.1.0").
Proof.
  assert (unsettled (lit "1.0.0") found) as Hu by (exists (lit "1.1.0"); split; [reflexivity|exact (eq_refl true)]).
  split; [exact Hu|]. exact (proj1 (deadline_kept (lit "1.0.0") found [(lit "1.2.0", 50000, 60000)]%N Hu)).
Defined.
End Sample.
