(* ===== verification/Updater.v ===== *)
(** * The desktop's updates

    [src/updates.rs]: [UpdateModel], the state of one cycle of the native updater, and
    [ApplicationUpdates] around it: checks, downloads, confirmations, the launch that waits
    for a required update, and quitting. What the native adapter is asked to do, and what
    the application shows, is the list [us_acts]; its answers are the arguments [Env]. *)
From S2P Require Import Prelude.
From S2P Require Import Text.
From S2P Require Import UpdateVersions.
From S2P Require Import UpdateHistory.

(** ** The model of one cycle *)

Inductive UpdateError := Upd_Unavailable | Upd_Check | Upd_Download | Upd_Verification | Upd_Installation | Upd_ReadOnly.

Inductive UpdateState :=
  | Us_Unavailable
  | Us_Idle
  | Us_Checking
  | Us_UpToDate
  | Us_Available (version : ustring)
  | Us_Downloading (version : ustring) (received total : N)
  | Us_Verifying (version : ustring)
  | Us_Ready (version : ustring)
  | Us_Installing (version : ustring)
  | Us_Failed (error : UpdateError).

Inductive UpdateEvent :=
  | Ev_Available (version : ustring)
  | Ev_ReleaseMetadata (published_at : N) (prepared : bool)
  | Ev_UpToDate
  | Ev_Downloading (received total : N)
  | Ev_Verifying
  | Ev_Ready
  | Ev_Installing
  | Ev_Failed (error : UpdateError)
  | Ev_Finished.

Inductive UpdateNotice := Notice_CheckFinished | Notice_ReadyToInstall | Notice_Failed.
#[export] Instance UpdateNotice_eq_dec : EqDecision UpdateNotice.
Proof. solve_decision. Defined.

Record InstallConfirmation := { ic_generation : N; ic_version : ustring }.

Record UpdateModel := {
  um_state : UpdateState; um_version : option ustring; um_generation : N; um_confirmation_open : bool;
  um_install_authorized : bool; um_cancelling : bool; um_cycle_active : bool; um_manual_check : bool
}.

(** [UpdateModel::new]. *)
Definition model_new (available : bool) : UpdateModel :=
  {| um_state := if available then Us_Idle else Us_Unavailable; um_version := None; um_generation := 0;
     um_confirmation_open := false; um_install_authorized := false; um_cancelling := false; um_cycle_active := false;
     um_manual_check := false |}.

Definition set_um_state (state : UpdateState) (m : UpdateModel) : UpdateModel :=
  Build_UpdateModel state (um_version m) (um_generation m) (um_confirmation_open m) (um_install_authorized m)
    (um_cancelling m) (um_cycle_active m) (um_manual_check m).
Definition set_um_version (version : option ustring) (m : UpdateModel) : UpdateModel :=
  Build_UpdateModel (um_state m) version (um_generation m) (um_confirmation_open m) (um_install_authorized m)
    (um_cancelling m) (um_cycle_active m) (um_manual_check m).
Definition set_um_flags (open authorized cancelling active : bool) (m : UpdateModel) : UpdateModel :=
  Build_UpdateModel (um_state m) (um_version m) (um_generation m) open authorized cancelling active (um_manual_check m).

(** [UpdateModel::begin_check]. *)
Definition begin_check (manual : bool) (m : UpdateModel) : UpdateModel * bool :=
  if um_cycle_active m || match um_state m with Us_Unavailable => true | _ => false end then (m, false)
  else (Build_UpdateModel Us_Checking (um_version m) (u64_wrapping_add (um_generation m) 1) false false false true manual, true).

(** [UpdateModel::confirmation]. *)
Definition confirmation (m : UpdateModel) : UpdateModel * option InstallConfirmation :=
  if um_confirmation_open m || um_cancelling m then (m, None)
  else match um_state m with
       | Us_Ready version =>
           (set_um_flags true (um_install_authorized m) (um_cancelling m) (um_cycle_active m) m,
            Some {| ic_generation := um_generation m; ic_version := version |})
       | _ => (m, None)
       end.

(** The state is ready with the version of the confirmation. *)
Definition ready_for (version : ustring) (state : UpdateState) : bool :=
  match state with Us_Ready v => bool_decide (v = version) | _ => false end.

(** [UpdateModel::confirm]. *)
Definition confirm_install (c : InstallConfirmation) (accepted : bool) (m : UpdateModel) : UpdateModel * bool :=
  if negb (um_generation m =? ic_generation c)%N || negb (um_confirmation_open m) then (m, false)
  else
    let m := set_um_flags false (um_install_authorized m) (um_cancelling m) (um_cycle_active m) m in
    if negb accepted || um_cancelling m || negb (ready_for (ic_version c) (um_state m)) then (m, false)
    else (set_um_state (Us_Installing (ic_version c))
            (set_um_flags (um_confirmation_open m) true (um_cancelling m) (um_cycle_active m) m), true).

(** [UpdateModel::receive]. *)
Definition model_receive (event : UpdateEvent) (m : UpdateModel) : UpdateModel * option UpdateNotice :=
  if negb (um_cycle_active m) then (m, None)
  else
    match event with
    | Ev_Finished =>
        let state :=
          if um_cancelling m || match um_state m with
                                | Us_Checking | Us_Available _ | Us_Downloading _ _ _ | Us_Verifying _ | Us_Ready _ => true
                                | _ => false
                                end
          then Us_Idle else um_state m in
        (set_um_state state (set_um_flags false (um_install_authorized m) false false m), None)
    | _ =>
        if um_cancelling m then (m, None)
        else
          let check_finished := if um_manual_check m then Some Notice_CheckFinished else None in
          match event with
          | Ev_Available version =>
              match um_state m with
              | Us_Checking =>
                  match stable_version version with
                  | None => (set_um_state (Us_Failed Upd_Verification) m, Some Notice_Failed)
                  | Some _ => (set_um_state (Us_Available version) (set_um_version (Some version) m), check_finished)
                  end
              | _ => (m, None)
              end
          | Ev_UpToDate => (set_um_state Us_UpToDate (set_um_version None m), check_finished)
          | Ev_Downloading received total =>
              match um_version m with
              | Some version => (set_um_state (Us_Downloading version received total) m, None)
              | None => (m, None)
              end
          | Ev_Verifying =>
              match um_version m with Some version => (set_um_state (Us_Verifying version) m, None) | None => (m, None) end
          | Ev_Ready =>
              match um_version m with
              | Some version => (set_um_state (Us_Ready version) m, Some Notice_ReadyToInstall)
              | None => (m, None)
              end
          | Ev_Installing =>
              match um_version m with
              | Some version => if um_install_authorized m then (set_um_state (Us_Installing version) m, None) else (m, None)
              | None => (m, None)
              end
          | Ev_Failed error =>
              (set_um_state (Us_Failed error) m,
               if um_manual_check m || bool_decide (is_Some (um_version m)) then Some Notice_Failed else None)
          | _ => (m, None)
          end
    end.

(** ** The application around it *)

Inductive LaunchState := Launch_Open | Launch_Checking | Launch_Required | Launch_Installing.
#[export] Instance LaunchState_eq_dec : EqDecision LaunchState.
Proof. solve_decision. Defined.

(** What the adapter is asked to do, and what the application does. *)
Inductive Act :=
  | Act_Check | Act_Download | Act_Cancel | Act_Install | Act_FinishOnQuit
  | Act_Emit (notice : UpdateNotice)
  | Act_SaveHistory (history : UpdateHistory)
  | Act_ResumeLaunch | Act_ResumeQuit
  | Act_ArmTimeout (seconds : N)
  | Act_Reschedule.

(** The adapter's answers and the surroundings while one call runs. *)
Record Env := {
  ev_now : N; ev_version : ustring; ev_preferences : UpdatePreferences; ev_window : bool;
  ev_check : result unit UpdateError; ev_download : result unit UpdateError; ev_install : result unit UpdateError;
  ev_finish_on_quit : result unit UpdateError; ev_preview : bool
}.

Record Updates := {
  us_model : UpdateModel; us_pending_quit : bool; us_launch : LaunchState; us_resume_launch : bool;
  us_history : UpdateHistory; us_saved_history : UpdateHistory; us_stage : UpdateStage; us_reminder : option UpdateStage;
  us_publication : N; us_prepared : bool; us_automatic_download : bool; us_download_requested : bool; us_last_attempt : N;
  us_launch_timeout : bool; us_acts : list Act
}.

Definition act (a : Act) (u : Updates) : Updates :=
  Build_Updates (us_model u) (us_pending_quit u) (us_launch u) (us_resume_launch u) (us_history u) (us_saved_history u) (us_stage u)
    (us_reminder u) (us_publication u) (us_prepared u) (us_automatic_download u) (us_download_requested u) (us_last_attempt u)
    (us_launch_timeout u) (us_acts u ++ [a]).
Definition set_us_model (m : UpdateModel) (u : Updates) : Updates :=
  Build_Updates m (us_pending_quit u) (us_launch u) (us_resume_launch u) (us_history u) (us_saved_history u) (us_stage u)
    (us_reminder u) (us_publication u) (us_prepared u) (us_automatic_download u) (us_download_requested u) (us_last_attempt u)
    (us_launch_timeout u) (us_acts u).
Definition set_us_launch (launch : LaunchState) (resume timeout : bool) (u : Updates) : Updates :=
  Build_Updates (us_model u) (us_pending_quit u) launch resume (us_history u) (us_saved_history u) (us_stage u)
    (us_reminder u) (us_publication u) (us_prepared u) (us_automatic_download u) (us_download_requested u) (us_last_attempt u)
    timeout (us_acts u).
Definition set_us_pending_quit (pending : bool) (u : Updates) : Updates :=
  Build_Updates (us_model u) pending (us_launch u) (us_resume_launch u) (us_history u) (us_saved_history u) (us_stage u)
    (us_reminder u) (us_publication u) (us_prepared u) (us_automatic_download u) (us_download_requested u) (us_last_attempt u)
    (us_launch_timeout u) (us_acts u).
Definition set_us_history (history saved : UpdateHistory) (stage : UpdateStage) (reminder : option UpdateStage) (u : Updates) : Updates :=
  Build_Updates (us_model u) (us_pending_quit u) (us_launch u) (us_resume_launch u) history saved stage
    reminder (us_publication u) (us_prepared u) (us_automatic_download u) (us_download_requested u) (us_last_attempt u)
    (us_launch_timeout u) (us_acts u).
Definition set_us_cycle (publication : N) (prepared automatic requested : bool) (last_attempt : N) (u : Updates) : Updates :=
  Build_Updates (us_model u) (us_pending_quit u) (us_launch u) (us_resume_launch u) (us_history u) (us_saved_history u) (us_stage u)
    (us_reminder u) publication prepared automatic requested last_attempt (us_launch_timeout u) (us_acts u).

(** ** Its operations *)

(** [save_history]. *)
Definition save_history (u : Updates) : Updates :=
  if negb (bool_decide (us_history u = us_saved_history u))
  then set_us_history (us_history u) (us_history u) (us_stage u) (us_reminder u) (act (Act_SaveHistory (us_history u)) u)
  else u.

(** [reschedule]. *)
Definition reschedule : Updates → Updates := act Act_Reschedule.

(** [open_launch]: the launch resumes once. *)
Definition open_launch (u : Updates) : Updates :=
  let u := reschedule (set_us_launch Launch_Open (us_resume_launch u) (us_launch_timeout u) u) in
  let resume := us_resume_launch u in
  let u := set_us_launch Launch_Open false false u in
  if resume then act Act_ResumeLaunch u else u.

(** [arm_launch_timeout]. *)
Definition arm_launch_timeout (seconds : N) (u : Updates) : Updates :=
  act (Act_ArmTimeout seconds) (set_us_launch (us_launch u) (us_resume_launch u) true u).

(** The adapter is asked, and a refusal is received as an event. *)
Definition ask (recv : UpdateEvent → Updates → Updates) (a : Act) (answer : result unit UpdateError) (u : Updates) : Updates :=
  let u := act a u in match answer with Ok _ => u | Err error => recv (Ev_Failed error) u end.

(** [check]; [recv] is [receive]. *)
Definition check_with (recv : UpdateEvent → Updates → Updates) (env : Env) (manual : bool) (u : Updates) : Updates :=
  let '(m, began) := begin_check manual (us_model u) in
  if negb began then set_us_model m u
  else
    let u := set_us_cycle (us_publication u) (us_prepared u) (us_automatic_download u) (us_download_requested u) (ev_now env) (set_us_model m u) in
    let u := reschedule u in
    let u := set_us_cycle 0 false false false (us_last_attempt u) u in
    let u := act Act_Check u in
    match ev_check env with
    | Ok _ => u
    | Err error => recv Ev_Finished (recv (Ev_Failed error) u)
    end.

(** [download]. *)
Definition download_with (recv : UpdateEvent → Updates → Updates) (env : Env) (u : Updates) : Updates :=
  match um_state (us_model u) with
  | Us_Available version =>
      ask recv Act_Download (ev_download env) (set_us_model (set_um_state (Us_Downloading version 0 0) (us_model u)) u)
  | _ => u
  end.

(** [tick]. *)
Definition tick_with (recv : UpdateEvent → Updates → Updates) (env : Env) (time : N) (u : Updates) : Updates :=
  let preferences := ev_preferences env in
  let '(h, stage) := history_stage time (us_history u) in
  let u := set_us_history h (us_saved_history u) stage (us_reminder u) u in
  let outstanding := bool_decide (is_Some (um_version (us_model u))) &&
    match um_state (us_model u) with Us_UpToDate | Us_Installing _ => false | _ => true end in
  let u :=
    if outstanding && bool_decide (us_launch u = Launch_Open) && ev_window env then
      let '(h, due) := reminder_due time (us_history u) in
      let u := set_us_history h (us_saved_history u) (us_stage u) (us_reminder u) u in
      if due : bool then set_us_history (reminded time (us_history u)) (us_saved_history u) (us_stage u) (Some (us_stage u)) u else u
    else u in
  let u := save_history u in
  let u :=
    if negb (us_prepared u) && up_automatic_downloads preferences &&
       match um_state (us_model u) with Us_Available _ => true | _ => false end && negb (um_cancelling (us_model u))
    then download_with recv env (set_us_cycle (us_publication u) (us_prepared u) true (us_download_requested u) (us_last_attempt u) u)
    else u in
  if (interval_seconds (up_check_interval preferences) <=? u64_saturating_sub time (us_last_attempt u))%N
  then check_with recv env false u else u.

(** The first half of [receive]: what an event records in the history. *)
Definition receive_history (env : Env) (event : UpdateEvent) (u : Updates) : Updates :=
  let time := ev_now env in
  match event with
  | Ev_Available version =>
      let h := observe_release (ev_version env) version (us_publication u) time (us_history u) in
      let h := set_uh_notes (Some time) (uh_notes_read h) (uh_launched h) (uh_recent h) h in
      let '(h, stage) := history_stage time h in
      save_history (set_us_history h (us_saved_history u) stage (us_reminder u) u)
  | Ev_UpToDate =>
      let h := history_clear (us_history u) in
      let h := set_uh_notes (Some time) (uh_notes_read h) (uh_launched h) (uh_recent h) h in
      save_history (set_us_history h (us_saved_history u) Stage_Optional None u)
  | _ => u
  end.

(** A found release: the launch decides whether to wait, and a download may start. *)
Definition receive_found (recv : UpdateEvent → Updates → Updates) (env : Env) (u : Updates) : Updates :=
  let u :=
    if bool_decide (us_launch u = Launch_Checking) then
      if us_prepared u || bool_decide (us_stage u = Stage_Overdue)
      then arm_launch_timeout 30 (set_us_launch Launch_Required (us_resume_launch u) (us_launch_timeout u) u)
      else open_launch u
    else u in
  let u :=
    if negb (us_prepared u) &&
       (us_download_requested u || up_automatic_downloads (ev_preferences env) || bool_decide (us_launch u = Launch_Required))
    then download_with recv env
           (set_us_cycle (us_publication u) (us_prepared u) (negb (um_manual_check (us_model u)) && negb (us_download_requested u))
              false (us_last_attempt u) u)
    else u in
  tick_with recv env (ev_now env) u.

(** A release that is ready while the launch still waits is installed. *)
Definition receive_ready (recv : UpdateEvent → Updates → Updates) (env : Env) (u : Updates) : Updates :=
  let m := us_model u in
  let m := set_um_flags (um_confirmation_open m) true (um_cancelling m) (um_cycle_active m) m in
  let u := set_us_model m u in
  match um_version m with
  | Some version =>
      ask recv Act_Install (ev_install env)
        (set_us_launch Launch_Installing (us_resume_launch u) false (set_us_model (set_um_state (Us_Installing version) m) u))
  | None => u
  end.

(** The middle of [receive]: what the state after the event starts. *)
Definition receive_starts (recv : UpdateEvent → Updates → Updates) (env : Env) (event : UpdateEvent) (u : Updates) : Updates :=
  match event with
  | Ev_Available _ =>
      match um_state (us_model u) with Us_Available _ => receive_found recv env u | _ => u end
  | Ev_Downloading _ _ | Ev_Verifying =>
      if negb (bool_decide (us_launch u = Launch_Open)) then arm_launch_timeout 30 u else u
  | Ev_Ready =>
      if negb (bool_decide (us_launch u = Launch_Open)) && negb (um_cancelling (us_model u)) then receive_ready recv env u else u
  | _ => u
  end.

(** Its end: an open launch, the notice, and a quit that waited. *)
Definition receive_launch (event : UpdateEvent) (u : Updates) : Updates :=
  match event with
  | Ev_Failed _ | Ev_UpToDate => open_launch u
  | Ev_Finished => if negb (bool_decide (us_launch u = Launch_Installing)) then open_launch u else u
  | _ => u
  end.
Definition receive_notice (notice : option UpdateNotice) (u : Updates) : Updates :=
  match notice with
  | Some notice =>
      if negb (bool_decide (notice = Notice_ReadyToInstall)) && bool_decide (us_launch u = Launch_Open) &&
         negb (bool_decide (notice = Notice_Failed) && us_automatic_download u)
      then act (Act_Emit notice) u else u
  | None => u
  end.
Definition receive_quit (event : UpdateEvent) (u : Updates) : Updates :=
  match event with
  | Ev_Finished => if us_pending_quit u then act Act_ResumeQuit (set_us_pending_quit false u) else u
  | _ => u
  end.
Definition receive_end (event : UpdateEvent) (notice : option UpdateNotice) (u : Updates) : Updates :=
  reschedule (receive_quit event (receive_notice notice (receive_launch event u))).

(** [receive], whose nested calls go to [recv]. *)
Definition receive_with (recv : UpdateEvent → Updates → Updates) (env : Env) (event : UpdateEvent) (u : Updates) : Updates :=
  if negb (um_cycle_active (us_model u)) then u
  else
    match event with
    | Ev_ReleaseMetadata published_at prepared =>
        set_us_cycle published_at prepared (us_automatic_download u) (us_download_requested u) (us_last_attempt u) u
    | _ =>
        let u := receive_history env event u in
        let '(m, notice) := model_receive event (us_model u) in
        receive_end event notice (receive_starts recv env event (set_us_model m u))
    end.

(** [receive] calls itself at most once, for a refusal of the adapter. *)
Fixpoint receive_depth (depth : nat) (env : Env) (event : UpdateEvent) (u : Updates) : Updates :=
  match depth with
  | 0 => u
  | S depth => receive_with (receive_depth depth env) env event u
  end.
Definition receive (env : Env) : UpdateEvent → Updates → Updates := receive_depth 2 env.

Definition check (env : Env) : bool → Updates → Updates := check_with (receive env) env.
Definition download (env : Env) : Updates → Updates := download_with (receive env) env.
Definition tick (env : Env) (u : Updates) : Updates := tick_with (receive env) env (ev_now env) u.

(** [begin_launch]. *)
Definition begin_launch (env : Env) (u : Updates) : Updates :=
  let u := set_us_launch (us_launch u) true (us_launch_timeout u) u in
  if match um_state (us_model u) with Us_Unavailable => true | _ => false end || ev_preview env
  then check env false (open_launch u)
  else check env false (arm_launch_timeout 10 (set_us_launch Launch_Checking (us_resume_launch u) (us_launch_timeout u) u)).

(** [release_launch]. *)
Definition release_launch (u : Updates) : Updates :=
  if negb (bool_decide (us_launch u = Launch_Installing)) then open_launch u else u.

(** [retry_download]. *)
Definition retry_download (env : Env) (u : Updates) : Updates :=
  let u := check env true u in
  match um_state (us_model u) with
  | Us_Checking => set_us_cycle (us_publication u) (us_prepared u) (us_automatic_download u) true (us_last_attempt u) u
  | _ => u
  end.

(** [cancel]. *)
Definition cancel_update (u : Updates) : Updates :=
  let m := us_model u in
  if um_cycle_active m && negb (um_install_authorized m)
  then act Act_Cancel (set_us_model (set_um_flags false (um_install_authorized m) true (um_cycle_active m) m) u) else u.

(** [begin_install_confirmation]. *)
Definition begin_install_confirmation (u : Updates) : Updates * option InstallConfirmation :=
  let '(m, token) := confirmation (us_model u) in (set_us_model m u, token).

(** [finish_install_confirmation]. *)
Definition finish_install_confirmation (env : Env) (token : InstallConfirmation) (accepted : bool) (u : Updates) : Updates :=
  let '(m, confirmed) := confirm_install token accepted (us_model u) in
  let u := set_us_model m u in
  if confirmed : bool then ask (receive env) Act_Install (ev_install env) u else u.

(** [request_install_confirmation]. *)
Definition request_install_confirmation (u : Updates) : Updates :=
  match um_state (us_model u) with
  | Us_Ready _ => if negb (um_confirmation_open (us_model u)) then act (Act_Emit Notice_ReadyToInstall) u else u
  | _ => u
  end.

(** [retry_install]. *)
Definition retry_install (env : Env) (u : Updates) : Updates :=
  if um_install_authorized (us_model u) && match um_state (us_model u) with Us_Installing _ => true | _ => false end
  then ask (receive env) Act_Install (ev_install env) u else u.

(** [relaunch]. *)
Definition relaunch (env : Env) (u : Updates) : Updates :=
  let '(u, token) := begin_install_confirmation u in
  match token with
  | Some token => finish_install_confirmation env token true u
  | None => retry_install env u
  end.

(** [dismiss_failure]. *)
Definition dismiss_failure (u : Updates) : Updates :=
  match um_state (us_model u) with
  | Us_Failed _ => set_us_model (set_um_state Us_Idle (us_model u)) u
  | _ => u
  end.

(** [dismiss_reminder]. *)
Definition dismiss_reminder (env : Env) (u : Updates) : Updates :=
  let u := set_us_history (us_history u) (us_saved_history u) (us_stage u) None u in
  let u := set_us_history (reminded (ev_now env) (us_history u)) (us_saved_history u) (us_stage u) (us_reminder u) u in
  reschedule (save_history u).

(** [next_due]. *)
Definition next_due (env : Env) (time : N) (u : Updates) : Updates * option N :=
  let check :=
    if um_cycle_active (us_model u) then None
    else let due := u64_saturating_add (us_last_attempt u) (interval_seconds (up_check_interval (ev_preferences env))) in
         if (time <? due)%N then Some due else None in
  let '(h, change) := next_change time (us_history u) in
  let change := match change with Some due => if (time <? due)%N then Some due else None | None => None end in
  (set_us_history h (us_saved_history u) (us_stage u) (us_reminder u) u, least [check; change]).

(** [prepare_before_quit] of an installed service; the answer is whether quitting waits. *)
Definition prepare_before_quit (env : Env) (u : Updates) : Updates * bool :=
  let u := set_us_launch (us_launch u) false false u in
  let m := us_model u in
  if negb (um_cycle_active m) || um_install_authorized m then (u, false)
  else
    let wait (u : Updates) := (cancel_update (if us_pending_quit u then u else set_us_pending_quit true u), true) in
    match um_state m with
    | Us_Ready _ =>
        let m := set_um_flags false (um_install_authorized m) (um_cancelling m) (um_cycle_active m) m in
        let u := act Act_FinishOnQuit (set_us_model m u) in
        match ev_finish_on_quit env with
        | Ok _ => (set_us_model (set_um_flags (um_confirmation_open m) true (um_cancelling m) (um_cycle_active m) m) u, false)
        | Err _ => wait u
        end
    | _ => wait u
    end.

(** [install]: the state of a process that starts; [available] says whether the adapter
    started, [saved] is the history it loaded. *)
Definition updates_install (env : Env) (available : bool) (saved : UpdateHistory) : Updates :=
  let history := history_launched (ev_version env) (ev_now env) saved in
  let model := model_new available in
  let model := if available then set_um_version (pending_version (ev_version env) history) model else model in
  save_history
    {| us_model := model; us_pending_quit := false; us_launch := Launch_Open; us_resume_launch := false; us_history := history;
       us_saved_history := saved; us_stage := Stage_Optional; us_reminder := None; us_publication := 0; us_prepared := false;
       us_automatic_download := false; us_download_requested := false; us_last_attempt := 0; us_launch_timeout := false; us_acts := [] |}.

(** ** Every call on it *)

Inductive UpdateCall :=
  | Uc_Tick | Uc_Receive (event : UpdateEvent) | Uc_Check (manual : bool) | Uc_Download | Uc_RetryDownload | Uc_Cancel
  | Uc_BeginConfirmation | Uc_RequestConfirmation | Uc_FinishConfirmation (token : InstallConfirmation) (accepted : bool)
  | Uc_Relaunch | Uc_RetryInstall | Uc_DismissFailure | Uc_DismissReminder | Uc_BeginLaunch | Uc_ReleaseLaunch | Uc_LaunchTimeout
  | Uc_NextDue | Uc_Quit.

Definition update_call (env : Env) (call : UpdateCall) (u : Updates) : Updates :=
  match call with
  | Uc_Tick => tick env u
  | Uc_Receive event => receive env event u
  | Uc_Check manual => check env manual u
  | Uc_Download => download env u
  | Uc_RetryDownload => retry_download env u
  | Uc_Cancel => cancel_update u
  | Uc_BeginConfirmation => (begin_install_confirmation u).1
  | Uc_RequestConfirmation => request_install_confirmation u
  | Uc_FinishConfirmation token accepted => finish_install_confirmation env token accepted u
  | Uc_Relaunch => relaunch env u
  | Uc_RetryInstall => retry_install env u
  | Uc_DismissFailure => dismiss_failure u
  | Uc_DismissReminder => dismiss_reminder env u
  | Uc_BeginLaunch => begin_launch env u
  | Uc_ReleaseLaunch => release_launch u
  | Uc_LaunchTimeout => open_launch u
  | Uc_NextDue => (next_due env (ev_now env) u).1
  | Uc_Quit => (prepare_before_quit env u).1
  end.
