(* ===== verification/UpdaterTheorems.v ===== *)
(** * An update is installed only with consent

    Along every sequence of calls, events and answers of the native updater, an installation
    is started only after somebody agreed to it in the same cycle, and only for a release
    version. *)
From S2P Require Import Prelude.
From S2P Require Import Text.
From S2P Require Import UpdateVersions.
From S2P Require Import UpdateHistory.
From S2P Require Import Updater.

(** ** Calls that neither install nor check *)

Definition authorized (u : Updates) : bool := um_install_authorized (us_model u).
Definition active (u : Updates) : bool := um_cycle_active (us_model u).

(** The acts a call adds are no installation and no check, and consent stays what it is. *)
Definition quiet (u u' : Updates) : Prop :=
  authorized u' = authorized u ∧ ∃ l, us_acts u' = us_acts u ++ l ∧ (Act_Install ∉ l) ∧ (Act_Check ∉ l).

#[export] Instance quiet_preorder : PreOrder quiet.
Proof.
  split; [intros u; split; [done|]; exists []; rw app_nil_r; split; [done|]; split; apply not_elem_of_nil|].
  intros u v w [E1 (l1 & A1 & I1 & C1)] [E2 (l2 & A2 & I2 & C2)]. split; [congruence|]. exists (l1 ++ l2).
  rw A2 A1 app_assoc !not_elem_of_app. done.
Qed.

Lemma quiet_act a u : a ≠ Act_Install → a ≠ Act_Check → quiet u (act a u).
Proof. intros Hi Hc. split; [done|]. exists [a]. split; [done|]. rw !list_elem_of_singleton. split; congruence. Qed.

(** Setting other fields is quiet. *)
Lemma quiet_same u u' : authorized u' = authorized u → us_acts u' = us_acts u → quiet u u'.
Proof.
  intros Ea El. split; [done|]. exists []. rw app_nil_r El. split; [done|]. split; apply not_elem_of_nil.
Qed.

Create HintDb quiet.
#[export] Hint Resolve quiet_same quiet_act : quiet.

Lemma quiet_save u : quiet u (save_history u) ∧ us_model (save_history u) = us_model u.
Proof.
  unfold save_history. destruct (negb _); [|done]. split; [|done]. etrans; [by apply (quiet_act (Act_SaveHistory (us_history u)))|].
  by apply quiet_same.
Qed.

Lemma quiet_open u : quiet u (open_launch u) ∧ us_model (open_launch u) = us_model u.
Proof.
  unfold open_launch, reschedule. cbn zeta. split; [|by destruct (us_resume_launch u)].
  assert (quiet u (set_us_launch Launch_Open false false (act Act_Reschedule (set_us_launch Launch_Open (us_resume_launch u) (us_launch_timeout u) u)))) as Hq.
  { etrans; [by apply (quiet_same u (set_us_launch Launch_Open (us_resume_launch u) (us_launch_timeout u) u))|].
    etrans; [by apply (quiet_act Act_Reschedule)|]. by apply quiet_same. }
  destruct (us_resume_launch _); [|done]. etrans; [exact Hq|]. by apply quiet_act.
Qed.

Lemma model_receive_authorized event m : um_install_authorized (model_receive event m).1 = um_install_authorized m.
Proof.
  unfold model_receive. destruct (negb (um_cycle_active m)); [done|].
  destruct event; try done; destruct (um_cancelling m); try done; try (by destruct (um_version m)).
  - destruct (um_state m); try done. by destruct (stable_version _).
  - destruct (um_version m); [|done]. by destruct (um_install_authorized m) eqn:E; rw /= ?E.
Qed.

Definition keeps_cycle (u u' : Updates) : Prop := quiet u u' ∧ active u' = active u.
#[export] Instance keeps_cycle_preorder : PreOrder keeps_cycle.
Proof. split; [intros u; by split|]. intros u v w [Q1 A1] [Q2 A2]. split; [by etrans|congruence]. Qed.

Lemma keeps_same u u' : us_model u' = us_model u → us_acts u' = us_acts u → keeps_cycle u u'.
Proof. intros Em Ea. split; [apply quiet_same; [unfold authorized; by rw Em|done]|unfold active; by rw Em]. Qed.
Lemma keeps_act a u : a ≠ Act_Install → a ≠ Act_Check → keeps_cycle u (act a u).
Proof. intros Hi Hc. by split; [apply quiet_act|]. Qed.
Lemma keeps_save u : keeps_cycle u (save_history u).
Proof. destruct (quiet_save u) as [Hq Hm]. split; [done|]. unfold active. by rw Hm. Qed.
Lemma keeps_open u : keeps_cycle u (open_launch u).
Proof. destruct (quiet_open u) as [Hq Hm]. split; [done|]. unfold active. by rw Hm. Qed.

(** A nested call that only refuses or finishes. *)
Record nested (recv : UpdateEvent → Updates → Updates) : Prop := {
  ns_failed : ∀ error u, keeps_cycle u (recv (Ev_Failed error) u);
  ns_finished : ∀ u, quiet u (recv Ev_Finished u)
}.

Lemma keeps_ask recv a answer u : nested recv → a ≠ Act_Install → a ≠ Act_Check → keeps_cycle u (ask recv a answer u).
Proof.
  intros Hr Hi Hc. unfold ask. etrans; [by apply (keeps_act a)|]. destruct answer; [done|]. apply Hr.
Qed.

Lemma keeps_download recv env u : nested recv → keeps_cycle u (download_with recv env u).
Proof.
  intros Hr. unfold download_with. destruct (um_state (us_model u)); try done.
  etrans; [|by apply keeps_ask]. split; [by apply quiet_same|done].
Qed.

(** A check either does not begin, or starts a cycle without consent. *)
Definition checked (u u' : Updates) : Prop :=
  authorized u' = false ∧ ∃ l, us_acts u' = us_acts u ++ l ∧ (Act_Install ∉ l) ∧ Act_Check ∈ l.

Lemma check_cases recv env manual u :
  nested recv → (quiet u (check_with recv env manual u) ∧ us_model (check_with recv env manual u) = us_model u) ∨
  active u = false ∧ checked u (check_with recv env manual u).
Proof.
  intros Hr. unfold check_with, begin_check. destruct (um_cycle_active (us_model u)) eqn:Ha; cbn [orb negb].
  { left. split; [by apply quiet_same|done]. }
  destruct (match um_state (us_model u) with Us_Unavailable => true | _ => false end); cbn [negb].
  { left. split; [by apply quiet_same|done]. }
  right. split; [done|]. match goal with |- checked u ?w => match w with context [act Act_Check ?v] => set (v0 := v) end end.
  assert (authorized (act Act_Check v0) = false ∧ us_acts (act Act_Check v0) = us_acts u ++ [Act_Reschedule; Act_Check]) as [E1 E2].
  { split; [done|]. unfold v0, reschedule. simpl. by rw -app_assoc. }
  destruct (ev_check env) as [|error].
  - split; [done|]. exists [Act_Reschedule; Act_Check]. rw !not_elem_of_cons. repeat split; try done; [apply not_elem_of_nil|right; by left].
  - destruct (ns_failed _ Hr error (act Act_Check v0)) as [Q1 _]. pose proof (ns_finished _ Hr (recv (Ev_Failed error) (act Act_Check v0))) as Q2.
    destruct (transitivity Q1 Q2) as [Ea (l & El & Hi & Hc)]. split; [congruence|].
    exists ([Act_Reschedule; Act_Check] ++ l). rw El E2 app_assoc. split; [done|]. rw not_elem_of_app !not_elem_of_cons elem_of_app.
    repeat split; try done; [apply not_elem_of_nil|left; right; by left].
Qed.

Lemma tick_cases recv env time u :
  nested recv → keeps_cycle u (tick_with recv env time u) ∨ active u = false ∧ checked u (tick_with recv env time u).
Proof.
  intros Hr. unfold tick_with. destruct (history_stage time (us_history u)) as [h stage].
  set (u1 := set_us_history h (us_saved_history u) stage (us_reminder u) u).
  assert (keeps_cycle u u1) as K1 by by apply keeps_same. clearbody u1. cbn zeta.
  match goal with |- context [save_history ?v] => set (u2 := v) end.
  assert (keeps_cycle u1 u2) as K2.
  { unfold u2. destruct (_ && _ && _); [|done]. destruct (reminder_due time (us_history u1)) as [h' [|]]; by apply keeps_same. }
  clearbody u2. pose proof (keeps_save u2) as K3. set (u3 := save_history u2) in *. clearbody u3.
  match goal with |- context [check_with recv env false ?v] => set (u4 := v) end.
  assert (keeps_cycle u3 u4) as K4.
  { unfold u4. destruct (_ && _); [|done]. etrans; [|by apply keeps_download]. by apply keeps_same. }
  assert (keeps_cycle u u4) as K by by (do 3 (etrans; [eassumption|])). clearbody u4. pose proof K as [K5 Ka].
  destruct (_ <=? _)%N; [|by left]. destruct (check_cases recv env false u4 Hr) as [[Q Em]|[Ha (E & l & El & Hi & Hc)]].
  - left. etrans; [exact K|]. split; [done|]. unfold active. by rw Em.
  - right. split; [congruence|]. split; [done|]. destruct K5 as [_ (l' & El' & Hi' & _)]. exists (l' ++ l).
    rw El El' app_assoc not_elem_of_app elem_of_app. auto.
Qed.

(** ** Receiving *)

Lemma keeps_history env event u : keeps_cycle u (receive_history env event u).
Proof.
  unfold receive_history. destruct event; try done.
  - destruct (history_stage _ _). etrans; [|apply keeps_save]. by apply keeps_same.
  - etrans; [|apply keeps_save]. by apply keeps_same.
Qed.

Lemma model_receive_active event m : event ≠ Ev_Finished → um_cycle_active (model_receive event m).1 = um_cycle_active m.
Proof.
  intros He. unfold model_receive. destruct (negb (um_cycle_active m)); [done|].
  destruct event; try done; destruct (um_cancelling m); try done; try (by destruct (um_version m)).
  - destruct (um_state m); try done. by destruct (stable_version _).
  - destruct (um_version m); [|done]. by destruct (um_install_authorized m).
Qed.

Lemma keeps_end event notice u : keeps_cycle u (receive_end event notice u).
Proof.
  unfold receive_end, reschedule. etrans; [|by apply keeps_act].
  assert (∀ v, keeps_cycle v (receive_launch event v)) as H1.
  { intros v. unfold receive_launch. destruct event; try done; try apply keeps_open. destruct (negb _); [apply keeps_open|done]. }
  assert (∀ v, keeps_cycle v (receive_notice notice v)) as H2.
  { intros v. unfold receive_notice. destruct notice; [|done]. match goal with |- context [if ?b then _ else _] => destruct b end; [by apply keeps_act|done]. }
  assert (∀ v, keeps_cycle v (receive_quit event v)) as H3.
  { intros v. unfold receive_quit. destruct event; try done. destruct (us_pending_quit v); [|done]. etrans; [|by apply keeps_act]. by apply keeps_same. }
  etrans; [apply H1|]. etrans; [apply H2|apply H3].
Qed.

Lemma keeps_timeout seconds u : keeps_cycle u (arm_launch_timeout seconds u).
Proof. unfold arm_launch_timeout. etrans; [|by apply keeps_act]. by apply keeps_same. Qed.

Lemma keeps_found recv env u : nested recv → active u = true → keeps_cycle u (receive_found recv env u).
Proof.
  intros Hr Ha. unfold receive_found. cbn zeta.
  set (u1 := if bool_decide (us_launch u = Launch_Checking) then _ else u).
  assert (keeps_cycle u u1) as K1.
  { unfold u1. destruct (bool_decide _); [|done]. destruct (_ || _); [|apply keeps_open].
    etrans; [|apply keeps_timeout]. by apply keeps_same. }
  clearbody u1. match goal with |- context [tick_with recv env (ev_now env) ?v] => set (u2 := v) end.
  assert (keeps_cycle u1 u2) as K2.
  { unfold u2. destruct (_ && _); [|done]. etrans; [|by apply keeps_download]. by apply keeps_same. }
  clearbody u2. assert (keeps_cycle u u2) as [Q2 A2] by by etrans.
  destruct (tick_cases recv env (ev_now env) u2 Hr) as [Q|[Hno _]]; [|congruence].
  etrans; [by split|done].
Qed.

Lemma quiet_model m u : um_install_authorized m = authorized u → quiet u (set_us_model m u).
Proof. intros E. by apply quiet_same. Qed.

Lemma received_model env event u :
  let u1 := receive_history env event u in
  quiet u (set_us_model (model_receive event (us_model u1)).1 u1) ∧
  (event ≠ Ev_Finished → active (set_us_model (model_receive event (us_model u1)).1 u1) = active u).
Proof.
  intros u1. pose proof (keeps_history env event u) as [Q A]. fold u1 in Q, A. split.
  - etrans; [exact Q|]. apply quiet_model. apply model_receive_authorized.
  - intros He. unfold active. simpl. rw model_receive_active //.
Qed.

(** Events other than a ready release neither install nor check. *)
Lemma receive_other recv env event u :
  nested recv ∨ match event with Ev_Available _ => False | _ => True end → event ≠ Ev_Ready →
  quiet u (receive_with recv env event u) ∧ (event ≠ Ev_Finished → active (receive_with recv env event u) = active u).
Proof.
  intros Hr Hne. unfold receive_with. destruct (um_cycle_active (us_model u)) eqn:Ha; cbn [negb]; [|done].
  pose proof (received_model env event u) as [Q A]. cbn zeta in Q, A. set (u1 := receive_history env event u) in *.
  destruct (model_receive event (us_model u1)) as [m notice]. cbn [fst] in Q, A. set (u2 := set_us_model m u1) in *. clearbody u2.
  assert (keeps_cycle u2 (receive_starts recv env event u2)) as [Q1 A1].
  { unfold receive_starts. destruct event; try done; try (destruct (negb _); [apply keeps_timeout|done]).
    destruct Hr as [Hr|[]]. destruct (um_state (us_model u2)); try done. apply keeps_found; [done|]. rw A //. }
  destruct (keeps_end event notice (receive_starts recv env event u2)) as [Q2 A2].
  assert (quiet u (receive_end event notice (receive_starts recv env event u2)) ∧
    (event ≠ Ev_Finished → active (receive_end event notice (receive_starts recv env event u2)) = active u)) as Hend.
  { split; [etrans; [exact Q|by etrans]|]. intros Hf. rw A2 A1. by apply A. }
  destruct event; try exact Hend. by split; [apply quiet_same|].
Qed.

Lemma nested_depth depth env : nested (receive_depth depth env).
Proof.
  split.
  - intros error u. destruct depth; [done|]. cbn [receive_depth].
    destruct (receive_other (receive_depth depth env) env (Ev_Failed error) u ltac:(by right) ltac:(done)) as [Q A].
    split; [exact Q|by apply A].
  - intros u. destruct depth; [done|]. cbn [receive_depth].
    apply (receive_other (receive_depth depth env) env Ev_Finished u ltac:(by right) ltac:(done)).
Qed.

Lemma nested_receive env : nested (receive env).
Proof. apply nested_depth. Qed.

(** ** Consent *)

(** A call installs or consents: no check, and the cycle is authorized. *)
Definition grants (u u' : Updates) : Prop :=
  authorized u' = true ∧ ∃ l, us_acts u' = us_acts u ++ l ∧ Act_Check ∉ l.

Lemma quiet_grants u v w : grants u v → quiet v w → grants u w.
Proof.
  intros [E (l & El & Hc)] [E' (l' & El' & _ & Hc')]. split; [congruence|]. exists (l ++ l').
  rw El' El app_assoc not_elem_of_app. done.
Qed.
Lemma grants_quiet u v w : quiet u v → grants v w → grants u w.
Proof.
  intros [_ (l & El & _ & Hc)] [E' (l' & El' & Hc')]. split; [done|]. exists (l ++ l').
  rw El' El app_assoc not_elem_of_app. done.
Qed.

Lemma grants_install recv answer u : nested recv → authorized u = true → grants u (ask recv Act_Install answer u).
Proof.
  intros Hr Ha. assert (grants u (act Act_Install u)) as Hg.
  { split; [done|]. exists [Act_Install]. split; [done|]. by rw list_elem_of_singleton. }
  unfold ask. destruct answer; [done|]. eapply quiet_grants; [exact Hg|]. apply Hr.
Qed.

(** The agreement to install: an accepted confirmation of exactly the version that is ready,
    asking to relaunch while one is ready, a launch that waits for the release, or quitting
    while one is ready. *)
Definition is_ready (state : UpdateState) : bool := match state with Us_Ready _ => true | _ => false end.
Definition consents (env : Env) (call : UpdateCall) (u : Updates) : bool :=
  let m := us_model u in
  match call with
  | Uc_FinishConfirmation token accepted =>
      accepted && ready_for (ic_version token) (um_state m) && um_confirmation_open m && (um_generation m =? ic_generation token)%N
      && negb (um_cancelling m)
  | Uc_Relaunch => is_ready (um_state m) && negb (um_confirmation_open m) && negb (um_cancelling m)
  | Uc_Receive Ev_Ready => um_cycle_active m && negb (bool_decide (us_launch u = Launch_Open)) && negb (um_cancelling m)
  | Uc_Quit => um_cycle_active m && is_ready (um_state m) && is_ok (ev_finish_on_quit env)
  | _ => false
  end.

Lemma ready_cases env u :
  quiet u (receive env Ev_Ready u) ∨ consents env (Uc_Receive Ev_Ready) u = true ∧ grants u (receive env Ev_Ready u).
Proof.
  pose proof (nested_depth 1 env) as Hr. unfold receive. cbn [receive_depth]. set (recv := receive_with (λ _ u, u) env) in *. unfold receive_with.
  cbn [consents]. destruct (um_cycle_active (us_model u)) eqn:Ha; cbn [negb andb]; [|by left].
  pose proof (received_model env Ev_Ready u) as [Q _]. cbn zeta in Q. cbn [receive_history] in *.
  assert (um_cancelling (model_receive Ev_Ready (us_model u)).1 = um_cancelling (us_model u)) as Hc.
  { unfold model_receive. rw Ha. cbn [negb]. destruct (um_cancelling (us_model u)) eqn:E; [done|]. by destruct (um_version (us_model u)); rw /= ?E. }
  destruct (model_receive Ev_Ready (us_model u)) as [m notice]. cbn [fst] in *. set (u2 := set_us_model m u) in *.
  pose proof (λ v, proj1 (keeps_end Ev_Ready notice v)) as Hend. cbn [receive_starts].
  change (us_launch u2) with (us_launch u). change (um_cancelling (us_model u2)) with (um_cancelling m). rw Hc.
  destruct (negb (bool_decide (us_launch u = Launch_Open)) && negb (um_cancelling (us_model u))); [right|left; by etrans].
  split; [done|]. eapply quiet_grants; [|apply Hend]. eapply grants_quiet; [exact Q|]. unfold receive_ready.
  change (us_model u2) with m. destruct (um_version _) as [version|].
  - match goal with |- grants _ (ask _ _ _ ?v) => assert (grants u2 v) as Hv end.
    { split; [done|]. exists []. rw app_nil_r. split; [done|apply not_elem_of_nil]. }
    destruct Hv as [Hv (l & El & Hl)]. destruct (grants_install recv (ev_install env) _ Hr Hv) as [E (l' & El' & Hl')].
    split; [exact E|]. exists (l ++ l'). rw El' El app_assoc not_elem_of_app. done.
  - split; [done|]. exists []. rw app_nil_r. split; [done|apply not_elem_of_nil].
Qed.

(** ** Every call *)

Lemma confirm_cases env token accepted u :
  let u' := finish_install_confirmation env token accepted u in
  quiet u u' ∨ consents env (Uc_FinishConfirmation token accepted) u = true ∧ grants u u'.
Proof.
  cbn zeta. unfold finish_install_confirmation, confirm_install, consents.
  destruct (um_generation (us_model u) =? ic_generation token)%N; cbn [negb orb]; [|by left; apply quiet_same].
  destruct (um_confirmation_open (us_model u)); cbn [negb]; [|by left; apply quiet_same].
  cbn [set_um_flags um_cancelling um_state]. destruct accepted; cbn [negb orb andb]; [|by left; apply quiet_same].
  destruct (um_cancelling (us_model u)); cbn [orb]; [by left; apply quiet_same|].
  destruct (ready_for (ic_version token) (um_state (us_model u))); cbn [negb]; [right|by left; apply quiet_same].
  split; [done|]. match goal with |- grants _ (ask _ _ _ ?v) => destruct (grants_install (receive env) (ev_install env) v (nested_receive env)) as [E H] end; [done|].
  by split.
Qed.

Lemma relaunch_cases env u :
  quiet u (relaunch env u) ∨ (consents env Uc_Relaunch u = true ∨ authorized u = true) ∧ grants u (relaunch env u).
Proof.
  unfold relaunch, begin_install_confirmation, confirmation.
  assert (quiet u (retry_install env (set_us_model (us_model u) u)) ∨
    authorized u = true ∧ grants u (retry_install env (set_us_model (us_model u) u))) as Hretry.
  { unfold retry_install. cbn [us_model set_us_model]. destruct (um_install_authorized (us_model u)) eqn:Ha; cbn [andb]; [|by left; apply quiet_same].
    destruct (match um_state (us_model u) with Us_Installing _ => true | _ => false end); [right|by left; apply quiet_same].
    split; [done|]. match goal with |- grants _ (ask _ _ _ ?v) => destruct (grants_install (receive env) (ev_install env) v (nested_receive env)) as [E H] end; [done|].
    by split. }
  assert (∀ P Q R : Prop, P ∨ Q ∧ R → P ∨ (consents env Uc_Relaunch u = true ∨ Q) ∧ R) as Hweak by tauto.
  destruct (um_confirmation_open (us_model u)) eqn:Eo; cbn [orb]; [by apply Hweak|].
  destruct (um_cancelling (us_model u)) eqn:Ec; [by apply Hweak|].
  destruct (um_state (us_model u)) as [| | | | | | |version| |] eqn:Es; try by apply Hweak.
  match goal with |- context [finish_install_confirmation env ?t true ?v] => destruct (confirm_cases env t true v) as [Q|[_ [E H]]] end.
  - left. etrans; [|exact Q]. by apply quiet_same.
  - right. split; [left; unfold consents; by rw Es Eo Ec|]. by split.
Qed.

Lemma quit_cases env u :
  quiet u (prepare_before_quit env u).1 ∨ consents env Uc_Quit u = true ∧ grants u (prepare_before_quit env u).1.
Proof.
  unfold prepare_before_quit, consents. cbn [set_us_launch us_model].
  assert (∀ v, quiet u v → quiet u (cancel_update (if us_pending_quit v then v else set_us_pending_quit true v))) as Hwait.
  { intros v Hv. unfold cancel_update. assert (quiet u (if us_pending_quit v then v else set_us_pending_quit true v)) as Hq.
    { destruct (us_pending_quit v); [done|]. etrans; [exact Hv|by apply quiet_same]. }
    destruct (_ && _); [|done]. etrans; [exact Hq|]. etrans; [|by apply quiet_act]. by apply quiet_same. }
  destruct (um_cycle_active (us_model u)) eqn:Ea; cbn [negb orb andb]; [|by left; apply quiet_same].
  destruct (um_install_authorized (us_model u)) eqn:Eu; [by left; apply quiet_same|].
  destruct (um_state (us_model u)) as [| | | | | | |version| |] eqn:Es; try (left; apply Hwait; by apply quiet_same).
  destruct (ev_finish_on_quit env); cbn [is_ok is_ready andb fst].
  - right. split; [done|]. split; [done|]. exists [Act_FinishOnQuit]. split; [done|]. by rw list_elem_of_singleton.
  - left. apply Hwait. split; [done|]. exists [Act_FinishOnQuit]. split; [done|]. by rw !list_elem_of_singleton.
Qed.

Lemma checked_after u v w : quiet u v → checked v w → checked u w.
Proof.
  intros [_ (l & El & Hi & _)] [E (l' & El' & Hi' & Hc')]. split; [done|]. exists (l ++ l').
  rw El' El app_assoc not_elem_of_app elem_of_app. auto.
Qed.

(** A check after quiet steps. *)
Lemma check_after env manual u v : quiet u v → quiet u (check env manual v) ∨ checked u (check env manual v).
Proof.
  intros Q. destruct (check_cases (receive env) env manual v (nested_receive env)) as [[Q' _]|[_ C]].
  - left. by etrans.
  - right. by eapply checked_after.
Qed.

Lemma launch_cases env u : quiet u (begin_launch env u) ∨ checked u (begin_launch env u).
Proof.
  unfold begin_launch. cbn zeta. destruct (_ || _); apply check_after.
  - etrans; [|apply quiet_open]. by apply quiet_same.
  - etrans; [|apply keeps_timeout]. by apply quiet_same.
Qed.

Lemma retry_download_cases env u : quiet u (retry_download env u) ∨ checked u (retry_download env u).
Proof.
  unfold retry_download. cbn zeta. assert (quiet u u) as Q by done.
  assert (∀ v, quiet u v ∨ checked u v → quiet u (match um_state (us_model v) with
    | Us_Checking => set_us_cycle (us_publication v) (us_prepared v) (us_automatic_download v) true (us_last_attempt v) v | _ => v end)
    ∨ checked u (match um_state (us_model v) with
    | Us_Checking => set_us_cycle (us_publication v) (us_prepared v) (us_automatic_download v) true (us_last_attempt v) v | _ => v end)) as H.
  { intros v Hv. by destruct (um_state (us_model v)). }
  apply H. by apply check_after.
Qed.

Lemma retry_install_cases env u : quiet u (retry_install env u) ∨ authorized u = true ∧ grants u (retry_install env u).
Proof.
  unfold retry_install. destruct (um_install_authorized (us_model u)) eqn:Ha; cbn [andb]; [|by left].
  destruct (match um_state (us_model u) with Us_Installing _ => true | _ => false end); [right|by left].
  split; [done|]. by apply grants_install; [apply nested_receive|].
Qed.

Lemma receive_cases env event u :
  quiet u (receive env event u) ∨ consents env (Uc_Receive event) u = true ∧ grants u (receive env event u).
Proof.
  assert (event = Ev_Ready ∨ event ≠ Ev_Ready) as [->|He] by (destruct event; auto); [apply ready_cases|].
  left. unfold receive. cbn [receive_depth]. apply (receive_other (receive_depth 1 env)); [left; apply nested_depth|done].
Qed.

(** What one call does to consent. *)
Lemma call_cases env call u :
  let u' := update_call env call u in
  quiet u u' ∨ checked u u' ∨ (consents env call u = true ∨ authorized u = true) ∧ grants u u'.
Proof.
  cbn zeta. destruct call; cbn [update_call].
  - destruct (tick_cases (receive env) env (ev_now env) u (nested_receive env)) as [[Q _]|[_ C]]; auto.
  - destruct (receive_cases env event u) as [Q|[C G]]; auto.
  - destruct (check_after env manual u u) as [Q|C]; auto. done.
  - left. apply keeps_download, nested_receive.
  - destruct (retry_download_cases env u) as [Q|C]; auto.
  - left. unfold cancel_update. destruct (_ && _); [|done]. etrans; [|by apply quiet_act]. by apply quiet_same.
  - left. unfold begin_install_confirmation, confirmation. destruct (_ || _); [by apply quiet_same|].
    destruct (um_state _); by apply quiet_same.
  - left. unfold request_install_confirmation. destruct (um_state _); try done. destruct (negb _); [by apply quiet_act|done].
  - destruct (confirm_cases env token accepted u) as [Q|[C G]]; auto.
  - destruct (relaunch_cases env u) as [Q|[C G]]; auto.
  - destruct (retry_install_cases env u) as [Q|[C G]]; auto.
  - left. unfold dismiss_failure. destruct (um_state _); try done. by apply quiet_same.
  - left. unfold dismiss_reminder, reschedule. cbn zeta. etrans; [|by apply quiet_act]. etrans; [|apply quiet_save]. by apply quiet_same.
  - destruct (launch_cases env u) as [Q|C]; auto.
  - left. unfold release_launch. destruct (negb _); [apply quiet_open|done].
  - left. apply quiet_open.
  - left. unfold next_due. destruct (next_change _ _). by apply quiet_same.
  - destruct (quit_cases env u) as [Q|[C G]]; auto.
Qed.

(** ** Runs with their consent *)

Definition clear_acts (u : Updates) : Updates :=
  Build_Updates (us_model u) (us_pending_quit u) (us_launch u) (us_resume_launch u) (us_history u) (us_saved_history u) (us_stage u)
    (us_reminder u) (us_publication u) (us_prepared u) (us_automatic_download u) (us_download_requested u) (us_last_attempt u)
    (us_launch_timeout u) [].

Definition is_check (a : Act) : bool := match a with Act_Check => true | _ => false end.

(** One call and the consent given since the last check the native updater was asked for. *)
Definition consent_step (s : Updates * bool) (call : Env * UpdateCall) : Updates * bool :=
  let u := clear_acts s.1 in
  let u' := update_call call.1 call.2 u in
  (u', if existsb is_check (us_acts u') then false else s.2 || consents call.1 call.2 u).
Definition consent_run (u : Updates) (calls : list (Env * UpdateCall)) : Updates * bool := foldl consent_step (u, false) calls.

Lemma is_check_spec l : existsb is_check l = true ↔ Act_Check ∈ l.
Proof.
  rw existsb_exists. split.
  - intros (a & Ha & Hc). apply list_elem_of_In in Ha. by destruct a.
  - intros H. exists Act_Check. split; [by apply list_elem_of_In|done].
Qed.

(** An installation the last call asked for, and an authorization that stands, are consented. *)
Definition consented (s : Updates * bool) : Prop :=
  (authorized s.1 = true → s.2 = true) ∧ (Act_Install ∈ us_acts s.1 → s.2 = true).

Lemma consent_kept s call : consented s → consented (consent_step s call).
Proof.
  destruct s as [u c], call as [env call]. intros [Hc _]. cbn [fst snd] in Hc. unfold consent_step. cbn [fst snd].
  destruct (call_cases env call (clear_acts u)) as [[E (l & El & Hi & Hn)]|[[E (l & El & Hi & Hn)]|[Hg [E (l & El & Hn)]]]];
    change (us_acts (clear_acts u)) with (@nil Act) in El; change (authorized (clear_acts u)) with (authorized u) in *;
    set (u' := update_call env call (clear_acts u)) in *; cbn [app] in El; split; cbn [fst snd]; rw El.
  1-2, 5-6: assert (existsb is_check l = false) as -> by (apply not_true_is_false; by rw is_check_spec).
  - rw E. intros Ha. by rw (Hc Ha).
  - done.
  - intros _. destruct Hg as [->|Ha]; [by rw orb_true_r|by rw (Hc Ha)].
  - intros _. destruct Hg as [->|Ha]; [by rw orb_true_r|by rw (Hc Ha)].
  - by rw E.
  - done.
Qed.

Lemma consent_reached u calls : authorized u = false → us_acts u = [] ∨ (Act_Install ∉ us_acts u) → consented (consent_run u calls).
Proof.
  intros Ha Hi. induction calls as [|call calls IH] using rev_ind.
  - split; cbn [consent_run foldl fst snd]; [congruence|]. destruct Hi as [->|Hi]; [|done]. by intros H%elem_of_nil.
  - unfold consent_run. rw foldl_app. by apply consent_kept.
Qed.


(** Two levels of [receive] are enough: a refusal or an end received inside it starts nothing. *)
Lemma receive_starts_nothing recv recv' env event u :
  match event with Ev_Failed _ | Ev_Finished => True | _ => False end →
  receive_with recv env event u = receive_with recv' env event u.
Proof. unfold receive_with, receive_starts. destruct event; intros []; reflexivity. Qed.

Module Sample.

Definition env : Env :=
  {| ev_now := 100; ev_version := lit "1.0.0"; ev_preferences := preferences_default; ev_window := true; ev_check := Ok ();
     ev_download := Ok (); ev_install := Ok (); ev_finish_on_quit := Ok (); ev_preview := false |}.
Definition saved : UpdateHistory := history_default.

(** A manual check finds 1.1.0, the download ends, and the person accepts. *)
Definition calls : list (Env * UpdateCall) :=
  [(env, Uc_Check true); (env, Uc_Receive (Ev_Available (lit "1.1.0"))); (env, Uc_Download); (env, Uc_Receive Ev_Verifying);
   (env, Uc_Receive Ev_Ready); (env, Uc_BeginConfirmation);
   (env, Uc_FinishConfirmation {| ic_generation := 1; ic_version := lit "1.1.0" |} true)].

(** The run is possible and ends in an installation. *)
Example installs : us_acts (consent_run (updates_install env true saved) calls).1 = [Act_Install].
Proof. vm_compute. reflexivity. Qed.


End Sample.
