(* ===== verification/Screen.v ===== *)
(** * Screen updates on the wire

    [crates/spaceterm-core/src/protocol/screen.rs] and [pane/graphics.rs]: rows as runs of
    cells that share a style and a link, the tables those refer to, scrolls, and the bounds
    that a peer checks before it uses an update or a page of Scrollback. *)
From S2P Require Import Prelude.
From S2P Require Import Text.

Definition MAX_COLUMNS : N := 512.
Definition MAX_ROWS : N := 256.
Definition MAX_STYLES : nat := 4096.
Definition MAX_LINKS : nat := 1024.
Definition MAX_LINK_BYTES : nat := 4096.
Definition MAX_CELL_BYTES : nat := 64.
Definition MAX_PAGE_ROWS : N := 500.
Definition MAX_UNDERLINE : N := 5.
Definition MAX_CURSOR_SHAPE : N := 3.

(** [as u16]. *)
Definition u16_cast (n : nat) : N := (N.of_nat n mod 65536)%N.

(** ** Graphics *)

Definition MAX_RESIDENT_BYTES : N := 96 * 1024 * 1024.
Definition MAX_IMAGES : nat := 1024.
Definition MAX_PLACEMENTS : nat := 1024.

Record ImageKey := { ik_image_id : N; ik_generation : N }.
Record Placement := {
  pm_image : ImageKey; pm_placement_id : N; pm_z : Z; pm_viewport_col : Z; pm_viewport_row : Z; pm_cell_offset_x : N;
  pm_cell_offset_y : N; pm_source_x : N; pm_source_y : N; pm_source_width : N; pm_source_height : N;
  pm_destination_width : N; pm_destination_height : N; pm_unicode_placeholder : bool
}.
Record Image := { ig_key : ImageKey; ig_width : N; ig_height : N }.
Record Snapshot := { gs_generation : N; gs_placement_generation : N; gs_images : list Image; gs_placements : list Placement }.
Inductive GraphicsError := Graphics_Malformed | Graphics_TooLarge | Graphics_Missing | Graphics_Capacity.

#[export] Instance ImageKey_eq_dec : EqDecision ImageKey.
Proof. solve_decision. Defined.
#[export] Instance Placement_eq_dec : EqDecision Placement.
Proof. solve_decision. Defined.
#[export] Instance Image_eq_dec : EqDecision Image.
Proof. solve_decision. Defined.
#[export] Instance GraphicsError_eq_dec : EqDecision GraphicsError.
Proof. solve_decision. Defined.

(** [Image::byte_len]. *)
Definition byte_len (i : Image) : result N GraphicsError :=
  let bytes := (ig_width i * ig_height i)%N in
  if ((bytes =? 0) || (MAX_RESIDENT_BYTES / 4 <? bytes))%N then Err Graphics_TooLarge else Ok (bytes * 4)%N.

(** The images of a manifest: their bytes add up within the bound and no key repeats. *)
Fixpoint validate_images (total : N) (seen : list Image) (images : list Image) : result (list Image) GraphicsError :=
  match images with
  | [] => Ok seen
  | image :: images =>
      let? bytes := byte_len image in
      let total := (total + bytes)%N in
      if (MAX_RESIDENT_BYTES <? total)%N then Err Graphics_TooLarge
      else if vany (λ other, bool_decide (ig_key other = ig_key image)) seen then Err Graphics_Malformed
      else validate_images total (seen ++ [image]) images
  end.

(** A placement crops an image that is there. *)
Definition validate_placement (images : list Image) (p : Placement) : result unit GraphicsError :=
  let? image := ok_or (vfind (λ image, bool_decide (ig_key image = pm_image p)) images) Graphics_Missing in
  let outside (at_ length bound : N) := ((4294967295 <? at_ + length) || (bound <? at_ + length))%N in
  if outside (pm_source_x p) (pm_source_width p) (ig_width image) || outside (pm_source_y p) (pm_source_height p) (ig_height image)
  then Err Graphics_Malformed else Ok tt.
Fixpoint validate_placements (images : list Image) (placements : list Placement) : result unit GraphicsError :=
  match placements with
  | [] => Ok tt
  | p :: placements => let? _ := validate_placement images p in validate_placements images placements
  end.

(** [Snapshot::validate]. *)
Definition graphics_validate (s : Snapshot) : result unit GraphicsError :=
  if (MAX_IMAGES <? length (gs_images s)) || (MAX_PLACEMENTS <? length (gs_placements s)) then Err Graphics_TooLarge
  else let? images := validate_images 0 [] (gs_images s) in validate_placements images (gs_placements s).

(** ** Styles, links and rows *)

(** [flags]. *)
Definition INVERSE : N := 1.
Definition BOLD : N := 2.
Definition FAINT : N := 4.
Definition ITALIC : N := 8.
Definition BLINKING : N := 16.
Definition INVISIBLE : N := 32.
Definition STRIKETHROUGH : N := 64.
Definition OVERLINE : N := 128.
Definition SELECTED : N := 256.
Definition ALL_FLAGS : N := 511.

(** [pane::Color]. *)
Inductive PaneColor := Pc_Default | Pc_Palette (index : N) | Pc_Rgb (red green blue : N).
#[export] Instance PaneColor_eq_dec : EqDecision PaneColor.
Proof. solve_decision. Defined.
#[export] Program Instance PaneColor_countable : Countable PaneColor :=
  inj_countable' (λ c, match c with Pc_Default => inl (inl ()) | Pc_Palette i => inl (inr i) | Pc_Rgb r g b => inr (r, g, b) end)
    (λ s, match s with inl (inl _) => Pc_Default | inl (inr i) => Pc_Palette i | inr (r, g, b) => Pc_Rgb r g b end) _.
Next Obligation. by intros []. Qed.

Record Style := {
  st_foreground : PaneColor; st_background : PaneColor; st_underline_color : PaneColor; st_flags : N; st_underline : N
}.
#[export] Instance Style_eq_dec : EqDecision Style.
Proof. solve_decision. Defined.
#[export] Program Instance Style_countable : Countable Style :=
  inj_countable' (λ s, (st_foreground s, st_background s, st_underline_color s, st_flags s, st_underline s))
    (λ '(f, b, u, flags, underline), Build_Style f b u flags underline) _.
Next Obligation. by intros []. Qed.

Definition DEFAULT_STYLE : Style :=
  {| st_foreground := Pc_Default; st_background := Pc_Default; st_underline_color := Pc_Default; st_flags := 0; st_underline := 0 |}.

(** [Style::valid]. *)
Definition style_valid (s : Style) : bool :=
  bool_decide (N.ldiff (st_flags s) ALL_FLAGS = 0%N) && (st_underline s <=? MAX_UNDERLINE)%N.

Inductive Hyperlink := Link_Url (target : ustring) | Link_File (target : ustring).
#[export] Instance Hyperlink_eq_dec : EqDecision Hyperlink.
Proof. solve_decision. Defined.
#[export] Program Instance Hyperlink_countable : Countable Hyperlink :=
  inj_countable' (λ l, match l with Link_Url t => inl t | Link_File t => inr t end)
    (λ s, match s with inl t => Link_Url t | inr t => Link_File t end) _.
Next Obligation. by intros []. Qed.
Definition link_text (l : Hyperlink) : ustring := match l with Link_Url t | Link_File t => t end.

Record StyleDefinition := { sd_id : N; sd_style : Style }.
Record LinkDefinition := { ld_id : N; ld_link : Hyperlink }.

Inductive StyleRef := Ref_Default | Ref_Id (id : N) | Ref_Inline (style : Style).
#[export] Instance StyleRef_eq_dec : EqDecision StyleRef.
Proof. solve_decision. Defined.

(** The byte length of each cell's text, or one character per cell. *)
Inductive Cells := Narrow | Explicit (lengths : list N).
#[export] Instance Cells_eq_dec : EqDecision Cells.
Proof. solve_decision. Defined.

Record Run := { rn_style : StyleRef; rn_link : option N; rn_text : ustring; rn_cells : Cells }.
#[export] Instance Run_eq_dec : EqDecision Run.
Proof. solve_decision. Defined.
Record Row := { ro_index : N; ro_wrapped : bool; ro_runs : list Run }.

(** ** An update *)

Record CursorPosition := { cp_column : N; cp_row : N; cp_width : N }.
Record Cursor := { cu_position : option CursorPosition; cu_visible : bool; cu_blinking : bool; cu_shape : N }.
Record History := { hi_epoch : N; hi_oldest : N; hi_total : N }.
Record Geometry := { ge_columns : N; ge_rows : N; ge_cell_pixels : option (N * N) }.
Record Modes := { mo_alternate_screen : bool; mo_mouse_tracking : bool; mo_alternate_scroll : bool; mo_reversed : bool }.
Record Colors := {
  co_foreground : N * N * N; co_background : N * N * N; co_cursor : N * N * N; co_cursor_text : N * N * N;
  co_palette : list (N * N * N); co_foreground_overridden : bool; co_background_overridden : bool;
  co_cursor_overridden : bool; co_palette_overrides : list N
}.
#[export] Instance CursorPosition_eq_dec : EqDecision CursorPosition.
Proof. solve_decision. Defined.
#[export] Instance Cursor_eq_dec : EqDecision Cursor.
Proof. solve_decision. Defined.
#[export] Instance History_eq_dec : EqDecision History.
Proof. solve_decision. Defined.
#[export] Instance Geometry_eq_dec : EqDecision Geometry.
Proof. solve_decision. Defined.
#[export] Instance Modes_eq_dec : EqDecision Modes.
Proof. solve_decision. Defined.
#[export] Instance Colors_eq_dec : EqDecision Colors.
Proof. solve_decision. Defined.

Record ScrollShift := { sh_top : N; sh_bottom : N; sh_lines : Z }.

Record ScreenUpdate := {
  su_cursor : Cursor; su_history : History; su_geometry : option Geometry; su_modes : option Modes; su_colors : option Colors;
  su_shift : option ScrollShift; su_styles : list StyleDefinition; su_links : list LinkDefinition; su_rows : list Row;
  su_graphics : option (result Snapshot GraphicsError); su_accessibility_revision : N; su_generation : N
}.
Record Page := {
  pg_epoch : N; pg_start : N; pg_rows : list Row; pg_styles : list StyleDefinition; pg_links : list LinkDefinition
}.

(** ** Scrolling rows *)

(** [ScrollShift::apply]: rotates [rows[top..bottom]] and fills what moved in. *)
Definition shift_apply {A} (s : ScrollShift) (rows : list A) (blank : A) : option (list A) :=
  let top := N.to_nat (sh_top s) in
  let bottom := N.to_nat (sh_bottom s) in
  if (top <=? bottom) && (bottom <=? length rows) then
    let region := take (bottom - top) (drop top rows) in
    let lines := Z.to_nat (Z.abs (sh_lines s)) in
    if length region <=? lines then None
    else
      let moved := if (0 <? sh_lines s)%Z then drop lines region ++ repeat blank lines
                   else repeat blank lines ++ take (length region - lines) region in
      Some (take top rows ++ moved ++ drop bottom rows)
  else None.

(** ** Cells of a run *)

(** Byte offsets of a text: whether one is on a character boundary, and [str::get]. *)
Fixpoint char_boundary (s : ustring) (n : nat) : bool :=
  match s with
  | [] => n =? 0
  | c :: s => if n =? 0 then true else if len_utf8 c <=? n then char_boundary s (n - len_utf8 c) else false
  end.
Fixpoint str_split_at (s : ustring) (n : nat) : option (ustring * ustring) :=
  match s with
  | [] => if n =? 0 then Some ([], []) else None
  | c :: t =>
      if n =? 0 then Some ([], s)
      else if len_utf8 c <=? n
           then match str_split_at t (n - len_utf8 c) with Some (before, after) => Some (c :: before, after) | None => None end
           else None
  end.
Definition str_get (s : ustring) (range : nat * nat) : option ustring :=
  if range.1 <=? range.2 then
    '(_, rest) ← str_split_at s range.1;
    '(text, _) ← str_split_at rest (range.2 - range.1);
    Some text
  else None.

(** [Run::cells]: the byte range of each cell. *)
Fixpoint char_ranges (start : nat) (s : ustring) : list (nat * nat) :=
  match s with
  | [] => []
  | c :: s => (start, start + len_utf8 c) :: char_ranges (start + len_utf8 c) s
  end.
Fixpoint length_ranges (start : nat) (lengths : list N) : list (nat * nat) :=
  match lengths with
  | [] => []
  | l :: lengths => (start, start + N.to_nat l) :: length_ranges (start + N.to_nat l) lengths
  end.
Definition run_cells (r : Run) : list (nat * nat) :=
  match rn_cells r with Narrow => char_ranges 0 (rn_text r) | Explicit lengths => length_ranges 0 lengths end.

(** [Run::width]. *)
Definition run_width (r : Run) : nat :=
  match rn_cells r with Narrow => length (rn_text r) | Explicit lengths => length lengths end.

(** [Run::covers_text]. *)
Fixpoint covers_from (text : ustring) (end_ : nat) (lengths : list N) : bool :=
  match lengths with
  | [] => end_ =? str_len text
  | l :: lengths =>
      let end_ := end_ + N.to_nat l in
      if (MAX_CELL_BYTES <? N.to_nat l) || negb (char_boundary text end_) then false else covers_from text end_ lengths
  end.
Definition covers_text (r : Run) : bool :=
  match rn_cells r with Narrow => true | Explicit lengths => covers_from (rn_text r) 0 lengths end.

(** ** Validation *)

(** [windows(2).all(|pair| pair[0].index < pair[1].index)]. *)
Fixpoint increasing (rows : list Row) : bool :=
  match rows with
  | a :: (b :: _) as rows => (ro_index a <? ro_index b)%N && increasing rows
  | _ => true
  end.

(** One row of [tables]. *)
Fixpoint runs_valid (columns : nat) (runs : list Run) : bool :=
  match runs with
  | [] => true
  | run :: runs =>
      match rn_style run with
      | Ref_Default => true
      | Ref_Id id => (1 <=? id)%N && (id <=? N.of_nat MAX_STYLES)%N
      | Ref_Inline style => style_valid style
      end
      && match rn_link run with None => true | Some link => (link <? N.of_nat MAX_LINKS)%N end
      && let columns := columns + run_width run in
         (columns <=? N.to_nat MAX_COLUMNS) && covers_text run && runs_valid columns runs
  end.
Fixpoint styles_valid (defined : list N) (styles : list StyleDefinition) : bool :=
  match styles with
  | [] => true
  | d :: styles =>
      (1 <=? sd_id d)%N && (sd_id d <=? N.of_nat MAX_STYLES)%N && negb (bool_decide (sd_id d ∈ defined))
      && style_valid (sd_style d) && styles_valid (sd_id d :: defined) styles
  end.
Fixpoint links_valid (defined : list N) (links : list LinkDefinition) : bool :=
  match links with
  | [] => true
  | d :: links =>
      (ld_id d <? N.of_nat MAX_LINKS)%N && negb (bool_decide (ld_id d ∈ defined))
      && (str_len (link_text (ld_link d)) <=? MAX_LINK_BYTES) && links_valid (ld_id d :: defined) links
  end.

(** [tables]. *)
Definition tables_valid (styles : list StyleDefinition) (links : list LinkDefinition) (rows : list Row) (max_rows : N) : bool :=
  (length styles <=? MAX_STYLES) && (length links <=? MAX_LINKS)
  && styles_valid [] styles && links_valid [] links
  && vall (λ row, (ro_index row <? max_rows)%N && (length (ro_runs row) <=? N.to_nat MAX_COLUMNS) && runs_valid 0 (ro_runs row)) rows.

Definition cursor_valid (c : Cursor) : bool :=
  match cu_position c with
  | Some p => ((cp_row p <? MAX_ROWS) && (cp_column p <? MAX_COLUMNS) && (1 <=? cp_width p) && (cp_width p <=? 2))%N
  | None => true
  end && (cu_shape c <=? MAX_CURSOR_SHAPE)%N.
Definition geometry_valid (g : Geometry) : bool :=
  ((2 <=? ge_columns g) && (ge_columns g <=? MAX_COLUMNS) && (2 <=? ge_rows g) && (ge_rows g <=? MAX_ROWS))%N
  && match ge_cell_pixels g with
     | None => true
     | Some (width, height) => ((1 <=? width) && (width <=? 256) && (1 <=? height) && (height <=? 256))%N
     end.
Definition shift_valid (s : ScrollShift) : bool :=
  (sh_top s <? sh_bottom s)%N && (sh_bottom s <=? MAX_ROWS)%N && negb (sh_lines s =? 0)%Z
  && (Z.abs (sh_lines s) <? Z.of_N (sh_bottom s) - Z.of_N (sh_top s))%Z.

(** [ScreenUpdate::validate]. *)
Definition update_valid (u : ScreenUpdate) : bool :=
  (hi_oldest (su_history u) <=? hi_total (su_history u))%N
  && cursor_valid (su_cursor u)
  && match su_geometry u with Some g => geometry_valid g | None => true end
  && match su_colors u with Some colors => length (co_palette colors) =? 256 | None => true end
  && match su_shift u with Some s => shift_valid s | None => true end
  && (length (su_rows u) <=? N.to_nat MAX_ROWS)
  && increasing (su_rows u)
  && match su_graphics u with Some (Ok g) => is_ok (graphics_validate g) | _ => true end
  && tables_valid (su_styles u) (su_links u) (su_rows u) MAX_ROWS.

(** [Page::validate]. *)
Definition page_valid (p : Page) : bool :=
  (length (pg_rows p) <=? N.to_nat MAX_PAGE_ROWS) && increasing (pg_rows p)
  && tables_valid (pg_styles p) (pg_links p) (pg_rows p) MAX_PAGE_ROWS.
