(* ===== verification/ScreenEncoder.v ===== *)
(** * Encoding screens

    [src/runtime/core_host/screen_encoder.rs] and [encode] of [graphics.rs]: what a channel
    sends of a Terminal Session's screen, against the frame its client holds.

    An [Arc] is the number of its allocation: [row_at] and [link_at] say what the shared,
    immutable rows and links hold, and pointer equality is equality of the numbers. The order
    in which a [HashMap] lists its entries is [arrange]. *)
From stdpp Require Import sorting.
From S2P Require Import Prelude.
From S2P Require Import Text.
From S2P Require Import Bytes.
From S2P Require Import Screen.

(** ** Terminal cells ([terminal/emulator.rs]) *)

Record AppColor := { ac_r : N; ac_g : N; ac_b : N; ac_a : N }.
#[export] Instance AppColor_eq_dec : EqDecision AppColor.
Proof. solve_decision. Defined.
Inductive TerminalColor := Tc_Default | Tc_Palette (index : N) | Tc_Rgb (color : AppColor).
#[export] Instance TerminalColor_eq_dec : EqDecision TerminalColor.
Proof. solve_decision. Defined.
Inductive TerminalUnderline :=
  Underline_None | Underline_Single | Underline_Double | Underline_Curly | Underline_Dotted | Underline_Dashed.
#[export] Instance TerminalUnderline_eq_dec : EqDecision TerminalUnderline.
Proof. solve_decision. Defined.
Inductive CellSemantic := Semantic_Output | Semantic_Input | Semantic_Prompt.
#[export] Instance CellSemantic_eq_dec : EqDecision CellSemantic.
Proof. solve_decision. Defined.

Record CellSnapshot (L : Type) := {
  c_text : ustring; c_foreground : TerminalColor; c_background : TerminalColor; c_inverse : bool; c_bold : bool;
  c_faint : bool; c_italic : bool; c_blinking : bool; c_invisible : bool; c_underline : TerminalUnderline;
  c_underline_source : TerminalColor; c_strikethrough : bool; c_overline : bool; c_selected : bool; c_spacer_tail : bool;
  c_semantic : CellSemantic; c_hyperlink : option L
}.
Arguments c_text {L}. Arguments c_foreground {L}. Arguments c_background {L}. Arguments c_inverse {L}.
Arguments c_bold {L}. Arguments c_faint {L}. Arguments c_italic {L}. Arguments c_blinking {L}.
Arguments c_invisible {L}. Arguments c_underline {L}. Arguments c_underline_source {L}.
Arguments c_strikethrough {L}. Arguments c_overline {L}. Arguments c_selected {L}. Arguments c_spacer_tail {L}.
Arguments c_semantic {L}. Arguments c_hyperlink {L}.

Inductive HyperlinkKind := Kind_Url | Kind_LocalPath.
#[export] Instance HyperlinkKind_eq_dec : EqDecision HyperlinkKind.
Proof. solve_decision. Defined.
Record ValidatedLocalFile := { vf_selected : path; vf_canonical : path; vf_identity : list N }.
#[export] Instance ValidatedLocalFile_eq_dec : EqDecision ValidatedLocalFile.
Proof. solve_decision. Defined.
Record HyperlinkTarget := {
  ht_identity : N; ht_kind : HyperlinkKind; ht_value : ustring; ht_local_file : option ValidatedLocalFile
}.
#[export] Instance HyperlinkTarget_eq_dec : EqDecision HyperlinkTarget.
Proof. solve_decision. Defined.

Abbreviation Cell := (CellSnapshot N) (only parsing).

(** ** The screen, as far as a client sees it *)

Record ImageSnapshot := {
  is_key : ImageKey; is_width : N; is_height : N; is_rgba : list N; is_reservation : option N
}.
#[export] Instance ImageSnapshot_eq_dec : EqDecision ImageSnapshot.
Proof. solve_decision. Defined.
Record GraphicsSnapshot := {
  gr_failure : option GraphicsError; gr_generation : N; gr_placement_generation : N; gr_images : list ImageSnapshot;
  gr_placements : list Placement
}.
#[export] Instance GraphicsSnapshot_eq_dec : EqDecision GraphicsSnapshot.
Proof. solve_decision. Defined.

Inductive CursorShape := Shape_Block | Shape_Bar | Shape_Underline | Shape_BlockHollow.
Record CursorSnapshot := {
  cn_position : option (N * N * N); cn_visible : bool; cn_blinking : bool; cn_shape : CursorShape; cn_color : AppColor;
  cn_text_color : AppColor
}.
Record TerminalColorsSnapshot := {
  tc_foreground : AppColor; tc_background : AppColor; tc_palette : list AppColor; tc_reversed : bool;
  tc_foreground_overridden : bool; tc_background_overridden : bool; tc_cursor_overridden : bool;
  tc_palette_overrides : list bool
}.
Record ScreenSnapshot := {
  sn_rows : list N; sn_row_soft_wrapped : list bool; sn_cols : N; sn_cell_pixels : N * N; sn_alternate : bool;
  sn_mouse_tracking : bool; sn_alternate_scroll : bool; sn_colors : TerminalColorsSnapshot; sn_cursor : CursorSnapshot;
  sn_history : History; sn_graphics : GraphicsSnapshot
}.
Record ScreenCapture := { ca_screen : ScreenSnapshot; ca_generation : N; ca_accessibility_revision : N }.

(** ** A cell as it is sent *)

(** [str::is_char_boundary] from the end down: the longest part within [end_] bytes. *)
Fixpoint floor_boundary (s : ustring) (end_ : nat) : nat :=
  if char_boundary s end_ then end_ else match end_ with 0 => 0 | S end_ => floor_boundary s end_ end.

(** [text]. *)
Definition cell_text {L} (c : CellSnapshot L) : ustring :=
  if c_spacer_tail c then []
  else if is_empty (c_text c) then lit " "
  else default [] (str_get (c_text c) (0, floor_boundary (c_text c) (Nat.min (str_len (c_text c)) MAX_CELL_BYTES))).

Definition app_rgb (c : AppColor) : N * N * N := (ac_r c, ac_g c, ac_b c).
(** [color]. *)
Definition pane_color (c : TerminalColor) : PaneColor :=
  match c with Tc_Default => Pc_Default | Tc_Palette i => Pc_Palette i | Tc_Rgb c => Pc_Rgb (ac_r c) (ac_g c) (ac_b c) end.

Record StyleFields := {
  sf_foreground : TerminalColor; sf_background : TerminalColor; sf_underline_color : TerminalColor; sf_flags : list bool;
  sf_underline : TerminalUnderline
}.
#[export] Instance StyleFields_eq_dec : EqDecision StyleFields.
Proof. solve_decision. Defined.

(** [StyleFields::FLAGS], [DEFAULT] and [of]. *)
Definition FLAGS : list N := [INVERSE; BOLD; FAINT; ITALIC; BLINKING; INVISIBLE; STRIKETHROUGH; OVERLINE; SELECTED].
Definition DEFAULT_FIELDS : StyleFields :=
  {| sf_foreground := Tc_Default; sf_background := Tc_Default; sf_underline_color := Tc_Default; sf_flags := repeat false 9;
     sf_underline := Underline_None |}.
Definition fields_of {L} (c : CellSnapshot L) : StyleFields :=
  {| sf_foreground := c_foreground c; sf_background := c_background c; sf_underline_color := c_underline_source c;
     sf_flags := [c_inverse c; c_bold c; c_faint c; c_italic c; c_blinking c; c_invisible c; c_strikethrough c; c_overline c; c_selected c];
     sf_underline := c_underline c |}.

(** [StyleFields::style]. *)
Definition underline_number (u : TerminalUnderline) : N :=
  match u with
  | Underline_None => 0 | Underline_Single => 1 | Underline_Double => 2 | Underline_Curly => 3 | Underline_Dotted => 4
  | Underline_Dashed => 5
  end.
Definition fields_style (f : StyleFields) : Style :=
  {| st_foreground := pane_color (sf_foreground f); st_background := pane_color (sf_background f);
     st_underline_color := pane_color (sf_underline_color f);
     st_flags := foldl (λ flags entry, N.lor flags entry.2) 0%N (vfilter fst (combine (sf_flags f) FLAGS));
     st_underline := underline_number (sf_underline f) |}.

(** [blank]. *)
Definition cell_blank {L} (c : CellSnapshot L) : bool :=
  bool_decide (c_text c = lit " ") && negb (c_spacer_tail c) && negb (bool_decide (is_Some (c_hyperlink c)))
  && bool_decide (fields_of c = DEFAULT_FIELDS).

(** ** Hashing a row *)

Definition HASH_RUN : N := u64_max.
Definition HASH_FACTOR : N := 5871781006564002453.
(** [RowHasher::word]. *)
Definition hash_word (h word : N) : N :=
  let rotated := N.lor (N.shiftl h 5 mod u64_modulus) (N.shiftr h 59) in
  (N.lxor rotated word * HASH_FACTOR mod u64_modulus)%N.
(** [u64::from_le_bytes]. *)
Fixpoint from_le_bytes (bytes : list N) : N :=
  match bytes with [] => 0 | b :: bytes => b + 256 * from_le_bytes bytes end%N.
(** [RowHasher::text]. *)
Fixpoint hash_chunks (h : N) (bytes : list N) : N :=
  match bytes with
  | a :: b :: c :: d :: e :: f :: g :: rest => hash_chunks (hash_word h (from_le_bytes [a; b; c; d; e; f; g; 255%N])) rest
  | rest => hash_word h (from_le_bytes (take 7 (rest ++ repeat 0%N 7) ++ [N.of_nat (length rest)]))
  end.
Definition hash_text (h : N) (text : ustring) : N :=
  match encode_utf8 text with
  | [byte] => hash_word h (N.lor byte (N.shiftl 1 56))
  | bytes => hash_chunks h bytes
  end.
(** [RowHasher::style]. *)
Definition color_word (c : PaneColor) : N :=
  match c with
  | Pc_Default => 0
  | Pc_Palette index => N.lor (N.shiftl 1 24) index
  | Pc_Rgb red green blue => N.lor (N.lor (N.lor (N.shiftl 2 24) (N.shiftl red 16)) (N.shiftl green 8)) blue
  end.
Definition hash_style (h : N) (s : Style) : N :=
  let h := hash_word h HASH_RUN in
  let h := hash_word h (N.lor (color_word (st_foreground s)) (N.shiftl (color_word (st_background s)) 32)) in
  hash_word h (N.lor (N.lor (color_word (st_underline_color s)) (N.shiftl (st_flags s) 32)) (N.shiftl (st_underline s) 48)).
(** [RowHasher::link]. *)
Definition hash_link (h : N) (link : option HyperlinkTarget) : N :=
  match link with
  | None => hash_word h 0
  | Some target => hash_text (hash_word h (match ht_kind target with Kind_Url => 1 | Kind_LocalPath => 2 end)) (ht_value target)
  end.

(** ** The tables of a channel or a page *)

Record Tables := {
  tb_styles : gmap Style N; tb_links : gmap Hyperlink N; tb_new_styles : list StyleDefinition;
  tb_new_links : list LinkDefinition; tb_overflowed : bool
}.
Definition tables_default : Tables :=
  {| tb_styles := ∅; tb_links := ∅; tb_new_styles := []; tb_new_links := []; tb_overflowed := false |}.
Definition set_overflowed (overflowed : bool) (t : Tables) : Tables :=
  {| tb_styles := tb_styles t; tb_links := tb_links t; tb_new_styles := tb_new_styles t; tb_new_links := tb_new_links t;
     tb_overflowed := overflowed |}.

(** [Tables::style]. *)
Definition tables_style (style : Style) (t : Tables) : Tables * StyleRef :=
  if bool_decide (style = DEFAULT_STYLE) then (t, Ref_Default)
  else match tb_styles t !! style with
       | Some id => (t, Ref_Id id)
       | None =>
           if MAX_STYLES <=? size (tb_styles t) then (t, Ref_Inline style)
           else let id := (u16_cast (size (tb_styles t)) + 1)%N in
                ({| tb_styles := <[style := id]> (tb_styles t); tb_links := tb_links t;
                    tb_new_styles := tb_new_styles t ++ [{| sd_id := id; sd_style := style |}];
                    tb_new_links := tb_new_links t; tb_overflowed := tb_overflowed t |}, Ref_Id id)
       end.

(** The table entry of a target. *)
Definition target_link (target : HyperlinkTarget) : Hyperlink :=
  match ht_kind target with Kind_Url => Link_Url (ht_value target) | Kind_LocalPath => Link_File (ht_value target) end.

(** [Tables::link]. *)
Definition tables_link (target : HyperlinkTarget) (t : Tables) : Tables * option N :=
  if MAX_LINK_BYTES <? str_len (ht_value target) then (t, None)
  else
    let link := target_link target in
    match tb_links t !! link with
    | Some id => (t, Some id)
    | None =>
        if MAX_LINKS <=? size (tb_links t) then (set_overflowed true t, None)
        else let id := u16_cast (size (tb_links t)) in
             ({| tb_styles := tb_styles t; tb_links := <[link := id]> (tb_links t); tb_new_styles := tb_new_styles t;
                 tb_new_links := tb_new_links t ++ [{| ld_id := id; ld_link := link |}]; tb_overflowed := tb_overflowed t |}, Some id)
    end.

(** [Tables::take_definitions]. *)
Definition take_definitions (t : Tables) : Tables * (list StyleDefinition * list LinkDefinition) :=
  ({| tb_styles := tb_styles t; tb_links := tb_links t; tb_new_styles := []; tb_new_links := []; tb_overflowed := tb_overflowed t |},
   (tb_new_styles t, tb_new_links t)).

(** ** Lines *)

Record Line := { ln_wrapped : bool; ln_runs : list Run }.
#[export] Instance Line_eq_dec : EqDecision Line.
Proof. solve_decision. Defined.
Definition line_blank : Line := {| ln_wrapped := false; ln_runs := [] |}.

(** The first cell of a run, with its style and link. *)
Record RunStart := { rs_cell : nat; rs_style : Style; rs_link : option N }.
Record Scan := { sc_end : nat; sc_hash : N; sc_starts : nat * nat }.

(** [finish]: the last run, made of [cells], gets lengths unless each cell is one character. *)
Definition finish_run {L} (runs : list Run) (cells : list (CellSnapshot L)) (narrow : bool) : list Run :=
  match last runs with
  | Some run =>
      if negb narrow
      then removelast runs ++ [{| rn_style := rn_style run; rn_link := rn_link run; rn_text := rn_text run;
                                  rn_cells := Explicit (map (λ c, u16_cast (str_len (cell_text c))) cells) |}]
      else runs
  | None => runs
  end.
(** The text of [cells] goes to the last run. *)
Definition push_cells {L} (runs : list Run) (cells : list (CellSnapshot L)) : list Run :=
  match last runs with
  | Some run => removelast runs ++ [{| rn_style := rn_style run; rn_link := rn_link run;
                                       rn_text := rn_text run ++ concat (map cell_text cells); rn_cells := rn_cells run |}]
  | None => runs
  end.
Definition one_char {L} (c : CellSnapshot L) : bool := (length (cell_text c) <=? 1) && negb (is_empty (cell_text c)).
(** [&cells[a..b]]. *)
Definition slice {A} (a b : nat) (l : list A) : list A := take (b - a) (drop a l).

(** What [Line::build] carries from run to run. *)
Record LineState := {
  ls_runs : list Run; ls_first : nat; ls_narrow : bool; ls_last_style : option (Style * StyleRef);
  ls_last_link : option (N * option N); ls_tables : Tables
}.

Inductive EncodeMode := Mode_Delta | Mode_Keyframe | Mode_Replace.
#[export] Instance EncodeMode_eq_dec : EqDecision EncodeMode.
Proof. solve_decision. Defined.

(** ** What an encoder keeps *)

Record Encoded := { en_source : N; en_hash : N; en_end : nat; en_line : Line }.
Record Baseline := {
  bl_frame : N; bl_rows : list Encoded; bl_cursor : Cursor; bl_history : History; bl_geometry : Geometry; bl_modes : Modes;
  bl_colors : Colors; bl_graphics : GraphicsSnapshot; bl_generation : N; bl_accessibility_revision : N
}.
Record ScreenEncoder := { se_tables : Tables; se_baseline : option Baseline }.
Definition encoder_default : ScreenEncoder := {| se_tables := tables_default; se_baseline := None |}.

Record Pending := { pe_source : N; pe_wrapped : bool; pe_hash : N; pe_end : nat; pe_scan : option Scan }.
Record Built := { bt_rows : list Encoded; bt_colors : Colors }.

(** ** The parts of a screen besides its rows *)

Definition snapshot_geometry (s : ScreenSnapshot) : Geometry :=
  let pixels (value : N) := if ((value <? 65536) && (1 <=? value) && (value <=? 256))%N then Some value else None in
  {| ge_columns := sn_cols s; ge_rows := u16_cast (length (sn_rows s));
     ge_cell_pixels := match pixels (sn_cell_pixels s).1, pixels (sn_cell_pixels s).2 with Some w, Some h => Some (w, h) | _, _ => None end |}.
Definition snapshot_modes (s : ScreenSnapshot) : Modes :=
  {| mo_alternate_screen := sn_alternate s; mo_mouse_tracking := sn_mouse_tracking s; mo_alternate_scroll := sn_alternate_scroll s;
     mo_reversed := tc_reversed (sn_colors s) |}.
Fixpoint override_words (index : nat) (overridden : list bool) (words : list N) : list N :=
  match overridden with
  | [] => words
  | o :: overridden =>
      override_words (S index) overridden
        (alter (λ word, N.lor word (N.shiftl (N.b2n o) (N.of_nat (index mod 64)))) (index / 64) words)
  end.
Definition snapshot_colors (s : ScreenSnapshot) : Colors :=
  let c := sn_colors s in
  {| co_foreground := app_rgb (tc_foreground c); co_background := app_rgb (tc_background c);
     co_cursor := app_rgb (cn_color (sn_cursor s)); co_cursor_text := app_rgb (cn_text_color (sn_cursor s));
     co_palette := map app_rgb (tc_palette c); co_foreground_overridden := tc_foreground_overridden c;
     co_background_overridden := tc_background_overridden c; co_cursor_overridden := tc_cursor_overridden c;
     co_palette_overrides := override_words 0 (tc_palette_overrides c) (repeat 0%N 4) |}.
Definition shape_number (s : CursorShape) : N :=
  match s with Shape_Block => 0 | Shape_Bar => 1 | Shape_Underline => 2 | Shape_BlockHollow => 3 end.
Definition snapshot_cursor (s : ScreenSnapshot) : Cursor :=
  let c := sn_cursor s in
  {| cu_position := match cn_position c with
                    | Some (column, row, width) => Some {| cp_column := column; cp_row := row; cp_width := width |}
                    | None => None
                    end;
     cu_visible := cn_visible c; cu_blinking := cn_blinking c; cu_shape := shape_number (cn_shape c) |}.

(** [graphics::encode]. *)
Definition graphics_encode (g : GraphicsSnapshot) : result Snapshot GraphicsError :=
  if (MAX_IMAGES <? length (gr_images g)) || (MAX_PLACEMENTS <? length (gr_placements g)) then Err Graphics_TooLarge
  else
    let snapshot :=
      {| gs_generation := gr_generation g; gs_placement_generation := gr_placement_generation g;
         gs_images := map (λ i, {| ig_key := is_key i; ig_width := is_width i; ig_height := is_height i |}) (gr_images g);
         gs_placements := gr_placements g |} in
    let? _ := graphics_validate snapshot in Ok snapshot.

Section encoder.
Context (row_at : N → list (CellSnapshot N)) (link_at : N → HyperlinkTarget).
Context (arrange : list (Z * nat) → list (Z * nat)).

(** ** Scanning and encoding a row *)

(** [sent_link]. *)
Definition sent_link (c : CellSnapshot N) : option N :=
  match c_hyperlink c with
  | Some target => if str_len (ht_value (link_at target)) <=? MAX_LINK_BYTES then Some target else None
  | None => None
  end.

(** [same_link]. *)
Definition same_link (a b : option N) : bool :=
  match a, b with
  | None, None => true
  | Some a, Some b =>
      (a =? b)%N || (bool_decide (ht_kind (link_at a) = ht_kind (link_at b)) && bool_decide (ht_value (link_at a) = ht_value (link_at b)))
  | _, _ => false
  end.

(** [same_cell] and [same_cells]: every field is equal, links by what they hold. *)
Definition same_cell (a b : CellSnapshot N) : bool :=
  bool_decide (fields_of a = fields_of b) && Bool.eqb (c_spacer_tail a) (c_spacer_tail b)
  && bool_decide (c_semantic a = c_semantic b) && bool_decide (c_text a = c_text b)
  && bool_decide (link_at <$> c_hyperlink a = link_at <$> c_hyperlink b).
Fixpoint same_cells (a b : list (CellSnapshot N)) : bool :=
  match a, b with
  | [], [] => true
  | x :: a, y :: b => same_cell x y && same_cells a b
  | _, _ => false
  end.

(** The loop of [Scan::of]. *)
Fixpoint scan_cells (index : nat) (current : option (StyleFields * option N)) (cells : list (CellSnapshot N)) (hash : N)
    (starts : list RunStart) : N * list RunStart :=
  match cells with
  | [] => (hash, starts)
  | cell :: cells =>
      let fields := fields_of cell in
      let link := sent_link cell in
      let fresh := match current with
                   | None => true
                   | Some (last, last_link) => negb (bool_decide (last = fields)) || negb (same_link last_link link)
                   end in
      if fresh then
        let style := fields_style fields in
        let hash := hash_link (hash_style hash style) (link_at <$> link) in
        scan_cells (S index) (Some (fields, link)) cells (hash_text hash (cell_text cell))
          (starts ++ [{| rs_cell := index; rs_style := style; rs_link := link |}])
      else scan_cells (S index) current cells (hash_text hash (cell_text cell)) starts
  end.

(** [Scan::of]. *)
Definition scan_of (cells : list (CellSnapshot N)) (starts : list RunStart) : Scan * list RunStart :=
  let end_ := match vrposition (λ c, negb (cell_blank c)) cells with Some last => last + 1 | None => 0 end in
  let '(hash, starts') := scan_cells 0 None (take end_ cells) 0%N starts in
  ({| sc_end := end_; sc_hash := hash; sc_starts := (length starts, length starts') |}, starts').

(** One turn of the loop of [Line::build]. *)
Definition build_start (cells : list (CellSnapshot N)) (start : RunStart) (stop : nat) (s : LineState) : LineState :=
  let '(t, style) :=
    match ls_last_style s with
    | Some (last, id) => if bool_decide (last = rs_style start) then (ls_tables s, id) else tables_style (rs_style start) (ls_tables s)
    | None => tables_style (rs_style start) (ls_tables s)
    end in
  let '(t, last_link, link) :=
    match rs_link start with
    | None => (t, ls_last_link s, None)
    | Some target =>
        let ask := let '(t, id) := tables_link (link_at target) t in (t, Some (target, id), id) in
        match ls_last_link s with
        | Some (last, id) => if (target =? last)%N then (t, ls_last_link s, id) else ask
        | None => ask
        end
    end in
  let fresh := match last (ls_runs s) with
               | None => true
               | Some run => negb (bool_decide (rn_style run = style)) || negb (bool_decide (rn_link run = link))
               end in
  let '(runs, first, narrow) :=
    if fresh
    then (finish_run (ls_runs s) (slice (ls_first s) (rs_cell start) cells) (ls_narrow s)
            ++ [{| rn_style := style; rn_link := link; rn_text := []; rn_cells := Narrow |}], rs_cell start, true)
    else (ls_runs s, ls_first s, ls_narrow s) in
  let run := slice (rs_cell start) stop cells in
  {| ls_runs := push_cells runs run; ls_first := first; ls_narrow := narrow && vall one_char run;
     ls_last_style := Some (rs_style start, style); ls_last_link := last_link; ls_tables := t |}.

Fixpoint build_starts (cells : list (CellSnapshot N)) (end_ : nat) (starts : list RunStart) (s : LineState) : LineState :=
  match starts with
  | [] => s
  | start :: rest =>
      let stop := match rest with next :: _ => rs_cell next | [] => end_ end in
      build_starts cells end_ rest (build_start cells start stop s)
  end.

(** [Line::build]. *)
Definition line_build (cells : list (CellSnapshot N)) (wrapped : bool) (scan : Scan) (starts : list RunStart) (t : Tables)
    : Tables * Line :=
  let starts := slice (sc_starts scan).1 (sc_starts scan).2 starts in
  let s := build_starts cells (sc_end scan) starts
             {| ls_runs := []; ls_first := 0; ls_narrow := true; ls_last_style := None; ls_last_link := None; ls_tables := t |} in
  (ls_tables s, {| ln_wrapped := wrapped; ln_runs := finish_run (ls_runs s) (slice (ls_first s) (sc_end scan) cells) (ls_narrow s) |}).

(** [Line::encode]. *)
Definition line_encode (cells : list (CellSnapshot N)) (wrapped : bool) (t : Tables) : Tables * Line :=
  let '(scan, starts) := scan_of cells [] in line_build cells wrapped scan starts t.

(** ** What the client shows already *)

(** [Pending::resembles] and [shown_by]. *)
Definition resembles (new : Pending) (old : option Encoded) : bool :=
  match old with
  | Some old => Bool.eqb (ln_wrapped (en_line old)) (pe_wrapped new) && ((en_source old =? pe_source new)%N || (en_hash old =? pe_hash new)%N)
  | None => negb (pe_wrapped new) && (pe_end new =? 0)
  end.
Definition shown_by (new : Pending) (old : option Encoded) : bool :=
  match old with
  | Some old =>
      Bool.eqb (ln_wrapped (en_line old)) (pe_wrapped new) &&
      ((en_source old =? pe_source new)%N
       || ((en_hash old =? pe_hash new)%N && same_cells (take (en_end old) (row_at (en_source old))) (take (pe_end new) (row_at (pe_source new)))))
  | None => resembles new None
  end.

(** ** Finding a scroll *)

(** The loop of [shift_region]: the longest stretch of matching rows. *)
Definition shift_matches (old : list Encoded) (new : list Pending) (lines : Z) (index : nat) : bool :=
  match new !! index with
  | Some row =>
      let source := (Z.of_nat index + lines)%Z in
      if (source <? 0)%Z then false
      else match old !! Z.to_nat source with Some encoded => resembles row (Some encoded) | None => false end
  | None => false
  end.
Definition shift_step (old : list Encoded) (new : list Pending) (lines : Z) (state : nat * nat * option nat) (index : nat)
    : nat * nat * option nat :=
  let '(first, end_, start) := state in
  match shift_matches old new lines index, start with
  | true, None => (first, end_, Some index)
  | false, Some begun => if end_ - first <? index - begun then (begun, index, None) else (first, end_, None)
  | _, _ => state
  end.
(** [shift_region]. *)
Definition shift_region (old : list Encoded) (new : list Pending) (lines : Z) : option ScrollShift :=
  let '(first, end_, _) := foldl (shift_step old new lines) (0, 0, None) (seq 0 (length new + 1)) in
  if end_ <=? first then None
  else
    let '(top, bottom) :=
      if (0 <? lines)%Z then (first, end_ + Z.to_nat lines) else (first - Z.to_nat (Z.abs lines), end_) in
    if (N.of_nat top <? 65536)%N && (N.of_nat bottom <? 65536)%N && (-32768 <=? lines)%Z && (lines <=? 32767)%Z
    then Some {| sh_top := N.of_nat top; sh_bottom := N.of_nat bottom; sh_lines := lines |} else None.

Definition count_unlike (new : list Pending) (old : list (option Encoded)) : nat :=
  length (vfilter (λ pair, negb (resembles pair.1 pair.2)) (combine new old)).

(** The first position of each hash among the rows that are not blank. *)
Definition hash_positions (old : list Encoded) : gmap N nat :=
  foldr (λ entry positions, if (en_end entry.2 =? 0)%nat then positions else <[en_hash entry.2 := entry.1]> positions) ∅
    (imap pair old).
(** How many changed rows are found again how far away. *)
Definition shift_votes (positions : gmap N nat) (old : list Encoded) (new : list Pending) : gmap Z nat :=
  foldl (λ votes entry,
    let '(index, (row, encoded)) := entry in
    if negb (resembles row (Some encoded)) && negb (pe_end row =? 0) then
      match positions !! pe_hash row with
      | Some source => partial_alter (λ count, Some (S (default 0 count))) (Z.of_nat source - Z.of_nat index)%Z votes
      | None => votes
      end
    else votes) ∅ (imap pair (combine new old)).
(** [b.1.cmp(&a.1).then(a.0.unsigned_abs().cmp(&b.0.unsigned_abs()))]. *)
Definition vote_le (a b : Z * nat) : Prop := b.2 < a.2 ∨ b.2 = a.2 ∧ (Z.abs a.1 <= Z.abs b.1)%Z.
#[local] Instance vote_le_dec a b : Decision (vote_le a b).
Proof. unfold vote_le. apply _. Defined.

(** The best of the three candidates with the most votes. *)
Definition try_shift (old : list Encoded) (new : list Pending) (best : option (nat * ScrollShift * list (option Encoded)))
    (candidate : Z * nat) : option (nat * ScrollShift * list (option Encoded)) :=
  match shift_region old new candidate.1 with
  | None => best
  | Some shift =>
      match shift_apply shift (map Some old) None with
      | None => best
      | Some shifted =>
          let remaining := count_unlike new shifted in
          match best with
          | Some (fewest, _, _) => if remaining <? fewest then Some (remaining, shift, shifted) else best
          | None => Some (remaining, shift, shifted)
          end
      end
  end.

(** [find_shift]. *)
Definition find_shift (old : list Encoded) (new : list Pending) : option (ScrollShift * list (option Encoded)) :=
  let changed := count_unlike new (map Some old) in
  if changed <? 2 then None
  else
    let votes := shift_votes (hash_positions old) old new in
    let candidates := merge_sort vote_le (arrange (map_to_list votes)) in
    match foldl (try_shift old new) None (take 3 candidates) with
    | Some (remaining, shift, shifted) => if remaining <? changed then Some (shift, shifted) else None
    | None => None
    end.

(** ** Building an update *)

(** A row before encoding: the baseline row at its place, or scanned. *)
Definition pending_row (previous : option (list Encoded)) (wrapped : bool) (index : nat) (source : N) (starts : list RunStart)
    : Pending * list RunStart :=
  let same := previous ≫= λ rows, rows !! index ≫= λ old, if (en_source old =? source)%N then Some old else None in
  match same with
  | Some old => ({| pe_source := source; pe_wrapped := wrapped; pe_hash := en_hash old; pe_end := en_end old; pe_scan := None |}, starts)
  | None =>
      let '(scan, starts) := scan_of (row_at source) starts in
      ({| pe_source := source; pe_wrapped := wrapped; pe_hash := sc_hash scan; pe_end := sc_end scan; pe_scan := Some scan |}, starts)
  end.
Fixpoint pending_rows (previous : option (list Encoded)) (wrapped : list bool) (index : nat) (sources : list N)
    (starts : list RunStart) : list Pending * list RunStart :=
  match sources with
  | [] => ([], starts)
  | source :: sources =>
      let '(p, starts) := pending_row previous (default false (wrapped !! index)) index source starts in
      let '(ps, starts) := pending_rows previous wrapped (S index) sources starts in
      (p :: ps, starts)
  end.

(** One row of an update: the line it shows, and whether the client has to be told. *)
Definition build_row (mode : EncodeMode) (shown : option Encoded) (new : Pending) (starts : list RunStart) (t : Tables)
    : Tables * list RunStart * Encoded * bool :=
  let shown_line := match shown with Some old => en_line old | None => line_blank end in
  let '(t, starts, line) :=
    if shown_by new shown then
      (t, starts, match shown with Some old => en_line old | None => line_blank end)
    else
      let '(scan, starts) := match pe_scan new with Some scan => (scan, starts) | None => scan_of (row_at (pe_source new)) starts end in
      let '(t, line) := line_build (row_at (pe_source new)) (pe_wrapped new) scan starts t in
      (t, starts, line) in
  (t, starts, {| en_source := pe_source new; en_hash := pe_hash new; en_end := pe_end new; en_line := line |},
   bool_decide (mode = Mode_Replace) || negb (bool_decide (line = shown_line))).
Fixpoint build_rows (mode : EncodeMode) (shown : list (option Encoded)) (news : list Pending) (starts : list RunStart) (t : Tables)
    : Tables * list (Encoded * bool) :=
  match news with
  | [] => (t, [])
  | new :: news =>
      let '(t, starts, row, changed) := build_row mode (mjoin (head shown)) new starts t in
      let '(t, rows) := build_rows mode (tail shown) news starts t in
      (t, (row, changed) :: rows)
  end.

(** The rows that changed, as they are sent. *)
Definition changed_rows (rows : list (Encoded * bool)) : list Row :=
  omap (λ entry : nat * (Encoded * bool),
          if entry.2.2 then Some {| ro_index := u16_cast entry.1; ro_wrapped := ln_wrapped (en_line entry.2.1); ro_runs := ln_runs (en_line entry.2.1) |}
          else None) (imap pair rows).

(** [then_some]: a value the previous frame had already is left out. *)
Definition unless_same {A B} `{EqDecision A} (previous : option A) (value : A) (sent : B) : option B :=
  match previous with Some p => if bool_decide (p = value) then None else Some sent | None => Some sent end.

(** The update would change nothing. *)
Definition nothing_new (u : ScreenUpdate) (p : Baseline) : bool :=
  is_empty (su_rows u) && negb (bool_decide (is_Some (su_shift u))) && is_empty (su_styles u) && is_empty (su_links u)
  && negb (bool_decide (is_Some (su_geometry u))) && negb (bool_decide (is_Some (su_modes u)))
  && negb (bool_decide (is_Some (su_colors u))) && negb (bool_decide (is_Some (su_graphics u)))
  && bool_decide (su_cursor u = bl_cursor p) && bool_decide (su_history u = bl_history p)
  && (su_generation u =? bl_generation p)%N && (su_accessibility_revision u =? bl_accessibility_revision p)%N.

(** [ScreenEncoder::build]. *)
Definition encoder_build (capture : ScreenCapture) (previous : option Baseline) (mode : EncodeMode) (t : Tables)
    : Tables * option (ScreenUpdate * Built) :=
  let t := set_overflowed false (if bool_decide (mode = Mode_Delta) then t else tables_default) in
  let screen := ca_screen capture in
  let geometry := snapshot_geometry screen in
  let resized := match previous with
                 | Some p => negb ((ge_columns (bl_geometry p) =? ge_columns geometry)%N && (ge_rows (bl_geometry p) =? ge_rows geometry)%N)
                 | None => false
                 end in
  let kept := if resized then None else previous in
  let '(pending, starts) := pending_rows (bl_rows <$> kept) (sn_row_soft_wrapped screen) 0 (sn_rows screen) [] in
  let '(shift, shown) :=
    match kept with
    | Some p => match find_shift (bl_rows p) pending with
                | Some (shift, shown) => (Some shift, shown)
                | None => (None, map Some (bl_rows p))
                end
    | None => (None, [])
    end in
  let '(t, rows) := build_rows mode shown pending starts t in
  if bool_decide (mode = Mode_Delta) && tb_overflowed t then (t, None)
  else
    let '(t, (styles, links)) := take_definitions t in
    let colors := snapshot_colors screen in
    let update :=
      {| su_cursor := snapshot_cursor screen; su_history := sn_history screen;
         su_geometry := unless_same (bl_geometry <$> previous) geometry geometry;
         su_modes := unless_same (bl_modes <$> previous) (snapshot_modes screen) (snapshot_modes screen);
         su_colors := unless_same (bl_colors <$> previous) colors colors;
         su_shift := shift; su_styles := styles; su_links := links; su_rows := changed_rows rows;
         su_graphics := unless_same (bl_graphics <$> previous) (sn_graphics screen) (graphics_encode (sn_graphics screen));
         su_accessibility_revision := ca_accessibility_revision capture; su_generation := ca_generation capture |} in
    if match previous with Some p => nothing_new update p | None => false end then (t, None)
    else (t, Some (update, {| bt_rows := map fst rows; bt_colors := colors |})).

(** [Baseline::new]. *)
Definition baseline_new (capture : ScreenCapture) (frame : N) (built : Built) (update : ScreenUpdate) : Baseline :=
  let screen := ca_screen capture in
  {| bl_frame := frame; bl_rows := bt_rows built; bl_cursor := su_cursor update; bl_history := su_history update;
     bl_geometry := snapshot_geometry screen; bl_modes := snapshot_modes screen; bl_colors := bt_colors built;
     bl_graphics := sn_graphics screen; bl_generation := su_generation update;
     bl_accessibility_revision := su_accessibility_revision update |}.

(** The mode of [ScreenEncoder::encode]. *)
Definition encode_mode (previous : option Baseline) (base : option N) : EncodeMode :=
  match base with
  | None => Mode_Keyframe
  | Some base => match previous with Some p => if (bl_frame p =? base)%N then Mode_Delta else Mode_Replace | None => Mode_Replace end
  end.

(** [ScreenEncoder::encode]. *)
Definition encode_screen (capture : ScreenCapture) (frame : N) (base : option N) (e : ScreenEncoder) : ScreenEncoder * option ScreenUpdate :=
  let mode := encode_mode (se_baseline e) base in
  let known := if bool_decide (mode = Mode_Delta) then se_baseline e else None in
  let '(t, encoded) := encoder_build capture known mode (se_tables e) in
  let '(t, encoded) :=
    match encoded with
    | Some built => (t, Some built)
    | None => if tb_overflowed t then encoder_build capture None Mode_Replace t else (t, None)
    end in
  match encoded with
  | Some (update, built) => ({| se_tables := t; se_baseline := Some (baseline_new capture frame built update) |}, Some update)
  | None => ({| se_tables := t; se_baseline := se_baseline e |}, None)
  end.

(** [encode_page]. *)
Fixpoint page_lines (index : nat) (rows : list (list (CellSnapshot N) * bool)) (t : Tables) : Tables * list Row :=
  match rows with
  | [] => (t, [])
  | (cells, wrapped) :: rows =>
      let '(t, line) := line_encode cells wrapped t in
      let '(t, lines) := page_lines (S index) rows t in
      (t, {| ro_index := u16_cast index; ro_wrapped := ln_wrapped line; ro_runs := ln_runs line |} :: lines)
  end.
Definition encode_page (epoch start : N) (rows : list (list (CellSnapshot N) * bool)) : Page :=
  let '(t, rows) := page_lines 0 (take (N.to_nat MAX_PAGE_ROWS) rows) tables_default in
  let '(_, (styles, links)) := take_definitions t in
  {| pg_epoch := epoch; pg_start := start; pg_rows := rows; pg_styles := styles; pg_links := links |}.

End encoder.
