(* ===== verification/ScreenDecoder.v ===== *)
(** * Decoding screens

    [src/terminal/core_session/screen_decoder.rs], [decode_hyperlink] of [screen.rs] and
    [HyperlinkTarget::url] of [native_services/hyperlink.rs]: the rows a desktop renders, from
    the updates and pages a server sends. The file system is an argument of [decode_hyperlink]. *)
From S2P Require Import Prelude.
From S2P Require Import Text.
From S2P Require Import Bytes.
From S2P Require Import Screen.
From S2P Require Import ScreenEncoder.

Inductive UpdateError := Update_UnknownBase | Update_Malformed.

Abbreviation ShownCell := (CellSnapshot HyperlinkTarget) (only parsing).

(** ** Links *)

(** [valid_text]. *)
Definition valid_link_text (value : ustring) : bool :=
  negb (is_empty value) && (str_len value <=? MAX_LINK_BYTES) && negb (vany is_control value).

(** [stable_identity]. *)
Definition stable_identity (kind : HyperlinkKind) (bytes : list N) : N :=
  foldl (λ hash byte, N.lxor hash byte * 1099511628211 mod u64_modulus)%N
    match kind with Kind_Url => 14695981039346656037%N | Kind_LocalPath => 9521211207457086692%N end bytes.

(** [HyperlinkTarget::url] with [HyperlinkTarget::new]. *)
Definition target_url (value : ustring) : option HyperlinkTarget :=
  if valid_link_text value then
    let rest := match strip_prefix (lit "https://") value with Some rest => Some rest | None => strip_prefix (lit "http://") value end in
    match rest with
    | Some (_ :: _) =>
        Some {| ht_identity := stable_identity Kind_Url (encode_utf8 value); ht_kind := Kind_Url; ht_value := value; ht_local_file := None |}
    | _ => None
    end
  else None.

(** The file system as [decode_hyperlink] asks it: whether a text is an absolute path, and the
    target of the file at a path. *)
Record LocalFiles := { lf_is_absolute : ustring → bool; lf_local_target : ustring → option HyperlinkTarget }.

(** [decode_hyperlink]. *)
Definition decode_hyperlink (local_files : option LocalFiles) (link : Hyperlink) : option HyperlinkTarget :=
  match link with
  | Link_Url value => target_url value
  | Link_File value =>
      files ← local_files;
      if (MAX_LINK_BYTES <? str_len value) || negb (lf_is_absolute files value) then None else lf_local_target files value
  end.

(** ** Cells *)

Definition terminal_color (c : PaneColor) : TerminalColor :=
  match c with
  | Pc_Default => Tc_Default
  | Pc_Palette index => Tc_Palette index
  | Pc_Rgb red green blue => Tc_Rgb {| ac_r := red; ac_g := green; ac_b := blue; ac_a := 255 |}
  end.
Definition has_flag (style : Style) (flag : N) : bool := negb (N.land (st_flags style) flag =? 0)%N.
Definition decoded_underline (u : N) : TerminalUnderline :=
  match u with
  | 1 => Underline_Single | 2 => Underline_Double | 3 => Underline_Curly | 4 => Underline_Dotted | 5 => Underline_Dashed
  | _ => Underline_None
  end%N.

(** [template]. *)
Definition cell_template (style : Style) : ShownCell :=
  {| c_text := lit " "; c_foreground := terminal_color (st_foreground style); c_background := terminal_color (st_background style);
     c_inverse := has_flag style INVERSE; c_bold := has_flag style BOLD; c_faint := has_flag style FAINT;
     c_italic := has_flag style ITALIC; c_blinking := has_flag style BLINKING; c_invisible := has_flag style INVISIBLE;
     c_underline := decoded_underline (st_underline style); c_underline_source := terminal_color (st_underline_color style);
     c_strikethrough := has_flag style STRIKETHROUGH; c_overline := has_flag style OVERLINE; c_selected := has_flag style SELECTED;
     c_spacer_tail := false; c_semantic := Semantic_Output; c_hyperlink := None |}.
Definition blank_cell : ShownCell := cell_template DEFAULT_STYLE.

(** A cell in [template] with its text, its link and its place in a wide character. *)
Definition fill_cell (template : ShownCell) (text : ustring) (spacer_tail : bool) (link : option HyperlinkTarget) : ShownCell :=
  {| c_text := text; c_foreground := c_foreground template; c_background := c_background template; c_inverse := c_inverse template;
     c_bold := c_bold template; c_faint := c_faint template; c_italic := c_italic template; c_blinking := c_blinking template;
     c_invisible := c_invisible template; c_underline := c_underline template; c_underline_source := c_underline_source template;
     c_strikethrough := c_strikethrough template; c_overline := c_overline template; c_selected := c_selected template;
     c_spacer_tail := spacer_tail; c_semantic := c_semantic template; c_hyperlink := link |}.

(** ** Rows *)

(** The cells of one run. *)
Fixpoint decode_cells (template : ShownCell) (link : option HyperlinkTarget) (text : ustring) (ranges : list (nat * nat))
    : result (list ShownCell) UpdateError :=
  match ranges with
  | [] => Ok []
  | range :: ranges =>
      let spacer_tail := range.1 =? range.2 in
      let? content := if spacer_tail then Ok (lit " ") else ok_or (str_get text range) Update_Malformed in
      let? cells := decode_cells template link text ranges in
      Ok (fill_cell template content spacer_tail link :: cells)
  end.

Section tables.
Context (styles : gmap N ShownCell) (links : gmap N (option HyperlinkTarget)).

Fixpoint decode_runs (columns : nat) (runs : list Run) (cells : list ShownCell) : result (list ShownCell) UpdateError :=
  match runs with
  | [] => Ok cells
  | run :: runs =>
      let? template := match rn_style run with
                       | Ref_Default => Ok blank_cell
                       | Ref_Id id => ok_or (styles !! id) Update_Malformed
                       | Ref_Inline style => Ok (cell_template style)
                       end in
      let? link := match rn_link run with None => Ok None | Some id => ok_or (links !! id) Update_Malformed end in
      if columns <? length cells + run_width run then Err Update_Malformed
      else let? more := decode_cells template link (rn_text run) (run_cells run) in decode_runs columns runs (cells ++ more)
  end.

(** [decode_row]. *)
Definition decode_row (columns : nat) (row : Row) : result (list ShownCell) UpdateError :=
  let? cells := decode_runs columns (ro_runs row) [] in
  Ok (take columns cells ++ repeat blank_cell (columns - length cells)).

(** Whether a row shows blinking text. *)
Definition row_blinks (cells : list ShownCell) : bool :=
  vany (λ c, c_blinking c && negb (c_invisible c) && negb (c_spacer_tail c)) cells.

Record Grid := { gd_rows : list (list ShownCell); gd_wrapped : list bool; gd_blinking : list bool; gd_blank : list ShownCell }.

(** The rows of an update replace those of the grid. *)
Fixpoint replace_rows (columns row_count : nat) (rows : list Row) (g : Grid) : result Grid UpdateError :=
  match rows with
  | [] => Ok g
  | row :: rows =>
      let index := N.to_nat (ro_index row) in
      if row_count <=? index then Err Update_Malformed
      else
        let? decoded := decode_row columns row in
        replace_rows columns row_count rows
          {| gd_rows := <[index := decoded]> (gd_rows g); gd_wrapped := <[index := ro_wrapped row]> (gd_wrapped g);
             gd_blinking := <[index := row_blinks decoded]> (gd_blinking g); gd_blank := gd_blank g |}
  end.
End tables.

(** [Grid::blank]. *)
Definition grid_blank (columns rows : nat) : Grid :=
  {| gd_rows := repeat (repeat blank_cell columns) rows; gd_wrapped := repeat false rows; gd_blinking := repeat false rows;
     gd_blank := repeat blank_cell columns |}.

(** A scroll moves rows, wrap marks and blink marks together. *)
Definition grid_shift (shift : ScrollShift) (g : Grid) : result Grid UpdateError :=
  let? rows := ok_or (shift_apply shift (gd_rows g) (gd_blank g)) Update_Malformed in
  let? wrapped := ok_or (shift_apply shift (gd_wrapped g) false) Update_Malformed in
  let? blinking := ok_or (shift_apply shift (gd_blinking g) false) Update_Malformed in
  Ok {| gd_rows := rows; gd_wrapped := wrapped; gd_blinking := blinking; gd_blank := gd_blank g |}.

(** ** Frames *)

Record DecodedScreen := {
  ds_geometry : Geometry; ds_modes : Modes; ds_colors : Colors; ds_cursor : Cursor; ds_history : History;
  ds_graphics : option (result Snapshot GraphicsError); ds_generation : N; ds_grid : Grid
}.
Record ScreenDecoder := {
  dc_frame : option N; dc_styles : gmap N ShownCell; dc_links : gmap N (option HyperlinkTarget); dc_screen : option DecodedScreen
}.

(** [ScreenDecoder::new]. *)
Definition decoder_new : ScreenDecoder := {| dc_frame := None; dc_styles := ∅; dc_links := ∅; dc_screen := None |}.

(** [required]. *)
Definition required {T} (value previous : option T) : result T UpdateError :=
  ok_or (match value with Some v => Some v | None => previous end) Update_Malformed.

Definition define_styles (definitions : list StyleDefinition) (styles : gmap N ShownCell) : gmap N ShownCell :=
  foldl (λ styles d, <[sd_id d := cell_template (sd_style d)]> styles) styles definitions.
Definition define_links (local_files : option LocalFiles) (definitions : list LinkDefinition) (links : gmap N (option HyperlinkTarget))
    : gmap N (option HyperlinkTarget) :=
  foldl (λ links d, <[ld_id d := decode_hyperlink local_files (ld_link d)]> links) links definitions.

(** The frame an update applies to. *)
Definition decode_base (frame : N) (base : option N) (d : ScreenDecoder)
    : result (gmap N ShownCell * gmap N (option HyperlinkTarget) * option DecodedScreen) UpdateError :=
  match base with
  | None => Ok (∅, ∅, None)
  | Some base =>
      if bool_decide (dc_frame d = Some base) && (base <? frame)%N then Ok (dc_styles d, dc_links d, dc_screen d)
      else Err Update_UnknownBase
  end.

(** A cursor outside the grid is malformed. *)
Definition cursor_inside (c : Cursor) (g : Geometry) : bool :=
  match cu_position c with
  | Some p => negb ((ge_rows g <=? cp_row p) || (ge_columns g <=? cp_column p))%N
  | None => true
  end.

(** [ScreenDecoder::decode]. *)
Definition decode_update (local_files : option LocalFiles) (frame : N) (base : option N) (u : ScreenUpdate) (d : ScreenDecoder)
    : result ScreenDecoder UpdateError :=
  let? (styles, links, previous) := decode_base frame base d in
  let styles := define_styles (su_styles u) styles in
  let links := define_links local_files (su_links u) links in
  let? geometry := required (su_geometry u) (ds_geometry <$> previous) in
  let? modes := required (su_modes u) (ds_modes <$> previous) in
  let columns := N.to_nat (ge_columns geometry) in
  let row_count := N.to_nat (ge_rows geometry) in
  let '(colors, graphics, kept) :=
    match previous with
    | Some p =>
        let same_grid := (ge_columns (ds_geometry p) =? ge_columns geometry)%N && (ge_rows (ds_geometry p) =? ge_rows geometry)%N in
        (match su_colors u with Some c => Some c | None => Some (ds_colors p) end,
         match su_graphics u with Some g => Some g | None => ds_graphics p end,
         if same_grid then Some (ds_grid p) else None)
    | None => (su_colors u, su_graphics u, None)
    end in
  let? colors := ok_or colors Update_Malformed in
  let grid := default (grid_blank columns row_count) kept in
  let? grid := match su_shift u with Some shift => grid_shift shift grid | None => Ok grid end in
  let? grid := replace_rows styles links columns row_count (su_rows u) grid in
  if negb (cursor_inside (su_cursor u) geometry) then Err Update_Malformed
  else Ok {| dc_frame := Some frame; dc_styles := styles; dc_links := links;
             dc_screen := Some {| ds_geometry := geometry; ds_modes := modes; ds_colors := colors; ds_cursor := su_cursor u;
                                  ds_history := su_history u; ds_graphics := graphics; ds_generation := su_generation u; ds_grid := grid |} |}.

(** [ScreenDecoder::apply]: a failure empties the decoder. *)
Definition decoder_apply (local_files : option LocalFiles) (frame : N) (base : option N) (u : ScreenUpdate) (d : ScreenDecoder)
    : ScreenDecoder * result DecodedScreen UpdateError :=
  match decode_update local_files frame base u d with
  | Ok d => (d, ok_or (dc_screen d) Update_Malformed)
  | Err error => (decoder_new, Err error)
  end.

(** ** Pages of Scrollback *)

Fixpoint decode_page_rows (styles : gmap N ShownCell) (links : gmap N (option HyperlinkTarget)) (columns index : nat) (rows : list Row)
    : result (list (list ShownCell * bool)) UpdateError :=
  match rows with
  | [] => Ok []
  | row :: rows =>
      if negb (N.to_nat (ro_index row) =? index) then Err Update_Malformed
      else
        let? cells := decode_row styles links columns row in
        let? rest := decode_page_rows styles links columns (S index) rows in
        Ok ((cells, ro_wrapped row) :: rest)
  end.
(** [decode_page]. *)
Definition decode_page (local_files : option LocalFiles) (page : Page) (columns : N) : result (list (list ShownCell * bool)) UpdateError :=
  decode_page_rows (define_styles (pg_styles page) ∅) (define_links local_files (pg_links page) ∅) (N.to_nat columns) 0 (pg_rows page).
