(* ===== verification/ScreenLines.v ===== *)
(** * A line shows its cells

    What a client decodes from the runs of a row: [Line::build] of the encoder against
    [decode_row] of the decoder, through tables that agree. *)
From stdpp Require Import gmap.
From Stdlib Require Import Lia.
From S2P Require Import Prelude.
From S2P Require Import Text.
From S2P Require Import Bytes.
From S2P Require Import Screen.
From S2P Require Import ScreenEncoder.
From S2P Require Import ScreenDecoder.

(** ** Byte offsets *)

Lemma char_len_bounds c : 1 ≤ len_utf8 c ≤ 4.
Proof. unfold len_utf8. repeat case_match; lia. Qed.

Lemma split_at_app s t : str_split_at (s ++ t) (str_len s) = Some (s, t).
Proof.
  induction s as [|c s IH]; [by destruct t|]. change (str_len (c :: s)) with (len_utf8 c + str_len s).
  pose proof (char_len_bounds c). cbn [app str_split_at]. destruct (Nat.eqb_spec (len_utf8 c + str_len s) 0); [lia|].
  destruct (Nat.leb_spec (len_utf8 c) (len_utf8 c + str_len s)); [|lia].
  replace (len_utf8 c + str_len s - len_utf8 c) with (str_len s) by lia. by rw IH.
Qed.

Lemma str_get_middle a b c : str_get (a ++ b ++ c) (str_len a, str_len a + str_len b) = Some b.
Proof.
  unfold str_get. cbn [fst snd]. destruct (Nat.leb_spec (str_len a) (str_len a + str_len b)); [|lia].
  rw split_at_app. cbn [mbind option_bind]. replace (str_len a + str_len b - str_len a) with (str_len b) by lia.
  by rw split_at_app.
Qed.

Lemma boundary_split s : ∀ n, char_boundary s n = true ↔ ∃ a b, s = a ++ b ∧ str_len a = n.
Proof.
  induction s as [|c s IH]; intros n; cbn [char_boundary].
  - rw Nat.eqb_eq. split; [intros ->; by exists [], []|]. intros (a & b & E & <-). by destruct a.
  - destruct (Nat.eqb_spec n 0) as [->|Hn]; [split; [by exists [], (c :: s)|done]|].
    assert (∀ a b, c :: s = a ++ b → str_len a = n → ∃ a', a = c :: a' ∧ s = a' ++ b ∧ str_len a' = n - len_utf8 c ∧ len_utf8 c ≤ n) as Hinv.
    { intros [|d a] b E Ha; [done|]. injection E as <- ->. exists a.
      change (str_len (c :: a)) with (len_utf8 c + str_len a) in Ha. repeat split; lia. }
    destruct (Nat.leb_spec (len_utf8 c) n) as [Hc|Hc].
    + rw IH. split.
      * intros (a & b & -> & Ha). exists (c :: a), b. split; [done|]. change (str_len (c :: a)) with (len_utf8 c + str_len a). lia.
      * intros (a & b & E & Ha). destruct (Hinv a b E Ha) as (a' & -> & -> & ? & ?). eauto.
    + split; [done|]. intros (a & b & E & Ha). destruct (Hinv a b E Ha) as (? & _ & _ & _ & ?). lia.
Qed.

Lemma floor_boundary_spec s end_ :
  char_boundary s (floor_boundary s end_) = true ∧ floor_boundary s end_ ≤ end_ ∧
  ∀ n, char_boundary s n = true → n ≤ end_ → n ≤ floor_boundary s end_.
Proof.
  induction end_ as [|e (IH1 & IH2 & IH3)].
  - assert (char_boundary s 0 = true) as H0 by by destruct s. simpl. rw H0. split; [done|]. split; [lia|]. intros; lia.
  - cbn [floor_boundary]. destruct (char_boundary s (S e)) eqn:E; [split; [done|]; split; [lia|]; intros; lia|].
    split; [done|]. split; [lia|]. intros n Hn Hle. destruct (decide (n = S e)) as [->|]; [congruence|]. apply IH3; [done|lia].
Qed.

(** ** Cells *)

Section cell.
Context {L : Type}.
Implicit Types c : CellSnapshot L.

(** The text of a cell is a nonempty prefix of at most 64 bytes, and empty for a spacer. *)
Lemma cell_text_spec c :
  if c_spacer_tail c then cell_text c = [] else cell_text c ≠ [] ∧ str_len (cell_text c) ≤ MAX_CELL_BYTES.
Proof.
  unfold cell_text. destruct (c_spacer_tail c); [done|]. destruct (c_text c) as [|d s] eqn:Et; cbn [is_empty].
  { split; [done|]. apply Nat.leb_le. by vm_compute. }
  set (e := Nat.min (str_len (d :: s)) MAX_CELL_BYTES). assert (e ≤ MAX_CELL_BYTES) as He by (unfold e; lia). destruct (floor_boundary_spec (d :: s) e) as (Hb & Hle & Hmax).
  apply boundary_split in Hb as (a & b & E & Ha). rw E. change (0, ?n) with (str_len [], n). rw -E -Ha.
  pose proof (str_get_middle [] a b) as Hg. cbn [app] in Hg. rw -E in Hg. change (str_len [] + str_len a) with (str_len a) in Hg.
  rw Hg. cbn [default from_option id]. split; [|lia]. intros ->.
  assert (len_utf8 d ≤ floor_boundary (d :: s) e) as Hd.
  { apply Hmax; [apply boundary_split; exists [d], s; split; [done|]; change (str_len [d]) with (len_utf8 d + 0); lia|].
    unfold e. change (str_len (d :: s)) with (len_utf8 d + str_len s). pose proof (char_len_bounds d).
    assert (64 = MAX_CELL_BYTES) by done. lia. }
  rw -Ha in Hd. pose proof (char_len_bounds d). change (str_len []) with 0 in Hd. lia.
Qed.

Lemma cell_text_len c : str_len (cell_text c) ≤ MAX_CELL_BYTES.
Proof. pose proof (cell_text_spec c) as H. destruct (c_spacer_tail c); [rw H; apply Nat.le_0_l|apply H]. Qed.

Lemma cell_text_spacer c : cell_text c = [] ↔ c_spacer_tail c = true.
Proof. pose proof (cell_text_spec c) as H. destruct (c_spacer_tail c); [done|]. destruct H as [H _]. by split. Qed.

Lemma cell_text_cast c : N.to_nat (u16_cast (str_len (cell_text c))) = str_len (cell_text c).
Proof.
  pose proof (cell_text_len c) as H. unfold u16_cast, MAX_CELL_BYTES in *. rw N.mod_small; lia.
Qed.
End cell.

(** What a client shows of a cell: its text, its style with opaque colors, and a link. *)
Definition opaque (c : TerminalColor) : TerminalColor :=
  match c with Tc_Rgb c => Tc_Rgb {| ac_r := ac_r c; ac_g := ac_g c; ac_b := ac_b c; ac_a := 255 |} | _ => c end.
Definition shown_cell (link : option HyperlinkTarget) {L} (c : CellSnapshot L) : CellSnapshot HyperlinkTarget :=
  {| c_text := if c_spacer_tail c then lit " " else cell_text c; c_foreground := opaque (c_foreground c);
     c_background := opaque (c_background c); c_inverse := c_inverse c; c_bold := c_bold c; c_faint := c_faint c;
     c_italic := c_italic c; c_blinking := c_blinking c; c_invisible := c_invisible c; c_underline := c_underline c;
     c_underline_source := opaque (c_underline_source c); c_strikethrough := c_strikethrough c; c_overline := c_overline c;
     c_selected := c_selected c; c_spacer_tail := c_spacer_tail c; c_semantic := Semantic_Output; c_hyperlink := link |}.

Lemma opaque_color c : terminal_color (pane_color c) = opaque c.
Proof. by destruct c. Qed.
Lemma underline_read u : decoded_underline (underline_number u) = u.
Proof. by destruct u. Qed.

(** A flag is set exactly when its field was. *)
Lemma flags_read {L} (c : CellSnapshot L) :
  let s := fields_style (fields_of c) in
  has_flag s INVERSE = c_inverse c ∧ has_flag s BOLD = c_bold c ∧ has_flag s FAINT = c_faint c ∧ has_flag s ITALIC = c_italic c ∧
  has_flag s BLINKING = c_blinking c ∧ has_flag s INVISIBLE = c_invisible c ∧ has_flag s STRIKETHROUGH = c_strikethrough c ∧
  has_flag s OVERLINE = c_overline c ∧ has_flag s SELECTED = c_selected c ∧ N.ldiff (st_flags s) ALL_FLAGS = 0%N.
Proof.
  unfold has_flag, fields_style, fields_of. cbn [st_flags sf_flags].
  destruct (c_inverse c), (c_bold c), (c_faint c), (c_italic c), (c_blinking c), (c_invisible c), (c_strikethrough c), (c_overline c), (c_selected c);
    vm_compute; repeat split.
Qed.

Lemma fields_style_valid {L} (c : CellSnapshot L) : style_valid (fields_style (fields_of c)) = true.
Proof.
  unfold style_valid. destruct (flags_read c) as (_ & _ & _ & _ & _ & _ & _ & _ & _ & H). rw bool_decide_eq_true_2 //.
  by destruct c as [? ? ? ? ? ? ? ? ? [] ? ? ? ? ? ? ?].
Qed.

Lemma filled_cell {L} (c : CellSnapshot L) link :
  fill_cell (cell_template (fields_style (fields_of c))) (if c_spacer_tail c then lit " " else cell_text c) (c_spacer_tail c) link = shown_cell link c.
Proof.
  destruct (flags_read c) as (H1 & H2 & H3 & H4 & H5 & H6 & H7 & H8 & H9 & _). unfold fill_cell, shown_cell, cell_template.
  cbn [c_foreground c_background c_inverse c_bold c_faint c_italic c_blinking c_invisible c_underline c_underline_source
       c_strikethrough c_overline c_selected c_semantic].
  rw H1 H2 H3 H4 H5 H6 H7 H8 H9 /fields_style /fields_of. cbn [st_foreground st_background st_underline_color st_underline sf_foreground sf_background sf_underline_color sf_underline].
  by rw !opaque_color underline_read.
Qed.

Lemma blank_text {L} (c : CellSnapshot L) : c_text c = lit " " → c_spacer_tail c = false → cell_text c = lit " ".
Proof. intros Et Es. unfold cell_text. rw Es Et. by vm_compute. Qed.

(** A blank cell is what a client shows where nothing was sent. *)
Lemma blank_shown {L} (c : CellSnapshot L) : cell_blank c = true → c_hyperlink c = None ∧ shown_cell None c = blank_cell.
Proof.
  unfold cell_blank. rw !andb_true_iff. intros [[[Ht%bool_decide_eq_true Hs%negb_true_iff] Hl%negb_true_iff] Hf%bool_decide_eq_true].
  apply bool_decide_eq_false in Hl. split; [destruct (c_hyperlink c); [exfalso; by apply Hl|done]|].
  rw -filled_cell Hs Hf (blank_text c) //.
Qed.

(** ** What runs mean *)

Section lines.
Context (link_at : N → HyperlinkTarget) (local_files : option LocalFiles) (lossy : bool).

(** The style of a cell, and the link its client shows when none is lost. *)
Definition style_of (c : CellSnapshot N) : Style := fields_style (fields_of c).
Definition client_link (c : CellSnapshot N) : option HyperlinkTarget :=
  target ← sent_link link_at c; decode_hyperlink local_files (target_link (link_at target)).

(** [d] is how a client shows [c]; a link may be missing where links are lost. *)
Definition cell_shown (c : CellSnapshot N) (d : CellSnapshot HyperlinkTarget) : Prop :=
  ∃ link, d = shown_cell link c ∧ (link = client_link c ∨ lossy = true ∧ link = None).

Definition ref_style (t : Tables) (r : StyleRef) (s : Style) : Prop :=
  match r with Ref_Default => s = DEFAULT_STYLE | Ref_Id id => tb_styles t !! s = Some id | Ref_Inline s' => s' = s end.
Definition ref_link (t : Tables) (r : option N) (sent : option N) : Prop :=
  match r, sent with
  | None, None => True
  | None, Some _ => lossy = true
  | Some id, Some target => tb_links t !! target_link (link_at target) = Some id
  | Some _, None => False
  end.

Definition cells_fit (cells : Cells) (cs : list (CellSnapshot N)) : Prop :=
  match cells with
  | Narrow => Forall (λ c, one_char c = true) cs
  | Explicit lengths => lengths = map (λ c, u16_cast (str_len (cell_text c))) cs
  end.

(** A run sends exactly these cells, and so do the runs of a line. *)
Definition run_shows (t : Tables) (r : Run) (cs : list (CellSnapshot N)) : Prop :=
  cs ≠ [] ∧ rn_text r = concat (map cell_text cs) ∧ cells_fit (rn_cells r) cs ∧
  Forall (λ c, ref_style t (rn_style r) (style_of c) ∧ ref_link t (rn_link r) (sent_link link_at c)) cs.
Definition line_shows (t : Tables) (runs : list Run) (cs : list (CellSnapshot N)) : Prop :=
  ∃ groups, concat groups = cs ∧ Forall2 (run_shows t) runs groups.

(** A client's tables hold what the encoder's say it holds. *)
Definition held (t : Tables) (styles : gmap N (CellSnapshot HyperlinkTarget)) (links : gmap N (option HyperlinkTarget)) : Prop :=
  (∀ s id, tb_styles t !! s = Some id → styles !! id = Some (cell_template s)) ∧
  (∀ l id, tb_links t !! l = Some id → links !! id = Some (decode_hyperlink local_files l)).

(** ** Decoding a run *)

Fixpoint cell_ranges (start : nat) (cs : list (CellSnapshot N)) : list (nat * nat) :=
  match cs with
  | [] => []
  | c :: cs => (start, start + str_len (cell_text c)) :: cell_ranges (start + str_len (cell_text c)) cs
  end.

Lemma one_char_text c : one_char (L := N) c = true → ∃ ch, cell_text c = [ch].
Proof.
  unfold one_char. rw andb_true_iff Nat.leb_le negb_true_iff. intros [Hl He]. destruct (cell_text c) as [|ch [|? ?]]; [done|eauto|].
  simpl in Hl. lia.
Qed.

Lemma run_ranges t r cs : run_shows t r cs → run_cells r = cell_ranges 0 cs ∧ run_width r = length cs.
Proof.
  intros (_ & Et & Hf & _). unfold run_cells, run_width, cells_fit in *. destruct (rn_cells r) as [|lengths].
  - rw Et. clear Et. split.
    + generalize 0. induction Hf as [|c cs Hc _ IH]; intros start; [done|]. destruct (one_char_text c Hc) as [ch E].
      cbn [map concat cell_ranges]. rw E. change (str_len [ch]) with (len_utf8 ch + 0). rw Nat.add_0_r. cbn [app char_ranges]. by rw IH.
    + induction Hf as [|c cs Hc _ IH]; [done|]. destruct (one_char_text c Hc) as [ch E]. cbn [map concat]. rw E. simpl. by rw IH.
  - rw Hf length_map. split; [|done]. generalize 0. clear. induction cs as [|c cs IH]; intros start; [done|].
    cbn [map length_ranges cell_ranges]. by rw cell_text_cast IH.
Qed.

Lemma decode_cells_read template link cs : ∀ pre,
  decode_cells template link (pre ++ concat (map cell_text cs)) (cell_ranges (str_len pre) cs) =
  Ok (map (λ c, fill_cell template (if c_spacer_tail c then lit " " else cell_text c) (c_spacer_tail c) link) cs).
Proof.
  induction cs as [|c cs IH]; intros pre; [done|]. cbn [map concat cell_ranges decode_cells fst snd].
  assert ((str_len pre =? str_len pre + str_len (cell_text c)) = c_spacer_tail c) as ->.
  { destruct (c_spacer_tail c) eqn:Es.
    - apply cell_text_spacer in Es as ->. apply Nat.eqb_eq. change (str_len []) with 0. lia.
    - apply Nat.eqb_neq. assert (cell_text c ≠ []) as Hne by (by rw cell_text_spacer Es).
      destruct (cell_text c) as [|ch s]; [done|]. change (str_len (ch :: s)) with (len_utf8 ch + str_len s).
      pose proof (char_len_bounds ch). lia. }
  specialize (IH (pre ++ cell_text c)). rw str_len_app -app_assoc in IH. rw str_get_middle IH. by destruct (c_spacer_tail c).
Qed.

(** The cells a client shows for a run. *)
Definition run_image (r : Run) (cs : list (CellSnapshot N)) : list (CellSnapshot HyperlinkTarget) :=
  map (λ c, shown_cell (match rn_link r with Some _ => client_link c | None => None end) c) cs.

Lemma run_image_shown t r cs : run_shows t r cs → Forall2 cell_shown cs (run_image r cs).
Proof.
  intros (_ & _ & _ & Hr). unfold run_image. induction Hr as [|c cs [_ Hl] _ IH]; constructor; [|done].
  eexists. split; [done|]. unfold ref_link in Hl. destruct (rn_link r); [by left|]. unfold client_link.
  destruct (sent_link link_at c); [by right|by left].
Qed.

Lemma decode_run t styles links r cs :
  held t styles links → run_shows t r cs →
  ∃ template link,
    match rn_style r with
    | Ref_Default => Ok blank_cell
    | Ref_Id id => ok_or (styles !! id) Update_Malformed
    | Ref_Inline style => Ok (cell_template style)
    end = Ok template ∧
    match rn_link r with None => Ok None | Some id => ok_or (links !! id) Update_Malformed end = Ok link ∧
    decode_cells template link (rn_text r) (run_cells r) = Ok (run_image r cs).
Proof.
  intros [Hs Hl] Hr. destruct (run_ranges _ _ _ Hr) as [-> _]. destruct Hr as (Hne & Et & _ & Hc).
  assert (∃ template, match rn_style r with Ref_Default => Ok blank_cell | Ref_Id id => ok_or (styles !! id) Update_Malformed
      | Ref_Inline style => Ok (cell_template style) end = Ok template ∧ Forall (λ c, template = cell_template (style_of c)) cs) as (template & E1 & Ht).
  { destruct cs as [|c0 cs0]; [done|]. destruct (rn_style r) as [|id|style] eqn:Es; cbn [ref_style] in Hc.
    - eexists. split; [done|]. eapply Forall_impl; [exact Hc|]. intros c [-> _]. done.
    - pose proof (Forall_inv Hc) as [H0 _]. rw (Hs _ _ H0). eexists. split; [done|]. eapply Forall_impl; [exact Hc|].
      intros c [H _]. apply Hs in H. apply Hs in H0. congruence.
    - eexists. split; [done|]. eapply Forall_impl; [exact Hc|]. by intros c [-> _]. }
  assert (∃ link, match rn_link r with None => Ok None | Some id => ok_or (links !! id) Update_Malformed end = Ok link ∧
      Forall (λ c, link = match rn_link r with Some _ => client_link c | None => None end) cs) as (link & E2 & Hk).
  { destruct (rn_link r) as [id|]; [|eexists; split; [done|]; by apply Forall_forall].
    assert (∀ c, ref_link t (Some id) (sent_link link_at c) → links !! id = Some (client_link c)) as Hid.
    { intros c. unfold client_link. cbn [ref_link]. destruct (sent_link link_at c); [|done]. apply Hl. }
    destruct cs as [|c0 cs0]; [done|]. pose proof (Forall_inv Hc) as [_ H0]. rw (Hid _ H0). eexists. split; [done|].
    eapply Forall_impl; [exact Hc|]. intros c [_ H]. apply Hid in H. apply Hid in H0. congruence. }
  exists template, link. split; [done|]. split; [done|]. rw Et. rw (decode_cells_read template link cs []). f_equal. unfold run_image.
  apply map_ext_in. intros c Hin%list_elem_of_In. rw (proj1 (Forall_forall _ _) Ht c Hin) (proj1 (Forall_forall _ _) Hk c Hin).
  apply filled_cell.
Qed.

(** A line is decoded the same by every client that holds the tables. *)
Lemma line_decodes t runs cs :
  line_shows t runs cs →
  ∃ ds, Forall2 cell_shown cs ds ∧
    ∀ styles links columns before, held t styles links → length before + length cs ≤ columns →
      decode_runs styles links columns runs before = Ok (before ++ ds).
Proof.
  intros (groups & <- & Hg). induction Hg as [|r cs runs groups Hr _ (ds & Hd & IH)].
  - exists []. split; [constructor|]. intros. cbn [decode_runs]. by rw app_nil_r.
  - exists (run_image r cs ++ ds). cbn [concat]. split; [apply Forall2_app; [by eapply run_image_shown|done]|].
    intros styles links columns before Hh Hlen. rw length_app in Hlen. cbn [decode_runs].
    destruct (decode_run t styles links r cs Hh Hr) as (template & link & E1 & E2 & E3). rw E1. cbn [result_bind]. rw E2.
    cbn [result_bind]. destruct (run_ranges _ _ _ Hr) as [_ ->]. destruct (Nat.ltb_spec columns (length before + length cs)); [lia|].
    rw E3. cbn [result_bind]. rw IH //; [rw length_app /run_image length_map; lia|]. by rw app_assoc.
Qed.

(** ** Tables *)

Record tables_wf (t : Tables) : Prop := {
  tw_styles : size (tb_styles t) ≤ MAX_STYLES;
  tw_style : ∀ s id, tb_styles t !! s = Some id → (1 <= id <= N.of_nat (size (tb_styles t)))%N ∧ style_valid s = true;
  tw_links : size (tb_links t) ≤ MAX_LINKS;
  tw_link : ∀ l id, tb_links t !! l = Some id → (id < N.of_nat (size (tb_links t)))%N ∧ str_len (link_text l) ≤ MAX_LINK_BYTES;
  tw_new_styles : NoDup (sd_id <$> tb_new_styles t) ∧ length (tb_new_styles t) ≤ size (tb_styles t) ∧
    Forall (λ d, (1 <= sd_id d <= N.of_nat (size (tb_styles t)))%N ∧ style_valid (sd_style d) = true) (tb_new_styles t);
  tw_new_links : NoDup (ld_id <$> tb_new_links t) ∧ length (tb_new_links t) ≤ size (tb_links t) ∧
    Forall (λ d, (ld_id d < N.of_nat (size (tb_links t)))%N ∧ str_len (link_text (ld_link d)) ≤ MAX_LINK_BYTES) (tb_new_links t)
}.

(** What the client holds once it has the new definitions. *)
Definition will_hold (t : Tables) styles links : Prop :=
  held t (define_styles (tb_new_styles t) styles) (define_links local_files (tb_new_links t) links).

(** Tables only grow while an update is built. *)
Definition tables_le (t t' : Tables) : Prop :=
  tb_styles t ⊆ tb_styles t' ∧ tb_links t ⊆ tb_links t' ∧ (tb_overflowed t = true → tb_overflowed t' = true).
#[export] Instance tables_le_preorder : PreOrder tables_le.
Proof.
  split; [by intros t|]. intros a b c (H1 & H2 & H3) (H4 & H5 & H6). split; [by etrans|]. split; [by etrans|auto].
Qed.

Lemma held_le t t' styles links : tables_le t t' → held t' styles links → held t styles links.
Proof. intros (Hs & Hl & _) [H1 H2]. split; intros k id Hk; [apply H1|apply H2]; by eapply lookup_weaken. Qed.

Lemma line_shows_le t t' runs cs : tables_le t t' → line_shows t runs cs → line_shows t' runs cs.
Proof.
  intros (Hs & Hl & _) (groups & E & Hg). exists groups. split; [done|]. eapply Forall2_impl; [exact Hg|].
  intros r g (H1 & H2 & H3 & H4). split; [done|]. split; [done|]. split; [done|]. eapply Forall_impl; [exact H4|].
  intros c [Hr Hk]. split.
  - destruct (rn_style r); simpl in *; try done. by eapply lookup_weaken.
  - destruct (rn_link r), (sent_link link_at c); simpl in *; try done. by eapply lookup_weaken.
Qed.

Lemma define_styles_app a b styles : define_styles (a ++ b) styles = define_styles b (define_styles a styles).
Proof. apply foldl_app. Qed.
Lemma define_links_app a b links : define_links local_files (a ++ b) links = define_links local_files b (define_links local_files a links).
Proof. apply foldl_app. Qed.

Lemma u16_cast_small n : (N.of_nat n < 65536)%N → u16_cast n = N.of_nat n.
Proof. intros H. unfold u16_cast. by apply N.mod_small. Qed.

(** What asking for a style or a link does. *)
Lemma tables_style_spec s t styles links :
  tables_wf t → will_hold t styles links → style_valid s = true →
  let '(t', r) := tables_style s t in
  tables_wf t' ∧ will_hold t' styles links ∧ tables_le t t' ∧ tb_links t' = tb_links t ∧ tb_overflowed t' = tb_overflowed t ∧ ref_style t' r s.
Proof.
  intros Hw Hh Hv. unfold tables_style. destruct (bool_decide_reflect (s = DEFAULT_STYLE)) as [->|]; [by split_and!|].
  destruct (tb_styles t !! s) as [id|] eqn:E; [by split_and!|].
  destruct (Nat.leb_spec MAX_STYLES (size (tb_styles t))) as [|Hroom]; [by split_and!|].
  destruct Hw as [W1 W2 W3 W4 (W5 & W6 & W7) W8]. assert (N.of_nat MAX_STYLES < 65536)%N as Hm by by vm_compute.
  rw u16_cast_small; [lia|]. set (id := (N.of_nat (size (tb_styles t)) + 1)%N).
  assert (size (<[s:=id]> (tb_styles t)) = S (size (tb_styles t))) as Hsize by by rw map_size_insert_None.
  assert (∀ s' id', tb_styles t !! s' = Some id' → id' ≠ id) as Hfresh by (intros s' id' H; apply W2 in H; unfold id; lia).
  split; [split; cbn [tb_styles tb_links tb_new_styles tb_new_links]; rw ?Hsize|].
  - lia.
  - intros s' id' [[<- <-]|[_ H]]%lookup_insert_Some; [split; [unfold id; lia|done]|]. destruct (W2 _ _ H). split; [lia|done].
  - done.
  - done.
  - rw fmap_app length_app /=. split; [|split; [lia|]].
    + apply NoDup_app. split; [done|]. split; [|apply NoDup_singleton]. intros x Hx. rw list_elem_of_singleton. intros ->.
      apply list_elem_of_fmap in Hx as (d & Ed & Hd). rewrite ->Forall_forall in W7. destruct (W7 d Hd) as [? _]. unfold id in Ed. lia.
    + apply Forall_app. split; [|constructor; [|constructor]; cbn; split; [unfold id; lia|done]]. eapply Forall_impl; [exact W7|].
      intros d [? ?]. split; [lia|done].
  - done.
  - split; [|split; [|split; [done|split; [done|]]]].
    + unfold will_hold in *. cbn [tb_styles tb_links tb_new_styles tb_new_links]. rw define_styles_app. destruct Hh as [H1 H2]. split; [|done]. cbn [tb_styles].
      intros s' id' [[<- <-]|[_ H]]%lookup_insert_Some; cbn; [by rw lookup_insert_eq|]. rw lookup_insert_ne; [|by apply H1].
      intros E'. by apply (Hfresh _ _ H).
    + split; [by apply insert_subseteq|]. by split.
    + cbn. by rw lookup_insert_eq.
Qed.

Lemma tables_link_spec target t styles links :
  tables_wf t → will_hold t styles links → str_len (ht_value target) ≤ MAX_LINK_BYTES →
  let '(t', r) := tables_link target t in
  tables_wf t' ∧ will_hold t' styles links ∧ tables_le t t' ∧ tb_styles t' = tb_styles t ∧
  match r with Some id => tb_links t' !! target_link target = Some id | None => tb_overflowed t' = true end.
Proof.
  intros Hw Hh Hv. unfold tables_link. destruct (Nat.ltb_spec MAX_LINK_BYTES (str_len (ht_value target))) as [?|_]; [lia|].
  destruct (tb_links t !! target_link target) as [id|] eqn:E; [by split_and!|].
  destruct (Nat.leb_spec MAX_LINKS (size (tb_links t))) as [|Hroom].
  { split; [destruct Hw; by split|]. split; [done|]. split; [by split|done]. }
  destruct Hw as [W1 W2 W3 W4 W5 (W6 & W7 & W8)]. assert (N.of_nat MAX_LINKS < 65536)%N as Hm by by vm_compute.
  rw u16_cast_small; [lia|]. set (id := N.of_nat (size (tb_links t))). set (link := target_link target) in *.
  assert (size (<[link:=id]> (tb_links t)) = S (size (tb_links t))) as Hsize by by rw map_size_insert_None.
  assert (∀ l id', tb_links t !! l = Some id' → id' ≠ id) as Hfresh by (intros l id' Hl; apply W4 in Hl; unfold id; lia).
  assert (str_len (link_text link) ≤ MAX_LINK_BYTES) as Hlen by (unfold link, target_link; by destruct (ht_kind target)).
  split; [split; cbn [tb_styles tb_links tb_new_styles tb_new_links]; rw ?Hsize|].
  - done.
  - done.
  - lia.
  - intros l id' [[<- <-]|[_ H]]%lookup_insert_Some; [split; [unfold id; lia|done]|]. destruct (W4 _ _ H). split; [lia|done].
  - done.
  - rw fmap_app length_app /=. split; [|split; [lia|]].
    + apply NoDup_app. split; [done|]. split; [|apply NoDup_singleton]. intros x Hx. rw list_elem_of_singleton. intros ->.
      apply list_elem_of_fmap in Hx as (d & Ed & Hd). rewrite ->Forall_forall in W8. destruct (W8 d Hd) as [? _]. unfold id in Ed. lia.
    + apply Forall_app. split; [|constructor; [|constructor]; cbn; split; [unfold id; lia|done]]. eapply Forall_impl; [exact W8|].
      intros d [? ?]. split; [lia|done].
  - split; [|split; [|split; [done|]]].
    + unfold will_hold in *. cbn [tb_styles tb_links tb_new_styles tb_new_links]. rw define_links_app. destruct Hh as [H1 H2]. split; [done|]. cbn [tb_links].
      intros l id' [[<- <-]|[_ H]]%lookup_insert_Some; cbn; [by rw lookup_insert_eq|]. rw lookup_insert_ne; [|by apply H2].
      intros E'. by apply (Hfresh _ _ H).
    + split; [done|]. split; [by apply insert_subseteq|done].
    + cbn. by rw lookup_insert_eq.
Qed.

Lemma tables_style_le s t : tables_le t (tables_style s t).1.
Proof.
  unfold tables_style. destruct (bool_decide _); [done|]. destruct (tb_styles t !! s) eqn:E; [done|]. destruct (_ <=? _); [done|].
  split; [by apply insert_subseteq|]. by split.
Qed.
Lemma tables_link_le target t : tables_le t (tables_link target t).1.
Proof.
  unfold tables_link. destruct (_ <? _); [done|]. destruct (tb_links t !! _) eqn:E; [done|]. destruct (_ <=? _); [by split|].
  split; [done|]. split; [by apply insert_subseteq|done].
Qed.

(** ** Scanning *)

Definition link_match (a b : option N) : Prop :=
  match a, b with
  | None, None => True
  | Some a, Some b => target_link (link_at a) = target_link (link_at b)
  | _, _ => False
  end.
Lemma link_match_refl a : link_match a a.
Proof. by destruct a. Qed.
Lemma same_link_match a b : same_link link_at a b = true → link_match a b.
Proof.
  unfold same_link, link_match, target_link. destruct a as [a|], b as [b|]; try done. rw orb_true_iff N.eqb_eq andb_true_iff.
  intros [->|[H1%bool_decide_eq_true H2%bool_decide_eq_true]]; [done|]. by rw H1 H2.
Qed.

(** [starts] divides the cells from [pos] up to [end_] into runs. *)
Definition matches (s : RunStart) (c : CellSnapshot N) : Prop :=
  rs_style s = style_of c ∧ link_match (rs_link s) (sent_link link_at c).
Definition stop_of (end_ : nat) (starts : list RunStart) : nat := match starts with next :: _ => rs_cell next | [] => end_ end.
Fixpoint cover (cells : list (CellSnapshot N)) (pos end_ : nat) (starts : list RunStart) : Prop :=
  match starts with
  | [] => pos = end_
  | s :: rest =>
      rs_cell s = pos ∧ pos < stop_of end_ rest ∧ Forall (matches s) (slice pos (stop_of end_ rest) cells) ∧
      cover cells (stop_of end_ rest) end_ rest
  end.
Lemma cover_le cells starts : ∀ pos end_, cover cells pos end_ starts → pos ≤ end_.
Proof.
  induction starts as [|s rest IH]; intros pos end_; cbn [cover]; [lia|]. intros (_ & Hlt & _ & Hc). apply IH in Hc. lia.
Qed.

(** The starts that a scan adds. *)
Fixpoint scan_starts (index : nat) (current : option (StyleFields * option N)) (cells : list (CellSnapshot N)) : list RunStart :=
  match cells with
  | [] => []
  | cell :: cells =>
      let fields := fields_of cell in
      let link := sent_link link_at cell in
      if match current with
         | None => true
         | Some (last, last_link) => negb (bool_decide (last = fields)) || negb (same_link link_at last_link link)
         end
      then {| rs_cell := index; rs_style := fields_style fields; rs_link := link |} :: scan_starts (S index) (Some (fields, link)) cells
      else scan_starts (S index) current cells
  end.
Lemma scan_cells_starts cells : ∀ index current hash starts,
  (scan_cells link_at index current cells hash starts).2 = starts ++ scan_starts index current cells.
Proof.
  induction cells as [|cell cells IH]; intros index current hash starts; cbn [scan_cells scan_starts]; [by rw app_nil_r|].
  destruct (match current with None => true | _ => _ end); rw IH; [|done]. by rw -app_assoc.
Qed.

Lemma slice_app_drop {A} (pre l : list A) n : slice (length pre) (length pre + n) (pre ++ l) = take n l.
Proof. unfold slice. rw drop_app_length. f_equal. lia. Qed.

Lemma scan_cover post cells : ∀ pre fields link,
  let starts := scan_starts (length pre) (Some (fields, link)) cells in
  let end_ := length pre + length cells in
  let stop := stop_of end_ starts in
  length pre ≤ stop ≤ end_ ∧
  Forall (λ c, fields_of c = fields ∧ link_match link (sent_link link_at c)) (take (stop - length pre) cells) ∧
  cover (pre ++ cells ++ post) stop end_ starts.
Proof.
  induction cells as [|c cells IH]; intros pre fields link; cbn zeta.
  { cbn [scan_starts stop_of cover length]. rw Nat.add_0_r take_nil. split; [lia|]. split; [constructor|done]. }
  cbn [scan_starts length]. specialize (IH (pre ++ [c])). rw length_app in IH. cbn [length] in IH. rw Nat.add_1_r -app_assoc in IH. cbn [app] in IH.
  replace (length pre + S (length cells)) with (S (length pre) + length cells) by lia.
  destruct (negb (bool_decide (fields = fields_of c)) || negb (same_link link_at link (sent_link link_at c))) eqn:E.
  - destruct (IH (fields_of c) (sent_link link_at c)) as ([H1 H2] & H3 & H4). cbn [stop_of rs_cell]. split; [lia|].
    rw Nat.sub_diag. split; [constructor|]. cbn [cover rs_cell]. set (stop := stop_of _ _) in *. split; [done|]. split; [lia|]. split; [|done].
    replace stop with (length pre + S (stop - S (length pre))) by lia. rw slice_app_drop. cbn [take app].
    constructor; [split; [done|apply link_match_refl]|]. rw take_app_le; [lia|]. eapply Forall_impl; [exact H3|].
    intros c' [Ec Hl]. split; [|done]. unfold style_of. by rw Ec.
  - apply orb_false_iff in E as [Ef%negb_false_iff%bool_decide_eq_true El%negb_false_iff]. apply same_link_match in El.
    destruct (IH fields link) as ([H1 H2] & H3 & H4). split; [lia|]. split; [|done].
    set (stop := stop_of _ _) in *. replace (stop - length pre) with (S (stop - S (length pre))) by lia. by constructor.
Qed.

(** The end of a row: the cells after it are blank. *)
Definition row_end (cells : list (CellSnapshot N)) : nat :=
  match vrposition (λ c, negb (cell_blank c)) cells with Some last => last + 1 | None => 0 end.

Lemma vposition_bound {A} (p : A → bool) l i : vposition p l = Some i → i < length l ∧ Forall (λ x, p x = false) (take i l).
Proof.
  revert i. induction l as [|x l IH]; intros i; [done|]. cbn [vposition]. destruct (p x) eqn:E.
  - intros [= <-]. simpl. split; [lia|constructor].
  - intros (j & Hj & ->)%fmap_Some. destruct (IH j Hj). simpl. split; [lia|by constructor].
Qed.
Lemma vposition_none {A} (p : A → bool) l : vposition p l = None → Forall (λ x, p x = false) l.
Proof.
  induction l as [|x l IH]; [constructor|]. cbn [vposition]. destruct (p x) eqn:E; [done|]. intros H%fmap_None. auto.
Qed.

Lemma row_end_spec cells : row_end cells ≤ length cells ∧ Forall (λ c, cell_blank c = true) (drop (row_end cells) cells).
Proof.
  unfold row_end, vrposition. destruct (vposition _ (rev cells)) as [i|] eqn:E; cbn [fmap option_fmap option_map].
  - apply vposition_bound in E as [Hi Hf]. rw length_rev in Hi. split; [lia|].
    replace (length cells - S i + 1) with (length cells - i) by lia. apply Forall_rev in Hf.
    rw firstn_rev rev_involutive in Hf. eapply Forall_impl; [exact Hf|]. intros c. cbn beta. by rw negb_false_iff.
  - split; [lia|]. rw drop_0. apply vposition_none, Forall_rev in E. rw rev_involutive in E.
    eapply Forall_impl; [exact E|]. intros c. cbn beta. by rw negb_false_iff.
Qed.

(** A scan ends at the row's end and covers the cells before it. *)
Definition row_starts (cells : list (CellSnapshot N)) : list RunStart := scan_starts 0 None (take (row_end cells) cells).
Lemma scan_of_spec cells starts :
  let '(scan, starts') := scan_of link_at cells starts in
  sc_end scan = row_end cells ∧ starts' = starts ++ row_starts cells ∧ sc_starts scan = (length starts, length starts + length (row_starts cells)).
Proof.
  unfold scan_of. fold (row_end cells). pose proof (scan_cells_starts (take (row_end cells) cells) 0 None 0%N starts) as H.
  destruct (scan_cells _ _ _ _ _ _) as [hash starts']. cbn [snd] in H. subst starts'. by rw length_app.
Qed.

Lemma row_cover cells : cover cells 0 (row_end cells) (row_starts cells).
Proof.
  unfold row_starts. destruct (row_end_spec cells) as [Hend _]. set (n := row_end cells) in *. clearbody n.
  destruct n as [|n]; [by rw take_0|]. destruct cells as [|c cells]; [simpl in Hend; lia|]. cbn [length] in Hend.
  cbn [take scan_starts]. pose proof (scan_cover (drop n cells) (take n cells) [c] (fields_of c) (sent_link link_at c)) as H. cbn zeta in H.
  cbn [app length] in H. rw take_drop length_take in H. replace (1 + n `min` length cells) with (S n) in H by lia.
  destruct H as (H1 & H2 & H3). cbn [cover rs_cell]. set (stop := stop_of _ _) in *. split; [done|]. split; [lia|]. split; [|done].
  unfold slice. rw Nat.sub_0_r drop_0. replace stop with (S (stop - 1)) by lia. cbn [take].
  constructor; [split; [done|apply link_match_refl]|]. rw take_take Nat.min_l in H2; [lia|]. eapply Forall_impl; [exact H2|].
  intros c' [Ec Hl]. split; [|done]. unfold style_of. by rw Ec.
Qed.

(** ** Building a line *)

Definition refs (t : Tables) (r : Run) (c : CellSnapshot N) : Prop :=
  ref_style t (rn_style r) (style_of c) ∧ ref_link t (rn_link r) (sent_link link_at c).

(** The state of [Line::build] after the cells before [pos]. *)
Record building (styles : gmap N (CellSnapshot HyperlinkTarget)) (links : gmap N (option HyperlinkTarget))
    (cells : list (CellSnapshot N)) (pos : nat) (s : LineState) : Prop := {
  bu_wf : tables_wf (ls_tables s);
  bu_hold : will_hold (ls_tables s) styles links;
  bu_style : match ls_last_style s with Some (style, r) => ref_style (ls_tables s) r style | None => True end;
  bu_link : match ls_last_link s with
            | Some (target, Some id) => tb_links (ls_tables s) !! target_link (link_at target) = Some id
            | Some (_, None) => tb_overflowed (ls_tables s) = true
            | None => True
            end;
  bu_runs : ls_runs s = [] ∧ ls_first s = 0 ∧ pos = 0 ∨
    ∃ init run, ls_runs s = init ++ [run] ∧ ls_first s < pos ∧ line_shows (ls_tables s) init (take (ls_first s) cells) ∧
      rn_text run = concat (map cell_text (slice (ls_first s) pos cells)) ∧ rn_cells run = Narrow ∧
      ls_narrow s = vall one_char (slice (ls_first s) pos cells) ∧ Forall (refs (ls_tables s) run) (slice (ls_first s) pos cells)
}.

Lemma slice_app {A} (l : list A) a b c : a ≤ b ≤ c → slice a c l = slice a b l ++ slice b c l.
Proof.
  intros H. unfold slice. rewrite <-(take_drop (b - a) (take (c - a) (drop a l))). rw take_take Nat.min_l; [lia|]. f_equal.
  rw skipn_firstn_comm drop_drop. f_equal; [lia|]. f_equal. lia.
Qed.
Lemma take_slice {A} (l : list A) a b : a ≤ b → take b l = take a l ++ slice a b l.
Proof. intros H. pose proof (slice_app l 0 a b) as E. unfold slice in *. rw !Nat.sub_0_r !drop_0 in E. apply E. lia. Qed.
Lemma slice_nonempty {A} (l : list A) a b : a < b → b ≤ length l → slice a b l ≠ [].
Proof. intros H Hl E. apply (f_equal length) in E. unfold slice in E. rw length_take length_drop in E. simpl in E. lia. Qed.

Lemma last_snoc_some {A} (l : list A) x : last (l ++ [x]) = Some x.
Proof. by rw last_snoc. Qed.

Lemma building_finish styles links cells pos s :
  building styles links cells pos s → pos ≤ length cells →
  line_shows (ls_tables s) (finish_run (ls_runs s) (slice (ls_first s) pos cells) (ls_narrow s)) (take pos cells).
Proof.
  intros [_ _ _ _ Hr] Hp. destruct Hr as [(-> & -> & ->)|(init & run & -> & Hf & (groups & Eg & Hg) & Et & Ec & En & Hc)].
  { exists []. by rw take_0. }
  set (cs := slice (ls_first s) pos cells) in *.
  assert (cs ≠ []) as Hne by by apply slice_nonempty.
  exists (groups ++ [cs]). split; [rw concat_app Eg /= app_nil_r; symmetry; apply take_slice; lia|].
  unfold finish_run. rw last_snoc. destruct (ls_narrow s) eqn:E; cbn [negb]; symmetry in En.
  - apply Forall2_app; [done|]. constructor; [|constructor]. split; [done|]. split; [done|]. split; [|done].
    rw Ec. cbn [cells_fit]. apply Forall_forall. intros c Hin. unfold vall in En. rewrite ->forallb_forall in En. by apply En, list_elem_of_In.
  - rw removelast_last. apply Forall2_app; [done|]. constructor; [|constructor]. by split_and!.
Qed.

(** Sent links are short enough for the table. *)
Lemma sent_link_len c target : sent_link link_at c = Some target → str_len (ht_value (link_at target)) ≤ MAX_LINK_BYTES.
Proof.
  unfold sent_link. destruct (c_hyperlink c); [|done]. destruct (Nat.leb_spec (str_len (ht_value (link_at n))) MAX_LINK_BYTES); [|done].
  by intros [= ->].
Qed.
Lemma link_text_target target : link_text (target_link target) = ht_value target.
Proof. unfold target_link. by destruct (ht_kind target). Qed.

Lemma ref_link_match t r a b : ref_link t r a → link_match a b → ref_link t r b.
Proof. destruct r, a, b; simpl; try done. by intros H <-. Qed.
Lemma ref_style_le t t' r s : tables_le t t' → ref_style t r s → ref_style t' r s.
Proof. intros (H & _ & _). destruct r; simpl; try done. intros E. by eapply lookup_weaken. Qed.
Lemma ref_link_le t t' r l : tables_le t t' → ref_link t r l → ref_link t' r l.
Proof. intros (_ & H & _). destruct r, l; simpl; try done. intros E. by eapply lookup_weaken. Qed.
Lemma refs_le t t' r c : tables_le t t' → refs t r c → refs t' r c.
Proof. intros H [H1 H2]. split; [by eapply ref_style_le|by eapply ref_link_le]. Qed.

(** The style of a start, from the last one or from the table. *)
Definition start_style (start : RunStart) (s : LineState) : Tables * StyleRef :=
  match ls_last_style s with
  | Some (last, id) => if bool_decide (last = rs_style start) then (ls_tables s, id) else tables_style (rs_style start) (ls_tables s)
  | None => tables_style (rs_style start) (ls_tables s)
  end.
Definition start_link (start : RunStart) (s : LineState) (t : Tables) : Tables * option (N * option N) * option N :=
  match rs_link start with
  | None => (t, ls_last_link s, None)
  | Some target =>
      let ask := let '(t, id) := tables_link (link_at target) t in (t, Some (target, id), id) in
      match ls_last_link s with
      | Some (last, id) => if (target =? last)%N then (t, ls_last_link s, id) else ask
      | None => ask
      end
  end.

Lemma start_style_spec start s styles links cells pos :
  building styles links cells pos s → style_valid (rs_style start) = true →
  let '(t, r) := start_style start s in
  tables_wf t ∧ will_hold t styles links ∧ tables_le (ls_tables s) t ∧ tb_links t = tb_links (ls_tables s) ∧
  tb_overflowed t = tb_overflowed (ls_tables s) ∧ ref_style t r (rs_style start).
Proof.
  intros [Hw Hh Hs _ _] Hv. pose proof (tables_style_spec (rs_style start) (ls_tables s) styles links Hw Hh Hv) as Hask. unfold start_style.
  destruct (ls_last_style s) as [[last id]|]; [|done]. destruct (bool_decide_reflect (last = rs_style start)) as [<-|]; [|done].
  by split_and!.
Qed.

Lemma start_link_spec start s t styles links cells pos :
  building styles links cells pos s → tables_wf t → will_hold t styles links → tb_links t = tb_links (ls_tables s) →
  tb_overflowed t = tb_overflowed (ls_tables s) →
  match rs_link start with Some target => str_len (ht_value (link_at target)) ≤ MAX_LINK_BYTES | None => True end →
  let '(t', last_link, r) := start_link start s t in
  tables_wf t' ∧ will_hold t' styles links ∧ tables_le t t' ∧
  match last_link with
  | Some (target, Some id) => tb_links t' !! target_link (link_at target) = Some id
  | Some (_, None) => tb_overflowed t' = true
  | None => True
  end ∧ ((tb_overflowed t' = true → lossy = true) → ref_link t' r (rs_link start)).
Proof.
  intros [_ _ _ Hk _] Hw Hh El Eo Hlen. unfold start_link. rw -El -Eo in Hk. destruct (rs_link start) as [target|]; [|by split_and!].
  pose proof (tables_link_spec (link_at target) t styles links Hw Hh Hlen) as Hask.
  assert (let '(t', last_link, r) := (let '(t', id) := tables_link (link_at target) t in (t', Some (target, id), id)) in
    tables_wf t' ∧ will_hold t' styles links ∧ tables_le t t' ∧
    match last_link with
    | Some (target, Some id) => tb_links t' !! target_link (link_at target) = Some id
    | Some (_, None) => tb_overflowed t' = true
    | None => True
    end ∧ ((tb_overflowed t' = true → lossy = true) → ref_link t' r (Some target))) as Hfresh.
  { destruct (tables_link (link_at target) t) as [t' r]. destruct Hask as (A1 & A2 & A3 & _ & A4). split; [done|]. split; [done|]. split; [done|]. split; [by destruct r|].
    intros Hlossy. destruct r; [done|]. cbn. auto. }
  destruct (ls_last_link s) as [[last id]|]; [|done]. destruct (N.eqb_spec target last) as [->|]; [|done]. split; [done|]. split; [done|]. split; [done|]. split; [done|].
  intros Hlossy. destruct id; [done|]. cbn. auto.
Qed.

Lemma build_start_eq cells start stop s :
  build_start link_at cells start stop s =
  let '(t, style) := start_style start s in
  let '(t, last_link, link) := start_link start s t in
  let fresh := match last (ls_runs s) with
               | None => true
               | Some run => negb (bool_decide (rn_style run = style)) || negb (bool_decide (rn_link run = link))
               end in
  let run := slice (rs_cell start) stop cells in
  if fresh : bool
  then {| ls_runs := push_cells (finish_run (ls_runs s) (slice (ls_first s) (rs_cell start) cells) (ls_narrow s)
                                   ++ [{| rn_style := style; rn_link := link; rn_text := []; rn_cells := Narrow |}]) run;
          ls_first := rs_cell start; ls_narrow := vall one_char run; ls_last_style := Some (rs_style start, style);
          ls_last_link := last_link; ls_tables := t |}
  else {| ls_runs := push_cells (ls_runs s) run; ls_first := ls_first s; ls_narrow := ls_narrow s && vall one_char run;
          ls_last_style := Some (rs_style start, style); ls_last_link := last_link; ls_tables := t |}.
Proof.
  unfold build_start. fold (start_style start s). destruct (start_style start s) as [t style]. fold (start_link start s t).
  destruct (start_link start s t) as [[t' last_link] link]. by destruct (match last (ls_runs s) with None => true | _ => _ end).
Qed.

Lemma push_last {L} init run (cs : list (CellSnapshot L)) :
  push_cells (init ++ [run]) cs =
  init ++ [{| rn_style := rn_style run; rn_link := rn_link run; rn_text := rn_text run ++ concat (map cell_text cs); rn_cells := rn_cells run |}].
Proof. unfold push_cells. by rw last_snoc removelast_last. Qed.

Lemma matched_refs t start style link cells :
  ref_style t style (rs_style start) → ref_link t link (rs_link start) → Forall (matches start) cells →
  Forall (λ c, ref_style t style (style_of c) ∧ ref_link t link (sent_link link_at c)) cells.
Proof.
  intros Hs Hl Hm. eapply Forall_impl; [exact Hm|]. intros c [E Hk]. split; [by rw -E|by eapply ref_link_match].
Qed.

Lemma build_start_step styles links cells pos stop start s :
  building styles links cells pos s → rs_cell start = pos → pos < stop ≤ length cells → Forall (matches start) (slice pos stop cells) →
  (tb_overflowed (ls_tables (build_start link_at cells start stop s)) = true → lossy = true) →
  building styles links cells stop (build_start link_at cells start stop s).
Proof.
  intros Hb Hpos Hstop Hm Hlossy. pose proof Hb as [_ _ _ _ Hruns].
  assert (∃ c, c ∈ slice pos stop cells) as [c0 Hc0].
  { pose proof (slice_nonempty cells pos stop) as H. destruct (slice pos stop cells) as [|c0 ?]; [by destruct H; [lia|lia|]|]. exists c0. by left. }
  pose proof (proj1 (Forall_forall _ _) Hm c0 Hc0) as [Es0 El0].
  assert (style_valid (rs_style start) = true) as Hv by (rw Es0; apply fields_style_valid).
  assert (match rs_link start with Some target => str_len (ht_value (link_at target)) ≤ MAX_LINK_BYTES | None => True end) as Hlen.
  { unfold link_match in El0. destruct (rs_link start) as [target|]; [|done]. destruct (sent_link link_at c0) as [sent|] eqn:E; [|done].
    apply sent_link_len in E. by rw -link_text_target El0 link_text_target. }
  rw build_start_eq in Hlossy |- *. pose proof (start_style_spec _ _ _ _ _ _ Hb Hv) as H1. destruct (start_style start s) as [t style].
  destruct H1 as (Hw1 & Hh1 & Hle1 & El & Eo & Hr1). pose proof (start_link_spec start s t _ _ _ _ Hb Hw1 Hh1 El Eo Hlen) as H2.
  destruct (start_link start s t) as [[t' last_link] link]. destruct H2 as (Hw2 & Hh2 & Hle2 & Hll & Hr2).
  assert (tables_le (ls_tables s) t') as Hle by by etrans.
  set (fresh := match last (ls_runs s) with None => true | _ => _ end) in *. rw Hpos in Hlossy |- *.
  assert (ref_link t' link (rs_link start)) as Hl2 by (apply Hr2; by destruct fresh).
  assert (ref_style t' style (rs_style start)) as Hs2 by exact (ref_style_le _ _ _ _ Hle2 Hr1).
  pose proof (matched_refs t' start style link _ Hs2 Hl2 Hm) as Hrefs. destruct fresh eqn:Ef.
  - split; cbn [ls_tables ls_last_style ls_last_link ls_runs ls_first ls_narrow]; try done. right. rw push_last. do 2 eexists. split; [done|].
    cbn [rn_text rn_cells app]. split; [lia|]. split; [|by split_and!]. eapply line_shows_le; [exact Hle|].
    apply (building_finish styles links cells); [done|lia].
  - unfold fresh in Ef. destruct Hruns as [(E & _)|(init & run & E & Hf & Hi & Et & Ec & En & Hc)]; rw E in Ef; [done|]. rw last_snoc in Ef.
    apply orb_false_iff in Ef as [E1%negb_false_iff%bool_decide_eq_true E2%negb_false_iff%bool_decide_eq_true].
    split; cbn [ls_tables ls_last_style ls_last_link ls_runs ls_first ls_narrow]; try done. right. rw E push_last. do 2 eexists. split; [done|].
    cbn [rn_text rn_cells]. rw (slice_app cells (ls_first s) pos stop); [lia|]. split; [lia|]. split; [by eapply line_shows_le|].
    rw Et map_app concat_app. split; [done|]. split; [done|]. rw En. split; [by rw /vall forallb_app|]. apply Forall_app. split.
    + eapply Forall_impl; [exact Hc|]. intros c Hr. exact (refs_le _ t' _ _ Hle Hr).
    + unfold refs. cbn [rn_style rn_link]. by rw E1 E2.
Qed.

Lemma start_le start s : tables_le (ls_tables s) (start_style start s).1.
Proof.
  unfold start_style. pose proof (tables_style_le (rs_style start) (ls_tables s)). destruct (ls_last_style s) as [[last id]|]; [|done].
  by destruct (bool_decide _).
Qed.
Lemma start_link_le start s t : tables_le t (start_link start s t).1.1.
Proof.
  unfold start_link. destruct (rs_link start) as [target|]; [|done]. pose proof (tables_link_le (link_at target) t) as H.
  assert (tables_le t (let '(t', id) := tables_link (link_at target) t in (t', Some (target, id), id)).1.1) as H' by by destruct (tables_link _ _).
  destruct (ls_last_link s) as [[last id]|]; [|done]. by destruct (_ =? _)%N.
Qed.
Lemma build_start_le cells start stop s : tables_le (ls_tables s) (ls_tables (build_start link_at cells start stop s)).
Proof.
  rw build_start_eq. pose proof (start_le start s) as H1. destruct (start_style start s) as [t style]. cbn [fst] in H1.
  pose proof (start_link_le start s t) as H2. destruct (start_link start s t) as [[t' last_link] link]. cbn [fst] in H2.
  destruct (match last (ls_runs s) with None => true | _ => _ end); cbn [ls_tables]; by etrans.
Qed.
Lemma build_starts_le cells end_ starts : ∀ s, tables_le (ls_tables s) (ls_tables (build_starts link_at cells end_ starts s)).
Proof. induction starts as [|start rest IH]; intros s; [done|]. cbn [build_starts]. etrans; [apply build_start_le|apply IH]. Qed.

Lemma build_starts_all styles links cells end_ starts : ∀ pos s,
  building styles links cells pos s → cover cells pos end_ starts → end_ ≤ length cells →
  (tb_overflowed (ls_tables (build_starts link_at cells end_ starts s)) = true → lossy = true) →
  building styles links cells end_ (build_starts link_at cells end_ starts s).
Proof.
  induction starts as [|start rest IH]; intros pos s Hb Hc Hend Hlossy; cbn [build_starts cover] in *; [by subst|].
  destruct Hc as (Hpos & Hlt & Hm & Hc). pose proof (cover_le _ _ _ _ Hc). fold (stop_of end_ rest) in Hlossy |- *.
  eapply IH; [|exact Hc|done|exact Hlossy]. apply (build_start_step _ _ _ pos); [done|done|lia|done|]. intros Ho. apply Hlossy.
  by apply (build_starts_le cells end_ rest).
Qed.

(** The line of a row shows its cells up to the end, through tables the client will hold. *)
Lemma line_build_spec styles links cells wrapped starts a b scan t :
  tables_wf t → will_hold t styles links →
  starts = a ++ row_starts cells ++ b → sc_end scan = row_end cells → sc_starts scan = (length a, length a + length (row_starts cells)) →
  let '(t', line) := line_build link_at cells wrapped scan starts t in
  tables_le t t' ∧
  ((tb_overflowed t' = true → lossy = true) →
   tables_wf t' ∧ will_hold t' styles links ∧ ln_wrapped line = wrapped ∧ line_shows t' (ln_runs line) (take (row_end cells) cells)).
Proof.
  intros Hw Hh -> Ee Es. unfold line_build. rw Es Ee. cbn [fst snd]. rw slice_app_drop take_app_length.
  set (s0 := Build_LineState _ _ _ _ _ _). set (s := build_starts _ _ _ _ s0). destruct (row_end_spec cells) as [Hend _].
  split; [apply (build_starts_le cells (row_end cells) (row_starts cells) s0)|]. intros Hlossy.
  assert (building styles links cells (row_end cells) s) as Hb.
  { apply (build_starts_all styles links cells _ _ 0); [|apply row_cover|done|exact Hlossy]. split; try done. by left. }
  pose proof Hb as [Hw' Hh' _ _ _]. split; [done|]. split; [done|]. split; [done|]. by apply (building_finish styles links).
Qed.

(** ** Rows *)

(** A row of [columns] cells is decoded to cells that show it, the blank ones included. *)
Lemma row_decodes t runs cells columns :
  length cells = columns → line_shows t runs (take (row_end cells) cells) →
  ∃ ds, Forall2 cell_shown cells ds ∧
    ∀ styles links index wrapped, held t styles links →
      decode_row styles links columns {| ro_index := index; ro_wrapped := wrapped; ro_runs := runs |} = Ok ds.
Proof.
  intros Hlen Hl. destruct (line_decodes _ _ _ Hl) as (ds & Hd & Hdec). destruct (row_end_spec cells) as [Hend Hblank].
  pose proof (Forall2_length _ _ _ Hd) as Hds. rw length_take Nat.min_l // in Hds.
  exists (ds ++ repeat blank_cell (columns - row_end cells)). split.
  - rewrite <-(take_drop (row_end cells) cells) at 1. apply Forall2_app; [done|].
    assert (length (drop (row_end cells) cells) = columns - row_end cells) as <- by (rw length_drop; lia).
    induction Hblank as [|c l Hc _ IH]; cbn [length repeat]; constructor; [|done]. destruct (blank_shown c Hc) as [Hk Hs].
    exists None. split; [done|]. left. unfold client_link, sent_link. by rw Hk.
  - intros styles links index wrapped Hh. unfold decode_row. cbn [ro_runs]. rw (Hdec styles links columns []) //.
    { cbn [length]. rw length_take. lia. }
    cbn [result_bind app]. rw -Hds take_ge //. lia.
Qed.

(** Cells that are equal where it counts are shown alike. *)
Lemma same_cell_spec a b :
  same_cell link_at a b = true →
  cell_text a = cell_text b ∧ style_of a = style_of b ∧ link_match (sent_link link_at a) (sent_link link_at b) ∧
  ∀ d, cell_shown a d → cell_shown b d.
Proof.
  unfold same_cell. rw !andb_true_iff. intros [[[[Hf%bool_decide_eq_true Hs%Bool.eqb_prop] _] Ht%bool_decide_eq_true] Hl%bool_decide_eq_true].
  assert (cell_text a = cell_text b) as Et by (unfold cell_text; by rw Hs Ht).
  assert (link_match (sent_link link_at a) (sent_link link_at b) ∧ client_link a = client_link b) as [Hk Ec].
  { unfold client_link, sent_link. destruct (c_hyperlink a) as [x|], (c_hyperlink b) as [y|]; try done. injection Hl as Hl. rw Hl.
    destruct (_ <=? _); [|done]. split; [by cbn; rw Hl|]. cbn. by rw Hl. }
  split; [done|]. split; [by rw /style_of Hf|]. split; [done|]. intros d (link & -> & Hlink). exists link. split; [|by rw -Ec].
  pose proof (filled_cell a link) as Fa. rw Hf Hs Et in Fa. by rw -Fa filled_cell.
Qed.

Lemma same_cells_Forall2 a b : same_cells link_at a b = true ↔ Forall2 (λ x y, same_cell link_at x y = true) a b.
Proof.
  split.
  - revert b. induction a as [|x a IH]; intros [|y b]; cbn [same_cells]; try done. rw andb_true_iff. intros [? ?]. constructor; auto.
  - induction 1 as [|x y a b H _ IH]; [done|]. cbn [same_cells]. by rw H IH.
Qed.

Lemma line_shows_same t runs a b : same_cells link_at a b = true → line_shows t runs a → line_shows t runs b.
Proof.
  rw same_cells_Forall2. intros Hs (groups & <- & Hg). revert b Hs. induction Hg as [|r cs runs groups Hr _ IH]; intros b Hs.
  { cbn [concat] in Hs. apply Forall2_nil_inv_l in Hs as ->. by exists []. }
  cbn [concat] in Hs. apply Forall2_app_inv_l in Hs as (b1 & b2 & H1 & H2 & ->). destruct (IH b2 H2) as (groups' & <- & Hg').
  exists (b1 :: groups'). split; [done|]. constructor; [|done]. destruct Hr as (Hne & Et & Hf & Hc).
  assert (map cell_text cs = map cell_text b1) as Em.
  { clear -H1 local_files lossy. induction H1 as [|x y cs b1 H _ IH]; [done|]. cbn [map]. destruct (same_cell_spec _ _ H) as (-> & _). by rw IH. }
  split; [by intros ->; apply Forall2_nil_inv_r in H1|]. split; [by rw Et Em|]. split.
  - unfold cells_fit in *. destruct (rn_cells r).
    + clear -H1 Hf local_files lossy. induction H1 as [|x y cs b1 H _ IH]; constructor; apply Forall_cons in Hf as [Hx Hf]; [|auto].
      unfold one_char in *. destruct (same_cell_spec _ _ H) as (<- & _). done.
    + rw Hf. rewrite <-(map_map cell_text (λ s, u16_cast (str_len s))). by rw Em map_map.
  - clear -H1 Hc local_files lossy. induction H1 as [|x y cs b1 H _ IH]; constructor; apply Forall_cons in Hc as [[Hs Hl] Hc]; [|auto].
    destruct (same_cell_spec _ _ H) as (_ & <- & Hm & _). split; [done|]. by eapply ref_link_match.
Qed.

(** Runs that show a row pass the check of a peer. *)
Lemma covers_ranges cs : ∀ pre,
  covers_from (pre ++ concat (map cell_text cs)) (str_len pre) (map (λ c : CellSnapshot N, u16_cast (str_len (cell_text c))) cs) = true.
Proof.
  induction cs as [|c cs IH]; intros pre; cbn [map concat covers_from]; [rw app_nil_r; apply Nat.eqb_refl|].
  rw cell_text_cast. pose proof (cell_text_len c). destruct (Nat.ltb_spec MAX_CELL_BYTES (str_len (cell_text c))); [lia|]. cbn [orb].
  assert (char_boundary (pre ++ cell_text c ++ concat (map cell_text cs)) (str_len pre + str_len (cell_text c)) = true) as ->.
  { apply boundary_split. exists (pre ++ cell_text c), (concat (map cell_text cs)). by rw str_len_app app_assoc. }
  cbn [negb]. specialize (IH (pre ++ cell_text c)). by rw str_len_app -app_assoc in IH.
Qed.

Lemma line_valid t runs cs columns :
  tables_wf t → line_shows t runs cs → columns + length cs ≤ N.to_nat MAX_COLUMNS →
  runs_valid columns runs = true ∧ length runs ≤ length cs.
Proof.
  intros Hw (groups & <- & Hg). revert columns. induction Hg as [|r cs runs groups Hr _ IH]; intros columns Hlen; [done|].
  cbn [concat length] in *. rw length_app in Hlen |- *. destruct (IH (columns + length cs)) as [IHv IHl]; [lia|].
  destruct (run_ranges _ _ _ Hr) as [_ Ew]. destruct Hr as (Hne & Et & Hf & Hc).
  split; [|destruct cs; [done|]; cbn [length]; lia]. cbn [runs_valid]. rw Ew. destruct cs as [|c cs]; [done|].
  pose proof (Forall_inv Hc) as [Hs Hk]. rw !andb_true_iff. split; [split|].
  - destruct (rn_style r) as [|id|style]; simpl in Hs; [done| |by rw Hs; apply fields_style_valid].
    destruct (tw_style t Hw _ _ Hs) as [? _]. pose proof (tw_styles t Hw). rw andb_true_iff !N.leb_le. lia.
  - destruct (rn_link r) as [id|]; [|done]. simpl in Hk. destruct (sent_link link_at c); [|done].
    destruct (tw_link t Hw _ _ Hk) as [? _]. pose proof (tw_links t Hw). rw N.ltb_lt. lia.
  - split; [split|done]; [apply Nat.leb_le; lia|]. unfold covers_text, cells_fit in *. destruct (rn_cells r); [done|].
    rw Hf Et. apply (covers_ranges (c :: cs) []).
Qed.

(** ** No link is lost when all fit *)

Definition tables_fit (X : gset Hyperlink) (t : Tables) : Prop :=
  (∀ l id, tb_links t !! l = Some id → l ∈ X) ∧ size X ≤ MAX_LINKS ∧ tb_overflowed t = false.

Lemma tables_style_fit X s t : tables_fit X t → tables_fit X (tables_style s t).1.
Proof. unfold tables_style. destruct (bool_decide _); [done|]. destruct (tb_styles t !! s); [done|]. by destruct (_ <=? _). Qed.
Lemma tables_link_fit X target t : tables_fit X t → target_link target ∈ X → tables_fit X (tables_link target t).1.
Proof.
  intros (Hx & Hsize & Ho) Hin. unfold tables_link. destruct (_ <? _); [done|]. destruct (tb_links t !! target_link target) eqn:E; [done|].
  destruct (Nat.leb_spec MAX_LINKS (size (tb_links t))) as [Hfull|].
  - exfalso. assert (dom (tb_links t) ⊆ X ∖ {[target_link target]}) as Hdom.
    { intros l [id Hl]%elem_of_dom. apply elem_of_difference. split; [by eapply Hx|]. rw elem_of_singleton. intros ->. congruence. }
    apply subseteq_size in Hdom. rw size_dom size_difference in Hdom; [set_solver|]. rw size_singleton in Hdom.
    assert (size X ≠ 0). { intros E0. apply size_empty_inv in E0. set_solver. } lia.
  - split; [|done]. intros l id. cbn [fst tb_links]. intros [[<- _]|[_ H']]%lookup_insert_Some; [done|by eapply Hx].
Qed.

Definition start_in (X : gset Hyperlink) (start : RunStart) : Prop :=
  match rs_link start with Some target => target_link (link_at target) ∈ X | None => True end.
Lemma build_starts_fit X cells end_ starts : ∀ s,
  tables_fit X (ls_tables s) → Forall (start_in X) starts → tables_fit X (ls_tables (build_starts link_at cells end_ starts s)).
Proof.
  induction starts as [|start rest IH]; intros s Hs Hin; [done|]. apply Forall_cons in Hin as [Hstart Hin]. cbn [build_starts].
  apply IH; [|done]. rw build_start_eq.
  assert (tables_fit X (start_style start s).1) as H1.
  { unfold start_style. pose proof (tables_style_fit X (rs_style start) _ Hs). destruct (ls_last_style s) as [[last id]|]; [|done]. by destruct (bool_decide _). }
  destruct (start_style start s) as [t style]. cbn [fst] in H1.
  assert (tables_fit X (start_link start s t).1.1) as H2.
  { unfold start_link, start_in in *. destruct (rs_link start) as [target|]; [|done]. pose proof (tables_link_fit X _ t H1 Hstart) as Hask.
    assert (tables_fit X (let '(t', id) := tables_link (link_at target) t in (t', Some (target, id), id)).1.1) as H' by by destruct (tables_link _ _).
    destruct (ls_last_link s) as [[last id]|]; [|done]. by destruct (_ =? _)%N. }
  destruct (start_link start s t) as [[t' last_link] link]. cbn [fst] in H2. by destruct (match last (ls_runs s) with None => true | _ => _ end).
Qed.

(** The links a row sends. *)
Definition row_links (cells : list (CellSnapshot N)) : list Hyperlink :=
  omap (λ c, (λ target, target_link (link_at target)) <$> sent_link link_at c) cells.

Lemma scan_starts_in X cells : ∀ index current,
  (∀ l, l ∈ row_links cells → l ∈ X) → Forall (start_in X) (scan_starts index current cells).
Proof.
  induction cells as [|c cells IH]; intros index current Hx; [constructor|]. cbn [scan_starts].
  assert (∀ l, l ∈ row_links cells → l ∈ X) as Hx'.
  { intros l Hl. apply Hx. unfold row_links in *. cbn [omap list_omap]. destruct (_ <$> _); [by right|done]. }
  destruct (match current with None => true | _ => _ end); [|by apply IH]. constructor; [|by apply IH]. unfold start_in. cbn [rs_link].
  destruct (sent_link link_at c) as [target|] eqn:E; [|done]. apply Hx. unfold row_links. cbn [omap list_omap]. rw E. by left.
Qed.

Lemma line_build_fit X cells wrapped starts a b scan t :
  tables_fit X t → (∀ l, l ∈ row_links cells → l ∈ X) →
  starts = a ++ row_starts cells ++ b → sc_starts scan = (length a, length a + length (row_starts cells)) →
  tables_fit X (line_build link_at cells wrapped scan starts t).1.
Proof.
  intros Ht Hx -> Es. unfold line_build. rw Es. cbn [fst snd]. rw slice_app_drop take_app_length. apply build_starts_fit; [done|].
  apply scan_starts_in. intros l Hl. apply Hx. unfold row_links in *. rewrite <-(take_drop (row_end cells) cells). rw omap_app elem_of_app. by left.
Qed.
End lines.
