(* ===== verification/ScreenTheorems.v ===== *)
(** * A client shows the server's screen

    Along every run of captures, lost frames and reconnects, the frames that
    [ScreenEncoder::encode] sends are valid, [ScreenDecoder::apply] takes them, and what a
    client then shows is the captured screen; so does a page of Scrollback. *)
From stdpp Require Import gmap sorting.
From Stdlib Require Import Lia.
From S2P Require Import Prelude.
From S2P Require Import Text.
From S2P Require Import Bytes.
From S2P Require Import Screen.
From S2P Require Import ScreenEncoder.
From S2P Require Import ScreenDecoder.
From S2P Require Import ScreenLines.

(** ** Scrolls *)

Lemma shift_apply_length {A} s (l : list A) b m : shift_apply s l b = Some m → length m = length l.
Proof.
  unfold shift_apply. destruct (_ <=? _) eqn:E1; [|done]. destruct (N.to_nat (sh_bottom s) <=? length l) eqn:E2; [|done].
  apply Nat.leb_le in E1, E2. cbn [andb]. set (region := take _ _).
  assert (length region = N.to_nat (sh_bottom s) - N.to_nat (sh_top s)) as Hr by (unfold region; rw length_take length_drop; lia).
  destruct (Nat.leb_spec (length region) (Z.to_nat (Z.abs (sh_lines s)))); [done|]. intros [= <-].
  clearbody region. destruct (0 <? sh_lines s)%Z; rw !length_app !repeat_length !length_drop !length_take; lia.
Qed.

(** Rows that correspond still correspond after the same scroll. *)
Lemma shift_apply_Forall2 {A B} (R : A → B → Prop) s l l' b b' m :
  Forall2 R l l' → R b b' → shift_apply s l b = Some m → ∃ m', shift_apply s l' b' = Some m' ∧ Forall2 R m m'.
Proof.
  intros Hl Hb. unfold shift_apply. rw (Forall2_length _ _ _ Hl). destruct (_ && _); [|done].
  set (region := take _ (drop _ l)). set (region' := take _ (drop _ l')).
  assert (Forall2 R region region') as Hr by by apply Forall2_take, Forall2_drop.
  rw (Forall2_length _ _ _ Hr). destruct (_ <=? _); [done|]. intros [= <-]. eexists. split; [done|].
  assert (∀ n, Forall2 R (repeat b n) (repeat b' n)) as Hrep by (intros n; induction n; simpl; by constructor).
  apply Forall2_app; [by apply Forall2_take|]. apply Forall2_app; [|by apply Forall2_drop].
  destruct (0 <? sh_lines s)%Z; apply Forall2_app; try done; [by apply Forall2_drop|by apply Forall2_take].
Qed.

Lemma shift_apply_map {A B} (f : A → B) s l b : shift_apply s (map f l) (f b) = map f <$> shift_apply s l b.
Proof.
  unfold shift_apply. rw length_map. destruct (_ && _); [|done]. rw -!fmap_drop -!fmap_take length_fmap.
  destruct (_ <=? _); [done|]. cbn [fmap option_fmap option_map]. f_equal.
  assert (∀ n, repeat (f b) n = f <$> repeat b n) as Hrep by (intros n; induction n as [|n IH]; cbn; [done|by rw IH]).
  rw !map_app. f_equal. f_equal. rw !Hrep. destruct (0 <? sh_lines s)%Z; by rw map_app -?fmap_drop -?fmap_take.
Qed.

Section screens.
Context (row_at : N → list (CellSnapshot N)) (link_at : N → HyperlinkTarget).
Context (arrange : list (Z * nat) → list (Z * nat)).
Context (local_files : option LocalFiles) (lossy : bool).

(** A scroll that a server finds fits the grid and saves rows. *)
Lemma try_shift_inv old new candidates :
  ∀ best, match best with
          | Some (remaining, shift, shown) => shift_apply shift (map Some old) None = Some shown ∧ remaining = count_unlike new shown
          | None => True
          end →
  match foldl (try_shift old new) best candidates with
  | Some (remaining, shift, shown) => shift_apply shift (map Some old) None = Some shown ∧ remaining = count_unlike new shown
  | None => True
  end.
Proof.
  induction candidates as [|candidate candidates IH]; intros best Hb; [done|]. cbn [foldl]. apply IH. unfold try_shift.
  destruct (shift_region old new candidate.1) as [shift|]; [|done]. destruct (shift_apply shift (map Some old) None) as [shown|] eqn:E; [|done].
  destruct best as [[[fewest s] sh]|]; [|done]. by destruct (_ <? _).
Qed.

Lemma find_shift_spec old new shift shown :
  find_shift arrange old new = Some (shift, shown) →
  shift_apply shift (map Some old) None = Some shown ∧ count_unlike new shown < count_unlike new (map Some old) ∧
  (length old ≤ N.to_nat MAX_ROWS → shift_valid shift = true).
Proof.
  unfold find_shift. destruct (_ <? 2); [done|]. match goal with |- context [foldl _ None ?l] => set (cs := l) end.
  pose proof (try_shift_inv old new cs None I) as Hinv. destruct (foldl _ None cs) as [[[remaining s] sh]|]; [|done].
  destruct Hinv as [Ha ->]. destruct (Nat.ltb_spec (count_unlike new sh) (count_unlike new (map Some old))) as [Hlt|]; [|done].
  intros [= -> ->]. split; [done|]. split; [done|]. intros Hlen. pose proof Ha as Ha'. unfold shift_apply in Ha'. rw length_map in Ha'.
  destruct (Nat.leb_spec (N.to_nat (sh_top shift)) (N.to_nat (sh_bottom shift))) as [E1|]; [|done].
  destruct (Nat.leb_spec (N.to_nat (sh_bottom shift)) (length old)) as [E2|]; [|done]. cbn [andb] in Ha'.
  set (region := take _ _) in Ha'.
  assert (length region = N.to_nat (sh_bottom shift) - N.to_nat (sh_top shift)) as Hr by (unfold region; rw length_take length_drop length_map; lia).
  destruct (Nat.leb_spec (length region) (Z.to_nat (Z.abs (sh_lines shift)))) as [|Hroom]; [done|].
  assert (sh_lines shift ≠ 0%Z) as Hne.
  { intros E0. rw E0 in Ha'. change (0 <? 0)%Z with false in Ha'. cbn [repeat Z.abs Z.to_nat app] in Ha'. rw Nat.sub_0_r firstn_all in Ha'.
    injection Ha' as Ha'. unfold region in Ha'.
    assert (shown = map Some old) as Esh; [|rw Esh in Hlt; lia]. rewrite <-(take_drop (N.to_nat (sh_top shift)) (map Some old)). rw -Ha'. f_equal.
    rewrite <-(take_drop (N.to_nat (sh_bottom shift) - N.to_nat (sh_top shift)) (drop (N.to_nat (sh_top shift)) (map Some old))) at 2. f_equal.
    rw drop_drop. f_equal. lia. }
  unfold shift_valid. rw !andb_true_iff N.ltb_lt N.leb_le negb_true_iff Z.eqb_neq Z.ltb_lt. lia.
Qed.

(** ** Rows before they are encoded *)

(** [ds] is how a client shows the row [source]. *)
Definition row_shown (source : N) (ds : list (CellSnapshot HyperlinkTarget)) : Prop :=
  Forall2 (cell_shown link_at local_files lossy) (row_at source) ds.

Definition pending_ok (starts : list RunStart) (p : Pending) : Prop :=
  pe_end p = row_end (row_at (pe_source p)) ∧
  match pe_scan p with
  | Some scan =>
      ∃ a b, starts = a ++ row_starts link_at (row_at (pe_source p)) ++ b ∧ sc_end scan = row_end (row_at (pe_source p)) ∧
        sc_starts scan = (length a, length a + length (row_starts link_at (row_at (pe_source p))))
  | None => True
  end.
Lemma pending_ok_more starts more p : pending_ok starts p → pending_ok (starts ++ more) p.
Proof.
  intros [He Hs]. split; [done|]. destruct (pe_scan p); [|done]. destruct Hs as (a & b & -> & H). exists a, (b ++ more).
  by rw -!app_assoc.
Qed.

(** The wrap marks of the rows [from] on. *)
Definition wrap_marks (wrapped : list bool) (from n : nat) : list bool := map (λ i, default false (wrapped !! i)) (seq from n).

Definition ends_ok (rows : list Encoded) : Prop := Forall (λ e, en_end e = row_end (row_at (en_source e))) rows.

Lemma pending_rows_spec previous wrapped sources : ∀ index starts,
  match previous with Some rows => ends_ok rows | None => True end →
  let '(ps, starts') := pending_rows row_at link_at previous wrapped index sources starts in
  (∃ more, starts' = starts ++ more) ∧ Forall (pending_ok starts') ps ∧ map pe_source ps = sources ∧
  map pe_wrapped ps = wrap_marks wrapped index (length sources).
Proof.
  induction sources as [|source sources IH]; intros index starts Hp; cbn [pending_rows].
  { split; [exists []; by rw app_nil_r|]. by split_and!. }
  assert (let '(p, starts1) := pending_row row_at link_at previous (default false (wrapped !! index)) index source starts in
    (∃ more, starts1 = starts ++ more) ∧ pending_ok starts1 p ∧ pe_source p = source ∧ pe_wrapped p = default false (wrapped !! index)) as H1.
  { unfold pending_row. destruct (previous ≫= _) as [old|] eqn:E.
    - split; [exists []; by rw app_nil_r|]. split; [|done]. split; [|done]. destruct previous as [rows|]; [|done]. simpl in E.
      destruct (rows !! index) as [e|] eqn:Ee; [|done]. simpl in E. destruct (N.eqb_spec (en_source e) source) as [<-|]; [|done].
      injection E as <-. by apply (proj1 (Forall_lookup _ _) Hp index e).
    - pose proof (scan_of_spec link_at (row_at source) starts) as Hs. destruct (scan_of link_at (row_at source) starts) as [scan starts1].
      destruct Hs as (He & -> & Es). split; [by eexists|]. split; [|done]. split; [done|]. exists starts, []. by rw app_nil_r. }
  destruct (pending_row _ _ _ _ _ _ _) as [p starts1]. destruct H1 as ([m1 E1] & Hok & Es & Ew).
  specialize (IH (S index) starts1 Hp). destruct (pending_rows _ _ _ _ _ _ _) as [ps starts2]. destruct IH as ([m2 E2] & Hps & Esrc & Ewr).
  split; [exists (m1 ++ m2); by rw E2 E1 app_assoc|]. split; [constructor; [rw E2; by apply pending_ok_more|done]|].
  cbn [map]. rw Es Esrc Ew Ewr. by split.
Qed.

(** ** What a client holds of a row *)

(** An encoded row, and what a client that holds the tables decodes of it. *)
Record encoded_ok (t : Tables) (columns : nat) (e : Encoded) (ds : list (CellSnapshot HyperlinkTarget)) : Prop := {
  eo_end : en_end e = row_end (row_at (en_source e));
  eo_columns : length (row_at (en_source e)) = columns;
  eo_line : line_shows link_at lossy t (ln_runs (en_line e)) (take (en_end e) (row_at (en_source e)));
  eo_shown : row_shown (en_source e) ds;
  eo_decode : ∀ styles links index wrapped, held local_files t styles links →
    decode_row styles links columns {| ro_index := index; ro_wrapped := wrapped; ro_runs := ln_runs (en_line e) |} = Ok ds
}.
Lemma encoded_ok_le t t' columns e ds : tables_le t t' → encoded_ok t columns e ds → encoded_ok t' columns e ds.
Proof.
  intros Hle [H1 H2 H3 H4 H5]. split; [done..|by eapply line_shows_le|done|]. intros. apply H5. by eapply held_le.
Qed.

(** What a client shows at a place that shows [shown]: a row it was sent, or a blank one. *)
Definition shown_ok (t : Tables) (columns : nat) (shown : option Encoded) (c : list (CellSnapshot HyperlinkTarget) * bool) : Prop :=
  match shown with
  | Some e => encoded_ok t columns e c.1 ∧ c.2 = ln_wrapped (en_line e)
  | None => c = (repeat blank_cell columns, false)
  end.
Lemma shown_ok_le t t' columns shown c : tables_le t t' → shown_ok t columns shown c → shown_ok t' columns shown c.
Proof. intros Hle. destruct shown; [|done]. intros [? ?]. split; [by eapply encoded_ok_le|done]. Qed.

Lemma row_end_same a b : same_cells link_at (take (row_end a) a) (take (row_end b) b) = true → length (take (row_end a) a) = length (take (row_end b) b).
Proof. intros H%same_cells_Forall2. by eapply Forall2_length. Qed.

(** A row that the client shows already needs no new line. *)
Lemma shown_by_ok t columns new e c starts :
  shown_by row_at link_at new (Some e) = true → pending_ok starts new → length (row_at (pe_source new)) = columns →
  shown_ok t columns (Some e) c →
  encoded_ok t columns {| en_source := pe_source new; en_hash := pe_hash new; en_end := pe_end new; en_line := en_line e |} c.1 ∧
  c.2 = pe_wrapped new.
Proof.
  cbn [shown_by shown_ok]. rw andb_true_iff orb_true_iff andb_true_iff N.eqb_eq. intros [Hw%Bool.eqb_prop Hsame] [He _] Hlen [[H1 H2 H3 H4 H5] H6].
  split; [|congruence]. rw H1 in H3. destruct Hsame as [Hptr|[_ Hcells]].
  - split; cbn [en_end en_source en_line]; rw ?He -?Hptr; done.
  - rw H1 He in Hcells. split; cbn [en_end en_source en_line]; rw ?He; try done.
    + by eapply line_shows_same.
    + apply same_cells_Forall2 in Hcells. unfold row_shown in *. set (old := row_at (en_source e)) in *. set (cells := row_at (pe_source new)) in *.
      pose proof (Forall2_length _ _ _ Hcells) as Hn. destruct (row_end_spec old) as [Ho Hbo]. destruct (row_end_spec cells) as [Hc Hbc].
      rw !length_take !Nat.min_l // in Hn. rewrite <-(take_drop (row_end old) old) in H4. rewrite <-(take_drop (row_end cells) cells).
      apply Forall2_app_inv_l in H4 as (d1 & d2 & Hd1 & Hd2 & ->). apply Forall2_app.
      * clear -Hcells Hd1 local_files lossy. revert d1 Hd1. induction Hcells as [|x y a b Hxy _ IH]; intros d1 Hd1; [by apply Forall2_nil_inv_l in Hd1 as ->|].
        apply Forall2_cons_inv_l in Hd1 as (d & d1' & Hd & Hd1' & ->). constructor; [|by apply IH]. by eapply (same_cell_spec link_at local_files lossy).
      * assert (length (drop (row_end old) old) = length (drop (row_end cells) cells)) as Hl by (rw !length_drop; lia).
        clear -Hbo Hbc Hd2 Hl local_files lossy. revert d2 Hd2 Hl. generalize dependent (drop (row_end cells) cells).
        induction (drop (row_end old) old) as [|x a IH]; intros b Hbc d2 Hd2 Hl.
        { destruct b; [|done]. by apply Forall2_nil_inv_l in Hd2 as ->. }
        destruct b as [|y b]; [done|]. apply Forall2_cons_inv_l in Hd2 as (d & d2' & Hd & Hd2' & ->).
        apply Forall_cons in Hbo as [Hx Hbo]. apply Forall_cons in Hbc as [Hy Hbc]. constructor; [|apply IH; auto].
        destruct (blank_shown x Hx) as [Hkx Hsx], (blank_shown y Hy) as [Hky Hsy]. destruct Hd as (link & -> & Hlink).
        assert (link = None) as -> by (destruct Hlink as [->|[_ ->]]; [unfold client_link, sent_link; by rw Hkx|done]).
        exists None. split; [by rw Hsx Hsy|]. left. unfold client_link, sent_link. by rw Hky.
Qed.

(** A line that was just built, at a client that will hold the tables. *)
Lemma built_ok t columns source hash line styles links :
  length (row_at source) = columns → held local_files t styles links →
  line_shows link_at lossy t (ln_runs line) (take (row_end (row_at source)) (row_at source)) →
  ∃ ds, encoded_ok t columns {| en_source := source; en_hash := hash; en_end := row_end (row_at source); en_line := line |} ds ∧
    ∀ index wrapped, decode_row styles links columns {| ro_index := index; ro_wrapped := wrapped; ro_runs := ln_runs line |} = Ok ds.
Proof.
  intros Hlen Hh Hl. destruct (row_decodes link_at local_files lossy t (ln_runs line) (row_at source) columns Hlen Hl) as (ds & Hd & Hdec).
  exists ds. split; [|intros; by apply Hdec]. by split.
Qed.

Lemma blank_decodes styles links columns index wrapped :
  decode_row styles links columns {| ro_index := index; ro_wrapped := wrapped; ro_runs := [] |} = Ok (repeat blank_cell columns).
Proof. unfold decode_row. cbn. by rw take_nil Nat.sub_0_r. Qed.

Lemma shown_none new : shown_by row_at link_at new None = true → pe_wrapped new = false ∧ pe_end new = 0.
Proof. cbn [shown_by resembles]. by rw andb_true_iff negb_true_iff Nat.eqb_eq. Qed.

(** Before a row is built: a row the client shows, or any row that is sent anyway. *)
Definition known_ok (mode : EncodeMode) (t : Tables) (columns : nat) (shown : option Encoded) (c : list (CellSnapshot HyperlinkTarget) * bool) : Prop :=
  shown_ok t columns shown c ∨ mode = Mode_Replace ∧ shown = None.

(** Once a row is built: what the client has to show, and that a row left out is shown already. *)
Definition row_built (mode : EncodeMode) (t : Tables) (columns : nat) (new : Pending) (c : list (CellSnapshot HyperlinkTarget) * bool)
    (e : Encoded) (changed : bool) : Prop :=
  en_source e = pe_source new ∧ ln_wrapped (en_line e) = pe_wrapped new ∧
  ∃ ds, encoded_ok t columns e ds ∧ (changed = false → mode ≠ Mode_Replace ∧ c = (ds, pe_wrapped new)).

Lemma row_built_le mode t t' columns new c e changed : tables_le t t' → row_built mode t columns new c e changed → row_built mode t' columns new c e changed.
Proof. intros Hle (? & ? & ds & ? & ?). split; [done|]. split; [done|]. exists ds. split; [by eapply encoded_ok_le|done]. Qed.

(** A row the client shows already. *)
Lemma kept_row_spec mode columns shown new starts t c styles links changed :
  held local_files t styles links → known_ok mode t columns shown c → pending_ok starts new → length (row_at (pe_source new)) = columns →
  shown_by row_at link_at new shown = true → (changed = false → mode ≠ Mode_Replace) →
  row_built mode t columns new c
    {| en_source := pe_source new; en_hash := pe_hash new; en_end := pe_end new;
       en_line := match shown with Some old => en_line old | None => line_blank end |} changed.
Proof.
  intros Hh Hk Hp Hlen Hs Hm. destruct shown as [old|].
  - destruct Hk as [Hc|[_ ?]]; [|done]. destruct (shown_by_ok t columns new old c starts Hs Hp Hlen Hc) as [He Ew].
    destruct Hc as [_ Ec]. split; [done|]. split; [cbn; congruence|]. exists c.1. split; [done|]. intros Hch. split; [auto|]. by rw -Ew; destruct c.
  - apply shown_none in Hs as [Ew Ee]. destruct Hp as [Hend _]. rw Ee in Hend.
    destruct (built_ok t columns (pe_source new) (pe_hash new) line_blank styles links Hlen Hh) as (ds & He & Hdec).
    { rw -Hend. by exists []. }
    specialize (Hdec 0%N false). cbn [line_blank ln_runs] in Hdec. rw blank_decodes in Hdec. injection Hdec as <-. rw -Hend in He.
    split; [done|]. split; [done|]. exists (repeat blank_cell columns). split; [by rw Ee|]. intros Hch. split; [auto|].
    destruct Hk as [Hc|[Hr _]]; [by rw Hc Ew|by destruct (Hm Hch)].
Qed.

(** The scan of a row that is encoded, kept from before or made now. *)
Lemma scan_found new starts :
  pending_ok starts new →
  ∃ scan starts' a b, (match pe_scan new with Some scan => (scan, starts) | None => scan_of link_at (row_at (pe_source new)) starts end) = (scan, starts') ∧
    (∃ more, starts' = starts ++ more) ∧ starts' = a ++ row_starts link_at (row_at (pe_source new)) ++ b ∧ sc_end scan = row_end (row_at (pe_source new)) ∧
    sc_starts scan = (length a, length a + length (row_starts link_at (row_at (pe_source new)))).
Proof.
  intros [_ Hp]. destruct (pe_scan new) as [scan|].
  - destruct Hp as (a & b & E & H1 & H2). exists scan, starts, a, b. split; [done|]. split; [exists []; by rw app_nil_r|done].
  - pose proof (scan_of_spec link_at (row_at (pe_source new)) starts) as H. destruct (scan_of link_at (row_at (pe_source new)) starts) as [scan starts'].
    destruct H as (H1 & -> & H3). exists scan, (starts ++ row_starts link_at (row_at (pe_source new))), starts, []. split; [done|].
    split; [by eexists|]. by rw app_nil_r.
Qed.

Lemma build_row_spec mode columns shown new starts t c styles links :
  tables_wf t → will_hold local_files t styles links → known_ok mode t columns shown c → pending_ok starts new →
  length (row_at (pe_source new)) = columns →
  let '(t', starts', e, changed) := build_row row_at link_at mode shown new starts t in
  tables_le t t' ∧ (∃ more, starts' = starts ++ more) ∧
  ((tb_overflowed t' = true → lossy = true) →
   tables_wf t' ∧ will_hold local_files t' styles links ∧ row_built mode t' columns new c e changed).
Proof.
  intros Hw Hh Hk Hp Hlen. unfold build_row. destruct (shown_by row_at link_at new shown) eqn:Es.
  { split; [done|]. split; [exists []; by rw app_nil_r|]. intros _. split; [done|]. split; [done|].
    eapply kept_row_spec; try done. intros [H _]%orb_false_iff. by apply bool_decide_eq_false in H. }
  set (source := pe_source new) in *.
  destruct (scan_found new starts Hp) as (scan & starts' & a & b & Escan & Hmore & Eab & Ee & Est). fold source in Escan, Eab, Ee, Est. rw Escan.
  pose proof (line_build_spec link_at local_files lossy styles links (row_at source) (pe_wrapped new) starts' a b scan t Hw Hh Eab Ee Est) as Hb.
  destruct (line_build _ _ _ _ _ _) as [t' line]. destruct Hb as [Hle Hb]. split; [done|]. split; [done|]. intros Hl.
  destruct (Hb Hl) as (Hw' & Hh' & Ewr & Hshows). split; [done|]. split; [done|]. split; [done|]. split; [done|].
  destruct (built_ok t' columns source (pe_hash new) line _ _ Hlen Hh' Hshows) as (ds & He & Hdec). exists ds.
  split; [by rw -(proj1 Hp) in He|]. rw orb_false_iff negb_false_iff. intros [Hm%bool_decide_eq_false Eline%bool_decide_eq_true].
  split; [done|]. destruct Hk as [Hc|[? _]]; [|done]. specialize (Hdec 0%N false). destruct shown as [old|]; cbn [shown_ok] in Hc.
  - destruct Hc as [Hold Ec]. apply (encoded_ok_le t t') in Hold; [|done]. rw Eline (eo_decode _ _ _ _ Hold _ _ 0%N false Hh') in Hdec.
    injection Hdec as <-. rw -Ewr Eline -Ec. by destruct c.
  - rw Eline blank_decodes in Hdec. injection Hdec as <-. by rw Hc -Ewr Eline.
Qed.

(** ** All rows of an update *)

Definition all_known mode t columns (shown : list (option Encoded)) (clients : list (list (CellSnapshot HyperlinkTarget) * bool)) : Prop :=
  ∀ i c, clients !! i = Some c → known_ok mode t columns (mjoin (shown !! i)) c.

Lemma known_ok_le mode t t' columns shown c : tables_le t t' → known_ok mode t columns shown c → known_ok mode t' columns shown c.
Proof. intros Hle [H|H]; [left; by eapply shown_ok_le|by right]. Qed.

Lemma build_row_le mode shown new starts t : tables_le t (build_row row_at link_at mode shown new starts t).1.1.1.
Proof.
  unfold build_row. destruct (shown_by _ _ _ _); [done|]. destruct (match pe_scan new with Some _ => _ | None => _ end) as [scan starts'].
  unfold line_build. cbn [fst].
  exact (build_starts_le link_at (row_at (pe_source new)) (sc_end scan) (slice (sc_starts scan).1 (sc_starts scan).2 starts') (Build_LineState [] 0 true None None t)).
Qed.
Lemma build_rows_le mode news : ∀ shown starts t, tables_le t (build_rows row_at link_at mode shown news starts t).1.
Proof.
  induction news as [|new news IH]; intros shown starts t; [done|]. cbn [build_rows]. pose proof (build_row_le mode (mjoin (head shown)) new starts t) as H1.
  destruct (build_row _ _ _ _ _ _ _) as [[[t1 starts1] e] changed]. specialize (IH (tail shown) starts1 t1).
  destruct (build_rows _ _ _ _ _ _ _) as [t2 rows]. by etrans.
Qed.

Lemma build_rows_spec mode columns styles links news : ∀ shown clients starts t,
  tables_wf t → will_hold local_files t styles links → length clients = length news → all_known mode t columns shown clients →
  Forall (pending_ok starts) news → Forall (λ new, length (row_at (pe_source new)) = columns) news →
  let '(t', rows) := build_rows row_at link_at mode shown news starts t in
  tables_le t t' ∧
  ((tb_overflowed t' = true → lossy = true) →
   tables_wf t' ∧ will_hold local_files t' styles links ∧
   Forall3 (λ new c row, row_built mode t' columns new c row.1 row.2) news clients rows).
Proof.
  induction news as [|new news IH]; intros shown clients starts t Hw Hh Hlen Hk Hp Hc; cbn [build_rows].
  { split; [done|]. intros _. split; [done|]. split; [done|]. destruct clients; [constructor|done]. }
  destruct clients as [|c clients]; [done|]. apply Forall_cons in Hp as [Hp Hps]. apply Forall_cons in Hc as [Hc Hcs].
  pose proof (Hk 0 c eq_refl) as Hk0. replace (shown !! 0) with (head shown) in Hk0 by by destruct shown.
  pose proof (build_row_spec mode columns _ new starts t c styles links Hw Hh Hk0 Hp Hc) as Hb.
  destruct (build_row _ _ _ _ _ _ _) as [[[t1 starts1] e] changed]. destruct Hb as (Hle1 & [more ->] & Hb).
  assert (Forall (pending_ok (starts ++ more)) news) as Hps' by (eapply Forall_impl; [exact Hps|]; intros; by apply pending_ok_more).
  assert (all_known mode t1 columns (tail shown) clients) as Hk1.
  { intros i c' Hi. eapply known_ok_le; [exact Hle1|]. specialize (Hk (S i) c' Hi). by destruct shown. }
  specialize (IH (tail shown) clients (starts ++ more) t1). destruct (build_rows _ _ _ _ _ _ _) as [t2 rows] eqn:E2.
  assert (tables_le t1 t2) as Hle2.
  { clear -E2. pose proof (build_rows_le mode news (tail shown) (starts ++ more) t1) as H. by rw E2 in H. }
  split; [by etrans|]. intros Hl. destruct Hb as (Hw1 & Hh1 & Hrow); [intros Ho; apply Hl; by apply Hle2|].
  destruct IH as [_ IH]; try done; [simpl in Hlen; lia|]. destruct (IH Hl) as (Hw2 & Hh2 & Hrows). split; [done|]. split; [done|].
  constructor; [|done]. by eapply row_built_le.
Qed.

(** ** Sending the rows that changed *)

(** The grid that shows these rows. *)
Definition grid_of (columns : nat) (rows : list (list (CellSnapshot HyperlinkTarget) * bool)) : Grid :=
  {| gd_rows := map fst rows; gd_wrapped := map snd rows; gd_blinking := map (λ r, row_blinks r.1) rows; gd_blank := repeat blank_cell columns |}.

Fixpoint changed_from (index : nat) (rows : list (Encoded * bool)) : list Row :=
  match rows with
  | [] => []
  | (e, changed) :: rows =>
      (if changed then [{| ro_index := u16_cast index; ro_wrapped := ln_wrapped (en_line e); ro_runs := ln_runs (en_line e) |}] else [])
        ++ changed_from (S index) rows
  end.
Lemma changed_rows_from rows : changed_rows rows = changed_from 0 rows.
Proof.
  unfold changed_rows. assert (imap pair rows = imap (λ i, pair (0 + i)) rows) as -> by by apply imap_ext.
  generalize 0. induction rows as [|[e changed] rows IH]; intros n; [done|]. cbn [imap omap list_omap changed_from fst snd].
  rw Nat.add_0_r. assert (imap ((λ i, pair (n + i)) ∘ S) rows = imap (λ i, pair (S n + i)) rows) as -> by (apply imap_ext; intros; cbn; f_equal; lia).
  rw IH. by destruct changed.
Qed.

(** A row once the client took the update. *)
Definition row_final (t : Tables) (columns : nat) (new : Pending) (row : Encoded * bool) (f : list (CellSnapshot HyperlinkTarget) * bool) : Prop :=
  en_source row.1 = pe_source new ∧ ln_wrapped (en_line row.1) = pe_wrapped new ∧ encoded_ok t columns row.1 f.1 ∧ f.2 = pe_wrapped new.

Lemma replace_changed mode t columns row_count news clients rows :
  Forall3 (λ new c row, row_built mode t columns new c row.1 row.2) news clients rows →
  (N.of_nat row_count < 65536)%N →
  ∃ finals, Forall3 (row_final t columns) news rows finals ∧
    ∀ styles links pre, held local_files t styles links → length pre + length rows = row_count →
      replace_rows styles links columns row_count (changed_from (length pre) rows) (grid_of columns (pre ++ clients)) = Ok (grid_of columns (pre ++ finals)).
Proof.
  intros Hrows Hcount. induction Hrows as [|new c [e changed] news clients rows (Hsrc & Hwr & ds & He & Hkept) _ (finals & Hf & IH)].
  { exists []. split; [constructor|]. by intros styles links pre _ _. }
  cbn [fst snd] in *. exists ((ds, pe_wrapped new) :: finals). split; [constructor; [by split_and!|done]|]. intros styles links pre Hh Hlen.
  cbn [length] in Hlen. cbn [changed_from]. specialize (IH styles links (pre ++ [(ds, pe_wrapped new)]) Hh). rw length_app -!app_assoc in IH. cbn [length app] in IH.
  rw Nat.add_1_r in IH. destruct changed; cbn [app].
  - cbn [replace_rows ro_index]. rw u16_cast_small; [lia|]. rw Nat2N.id. destruct (Nat.leb_spec row_count (length pre)); [lia|].
    rw (eo_decode _ _ _ _ He _ _ _ _ Hh). cbn [result_bind ro_wrapped]. rw -IH; [lia|]. f_equal. unfold grid_of. cbn [gd_rows gd_wrapped gd_blinking gd_blank].
    rw !map_app. cbn [map fst snd]. rw Hwr.
    assert (∀ {A} (f : list (CellSnapshot HyperlinkTarget) * bool → A) x y l, <[length pre := x]> (map f pre ++ y :: l) = map f pre ++ x :: l) as Hins.
    { intros A f x y l. rewrite <-(length_map f pre). rewrite <-(Nat.add_0_r (length (map f pre))). by rw insert_app_r. }
    by rw !Hins.
  - destruct (Hkept eq_refl) as [_ ->]. apply IH. lia.
Qed.

(** ** What a peer checks *)

Lemma changed_increasing rows : ∀ n a,
  n + length rows ≤ N.to_nat MAX_ROWS → (ro_index a < N.of_nat n)%N → increasing (a :: changed_from n rows) = true.
Proof.
  induction rows as [|[e changed] rows IH]; intros n a Hlen Ha; [done|]. cbn [length] in Hlen. cbn [changed_from].
  destruct changed; [|apply IH; lia]. cbn [app increasing ro_index]. unfold MAX_ROWS in *. rw u16_cast_small; [lia|]. rw andb_true_iff N.ltb_lt.
  split; [done|]. refine (IH (S n) {| ro_index := N.of_nat n; ro_wrapped := ln_wrapped (en_line e); ro_runs := ln_runs (en_line e) |} _ _); [lia|].
  cbn [ro_index]. lia.
Qed.
Lemma changed_increasing_all rows : length rows ≤ N.to_nat MAX_ROWS → increasing (changed_from 0 rows) = true.
Proof.
  intros Hlen. destruct (changed_from 0 rows) as [|a l] eqn:E; [done|].
  assert (∀ n r, length r + n ≤ N.to_nat MAX_ROWS → increasing (changed_from n r) = true) as H; [|by rw -E; apply H; lia].
  clear. intros n r. revert n. induction r as [|[e changed] r IH]; intros n Hr; [done|]. cbn [changed_from length] in *.
  destruct changed; [|apply IH; lia]. cbn [app]. apply changed_increasing; [lia|]. cbn [ro_index]. unfold MAX_ROWS in *. rw u16_cast_small; lia.
Qed.
Lemma changed_length rows : ∀ n, length (changed_from n rows) ≤ length rows.
Proof. induction rows as [|[e []] rows IH]; intros n; cbn [changed_from app length]; [done|..]; specialize (IH (S n)); lia. Qed.

(** The check of one row. *)
Definition row_valid (max_rows : N) (row : Row) : bool :=
  (ro_index row <? max_rows)%N && (length (ro_runs row) <=? N.to_nat MAX_COLUMNS) && runs_valid 0 (ro_runs row).

Lemma line_row_valid t runs cells columns max_rows index wrapped :
  tables_wf t → line_shows link_at lossy t runs (take columns cells) → columns ≤ N.to_nat MAX_COLUMNS → (index < max_rows)%N →
  row_valid max_rows {| ro_index := index; ro_wrapped := wrapped; ro_runs := runs |} = true.
Proof.
  intros Hw Hl Hc Hi. assert (length (take columns cells) ≤ columns) as Hlen by (rw length_take; lia).
  destruct (line_valid link_at lossy t runs _ 0 Hw Hl) as [Hv Hr]; [lia|]. unfold row_valid. cbn [ro_index ro_runs].
  rw !andb_true_iff N.ltb_lt Nat.leb_le. split_and!; [done|lia|done].
Qed.

Lemma changed_rows_valid t columns news rows finals n :
  tables_wf t → columns ≤ N.to_nat MAX_COLUMNS → n + length rows ≤ N.to_nat MAX_ROWS → Forall3 (row_final t columns) news rows finals →
  vall (row_valid MAX_ROWS) (changed_from n rows) = true.
Proof.
  intros Hw Hc Hn Hf. revert n Hn. induction Hf as [|new [e changed] f news rows finals (_ & _ & He & _) _ IH]; intros n Hn; [done|]. cbn [changed_from length] in *.
  destruct changed; [|apply IH; lia]. cbn [app]. unfold vall in *. cbn [forallb]. rw andb_true_iff. split; [|apply IH; lia]. cbn [fst] in He.
  eapply line_row_valid; [done|exact (eo_line _ _ _ _ He)| |].
  - rw (eo_end _ _ _ _ He). destruct (row_end_spec (row_at (en_source e))). rw (eo_columns _ _ _ _ He) in H. lia.
  - unfold MAX_ROWS in *. rw u16_cast_small; lia.
Qed.

Lemma styles_valid_spec styles : ∀ defined,
  NoDup (sd_id <$> styles) → Forall (λ d, sd_id d ∉ defined) styles →
  Forall (λ d, (1 <= sd_id d <= N.of_nat MAX_STYLES)%N ∧ style_valid (sd_style d) = true) styles → styles_valid defined styles = true.
Proof.
  induction styles as [|d styles IH]; intros defined Hn Hd Hv; [done|]. cbn [styles_valid]. apply NoDup_cons in Hn as [Hnew Hn].
  apply Forall_cons in Hd as [Hd Hds]. apply Forall_cons in Hv as [[Hid Hs] Hvs]. rw bool_decide_eq_false_2 // Hs !andb_true_iff !N.leb_le.
  split_and!; try done; [lia..|]. apply IH; [done| |done]. apply Forall_forall. intros d' Hin. rw not_elem_of_cons.
  split; [|by eapply (proj1 (Forall_forall _ _) Hds)]. intros E. apply Hnew. rw -E. by apply list_elem_of_fmap_2.
Qed.
Lemma links_valid_spec links : ∀ defined,
  NoDup (ld_id <$> links) → Forall (λ d, ld_id d ∉ defined) links →
  Forall (λ d, (ld_id d < N.of_nat MAX_LINKS)%N ∧ str_len (link_text (ld_link d)) ≤ MAX_LINK_BYTES) links → links_valid defined links = true.
Proof.
  induction links as [|d links IH]; intros defined Hn Hd Hv; [done|]. cbn [links_valid]. apply NoDup_cons in Hn as [Hnew Hn].
  apply Forall_cons in Hd as [Hd Hds]. apply Forall_cons in Hv as [[Hid Hs] Hvs]. rw bool_decide_eq_false_2 // !andb_true_iff N.ltb_lt Nat.leb_le.
  split_and!; try done. apply IH; [done| |done]. apply Forall_forall. intros d' Hin. rw not_elem_of_cons.
  split; [|by eapply (proj1 (Forall_forall _ _) Hds)]. intros E. apply Hnew. rw -E. by apply list_elem_of_fmap_2.
Qed.

(** Definitions that well-formed tables hand out pass the check of a peer. *)
Lemma tables_sent_valid t rows max_rows :
  tables_wf t → vall (row_valid max_rows) rows = true → tables_valid (tb_new_styles t) (tb_new_links t) rows max_rows = true.
Proof.
  intros [W1 W2 W3 W4 (S1 & S2 & S3) (L1 & L2 & L3)] Hrows. unfold tables_valid. rw !andb_true_iff !Nat.leb_le. split_and!; [lia|lia| | |done].
  - apply styles_valid_spec; [done|by apply Forall_forall; intros; apply not_elem_of_nil|]. eapply Forall_impl; [exact S3|]. intros d [? ?]. split; [lia|done].
  - apply links_valid_spec; [done|by apply Forall_forall; intros; apply not_elem_of_nil|]. eapply Forall_impl; [exact L3|]. intros d [? ?]. split; [lia|done].
Qed.

(** ** The rows of an update, scroll included *)

Lemma blank_blinks columns : row_blinks (repeat blank_cell columns) = false.
Proof. unfold row_blinks. induction columns as [|n IH]; [done|]. cbn [repeat]. unfold vany in *. cbn [existsb]. by rw IH. Qed.

Lemma grid_shift_of s columns clients clients' :
  shift_apply s clients (repeat blank_cell columns, false) = Some clients' → grid_shift s (grid_of columns clients) = Ok (grid_of columns clients').
Proof.
  intros H. unfold grid_shift, grid_of. cbn [gd_rows gd_wrapped gd_blinking gd_blank].
  pose proof (shift_apply_map fst s clients (repeat blank_cell columns, false)) as H1.
  pose proof (shift_apply_map snd s clients (repeat blank_cell columns, false)) as H2.
  pose proof (shift_apply_map (λ r, row_blinks r.1) s clients (repeat blank_cell columns, false)) as H3.
  cbn [fst snd] in H1, H2, H3. rw blank_blinks in H3. by rw H1 H2 H3 H.
Qed.

(** The part of [ScreenEncoder::build] that makes the rows. *)
Definition screen_rows (screen : ScreenSnapshot) (kept : option Baseline) (mode : EncodeMode) (t : Tables)
    : option ScrollShift * (Tables * list (Encoded * bool)) :=
  let '(pending, starts) := pending_rows row_at link_at (bl_rows <$> kept) (sn_row_soft_wrapped screen) 0 (sn_rows screen) [] in
  let '(shift, shown) :=
    match kept with
    | Some p => match find_shift arrange (bl_rows p) pending with
                | Some (shift, shown) => (Some shift, shown)
                | None => (None, map Some (bl_rows p))
                end
    | None => (None, [])
    end in
  (shift, build_rows row_at link_at mode shown pending starts t).

(** What the client shows before an update whose rows are made against [kept]. *)
Definition grid_known (kept : option Baseline) (mode : EncodeMode) (t : Tables) (columns : nat)
    (clients : list (list (CellSnapshot HyperlinkTarget) * bool)) : Prop :=
  match kept with
  | Some p => Forall2 (λ e c, shown_ok t columns (Some e) c) (bl_rows p) clients ∧ length (bl_rows p) ≤ N.to_nat MAX_ROWS
  | None => mode = Mode_Replace ∨ Forall (λ c, c = (repeat blank_cell columns, false)) clients
  end.

(** Which rows a client ends up with: the row [source] wrapped as marked, from the encoded row. *)
Definition row_synced (t : Tables) (columns : nat) (e : Encoded) (f : list (CellSnapshot HyperlinkTarget) * bool) : Prop :=
  encoded_ok t columns e f.1 ∧ f.2 = ln_wrapped (en_line e).

Lemma finals_synced t columns news rows finals :
  Forall3 (row_final t columns) news rows finals →
  Forall2 (row_synced t columns) (map fst rows) finals ∧ map (λ r, en_source r.1) rows = map pe_source news ∧ map snd finals = map pe_wrapped news.
Proof.
  induction 1 as [|new row f news rows finals (H1 & H2 & H3 & H4) _ (I1 & I2 & I3)]; [by repeat constructor|]. cbn [map].
  split_and!; [constructor; [by split; [|congruence]|done]|by rw H1 I2|by rw H4 I3].
Qed.

Lemma screen_rows_spec screen kept mode t columns clients styles links :
  tables_wf t → will_hold local_files t styles links → length clients = length (sn_rows screen) → grid_known kept mode t columns clients →
  Forall (λ source, length (row_at source) = columns) (sn_rows screen) → columns ≤ N.to_nat MAX_COLUMNS → length (sn_rows screen) ≤ N.to_nat MAX_ROWS →
  let '(shift, (t', rows)) := screen_rows screen kept mode t in
  tables_le t t' ∧
  ((tb_overflowed t' = true → lossy = true) →
   tables_wf t' ∧ will_hold local_files t' styles links ∧
   match shift with Some s => shift_valid s = true | None => True end ∧
   vall (row_valid MAX_ROWS) (changed_rows rows) = true ∧ length rows = length (sn_rows screen) ∧
   map (λ r, en_source r.1) rows = sn_rows screen ∧
   ∃ finals, Forall2 (row_synced t' columns) (map fst rows) finals ∧
     map snd finals = wrap_marks (sn_row_soft_wrapped screen) 0 (length (sn_rows screen)) ∧
     ∀ styles' links', held local_files t' styles' links' →
     (let? g := match shift with Some s => grid_shift s (grid_of columns clients) | None => Ok (grid_of columns clients) end in
      replace_rows styles' links' columns (length (sn_rows screen)) (changed_rows rows) g) = Ok (grid_of columns finals)).
Proof.
  intros Hw Hh Hlen Hk Hcols Hc Hr. unfold screen_rows.
  pose proof (pending_rows_spec (bl_rows <$> kept) (sn_row_soft_wrapped screen) (sn_rows screen) 0 []) as Hp.
  destruct (pending_rows _ _ _ _ _ _ _) as [pending starts]. destruct Hp as (_ & Hpend & Esrc & Ewr).
  { destruct kept as [p|]; [|done]. destruct Hk as [Hk _]. clear -Hk. unfold ends_ok. cbn. induction Hk as [|e c rows cs [He _] _ IH]; constructor; [apply He|done]. }
  assert (length pending = length (sn_rows screen)) as Hplen by by rw -Esrc length_map.
  assert (Forall (λ new, length (row_at (pe_source new)) = columns) pending) as Hpcols by (rw -Esrc in Hcols; by apply Forall_map in Hcols).
  set (found := match kept with Some p => _ | None => _ end).
  assert (∃ clients', all_known mode t columns found.2 clients' ∧ length clients' = length clients ∧
    match found.1 with Some s => shift_valid s = true ∧ grid_shift s (grid_of columns clients) = Ok (grid_of columns clients') | None => clients' = clients end)
    as (clients' & Hall & Hlen' & Hshift).
  { assert (∀ sh cs, Forall2 (shown_ok t columns) sh cs → all_known mode t columns sh cs) as Hall2.
    { intros sh cs H i c Hi. left. destruct (Forall2_lookup_r _ _ _ _ _ H Hi) as (o & -> & Ho). done. }
    unfold found. destruct kept as [p|].
    - destruct Hk as [Hk Hrows]. assert (Forall2 (shown_ok t columns) (map Some (bl_rows p)) clients) as Hk' by by apply Forall2_fmap_l.
      destruct (find_shift arrange (bl_rows p) pending) as [[s sh]|] eqn:E; [|exists clients; split; [by apply Hall2|done]].
      apply find_shift_spec in E as (E & _ & Hv). destruct (shift_apply_Forall2 (shown_ok t columns) s _ _ None (repeat blank_cell columns, false) sh Hk') as (cs & Ecs & Hcs); [done..|].
      exists cs. split; [by apply Hall2|]. split; [by apply shift_apply_length in Ecs|]. split; [auto|by apply grid_shift_of].
    - exists clients. split; [|done]. intros i c Hi. cbn. destruct Hk as [->|Hk]; [by right|]. left. by eapply (proj1 (Forall_lookup _ _) Hk). }
  pose proof (build_rows_spec mode columns styles links pending found.2 clients' starts t Hw Hh) as Hb. destruct found as [shift shown]. cbn [fst snd] in *.
  destruct (build_rows _ _ _ _ _ _ _) as [t' rows]. destruct Hb as [Hle Hb]; [congruence|done..|]. split; [done|]. intros Hl.
  destruct (Hb Hl) as (Hw' & Hh' & Hrows). split; [done|]. split; [done|]. split; [by destruct shift; [apply Hshift|]|].
  pose proof (Forall3_length_lr _ _ _ _ Hrows) as Hrl.
  destruct (replace_changed mode t' columns (length (sn_rows screen)) pending clients' rows Hrows) as (finals & Hf & Hrep); [unfold MAX_ROWS in *; lia|].
  destruct (finals_synced _ _ _ _ _ Hf) as (Hsync & Es & Ew). rw changed_rows_from. split; [eapply (changed_rows_valid t' columns); [done..| |done]; lia|].
  split; [congruence|]. split; [congruence|]. exists finals. split; [done|]. split; [congruence|].
  intros styles' links' Hh2. specialize (Hrep styles' links' [] Hh2). cbn [length app Nat.add] in Hrep. specialize (Hrep ltac:(congruence)).
  destruct shift as [s|]; [destruct Hshift as [_ ->]|rw -Hshift]; done.
Qed.

(** ** A whole update *)

(** A screen as the emulator captures it: within a peer's bounds, the cursor inside. *)
Record capture_ok (c : ScreenCapture) : Prop := {
  ck_rows : 2 ≤ length (sn_rows (ca_screen c)) ≤ N.to_nat MAX_ROWS;
  ck_columns : (2 <= sn_cols (ca_screen c) <= MAX_COLUMNS)%N;
  ck_cells : Forall (λ source, length (row_at source) = N.to_nat (sn_cols (ca_screen c))) (sn_rows (ca_screen c));
  ck_cursor : match cn_position (sn_cursor (ca_screen c)) with
              | Some (column, row, width) =>
                  (column < sn_cols (ca_screen c) ∧ row < N.of_nat (length (sn_rows (ca_screen c))) ∧ 1 <= width <= 2)%N
              | None => True
              end;
  ck_history : (hi_oldest (sn_history (ca_screen c)) <= hi_total (sn_history (ca_screen c)))%N;
  ck_palette : length (tc_palette (sn_colors (ca_screen c))) = 256
}.

(** A client's screen shows a capture. *)
Record shows (c : ScreenCapture) (s : DecodedScreen) : Prop := {
  sw_geometry : ds_geometry s = snapshot_geometry (ca_screen c);
  sw_modes : ds_modes s = snapshot_modes (ca_screen c);
  sw_colors : ds_colors s = snapshot_colors (ca_screen c);
  sw_cursor : ds_cursor s = snapshot_cursor (ca_screen c);
  sw_history : ds_history s = sn_history (ca_screen c);
  sw_graphics : ds_graphics s = Some (graphics_encode (sn_graphics (ca_screen c)));
  sw_generation : ds_generation s = ca_generation c;
  sw_rows : Forall2 row_shown (sn_rows (ca_screen c)) (gd_rows (ds_grid s));
  sw_wrapped : gd_wrapped (ds_grid s) = wrap_marks (sn_row_soft_wrapped (ca_screen c)) 0 (length (sn_rows (ca_screen c)));
  sw_blinking : gd_blinking (ds_grid s) = map row_blinks (gd_rows (ds_grid s))
}.

(** A client's screen is the encoder's baseline. *)
Record screen_synced (b : Baseline) (t : Tables) (s : DecodedScreen) : Prop := {
  ss_geometry : ds_geometry s = bl_geometry b;
  ss_modes : ds_modes s = bl_modes b;
  ss_colors : ds_colors s = bl_colors b;
  ss_cursor : ds_cursor s = bl_cursor b;
  ss_history : ds_history s = bl_history b;
  ss_graphics : ds_graphics s = Some (graphics_encode (bl_graphics b));
  ss_generation : ds_generation s = bl_generation b;
  ss_length : length (bl_rows b) = N.to_nat (ge_rows (bl_geometry b)) ∧ length (bl_rows b) ≤ N.to_nat MAX_ROWS;
  ss_grid : ∃ clients, ds_grid s = grid_of (N.to_nat (ge_columns (bl_geometry b))) clients ∧
    Forall2 (row_synced t (N.to_nat (ge_columns (bl_geometry b)))) (bl_rows b) clients
}.

(** A grid has the rows and columns of its geometry. *)
Definition screen_wf (s : DecodedScreen) : Prop :=
  ∃ clients, ds_grid s = grid_of (N.to_nat (ge_columns (ds_geometry s))) clients ∧ length clients = N.to_nat (ge_rows (ds_geometry s)) ∧
    Forall (λ c, length c.1 = N.to_nat (ge_columns (ds_geometry s))) clients.

Definition no_new (t : Tables) : Prop := tb_new_styles t = [] ∧ tb_new_links t = [].
Lemma no_new_will_hold t styles links : no_new t → held local_files t styles links → will_hold local_files t styles links.
Proof. intros [E1 E2]. unfold will_hold. by rw E1 E2. Qed.
Lemma taken_wf t : tables_wf t → tables_wf (take_definitions t).1 ∧ no_new (take_definitions t).1.
Proof. intros [W1 W2 W3 W4 _ _]. split; [|done]. split; try done; cbn; (split; [apply NoDup_nil_2|split; [lia|constructor]]). Qed.
Lemma empty_wf overflowed : tables_wf (set_overflowed overflowed tables_default) ∧ no_new (set_overflowed overflowed tables_default).
Proof.
  split; [|done]. split; cbn [set_overflowed tables_default tb_styles tb_links tb_new_styles tb_new_links].
  - rw map_size_empty. lia.
  - intros s id. by rw lookup_empty.
  - rw map_size_empty. lia.
  - intros s id. by rw lookup_empty.
  - split; [apply NoDup_nil_2|]. split; [apply Nat.le_0_l|constructor].
  - split; [apply NoDup_nil_2|]. split; [apply Nat.le_0_l|constructor].
Qed.
Lemma empty_held styles links : held local_files tables_default styles links.
Proof. split; intros x id; cbn; by rw lookup_empty. Qed.
Lemma row_synced_le t t' columns e f : tables_le t t' → row_synced t columns e f → row_synced t' columns e f.
Proof. intros Hle [? ?]. split; [by eapply encoded_ok_le|done]. Qed.
Lemma screen_synced_le t t' b s : tables_le t t' → screen_synced b t s → screen_synced b t' s.
Proof.
  intros Hle [? ? ? ? ? ? ? ? (clients & ? & Hc)]. split; try done. exists clients. split; [done|]. eapply Forall2_impl; [exact Hc|].
  intros. by eapply row_synced_le.
Qed.

Lemma unless_same_read {A B} `{EqDecision A} (p : option A) (v : A) (sent : B) (q : option B) :
  (p = Some v → q = Some sent) → match unless_same p v sent with Some x => Some x | None => q end = Some sent.
Proof. unfold unless_same. intros H. destruct p as [x|]; [|done]. destruct (bool_decide_reflect (x = v)) as [->|]; [auto|done]. Qed.

(** The update of [ScreenEncoder::build]. *)
Definition screen_update (capture : ScreenCapture) (previous : option Baseline) (shift : option ScrollShift) (t : Tables)
    (rows : list (Encoded * bool)) : ScreenUpdate :=
  let screen := ca_screen capture in
  {| su_cursor := snapshot_cursor screen; su_history := sn_history screen;
     su_geometry := unless_same (bl_geometry <$> previous) (snapshot_geometry screen) (snapshot_geometry screen);
     su_modes := unless_same (bl_modes <$> previous) (snapshot_modes screen) (snapshot_modes screen);
     su_colors := unless_same (bl_colors <$> previous) (snapshot_colors screen) (snapshot_colors screen);
     su_shift := shift; su_styles := tb_new_styles t; su_links := tb_new_links t; su_rows := changed_rows rows;
     su_graphics := unless_same (bl_graphics <$> previous) (sn_graphics screen) (graphics_encode (sn_graphics screen));
     su_accessibility_revision := ca_accessibility_revision capture; su_generation := ca_generation capture |}.
Definition same_size (a b : Geometry) : bool := (ge_columns a =? ge_columns b)%N && (ge_rows a =? ge_rows b)%N.
Definition kept_of (capture : ScreenCapture) (previous : option Baseline) : option Baseline :=
  p ← previous; if same_size (bl_geometry p) (snapshot_geometry (ca_screen capture)) then Some p else None.
Lemma encoder_build_eq capture previous mode t :
  encoder_build row_at link_at arrange capture previous mode t =
  let '(shift, (t', rows)) := screen_rows (ca_screen capture) (kept_of capture previous) mode
    (set_overflowed false (if bool_decide (mode = Mode_Delta) then t else tables_default)) in
  if bool_decide (mode = Mode_Delta) && tb_overflowed t' then (t', None)
  else
    let u := screen_update capture previous shift t' rows in
    if match previous with Some p => nothing_new u p | None => false end then ((take_definitions t').1, None)
    else ((take_definitions t').1, Some (u, {| bt_rows := map fst rows; bt_colors := snapshot_colors (ca_screen capture) |})).
Proof.
  unfold encoder_build, screen_rows, kept_of, same_size.
  assert ((if match previous with Some p => _ | None => false end then None else previous) = (p ← previous;
    if ((ge_columns (bl_geometry p) =? ge_columns (snapshot_geometry (ca_screen capture)))%N
      && (ge_rows (bl_geometry p) =? ge_rows (snapshot_geometry (ca_screen capture)))%N) then Some p else None)) as ->
    by (destruct previous as [p|]; [cbn; by destruct (_ && _)|done]).
  destruct (pending_rows _ _ _ _ _ _ _) as [pending starts]. destruct (match _ ≫= _ with Some _ => _ | None => _ end) as [shift shown].
  by destruct (build_rows _ _ _ _ _ _ _) as [t' rows].
Qed.

Lemma geometry_rows c : capture_ok c → ge_rows (snapshot_geometry (ca_screen c)) = N.of_nat (length (sn_rows (ca_screen c))).
Proof. intros Hc. cbn. pose proof (ck_rows c Hc) as H. unfold MAX_ROWS in H. apply u16_cast_small. lia. Qed.

Lemma snapshot_geometry_valid c : capture_ok c → geometry_valid (snapshot_geometry (ca_screen c)) = true.
Proof.
  intros Hc. unfold geometry_valid. rw geometry_rows // andb_true_iff. pose proof (ck_rows c Hc). pose proof (ck_columns c Hc). split.
  - rw !andb_true_iff !N.leb_le. cbn [ge_columns snapshot_geometry]. unfold MAX_ROWS, MAX_COLUMNS in *. lia.
  - cbn [ge_cell_pixels snapshot_geometry]. destruct (sn_cell_pixels (ca_screen c)) as [w h]. cbn [fst snd].
    destruct ((w <? 65536) && (1 <=? w) && (w <=? 256))%N eqn:Ew; [|done]. destruct ((h <? 65536) && (1 <=? h) && (h <=? 256))%N eqn:Eh; [|done].
    rw !andb_true_iff in Ew Eh. rw !andb_true_iff. tauto.
Qed.
Lemma graphics_encode_valid g s : graphics_encode g = Ok s → is_ok (graphics_validate s) = true.
Proof.
  unfold graphics_encode. destruct (_ || _); [done|]. match goal with |- context [graphics_validate ?s] => set (snapshot := s) end.
  destruct (graphics_validate snapshot) as [[]|] eqn:E; [|done]. cbn [result_bind]. intros [= <-]. by rw E.
Qed.
Lemma snapshot_cursor_valid c : capture_ok c → cursor_valid (snapshot_cursor (ca_screen c)) = true.
Proof.
  intros Hc. pose proof (ck_cursor c Hc) as H. pose proof (ck_rows c Hc) as Hr. pose proof (ck_columns c Hc) as Hcol.
  unfold cursor_valid, snapshot_cursor. cbn [cu_position cu_shape]. rw andb_true_iff. split; [|by destruct (cn_shape _)].
  destruct (cn_position _) as [[[column row] width]|]; [|done]. cbn [cp_row cp_column cp_width]. rw !andb_true_iff !N.ltb_lt !N.leb_le.
  unfold MAX_ROWS, MAX_COLUMNS in *. lia.
Qed.

Lemma screen_update_valid c previous shift t rows :
  capture_ok c → tables_wf t → match shift with Some s => shift_valid s = true | None => True end →
  length rows = length (sn_rows (ca_screen c)) → vall (row_valid MAX_ROWS) (changed_rows rows) = true →
  update_valid (screen_update c previous shift t rows) = true.
Proof.
  intros Hc Hw Hs Hlen Hrows. pose proof (ck_rows c Hc) as Hr. unfold update_valid, screen_update.
  cbn [su_history su_cursor su_geometry su_colors su_shift su_rows su_graphics su_styles su_links].
  repeat match goal with |- (_ && _) = true => apply andb_true_intro; split end.
  - apply N.leb_le, (ck_history c Hc).
  - by apply snapshot_cursor_valid.
  - unfold unless_same. destruct (bl_geometry <$> previous); [case_bool_decide; [done|]|]; by apply snapshot_geometry_valid.
  - assert ((length (co_palette (snapshot_colors (ca_screen c))) =? 256) = true) as Hp.
    { cbn [co_palette snapshot_colors]. rw length_map (ck_palette c Hc). by vm_compute. }
    unfold unless_same. destruct (bl_colors <$> previous); [case_bool_decide; [done|]|]; done.
  - by destruct shift.
  - rw changed_rows_from Nat.leb_le. pose proof (changed_length rows 0). lia.
  - rw changed_rows_from. apply changed_increasing_all. lia.
  - assert (match graphics_encode (sn_graphics (ca_screen c)) with Ok g => is_ok (graphics_validate g) | Err _ => true end = true) as Hg.
    { destruct (graphics_encode _) as [g|] eqn:E; [by apply graphics_encode_valid in E|done]. }
    unfold unless_same. destruct (bl_graphics <$> previous); [case_bool_decide; [done|]|]; done.
  - by apply tables_sent_valid.
Qed.

Lemma snapshot_cursor_inside c : capture_ok c → cursor_inside (snapshot_cursor (ca_screen c)) (snapshot_geometry (ca_screen c)) = true.
Proof.
  intros Hc. pose proof (ck_cursor c Hc) as H. unfold cursor_inside. rw geometry_rows //. cbn [cu_position snapshot_cursor ge_columns snapshot_geometry].
  destruct (cn_position _) as [[[column row] width]|]; [|done]. cbn [cp_row cp_column]. rw negb_true_iff orb_false_iff !N.leb_gt. lia.
Qed.

(** What a client holds when an update against [previous] reaches it. *)
Definition client_before (mode : EncodeMode) (previous : option Baseline) (t : Tables) (prev : option DecodedScreen) : Prop :=
  match previous with
  | Some b => ∃ s, prev = Some s ∧ screen_synced b t s
  | None => prev = None ∨ mode = Mode_Replace ∧ ∃ s, prev = Some s ∧ screen_wf s
  end.

(** The grid an update starts from. *)
Lemma grid_before c mode previous t prev :
  capture_ok c → client_before mode previous t prev →
  let columns := N.to_nat (sn_cols (ca_screen c)) in
  let geometry := snapshot_geometry (ca_screen c) in
  ∃ clients,
    default (grid_blank columns (length (sn_rows (ca_screen c)))) (p ← prev; if same_size (ds_geometry p) geometry then Some (ds_grid p) else None)
      = grid_of columns clients ∧
    length clients = length (sn_rows (ca_screen c)) ∧ grid_known (kept_of c previous) mode t columns clients.
Proof.
  intros Hc Hb columns geometry. set (n := length (sn_rows (ca_screen c))).
  assert (∀ P : Prop, P ∨ grid_blank columns n = grid_of columns (repeat (repeat blank_cell columns, false) n)) as Hblank.
  { intros P. right. unfold grid_blank, grid_of. f_equal; rw map_repeat //=. by rw blank_blinks. }
  assert (Forall (λ r, r = (repeat blank_cell columns, false)) (repeat (repeat blank_cell columns, false) n)) as Hall
    by (apply Forall_forall; intros r Hr%list_elem_of_In; by apply repeat_spec in Hr).
  assert (∀ g, same_size g geometry = true → N.to_nat (ge_columns g) = columns ∧ N.to_nat (ge_rows g) = n) as Hsize.
  { intros g. unfold same_size. rw andb_true_iff !N.eqb_eq. intros [E1 E2]. rw E1 E2 geometry_rows // Nat2N.id. done. }
  unfold kept_of. fold geometry. destruct previous as [b|]; cbn [client_before] in Hb.
  - destruct Hb as (s & -> & Hs). cbn [mbind option_bind]. rw (ss_geometry _ _ _ Hs). destruct (same_size (bl_geometry b) geometry) eqn:E; cbn [default from_option id].
    + destruct (Hsize _ E) as [E1 E2]. destruct (ss_grid _ _ _ Hs) as (clients & Eg & Hcl). rw E1 in Eg Hcl. exists clients. split; [done|].
      pose proof (ss_length _ _ _ Hs) as [Hl1 Hl2]. split; [by rw -(Forall2_length _ _ _ Hcl) Hl1|]. split; [|done].
      eapply Forall2_impl; [exact Hcl|]. done.
    + exists (repeat (repeat blank_cell columns, false) n). split; [by destruct (Hblank False)|]. split; [apply repeat_length|by right].
  - cbn [mbind option_bind]. destruct Hb as [->|(-> & s & -> & clients & Eg & Hlen & Hcl)]; cbn [mbind option_bind default from_option].
    + exists (repeat (repeat blank_cell columns, false) n). split; [by destruct (Hblank False)|]. split; [apply repeat_length|by right].
    + destruct (same_size (ds_geometry s) geometry) eqn:E.
      * destruct (Hsize _ E) as [E1 E2]. rw E1 in Eg. exists clients. split; [done|]. split; [by rw Hlen E2|by left].
      * exists (repeat (repeat blank_cell columns, false) n). split; [by destruct (Hblank False)|]. split; [apply repeat_length|by left].
Qed.

(** The screen a client shows once it took an update of [c]. *)
Definition decoded_screen (c : ScreenCapture) (finals : list (list (CellSnapshot HyperlinkTarget) * bool)) : DecodedScreen :=
  let screen := ca_screen c in
  {| ds_geometry := snapshot_geometry screen; ds_modes := snapshot_modes screen; ds_colors := snapshot_colors screen;
     ds_cursor := snapshot_cursor screen; ds_history := sn_history screen; ds_graphics := Some (graphics_encode (sn_graphics screen));
     ds_generation := ca_generation c; ds_grid := grid_of (N.to_nat (sn_cols screen)) finals |}.

Lemma decoded_synced c t (rows : list (Encoded * bool)) finals frame u :
  capture_ok c → length rows = length (sn_rows (ca_screen c)) → Forall2 (row_synced t (N.to_nat (sn_cols (ca_screen c)))) (map fst rows) finals →
  su_cursor u = snapshot_cursor (ca_screen c) → su_history u = sn_history (ca_screen c) → su_generation u = ca_generation c →
  screen_synced (baseline_new c frame {| bt_rows := map fst rows; bt_colors := snapshot_colors (ca_screen c) |} u) t (decoded_screen c finals).
Proof.
  intros Hc Hlen Hf E1 E2 E3. split; try done; cbn [bl_rows bl_geometry baseline_new bt_rows].
  - rw length_map Hlen geometry_rows // Nat2N.id. split; [done|]. pose proof (ck_rows c Hc). lia.
  - by exists finals.
Qed.

Lemma decoded_shows c t (rows : list (Encoded * bool)) finals :
  map (λ r, en_source r.1) rows = sn_rows (ca_screen c) → Forall2 (row_synced t (N.to_nat (sn_cols (ca_screen c)))) (map fst rows) finals →
  map snd finals = wrap_marks (sn_row_soft_wrapped (ca_screen c)) 0 (length (sn_rows (ca_screen c))) → shows c (decoded_screen c finals).
Proof.
  intros Hsrc Hf Hw. split; try done; cbn [ds_grid decoded_screen gd_rows gd_blinking gd_wrapped grid_of]; [|by rw map_map].
  rw -Hsrc. clear -Hf. remember (map (@fst Encoded bool) rows) as es eqn:E. revert rows E. induction Hf as [|e f es fs [He _] _ IH]; intros [|r rows] E; try done.
  injection E as -> E. cbn [map]. constructor; [exact (eo_shown _ _ _ _ He)|by apply IH].
Qed.

Lemma required_unless {A} `{EqDecision A} (p : option A) (v : A) (q : option A) :
  (p = Some v → q = Some v) → required (unless_same p v v) q = Ok v.
Proof. intros H. unfold required. by rw (unless_same_read p v v q H). Qed.

Lemma option_self {A} (o : option A) : match o with Some x => Some x | None => None end = o.
Proof. by destruct o. Qed.

(** Decoding an update, given what its rows do to the grid. *)
Lemma update_decodes c mode previous t0 t prev shift (rows : list (Encoded * bool)) styles links d frame base finals clients :
  capture_ok c → client_before mode previous t0 prev → decode_base frame base d = Ok (styles, links, prev) →
  let columns := N.to_nat (sn_cols (ca_screen c)) in
  let count := length (sn_rows (ca_screen c)) in
  let u := screen_update c previous shift t rows in
  default (grid_blank columns count) (p ← prev; if same_size (ds_geometry p) (snapshot_geometry (ca_screen c)) then Some (ds_grid p) else None)
    = grid_of columns clients →
  (let? g := match shift with Some s => grid_shift s (grid_of columns clients) | None => Ok (grid_of columns clients) end in
   replace_rows (define_styles (su_styles u) styles) (define_links local_files (su_links u) links) columns count (changed_rows rows) g)
    = Ok (grid_of columns finals) →
  decode_update local_files frame base u d =
  Ok {| dc_frame := Some frame; dc_styles := define_styles (su_styles u) styles; dc_links := define_links local_files (su_links u) links;
        dc_screen := Some (decoded_screen c finals) |}.
Proof.
  intros Hc Hb Hbase columns count u Hgrid Hrows. unfold decode_update. rw Hbase. cbn [result_bind].
  assert (∀ {A} (f : Baseline → A) (g : DecodedScreen → A) v, (∀ b s, screen_synced b t0 s → g s = f b) → f <$> previous = Some v → g <$> prev = Some v) as Hread.
  { intros A f g v Hfg E. destruct previous as [b|]; [|done]. destruct Hb as (s & -> & Hs). cbn in *. by rw (Hfg b s Hs). }
  unfold u, screen_update at 1. cbn [su_geometry]. rw required_unless; [apply Hread; intros b s Hs; apply (ss_geometry _ _ _ Hs)|]. cbn [result_bind].
  unfold screen_update at 1. cbn [su_modes]. rw required_unless; [apply Hread; intros b s Hs; apply (ss_modes _ _ _ Hs)|]. cbn [result_bind].
  assert (match su_colors u with Some x => Some x | None => ds_colors <$> prev end = Some (snapshot_colors (ca_screen c))) as Ecolors.
  { apply unless_same_read. apply Hread. intros b s Hs. apply (ss_colors _ _ _ Hs). }
  assert (match su_graphics u with Some x => Some x | None => prev ≫= ds_graphics end = Some (graphics_encode (sn_graphics (ca_screen c)))) as Egraphics.
  { apply unless_same_read. destruct previous as [b|]; [|done]. intros [= E]. destruct Hb as (s & -> & Hs). cbn. by rw (ss_graphics _ _ _ Hs) E. }
  fold u. set (triple := match prev with Some p => _ | None => _ end).
  assert (triple = (Some (snapshot_colors (ca_screen c)), Some (graphics_encode (sn_graphics (ca_screen c))),
    p ← prev; if same_size (ds_geometry p) (snapshot_geometry (ca_screen c)) then Some (ds_grid p) else None)) as ->.
  { unfold triple. rw -Ecolors -Egraphics. destruct prev as [p|]; [done|]. cbn [mbind option_bind fmap option_fmap option_map] in *.
    f_equal; f_equal; [clear Egraphics|]; symmetry; exact (option_self _). }
  cbn [ok_or result_bind]. rw geometry_rows // Nat2N.id. fold count. change (N.to_nat (ge_columns (snapshot_geometry (ca_screen c)))) with columns.
  rw Hgrid. change (su_shift u) with shift. change (su_rows u) with (changed_rows rows).
  destruct (match shift with Some s => _ | None => _ end) as [g|]; [|done]. cbn [result_bind] in Hrows |- *. rw Hrows. cbn [result_bind].
  change (su_cursor u) with (snapshot_cursor (ca_screen c)). by rw snapshot_cursor_inside.
Qed.

(** ** No link is lost when all of them fit *)

Lemma build_rows_fit X mode news : ∀ shown starts t,
  tables_fit X t → Forall (pending_ok starts) news → Forall (λ new, ∀ l, l ∈ row_links link_at (row_at (pe_source new)) → l ∈ X) news →
  tables_fit X (build_rows row_at link_at mode shown news starts t).1.
Proof.
  induction news as [|new news IH]; intros shown starts t Ht Hp Hx; [done|]. apply Forall_cons in Hp as [Hp Hps]. apply Forall_cons in Hx as [Hx Hxs].
  cbn [build_rows].
  assert (∃ t1 more e changed, build_row row_at link_at mode (mjoin (head shown)) new starts t = (t1, starts ++ more, e, changed) ∧ tables_fit X t1)
    as (t1 & more & e & changed & -> & Ht1).
  { unfold build_row. destruct (shown_by _ _ _ _); [exists t, []; do 2 eexists; by rw app_nil_r|].
    destruct (scan_found new starts Hp) as (scan & starts' & a & b & -> & [more ->] & Eab & _ & Est).
    pose proof (line_build_fit link_at X (row_at (pe_source new)) (pe_wrapped new) (starts ++ more) a b scan t Ht Hx Eab Est) as H.
    destruct (line_build _ _ _ _ _ _) as [t1 line]. by do 4 eexists. }
  specialize (IH (tail shown) (starts ++ more) t1 Ht1). destruct (build_rows _ _ _ _ _ _ _) as [t2 rows]. apply IH; [|done].
  eapply Forall_impl; [exact Hps|]. intros. by apply pending_ok_more.
Qed.

(** The links a capture sends. *)
Definition capture_links (c : ScreenCapture) : gset Hyperlink :=
  list_to_set (concat (map (λ source, row_links link_at (row_at source)) (sn_rows (ca_screen c)))).
Definition links_fit (c : ScreenCapture) : Prop := lossy = false → size (capture_links c) ≤ MAX_LINKS.

Lemma fresh_fits c mode :
  links_fit c → tb_overflowed (screen_rows (ca_screen c) None mode (set_overflowed false tables_default)).2.1 = true → lossy = true.
Proof.
  intros Hfit. destruct (decide (lossy = true)) as [|Hne%not_true_is_false]; [done|]. specialize (Hfit Hne). unfold screen_rows.
  pose proof (pending_rows_spec None (sn_row_soft_wrapped (ca_screen c)) (sn_rows (ca_screen c)) 0 [] I) as Hp. cbn [fmap option_fmap option_map].
  destruct (pending_rows _ _ _ _ _ _ _) as [pending starts]. destruct Hp as (_ & Hp & Esrc & _). cbn [snd].
  destruct (build_rows_fit (capture_links c) mode pending [] starts (set_overflowed false tables_default)) as (_ & _ & Ho); [|done| |by rw Ho].
  - split; [intros l id; cbn; by rw lookup_empty|]. done.
  - apply (Forall_map pe_source (λ source, ∀ l, l ∈ row_links link_at (row_at source) → l ∈ capture_links c)). rw Esrc. unfold capture_links.
    apply Forall_forall. intros source Hs l Hl. apply elem_of_list_to_set, list_elem_of_In, in_concat. exists (row_links link_at (row_at source)).
    split; [|by apply list_elem_of_In]. apply (in_map (λ source, row_links link_at (row_at source))). by apply list_elem_of_In.
Qed.

(** ** A frame *)

Lemma taken_le t : tables_le t (take_definitions t).1.
Proof. by split. Qed.

Lemma frame_spec c previous mode t prev styles links :
  capture_ok c → tables_wf t → no_new t → held local_files t styles links → client_before mode previous t prev →
  let '(shift, (t', rows)) := screen_rows (ca_screen c) (kept_of c previous) mode t in
  let u := screen_update c previous shift t' rows in
  tables_le t t' ∧
  ((tb_overflowed t' = true → lossy = true) →
   update_valid u = true ∧ tables_wf t' ∧ will_hold local_files t' styles links ∧
   ∃ screen, shows c screen ∧
     (∀ frame, screen_synced (baseline_new c frame {| bt_rows := map fst rows; bt_colors := snapshot_colors (ca_screen c) |} u) t' screen) ∧
     ∀ frame base d, decode_base frame base d = Ok (styles, links, prev) →
       decode_update local_files frame base u d =
       Ok {| dc_frame := Some frame; dc_styles := define_styles (su_styles u) styles; dc_links := define_links local_files (su_links u) links;
             dc_screen := Some screen |}).
Proof.
  intros Hc Hw Hn Hh Hb. destruct (grid_before c mode previous t prev Hc Hb) as (clients & Eg & Hlen & Hk).
  pose proof (ck_columns c Hc) as Hcol. pose proof (ck_rows c Hc) as Hrow.
  pose proof (screen_rows_spec (ca_screen c) (kept_of c previous) mode t _ clients styles links Hw (no_new_will_hold _ _ _ Hn Hh) Hlen Hk (ck_cells c Hc)) as H.
  destruct (screen_rows _ _ _ _) as [shift [t' rows]]. destruct H as [Hle H]; [lia..|]. cbn zeta. split; [done|]. intros Hl.
  destruct (H Hl) as (Hw' & Hh' & Hshift & Hvalid & Hrl & Hsrc & finals & Hf & Hwr & Hrep).
  split; [by apply screen_update_valid|]. split; [done|]. split; [done|]. exists (decoded_screen c finals).
  split; [by eapply decoded_shows|]. split; [intros frame; by apply decoded_synced|]. intros frame base d Hbase.
  eapply update_decodes; [done..|exact Eg|]. by apply Hrep.
Qed.

(** A client that misses an empty update misses nothing. *)
Lemma nothing_new_keeps u b t s frame base d d' styles links :
  nothing_new u b = true → screen_synced b t s → decode_base frame base d = Ok (styles, links, Some s) →
  decode_update local_files frame base u d = Ok d' → su_styles u = [] ∧ su_links u = [] ∧ dc_screen d' = Some s.
Proof.
  unfold nothing_new. rw !andb_true_iff !negb_true_iff !bool_decide_eq_false !bool_decide_eq_true.
  intros (((((((((((Hr & Hs) & Hst) & Hl) & Hg) & Hm) & Hc) & Hgr) & Hcur) & Hhist) & Hgen%N.eqb_eq) & _) Hsync Hbase.
  rw -!eq_None_not_Some in Hs Hg Hm Hc Hgr. unfold decode_update. rw Hbase. cbn [result_bind].
  destruct (su_styles u); [|done]. destruct (su_links u); [|done]. destruct (su_rows u); [|done]. rw Hs Hg Hm Hc Hgr. cbn [fmap option_fmap option_map required ok_or result_bind].
  rw !N.eqb_refl. cbn [andb default from_option id replace_rows result_bind]. destruct (negb _); [done|]. intros [= <-]. split; [done|]. split; [done|].
  cbn [dc_screen]. rw Hcur Hhist Hgen -(ss_cursor _ _ _ Hsync) -(ss_history _ _ _ Hsync) -(ss_generation _ _ _ Hsync). by destruct s.
Qed.

(** An update that a client with these tables and this screen takes, and then shows [c]. *)
Definition sent_ok (c : ScreenCapture) (t : Tables) (u : ScreenUpdate) (built : Built) styles links (prev : option DecodedScreen) : Prop :=
  update_valid u = true ∧ tables_wf t ∧ no_new t ∧
  held local_files t (define_styles (su_styles u) styles) (define_links local_files (su_links u) links) ∧
  ∃ screen, shows c screen ∧ (∀ frame, screen_synced (baseline_new c frame built u) t screen) ∧
    ∀ frame base d, decode_base frame base d = Ok (styles, links, prev) →
      decode_update local_files frame base u d =
      Ok {| dc_frame := Some frame; dc_styles := define_styles (su_styles u) styles; dc_links := define_links local_files (su_links u) links;
            dc_screen := Some screen |}.

(** What [ScreenEncoder::build] makes, unless it gives up for lack of room. *)
Lemma build_spec c previous mode t prev styles links :
  capture_ok c → tables_wf t → no_new t → held local_files t styles links → client_before mode previous t prev →
  (mode ≠ Mode_Delta → t = set_overflowed false tables_default ∧ previous = None ∧ links_fit c) →
  match encoder_build row_at link_at arrange c previous mode t with
  | (t', Some (u, built)) => sent_ok c t' u built styles links prev
  | (t', None) =>
      mode = Mode_Delta ∧ (tb_overflowed t' = true ∨
        tb_overflowed t' = false ∧ ∃ b s, previous = Some b ∧ prev = Some s ∧ shows c s ∧
          (tables_wf t' ∧ no_new t' ∧ held local_files t' styles links ∧ screen_synced b t' s))
  end.
Proof.
  intros Hc Hw Hn Hh Hb Hfresh. rw encoder_build_eq.
  set (t0 := set_overflowed false (if bool_decide (mode = Mode_Delta) then t else tables_default)).
  assert (tables_wf t0 ∧ no_new t0 ∧ held local_files t0 styles links ∧ client_before mode previous t0 prev) as (Hw0 & Hn0 & Hh0 & Hb0).
  { unfold t0. case_bool_decide as Hm.
    - split; [by destruct Hw|]. split; [done|]. split; [done|]. destruct previous as [b|]; [|done]. destruct Hb as (s & -> & Hs). exists s. split; [done|].
      destruct Hs as [? ? ? ? ? ? ? ? (clients & ? & Hcl)]. split; try done. exists clients. split; [done|]. eapply Forall2_impl; [exact Hcl|].
      intros e f [[? ? ? ? ?] ?]. by split.
    - destruct (Hfresh Hm) as (-> & -> & _). by split_and!. }
  pose proof (frame_spec c previous mode t0 prev styles links Hc Hw0 Hn0 Hh0 Hb0) as H.
  pose proof (fresh_fits c mode) as Hfits.
  destruct (screen_rows _ (kept_of c previous) _ t0) as [shift [t' rows]] eqn:Erows. destruct H as [Hle H].
  destruct (bool_decide (mode = Mode_Delta) && tb_overflowed t') eqn:Eo.
  { rw andb_true_iff in Eo. destruct Eo as [Em%bool_decide_eq_true Eo]. split; [done|]. by left. }
  destruct H as (Hv & Hw' & Hh' & screen & Hshows & Hsync & Hdec).
  { intros Ho. rw Ho andb_true_r in Eo. apply bool_decide_eq_false in Eo. destruct (Hfresh Eo) as (_ & -> & Hfit). apply (Hfits Hfit).
    unfold t0 in Erows. rw bool_decide_eq_false_2 // in Erows. cbn [kept_of mbind option_bind] in Erows. by rw Erows. }
  destruct (taken_wf t' Hw') as [Hwt Hnt]. set (u := screen_update c previous shift t' rows) in *. cbn zeta.
  assert (held local_files (take_definitions t').1 (define_styles (su_styles u) styles) (define_links local_files (su_links u) links)) as Hht by exact Hh'.
  destruct (match previous with Some p => nothing_new u p | None => false end) eqn:Enew.
  - destruct previous as [b|]; [|done]. destruct (decide (mode = Mode_Delta)) as [->|Hm]; [|by destruct (Hfresh Hm) as (_ & ? & _)].
    split; [done|]. right. split; [exact Eo|]. destruct Hb0 as (s & -> & Hs). exists b, s. split; [done|]. split; [done|].
    set (d := Build_ScreenDecoder (Some 0%N) styles links (Some s)).
    specialize (Hdec 1%N (Some 0%N) d eq_refl). destruct (nothing_new_keeps u b t0 s 1%N (Some 0%N) d _ styles links Enew Hs eq_refl Hdec) as (E1 & E2 & E3).
    injection E3 as ->. split; [done|]. rw E1 E2 in Hht. split; [done|]. split; [done|]. split; [exact Hht|].
    eapply screen_synced_le; [|exact Hs]. etrans; [exact Hle|apply taken_le].
  - split; [done|]. split; [done|]. split; [done|]. split; [done|]. exists screen. split; [done|]. split; [|done].
    intros frame. eapply screen_synced_le; [apply taken_le|apply Hsync].
Qed.

(** An encoder and a client agree: if the client holds the encoder's frame, it holds its tables and shows its screen. *)
Definition synced (e : ScreenEncoder) (d : ScreenDecoder) : Prop :=
  ∀ b, se_baseline e = Some b → dc_frame d = Some (bl_frame b) →
  ∃ s, dc_screen d = Some s ∧ tables_wf (se_tables e) ∧ no_new (se_tables e) ∧ held local_files (se_tables e) (dc_styles d) (dc_links d) ∧
    screen_synced b (se_tables e) s.
Definition decoder_wf (d : ScreenDecoder) : Prop := ∀ s, dc_screen d = Some s → screen_wf s.

Lemma encode_mode_cases e base :
  (∃ b, base = Some (bl_frame b) ∧ se_baseline e = Some b ∧ encode_mode (se_baseline e) base = Mode_Delta) ∨
  (encode_mode (se_baseline e) base ≠ Mode_Delta ∧ (base ≠ None → encode_mode (se_baseline e) base = Mode_Replace)).
Proof.
  unfold encode_mode. destruct base as [base|]; [|by right]. destruct (se_baseline e) as [b|]; [|by right].
  destruct (N.eqb_spec (bl_frame b) base) as [<-|]; [left; by exists b|by right].
Qed.

(** A frame that does not rest on the baseline is always sent. *)
Lemma fresh_sent c mode t prev styles links :
  capture_ok c → links_fit c → mode ≠ Mode_Delta → (prev = None ∨ mode = Mode_Replace ∧ ∃ s, prev = Some s ∧ screen_wf s) →
  match encoder_build row_at link_at arrange c None mode t with
  | (t', Some (u, built)) => sent_ok c t' u built styles links prev
  | (_, None) => False
  end.
Proof.
  intros Hc Hfit Hm Hprev. rw (encoder_build_eq c None mode t) bool_decide_eq_false_2 //.
  pose proof (build_spec c None mode tables_default prev styles links Hc) as H. rw encoder_build_eq bool_decide_eq_false_2 // in H.
  destruct (empty_wf false) as [Hw Hn]. change (set_overflowed false tables_default) with tables_default in *.
  specialize (H Hw Hn (empty_held _ _) Hprev (λ _, conj eq_refl (conj eq_refl Hfit))).
  destruct (screen_rows _ _ _ _) as [shift [t' rows]]. cbn [andb] in *. exact H.
Qed.

(** A client that takes a sent frame shows it, and agrees with the encoder. *)
Lemma sent_taken c frame base t u built styles links prev d :
  sent_ok c t u built styles links prev → decode_base frame base d = Ok (styles, links, prev) →
  let e' := {| se_tables := t; se_baseline := Some (baseline_new c frame built u) |} in
  update_valid u = true ∧ (∃ b, se_baseline e' = Some b ∧ bl_frame b = frame) ∧
  ∃ d' s, decode_update local_files frame base u d = Ok d' ∧ dc_frame d' = Some frame ∧ dc_screen d' = Some s ∧ shows c s ∧ synced e' d'.
Proof.
  intros (Hv & Hw & Hn & Hh & s & Hshows & Hsync & Hdec) Hbase e'. split; [done|]. split; [by eexists|].
  eexists _, s. split; [by apply Hdec|]. split; [done|]. split; [done|]. split; [done|]. intros b [= <-] _. by exists s.
Qed.

Lemma encode_frame_spec c frame base e d :
  capture_ok c → links_fit c → synced e d → decoder_wf d → base = None ∨ base = dc_frame d → (∀ f, dc_frame d = Some f → (f < frame)%N) →
  match encode_screen row_at link_at arrange c frame base e with
  | (e', Some u) =>
      update_valid u = true ∧ (∃ b, se_baseline e' = Some b ∧ bl_frame b = frame) ∧
      ∃ d' s, decode_update local_files frame base u d = Ok d' ∧ dc_frame d' = Some frame ∧ dc_screen d' = Some s ∧ shows c s ∧ synced e' d'
  | (e', None) => base ≠ None ∧ se_baseline e' = se_baseline e ∧ synced e' d ∧ ∃ s, dc_screen d = Some s ∧ shows c s
  end.
Proof.
  intros Hc Hfit Hsync Hwf Hbase Hframe. unfold encode_screen. destruct (encode_mode_cases e base) as [(b & -> & Eb & ->)|[Hm Hkey]].
  - destruct Hbase as [|Hbase]; [done|]. destruct (Hsync b Eb (eq_sym Hbase)) as (s & Es & Hw & Hn & Hh & Hss).
    assert (decode_base frame (Some (bl_frame b)) d = Ok (dc_styles d, dc_links d, Some s)) as Hdb.
    { unfold decode_base. rw bool_decide_eq_true_2 // -Es. by rw (proj2 (N.ltb_lt _ _) (Hframe _ (eq_sym Hbase))). }
    rw bool_decide_eq_true_2 // Eb.
    pose proof (build_spec c (Some b) Mode_Delta (se_tables e) (Some s) _ _ Hc Hw Hn Hh (ex_intro _ s (conj eq_refl Hss)) ltac:(done)) as H.
    destruct (encoder_build _ _ _ c (Some b) Mode_Delta (se_tables e)) as [t' [[u built]|]].
    + by eapply sent_taken.
    + destruct H as [_ [Ho|(Ho & b' & s' & [= <-] & [= <-] & Hshows & Hw' & Hn' & Hh' & Hs')]]; rw Ho.
      * pose proof (fresh_sent c Mode_Replace t' (Some s) (dc_styles d) (dc_links d) Hc Hfit) as H. destruct (encoder_build _ _ _ c None Mode_Replace t') as [t2 [[u built]|]];
          [|by destruct H; [|right; split; [|exists s; split; [|apply Hwf]]]].
        eapply sent_taken; [|exact Hdb]. apply H; [done|]. right. split; [done|]. exists s. split; [done|]. by apply Hwf.
      * split; [done|]. split; [done|]. split; [|by exists s]. intros b' [= <-] _. exists s. by split_and!.
  - assert (∃ styles links prev, decode_base frame base d = Ok (styles, links, prev) ∧ (prev = None ∨ encode_mode (se_baseline e) base = Mode_Replace ∧ ∃ s, prev = Some s ∧ screen_wf s))
      as (styles & links & prev & Hdb & Hprev).
    { destruct base as [base|]; [|exists ∅, ∅, None; split; [done|by left]]. destruct Hbase as [|Hbase]; [done|]. exists (dc_styles d), (dc_links d), (dc_screen d).
      unfold decode_base. rw bool_decide_eq_true_2 //. rw (proj2 (N.ltb_lt _ _) (Hframe _ (eq_sym Hbase))). split; [done|].
      destruct (dc_screen d) as [s|] eqn:Es; [|by left]. right. split; [by apply Hkey|]. exists s. split; [done|]. by apply Hwf. }
    rw bool_decide_eq_false_2 //.
    pose proof (fresh_sent c _ (se_tables e) prev styles links Hc Hfit Hm Hprev) as H.
    destruct (encoder_build _ _ _ c None _ (se_tables e)) as [t' [[u built]|]]; [|done]. by eapply sent_taken.
Qed.

(** ** Any update keeps a grid of the screen's size *)

Lemma Forall2_same {A} (P : A → Prop) l : Forall P l ↔ Forall2 (λ x _ : A, P x) l l.
Proof. split; [by induction 1; constructor|]. induction l as [|x l IH]; intros H; [done|]. apply Forall2_cons in H as [? ?]. constructor; auto. Qed.

Lemma shift_apply_Forall {A} (P : A → Prop) s l b m : Forall P l → P b → shift_apply s l b = Some m → Forall P m.
Proof.
  intros Hl Hb Hm. apply Forall2_same in Hl. destruct (shift_apply_Forall2 (λ x _, P x) s l l b b m Hl Hb Hm) as (m' & Hm' & H).
  rw Hm in Hm'. injection Hm' as <-. by apply Forall2_same.
Qed.

Lemma decode_row_length styles links columns row cells : decode_row styles links columns row = Ok cells → length cells = columns.
Proof.
  unfold decode_row. destruct (decode_runs _ _ _ _ _) as [ds|]; [|done]. intros [= <-]. rw length_app length_take repeat_length. lia.
Qed.

Definition grid_wf (columns rows : nat) (g : Grid) : Prop :=
  ∃ clients, g = grid_of columns clients ∧ length clients = rows ∧ Forall (λ c, length c.1 = columns) clients.

Lemma grid_shift_wf columns rows s g g' : grid_wf columns rows g → grid_shift s g = Ok g' → grid_wf columns rows g'.
Proof.
  intros (clients & -> & Hlen & Hcl) H.
  destruct (shift_apply s clients (repeat blank_cell columns, false)) as [cs|] eqn:E.
  - rw (grid_shift_of _ _ _ _ E) in H. injection H as <-. exists cs. split; [done|]. split; [by rw (shift_apply_length _ _ _ _ E)|].
    eapply shift_apply_Forall; [exact Hcl| |exact E]. apply repeat_length.
  - unfold grid_shift, grid_of in H. cbn [gd_rows gd_blank] in H.
    pose proof (shift_apply_map fst s clients (repeat blank_cell columns, false)) as H1. cbn [fst] in H1. by rw H1 E in H.
Qed.

Lemma grid_insert columns clients index (c : list (CellSnapshot HyperlinkTarget) * bool) :
  {| gd_rows := <[index := c.1]> (map fst clients); gd_wrapped := <[index := c.2]> (map snd clients);
     gd_blinking := <[index := row_blinks c.1]> (map (λ r, row_blinks r.1) clients); gd_blank := repeat blank_cell columns |}
  = grid_of columns (<[index := c]> clients).
Proof. unfold grid_of. f_equal; symmetry; exact (list_fmap_insert _ _ _ _). Qed.

Lemma replace_rows_wf styles links columns count rows : ∀ g g',
  grid_wf columns count g → replace_rows styles links columns count rows g = Ok g' → grid_wf columns count g'.
Proof.
  induction rows as [|row rows IH]; intros g g' Hg; [by intros [= <-]|]. cbn [replace_rows]. destruct (Nat.leb_spec count (N.to_nat (ro_index row))); [done|].
  destruct (decode_row styles links columns row) as [cells|] eqn:E; [|done]. cbn [result_bind]. apply IH. destruct Hg as (clients & -> & Hlen & Hcl).
  exists (<[N.to_nat (ro_index row) := (cells, ro_wrapped row)]> clients). split; [by rw -grid_insert|]. split; [by rw length_insert|].
  apply Forall_insert; [done|]. by apply decode_row_length in E.
Qed.

Lemma grid_blank_wf columns rows : grid_wf columns rows (grid_blank columns rows).
Proof.
  exists (repeat (repeat blank_cell columns, false) rows). split; [|split; [apply repeat_length|]].
  - unfold grid_blank, grid_of. f_equal; rw map_repeat //=. by rw blank_blinks.
  - apply Forall_forall. intros r Hr%list_elem_of_In. apply repeat_spec in Hr as ->. apply repeat_length.
Qed.

Lemma decode_update_wf frame base u d d' : decoder_wf d → decode_update local_files frame base u d = Ok d' → decoder_wf d' ∧ dc_frame d' = Some frame ∧ is_Some (dc_screen d').
Proof.
  intros Hd. unfold decode_update. destruct (decode_base frame base d) as [[[styles links] prev]|] eqn:Eb; [|done]. cbn [result_bind].
  assert (∀ s, prev = Some s → screen_wf s) as Hprev.
  { intros s ->. unfold decode_base in Eb. destruct base as [b|]; [|done]. destruct (_ && _); [|done]. injection Eb as _ _ E. by apply Hd. }
  destruct (required (su_geometry u) _) as [geometry|]; [|done]. destruct (required (su_modes u) _) as [modes|]; [|done]. cbn [result_bind].
  set (triple := match prev with Some p => _ | None => _ end).
  assert (∀ g, triple.2 = Some g → grid_wf (N.to_nat (ge_columns geometry)) (N.to_nat (ge_rows geometry)) g) as Hkept.
  { intros g Eg. unfold triple in Eg. destruct prev as [p|]; [|done]. cbn [snd] in Eg. destruct (_ && _) eqn:Es; [|done].
    injection Eg as <-. rw andb_true_iff !N.eqb_eq in Es. destruct Es as [E1 E2]. rw -E1 -E2. by apply Hprev. }
  destruct triple as [[colors graphics] kept]. cbn [snd] in Hkept. destruct colors as [colors|]; [|done]. cbn [ok_or result_bind].
  assert (grid_wf (N.to_nat (ge_columns geometry)) (N.to_nat (ge_rows geometry))
    (default (grid_blank (N.to_nat (ge_columns geometry)) (N.to_nat (ge_rows geometry))) kept)) as H0.
  { destruct kept as [g|]; [by apply Hkept|apply grid_blank_wf]. }
  destruct (match su_shift u with Some _ => _ | None => _ end) as [g|] eqn:Eg; [|done]. cbn [result_bind].
  assert (grid_wf (N.to_nat (ge_columns geometry)) (N.to_nat (ge_rows geometry)) g) as H1.
  { destruct (su_shift u); [by eapply grid_shift_wf|by injection Eg as <-]. }
  destruct (replace_rows _ _ _ _ _ g) as [g'|] eqn:Er; [|done]. cbn [result_bind]. destruct (negb _); [done|]. intros [= <-].
  split; [|done]. intros s [= <-]. exact (replace_rows_wf _ _ _ _ _ _ _ H1 Er).
Qed.

(** ** A channel *)

(** A capture that is presented: whether it rests on the frame the client holds, and whether it is sent. *)
Record FrameEvent := { fe_capture : ScreenCapture; fe_rests : bool; fe_sent : bool }.
Inductive FrameOutcome :=
  | Nothing_New
  | Not_Sent (u : ScreenUpdate)
  | Sent (u : ScreenUpdate) (r : result DecodedScreen UpdateError).
(** The encoder of a channel and its client's decoder, and the last frame number handed out. *)
Record FrameChannel := { ch_encoder : ScreenEncoder; ch_decoder : ScreenDecoder; ch_frame : N }.
Definition channel_new : FrameChannel := {| ch_encoder := encoder_default; ch_decoder := decoder_new; ch_frame := 0 |}.

(** A ticket numbers the frame; the client acknowledged what it holds. *)
Definition channel_step (ev : FrameEvent) (ch : FrameChannel) : FrameChannel * FrameOutcome :=
  let frame := (ch_frame ch + 1)%N in
  let base := if fe_rests ev then dc_frame (ch_decoder ch) else None in
  match encode_screen row_at link_at arrange (fe_capture ev) frame base (ch_encoder ch) with
  | (e, None) => ({| ch_encoder := e; ch_decoder := ch_decoder ch; ch_frame := frame |}, Nothing_New)
  | (e, Some u) =>
      if fe_sent ev then
        let '(d, r) := decoder_apply local_files frame base u (ch_decoder ch) in
        ({| ch_encoder := e; ch_decoder := d; ch_frame := frame |}, Sent u r)
      else ({| ch_encoder := e; ch_decoder := ch_decoder ch; ch_frame := frame |}, Not_Sent u)
  end.
Fixpoint channel_run (events : list FrameEvent) (ch : FrameChannel) : list (FrameOutcome * ScreenDecoder) :=
  match events with
  | [] => []
  | ev :: events => let '(ch, outcome) := channel_step ev ch in (outcome, ch_decoder ch) :: channel_run events ch
  end.

Record channel_inv (ch : FrameChannel) : Prop := {
  ci_synced : synced (ch_encoder ch) (ch_decoder ch);
  ci_wf : decoder_wf (ch_decoder ch);
  ci_frame : ∀ f, dc_frame (ch_decoder ch) = Some f → (f <= ch_frame ch)%N
}.

(** What a step means for the client: it shows the capture unless the frame was not sent. *)
Definition outcome_ok (ev : FrameEvent) (entry : FrameOutcome * ScreenDecoder) : Prop :=
  match entry.1 with
  | Nothing_New => ∃ s, dc_screen entry.2 = Some s ∧ shows (fe_capture ev) s
  | Not_Sent u => fe_sent ev = false ∧ update_valid u = true
  | Sent u r => update_valid u = true ∧ ∃ s, r = Ok s ∧ dc_screen entry.2 = Some s ∧ shows (fe_capture ev) s
  end.

Lemma channel_step_spec ev ch :
  channel_inv ch → capture_ok (fe_capture ev) → links_fit (fe_capture ev) →
  let '(ch', outcome) := channel_step ev ch in channel_inv ch' ∧ outcome_ok ev (outcome, ch_decoder ch').
Proof.
  intros [Hs Hwf Hf] Hc Hfit. unfold channel_step. set (frame := (ch_frame ch + 1)%N). set (base := if fe_rests ev then _ else None).
  assert (base = None ∨ base = dc_frame (ch_decoder ch)) as Hbase by (unfold base; destruct (fe_rests ev); auto).
  assert (∀ f, dc_frame (ch_decoder ch) = Some f → (f < frame)%N) as Hlt by (intros f Ef; specialize (Hf f Ef); unfold frame; lia).
  pose proof (encode_frame_spec (fe_capture ev) frame base (ch_encoder ch) (ch_decoder ch) Hc Hfit Hs Hwf Hbase Hlt) as H.
  destruct (encode_screen _ _ _ _ _ _ _) as [e [u|]].
  - destruct H as (Hv & (b & Eb & Ef) & d & s & Hdec & Edf & Eds & Hshows & Hs'). destruct (fe_sent ev) eqn:Esent.
    + unfold decoder_apply. rw Hdec Eds. cbn [ok_or]. split; [|split; [done|by exists s]].
      split; cbn [ch_encoder ch_decoder ch_frame]; [done|by eapply decode_update_wf|]. rw Edf. by intros f [= <-].
    + split; [|by split]. split; cbn [ch_encoder ch_decoder ch_frame]; [|done|intros f E; specialize (Hlt f E); lia].
      intros b' Eb' E. rw Eb in Eb'. injection Eb' as <-. specialize (Hlt _ E). lia.
  - destruct H as (_ & _ & Hs' & s & Es & Hshows). split; [|by exists s]. split; cbn [ch_encoder ch_decoder ch_frame]; [done..|].
    intros f E. specialize (Hlt f E). lia.
Qed.

(** C3. From a new channel, every frame the encoder makes passes the peer's check; every frame
    that is sent is taken; and after each capture that is sent, or that needed no frame, the
    client's screen is that capture: rows, wrap marks, blink marks, geometry, modes, colors,
    cursor, history, graphics and generation. Frames may rest on the client's frame or not and
    may be dropped before they are sent. When no more than the table's number of links is on a
    screen no link is missing ([lossy = false]); otherwise a cell may lack its link. *)
Theorem screens_shown events :
  Forall (λ ev, capture_ok (fe_capture ev) ∧ links_fit (fe_capture ev)) events →
  Forall2 outcome_ok events (channel_run events channel_new).
Proof.
  assert (channel_inv channel_new) as H0 by by split.
  intros Hev. revert H0. generalize channel_new. induction Hev as [|ev events [Hc Hfit] _ IH]; intros ch Hch; cbn [channel_run]; [done|].
  pose proof (channel_step_spec ev ch Hch Hc Hfit) as H. destruct (channel_step ev ch) as [ch' outcome]. destruct H as [Hch' Hok].
  constructor; [done|by apply IH].
Qed.

(** C25. Whatever updates arrive, in any order and from any peer, valid or not: after each one the
    decoder holds either no screen and no frame, or a grid of exactly the rows and columns of
    its geometry whose wrap and blink marks have as many entries; and a failed update leaves
    only keyframes acceptable. *)
Theorem decoder_keeps_grid updates :
  let d := foldl (λ d '(frame, base, u), (decoder_apply local_files frame base u d).1) decoder_new updates in
  match dc_screen d with
  | Some s =>
      grid_wf (N.to_nat (ge_columns (ds_geometry s))) (N.to_nat (ge_rows (ds_geometry s))) (ds_grid s) ∧ is_Some (dc_frame d)
  | None => d = decoder_new ∧ ∀ frame base u, decoder_apply local_files frame (Some base) u d = (decoder_new, Err Update_UnknownBase)
  end.
Proof.
  assert (∀ d, match dc_screen d with
               | Some s => screen_wf s ∧ is_Some (dc_frame d) | None => d = decoder_new end →
    let d' := foldl (λ d '(frame, base, u), (decoder_apply local_files frame base u d).1) d updates in
    match dc_screen d' with Some s => screen_wf s ∧ is_Some (dc_frame d') | None => d' = decoder_new end) as H.
  { induction updates as [|[[frame base] u] updates IH]; intros d Hd; cbn [foldl]; [done|]. apply IH. unfold decoder_apply.
    destruct (decode_update local_files frame base u d) as [d'|] eqn:E; [|done]. cbn [fst].
    assert (decoder_wf d) as Hwf by (intros s Es; by rw Es in Hd; destruct Hd).
    destruct (decode_update_wf frame base u d d' Hwf E) as (Hwf' & Ef & [s Es]). rw Es Ef. split; [by apply Hwf'|done]. }
  specialize (H decoder_new eq_refl). cbn zeta in *. destruct (dc_screen _); [done|]. rw H. split; [done|]. done.
Qed.

(** ** Pages of Scrollback *)

Lemma line_encode_spec cells wrapped t columns styles links :
  tables_wf t → will_hold local_files t styles links → length cells = columns →
  let '(t', line) := line_encode link_at cells wrapped t in
  tables_le t t' ∧
  ((tb_overflowed t' = true → lossy = true) →
   tables_wf t' ∧ will_hold local_files t' styles links ∧ ln_wrapped line = wrapped ∧
   line_shows link_at lossy t' (ln_runs line) (take (row_end cells) cells)).
Proof.
  intros Hw Hh Hlen. unfold line_encode. pose proof (scan_of_spec link_at cells []) as Hs. destruct (scan_of link_at cells []) as [scan starts].
  destruct Hs as (He & -> & Est). apply (line_build_spec link_at local_files lossy styles links cells wrapped _ [] [] scan t); [done..|by rw app_nil_r|done|done].
Qed.

Lemma page_lines_le rows : ∀ index t, tables_le t (page_lines link_at index rows t).1.
Proof.
  induction rows as [|[cells wrapped] rows IH]; intros index t; [done|]. cbn [page_lines]. unfold line_encode, line_build.
  destruct (scan_of link_at cells []) as [scan starts]. cbn [fst].
  pose proof (build_starts_le link_at cells (sc_end scan) (slice (sc_starts scan).1 (sc_starts scan).2 starts) (Build_LineState [] 0 true None None t)) as H.
  cbn [ls_tables] in H. set (t1 := ls_tables (build_starts _ _ _ _ _)) in *. specialize (IH (S index) t1). destruct (page_lines _ _ _ t1). by etrans.
Qed.

Lemma page_lines_spec columns rows styles links : ∀ index t,
  tables_wf t → will_hold local_files t styles links → Forall (λ r, length r.1 = columns) rows →
  columns ≤ N.to_nat MAX_COLUMNS → index + length rows ≤ N.to_nat MAX_PAGE_ROWS →
  let '(t', lines) := page_lines link_at index rows t in
  tables_le t t' ∧
  ((tb_overflowed t' = true → lossy = true) →
   tables_wf t' ∧ will_hold local_files t' styles links ∧ vall (row_valid MAX_PAGE_ROWS) lines = true ∧
   map ro_index lines = map N.of_nat (seq index (length rows)) ∧
   ∃ page, Forall2 (λ r p, Forall2 (cell_shown link_at local_files lossy) r.1 p.1 ∧ p.2 = r.2) rows page ∧
     ∀ styles' links', held local_files t' styles' links' → decode_page_rows styles' links' columns index lines = Ok page).
Proof.
  induction rows as [|[cells wrapped] rows IH]; intros index t Hw Hh Hlen Hc Hi; cbn [page_lines].
  { split; [done|]. intros _. split_and!; try done. by exists []. }
  apply Forall_cons in Hlen as [Hlen Hlens]. cbn [fst] in Hlen. cbn [length] in Hi.
  pose proof (line_encode_spec cells wrapped t columns styles links Hw Hh Hlen) as H. destruct (line_encode _ _ _ _) as [t1 line]. destruct H as [Hle1 H1].
  specialize (IH (S index) t1). destruct (page_lines _ _ _ t1) as [t2 lines] eqn:E2.
  assert (tables_le t1 t2) as Hle2 by (pose proof (page_lines_le rows (S index) t1) as H; by rw E2 in H).
  split; [by etrans|]. intros Hl. destruct H1 as (Hw1 & Hh1 & Ewr & Hshows); [intros Ho; apply Hl; by apply Hle2|].
  destruct IH as [_ IH]; [done..|lia|]. destruct (IH Hl) as (Hw2 & Hh2 & Hv & Eix & page & Hpage & Hdec).
  assert (u16_cast index = N.of_nat index) as Eu by (apply u16_cast_small; unfold MAX_PAGE_ROWS in *; lia).
  apply (line_shows_le link_at lossy t1 t2) in Hshows; [|done].
  destruct (row_decodes link_at local_files lossy t2 (ln_runs line) cells columns Hlen Hshows) as (ds & Hds & Hrow).
  destruct (row_end_spec cells) as [Hend _]. split; [done|]. split; [done|]. split; [|split].
  - unfold vall in *. cbn [forallb]. rw Hv andb_true_r Eu. eapply line_row_valid; [done|exact Hshows|lia|]. unfold MAX_PAGE_ROWS in *. lia.
  - cbn [map length seq ro_index]. by rw Eu Eix.
  - exists ((ds, wrapped) :: page). split; [by constructor|]. intros styles' links' Hheld. cbn [decode_page_rows ro_index]. rw Eu Nat2N.id Nat.eqb_refl.
    cbn [negb]. by rw (Hrow _ _ _ _ Hheld) (Hdec _ _ Hheld) /= Ewr.
Qed.

Lemma increasing_seq rows : ∀ start n, map ro_index rows = map N.of_nat (seq start n) → increasing rows = true.
Proof.
  induction rows as [|a [|b rows] IH]; intros start n E; [done|done|]. destruct n as [|[|n]]; [done|done|]. cbn [map seq] in E. injection E as Ea Eb E.
  change (increasing (a :: b :: rows)) with ((ro_index a <? ro_index b)%N && increasing (b :: rows)). rw andb_true_iff Ea Eb N.ltb_lt. split; [lia|].
  apply (IH (S start) (S n)). cbn [map seq]. by rw Eb E.
Qed.

(** The links a page sends. *)
Definition page_links (rows : list (list (CellSnapshot N) * bool)) : gset Hyperlink :=
  list_to_set (concat (map (λ r, row_links link_at r.1) rows)).

Lemma page_lines_fit X rows : ∀ index t,
  tables_fit X t → (∀ r l, r ∈ rows → l ∈ row_links link_at r.1 → l ∈ X) → tables_fit X (page_lines link_at index rows t).1.
Proof.
  induction rows as [|[cells wrapped] rows IH]; intros index t Ht Hx; [done|]. cbn [page_lines]. unfold line_encode.
  pose proof (scan_of_spec link_at cells []) as Hs. destruct (scan_of link_at cells []) as [scan starts]. destruct Hs as (_ & -> & Est).
  pose proof (line_build_fit link_at X cells wrapped ([] ++ row_starts link_at cells) [] [] scan t Ht) as H.
  destruct (line_build _ _ _ _ _ _) as [t1 line]. specialize (IH (S index) t1). destruct (page_lines _ _ _ t1) as [t2 lines].
  apply IH; [|intros r l Hr; apply Hx; by right]. apply H; [|by rw app_nil_r|done]. intros l. apply (Hx (cells, wrapped)). by left.
Qed.

(** C24. A page of Scrollback passes the peer's check, and a desktop that reads it at the page's
    width gets the first [MAX_PAGE_ROWS] rows, each cell as the server shows it and each wrap
    mark; no link is missing when the page's links fit the table. *)
Theorem page_read epoch start rows columns :
  Forall (λ r, length r.1 = N.to_nat columns) rows → (columns <= MAX_COLUMNS)%N →
  (lossy = false → size (page_links (take (N.to_nat MAX_PAGE_ROWS) rows)) ≤ MAX_LINKS) →
  let page := encode_page link_at epoch start rows in
  page_valid page = true ∧
  ∃ shown, decode_page local_files page columns = Ok shown ∧
    Forall2 (λ r p, Forall2 (cell_shown link_at local_files lossy) r.1 p.1 ∧ p.2 = r.2) (take (N.to_nat MAX_PAGE_ROWS) rows) shown.
Proof.
  intros Hlen Hc Hfit. unfold encode_page. set (some := take (N.to_nat MAX_PAGE_ROWS) rows) in *. destruct (empty_wf false) as [Hw Hn].
  pose proof (page_lines_spec (N.to_nat columns) some ∅ ∅ 0 tables_default Hw (no_new_will_hold _ _ _ Hn (empty_held _ _)) (Forall_take _ _ _ Hlen)) as H.
  assert (length some ≤ N.to_nat MAX_PAGE_ROWS) as Hsome by (unfold some; rw length_take; lia).
  assert (tb_overflowed (page_lines link_at 0 some tables_default).1 = true → lossy = true) as Hl.
  { intros Ho. destruct (decide (lossy = true)) as [|Hne%not_true_is_false]; [done|]. exfalso.
    destruct (page_lines_fit (page_links some) some 0 tables_default) as (_ & _ & E); [split; [intros l id; cbn; by rw lookup_empty|auto]| |congruence].
    intros r l Hr Hl. apply elem_of_list_to_set, list_elem_of_In, in_concat. exists (row_links link_at r.1). split; [|by apply list_elem_of_In].
    apply (in_map (λ r, row_links link_at r.1)). by apply list_elem_of_In. }
  destruct (page_lines _ _ _ _) as [t lines]. destruct H as [_ H]; [lia..|]. cbn [fst] in Hl.
  destruct (H Hl) as (Hwt & Hh & Hv & Eix & page & Hpage & Hdec). cbn [take_definitions]. split.
  - unfold page_valid. cbn [pg_rows pg_styles pg_links].
    repeat match goal with |- (_ && _) = true => apply andb_true_intro; split end; [|by eapply increasing_seq|by apply tables_sent_valid].
    apply Nat.leb_le. rewrite <-(length_map ro_index lines). by rw Eix length_map length_seq.
  - exists page. split; [|done]. unfold decode_page. cbn [pg_rows pg_styles pg_links]. by apply Hdec.
Qed.

(** ** An unchanged screen *)

(** Baseline rows stand for the rows of the capture and their wrap marks. *)
Definition rows_of (screen : ScreenSnapshot) (rows : list Encoded) : Prop :=
  map en_source rows = sn_rows screen ∧ map (λ e, ln_wrapped (en_line e)) rows = wrap_marks (sn_row_soft_wrapped screen) 0 (length (sn_rows screen)).

Lemma pending_rows_sources previous wrapped sources : ∀ index starts,
  map pe_source (pending_rows row_at link_at previous wrapped index sources starts).1 = sources ∧
  map pe_wrapped (pending_rows row_at link_at previous wrapped index sources starts).1 = wrap_marks wrapped index (length sources).
Proof.
  induction sources as [|source sources IH]; intros index starts; [done|]. cbn [pending_rows].
  assert (∃ p starts', pending_row row_at link_at previous (default false (wrapped !! index)) index source starts = (p, starts') ∧
    pe_source p = source ∧ pe_wrapped p = default false (wrapped !! index)) as (p & starts' & -> & Es & Ew).
  { unfold pending_row. destruct (previous ≫= _); [by do 2 eexists|]. destruct (scan_of link_at (row_at source) starts). by do 2 eexists. }
  specialize (IH (S index) starts'). destruct (pending_rows _ _ _ _ _ _ starts') as [ps starts2]. cbn [fst map] in *. rw Es Ew. destruct IH as [-> ->]. done.
Qed.

Lemma build_rows_sources mode news : ∀ shown starts t,
  map (λ r, en_source r.1) (build_rows row_at link_at mode shown news starts t).2 = map pe_source news ∧
  map (λ r, ln_wrapped (en_line r.1)) (build_rows row_at link_at mode shown news starts t).2 = map pe_wrapped news.
Proof.
  induction news as [|new news IH]; intros shown starts t; [done|]. cbn [build_rows].
  assert (∃ t' starts' e changed, build_row row_at link_at mode (mjoin (head shown)) new starts t = (t', starts', e, changed) ∧
    en_source e = pe_source new ∧ ln_wrapped (en_line e) = pe_wrapped new) as (t' & starts' & e & changed & -> & Es & Ew).
  { unfold build_row. destruct (shown_by row_at link_at new (mjoin (head shown))) eqn:Hs.
    - do 4 eexists. split; [done|]. split; [done|]. cbn [en_line]. destruct (mjoin (head shown)) as [old|]; cbn [shown_by resembles] in Hs.
      + rw andb_true_iff in Hs. destruct Hs as [Hw%Bool.eqb_prop _]. done.
      + rw andb_true_iff negb_true_iff in Hs. destruct Hs as [Hw _]. by rw Hw.
    - destruct (match pe_scan new with Some _ => _ | None => _ end) as [scan starts']. unfold line_build. by do 4 eexists. }
  specialize (IH (tail shown) starts' t'). destruct (build_rows _ _ _ _ _ _ t') as [t2 rows]. cbn [snd map fst] in *. rw Es Ew. by destruct IH as [-> ->].
Qed.

Lemma encoder_build_keeps c previous mode t t' u built :
  encoder_build row_at link_at arrange c previous mode t = (t', Some (u, built)) →
  rows_of (ca_screen c) (bt_rows built) ∧ bt_colors built = snapshot_colors (ca_screen c) ∧ no_new t' ∧
  su_cursor u = snapshot_cursor (ca_screen c) ∧ su_history u = sn_history (ca_screen c) ∧ su_generation u = ca_generation c ∧
  su_accessibility_revision u = ca_accessibility_revision c.
Proof.
  rw encoder_build_eq. unfold screen_rows.
  pose proof (pending_rows_sources (bl_rows <$> kept_of c previous) (sn_row_soft_wrapped (ca_screen c)) (sn_rows (ca_screen c)) 0 []) as [H1 H2].
  destruct (pending_rows _ _ _ _ _ _ _) as [pending starts]. destruct (match kept_of c previous with Some _ => _ | None => _ end) as [shift shown].
  pose proof (build_rows_sources mode pending shown starts (set_overflowed false (if bool_decide (mode = Mode_Delta) then t else tables_default))) as [H3 H4].
  destruct (build_rows _ _ _ _ _ _ _) as [t1 rows]. cbn [fst snd] in *. destruct (_ && _); [done|]. cbn zeta.
  destruct (match previous with Some p => _ | None => false end); [done|]. intros [= <- <- <-].
  split; [|done]. unfold rows_of. cbn [bt_rows]. by rw !map_map H3 H4 H1 H2.
Qed.

(** Rows that have not changed. *)
Definition known_row (e : Encoded) : Pending :=
  {| pe_source := en_source e; pe_wrapped := ln_wrapped (en_line e); pe_hash := en_hash e; pe_end := en_end e; pe_scan := None |}.

Lemma pending_known wrapped rows starts : ∀ pre,
  map (λ e, ln_wrapped (en_line e)) rows = wrap_marks wrapped (length pre) (length rows) →
  pending_rows row_at link_at (Some (pre ++ rows)) wrapped (length pre) (map en_source rows) starts = (map known_row rows, starts).
Proof.
  induction rows as [|e rows IH]; intros pre Hw; [done|]. cbn [map length wrap_marks seq] in Hw. injection Hw as Ew Hw. cbn [map pending_rows].
  unfold pending_row. cbn [mbind option_bind]. rw list_lookup_middle //. cbn [mbind option_bind]. rw N.eqb_refl.
  specialize (IH (pre ++ [e])). rw length_app -app_assoc Nat.add_1_r in IH. cbn [length app] in IH. rw IH //. by rw /known_row Ew.
Qed.

Lemma known_resembles e : resembles (known_row e) (Some e) = true.
Proof. cbn. by rw Bool.eqb_reflx N.eqb_refl. Qed.
Lemma find_shift_known rows : find_shift arrange rows (map known_row rows) = None.
Proof.
  unfold find_shift. assert (count_unlike (map known_row rows) (map Some rows) = 0) as ->; [|done].
  unfold count_unlike. induction rows as [|e rows IH]; [done|]. cbn [map combine]. unfold vfilter in *. cbn [List.filter fst snd]. by rw known_resembles.
Qed.

Lemma build_known mode rows starts t : mode ≠ Mode_Replace →
  build_rows row_at link_at mode (map Some rows) (map known_row rows) starts t = (t, map (λ e, (e, false)) rows).
Proof.
  intros Hm. induction rows as [|e rows IH]; [done|]. cbn [map build_rows head tail mjoin option_join]. unfold build_row.
  assert (shown_by row_at link_at (known_row e) (Some e) = true) as -> by (cbn; by rw Bool.eqb_reflx N.eqb_refl).
  rw IH bool_decide_eq_false_2 // bool_decide_eq_true_2 //. cbn. by destruct e.
Qed.
Lemma changed_none rows : ∀ n, changed_from n (map (λ e : Encoded, (e, false)) rows) = [].
Proof. induction rows as [|e rows IH]; intros n; [done|]. apply IH. Qed.

Lemma build_unchanged c t b :
  rows_of (ca_screen c) (bl_rows b) → bl_geometry b = snapshot_geometry (ca_screen c) → bl_modes b = snapshot_modes (ca_screen c) →
  bl_colors b = snapshot_colors (ca_screen c) → bl_graphics b = sn_graphics (ca_screen c) → bl_cursor b = snapshot_cursor (ca_screen c) →
  bl_history b = sn_history (ca_screen c) → bl_generation b = ca_generation c → bl_accessibility_revision b = ca_accessibility_revision c → no_new t →
  ∃ t', encoder_build row_at link_at arrange c (Some b) Mode_Delta t = (t', None) ∧ tb_overflowed t' = false.
Proof.
  intros [Hs Hw] E1 E2 E3 E4 E5 E6 E7 E8 [N1 N2]. rw encoder_build_eq bool_decide_eq_true_2 //. unfold screen_rows, kept_of. cbn [mbind option_bind].
  rw E1 /same_size !N.eqb_refl. cbn [andb fmap option_fmap option_map]. rw -Hs length_map in Hw.
  pose proof (pending_known (sn_row_soft_wrapped (ca_screen c)) (bl_rows b) [] [] Hw) as Hp. cbn [length app] in Hp. rw -Hs Hp find_shift_known.
  rw build_known //. cbn [set_overflowed tb_overflowed]. unfold screen_update, unless_same. cbn [fmap option_fmap option_map].
  rw E1 E2 E3 E4 !bool_decide_eq_true_2 // changed_rows_from changed_none. cbn [tb_new_styles tb_new_links set_overflowed]. rw N1 N2.
  unfold nothing_new. cbn [su_rows su_shift su_styles su_links su_geometry su_modes su_colors su_graphics su_cursor su_history su_generation su_accessibility_revision is_empty].
  rw E5 E6 E7 E8 !N.eqb_refl (bool_decide_eq_true_2 (snapshot_cursor _ = _)) // (bool_decide_eq_true_2 (sn_history _ = _)) //. by eexists.
Qed.

(** Presenting again the capture that the client acknowledged sends nothing and keeps the
    encoder's baseline: revealing an unchanged Pane costs no frame. *)
Theorem unchanged_sends_nothing c frame frame' base e e' u :
  encode_screen row_at link_at arrange c frame base e = (e', Some u) →
  ∃ e2, encode_screen row_at link_at arrange c frame' (Some frame) e' = (e2, None) ∧ se_baseline e2 = se_baseline e'.
Proof.
  intros H. assert (∃ previous mode t t' built, encoder_build row_at link_at arrange c previous mode t = (t', Some (u, built)) ∧
    e' = {| se_tables := t'; se_baseline := Some (baseline_new c frame built u) |}) as (previous & mode & t & t' & built & Hb & ->).
  { unfold encode_screen in H. set (mode := encode_mode _ _) in H. set (known := if bool_decide _ then se_baseline e else None) in H.
    destruct (encoder_build _ _ _ c known mode (se_tables e)) as [t1 [[u1 built1]|]] eqn:E1.
    - injection H as <- <-. by do 5 eexists.
    - destruct (tb_overflowed t1); [|done]. destruct (encoder_build _ _ _ c None Mode_Replace t1) as [t2 [[u2 built2]|]] eqn:E2; [|done].
      injection H as <- <-. by do 5 eexists. }
  apply encoder_build_keeps in Hb as (Hrows & Hcolors & Hn & Hcursor & Hhist & Hgen & Hacc).
  unfold encode_screen. cbn [se_baseline se_tables]. unfold encode_mode. cbn [bl_frame baseline_new]. rw N.eqb_refl bool_decide_eq_true_2 //.
  destruct (build_unchanged c t' (baseline_new c frame built u)) as (t2 & E & Ho); [done..|]. rw E Ho. by eexists.
Qed.
End screens.

(** ** Sample screens *)

Module Sample.

Definition cell (text : ustring) (bold : bool) (link : option N) : CellSnapshot N :=
  {| c_text := text; c_foreground := Tc_Default; c_background := Tc_Default; c_inverse := false; c_bold := bold; c_faint := false;
     c_italic := false; c_blinking := false; c_invisible := false; c_underline := Underline_None; c_underline_source := Tc_Default;
     c_strikethrough := false; c_overline := false; c_selected := false; c_spacer_tail := false; c_semantic := Semantic_Output;
     c_hyperlink := link |}.
Definition tail_cell : CellSnapshot N :=
  {| c_text := []; c_foreground := Tc_Default; c_background := Tc_Default; c_inverse := false; c_bold := false; c_faint := false;
     c_italic := false; c_blinking := false; c_invisible := false; c_underline := Underline_None; c_underline_source := Tc_Default;
     c_strikethrough := false; c_overline := false; c_selected := false; c_spacer_tail := true; c_semantic := Semantic_Output;
     c_hyperlink := None |}.
Definition plain (text : string) : list (CellSnapshot N) := map (λ c, cell [c] false None) (lit text).

(** Five allocations of rows, one of a link. *)
Definition row_at (n : N) : list (CellSnapshot N) :=
  match n with
  | 1 => plain "ab "
  | 2 => plain "cd "
  | 3 => [cell (lit "e") true (Some 1); cell (lit "f") true None; cell (lit " ") false None]
  | 4 => [cell [19990%N] false None; tail_cell; cell (lit "z") false (Some 1)]
  | _ => plain "   "
  end%N.
Definition link_at (n : N) : HyperlinkTarget :=
  {| ht_identity := n; ht_kind := Kind_Url; ht_value := lit "https://example.org"; ht_local_file := None |}.

Definition black : AppColor := {| ac_r := 0; ac_g := 0; ac_b := 0; ac_a := 255 |}.
Definition screen (rows : list N) (wrapped : list bool) : ScreenSnapshot :=
  {| sn_rows := rows; sn_row_soft_wrapped := wrapped; sn_cols := 3; sn_cell_pixels := (8, 16); sn_alternate := false;
     sn_mouse_tracking := false; sn_alternate_scroll := false;
     sn_colors := {| tc_foreground := black; tc_background := black; tc_palette := repeat black 256; tc_reversed := false;
                     tc_foreground_overridden := false; tc_background_overridden := false; tc_cursor_overridden := false;
                     tc_palette_overrides := repeat false 256 |};
     sn_cursor := {| cn_position := Some (2, 1, 1); cn_visible := true; cn_blinking := false; cn_shape := Shape_Bar; cn_color := black; cn_text_color := black |};
     sn_history := {| hi_epoch := 1; hi_oldest := 0; hi_total := 3 |};
     sn_graphics := {| gr_failure := None; gr_generation := 0; gr_placement_generation := 0; gr_images := []; gr_placements := [] |} |}%N.
Definition first : ScreenCapture := {| ca_screen := screen [1; 2; 3]%N [false; true; false]; ca_generation := 1; ca_accessibility_revision := 0 |}.
Definition scrolled : ScreenCapture := {| ca_screen := screen [2; 3; 4]%N [true; false; false]; ca_generation := 2; ca_accessibility_revision := 0 |}.

(** A keyframe, a scroll on top of it, the same again, a frame that is dropped, and one that replaces all rows. *)
Definition events : list FrameEvent :=
  [{| fe_capture := first; fe_rests := true; fe_sent := true |};
   {| fe_capture := scrolled; fe_rests := true; fe_sent := true |};
   {| fe_capture := scrolled; fe_rests := true; fe_sent := true |};
   {| fe_capture := first; fe_rests := true; fe_sent := false |};
   {| fe_capture := first; fe_rests := true; fe_sent := true |}].
Definition run := channel_run row_at link_at id None events channel_new.

(** How many rows each step sends, and how far it scrolls. *)
Definition sent_rows (entry : FrameOutcome * ScreenDecoder) : option (nat * option Z) :=
  match entry.1 with Sent u _ | Not_Sent u => Some (length (su_rows u), sh_lines <$> su_shift u) | Nothing_New => None end.

Lemma sample_ok c : c = first ∨ c = scrolled → capture_ok row_at c ∧ links_fit row_at link_at false c.
Proof.
  intros [-> | ->]; (split; [|intros _; apply Nat.leb_le; by vm_compute]); split.
  all: try (split; apply Nat.leb_le; by vm_compute). all: try (split; by vm_compute). all: try by vm_compute.
  all: repeat constructor.
Qed.

Lemma screens_shown_witness :
  map sent_rows run = [Some (3, None); Some (1, Some 1%Z); None; Some (1, Some (-1)%Z); Some (3, None)] ∧
  Forall2 (outcome_ok row_at link_at None false) events run.
Proof.
  split; [by vm_compute|]. apply (screens_shown row_at link_at id None false events).
  repeat (apply Forall_cons; split; [apply sample_ok; by auto|]). constructor.
Defined.

Lemma unchanged_sends_nothing_witness :
  let e := (encode_screen row_at link_at id first 1 None encoder_default).1 in
  ∃ e2, encode_screen row_at link_at id first 2 (Some 1%N) e = (e2, None) ∧ se_baseline e2 = se_baseline e.
Proof.
  intros e. destruct (encode_screen row_at link_at id first 1 None encoder_default).2 as [u|] eqn:E; [|by vm_compute in E].
  apply (unchanged_sends_nothing row_at link_at id first 1 2 None encoder_default e u). unfold e. rewrite <-E. by destruct (encode_screen _ _ _ _ _ _ _).
Defined.

Lemma page_read_witness :
  let page := encode_page link_at 7 0 [(row_at 3, true); (row_at 4, false)] in
  page_valid page = true ∧
  ∃ shown, decode_page None page 3 = Ok shown ∧ map snd shown = [true; false] ∧
    map (map c_text) (map fst shown) = [[lit "e"; lit "f"; lit " "]; [[19990%N]; lit " "; lit "z"]].
Proof.
  destruct (page_read link_at None false 7 0 [(row_at 3, true); (row_at 4, false)] 3) as (Hv & shown & Hd & _).
  - repeat constructor.
  - by vm_compute.
  - intros _. apply Nat.leb_le. by vm_compute.
  - split; [exact Hv|]. exists shown. split; [exact Hd|].
    assert (match decode_page None (encode_page link_at 7 0 [(row_at 3, true); (row_at 4, false)]) 3 with
            | Ok p => map snd p = [true; false] ∧ map (map c_text) (map fst p) = [[lit "e"; lit "f"; lit " "]; [[19990%N]; lit " "; lit "z"]]
            | Err _ => False end) as H by by vm_compute. by rw Hd in H.
Defined.

End Sample.
