(* ===== verification/Scrollback.v ===== *)
(** * The Scrollback of a client

    [src/terminal/core_session/scrollback/cache.rs], [Viewport] of [view.rs], [route.rs], and the
    placeholders of [scrollback.rs]: the history rows a desktop holds of a Pane, the pages it
    asks for, where its view is, and where the wheel and the pointer go. A row is any value;
    positions are [u64] below [2^64 - 500], so that the end of a page does not wrap. *)
From stdpp Require Import gmap sorting.
From Stdlib Require Import Lia.
From S2P Require Import Prelude.
From S2P Require Import Text.
From S2P Require Import Screen.

Definition FIRST_PAGE_ROWS : N := 200.
Definition MAX_PAGES_IN_FLIGHT : nat := 4.
Definition MAX_CACHED_ROWS : nat := N.to_nat 10000.

(** [Range<u64>]. *)
Definition range : Type := N * N.
Definition in_range_of (r : range) (n : N) : bool := ((r.1 <=? n) && (n <? r.2))%N.
Definition range_empty (r : range) : bool := (r.2 <=? r.1)%N.

Record PageRequest := { pr_epoch : N; pr_start : N; pr_rows : N }.
#[export] Instance PageRequest_eq_dec : EqDecision PageRequest.
Proof. solve_decision. Defined.
(** [PageRequest::range]. *)
Definition request_range (r : PageRequest) : range := (pr_start r, pr_start r + pr_rows r)%N.

(** [sort_by_key]: a stable sort. *)
Fixpoint insert_by {A} (key : A → N) (x : A) (l : list A) : list A :=
  match l with
  | [] => [x]
  | y :: l => if (key x <=? key y)%N then x :: y :: l else y :: insert_by key x l
  end.
Definition sort_by_key {A} (key : A → N) (l : list A) : list A := foldr (insert_by key) [] l.

(** The keys of a [BTreeMap] in order. *)
Definition map_keys {R} (m : gmap N R) : list N := merge_sort N.le (elements (dom m)).
(** [retain]. *)
Definition map_retain {R} (keep : N → bool) (m : gmap N R) : gmap N R := filter (λ entry, keep entry.1 = true) m.

(** ** The cache *)

Section cache.
Context {R : Type}.

Record ScrollbackCache := {
  sb_session : option N; sb_history : History; sb_rows : gmap N R; sb_in_flight : list PageRequest; sb_settled : list range;
  sb_requested : bool; sb_revision : N
}.
Definition cache_default : ScrollbackCache :=
  {| sb_session := None; sb_history := {| hi_epoch := 0; hi_oldest := 0; hi_total := 0 |}; sb_rows := ∅; sb_in_flight := []; sb_settled := [];
     sb_requested := false; sb_revision := 0 |}.
Definition set_in_flight (in_flight : list PageRequest) (c : ScrollbackCache) : ScrollbackCache :=
  {| sb_session := sb_session c; sb_history := sb_history c; sb_rows := sb_rows c; sb_in_flight := in_flight; sb_settled := sb_settled c;
     sb_requested := sb_requested c; sb_revision := sb_revision c |}.
Definition set_settled (settled : list range) (c : ScrollbackCache) : ScrollbackCache :=
  {| sb_session := sb_session c; sb_history := sb_history c; sb_rows := sb_rows c; sb_in_flight := sb_in_flight c; sb_settled := settled;
     sb_requested := sb_requested c; sb_revision := sb_revision c |}.
Definition set_history (history : History) (c : ScrollbackCache) : ScrollbackCache :=
  {| sb_session := sb_session c; sb_history := history; sb_rows := sb_rows c; sb_in_flight := sb_in_flight c; sb_settled := sb_settled c;
     sb_requested := sb_requested c; sb_revision := sb_revision c |}.
Definition set_cached (rows : gmap N R) (revision : N) (c : ScrollbackCache) : ScrollbackCache :=
  {| sb_session := sb_session c; sb_history := sb_history c; sb_rows := rows; sb_in_flight := sb_in_flight c; sb_settled := sb_settled c;
     sb_requested := sb_requested c; sb_revision := revision |}.

(** [clear]. *)
Definition cache_clear (c : ScrollbackCache) : ScrollbackCache :=
  {| sb_session := sb_session c; sb_history := sb_history c; sb_rows := ∅; sb_in_flight := sb_in_flight c; sb_settled := [];
     sb_requested := false; sb_revision := if bool_decide (sb_rows c = ∅) then sb_revision c else (sb_revision c + 1)%N |}.

(** [attach]. *)
Definition cache_attach (session : N) (c : ScrollbackCache) : ScrollbackCache * bool :=
  if bool_decide (sb_session c = Some session) then (c, true)
  else
    let c := cache_clear c in
    ({| sb_session := Some session; sb_history := sb_history c; sb_rows := sb_rows c; sb_in_flight := sb_in_flight c; sb_settled := sb_settled c;
        sb_requested := sb_requested c; sb_revision := sb_revision c |}, false).

(** Retaining counts as a change when a row leaves. *)
Definition retain_rows (keep : N → bool) (c : ScrollbackCache) : ScrollbackCache :=
  let rows := map_retain keep (sb_rows c) in
  set_cached rows (if size rows =? size (sb_rows c) then sb_revision c else (sb_revision c + 1)%N) c.

(** [observe]. *)
Definition retained_range (h : History) : range := (hi_oldest h, hi_total h).
Definition cache_observe (history : History) (c : ScrollbackCache) : ScrollbackCache * bool :=
  let same := (hi_epoch history =? hi_epoch (sb_history c))%N in
  let c := if same then c else cache_clear c in
  let c := if bool_decide (history = sb_history c) then c else set_settled [] c in
  let c := set_history history c in
  (retain_rows (in_range_of (retained_range history)) c, same).

(** [evict]: the end farther from the reader leaves, while there are too many rows. *)
Definition abs_diff (a b : N) : N := if (a <=? b)%N then (b - a)%N else (a - b)%N.
Fixpoint evict_rows (fuel : nat) (focus : N) (rows : gmap N R) : gmap N R :=
  match fuel with
  | 0 => rows
  | S fuel =>
      if MAX_CACHED_ROWS <? size rows then
        match head (map_keys rows), last (map_keys rows) with
        | Some first, Some last =>
            evict_rows fuel focus (if (abs_diff focus last <=? abs_diff focus first)%N then delete first rows else delete last rows)
        | _, _ => rows
        end
      else rows
  end.
Definition cache_evict (focus : N) (rows : gmap N R) : gmap N R := evict_rows (size rows) focus rows.

(** [insert]. *)
Fixpoint insert_rows (retained : range) (start : N) (new : list R) (rows : gmap N R) (changed : bool) : gmap N R * bool :=
  match new with
  | [] => (rows, changed)
  | row :: new =>
      if in_range_of retained start then insert_rows retained (start + 1) new (<[start := row]> rows) true
      else insert_rows retained (start + 1) new rows changed
  end.
Definition cache_insert (start : N) (new : list R) (focus : N) (c : ScrollbackCache) : ScrollbackCache :=
  let '(rows, changed) := insert_rows (retained_range (sb_history c)) start new (sb_rows c) false in
  if changed then set_cached (cache_evict focus rows) (sb_revision c + 1) c else set_cached rows (sb_revision c) c.

(** A request that is answered or was never sent leaves the requests in flight. *)
Definition leave_flight (request : PageRequest) (in_flight : list PageRequest) : list PageRequest :=
  match vposition (λ sent, bool_decide (sent = request)) in_flight with
  | Some index => swap_remove index in_flight
  | None => in_flight
  end.

(** [page]. *)
Definition cache_page (request : PageRequest) (page : option (N * N * list R)) (focus : N) (c : ScrollbackCache) : ScrollbackCache :=
  let c := set_in_flight (leave_flight request (sb_in_flight c)) c in
  if negb (pr_epoch request =? hi_epoch (sb_history c))%N then c
  else
    let c := set_settled (sb_settled c ++ [request_range request]) c in
    match page with
    | Some (epoch, start, rows) =>
        if (epoch =? hi_epoch (sb_history c))%N then
          let c :=
            if ((pr_start request <? start) && (hi_oldest (sb_history c) <? start))%N then
              let h := sb_history c in
              let oldest := N.min start (hi_total h) in
              retain_rows (λ position, (oldest <=? position)%N)
                (set_history {| hi_epoch := hi_epoch h; hi_oldest := oldest; hi_total := hi_total h |} c)
            else c in
          cache_insert start rows focus c
        else c
    | None => c
    end.

(** [forget_in_flight] and [unsent]. *)
Definition cache_forget (c : ScrollbackCache) : ScrollbackCache := set_in_flight [] c.
Definition cache_unsent (requests : list PageRequest) (c : ScrollbackCache) : ScrollbackCache :=
  set_in_flight (foldl (λ in_flight request, leave_flight request in_flight) (sb_in_flight c) requests) c.

(** [retained]. *)
Definition cache_retained (r : range) (c : ScrollbackCache) : range :=
  let start := N.max r.1 (hi_oldest (sb_history c)) in
  (start, N.max (N.min r.2 (hi_total (sb_history c))) start).

(** [rows.range(r)]. *)
Definition keys_in (r : range) (c : ScrollbackCache) : list N := vfilter (in_range_of r) (map_keys (sb_rows c)).

(** [covers]. *)
Definition cache_covers (r : range) (c : ScrollbackCache) : bool :=
  let r := cache_retained r c in
  (N.of_nat (length (keys_in r c)) =? r.2 - r.1)%N.

(** ** Asking for pages *)

(** The gaps between cached positions. *)
Fixpoint gaps (cursor end_ : N) (positions : list N) : list range :=
  match positions with
  | [] => if (cursor <? end_)%N then [(cursor, end_)] else []
  | p :: positions => (if (cursor <? p)%N then [(cursor, p)] else []) ++ gaps (p + 1) end_ positions
  end.

(** [subtract]. *)
Definition subtract_one (sent part : range) : list range :=
  if ((sent.2 <=? part.1) || (part.2 <=? sent.1))%N then [part]
  else vfilter (λ piece, (piece.1 <? piece.2)%N) [(part.1, sent.1); (sent.2, part.2)].
Definition subtract (run : range) (asked : list range) : list range :=
  foldl (λ parts sent, flat_map (subtract_one sent) parts) [run] asked.

(** How far a run is from the reader. *)
Definition run_distance (focus : N) (run : range) : N :=
  if (focus <? run.1)%N then (run.1 - focus)%N else (focus - (run.2 - 1))%N.

(** The loop over one run: pages from the end nearest the reader, while there is room. *)
Fixpoint carve (room : nat) (focus : N) (run : range) (requested : bool) (epoch : N) : list PageRequest :=
  match room with
  | 0 => []
  | S room =>
      if range_empty run then []
      else
        let size := if requested then MAX_PAGE_ROWS else FIRST_PAGE_ROWS in
        let page := if (focus <? run.2)%N then (run.1, N.min (run.1 + size) run.2) else (N.max (run.2 - size) run.1, run.2) in
        let rest := if (page.1 =? run.1)%N then (page.2, run.2) else (run.1, page.1) in
        {| pr_epoch := epoch; pr_start := page.1; pr_rows := (page.2 - page.1)%N |} :: carve room focus rest true epoch
  end.
Fixpoint carve_all (room : nat) (focus : N) (runs : list range) (requested : bool) (epoch : N) : list PageRequest :=
  match runs with
  | [] => []
  | run :: runs =>
      let pages := carve room focus run requested epoch in
      pages ++ carve_all (room - length pages) focus runs (requested || negb (is_empty pages)) epoch
  end.

(** The ranges that were asked for and are not to be asked for again. *)
Definition asked_ranges (c : ScrollbackCache) : list range :=
  map request_range (vfilter (λ sent, (pr_epoch sent =? hi_epoch (sb_history c))%N) (sb_in_flight c)) ++ sb_settled c.
Definition missing_runs (wanted : range) (c : ScrollbackCache) : list range :=
  flat_map (λ run, subtract run (asked_ranges c)) (gaps wanted.1 wanted.2 (keys_in wanted c)).

(** [request]. *)
Definition cache_request (wanted : range) (focus : N) (c : ScrollbackCache) : ScrollbackCache * list PageRequest :=
  let wanted := cache_retained wanted c in
  let runs := sort_by_key (run_distance focus) (missing_runs wanted c) in
  let requests := carve_all (MAX_PAGES_IN_FLIGHT - length (sb_in_flight c)) focus runs (sb_requested c) (hi_epoch (sb_history c)) in
  ({| sb_session := sb_session c; sb_history := sb_history c; sb_rows := sb_rows c; sb_in_flight := sb_in_flight c ++ requests;
      sb_settled := sb_settled c; sb_requested := sb_requested c || negb (is_empty requests); sb_revision := sb_revision c |}, requests).

(** ** Placeholders ([scrollback.rs]) *)

(** [keep_placeholders]: rows of the frame before that scrolled into history and are not cached. *)
Fixpoint keep_placeholders {V} (c : ScrollbackCache) (line total : N) (rows : list V) (placeholders : gmap N V)
    : gmap N V :=
  match rows with
  | [] => placeholders
  | row :: rows =>
      if (total <=? line)%N then placeholders
      else keep_placeholders c (line + 1) total rows
             (if bool_decide (is_Some (sb_rows c !! line)) then placeholders else <[line := row]> placeholders)
  end.
(** [prune_placeholders]. *)
Fixpoint pop_oldest {V} (fuel : nat) (placeholders : gmap N V) : gmap N V :=
  match fuel with
  | 0 => placeholders
  | S fuel =>
      if N.to_nat MAX_PAGE_ROWS <? size placeholders then
        match head (map_keys placeholders) with
        | Some first => pop_oldest fuel (delete first placeholders)
        | None => placeholders
        end
      else placeholders
  end.
Definition prune_placeholders {V} (c : ScrollbackCache) (placeholders : gmap N V) : gmap N V :=
  let kept := map_retain (λ line, in_range_of (retained_range (sb_history c)) line && negb (bool_decide (is_Some (sb_rows c !! line)))) placeholders in
  pop_oldest (size kept) kept.
End cache.
Arguments ScrollbackCache : clear implicits.

(** ** The view *)

(** [Viewport]: the line at its top, or none while it follows the screen. *)
Definition Viewport : Type := option N.
(** [u64::clamp] with ordered bounds. *)
Definition viewport_top (history : History) (v : Viewport) : N :=
  match v with Some top => N.min (N.max top (hi_oldest history)) (hi_total history) | None => hi_total history end.
Definition viewport_following (v : Viewport) : bool := negb (bool_decide (is_Some v)).
Definition viewport_set_top (history : History) (top : N) (v : Viewport) : Viewport * bool :=
  let before := viewport_top history v in
  let v := if (top <? hi_total history)%N then Some (N.max top (hi_oldest history)) else None in
  (v, negb (viewport_top history v =? before)%N).
Definition viewport_scroll (history : History) (rows : Z) (v : Viewport) : Viewport * bool :=
  let top := viewport_top history v in
  let target := if (rows <? 0)%Z then (top - Z.to_N (- rows))%N else u64_saturating_add top (Z.to_N rows) in
  viewport_set_top history target v.
Definition viewport_follow (v : Viewport) : Viewport * bool := (None, bool_decide (is_Some v)).
Definition viewport_observe (history : History) (v : Viewport) : Viewport :=
  match v with Some top => (viewport_set_top history top v).1 | None => v end.

(** ** Where input goes ([route.rs]) *)

Inductive WheelRoute := Wheel_Scrollback | Wheel_Program | Wheel_Ignore.
Record RouteModes := { rm_mouse_tracking : bool; rm_alternate_screen : bool; rm_alternate_scroll : bool; rm_shift_override : bool }.
Definition wheel_route (m : RouteModes) : WheelRoute :=
  let reports := rm_mouse_tracking m && negb (rm_shift_override m) in
  let alternate_scroll := rm_alternate_screen m && negb (rm_mouse_tracking m) && rm_alternate_scroll m in
  if reports || alternate_scroll then Wheel_Program else if rm_alternate_screen m then Wheel_Ignore else Wheel_Scrollback.

Inductive PointerRoute := Route_Selection | Route_Program | Route_Ignore.
Inductive RoutePhase := Phase_Press | Phase_Motion | Phase_Release.
#[export] Instance RoutePhase_eq_dec : EqDecision RoutePhase.
Proof. solve_decision. Defined.
Inductive RouteButton := Button_Left | Button_Other.
#[export] Instance RouteButton_eq_dec : EqDecision RouteButton.
Proof. solve_decision. Defined.
Record PointerRouter := { pt_program : bool; pt_selecting : bool }.
Definition router_default : PointerRouter := {| pt_program := false; pt_selecting := false |}.

(** [PointerRouter::route] and [cancel]. *)
Definition router_route (phase : RoutePhase) (button : option RouteButton) (m : RouteModes) (r : PointerRouter) : PointerRouter * PointerRoute :=
  let tracking := rm_mouse_tracking m && negb (rm_shift_override m) in
  let hover := bool_decide (phase = Phase_Motion) && negb (bool_decide (is_Some button)) in
  let r := match phase with
           | Phase_Press =>
               {| pt_program := tracking && bool_decide (is_Some button); pt_selecting := negb tracking && bool_decide (button = Some Button_Left) |}
           | Phase_Motion | Phase_Release => r
           end in
  if hover then (r, if pt_program r || rm_mouse_tracking m then Route_Program else Route_Ignore)
  else
    let route := if pt_program r then Route_Program else if pt_selecting r then Route_Selection else Route_Ignore in
    (match phase with Phase_Release => router_default | _ => r end, route).
Definition router_cancel (r : PointerRouter) : PointerRouter := router_default.

(** ** Maps by key *)

Section maps.
Context {R : Type}.
Implicit Types (m : gmap N R).

Lemma map_keys_perm m : map_keys m ≡ₚ elements (dom m).
Proof. apply merge_sort_Permutation. Qed.
Lemma elem_of_map_keys m p : p ∈ map_keys m ↔ is_Some (m !! p).
Proof. by rw map_keys_perm elem_of_elements elem_of_dom. Qed.
Lemma map_keys_NoDup m : NoDup (map_keys m).
Proof. rw map_keys_perm. apply NoDup_elements. Qed.
Lemma map_keys_sorted m : StronglySorted N.le (map_keys m).
Proof. apply StronglySorted_merge_sort; apply _. Qed.
Lemma map_keys_length m : length (map_keys m) = size m.
Proof. by rw map_keys_perm -(size_dom (D := gset N)). Qed.

Lemma map_keys_ends m : size m ≠ 0 →
  ∃ first last_, head (map_keys m) = Some first ∧ last (map_keys m) = Some last_ ∧ is_Some (m !! first) ∧ is_Some (m !! last_) ∧
    ∀ p, is_Some (m !! p) → (first <= p <= last_)%N.
Proof.
  intros Hs. pose proof (map_keys_sorted m) as Hsort. pose proof (elem_of_map_keys m) as Hin. pose proof (map_keys_length m) as Hlen.
  destruct (map_keys m) as [|first l] eqn:E; [simpl in Hlen; congruence|].
  destruct (last (first :: l)) as [last_|] eqn:El; [|by apply last_None in El].
  exists first, last_. split; [done|]. split; [done|]. assert (last_ ∈ first :: l) as Hl by by apply last_Some_elem_of.
  split; [apply Hin; by left|]. split; [by apply Hin|]. intros p Hp%Hin. apply StronglySorted_inv in Hsort as Hf. split.
  - apply elem_of_cons in Hp as [->|Hp]; [done|]. destruct Hf as [_ Hf]. by eapply (proj1 (Forall_forall _ _) Hf).
  - apply last_Some in El as [l' El']. rw El' in Hp Hsort. apply elem_of_app in Hp as [Hp|Hp%list_elem_of_singleton]; [|by subst].
    clear -Hp Hsort. induction l' as [|x l' IH]; [by apply not_elem_of_nil in Hp|]. cbn [app] in Hsort. apply StronglySorted_inv in Hsort as [Hs Hf].
    apply elem_of_cons in Hp as [->|Hp]; [|by apply IH]. eapply (proj1 (Forall_forall _ _) Hf). apply elem_of_app. right. by left.
Qed.

Lemma map_retain_lookup keep m p : map_retain keep m !! p = if keep p then m !! p else None.
Proof.
  unfold map_retain. destruct (keep p) eqn:E; [|by apply map_lookup_filter_None; right; intros x _; cbn; rw E].
  destruct (m !! p) as [x|] eqn:Em; [by apply map_lookup_filter_Some|]. apply map_lookup_filter_None. by left.
Qed.
Lemma map_retain_size keep m : size (map_retain keep m) ≤ size m.
Proof. apply map_subseteq_size, map_filter_subseteq. Qed.

Lemma abs_diff_sum a b : abs_diff a b = (a - b + (b - a))%N.
Proof. unfold abs_diff. destruct (N.leb_spec a b); lia. Qed.

(** What eviction keeps: at most the bound, and nothing farther from the reader than what it drops. *)
Lemma evict_rows_spec focus fuel : ∀ m, size m ≤ fuel →
  let m' := evict_rows fuel focus m in
  m' ⊆ m ∧ size m' ≤ MAX_CACHED_ROWS ∧ (size m ≤ MAX_CACHED_ROWS → m' = m) ∧ (MAX_CACHED_ROWS ≤ size m → size m' = MAX_CACHED_ROWS) ∧
  ∀ p q, is_Some (m' !! p) → is_Some (m !! q) → m' !! q = None → (abs_diff focus p <= abs_diff focus q)%N.
Proof.
  induction fuel as [|fuel IH]; intros m Hsize; cbn zeta; cbn [evict_rows].
  { assert (m = ∅) as -> by (apply map_size_empty_inv; lia). split; [done|]. split; [rw map_size_empty; apply Nat.le_0_l|]. split; [done|].
    split; [intros H; apply Nat.le_antisymm; [rw map_size_empty; apply Nat.le_0_l|done]|]. by intros p q [x Hx]. }
  destruct (Nat.ltb_spec MAX_CACHED_ROWS (size m)) as [Hlt|Hle].
  2:{ split; [done|]. split; [done|]. split; [done|]. split; [lia|]. intros p q _ [x Hx] Hq. congruence. }
  destruct (map_keys_ends m) as (first & last_ & Ef & El & Hf & Hl & Hends); [lia|]. rw Ef El.
  assert (∀ d, is_Some (m !! d) → (∀ p, is_Some (m !! p) → (abs_diff focus p <= abs_diff focus d)%N) →
    let m' := evict_rows fuel focus (delete d m) in
    m' ⊆ m ∧ size m' ≤ MAX_CACHED_ROWS ∧ (size m ≤ MAX_CACHED_ROWS → m' = m) ∧ (MAX_CACHED_ROWS ≤ size m → size m' = MAX_CACHED_ROWS) ∧
    ∀ p q, is_Some (m' !! p) → is_Some (m !! q) → m' !! q = None → (abs_diff focus p <= abs_diff focus q)%N) as Hdel.
  { intros d Hd Hfar. cbn zeta. assert (size (delete d m) = size m - 1) as Esz by (rw map_size_delete; destruct Hd as [x Ex]; rw Ex; lia).
    destruct (IH (delete d m)) as (H1 & H2 & H3 & H4 & H5); [lia|]. split; [etrans; [exact H1|apply delete_subseteq]|]. split; [done|].
    split; [lia|]. split; [lia|]. intros p q Hp Hq Hn. destruct (decide (q = d)) as [->|Hne].
    - apply Hfar. destruct Hp as [x Hx]. exists x. eapply lookup_weaken; [|apply (delete_subseteq m d)]. by eapply lookup_weaken.
    - apply H5; [done| |done]. by rw lookup_delete_ne. }
  destruct (N.leb_spec (abs_diff focus last_) (abs_diff focus first)) as [Hd|Hd]; apply Hdel; try done; intros p Hp; specialize (Hends p Hp);
    rw !abs_diff_sum in Hd |- *; lia.
Qed.

Lemma cache_evict_spec focus m :
  let m' := cache_evict focus m in
  m' ⊆ m ∧ size m' ≤ MAX_CACHED_ROWS ∧ (size m ≤ MAX_CACHED_ROWS → m' = m) ∧ (MAX_CACHED_ROWS ≤ size m → size m' = MAX_CACHED_ROWS) ∧
  ∀ p q, is_Some (m' !! p) → is_Some (m !! q) → m' !! q = None → (abs_diff focus p <= abs_diff focus q)%N.
Proof. by apply evict_rows_spec. Qed.

Lemma insert_rows_lookup retained new : ∀ start m changed p,
  (insert_rows retained start new m changed).1 !! p =
    match (if (start <=? p)%N && in_range_of retained p then new !! N.to_nat (p - start) else None) with Some row => Some row | None => m !! p end.
Proof.
  induction new as [|row new IH]; intros start m changed p; cbn [insert_rows]; [by destruct (_ && _)|].
  assert (p ≠ start → ((start <=? p)%N && in_range_of retained p) = ((start + 1 <=? p)%N && in_range_of retained p) ∧
    ((start <=? p)%N = true → (row :: new) !! N.to_nat (p - start) = new !! N.to_nat (p - (start + 1)))) as Hstep.
  { intros Hne. split; [by destruct (N.leb_spec start p), (N.leb_spec (start + 1) p); try lia|]. intros H%N.leb_le.
    by replace (N.to_nat (p - start)) with (S (N.to_nat (p - (start + 1)))) by lia. }
  destruct (in_range_of retained start) eqn:E; rw IH; (destruct (decide (p = start)) as [->|Hne]; [|destruct (Hstep Hne) as [E1 E2]]).
  - rw N.leb_refl E N.sub_diag /=. destruct (N.leb_spec (start + 1) start); [lia|]. by rw /= lookup_insert_eq.
  - rw lookup_insert_ne // E1. destruct (N.leb_spec (start + 1) p) as [Hle|]; [|done]. rw E2 //. apply N.leb_le. lia.
  - rw N.leb_refl E /=. by rw andb_false_r.
  - rw E1. destruct (N.leb_spec (start + 1) p) as [Hle|]; [|done]. rw E2 //. apply N.leb_le. lia.
Qed.

Lemma insert_rows_changed retained new : ∀ start m changed, changed = true → (insert_rows retained start new m changed).2 = true.
Proof. induction new as [|row new IH]; intros start m changed ->; cbn [insert_rows]; [done|]. destruct (in_range_of _ _); by apply IH. Qed.
Lemma insert_rows_unchanged retained new : ∀ start m changed,
  (insert_rows retained start new m changed).2 = false → (insert_rows retained start new m changed).1 = m.
Proof.
  induction new as [|row new IH]; intros start m changed; cbn [insert_rows]; [done|]. destruct (in_range_of _ _); [|by apply IH].
  by rw (insert_rows_changed retained new (start + 1) _ true).
Qed.
End maps.

(** ** Sets of positions as ranges *)

(** How many of the ranges a position is in. *)
Definition hits (p : N) (l : list range) : nat := length (vfilter (λ r, in_range_of r p) l).
Definition one_if (b : bool) : nat := if b then 1 else 0.

Lemma in_range_of_spec r p : in_range_of r p = true ↔ (r.1 <= p < r.2)%N.
Proof. unfold in_range_of. rw andb_true_iff N.leb_le N.ltb_lt. done. Qed.
Lemma hits_app p l l' : hits p (l ++ l') = hits p l + hits p l'.
Proof. unfold hits. by rw vfilter_app length_app. Qed.
Lemma hits_cons p r l : hits p (r :: l) = one_if (in_range_of r p) + hits p l.
Proof. unfold hits, vfilter. cbn [List.filter]. by destruct (in_range_of r p). Qed.
Lemma hits_perm p l l' : l ≡ₚ l' → hits p l = hits p l'.
Proof. intros H. unfold hits. by rw (vfilter_perm _ _ _ H). Qed.

Lemma insert_by_perm {A} (key : A → N) x l : insert_by key x l ≡ₚ x :: l.
Proof. induction l as [|y l IH]; cbn [insert_by]; [done|]. destruct (_ <=? _)%N; [done|]. rw IH. apply Permutation_swap. Qed.
Lemma sort_by_key_perm {A} (key : A → N) l : sort_by_key key l ≡ₚ l.
Proof. unfold sort_by_key. induction l as [|x l IH]; cbn [foldr]; [done|]. by rw insert_by_perm IH. Qed.
Lemma insert_by_sorted {A} (key : A → N) x l :
  StronglySorted (λ a b, (key a <= key b)%N) l → StronglySorted (λ a b, (key a <= key b)%N) (insert_by key x l).
Proof.
  induction 1 as [|y l Hs IH Hf]; cbn [insert_by]; [by repeat constructor|]. destruct (N.leb_spec (key x) (key y)) as [Hle|Hlt].
  - constructor; [by constructor|]. constructor; [done|]. eapply Forall_impl; [exact Hf|]. intros z Hz. cbn in Hz. lia.
  - constructor; [done|]. rw insert_by_perm. constructor; [lia|done].
Qed.
Lemma sort_by_key_sorted {A} (key : A → N) l : StronglySorted (λ a b, (key a <= key b)%N) (sort_by_key key l).
Proof. unfold sort_by_key. induction l as [|x l IH]; cbn [foldr]; [constructor|]. by apply insert_by_sorted. Qed.

(** The gaps hold each position between the bounds that is not listed, once. *)
Lemma gaps_spec positions : ∀ cursor end_, StronglySorted N.le positions → NoDup positions →
  Forall (λ p, (cursor <= p < end_)%N) positions →
  Forall (λ g, (cursor <= g.1 < g.2 ∧ g.2 <= end_)%N) (gaps cursor end_ positions) ∧
  ∀ p, hits p (gaps cursor end_ positions) = one_if (in_range_of (cursor, end_) p && negb (bool_decide (p ∈ positions))).
Proof.
  induction positions as [|x positions IH]; intros cursor end_ Hs Hn Hb; cbn [gaps].
  - destruct (N.ltb_spec cursor end_) as [Hlt|Hle]; (split; [repeat constructor; simpl; lia|]); intros p; [|rw /hits /=].
    + rw hits_cons /hits /=. by destruct (in_range_of _ _).
    + destruct (in_range_of (cursor, end_) p) eqn:E; [|done]. apply in_range_of_spec in E. simpl in E. lia.
  - apply StronglySorted_inv in Hs as [Hs Hf]. apply NoDup_cons in Hn as [Hx Hn]. apply Forall_cons in Hb as [Hb Hbs].
    destruct (IH (x + 1)%N end_ Hs Hn) as [H1 H2].
    { apply Forall_forall. intros y Hy. pose proof (proj1 (Forall_forall _ _) Hf y Hy) as Hfy. pose proof (proj1 (Forall_forall _ _) Hbs y Hy) as Hby. cbn in Hfy, Hby. assert (x ≠ y) by congruence. lia. }
    split.
    + apply Forall_app. split; [destruct (N.ltb_spec cursor x); repeat constructor; simpl; lia|]. eapply Forall_impl; [exact H1|]. intros g Hg.
      cbn in Hg |- *. lia.
    + intros p. rw hits_app H2. assert (hits p ((if (cursor <? x)%N then [(cursor, x)] else []) : list (N * N)) = one_if (in_range_of (cursor, x) p)) as ->.
      { destruct (N.ltb_spec cursor x); [rw hits_cons /hits /=; by rw Nat.add_0_r|]. destruct (in_range_of (cursor, x) p) eqn:E; [|done].
        apply in_range_of_spec in E. simpl in E. lia. }
      assert (p ∈ positions → (x < p < end_)%N) as Hp.
      { intros Hp. pose proof (proj1 (Forall_forall _ _) Hf p Hp) as Hfy. pose proof (proj1 (Forall_forall _ _) Hbs p Hp) as Hby. cbn in Hfy, Hby. assert (x ≠ p) by congruence. lia. }
      destruct (bool_decide_reflect (p ∈ positions)) as [Hin|Hni].
      * rw (bool_decide_eq_true_2 (p ∈ x :: positions)) ?andb_false_r; [by right|]. specialize (Hp Hin).
        destruct (in_range_of (cursor, x) p) eqn:E; [|done]. apply in_range_of_spec in E. simpl in E. lia.
      * destruct (decide (p = x)) as [->|Hne].
        -- rw (bool_decide_eq_true_2 (x ∈ x :: positions)) ?andb_false_r; [by left|]. rw /in_range_of /=. rw N.ltb_irrefl andb_false_r.
           destruct (N.leb_spec (x + 1) x); [lia|done].
        -- rw (bool_decide_eq_false_2 (p ∈ x :: positions)) ?andb_true_r; [by rw elem_of_cons; intros [?|?]|]. rw /in_range_of /=.
           by destruct (N.leb_spec cursor p), (N.ltb_spec p x), (N.leb_spec (x + 1) p), (N.ltb_spec p end_); try lia.
Qed.

Lemma subtract_one_spec p sent part : (sent.1 <= sent.2)%N →
  hits p (subtract_one sent part) = one_if (in_range_of part p && negb (in_range_of sent p)).
Proof.
  intros Hs. unfold subtract_one. destruct ((sent.2 <=? part.1) || (part.2 <=? sent.1))%N eqn:E.
  - rw hits_cons /hits /= Nat.add_0_r. f_equal. apply orb_true_iff in E. rw !N.leb_le in E. unfold in_range_of.
    destruct (N.leb_spec part.1 p), (N.ltb_spec p part.2), (N.leb_spec sent.1 p), (N.ltb_spec p sent.2); done || lia.
  - apply orb_false_iff in E as [E1%N.leb_gt E2%N.leb_gt]. unfold vfilter. cbn [List.filter fst snd].
    destruct (N.ltb_spec part.1 sent.1), (N.ltb_spec sent.2 part.2); rw ?hits_cons /hits /= /in_range_of /=;
      destruct (N.leb_spec part.1 p), (N.ltb_spec p part.2), (N.leb_spec sent.1 p), (N.ltb_spec p sent.2),
        (N.ltb_spec p sent.1), (N.leb_spec sent.2 p); done || lia.
Qed.

Lemma subtract_spec p run asked : Forall (λ r : range, (r.1 <= r.2)%N) asked →
  hits p (subtract run asked) = one_if (in_range_of run p && (hits p asked =? 0)).
Proof.
  intros H. unfold subtract. assert (∀ parts, hits p (foldl (λ parts sent, flat_map (subtract_one sent) parts) parts asked) =
    if hits p asked =? 0 then hits p parts else 0) as ->.
  { induction H as [|sent asked Hs _ IH]; intros parts; cbn [foldl]; [done|]. rw IH hits_cons.
    assert (hits p (flat_map (subtract_one sent) parts) = if in_range_of sent p then 0 else hits p parts) as ->.
    { clear IH. induction parts as [|part parts IH]; cbn [flat_map]; [by destruct (in_range_of _ _)|]. rw hits_app hits_cons subtract_one_spec // IH.
      by destruct (in_range_of part p), (in_range_of sent p). }
    by destruct (in_range_of sent p), (hits p asked). }
  rw hits_cons /hits /= Nat.add_0_r. by destruct (length _ =? 0), (in_range_of run p).
Qed.

Lemma subtract_proper run asked : (run.1 < run.2)%N → Forall (λ r, (r.1 < r.2)%N) (subtract run asked).
Proof.
  intros H. unfold subtract. assert (∀ parts, Forall (λ r : range, (r.1 < r.2)%N) parts →
    Forall (λ r : range, (r.1 < r.2)%N) (foldl (λ parts sent, flat_map (subtract_one sent) parts) parts asked)) as Hgo.
  { induction asked as [|sent asked IH]; intros parts Hp; cbn [foldl]; [done|]. apply IH. induction Hp as [|part parts Hpart _ IHp]; cbn [flat_map]; [done|].
    apply Forall_app. split; [|done]. unfold subtract_one. destruct (_ || _); [by repeat constructor|]. apply Forall_forall.
    by intros x [Hx%N.ltb_lt _]%elem_of_vfilter. }
  apply Hgo. by repeat constructor.
Qed.

(** A page that may be asked for. *)
Definition page_ok (epoch : N) (r : PageRequest) : Prop := pr_epoch r = epoch ∧ (1 <= pr_rows r <= MAX_PAGE_ROWS)%N.
Lemma page_size_bounds (requested : bool) : (1 <= (if requested then MAX_PAGE_ROWS else FIRST_PAGE_ROWS) <= MAX_PAGE_ROWS)%N.
Proof. by destruct requested. Qed.

Lemma carve_spec room focus : ∀ run requested epoch, (run.1 <= run.2)%N →
  let pages := carve room focus run requested epoch in
  length pages ≤ room ∧ Forall (page_ok epoch) pages ∧ ∀ p,
    hits p (map request_range pages) ≤ one_if (in_range_of run p) ∧
    (length pages < room → hits p (map request_range pages) = one_if (in_range_of run p)).
Proof.
  induction room as [|room IH]; intros run requested epoch Hrun; cbn zeta; cbn [carve].
  { split; [done|]. split; [done|]. intros p. split; [apply Nat.le_0_l|]. intros H. simpl in H. lia. }
  unfold range_empty. destruct (N.leb_spec run.2 run.1) as [He|Hne].
  { split; [apply Nat.le_0_l|]. split; [done|]. intros p. destruct (in_range_of run p) eqn:E; [|done]. apply in_range_of_spec in E. lia. }
  pose proof (page_size_bounds requested) as Hsize. set (size := if requested then MAX_PAGE_ROWS else FIRST_PAGE_ROWS) in *.
  set (page := if (focus <? run.2)%N then (run.1, N.min (run.1 + size) run.2) else (N.max (run.2 - size) run.1, run.2)).
  assert ((run.1 <= page.1)%N ∧ (page.1 < page.2)%N ∧ (page.2 <= run.2)%N ∧ (page.2 - page.1 <= size)%N ∧ (page.1 = run.1 ∨ page.2 = run.2)) as Hpage.
  { subst page. destruct (focus <? run.2)%N; cbn [fst snd]; lia. }
  set (rest := if (page.1 =? run.1)%N then (page.2, run.2) else (run.1, page.1)).
  assert ((rest.1 <= rest.2)%N ∧ ∀ p, one_if (in_range_of run p) = one_if (in_range_of page p) + one_if (in_range_of rest p)) as [Hrest Hsplit].
  { subst rest. split; [destruct (N.eqb_spec page.1 run.1); cbn [fst snd]; lia|]. intros p. unfold in_range_of.
    destruct (N.eqb_spec page.1 run.1); cbn [fst snd]; destruct (N.leb_spec run.1 p), (N.ltb_spec p run.2), (N.leb_spec page.1 p), (N.ltb_spec p page.2),
      (N.leb_spec page.2 p), (N.ltb_spec p page.1); done || lia. }
  destruct (IH rest true epoch Hrest) as (H1 & H2 & H3). split; [cbn [length]; lia|].
  split; [constructor; [split; [done|cbn [pr_rows]; lia]|done]|]. intros p. cbn [map length]. rw hits_cons.
  assert (request_range {| pr_epoch := epoch; pr_start := page.1; pr_rows := (page.2 - page.1)%N |} = page) as ->
    by (unfold request_range; cbn [pr_start pr_rows]; destruct page; cbn [fst snd] in *; f_equal; lia).
  rw Hsplit. destruct (H3 p) as [H4 H5]. split; [lia|].
    intros H. rw H5; lia.
Qed.

Lemma carve_all_spec focus runs : ∀ room requested epoch, Forall (λ r : range, (r.1 <= r.2)%N) runs →
  let pages := carve_all room focus runs requested epoch in
  length pages ≤ room ∧ Forall (page_ok epoch) pages ∧ ∀ p,
    hits p (map request_range pages) ≤ hits p runs ∧
    (length pages < room → hits p (map request_range pages) = hits p runs).
Proof.
  induction runs as [|run runs IH]; intros room requested epoch Hr; cbn zeta; cbn [carve_all].
  { split; [apply Nat.le_0_l|]. split; [done|]. done. }
  apply Forall_cons in Hr as [Hrun Hr]. destruct (carve_spec room focus run requested epoch Hrun) as (H1 & H2 & H3).
  set (pages := carve room focus run requested epoch) in *.
  destruct (IH (room - length pages) (requested || negb (is_empty pages)) epoch Hr) as (H4 & H5 & H6).
  rw length_app map_app. split; [lia|]. split; [by apply Forall_app|]. intros p. rw hits_app hits_cons. destruct (H3 p) as [H7 H8].
  destruct (H6 p) as [H9 H10]. split; [lia|]. intros H. rw H8; [lia|]. rw H10; [lia|done].
Qed.

(** ** The invariant of a cache *)

Section cache_inv.
Context {R : Type}.
Implicit Types (c : ScrollbackCache R).

Record cache_wf c : Prop := {
  cw_rows : ∀ p, is_Some (sb_rows c !! p) → in_range_of (retained_range (sb_history c)) p = true;
  cw_size : size (sb_rows c) ≤ MAX_CACHED_ROWS;
  cw_flight : length (sb_in_flight c) ≤ MAX_PAGES_IN_FLIGHT;
  cw_pages : Forall (λ r, page_ok (pr_epoch r) r) (sb_in_flight c);
  cw_settled : Forall (λ r : range, (r.1 <= r.2)%N) (sb_settled c)
}.

Lemma leave_flight_spec r l : (leave_flight r l ≡ₚ l ∧ r ∉ l) ∨ r :: leave_flight r l ≡ₚ l.
Proof.
  unfold leave_flight. destruct (vposition _ l) as [i|] eqn:E.
  - right. apply vposition_Some in E as (l1 & x & l2 & -> & <- & Hx & _). apply bool_decide_eq_true in Hx as ->.
    rw swap_remove_perm. apply Permutation_middle.
  - left. split; [done|]. intros Hin. apply vposition_None in E. rw Forall_forall in E. specialize (E r Hin). cbn in E. by rw bool_decide_eq_true_2 in E.
Qed.
Lemma leave_flight_sub r l : leave_flight r l ⊆+ l.
Proof. destruct (leave_flight_spec r l) as [[H _]|H]; [by rw H|]. rw -{2}H. by apply submseteq_cons. Qed.

Lemma flight_wf c in_flight : in_flight ⊆+ sb_in_flight c → cache_wf c → cache_wf (set_in_flight in_flight c).
Proof.
  intros Hs []. split; try done; cbn [sb_in_flight set_in_flight].
  - apply submseteq_length in Hs. lia.
  - apply Forall_forall. intros x Hx. apply (proj1 (Forall_forall _ _) cw_pages0). by eapply elem_of_submseteq.
Qed.
Lemma unsent_wf requests c : cache_wf c → cache_wf (cache_unsent requests c).
Proof.
  intros H. apply flight_wf; [|done]. clear H. generalize (sb_in_flight c) as l. induction requests as [|r requests IH]; intros l; cbn [foldl]; [done|].
  etrans; [apply IH|apply leave_flight_sub].
Qed.
Lemma forget_wf c : cache_wf c → cache_wf (cache_forget c).
Proof. apply flight_wf, submseteq_nil_l. Qed.

Lemma clear_wf c : cache_wf c → cache_wf (cache_clear c).
Proof. intros []. split; try done; cbn [sb_rows cache_clear]; [intros p [x Hx]; by rw lookup_empty in Hx|]. rw map_size_empty. apply Nat.le_0_l. Qed.
Lemma attach_wf session c : cache_wf c → cache_wf (cache_attach session c).1.
Proof. unfold cache_attach. case_bool_decide; [done|]. intros Hc. destruct (clear_wf c Hc). by split. Qed.

Lemma retain_rows_lookup keep c p : sb_rows (retain_rows keep c) !! p = if keep p then sb_rows c !! p else None.
Proof. apply map_retain_lookup. Qed.

Lemma observe_lookup h c p :
  sb_rows (cache_observe h c).1 !! p =
    if (hi_epoch h =? hi_epoch (sb_history c))%N && in_range_of (retained_range h) p then sb_rows c !! p else None.
Proof.
  unfold cache_observe. cbn [fst]. rw retain_rows_lookup. case_bool_decide; destruct (_ =? _)%N; cbn [sb_rows set_history set_settled cache_clear andb];
    by rw ?lookup_empty ?if_same //; destruct (in_range_of _ _).
Qed.
Lemma observe_history h c : sb_history (cache_observe h c).1 = h.
Proof. done. Qed.
Lemma observe_wf h c : cache_wf c → cache_wf (cache_observe h c).1.
Proof.
  intros H. split.
  - intros p Hp. rw observe_lookup in Hp. rw observe_history. destruct (in_range_of _ p); [done|]. rw andb_false_r in Hp. by destruct Hp.
  - unfold cache_observe. cbn [fst]. etrans; [apply map_retain_size|]. case_bool_decide; destruct (_ =? _)%N; apply H || apply (clear_wf c H).
  - unfold cache_observe. cbn [fst]. case_bool_decide; destruct (_ =? _)%N; apply H.
  - unfold cache_observe. cbn [fst]. case_bool_decide; destruct (_ =? _)%N; apply H.
  - unfold cache_observe. cbn [fst]. case_bool_decide; destruct (_ =? _)%N; try (by constructor); apply H || apply (clear_wf c H).
Qed.

(** What inserting leaves: only rows that were there or that came in, within the history. *)
Lemma insert_lookup start new focus c p row :
  sb_rows (cache_insert start new focus c) !! p = Some row →
  sb_rows c !! p = Some row ∨
  (in_range_of (retained_range (sb_history c)) p = true ∧ (start <= p)%N ∧ new !! N.to_nat (p - start) = Some row).
Proof.
  unfold cache_insert. pose proof (insert_rows_lookup (retained_range (sb_history c)) new start (sb_rows c) false p) as Hl.
  destruct (insert_rows _ _ _ _ _) as [rows changed]. cbn [fst] in Hl.
  assert (rows !! p = Some row → sb_rows c !! p = Some row ∨
    (in_range_of (retained_range (sb_history c)) p = true ∧ (start <= p)%N ∧ new !! N.to_nat (p - start) = Some row)) as Hgo.
  { rw Hl. destruct ((start <=? p)%N && in_range_of (retained_range (sb_history c)) p) eqn:E; [|by left].
    apply andb_true_iff in E as [E1%N.leb_le E2]. destruct (new !! _); [right|by left]. by simplify_eq. }
  destruct changed; cbn [sb_rows set_cached]; [|done]. intros H. apply Hgo. eapply lookup_weaken; [done|]. apply cache_evict_spec.
Qed.
Lemma insert_wf start new focus c : cache_wf c → cache_wf (cache_insert start new focus c).
Proof.
  intros H. assert (∀ p, is_Some (sb_rows (cache_insert start new focus c) !! p) → in_range_of (retained_range (sb_history c)) p = true) as Hp.
  { intros p [x Hx]. apply insert_lookup in Hx as [Hx|[Hx _]]; [|done]. by apply (cw_rows c H). }
  revert Hp. unfold cache_insert. pose proof (insert_rows_unchanged (retained_range (sb_history c)) new start (sb_rows c) false) as Hu.
  destruct (insert_rows _ _ _ _ _) as [rows changed]. cbn [fst snd] in Hu. destruct changed; intros Hp; (split; [done| |apply H..]); cbn [sb_rows set_cached].
  - apply cache_evict_spec.
  - rw Hu //. apply H.
Qed.

Lemma page_wf request page focus c : cache_wf c → cache_wf (cache_page request page focus c).
Proof.
  intros H. unfold cache_page. set (c1 := set_in_flight _ c). assert (cache_wf c1) as H1 by (apply flight_wf; [apply leave_flight_sub|done]).
  clearbody c1. destruct (negb _); [done|]. set (c2 := set_settled _ c1).
  assert (cache_wf c2) as H2 by (destruct H1; split; try done; apply Forall_app; split; [done|]; repeat constructor; cbn; lia).
  clearbody c2. destruct page as [[[epoch start] rows]|]; [|done]. destruct (_ =? _)%N; [|done]. apply insert_wf. destruct (_ && _); [|done].
  destruct H2. split; try done.
  - intros p Hp. rw retain_rows_lookup in Hp. destruct (N.leb_spec (start `min` hi_total (sb_history c2)) p) as [Hle|]; [|by destruct Hp].
    apply cw_rows0 in Hp. apply in_range_of_spec in Hp. apply in_range_of_spec. cbn in Hp |- *. lia.
  - etrans; [apply map_retain_size|]. done.
Qed.

Lemma keys_in_spec r c : StronglySorted N.le (keys_in r c) ∧ NoDup (keys_in r c) ∧
  ∀ p, p ∈ keys_in r c ↔ in_range_of r p = true ∧ is_Some (sb_rows c !! p).
Proof.
  unfold keys_in. split; [|split].
  - pose proof (map_keys_sorted (sb_rows c)) as H. unfold vfilter. induction H as [|x l Hs IH Hf]; cbn [List.filter]; [constructor|].
    destruct (in_range_of r x); [|done]. constructor; [done|]. by apply Forall_vfilter.
  - apply NoDup_vfilter, map_keys_NoDup.
  - intros p. by rw elem_of_vfilter elem_of_map_keys.
Qed.

(** Whether a position is missing: wanted, retained, not cached and not asked for. *)
Definition position_missing (wanted : range) c (p : N) : bool :=
  in_range_of (cache_retained wanted c) p && negb (bool_decide (is_Some (sb_rows c !! p))) && (hits p (asked_ranges c) =? 0).

Lemma asked_ordered c : cache_wf c → Forall (λ r : range, (r.1 <= r.2)%N) (asked_ranges c).
Proof.
  intros H. unfold asked_ranges. apply Forall_app. split; [|apply H]. apply Forall_map, Forall_forall. intros r _. cbn. lia.
Qed.

Lemma missing_runs_spec wanted c : cache_wf c →
  let retained := cache_retained wanted c in
  Forall (λ r, (r.1 < r.2)%N) (missing_runs retained c) ∧ ∀ p, hits p (missing_runs retained c) = one_if (position_missing wanted c p).
Proof.
  intros Hwf. cbn zeta. unfold missing_runs. set (retained := cache_retained wanted c). destruct (keys_in_spec retained c) as (Hs & Hn & Hin).
  destruct (gaps_spec (keys_in retained c) retained.1 retained.2 Hs Hn) as [Hg Hh].
  { apply Forall_forall. intros p Hp. apply Hin in Hp as [Hp _]. by apply in_range_of_spec. }
  split.
  - clear Hh. induction Hg as [|g l Hg _ IH]; cbn [flat_map]; [done|]. apply Forall_app. split; [|done]. apply subtract_proper. lia.
  - intros p. unfold position_missing. fold retained. assert (hits p (flat_map (λ run, subtract run (asked_ranges c)) (gaps retained.1 retained.2 (keys_in retained c))) =
      if hits p (asked_ranges c) =? 0 then hits p (gaps retained.1 retained.2 (keys_in retained c)) else 0) as ->.
    { clear Hg Hh. induction (gaps _ _ _) as [|g l IH]; cbn [flat_map]; [by destruct (_ =? _)|]. rw hits_app hits_cons IH subtract_spec; [by apply asked_ordered|].
      by destruct (_ =? 0), (in_range_of g p). }
    rw Hh. assert ((retained.1, retained.2) = retained) as -> by by destruct retained.
    destruct (in_range_of retained p) eqn:E; cbn [andb]; [|by destruct (_ =? _)].
    rw (bool_decide_ext (p ∈ keys_in retained c) (is_Some (sb_rows c !! p))); [rw Hin; tauto|]. by destruct (bool_decide _), (_ =? _).
Qed.

(** What a request asks for: each page is of the current epoch and at most 500 rows long, together
    they reach missing positions only and none twice, at most four pages are in flight, and unless
    four are, every missing position is reached. *)
Lemma request_spec wanted focus c : cache_wf c →
  let '(c', requests) := cache_request wanted focus c in
  cache_wf c' ∧ sb_in_flight c' = sb_in_flight c ++ requests ∧ Forall (page_ok (hi_epoch (sb_history c))) requests ∧
  (∀ p, hits p (map request_range requests) ≤ one_if (position_missing wanted c p)) ∧
  (length (sb_in_flight c') < MAX_PAGES_IN_FLIGHT → ∀ p, hits p (map request_range requests) = one_if (position_missing wanted c p)).
Proof.
  intros Hwf. unfold cache_request. destruct (missing_runs_spec wanted c Hwf) as [Hr Hm]. set (retained := cache_retained wanted c) in *.
  set (runs := sort_by_key (run_distance focus) (missing_runs retained c)).
  assert (Forall (λ r : range, (r.1 <= r.2)%N) runs) as Hruns.
  { subst runs. rw sort_by_key_perm. eapply Forall_impl; [exact Hr|]. intros r Hlt. cbn in Hlt |- *. lia. }
  destruct (carve_all_spec focus runs (MAX_PAGES_IN_FLIGHT - length (sb_in_flight c)) (sb_requested c) (hi_epoch (sb_history c)) Hruns) as (H1 & H2 & H3).
  set (requests := carve_all _ _ _ _ _) in *. assert (∀ p, hits p runs = one_if (position_missing wanted c p)) as Hrm.
  { intros p. rw -Hm. apply hits_perm, sort_by_key_perm. }
  pose proof (cw_flight c Hwf) as Hf. split.
  { destruct Hwf. split; try done; cbn [sb_in_flight]; [rw length_app; lia|]. apply Forall_app. split; [done|]. eapply Forall_impl; [exact H2|].
    intros r [_ Hb]. by split. }
  split; [done|]. split; [done|]. split; [intros p; rw -Hrm; apply H3|]. cbn [sb_in_flight]. rw length_app. intros Hlt p. rw -Hrm. apply H3. lia.
Qed.

(** ** The content of a cache *)

(** The rows of a cache are those of its history. *)
Definition cache_true (row : N → N → R) c : Prop := ∀ p x, sb_rows c !! p = Some x → x = row (hi_epoch (sb_history c)) p.
(** A reply that reports rows of that history. *)
Definition page_true (row : N → N → R) (page : option (N * N * list R)) : Prop :=
  match page with Some (epoch, start, rows) => ∀ i x, rows !! i = Some x → x = row epoch (start + N.of_nat i)%N | None => True end.

Lemma observe_true row h c : cache_true row c → cache_true row (cache_observe h c).1.
Proof.
  intros H p x Hx. rw observe_lookup in Hx. rw observe_history. destruct (N.eqb_spec (hi_epoch h) (hi_epoch (sb_history c))) as [E|]; [|done].
  cbn [andb] in Hx. destruct (in_range_of _ p); [|done]. rw E. by apply H.
Qed.
Lemma page_content row request page focus c : cache_true row c → page_true row page → cache_true row (cache_page request page focus c).
Proof.
  intros H Hp. unfold cache_page. set (c1 := set_in_flight _ c). assert (cache_true row c1) as H1 by done. clearbody c1. clear H.
  destruct (negb _); [done|]. set (c2 := set_settled _ c1). assert (cache_true row c2) as H2 by done. clearbody c2.
  destruct page as [[[epoch start] rows]|]; [|done]. destruct (N.eqb_spec epoch (hi_epoch (sb_history c2))) as [E|]; [|done].
  assert (∀ c3 : ScrollbackCache R, hi_epoch (sb_history c3) = hi_epoch (sb_history c2) → cache_true row c3 → cache_true row (cache_insert start rows focus c3)) as Hgo.
  { intros c3 Ee H3 p x Hx. assert (hi_epoch (sb_history (cache_insert start rows focus c3)) = hi_epoch (sb_history c2)) as ->.
    { rw -Ee. unfold cache_insert. destruct (insert_rows _ _ _ _ _) as [m b]. by destruct b. }
    apply insert_lookup in Hx as [Hx|(_ & Hle & Hx)]; [by rw -Ee; apply H3|]. apply Hp in Hx as ->. rw E. f_equal. lia. }
  destruct (_ && _); [|by apply Hgo]. apply Hgo; [done|]. intros p x Hx. rw retain_rows_lookup in Hx. destruct (_ <=? p)%N; [|done]. by apply H2.
Qed.
End cache_inv.

(** ** Gestures *)

(** A gesture goes where its press went, whatever modes the program sets while it lasts, and ends with
    its release. *)
Lemma gesture_keeps_route button m r motion m' :
  let '(r1, route) := router_route Phase_Press (Some button) m r in
  router_route Phase_Motion (Some motion) m' r1 = (r1, route) ∧ router_route Phase_Release (Some motion) m' r1 = (router_default, route).
Proof. by destruct button, (rm_mouse_tracking m), (rm_shift_override m). Qed.

(** A view that is told of a history stays where it was if that line is still retained. *)
Lemma viewport_observe_top before after v : (hi_oldest before <= hi_oldest after)%N →
  (hi_oldest after <= viewport_top before v < hi_total after)%N → (viewport_top before v < hi_total before)%N →
  viewport_top after (viewport_observe after v) = viewport_top before v.
Proof.
  unfold viewport_top. destruct v as [top|]; [|lia]. intros H1 H2 H3. cbn [viewport_observe viewport_set_top fst].
  destruct (N.ltb_spec top (hi_total after)); lia.
Qed.
