(* ===== verification/ScrollbackView.v ===== *)
(** * Cached rows and the view over them

    [src/terminal/core_session/scrollback/row.rs], and of [scrollback.rs] what runs over the cache
    and the view: rows packed for the cache and read back, frames, scrolling, what is asked for and
    what is shown. Selection and Find are arguments where they change what is asked for. *)
From S2P Require Import Prelude.
From S2P Require Import Text.
From S2P Require Import Screen.
From S2P Require Import ScreenEncoder.
From S2P Require Import ScreenDecoder.
From S2P Require Import ScreenLines.
From S2P Require Import Scrollback.

(** ** Cached rows *)

#[export] Instance ShownCell_eq_dec : EqDecision ShownCell.
Proof. solve_decision. Defined.

Definition BLANK : ustring := lit " ".
(** [blank_cell]. *)
Definition blank_shown_cell : ShownCell :=
  {| c_text := BLANK; c_foreground := Tc_Default; c_background := Tc_Default; c_inverse := false; c_bold := false; c_faint := false;
     c_italic := false; c_blinking := false; c_invisible := false; c_underline := Underline_None; c_underline_source := Tc_Default;
     c_strikethrough := false; c_overline := false; c_selected := false; c_spacer_tail := false; c_semantic := Semantic_Output;
     c_hyperlink := None |}.

(** A cell with another text, selection mark and place in a wide character. *)
Definition with_text (text : ustring) (selected spacer_tail : bool) (c : ShownCell) : ShownCell :=
  {| c_text := text; c_foreground := c_foreground c; c_background := c_background c; c_inverse := c_inverse c; c_bold := c_bold c;
     c_faint := c_faint c; c_italic := c_italic c; c_blinking := c_blinking c; c_invisible := c_invisible c; c_underline := c_underline c;
     c_underline_source := c_underline_source c; c_strikethrough := c_strikethrough c; c_overline := c_overline c;
     c_selected := selected; c_spacer_tail := spacer_tail; c_semantic := c_semantic c; c_hyperlink := c_hyperlink c |}.
(** The closure [template]. *)
Definition row_template (c : ShownCell) : ShownCell := with_text [] false false c.

Record Packed := { pk_end : N; pk_style : N; pk_spacer_tail : bool }.
#[export] Instance Packed_eq_dec : EqDecision Packed.
Proof. solve_decision. Defined.
Record CachedRow := {
  cr_columns : N; cr_wrapped : bool; cr_text : ustring; cr_cells : list Packed; cr_styles : list ShownCell; cr_fill : N
}.
#[export] Instance CachedRow_eq_dec : EqDecision CachedRow.
Proof. solve_decision. Defined.

(** [u16::try_from(n).unwrap_or(u16::MAX)], and of [u32]. *)
Definition to_u16 (n : nat) : N := N.min (N.of_nat n) 65535.
Definition to_u32 (n : nat) : N := N.min (N.of_nat n) 4294967295.

(** The closure [style_of]. *)
Definition row_style_of (template : ShownCell) (styles : list ShownCell) : list ShownCell * N :=
  match vposition (λ known, bool_decide (known = template)) styles with
  | Some index => (styles, to_u16 index)
  | None => (styles ++ [template], to_u16 (length styles))
  end.

(** The loop over the kept cells. *)
Fixpoint pack_cells (cells : list ShownCell) (styles : list ShownCell) (text : ustring) (packed : list Packed)
    : list ShownCell * ustring * list Packed :=
  match cells with
  | [] => (styles, text, packed)
  | cell :: cells =>
      let text := text ++ c_text cell in
      let '(styles, style) := row_style_of (row_template cell) styles in
      pack_cells cells styles text (packed ++ [{| pk_end := to_u32 (str_len text); pk_style := style; pk_spacer_tail := c_spacer_tail cell |}])
  end.

(** [CachedRow::new]. *)
Definition fill_template (cells : list ShownCell) : ShownCell := row_template (default blank_shown_cell (last cells)).
Definition is_kept (fill : ShownCell) (cell : ShownCell) : bool :=
  c_spacer_tail cell || negb (bool_decide (c_text cell = BLANK)) || negb (bool_decide (row_template cell = fill)).
Definition kept_cells (cells : list ShownCell) : nat :=
  match vrposition (is_kept (fill_template cells)) cells with Some last => last + 1 | None => 0 end.
Definition cached_row (cells : list ShownCell) (wrapped : bool) : CachedRow :=
  let '(styles, fill) := row_style_of (fill_template cells) [] in
  let '(styles, text, packed) := pack_cells (take (kept_cells cells) cells) styles [] [] in
  {| cr_columns := to_u16 (length cells); cr_wrapped := wrapped; cr_text := text; cr_cells := packed; cr_styles := styles; cr_fill := fill |}.

(** [text], [spacer_tail] and [style] of a cached row; an index out of [styles] panics. *)
Definition cached_text (r : CachedRow) (column : nat) : ustring :=
  match cr_cells r !! column with
  | None => BLANK
  | Some cell =>
      let start := match column with 0 => 0 | S previous => match cr_cells r !! previous with Some p => N.to_nat (pk_end p) | None => 0 end end in
      default BLANK (str_get (cr_text r) (start, N.to_nat (pk_end cell)))
  end.
Definition cached_spacer_tail (r : CachedRow) (column : nat) : bool :=
  match cr_cells r !! column with Some cell => pk_spacer_tail cell | None => false end.
Definition cached_style (r : CachedRow) (column : nat) : option ShownCell :=
  cr_styles r !! N.to_nat (match cr_cells r !! column with Some cell => pk_style cell | None => cr_fill r end).

(** [snapshot]. *)
Definition cached_cell (r : CachedRow) (column : nat) : option ShownCell :=
  cell ← cached_style r column;
  Some (with_text (cached_text r column) (c_selected cell) (cached_spacer_tail r column) cell).
Definition cached_snapshot (r : CachedRow) : option (list ShownCell) := mapM (cached_cell r) (seq 0 (N.to_nat (cr_columns r))).

(** [RowRef]. *)
Inductive RowRef := Row_Cached (row : CachedRow) | Row_Visible (cells : list ShownCell) (wrapped : bool).
Definition ref_columns (r : RowRef) : N :=
  match r with Row_Cached row => cr_columns row | Row_Visible cells _ => to_u16 (length cells) end.
Definition ref_wrapped (r : RowRef) : bool := match r with Row_Cached row => cr_wrapped row | Row_Visible _ wrapped => wrapped end.
Definition ref_text (r : RowRef) (column : nat) : ustring :=
  match r with
  | Row_Cached row => cached_text row column
  | Row_Visible cells _ => match cells !! column with Some cell => c_text cell | None => BLANK end
  end.
Definition ref_spacer_tail (r : RowRef) (column : nat) : bool :=
  match r with
  | Row_Cached row => cached_spacer_tail row column
  | Row_Visible cells _ => match cells !! column with Some cell => c_spacer_tail cell | None => false end
  end.
Definition ref_has_text (r : RowRef) (column : nat) : bool :=
  (N.of_nat column <? ref_columns r)%N && negb (ref_spacer_tail r column) && negb (bool_decide (ref_text r column = BLANK)).
Definition ref_snapshot (r : RowRef) : option (list ShownCell) :=
  match r with Row_Cached row => cached_snapshot row | Row_Visible cells _ => Some cells end.
(** [same]; rows that share an allocation are equal. *)
Definition ref_same (a b : RowRef) : bool :=
  if negb (eqb (ref_wrapped a) (ref_wrapped b)) then false
  else
    match a, b with
    | Row_Visible a _, Row_Visible b _ => bool_decide (a = b)
    | Row_Cached a, Row_Cached b => bool_decide (a = b)
    | _, _ => bool_decide (ref_snapshot a = ref_snapshot b)
    end.

(** ** The Scrollback of a Pane *)

(** What is read of a [ScreenSnapshot]. *)
Record FrameShown := {
  sn_history : History; sn_alternate : bool; sn_columns : nat; sn_rows : list (list ShownCell); sn_wrapped : list bool;
  sn_cursor : option CursorPosition
}.
Definition RowShown : Type := list ShownCell * bool.

(** [Scrollback] without its Selection and Find. *)
Record Scrollback := {
  sc_cache : ScrollbackCache CachedRow; sc_view : Viewport; sc_screen : option FrameShown; sc_warm : bool;
  sc_placeholders : gmap N RowShown; sc_shown : gmap N RowShown
}.
Definition scrollback_default : Scrollback :=
  {| sc_cache := cache_default; sc_view := None; sc_screen := None; sc_warm := false; sc_placeholders := ∅; sc_shown := ∅ |}.
Definition set_cache (cache : ScrollbackCache CachedRow) (s : Scrollback) : Scrollback :=
  {| sc_cache := cache; sc_view := sc_view s; sc_screen := sc_screen s; sc_warm := sc_warm s; sc_placeholders := sc_placeholders s;
     sc_shown := sc_shown s |}.
Definition set_view (view : Viewport) (s : Scrollback) : Scrollback :=
  {| sc_cache := sc_cache s; sc_view := view; sc_screen := sc_screen s; sc_warm := sc_warm s; sc_placeholders := sc_placeholders s;
     sc_shown := sc_shown s |}.
Definition set_screen (screen : option FrameShown) (s : Scrollback) : Scrollback :=
  {| sc_cache := sc_cache s; sc_view := sc_view s; sc_screen := screen; sc_warm := sc_warm s; sc_placeholders := sc_placeholders s;
     sc_shown := sc_shown s |}.
Definition set_warm (warm : bool) (s : Scrollback) : Scrollback :=
  {| sc_cache := sc_cache s; sc_view := sc_view s; sc_screen := sc_screen s; sc_warm := warm; sc_placeholders := sc_placeholders s;
     sc_shown := sc_shown s |}.
Definition set_placeholders (placeholders : gmap N RowShown) (s : Scrollback) : Scrollback :=
  {| sc_cache := sc_cache s; sc_view := sc_view s; sc_screen := sc_screen s; sc_warm := sc_warm s; sc_placeholders := placeholders;
     sc_shown := sc_shown s |}.
Definition set_shown (shown : gmap N RowShown) (s : Scrollback) : Scrollback :=
  {| sc_cache := sc_cache s; sc_view := sc_view s; sc_screen := sc_screen s; sc_warm := sc_warm s; sc_placeholders := sc_placeholders s;
     sc_shown := shown |}.

Definition sc_history (s : Scrollback) : History := sb_history (sc_cache s).
(** [alternate], [rows], [floor] and [focus]. *)
Definition sc_alternate (s : Scrollback) : bool := match sc_screen s with Some screen => sn_alternate screen | None => false end.
Definition sc_rows (s : Scrollback) : N := match sc_screen s with Some screen => to_u16 (length (sn_rows screen)) | None => 0 end.
Definition sc_floor (s : Scrollback) : N :=
  N.max (hi_total (sc_history s) - N.of_nat MAX_CACHED_ROWS) (hi_oldest (sc_history s)).
Definition sc_focus (s : Scrollback) : N := viewport_top (sc_history s) (sc_view s).

(** [reset_reading]. *)
Definition reset_reading (s : Scrollback) : Scrollback := set_placeholders ∅ (set_shown ∅ (set_view None s)).
(** [attach]. *)
Definition scrollback_attach (session : N) (s : Scrollback) : Scrollback :=
  let '(cache, same) := cache_attach session (sc_cache s) in
  let s := set_cache cache s in
  set_warm true (if same then s else reset_reading s).
(** [retain]. *)
Definition scrollback_retain (s : Scrollback) : Scrollback := set_cache (cache_forget (sc_cache s)) s.

(** A visible row with its wrap mark, which is absent past the end of the list. *)
Definition visible_rows (screen : FrameShown) : list RowShown :=
  imap (λ i row, (row, default false (sn_wrapped screen !! i))) (sn_rows screen).

(** [screen]. *)
Definition scrollback_screen (screen : FrameShown) (s : Scrollback) : Scrollback :=
  let history := sn_history screen in
  let same_epoch := (hi_epoch history =? hi_epoch (sc_history s))%N in
  let s := match sc_screen s with
           | Some previous =>
               if same_epoch
               then set_placeholders
                      (keep_placeholders (sc_cache s) (hi_total (sc_history s)) (hi_total history) (visible_rows previous) (sc_placeholders s)) s
               else s
           | None => s
           end in
  let '(cache, same) := cache_observe history (sc_cache s) in
  let s := set_cache cache s in
  let s := if same then s else reset_reading s in
  let s := set_placeholders (prune_placeholders (sc_cache s) (sc_placeholders s)) s in
  let s := set_screen (Some screen) s in
  set_view (if sn_alternate screen then None else viewport_observe history (sc_view s)) s.

(** [wheel], [scroll], [scroll_to] and the view of [input]. *)
Inductive ScrollbackMovement := Move_PageUp | Move_PageDown | Move_Top | Move_Bottom.
Definition view_moved (r : Viewport * bool) (s : Scrollback) : Scrollback * bool := (set_view r.1 s, r.2).
Definition scrollback_wheel (vertical_steps : Z) (s : Scrollback) : Scrollback * bool :=
  if sc_alternate s || (vertical_steps =? 0)%Z then (s, false) else view_moved (viewport_scroll (sc_history s) (- vertical_steps) (sc_view s)) s.
Definition scrollback_scroll (movement : ScrollbackMovement) (s : Scrollback) : Scrollback * bool :=
  if sc_alternate s then (s, false)
  else
    let page := Z.of_N (N.max (sc_rows s) 1) in
    view_moved (match movement with
           | Move_PageUp => viewport_scroll (sc_history s) (- page) (sc_view s)
           | Move_PageDown => viewport_scroll (sc_history s) page (sc_view s)
           | Move_Top => viewport_set_top (sc_history s) (hi_oldest (sc_history s)) (sc_view s)
           | Move_Bottom => viewport_follow (sc_view s)
           end) s.
Definition scrollback_scroll_to (offset_rows : N) (s : Scrollback) : Scrollback * bool :=
  if sc_alternate s then (s, false)
  else view_moved (viewport_set_top (sc_history s) (u64_saturating_add (hi_oldest (sc_history s)) offset_rows) (sc_view s)) s.
Definition scrollback_input (s : Scrollback) : Scrollback * bool := view_moved (viewport_follow (sc_view s)) s.

(** One call on the cache's [request]. *)
Definition ask_rows (wanted : range) (s : Scrollback) : Scrollback * list PageRequest :=
  let '(cache, requests) := cache_request wanted (sc_focus s) (sc_cache s) in (set_cache cache s, requests).

(** [requests]. A copy that waits names the Selection's first and last line; [find] says whether
    Find is active. *)
Definition scrollback_requests (copying : option (N * N)) (find : bool) (s : Scrollback) : Scrollback * list PageRequest :=
  if sc_alternate s || negb (bool_decide (is_Some (sc_screen s))) then (s, [])
  else
    let total := hi_total (sc_history s) in
    let floor := sc_floor s in
    let '(s, for_copy) := match copying with Some (start, end_) => ask_rows (N.max start floor, (end_ + 1)%N) s | None => (s, []) end in
    let '(s, for_view) :=
      if viewport_following (sc_view s) then (s, [])
      else
        let top := viewport_top (sc_history s) (sc_view s) in
        ask_rows ((top - MAX_PAGE_ROWS)%N, (top + sc_rows s + MAX_PAGE_ROWS)%N) s in
    let '(s, for_start) := if sc_warm s then ask_rows ((total - FIRST_PAGE_ROWS)%N, total) (set_warm false s) else (s, []) in
    let '(s, for_find) := if find then ask_rows (floor, total) s else (s, []) in
    (s, for_copy ++ for_view ++ for_start ++ for_find).

(** [unsent]. *)
Definition scrollback_unsent (requests : list PageRequest) (s : Scrollback) : Scrollback := set_cache (cache_unsent requests (sc_cache s)) s.
(** [page], with the rows of a reply packed as they are decoded. *)
Definition pack_page (page : option (N * N * list RowShown)) : option (N * N * list CachedRow) :=
  (λ '(epoch, start, rows), (epoch, start, map (λ row : RowShown, cached_row row.1 row.2) rows)) <$> page.
Definition scrollback_settle (request : PageRequest) (page : option (N * N * list RowShown)) (s : Scrollback) : Scrollback :=
  let cache := cache_page request (pack_page page) (sc_focus s) (sc_cache s) in
  set_placeholders (prune_placeholders cache (sc_placeholders s)) (set_cache cache s).

(** ** What is shown *)

(** [Lines::get] and the start of [Lines::range]. *)
Definition lines_get (s : Scrollback) (screen : FrameShown) (line : N) : option RowRef :=
  let history := sc_history s in
  if (line <? hi_total history)%N then
    if negb (sn_alternate screen) && (hi_oldest history <=? line)%N then Row_Cached <$> (sb_rows (sc_cache s) !! line) else None
  else (λ row : RowShown, Row_Visible row.1 row.2) <$> (visible_rows screen !! N.to_nat (line - hi_total history)).
Definition lines_start (s : Scrollback) (screen : FrameShown) : N :=
  if sn_alternate screen then hi_total (sc_history s) else hi_oldest (sc_history s).

Record Presented := { pn_rows : list (list ShownCell); pn_wrapped : list bool; pn_offset : N; pn_total : N; pn_cursor : option CursorPosition }.

(** One line of [compose] without a Selection; a cached row keeps the snapshot made of it. *)
Definition compose_line (s : Scrollback) (screen : FrameShown) (line : N) (shown : gmap N RowShown) : option (gmap N RowShown * RowShown) :=
  match lines_get s screen line with
  | Some row =>
      if (line <? hi_total (sc_history s))%N then
        match shown !! line with
        | Some entry => Some (shown, entry)
        | None => cells ← ref_snapshot row; Some (<[line := (cells, ref_wrapped row)]> shown, (cells, ref_wrapped row))
        end
      else cells ← ref_snapshot row; Some (shown, (cells, ref_wrapped row))
  | None => Some (shown, default (repeat blank_shown_cell (sn_columns screen), false) (sc_placeholders s !! line))
  end.
Fixpoint compose_lines (s : Scrollback) (screen : FrameShown) (lines : list N) (shown : gmap N RowShown)
    : option (gmap N RowShown * list RowShown) :=
  match lines with
  | [] => Some (shown, [])
  | line :: lines =>
      '(shown, row) ← compose_line s screen line shown;
      '(shown, rows) ← compose_lines s screen lines shown;
      Some (shown, row :: rows)
  end.
Definition lines_from (top : N) (rows : nat) : list N := map (λ i, (top + N.of_nat i)%N) (seq 0 rows).

(** [present] with [compose], without a Selection. The outer [None] is a panic. *)
Definition scrollback_present (s : Scrollback) : option (Scrollback * option Presented) :=
  match sc_screen s with
  | None => Some (s, None)
  | Some screen =>
      let top := sc_focus s in
      let total := hi_total (sc_history s) in
      let rows := length (sn_rows screen) in
      let start := lines_start s screen in
      let presented lines wrapped cursor :=
        {| pn_rows := lines; pn_wrapped := wrapped; pn_offset := (top - start)%N; pn_total := (total - start + N.of_nat rows)%N; pn_cursor := cursor |} in
      if (total - top =? 0)%N then Some (s, Some (presented (sn_rows screen) (sn_wrapped screen) (sn_cursor screen)))
      else
        let shown := map_retain (λ line, in_range_of (top, top + N.of_nat rows)%N line && (line <? total)%N) (sc_shown s) in
        '(shown, lines) ← compose_lines s screen (lines_from top rows) shown;
        let cursor :=
          position ← sn_cursor screen;
          let row := (cp_row position + (total - top))%N in
          if (row <=? 65535)%N && (row <? N.of_nat rows)%N
          then Some {| cp_column := cp_column position; cp_row := row; cp_width := cp_width position |} else None in
        Some (set_shown shown s, Some (presented (map fst lines) (map snd lines) cursor))
  end.

(** ** Runs *)

Inductive ScrollEvent :=
  | Sv_Attach (session : N)
  | Sv_Screen (screen : FrameShown)
  | Sv_Wheel (vertical_steps : Z)
  | Sv_Scroll (movement : ScrollbackMovement)
  | Sv_ScrollTo (offset_rows : N)
  | Sv_Input
  | Sv_Requests (copying : option (N * N)) (find : bool)
  | Sv_Unsent (requests : list PageRequest)
  | Sv_Page (request : PageRequest) (page : option (N * N * list RowShown))
  | Sv_Present
  | Sv_Retain.
Definition scroll_step (e : ScrollEvent) (s : Scrollback) : Scrollback :=
  match e with
  | Sv_Attach session => scrollback_attach session s
  | Sv_Screen screen => scrollback_screen screen s
  | Sv_Wheel vertical_steps => (scrollback_wheel vertical_steps s).1
  | Sv_Scroll movement => (scrollback_scroll movement s).1
  | Sv_ScrollTo offset_rows => (scrollback_scroll_to offset_rows s).1
  | Sv_Input => (scrollback_input s).1
  | Sv_Requests copying find => (scrollback_requests copying find s).1
  | Sv_Unsent requests => scrollback_unsent requests s
  | Sv_Page request page => scrollback_settle request page s
  | Sv_Present => match scrollback_present s with Some (s, _) => s | None => s end
  | Sv_Retain => scrollback_retain s
  end.
Definition scroll_run (events : list ScrollEvent) (s : Scrollback) : Scrollback := foldl (λ s e, scroll_step e s) s events.

(** ** Packed rows read back *)

(** A row as a decoder makes it: no cell is selected, and its sizes fit their fields. *)
Definition row_fits (cells : list ShownCell) : Prop :=
  Forall (λ c, c_selected c = false) cells ∧ length cells ≤ N.to_nat 65535 ∧ (N.of_nat (str_len (flat_map c_text cells)) <= 4294967295)%N.

Lemma with_text_id c : c_selected c = false → with_text (c_text c) false (c_spacer_tail c) (row_template c) = c.
Proof. destruct c; cbn. by intros ->. Qed.

Lemma style_of_spec template styles : length styles ≤ N.to_nat 65535 →
  let '(styles', index) := row_style_of template styles in
  styles `prefix_of` styles' ∧ length styles' ≤ S (length styles) ∧ styles' !! N.to_nat index = Some template.
Proof.
  intros Hl. unfold row_style_of, to_u16. destruct (vposition _ styles) as [index|] eqn:E.
  - apply vposition_Some in E as (l1 & x & l2 & -> & <- & Hx%bool_decide_eq_true & _). subst x. split; [done|]. split; [lia|].
    rw length_app /= in Hl. replace (N.to_nat (N.min (N.of_nat (length l1)) 65535)) with (length l1) by lia. by rw list_lookup_middle.
  - split; [by eexists|]. rw length_app /=. split; [lia|]. replace (N.to_nat (N.min (N.of_nat (length styles)) 65535)) with (length styles) by lia.
    by rw list_lookup_middle.
Qed.

Lemma pack_cells_spec cells : ∀ styles text packed,
  length styles + length cells ≤ S (N.to_nat 65535) → (N.of_nat (str_len (text ++ flat_map c_text cells)) <= 4294967295)%N →
  let '(styles', text', packed') := pack_cells cells styles text packed in
  styles `prefix_of` styles' ∧ text' = text ++ flat_map c_text cells ∧ ∃ more, packed' = packed ++ more ∧ length more = length cells ∧
  ∀ i c, cells !! i = Some c → ∃ pk, more !! i = Some pk ∧ N.to_nat (pk_end pk) = str_len (text ++ flat_map c_text (take (S i) cells)) ∧
    styles' !! N.to_nat (pk_style pk) = Some (row_template c) ∧ pk_spacer_tail pk = c_spacer_tail c.
Proof.
  induction cells as [|cell cells IH]; intros styles text packed Hl Ht; cbn [pack_cells].
  { split; [done|]. cbn [flat_map]. rw app_nil_r. split; [done|]. exists []. by rw app_nil_r. }
  cbn [length flat_map] in Hl, Ht. rw app_assoc in Ht. pose proof (style_of_spec (row_template cell) styles ltac:(lia)) as Hs.
  destruct (row_style_of (row_template cell) styles) as [styles1 style] eqn:Es. destruct Hs as (Hpre & Hlen & Hlook).
  set (pk := {| pk_end := _; pk_style := style; pk_spacer_tail := _ |}). specialize (IH styles1 (text ++ c_text cell) (packed ++ [pk]) ltac:(lia) Ht).
  destruct (pack_cells _ _ _ _) as [[styles2 text2] packed2]. destruct IH as (H1 & H2 & more & H3 & H4 & H5).
  split; [by etrans|]. split; [by rw H2 -app_assoc|]. exists (pk :: more). split; [by rw H3 -app_assoc|]. split; [by rw /= H4|].
  intros [|i] c; cbn [lookup list_lookup take flat_map].
  - intros [= <-]. exists pk. split; [done|]. split.
    + subst pk. cbn [pk_end]. unfold to_u32. rw app_nil_r. rw str_len_app in Ht. lia.
    + split; [|done]. cbn [pk_style pk]. by eapply prefix_lookup_Some.
  - intros Hi. destruct (H5 i c Hi) as (pk' & E1 & E2 & E3). exists pk'. split; [done|]. by rw E2 -app_assoc.
Qed.

Lemma kept_cells_spec cells : kept_cells cells ≤ length cells ∧
  Forall (λ c, is_kept (fill_template cells) c = false) (drop (kept_cells cells) cells).
Proof.
  unfold kept_cells, vrposition. set (keep := is_kept _). clearbody keep. destruct (vposition keep (rev cells)) as [i|] eqn:E; cbn [fmap option_fmap option_map].
  - apply vposition_Some in E as (l1 & x & l2 & E & <- & _ & Hf). apply (f_equal (@rev _)) in E. rw rev_involutive rev_app_distr /= in E.
    pose proof (f_equal length E) as El. rw !length_app !length_rev /= in El.
    assert (length cells - S (length l1) + 1 = length (rev l2 ++ [x])) as -> by (rw length_app length_rev /=; lia).
    split; [rw length_app length_rev /=; lia|]. assert (drop (length (rev l2 ++ [x])) cells = rev l1) as -> by (rw E; apply drop_app_length).
    by apply Forall_rev.
  - split; [apply Nat.le_0_l|]. apply vposition_None, Forall_rev in E. by rw rev_involutive in E.
Qed.

Lemma cached_row_fields cells wrapped : cr_wrapped (cached_row cells wrapped) = wrapped ∧ cr_columns (cached_row cells wrapped) = to_u16 (length cells).
Proof. unfold cached_row. destruct (row_style_of _ _) as [styles fill]. by destruct (pack_cells _ _ _ _) as [[? ?] ?]. Qed.

(** What a cached row says of each of its columns. *)
Lemma cached_row_column cells wrapped i c : row_fits cells → cells !! i = Some c →
  let r := cached_row cells wrapped in
  cached_text r i = c_text c ∧ cached_spacer_tail r i = c_spacer_tail c ∧ cached_style r i = Some (row_template c).
Proof.
  intros (_ & Hlen & Htext) Hi. destruct (kept_cells_spec cells) as [Hk Hblank]. cbn zeta. unfold cached_row. set (kept := kept_cells cells) in *.
  pose proof (style_of_spec (fill_template cells) [] (Nat.le_0_l _)) as Hs. destruct (row_style_of (fill_template cells) []) as [styles fill].
  destruct Hs as (_ & Hs & Hfill). cbn [length] in Hs.
  assert (str_len (flat_map c_text (take kept cells)) ≤ str_len (flat_map c_text cells)) as Hle
    by (rw -{2}(take_drop kept cells) flat_map_app str_len_app; lia).
  pose proof (pack_cells_spec (take kept cells) styles [] []) as Hp. rw length_take in Hp. specialize (Hp ltac:(lia) ltac:(cbn [app]; lia)).
  destruct (pack_cells _ _ _ _) as [[styles' text] packed]. destruct Hp as (Hpre & -> & more & -> & Hml & Hat). cbn [app] in *.
  unfold cached_text, cached_spacer_tail, cached_style. cbn [cr_cells cr_text cr_styles cr_fill].
  destruct (decide (i < kept)) as [Hlt|Hge].
  - destruct (Hat i c) as (pk & E1 & E2 & E3 & E4); [by rw lookup_take_lt|]. rw E1. split; [|by split].
    assert ((match i with 0 => 0 | S previous => match more !! previous with Some p => N.to_nat (pk_end p) | None => 0 end end) =
      str_len (flat_map c_text (take i (take kept cells)))) as ->.
    { destruct i as [|j]; [done|]. destruct (lookup_lt_is_Some_2 (take kept cells) j) as [c' Hc']; [rw length_take; lia|].
      by destruct (Hat j c' Hc') as (pk' & -> & -> & _). }
    rw E2. assert (take (S i) (take kept cells) = take i (take kept cells) ++ [c]) as -> by (apply take_S_r; by rw lookup_take_lt).
    rw flat_map_app str_len_app /= app_nil_r. pose proof (take_drop_middle (take kept cells) i c ltac:(by rw lookup_take_lt)) as Em.
    rw -{1}Em flat_map_app. cbn [flat_map]. by rw str_get_middle.
  - assert (more !! i = None) as -> by (apply lookup_ge_None; lia).
    assert (is_kept (fill_template cells) c = false) as Hb.
    { eapply (proj1 (Forall_forall _ _) Hblank). apply list_elem_of_lookup. exists (i - kept). rw lookup_drop. by replace (kept + (i - kept)) with i by lia. }
    unfold is_kept in Hb. apply orb_false_iff in Hb as [Hb Ht]. apply orb_false_iff in Hb as [Hsp Hb]. apply negb_false_iff, bool_decide_eq_true in Hb, Ht.
    split; [done|]. split; [done|]. rw Ht. by eapply prefix_lookup_Some.
Qed.

Lemma mapM_columns (r : CachedRow) cells : (∀ i c, cells !! i = Some c → cached_cell r i = Some c) →
  mapM (cached_cell r) (seq 0 (length cells)) = Some cells.
Proof.
  intros H. apply mapM_Some. apply Forall2_same_length_lookup_2; [by rw length_seq|]. intros i x c Hx Hc.
  apply lookup_seq in Hx as [-> _]. by apply H.
Qed.

Lemma cached_row_snapshot cells wrapped : row_fits cells → cached_snapshot (cached_row cells wrapped) = Some cells.
Proof.
  intros Hf. unfold cached_snapshot. destruct (cached_row_fields cells wrapped) as [_ ->]. destruct Hf as (Hsel & Hlen & Ht).
  replace (N.to_nat (to_u16 (length cells))) with (length cells) by (unfold to_u16; lia). apply mapM_columns. intros i c Hi.
  destruct (cached_row_column cells wrapped i c) as (E1 & E2 & E3); [done..|]. unfold cached_cell. rw E3 E1 E2 /=. f_equal. apply with_text_id.
  exact (proj1 (Forall_lookup _ _) Hsel i c Hi).
Qed.

Lemma cached_row_past cells wrapped i : cells !! i = None → cr_cells (cached_row cells wrapped) !! i = None.
Proof.
  intros Hi. destruct (kept_cells_spec cells) as [Hk _]. unfold cached_row. destruct (row_style_of _ _) as [styles fill].
  assert (∀ l styles text packed, length (pack_cells l styles text packed).2 = length packed + length l) as Hlen.
  { clear. induction l as [|c l IH]; intros styles text packed; cbn [pack_cells snd length]; [lia|]. destruct (row_style_of _ _) as [styles' style].
    rw IH length_app /=. lia. }
  specialize (Hlen (take (kept_cells cells) cells) styles [] []). destruct (pack_cells _ _ _ _) as [[styles' text] packed]. cbn [snd cr_cells] in *.
  apply lookup_ge_None in Hi. apply lookup_ge_None. rw Hlen length_take /=. lia.
Qed.

(** C21. A row packed for the cache is read back whole: unpacking it gives the cells that were packed and
    their wrap mark, each column reads as it does on screen, past the end too, and comparing a
    packed row with another row, packed or on screen, says whether both show the same. *)
Theorem packed_row_reads_back cells wrapped : row_fits cells →
  let packed := Row_Cached (cached_row cells wrapped) in
  let visible := Row_Visible cells wrapped in
  ref_snapshot packed = Some cells ∧ ref_wrapped packed = wrapped ∧ ref_columns packed = ref_columns visible ∧
  (∀ column, ref_text packed column = ref_text visible column ∧ ref_spacer_tail packed column = ref_spacer_tail visible column ∧
    ref_has_text packed column = ref_has_text visible column) ∧
  ∀ cells' wrapped', row_fits cells' →
    ref_same packed (Row_Visible cells' wrapped') = bool_decide ((cells', wrapped') = (cells, wrapped)) ∧
    ref_same packed (Row_Cached (cached_row cells' wrapped')) = bool_decide ((cells', wrapped') = (cells, wrapped)).
Proof.
  intros Hf. cbn zeta. destruct (cached_row_fields cells wrapped) as [Ew Ec]. pose proof (cached_row_snapshot cells wrapped Hf) as Es.
  split; [done|]. split; [done|]. split; [done|]. split.
  - intros column. assert (ref_text (Row_Cached (cached_row cells wrapped)) column = ref_text (Row_Visible cells wrapped) column ∧
      ref_spacer_tail (Row_Cached (cached_row cells wrapped)) column = ref_spacer_tail (Row_Visible cells wrapped) column) as [E1 E2].
    { cbn [ref_text ref_spacer_tail]. destruct (cells !! column) as [c|] eqn:E.
      - by destruct (cached_row_column cells wrapped column c Hf E) as (-> & -> & _).
      - unfold cached_text, cached_spacer_tail. by rw cached_row_past. }
    split; [done|]. split; [done|]. unfold ref_has_text. rw E1 E2. cbn [ref_columns]. by rw Ec.
  - intros cells' wrapped' Hf'. destruct (cached_row_fields cells' wrapped') as [Ew' _]. pose proof (cached_row_snapshot cells' wrapped' Hf') as Es'.
    unfold ref_same. cbn [ref_wrapped ref_snapshot]. rw Ew Ew' Es. destruct (eqb wrapped wrapped') eqn:E; cbn [negb].
    + apply eqb_prop in E as <-. split; apply bool_decide_ext; [naive_solver|]. split; [|by intros [= ->]]. intros Heq. rw Heq in Es. congruence.
    + apply eqb_false_iff in E. rw bool_decide_eq_false_2; [congruence|done].
Qed.

(** ** The invariant of a view *)

Section runs.
(** The rows of each Session's history, by epoch and position. *)
Context (row : option N → N → N → RowShown).

Definition packed_rows (session : option N) (epoch position : N) : CachedRow :=
  cached_row (row session epoch position).1 (row session epoch position).2.

Record view_ok (s : Scrollback) : Prop := {
  vo_wf : cache_wf (sc_cache s);
  vo_rows : cache_true (packed_rows (sb_session (sc_cache s))) (sc_cache s);
  vo_shown : ∀ line v, sc_shown s !! line = Some v → v = row (sb_session (sc_cache s)) (hi_epoch (sc_history s)) line;
  vo_placeholders : size (sc_placeholders s) ≤ N.to_nat MAX_PAGE_ROWS ∧ ∀ line, is_Some (sc_placeholders s !! line) →
    in_range_of (retained_range (sc_history s)) line = true ∧ sb_rows (sc_cache s) !! line = None;
  vo_alternate : sc_alternate s = true → sc_view s = None
}.

(** A reply reports rows of the Session the Scrollback is attached to. *)
Definition event_ok (s : Scrollback) (e : ScrollEvent) : Prop :=
  match e with Sv_Page _ page => page_true (row (sb_session (sc_cache s))) page | _ => True end.
Fixpoint run_ok (events : list ScrollEvent) (s : Scrollback) : Prop :=
  match events with [] => True | e :: events => event_ok s e ∧ run_ok events (scroll_step e s) end.

(** The row a scrolled view shows at a line. *)
Definition expected_row (s : Scrollback) (screen : FrameShown) (line : N) : option RowShown :=
  if (line <? hi_total (sc_history s))%N then
    if bool_decide (is_Some (sb_rows (sc_cache s) !! line)) then Some (row (sb_session (sc_cache s)) (hi_epoch (sc_history s)) line)
    else Some (default (repeat blank_shown_cell (sn_columns screen), false) (sc_placeholders s !! line))
  else visible_rows screen !! N.to_nat (line - hi_total (sc_history s)).

Lemma pop_oldest_spec {V} fuel : ∀ (m : gmap N V), size m ≤ fuel →
  pop_oldest fuel m ⊆ m ∧ size (pop_oldest fuel m) ≤ N.to_nat MAX_PAGE_ROWS.
Proof.
  induction fuel as [|fuel IH]; intros m Hs; cbn [pop_oldest]; [split; [done|lia]|]. destruct (Nat.ltb_spec (N.to_nat MAX_PAGE_ROWS) (size m)) as [Hlt|]; [|done].
  destruct (map_keys_ends m) as (first & last_ & Ef & _ & [x Hx] & _); [lia|]. rw Ef. assert (size (delete first m) = size m - 1) as Esz by (rw map_size_delete Hx; lia).
  destruct (IH (delete first m)) as [H1 H2]; [lia|]. split; [|done]. etrans; [exact H1|apply delete_subseteq].
Qed.
Lemma prune_spec {R V} (c : ScrollbackCache R) (m : gmap N V) :
  size (prune_placeholders c m) ≤ N.to_nat MAX_PAGE_ROWS ∧ ∀ line, is_Some (prune_placeholders c m !! line) →
    in_range_of (retained_range (sb_history c)) line = true ∧ sb_rows c !! line = None.
Proof.
  unfold prune_placeholders. set (kept := map_retain _ m). destruct (pop_oldest_spec (size kept) kept) as [H1 H2]; [done|]. split; [done|].
  intros line [x Hx]. eapply lookup_weaken in Hx; [|exact H1]. subst kept. rw map_retain_lookup in Hx. destruct (_ && _) eqn:E; [|done].
  apply andb_true_iff in E as [E1 E2]. split; [done|]. apply negb_true_iff, bool_decide_eq_false in E2. by apply eq_None_not_Some.
Qed.

Lemma request_fields {R} wanted focus (c : ScrollbackCache R) :
  sb_session (cache_request wanted focus c).1 = sb_session c ∧ sb_history (cache_request wanted focus c).1 = sb_history c ∧
  sb_rows (cache_request wanted focus c).1 = sb_rows c.
Proof. done. Qed.

(** Changing only what is in flight keeps a view. *)
Lemma flight_ok s c : sb_session c = sb_session (sc_cache s) → sb_history c = sb_history (sc_cache s) → sb_rows c = sb_rows (sc_cache s) →
  cache_wf c → view_ok s → view_ok (set_cache c s).
Proof.
  intros E1 E2 E3 Hwf []. split; cbn [set_cache sc_cache sc_shown sc_placeholders]; [done|..].
  - intros p x. unfold cache_true in vo_rows0. rw E1 E2 E3. apply vo_rows0.
  - unfold sc_history. cbn [sc_cache]. rw E1 E2. apply vo_shown0.
  - unfold sc_history. cbn [sc_cache]. rw E2 E3. apply vo_placeholders0.
  - apply vo_alternate0.
Qed.
Lemma ask_ok wanted s : view_ok s → view_ok (ask_rows wanted s).1.
Proof.
  intros H. unfold ask_rows. pose proof (request_spec wanted (sc_focus s) (sc_cache s) (vo_wf s H)) as Hr.
  destruct (request_fields wanted (sc_focus s) (sc_cache s)) as (E1 & E2 & E3). destruct (cache_request _ _ _) as [c requests]. cbn [fst] in *.
  apply flight_ok; try done. apply Hr.
Qed.
Lemma view_move_ok s v b : sc_alternate s = false ∨ v = None → view_ok s → view_ok (view_moved (v, b) s).1.
Proof. intros Ha []. split; try done. cbn. intros E. destruct Ha as [Ha|]; [|done]. unfold sc_alternate in *. cbn in E. congruence. Qed.

Lemma default_ok : view_ok scrollback_default.
Proof.
  split; try done; cbn; [split|..]; cbn; try done; try lia; try (by constructor).
  - intros p [x Hx]. by rw lookup_empty in Hx.
  - rw map_size_empty. apply Nat.le_0_l.
  - split; [rw map_size_empty; apply Nat.le_0_l|]. intros line [x Hx]. by rw lookup_empty in Hx.
Qed.

Lemma attach_ok session s : view_ok s → view_ok (scrollback_attach session s).
Proof.
  intros H. unfold scrollback_attach. pose proof (attach_wf session (sc_cache s) (vo_wf s H)) as Hwf. unfold cache_attach in *.
  case_bool_decide; [by destruct H; split|]. cbn [fst] in Hwf. split; try done.
  - cbn. split; [rw map_size_empty; apply Nat.le_0_l|]. intros line [x Hx]. by rw lookup_empty in Hx.
Qed.

Lemma observe_session {R} h (c : ScrollbackCache R) : sb_session (cache_observe h c).1 = sb_session c.
Proof. unfold cache_observe. cbn [fst]. case_bool_decide; by destruct (_ =? _)%N. Qed.
Lemma page_fields {R} request page focus (c : ScrollbackCache R) :
  sb_session (cache_page request page focus c) = sb_session c ∧ hi_epoch (sb_history (cache_page request page focus c)) = hi_epoch (sb_history c).
Proof.
  unfold cache_page. destruct (negb _); [done|]. destruct page as [[[epoch start] rows]|]; [|done]. destruct (_ =? _)%N; [|done].
  unfold cache_insert. by destruct (_ && _); destruct (insert_rows _ _ _ _ _) as [m []].
Qed.

Lemma screen_ok screen s : view_ok s → view_ok (scrollback_screen screen s).
Proof.
  intros H. unfold scrollback_screen. set (s1 := match sc_screen s with Some _ => _ | None => s end).
  assert (sc_cache s1 = sc_cache s ∧ sc_shown s1 = sc_shown s) as [E1 E2] by (subst s1; destruct (sc_screen s); [|done]; by destruct (_ =? _)%N).
  clearbody s1. pose proof (observe_wf (sn_history screen) (sc_cache s1)) as Hwf. pose proof (observe_session (sn_history screen) (sc_cache s1)) as Hses.
  pose proof (observe_true (packed_rows (sb_session (sc_cache s))) (sn_history screen) (sc_cache s1)) as Htrue.
  pose proof (observe_history (sn_history screen) (sc_cache s1)) as Hhist.
  assert ((cache_observe (sn_history screen) (sc_cache s1)).2 = (hi_epoch (sn_history screen) =? hi_epoch (sc_history s))%N) as Hsame
    by (unfold sc_history; by rw -E1).
  destruct (cache_observe (sn_history screen) (sc_cache s1)) as [cache same]. cbn [fst snd] in *. rw E1 in Hwf Htrue Hses.
  set (s2 := if same then set_cache cache s1 else reset_reading (set_cache cache s1)).
  assert (sc_cache s2 = cache) as E3 by (subst s2; by destruct same). rw E3. split.
  - cbn. rw E3. apply Hwf, H.
  - cbn. rw E3. rw Hses. apply Htrue, H.
  - cbn. unfold sc_history. cbn. rw E3. intros line v Hv. rw Hses Hhist. subst s2. destruct same; cbn in Hv; [|by rw lookup_empty in Hv].
    rw E2 in Hv. symmetry in Hsame. apply N.eqb_eq in Hsame as ->. by apply (vo_shown s H).
  - unfold sc_history. cbn. rw E3. apply prune_spec.
  - unfold sc_alternate. cbn. by intros ->.
Qed.

Lemma pack_page_true session page : page_true (row session) page → page_true (packed_rows session) (pack_page page).
Proof.
  destruct page as [[[epoch start] rows]|]; [|done]. intros H i x Hx. cbn in Hx. rw list_lookup_fmap in Hx.
  apply fmap_Some in Hx as (r & Hr & ->). unfold packed_rows. by rw -(H i r Hr).
Qed.

(** Rows that a decoder makes. *)
Context (row_ok : ∀ session epoch position, row_fits (row session epoch position).1).

Definition shown_true (s : Scrollback) (shown : gmap N RowShown) : Prop :=
  ∀ line v, shown !! line = Some v → v = row (sb_session (sc_cache s)) (hi_epoch (sc_history s)) line.

Lemma compose_line_spec s screen line shown v : cache_true (packed_rows (sb_session (sc_cache s))) (sc_cache s) →
  sn_alternate screen = false → (hi_oldest (sc_history s) <= line)%N → expected_row s screen line = Some v → shown_true s shown →
  ∃ shown', compose_line s screen line shown = Some (shown', v) ∧ shown_true s shown'.
Proof.
  intros Hrows Ha Ho Hv Hs. unfold compose_line, lines_get. unfold expected_row in Hv. rw Ha. apply N.leb_le in Ho as ->. cbn [negb andb].
  destruct (line <? hi_total (sc_history s))%N.
  - destruct (sb_rows (sc_cache s) !! line) as [x|] eqn:Ex; cbn [fmap option_fmap option_map].
    + rw bool_decide_eq_true_2 in Hv; [done|]. injection Hv as <-. destruct (shown !! line) as [entry|] eqn:Es; [exists shown; by rw (Hs _ _ Es)|].
      apply Hrows in Ex as ->. unfold packed_rows. cbn [ref_snapshot ref_wrapped]. rw cached_row_snapshot; [apply row_ok|].
      destruct (cached_row_fields (row (sb_session (sc_cache s)) (hi_epoch (sb_history (sc_cache s))) line).1
        (row (sb_session (sc_cache s)) (hi_epoch (sb_history (sc_cache s))) line).2) as [-> _]. cbn.
      rw -surjective_pairing. eexists. split; [done|]. intros l w Hw. destruct (decide (l = line)) as [->|Hne].
      * rw lookup_insert_eq in Hw. by injection Hw as <-.
      * rw lookup_insert_ne // in Hw. by apply Hs.
    + rw bool_decide_eq_false_2 in Hv; [by intros [? ?]|]. injection Hv as <-. by exists shown.
  - rw Hv. cbn. exists shown. by rw -surjective_pairing.
Qed.

Lemma compose_lines_spec s screen lines : ∀ shown, cache_true (packed_rows (sb_session (sc_cache s))) (sc_cache s) →
  sn_alternate screen = false → Forall (λ line, (hi_oldest (sc_history s) <= line)%N ∧ is_Some (expected_row s screen line)) lines → shown_true s shown →
  ∃ shown' rows, compose_lines s screen lines shown = Some (shown', rows) ∧ shown_true s shown' ∧ mapM (expected_row s screen) lines = Some rows.
Proof.
  induction lines as [|line lines IH]; intros shown Hrows Ha Hl Hs; cbn [compose_lines mapM]; [by exists shown, []|].
  apply Forall_cons in Hl as [[Ho [v Hv]] Hl]. destruct (compose_line_spec s screen line shown v Hrows Ha Ho Hv Hs) as (shown1 & -> & H1). cbn [mbind option_bind].
  destruct (IH shown1 Hrows Ha Hl H1) as (shown2 & rows & -> & H2 & E). cbn [mbind option_bind]. rw Hv E. by exists shown2, (v :: rows).
Qed.

(** Presenting never panics, and shows the rows it should. *)
Lemma present_spec s : view_ok s →
  ∃ s' shown, scrollback_present s = Some (s', shown) ∧ view_ok s' ∧
  match sc_screen s with
  | None => shown = None
  | Some screen => ∃ p, shown = Some p ∧
      if (sc_focus s =? hi_total (sc_history s))%N then pn_rows p = sn_rows screen ∧ pn_wrapped p = sn_wrapped screen ∧ pn_cursor p = sn_cursor screen
      else (sc_focus s < hi_total (sc_history s))%N ∧
           mapM (expected_row s screen) (lines_from (sc_focus s) (length (sn_rows screen))) = Some (zip (pn_rows p) (pn_wrapped p)) ∧
           length (pn_rows p) = length (sn_rows screen) ∧ length (pn_wrapped p) = length (sn_rows screen)
  end.
Proof.
  intros H. unfold scrollback_present. destruct (sc_screen s) as [screen|] eqn:Es; [|by exists s, None].
  assert (sc_focus s <= hi_total (sc_history s))%N as Hf by (unfold sc_focus, viewport_top; destruct (sc_view s); lia).
  destruct (N.eqb_spec (hi_total (sc_history s) - sc_focus s) 0) as [E0|Hne].
  { eexists s, _. split; [done|]. split; [done|]. eexists. split; [done|]. rw (proj2 (N.eqb_eq _ _)); [lia|done]. }
  assert (sn_alternate screen = false ∧ (hi_oldest (sc_history s) <= sc_focus s)%N) as [Ha Ho].
  { pose proof (vo_alternate s H) as Hv. unfold sc_alternate in Hv. rw Es in Hv. unfold sc_focus, viewport_top in *.
    destruct (sc_view s) as [top|]; [|lia]. split; [destruct (sn_alternate screen); [by specialize (Hv eq_refl)|done]|lia]. }
  set (shown := map_retain _ _). assert (shown_true s shown) as Hshown.
  { intros line v Hv. subst shown. rw map_retain_lookup in Hv. destruct (_ && _); [|done]. by apply (vo_shown s H). }
  destruct (compose_lines_spec s screen (lines_from (sc_focus s) (length (sn_rows screen))) shown (vo_rows s H) Ha) as (shown' & rows & -> & H1 & H2); [|done|].
  { apply Forall_forall. intros line (i & -> & Hi%elem_of_seq)%list_elem_of_fmap. split; [lia|]. unfold expected_row.
    destruct (N.ltb_spec (sc_focus s + N.of_nat i) (hi_total (sc_history s))); [by case_bool_decide|]. apply lookup_lt_is_Some. unfold visible_rows.
    rw length_imap. lia. }
  cbn [mbind option_bind]. eexists _, _. split; [done|]. split; [destruct H; by split|]. eexists. split; [done|].
  destruct (N.eqb_spec (sc_focus s) (hi_total (sc_history s))); [lia|]. split; [lia|]. cbn [pn_rows pn_wrapped]. pose proof (Forall2_length _ _ _ (proj1 (mapM_Some _ _ _) H2)) as Hl.
  unfold lines_from in Hl. rw length_map length_seq in Hl. rw !length_map -Hl. split; [|done]. rw H2. f_equal. clear. induction rows as [|[a b] rows IH]; [done|].
  cbn. by rw -IH.
Qed.

Lemma step_ok e s : view_ok s → event_ok s e → view_ok (scroll_step e s).
Proof.
  intros H He. destruct e as [session|screen|n|movement|n| |copying find|requests|request page| |]; cbn [scroll_step].
  - by apply attach_ok.
  - by apply screen_ok.
  - unfold scrollback_wheel. destruct (sc_alternate s) eqn:Ea; [done|]. cbn [orb]. destruct (_ =? 0)%Z; [done|].
    destruct (viewport_scroll _ _ _) as [v b]. apply view_move_ok; [by left|done].
  - unfold scrollback_scroll. destruct (sc_alternate s) eqn:Ea; [done|]. destruct (match movement with Move_PageUp => _ | _ => _ end) as [v b].
    apply view_move_ok; [by left|done].
  - unfold scrollback_scroll_to. destruct (sc_alternate s) eqn:Ea; [done|]. destruct (viewport_set_top _ _ _) as [v b]. apply view_move_ok; [by left|done].
  - unfold scrollback_input. apply view_move_ok; [by right|done].
  - unfold scrollback_requests. destruct (_ || _); [done|]. set (floor := sc_floor s). set (total := hi_total _). clearbody floor total.
    set (a := match copying with Some (start, end_) => ask_rows (N.max start floor, (end_ + 1)%N) s | None => (s, []) end).
    assert (view_ok a.1) as Ha by (subst a; destruct copying as [[start end_]|]; [by apply ask_ok|done]). destruct a as [s1 r1]. cbn [fst] in Ha.
    set (a := if viewport_following (sc_view s1) then (s1, []) else _).
    assert (view_ok a.1) as Hb by (subst a; destruct (viewport_following _); [done|by apply ask_ok]). destruct a as [s2 r2]. cbn [fst] in Hb.
    set (a := if sc_warm s2 then _ else (s2, [])).
    assert (view_ok a.1) as Hc by (subst a; destruct (sc_warm s2); [apply ask_ok; by destruct Hb|done]). destruct a as [s3 r3]. cbn [fst] in Hc.
    set (a := if find then _ else (s3, [])).
    assert (view_ok a.1) as Hd by (subst a; destruct find; [by apply ask_ok|done]). by destruct a as [s4 r4].
  - apply flight_ok; try done. apply unsent_wf, H.
  - unfold scrollback_settle. pose proof (page_wf request (pack_page page) (sc_focus s) (sc_cache s) (vo_wf s H)) as Hwf.
    pose proof (page_content (packed_rows (sb_session (sc_cache s))) request (pack_page page) (sc_focus s) (sc_cache s) (vo_rows s H)) as Ht.
    specialize (Ht (pack_page_true _ _ He)). destruct (page_fields request (pack_page page) (sc_focus s) (sc_cache s)) as [E1 E2].
    set (cache := cache_page _ _ _ _) in *. split; cbn; [done|by rw E1| | |apply H].
    + unfold sc_history. cbn. rw E1 E2. apply H.
    + unfold sc_history. cbn. apply prune_spec.
  - by destruct (present_spec s H) as (s' & shown & -> & Hs & _).
  - apply flight_ok; try done. apply forget_wf, H.
Qed.

Lemma run_view_ok events : ∀ s, view_ok s → run_ok events s → view_ok (scroll_run events s).
Proof. induction events as [|e events IH]; intros s H Hr; [done|]. destruct Hr as [He Hr]. cbn [scroll_run foldl]. apply IH; [by apply step_ok|done]. Qed.
End runs.

(** ** Rows that leave the screen *)

Lemma keep_placeholders_lookup {R V} (c : ScrollbackCache R) total (rows : list V) : ∀ line m p,
  keep_placeholders c line total rows m !! p =
    match (if (line <=? p)%N && (p <? total)%N && negb (bool_decide (is_Some (sb_rows c !! p))) then rows !! N.to_nat (p - line) else None) with
    | Some v => Some v
    | None => m !! p
    end.
Proof.
  induction rows as [|row rows IH]; intros line m p; cbn [keep_placeholders]; [by destruct (_ && _)|].
  destruct (N.leb_spec total line) as [Hge|Hlt].
  { destruct (N.leb_spec line p), (N.ltb_spec p total); done || lia. }
  rw IH. destruct (decide (p = line)) as [->|Hne].
  - rw N.leb_refl N.sub_diag. destruct (N.leb_spec (line + 1) line); [lia|]. apply N.ltb_lt in Hlt as ->. cbn [andb lookup list_lookup].
    by case_bool_decide; cbn [negb]; rw ?lookup_insert_eq.
  - assert ((if bool_decide (is_Some (sb_rows c !! line)) then m else <[line:=row]> m) !! p = m !! p) as -> by (case_bool_decide; [done|by rw lookup_insert_ne]).
    destruct (N.leb_spec line p), (N.leb_spec (line + 1) p); try lia; [|done]. by replace (N.to_nat (p - line)) with (S (N.to_nat (p - (line + 1)))) by lia.
Qed.

(** The newest placeholders stay, as many as a page has rows. *)
Lemma pop_oldest_keeps {V} fuel base n p v : ∀ m : gmap N V, n ≤ N.to_nat MAX_PAGE_ROWS →
  (∀ q, is_Some (m !! q) → (base <= q)%N → (q < base + N.of_nat n)%N) → (base <= p)%N → m !! p = Some v → pop_oldest fuel m !! p = Some v.
Proof.
  induction fuel as [|fuel IH]; intros m Hn Hm Hp Hv; cbn [pop_oldest]; [done|]. destruct (Nat.ltb_spec (N.to_nat MAX_PAGE_ROWS) (size m)) as [Hlt|]; [|done].
  destruct (map_keys_ends m) as (first & last_ & Ef & _ & Hf & _ & Hends); [lia|]. rw Ef.
  assert (first < base)%N as Hfirst.
  { destruct (decide (first < base)%N) as [|Hge]; [done|]. exfalso. assert (length (map_keys m) ≤ n) as Hle; [|rw map_keys_length in Hle; lia].
    trans (length (map (λ i, (base + N.of_nat i)%N) (seq 0 n))); [|by rw length_map length_seq].
    apply submseteq_length, NoDup_submseteq; [apply map_keys_NoDup|].
    intros q Hq%elem_of_map_keys. pose proof (Hends q Hq). pose proof (Hm q Hq ltac:(lia)). apply list_elem_of_fmap.
    exists (N.to_nat (q - base)). split; [lia|]. apply elem_of_seq. lia. }
  apply IH; try done; [|rw lookup_delete_ne //; lia]. intros q [x Hx] Hb. apply lookup_delete_Some in Hx as [_ Hx]. by apply Hm.
Qed.

(** ** Properties *)


(** C22. What is asked of the server: in every such run, a request for a range of lines asks for pages of
    the current epoch of one to 500 rows, at most four in flight; together they reach only retained
    positions of the range that are neither cached nor asked for, none of them twice; and unless
    four pages are in flight afterwards, they reach every such position. *)
Theorem pages_asked_exactly row events wanted : (∀ session epoch position, row_fits (row session epoch position).1) →
  run_ok row events scrollback_default →
  let s := scroll_run events scrollback_default in
  let requests := (ask_rows wanted s).2 in
  let in_flight := sb_in_flight (sc_cache (ask_rows wanted s).1) in
  in_flight = sb_in_flight (sc_cache s) ++ requests ∧ length in_flight ≤ MAX_PAGES_IN_FLIGHT ∧
  Forall (page_ok (hi_epoch (sc_history s))) requests ∧
  (∀ p, hits p (map request_range requests) ≤ one_if (position_missing wanted (sc_cache s) p)) ∧
  (length in_flight < MAX_PAGES_IN_FLIGHT → ∀ p, hits p (map request_range requests) = one_if (position_missing wanted (sc_cache s) p)).
Proof.
  intros Hfits Hrun. cbn zeta. pose proof (run_view_ok row Hfits events _ (default_ok row) Hrun) as H. set (s := scroll_run _ _) in *. unfold ask_rows.
  pose proof (request_spec wanted (sc_focus s) (sc_cache s) (vo_wf row s H)) as Hr. destruct (cache_request _ _ _) as [cache requests].
  destruct Hr as (Hwf & E & Hok & Hr). split; [done|]. split; [apply Hwf|]. by split.
Qed.

(** C23. A scrolled view stays on its rows while output continues: in every such run, a frame of the same
    epoch that retains the line at the top of the view, and no line older than before, leaves the view there, and a row that was
    cached, or that was on the screen and scrolls into history with the frame, is shown as it was. *)
Theorem scrolled_view_stays row events previous screen : (∀ session epoch position, row_fits (row session epoch position).1) →
  run_ok row events scrollback_default →
  let s := scroll_run events scrollback_default in
  let s' := scrollback_screen screen s in
  sc_screen s = Some previous → (sc_focus s < hi_total (sc_history s))%N → sn_alternate screen = false →
  hi_epoch (sn_history screen) = hi_epoch (sc_history s) → (hi_oldest (sc_history s) <= hi_oldest (sn_history screen))%N →
  (hi_oldest (sn_history screen) <= sc_focus s < hi_total (sn_history screen))%N →
  length (sn_rows previous) ≤ N.to_nat MAX_PAGE_ROWS →
  sc_focus s' = sc_focus s ∧
  ∀ line v, expected_row row s previous line = Some v → in_range_of (retained_range (sn_history screen)) line = true →
    is_Some (sb_rows (sc_cache s) !! line) ∨ (hi_total (sc_history s) <= line)%N → expected_row row s' screen line = Some v.
Proof.
  intros Hfits Hrun. cbn zeta. pose proof (run_view_ok row Hfits events _ (default_ok row) Hrun) as H. set (s := scroll_run _ _) in *. clearbody s.
  intros Escr Hback Halt Eep Hold Hfocus Hrows.
  unfold scrollback_screen. rw Escr. assert ((hi_epoch (sn_history screen) =? hi_epoch (sc_history s))%N = true) as Ee by by apply N.eqb_eq. rw Ee.
  cbn [set_placeholders sc_cache]. pose proof (observe_lookup (sn_history screen) (sc_cache s)) as Hl. pose proof (observe_session (sn_history screen) (sc_cache s)) as Hs.
  pose proof (observe_history (sn_history screen) (sc_cache s)) as Hh.
  assert ((cache_observe (sn_history screen) (sc_cache s)).2 = true) as E2 by exact Ee. fold (sc_history s) in Hl. rw Ee in Hl. cbn [andb] in Hl.
  destruct (cache_observe (sn_history screen) (sc_cache s)) as [cache same]. cbn [fst snd] in *. subst same. rw Halt.
  split.
  { unfold sc_focus at 1. unfold sc_history at 1. cbn. rw Hh. by apply viewport_observe_top. }
  clear Hold.
  intros line v Hv Hin Hkind. pose proof Hin as Hb. apply in_range_of_spec in Hb. cbn in Hb. unfold expected_row, sc_history in *. cbn. rw Hh Hl Hin Hs Eep.
  assert ((line <? hi_total (sn_history screen))%N = true) as -> by (apply N.ltb_lt; lia).
  pose proof (λ Hx, cw_rows _ (vo_wf row s H) line Hx) as Hc. rw in_range_of_spec in Hc. cbn in Hc.
  destruct (sb_rows (sc_cache s) !! line) as [x|] eqn:Ex.
  - rw bool_decide_eq_true_2; [done|]. specialize (Hc (mk_is_Some _ _ eq_refl)). destruct (N.ltb_spec line (hi_total (sb_history (sc_cache s)))); [|lia].
    rw bool_decide_eq_true_2 in Hv; done.
  - destruct Hkind as [[? ?]|Hge]; [done|]. rw bool_decide_eq_false_2; [by intros [? ?]|].
    destruct (N.ltb_spec line (hi_total (sb_history (sc_cache s)))); [lia|].
    match goal with |- Some (default _ ?shown) = _ => assert (shown = Some v) as ->; [|done] end.
    destruct (vo_placeholders row s H) as [_ Hold]. unfold prune_placeholders.
    eapply (pop_oldest_keeps _ (hi_total (sb_history (sc_cache s))) (length (sn_rows previous))); [done| |done|].
    + intros q [w Hq] Hbase. rw map_retain_lookup in Hq. destruct (_ && _); [|done]. rw keep_placeholders_lookup in Hq.
      destruct (_ && _); [match type of Hq with (match ?o with Some v => _ | None => _ end) = _ => destruct o eqn:Eq end|].
      * apply lookup_lt_Some in Eq. unfold visible_rows in Eq. rw length_imap in Eq. lia.
      * apply mk_is_Some, Hold in Hq as [Hr _]. apply in_range_of_spec in Hr. unfold sc_history in Hr. cbn in Hr. lia.
      * apply mk_is_Some, Hold in Hq as [Hr _]. apply in_range_of_spec in Hr. unfold sc_history in Hr. cbn in Hr. lia.
    + rw map_retain_lookup Hh Hin Hl Hin Ex. rw (bool_decide_eq_false_2 (is_Some None)); [by intros [? ?]|]. cbn [andb negb].
      rw keep_placeholders_lookup Ex. rw (bool_decide_eq_false_2 (is_Some None)); [by intros [? ?]|].
      apply N.leb_le in Hge as ->. assert ((line <? hi_total (sn_history screen))%N = true) as -> by (apply N.ltb_lt; lia). cbn [andb negb]. by rw Hv.
Qed.

(** ** A sample *)

Module Sample.
Definition letter (n : N) : list ShownCell := [with_text [n] false false blank_shown_cell; blank_shown_cell].
(** Session [1] prints the letters from [A] in epoch [1]; Session [2] prints those from [a]. *)
Definition sample_row (session : option N) (epoch position : N) : RowShown :=
  (letter (match session with Some 2 => 97 | _ => 65 end + position mod 26)%N, false).
Definition sample_screen (total : N) (alternate : bool) : FrameShown :=
  {| sn_history := {| hi_epoch := 1; hi_oldest := (if total <? 5 then 0 else 2)%N; hi_total := total |}; sn_alternate := alternate; sn_columns := 2;
     sn_rows := if alternate then [letter 48; letter 49] else [letter (65 + total); letter (66 + total)]; sn_wrapped := [false; false];
     sn_cursor := None |}.
Definition first_page : PageRequest := {| pr_epoch := 1; pr_start := 0; pr_rows := 4 |}.
Definition sample_events : list ScrollEvent :=
  [Sv_Attach 1; Sv_Screen (sample_screen 4 false); Sv_Requests None false;
   Sv_Page first_page (Some (1, 2, [sample_row (Some 1) 1 2; sample_row (Some 1) 1 3])%N);
   Sv_Screen (sample_screen 5 false); Sv_Wheel 2; Sv_Present; Sv_Wheel (-1); Sv_Present; Sv_Wheel 1]%N.

Lemma sample_fits session epoch position : row_fits (sample_row session epoch position).1.
Proof.
  split; [by repeat constructor|]. split; [cbn; lia|]. assert (∀ c, len_utf8 c ≤ 4) as Hc.
  { intros c. unfold len_utf8. repeat destruct (_ <? _)%N; lia. }
  set (r := sample_row session epoch position). assert (flat_map c_text r.1 = [_; _]) as -> by reflexivity. unfold str_len. cbn [sum_list_with].
  match goal with |- context [len_utf8 ?a + (len_utf8 ?b + 0)] => pose proof (Hc a); pose proof (Hc b) end. lia.
Qed.
Lemma sample_run_ok : run_ok sample_row sample_events scrollback_default.
Proof.
  cbn [run_ok sample_events event_ok]. repeat (split; [try done|]); [|done]. intros [|[|i]] x; [intros [= <-]|intros [= <-]|done]; vm_compute; reflexivity.
Qed.


(** The row that was on the screen at line 5 is shown there when it scrolls into history. *)
Lemma scrolled_view_stays_witness :
  let s := scroll_run (take 6 sample_events) scrollback_default in
  sc_focus (scrollback_screen (sample_screen 6 false) s) = 3%N ∧
  expected_row sample_row (scrollback_screen (sample_screen 6 false) s) (sample_screen 6 false) 5 = Some (letter 70, false).
Proof.
  pose proof (scrolled_view_stays sample_row (take 6 sample_events) (sample_screen 5 false) (sample_screen 6 false) sample_fits) as H. cbn zeta in *.
  assert (sc_focus (scroll_run (take 6 sample_events) scrollback_default) = 3%N) as Ef by (vm_compute; reflexivity).
  assert (hi_total (sc_history (scroll_run (take 6 sample_events) scrollback_default)) = 5%N) as Et by (vm_compute; reflexivity).
  rw Ef Et in H. destruct H as [H1 H2]; [|vm_compute; reflexivity|done|done|vm_compute; reflexivity|vm_compute; discriminate|done|apply Nat.leb_le; vm_compute; reflexivity|].
  - cbn [run_ok take sample_events event_ok]. repeat (split; [try done|]); [|done].
    intros [|[|i]] x; [intros [= <-]|intros [= <-]|done]; vm_compute; reflexivity.
  - split; [exact H1|]. apply H2; [vm_compute; reflexivity..|]. right. done.
Defined.

Lemma pages_asked_exactly_witness :
  let s := scroll_run (take 2 sample_events) scrollback_default in
  (ask_rows (0, 9)%N s).2 = [first_page] ∧
  ∀ p, hits p (map request_range (ask_rows (0, 9)%N s).2) = one_if (position_missing (0, 9)%N (sc_cache s) p).
Proof.
  cbn zeta. split; [vm_compute; reflexivity|]. pose proof (pages_asked_exactly sample_row (take 2 sample_events) (0, 9)%N sample_fits) as H.
  assert (length (sb_in_flight (sc_cache (ask_rows (0, 9)%N (scroll_run (take 2 sample_events) scrollback_default)).1)) = 1) as E by (vm_compute; reflexivity).
  destruct H as (_ & _ & _ & _ & H); [by repeat split|]. apply H. rw E. vm_compute. lia.
Defined.

Lemma packed_row_reads_back_witness : ref_snapshot (Row_Cached (cached_row (letter 68) true)) = Some (letter 68).
Proof.
  apply (packed_row_reads_back (letter 68) true). split; [by repeat constructor|]. split; [cbn; lia|]. vm_compute. done.
Defined.

(** ** What modelling showed *)

(** A page asked for in one Session and settled after another was attached, whose history is in the
    same epoch, fills the cache of the second Session with rows of the first. *)
Lemma stale_page_is_cached :
  let s := scroll_run [Sv_Attach 1; Sv_Screen (sample_screen 4 false); Sv_Requests None false; Sv_Attach 2; Sv_Screen (sample_screen 4 false);
                       Sv_Page first_page (Some (1, 2, [sample_row (Some 1) 1 2; sample_row (Some 1) 1 3]))]%N scrollback_default in
  sb_session (sc_cache s) = Some 2%N ∧ (sb_rows (sc_cache s) !! 2%N ≫= cached_snapshot) = Some (letter 67) ∧
  (sample_row (Some 2%N) 1 2).1 = letter 99.
Proof. vm_compute. by repeat split. Qed.

(** Rows of the alternate screen stand in for history rows that were printed after it. *)
Lemma alternate_rows_stand_in :
  let s := scroll_run [Sv_Attach 1; Sv_Screen (sample_screen 4 false); Sv_Screen (sample_screen 4 true); Sv_Screen (sample_screen 6 false);
                       Sv_Wheel 2]%N scrollback_default in
  pn_rows <$> (scrollback_present s ≫= snd) = Some [letter 48; letter 49] ∧
  map fst [sample_row (Some 1) 1 4; sample_row (Some 1) 1 5]%N = [letter 69; letter 70].
Proof. vm_compute. by repeat split. Qed.

(** The first page asked for after a view moved among rows that are not cached holds none of the
    rows it shows. *)
Lemma first_page_misses_view :
  let s := scroll_run [Sv_Attach 1; Sv_Screen (sample_screen 5000 false); Sv_Requests None false; Sv_ScrollTo 1998]%N scrollback_default in
  sc_focus s = 2000%N ∧ sc_rows s = 2%N ∧
  map request_range (scrollback_requests None false s).2 = [(1500, 2000); (2000, 2500); (2500, 2502)]%N.
Proof. vm_compute. by repeat split. Qed.
End Sample.
