(* ===== verification/HistoryTracker.v ===== *)
(** * Positions of history rows

    [src/terminal/emulator/history.rs]: the server's count of the rows that entered history, and the
    pages it reads for a client. What the terminal engine answers is an argument; that a tracked
    row is found where it is, under the rows that were above it, is a hypothesis of the runs. *)
From Stdlib Require Import Lia.
From S2P Require Import Prelude.
From S2P Require Import Screen.
From S2P Require Import Scrollback.

(** The engine's answers to one measurement; [None] is a failed call. The point is that of the
    tracked row, which the engine may have lost. *)
Record EngineAnswers := {
  ea_alternate : option bool; ea_retained : option N; ea_columns : option N; ea_rows : option N; ea_point : option (option N);
  ea_tracked : bool
}.
(** The anchor is the position of the row it tracks. *)
Record HistoryTracker := { ht_current : History; ht_columns : N; ht_rows : N; ht_anchor : option N }.
Definition tracker_default : HistoryTracker :=
  {| ht_current := {| hi_epoch := 1; hi_oldest := 0; hi_total := 0 |}; ht_columns := 0; ht_rows := 0; ht_anchor := None |}.

(** Whether a measurement keeps the epoch: the anchor is set, the width is the same, and no row came
    back from history. *)
Definition keeps_anchor (t : HistoryTracker) (retained columns rows : N) : option N :=
  let pulled_down := (ht_rows t <? rows)%N && (retained <? hi_total (ht_current t) - hi_oldest (ht_current t))%N in
  position ← ht_anchor t;
  if (columns =? ht_columns t)%N && negb pulled_down then Some position else None.
(** The oldest position by the anchor; the outer [None] is a failed call. *)
Definition anchored (t : HistoryTracker) (retained columns rows : N) (point : option (option N)) : option (option N) :=
  match keeps_anchor t retained columns rows with
  | None => Some None
  | Some position => (λ found : option N, y ← found; if (y <=? position)%N then Some (position - y)%N else None) <$> point
  end.
(** [update]. *)
Definition history_update (t : HistoryTracker) (a : EngineAnswers) : HistoryTracker * option History :=
  match ea_alternate a with
  | None => (t, None)
  | Some true => (t, Some (ht_current t))
  | Some false =>
      match ea_retained a, ea_columns a, ea_rows a with
      | Some retained, Some columns, Some rows =>
          match anchored t retained columns rows (ea_point a) with
          | None => ({| ht_current := ht_current t; ht_columns := ht_columns t; ht_rows := rows; ht_anchor := ht_anchor t |}, None)
          | Some found =>
              let epoch := hi_epoch (ht_current t) in
              let '(epoch, columns, oldest) :=
                match found with
                | Some oldest => (epoch, ht_columns t, oldest)
                | None => (if bool_decide (is_Some (ht_anchor t)) then (epoch + 1)%N else epoch, columns, 0%N)
                end in
              let total := (oldest + retained)%N in
              let current := {| hi_epoch := epoch; hi_oldest := oldest; hi_total := total |} in
              if ea_tracked a
              then ({| ht_current := current; ht_columns := columns; ht_rows := rows; ht_anchor := Some total |}, Some current)
              else ({| ht_current := current; ht_columns := columns; ht_rows := rows; ht_anchor := ht_anchor t |}, None)
          end
      | _, _, _ => (t, None)
      end
  end.

(** [semantic_origin]: the epoch and the position of the first line of a semantic capture. *)
Definition semantic_origin (t : HistoryTracker) (a : EngineAnswers) : HistoryTracker * option (N * N) :=
  let '(t, measured) := history_update t a in
  (t, history ← measured; alternate ← ea_alternate a;
      Some (hi_epoch history, if alternate : bool then hi_total history else hi_oldest history)).

Section pages.
Context {Row : Type}.

(** [scrollback_page] with the engine's rows by their place; the outer [None] is a failed call. *)
Definition scrollback_page (t : HistoryTracker) (a : EngineAnswers) (columns : option N) (history_row : N → option Row) (epoch start rows : N)
    : HistoryTracker * option (option (N * N * list Row)) :=
  match ea_alternate a with
  | None => (t, None)
  | Some true => (t, Some None)
  | Some false =>
      let '(t, measured) := history_update t a in
      match measured with
      | None => (t, None)
      | Some history =>
          if negb (hi_epoch history =? epoch)%N then (t, Some None)
          else
            let first := N.max start (hi_oldest history) in
            let end_ := N.max (N.min (u64_saturating_add start rows) (hi_total history)) first in
            (t, _ ← columns;
                read ← mapM (λ i, history_row (N.min (first + N.of_nat i - hi_oldest history) (u32_max))) (seq 0 (N.to_nat (end_ - first)));
                Some (Some (epoch, first, read)))
      end
  end.

(** ** Runs *)

(** What is taken from the engine: its calls answer, it tracks a row where it is, and while a
    measurement keeps the anchor, the rows above the tracked row are the newest of those that were
    history before. The history hidden by the alternate screen stays. *)
Record answers_ok (t : HistoryTracker) (lines : list Row) (a : EngineAnswers) (lines' : list Row) : Prop := {
  ao_retained : ea_retained a = Some (N.of_nat (length lines'));
  ao_calls : is_Some (ea_alternate a) ∧ is_Some (ea_columns a) ∧ is_Some (ea_rows a) ∧ is_Some (ea_point a) ∧ ea_tracked a = true;
  ao_alternate : ea_alternate a = Some true → lines' = lines;
  ao_above : ∀ columns rows position y, ea_alternate a = Some false → ea_columns a = Some columns → ea_rows a = Some rows →
    keeps_anchor t (N.of_nat (length lines')) columns rows = Some position → ea_point a = Some (Some y) → (y <= position)%N →
    N.to_nat y ≤ length lines' ∧ take (N.to_nat y) lines' `suffix_of` lines
}.

(** The tracker, the rows of history the engine holds, and the pages read so far. *)
Inductive history_run : HistoryTracker → list Row → list (option (N * N * list Row)) → Prop :=
  | hr_start : history_run tracker_default [] []
  | hr_measure t lines pages a lines' :
      history_run t lines pages → answers_ok t lines a lines' → history_run (history_update t a).1 lines' pages
  | hr_page t lines pages a lines' columns epoch start rows t' page :
      history_run t lines pages → answers_ok t lines a lines' → (N.of_nat (length lines') <= u32_max)%N →
      scrollback_page t a columns (λ y, lines' !! N.to_nat y) epoch start rows = (t', Some page) →
      history_run t' lines' (pages ++ [page]).

(** A page within the positions that were named so far. *)
Definition page_named (h : History) (page : option (N * N * list Row)) : Prop :=
  match page with
  | Some (epoch, start, rows) => rows ≠ [] → (epoch <= hi_epoch h ∧ (epoch = hi_epoch h → start + N.of_nat (length rows) <= hi_total h))%N
  | None => True
  end.
Record names_hold (row : N → N → Row) (t : HistoryTracker) (lines : list Row) (pages : list (option (N * N * list Row))) : Prop := {
  nm_pages : Forall (page_true row) pages;
  nm_bounds : Forall (page_named (ht_current t)) pages;
  nm_lines : ∀ i x, lines !! i = Some x → x = row (hi_epoch (ht_current t)) (hi_oldest (ht_current t) + N.of_nat i)%N;
  nm_total : hi_total (ht_current t) = (hi_oldest (ht_current t) + N.of_nat (length lines))%N;
  nm_anchor : match ht_anchor t with
              | Some position => position = hi_total (ht_current t)
              | None => Forall (page_named {| hi_epoch := 0; hi_oldest := 0; hi_total := 0 |}) pages
              end
}.

(** Naming the positions from one on by the rows there. *)
Definition name_from (epoch from : N) (oldest : N) (lines : list Row) (row : N → N → Row) : N → N → Row :=
  λ e p, if (e =? epoch)%N && (from <=? p)%N then default (row e p) (lines !! N.to_nat (p - oldest)) else row e p.

Lemma page_renamed row row' h page : page_named h page → page_true row page →
  (∀ e p, (e < hi_epoch h ∨ (e = hi_epoch h ∧ p < hi_total h))%N → row' e p = row e p) → page_true row' page.
Proof.
  destruct page as [[[epoch start] rows]|]; [|done]. intros Hn Ht Hsame i x Hi. rw (Ht i x Hi). symmetry. apply Hsame.
  assert (rows ≠ []) as Hne by (intros ->; done). apply lookup_lt_Some in Hi. destruct (Hn Hne) as [H1 H2]. lia.
Qed.
Lemma page_named_mono h h' page : (hi_epoch h < hi_epoch h' ∨ (hi_epoch h = hi_epoch h' ∧ hi_total h <= hi_total h'))%N →
  page_named h page → page_named h' page.
Proof. destruct page as [[[epoch start] rows]|]; [|done]. intros H Hn Hne. destruct (Hn Hne) as [H1 H2]. lia. Qed.

(** Positions from one on get their names when the rows below it have theirs. *)
Lemma extend_named row epoch oldest from columns rows lines' pages : Forall (page_true row) pages →
  Forall (page_named {| hi_epoch := epoch; hi_oldest := oldest; hi_total := from |}) pages →
  (∀ i x, lines' !! i = Some x → (oldest + N.of_nat i < from)%N → x = row epoch (oldest + N.of_nat i)%N) →
  (from <= oldest + N.of_nat (length lines'))%N →
  let total := (oldest + N.of_nat (length lines'))%N in
  ∃ row', names_hold row'
    {| ht_current := {| hi_epoch := epoch; hi_oldest := oldest; hi_total := total |}; ht_columns := columns; ht_rows := rows; ht_anchor := Some total |}
    lines' pages.
Proof.
  intros Ht Hn Hl Hfrom. cbn zeta. exists (name_from epoch from oldest lines' row). split; cbn [ht_current ht_anchor hi_oldest hi_total hi_epoch]; [| | |done|done].
  - apply Forall_forall. intros page Hin. eapply page_renamed; [by eapply (proj1 (Forall_forall _ _))|by eapply (proj1 (Forall_forall _ _))|].
    cbn [hi_epoch hi_total]. intros e p Hp. unfold name_from. destruct (N.eqb_spec e epoch), (N.leb_spec from p); try done. lia.
  - eapply Forall_impl; [exact Hn|]. intros page. apply page_named_mono. cbn. lia.
  - intros i x Hi. unfold name_from. rw N.eqb_refl. destruct (N.leb_spec from (oldest + N.of_nat i)) as [|Hlt]; cbn [andb]; [|by apply Hl].
    replace (N.to_nat (oldest + N.of_nat i - oldest)) with i by lia. by rw Hi.
Qed.

(** Where a measurement puts the positions: an epoch that goes on keeps the names of its positions. *)
Lemma measure_named row t lines a lines' pages : names_hold row t lines pages → answers_ok t lines a lines' →
  ∃ row', names_hold row' (history_update t a).1 lines' pages ∧ (history_update t a).2 = Some (ht_current (history_update t a).1) ∧
    (ea_alternate a = Some false → is_Some (ht_anchor (history_update t a).1)).
Proof.
  intros H [Hret (Ha & Hc & Hr & Hp & Htr) Halt Habove]. unfold history_update. destruct Ha as [[] Ea]; rw Ea.
  { exists row. split; [|done]. by rw (Halt Ea). }
  destruct Hc as [columns Ec], Hr as [rows Er], Hp as [point Ep]. rw Hret Ec Er Ep Htr.
  specialize (λ position y, Habove columns rows position y Ea Ec Er). rw Ep in Habove. destruct H as [H1 H2 H3 H4 H5]. unfold anchored.
  set (kept := keeps_anchor t _ columns rows) in *.
  assert (∀ position, kept = Some position → ht_anchor t = Some position) as Hkept.
  { intros position Hk. unfold kept, keeps_anchor in Hk. destruct (ht_anchor t) as [q|]; [|done]. cbn in Hk. destruct (_ && _); [|done]. by simplify_eq. }
  destruct (match kept with Some _ => _ | None => _ end) as [[oldest|]|] eqn:Ef; cbn [fst snd].
  - destruct kept as [position|]; [|done]. cbn in Ef. destruct point as [y|]; [|done]. cbn in Ef. destruct (N.leb_spec y position) as [Hy|]; [|done].
    injection Ef as <-. destruct (Habove position y eq_refl eq_refl Hy) as [Hle [pre Hsuf]]. rw (Hkept _ eq_refl) in H5. subst position.
    apply (f_equal length) in Hsuf as Hlen. rw length_app length_take_le // in Hlen.
    edestruct (extend_named row (hi_epoch (ht_current t)) (hi_total (ht_current t) - y) (hi_total (ht_current t)) (ht_columns t) rows lines' pages) as [row' Hn];
      [done|..|by exists row'].
    + eapply Forall_impl; [exact H2|]. intros page. apply page_named_mono. cbn. lia.
    + intros i x Hi Hlt. assert (lines !! (length pre + i) = Some x) as Hx.
      { rw Hsuf lookup_app_r; [lia|]. replace (length pre + i - length pre) with i by lia. rw lookup_take_lt //. lia. }
      rw (H3 _ _ Hx). f_equal. lia.
    + lia.
  - edestruct (extend_named row (if bool_decide (is_Some (ht_anchor t)) then (hi_epoch (ht_current t) + 1)%N else hi_epoch (ht_current t)) 0 0 columns rows lines' pages)
      as [row' Hn]; [done| |intros; lia|lia|by exists row'].
    destruct (ht_anchor t) as [q|]; cbn.
    + eapply Forall_impl; [exact H2|]. intros page. apply page_named_mono. cbn. lia.
    + eapply Forall_impl; [exact H5|]. intros page. apply page_named_mono. cbn. lia.
  - exfalso. destruct kept; [|done]. by destruct point.
Qed.

Context (blank : Row).
Lemma start_named : names_hold (λ _ _, blank) tracker_default [] [].
Proof. split; cbn; try done; constructor. Qed.
Lemma read_named row t lines pages page : names_hold row t lines pages → page_true row page → page_named (ht_current t) page →
  (page = None ∨ is_Some (ht_anchor t)) → names_hold row t lines (pages ++ [page]).
Proof.
  intros [] Ht Hn Ha. split; try done; [by apply Forall_app; repeat constructor..|]. destruct (ht_anchor t); [done|].
  destruct Ha as [->|[? ?]]; [|done]. apply Forall_app. by repeat constructor.
Qed.

Lemma run_named t lines pages : history_run t lines pages → ∃ row, names_hold row t lines pages.
Proof.
  induction 1 as [|t lines pages a lines' _ [row H] Ha|t lines pages a lines' columns epoch start rows t' page _ [row H] Ha Hlen Hpage].
  - exists (λ _ _, blank). apply start_named.
  - destruct (measure_named row t lines a lines' pages H Ha) as (row' & H' & _). by exists row'.
  - destruct (measure_named row t lines a lines' pages H Ha) as (row' & H' & Em & Han). exists row'. unfold scrollback_page in Hpage.
    destruct (ea_alternate a) as [[]|] eqn:Ea; [|clear Ea|done].
    { unfold history_update in H'. rw Ea in H'. injection Hpage as <- <-. apply read_named; [done..|by left]. }
    specialize (Han eq_refl). destruct (history_update t a) as [t1 measured]. cbn [fst snd] in *. subst measured.
    destruct (N.eqb_spec (hi_epoch (ht_current t1)) epoch) as [<-|]; cbn [negb] in Hpage; [|injection Hpage as <- <-; apply read_named; [done..|by left]].
    set (h := ht_current t1) in *. set (first := N.max start (hi_oldest h)) in *. set (end_ := N.max _ first) in *.
    injection Hpage as <- Hread. destruct columns as [columns|]; [|done]. cbn [mbind option_bind] in Hread.
    destruct (mapM _ _) as [read|] eqn:Er; [|done]. cbn in Hread. injection Hread as <-. apply mapM_Some in Er.
    pose proof (Forall2_length _ _ _ Er) as Hl. rw length_seq in Hl. pose proof (nm_total row' t1 lines' pages H') as Htot. fold h in Htot.
    apply read_named; [done| | |by right].
    + intros i x Hx. destruct (Forall2_lookup_r _ _ _ _ _ Er Hx) as (j & [-> Hi]%lookup_seq & Hj). cbn in Hj. fold h in Hj.
      apply lookup_lt_Some in Hj as Hlt.
      assert (N.to_nat (N.min (first + N.of_nat i - hi_oldest h) u32_max) = N.to_nat (first + N.of_nat i - hi_oldest h)) as En by lia.
      rw En in Hj. rw (nm_lines row' t1 lines' pages H' _ _ Hj). fold h. f_equal. lia.
    + intros Hne. fold h. split; [lia|]. intros _. destruct read as [|x read]; [done|]. cbn [length] in Hl |- *. unfold end_ in Hl. lia.
Qed.
End pages.

(** ** Properties *)


(** ** A sample *)

Module Sample.
Definition engine_answers (retained point : N) (columns : N) : EngineAnswers :=
  {| ea_alternate := Some false; ea_retained := Some retained; ea_columns := Some columns; ea_rows := Some 2%N; ea_point := Some (Some point);
     ea_tracked := true |}.
(** Two rows of history, then a third and fourth while the oldest is discarded, then a rewrap. *)
Definition lines1 : list N := [10; 11]%N.
Definition lines2 : list N := [11; 12; 13]%N.
Definition read_from (t : HistoryTracker) (a : EngineAnswers) (lines : list N) (epoch start rows : N) :=
  scrollback_page t a (Some 80%N) (λ y, lines !! N.to_nat y) epoch start rows.
Definition tracker1 : HistoryTracker := (read_from tracker_default (engine_answers 2 2 80) lines1 1 0 500).1.
Definition tracker2 : HistoryTracker := (read_from tracker1 (engine_answers 3 1 80) lines2 1 0 500).1.

End Sample.
