(* ===== verification/Keybindings.v ===== *)
(** * Keybindings

    [src/keybindings.rs] and [keybindings/]: the Shortcuts a person may give to Commands, how one is
    written and read, which chords belong to the terminal or the desktop, how a profile's
    defaults and the retained overrides resolve to one owner of each chord, what an assignment and a
    reset change, and how the framework's list of bindings follows ([Runtime]); with the profiles of
    [desktop_profile/default_keymap.rs] and [platform/linux_default_keymap.rs]. A keyboard layout comes
    from the host; [HashMap]s that are only looked up are maps, and one that is iterated is a list
    in the order of that iteration. The framework's dispatch of a key, the application menu and the
    bindings' context predicates, kept as their names, are not modelled. *)
From stdpp Require Import gmap strings.
From S2P Require Import Prelude.
From S2P Require Import Text.
From S2P Require Import Bytes.

(** ** Commands *)

Inductive Command :=
  | ChooseWorkspace | NewWorkspace | OpenLocalDirectory | NewWorktree | NextWorktree | PreviousWorktree | KillWorkspace
  | ActivateWorkspace1 | ActivateWorkspace2 | ActivateWorkspace3 | ActivateWorkspace4 | ActivateWorkspace5
  | ActivateWorkspace6 | ActivateWorkspace7 | ActivateWorkspace8 | ActivateWorkspace9 | NewTab | CloseTab | ActivateTab1
  | ActivateTab2 | ActivateTab3 | ActivateTab4 | ActivateTab5 | ActivateTab6 | ActivateTab7 | ActivateTab8 | ActivateTab9
  | NextTab | PreviousTab | MoveTabRight | MoveTabLeft | ClosePane | SplitRight | SplitDown | FocusPaneLeft | FocusPaneRight
  | FocusPaneUp | FocusPaneDown | FocusPreviousPane | FocusNextPane | TogglePaneZoom | ShowRepositoryStatus
  | OpenTerminalFind | FindNext | FindPrevious | ClearTerminalScreenAndScrollback | ScrollPageUp | ScrollPageDown
  | ScrollToTop | ScrollToBottom | IncreaseTerminalFontSize | DecreaseTerminalFontSize | ResetTerminalFontSize
  | ToggleSidebar | ToggleSidebarFocus | KeyboardShortcuts | About.

(** [Command::ALL], in the order of [Ord]. *)
Definition all_commands : list Command :=
  [ChooseWorkspace; NewWorkspace; OpenLocalDirectory; NewWorktree; NextWorktree; PreviousWorktree; KillWorkspace;
   ActivateWorkspace1; ActivateWorkspace2; ActivateWorkspace3; ActivateWorkspace4; ActivateWorkspace5; ActivateWorkspace6;
   ActivateWorkspace7; ActivateWorkspace8; ActivateWorkspace9; NewTab; CloseTab; ActivateTab1; ActivateTab2; ActivateTab3;
   ActivateTab4; ActivateTab5; ActivateTab6; ActivateTab7; ActivateTab8; ActivateTab9; NextTab; PreviousTab; MoveTabRight;
   MoveTabLeft; ClosePane; SplitRight; SplitDown; FocusPaneLeft; FocusPaneRight; FocusPaneUp; FocusPaneDown;
   FocusPreviousPane; FocusNextPane; TogglePaneZoom; ShowRepositoryStatus; OpenTerminalFind; FindNext; FindPrevious;
   ClearTerminalScreenAndScrollback; ScrollPageUp; ScrollPageDown; ScrollToTop; ScrollToBottom; IncreaseTerminalFontSize;
   DecreaseTerminalFontSize; ResetTerminalFontSize; ToggleSidebar; ToggleSidebarFocus; KeyboardShortcuts; About].

(** [id] and [from_id]. *)
Definition command_id (c : Command) : string :=
  match c with
  | ChooseWorkspace => "choose_workspace" | NewWorkspace => "new_workspace" | OpenLocalDirectory => "open_local_directory"
  | NewWorktree => "new_worktree" | NextWorktree => "next_worktree" | PreviousWorktree => "previous_worktree"
  | KillWorkspace => "kill_workspace" | ActivateWorkspace1 => "activate_workspace1"
  | ActivateWorkspace2 => "activate_workspace2" | ActivateWorkspace3 => "activate_workspace3"
  | ActivateWorkspace4 => "activate_workspace4" | ActivateWorkspace5 => "activate_workspace5"
  | ActivateWorkspace6 => "activate_workspace6" | ActivateWorkspace7 => "activate_workspace7"
  | ActivateWorkspace8 => "activate_workspace8" | ActivateWorkspace9 => "activate_workspace9" | NewTab => "new_tab"
  | CloseTab => "close_tab" | ActivateTab1 => "activate_tab1" | ActivateTab2 => "activate_tab2"
  | ActivateTab3 => "activate_tab3" | ActivateTab4 => "activate_tab4" | ActivateTab5 => "activate_tab5"
  | ActivateTab6 => "activate_tab6" | ActivateTab7 => "activate_tab7" | ActivateTab8 => "activate_tab8"
  | ActivateTab9 => "activate_tab9" | NextTab => "next_tab" | PreviousTab => "previous_tab"
  | MoveTabRight => "move_tab_right" | MoveTabLeft => "move_tab_left" | ClosePane => "close_pane"
  | SplitRight => "split_right" | SplitDown => "split_down" | FocusPaneLeft => "focus_pane_left"
  | FocusPaneRight => "focus_pane_right" | FocusPaneUp => "focus_pane_up" | FocusPaneDown => "focus_pane_down"
  | FocusPreviousPane => "focus_previous_pane" | FocusNextPane => "focus_next_pane" | TogglePaneZoom => "toggle_pane_zoom"
  | ShowRepositoryStatus => "show_repository_status" | OpenTerminalFind => "open_terminal_find" | FindNext => "find_next"
  | FindPrevious => "find_previous" | ClearTerminalScreenAndScrollback => "clear_terminal_screen_and_scrollback"
  | ScrollPageUp => "scroll_page_up" | ScrollPageDown => "scroll_page_down" | ScrollToTop => "scroll_to_top"
  | ScrollToBottom => "scroll_to_bottom" | IncreaseTerminalFontSize => "increase_terminal_font_size"
  | DecreaseTerminalFontSize => "decrease_terminal_font_size" | ResetTerminalFontSize => "reset_terminal_font_size"
  | ToggleSidebar => "toggle_sidebar" | ToggleSidebarFocus => "toggle_sidebar_focus"
  | KeyboardShortcuts => "keyboard_shortcuts" | About => "about"
  end%string.
Definition command_from_id (id : string) : option Command := List.find (λ c, bool_decide (command_id c = id)) all_commands.

Lemma command_id_read c : command_from_id (command_id c) = Some c.
Proof. by destruct c. Qed.
#[export] Instance command_id_inj : Inj (=) (=) command_id.
Proof. intros a b E. apply (f_equal command_from_id) in E. rw !command_id_read in E. congruence. Qed.
#[export] Instance Command_eq_dec : EqDecision Command.
Proof. intros a b. destruct (decide (command_id a = command_id b)) as [E|E]; [left; by apply command_id_inj|right; congruence]. Defined.
#[export] Program Instance Command_countable : Countable Command := inj_countable command_id command_from_id command_id_read.
Lemma all_commands_complete c : c ∈ all_commands.
Proof. destruct c; repeat (by left) || right. Qed.

(** ** Shortcuts *)

(** [gpui::Modifiers]. *)
Record Modifiers := { md_control : bool; md_alt : bool; md_shift : bool; md_platform : bool; md_function : bool }.
#[export] Instance Modifiers_eq_dec : EqDecision Modifiers.
Proof. solve_decision. Defined.
Definition no_modifiers : Modifiers := {| md_control := false; md_alt := false; md_shift := false; md_platform := false; md_function := false |}.
Record Shortcut := { ks_modifiers : Modifiers; ks_key : ustring }.
#[export] Instance Shortcut_eq_dec : EqDecision Shortcut.
Proof. solve_decision. Defined.
#[export] Program Instance Shortcut_countable : Countable Shortcut :=
  inj_countable' (λ s, let m := ks_modifiers s in ((md_control m, md_alt m, md_shift m, md_platform m, md_function m), ks_key s))
    (λ '((c, a, s, p, f), k), {| ks_modifiers := {| md_control := c; md_alt := a; md_shift := s; md_platform := p; md_function := f |}; ks_key := k |}) _.
Next Obligation. by intros [[] ?]. Qed.

Inductive ShortcutRejection := Malformed | Chord | ModifierOnly | FunctionModifier | UnsupportedKey.

(** A key of one character that prints. *)
Definition printable_key (key : ustring) : bool := (length key =? 1) && vall (λ c, negb (is_control c) && negb (is_whitespace c)) key.
Definition key_among (names : list string) (key : ustring) : bool := vany (λ name, bool_decide (key = lit name)) names.
Definition modifier_names : list string := ["ctrl"; "control"; "alt"; "shift"; "cmd"; "platform"]%string.
Definition named_keys : list string :=
  ["enter"; "space"; "tab"; "escape"; "backspace"; "delete"; "insert"; "home"; "end"; "pageup"; "pagedown"; "left"; "right"; "up"; "down";
   "f1"; "f2"; "f3"; "f4"; "f5"; "f6"; "f7"; "f8"; "f9"; "f10"; "f11"; "f12"; "f13"; "f14"; "f15"; "f16"; "f17"; "f18"; "f19"; "f20"]%string.

(** [from_parts] and [from_keystroke]. *)
Definition from_parts (m : Modifiers) (key : ustring) : result Shortcut ShortcutRejection :=
  if md_function m || key_among ["fn"; "function"]%string key then Err FunctionModifier
  else if key_among modifier_names key then Err ModifierOnly
  else if is_empty key then Err Malformed
  else if negb (printable_key key) && negb (key_among named_keys key) then Err UnsupportedKey
  else Ok {| ks_modifiers := m; ks_key := key |}.
Definition from_keystroke (m : Modifiers) (key : ustring) : result Shortcut ShortcutRejection := from_parts m (map to_ascii_lowercase key).

(** The pieces of [split_whitespace]. *)
Fixpoint count_words (in_word : bool) (s : ustring) : nat :=
  match s with
  | [] => 0
  | c :: s => if is_whitespace c then count_words false s else (if in_word then 0 else 1) + count_words true s
  end.

(** The loop over modifiers; each round drops at least the dash. *)
Fixpoint parse_modifiers (fuel : nat) (key : ustring) (m : Modifiers) : result (Modifiers * ustring) ShortcutRejection :=
  match split_once (lit "-") key, fuel with
  | Some (modifier, rest), S fuel =>
      if bool_decide (modifier = lit "ctrl")
      then parse_modifiers fuel rest {| md_control := true; md_alt := md_alt m; md_shift := md_shift m; md_platform := md_platform m; md_function := md_function m |}
      else if bool_decide (modifier = lit "alt")
      then parse_modifiers fuel rest {| md_control := md_control m; md_alt := true; md_shift := md_shift m; md_platform := md_platform m; md_function := md_function m |}
      else if bool_decide (modifier = lit "shift")
      then parse_modifiers fuel rest {| md_control := md_control m; md_alt := md_alt m; md_shift := true; md_platform := md_platform m; md_function := md_function m |}
      else if bool_decide (modifier = lit "cmd")
      then parse_modifiers fuel rest {| md_control := md_control m; md_alt := md_alt m; md_shift := md_shift m; md_platform := true; md_function := md_function m |}
      else if bool_decide (modifier = lit "fn") then Err FunctionModifier
      else if bool_decide (key = lit "-") then Ok (m, key)
      else Err Malformed
  | _, _ => Ok (m, key)
  end.
(** [parse]. *)
Definition parse_shortcut (source : ustring) : result Shortcut ShortcutRejection :=
  if 1 <? count_words false source then Err Chord
  else if is_empty source || vany is_whitespace source then Err Malformed
  else
    let source := map to_ascii_lowercase source in
    let? parsed := parse_modifiers (length source) source no_modifiers in from_parts parsed.1 parsed.2.
(** [Display]. *)
Definition display_shortcut (s : Shortcut) : ustring :=
  let m := ks_modifiers s in
  (if md_control m then lit "ctrl-" else []) ++ (if md_alt m then lit "alt-" else []) ++ (if md_shift m then lit "shift-" else [])
  ++ (if md_platform m then lit "cmd-" else []) ++ ks_key s.

(** ** Keyboard layouts *)

(** [shifted], without and with Command. *)
Record KeyboardLayout := { kl_plain : gmap ustring ustring; kl_command : gmap ustring ustring }.
#[export] Instance KeyboardLayout_eq_dec : EqDecision KeyboardLayout.
Proof. solve_decision. Defined.
Definition layout_table (l : KeyboardLayout) (command : bool) : gmap ustring ustring := if command then kl_command l else kl_plain l.
Definition is_ascii_alphabetic (c : char) : bool := in_range 65 90 c || in_range 97 122 c.
(** [insert]: the first entry of a key stays. *)
Definition layout_insert (command : bool) (base shifted : ustring) (l : KeyboardLayout) : KeyboardLayout :=
  if printable_key base && printable_key shifted && negb (vall is_ascii_alphabetic base) then
    let table := layout_table l command in
    let table := match table !! base with Some _ => table | None => <[base := shifted]> table end in
    if command then {| kl_plain := kl_plain l; kl_command := table |} else {| kl_plain := table; kl_command := kl_command l |}
  else l.
(** [us_english]. *)
Definition us_english : KeyboardLayout :=
  foldl (λ l '(base, shifted), layout_insert true [base] [shifted] (layout_insert false [base] [shifted] l))
    {| kl_plain := ∅; kl_command := ∅ |}
    (zip (lit "`1234567890-=[]\;',./") (lit "~!@#$%^&*()_+{}|:" ++ [34%N] ++ lit "<>?")).
(** [shifted]: what Shift makes of a key, or the key if Shift made it. *)
Definition layout_values (table : gmap ustring ustring) : list ustring := map snd (map_to_list table).
Definition layout_shifted (l : KeyboardLayout) (command : bool) (key : ustring) : option ustring :=
  match layout_table l command !! key with
  | Some shifted => Some shifted
  | None => if vany (λ value, bool_decide (value = key)) (layout_values (layout_table l command)) then Some key else None
  end.
(** [is_shifted_symbol], with [unshifted]. *)
Definition is_shifted_symbol (l : KeyboardLayout) (command : bool) (key : ustring) : bool :=
  negb (bool_decide (is_Some (layout_table l command !! key)))
  && vany (λ entry, bool_decide (entry.2 = key) && negb (bool_decide (entry.1 = key))) (map_to_list (layout_table l command)).

(** [Shortcut::resolve]. *)
Definition resolve_shortcut (l : KeyboardLayout) (s : Shortcut) : Shortcut :=
  let m := ks_modifiers s in
  if md_shift m then
    match layout_shifted l (md_platform m) (ks_key s) with
    | Some key =>
        {| ks_modifiers := {| md_control := md_control m; md_alt := md_alt m; md_shift := false; md_platform := md_platform m; md_function := md_function m |};
           ks_key := key |}
    | None => s
    end
  else s.

(** ** Chords of the terminal and the desktop *)

Inductive TerminalConvention := TextInput | ControlCharacter | Meta | ControlNavigation.
Inductive SystemReservation :=
  | Reserved_Copy | Reserved_Paste | Reserved_PasteSelection | Reserved_Cut | Reserved_Undo | Reserved_Redo
  | Reserved_SelectAll | Reserved_Quit | Reserved_Hide | Reserved_HideOthers | Reserved_Minimize | Reserved_MinimizeAll
  | Reserved_FullScreen | Reserved_AppSwitcher | Reserved_WindowCycling | Reserved_Spotlight | Reserved_CharacterViewer
  | Reserved_ForceQuit | Reserved_LockScreen | Reserved_LogOut | Reserved_Screenshot | Reserved_Help | Reserved_Settings
  | Reserved_CommandPalette | Reserved_KeyboardNavigation | Reserved_DockHiding | Reserved_Zoom | Reserved_InvertColors
  | Reserved_Contrast | Reserved_VoiceOver | Reserved_AccessibilityShortcuts | Reserved_DesktopShortcut
  | Reserved_MoveWindowToWorkspace | Reserved_ScreenRecording | Reserved_InputMethod | Reserved_Restart | Reserved_ShutDown
  | Reserved_DeveloperWorkbench | Reserved_AppearancePreview.
Inductive Reservation := Reservation_Terminal (convention : TerminalConvention) | Reservation_System (reason : SystemReservation).
Inductive TerminalConventions := CommandShortcuts | ControlShiftShortcuts.

(** A key of one ASCII letter or digit. *)
Definition is_letter_key (key : ustring) : bool := (str_len key =? 1) && vall is_ascii_alphabetic key.
Definition is_digit_key (key : ustring) : bool := (str_len key =? 1) && vall is_ascii_digit key.
Definition is_function_key (key : ustring) : bool :=
  match strip_prefix (lit "f") key with Some number => negb (is_empty number) && vall is_ascii_digit number | None => false end.
Definition is_navigation_key (key : ustring) : bool :=
  key_among ["left"; "right"; "up"; "down"; "home"; "end"; "pageup"; "pagedown"; "backspace"; "delete"]%string key
  || (starts_with (lit "f") key && (1 <? str_len key)).

Definition command_shortcut_reservation (s : Shortcut) : option TerminalConvention :=
  let m := ks_modifiers s in
  let key := ks_key s in
  if md_platform m then None
  else if md_alt m then Some Meta
  else if negb (md_control m) then Some TextInput
  else if is_letter_key key || key_among ["@"; "["; "{"; "\"; "|"; "]"; "}"; "^"; "_"; "/"; "?"; "space"]%string key then Some ControlCharacter
  else if is_navigation_key key then Some ControlNavigation
  else None.

Definition is_control_shift_extension (m : Modifiers) (key : ustring) : bool :=
  if md_platform m then false
  else
    let plain_control := md_control m && negb (md_alt m) && negb (md_shift m) in
    let control_application_key :=
      plain_control && (key_among ["="; "+"; "-"; "0"; ","; "pageup"; "pagedown"; "tab"]%string key || is_function_key key) in
    let control_insert := plain_control && bool_decide (key = lit "insert") in
    let alt_digit := md_alt m && negb (md_shift m) && is_digit_key key in
    let shift_navigation := md_shift m && negb (md_control m) && negb (md_alt m)
                            && key_among ["insert"; "pageup"; "pagedown"; "home"; "end"]%string key in
    let function_key := negb (md_control m) && negb (md_alt m) && is_function_key key in
    control_application_key || control_insert || alt_digit || shift_navigation || function_key.

Definition control_shift_reservation (s : Shortcut) (l : KeyboardLayout) : option Reservation :=
  let m := ks_modifiers s in
  let key := ks_key s in
  if md_platform m then Some (Reservation_System Reserved_DesktopShortcut)
  else
    let shifted := md_shift m || is_shifted_symbol l false key in
    if (md_control m && shifted) || is_control_shift_extension m key then None
    else Some (Reservation_Terminal
                 (if negb (md_control m) && negb (md_alt m) then TextInput
                  else if negb (md_control m) then Meta
                  else if (1 <? length key) && negb (bool_decide (key = lit "space")) then ControlNavigation
                  else ControlCharacter)).

(** [TerminalConventions::reservation]. *)
Definition convention_reservation (conventions : TerminalConventions) (s : Shortcut) (l : KeyboardLayout) : option Reservation :=
  match conventions with
  | CommandShortcuts =>
      Reservation_Terminal <$>
        match command_shortcut_reservation s with Some c => Some c | None => command_shortcut_reservation (resolve_shortcut l s) end
  | ControlShiftShortcuts => control_shift_reservation s l
  end.

(** [universal_reservation] and [is_presentable]. *)
Definition universal_reservation (s : Shortcut) : option TerminalConvention :=
  let m := ks_modifiers s in
  let key := ks_key s in
  let layout_free := negb (md_control m) || (negb (md_shift m) && (is_letter_key key || bool_decide (key = lit "space") || is_navigation_key key)) in
  if md_platform m || negb layout_free || is_control_shift_extension m key then None else command_shortcut_reservation s.
Definition is_presentable (s : Shortcut) : bool := negb (bool_decide (is_Some (universal_reservation s))).

(** ** Profiles *)

(** [KeybindingPreferences]: an override, or [None] for a Command left unassigned. *)
Definition KeybindingPreferences : Type := gmap Command (option Shortcut).
(** [iter]: in the order of the Commands. *)
Definition preferences_iter (prefs : KeybindingPreferences) : list (Command * option Shortcut) :=
  omap (λ c, pair c <$> prefs !! c) all_commands.
(** [validate]. *)
Fixpoint no_duplicates (seen : list Shortcut) (l : list Shortcut) : bool :=
  match l with [] => true | s :: l => negb (bool_decide (s ∈ seen)) && no_duplicates (s :: seen) l end.
Definition preferences_validate (prefs : KeybindingPreferences) : bool := no_duplicates [] (omap snd (preferences_iter prefs)).

Record KeymapProfile := {
  pf_layout : KeyboardLayout; pf_conventions : TerminalConventions; pf_defaults : gmap Command (list Shortcut);
  pf_reserved_sources : list (Shortcut * SystemReservation); pf_reserved : list (Shortcut * SystemReservation)
}.
Inductive KeymapProfileError :=
  | Profile_DuplicateCommand | Profile_InvalidDefault (rejection : ShortcutRejection) | Profile_TerminalReserved (convention : TerminalConvention)
  | Profile_DuplicateShortcut | Profile_SystemReserved (reason : SystemReservation) | Profile_DuplicateSystemReservation.

(** Reservations as the layout writes them; collecting keeps the last of those that fold. *)
Definition resolve_reserved (l : KeyboardLayout) (sources : list (Shortcut * SystemReservation)) : list (Shortcut * SystemReservation) :=
  map (λ entry, (resolve_shortcut l entry.1, entry.2)) sources.
Definition system_reservation (p : KeymapProfile) (s : Shortcut) : option SystemReservation :=
  snd <$> List.find (λ entry, bool_decide (entry.1 = s)) (rev (pf_reserved p)).

(** [check]. *)
Definition check_shortcut (p : KeymapProfile) (s : Shortcut) : result () Reservation :=
  let s := resolve_shortcut (pf_layout p) s in
  match convention_reservation (pf_conventions p) s (pf_layout p) with
  | Some reservation => Err reservation
  | None => match system_reservation p s with Some reason => Err (Reservation_System reason) | None => Ok () end
  end.
Definition check_ok (p : KeymapProfile) (s : Shortcut) : bool := match check_shortcut p s with Ok _ => true | Err _ => false end.

(** [new]. The shortcuts of one default, its primary first; a Command is listed once. *)
Fixpoint parse_defaults (reserved : list (Shortcut * SystemReservation)) (sources : list ustring) (seen : list Shortcut) (shortcuts : list Shortcut)
    : result (list Shortcut * list Shortcut) KeymapProfileError :=
  match sources with
  | [] => Ok (seen, shortcuts)
  | source :: sources =>
      match parse_shortcut source with
      | Err rejection => Err (Profile_InvalidDefault rejection)
      | Ok shortcut =>
          match List.find (λ entry, bool_decide (entry.1 = shortcut)) reserved with
          | Some (_, reason) => Err (Profile_SystemReserved reason)
          | None =>
              if bool_decide (shortcut ∈ seen) then Err Profile_DuplicateShortcut
              else parse_defaults reserved sources (shortcut :: seen) (shortcuts ++ [shortcut])
          end
      end
  end.
Fixpoint collect_defaults (reserved : list (Shortcut * SystemReservation)) (defaults : list (Command * list ustring)) (seen : list Shortcut)
    (parsed : gmap Command (list Shortcut)) : result (gmap Command (list Shortcut)) KeymapProfileError :=
  match defaults with
  | [] => Ok parsed
  | (command, sources) :: defaults =>
      if bool_decide (is_Some (parsed !! command)) then Err Profile_DuplicateCommand
      else
        let? collected := parse_defaults reserved sources seen [] in
        collect_defaults reserved defaults collected.1 (<[command := collected.2]> parsed)
  end.
Fixpoint unique_reserved (seen : list Shortcut) (reserved : list (Shortcut * SystemReservation)) : bool :=
  match reserved with [] => true | (s, _) :: reserved => negb (bool_decide (s ∈ seen)) && unique_reserved (s :: seen) reserved end.
(** The first default that may not be installed, in the order of the Commands. *)
Definition reserved_default (p : KeymapProfile) : option Reservation :=
  vfind_map (λ s, match check_shortcut p s with Err reservation => Some reservation | Ok _ => None end)
    (flat_map (λ c, default [] (pf_defaults p !! c)) all_commands).
Definition profile_new (conventions : TerminalConventions) (defaults : list (Command * list ustring)) (reserved : list (Shortcut * SystemReservation))
    : result KeymapProfile KeymapProfileError :=
  if negb (unique_reserved [] reserved) then Err Profile_DuplicateSystemReservation
  else
    let? parsed := collect_defaults reserved defaults [] ∅ in
    let p := {| pf_layout := us_english; pf_conventions := conventions; pf_defaults := parsed; pf_reserved_sources := reserved;
                pf_reserved := resolve_reserved us_english reserved |} in
    match reserved_default p with
    | Some (Reservation_Terminal convention) => Err (Profile_TerminalReserved convention)
    | Some (Reservation_System reason) => Err (Profile_SystemReserved reason)
    | None => Ok p
    end.

(** [refresh_layout] with the host's snapshot, [None] when it is unavailable. *)
Definition refresh_layout (snapshot : option KeyboardLayout) (p : KeymapProfile) : KeymapProfile * result bool () :=
  match snapshot with
  | None => (p, Err ())
  | Some layout =>
      if bool_decide (layout = pf_layout p) then (p, Ok false)
      else ({| pf_layout := layout; pf_conventions := pf_conventions p; pf_defaults := pf_defaults p; pf_reserved_sources := pf_reserved_sources p;
               pf_reserved := resolve_reserved layout (pf_reserved_sources p) |}, Ok true)
  end.

(** ** Resolution *)

Inductive KeybindingState :=
  | State_Default | State_Overridden | State_Unassigned | State_Displaced (by_ : Command) | State_Blocked (reason : SystemReservation)
  | State_TerminalBlocked (convention : TerminalConvention).
Record ResolvedCommand := { rc_shortcuts : list Shortcut; rc_state : KeybindingState }.
Record ResolvedKeymap := { rk_commands : gmap Command ResolvedCommand; rk_owners : gmap Shortcut Command; rk_inactive : gmap Command Reservation }.
Definition resolved_default : ResolvedKeymap := {| rk_commands := ∅; rk_owners := ∅; rk_inactive := ∅ |}.
Definition rk_owner (r : ResolvedKeymap) (s : Shortcut) : option Command := rk_owners r !! s.
Definition rk_shortcuts (r : ResolvedKeymap) (c : Command) : list Shortcut := match rk_commands r !! c with Some e => rc_shortcuts e | None => [] end.
Definition rk_shortcut (r : ResolvedKeymap) (c : Command) : option Shortcut := head (rk_shortcuts r c).
Definition rk_state (r : ResolvedKeymap) (c : Command) : KeybindingState := match rk_commands r !! c with Some e => rc_state e | None => State_Unassigned end.

(** A Command's entry without a chord, and one that claims a chord. *)
Definition leave (c : Command) (state : KeybindingState) (r : ResolvedKeymap) : ResolvedKeymap :=
  {| rk_commands := <[c := {| rc_shortcuts := []; rc_state := state |}]> (rk_commands r); rk_owners := rk_owners r; rk_inactive := rk_inactive r |}.
Definition claim (c : Command) (s : Shortcut) (state : KeybindingState) (r : ResolvedKeymap) : ResolvedKeymap :=
  {| rk_commands := <[c := {| rc_shortcuts := [s]; rc_state := state |}]> (rk_commands r); rk_owners := <[s := c]> (rk_owners r); rk_inactive := rk_inactive r |}.

(** [defaults]. *)
Definition defaults_of (p : KeymapProfile) (c : Command) : list Shortcut := map (resolve_shortcut (pf_layout p)) (default [] (pf_defaults p !! c)).

(** The three loops of [resolve]: overrides, primaries of the other Commands, aliases. *)
Definition resolve_override (p : KeymapProfile) (r : ResolvedKeymap) (entry : Command * option Shortcut) : ResolvedKeymap :=
  let '(c, shortcut) := entry in
  match shortcut with
  | None => leave c State_Unassigned r
  | Some shortcut =>
      match check_shortcut p shortcut with
      | Err reservation => {| rk_commands := rk_commands r; rk_owners := rk_owners r; rk_inactive := <[c := reservation]> (rk_inactive r) |}
      | Ok _ =>
          let shortcut := resolve_shortcut (pf_layout p) shortcut in
          match rk_owner r shortcut with Some by_ => leave c (State_Displaced by_) r | None => claim c shortcut State_Overridden r end
      end
  end.
Definition resolve_primary (p : KeymapProfile) (r : ResolvedKeymap) (c : Command) : ResolvedKeymap :=
  if bool_decide (is_Some (rk_commands r !! c)) then r
  else
    match head (defaults_of p c) with
    | None => leave c State_Unassigned r
    | Some primary =>
        match check_shortcut p primary with
        | Err (Reservation_System reason) => leave c (State_Blocked reason) r
        | Err (Reservation_Terminal convention) => leave c (State_TerminalBlocked convention) r
        | Ok _ => match rk_owner r primary with Some by_ => leave c (State_Displaced by_) r | None => claim c primary State_Default r end
        end
    end.
Definition is_default_state (s : KeybindingState) : bool := match s with State_Default => true | _ => false end.
Definition resolve_alias (p : KeymapProfile) (c : Command) (r : ResolvedKeymap) (shortcut : Shortcut) : ResolvedKeymap :=
  if check_ok p shortcut && negb (bool_decide (is_Some (rk_owner r shortcut))) then
    {| rk_commands := alter (λ e, {| rc_shortcuts := rc_shortcuts e ++ [shortcut]; rc_state := rc_state e |}) c (rk_commands r);
       rk_owners := <[shortcut := c]> (rk_owners r); rk_inactive := rk_inactive r |}
  else r.
Definition resolve_aliases (p : KeymapProfile) (r : ResolvedKeymap) (c : Command) : ResolvedKeymap :=
  if is_default_state (rk_state r c) then foldl (resolve_alias p c) r (drop 1 (defaults_of p c)) else r.
(** [resolve]. *)
Definition resolve_keymap (p : KeymapProfile) (prefs : KeybindingPreferences) : ResolvedKeymap :=
  let r := foldl (resolve_override p) resolved_default (preferences_iter prefs) in
  let r := foldl (resolve_primary p) r all_commands in
  foldl (resolve_aliases p) r all_commands.

(** ** Changing a keybinding *)

(** [retain]. *)
Definition retain_binding (p : KeymapProfile) (c : Command) (shortcut : option Shortcut) (prefs : KeybindingPreferences) : KeybindingPreferences :=
  let restates_default :=
    match default [] (pf_defaults p !! c), shortcut with
    | [], None => true
    | [only], Some shortcut => bool_decide (only = shortcut)
    | _, _ => false
    end in
  if restates_default then delete c prefs else <[c := shortcut]> prefs.
(** [displace]. *)
Definition displace (p : KeymapProfile) (c : Command) (shortcut : Shortcut) (prefs : KeybindingPreferences) : KeybindingPreferences * option Command :=
  let shortcut := resolve_shortcut (pf_layout p) shortcut in
  let resolved := resolve_keymap p prefs in
  let owner := match rk_owner resolved shortcut with Some owner => if bool_decide (owner = c) then None else Some owner | None => None end in
  let conflicts := vfilter (λ other, match prefs !! other with
                                     | Some (Some retained) => negb (bool_decide (other = c)) && bool_decide (resolve_shortcut (pf_layout p) retained = shortcut)
                                     | _ => false
                                     end) all_commands in
  let prefs := foldl (λ prefs other, retain_binding p other None prefs) prefs conflicts in
  (match owner with
   | Some owner =>
       let kept := match rk_shortcut resolved owner with Some primary => if bool_decide (primary = shortcut) then None else Some primary | None => None end in
       retain_binding p owner kept prefs
   | None => prefs
   end, owner).
(** [assign] and [reset]. *)
Definition assign (p : KeymapProfile) (c : Command) (shortcut : option Shortcut) (prefs : KeybindingPreferences)
    : KeybindingPreferences * result (option Command) Reservation :=
  match (match shortcut with Some s => check_shortcut p s | None => Ok () end) with
  | Err reservation => (prefs, Err reservation)
  | Ok _ =>
      let '(prefs, displaced) := match shortcut with Some s => displace p c s prefs | None => (prefs, None) end in
      (retain_binding p c shortcut prefs, Ok displaced)
  end.
Definition reset_binding (p : KeymapProfile) (c : Command) (prefs : KeybindingPreferences) : KeybindingPreferences :=
  delete c (foldl (λ prefs s, (displace p c s prefs).1) prefs (defaults_of p c)).

(** A settings file's changes: an assignment or a reset, on the layout of its moment. *)
Inductive BindingChange := Assign (c : Command) (shortcut : option Shortcut) | Reset (c : Command).
Definition change_binding (prefs : KeybindingPreferences) (change : KeymapProfile * BindingChange) : KeybindingPreferences :=
  match change with (p, Assign c shortcut) => (assign p c shortcut prefs).1 | (p, Reset c) => reset_binding p c prefs end.

(** ** The shipped profiles *)

(** [desktop_profile::default_keymap], [linux_default_keymap] and the reserved chords of the two desktops,
    without the developer tools. *)
Definition macos_defaults : list (Command * list string) :=
  [(ChooseWorkspace, ["cmd-shift-k"]); (NewWorkspace, ["cmd-n"]); (OpenLocalDirectory, ["cmd-o"]); (NewWorktree, []); (NextWorktree, ["alt-cmd-]"]);
   (PreviousWorktree, ["alt-cmd-["]); (KillWorkspace, ["ctrl-cmd-w"]); (ActivateWorkspace1, ["ctrl-1"]); (ActivateWorkspace2, ["ctrl-2"]);
   (ActivateWorkspace3, ["ctrl-3"]); (ActivateWorkspace4, ["ctrl-4"]); (ActivateWorkspace5, ["ctrl-5"]); (ActivateWorkspace6, ["ctrl-6"]);
   (ActivateWorkspace7, ["ctrl-7"]); (ActivateWorkspace8, ["ctrl-8"]); (ActivateWorkspace9, ["ctrl-9"]); (NewTab, ["cmd-t"]);
   (CloseTab, ["cmd-shift-w"]); (ActivateTab1, ["cmd-1"]); (ActivateTab2, ["cmd-2"]); (ActivateTab3, ["cmd-3"]); (ActivateTab4, ["cmd-4"]);
   (ActivateTab5, ["cmd-5"]); (ActivateTab6, ["cmd-6"]); (ActivateTab7, ["cmd-7"]); (ActivateTab8, ["cmd-8"]); (ActivateTab9, ["cmd-9"]);
   (NextTab, ["cmd-shift-]"]); (PreviousTab, ["cmd-shift-["]); (MoveTabRight, []); (MoveTabLeft, []); (ClosePane, ["cmd-w"]); (SplitRight, ["cmd-d"]);
   (SplitDown, ["cmd-shift-d"]); (FocusPaneLeft, ["cmd-alt-left"]); (FocusPaneRight, ["cmd-alt-right"]); (FocusPaneUp, ["cmd-alt-up"]);
   (FocusPaneDown, ["cmd-alt-down"]); (FocusPreviousPane, ["cmd-["]); (FocusNextPane, ["cmd-]"]); (TogglePaneZoom, ["cmd-shift-enter"]);
   (ShowRepositoryStatus, []); (OpenTerminalFind, ["cmd-f"]); (FindNext, ["cmd-g"]); (FindPrevious, ["cmd-shift-g"]);
   (ClearTerminalScreenAndScrollback, ["cmd-k"]); (ScrollPageUp, ["cmd-pageup"]); (ScrollPageDown, ["cmd-pagedown"]); (ScrollToTop, ["cmd-home"]);
   (ScrollToBottom, ["cmd-end"]); (IncreaseTerminalFontSize, ["cmd-="; "cmd-+"; "shift-cmd-="]); (DecreaseTerminalFontSize, ["cmd--"]);
   (ResetTerminalFontSize, ["cmd-0"]); (ToggleSidebar, ["cmd-b"]); (ToggleSidebarFocus, ["cmd-shift-e"]); (KeyboardShortcuts, []); (About, [])]%string.
Definition linux_defaults : list (Command * list string) :=
  [(ChooseWorkspace, ["ctrl-shift-k"]); (NewWorkspace, ["ctrl-shift-n"]); (OpenLocalDirectory, ["ctrl-shift-o"]); (NewWorktree, []);
   (NextWorktree, ["ctrl-alt-shift-]"]); (PreviousWorktree, ["ctrl-alt-shift-["]); (KillWorkspace, []); (ActivateWorkspace1, ["ctrl-alt-1"]);
   (ActivateWorkspace2, ["ctrl-alt-2"]); (ActivateWorkspace3, ["ctrl-alt-3"]); (ActivateWorkspace4, ["ctrl-alt-4"]);
   (ActivateWorkspace5, ["ctrl-alt-5"]); (ActivateWorkspace6, ["ctrl-alt-6"]); (ActivateWorkspace7, ["ctrl-alt-7"]);
   (ActivateWorkspace8, ["ctrl-alt-8"]); (ActivateWorkspace9, ["ctrl-alt-9"]); (NewTab, ["ctrl-shift-t"]); (CloseTab, ["ctrl-shift-alt-w"]);
   (ActivateTab1, ["alt-1"]); (ActivateTab2, ["alt-2"]); (ActivateTab3, ["alt-3"]); (ActivateTab4, ["alt-4"]); (ActivateTab5, ["alt-5"]);
   (ActivateTab6, ["alt-6"]); (ActivateTab7, ["alt-7"]); (ActivateTab8, ["alt-8"]); (ActivateTab9, ["alt-9"]);
   (NextTab, ["ctrl-pagedown"; "ctrl-tab"]); (PreviousTab, ["ctrl-pageup"; "ctrl-shift-tab"]); (MoveTabRight, ["ctrl-shift-pagedown"]);
   (MoveTabLeft, ["ctrl-shift-pageup"]); (ClosePane, ["ctrl-shift-w"]); (SplitRight, ["ctrl-shift-d"]); (SplitDown, ["ctrl-shift-alt-d"]);
   (FocusPaneLeft, ["ctrl-shift-left"]); (FocusPaneRight, ["ctrl-shift-right"]); (FocusPaneUp, ["ctrl-shift-up"]);
   (FocusPaneDown, ["ctrl-shift-down"]); (FocusPreviousPane, ["ctrl-shift-["; "ctrl-shift-alt-f6"]);
   (FocusNextPane, ["ctrl-shift-]"; "ctrl-shift-f6"]); (TogglePaneZoom, ["ctrl-shift-enter"]); (ShowRepositoryStatus, []);
   (OpenTerminalFind, ["ctrl-shift-f"]); (FindNext, ["ctrl-shift-g"; "f3"]); (FindPrevious, ["ctrl-shift-h"; "shift-f3"]);
   (ClearTerminalScreenAndScrollback, ["ctrl-shift-alt-k"]); (ScrollPageUp, ["shift-pageup"]); (ScrollPageDown, ["shift-pagedown"]);
   (ScrollToTop, ["shift-home"]); (ScrollToBottom, ["shift-end"]); (IncreaseTerminalFontSize, ["ctrl-="; "ctrl-+"]);
   (DecreaseTerminalFontSize, ["ctrl--"]); (ResetTerminalFontSize, ["ctrl-0"]); (ToggleSidebar, ["ctrl-shift-b"]);
   (ToggleSidebarFocus, ["ctrl-shift-e"]); (KeyboardShortcuts, ["ctrl-?"]); (About, [])]%string.
Definition macos_reserved : list (string * SystemReservation) :=
  [("cmd-c", Reserved_Copy); ("cmd-v", Reserved_Paste); ("cmd-x", Reserved_Cut); ("cmd-z", Reserved_Undo); ("shift-cmd-z", Reserved_Redo);
   ("cmd-a", Reserved_SelectAll); ("cmd-,", Reserved_Settings); ("cmd-shift-p", Reserved_CommandPalette); ("cmd-q", Reserved_Quit);
   ("cmd-h", Reserved_Hide); ("alt-cmd-h", Reserved_HideOthers); ("cmd-m", Reserved_Minimize); ("alt-cmd-m", Reserved_MinimizeAll);
   ("ctrl-cmd-f", Reserved_FullScreen); ("cmd-tab", Reserved_AppSwitcher); ("shift-cmd-tab", Reserved_AppSwitcher); ("cmd-`", Reserved_WindowCycling);
   ("shift-cmd-`", Reserved_WindowCycling); ("cmd-space", Reserved_Spotlight); ("alt-cmd-space", Reserved_Spotlight);
   ("ctrl-cmd-space", Reserved_CharacterViewer); ("alt-cmd-escape", Reserved_ForceQuit); ("alt-shift-cmd-escape", Reserved_ForceQuit);
   ("ctrl-cmd-q", Reserved_LockScreen); ("shift-cmd-q", Reserved_LogOut); ("alt-shift-cmd-q", Reserved_LogOut); ("shift-cmd-3", Reserved_Screenshot);
   ("ctrl-shift-cmd-3", Reserved_Screenshot); ("shift-cmd-4", Reserved_Screenshot); ("ctrl-shift-cmd-4", Reserved_Screenshot);
   ("shift-cmd-5", Reserved_Screenshot); ("ctrl-shift-cmd-5", Reserved_Screenshot); ("shift-cmd-6", Reserved_Screenshot);
   ("ctrl-shift-cmd-6", Reserved_Screenshot); ("cmd-?", Reserved_Help); ("alt-cmd-'", Reserved_KeyboardNavigation);
   ("alt-cmd-d", Reserved_DockHiding); ("alt-cmd-8", Reserved_Zoom); ("alt-cmd-=", Reserved_Zoom); ("alt-cmd--", Reserved_Zoom);
   ("alt-cmd-\", Reserved_Zoom); ("ctrl-alt-cmd-8", Reserved_InvertColors); ("ctrl-alt-cmd-,", Reserved_Contrast);
   ("ctrl-alt-cmd-.", Reserved_Contrast); ("cmd-f5", Reserved_VoiceOver); ("alt-cmd-f5", Reserved_AccessibilityShortcuts)]%string.
Definition linux_reserved : list (string * SystemReservation) :=
  [("ctrl-shift-c", Reserved_Copy); ("ctrl-insert", Reserved_Copy); ("ctrl-shift-v", Reserved_Paste); ("shift-insert", Reserved_PasteSelection);
   ("ctrl-shift-q", Reserved_Quit); ("ctrl-shift-m", Reserved_Minimize); ("ctrl-,", Reserved_Settings); ("ctrl-shift-p", Reserved_CommandPalette);
   ("f11", Reserved_FullScreen); ("ctrl-shift-alt-left", Reserved_MoveWindowToWorkspace); ("ctrl-shift-alt-right", Reserved_MoveWindowToWorkspace);
   ("ctrl-shift-alt-up", Reserved_MoveWindowToWorkspace); ("ctrl-shift-alt-down", Reserved_MoveWindowToWorkspace);
   ("ctrl-shift-alt-r", Reserved_ScreenRecording); ("ctrl-shift-alt-tab", Reserved_KeyboardNavigation);
   ("ctrl-shift-alt-escape", Reserved_KeyboardNavigation); ("ctrl-shift-u", Reserved_InputMethod); ("ctrl-shift-alt-u", Reserved_InputMethod);
   ("ctrl-shift-alt-delete", Reserved_LogOut); ("ctrl-shift-alt-pageup", Reserved_Restart); ("ctrl-shift-alt-pagedown", Reserved_ShutDown)]%string.

(** [shortcuts]: [None] for a spelling that does not parse, which panics. *)
Definition reserved_shortcuts (l : list (string * SystemReservation)) : option (list (Shortcut * SystemReservation)) :=
  mapM (λ '(source, reason), match parse_shortcut (lit source) with Ok s => Some (s, reason) | Err _ => None end) l.
Definition shipped_profile (conventions : TerminalConventions) (defaults : list (Command * list string)) (reserved : list (string * SystemReservation))
    : option (result KeymapProfile KeymapProfileError) :=
  profile_new conventions (map (λ entry, (entry.1, map lit entry.2)) defaults) <$> reserved_shortcuts reserved.
Definition macos_profile : option (result KeymapProfile KeymapProfileError) := shipped_profile CommandShortcuts macos_defaults macos_reserved.
Definition linux_profile : option (result KeymapProfile KeymapProfileError) := shipped_profile ControlShiftShortcuts linux_defaults linux_reserved.

(** ** Shortcuts are read as they are written *)

Lemma split_dash before rest : vall (λ c, negb (c =? 45)%N) before = true → split_once (lit "-") (before ++ lit "-" ++ rest) = Some (before, rest).
Proof.
  induction before as [|c before IH]; intros H; [by destruct rest|]. cbn [vall forallb] in H. apply andb_true_iff in H as [Hc H].
  cbn [app split_once]. assert (starts_with (lit "-") (c :: before ++ lit "-" ++ rest) = false) as ->.
  { change (lit "-") with [45%N]. cbn [starts_with]. apply negb_true_iff, N.eqb_neq in Hc. destruct (N.eqb_spec 45 c) as [E|]; [|done]. by subst c. }
  by rw (IH H).
Qed.

(** The fuel of the loop is enough: more of it reads the same. *)
Lemma split_once_shorter before rest : ∀ s, split_once (lit "-") s = Some (before, rest) → length rest < length s.
Proof.
  intros s. revert before. induction s as [|c s IH]; intros before; cbn [split_once]; [done|]. destruct (starts_with (lit "-") (c :: s)).
  - intros [= _ <-]. rw length_drop. cbn [length]. change (length (lit "-")) with 1. lia.
  - destruct (split_once (lit "-") s) as [[b r]|] eqn:E; [|done]. intros [= _ ->]. specialize (IH b eq_refl). cbn [length]. lia.
Qed.
Lemma parse_modifiers_enough : ∀ fuel fuel' key m, length key ≤ fuel → length key ≤ fuel' → parse_modifiers fuel key m = parse_modifiers fuel' key m.
Proof.
  induction fuel as [|fuel IH]; intros fuel' key m H H'.
  - destruct key; [|cbn in H; lia]. by destruct fuel'.
  - destruct fuel' as [|fuel']; [destruct key; [done|cbn in H'; lia]|]. cbn [parse_modifiers].
    destruct (split_once (lit "-") key) as [[modifier rest]|] eqn:E; [|done]. pose proof (split_once_shorter _ _ _ E).
    repeat (case_bool_decide; [apply IH; lia|]). done.
Qed.

Lemma parse_modifier fuel rest m :
  parse_modifiers (S fuel) (lit "ctrl-" ++ rest) m = parse_modifiers fuel rest {| md_control := true; md_alt := md_alt m; md_shift := md_shift m; md_platform := md_platform m; md_function := md_function m |} ∧
  parse_modifiers (S fuel) (lit "alt-" ++ rest) m = parse_modifiers fuel rest {| md_control := md_control m; md_alt := true; md_shift := md_shift m; md_platform := md_platform m; md_function := md_function m |} ∧
  parse_modifiers (S fuel) (lit "shift-" ++ rest) m = parse_modifiers fuel rest {| md_control := md_control m; md_alt := md_alt m; md_shift := true; md_platform := md_platform m; md_function := md_function m |} ∧
  parse_modifiers (S fuel) (lit "cmd-" ++ rest) m = parse_modifiers fuel rest {| md_control := md_control m; md_alt := md_alt m; md_shift := md_shift m; md_platform := true; md_function := md_function m |}.
Proof.
  pose proof (split_dash (lit "ctrl") rest eq_refl) as H1. pose proof (split_dash (lit "alt") rest eq_refl) as H2.
  pose proof (split_dash (lit "shift") rest eq_refl) as H3. pose proof (split_dash (lit "cmd") rest eq_refl) as H4.
  rw (app_assoc _ (lit "-") rest) in H1. rw (app_assoc _ (lit "-") rest) in H2. rw (app_assoc _ (lit "-") rest) in H3. rw (app_assoc _ (lit "-") rest) in H4.
  change (lit "ctrl" ++ lit "-") with (lit "ctrl-") in H1. change (lit "alt" ++ lit "-") with (lit "alt-") in H2.
  change (lit "shift" ++ lit "-") with (lit "shift-") in H3. change (lit "cmd" ++ lit "-") with (lit "cmd-") in H4.
  cbn [parse_modifiers]. rw H1 H2 H3 H4. done.
Qed.

(** A key a Shortcut may have. *)
Lemma from_parts_key m key s : from_parts m key = Ok s →
  s = {| ks_modifiers := m; ks_key := key |} ∧ md_function m = false ∧ (printable_key key = true ∨ key_among named_keys key = true).
Proof.
  unfold from_parts. destruct (md_function m) eqn:Ef; [done|]. cbn [orb]. destruct (key_among ["fn"; "function"]%string key); [done|].
  destruct (key_among modifier_names key); [done|]. destruct (is_empty key); [done|].
  destruct (printable_key key), (key_among named_keys key); cbn; intros [= <-]; eauto.
Qed.
Lemma key_among_elem names key : key_among names key = true → ∃ name, name ∈ names ∧ key = lit name.
Proof. unfold key_among, vany. intros (name & Hin & E)%existsb_exists. exists name. split; [by apply list_elem_of_In|by apply bool_decide_eq_true in E]. Qed.

Lemma key_forms key : printable_key key = true ∨ key_among named_keys key = true →
  vall (λ c, negb (is_whitespace c)) key = true ∧ (split_once (lit "-") key = None ∨ key = lit "-") ∧ key ≠ [].
Proof.
  intros [H|(name & Hin & ->)%key_among_elem].
  - unfold printable_key in H. apply andb_true_iff in H as [Hl H]. destruct key as [|c [|]]; [done| |done]. cbn [vall forallb] in H.
    rw !andb_true_r in H. apply andb_true_iff in H as [_ H]. cbn [vall forallb]. rw H. split; [done|]. split; [|done].
    change (lit "-") with [45%N]. cbn [split_once starts_with]. rw andb_true_r. destruct (N.eqb_spec 45 c) as [<-|]; [by right|by left].
  - apply list_elem_of_In in Hin. unfold named_keys in Hin. cbn [In] in Hin. repeat (destruct Hin as [<-|Hin]; [vm_compute; split; [done|split; [by left|done]]|]). done.
Qed.

Lemma count_words_one s in_word : vall (λ c, negb (is_whitespace c)) s = true → count_words in_word s ≤ 1.
Proof.
  assert (∀ s, vall (λ c, negb (is_whitespace c)) s = true → count_words true s = 0) as Hgo.
  { clear. induction s as [|c s IH]; intros H; [done|]. cbn [vall forallb] in H. apply andb_true_iff in H as [Hc H]. cbn [count_words].
    apply negb_true_iff in Hc as ->. by rw (IH H). }
  destruct s as [|c s]; intros H; [apply Nat.le_0_l|]. cbn [vall forallb] in H. apply andb_true_iff in H as [Hc H]. cbn [count_words].
  apply negb_true_iff in Hc as ->. rw (Hgo s H). destruct in_word; lia.
Qed.

Lemma parse_key fuel key m : printable_key key = true ∨ key_among named_keys key = true → 1 ≤ fuel → parse_modifiers fuel key m = Ok (m, key).
Proof.
  intros H Hf. destruct (key_forms key H) as (_ & Hd & _). destruct fuel as [|fuel]; [lia|]. cbn [parse_modifiers].
  destruct Hd as [->| ->]; [done|]. reflexivity.
Qed.

(** C29. What is written for a Shortcut reads as the same Shortcut: every one that a person records or types,
    whatever its modifiers and its key, punctuation and the dash included. *)
Theorem shortcut_reads_back m key s : from_keystroke m key = Ok s → parse_shortcut (display_shortcut s) = Ok s.
Proof.
  unfold from_keystroke. intros H. pose proof (from_parts_key _ _ _ H) as (Es & Ef & Hkey). set (k := map to_ascii_lowercase key) in *.
  assert (map to_ascii_lowercase k = k) as Hlow.
  { subst k. rw map_map. apply map_ext. intros c. unfold to_ascii_lowercase, in_range.
    destruct ((65 <=? c) && (c <=? 90))%N eqn:E; [|by rw E]. apply andb_true_iff in E as [E1%N.leb_le E2%N.leb_le].
    assert ((c + 32 <=? 90)%N = false) as -> by (apply N.leb_gt; lia). by rw andb_false_r. }
  destruct (key_forms k Hkey) as (Hws & _ & Hne). clearbody k. subst s. unfold parse_shortcut, display_shortcut. cbn [ks_modifiers ks_key].
  set (pre := (if md_control m then lit "ctrl-" else []) ++ (if md_alt m then lit "alt-" else []) ++ (if md_shift m then lit "shift-" else []) ++
    (if md_platform m then lit "cmd-" else [])).
  assert ((if md_control m then lit "ctrl-" else []) ++ (if md_alt m then lit "alt-" else []) ++ (if md_shift m then lit "shift-" else []) ++
    (if md_platform m then lit "cmd-" else []) ++ k = pre ++ k) as -> by (subst pre; by rw -!app_assoc).
  assert (vall (λ c, negb (is_whitespace c)) (pre ++ k) = true) as Hall.
  { unfold vall in *. rw forallb_app Hws andb_true_r. subst pre. by destruct (md_control m), (md_alt m), (md_shift m), (md_platform m). }
  assert ((1 <? count_words false (pre ++ k)) = false) as -> by (apply Nat.ltb_ge; by apply count_words_one).
  assert (is_empty (pre ++ k) = false) as -> by (destruct pre; [by destruct k|done]).
  assert (vany is_whitespace (pre ++ k) = false) as ->.
  { unfold vany, vall in *. apply not_true_is_false. intros (c & Hin & Hc)%existsb_exists. eapply forallb_forall in Hall; [|exact Hin]. by rw Hc in Hall. }
  cbn [orb]. assert (map to_ascii_lowercase (pre ++ k) = pre ++ k) as ->.
  { rw map_app Hlow. f_equal. subst pre. by destruct (md_control m), (md_alt m), (md_shift m), (md_platform m). }
  assert (∀ fuel, length (pre ++ k) ≤ fuel → parse_modifiers fuel (pre ++ k) no_modifiers = Ok (m, k)) as Hgo; [|by rw Hgo].
  assert (1 ≤ length k) as Hk by (destruct k; [done|cbn; lia]). intros fuel Hfuel. rw length_app in Hfuel. subst pre. rw -!app_assoc.
  destruct m as [mc ma ms mp mf]. cbn in Ef. subst mf. cbn [md_control md_alt md_shift md_platform md_function] in *.
  destruct mc, ma, ms, mp; cbn in Hfuel; repeat (destruct fuel as [|fuel]; [lia|]); cbn [app];
    rw ?(proj1 (parse_modifier _ _ _)) ?(proj1 (proj2 (parse_modifier _ _ _))) ?(proj1 (proj2 (proj2 (parse_modifier _ _ _))))
      ?(proj2 (proj2 (proj2 (parse_modifier _ _ _)))); apply parse_key; done || lia.
Qed.

(** ** One owner of each chord *)

Section profile.
Context (p : KeymapProfile).
Implicit Types (r : ResolvedKeymap) (c : Command) (s t : Shortcut) (prefs : KeybindingPreferences).

Lemma resolve_idem l s : resolve_shortcut l (resolve_shortcut l s) = resolve_shortcut l s.
Proof.
  unfold resolve_shortcut. destruct (md_shift (ks_modifiers s)) eqn:E; [|by rw E].
  destruct (layout_shifted l (md_platform (ks_modifiers s)) (ks_key s)) eqn:El; [done|]. by rw E El.
Qed.
Lemma check_resolved s : check_shortcut p (resolve_shortcut (pf_layout p) s) = check_shortcut p s.
Proof. unfold check_shortcut. by rw resolve_idem. Qed.
Lemma check_ok_true s : check_ok p s = true ↔ check_shortcut p s = Ok ().
Proof. unfold check_ok. destruct (check_shortcut p s) as [[]|]; naive_solver. Qed.

Lemma preferences_iter_elem prefs c v : (c, v) ∈ preferences_iter prefs ↔ prefs !! c = Some v.
Proof.
  unfold preferences_iter. rw list_elem_of_omap. split.
  - intros (d & _ & Hd). destruct (prefs !! d) eqn:E; [|done]. cbn in Hd. congruence.
  - intros E. exists c. split; [apply all_commands_complete|]. by rw E.
Qed.
Lemma all_commands_NoDup : NoDup all_commands.
Proof. refine (bool_decide_unpack (NoDup all_commands) _). vm_compute. exact I. Qed.
Lemma preferences_iter_NoDup prefs : NoDup (map fst (preferences_iter prefs)).
Proof.
  unfold preferences_iter. pose proof all_commands_NoDup as H. induction H as [|c l Hc Hl IH]; cbn [omap list_omap map]; [constructor|].
  destruct (prefs !! c); cbn; [|done]. constructor; [|done]. intros (y & E & Hy)%list_elem_of_fmap. apply list_elem_of_omap in Hy as (d & Hd & Ed).
  destruct (prefs !! d); [|done]. cbn in Ed. injection Ed as <-. cbn in E. congruence.
Qed.

(** What a resolution holds at any point. *)
Record keymap_ok r : Prop := {
  km_claims : ∀ c s, s ∈ rk_shortcuts r c → rk_owner r s = Some c ∧ check_shortcut p s = Ok () ∧ resolve_shortcut (pf_layout p) s = s;
  km_owned : ∀ s c, rk_owner r s = Some c → s ∈ rk_shortcuts r c;
  km_nodup : ∀ c, NoDup (rk_shortcuts r c)
}.

Lemma default_keymap_ok : keymap_ok resolved_default.
Proof.
  split; unfold rk_shortcuts, rk_owner; cbn.
  - intros c s. rw lookup_empty. by intros ?%not_elem_of_nil.
  - intros s c. by rw lookup_empty.
  - intros c. rw lookup_empty. constructor.
Qed.

Lemma rk_shortcuts_insert r c e c' owners inactive :
  rk_shortcuts {| rk_commands := <[c := e]> (rk_commands r); rk_owners := owners; rk_inactive := inactive |} c' =
    if bool_decide (c = c') then rc_shortcuts e else rk_shortcuts r c'.
Proof. unfold rk_shortcuts. cbn. case_bool_decide as E; [subst; by rw lookup_insert_eq|by rw lookup_insert_ne]. Qed.

Lemma leave_ok c state r : rk_commands r !! c = None → keymap_ok r → keymap_ok (leave c state r).
Proof.
  intros Hc [H1 H2 H3]. assert (rk_shortcuts r c = []) as Hn by (unfold rk_shortcuts; by rw Hc).
  assert (∀ c', rk_shortcuts (leave c state r) c' = rk_shortcuts r c') as E.
  { intros c'. unfold leave. rw rk_shortcuts_insert. case_bool_decide; [by subst|done]. }
  split; [intros c' s|intros s c'|intros c']; rw E; [apply H1|apply H2|apply H3].
Qed.
Lemma claim_ok c s state r : rk_commands r !! c = None → rk_owner r s = None → check_shortcut p s = Ok () → resolve_shortcut (pf_layout p) s = s →
  keymap_ok r → keymap_ok (claim c s state r).
Proof.
  intros Hc Ho Hk Hr [H1 H2 H3].
  assert (∀ c', rk_shortcuts (claim c s state r) c' = if bool_decide (c = c') then [s] else rk_shortcuts r c') as E by (intros; apply rk_shortcuts_insert).
  assert (∀ t, rk_owner (claim c s state r) t = if bool_decide (t = s) then Some c else rk_owner r t) as Eo.
  { intros t. unfold rk_owner, claim. cbn. case_bool_decide as Et; [subst; by rw lookup_insert_eq|]. by rw lookup_insert_ne. }
  split.
  - intros c' t. rw E Eo. case_bool_decide as Ec; [intros ->%list_elem_of_singleton; subst; by rw bool_decide_eq_true_2|].
    intros Ht. apply H1 in Ht as (Hto & Ht). split; [|done]. case_bool_decide; [congruence|done].
  - intros t c'. rw E Eo. case_bool_decide as Et; [intros [= <-]; subst; rw bool_decide_eq_true_2 //; by left|].
    intros Ht. pose proof (H2 _ _ Ht) as Hin. case_bool_decide; [subst|done]. unfold rk_shortcuts in Hin. rw Hc in Hin. by apply not_elem_of_nil in Hin.
  - intros c'. rw E. case_bool_decide; [apply NoDup_singleton|done].
Qed.

(** What a resolution decided stays; only a default gains aliases. *)
Definition extends r r' : Prop :=
  (∀ s c, rk_owner r s = Some c → rk_owner r' s = Some c) ∧
  ∀ c e, rk_commands r !! c = Some e → ∃ more, rk_commands r' !! c = Some {| rc_shortcuts := rc_shortcuts e ++ more; rc_state := rc_state e |} ∧
    (rc_state e ≠ State_Default → more = []).
#[local] Instance extends_preorder : PreOrder extends.
Proof.
  split.
  - intros r. split; [done|]. intros c [l st] E. exists []. by rw app_nil_r.
  - intros r1 r2 r3 [H1 H2] [H3 H4]. split; [auto|]. intros c e E. destruct (H2 c e E) as (more & E2 & Hn). destruct (H4 c _ E2) as (more' & E3 & Hn').
    cbn in E3, Hn'. exists (more ++ more'). rw app_assoc. split; [done|]. intros Hs. by rw (Hn Hs) (Hn' Hs).
Qed.
Lemma leave_extends c state r : rk_commands r !! c = None → extends r (leave c state r).
Proof.
  intros Hc. split; [done|]. intros d [l st] E. exists []. rw app_nil_r. split; [|done]. cbn. rw lookup_insert_ne //. congruence.
Qed.
Lemma claim_extends c s state r : rk_commands r !! c = None → rk_owner r s = None → extends r (claim c s state r).
Proof.
  intros Hc Ho. split.
  - intros t d E. unfold rk_owner, claim in *. cbn. rw lookup_insert_ne //. congruence.
  - intros d [l st] E. exists []. rw app_nil_r. split; [|done]. cbn. rw lookup_insert_ne //. congruence.
Qed.

(** The first loop: each override is installed, displaced by another override of the same chord, or
    inactive; and only overrides own chords. *)
Definition override_entry r c (v : option Shortcut) : Prop :=
  match v with
  | None => rk_commands r !! c = Some {| rc_shortcuts := []; rc_state := State_Unassigned |}
  | Some t =>
      match check_shortcut p t with
      | Err reservation => rk_commands r !! c = None ∧ rk_inactive r !! c = Some reservation
      | Ok _ => rk_commands r !! c = Some {| rc_shortcuts := [resolve_shortcut (pf_layout p) t]; rc_state := State_Overridden |} ∨
                ∃ by_, rk_commands r !! c = Some {| rc_shortcuts := []; rc_state := State_Displaced by_ |} ∧
                       rk_owner r (resolve_shortcut (pf_layout p) t) = Some by_
      end
  end.
Definition override_owner r c s (v : option Shortcut) : Prop :=
  ∃ t, v = Some t ∧ resolve_shortcut (pf_layout p) t = s ∧ check_shortcut p t = Ok () ∧
    rk_commands r !! c = Some {| rc_shortcuts := [s]; rc_state := State_Overridden |}.
Record overridden (l : list (Command * option Shortcut)) r : Prop := {
  ov_ok : keymap_ok r;
  ov_none : ∀ c, c ∉ map fst l → rk_commands r !! c = None ∧ rk_inactive r !! c = None;
  ov_entry : ∀ c v, (c, v) ∈ l → override_entry r c v;
  ov_owner : ∀ s c, rk_owner r s = Some c → ∃ v, (c, v) ∈ l ∧ override_owner r c s v;
  ov_reported : ∀ c v, (c, v) ∈ l → is_Some (rk_inactive r !! c) → ∃ t, v = Some t ∧ check_ok p t = false
}.

Lemma overridden_step l c v r r' : c ∉ map fst l → overridden l r → keymap_ok r' →
  (∀ d, d ≠ c → rk_commands r' !! d = rk_commands r !! d ∧ rk_inactive r' !! d = rk_inactive r !! d) →
  (∀ s d, rk_owner r s = Some d → rk_owner r' s = Some d) →
  (∀ s d, rk_owner r' s = Some d → rk_owner r s = Some d ∨ (d = c ∧ override_owner r' c s v)) →
  override_entry r' c v → (is_Some (rk_inactive r' !! c) → ∃ t, v = Some t ∧ check_ok p t = false) →
  overridden (l ++ [(c, v)]) r'.
Proof.
  intros Hnew [H1 H2 H3 H4 H5] Hok Hsame Hmono Hown Hentry Hrep.
  assert (∀ d w, (d, w) ∈ l → d ≠ c) as Hne by (intros d w Hin ->; apply Hnew, list_elem_of_fmap; by exists (c, w)).
  assert (∀ d w, (d, w) ∈ l ++ [(c, v)] → (d, w) ∈ l ∨ (d = c ∧ w = v)) as Hsplit.
  { intros d w [Hin|Hin]%elem_of_app; [by left|]. apply list_elem_of_singleton in Hin. injection Hin as -> ->. by right. }
  split; [done|..].
  - intros d Hd. rw map_app in Hd. assert (d ≠ c) as Hdc by (intros ->; apply Hd, elem_of_app; right; by left).
    destruct (Hsame d Hdc) as [-> ->]. apply H2. intros Hin. by apply Hd, elem_of_app; left.
  - intros d w [Hin|[-> ->]]%Hsplit; [|done]. destruct (Hsame d (Hne _ _ Hin)) as [E1 E2]. specialize (H3 _ _ Hin). unfold override_entry in *. rw E1 E2.
    destruct w as [t|]; [|done]. destruct (check_shortcut p t); [|done]. destruct H3 as [|(b & ? & ?)]; [by left|right]. exists b. auto.
  - intros s d [Hs|[-> Hs]]%Hown.
    + destruct (H4 s d Hs) as (w & Hin & t & Ht). exists w. split; [apply elem_of_app; by left|]. exists t. by rw (proj1 (Hsame d (Hne _ _ Hin))).
    + exists v. split; [apply elem_of_app; right; by left|done].
  - intros d w [Hin|[-> ->]]%Hsplit; [|done]. rw (proj2 (Hsame d (Hne _ _ Hin))). by apply H5.
Qed.

Lemma override_step l c v r : c ∉ map fst l → overridden l r → overridden (l ++ [(c, v)]) (resolve_override p r (c, v)).
Proof.
  intros Hnew H. destruct (ov_none _ _ H c Hnew) as [Hnone Hin]. pose proof (ov_ok _ _ H) as Hok.
  assert (∀ e d, d ≠ c → <[c := e]> (rk_commands r) !! d = rk_commands r !! d) as Hne by (intros; by apply lookup_insert_ne).
  unfold resolve_override. destruct v as [t|].
  2:{ apply (overridden_step l c None r); try done; [by apply leave_ok|intros; split; [by apply Hne|done]|by left|apply lookup_insert_eq|].
      intros [x Hx]. cbn in Hx. congruence. }
  destruct (check_shortcut p t) as [[]|reservation] eqn:Ek.
  2:{ apply (overridden_step l c (Some t) r); try done.
      - by destruct Hok.
      - intros d Hd. split; [done|]. by apply lookup_insert_ne.
      - by left.
      - unfold override_entry. rw Ek. split; [done|apply lookup_insert_eq].
      - exists t. split; [done|]. unfold check_ok. by rw Ek. }
  destruct (rk_owner r (resolve_shortcut (pf_layout p) t)) as [by_|] eqn:Eo; apply (overridden_step l c (Some t) r); try done.
  - by apply leave_ok.
  - intros; split; [by apply Hne|done].
  - by left.
  - unfold override_entry. rw Ek. right. exists by_. split; [apply lookup_insert_eq|done].
  - intros [x Hx]. cbn in Hx. congruence.
  - apply claim_ok; try done; [by rw check_resolved|by rw resolve_idem].
  - intros; split; [by apply Hne|done].
  - intros s d Hs. unfold rk_owner in *. cbn. rw lookup_insert_ne //. congruence.
  - intros s d Hs. unfold rk_owner in Hs. cbn in Hs. destruct (decide (resolve_shortcut (pf_layout p) t = s)) as [<-|Hst].
    + right. rw lookup_insert_eq in Hs. injection Hs as <-. split; [done|]. exists t. repeat split; [done|]. apply lookup_insert_eq.
    + left. by rw lookup_insert_ne in Hs.
  - unfold override_entry. rw Ek. left. apply lookup_insert_eq.
  - intros [x Hx]. cbn in Hx. congruence.
Qed.

Lemma override_loop l : NoDup (map fst l) → overridden l (foldl (resolve_override p) resolved_default l).
Proof.
  induction l as [|[c v] l IH] using rev_ind; intros Hn.
  - split; [apply default_keymap_ok|done| | |]; intros *; try by intros ?%not_elem_of_nil. by rw /rk_owner lookup_empty.
  - rw map_app in Hn. apply NoDup_app in Hn as (Hn & Hc & _). rw foldl_app. cbn [foldl]. apply override_step; [|by apply IH].
    intros Hin. apply (Hc c Hin). by left.
Qed.

Lemma defaults_resolved c s : s ∈ defaults_of p c → resolve_shortcut (pf_layout p) s = s.
Proof. intros (t & -> & _)%list_elem_of_fmap. apply resolve_idem. Qed.
Lemma head_default c s : head (defaults_of p c) = Some s → s ∈ defaults_of p c.
Proof. destruct (defaults_of p c); [done|]. intros [= ->]. by left. Qed.

(** What a later loop does: it extends, and gives chords only to Commands of its list, from a source. *)
Record step_ok (source : Command → Shortcut → Prop) (l : list Command) r r' : Prop := {
  st_ok : keymap_ok r';
  st_extends : extends r r';
  st_owner : ∀ s c, rk_owner r' s = Some c → rk_owner r s = Some c ∨ (c ∈ l ∧ source c s);
  st_others : ∀ c, c ∉ l → rk_commands r' !! c = rk_commands r !! c;
  st_inactive : rk_inactive r' = rk_inactive r
}.
Lemma step_refl source l r : keymap_ok r → step_ok source l r r.
Proof. split; try done. auto. Qed.
Lemma step_trans source l l' r r' r'' : step_ok source l r r' → step_ok source l' r' r'' → step_ok source (l ++ l') r r''.
Proof.
  intros [A1 A2 A3 A4 A5] [B1 B2 B3 B4 B5]. split; [done|by etrans| | |congruence].
  - intros s c [Hs|[Hin Hs]]%B3; [|right; split; [apply elem_of_app; by right|done]].
    apply A3 in Hs as [|[Hin Hs]]; [by left|right; split; [apply elem_of_app; by left|done]].
  - intros c Hc. rw B4 ?A4 //; intros Hin; apply Hc, elem_of_app; auto.
Qed.
Lemma step_loop source (f : ResolvedKeymap → Command → ResolvedKeymap) l : (∀ r c, keymap_ok r → step_ok source [c] r (f r c)) →
  ∀ r, keymap_ok r → step_ok source l r (foldl f r l).
Proof.
  intros Hf. induction l as [|c l IH]; intros r Hr; cbn [foldl]; [by apply step_refl|]. pose proof (Hf r c Hr) as Hs.
  apply (step_trans source [c] l r (f r c)); [done|]. apply IH, Hs.
Qed.

Definition primary_source c s : Prop := head (defaults_of p c) = Some s.
Lemma leave_step source c state r : rk_commands r !! c = None → keymap_ok r → step_ok source [c] r (leave c state r).
Proof.
  intros Hc Hr. split; [by apply leave_ok|by apply leave_extends|by left| |done].
  intros d Hd. cbn. rw lookup_insert_ne //. intros ->. by apply Hd; left.
Qed.
Lemma primary_step r c : keymap_ok r → step_ok primary_source [c] r (resolve_primary p r c).
Proof.
  intros Hr. unfold resolve_primary. case_bool_decide as Ec; [by apply step_refl|]. apply eq_None_not_Some in Ec.
  destruct (head (defaults_of p c)) as [primary|] eqn:Eh; [|by apply leave_step].
  destruct (check_shortcut p primary) as [[]|[]] eqn:Ek; [|by apply leave_step..].
  destruct (rk_owner r primary) eqn:Eo; [by apply leave_step|].
  split; [apply claim_ok; try done; by apply (defaults_resolved c), head_default|by apply claim_extends| | |done].
  - intros s d Hs. unfold rk_owner in *. cbn in Hs. destruct (decide (primary = s)) as [<-|Hne].
    + rw lookup_insert_eq in Hs. injection Hs as <-. right. split; [by left|done].
    + left. by rw lookup_insert_ne in Hs.
  - intros d Hd. cbn. rw lookup_insert_ne //. intros ->. by apply Hd; left.
Qed.
Lemma primary_entry r c : is_Some (rk_commands (resolve_primary p r c) !! c).
Proof.
  unfold resolve_primary. case_bool_decide; [done|]. destruct (head _) as [primary|]; [|by rw /= lookup_insert_eq].
  destruct (check_shortcut p primary) as [[]|[]]; [|by rw /= lookup_insert_eq..]. destruct (rk_owner r primary); by rw /= lookup_insert_eq.
Qed.

Definition alias_source c s : Prop := s ∈ defaults_of p c.
Lemma alias_step r c s : keymap_ok r → rk_state r c = State_Default → is_Some (rk_commands r !! c) → s ∈ defaults_of p c →
  step_ok alias_source [c] r (resolve_alias p c r s) ∧ (check_ok p s = true → is_Some (rk_owner (resolve_alias p c r s) s)) ∧
  rk_state (resolve_alias p c r s) c = State_Default.
Proof.
  intros Hr Hst [e He] Hs. unfold resolve_alias. destruct (check_ok p s) eqn:Ek; cbn [andb]; [|split; [by apply step_refl|done]].
  case_bool_decide as Eo; cbn [negb]; [split; [by apply step_refl|done]|]. apply eq_None_not_Some in Eo.
  assert (rk_state {| rk_commands := alter (λ e, {| rc_shortcuts := rc_shortcuts e ++ [s]; rc_state := rc_state e |}) c (rk_commands r);
    rk_owners := <[s := c]> (rk_owners r); rk_inactive := rk_inactive r |} c = State_Default) as Est.
  { unfold rk_state in *. cbn. rw lookup_alter_eq He /=. by rw He in Hst. }
  split; [|split; [intros _; unfold rk_owner; cbn; by rw lookup_insert_eq|exact Est]].
  set (r' := {| rk_commands := _; rk_owners := _; rk_inactive := _ |}) in *.
  assert (∀ d, rk_shortcuts r' d = rk_shortcuts r d ++ if bool_decide (d = c) then [s] else []) as Esh.
  { intros d. unfold rk_shortcuts, r'. cbn. case_bool_decide as Ed; [subst d; by rw lookup_alter_eq He|]. rw lookup_alter_ne; [done|]. by rw app_nil_r. }
  assert (∀ t, rk_owner r' t = if bool_decide (t = s) then Some c else rk_owner r t) as Eow.
  { intros t. unfold rk_owner, r'. cbn. case_bool_decide as Et; [subst; by rw lookup_insert_eq|by rw lookup_insert_ne]. }
  destruct Hr as [H1 H2 H3]. split; [split| | | |done].
  - intros d t. rw Esh Eow. intros [Hin|Hin]%elem_of_app.
    + destruct (H1 d t Hin) as (E1 & E2). split; [|done]. case_bool_decide; [congruence|done].
    + case_bool_decide as Ed; [|by apply not_elem_of_nil in Hin]. apply list_elem_of_singleton in Hin as ->. subst d. rw bool_decide_eq_true_2 //.
      split; [done|]. split; [by apply check_ok_true|]. by apply (defaults_resolved c).
  - intros t d. rw Esh Eow elem_of_app. case_bool_decide as Et; [intros [= <-]; subst; right; rw bool_decide_eq_true_2 //; by left|].
    intros Ht. left. by apply H2.
  - intros d. rw Esh. case_bool_decide as Ed; [|by rw app_nil_r]. apply NoDup_app. split; [done|]. split; [|apply NoDup_singleton].
    intros t Ht ->%list_elem_of_singleton. apply H1 in Ht as [Ht _]. congruence.
  - split; [intros t d Ht; rw Eow; case_bool_decide; [congruence|done]|]. intros d [l st] Hd. unfold r'. cbn. destruct (decide (c = d)) as [<-|Hne].
    + exists [s]. rw lookup_alter_eq Hd. split; [done|]. unfold rk_state in Hst. rw Hd in Hst. cbn in Hst |- *. by rw Hst.
    + exists []. rw lookup_alter_ne // app_nil_r. done.
  - intros t d. rw Eow. case_bool_decide as Et; [intros [= <-]; subst; right; split; [by left|done]|by left].
  - intros d Hd. unfold r'. cbn. rw lookup_alter_ne //. intros ->. by apply Hd; left.
Qed.

Lemma step_weaken source l l' r r' : (∀ c, c ∈ l → c ∈ l') → step_ok source l r r' → step_ok source l' r r'.
Proof. intros Hl [A1 A2 A3 A4 A5]. split; try done; [intros s c [|[? ?]]%A3; auto|intros c Hc; apply A4; auto]. Qed.

Lemma alias_loop c l : ∀ r, keymap_ok r → rk_state r c = State_Default → is_Some (rk_commands r !! c) → (∀ s, s ∈ l → s ∈ defaults_of p c) →
  step_ok alias_source [c] r (foldl (resolve_alias p c) r l) ∧
  ∀ s, s ∈ l → check_ok p s = true → is_Some (rk_owner (foldl (resolve_alias p c) r l) s).
Proof.
  induction l as [|t l IH]; intros r Hr Hst He Hl; cbn [foldl]; [split; [by apply step_refl|by intros s ?%not_elem_of_nil]|].
  destruct (alias_step r c t Hr Hst He (Hl t ltac:(by left))) as (H1 & H2 & H3).
  assert (is_Some (rk_commands (resolve_alias p c r t) !! c)) as He'.
  { destruct He as [e He]. destruct (proj2 (st_extends _ _ _ _ H1) c e He) as (more & -> & _). done. }
  destruct (IH _ (st_ok _ _ _ _ H1) H3 He') as [H4 H5]; [intros s Hs; apply Hl; by right|]. split.
  - apply (step_weaken _ ([c] ++ [c])); [|by eapply step_trans]. by intros d [|]%elem_of_app.
  - intros s [->|Hs]%elem_of_cons Hk; [|by apply H5]. destruct (H2 Hk) as [d Hd]. exists d. by apply (proj1 (st_extends _ _ _ _ H4)).
Qed.
Lemma aliases_step r c : keymap_ok r → step_ok alias_source [c] r (resolve_aliases p r c) ∧
  (rk_state r c = State_Default → is_Some (rk_commands r !! c) →
    ∀ s, s ∈ drop 1 (defaults_of p c) → check_ok p s = true → is_Some (rk_owner (resolve_aliases p r c) s)).
Proof.
  intros Hr. unfold resolve_aliases. destruct (rk_state r c) eqn:Est; cbn [is_default_state]; try (split; [by apply step_refl|done]).
  assert (is_Some (rk_commands r !! c)) as He by (unfold rk_state in Est; by destruct (rk_commands r !! c)).
  assert (∀ s, s ∈ drop 1 (defaults_of p c) → s ∈ defaults_of p c) as Hd by (intros s; destruct (defaults_of p c); [done|]; cbn; by right).
  destruct (alias_loop c (drop 1 (defaults_of p c)) r Hr Est He Hd) as [H1 H2]. by split.
Qed.

(** The three loops of a resolution. *)
Lemma resolve_facts prefs : ∃ r1 r2, overridden (preferences_iter prefs) r1 ∧ step_ok primary_source all_commands r1 r2 ∧
  r2 = foldl (resolve_primary p) r1 all_commands ∧ step_ok alias_source all_commands r2 (resolve_keymap p prefs) ∧
  resolve_keymap p prefs = foldl (resolve_aliases p) r2 all_commands ∧ ∀ c, is_Some (rk_commands r2 !! c).
Proof.
  pose proof (override_loop (preferences_iter prefs) (preferences_iter_NoDup prefs)) as H1. set (r1 := foldl _ _ (preferences_iter prefs)) in H1.
  pose proof (step_loop primary_source (resolve_primary p) all_commands primary_step r1 (ov_ok _ _ H1)) as H2.
  set (r2 := foldl _ r1 all_commands) in *.
  pose proof (step_loop alias_source (resolve_aliases p) all_commands (λ r c Hr, proj1 (aliases_step r c Hr)) r2 (st_ok _ _ _ _ H2)) as H3.
  exists r1, r2. split; [done|]. split; [done|]. split; [done|]. split; [exact H3|]. split; [done|]. intros c.
  assert (∀ l r, keymap_ok r → c ∈ l → is_Some (rk_commands (foldl (resolve_primary p) r l) !! c)) as Hgo; [|exact (Hgo all_commands r1 (ov_ok _ _ H1) (all_commands_complete c))].
  induction l as [|d l IH]; intros r Hr; [by intros ?%not_elem_of_nil|]. cbn [foldl]. pose proof (primary_step r d Hr) as Hs.
  intros [->|Hc]%elem_of_cons; [|by apply IH; [exact (st_ok _ _ _ _ Hs)|]]. destruct (primary_entry r d) as [e He].
  destruct (proj2 (st_extends _ _ _ _ (step_loop _ _ l primary_step _ (st_ok _ _ _ _ Hs))) d e He) as (more & -> & _). done.
Qed.
Lemma resolve_ok prefs : keymap_ok (resolve_keymap p prefs).
Proof. destruct (resolve_facts prefs) as (r1 & r2 & _ & _ & _ & H & _). exact (st_ok _ _ _ _ H). Qed.

#[local] Opaque resolve_keymap all_commands.

(** An active override whose chord no other override names owns it. *)
Lemma override_wins prefs c t : prefs !! c = Some (Some t) → check_shortcut p t = Ok () →
  (∀ d u, d ≠ c → prefs !! d = Some (Some u) → resolve_shortcut (pf_layout p) u ≠ resolve_shortcut (pf_layout p) t) →
  rk_shortcuts (resolve_keymap p prefs) c = [resolve_shortcut (pf_layout p) t] ∧ rk_state (resolve_keymap p prefs) c = State_Overridden.
Proof.
  intros Hc Hk Hothers. destruct (resolve_facts prefs) as (r1 & r2 & H1 & H2 & _ & H3 & _). apply preferences_iter_elem in Hc as Hin.
  pose proof (ov_entry _ _ H1 _ _ Hin) as He. cbn in He. rw Hk in He.
  assert (rk_commands r1 !! c = Some {| rc_shortcuts := [resolve_shortcut (pf_layout p) t]; rc_state := State_Overridden |}) as E.
  { destruct He as [|(by_ & E & Ho)]; [done|]. destruct (ov_owner _ _ H1 _ _ Ho) as (v & Hv & u & -> & Eu & _ & E2). apply preferences_iter_elem in Hv.
    destruct (decide (by_ = c)) as [->|Hne]; [congruence|]. by destruct (Hothers by_ u Hne Hv). }
  destruct (proj2 (st_extends _ _ _ _ H2) c _ E) as (more & E2 & Hm). cbn in E2, Hm. rw Hm in E2; [done|].
  destruct (proj2 (st_extends _ _ _ _ H3) c _ E2) as (more' & E3 & Hm'). cbn [rc_shortcuts rc_state] in E3, Hm'. rw Hm' in E3; [done|].
  unfold rk_shortcuts, rk_state. by rw E3.
Qed.

(** A chord that an active override names is owned by an override of it. *)
Lemma override_owned prefs c t : prefs !! c = Some (Some t) → check_shortcut p t = Ok () →
  ∃ d, rk_owner (resolve_keymap p prefs) (resolve_shortcut (pf_layout p) t) = Some d ∧
    rk_shortcuts (resolve_keymap p prefs) d = [resolve_shortcut (pf_layout p) t].
Proof.
  intros Hc Hk. destruct (resolve_facts prefs) as (r1 & r2 & H1 & H2 & _ & H3 & _). apply preferences_iter_elem in Hc as Hin.
  pose proof (ov_entry _ _ H1 _ _ Hin) as He. cbn in He. rw Hk in He. set (s := resolve_shortcut (pf_layout p) t) in *.
  assert (∃ d, rk_owner r1 s = Some d ∧ rk_commands r1 !! d = Some {| rc_shortcuts := [s]; rc_state := State_Overridden |}) as (d & Ho & E).
  { destruct He as [E|(by_ & _ & Ho)].
    - exists c. split; [|done]. apply (km_claims _ (ov_ok _ _ H1)). unfold rk_shortcuts. rw E. by left.
    - exists by_. split; [done|]. by destruct (ov_owner _ _ H1 _ _ Ho) as (v & _ & u & _ & _ & _ & E2). }
  exists d. split; [by apply (proj1 (st_extends _ _ _ _ H3)), (proj1 (st_extends _ _ _ _ H2))|].
  destruct (proj2 (st_extends _ _ _ _ H2) d _ E) as (more & E2 & Hm). cbn in E2, Hm. rw Hm in E2; [done|].
  destruct (proj2 (st_extends _ _ _ _ H3) d _ E2) as (more' & E3 & Hm'). cbn [rc_shortcuts rc_state] in E3, Hm'. rw Hm' in E3; [done|].
  unfold rk_shortcuts. by rw E3.
Qed.

(** A chord in use is an override's or a default's. *)
Lemma owner_source prefs c s : rk_owner (resolve_keymap p prefs) s = Some c →
  (∃ t, prefs !! c = Some (Some t) ∧ resolve_shortcut (pf_layout p) t = s ∧ rk_shortcuts (resolve_keymap p prefs) c = [s]) ∨ s ∈ defaults_of p c.
Proof.
  intros Ho. destruct (resolve_facts prefs) as (r1 & r2 & H1 & H2 & _ & H3 & _).
  destruct (st_owner _ _ _ _ H3 _ _ Ho) as [Ho2|[_ Ho2]]; [|by right]. destruct (st_owner _ _ _ _ H2 _ _ Ho2) as [Ho1|[_ Ho1]]; [|right; by apply head_default].
  clear Ho. rename Ho1 into Ho.
  left. destruct (ov_owner _ _ H1 _ _ Ho) as (v & Hv & t & -> & Et & Hk & _). apply preferences_iter_elem in Hv. exists t. split; [done|]. split; [done|].
  destruct (override_owned prefs c t Hv Hk) as (d & Ho' & Hd). rw Et in Ho' Hd.
  pose proof (proj1 (st_extends _ _ _ _ H3) _ _ (proj1 (st_extends _ _ _ _ H2) _ _ Ho)). congruence.
Qed.

(** The layout keeps a Command's defaults apart from those of the others. *)
Definition own_defaults c : Prop := ∀ d s, s ∈ defaults_of p c → s ∈ defaults_of p d → d = c.

(** A Command without an override has its defaults when no other Command's override names one. *)
Lemma default_wins prefs c primary : own_defaults c → prefs !! c = None → head (defaults_of p c) = Some primary →
  check_shortcut p primary = Ok () →
  (∀ d u, prefs !! d = Some (Some u) → resolve_shortcut (pf_layout p) u ∉ defaults_of p c) →
  rk_shortcut (resolve_keymap p prefs) c = Some primary ∧ rk_state (resolve_keymap p prefs) c = State_Default ∧
  ∀ s, s ∈ defaults_of p c → check_ok p s = true → rk_owner (resolve_keymap p prefs) s = Some c.
Proof.
  intros Hd Hc Hh Hk Hothers. destruct (resolve_facts prefs) as (r1 & r2 & H1 & H2 & E2 & H3 & E3 & _).
  destruct (list_elem_of_split _ _ (all_commands_complete c)) as (l1 & l2 & El). pose proof all_commands_NoDup as Hn. rw El in Hn.
  apply NoDup_app in Hn as (_ & Hn & _). assert (c ∉ l1) as Hl1 by (intros Hin; apply (Hn c Hin); by left). clear Hn.
  rw El foldl_app in E2. cbn [foldl] in E2. rw El foldl_app in E3. cbn [foldl] in E3.
  pose proof (step_loop primary_source (resolve_primary p) l1 primary_step r1 (ov_ok _ _ H1)) as A1. remember (foldl (resolve_primary p) r1 l1) as ra eqn:Era. clear Era.
  assert (rk_commands ra !! c = None) as Ea.
  { rw (st_others _ _ _ _ A1 c Hl1). apply (ov_none _ _ H1). intros ([d v] & -> & Hin)%list_elem_of_fmap. apply preferences_iter_elem in Hin. cbn in Hc. congruence. }
  assert (rk_owner ra primary = None) as Eo.
  { apply eq_None_not_Some. intros [d Ho]. destruct (st_owner _ _ _ _ A1 _ _ Ho) as [Ho'|[Hin Hp]].
    - destruct (ov_owner _ _ H1 _ _ Ho') as (v & Hv & u & -> & Eu & _). apply preferences_iter_elem in Hv. apply (Hothers d u Hv). rw Eu. by apply head_default.
    - by rw (Hd d primary (head_default _ _ Hh) (head_default _ _ Hp)) in Hin. }
  assert (resolve_primary p ra c = claim c primary State_Default ra) as Ec.
  { unfold resolve_primary. rw bool_decide_eq_false_2; [by rw Ea; intros [? ?]|]. by rw Hh Hk Eo. }
  rw Ec in E2. pose proof (primary_step ra c (st_ok _ _ _ _ A1)) as A2. rw Ec in A2.
  assert (rk_commands (claim c primary State_Default ra) !! c = Some {| rc_shortcuts := [primary]; rc_state := State_Default |}) as Eb by apply lookup_insert_eq.
  remember (claim c primary State_Default ra) as rb eqn:Erb. clear Erb Ec.
  pose proof (step_loop primary_source (resolve_primary p) l2 primary_step rb (st_ok _ _ _ _ A2)) as A3. rw -E2 in A3.
  destruct (proj2 (st_extends _ _ _ _ A3) c _ Eb) as (more & Eb2 & _). cbn [rc_shortcuts rc_state] in Eb2.
  pose proof (step_loop alias_source (resolve_aliases p) l1 (λ r c Hr, proj1 (aliases_step r c Hr)) r2 (st_ok _ _ _ _ H2)) as B1. remember (foldl (resolve_aliases p) r2 l1) as rc eqn:Erc. clear Erc.
  destruct (proj2 (st_extends _ _ _ _ B1) c _ Eb2) as (more' & Ec2 & _). cbn [rc_shortcuts rc_state] in Ec2.
  assert (rk_state rc c = State_Default) as Est by (unfold rk_state; by rw Ec2).
  destruct (aliases_step rc c (st_ok _ _ _ _ B1)) as [B2 Hal]. specialize (Hal Est ltac:(by rw Ec2)). remember (resolve_aliases p rc c) as rd eqn:Erd. clear Erd.
  pose proof (step_loop alias_source (resolve_aliases p) l2 (λ r c Hr, proj1 (aliases_step r c Hr)) rd (st_ok _ _ _ _ B2)) as B3. rw -E3 in B3.
  destruct (proj2 (st_extends _ _ _ _ H3) c _ Eb2) as (more2 & Ef & _). cbn [rc_shortcuts rc_state] in Ef.
  split; [unfold rk_shortcut, rk_shortcuts; by rw Ef|]. split; [unfold rk_state; by rw Ef|].
  assert (∀ s d, s ∈ defaults_of p c → rk_owner (resolve_keymap p prefs) s = Some d → d = c) as Hown.
  { intros s d Hs Ho. destruct (owner_source prefs d s Ho) as [(t & Ht & Et & _)|Hin]; [|by apply (Hd d s)]. destruct (Hothers d t Ht). by rw Et. }
  intros s Hs Hks. destruct (defaults_of p c) as [|first rest] eqn:Edef; [done|]. cbn in Hh. injection Hh as ->.
  apply elem_of_cons in Hs as [->|Hs].
  - apply (km_claims _ (resolve_ok prefs)). unfold rk_shortcuts. rw Ef. by left.
  - cbn [drop] in Hal. destruct (Hal s Hs Hks) as [d Ho]. apply (proj1 (st_extends _ _ _ _ B3)) in Ho as Hfin.
    assert (d = c) as -> by (apply (Hown s d); [by right|done]). done.
Qed.

(** ** Changing a keybinding *)

Lemma retain_other c d v prefs : d ≠ c → retain_binding p c v prefs !! d = prefs !! d.
Proof. intros Hne. unfold retain_binding. destruct (match default [] _ with [] => _ | _ => _ end); [by rw lookup_delete_ne|by rw lookup_insert_ne]. Qed.
Lemma retain_same c v prefs : retain_binding p c v prefs !! c = Some v ∨
  (retain_binding p c v prefs !! c = None ∧ default [] (pf_defaults p !! c) = match v with Some s => [s] | None => [] end).
Proof.
  unfold retain_binding. destruct (default [] (pf_defaults p !! c)) as [|d []], v as [u|];
    rw ?lookup_insert_eq ?lookup_delete_eq; auto. case_bool_decide as E; rw ?lookup_insert_eq ?lookup_delete_eq; [right; by rw E|by left].
Qed.

Lemma retain_all l d : ∀ prefs, let prefs' := foldl (λ prefs other, retain_binding p other None prefs) prefs l in
  (d ∉ l → prefs' !! d = prefs !! d) ∧ (d ∈ l → ∀ t, prefs' !! d ≠ Some (Some t)).
Proof.
  induction l as [|c l IH]; intros prefs; cbn [foldl]; [split; [done|by intros ?%not_elem_of_nil]|]. destruct (IH (retain_binding p c None prefs)) as [H1 H2].
  split.
  - intros Hd. rw H1; [intros Hin; apply Hd; by right|]. apply retain_other. intros ->. apply Hd. by left.
  - intros Hd t. destruct (decide (d ∈ l)) as [Hin|Hni]; [by apply H2|]. apply elem_of_cons in Hd as [->|]; [|done].
    rw (H1 Hni). destruct (retain_same c None prefs) as [->|[-> _]]; done.
Qed.

(** What displacing leaves: nothing but the Command names the chord; only those that named it and its
    owner change; and the owner keeps its primary if it lost an alias. *)
Lemma displace_spec c s prefs :
  let '(prefs', displaced) := displace p c s prefs in
  let chord := resolve_shortcut (pf_layout p) s in
  let resolved := resolve_keymap p prefs in
  (∀ d t, d ≠ c → prefs' !! d = Some (Some t) → resolve_shortcut (pf_layout p) t ≠ chord) ∧ prefs' !! c = prefs !! c ∧
  (∀ d, displaced = Some d ↔ rk_owner resolved chord = Some d ∧ d ≠ c) ∧
  (∀ d t, prefs' !! d = Some (Some t) → prefs !! d = Some (Some t) ∨ (displaced = Some d ∧ rk_shortcut resolved d = Some t ∧ t ≠ chord)) ∧
  (∀ d, d ≠ c → displaced ≠ Some d → (∀ t, prefs !! d = Some (Some t) → resolve_shortcut (pf_layout p) t ≠ chord) → prefs' !! d = prefs !! d) ∧
  (∀ d t, displaced = Some d → rk_shortcut resolved d = Some t → t ≠ chord → prefs' !! d = Some (Some t) ∨ default [] (pf_defaults p !! d) = [t]).
Proof.
  unfold displace. set (chord := resolve_shortcut (pf_layout p) s). set (resolved := resolve_keymap p prefs).
  set (conflicts := vfilter _ all_commands). set (prefs1 := foldl _ prefs conflicts).
  set (displaced := match rk_owner resolved chord with Some owner => if bool_decide (owner = c) then None else Some owner | None => None end).
  assert (∀ d, d ∈ conflicts ↔ d ≠ c ∧ ∃ t, prefs !! d = Some (Some t) ∧ resolve_shortcut (pf_layout p) t = chord) as Hconf.
  { intros d. unfold conflicts. rw elem_of_vfilter. split.
    - intros [H _]. destruct (prefs !! d) as [[t|]|]; [|done|done]. apply andb_true_iff in H as [H1%negb_true_iff%bool_decide_eq_false H2%bool_decide_eq_true]. eauto.
    - intros (Hne & t & -> & Et). split; [|apply all_commands_complete]. rw bool_decide_eq_false_2 // bool_decide_eq_true_2 //. }
  assert (∀ d, displaced = Some d ↔ rk_owner resolved chord = Some d ∧ d ≠ c) as Hdis.
  { intros d. unfold displaced. destruct (rk_owner resolved chord) as [o|]; [case_bool_decide|]; naive_solver. }
  assert (∀ d t, prefs1 !! d = Some (Some t) → prefs !! d = Some (Some t) ∧ (d ≠ c → resolve_shortcut (pf_layout p) t ≠ chord)) as H1.
  { intros d t Hd. destruct (retain_all conflicts d prefs) as [Ha Hb]. fold prefs1 in Ha, Hb. destruct (decide (d ∈ conflicts)) as [Hin|Hni]; [by apply Hb in Hd|].
    rw (Ha Hni) in Hd. split; [done|]. intros Hne Et. apply Hni, Hconf. eauto. }
  assert (∀ d, d ∉ conflicts → prefs1 !! d = prefs !! d) as H2 by (intros d; apply (retain_all conflicts d prefs)).
  assert (c ∉ conflicts) as Hc by (intros [? _]%Hconf; done). clearbody displaced prefs1.
  destruct displaced as [owner|].
  2:{ split; [intros d t Hne Hd; by apply (H1 d t)|]. split; [by apply H2|]. split; [done|]. split; [intros d t Hd; left; by apply H1|].
      split; [|done]. intros d Hne _ Ht. apply H2. intros (_ & t & E & Et)%Hconf. by apply (Ht t). }
  destruct (proj1 (Hdis owner) eq_refl) as [Ho Hne].
  set (kept := match rk_shortcut resolved owner with Some primary => if bool_decide (primary = chord) then None else Some primary | None => None end).
  assert (∀ t, kept = Some t → rk_shortcut resolved owner = Some t ∧ t ≠ chord ∧ resolve_shortcut (pf_layout p) t = t) as Hkept.
  { intros t Hk. unfold kept in Hk. destruct (rk_shortcut resolved owner) as [u|] eqn:Eu; [|done]. case_bool_decide; [done|]. injection Hk as ->. split; [done|].
    split; [done|]. apply (km_claims _ (resolve_ok prefs) owner). unfold rk_shortcut in Eu. fold resolved. destruct (rk_shortcuts resolved owner); [done|].
    injection Eu as ->. by left. }
  assert (∀ d t, retain_binding p owner kept prefs1 !! d = Some (Some t) → (d ≠ owner ∧ prefs1 !! d = Some (Some t)) ∨ (d = owner ∧ kept = Some t)) as Hr.
  { intros d t Hd. destruct (decide (d = owner)) as [->|Hdo]; [right|left; by rw retain_other in Hd].
    destruct (retain_same owner kept prefs1) as [E|[E _]]; rw E in Hd; [|done]. split; [done|congruence]. }
  split; [intros d t Hdc [[_ Hd]|[-> Hk]]%Hr; [by apply (H1 d t)|destruct (Hkept t Hk) as (_ & ? & E); by rw E]|].
  split; [rw retain_other; [congruence|by apply H2]|]. split; [done|]. split.
  - intros d t [[_ Hd]|[-> Hk]]%Hr; [left; by apply H1|right]. destruct (Hkept t Hk) as (? & ? & _). done.
  - split; [intros d Hdc Hdo Ht; rw retain_other; [congruence|]; apply H2; intros (_ & t & E & Et)%Hconf; by apply (Ht t)|].
    intros d t [= ->] Ht Hne'. assert (kept = Some t) as -> by (unfold kept; by rw Ht bool_decide_eq_false_2).
    destruct (retain_same d (Some t) prefs1) as [E|[_ E]]; [by left|by right].
Qed.

(** A resolution's entries, and what it reports as inactive. *)
Lemma resolve_entries prefs c : is_Some (rk_commands (resolve_keymap p prefs) !! c).
Proof.
  destruct (resolve_facts prefs) as (r1 & r2 & _ & _ & _ & H3 & _ & H). destruct (H c) as [e He].
  by destruct (proj2 (st_extends _ _ _ _ H3) c e He) as (more & -> & _).
Qed.
Lemma resolve_inactive prefs c reservation :
  rk_inactive (resolve_keymap p prefs) !! c = Some reservation ↔ ∃ t, prefs !! c = Some (Some t) ∧ check_shortcut p t = Err reservation.
Proof.
  destruct (resolve_facts prefs) as (r1 & r2 & H1 & H2 & _ & H3 & _). rw (st_inactive _ _ _ _ H3) (st_inactive _ _ _ _ H2).
  assert (∀ t res, prefs !! c = Some (Some t) → check_shortcut p t = Err res → rk_inactive r1 !! c = Some res) as Hi.
  { intros t res Hc Hk. apply preferences_iter_elem in Hc. pose proof (ov_entry _ _ H1 _ _ Hc) as He. cbn in He. rw Hk in He. apply He. }
  split; [|intros (t & Hc & Hk); by apply (Hi t)]. intros E. destruct (prefs !! c) as [v|] eqn:Hc.
  - apply preferences_iter_elem in Hc as Hin. destruct (ov_reported _ _ H1 _ _ Hin ltac:(by rw E)) as (t & -> & Hk). exists t. split; [done|].
    unfold check_ok in Hk. destruct (check_shortcut p t) as [|res] eqn:Ek; [done|]. specialize (Hi t res eq_refl Ek). congruence.
  - destruct (ov_none _ _ H1 c) as [_ E']; [|congruence]. intros ([d v] & -> & Hin)%list_elem_of_fmap. apply preferences_iter_elem in Hin. cbn in Hc. congruence.
Qed.
Lemma resolve_unassigned prefs c : prefs !! c = Some None → rk_shortcuts (resolve_keymap p prefs) c = [] ∧ rk_state (resolve_keymap p prefs) c = State_Unassigned.
Proof.
  intros Hc. destruct (resolve_facts prefs) as (r1 & r2 & H1 & H2 & _ & H3 & _). apply preferences_iter_elem in Hc.
  pose proof (ov_entry _ _ H1 _ _ Hc) as E. cbn in E. destruct (proj2 (st_extends _ _ _ _ H2) c _ E) as (more & E2 & Hm). cbn in E2, Hm.
  rw Hm in E2; [done|]. destruct (proj2 (st_extends _ _ _ _ H3) c _ E2) as (more' & E3 & Hm'). cbn in E3, Hm'. rw Hm' in E3; [done|].
  unfold rk_shortcuts, rk_state. by rw E3.
Qed.

(** C17. Whatever the profile and whatever the file of settings retains, a resolution gives every Command
    an entry and no chord two owners: the chords listed for a Command are the chords it owns, each once,
    none reserved for the terminal or the desktop; an override that this host reserves is reported as
    inactive with the reason; a Command left unassigned has no chord. *)
Theorem keymap_single_owner prefs : let r := resolve_keymap p prefs in
  (∀ c s, s ∈ rk_shortcuts r c ↔ rk_owner r s = Some c) ∧
  (∀ c, NoDup (rk_shortcuts r c) ∧ is_Some (rk_commands r !! c)) ∧
  (∀ s c, rk_owner r s = Some c → check_shortcut p s = Ok () ∧
    (s ∈ defaults_of p c ∨ ∃ t, prefs !! c = Some (Some t) ∧ resolve_shortcut (pf_layout p) t = s)) ∧
  (∀ c reservation, rk_inactive r !! c = Some reservation ↔ ∃ t, prefs !! c = Some (Some t) ∧ check_shortcut p t = Err reservation) ∧
  (∀ c, prefs !! c = Some None → rk_shortcuts r c = [] ∧ rk_state r c = State_Unassigned).
Proof.
  intros r. destruct (resolve_ok prefs) as [H1 H2 H3]. fold r in H1, H2, H3. split; [intros c s; split; [intros Hs; apply (H1 c s Hs)|apply H2]|].
  split; [intros c; split; [apply H3|apply resolve_entries]|]. split; [|split; [apply resolve_inactive|apply resolve_unassigned]].
  intros s c Ho. split; [apply (H1 c), (H2 s c Ho)|]. destruct (owner_source prefs c s Ho) as [(t & ? & ? & _)|]; eauto.
Qed.

(** A Command that lost an alias keeps its primary. *)
Lemma displaced_primary c s prefs d primary : let '(prefs', _) := displace p c s prefs in
  let chord := resolve_shortcut (pf_layout p) s in
  rk_owner (resolve_keymap p prefs) chord = Some d → d ≠ c → rk_shortcut (resolve_keymap p prefs) d = Some primary → primary ≠ chord →
  check_shortcut p primary = Ok () ∧ resolve_shortcut (pf_layout p) primary = primary ∧ prefs' !! d = Some (Some primary) ∧
  ∀ e u, e ≠ c → e ≠ d → prefs' !! e = Some (Some u) → resolve_shortcut (pf_layout p) u ≠ primary.
Proof.
  pose proof (displace_spec c s prefs) as Hdis. destruct (displace p c s prefs) as [prefs' displaced]. cbv zeta in Hdis |- *.
  destruct Hdis as (_ & _ & Hd & Hin & _ & Hkeep). set (chord := resolve_shortcut (pf_layout p) s) in *. intros Ho Hne Hp Hpc.
  destruct (resolve_ok prefs) as [K1 K2 _].
  assert (primary ∈ rk_shortcuts (resolve_keymap p prefs) d) as Hpin.
  { unfold rk_shortcut in Hp. destruct (rk_shortcuts _ d); [done|]. injection Hp as ->. by left. }
  destruct (K1 _ _ Hpin) as (Hpo & Hpk & Hpr). split; [done|]. split; [done|].
  assert (rk_shortcuts (resolve_keymap p prefs) d ≠ [primary]) as Hmore.
  { intros E. apply K2 in Ho. rw E in Ho. apply list_elem_of_singleton in Ho. congruence. }
  assert (displaced = Some d) as Ed by by apply Hd. split.
  - destruct (Hkeep d primary Ed Hp Hpc) as [|Edef]; [done|]. destruct (owner_source prefs d chord Ho) as [(t & _ & _ & E)|Hc].
    + unfold rk_shortcut in Hp. rw E in Hp. cbn in Hp. congruence.
    + unfold defaults_of in Hc. rw Edef in Hc. cbn in Hc. apply list_elem_of_singleton in Hc. congruence.
  - intros e u Hec Hed Hu Eu. destruct (Hin e u Hu) as [Hold|(Hde & _)]; [|congruence].
    destruct (override_owned prefs e u Hold) as (o & Hoo & Hos); [by rw -check_resolved Eu|]. rw Eu in Hoo Hos.
    assert (o = d) as -> by congruence. congruence.
Qed.


(** Taking back defaults: none of them is named by another Command's override, and nothing else changes. *)
Lemma reset_loop c l : own_defaults c → (∀ s, s ∈ l → s ∈ defaults_of p c) → ∀ taken prefs, (∀ s, s ∈ taken → s ∈ defaults_of p c) →
  (∀ d u, d ≠ c → prefs !! d = Some (Some u) → resolve_shortcut (pf_layout p) u ∉ taken) →
  let prefs' := foldl (λ prefs s, (displace p c s prefs).1) prefs l in
  (∀ d u, d ≠ c → prefs' !! d = Some (Some u) → resolve_shortcut (pf_layout p) u ∉ taken ++ l) ∧
  (∀ d, d ≠ c → (∀ t, prefs !! d = Some (Some t) → resolve_shortcut (pf_layout p) t ∉ defaults_of p c) → prefs' !! d = prefs !! d).
Proof.
  intros Hown. induction l as [|s l IH]; intros Hl taken prefs Htaken Hfree; cbn [foldl]; [by rw app_nil_r|].
  pose proof (displace_spec c s prefs) as Hdis. destruct (displace p c s prefs) as [prefs1 displaced]. cbv zeta in Hdis. cbn [fst].
  assert (s ∈ defaults_of p c) as Hs by (apply Hl; by left). rw (defaults_resolved c s Hs) in Hdis. destruct Hdis as (H1 & _ & H3 & H4 & H5 & _).
  assert (∀ d t, d ≠ c → t ∈ defaults_of p c → rk_owner (resolve_keymap p prefs) t = Some d → ∃ u, prefs !! d = Some (Some u) ∧ resolve_shortcut (pf_layout p) u = t) as Howner.
  { intros d t Hdc Ht Ho. destruct (owner_source prefs d t Ho) as [(u & ? & ? & _)|Hd]; [eauto|]. by destruct Hdc; apply (Hown d t). }
  destruct (IH (λ t Ht, Hl t (list_elem_of_further _ _ _ Ht)) (taken ++ [s]) prefs1) as [A1 A2].
  - intros t [Ht| ->%list_elem_of_singleton]%elem_of_app; auto.
  - intros d u Hdc Hu [Ht|Ht%list_elem_of_singleton]%elem_of_app; [|by apply (H1 d u)]. destruct (H4 d u Hu) as [Hold|(Hd & Hp & _)]; [by apply (Hfree d u)|].
    assert (u ∈ rk_shortcuts (resolve_keymap p prefs) d) as Hin by (unfold rk_shortcut in Hp; destruct (rk_shortcuts _ d); [done|]; injection Hp as ->; by left).
    destruct (km_claims _ (resolve_ok prefs) d u Hin) as (Ho & _ & Eu). rw Eu in Ht. destruct (Howner d u Hdc (Htaken u Ht) Ho) as (v & Hv & Ev).
    apply (Hfree d v Hdc Hv). by rw Ev.
  - rw -app_assoc in A1. split; [exact A1|]. intros d Hdc Ht.
    assert (prefs1 !! d = prefs !! d) as E; [|rw A2 //; by rw E].
    apply H5; [done| |intros t Hd Et; apply (Ht t Hd); by rw Et]. intros [Ho _]%H3. destruct (Howner d s Hdc Hs Ho) as (u & Hu & Eu). apply (Ht u Hu). by rw Eu.
Qed.

(** Resetting a Command whose primary is free for applications restores it: its first chord is its
    primary, it owns every default that is not reserved, and no entry changes but its own and those that
    name one of its defaults. *)
Theorem reset_restores prefs c primary : own_defaults c → head (defaults_of p c) = Some primary → check_shortcut p primary = Ok () →
  let prefs' := reset_binding p c prefs in
  let resolved' := resolve_keymap p prefs' in
  prefs' !! c = None ∧ rk_shortcut resolved' c = Some primary ∧ rk_state resolved' c = State_Default ∧
  (∀ s, s ∈ defaults_of p c → check_ok p s = true → rk_owner resolved' s = Some c) ∧
  (∀ d, d ≠ c → (∀ t, prefs !! d = Some (Some t) → resolve_shortcut (pf_layout p) t ∉ defaults_of p c) → prefs' !! d = prefs !! d).
Proof.
  intros Hown Hh Hk. cbv zeta. unfold reset_binding. set (prefs1 := foldl _ prefs (defaults_of p c)).
  destruct (reset_loop c (defaults_of p c) Hown (λ s H, H) [] prefs) as [H1 H2]; [by intros s ?%not_elem_of_nil|by intros *; intros _ _ ?%not_elem_of_nil|].
  fold prefs1 in H1, H2. cbn [app] in H1. split; [apply lookup_delete_eq|].
  destruct (default_wins (delete c prefs1) c primary Hown) as (E1 & E2 & E3); [apply lookup_delete_eq|done|done| |].
  - intros d u Hu. destruct (decide (c = d)) as [<-|Hdc]; [by rw lookup_delete_eq in Hu|]. rw lookup_delete_ne // in Hu. by apply (H1 d u).
  - split; [done|]. split; [done|]. split; [done|]. intros d Hdc Ht. rw lookup_delete_ne //. by apply H2.
Qed.

(** ** Preferences stay valid *)

(** No two Commands retain one spelling. *)
Definition unique_overrides prefs : Prop := ∀ c d t, prefs !! c = Some (Some t) → prefs !! d = Some (Some t) → c = d.

Lemma no_duplicates_spec l : ∀ seen, no_duplicates seen l = true ↔ NoDup l ∧ ∀ s, s ∈ l → s ∉ seen.
Proof.
  induction l as [|s l IH]; intros seen; cbn [no_duplicates]; [split; [split; [constructor|by intros s ?%not_elem_of_nil]|done]|].
  rw andb_true_iff negb_true_iff bool_decide_eq_false IH NoDup_cons. split.
  - intros (Hs & Hn & Hl). split; [split; [intros Hin; by apply (Hl s Hin); left|done]|].
    intros t [->|Ht]%elem_of_cons; [done|]. intros Hin. apply (Hl t Ht). by right.
  - intros ((Hs & Hn) & Hl). split; [apply Hl; by left|]. split; [done|]. intros t Ht [->|Hin]%elem_of_cons; [done|]. by apply (Hl t); [right|].
Qed.
Lemma NoDup_overrides (l : list (Command * option Shortcut)) : NoDup (map fst l) →
  (NoDup (omap snd l) ↔ ∀ c d t, (c, Some t) ∈ l → (d, Some t) ∈ l → c = d).
Proof.
  induction l as [|[c v] l IH]; cbn [map omap list_omap fst snd]; [split; [by intros _ c d t ?%not_elem_of_nil|constructor]|].
  intros [Hc Hn]%NoDup_cons. assert (∀ w, (c, w) ∉ l) as Hcl by (intros w Hin; apply Hc, list_elem_of_fmap; by exists (c, w)).
  destruct v as [t|]; cbn.
  - change (omap snd l) with (list_omap _ _ snd l) in IH. rw NoDup_cons (IH Hn). split.
    + intros [Ht Hl] a b u [E|Ha]%elem_of_cons [E'|Hb]%elem_of_cons; try congruence; [..|by apply (Hl a b u)];
        destruct Ht; apply (list_elem_of_omap snd l); [exists (b, Some t)|exists (a, Some t)]; (split; [congruence|done]).
    + intros Hl. split.
      * intros ([d w] & Hin & E)%(list_elem_of_omap snd l). cbn in E. subst w. apply (Hcl (Some t)).
        by rw (Hl c d t ltac:(by left) ltac:(by right)).
      * intros a b u Ha Hb. apply (Hl a b u); by right.
  - rw (IH Hn). split.
    + intros Hl a b u [E|Ha]%elem_of_cons [E'|Hb]%elem_of_cons; try congruence. by apply (Hl a b u).
    + intros Hl a b u Ha Hb. apply (Hl a b u); by right.
Qed.
Lemma preferences_validate_spec prefs : preferences_validate prefs = true ↔ unique_overrides prefs.
Proof.
  unfold preferences_validate. rw no_duplicates_spec (NoDup_overrides _ (preferences_iter_NoDup prefs)). split.
  - intros [H _] c d t Hc Hd. by apply (H c d t); apply preferences_iter_elem.
  - intros H. split; [intros c d t Hc%preferences_iter_elem Hd%preferences_iter_elem; by apply (H c d t)|by intros s _ ?%not_elem_of_nil].
Qed.

Lemma displace_unique c s prefs : unique_overrides prefs → unique_overrides (displace p c s prefs).1.
Proof.
  intros Hu. pose proof (displace_spec c s prefs) as Hdis. pose proof (displaced_primary c s prefs) as Hprimary.
  destruct (displace p c s prefs) as [prefs' displaced]. cbv zeta in Hdis, Hprimary. cbn [fst]. destruct Hdis as (H1 & H2 & H3 & H4 & _).
  assert (∀ d t, prefs' !! d = Some (Some t) → prefs !! d = Some (Some t) ∨
    ∀ e, e ≠ d → prefs' !! e = Some (Some t) → e = c) as Hnew.
  { intros d t Hd. destruct (H4 d t Hd) as [|(Ed & Hp & Hne)]; [by left|right]. intros e Hed He. apply H3 in Ed as [Ho Hdc].
    destruct (Hprimary d t Ho Hdc Hp Hne) as (_ & Er & _ & Hothers). destruct (decide (e = c)) as [|Hec]; [done|]. by destruct (Hothers e t Hec Hed He). }
  assert (∀ d t, d ≠ c → prefs' !! d = Some (Some t) → prefs' !! c = Some (Some t) → prefs !! d = Some (Some t)) as Hold.
  { intros d t Hdc Hd Hc. destruct (H4 d t Hd) as [|(Ed & Hp & Hne)]; [done|]. exfalso. rw H2 in Hc. apply H3 in Ed as [Ho _].
    destruct (Hprimary d t Ho Hdc Hp Hne) as (Hk & Er & _). destruct (override_owned prefs c t Hc Hk) as (o & Hoo & Hos). rw Er in Hoo Hos.
    assert (t ∈ rk_shortcuts (resolve_keymap p prefs) d) as Hin by (unfold rk_shortcut in Hp; destruct (rk_shortcuts _ d); [done|]; injection Hp as ->; by left).
    destruct (resolve_ok prefs) as [K1 K2 _]. destruct (K1 _ _ Hin) as [Ho' _]. assert (o = d) as -> by congruence.
    apply K2 in Ho. rw Hos in Ho. apply list_elem_of_singleton in Ho. congruence. }
  intros a b t Ha Hb. destruct (decide (a = b)) as [|Hab]; [done|]. exfalso.
  destruct (decide (a = c)) as [->|Hac]; [apply Hab, (Hu c b t); [congruence|by apply Hold]|].
  destruct (decide (b = c)) as [->|Hbc]; [apply Hab, (Hu a c t); [by apply Hold|congruence]|].
  destruct (Hnew a t Ha) as [Ea|Ea]; [|by apply Hbc, Ea]. destruct (Hnew b t Hb) as [Eb|Eb]; [|by apply Hac, Eb]. by apply Hab, (Hu a b t).
Qed.
Lemma delete_unique c prefs : unique_overrides prefs → unique_overrides (delete c prefs).
Proof. intros Hu a b t [_ Ha]%lookup_delete_Some [_ Hb]%lookup_delete_Some. by apply (Hu a b t). Qed.
Lemma assign_unique c v prefs : unique_overrides prefs → unique_overrides (assign p c v prefs).1.
Proof.
  intros Hu. unfold assign. destruct v as [s|].
  - destruct (check_shortcut p s) as [[]|]; [|done]. pose proof (displace_spec c s prefs) as Hdis. pose proof (displace_unique c s prefs Hu) as Hu'.
    destruct (displace p c s prefs) as [prefs1 displaced]. cbn [fst] in Hu' |- *. destruct Hdis as (H1 & _).
    assert (∀ d t, d ≠ c → retain_binding p c (Some s) prefs1 !! d = Some (Some t) → prefs1 !! d = Some (Some t) ∧ t ≠ s) as Ho.
    { intros d t Hdc Hd. rw retain_other // in Hd. split; [done|]. intros ->. by apply (H1 d s). }
    assert (∀ t, retain_binding p c (Some s) prefs1 !! c = Some (Some t) → t = s) as Hc.
    { intros t Ht. destruct (retain_same c (Some s) prefs1) as [E|[E _]]; congruence. }
    intros a b t Ha Hb. destruct (decide (a = c)) as [->|Hac], (decide (b = c)) as [->|Hbc]; [done|..].
    + apply Hc in Ha as ->. by destruct (Ho b s Hbc Hb).
    + apply Hc in Hb as ->. by destruct (Ho a s Hac Ha).
    + apply (Hu' a b t); [apply (Ho a t Hac Ha)|apply (Ho b t Hbc Hb)].
  - cbn [fst]. intros a b t Ha Hb.
    assert (∀ d, retain_binding p c None prefs !! d = Some (Some t) → prefs !! d = Some (Some t)) as Ho.
    { intros d Hd. destruct (decide (d = c)) as [->|Hdc]; [|by rw retain_other in Hd]. destruct (retain_same c None prefs) as [E|[E _]]; congruence. }
    by apply (Hu a b t); apply Ho.
Qed.
Lemma reset_unique c prefs : unique_overrides prefs → unique_overrides (reset_binding p c prefs).
Proof.
  intros Hu. unfold reset_binding. apply delete_unique. revert prefs Hu. induction (defaults_of p c) as [|s l IH]; intros prefs Hu; [done|].
  cbn [foldl]. by apply IH, displace_unique.
Qed.
End profile.

(** C19. No sequence of assignments and resets, on whatever keyboard layouts they happen, makes the
    retained settings invalid: two Commands never retain one Shortcut. *)
Theorem changes_keep_valid prefs changes : preferences_validate prefs = true → preferences_validate (foldl change_binding prefs changes) = true.
Proof.
  rw !(preferences_validate_spec). revert prefs. induction changes as [|[p change] changes IH]; intros prefs Hu; [done|].
  cbn [foldl]. apply IH. destruct change; [by apply assign_unique|by apply reset_unique].
Qed.

(** ** The shipped profiles install *)

(** A profile whose every default is its Command's own, and installed when nothing is overridden. *)
Definition profile_ready (p : KeymapProfile) : bool :=
  let r := resolve_keymap p ∅ in
  forallb (λ c,
    match defaults_of p c with
    | [] => is_empty (rk_shortcuts r c) && match rk_state r c with State_Unassigned => true | _ => false end
    | primary :: _ =>
        bool_decide (rk_shortcut r c = Some primary) && is_default_state (rk_state r c)
        && forallb (λ s, bool_decide (rk_owner r s = Some c)
                         && forallb (λ d, bool_decide (d = c) || negb (bool_decide (s ∈ defaults_of p d))) all_commands) (defaults_of p c)
    end) all_commands.
Definition shipped_ready (profile : option (result KeymapProfile KeymapProfileError)) : bool :=
  match profile with Some (Ok p) => profile_ready p | _ => false end.
Lemma profile_ready_spec p : profile_ready p = true → ∀ c, own_defaults p c ∧
  match defaults_of p c with
  | [] => rk_shortcuts (resolve_keymap p ∅) c = [] ∧ rk_state (resolve_keymap p ∅) c = State_Unassigned
  | primary :: _ => rk_shortcut (resolve_keymap p ∅) c = Some primary ∧ rk_state (resolve_keymap p ∅) c = State_Default ∧
                    ∀ s, s ∈ defaults_of p c → rk_owner (resolve_keymap p ∅) s = Some c
  end.
Proof.
  unfold profile_ready. cbv zeta. generalize (resolve_keymap p ∅). intros r H c. apply forallb_forall with (x := c) in H; [|apply list_elem_of_In, all_commands_complete].
  unfold own_defaults. destruct (defaults_of p c) as [|primary l] eqn:E.
  - split; [by intros d s ?%not_elem_of_nil|]. apply andb_true_iff in H as [H1 H2]. split; [by destruct (rk_shortcuts r c)|by destruct (rk_state r c)].
  - apply andb_true_iff in H as [[H1%bool_decide_eq_true H2]%andb_true_iff H3].
    assert (∀ s, s ∈ primary :: l → rk_owner r s = Some c ∧ ∀ d, s ∈ defaults_of p d → d = c) as Hs.
    { intros s Hs. apply forallb_forall with (x := s) in H3; [|by apply list_elem_of_In]. apply andb_true_iff in H3 as [Ho%bool_decide_eq_true Hd].
      split; [done|]. intros d Hin. apply forallb_forall with (x := d) in Hd; [|apply list_elem_of_In, all_commands_complete].
      apply orb_true_iff in Hd as [Hd%bool_decide_eq_true|Hd%negb_true_iff%bool_decide_eq_false]; done. }
    split; [intros d s H4 H5; by apply (Hs s H4)|]. split; [done|]. split; [by destruct (rk_state r c)|]. intros s H4. by apply Hs.
Qed.
Lemma shipped_ready_spec profile : shipped_ready profile = true → ∃ p, profile = Some (Ok p) ∧ profile_ready p = true.
Proof. destruct profile as [[p|]|]; [by exists p|done|done]. Qed.
Lemma macos_ready : shipped_ready macos_profile = true.
Proof. vm_compute. reflexivity. Qed.
Lemma linux_ready : shipped_ready linux_profile = true.
Proof. vm_compute. reflexivity. Qed.

(** The profiles shipped for macOS and for Linux pass their own validation: every spelling parses, no
    default is reserved for the terminal or the desktop, and with nothing overridden each Command that has
    defaults owns all of them, its primary first, while the others have no chord. *)
Theorem shipped_profiles_install : ∃ macos linux, macos_profile = Some (Ok macos) ∧ linux_profile = Some (Ok linux) ∧
  ∀ p c, p = macos ∨ p = linux → own_defaults p c ∧
    let r := resolve_keymap p ∅ in
    match defaults_of p c with
    | [] => rk_shortcuts r c = [] ∧ rk_state r c = State_Unassigned
    | primary :: _ => rk_shortcut r c = Some primary ∧ rk_state r c = State_Default ∧ ∀ s, s ∈ defaults_of p c → rk_owner r s = Some c
    end.
Proof.
  destruct (shipped_ready_spec _ macos_ready) as (macos & Em & Hm). destruct (shipped_ready_spec _ linux_ready) as (linux & El & Hl).
  exists macos, linux. split; [exact Em|]. split; [exact El|]. intros p c [-> | ->]; by apply profile_ready_spec.
Qed.

(** ** The installed bindings *)

Module Runtime.
Section runtime.
(** The framework's actions, and each Command's. *)
Context {A : Type} (action_of : Command → A).

(** The tag of a binding: one of the three this program replaces, or another's. *)
Inductive KeyTag := CUSTOMIZABLE_BINDINGS | CONTROL_BINDINGS | FIXED_BINDINGS | OtherTag (n : N).
#[export] Instance KeyTag_eq_dec : EqDecision KeyTag.
Proof. solve_decision. Defined.
(** [gpui::KeyBinding]; [None] for a binding without a tag. *)
Record KeyBinding := { kb_keystrokes : list (Modifiers * ustring); kb_action : A; kb_context : option string; kb_meta : option KeyTag }.
Definition with_meta (tag : KeyTag) (b : KeyBinding) : KeyBinding :=
  {| kb_keystrokes := kb_keystrokes b; kb_action := kb_action b; kb_context := kb_context b; kb_meta := Some tag |}.
Definition has_tag (tag : KeyTag) (b : KeyBinding) : bool := bool_decide (kb_meta b = Some tag).

(** [resolve_bindings]. *)
Definition resolve_binding (l : KeyboardLayout) (tag : KeyTag) (b : KeyBinding) : KeyBinding :=
  match kb_keystrokes b with
  | [(m, key)] =>
      match from_keystroke m key with
      | Ok s =>
          let s := resolve_shortcut l s in
          {| kb_keystrokes := [(ks_modifiers s, ks_key s)]; kb_action := kb_action b; kb_context := kb_context b; kb_meta := Some tag |}
      | Err _ => with_meta tag b
      end
  | _ => with_meta tag b
  end.
Definition resolve_bindings (sources : list KeyBinding) (l : KeyboardLayout) (tag : KeyTag) : list KeyBinding := map (resolve_binding l tag) sources.

(** [KeyScope], [key_context], [mirrors_into_find_field], [binding] and [key_bindings]. *)
Inductive KeyScope := Scope_Application | Scope_Workspace.
Definition scope (c : Command) : KeyScope :=
  match c with
  | ChooseWorkspace | NewWorkspace | OpenLocalDirectory | NewWorktree | KillWorkspace | NewTab | CloseTab | ClosePane | KeyboardShortcuts | About => Scope_Application
  | _ => Scope_Workspace
  end.
Definition scope_context (s : KeyScope) : option string := match s with Scope_Application => None | Scope_Workspace => Some "TerminalPane"%string end.
Definition mirrors_into_find_field (c : Command) : bool := match c with OpenTerminalFind | FindNext | FindPrevious => true | _ => false end.
Definition binding (c : Command) (s : Shortcut) (context : option string) : KeyBinding :=
  {| kb_keystrokes := [(ks_modifiers s, ks_key s)]; kb_action := action_of c; kb_context := context; kb_meta := Some CUSTOMIZABLE_BINDINGS |}.
Definition key_bindings (r : ResolvedKeymap) : list KeyBinding :=
  flat_map (λ c, flat_map (λ s, binding c s (scope_context (scope c)) ::
                                if mirrors_into_find_field c then [binding c s (Some "TerminalFind"%string)] else [])
                          (rk_shortcuts r c)) all_commands.

(** The profile with the bindings of the host, and [refresh_layout]. *)
Record HostProfile := { hp_profile : KeymapProfile; hp_fixed_sources : list KeyBinding; hp_control_sources : list KeyBinding;
                        hp_fixed : list KeyBinding; hp_control : list KeyBinding }.
Definition host_profile (p : KeymapProfile) (fixed control : list KeyBinding) : HostProfile :=
  {| hp_profile := p; hp_fixed_sources := fixed; hp_control_sources := control;
     hp_fixed := resolve_bindings fixed (pf_layout p) FIXED_BINDINGS; hp_control := resolve_bindings control (pf_layout p) CONTROL_BINDINGS |}.
Definition refresh_host (snapshot : option KeyboardLayout) (h : HostProfile) : HostProfile * result bool () :=
  match refresh_layout snapshot (hp_profile h) with
  | (p, Ok true) => (host_profile p (hp_fixed_sources h) (hp_control_sources h), Ok true)
  | (_, answer) => (h, answer)
  end.

(** [KeymapRuntime] with [InstalledKeymap] and the framework's list of bindings. *)
Record KeymapRuntime := { rt_host : HostProfile; rt_applied : KeybindingPreferences; rt_segment_start : nat;
                          rt_installed : ResolvedKeymap; rt_bindings : list KeyBinding }.

(** [DesktopProfile::install] then [install], onto the bindings of the controls. *)
Definition install_profile (snapshot : option KeyboardLayout) (h : HostProfile) (bound : list KeyBinding) : KeymapRuntime :=
  let h := (refresh_host snapshot h).1 in
  let resolved := resolve_keymap (hp_profile h) ∅ in
  let bindings := bound ++ key_bindings resolved ++ hp_control h ++ hp_fixed h in
  let start := default (length bindings - length (hp_control h) - length (hp_fixed h)) (vposition (has_tag CUSTOMIZABLE_BINDINGS) bindings) in
  {| rt_host := h; rt_applied := ∅; rt_segment_start := start; rt_installed := resolved; rt_bindings := bindings |}.

(** [Vec::splice] of an empty range, which panics past the end, and the other segments' replacement. *)
Definition splice_at (i : nat) (new l : list KeyBinding) : option (list KeyBinding) :=
  if i <=? length l then Some (take i l ++ new ++ drop i l) else None.
Definition retain_untagged (tag : KeyTag) (l : list KeyBinding) : list KeyBinding := vfilter (λ b, negb (has_tag tag b)) l.
Definition replace_tagged (tag : KeyTag) (replacement l : list KeyBinding) : option (list KeyBinding) :=
  match vposition (has_tag tag) l with Some i => splice_at i replacement (retain_untagged tag l) | None => Some l end.

(** [replace]; [None] if it panics. *)
Definition replace_bindings (prefs : KeybindingPreferences) (layout_changed : bool) (rt : KeymapRuntime) : option KeymapRuntime :=
  let h := rt_host rt in
  let resolved := resolve_keymap (hp_profile h) prefs in
  let start := default (rt_segment_start rt) (vposition (has_tag CUSTOMIZABLE_BINDINGS) (rt_bindings rt)) in
  bindings ← splice_at start (key_bindings resolved) (retain_untagged CUSTOMIZABLE_BINDINGS (rt_bindings rt));
  bindings ← (if layout_changed then replace_tagged CONTROL_BINDINGS (hp_control h) bindings else Some bindings);
  bindings ← (if layout_changed then replace_tagged FIXED_BINDINGS (hp_fixed h) bindings else Some bindings);
  Some {| rt_host := h; rt_applied := prefs; rt_segment_start := start; rt_installed := resolved; rt_bindings := bindings |}.

(** [apply] of the settings, [refresh_layout], and a control that binds keys of its own. *)
Inductive KeymapEvent := Apply (prefs : KeybindingPreferences) | LayoutChange (snapshot : option KeyboardLayout) | Bind (bindings : list KeyBinding).
Definition keymap_step (event : KeymapEvent) (rt : KeymapRuntime) : option KeymapRuntime :=
  match event with
  | Apply prefs => if bool_decide (rt_applied rt = prefs) then Some rt else replace_bindings prefs false rt
  | LayoutChange snapshot =>
      match refresh_host snapshot (rt_host rt) with
      | (h, Ok true) => replace_bindings (rt_applied rt) true
                          {| rt_host := h; rt_applied := rt_applied rt; rt_segment_start := rt_segment_start rt;
                             rt_installed := rt_installed rt; rt_bindings := rt_bindings rt |}
      | _ => Some rt
      end
  | Bind bindings => Some {| rt_host := rt_host rt; rt_applied := rt_applied rt; rt_segment_start := rt_segment_start rt;
                             rt_installed := rt_installed rt; rt_bindings := rt_bindings rt ++ bindings |}
  end.
Fixpoint keymap_run (events : list KeymapEvent) (rt : KeymapRuntime) : option KeymapRuntime :=
  match events with [] => Some rt | event :: events => rt ← keymap_step event rt; keymap_run events rt end.

(** *** Each segment stays in its place *)

Definition tagged (tag : KeyTag) (l : list KeyBinding) : Prop := Forall (λ b, kb_meta b = Some tag) l.
Definition untagged (tag : KeyTag) (l : list KeyBinding) : Prop := Forall (λ b, kb_meta b ≠ Some tag) l.

Lemma tagged_untagged tag tag' l : tag ≠ tag' → tagged tag l → untagged tag' l.
Proof. intros Hne H. eapply Forall_impl; [exact H|]. intros b E. cbn in E. congruence. Qed.
Lemma retain_app tag l l' : retain_untagged tag (l ++ l') = retain_untagged tag l ++ retain_untagged tag l'.
Proof. apply List.filter_app. Qed.
Lemma retain_none tag l : untagged tag l → retain_untagged tag l = l.
Proof. induction 1 as [|b l Hb _ IH]; [done|]. cbn. unfold has_tag at 1. rw bool_decide_eq_false_2 //=. f_equal. exact IH. Qed.
Lemma retain_tagged tag l : tagged tag l → retain_untagged tag l = [].
Proof. induction 1 as [|b l Hb _ IH]; [done|]. cbn. unfold has_tag at 1. rw bool_decide_eq_true_2 //=. Qed.
Lemma position_none tag l : untagged tag l → vposition (has_tag tag) l = None.
Proof. induction 1 as [|b l Hb _ IH]; [done|]. cbn. unfold has_tag at 1. rw bool_decide_eq_false_2 // IH. done. Qed.
Lemma position_segment tag pre seg post : untagged tag pre → tagged tag seg → untagged tag post →
  vposition (has_tag tag) (pre ++ seg ++ post) = match seg with [] => None | _ => Some (length pre) end.
Proof.
  intros Hpre Hseg Hpost. destruct Hseg as [|b seg Hb _].
  - apply position_none, Forall_app. by split.
  - apply vposition_first; [|by apply bool_decide_eq_true_2]. eapply Forall_impl; [exact Hpre|]. intros c Hc. by apply bool_decide_eq_false_2.
Qed.
Lemma splice_segment pre new post : splice_at (length pre) new (pre ++ post) = Some (pre ++ new ++ post).
Proof. unfold splice_at. rw length_app. assert ((length pre <=? length pre + length post) = true) as -> by (apply Nat.leb_le; lia). by rw take_app_length drop_app_length. Qed.
Lemma replace_segment tag pre seg post new : untagged tag pre → tagged tag seg → untagged tag post → (seg = [] → new = []) →
  replace_tagged tag new (pre ++ seg ++ post) = Some (pre ++ new ++ post).
Proof.
  intros Hpre Hseg Hpost Hnew. unfold replace_tagged. rw (position_segment tag pre seg post Hpre Hseg Hpost). destruct seg as [|b seg]; [by rw (Hnew eq_refl)|].
  rw !retain_app (retain_none tag pre Hpre) (retain_none tag post Hpost) (retain_tagged tag (b :: seg) Hseg). apply splice_segment.
Qed.

Lemma resolve_bindings_tagged l tag sources : tagged tag (resolve_bindings sources l tag).
Proof.
  apply Forall_map, Forall_true. intros b. unfold resolve_binding. destruct (kb_keystrokes b) as [|[m key] []]; try done. by destruct (from_keystroke m key).
Qed.
Lemma key_bindings_tagged r : tagged CUSTOMIZABLE_BINDINGS (key_bindings r).
Proof.
  apply Forall_forall. intros b Hb. apply list_elem_of_In, in_flat_map in Hb as (c & _ & (s & _ & Hb)%in_flat_map).
  destruct Hb as [<-|Hb]; [done|]. destruct (mirrors_into_find_field c); [|done]. by destruct Hb as [<-|[]].
Qed.

#[local] Opaque resolve_keymap key_bindings all_commands.

(** What the framework holds: the segments of the current profile and settings between bindings of others. *)
Definition host_ok (h : HostProfile) : Prop := h = host_profile (hp_profile h) (hp_fixed_sources h) (hp_control_sources h).
Definition others_only (l : list KeyBinding) : Prop := untagged CUSTOMIZABLE_BINDINGS l ∧ untagged CONTROL_BINDINGS l ∧ untagged FIXED_BINDINGS l.
Record installed_as (before after : list KeyBinding) (rt : KeymapRuntime) : Prop := {
  ia_host : host_ok (rt_host rt);
  ia_installed : rt_installed rt = resolve_keymap (hp_profile (rt_host rt)) (rt_applied rt);
  ia_start : rt_segment_start rt = length before;
  ia_bindings : rt_bindings rt = before ++ key_bindings (rt_installed rt) ++ hp_control (rt_host rt) ++ hp_fixed (rt_host rt) ++ after
}.

Lemma refresh_host_ok snapshot h : host_ok h → host_ok (refresh_host snapshot h).1.
Proof. intros Hh. unfold refresh_host. destruct (refresh_layout snapshot (hp_profile h)) as [p [[|]|]]; done. Qed.
Lemma refresh_sources snapshot h : hp_fixed_sources (refresh_host snapshot h).1 = hp_fixed_sources h ∧
  hp_control_sources (refresh_host snapshot h).1 = hp_control_sources h.
Proof. unfold refresh_host. by destruct (refresh_layout snapshot (hp_profile h)) as [p [[|]|]]. Qed.
Lemma host_tagged h : host_ok h → tagged CONTROL_BINDINGS (hp_control h) ∧ tagged FIXED_BINDINGS (hp_fixed h).
Proof. intros ->. split; apply resolve_bindings_tagged. Qed.

Lemma install_as snapshot h bound : host_ok h → others_only bound → installed_as bound [] (install_profile snapshot h bound).
Proof.
  intros Hh (Hb & _). pose proof (refresh_host_ok snapshot h Hh) as Hh'. unfold install_profile. cbv zeta. set (h' := (refresh_host snapshot h).1) in *.
  destruct (host_tagged h' Hh') as [Hc Hf]. split; [exact Hh'|reflexivity| |cbn [rt_bindings rt_installed rt_host]; by rw app_nil_r]. cbn [rt_segment_start].
  assert (untagged CUSTOMIZABLE_BINDINGS (hp_control h' ++ hp_fixed h')) as Hrest.
  { apply Forall_app. split; [by apply (tagged_untagged CONTROL_BINDINGS)|by apply (tagged_untagged FIXED_BINDINGS)]. }
  rw (position_segment _ bound _ _ Hb (key_bindings_tagged _) Hrest). generalize (key_bindings (resolve_keymap (hp_profile h') ∅)). intros [|b l]; [|reflexivity].
  cbn [default from_option]. rw !length_app. cbn [length]. lia.
Qed.

Lemma replace_hosts before new control control' fixed fixed' after : others_only before → others_only after → tagged CUSTOMIZABLE_BINDINGS new →
  tagged CONTROL_BINDINGS control → tagged CONTROL_BINDINGS control' → tagged FIXED_BINDINGS fixed → (control = [] → control' = []) → (fixed = [] → fixed' = []) →
  replace_tagged CONTROL_BINDINGS control' (before ++ new ++ control ++ fixed ++ after) = Some (before ++ new ++ control' ++ fixed ++ after) ∧
  replace_tagged FIXED_BINDINGS fixed' (before ++ new ++ control' ++ fixed ++ after) = Some (before ++ new ++ control' ++ fixed' ++ after).
Proof.
  intros (_ & B2 & B3) (_ & A2 & A3) Tn Tc Tc' Tf Nc Nf. split.
  - pose proof (replace_segment CONTROL_BINDINGS (before ++ new) control (fixed ++ after) control') as H. rw -!app_assoc in H. apply H; [|done| |done].
    + apply Forall_app. split; [done|by apply (tagged_untagged CUSTOMIZABLE_BINDINGS)].
    + apply Forall_app. split; [by apply (tagged_untagged FIXED_BINDINGS)|done].
  - pose proof (replace_segment FIXED_BINDINGS (before ++ new ++ control') fixed after fixed') as H. rw -!app_assoc in H. apply H; [|done..].
    apply Forall_app; split; [done|]. apply Forall_app; split; [by apply (tagged_untagged CUSTOMIZABLE_BINDINGS)|by apply (tagged_untagged CONTROL_BINDINGS)].
Qed.
Lemma replace_as before after prefs changed rt h : others_only before → others_only after → installed_as before after rt → host_ok h →
  hp_fixed_sources h = hp_fixed_sources (rt_host rt) → hp_control_sources h = hp_control_sources (rt_host rt) →
  (changed = false → h = rt_host rt) →
  ∃ rt', replace_bindings prefs changed {| rt_host := h; rt_applied := rt_applied rt; rt_segment_start := rt_segment_start rt;
                                           rt_installed := rt_installed rt; rt_bindings := rt_bindings rt |} = Some rt' ∧
    installed_as before after rt' ∧ rt_host rt' = h ∧ rt_applied rt' = prefs.
Proof.
  intros (B1 & B2 & B3) (A1 & A2 & A3) [H1 _ H3 H4] Hh Ef Ec Hsame. unfold replace_bindings. cbn [rt_host rt_segment_start rt_bindings].
  destruct (host_tagged _ H1) as [Tc Tf]. destruct (host_tagged _ Hh) as [Tc' Tf'].
  assert (hp_control (rt_host rt) = [] → hp_control h = []) as Nc by (rw H1 Hh /= Ec; by destruct (hp_control_sources (rt_host rt))).
  assert (hp_fixed (rt_host rt) = [] → hp_fixed h = []) as Nf by (rw H1 Hh /= Ef; by destruct (hp_fixed_sources (rt_host rt))).
  set (old := key_bindings (rt_installed rt)) in *. assert (tagged CUSTOMIZABLE_BINDINGS old) as To by apply key_bindings_tagged. clearbody old.
  set (new := key_bindings (resolve_keymap (hp_profile h) prefs)). assert (tagged CUSTOMIZABLE_BINDINGS new) as Tn by apply key_bindings_tagged.
  set (resolved := resolve_keymap (hp_profile h) prefs) in *.
  assert (untagged CUSTOMIZABLE_BINDINGS (hp_control (rt_host rt) ++ hp_fixed (rt_host rt) ++ after)) as Urest.
  { apply Forall_app. split; [by apply (tagged_untagged CONTROL_BINDINGS)|]. apply Forall_app. split; [by apply (tagged_untagged FIXED_BINDINGS)|done]. }
  assert (default (rt_segment_start rt) (vposition (has_tag CUSTOMIZABLE_BINDINGS) (rt_bindings rt)) = length before) as ->.
  { rw H4 (position_segment _ before old _ B1 To Urest). by destruct old. }
  assert (retain_untagged CUSTOMIZABLE_BINDINGS (rt_bindings rt) = before ++ hp_control (rt_host rt) ++ hp_fixed (rt_host rt) ++ after) as ->.
  { rw H4 retain_app (retain_app _ old) (retain_none _ before B1) (retain_tagged _ old To) (retain_none _ _ Urest). done. }
  rw splice_segment. cbn [mbind option_bind]. destruct changed.
  - destruct (replace_hosts before new (hp_control (rt_host rt)) (hp_control h) (hp_fixed (rt_host rt)) (hp_fixed h) after) as [E1 E2]; try done.
    rw E1. cbn [mbind option_bind]. rw E2. cbn [mbind option_bind].
    eexists. split; [reflexivity|]. split; [|done]. split; [exact Hh|reflexivity..].
  - eexists. split; [reflexivity|]. split; [|done]. split; [exact Hh|reflexivity..|]. cbn [rt_bindings rt_installed rt_host].
    change (key_bindings resolved) with new. clearbody new. clear -Hsame. by rw (Hsame eq_refl).
Qed.

Lemma step_as before after event rt : others_only before → others_only after → installed_as before after rt →
  match event with Bind bindings => others_only bindings | _ => True end →
  ∃ rt', keymap_step event rt = Some rt' ∧
    installed_as before (match event with Bind bindings => after ++ bindings | _ => after end) rt' ∧
    rt_applied rt' = (match event with Apply prefs => prefs | _ => rt_applied rt end) ∧
    rt_host rt' = (match event with LayoutChange snapshot => (refresh_host snapshot (rt_host rt)).1 | _ => rt_host rt end).
Proof.
  intros Hb Ha Hrt He. destruct event as [prefs|snapshot|bindings]; cbn [keymap_step].
  - case_bool_decide as E; [by exists rt|]. destruct rt as [h applied start installed bindings] eqn:Ert. rw -Ert in Hrt |- *.
    destruct (replace_as before after prefs false rt h Hb Ha Hrt) as (rt' & E1 & E2 & E3 & E4); [subst rt; apply Hrt|by subst rt..|].
    exists rt'. subst rt. done.
  - pose proof (refresh_host_ok snapshot _ (ia_host _ _ _ Hrt)) as Hh.
    assert (∀ h, refresh_host snapshot (rt_host rt) = (h, Ok true) → hp_fixed_sources h = hp_fixed_sources (rt_host rt) ∧
      hp_control_sources h = hp_control_sources (rt_host rt)) as Hs.
    { intros h. unfold refresh_host. destruct (refresh_layout snapshot (hp_profile (rt_host rt))) as [p [[|]|]]; [|done|done]. by intros [= <-]. }
    assert (∀ h, refresh_host snapshot (rt_host rt) = (h, Ok false) ∨ refresh_host snapshot (rt_host rt) = (h, Err ()) → h = rt_host rt) as Hk.
    { intros h. unfold refresh_host. destruct (refresh_layout snapshot (hp_profile (rt_host rt))) as [p [[|]|[]]]; naive_solver. }
    destruct (refresh_host snapshot (rt_host rt)) as [h [[|]|[]]]; cbn [fst] in Hh |- *.
    + destruct (Hs h eq_refl) as [Ef Ec]. destruct (replace_as before after (rt_applied rt) true rt h Hb Ha Hrt Hh Ef Ec) as (rt' & ? & ? & ? & ?); [done|]. by exists rt'.
    + exists rt. rw (Hk h ltac:(by left)). done.
    + exists rt. rw (Hk h ltac:(by right)). done.
  - eexists. split; [reflexivity|]. split; [|done]. destruct Hrt as [H1 H2 H3 H4]. split; [exact H1|exact H2|exact H3|]. cbn [rt_bindings rt_installed rt_host].
    rw H4 -!app_assoc. done.
Qed.

Lemma run_as before : others_only before → ∀ events after rt, others_only after → installed_as before after rt →
  Forall (λ event, match event with Bind bindings => others_only bindings | _ => True end) events →
  ∃ rt', keymap_run events rt = Some rt' ∧
    installed_as before (after ++ flat_map (λ event, match event with Bind bindings => bindings | _ => [] end) events) rt' ∧
    rt_applied rt' = foldl (λ prefs event, match event with Apply prefs' => prefs' | _ => prefs end) (rt_applied rt) events ∧
    rt_host rt' = foldl (λ h event, match event with LayoutChange snapshot => (refresh_host snapshot h).1 | _ => h end) (rt_host rt) events.
Proof.
  intros Hb. induction events as [|event events IH]; intros after rt Ha Hrt He; cbn [keymap_run flat_map foldl]; [exists rt; by rw app_nil_r|].
  apply Forall_cons in He as [He Hes]. destruct (step_as before after event rt Hb Ha Hrt He) as (rt1 & E1 & H1 & E2 & E3). rw E1. cbn [mbind option_bind].
  assert (others_only (match event with Bind bindings => after ++ bindings | _ => after end)) as Ha1.
  { destruct event; [done|done|]. destruct Ha as (? & ? & ?), He as (? & ? & ?). split; [by apply Forall_app|]. by split; apply Forall_app. }
  destruct (IH _ rt1 Ha1 H1 Hes) as (rt' & E4 & H4 & E5 & E6). exists rt'. split; [done|]. split; [|by rw E5 E6 E2 E3; destruct event].
  destruct event; [done..|]. by rw app_assoc.
Qed.

(** C20. Whatever settings are applied, layouts installed and bindings added by controls, replacing the
    keymap never fails and never disturbs the rest: the framework holds exactly the bindings it had, then
    those of the resolution of the settings last applied on the layout last known, then the host's control
    and fixed bindings on that layout, then what controls bound since, in their order. *)
Theorem keymap_stays_installed snapshot p fixed control bound events : others_only bound →
  Forall (λ event, match event with Bind bindings => others_only bindings | _ => True end) events →
  let rt := install_profile snapshot (host_profile p fixed control) bound in
  ∃ rt', keymap_run events rt = Some rt' ∧
    let h := foldl (λ h event, match event with LayoutChange snapshot => (refresh_host snapshot h).1 | _ => h end) (rt_host rt) events in
    let prefs := foldl (λ prefs event, match event with Apply prefs' => prefs' | _ => prefs end) ∅ events in
    rt_host rt' = h ∧ rt_applied rt' = prefs ∧ rt_installed rt' = resolve_keymap (hp_profile h) prefs ∧
    rt_bindings rt' = bound ++ key_bindings (resolve_keymap (hp_profile h) prefs) ++
      resolve_bindings control (pf_layout (hp_profile h)) CONTROL_BINDINGS ++ resolve_bindings fixed (pf_layout (hp_profile h)) FIXED_BINDINGS ++
      flat_map (λ event, match event with Bind bindings => bindings | _ => [] end) events.
Proof.
  intros Hb He. cbv zeta. set (h0 := host_profile p fixed control). assert (host_ok h0) as Hh0 by done.
  pose proof (install_as snapshot h0 bound Hh0 Hb) as H0. assert (rt_applied (install_profile snapshot h0 bound) = ∅) as Ea by done.
  assert (hp_fixed_sources (rt_host (install_profile snapshot h0 bound)) = fixed ∧ hp_control_sources (rt_host (install_profile snapshot h0 bound)) = control) as Es.
  { cbn [install_profile rt_host]. apply (refresh_sources snapshot h0). }
  revert H0 Ea Es. generalize (install_profile snapshot h0 bound). intros rt H0 Ea Es.
  destruct (run_as bound Hb events [] rt) as (rt' & E1 & H1 & E2 & E3); [by split_and!; constructor|done|done|]. exists rt'. split; [done|]. rw Ea in E2.
  destruct H1 as [K1 K2 _ K4]. cbn [app] in K4. rw K2 E2 E3 in K4. split; [done|]. split; [done|]. split; [by rw K2 E2 E3|]. rw K4.
  assert (∀ h, hp_fixed_sources h = fixed ∧ hp_control_sources h = control → let h' := foldl (λ h event, match event with LayoutChange snapshot => (refresh_host snapshot h).1 | _ => h end) h events in
    hp_fixed_sources h' = fixed ∧ hp_control_sources h' = control) as Hgo.
  { clear. induction events as [|event events IH]; intros h Hh; [done|]. cbn [foldl]. apply IH. destruct event as [|snapshot|]; [done| |done].
    destruct (refresh_sources snapshot h) as [-> ->]. done. }
  destruct (Hgo _ Es) as [Ef Ec]. rw -E3 in Ef Ec. rw -E3.
  assert (hp_control (rt_host rt') = resolve_bindings control (pf_layout (hp_profile (rt_host rt'))) CONTROL_BINDINGS) as -> by rw {1}K1 /= Ec //.
  assert (hp_fixed (rt_host rt') = resolve_bindings fixed (pf_layout (hp_profile (rt_host rt'))) FIXED_BINDINGS) as -> by rw {1}K1 /= Ef //.
  done.
Qed.
End runtime.
End Runtime.

(** ** Examples *)

Module Sample.
Definition chord (source : string) : Shortcut :=
  match parse_shortcut (lit source) with Ok s => s | Err _ => {| ks_modifiers := no_modifiers; ks_key := [] |} end.
Definition linux : KeymapProfile :=
  match linux_profile with
  | Some (Ok p) => p
  | _ => {| pf_layout := us_english; pf_conventions := ControlShiftShortcuts; pf_defaults := ∅; pf_reserved_sources := []; pf_reserved := [] |}
  end.
Lemma linux_own c : own_defaults linux c.
Proof.
  unfold linux. destruct (shipped_ready_spec _ linux_ready) as (p & E & H). rw E. exact (proj1 (profile_ready_spec p H c)).
Qed.

Lemma shortcut_reads_back_witness : from_keystroke (ks_modifiers (chord "ctrl-shift-a")) (lit "K") = Ok (chord "ctrl-shift-k") ∧
  parse_shortcut (display_shortcut (chord "ctrl-shift-k")) = Ok (chord "ctrl-shift-k").
Proof. split; [vm_compute; reflexivity|]. apply (shortcut_reads_back (ks_modifiers (chord "ctrl-shift-a")) (lit "K")). vm_compute. reflexivity. Defined.


(** Resetting takes a default back from the Command that was given it. *)
Lemma reset_restores_witness : let prefs := (assign linux ToggleSidebar (Some (chord "ctrl-shift-t")) ∅).1 in
  rk_shortcut (resolve_keymap linux prefs) ToggleSidebar = Some (chord "ctrl-shift-t") ∧
  rk_shortcut (resolve_keymap linux (reset_binding linux NewTab prefs)) NewTab = Some (chord "ctrl-shift-t").
Proof.
  set (prefs := (assign linux ToggleSidebar (Some (chord "ctrl-shift-t")) ∅).1). cbv zeta. split; [vm_compute; reflexivity|].
  assert (head (defaults_of linux NewTab) = Some (chord "ctrl-shift-t")) as Hh by (vm_compute; reflexivity).
  assert (check_shortcut linux (chord "ctrl-shift-t") = Ok ()) as Hk by (vm_compute; reflexivity).
  exact (proj1 (proj2 (reset_restores linux prefs NewTab (chord "ctrl-shift-t") (linux_own NewTab) Hh Hk))).
Defined.

Lemma changes_keep_valid_witness : let changes := [(linux, Assign NewTab (Some (chord "f3"))); (linux, Assign About (Some (chord "f3"))); (linux, Reset FindNext)] in
  preferences_validate ∅ = true ∧ preferences_validate (foldl change_binding ∅ changes) = true.
Proof. cbv zeta. split; [vm_compute; reflexivity|]. apply changes_keep_valid. vm_compute. reflexivity. Defined.

Lemma last_after {B} (a b c d : list B) x : last (a ++ b ++ c ++ d ++ [x]) = Some x.
Proof. rw !app_assoc. apply last_snoc. Qed.
(** A settings change, another layout and a control's own binding. *)
Lemma keymap_stays_installed_witness :
  let other : Runtime.KeyBinding (A:=Command) := Runtime.Build_KeyBinding [(no_modifiers, lit "enter")] About (Some "Button"%string) None in
  let copy : Runtime.KeyBinding (A:=Command) := Runtime.Build_KeyBinding [(ks_modifiers (chord "ctrl-shift-c"), lit "c")] About None None in
  let events := [Runtime.Apply {[NewTab := None]}; Runtime.LayoutChange (Some {| kl_plain := ∅; kl_command := ∅ |}); Runtime.Bind [other]] in
  ∃ rt', Runtime.keymap_run id events (Runtime.install_profile id (Some us_english) (Runtime.host_profile linux [copy] []) [other]) = Some rt' ∧
    Runtime.rt_applied rt' = {[NewTab := None]} ∧ last (Runtime.rt_bindings rt') = Some other.
Proof.
  cbv zeta. set (other := Runtime.Build_KeyBinding [(no_modifiers, lit "enter")] About (Some "Button"%string) None).
  assert (Runtime.others_only [other]) as Ho by (split; [|split]; (constructor; [discriminate|constructor])).
  set (copy := Runtime.Build_KeyBinding _ About None None).
  set (events := [Runtime.Apply _; Runtime.LayoutChange _; Runtime.Bind [other]]).
  assert (Forall (λ event, match event with Runtime.Bind bindings => Runtime.others_only bindings | _ => True end) events) as He.
  { constructor; [exact I|]. constructor; [exact I|]. constructor; [exact Ho|constructor]. }
  destruct (Runtime.keymap_stays_installed id (Some us_english) linux [copy] [] [other] events Ho He) as (rt' & E & _ & Ea & _ & Eb).
  exists rt'. split; [exact E|]. split; [exact Ea|]. rw Eb. change (flat_map _ events) with [other]. apply last_after.
Defined.

(** What the desktop keeps is refused, and changes nothing. *)
Example reserved_refused prefs : assign linux NewTab (Some (chord "ctrl-shift-c")) prefs = (prefs, Err (Reservation_System Reserved_Copy)).
Proof.
  unfold assign. assert (check_shortcut linux (chord "ctrl-shift-c") = Err (Reservation_System Reserved_Copy)) as E by (vm_compute; reflexivity).
  by rw E.
Qed.
(** The primary that a displaced Command keeps is retained as the current layout writes it, and no longer
    follows the keyboard to another layout. *)
Example displaced_spelling_is_resolved : (assign linux NewTab (Some (chord "ctrl-shift-f6")) ∅).1 !! FocusNextPane = Some (Some (chord "ctrl-}")) ∧
  pf_defaults linux !! FocusNextPane = Some [chord "ctrl-shift-]"; chord "ctrl-shift-f6"].
Proof. split; vm_compute; reflexivity. Qed.
End Sample.
